(* ===== verification/_CoqProject ===== *)
-Q . S2P
Prelude.v
Striper.v
Hash.v
Armor.v
Crush.v
CrushLn.v
Mapper.v
Choose.v
Indep.v
DoRule.v
Workspace.v
OsdMap.v
Placement.v
CrushLoc.v
OsdTarget.v
Decode.v
CrushDecode.v
CrushWire.v
OsdMapDecode.v
OsdMapWire.v
OsdUpdate.v
OsdMessages.v
OsdFullMap.v
OsdIncremental.v
Rbd.v
RbdObject.v
RbdMachine.v
RbdObjectMap.v
RbdParent.v
RbdSends.v
RbdStages.v
RbdSteps.v
RbdInit.v
RbdComplete.v
RbdWorld.v
RbdRefine.v
RbdRead.v
RbdImage.v
RbdLock.v
RbdLockSafe.v
RbdLockProof.v
RbdMapLoad.v
OsdBackoff.v
State.v
OsdData.v
OsdClient.v
OsdLinger.v
OsdMapChange.v
OsdReply.v
OsdEvents.v
OsdInv.v
OsdSafe.v
OsdRequests.v
OsdSubmit.v
OsdSessions.v
OsdLoops.v
OsdTimeouts.v
OsdReplies.v
OsdScan.v
OsdResend.v
OsdMaps.v
OsdSteps.v
MsgData.v
MsgSegments.v
MsgSend.v
Connection.v
Peer.v
ConnNet.v
Delivery.v
