(* ===== verification/Prelude.v ===== *)
(** * A verification of the Ceph client behind RBD (libceph, rbd)

    The repository is the in-kernel Ceph client: [libceph] (src/kernel-modules/src/libceph) and
    the block device driver [rbd] (src/kernel-modules/src/rbd); below, LC and RBD.  This
    development models the code that decides where the bytes of a block device are and what they
    are, and proves it correct.

    ** The parts and how they interact

    A block request to an image is cut into requests on objects (striping), each object is hashed
    to a placement group and the group mapped to OSDs by CRUSH and the exceptions of the OSD map
    (placement).  The map comes from the monitors as a full map and as increments (decoding).
    Each object request is a state machine that sends operations to the OSD of its object, keeps
    the object map and copies data of a parent image up (RBD).  What it sends the OSD client links to a
    session with that OSD, sends, and sends again when maps, faults or the OSD say so, until it completes.

    - Prelude: machine integers as [Z] with their wrap-around ([u8] .. [u64], [s8], [s32], [s64]),
      the [outcome] monad, loops, arrays, lemmas and tactics shared by all.
    - Striper: LC/striper.c.  File extents to object extents and back.
    - Hash, Armor: LC/crush/hash.c, LC/ceph_hash.c, LC/armor.c.
    - Crush, CrushLn, Mapper, Choose, Indep, DoRule: LC/crush/crush.c, LC/crush/mapper.c and the
      tables of crush_ln_table.h.  A map as data ([crush_map]); one function per bucket algorithm
      ([bucket_*_choose]); the two descents ([crush_choose_firstn], [crush_choose_indep]); the
      interpreter of rules ([crush_do_rule]) over the scratch memory [crush_init_workspace] lays out.
    - Workspace: get_workspace and put_workspace of LC/osdmap.c as a step relation of interleaved
      tasks.
    - OsdMap, Placement: the rest of LC/osdmap.c that computes.  Pools, groups, OSD sets, the
      test for new intervals; [ceph_object_locator_to_pg], [ceph_pg_to_up_acting_osds],
      [ceph_pg_to_acting_primary].
    - CrushLoc: the CRUSH locations of LC/osdmap.c, and how near an OSD is to one.
    - Decode, CrushDecode, CrushWire: decode.h and LC/decode.c; [crush_decode] of LC/osdmap.c; a
      reference encoder of CRUSH maps written from the format.
    - OsdMapDecode, OsdMapWire, OsdUpdate, OsdMessages, OsdFullMap, OsdIncremental:
      [osdmap_decode] and [osdmap_apply_incremental] of LC/osdmap.c, the messages as data with
      their encoding and what they denote, and that the decoders do that.
    - Rbd, RbdObject, RbdMachine, RbdObjectMap: RBD/rbd.c, the requests on one object.  Their
      data and predicates, what is prepared and sent, the state machines
      ([rbd_obj_advance_read], [rbd_obj_advance_write], [rbd_obj_advance_copyup]), the object map.
    - RbdParent, RbdSends, RbdStages, RbdSteps, RbdInit, RbdComplete: that writes complete.
      RbdStages has the stages a write can stand at, each with what is outstanding; RbdSteps
      the transition of each.
    - RbdWorld, RbdRefine, RbdRead: an OSD and a parent image as parameters ([Osd], [OsdReads],
      classes of laws), and that writes do to the bytes of the image what they say and reads
      return them.
    - RbdImage, RbdLock, RbdLockSafe, RbdLockProof: image requests ([rbd_img_advance]) and the
      exclusive lock of RBD/rbd.c.  A step ([lstep]) is what runs under [lock_rwsem]: a request that comes or
      goes on, a work of the queue, a notification; the answers of the cluster are in the event.
    - RbdMapLoad: [rbd_object_map_open], which acquiring the lock calls.
    - OsdTarget, OsdBackoff: [calc_target] of LC/osd_client.c with all its parts, and the backoffs of a session.
    - State, OsdData, OsdClient, OsdLinger, OsdMapChange, OsdReply, OsdEvents: the rest of LC/osd_client.c that
      changes its state.  A client is a record ([client]) with its sessions, requests, lingering requests, map checks and
      queues; pointers are numbers into its heaps; an operation is a function on the client ([C]), an event
      of the outside one step ([osd_step]): a submission, a map, a reply, a backoff, a fault, a timeout, a cancellation.
    - OsdInv, OsdSafe, OsdRequests, OsdSubmit, OsdSessions, OsdLoops, OsdTimeouts, OsdReplies, OsdScan, OsdResend,
      OsdMaps, OsdSteps: the invariant of a client without lingering requests, and that each operation keeps it.
      OsdInv has the invariant; OsdMaps reads a message with maps twice, as the maps it goes through and as what the
      client does, and shows that the second follows the first; OsdSteps has the runs and the theorems.
    - MsgData, MsgSegments, MsgSend: a message's data.  MsgData has the items and the cursor of
      LC/messenger.c, the iterators of the kernel as classes with their laws ([BvecIter], [IovIter]), of which
      MsgSegments has implementations; MsgSend the loops of LC/messenger_v1.c that write and read the data.
    - Connection, Peer, ConnNet, Delivery: the connections of LC/messenger.c with the sessions of both protocols
      (LC/messenger_v1.c, LC/messenger_v2.c).  Peer has the other end, a daemon, as a parameter with the laws of the
      protocol ([PeerLaws]); ConnNet a connection with its peer and what can happen ([step]), and what
      each operation does to the queues; Delivery the invariant and that messages are delivered.

    Each file requires the ones it calls.  The decoders produce the maps ([crush_map_wf],
    [osdmap_wf]) whose well-formedness the mapper and placement rely on.

    ** Conventions

    A C integer is the [Z] it denotes, wrapped where the code wraps.  [outcome] is [Ret], [Undef]
    (an access out of bounds, a null pointer, a failed BUG_ON or rbd_assert) or [NoFuel].  No
    theorem is of the kind "if it returns": each says that the code returns ([Ret]).  Loops are
    [loop] with fuel from the code's own bound, such as the retries of the tunables, the length of
    a list or what remains of a buffer; where the bound is not in the code, the theorem says which
    fuel is enough.  A memory allocation asks an oracle that may fail it; fresh memory
    is arbitrary.  A mutable object is passed as a state: a decoder is a function on the map it
    fills, an object request one on [ost], with the list of what it has sent.  Callbacks and
    completions are events.

    ** What the theorems show

    - Striping: the extents are canonical, inverse to the reverse map, counted exactly.
    - Hashes and base64: the in-place code is the reference definition; what is encoded is decoded.
    - CRUSH: for every well-formed map, input and weights, the code ends, stays within its
      tables and buffers, and chooses distinct items of the right type that are not out;
      [crush_do_rule] gives distinct devices for the usual rules; workspaces are exclusive in every
      interleaving and no sleeper is forgotten.
    - Placement: the pipeline refines a pure specification; the up set holds only OSDs that are up;
      the splitting and interval tests are exact.
    - Decoding: any bytes are decoded without leaving the buffer where that holds, every message the
      formats can express is decoded to what it denotes, increments change the map as their parts say.
    - RBD: whatever fails and in whatever order completions come, a write hits no assertion and
      completes once, but for a zeroout whose parent overlap shrinks under it ([dev_ok], RbdComplete); against an OSD that carries out what it is sent, all or none of its bytes change, and
      the object map never denies an object that exists; reads return the bytes.  Loading the
      object map never reads past what was received.  The exclusive lock is held while
      requests that need it run, and who waits for it is not forgotten unless the notification of
      its release is lost; two races are left out and shown to fail ([race], RbdLockSafe).

    - The OSD client: a target is where the placement puts its object; what a backoff
      holds back is what the OSD said.  In every run without lingering requests, whatever the order of its events
      but for the cases in which the code itself loses a request or completes it twice (OsdSteps, [enabled]),
      each unfinished request is on the session of the OSD that the present map gives it, with its message on a
      connection to that OSD's present address or a reason to wait; requests complete once; and
      no event finds a list, a tree or a pointer in a state that it cannot handle.

    - The messenger: whatever pieces a socket takes or gives, the bytes of a message's data go out and come in in
      order and in their places.  On a connection that is not lossy, with any peer that keeps to the laws of the protocol
      and keeps its session, messages are delivered in order and once, through any faults in sessions
      and handshakes, and can all still be delivered from every state.  Messages are revoked only
      before they are sent.

    Where the code is wrong, the theorem excludes the case and an Example shows it
    (see the doc comments next to the theorems).

    ** Not modelled

    Locks, reference counts and work queues: operations are atomic where the code holds
    a lock, and the interleavings are modelled where it drops it (Workspace, completions of object
    requests, submissions that wait for the write lock).  Of the transport, the bytes of frames,
    partial reads and writes of them, encryption, banners, hello and authentication (LC/messenger_v*.c, LC/msgpool.c); the monitor client, authentication and cryptography; how request messages are allocated and encoded, sparse reads;
    image headers, parents, mapping and sysfs of RBD/rbd.c; the Kerberos library
    (src/kernel-modules/src/krb5).  The invariant of the OSD client leaves lingering requests out: their operations
    are modelled, their events not part of the runs. *)
From Stdlib Require Export ZArith Lia List.
From stdpp Require Export base tactics option list list_numbers numbers decidable fin_maps gmap strings sorting.
From Stdlib Require Import Zquot.

#[global] Open Scope Z_scope.

(** * Machine integers

    An object of a C integer type is the [Z] it denotes; a conversion to the type wraps. *)
Definition u8 (x : Z) : Z := x mod 2 ^ 8.
Definition u16 (x : Z) : Z := x mod 2 ^ 16.
Definition u32 (x : Z) : Z := x mod 2 ^ 32.
Definition u64 (x : Z) : Z := x mod 2 ^ 64.
Definition s8 (x : Z) : Z := (x + 2 ^ 7) mod 2 ^ 8 - 2 ^ 7.
Definition s32 (x : Z) : Z := (x + 2 ^ 31) mod 2 ^ 32 - 2 ^ 31.
Definition s64 (x : Z) : Z := (x + 2 ^ 63) mod 2 ^ 64 - 2 ^ 63.

(** Error numbers. *)
Definition ENOENT : Z := 2.
Definition ENOMEM : Z := 12.
Definition EEXIST : Z := 17.
Definition EINVAL : Z := 22.
Definition ERANGE : Z := 34.

(** Pages ([libceph.h]). *)
Definition PAGE_SIZE : Z := 4096.
Definition calc_pages_for (off len : Z) : Z :=
  s32 (Z.shiftr (u64 (off + len + PAGE_SIZE - 1)) 12 - Z.shiftr off 12).

(** C truncates a boolean condition to 0 or 1. *)
Definition nonzero (x : Z) : bool := negb (x =? 0).

Create HintDb words discriminated.
Create Rewrite HintDb words.

Section words.
Implicit Types x y : Z.

Lemma u8_range x : 0 <= u8 x < 2 ^ 8.
Proof. apply Z.mod_pos_bound. lia. Qed.
Lemma u16_range x : 0 <= u16 x < 2 ^ 16.
Proof. apply Z.mod_pos_bound. lia. Qed.
Lemma u32_range x : 0 <= u32 x < 2 ^ 32.
Proof. apply Z.mod_pos_bound. lia. Qed.
Lemma u64_range x : 0 <= u64 x < 2 ^ 64.
Proof. apply Z.mod_pos_bound. lia. Qed.
Lemma s32_range x : - 2 ^ 31 <= s32 x < 2 ^ 31.
Proof. unfold s32. pose proof (Z.mod_pos_bound (x + 2 ^ 31) (2 ^ 32)). lia. Qed.
Lemma s64_range x : - 2 ^ 63 <= s64 x < 2 ^ 63.
Proof. unfold s64. pose proof (Z.mod_pos_bound (x + 2 ^ 63) (2 ^ 64)). lia. Qed.

Lemma u8_small x : 0 <= x < 2 ^ 8 → u8 x = x.
Proof. apply Z.mod_small. Qed.
Lemma u16_small x : 0 <= x < 2 ^ 16 → u16 x = x.
Proof. apply Z.mod_small. Qed.
Lemma u32_small x : 0 <= x < 2 ^ 32 → u32 x = x.
Proof. apply Z.mod_small. Qed.
Lemma u64_small x : 0 <= x < 2 ^ 64 → u64 x = x.
Proof. apply Z.mod_small. Qed.
Lemma s32_small x : - 2 ^ 31 <= x < 2 ^ 31 → s32 x = x.
Proof. intros. unfold s32. rewrite Z.mod_small; lia. Qed.
Lemma s64_small x : - 2 ^ 63 <= x < 2 ^ 63 → s64 x = x.
Proof. intros. unfold s64. rewrite Z.mod_small; lia. Qed.

Lemma u32_u32 x : u32 (u32 x) = u32 x.
Proof. apply u32_small, u32_range. Qed.
Lemma u32_s32 x : u32 (s32 x) = u32 x.
Proof.
  unfold u32, s32. rewrite Zminus_mod_idemp_l. f_equal. lia.
Qed.
Lemma s32_u32 x : s32 (u32 x) = s32 x.
Proof. unfold u32, s32. by rewrite Zplus_mod_idemp_l. Qed.
End words.

#[export] Hint Resolve u8_range u16_range u32_range u64_range s32_range s64_range : words.
#[export] Hint Rewrite u32_u32 u32_s32 s32_u32 : words.

(** Rewrite every conversion whose argument [lia] proves to be in range. *)
Ltac word_small :=
  repeat match goal with
  | |- context [u8 ?x] => rewrite (u8_small x) by lia
  | |- context [u16 ?x] => rewrite (u16_small x) by lia
  | |- context [u32 ?x] => rewrite (u32_small x) by lia
  | |- context [u64 ?x] => rewrite (u64_small x) by lia
  | |- context [s32 ?x] => rewrite (s32_small x) by lia
  | |- context [s64 ?x] => rewrite (s64_small x) by lia
  end.

(** Turn the boolean tests of the code, in hypotheses and goal, into propositions. *)
Ltac bool_to_prop :=
  repeat match goal with
  | H : (_ =? _) = true |- _ => apply Z.eqb_eq in H
  | H : (_ =? _) = false |- _ => apply Z.eqb_neq in H
  | H : (_ <? _) = true |- _ => apply Z.ltb_lt in H
  | H : (_ <? _) = false |- _ => apply Z.ltb_ge in H
  | H : (_ <=? _) = true |- _ => apply Z.leb_le in H
  | H : (_ <=? _) = false |- _ => apply Z.leb_gt in H
  | H : (_ >? _) = _ |- _ => rewrite Z.gtb_ltb in H
  | H : (_ >=? _) = _ |- _ => rewrite Z.geb_leb in H
  | H : (_ && _) = true |- _ => apply andb_true_iff in H as [? ?]
  | H : (_ && _) = false |- _ => apply andb_false_iff in H
  | H : (_ || _) = true |- _ => apply orb_true_iff in H
  | H : (_ || _) = false |- _ => apply orb_false_iff in H as [? ?]
  | H : negb _ = true |- _ => apply negb_true_iff in H
  | H : negb _ = false |- _ => apply negb_false_iff in H
  end.

(** Division by a known divisor of a quotient and a remainder. *)
Lemma div_mod_add q d r : 0 <= r < d → (q * d + r) / d = q ∧ (q * d + r) mod d = r.
Proof.
  intros Hr. split.
  - symmetry. apply (Z.div_unique_pos _ _ _ r); lia.
  - symmetry. apply (Z.mod_unique_pos _ _ q); lia.
Qed.

(** * Outcomes of a computation

    [Undef] is what C leaves undefined or what stops the kernel: an access outside an
    array, a null pointer followed, a division by zero, [BUG_ON].  [NoFuel] is a loop cut
    short by the fuel of its model; the termination theorems exclude it. *)
Inductive outcome (A : Type) : Type :=
  | Ret (a : A)
  | Undef
  | NoFuel.
Arguments Ret {A} a.
Arguments Undef {A}.
Arguments NoFuel {A}.

#[export] Instance outcome_ret : MRet outcome := λ A a, Ret a.
#[export] Instance outcome_bind : MBind outcome := λ A B f m,
  match m with Ret a => f a | Undef => Undef | NoFuel => NoFuel end.
#[export] Instance outcome_fmap : FMap outcome := λ A B f m,
  match m with Ret a => Ret (f a) | Undef => Undef | NoFuel => NoFuel end.

(** The value of a pointer or an array cell that must be there. *)
Definition deref {A} (o : option A) : outcome A :=
  match o with Some a => Ret a | None => Undef end.

(** [a[i]] for an index of any C integer type. *)
Definition aget {A} (l : list A) (i : Z) : outcome A :=
  if i <? 0 then Undef else deref (l !! Z.to_nat i).

(** [a[i] = v]: outside the array it is an error, not a no-op. *)
Definition aset {A} (l : list A) (i : Z) (v : A) : outcome (list A) :=
  if (0 <=? i) && (i <? Z.of_nat (length l)) then Ret (<[Z.to_nat i := v]> l) else Undef.

Definition require (b : bool) : outcome unit := if b then Ret tt else Undef.

(** A loop: the body yields the next state ([inl]) or the result ([inr]). *)
Fixpoint loop {S R} (fuel : nat) (body : S → outcome (S + R)) (s : S) : outcome R :=
  match fuel with
  | O => NoFuel
  | Datatypes.S n =>
      o ← body s;
      match o with inl s' => loop n body s' | inr r => Ret r end
  end.

(** [for (i = from; i < from + n; i++)] *)
Fixpoint for_range {S} (n : nat) (from : Z) (body : Z → S → outcome S) (s : S) : outcome S :=
  match n with
  | O => Ret s
  | Datatypes.S n => s ← body from s; for_range n (from + 1) body s
  end.

(** * Total correctness

    [wp m Q]: the computation [m] produces a result, and the result satisfies [Q]. *)
Definition wp {A} (m : outcome A) (Q : A → Prop) : Prop :=
  match m with Ret a => Q a | _ => False end.

Create HintDb wp discriminated.
Create Rewrite HintDb wp.

Section wp.
Context {A B : Type}.
Implicit Types (m : outcome A) (P Q : A → Prop).

Lemma wp_ret (a : A) Q : Q a → wp (Ret a) Q.
Proof. done. Qed.
Lemma wp_mret (a : A) Q : Q a → wp (mret a) Q.
Proof. done. Qed.
Lemma wp_bind (f : A → outcome B) m (Q : B → Prop) :
  wp m (λ a, wp (f a) Q) → wp (m ≫= f) Q.
Proof. by destruct m. Qed.
Lemma wp_mono m P Q : wp m P → (∀ a, P a → Q a) → wp m Q.
Proof. destruct m; simpl; auto. Qed.
Lemma wp_exists m Q : wp m Q ↔ ∃ a, m = Ret a ∧ Q a.
Proof.
  split.
  - destruct m; simpl; [eauto|done..].
  - by intros (a & -> & ?).
Qed.
Lemma wp_eq m a : m = Ret a → wp m (λ x, x = a).
Proof. by intros ->. Qed.
Lemma wp_and m P Q : wp m P → wp m Q → wp m (λ a, P a ∧ Q a).
Proof. by destruct m. Qed.

Lemma wp_deref (o : option A) a Q : o = Some a → Q a → wp (deref o) Q.
Proof. by intros ->. Qed.
Lemma wp_aget (l : list A) i a Q :
  0 <= i → l !! Z.to_nat i = Some a → Q a → wp (aget l i) Q.
Proof. intros Hi Hl HQ. unfold aget. destruct (Z.ltb_spec i 0); [lia|]. by rewrite Hl. Qed.
Lemma wp_aset (l : list A) i v (Q : list A → Prop) :
  0 <= i < Z.of_nat (length l) → Q (<[Z.to_nat i := v]> l) → wp (aset l i v) Q.
Proof.
  intros Hi HQ. unfold aset.
  by rewrite (proj2 (Z.leb_le 0 i)), (proj2 (Z.ltb_lt i _)) by lia.
Qed.
Lemma wp_require b (Q : unit → Prop) : b = true → Q tt → wp (require b) Q.
Proof. by intros ->. Qed.
End wp.

Section wp_loops.
(** A loop terminates and establishes [Q] when its body preserves [I] and decreases a
    measure, or stops in [Q]. *)
Lemma wp_loop {S R} (I : S → Prop) (measure : S → nat) (Q : R → Prop)
    (body : S → outcome (S + R)) fuel s :
  (∀ s, I s → wp (body s) (λ o,
     match o with
     | inl s' => I s' ∧ (measure s' < measure s)%nat
     | inr r => Q r
     end)) →
  I s → (measure s < fuel)%nat → wp (loop fuel body s) Q.
Proof.
  intros Hbody. revert s. induction fuel as [|fuel IH]; intros s HI Hm; [lia|].
  simpl. apply wp_bind. eapply wp_mono; [by apply Hbody|].
  intros [s'|r] Ho; [|done]. destruct Ho. apply IH; [done|lia].
Qed.

Lemma wp_for_range {S} (I : Z → S → Prop) (body : Z → S → outcome S) n from s :
  (∀ i s, from <= i < from + Z.of_nat n → I i s → wp (body i s) (I (i + 1))) →
  I from s → wp (for_range n from body s) (I (from + Z.of_nat n)).
Proof.
  revert from s. induction n as [|n IH]; intros from s Hbody HI; simpl.
  - replace (from + Z.of_nat 0) with from by lia. done.
  - apply wp_bind. eapply wp_mono; [apply Hbody; [lia|done]|].
    intros s' HI'. replace (from + Z.of_nat (Datatypes.S n)) with (from + 1 + Z.of_nat n) by lia.
    apply IH; [|done]. intros i s'' Hi. apply Hbody. lia.
Qed.
End wp_loops.

#[export] Hint Resolve wp_ret wp_mret : wp.

(** One step of a [wp] proof along the structure of the program. *)
Ltac wp_step :=
  lazymatch goal with
  | |- wp (_ ≫= _) _ => apply wp_bind
  | |- wp (Ret _) _ => apply wp_ret
  | |- wp (mret _) _ => apply wp_mret
  | |- wp (let '(_, _) := ?p in _) _ => destruct p eqn:?
  | |- wp (if ?b then _ else _) _ => destruct b eqn:?
  | |- wp (match ?x with _ => _ end) _ => destruct x eqn:?
  end; cbv beta.

(** One round of a loop. *)
Lemma loop_inl {S R} n (body : S → outcome (S + R)) s s' :
  body s = Ret (inl s') → loop (Datatypes.S n) body s = loop n body s'.
Proof. simpl. by intros ->. Qed.
Lemma loop_inr {S R} n (body : S → outcome (S + R)) s r :
  body s = Ret (inr r) → loop (Datatypes.S n) body s = Ret r.
Proof. simpl. by intros ->. Qed.

(** Loops that more fuel does not change. *)
Lemma loop_fuel_mono {S R} (body : S → outcome (S + R)) n m s r :
  (n <= m)%nat → loop n body s = Ret r → loop m body s = Ret r.
Proof.
  revert m s. induction n as [|n IH]; intros [|m] s Hle; try (done || lia).
  simpl. destruct (body s) as [[s'|r']| |]; simpl; try done. apply IH. lia.
Qed.

(** * Lists *)
Section sorted_lists.
Context {A : Type} (R : A → A → Prop).

Lemma StronglySorted_insert_mid l1 l2 y :
  StronglySorted R (l1 ++ l2) → (∀ x, x ∈ l1 → R x y) → (∀ x, x ∈ l2 → R y x) →
  StronglySorted R (l1 ++ y :: l2).
Proof.
  rewrite !StronglySorted_app, StronglySorted_cons, Forall_forall.
  intros (H12 & ? & ?) H1 H2. repeat split; [|done..].
  intros x1 x2 ? [->|]%elem_of_cons; auto.
Qed.

Lemma StronglySorted_remove_mid l1 l2 y :
  StronglySorted R (l1 ++ y :: l2) → StronglySorted R (l1 ++ l2).
Proof. rewrite !StronglySorted_app, StronglySorted_cons. set_solver. Qed.

Lemma StronglySorted_mid l1 l2 y :
  StronglySorted R (l1 ++ y :: l2) → (∀ x, x ∈ l1 → R x y) ∧ (∀ x, x ∈ l2 → R y x).
Proof. rewrite !StronglySorted_app, StronglySorted_cons, Forall_forall. set_solver. Qed.
End sorted_lists.

Section lists.
Context {A : Type}.
Implicit Types l k : list A.

Lemma lookup_Z_Some l (i : Z) :
  0 <= i < Z.of_nat (length l) → ∃ a, l !! Z.to_nat i = Some a.
Proof. intros ?. apply lookup_lt_is_Some_2. lia. Qed.
End lists.

Lemma foldr_add_acc (l : list Z) z : foldr Z.add z l = foldr Z.add 0 l + z.
Proof. induction l as [|x l IH]; simpl; lia. Qed.

(** A boolean property of [n] consecutive integers, by evaluation. *)
Fixpoint forall_range (n : nat) (from : Z) (P : Z → bool) : bool :=
  match n with
  | O => true
  | Datatypes.S n => if P from then forall_range n (from + 1) P else false
  end.

Lemma forall_range_true n from P :
  forall_range n from P = true → ∀ x, from <= x < from + Z.of_nat n → P x = true.
Proof.
  revert from. induction n as [|n IH]; simpl; intros from HP x Hx; [lia|].
  destruct (P from) eqn:HPf; [|done].
  destruct (Z.eq_dec x from) as [->|?]; [done|]. apply (IH (from + 1)); [done|lia].
Qed.

(** The bytes of a string literal. *)
Definition chars (s : string) : list Z :=
  map (λ c, Z.of_N (Ascii.N_of_ascii c)) (String.list_ascii_of_string s).

(** * Trees

    [DEFINE_RB_INSDEL_FUNCS] of libceph.h: a search tree is a map from its keys.  [__insert_*]
    refuses a key that is there ([None]); [insert_*] does not return then, nor [erase_*] without
    its node. *)
Section trees.
Context `{Countable K} {A : Type}.
Implicit Types (t : gmap K A).

Definition rb_try_insert (k : K) (a : A) t : option (gmap K A) :=
  match t !! k with Some _ => None | None => Some (<[k := a]> t) end.
Definition rb_insert (k : K) (a : A) t : outcome (gmap K A) := deref (rb_try_insert k a t).
Definition rb_erase (k : K) t : outcome (gmap K A) := _ ← deref (t !! k); Ret (delete k t).
End trees.
