(* ===== verification/Striper.v ===== *)
(** * Striping (libceph/striper.c)

    The map between the bytes of a file (an RBD image) and the bytes of the RADOS objects that
    store it: forward ([ceph_file_to_extents], [ceph_iterate_extents]), backward
    ([ceph_extent_to_file]), and the number of objects of a file.

    A [struct list_head] of object extents is the list of the extents in list order; the
    callbacks [alloc_fn] and [action_fn] are functions on a state [A] that holds both of their
    arguments.  [locate] and [unlocate] are the specification: the object byte of a file byte
    and the file byte of an object byte. *)
From S2P Require Import Prelude.
From Stdlib Require Import Sorting.Sorted.

(** ** Data *)

Record ceph_file_layout := {
  stripe_unit : Z;   (* u32 *)
  stripe_count : Z;  (* u32 *)
  object_size : Z;   (* u32 *)
}.

Record ceph_object_extent := {
  oe_objno : Z;  (* u64 *)
  oe_off : Z;    (* u64 *)
  oe_len : Z;    (* u64 *)
}.

Record ceph_file_extent := {
  fe_off : Z;  (* u64 *)
  fe_len : Z;  (* u64 *)
}.

#[export] Instance ceph_object_extent_eq_dec : EqDecision ceph_object_extent.
Proof. solve_decision. Defined.
#[export] Instance ceph_file_extent_eq_dec : EqDecision ceph_file_extent.
Proof. solve_decision. Defined.

(** ** Operations *)

(** [div_u64_rem] and its relatives: a zero divisor traps. *)
Definition div_u64_rem (n d : Z) : outcome (Z * Z) :=
  if d =? 0 then Undef else Ret (n / d, n mod d).

Lemma div_u64_rem_nz n d : d ≠ 0 → div_u64_rem n d = Ret (n / d, n mod d).
Proof. intros. unfold div_u64_rem. by rewrite (proj2 (Z.eqb_neq d 0)). Qed.

(** Returns [*objno], [*objoff] and [*xlen]. *)
Definition ceph_calc_file_object_mapping (l : ceph_file_layout) (off len : Z)
    : outcome (Z * Z * Z) :=
  '(stripes_per_object, _) ← div_u64_rem (object_size l) (stripe_unit l);
  '(blockno, blockoff) ← div_u64_rem off (stripe_unit l);
  '(stripeno, stripepos) ← div_u64_rem blockno (stripe_count l);
  '(objsetno, objsetpos) ← div_u64_rem stripeno stripes_per_object;
  let objno := u64 (u64 (objsetno * stripe_count l) + stripepos) in
  let objoff := u32 (u32 (objsetpos * stripe_unit l) + blockoff) in
  let xlen := u32 (Z.min len (u32 (stripe_unit l - blockoff))) in
  Ret (objno, objoff, xlen).

(** The backward walk of [lookup_last] is a zipper: [prev] holds the extents not yet visited,
    nearest first, [next] those visited.  [LastAt] is the extent found; [AddAfter] is the
    position [add_pos] at which the walk stopped. *)
Inductive lookup_last_result :=
  | LastAt (prev : list ceph_object_extent) (ex : ceph_object_extent)
           (next : list ceph_object_extent)
  | AddAfter (prev next : list ceph_object_extent).

Fixpoint lookup_last (prev next : list ceph_object_extent) (objno : Z) : lookup_last_result :=
  match prev with
  | [] => AddAfter [] next
  | ex :: prev' =>
      if oe_objno ex =? objno then LastAt prev' ex next
      else if oe_objno ex <? objno then AddAfter prev next
      else lookup_last prev' (ex :: next) objno
  end.

Fixpoint lookup_containing (object_extents : list ceph_object_extent) (objno objoff xlen : Z)
    : option ceph_object_extent :=
  match object_extents with
  | [] => None
  | ex :: rest =>
      if (oe_objno ex =? objno) && (oe_off ex <=? objoff) &&
         (u64 (objoff + xlen) <=? u64 (oe_off ex + oe_len ex)) then Some ex
      else if oe_objno ex >? objno then None
      else lookup_containing rest objno objoff xlen
  end.

(** The closing check of [ceph_file_to_extents], over consecutive extents. *)
Fixpoint extents_sorted (object_extents : list ceph_object_extent) : bool :=
  match object_extents with
  | last_ex :: ((ex :: _) as rest) =>
      if (oe_objno last_ex >? oe_objno ex) ||
         ((oe_objno last_ex =? oe_objno ex) &&
          (u64 (oe_off last_ex + oe_len last_ex) >=? oe_off ex))
      then false else extents_sorted rest
  | _ => true
  end.

(** The loops advance by at least one stripe unit, the first and the last steps excepted. *)
Definition extents_fuel (l : ceph_file_layout) (len : Z) : nat :=
  Z.to_nat (len / stripe_unit l) + 3.

Section callbacks.
Context {A : Type}.
Variable alloc_fn : A → option A.
Variable action_fn : ceph_object_extent → Z → A → A.

(** One stripe unit: returns the new list, or [None] when [alloc_fn] failed. *)
Definition file_to_extents_add (exts : list ceph_object_extent) (objno objoff xlen : Z) (a : A)
    : option (list ceph_object_extent * A) :=
  let fresh := {| oe_objno := objno; oe_off := objoff; oe_len := xlen |} in
  match lookup_last (reverse exts) [] objno with
  | AddAfter prev next =>
      match alloc_fn a with
      | None => None
      | Some a => Some (reverse prev ++ fresh :: next, action_fn fresh xlen a)
      end
  | LastAt prev ex next =>
      if negb (u64 (oe_off ex + oe_len ex) =? objoff) then
        match alloc_fn a with
        | None => None
        | Some a => Some (reverse prev ++ ex :: fresh :: next, action_fn fresh xlen a)
        end
      else
        let ex' := {| oe_objno := oe_objno ex; oe_off := oe_off ex;
                      oe_len := u64 (oe_len ex + xlen) |} in
        Some (reverse prev ++ ex' :: next, action_fn ex' xlen a)
  end.

Definition file_to_extents_step (l : ceph_file_layout)
    (s : Z * Z * list ceph_object_extent * A)
    : outcome ((Z * Z * list ceph_object_extent * A) + (Z * list ceph_object_extent * A)) :=
  let '(off, len, exts, a) := s in
  if len =? 0 then Ret (inr ((if extents_sorted exts then 0 else - EINVAL), exts, a))
  else
    '(objno, objoff, xlen) ← ceph_calc_file_object_mapping l off len;
    match file_to_extents_add exts objno objoff xlen a with
    | None => Ret (inr (- ENOMEM, exts, a))
    | Some (exts, a) => Ret (inl (u64 (off + xlen), u64 (len - xlen), exts, a))
    end.

(** The return value with the list and the callback state it leaves. *)
Definition ceph_file_to_extents (l : ceph_file_layout) (off len : Z)
    (object_extents : list ceph_object_extent) (a : A)
    : outcome (Z * list ceph_object_extent * A) :=
  loop (extents_fuel l len) (file_to_extents_step l) (off, len, object_extents, a).

Definition iterate_extents_step (l : ceph_file_layout)
    (object_extents : list ceph_object_extent) (s : Z * Z * A)
    : outcome ((Z * Z * A) + (Z * A)) :=
  let '(off, len, a) := s in
  if len =? 0 then Ret (inr (0, a))
  else
    '(objno, objoff, xlen) ← ceph_calc_file_object_mapping l off len;
    match lookup_containing object_extents objno objoff xlen with
    | None => Ret (inr (- EINVAL, a))
    | Some ex => Ret (inl (u64 (off + xlen), u64 (len - xlen), action_fn ex xlen a))
    end.

Definition ceph_iterate_extents (l : ceph_file_layout) (off len : Z)
    (object_extents : list ceph_object_extent) (a : A) : outcome (Z * A) :=
  loop (extents_fuel l len) (iterate_extents_step l object_extents) (off, len, a).
End callbacks.

Definition ceph_file_extents_bytes (file_extents : list ceph_file_extent) : Z :=
  foldl (λ bytes fe, u64 (bytes + fe_len fe)) 0 file_extents.

(** [fes] holds the entries [0 .. i-1] written so far, last first; an entry past the
    [num] allocated ones is a write outside the array. *)
Definition extent_to_file_step (l : ceph_file_layout) (stripes_per_object objno num : Z)
    (s : Z * Z * Z * list ceph_file_extent)
    : outcome ((Z * Z * Z * list ceph_file_extent) + list ceph_file_extent) :=
  let '(objoff, objlen, blockoff, fes) := s in
  let i := Z.of_nat (length fes) in
  if objlen =? 0 then
    _ ← require (i =? num);
    Ret (inr (reverse fes))
  else
    '(objsetno, stripepos) ← div_u64_rem objno (stripe_count l);
    '(q, _) ← div_u64_rem objoff (stripe_unit l);
    let stripeno := u64 (q + objsetno * stripes_per_object) in
    let blockno := u64 (stripeno * stripe_count l + stripepos) in
    let off := u64 (blockno * stripe_unit l + blockoff) in
    let len := Z.min objlen (u32 (stripe_unit l - blockoff)) in
    _ ← require (i <? num);
    Ret (inl (u64 (objoff + len), u64 (objlen - len), 0,
              {| fe_off := off; fe_len := len |} :: fes)).

(** [alloc] is what [kmalloc_array] does with the request for that many entries.  The result
    pairs the return value with [*file_extents] (whose length is [*num_file_extents]). *)
Definition ceph_extent_to_file (alloc : Z → bool) (l : ceph_file_layout) (objno objoff objlen : Z)
    : outcome (Z * list ceph_file_extent) :=
  '(stripes_per_object, _) ← div_u64_rem (object_size l) (stripe_unit l);
  if objlen =? 0 then Ret (0, [])
  else
    '(up, _) ← div_u64_rem (u64 (u64 (objoff + objlen) + stripe_unit l - 1)) (stripe_unit l);
    '(down, blockoff) ← div_u64_rem objoff (stripe_unit l);
    let num := u32 (up - down) in
    if negb (alloc num) then Ret (- ENOMEM, [])
    else
      fes ← loop (Z.to_nat num + 2) (extent_to_file_step l stripes_per_object objno num)
                 (objoff, objlen, blockoff, []);
      Ret (0, fes).

Definition ceph_get_num_objects (l : ceph_file_layout) (size : Z) : outcome Z :=
  let period := u64 (stripe_count l * object_size l) in
  '(num_periods, _) ← div_u64_rem (u64 (size + period - 1)) period;
  '(_, remainder_bytes) ← div_u64_rem size period;
  remainder_objs ←
    (if (0 <? remainder_bytes) && (remainder_bytes <? u64 (stripe_count l * stripe_unit l)) then
       '(up, _) ← div_u64_rem (u64 (remainder_bytes + stripe_unit l - 1)) (stripe_unit l);
       Ret (u64 (stripe_count l - up))
     else Ret 0);
  Ret (u64 (num_periods * stripe_count l - remainder_objs)).

(** ** Specification *)

(** Every field fits its type, and a stripe unit fits an object. *)
Definition valid_layout (l : ceph_file_layout) : Prop :=
  0 < stripe_unit l <= object_size l ∧ object_size l < 2 ^ 32 ∧ 0 < stripe_count l < 2 ^ 32.

#[export] Instance valid_layout_dec l : Decision (valid_layout l) := ltac:(unfold valid_layout; apply _).

Definition stripes_per_object (l : ceph_file_layout) : Z := object_size l / stripe_unit l.

(** The object and the offset in it of byte [f] of the file. *)
Definition locate (l : ceph_file_layout) (f : Z) : Z * Z :=
  let block := f / stripe_unit l in
  let stripe := block / stripe_count l in
  (stripe / stripes_per_object l * stripe_count l + block mod stripe_count l,
   stripe mod stripes_per_object l * stripe_unit l + f mod stripe_unit l).

(** The file byte stored at offset [o] of object [n]. *)
Definition unlocate (l : ceph_file_layout) (n o : Z) : Z :=
  let stripe := o / stripe_unit l + n / stripe_count l * stripes_per_object l in
  (stripe * stripe_count l + n mod stripe_count l) * stripe_unit l + o mod stripe_unit l.

Section spec.
Context (l : ceph_file_layout) (Hl : valid_layout l).

Lemma spo_pos : 0 < stripes_per_object l.
Proof. destruct Hl as (? & ? & ?). apply Z.div_str_pos. lia. Qed.

Lemma spo_size : stripes_per_object l * stripe_unit l <= object_size l.
Proof. destruct Hl as (? & ? & ?). rewrite Z.mul_comm. apply Z.mul_div_le. lia. Qed.

Lemma unlocate_locate f : 0 <= f → unlocate l (locate l f).1 (locate l f).2 = f.
Proof.
  intros Hf. pose proof spo_pos. destruct Hl as (? & ? & ?). unfold unlocate, locate; simpl.
  pose proof (Z.mod_pos_bound f (stripe_unit l)).
  pose proof (Z.mod_pos_bound (f / stripe_unit l) (stripe_count l)).
  destruct (div_mod_add (f / stripe_unit l / stripe_count l / stripes_per_object l)
    (stripe_count l) ((f / stripe_unit l) mod stripe_count l)) as [-> ->]; [lia|].
  destruct (div_mod_add ((f / stripe_unit l / stripe_count l) mod stripes_per_object l)
    (stripe_unit l) (f mod stripe_unit l)) as [-> ->]; [lia|].
  rewrite Z.add_comm, (Z.mul_comm _ (stripes_per_object l)).
  rewrite (Z.add_comm (_ mod stripes_per_object l)), <- Z.div_mod by lia.
  rewrite (Z.mul_comm (_ / stripe_count l)), <- Z.div_mod by lia.
  rewrite Z.add_comm, Z.mul_comm, <- Z.div_mod by lia. done.
Qed.

Lemma locate_unlocate n o :
  0 <= n → 0 <= o < stripes_per_object l * stripe_unit l → locate l (unlocate l n o) = (n, o).
Proof.
  intros Hn Ho. pose proof spo_pos. destruct Hl as (? & ? & ?). unfold unlocate, locate.
  pose proof (Z.mod_pos_bound o (stripe_unit l)).
  pose proof (Z.mod_pos_bound n (stripe_count l)).
  assert (0 <= o / stripe_unit l < stripes_per_object l).
  { split; [apply Z.div_pos; lia|]. apply Z.div_lt_upper_bound; lia. }
  set (c := n mod _) in *. set (r := o mod _) in *.
  destruct (div_mod_add ((o / stripe_unit l + n / stripe_count l * stripes_per_object l)
     * stripe_count l + c) (stripe_unit l) r) as [-> ->]; [lia|].
  destruct (div_mod_add (o / stripe_unit l + n / stripe_count l * stripes_per_object l)
     (stripe_count l) c) as [-> ->]; [lia|].
  rewrite (Z.add_comm (o / _)).
  destruct (div_mod_add (n / stripe_count l) (stripes_per_object l) (o / stripe_unit l))
    as [-> ->]; [lia|].
  subst c r. f_equal; rewrite Z.mul_comm, <- Z.div_mod; lia.
Qed.

Lemma locate_bounds f : 0 <= f →
  0 <= (locate l f).1 ∧ (locate l f).1 <= f ∧
  0 <= (locate l f).2 < stripes_per_object l * stripe_unit l.
Proof.
  intros Hf. pose proof spo_pos. destruct Hl as (? & ? & ?). unfold locate; simpl.
  pose proof (Z.mod_pos_bound f (stripe_unit l)).
  pose proof (Z.mod_pos_bound (f / stripe_unit l) (stripe_count l)).
  pose proof (Z.mod_pos_bound (f / stripe_unit l / stripe_count l) (stripes_per_object l)).
  set (b := f / stripe_unit l) in *. set (s := b / stripe_count l) in *.
  assert (0 <= b <= f). { unfold b. split; [apply Z.div_pos; lia|]. apply Z.div_le_upper_bound; nia. }
  assert (0 <= s). { apply Z.div_pos; lia. }
  assert (0 <= s / stripes_per_object l <= s).
  { split; [apply Z.div_pos; lia|]. apply Z.div_le_upper_bound; nia. }
  assert (b = stripe_count l * s + b mod stripe_count l) by (apply Z.div_mod; lia).
  repeat split; nia.
Qed.

(** Within a stripe unit, file and object offsets advance together. *)
Lemma locate_block f d :
  0 <= f → 0 <= d → f mod stripe_unit l + d < stripe_unit l →
  locate l (f + d) = ((locate l f).1, (locate l f).2 + d).
Proof.
  intros Hf Hd Hlt. destruct Hl as (? & ? & ?). unfold locate; simpl.
  pose proof (Z.mod_pos_bound f (stripe_unit l)).
  pose proof (Z.div_mod f (stripe_unit l)).
  destruct (div_mod_add (f / stripe_unit l) (stripe_unit l) (f mod stripe_unit l + d))
    as [E1 E2]; [lia|].
  replace (f / stripe_unit l * stripe_unit l + (f mod stripe_unit l + d)) with (f + d) in * by lia.
  rewrite E1, E2. f_equal. lia.
Qed.

Lemma unlocate_block n o d :
  0 <= o → 0 <= d → o mod stripe_unit l + d < stripe_unit l →
  unlocate l n (o + d) = unlocate l n o + d.
Proof.
  intros Ho Hd Hlt. destruct Hl as (Hsu & _ & _).
  pose proof (Z.mod_pos_bound o (stripe_unit l)). pose proof (Z.div_mod o (stripe_unit l)).
  destruct (div_mod_add (o / stripe_unit l) (stripe_unit l) (o mod stripe_unit l + d))
    as [E1 E2]; [lia|].
  replace (o / stripe_unit l * stripe_unit l + (o mod stripe_unit l + d)) with (o + d) in * by lia.
  unfold unlocate. rewrite E1, E2. lia.
Qed.

Lemma unlocate_lt n o1 o2 : 0 <= o1 < o2 → unlocate l n o1 < unlocate l n o2.
Proof.
  intros Ho. destruct Hl as (? & ? & ?). unfold unlocate.
  pose proof (Z.mod_pos_bound o1 (stripe_unit l)).
  pose proof (Z.mod_pos_bound o2 (stripe_unit l)).
  pose proof (Z.div_mod o1 (stripe_unit l)). pose proof (Z.div_mod o2 (stripe_unit l)).
  assert (o1 / stripe_unit l <= o2 / stripe_unit l) as Hq by (apply Z.div_le_mono; lia).
  apply Z.lt_eq_cases in Hq as [Hq|Hq]; [|rewrite Hq in *; lia].
  set (q1 := o1 / _) in *. set (q2 := o2 / _) in *. set (z := n / _ * _).
  assert ((q1 + z) * stripe_count l + stripe_count l <= (q2 + z) * stripe_count l) by nia.
  nia.
Qed.

Lemma unlocate_mono n o1 o2 : 0 <= o1 <= o2 → unlocate l n o1 <= unlocate l n o2.
Proof.
  intros Ho. destruct (Z.eq_dec o1 o2) as [->|]; [lia|]. pose proof (unlocate_lt n o1 o2). lia.
Qed.

(** Along an object, file order is object order. *)
Lemma locate_mono f1 f2 :
  0 <= f1 < f2 → (locate l f1).1 = (locate l f2).1 → (locate l f1).2 < (locate l f2).2.
Proof.
  intros Hf Hn. destruct (Z.lt_ge_cases (locate l f1).2 (locate l f2).2) as [|Hge]; [done|].
  destruct (locate_bounds f2) as (? & ? & ?); [lia|].
  pose proof (unlocate_mono (locate l f1).1 (locate l f2).2 (locate l f1).2) as Hm.
  rewrite Hn in Hm at 1. rewrite !unlocate_locate in Hm by lia. lia.
Qed.

Lemma unlocate_nonneg n o : 0 <= n → 0 <= o → 0 <= unlocate l n o.
Proof.
  intros Hn Ho. pose proof spo_pos. destruct Hl as (? & ? & ?). unfold unlocate.
  pose proof (Z.mod_pos_bound o (stripe_unit l)). pose proof (Z.mod_pos_bound n (stripe_count l)).
  assert (0 <= o / stripe_unit l) by (apply Z.div_pos; lia).
  assert (0 <= n / stripe_count l) by (apply Z.div_pos; lia). nia.
Qed.

(** The intermediate results of the backward map are below its result. *)
Lemma unlocate_parts n o : 0 <= n → 0 <= o →
  0 <= o / stripe_unit l + n / stripe_count l * stripes_per_object l
    <= (o / stripe_unit l + n / stripe_count l * stripes_per_object l) * stripe_count l
       + n mod stripe_count l ∧
  (o / stripe_unit l + n / stripe_count l * stripes_per_object l) * stripe_count l
       + n mod stripe_count l <= unlocate l n o.
Proof.
  intros Hn Ho. pose proof spo_pos. destruct Hl as (? & ? & ?). unfold unlocate.
  pose proof (Z.mod_pos_bound o (stripe_unit l)). pose proof (Z.mod_pos_bound n (stripe_count l)).
  assert (0 <= o / stripe_unit l) by (apply Z.div_pos; lia).
  assert (0 <= n / stripe_count l) by (apply Z.div_pos; lia). nia.
Qed.

Lemma calc_mapping_spec off len :
  0 <= off < 2 ^ 64 → 0 <= len →
  ceph_calc_file_object_mapping l off len =
    Ret ((locate l off).1, (locate l off).2, Z.min len (stripe_unit l - off mod stripe_unit l)).
Proof.
  intros Hoff Hlen. pose proof spo_pos. pose proof spo_size.
  destruct (locate_bounds off) as (? & ? & ?); [lia|].
  destruct Hl as (? & ? & ?). unfold ceph_calc_file_object_mapping.
  unfold stripes_per_object in *.
  repeat (rewrite div_u64_rem_nz by lia; simpl).
  pose proof (Z.mod_pos_bound off (stripe_unit l)).
  pose proof (Z.mod_pos_bound (off / stripe_unit l) (stripe_count l)).
  pose proof (Z.mod_pos_bound (off / stripe_unit l / stripe_count l)
                              (object_size l / stripe_unit l)).
  unfold locate, stripes_per_object in *; simpl in *.
  set (n := _ / _ / _ / _ * _) in *. set (p := _ mod _ * stripe_unit l) in *.
  assert (0 <= n). { apply Z.mul_nonneg_nonneg; [|lia]. repeat apply Z.div_pos; lia. }
  assert (0 <= p) by (apply Z.mul_nonneg_nonneg; lia).
  word_small. done.
Qed.
End spec.

#[global] Opaque locate.

(** ** The forward map *)

Definition ex_contains (e : ceph_object_extent) (n o : Z) : Prop :=
  oe_objno e = n ∧ oe_off e <= o < oe_off e + oe_len e.

(** Byte [o] of object [n] is in one of the extents. *)
Definition covered (exts : list ceph_object_extent) (n o : Z) : Prop :=
  ∃ e, e ∈ exts ∧ ex_contains e n o.

(** In order, and with a gap between two extents of the same object: merged as far as
    possible. *)
Definition ex_lt (e1 e2 : ceph_object_extent) : Prop :=
  oe_objno e1 < oe_objno e2 ∨
  oe_objno e1 = oe_objno e2 ∧ oe_off e1 + oe_len e1 < oe_off e2.

(** [exts] is the canonical description of where the file bytes in [F], all below [off],
    are stored. *)
Record extents_inv (l : ceph_file_layout) (F : Z → Prop) (off : Z)
    (exts : list ceph_object_extent) : Prop := {
  ei_sorted : StronglySorted ex_lt exts;
  ei_pos : ∀ e, e ∈ exts → 0 < oe_len e;
  ei_covered : ∀ n o, covered exts n o ↔ ∃ f, F f ∧ locate l f = (n, o);
  ei_below : ∀ f, F f → 0 <= f < off;
}.

Lemma lookup_last_spec prev next n :
  StronglySorted ex_lt (reverse prev ++ next) → (∀ e, e ∈ next → n < oe_objno e) →
  match lookup_last prev next n with
  | LastAt p e nx =>
      reverse prev ++ next = reverse p ++ e :: nx ∧ oe_objno e = n ∧
      (∀ e, e ∈ nx → n < oe_objno e)
  | AddAfter p nx =>
      reverse prev ++ next = reverse p ++ nx ∧
      (∀ e, e ∈ reverse p → oe_objno e < n) ∧ (∀ e, e ∈ nx → n < oe_objno e)
  end.
Proof.
  revert next. induction prev as [|e prev IH]; intros next Hs Hn; simpl.
  { repeat split; [set_solver|done]. }
  rewrite reverse_cons, <- (assoc_L (++)) in *. simpl in *.
  destruct (Z.eqb_spec (oe_objno e) n) as [Heq|Hne]; [done|].
  destruct (Z.ltb_spec (oe_objno e) n) as [Hlt|Hge].
  - rewrite reverse_cons, <- (assoc_L (++)). repeat split; [|done].
    intros e' [He'| ->%list_elem_of_singleton]%elem_of_app; [|done].
    apply StronglySorted_mid in Hs as [Hs _]. destruct (Hs e' He'); lia.
  - apply IH; [done|]. intros e' [->|]%elem_of_cons; [lia|auto].
Qed.

Section forward.
Context (l : ceph_file_layout) (Hl : valid_layout l).
Context {A : Type} (alloc_fn : A → option A) (action_fn : ceph_object_extent → Z → A → A).

Lemma locate_range off x n' o' :
  0 <= off → off mod stripe_unit l + x <= stripe_unit l →
  ex_contains {| oe_objno := (locate l off).1; oe_off := (locate l off).2; oe_len := x |} n' o'
  ↔ ∃ f, off <= f < off + x ∧ locate l f = (n', o').
Proof.
  intros Hoff Hx. unfold ex_contains; simpl. split.
  - intros [<- Ho]. exists (off + (o' - (locate l off).2)). split; [lia|].
    rewrite locate_block by (done || lia). f_equal. lia.
  - intros (f & Hf & Heq). replace f with (off + (f - off)) in Heq by lia.
    rewrite locate_block in Heq by (done || lia). simplify_eq. lia.
Qed.

(** An extent lies within its object, and before the image of later file bytes. *)
Lemma extents_inv_end F off exts e :
  extents_inv l F off exts → e ∈ exts →
  0 <= oe_off e ∧ oe_off e + oe_len e < 2 ^ 32 ∧
  (∀ f, off <= f → (locate l f).1 = oe_objno e → oe_off e + oe_len e <= (locate l f).2).
Proof.
  intros [_ Hpos Hcov Hbelow] He. specialize (Hpos e He).
  destruct (proj1 (Hcov (oe_objno e) (oe_off e))) as (f1 & HF1 & Hf1).
  { exists e. split; [done|]. split; [done|lia]. }
  destruct (proj1 (Hcov (oe_objno e) (oe_off e + oe_len e - 1))) as (f2 & HF2 & Hf2).
  { exists e. split; [done|]. split; [done|lia]. }
  apply Hbelow in HF1, HF2.
  pose proof (locate_bounds l Hl f1 ltac:(lia)) as (_ & _ & B1).
  pose proof (locate_bounds l Hl f2 ltac:(lia)) as (_ & _ & B2).
  pose proof (spo_size l Hl). destruct Hl as (? & ? & ?).
  rewrite Hf1 in B1. rewrite Hf2 in B2. simpl in *. repeat split; [lia..|].
  intros f Hf Hn. pose proof (locate_mono l Hl f2 f ltac:(lia)) as Hm.
  rewrite Hf2, Hn in Hm. specialize (Hm eq_refl). simpl in Hm. lia.
Qed.

Lemma exists_or_range (F G P : Z → Prop) :
  (∃ f, (F f ∨ G f) ∧ P f) ↔ (∃ f, F f ∧ P f) ∨ (∃ f, G f ∧ P f).
Proof. naive_solver. Qed.

(** The object bytes of an extent are those of file bytes of [F]. *)
Lemma extents_inv_byte F off exts e o :
  extents_inv l F off exts → e ∈ exts → oe_off e <= o < oe_off e + oe_len e →
  F (unlocate l (oe_objno e) o) ∧ 0 <= oe_objno e ∧
  0 <= o < stripes_per_object l * stripe_unit l ∧
  locate l (unlocate l (oe_objno e) o) = (oe_objno e, o).
Proof.
  intros [_ _ Hcov Hbelow] He Ho. destruct (proj1 (Hcov (oe_objno e) o)) as (f & HF & Hf).
  { exists e. split; [done|]. by split. }
  apply Hbelow in HF as Hb. pose proof (locate_bounds l Hl f ltac:(lia)) as B.
  pose proof (unlocate_locate l Hl f ltac:(lia)) as U. rewrite Hf in B, U. simpl in *.
  rewrite U. destruct B as (? & _ & ?). split_and!; (done || lia).
Qed.

Definition block (off x : Z) : ceph_object_extent :=
  {| oe_objno := (locate l off).1; oe_off := (locate l off).2; oe_len := x |}.

Definition also (F : Z → Prop) (off x : Z) : Z → Prop := λ f, F f ∨ off <= f < off + x.

(** The image of the next block as an extent of its own. *)
Lemma extents_inv_insert F off x l1 l2 :
  extents_inv l F off (l1 ++ l2) →
  0 <= off → 0 < x → off mod stripe_unit l + x <= stripe_unit l →
  (∀ e, e ∈ l1 → ex_lt e (block off x)) → (∀ e, e ∈ l2 → ex_lt (block off x) e) →
  extents_inv l (also F off x) (off + x) (l1 ++ block off x :: l2).
Proof.
  intros [Hsort Hpos Hcov Hbelow] Hoff Hx Hblk H1 H2. split.
  - by apply StronglySorted_insert_mid.
  - intros e He. destruct (decide (e = block off x)) as [->|]; [done|]. apply Hpos. set_solver.
  - intros n o. unfold also. rewrite exists_or_range, <- Hcov, <- locate_range by done.
    unfold covered. set_solver.
  - intros f [Hf|Hf]; [apply Hbelow in Hf|]; lia.
Qed.

(** The image of the next block merged into the extent that ends where it starts. *)
Lemma extents_inv_extend F off x l1 e l2 :
  extents_inv l F off (l1 ++ e :: l2) →
  0 <= off → 0 < x → off mod stripe_unit l + x <= stripe_unit l →
  oe_objno e = (locate l off).1 → oe_off e + oe_len e = (locate l off).2 →
  (∀ e', e' ∈ l2 → (locate l off).1 < oe_objno e') →
  extents_inv l (also F off x) (off + x)
    (l1 ++ {| oe_objno := oe_objno e; oe_off := oe_off e; oe_len := oe_len e + x |} :: l2).
Proof.
  intros [Hsort Hpos Hcov Hbelow] Hoff Hx Hblk Hn Hend Hnx.
  pose proof (Hpos e ltac:(set_solver)) as Hlen. set (e' := {| oe_objno := _ |}). split.
  - pose proof (StronglySorted_mid _ _ _ _ Hsort) as [H1 H2].
    apply StronglySorted_insert_mid; [by eapply StronglySorted_remove_mid| |].
    + intros e1 He1. destruct (H1 e1 He1); [left|right]; done.
    + intros e2 He2. left. simpl. rewrite Hn. by apply Hnx.
  - intros e1 He1. destruct (decide (e1 = e')) as [->|]; [simpl; lia|]. apply Hpos. set_solver.
  - intros n o. unfold also. rewrite exists_or_range, <- Hcov, <- locate_range by done.
    unfold covered, ex_contains; simpl. split.
    + intros (e1 & He1 & Hc). destruct (decide (e1 = e')) as [->|]; [|left; exists e1; set_solver].
      simpl in Hc. destruct (Z.lt_ge_cases o (oe_off e + oe_len e)); [left|right; lia].
      exists e. split; [set_solver|lia].
    + intros [(e1 & He1 & Hc)|Hc].
      * destruct (decide (e1 = e)) as [->|]; [|exists e1; set_solver].
        exists e'. split; [set_solver|simpl; lia].
      * exists e'. split; [set_solver|simpl; lia].
  - intros f [Hf|Hf]; [apply Hbelow in Hf|]; lia.
Qed.

(** Adding the image of the next block keeps the list canonical. *)
Lemma file_to_extents_add_spec F off x exts a a1 :
  extents_inv l F off exts →
  0 <= off → 0 < x → off mod stripe_unit l + x <= stripe_unit l → alloc_fn a = Some a1 →
  ∃ exts' a', file_to_extents_add alloc_fn action_fn exts (locate l off).1 (locate l off).2 x a
              = Some (exts', a') ∧
    extents_inv l (also F off x) (off + x) exts'.
Proof.
  intros Hinv Hoff Hx Hblk Halloc. unfold file_to_extents_add. rewrite Halloc.
  pose proof (lookup_last_spec (reverse exts) [] (locate l off).1) as Hll.
  rewrite reverse_involutive, app_nil_r in Hll.
  specialize (Hll (ei_sorted _ _ _ _ Hinv) ltac:(set_solver)).
  destruct (lookup_last _ _ _) as [p e nx|p nx].
  - destruct Hll as (-> & Hn & Hnx).
    destruct (extents_inv_end _ _ _ e Hinv ltac:(set_solver)) as (? & ? & Hlast).
    specialize (Hlast off ltac:(lia) (eq_sym Hn)).
    pose proof (ei_pos _ _ _ _ Hinv) as Hpos. pose proof (Hpos e ltac:(set_solver)).
    destruct Hl as (Hsu & Hos & _). pose proof (Z.mod_pos_bound off (stripe_unit l)).
    rewrite !u64_small by lia.
    destruct (Z.eqb_spec (oe_off e + oe_len e) (locate l off).2) as [Heq|Hne]; simpl;
      eexists _, _; (split; [reflexivity|]); [by apply extents_inv_extend|].
    rewrite (cons_middle e), (assoc_L (++)). apply extents_inv_insert; try done.
    + by rewrite <- (assoc_L (++)).
    + destruct (StronglySorted_mid _ _ _ _ (ei_sorted _ _ _ _ Hinv)) as [HRp _].
      intros e1 [He1| ->%list_elem_of_singleton]%elem_of_app; [|right; simpl; lia].
      destruct (HRp e1 He1) as [|[? ?]]; [left|right]; simpl in *; lia.
    + intros e2 He2. left. simpl. by apply Hnx.
  - destruct Hll as (-> & Hp & Hnx). eexists _, _. split; [reflexivity|].
    apply extents_inv_insert; try done.
    + intros e1 He1. left. by apply Hp.
    + intros e2 He2. left. by apply Hnx.
Qed.
Lemma extents_inv_iff F G off exts :
  (∀ f, F f ↔ G f) → extents_inv l F off exts → extents_inv l G off exts.
Proof.
  intros HFG [? ? Hcov Hb]. split; [done..| |].
  - intros n o. rewrite Hcov. by setoid_rewrite HFG.
  - intros f ?. by apply Hb, HFG.
Qed.

(** The closing check passes on a canonical list. *)
Lemma extents_sorted_true F off exts : extents_inv l F off exts → extents_sorted exts = true.
Proof.
  intros Hinv. pose proof (λ e, extents_inv_end F off exts e Hinv) as Hend.
  pose proof (ei_pos _ _ _ _ Hinv) as Hpos. pose proof (ei_sorted _ _ _ _ Hinv) as Hs.
  clear Hinv. induction exts as [|e1 exts IH]; [done|].
  destruct exts as [|e2 exts]; [done|]. apply StronglySorted_cons in Hs as [H12 Hs].
  rewrite Forall_cons in H12. destruct H12 as [H12 _].
  destruct (Hend e1 ltac:(set_solver)) as (? & ? & _). pose proof (Hpos e1 ltac:(set_solver)).
  simpl. rewrite u64_small by lia. rewrite Z.gtb_ltb, Z.geb_leb.
  destruct (Z.ltb_spec (oe_objno e2) (oe_objno e1)), (Z.eqb_spec (oe_objno e1) (oe_objno e2)),
    (Z.leb_spec (oe_off e2) (oe_off e1 + oe_len e1)); simpl;
    try (by destruct H12; lia); apply IH; set_solver.
Qed.

(** The length of the next chunk. *)
Definition chunk (off len : Z) : Z := Z.min len (stripe_unit l - off mod stripe_unit l).

Lemma chunk_bounds off len :
  0 <= off → 0 < len →
  0 < chunk off len <= len ∧ off mod stripe_unit l + chunk off len <= stripe_unit l ∧
  (chunk off len < len → (off + chunk off len) / stripe_unit l = off / stripe_unit l + 1).
Proof.
  intros Hoff Hlen. destruct Hl as (Hsu & _ & _).
  pose proof (Z.mod_pos_bound off (stripe_unit l) ltac:(lia)). unfold chunk.
  repeat split; [lia..|]. intros Hlt. rewrite Z.min_r by lia.
  pose proof (Z.div_mod off (stripe_unit l) ltac:(lia)).
  replace (off + _) with ((off / stripe_unit l + 1) * stripe_unit l + 0) by lia.
  apply div_mod_add. lia.
Qed.

(** The stripe units still to be visited. *)
Definition units_left (off len : Z) : nat :=
  if len =? 0 then 0 else Z.to_nat ((off + len - 1) / stripe_unit l - off / stripe_unit l + 1).

Lemma units_left_fuel off len :
  0 <= off → 0 <= len → (units_left off len < extents_fuel l len)%nat.
Proof.
  intros Hoff Hlen. destruct Hl as (Hsu & _ & _). unfold units_left, extents_fuel.
  pose proof (Z.div_pos len (stripe_unit l) Hlen ltac:(lia)).
  destruct (Z.eqb_spec len 0); [lia|].
  assert ((off + len - 1) / stripe_unit l <= off / stripe_unit l + len / stripe_unit l + 1); [|lia].
  apply Z.lt_succ_r, Z.div_lt_upper_bound; [lia|].
  pose proof (Z.div_mod off (stripe_unit l) ltac:(lia)).
  pose proof (Z.div_mod len (stripe_unit l) ltac:(lia)).
  pose proof (Z.mod_pos_bound off (stripe_unit l) ltac:(lia)).
  pose proof (Z.mod_pos_bound len (stripe_unit l) ltac:(lia)). nia.
Qed.

Lemma units_left_next off len :
  0 <= off → 0 < len →
  Z.of_nat (units_left (off + chunk off len) (len - chunk off len)) =
    Z.of_nat (units_left off len) - 1.
Proof.
  intros Hoff Hlen. destruct (chunk_bounds off len Hoff Hlen) as (Hc & Hcb & Hdiv).
  destruct Hl as (Hsu & _ & _). unfold units_left.
  assert (off / stripe_unit l <= (off + len - 1) / stripe_unit l) by (apply Z.div_le_mono; lia).
  rewrite (proj2 (Z.eqb_neq len 0)) by lia.
  destruct (Z.eqb_spec (len - chunk off len) 0) as [Heq|Hne].
  - assert ((off + len - 1) / stripe_unit l = off / stripe_unit l) as ->; [|lia].
    pose proof (Z.mod_pos_bound off (stripe_unit l) ltac:(lia)).
    pose proof (Z.div_mod off (stripe_unit l) ltac:(lia)).
    replace (off + len - 1)
      with (off / stripe_unit l * stripe_unit l + (off mod stripe_unit l + len - 1)) by lia.
    apply div_mod_add. lia.
  - rewrite Hdiv by lia. replace (_ + _ + _ - 1) with (off + len - 1) by lia.
    assert (off / stripe_unit l + 1 <= (off + len - 1) / stripe_unit l); [|lia].
    rewrite <- Hdiv by lia. apply Z.div_le_mono; lia.
Qed.

Lemma units_left_step off len :
  0 <= off → 0 < len →
  (units_left (off + chunk off len) (len - chunk off len) < units_left off len)%nat.
Proof.
  intros Hoff Hlen. pose proof (units_left_next off len Hoff Hlen). lia.
Qed.

Lemma chunk_mod off len :
  0 <= off → 0 < len - chunk off len → (off + chunk off len) mod stripe_unit l = 0.
Proof.
  intros Hoff Hlt. destruct Hl as (Hsu & _ & _). unfold chunk in *.
  pose proof (Z.div_mod off (stripe_unit l) ltac:(lia)). rewrite Z.min_r by lia.
  replace (off + _) with ((off / stripe_unit l + 1) * stripe_unit l + 0) by lia.
  apply div_mod_add. lia.
Qed.

(** The forward map terminates without an error and maintains the canonical description. *)
Lemma file_to_extents_wp F off0 len0 exts0 a0 :
  (∀ a, is_Some (alloc_fn a)) → 0 <= off0 → 0 <= len0 → off0 + len0 < 2 ^ 64 →
  extents_inv l F off0 exts0 →
  wp (ceph_file_to_extents alloc_fn action_fn l off0 len0 exts0 a0) (λ '(r, exts, _),
    r = 0 ∧ extents_inv l (also F off0 len0) (off0 + len0) exts).
Proof.
  intros Halloc Hoff0 Hlen0 Hov Hinv0.
  apply (wp_loop (λ '(off, len, exts, _),
      0 <= len ∧ off0 <= off ∧ off + len = off0 + len0 ∧
      extents_inv l (also F off0 (off - off0)) off exts)
    (λ '(off, len, _, _), units_left off len)); [..|by apply units_left_fuel].
  2: { split_and!; [lia..|]. eapply extents_inv_iff, Hinv0. unfold also. intros f. intuition lia. }
  intros [[[off len] exts] a] (Hlen & Hle & Hsum & Hinv). unfold file_to_extents_step.
  destruct (Z.eqb_spec len 0) as [->|Hnz].
  { apply wp_ret. rewrite (extents_sorted_true _ _ _ Hinv). split; [done|].
    rewrite Z.add_0_r in Hsum. subst off.
    eapply extents_inv_iff, Hinv. unfold also. intros f. intuition lia. }
  rewrite calc_mapping_spec by (done || lia). simpl. change (Z.min len _) with (chunk off len).
  destruct (chunk_bounds off len) as (Hc & Hcb & _); [lia..|].
  destruct (Halloc a) as [a1 Ha1].
  destruct (file_to_extents_add_spec _ off (chunk off len) _ a a1 Hinv) as (exts' & a' & -> & Hinv');
    [lia..|done|]. simpl. rewrite !u64_small by lia.
  split; [|by apply units_left_step; lia]. split_and!; [lia..|].
  eapply extents_inv_iff, Hinv'. unfold also. intros f. intuition lia.
Qed.
End forward.

#[global] Arguments chunk : simpl never.

(** ** The second pass over the stripe units *)

(** The stripe units of a file extent in the order in which both passes visit them: object and
    number of bytes. *)
Fixpoint chunks (l : ceph_file_layout) (fuel : nat) (off len : Z) : list (Z * Z) :=
  match fuel with
  | O => []
  | S fuel =>
      if len =? 0 then []
      else ((locate l off).1, chunk l off len)
             :: chunks l fuel (off + chunk l off len) (len - chunk l off len)
  end.

(** The callback that records each visit. *)
Definition log_action (ex : ceph_object_extent) (bytes : Z) (log : list (Z * Z)) : list (Z * Z) :=
  log ++ [(oe_objno ex, bytes)].

Lemma lookup_last_objno prev next n p e nx :
  lookup_last prev next n = LastAt p e nx → oe_objno e = n.
Proof.
  revert next. induction prev as [|e' prev IH]; intros next; simpl; [done|].
  destruct (Z.eqb_spec (oe_objno e') n); [naive_solver|]. case_match; [done|apply IH].
Qed.

Lemma file_to_extents_add_log alloc exts n o x log exts' log' :
  file_to_extents_add alloc log_action exts n o x log = Some (exts', log') →
  (∀ a, alloc a = Some a) → log' = log ++ [(n, x)].
Proof.
  unfold file_to_extents_add. intros H Halloc. rewrite Halloc in H.
  destruct (lookup_last _ _ _) as [p e nx|] eqn:Hll; [|by simplify_eq].
  apply lookup_last_objno in Hll. case_match; simplify_eq; unfold log_action; simpl; by rewrite ?Hll.
Qed.

Lemma lookup_containing_spec exts n o x e :
  StronglySorted ex_lt exts → e ∈ exts → oe_objno e = n → oe_off e <= o →
  u64 (o + x) <= u64 (oe_off e + oe_len e) →
  ∃ e', lookup_containing exts n o x = Some e' ∧ oe_objno e' = n.
Proof.
  intros Hs He Hn Ho Hend. induction exts as [|e1 exts IH]; [set_solver|].
  apply StronglySorted_cons in Hs as [H1 Hs]. rewrite Forall_forall in H1. simpl.
  apply elem_of_cons in He as [->|He].
  - rewrite (proj2 (Z.eqb_eq _ _)), !(proj2 (Z.leb_le _ _)) by done. eauto.
  - destruct (_ && _ && _) eqn:Hb; [bool_to_prop; destruct_and?; bool_to_prop; by eauto|].
    rewrite Z.gtb_ltb, (proj2 (Z.ltb_ge _ _)); [by apply IH|].
    destruct (H1 e He); lia.
Qed.

Section passes.
Context (l : ceph_file_layout) (Hl : valid_layout l).

Lemma file_to_extents_log alloc fuel off len exts log r exts' log' :
  (∀ a, alloc a = Some a) → 0 <= off → 0 <= len → off + len < 2 ^ 64 →
  loop fuel (file_to_extents_step alloc log_action l) (off, len, exts, log) = Ret (r, exts', log') →
  log' = log ++ chunks l fuel off len.
Proof.
  intros Halloc. revert off len exts log.
  induction fuel as [|fuel IH]; intros off len exts log Hoff Hlen Hov; [done|]. simpl.
  destruct (Z.eqb_spec len 0) as [->|Hnz]; simpl; [intros; simplify_eq; by rewrite app_nil_r|].
  rewrite calc_mapping_spec by (done || lia). simpl. change (Z.min len _) with (chunk l off len).
  destruct (chunk_bounds l Hl off len) as (Hc & _); [lia..|].
  destruct (file_to_extents_add _ _ _ _ _ _ _) as [[exts1 log1]|] eqn:Hadd; simpl.
  - apply file_to_extents_add_log in Hadd as ->; [|done]. rewrite !u64_small by lia.
    intros ->%IH; [|lia..]. by rewrite <- (assoc_L (++)).
  - exfalso. unfold file_to_extents_add in Hadd. rewrite Halloc in Hadd.
    destruct (lookup_last _ _ _); [|done]. by case_match.
Qed.

(** A stripe unit all of whose bytes are covered lies in one extent: there is no gap to
    cross. *)
Lemma block_in_one_extent F hi exts off x :
  extents_inv l F hi exts → 0 <= off → 0 < x → off mod stripe_unit l + x <= stripe_unit l →
  (∀ f, off <= f < off + x → F f) →
  ∃ e, e ∈ exts ∧ oe_objno e = (locate l off).1 ∧ oe_off e <= (locate l off).2 ∧
       (locate l off).2 + x <= oe_off e + oe_len e.
Proof.
  intros Hinv Hoff Hx Hblk HF. pose proof (ei_covered _ _ _ _ Hinv) as Hcov.
  assert (Hbyte : ∀ d, 0 <= d < x →
    ∃ e, e ∈ exts ∧ ex_contains e (locate l off).1 ((locate l off).2 + d)).
  { intros d Hd. apply Hcov. exists (off + d). split; [apply HF; lia|].
    apply locate_block; (done || lia). }
  destruct (Hbyte 0) as (e & He & Hn & Ho); [lia|]. exists e. split_and!; [done|done|lia|].
  destruct (Z.le_gt_cases ((locate l off).2 + x) (oe_off e + oe_len e)) as [|Hgt]; [done|].
  destruct (Hbyte (oe_off e + oe_len e - (locate l off).2)) as (e2 & He2 & Hn2 & Ho2); [lia|].
  exfalso. pose proof (ei_pos _ _ _ _ Hinv e He). pose proof (ei_pos _ _ _ _ Hinv e2 He2).
  pose proof (ei_sorted _ _ _ _ Hinv) as Hs.
  apply list_elem_of_split in He as (l1 & l2 & ->).
  apply StronglySorted_mid in Hs as [H1 H2].
  apply elem_of_app in He2 as [He2|[->|He2]%elem_of_cons]; [|lia|].
  - destruct (H1 e2 He2); lia.
  - destruct (H2 e2 He2); lia.
Qed.

Lemma iterate_extents_log F hi exts fuel off len log :
  extents_inv l F hi exts → 0 <= off → 0 <= len → off + len < 2 ^ 64 →
  (∀ f, off <= f < off + len → F f) → (units_left l off len < fuel)%nat →
  loop fuel (iterate_extents_step log_action l exts) (off, len, log)
    = Ret (0, log ++ chunks l fuel off len).
Proof.
  intros Hinv. revert off len log.
  induction fuel as [|fuel IH]; intros off len log Hoff Hlen Hov HF Hfuel; [lia|]. simpl.
  destruct (Z.eqb_spec len 0) as [->|Hnz]; simpl; [by rewrite app_nil_r|].
  rewrite calc_mapping_spec by (done || lia). simpl. change (Z.min len _) with (chunk l off len).
  destruct (chunk_bounds l Hl off len) as (Hc & Hcb & _); [lia..|].
  destruct (block_in_one_extent F hi exts off (chunk l off len)) as (e & He & Hn & Ho & Hend);
    [done|lia..|intros; apply HF; lia|].
  destruct (extents_inv_end l Hl _ _ _ e Hinv He) as (? & ? & _).
  destruct (lookup_containing_spec exts (locate l off).1 (locate l off).2 (chunk l off len) e)
    as (e' & -> & Hn'); [by eapply ei_sorted|done..|rewrite !u64_small by lia; lia|].
  simpl. rewrite !u64_small by lia. rewrite IH; [|lia..|intros; apply HF; lia|].
  - unfold log_action. by rewrite Hn', <- (assoc_L (++)).
  - pose proof (units_left_step l Hl off len). lia.
Qed.

Lemma chunks_bytes fuel off len :
  0 <= off → 0 <= len → (units_left l off len < fuel)%nat →
  foldr Z.add 0 (snd <$> chunks l fuel off len) = len.
Proof.
  revert off len. induction fuel as [|fuel IH]; intros off len Hoff Hlen Hfuel; [lia|]. simpl.
  destruct (Z.eqb_spec len 0) as [->|Hnz]; [done|]. simpl.
  destruct (chunk_bounds l Hl off len) as (Hc & _); [lia..|].
  pose proof (units_left_step l Hl off len). rewrite IH; lia.
Qed.
End passes.

(** ** The backward map *)

Definition fe_contains (fe : ceph_file_extent) (f : Z) : Prop :=
  fe_off fe <= f < fe_off fe + fe_len fe.

(** Disjoint and in order; an extent may end where the next begins. *)
Definition fe_le (fe1 fe2 : ceph_file_extent) : Prop := fe_off fe1 + fe_len fe1 <= fe_off fe2.

Section backward.
Context (l : ceph_file_layout) (Hl : valid_layout l).
Context (n : Z) (Hn : 0 <= n).

(** [fes] describes, in order, where in the file the bytes [objoff, cur) of the object come
    from. *)
Record file_extents_inv (objoff cur : Z) (fes : list ceph_file_extent) : Prop := {
  fi_sorted : StronglySorted fe_le fes;
  fi_pos : ∀ fe, fe ∈ fes → 0 < fe_len fe;
  fi_covered : ∀ f, (∃ fe, fe ∈ fes ∧ fe_contains fe f) ↔
                    ∃ o, objoff <= o < cur ∧ unlocate l n o = f;
  fi_bytes : foldr Z.add 0 (fe_len <$> fes) = cur - objoff;
}.

Lemma file_extents_inv_snoc objoff cur x fes :
  file_extents_inv objoff cur fes → 0 <= objoff <= cur →
  0 < x → cur mod stripe_unit l + x <= stripe_unit l →
  file_extents_inv objoff (cur + x) (fes ++ [{| fe_off := unlocate l n cur; fe_len := x |}]).
Proof.
  intros [Hs Hpos Hcov Hbytes] Hcur Hx Hblk.
  assert (Hblock : ∀ d, 0 <= d < x → unlocate l n (cur + d) = unlocate l n cur + d).
  { intros d Hd. apply unlocate_block; (done || lia). }
  split.
  - apply StronglySorted_app_2; [|done|repeat constructor].
    intros fe1 fe2 H1 ->%list_elem_of_singleton. unfold fe_le; simpl.
    pose proof (Hpos fe1 H1).
    destruct (proj1 (Hcov (fe_off fe1 + fe_len fe1 - 1))) as (o & Ho & Heq).
    { exists fe1. split; [done|]. unfold fe_contains. lia. }
    pose proof (unlocate_lt l Hl n o cur). lia.
  - intros fe [| ->%list_elem_of_singleton]%elem_of_app; [auto|done].
  - intros f. setoid_rewrite elem_of_app. setoid_rewrite list_elem_of_singleton. split.
    + intros (fe & [Hfe| ->] & Hc).
      * destruct (proj1 (Hcov f)) as (o & ? & ?); [eauto|]. exists o. split; [lia|done].
      * unfold fe_contains in Hc; simpl in Hc. exists (cur + (f - unlocate l n cur)).
        split; [lia|]. rewrite Hblock; lia.
    + intros (o & Ho & Heq). destruct (Z.lt_ge_cases o cur).
      * destruct (proj2 (Hcov f)) as (fe & ? & ?); [exists o; split; [lia|done]|]. eauto.
      * eexists. split; [by right|]. unfold fe_contains; simpl.
        pose proof (Hblock (o - cur) ltac:(lia)) as Hb.
        replace (cur + (o - cur)) with o in Hb by lia. lia.
  - rewrite fmap_app, foldr_app. simpl. rewrite foldr_add_acc, Hbytes. lia.
Qed.
Lemma div_round_up_add o d : 0 < stripe_unit l →
  (o + d + stripe_unit l - 1) / stripe_unit l = (o + d - 1) / stripe_unit l + 1.
Proof.
  intros Hsu. replace (o + d + _ - 1) with ((o + d - 1) + 1 * stripe_unit l) by lia.
  apply Z.div_add. lia.
Qed.

(** One iteration of the loop, in terms of the next chunk of the object. *)
Lemma extent_to_file_step_eq num objoff objlen blockoff fes :
  0 <= objoff → 0 < objlen → objoff + objlen < 2 ^ 64 → blockoff = objoff mod stripe_unit l →
  unlocate l n objoff < 2 ^ 64 → Z.of_nat (length fes) < num →
  extent_to_file_step l (stripes_per_object l) n num (objoff, objlen, blockoff, fes) =
    Ret (inl (objoff + chunk l objoff objlen, objlen - chunk l objoff objlen, 0,
              {| fe_off := unlocate l n objoff; fe_len := chunk l objoff objlen |} :: fes)).
Proof.
  intros Hoff Hlen Hov -> Hun Hnum. unfold extent_to_file_step.
  destruct (chunk_bounds l Hl objoff objlen) as (Hc & _ & _); [lia..|].
  destruct (unlocate_parts l Hl n objoff) as (Hp1 & Hp2); [lia..|].
  pose proof (Z.mod_pos_bound objoff (stripe_unit l)).
  destruct Hl as (Hsu & Hos & Hsc). rewrite (proj2 (Z.eqb_neq objlen 0)) by lia.
  repeat (rewrite div_u64_rem_nz by lia; simpl).
  unfold unlocate, chunk in *. unfold require. rewrite (proj2 (Z.ltb_lt _ num)) by done.
  simpl. word_small. done.
Qed.

Lemma extent_to_file_wp alloc objoff objlen :
  0 <= objoff → 0 <= objlen → objoff + objlen <= object_size l →
  unlocate l n (objoff + objlen - 1) < 2 ^ 64 →
  wp (ceph_extent_to_file alloc l n objoff objlen) (λ '(r, fes),
    (r = 0 ∧ file_extents_inv objoff (objoff + objlen) fes) ∨
    (r = - ENOMEM ∧ ∃ k, alloc k = false)).
Proof.
  intros Hoff Hlen Hsize Hun. unfold ceph_extent_to_file. pose proof (proj1 Hl) as Hsu.
  pose proof (proj1 (proj2 Hl)) as Hos.
  rewrite (div_u64_rem_nz (object_size l)) by lia. simpl.
  destruct (Z.eqb_spec objlen 0) as [->|Hnz]; simpl.
  { left. split; [done|]. split; [constructor|set_solver| |simpl; lia].
    intros f. split; [|intros (o & ? & _); lia]. intros (fe & Hfe & _). set_solver. }
  repeat (rewrite div_u64_rem_nz by lia; simpl). word_small.
  rewrite div_round_up_add by lia. change (object_size l / _) with (stripes_per_object l).
  set (num := u32 _). destruct (alloc num) eqn:Ha; simpl; [|right; eauto].
  assert (num = (objoff + objlen - 1) / stripe_unit l + 1 - objoff / stripe_unit l) as Hnum.
  { apply u32_small. split.
    - assert (objoff / stripe_unit l <= (objoff + objlen - 1) / stripe_unit l); [|lia].
      apply Z.div_le_mono; lia.
    - assert (0 <= objoff / stripe_unit l) by (apply Z.div_pos; lia).
      assert ((objoff + objlen - 1) / stripe_unit l < 2 ^ 32 - 1); [|lia].
      apply Z.div_lt_upper_bound; nia. }
  apply wp_bind. eapply wp_mono.
  - apply (wp_loop (λ '(cur, len, bo, fes),
      objoff <= cur ∧ 0 <= len ∧ cur + len = objoff + objlen ∧
      (0 < len → bo = cur mod stripe_unit l) ∧
      Z.of_nat (length fes) = num - Z.of_nat (units_left l cur len) ∧
      file_extents_inv objoff cur (reverse fes))
     (λ '(cur, len, _, _), units_left l cur len) (file_extents_inv objoff (objoff + objlen))).
    + intros [[[cur len] bo] fes] (Hcur & Hlen' & Hsum & Hbo & Hcnt & Hinv).
      destruct (Z.eq_dec len 0) as [->|Hn0].
      * unfold units_left in Hcnt. simpl in *. rewrite Hcnt.
        rewrite Z.sub_0_r, Z.eqb_refl. simpl.
        by replace (objoff + objlen) with cur by lia.
      * destruct (chunk_bounds l Hl cur len) as (Hc & Hcb & _); [lia..|].
        pose proof (units_left_step l Hl cur len ltac:(lia) ltac:(lia)) as Hstep.
        pose proof (unlocate_mono l Hl n cur (objoff + objlen - 1)).
        rewrite extent_to_file_step_eq by (lia || auto with lia). simpl.
        split; [|done]. split_and!; [lia|lia|lia| | |].
        -- intros Hpos. symmetry. apply (chunk_mod l Hl); lia.
        -- rewrite (units_left_next l Hl) by lia. lia.
        -- rewrite reverse_cons. by apply file_extents_inv_snoc; [|lia..].
    + split_and!; [lia..| |].
      * simpl. unfold units_left. rewrite (proj2 (Z.eqb_neq objlen 0)) by done.
        assert (objoff / stripe_unit l <= (objoff + objlen - 1) / stripe_unit l); [|lia].
        apply Z.div_le_mono; lia.
      * split; [constructor|set_solver| |simpl; lia].
        intros f. split; [|intros (o & ? & _); lia]. intros (fe & Hfe & _). set_solver.
    + unfold units_left. destruct (Z.eqb_spec objlen 0); lia.
  - intros fes Hinv. left. done.
Qed.
End backward.

(** ** The number of objects *)
Section num_objects.
Context (l : ceph_file_layout) (Hl : valid_layout l).
Context (Hdiv : object_size l mod stripe_unit l = 0).

(** The first file byte of an object. *)
Lemma unlocate_first n : 0 <= n →
  unlocate l n 0 = n / stripe_count l * (stripe_count l * object_size l)
                   + n mod stripe_count l * stripe_unit l.
Proof.
  intros Hn. destruct Hl as (Hsu & _ & Hsc). unfold unlocate, stripes_per_object.
  pose proof (Z.div_mod (object_size l) (stripe_unit l) ltac:(lia)) as Hos.
  rewrite Z.div_0_l, Z.mod_0_l by lia. rewrite Hdiv in Hos.
  rewrite Hos at 2. rewrite Z.add_0_r. ring.
Qed.

Lemma object_used n size : 0 <= n →
  (∃ f, 0 <= f < size ∧ (locate l f).1 = n) ↔ unlocate l n 0 < size.
Proof.
  intros Hn. split.
  - intros (f & Hf & <-). destruct (locate_bounds l Hl f) as (H1 & _ & H2); [lia|].
    pose proof (unlocate_mono l Hl (locate l f).1 0 (locate l f).2) as Hm.
    rewrite unlocate_locate in Hm by (done || lia). lia.
  - intros Hlt. pose proof (unlocate_nonneg l Hl n 0). exists (unlocate l n 0).
    split; [lia|]. rewrite locate_unlocate; [done|done|done|].
    pose proof (spo_pos l Hl). destruct Hl as (? & _). nia.
Qed.

Lemma get_num_objects_eq size :
  0 <= size → size + stripe_count l * object_size l <= 2 ^ 64 →
  let period := stripe_count l * object_size l in
  ceph_get_num_objects l size =
    Ret (size / period * stripe_count l
         + Z.min (stripe_count l) ((size mod period + stripe_unit l - 1) / stripe_unit l)).
Proof.
  intros Hsize Hov period. destruct Hl as (Hsu & Hos & Hsc). unfold ceph_get_num_objects.
  assert (0 < period) by (unfold period; nia). assert (period < 2 ^ 64) by (unfold period; nia).
  pose proof (Z.div_mod size period ltac:(lia)) as Hdm.
  pose proof (Z.mod_pos_bound size period ltac:(lia)) as Hr.
  fold period in Hov |- *. rewrite (u64_small period) by lia.
  repeat (rewrite div_u64_rem_nz by lia; simpl).
  rewrite (u64_small (size + period - 1)) by lia.
  rewrite (u64_small (stripe_count l * stripe_unit l)) by nia.
  set (q := size / period) in *. set (r := size mod period) in *.
  assert (0 <= q) by (apply Z.div_pos; lia).
  assert (Hqs : (q + 1) * stripe_count l <= 2 ^ 64).
  { assert (stripe_count l <= period) by (unfold period; nia). nia. }
  assert (Hup : (size + period - 1) / period = q + (if 0 <? r then 1 else 0)).
  { destruct (Z.ltb_spec 0 r).
    - replace (size + period - 1) with ((q + 1) * period + (r - 1)) by lia. apply div_mod_add. lia.
    - replace (size + period - 1) with (q * period + (r + period - 1)) by lia.
      rewrite Z.add_0_r. apply div_mod_add. lia. }
  rewrite Hup. destruct (Z.ltb_spec 0 r) as [Hr0|Hr0]; simpl.
  - destruct (Z.ltb_spec r (stripe_count l * stripe_unit l)) as [Hlt|Hge]; simpl.
    + rewrite (u64_small (r + _ - 1)) by nia.
      assert (0 < (r + stripe_unit l - 1) / stripe_unit l <= stripe_count l).
      { split; [apply Z.div_str_pos; lia|]. apply Z.lt_succ_r, Z.div_lt_upper_bound; nia. }
      rewrite (u64_small (stripe_count l - _)) by lia.
      rewrite u64_small by nia. f_equal. lia.
    + assert (stripe_count l <= (r + stripe_unit l - 1) / stripe_unit l).
      { apply Z.div_le_lower_bound; nia. }
      rewrite u64_small by nia. f_equal. lia.
  - replace r with 0 by lia. rewrite (Z.div_small (0 + _ - 1)) by lia.
    rewrite u64_small by nia. f_equal. lia.
Qed.

(** Objects are used exactly up to that number. *)
Lemma num_objects_spec size n :
  0 <= size → 0 <= n →
  let period := stripe_count l * object_size l in
  n < size / period * stripe_count l
        + Z.min (stripe_count l) ((size mod period + stripe_unit l - 1) / stripe_unit l)
  ↔ unlocate l n 0 < size.
Proof.
  intros Hsize Hn period. rewrite unlocate_first by done. fold period.
  destruct Hl as (Hsu & Hos & Hsc).
  assert (0 < period) by (unfold period; nia).
  pose proof (Z.div_mod size period ltac:(lia)). pose proof (Z.mod_pos_bound size period ltac:(lia)).
  pose proof (Z.div_mod n (stripe_count l) ltac:(lia)).
  pose proof (Z.mod_pos_bound n (stripe_count l) ltac:(lia)).
  set (q := size / period) in *. set (r := size mod period) in *.
  set (a := n / stripe_count l) in *. set (c := n mod stripe_count l) in *.
  assert (Hcs : c * stripe_unit l < period) by (unfold period; nia).
  assert (Hc : c < (r + stripe_unit l - 1) / stripe_unit l ↔ c * stripe_unit l < r).
  { split; intros Hlt.
    - assert ((c + 1) * stripe_unit l <= r + stripe_unit l - 1); [|lia].
      pose proof (Z.mul_div_le (r + stripe_unit l - 1) (stripe_unit l) ltac:(lia)). nia.
    - apply Z.le_succ_l, Z.div_le_lower_bound; nia. }
  assert (0 <= (r + stripe_unit l - 1) / stripe_unit l) by (apply Z.div_pos; lia).
  destruct (Z.lt_total a q) as [Haq|[Haq|Haq]].
  - split; intros _; nia.
  - split; intros; nia.
  - split; intros; exfalso; nia.
Qed.
End num_objects.

(** ** Properties *)

(** C8: mapping a file extent to object extents terminates, returns 0, and leaves the list in
    canonical form: sorted, with a gap between any two extents of one object, and covering
    exactly the object bytes that store the file bytes mapped so far.  The list it starts from
    may be that of earlier calls for lower file extents. *)
Theorem ceph_file_to_extents_canonical {A} (alloc_fn : A → option A)
    (action_fn : ceph_object_extent → Z → A → A) l F off len exts a :
  valid_layout l → (∀ a, is_Some (alloc_fn a)) → 0 <= off → 0 <= len → off + len < 2 ^ 64 →
  extents_inv l F off exts →
  ∃ exts' a', ceph_file_to_extents alloc_fn action_fn l off len exts a = Ret (0, exts', a') ∧
    extents_inv l (λ f, F f ∨ off <= f < off + len) (off + len) exts'.
Proof.
  intros Hl Halloc ? ? ? Hinv.
  pose proof (file_to_extents_wp l Hl alloc_fn action_fn F off len exts a) as Hwp.
  apply wp_exists in Hwp as ([[r exts'] a'] & -> & -> & ?); eauto.
Qed.

(** The counting pass ([ceph_file_to_extents]) and the copying pass
    ([ceph_iterate_extents]) call their callbacks for the same objects with the same numbers
    of bytes in the same order, [len] bytes in all; the second pass, run on any canonical
    list that covers the file extent, never fails to find an extent. *)
Theorem ceph_iterate_extents_same_visits l F F' off hi len exts exts1 :
  valid_layout l → 0 <= off → 0 <= len → off + len < 2 ^ 64 →
  extents_inv l F off exts → extents_inv l F' hi exts1 → (∀ f, off <= f < off + len → F' f) →
  ∃ exts' log,
    ceph_file_to_extents Some log_action l off len exts [] = Ret (0, exts', log) ∧
    ceph_iterate_extents log_action l off len exts1 [] = Ret (0, log) ∧
    foldr Z.add 0 (snd <$> log) = len.
Proof.
  intros Hl Hoff Hlen Hov Hinv Hinv1 HF'.
  pose proof (file_to_extents_wp l Hl Some log_action F off len exts []) as Hwp.
  apply wp_exists in Hwp as ([[r exts'] log] & Hrun & -> & _); [|by eauto..].
  pose proof (units_left_fuel l Hl off len Hoff Hlen) as Hfuel.
  exists exts', log. split; [done|].
  apply (file_to_extents_log l Hl) in Hrun as Hlog; [|done..]. rewrite Hlog. simpl. split.
  - by eapply (iterate_extents_log l Hl).
  - by apply chunks_bytes.
Qed.

(** C9: reverse mapping inverts forward mapping: the file extents of an object extent that
    stores a file range are sorted and disjoint, have its length in total, and consist of
    exactly the bytes of the range stored in it. *)
Theorem ceph_extent_to_file_inverts l alloc off len exts e :
  valid_layout l → (∀ k, alloc k = true) → 0 <= off → 0 <= len → off + len < 2 ^ 64 →
  (∃ a, ceph_file_to_extents (A := unit) Some (λ _ _ a, a) l off len [] tt = Ret (0, exts, a)) →
  e ∈ exts →
  ∃ fes, ceph_extent_to_file alloc l (oe_objno e) (oe_off e) (oe_len e) = Ret (0, fes) ∧
    StronglySorted fe_le fes ∧ foldr Z.add 0 (fe_len <$> fes) = oe_len e ∧
    ∀ f, (∃ fe, fe ∈ fes ∧ fe_contains fe f) ↔
         off <= f < off + len ∧ ex_contains e (locate l f).1 (locate l f).2.
Proof.
  intros Hl Halloc Hoff Hlen Hov (a & Hrun) He.
  pose proof (file_to_extents_wp l Hl Some (λ _ _ a, a) (λ _, False) off len [] tt) as Hwp.
  unfold wp in Hwp. rewrite Hrun in Hwp. destruct Hwp as [_ Hinv]; [by eauto|done..| |].
  { split; [constructor|set_solver| |done]. intros n o. split; [intros (? & ? & _); set_solver|].
    intros (? & [] & _). }
  pose proof (ei_pos _ _ _ _ Hinv e He) as Hpos.
  pose proof (λ o, extents_inv_byte l Hl _ _ _ e o Hinv He) as Hbyte.
  destruct (Hbyte (oe_off e) ltac:(lia)) as (_ & Hn & ? & _).
  destruct (Hbyte (oe_off e + oe_len e - 1) ltac:(lia)) as ([[]|Hlast] & _ & ? & _).
  pose proof (spo_size l Hl).
  pose proof (extent_to_file_wp l Hl (oe_objno e) Hn alloc (oe_off e) (oe_len e)) as Hw.
  apply wp_exists in Hw as ([r fes] & -> & Hres); [|lia..].
  destruct Hres as [[-> [Hs _ Hc Hb]]|[_ (k & Hk)]]; [|by rewrite Halloc in Hk].
  exists fes. split_and!; [done..|lia|]. intros f. rewrite Hc. split.
  - intros (o & Ho & <-). destruct (Hbyte o Ho) as ([[]|?] & _ & _ & ->). done.
  - intros (Hf & Hen & Heo). exists (locate l f).2. split; [done|].
    rewrite Hen. apply unlocate_locate; [done|lia].
Qed.

(** [ceph_get_num_objects] returns the number of objects in use: object [n] stores a byte of
    a file of that size exactly when [n] is below it. *)
Theorem ceph_get_num_objects_exact l size :
  valid_layout l → object_size l mod stripe_unit l = 0 →
  0 <= size → size + stripe_count l * object_size l <= 2 ^ 64 →
  ∃ num, ceph_get_num_objects l size = Ret num ∧
    ∀ n, 0 <= n → n < num ↔ ∃ f, 0 <= f < size ∧ (locate l f).1 = n.
Proof.
  intros Hl Hdiv Hsize Hov. eexists. split; [by apply get_num_objects_eq|].
  intros n Hn. rewrite (num_objects_spec l Hl Hdiv) by done. by rewrite object_used.
Qed.

(** ** Witnesses: two objects of two stripe units of 4 bytes *)

Definition small_layout : ceph_file_layout :=
  {| stripe_unit := 4; stripe_count := 2; object_size := 8 |}.

Lemma extents_inv_nil l off : extents_inv l (λ _, False) off [].
Proof.
  split; [constructor|set_solver| |done].
  intros n o. split; [intros (? & ? & _); set_solver|]. intros (? & [] & _).
Qed.

Example small_extents :
  ceph_file_to_extents (A := unit) Some (λ _ _ a, a) small_layout 2 20 [] tt =
    Ret (0, [{| oe_objno := 0; oe_off := 2; oe_len := 6 |}; {| oe_objno := 1; oe_off := 0; oe_len := 8 |};
             {| oe_objno := 2; oe_off := 0; oe_len := 4 |}; {| oe_objno := 3; oe_off := 0; oe_len := 2 |}], tt).
Proof. vm_compute. reflexivity. Qed.

Lemma ceph_file_to_extents_canonical_witness :
  ∃ exts' a', ceph_file_to_extents (A := unit) Some (λ _ _ a, a) small_layout 2 20 [] tt
                = Ret (0, exts', a') ∧
    extents_inv small_layout (λ f, False ∨ 2 <= f < 2 + 20) (2 + 20) exts'.
Proof.
  apply (ceph_file_to_extents_canonical (A := unit) Some (λ _ _ a, a) small_layout (λ _, False) 2 20 [] tt).
  - unfold valid_layout; simpl; lia.
  - eauto.
  - lia.
  - lia.
  - lia.
  - apply extents_inv_nil.
Defined.

Definition small_list : list ceph_object_extent :=
  [{| oe_objno := 0; oe_off := 2; oe_len := 6 |}; {| oe_objno := 1; oe_off := 0; oe_len := 8 |};
   {| oe_objno := 2; oe_off := 0; oe_len := 4 |}; {| oe_objno := 3; oe_off := 0; oe_len := 2 |}].

Lemma small_layout_valid : valid_layout small_layout.
Proof. by apply (bool_decide_unpack _). Qed.

Lemma small_list_inv : extents_inv small_layout (also (λ _, False) 2 20) 22 small_list.
Proof.
  pose proof (file_to_extents_wp small_layout small_layout_valid (A := unit) Some (λ _ _ a, a)
    (λ _, False) 2 20 [] tt) as Hwp.
  rewrite small_extents in Hwp. by apply Hwp; [eauto|lia..|apply extents_inv_nil].
Qed.

Lemma ceph_iterate_extents_same_visits_witness :
  ∃ exts' log,
    ceph_file_to_extents Some log_action small_layout 2 20 [] [] = Ret (0, exts', log) ∧
    ceph_iterate_extents log_action small_layout 2 20 small_list [] = Ret (0, log) ∧
    foldr Z.add 0 (snd <$> log) = 20.
Proof.
  apply (ceph_iterate_extents_same_visits small_layout (λ _, False) (also (λ _, False) 2 20) 2 22).
  - apply small_layout_valid.
  - lia.
  - lia.
  - lia.
  - apply extents_inv_nil.
  - apply small_list_inv.
  - by right.
Defined.

Lemma ceph_extent_to_file_inverts_witness :
  ∃ fes, ceph_extent_to_file (λ _, true) small_layout 0 2 6 = Ret (0, fes) ∧
    StronglySorted fe_le fes ∧ foldr Z.add 0 (fe_len <$> fes) = 6 ∧
    ∀ f, (∃ fe, fe ∈ fes ∧ fe_contains fe f) ↔
         2 <= f < 22 ∧ ex_contains {| oe_objno := 0; oe_off := 2; oe_len := 6 |}
                          (locate small_layout f).1 (locate small_layout f).2.
Proof.
  apply (ceph_extent_to_file_inverts small_layout (λ _, true) 2 20 small_list
    {| oe_objno := 0; oe_off := 2; oe_len := 6 |}).
  - apply small_layout_valid.
  - done.
  - lia.
  - lia.
  - lia.
  - exists tt. apply small_extents.
  - by apply elem_of_cons; left.
Defined.

Lemma ceph_get_num_objects_exact_witness :
  ∃ num, ceph_get_num_objects small_layout 22 = Ret num ∧
    ∀ n, 0 <= n → n < num ↔ ∃ f, 0 <= f < 22 ∧ (locate small_layout f).1 = n.
Proof.
  apply (ceph_get_num_objects_exact small_layout 22).
  - apply small_layout_valid.
  - done.
  - lia.
  - done.
Defined.

Example small_num_objects : ceph_get_num_objects small_layout 22 = Ret 4.
Proof. reflexivity. Qed.
