(* ===== verification/Hash.v ===== *)
(** * Hash functions (libceph/crush/hash.c, libceph/ceph_hash.c)

    Robert Jenkins' 32-bit mixing, as CRUSH uses it on one to five integers and as object names
    are hashed with it, and the Linux dcache hash.  Strings are lists of bytes. *)
From S2P Require Import Prelude.

(** ** crush/hash.c *)

Definition CRUSH_HASH_RJENKINS1 : Z := 0.

(** [x = x - y; x = x - z; x = x ^ t] *)
Definition mix1 (x y z t : Z) : Z := Z.lxor (u32 (u32 (x - y) - z)) t.

(** The three kinds of lines of the macro, on its arguments:
    [a = a-b; a = a-c; a = a^(c>>sh)], [b = b-c; b = b-a; b = b^(a<<sh)] and
    [c = c-a; c = c-b; c = c^(b>>sh)]. *)
Definition mixA (sh : Z) (s : Z * Z * Z) : Z * Z * Z :=
  let '(a, b, c) := s in (mix1 a b c (Z.shiftr c sh), b, c).
Definition mixB (sh : Z) (s : Z * Z * Z) : Z * Z * Z :=
  let '(a, b, c) := s in (a, mix1 b c a (u32 (Z.shiftl a sh)), c).
Definition mixC (sh : Z) (s : Z * Z * Z) : Z * Z * Z :=
  let '(a, b, c) := s in (a, b, mix1 c a b (Z.shiftr b sh)).

(** The macro assigns to its three arguments. *)
Definition crush_hashmix (s : Z * Z * Z) : Z * Z * Z :=
  let s := mixA 13 s in let s := mixB 8 s in let s := mixC 13 s in
  let s := mixA 12 s in let s := mixB 16 s in let s := mixC 5 s in
  let s := mixA 3 s in let s := mixB 10 s in mixC 15 s.

Definition crush_hash_seed : Z := 1315423911.

Definition crush_hash32_rjenkins1 (a : Z) : Z :=
  let hash := Z.lxor crush_hash_seed a in
  let b := a in let x := 231232 in let y := 1232 in
  let '(b, x, hash) := crush_hashmix (b, x, hash) in
  let '(y, a, hash) := crush_hashmix (y, a, hash) in
  hash.

Definition crush_hash32_rjenkins1_2 (a b : Z) : Z :=
  let hash := Z.lxor (Z.lxor crush_hash_seed a) b in
  let x := 231232 in let y := 1232 in
  let '(a, b, hash) := crush_hashmix (a, b, hash) in
  let '(x, a, hash) := crush_hashmix (x, a, hash) in
  let '(b, y, hash) := crush_hashmix (b, y, hash) in
  hash.

Definition crush_hash32_rjenkins1_3 (a b c : Z) : Z :=
  let hash := Z.lxor (Z.lxor (Z.lxor crush_hash_seed a) b) c in
  let x := 231232 in let y := 1232 in
  let '(a, b, hash) := crush_hashmix (a, b, hash) in
  let '(c, x, hash) := crush_hashmix (c, x, hash) in
  let '(y, a, hash) := crush_hashmix (y, a, hash) in
  let '(b, x, hash) := crush_hashmix (b, x, hash) in
  let '(y, c, hash) := crush_hashmix (y, c, hash) in
  hash.

Definition crush_hash32_rjenkins1_4 (a b c d : Z) : Z :=
  let hash := Z.lxor (Z.lxor (Z.lxor (Z.lxor crush_hash_seed a) b) c) d in
  let x := 231232 in let y := 1232 in
  let '(a, b, hash) := crush_hashmix (a, b, hash) in
  let '(c, d, hash) := crush_hashmix (c, d, hash) in
  let '(a, x, hash) := crush_hashmix (a, x, hash) in
  let '(y, b, hash) := crush_hashmix (y, b, hash) in
  let '(c, x, hash) := crush_hashmix (c, x, hash) in
  let '(y, d, hash) := crush_hashmix (y, d, hash) in
  hash.

Definition crush_hash32_rjenkins1_5 (a b c d e : Z) : Z :=
  let hash := Z.lxor (Z.lxor (Z.lxor (Z.lxor (Z.lxor crush_hash_seed a) b) c) d) e in
  let x := 231232 in let y := 1232 in
  let '(a, b, hash) := crush_hashmix (a, b, hash) in
  let '(c, d, hash) := crush_hashmix (c, d, hash) in
  let '(e, x, hash) := crush_hashmix (e, x, hash) in
  let '(y, a, hash) := crush_hashmix (y, a, hash) in
  let '(b, x, hash) := crush_hashmix (b, x, hash) in
  let '(y, c, hash) := crush_hashmix (y, c, hash) in
  let '(d, x, hash) := crush_hashmix (d, x, hash) in
  let '(y, e, hash) := crush_hashmix (y, e, hash) in
  hash.

(** The parameters are [__u32]: the callers' arguments are converted. *)
Definition crush_hash32 (type a : Z) : Z :=
  if type =? CRUSH_HASH_RJENKINS1 then crush_hash32_rjenkins1 (u32 a) else 0.
Definition crush_hash32_2 (type a b : Z) : Z :=
  if type =? CRUSH_HASH_RJENKINS1 then crush_hash32_rjenkins1_2 (u32 a) (u32 b) else 0.
Definition crush_hash32_3 (type a b c : Z) : Z :=
  if type =? CRUSH_HASH_RJENKINS1 then crush_hash32_rjenkins1_3 (u32 a) (u32 b) (u32 c) else 0.
Definition crush_hash32_4 (type a b c d : Z) : Z :=
  if type =? CRUSH_HASH_RJENKINS1
  then crush_hash32_rjenkins1_4 (u32 a) (u32 b) (u32 c) (u32 d) else 0.
Definition crush_hash32_5 (type a b c d e : Z) : Z :=
  if type =? CRUSH_HASH_RJENKINS1
  then crush_hash32_rjenkins1_5 (u32 a) (u32 b) (u32 c) (u32 d) (u32 e) else 0.

Definition crush_hash_name (type : Z) : string :=
  if type =? CRUSH_HASH_RJENKINS1 then "rjenkins1" else "unknown".

(** ** ceph_hash.c *)

Definition CEPH_STR_HASH_LINUX : Z := 1.
Definition CEPH_STR_HASH_RJENKINS : Z := 2.

Definition mix (s : Z * Z * Z) : Z * Z * Z :=
  let s := mixA 13 s in let s := mixB 8 s in let s := mixC 13 s in
  let s := mixA 12 s in let s := mixB 16 s in let s := mixC 5 s in
  let s := mixA 3 s in let s := mixB 10 s in mixC 15 s.

(** [k[i] + (k[i+1] << 8) + (k[i+2] << 16) + (k[i+3] << 24)] *)
Definition load4 (k : list Z) (i : Z) : outcome Z :=
  k0 ← aget k i; k1 ← aget k (i + 1); k2 ← aget k (i + 2); k3 ← aget k (i + 3);
  Ret (u32 (u32 (u32 (k0 + u32 (Z.shiftl k1 8)) + u32 (Z.shiftl k2 16)) + u32 (Z.shiftl k3 24))).

(** The main loop, on the rest [k] of the string and the number [len] of its bytes that still
    need mixing. *)
Definition str_hash_rjenkins_step (s : Z * Z * Z * list Z * Z)
    : outcome ((Z * Z * Z * list Z * Z) + (Z * Z * Z * list Z * Z)) :=
  let '(a, b, c, k, len) := s in
  if len >=? 12 then
    w0 ← load4 k 0; w1 ← load4 k 4; w2 ← load4 k 8;
    let '(a, b, c) := mix (u32 (a + w0), u32 (b + w1), u32 (c + w2)) in
    Ret (inl (a, b, c, drop 12 k, len - 12))
  else Ret (inr (a, b, c, k, len)).

(** One case of the closing switch, reached by the cases above it falling through:
    [v + ((__u32)k[i] << sh)] when at least [i + 1] bytes are left. *)
Definition tail_case (k : list Z) (len i sh v : Z) : outcome Z :=
  if i <? len then x ← aget k i; Ret (u32 (v + u32 (Z.shiftl x sh))) else Ret v.

Definition ceph_str_hash_rjenkins (str : list Z) (length : Z) : outcome Z :=
  let a := 0x9e3779b9 in
  '(a, b, c, k, len) ←
    loop (Z.to_nat (length / 12) + 1) str_hash_rjenkins_step (a, a, 0, str, length);
  let c := u32 (c + length) in
  c ← tail_case k len 10 24 c;
  c ← tail_case k len 9 16 c;
  c ← tail_case k len 8 8 c;
  b ← tail_case k len 7 24 b;
  b ← tail_case k len 6 16 b;
  b ← tail_case k len 5 8 b;
  b ← tail_case k len 4 0 b;
  a ← tail_case k len 3 24 a;
  a ← tail_case k len 2 16 a;
  a ← tail_case k len 1 8 a;
  a ← tail_case k len 0 0 a;
  let '(_, _, c) := mix (a, b, c) in
  Ret c.

(** [hash] is an [unsigned long]; the result is truncated to [unsigned int]. *)
Definition ceph_str_hash_linux (str : list Z) (length : Z) : outcome Z :=
  hash ← for_range (Z.to_nat length) 0
    (λ i hash, c ← aget str i; Ret (u64 ((hash + Z.shiftl c 4 + Z.shiftr c 4) * 11))) 0;
  Ret (u32 hash).

Definition ceph_str_hash (type : Z) (s : list Z) (len : Z) : outcome Z :=
  if type =? CEPH_STR_HASH_LINUX then ceph_str_hash_linux s len
  else if type =? CEPH_STR_HASH_RJENKINS then ceph_str_hash_rjenkins s len
  else Ret (u32 (-1)).

Definition ceph_str_hash_name (type : Z) : string :=
  if type =? CEPH_STR_HASH_LINUX then "linux"
  else if type =? CEPH_STR_HASH_RJENKINS then "rjenkins" else "unknown".

(** ** Mixing *)

Definition word (x : Z) : Prop := 0 <= x < 2 ^ 32.
Definition word3 (s : Z * Z * Z) : Prop := let '(a, b, c) := s in word a ∧ word b ∧ word c.

Lemma word_u32 x : word (u32 x).
Proof. apply u32_range. Qed.

Lemma word_lxor x y : word x → word y → word (Z.lxor x y).
Proof.
  unfold word. intros Hx Hy. split; [apply Z.lxor_nonneg; lia|].
  apply Z.bounded_iff_bits_nonneg; [lia|apply Z.lxor_nonneg; lia|].
  intros i Hi. rewrite Z.lxor_spec.
  by rewrite (proj1 (Z.bounded_iff_bits_nonneg 32 x ltac:(lia) ltac:(lia))),
             (proj1 (Z.bounded_iff_bits_nonneg 32 y ltac:(lia) ltac:(lia))) by (done || lia).
Qed.

Lemma word_shiftr x n : word x → 0 <= n → word (Z.shiftr x n).
Proof.
  unfold word. intros Hx Hn. rewrite Z.shiftr_div_pow2 by done.
  pose proof (Z.pow_pos_nonneg 2 n). split; [apply Z.div_pos; lia|].
  apply Z.div_lt_upper_bound; [lia|]. nia.
Qed.

#[export] Hint Resolve word_u32 word_lxor word_shiftr : words.

(** What undoes [mix1]. *)
Definition unmix1 (x y z t : Z) : Z := u32 (Z.lxor x t + z + y).

Lemma word_mix1 x y z t : word t → word (mix1 x y z t).
Proof. unfold mix1. auto with words. Qed.

Lemma unmix1_mix1 x y z t : word x → unmix1 (mix1 x y z t) y z t = x.
Proof.
  intros Hx. unfold unmix1, mix1. rewrite Z.lxor_assoc, Z.lxor_nilpotent, Z.lxor_0_r.
  unfold u32. rewrite Zminus_mod_idemp_l, <- Z.add_assoc, Zplus_mod_idemp_l.
  replace (x - y - z + (z + y)) with x by lia. by apply Z.mod_small.
Qed.

Definition unmixA (sh : Z) (s : Z * Z * Z) : Z * Z * Z :=
  let '(a, b, c) := s in (unmix1 a b c (Z.shiftr c sh), b, c).
Definition unmixB (sh : Z) (s : Z * Z * Z) : Z * Z * Z :=
  let '(a, b, c) := s in (a, unmix1 b c a (u32 (Z.shiftl a sh)), c).
Definition unmixC (sh : Z) (s : Z * Z * Z) : Z * Z * Z :=
  let '(a, b, c) := s in (a, b, unmix1 c a b (Z.shiftr b sh)).

(** The nine lines backwards. *)
Definition crush_hashunmix (s : Z * Z * Z) : Z * Z * Z :=
  unmixA 13 (unmixB 8 (unmixC 13 (unmixA 12 (unmixB 16 (unmixC 5
    (unmixA 3 (unmixB 10 (unmixC 15 s)))))))).

Section lines.
Context (sh : Z) (Hsh : 0 <= sh) (s : Z * Z * Z) (Hs : word3 s).

Lemma word3_mixA : word3 (mixA sh s).
Proof. destruct s as [[a b] c]. destruct Hs as (? & ? & ?). split_and!; try done. apply word_mix1. auto with words. Qed.
Lemma word3_mixB : word3 (mixB sh s).
Proof. destruct s as [[a b] c]. destruct Hs as (? & ? & ?). split_and!; try done. apply word_mix1. auto with words. Qed.
Lemma word3_mixC : word3 (mixC sh s).
Proof. destruct s as [[a b] c]. destruct Hs as (? & ? & ?). split_and!; try done. apply word_mix1. auto with words. Qed.
Lemma unmixA_mixA : unmixA sh (mixA sh s) = s.
Proof. destruct s as [[a b] c]. destruct Hs as (? & ? & ?). simpl. by rewrite unmix1_mix1. Qed.
Lemma unmixB_mixB : unmixB sh (mixB sh s) = s.
Proof. destruct s as [[a b] c]. destruct Hs as (? & ? & ?). simpl. by rewrite unmix1_mix1. Qed.
Lemma unmixC_mixC : unmixC sh (mixC sh s) = s.
Proof. destruct s as [[a b] c]. destruct Hs as (? & ? & ?). simpl. by rewrite unmix1_mix1. Qed.
End lines.

#[export] Hint Resolve word3_mixA word3_mixB word3_mixC : words.
#[export] Hint Extern 1 (_ <= _) => lia : words.

Lemma word3_crush_hashmix s : word3 s → word3 (crush_hashmix s).
Proof. intros Hs. unfold crush_hashmix. auto 12 with words. Qed.

Lemma crush_hashunmix_mix s : word3 s → crush_hashunmix (crush_hashmix s) = s.
Proof.
  intros Hs. unfold crush_hashmix, crush_hashunmix.
  do 3 rewrite unmixC_mixC, unmixB_mixB, unmixA_mixA by auto 12 with words. done.
Qed.

(** ** The hashes are 32-bit words *)

Lemma word_const_seed : word crush_hash_seed. Proof. unfold word, crush_hash_seed; lia. Qed.
Lemma word_const_x : word 231232. Proof. unfold word; lia. Qed.
Lemma word_const_y : word 1232. Proof. unfold word; lia. Qed.
#[export] Hint Resolve word_const_seed word_const_x word_const_y : words.

Ltac mix_step :=
  match goal with
  | |- context [let '(_, _) := crush_hashmix (?a, ?b, ?c) in _] =>
      let H := fresh in
      assert (H : word3 (crush_hashmix (a, b, c)))
        by (apply word3_crush_hashmix; unfold word3; split_and!; auto 8 with words);
      destruct (crush_hashmix (a, b, c)) as [[? ?] ?]; destruct H as (? & ? & ?)
  end.

Lemma word_crush_hash32 type a : word (crush_hash32 type a).
Proof.
  unfold crush_hash32. case_match; [|unfold word; lia].
  unfold crush_hash32_rjenkins1. cbv zeta. repeat mix_step. done.
Qed.
Lemma word_crush_hash32_2 type a b : word (crush_hash32_2 type a b).
Proof.
  unfold crush_hash32_2. case_match; [|unfold word; lia].
  unfold crush_hash32_rjenkins1_2. cbv zeta. repeat mix_step. done.
Qed.
Lemma word_crush_hash32_3 type a b c : word (crush_hash32_3 type a b c).
Proof.
  unfold crush_hash32_3. case_match; [|unfold word; lia].
  unfold crush_hash32_rjenkins1_3. cbv zeta. repeat mix_step. done.
Qed.
Lemma word_crush_hash32_4 type a b c d : word (crush_hash32_4 type a b c d).
Proof.
  unfold crush_hash32_4. case_match; [|unfold word; lia].
  unfold crush_hash32_rjenkins1_4. cbv zeta. repeat mix_step. done.
Qed.
Lemma word_crush_hash32_5 type a b c d e : word (crush_hash32_5 type a b c d e).
Proof.
  unfold crush_hash32_5. case_match; [|unfold word; lia].
  unfold crush_hash32_rjenkins1_5. cbv zeta. repeat mix_step. done.
Qed.
#[export] Hint Resolve word_crush_hash32 word_crush_hash32_2 word_crush_hash32_3
  word_crush_hash32_4 word_crush_hash32_5 : words.

#[global] Opaque crush_hashmix mix.

(** ** String hashing *)

Definition is_byte (x : Z) : Prop := 0 <= x < 2 ^ 8.

(** The reference: whole 12-byte blocks are mixed as three little-endian words; the rest is
    padded with zeros, its last word moved up by one byte, and the length added there. *)
Definition le32 (k : list Z) (i : nat) : Z :=
  default 0 (k !! i) + default 0 (k !! (i + 1)%nat) * 2 ^ 8
  + default 0 (k !! (i + 2)%nat) * 2 ^ 16 + default 0 (k !! (i + 3)%nat) * 2 ^ 24.

Definition absorb (s : Z * Z * Z) (w0 w1 w2 : Z) : Z * Z * Z :=
  let '(a, b, c) := s in mix (u32 (a + w0), u32 (b + w1), u32 (c + w2)).

Fixpoint rjenkins_blocks (fuel : nat) (total : Z) (s : Z * Z * Z) (k : list Z) : Z :=
  match fuel with
  | O => 0
  | S fuel =>
      if decide (12 <= length k)%nat
      then rjenkins_blocks fuel total (absorb s (le32 k 0) (le32 k 4) (le32 k 8)) (drop 12 k)
      else (absorb s (le32 k 0) (le32 k 4) (total + le32 (0 :: drop 8 k) 0)).2
  end.

Definition rjenkins_ref (str : list Z) : Z :=
  rjenkins_blocks (S (length str)) (Z.of_nat (length str)) (0x9e3779b9, 0x9e3779b9, 0) str.

Lemma u32_add_l x y : u32 (u32 x + y) = u32 (x + y).
Proof. apply Zplus_mod_idemp_l. Qed.
Lemma u32_add_r x y : u32 (x + u32 y) = u32 (x + y).
Proof. apply Zplus_mod_idemp_r. Qed.

Lemma u32_sub_l x y : u32 (u32 x - y) = u32 (x - y).
Proof. apply Zminus_mod_idemp_l. Qed.

(** Equality of two [u32] sums with conversions at any depth. *)
Lemma u32_shift x : ∃ q, u32 x = x + q * 2 ^ 32.
Proof. exists (- (x / 2 ^ 32)). unfold u32. rewrite Z.mod_eq by done. ring. Qed.
Lemma u32_congr x y q : x = y + q * 2 ^ 32 → u32 x = u32 y.
Proof. intros ->. apply Z.mod_add. done. Qed.

Ltac u32_ring :=
  lazymatch goal with |- u32 ?x = u32 ?y =>
    let X := fresh in let Y := fresh in
    enough (∃ q, x = y + q * 2 ^ 32) as [? ?] by (eapply u32_congr; eassumption);
    repeat match goal with
    | |- context [u32 ?z] =>
        lazymatch z with context [u32] => fail | _ => idtac end;
        let q := fresh "q" in destruct (u32_shift z) as [q ->]
    end;
    match goal with |- ∃ _, ?a = ?b + _ =>
      exists ((a - b) / 2 ^ 32); Z.div_mod_to_equations; lia end
  end.

Lemma load4_le32 k i :
  (i + 4 <= length k)%nat → load4 k (Z.of_nat i) = Ret (u32 (le32 k i)).
Proof.
  intros Hi. unfold load4, le32.
  assert (Hget : ∀ j, (j < 4)%nat →
    aget k (Z.of_nat i + Z.of_nat j) = Ret (default 0 (k !! (i + j)%nat))).
  { intros j Hj. unfold aget. destruct (Z.ltb_spec (Z.of_nat i + Z.of_nat j) 0); [lia|].
    replace (Z.to_nat _) with (i + j)%nat by lia.
    destruct (lookup_lt_is_Some_2 k (i + j)) as [x Hx]; [lia|]. by rewrite Hx. }
  pose proof (Hget 0%nat ltac:(lia)) as H0. rewrite Z.add_0_r, Nat.add_0_r in H0.
  pose proof (Hget 1%nat ltac:(lia)) as H1. pose proof (Hget 2%nat ltac:(lia)) as H2.
  pose proof (Hget 3%nat ltac:(lia)) as H3.
  rewrite H0. simpl. setoid_rewrite H1. simpl. setoid_rewrite H2. simpl. setoid_rewrite H3. simpl.
  f_equal.
  rewrite !Z.shiftl_mul_pow2 by lia.
  by u32_ring.
Qed.

Lemma str_hash_rjenkins_step_eq a b c k :
  str_hash_rjenkins_step (a, b, c, k, Z.of_nat (length k)) =
    if decide (12 <= length k)%nat then
      let '(a, b, c) := absorb (a, b, c) (le32 k 0) (le32 k 4) (le32 k 8) in
      Ret (inl (a, b, c, drop 12 k, Z.of_nat (length (drop 12 k))))
    else Ret (inr (a, b, c, k, Z.of_nat (length k))).
Proof.
  unfold str_hash_rjenkins_step. rewrite Z.geb_leb. case_decide.
  - pose proof (load4_le32 k 0 ltac:(lia)) as L0. pose proof (load4_le32 k 4 ltac:(lia)) as L4.
    pose proof (load4_le32 k 8 ltac:(lia)) as L8. change (Z.of_nat 0) with 0 in L0.
    change (Z.of_nat 4) with 4 in L4. change (Z.of_nat 8) with 8 in L8.
    rewrite (proj2 (Z.leb_le 12 _)), L0, L4, L8 by lia. cbn [mbind outcome_bind absorb].
    rewrite !u32_add_r, length_drop. destruct (mix _) as [[??]?]. do 3 f_equal. lia.
  - by rewrite (proj2 (Z.leb_gt 12 _)) by lia.
Qed.

Lemma word3_mix s : word3 s → word3 (mix s).
Proof. exact (word3_crush_hashmix s). Qed.

Lemma word3_absorb s w0 w1 w2 : word3 (absorb s w0 w1 w2).
Proof. destruct s as [[a b] c]. apply word3_mix. split_and!; apply word_u32. Qed.

(** The loop stops with fewer than 12 bytes left, where the reference stands too. *)
Lemma rjenkins_loop n total a b c k :
  (length k < 12 * n)%nat → word3 (a, b, c) →
  ∃ a' b' c' k', (length k' < 12)%nat ∧ word3 (a', b', c') ∧
    loop n str_hash_rjenkins_step (a, b, c, k, Z.of_nat (length k))
      = Ret (a', b', c', k', Z.of_nat (length k')) ∧
    ∀ fuel, (length k < fuel)%nat →
      ∃ fuel', rjenkins_blocks fuel total (a, b, c) k
             = rjenkins_blocks (S fuel') total (a', b', c') k'.
Proof.
  revert a b c k. induction n as [|n IH]; intros a b c k Hk Hw; [lia|].
  cbn [loop]. rewrite str_hash_rjenkins_step_eq. case_decide as Hle.
  - pose proof (word3_absorb (a, b, c) (le32 k 0) (le32 k 4) (le32 k 8)) as Hw1.
    destruct (absorb (a, b, c) _ _ _) as [[a1 b1] c1] eqn:Habs.
    destruct (IH a1 b1 c1 (drop 12 k)) as (a' & b' & c' & k' & ? & ? & Hloop & Hb);
      [rewrite length_drop; lia|done|].
    exists a', b', c', k'. split_and!; [done..|]. intros [|fuel] Hfuel; [lia|].
    destruct (Hb fuel) as (fuel' & Heq); [rewrite length_drop; lia|]. exists fuel'.
    rewrite <- Heq. cbn [rjenkins_blocks]. by rewrite decide_True, Habs.
  - exists a, b, c, k. split_and!; [lia|done..|]. intros [|fuel] Hfuel; [lia|]. by exists fuel.
Qed.

(** A case of the switch adds its byte, or nothing where the string has ended. *)
Lemma tail_case_eq k i sh v :
  word v → 0 <= sh →
  tail_case k (Z.of_nat (length k)) (Z.of_nat i) sh v
    = Ret (u32 (v + default 0 (k !! i) * 2 ^ sh)).
Proof.
  intros Hv Hsh. unfold tail_case, aget.
  destruct (Z.ltb_spec (Z.of_nat i) (Z.of_nat (length k))).
  - rewrite (proj2 (Z.ltb_ge _ 0)), Nat2Z.id by lia.
    destruct (lookup_lt_is_Some_2 k i) as [x ->]; [lia|]. cbn.
    by rewrite u32_add_r, Z.shiftl_mul_pow2.
  - rewrite lookup_ge_None_2 by lia. cbn. by rewrite Z.add_0_r, u32_small.
Qed.

Lemma le32_last k :
  le32 (0 :: drop 8 k) 0 = default 0 (k !! 8%nat) * 2 ^ 8
    + default 0 (k !! 9%nat) * 2 ^ 16 + default 0 (k !! 10%nat) * 2 ^ 24.
Proof.
  unfold le32. change ((0 :: drop 8 k) !! (0 + 1)%nat) with (drop 8 k !! 0%nat).
  change ((0 :: drop 8 k) !! (0 + 2)%nat) with (drop 8 k !! 1%nat).
  change ((0 :: drop 8 k) !! (0 + 3)%nat) with (drop 8 k !! 2%nat).
  rewrite !lookup_drop. change (default 0 ((0 :: drop 8 k) !! 0%nat)) with 0.
  rewrite Z.add_0_l. done.
Qed.

(** The fall-through switch adds the padded words. *)
Lemma ceph_str_hash_rjenkins_eq str :
  ceph_str_hash_rjenkins str (Z.of_nat (length str)) = Ret (rjenkins_ref str).
Proof.
  unfold ceph_str_hash_rjenkins, rjenkins_ref.
  destruct (rjenkins_loop (Z.to_nat (Z.of_nat (length str) / 12) + 1) (Z.of_nat (length str))
    0x9e3779b9 0x9e3779b9 0 str) as (a & b & c & k & Hk & (Ha & Hb & Hc) & -> & Href).
  { pose proof (Z.div_mod (Z.of_nat (length str)) 12). pose proof (Z.mod_pos_bound (Z.of_nat (length str)) 12).
    pose proof (Z.div_pos (Z.of_nat (length str)) 12). lia. }
  { unfold word3, word. lia. }
  destruct (Href (S (length str))) as (fuel & ->); [lia|]. clear Href.
  generalize (Z.of_nat (length str)). intros total.
  cbn [rjenkins_blocks mbind outcome_bind]. rewrite decide_False by lia.
  pose proof (tail_case_eq k) as E.
  rewrite (E 10%nat 24) by auto with words. cbn [mbind outcome_bind].
  rewrite (E 9%nat 16) by auto with words. cbn [mbind outcome_bind].
  rewrite (E 8%nat 8) by auto with words. cbn [mbind outcome_bind].
  rewrite (E 7%nat 24) by auto with words. cbn [mbind outcome_bind].
  rewrite (E 6%nat 16) by auto with words. cbn [mbind outcome_bind].
  rewrite (E 5%nat 8) by auto with words. cbn [mbind outcome_bind].
  rewrite (E 4%nat 0) by auto with words. cbn [mbind outcome_bind].
  rewrite (E 3%nat 24) by auto with words. cbn [mbind outcome_bind].
  rewrite (E 2%nat 16) by auto with words. cbn [mbind outcome_bind].
  rewrite (E 1%nat 8) by auto with words. cbn [mbind outcome_bind].
  rewrite (E 0%nat 0) by auto with words. cbn [mbind outcome_bind].
  rewrite le32_last. unfold absorb, le32. cbn [Nat.add].
  match goal with |- context [mix (?x, ?y, ?z)] =>
    match goal with |- _ = Ret (mix (?x', ?y', ?z')).2 =>
      assert (x = x') as -> by u32_ring; assert (y = y') as -> by u32_ring;
      assert (z = z') as -> by u32_ring end end.
  by destruct (mix _) as [[??]?].
Qed.

(** The dcache hash over the integers: the wrap-around at 64 bits does not show in the 32 the
    function returns. *)
Definition linux_ref (str : list Z) : Z :=
  foldl (λ h c, (h + c * 16 + c / 16) * 11) 0 str.

Lemma u32_u64 x : u32 (u64 x) = u32 x.
Proof.
  unfold u32, u64. apply Z.mod_mod_divide. by exists (2 ^ 32).
Qed.

Lemma aget_app_mid {A} (l1 l2 : list A) x : aget (l1 ++ x :: l2) (Z.of_nat (length l1)) = Ret x.
Proof.
  unfold aget. rewrite (proj2 (Z.ltb_ge _ 0)), Nat2Z.id by lia.
  by rewrite list_lookup_middle.
Qed.

Lemma linux_loop pre str h h' :
  u32 h = u32 h' →
  ∃ r, for_range (length str) (Z.of_nat (length pre))
    (λ i hash, c ← aget (pre ++ str) i;
       Ret (u64 ((hash + Z.shiftl c 4 + Z.shiftr c 4) * 11))) h = Ret r
    ∧ u32 r = u32 (foldl (λ h c, (h + c * 16 + c / 16) * 11) h' str).
Proof.
  revert pre h h'. induction str as [|x str IH]; intros pre h h' Hh; simpl; [by exists h|].
  rewrite aget_app_mid. cbn [mbind outcome_bind].
  replace (Z.of_nat (length pre) + 1) with (Z.of_nat (length (pre ++ [x])))
    by (rewrite length_app; simpl; lia).
  replace (pre ++ x :: str) with ((pre ++ [x]) ++ str) by (by rewrite <- (assoc_L (++))).
  apply IH. rewrite u32_u64, Z.shiftl_mul_pow2, Z.shiftr_div_pow2 by done.
  destruct (u32_shift h) as [q Hq], (u32_shift h') as [q' Hq'].
  change (2 ^ 4) with 16. apply (u32_congr _ _ ((q' - q) * 11)). lia.
Qed.

Lemma ceph_str_hash_linux_eq str :
  ceph_str_hash_linux str (Z.of_nat (length str)) = Ret (u32 (linux_ref str)).
Proof.
  unfold ceph_str_hash_linux. rewrite Nat2Z.id.
  destruct (linux_loop [] str 0 0) as (r & Hr & Heq); [done|].
  change ([] ++ str) with str in Hr. change (Z.of_nat (length [])) with 0 in Hr.
  rewrite Hr. cbn. by rewrite Heq.
Qed.

(** [mix1] also undoes its inverse, so each line is a bijection of the words. *)
Lemma mix1_unmix1 x y z t : word x → word t → mix1 (unmix1 x y z t) y z t = x.
Proof.
  intros Hx Ht. unfold unmix1, mix1.
  replace (u32 (u32 (u32 (Z.lxor x t + z + y) - y) - z)) with (Z.lxor x t).
  - by rewrite Z.lxor_assoc, Z.lxor_nilpotent, Z.lxor_0_r.
  - rewrite <- (u32_small (Z.lxor x t)) at 1 by (by apply word_lxor).
    u32_ring.
Qed.

Section unlines.
Context (sh : Z) (Hsh : 0 <= sh) (s : Z * Z * Z) (Hs : word3 s).

Lemma word_unmix1 x y z t : word (unmix1 x y z t).
Proof. apply word_u32. Qed.
Lemma word3_unmixA : word3 (unmixA sh s).
Proof. destruct s as [[a b] c]. destruct Hs as (? & ? & ?). split_and!; try done. apply word_unmix1. Qed.
Lemma word3_unmixB : word3 (unmixB sh s).
Proof. destruct s as [[a b] c]. destruct Hs as (? & ? & ?). split_and!; try done. apply word_unmix1. Qed.
Lemma word3_unmixC : word3 (unmixC sh s).
Proof. destruct s as [[a b] c]. destruct Hs as (? & ? & ?). split_and!; try done. apply word_unmix1. Qed.
Lemma mixA_unmixA : mixA sh (unmixA sh s) = s.
Proof. destruct s as [[a b] c]. destruct Hs as (? & ? & ?). simpl. rewrite mix1_unmix1; auto with words. Qed.
Lemma mixB_unmixB : mixB sh (unmixB sh s) = s.
Proof. destruct s as [[a b] c]. destruct Hs as (? & ? & ?). simpl. rewrite mix1_unmix1; auto with words. Qed.
Lemma mixC_unmixC : mixC sh (unmixC sh s) = s.
Proof. destruct s as [[a b] c]. destruct Hs as (? & ? & ?). simpl. rewrite mix1_unmix1; auto with words. Qed.
End unlines.
#[export] Hint Resolve word3_unmixA word3_unmixB word3_unmixC : words.

Lemma word3_crush_hashunmix s : word3 s → word3 (crush_hashunmix s).
Proof. intros Hs. unfold crush_hashunmix. auto 12 with words. Qed.

#[local] Transparent crush_hashmix.
Lemma crush_hashmix_unmix s : word3 s → crush_hashmix (crush_hashunmix s) = s.
Proof.
  intros Hs. unfold crush_hashmix, crush_hashunmix.
  rewrite mixA_unmixA, mixB_unmixB, mixC_unmixC by auto 12 with words.
  rewrite mixA_unmixA, mixB_unmixB, mixC_unmixC by auto 12 with words.
  by rewrite mixA_unmixA, mixB_unmixB, mixC_unmixC by auto 12 with words.
Qed.
#[local] Opaque crush_hashmix.

(** * Properties *)

(** The mixing step of the placement hash loses no information: on triples of 32-bit words
    it is a bijection, undone from either side by running its nine lines backwards. *)
Theorem crush_hashmix_bijective (s : Z * Z * Z) (Hs : word3 s) :
  word3 (crush_hashmix s) ∧ word3 (crush_hashunmix s)
  ∧ crush_hashunmix (crush_hashmix s) = s ∧ crush_hashmix (crush_hashunmix s) = s.
Proof.
  split_and!; [by apply word3_crush_hashmix|by apply word3_crush_hashunmix
              |by apply crush_hashunmix_mix|by apply crush_hashmix_unmix].
Qed.

Lemma crush_hashmix_bijective_witness :
  word3 (1, 231232, 1315423910)
  ∧ crush_hashunmix (crush_hashmix (1, 231232, 1315423910)) = (1, 231232, 1315423910).
Proof.
  assert (H : word3 (1, 231232, 1315423910)) by (unfold word3, word; lia).
  split; [exact H|]. apply (crush_hashmix_bijective _ H).
Defined.

Lemma ceph_str_hash_eq (type : Z) (s : list Z) :
  ceph_str_hash type s (Z.of_nat (length s)) =
    Ret (if type =? CEPH_STR_HASH_LINUX then u32 (linux_ref s)
         else if type =? CEPH_STR_HASH_RJENKINS then rjenkins_ref s
         else 2 ^ 32 - 1).
Proof.
  unfold ceph_str_hash. case_match; [apply ceph_str_hash_linux_eq|].
  case_match; [apply ceph_str_hash_rjenkins_eq|]. done.
Qed.

(** C10: hashing an object name of any length returns, reads only the name, and gives the value
    its type promises: the blockwise little-endian, zero-padded Jenkins hash, the dcache hash
    over the integers modulo 2^32, or all ones for an unknown type. *)
Theorem ceph_str_hash_spec (type : Z) (s : list Z) :
  ceph_str_hash type s (Z.of_nat (length s)) =
    Ret (if type =? CEPH_STR_HASH_LINUX then u32 (linux_ref s)
         else if type =? CEPH_STR_HASH_RJENKINS then rjenkins_ref s
         else 2 ^ 32 - 1).
Proof. apply ceph_str_hash_eq. Qed.
