(* ===== verification/Armor.v ===== *)
(** * Base64 (libceph/armor.c)

    Keys and secrets travel as base64 text broken into lines of 64 characters.  A buffer is the
    list of its bytes; what a function writes through [dst] is the list it returns.  [olen] and [line],
    of type [int] in the code, count characters that are written: they do not overflow while the text has
    fewer than 2^31, and are plain numbers here. *)
From S2P Require Import Prelude.

Definition pem_key : list Z :=
  chars "ABCDEFGHIJKLMNOPQRSTUVWXYZabcdefghijklmnopqrstuvwxyz0123456789+/".

Definition encode_bits (c : Z) : outcome Z := aget pem_key c.

Definition decode_bits (c : Z) : Z :=
  if (65 <=? c) && (c <=? 90) then c - 65
  else if (97 <=? c) && (c <=? 122) then c - 97 + 26
  else if (48 <=? c) && (c <=? 57) then c - 48 + 52
  else if c =? 43 then 62
  else if c =? 47 then 63
  else if c =? 61 then 0
  else - EINVAL.

(** One round of the loop: [src] is what is left to encode. *)
Definition armor_step (s : list Z * list Z * Z * Z)
    : outcome ((list Z * list Z * Z * Z) + (Z * list Z)) :=
  let '(src, dst, olen, line) := s in
  match src with
  | [] => Ret (inr (olen, dst))
  | a :: src =>
      e0 ← encode_bits (Z.shiftr a 2);
      '(src, four) ←
        match src with
        | b :: src =>
            e1 ← encode_bits (Z.lor (Z.shiftl (Z.land a 3) 4) (Z.shiftr b 4));
            match src with
            | c :: src =>
                e2 ← encode_bits (Z.lor (Z.shiftl (Z.land b 15) 2) (Z.shiftr c 6));
                e3 ← encode_bits (Z.land c 63);
                Ret (src, [e0; e1; e2; e3])
            | [] =>
                e2 ← encode_bits (Z.shiftl (Z.land b 15) 2);
                Ret (src, [e0; e1; e2; 61])
            end
        | [] =>
            e1 ← encode_bits (Z.shiftl (Z.land a 3) 4);
            Ret (src, [e0; e1; 61; 61])
        end;
      let olen := olen + 4 in
      let line := line + 4 in
      if line =? 64 then Ret (inl (src, dst ++ four ++ [10], olen + 1, 0))
      else Ret (inl (src, dst ++ four, olen, line))
  end.

Definition ceph_armor (src : list Z) : outcome (Z * list Z) :=
  loop (length src + 1) armor_step (src, [], 0, 0).

(** The comparison of [src + 4] with [end] guards the four reads. *)
Definition unarmor_step (s : list Z * list Z * Z) : outcome ((list Z * list Z * Z) + (Z * list Z)) :=
  let '(src, dst, olen) := s in
  if Z.of_nat (length src) <=? 0 then Ret (inr (olen, dst)) else
  s0 ← aget src 0;
  if s0 =? 10 then Ret (inl (drop 1 src, dst, olen)) else
  if Z.of_nat (length src) <? 4 then Ret (inr (- EINVAL, dst)) else
  s1 ← aget src 1; s2 ← aget src 2; s3 ← aget src 3;
  let a := decode_bits s0 in let b := decode_bits s1 in
  let c := decode_bits s2 in let d := decode_bits s3 in
  if (a <? 0) || (b <? 0) || (c <? 0) || (d <? 0) then Ret (inr (- EINVAL, dst)) else
  let dst := dst ++ [u8 (Z.lor (Z.shiftl a 2) (Z.shiftr b 4))] in
  if s2 =? 61 then Ret (inr (olen + 1, dst)) else
  let dst := dst ++ [u8 (Z.lor (Z.shiftl (Z.land b 15) 4) (Z.shiftr c 2))] in
  if s3 =? 61 then Ret (inr (olen + 2, dst)) else
  let dst := dst ++ [u8 (Z.lor (Z.shiftl (Z.land c 3) 6) d)] in
  Ret (inl (drop 4 src, dst, olen + 3)).

Definition ceph_unarmor (src : list Z) : outcome (Z * list Z) :=
  loop (length src + 1) unarmor_step (src, [], 0).

(** ** The encoding as a function *)

Definition is_byte (x : Z) : Prop := 0 <= x < 256.

Definition enc (c : Z) : Z := default 0 (pem_key !! Z.to_nat c).

Definition group1 (a : Z) : list Z := [enc (Z.shiftr a 2); enc (Z.shiftl (Z.land a 3) 4); 61; 61].
Definition group2 (a b : Z) : list Z :=
  [enc (Z.shiftr a 2); enc (Z.lor (Z.shiftl (Z.land a 3) 4) (Z.shiftr b 4));
   enc (Z.shiftl (Z.land b 15) 2); 61].
Definition group3 (a b c : Z) : list Z :=
  [enc (Z.shiftr a 2); enc (Z.lor (Z.shiftl (Z.land a 3) 4) (Z.shiftr b 4));
   enc (Z.lor (Z.shiftl (Z.land b 15) 2) (Z.shiftr c 6)); enc (Z.land c 63)].

(** After [g] groups on the line, sixteen of which make a line. *)
Definition newline (g : nat) : list Z := if decide (g = 15)%nat then [10] else [].
Definition next (g : nat) : nat := if decide (g = 15)%nat then O else S g.

Fixpoint armor_ref (g : nat) (src : list Z) : list Z :=
  match src with
  | [] => []
  | [a] => group1 a ++ newline g
  | [a; b] => group2 a b ++ newline g
  | a :: b :: c :: src => group3 a b c ++ newline g ++ armor_ref (next g) src
  end.

Lemma list_ind3 {A} (P : list A → Prop) :
  P [] → (∀ a, P [a]) → (∀ a b, P [a; b]) → (∀ a b c l, P l → P (a :: b :: c :: l)) →
  ∀ l, P l.
Proof. intros P0 P1 P2 P3. fix IH 1.
  intros [|a [|b [|c l]]]; [exact P0|apply P1|apply P2|apply P3, IH].
Qed.

(** ** Six-bit arithmetic, by evaluation *)

Definition split_ab (a b : Z) : Z := Z.lor (Z.shiftl (Z.land a 3) 4) (Z.shiftr b 4).
Definition split_bc (b c : Z) : Z := Z.lor (Z.shiftl (Z.land b 15) 2) (Z.shiftr c 6).

Lemma forall_bytes2 (P : Z → Z → bool) :
  forall_range 256 0 (λ a, forall_range 256 0 (P a)) = true →
  ∀ a b, is_byte a → is_byte b → P a b = true.
Proof.
  intros HP a b Ha Hb.
  apply (forall_range_true 256 0); [|exact Hb].
  apply (forall_range_true 256 0 (λ a, forall_range 256 0 (P a)) HP a Ha).
Qed.

Lemma split_ab_eq a b : is_byte a → is_byte b →
  0 <= split_ab a b < 64 ∧ Z.shiftr (split_ab a b) 4 = Z.land a 3
  ∧ Z.land (split_ab a b) 15 = Z.shiftr b 4.
Proof.
  intros Ha Hb. pose proof (forall_bytes2 (λ a b, (0 <=? split_ab a b) && (split_ab a b <? 64)
    && (Z.shiftr (split_ab a b) 4 =? Z.land a 3)
    && (Z.land (split_ab a b) 15 =? Z.shiftr b 4)) ltac:(vm_compute; reflexivity) a b Ha Hb) as H.
  cbv beta in H. bool_to_prop. lia.
Qed.

Lemma split_bc_eq b c : is_byte b → is_byte c →
  0 <= split_bc b c < 64 ∧ Z.shiftr (split_bc b c) 2 = Z.land b 15
  ∧ Z.land (split_bc b c) 3 = Z.shiftr c 6.
Proof.
  intros Hb Hc. pose proof (forall_bytes2 (λ b c, (0 <=? split_bc b c) && (split_bc b c <? 64)
    && (Z.shiftr (split_bc b c) 2 =? Z.land b 15)
    && (Z.land (split_bc b c) 3 =? Z.shiftr c 6)) ltac:(vm_compute; reflexivity) b c Hb Hc) as H.
  cbv beta in H. bool_to_prop. lia.
Qed.

Lemma byte_split a : is_byte a →
  0 <= Z.shiftr a 2 < 64 ∧ 0 <= Z.land a 63 < 64
  ∧ u8 (Z.lor (Z.shiftl (Z.shiftr a 2) 2) (Z.land a 3)) = a
  ∧ u8 (Z.lor (Z.shiftl (Z.shiftr a 4) 4) (Z.land a 15)) = a
  ∧ u8 (Z.lor (Z.shiftl (Z.shiftr a 6) 6) (Z.land a 63)) = a.
Proof.
  intros Ha. pose proof (forall_range_true 256 0 (λ a, (0 <=? Z.shiftr a 2) && (Z.shiftr a 2 <? 64)
    && (0 <=? Z.land a 63) && (Z.land a 63 <? 64)
    && (u8 (Z.lor (Z.shiftl (Z.shiftr a 2) 2) (Z.land a 3)) =? a)
    && (u8 (Z.lor (Z.shiftl (Z.shiftr a 4) 4) (Z.land a 15)) =? a)
    && (u8 (Z.lor (Z.shiftl (Z.shiftr a 6) 6) (Z.land a 63)) =? a))
    ltac:(vm_compute; reflexivity) a Ha) as H.
  cbv beta in H. bool_to_prop. split_and!; lia.
Qed.

Lemma enc_eq c : 0 <= c < 64 →
  encode_bits c = Ret (enc c) ∧ decode_bits (enc c) = c ∧ enc c ≠ 61 ∧ enc c ≠ 10.
Proof.
  intros Hc. split.
  - unfold encode_bits, aget, enc. rewrite (proj2 (Z.ltb_ge _ _)) by lia.
    destruct (lookup_lt_is_Some_2 pem_key (Z.to_nat c)) as [x ->]; [|done].
    change (length pem_key) with 64%nat. lia.
  - pose proof (forall_range_true 64 0 (λ c, (decode_bits (enc c) =? c) && negb (enc c =? 61)
      && negb (enc c =? 10)) ltac:(vm_compute; reflexivity) c Hc) as H.
    cbv beta in H. bool_to_prop. lia.
Qed.

Lemma group1_eq a : group1 a = [enc (Z.shiftr a 2); enc (split_ab a 0); 61; 61].
Proof. unfold group1, split_ab. by rewrite Z.lor_0_r. Qed.
Lemma group2_eq a b :
  group2 a b = [enc (Z.shiftr a 2); enc (split_ab a b); enc (split_bc b 0); 61].
Proof. unfold group2, split_bc. by rewrite Z.lor_0_r. Qed.

Lemma is_byte_0 : is_byte 0. Proof. unfold is_byte. lia. Qed.
#[local] Hint Resolve is_byte_0 : core.

(** ** Encoding *)

Ltac encode c :=
  let H := fresh in
  assert (H : 0 <= c < 64) by (first [by apply split_ab_eq|by apply split_bc_eq|by apply byte_split]);
  match goal with |- context [encode_bits ?x] => change (encode_bits x) with (encode_bits c) end;
  rewrite (proj1 (enc_eq c H)); cbn [mbind outcome_bind]; clear H.

Definition after (dst : list Z) (olen : Z) (g : nat) (grp src : list Z)
    : outcome ((list Z * list Z * Z * Z) + (Z * list Z)) :=
  Ret (inl (src, dst ++ grp ++ newline g, olen + Z.of_nat (length (grp ++ newline g)),
            4 * Z.of_nat (next g))).

Lemma armor_newline dst olen g grp src :
  length grp = 4%nat → (g < 16)%nat →
  (if 4 * Z.of_nat g + 4 =? 64
   then Ret (inl (src, dst ++ grp ++ [10], olen + 4 + 1, 0))
   else Ret (inl (src, dst ++ grp, olen + 4, 4 * Z.of_nat g + 4)))
  = after dst olen g grp src.
Proof.
  intros Hgrp Hg. unfold after, newline, next. rewrite length_app, Hgrp.
  destruct (Z.eqb_spec (4 * Z.of_nat g + 4) 64); case_decide; try lia; rewrite ?app_nil_r;
    match goal with |- Ret (inl (_, _, ?c, ?d)) = Ret (inl (_, _, ?c', ?d')) =>
      replace c with c' by (simpl; lia); replace d with d' by (simpl; lia) end; done.
Qed.

Section armor_steps.
Context (dst : list Z) (olen : Z) (g : nat) (Hg : (g < 16)%nat).

Lemma armor_step1 a : is_byte a →
  armor_step ([a], dst, olen, 4 * Z.of_nat g) = after dst olen g (group1 a) [].
Proof.
  intros Ha. unfold armor_step. encode (Z.shiftr a 2).
  rewrite <- (Z.lor_0_r (Z.shiftl (Z.land a 3) 4)). encode (split_ab a 0).
  rewrite group1_eq, <- armor_newline by done. done.
Qed.
Lemma armor_step2 a b : is_byte a → is_byte b →
  armor_step ([a; b], dst, olen, 4 * Z.of_nat g) = after dst olen g (group2 a b) [].
Proof.
  intros Ha Hb. unfold armor_step. encode (Z.shiftr a 2).
  encode (split_ab a b).
  rewrite <- (Z.lor_0_r (Z.shiftl (Z.land b 15) 2)). encode (split_bc b 0).
  rewrite group2_eq, <- armor_newline by done. done.
Qed.
Lemma armor_step3 a b c src : is_byte a → is_byte b → is_byte c →
  armor_step (a :: b :: c :: src, dst, olen, 4 * Z.of_nat g)
    = after dst olen g (group3 a b c) src.
Proof.
  intros Ha Hb Hc. unfold armor_step. encode (Z.shiftr a 2). encode (split_ab a b).
  encode (split_bc b c). encode (Z.land c 63). by rewrite <- armor_newline.
Qed.
End armor_steps.

Lemma next_lt g : (next g < 16)%nat ∨ (16 <= g)%nat.
Proof. unfold next. case_decide; lia. Qed.

Lemma armor_loop n src dst olen g :
  Forall is_byte src → (g < 16)%nat → (length src < n)%nat →
  loop n armor_step (src, dst, olen, 4 * Z.of_nat g)
    = Ret (olen + Z.of_nat (length (armor_ref g src)), dst ++ armor_ref g src).
Proof.
  intros Hsrc. revert n dst olen g.
  induction src as [|a|a b|a b c src IH] using list_ind3; intros [|[|n]] dst olen g Hg Hn;
    simpl in Hn; try lia; cbn [armor_ref];
    rewrite ?Forall_cons in Hsrc; destruct_and?.
  1, 2: rewrite (loop_inr _ armor_step _ (olen, dst)) by done; by rewrite app_nil_r, Z.add_0_r.
  - erewrite loop_inl by (by apply armor_step1). apply loop_inr. done.
  - erewrite loop_inl by (by apply armor_step2). apply loop_inr. done.
  - erewrite loop_inl by (by apply armor_step3).
    rewrite IH; [|done| |lia]; [|destruct (next_lt g); lia].
    rewrite !length_app, <- !(assoc_L (++)). f_equal. f_equal. lia.
Qed.

Lemma ceph_armor_eq src :
  Forall is_byte src →
  ceph_armor src = Ret (Z.of_nat (length (armor_ref 0 src)), armor_ref 0 src).
Proof. intros Hs. unfold ceph_armor. apply (armor_loop _ src [] 0 0); [done|lia..]. Qed.

(** ** Decoding *)

Lemma unarmor_step4 s0 s1 s2 s3 src dst olen :
  s0 ≠ 10 → 0 <= decode_bits s0 → 0 <= decode_bits s1 → 0 <= decode_bits s2 →
  0 <= decode_bits s3 →
  unarmor_step (s0 :: s1 :: s2 :: s3 :: src, dst, olen) =
    let o0 := u8 (Z.lor (Z.shiftl (decode_bits s0) 2) (Z.shiftr (decode_bits s1) 4)) in
    let o1 := u8 (Z.lor (Z.shiftl (Z.land (decode_bits s1) 15) 4) (Z.shiftr (decode_bits s2) 2)) in
    let o2 := u8 (Z.lor (Z.shiftl (Z.land (decode_bits s2) 3) 6) (decode_bits s3)) in
    if s2 =? 61 then Ret (inr (olen + 1, dst ++ [o0]))
    else if s3 =? 61 then Ret (inr (olen + 2, dst ++ [o0; o1]))
    else Ret (inl (src, dst ++ [o0; o1; o2], olen + 3)).
Proof.
  intros H10 H0 H1 H2 H3. unfold unarmor_step.
  rewrite (proj2 (Z.leb_gt _ _)) by (simpl length; lia).
  change (aget (s0 :: _) 0) with (Ret s0). cbn [mbind outcome_bind].
  rewrite (proj2 (Z.eqb_neq s0 10)) by done.
  rewrite (proj2 (Z.ltb_ge (Z.of_nat _) 4)) by (simpl length; lia).
  change (aget (s0 :: s1 :: _) 1) with (Ret s1). cbn [mbind outcome_bind].
  change (aget (s0 :: s1 :: s2 :: _) 2) with (Ret s2). cbn [mbind outcome_bind].
  change (aget (s0 :: s1 :: s2 :: s3 :: _) 3) with (Ret s3). cbn [mbind outcome_bind].
  rewrite !(proj2 (Z.ltb_ge _ 0)) by done. cbn [orb drop].
  by rewrite <- !(assoc_L (++)).
Qed.

Lemma decode_enc c : 0 <= c < 64 → decode_bits (enc c) = c.
Proof. intros Hc. by apply enc_eq. Qed.
Lemma enc_ne_pad c : 0 <= c < 64 → (enc c =? 61) = false.
Proof. intros Hc. apply Z.eqb_neq. by apply enc_eq. Qed.

Section unarmor_steps.
Context (a b c : Z) (Ha : is_byte a) (Hb : is_byte b) (Hc : is_byte c).
Context (src dst : list Z) (olen : Z).

Lemma unarmor_group1 :
  unarmor_step (group1 a ++ src, dst, olen) = Ret (inr (olen + 1, dst ++ [a])).
Proof.
  destruct (byte_split a Ha) as (Hr & _ & Hj & _ & _).
  destruct (split_ab_eq a 0 Ha is_byte_0) as (Hab & Hab4 & _).
  rewrite group1_eq. cbn [app]. rewrite unarmor_step4; rewrite ?decode_enc by done;
    [|by apply enc_eq|lia|lia|done..].
  rewrite Hab4, Hj. done.
Qed.

Lemma unarmor_group2 :
  unarmor_step (group2 a b ++ src, dst, olen) = Ret (inr (olen + 2, dst ++ [a; b])).
Proof.
  destruct (byte_split a Ha) as (Hr & _ & Hj & _ & _).
  destruct (byte_split b Hb) as (_ & _ & _ & Hk & _).
  destruct (split_ab_eq a b Ha Hb) as (Hab & Hab4 & Habl).
  destruct (split_bc_eq b 0 Hb is_byte_0) as (Hbc & Hbc2 & _).
  rewrite group2_eq. cbn [app]. rewrite unarmor_step4; rewrite ?decode_enc by done;
    [|by apply enc_eq|lia|lia|lia|done].
  by rewrite Hab4, Habl, Hbc2, Hj, Hk, enc_ne_pad.
Qed.

Lemma unarmor_group3 :
  unarmor_step (group3 a b c ++ src, dst, olen) = Ret (inl (src, dst ++ [a; b; c], olen + 3)).
Proof.
  destruct (byte_split a Ha) as (Hr & _ & Hj & _ & _).
  destruct (byte_split b Hb) as (_ & _ & _ & Hk & _).
  destruct (byte_split c Hc) as (_ & Hl & _ & _ & Hm).
  destruct (split_ab_eq a b Ha Hb) as (Hab & Hab4 & Habl).
  destruct (split_bc_eq b c Hb Hc) as (Hbc & Hbc2 & Hbcl).
  change (group3 a b c) with
    [enc (Z.shiftr a 2); enc (split_ab a b); enc (split_bc b c); enc (Z.land c 63)].
  cbn [app]. rewrite unarmor_step4; rewrite ?decode_enc by done;
    [|by apply enc_eq|lia|lia|lia|lia].
  by rewrite Hab4, Habl, Hbc2, Hbcl, Hj, Hk, Hm, !enc_ne_pad.
Qed.
End unarmor_steps.

Lemma unarmor_newline n g src dst olen :
  (length (newline g ++ src) < n)%nat →
  ∃ m, (length src < m)%nat ∧
    loop n unarmor_step (newline g ++ src, dst, olen) = loop m unarmor_step (src, dst, olen).
Proof.
  unfold newline. case_decide; intros Hn; [|by exists n].
  simpl in Hn. destruct n as [|n]; [lia|]. exists n. split; [lia|]. apply loop_inl.
  unfold unarmor_step. rewrite (proj2 (Z.leb_gt _ _)) by (simpl length; lia). done.
Qed.

Lemma unarmor_loop n src dst olen g :
  Forall is_byte src → (length (armor_ref g src) < n)%nat →
  loop n unarmor_step (armor_ref g src, dst, olen)
    = Ret (olen + Z.of_nat (length src), dst ++ src).
Proof.
  intros Hsrc. revert n dst olen g.
  induction src as [|a|a b|a b c src IH] using list_ind3; intros [|n] dst olen g Hn;
    try lia; cbn [armor_ref] in *; rewrite ?Forall_cons in Hsrc; destruct_and?.
  - rewrite (loop_inr _ unarmor_step _ (olen, dst)) by done. by rewrite app_nil_r, Z.add_0_r.
  - apply loop_inr. by apply unarmor_group1.
  - apply loop_inr. by apply unarmor_group2.
  - rewrite length_app in Hn. cbn [length group3] in Hn.
    erewrite loop_inl by (by apply unarmor_group3).
    destruct (unarmor_newline n g (armor_ref (next g) src) (dst ++ [a; b; c]) (olen + 3))
      as (m & Hm & ->); [lia|].
    rewrite IH by done. rewrite <- (assoc_L (++)). f_equal. f_equal. simpl. lia.
Qed.

Lemma unarmor_step_bounds src dst olen :
  olen = Z.of_nat (length dst) →
  wp (unarmor_step (src, dst, olen)) (λ o,
    match o with
    | inl (src', dst', olen') =>
        olen' = Z.of_nat (length dst') ∧ (length src' < length src)%nat
        ∧ (4 * (length dst' - length dst) <= 3 * (length src - length src'))%nat
        ∧ (length dst <= length dst')%nat
    | inr (r, dst') => (r = - EINVAL ∨ r = Z.of_nat (length dst'))
        ∧ (length dst <= length dst')%nat ∧ (4 * (length dst' - length dst) <= 3 * length src)%nat
    end).
Proof.
  intros Hol. unfold unarmor_step.
  destruct (Z.leb_spec (Z.of_nat (length src)) 0) as [?|Hne]; [cbn; lia|].
  destruct src as [|s0 src]; [simpl in Hne; lia|]. change (aget (s0 :: src) 0) with (Ret s0).
  cbn [mbind outcome_bind]. case_match; [cbn [wp]; rewrite length_drop; simpl length; lia|].
  destruct (Z.ltb_spec (Z.of_nat (length (s0 :: src))) 4) as [?|Hlen]; [cbn; lia|].
  destruct src as [|s1 [|s2 [|s3 src]]]; simpl in Hlen; try lia.
  change (aget (s0 :: s1 :: _) 1) with (Ret s1). cbn [mbind outcome_bind].
  change (aget (s0 :: s1 :: s2 :: _) 2) with (Ret s2). cbn [mbind outcome_bind].
  change (aget (s0 :: s1 :: s2 :: s3 :: _) 3) with (Ret s3). cbn [mbind outcome_bind].
  repeat case_match; cbn [wp]; rewrite ?length_app, ?length_drop; cbn [length]; lia.
Qed.

(** How long the text is: four characters for three bytes or less, and a newline after every
    sixteen such groups. *)
Lemma length_armor_ref g src : (g < 16)%nat →
  let groups := ((length src + 2) / 3)%nat in
  length (armor_ref g src) = (4 * groups + (g + groups) / 16)%nat.
Proof.
  cbv zeta. revert g.
  assert (Hnl : ∀ g, (g < 16)%nat → length (newline g) = ((g + 1) / 16)%nat).
  { intros g Hg. unfold newline. case_decide as Hd; [by subst|].
    by rewrite Nat.div_small by lia. }
  assert (Hnx : ∀ g k, (g < 16)%nat → ((g + 1) / 16 + (next g + k) / 16 = (g + S k) / 16)%nat).
  { intros g k Hg. unfold next. case_decide as Hd.
    - subst g. replace (15 + S k)%nat with (1 * 16 + k)%nat by lia.
      by rewrite Nat.div_add_l.
    - rewrite (Nat.div_small (g + 1)) by lia. by replace (g + S k)%nat with (S g + k)%nat by lia. }
  induction src as [|a|a b|a b c src IH] using list_ind3; intros g Hg; cbn [armor_ref].
  - change ((length [] + 2) / 3)%nat with 0%nat. by rewrite Nat.add_0_r, Nat.div_small.
  - rewrite length_app, Hnl by done. done.
  - rewrite length_app, Hnl by done. done.
  - rewrite !length_app, Hnl, IH by (done || destruct (next_lt g); lia).
    change (length (a :: b :: c :: src)) with (3 + length src)%nat.
    replace (3 + length src + 2)%nat with (1 * 3 + (length src + 2))%nat by lia.
    rewrite Nat.div_add_l by done. change (1 + (length src + 2) / 3)%nat with (S ((length src + 2) / 3)). rewrite <- (Hnx g ((length src + 2) / 3)%nat) by done.
    cbn [length group3]. lia.
Qed.

(** * Properties *)

(** C11: base64 decoding inverts encoding: the text made of any bytes has the length the caller
    must provide for, and decoding all of it gives the same bytes back. *)
Theorem ceph_unarmor_armor (src : list Z) (Hsrc : Forall is_byte src) :
  ∃ text, ceph_armor src = Ret (Z.of_nat (length text), text)
    ∧ (let groups := (length src + 2) / 3 in length text = 4 * groups + groups / 16)%nat
    ∧ ceph_unarmor text = Ret (Z.of_nat (length src), src).
Proof.
  exists (armor_ref 0 src). split_and!.
  - by apply ceph_armor_eq.
  - apply length_armor_ref. lia.
  - unfold ceph_unarmor. apply (unarmor_loop _ src [] 0 0); [done|lia].
Qed.

Lemma ceph_unarmor_armor_witness :
  Forall is_byte (chars "ceph") ∧
  ∃ text, ceph_armor (chars "ceph") = Ret (Z.of_nat (length text), text)
    ∧ ceph_unarmor text = Ret (4, chars "ceph").
Proof.
  assert (H : Forall is_byte (chars "ceph")) by (repeat constructor; unfold is_byte; simpl; lia).
  split; [exact H|].
  destruct (ceph_unarmor_armor (chars "ceph") H) as (text & H1 & _ & H2). by exists text.
Defined.

(** Decoding any text at all ends, reads nothing past its end, and either reports -EINVAL
    or returns the number of bytes it wrote, which never exceeds three quarters of the text. *)
Theorem ceph_unarmor_bounds (src : list Z) :
  wp (ceph_unarmor src) (λ '(r, dst),
    (r = - EINVAL ∨ r = Z.of_nat (length dst)) ∧ (4 * length dst <= 3 * length src)%nat).
Proof.
  unfold ceph_unarmor.
  apply (wp_loop (λ '(s, dst, olen), olen = Z.of_nat (length dst) ∧ (length s <= length src)%nat
      ∧ (4 * length dst <= 3 * (length src - length s))%nat)
    (λ '(s, dst, olen), length s)); [|simpl; lia|lia].
  intros [[s dst] olen] (Hol & Hs & Hd). eapply wp_mono; [by apply unarmor_step_bounds|].
  intros [[[s' dst'] olen']|[r dst']]; lia.
Qed.
