(* ===== verification/Crush.v ===== *)
(** * The CRUSH map (libceph/include/linux/crush/crush.h, libceph/crush/crush.c)

    Buckets, rules and tunables as data, the weight of an item of a bucket, what destroying a
    map frees, and the well-formedness the mapper relies on. *)
From S2P Require Import Prelude Hash.

Definition CRUSH_MAGIC : Z := 0x00010000.
Definition CRUSH_MAX_DEPTH : Z := 10.
Definition CRUSH_ITEM_UNDEF : Z := 0x7ffffffe.
Definition CRUSH_ITEM_NONE : Z := 0x7fffffff.

(** ** Rules *)

Record crush_rule_step := CrushRuleStep { step_op : Z; step_arg1 : Z; step_arg2 : Z }.

Definition CRUSH_RULE_NOOP : Z := 0.
Definition CRUSH_RULE_TAKE : Z := 1.
Definition CRUSH_RULE_CHOOSE_FIRSTN : Z := 2.
Definition CRUSH_RULE_CHOOSE_INDEP : Z := 3.
Definition CRUSH_RULE_EMIT : Z := 4.
Definition CRUSH_RULE_CHOOSELEAF_FIRSTN : Z := 6.
Definition CRUSH_RULE_CHOOSELEAF_INDEP : Z := 7.
Definition CRUSH_RULE_SET_CHOOSE_TRIES : Z := 8.
Definition CRUSH_RULE_SET_CHOOSELEAF_TRIES : Z := 9.
Definition CRUSH_RULE_SET_CHOOSE_LOCAL_TRIES : Z := 10.
Definition CRUSH_RULE_SET_CHOOSE_LOCAL_FALLBACK_TRIES : Z := 11.
Definition CRUSH_RULE_SET_CHOOSELEAF_VARY_R : Z := 12.
Definition CRUSH_RULE_SET_CHOOSELEAF_STABLE : Z := 13.

Record crush_rule_mask := CrushRuleMask {
  mask_ruleset : Z; mask_type : Z; mask_min_size : Z; mask_max_size : Z }.

Record crush_rule := CrushRule {
  rule_len : Z; rule_mask : crush_rule_mask; rule_steps : list crush_rule_step }.

(** ** Buckets *)

Definition CRUSH_BUCKET_UNIFORM : Z := 1.
Definition CRUSH_BUCKET_LIST : Z := 2.
Definition CRUSH_BUCKET_TREE : Z := 3.
Definition CRUSH_BUCKET_STRAW : Z := 4.
Definition CRUSH_BUCKET_STRAW2 : Z := 5.

(** What follows the common header in memory.  The code finds it by a cast that the [alg] byte
    of the header chooses; the memory is what was allocated. *)
Inductive bucket_body :=
  | crush_bucket_uniform (item_weight : Z)
  | crush_bucket_list (item_weights sum_weights : list Z)
  | crush_bucket_tree (num_nodes : Z) (node_weights : list Z)
  | crush_bucket_straw (item_weights straws : list Z)
  | crush_bucket_straw2 (item_weights : list Z).

Record crush_bucket := CrushBucket {
  b_id : Z; b_type : Z; b_alg : Z; b_hash : Z; b_weight : Z; b_size : Z; b_items : list Z;
  b_body : bucket_body }.

(** The casts: a body of another shape is read as what it is not. *)
Definition as_uniform (b : crush_bucket) : outcome Z :=
  match b_body b with crush_bucket_uniform w => Ret w | _ => Undef end.
Definition as_list (b : crush_bucket) : outcome (list Z * list Z) :=
  match b_body b with crush_bucket_list iw sw => Ret (iw, sw) | _ => Undef end.
Definition as_tree (b : crush_bucket) : outcome (Z * list Z) :=
  match b_body b with crush_bucket_tree n nw => Ret (n, nw) | _ => Undef end.
Definition as_straw (b : crush_bucket) : outcome (list Z * list Z) :=
  match b_body b with crush_bucket_straw iw s => Ret (iw, s) | _ => Undef end.
Definition as_straw2 (b : crush_bucket) : outcome (list Z) :=
  match b_body b with crush_bucket_straw2 iw => Ret iw | _ => Undef end.

Record crush_weight_set := CrushWeightSet { ws_weights : list Z; ws_size : Z }.

Record crush_choose_arg := CrushChooseArg {
  arg_ids : option (list Z); arg_ids_size : Z;
  arg_weight_set : option (list crush_weight_set); arg_weight_set_size : Z }.

Record crush_choose_arg_map := CrushChooseArgMap {
  ca_index : Z; ca_args : list crush_choose_arg; ca_size : Z }.

Record crush_map := CrushMap {
  buckets : list (option crush_bucket);
  rules : list (option crush_rule);
  max_buckets : Z; max_rules : Z; max_devices : Z;
  choose_local_tries : Z; choose_local_fallback_tries : Z; choose_total_tries : Z;
  chooseleaf_descend_once : Z; chooseleaf_vary_r : Z; chooseleaf_stable : Z;
  working_size : Z;
  type_names : gmap Z (list Z);
  names : gmap Z (list Z);
  choose_args : gmap Z crush_choose_arg_map }.

(** The mapper's scratch space: one cached permutation per bucket. *)
Record crush_work_bucket := CrushWorkBucket { perm_x : Z; perm_n : Z; perm : list Z }.
Abbreviation crush_work := (list (option crush_work_bucket)).

(** [map->buckets[-1-id]], followed. *)
Definition bucket_at (m : crush_map) (id : Z) : outcome crush_bucket :=
  o ← aget (buckets m) (-1 - id); deref o.

(** ** crush.c *)

Definition crush_bucket_alg_name (alg : Z) : string :=
  if alg =? CRUSH_BUCKET_UNIFORM then "uniform"
  else if alg =? CRUSH_BUCKET_LIST then "list"
  else if alg =? CRUSH_BUCKET_TREE then "tree"
  else if alg =? CRUSH_BUCKET_STRAW then "straw"
  else if alg =? CRUSH_BUCKET_STRAW2 then "straw2" else "unknown".

Definition crush_calc_tree_node (i : Z) : Z := Z.shiftl (i + 1) 1 - 1.

Definition crush_get_bucket_item_weight (b : crush_bucket) (p : Z) : outcome Z :=
  if u32 p >=? b_size b then Ret 0
  else if b_alg b =? CRUSH_BUCKET_UNIFORM then w ← as_uniform b; Ret (s32 w)
  else if b_alg b =? CRUSH_BUCKET_LIST then '(iw, _) ← as_list b; w ← aget iw p; Ret (s32 w)
  else if b_alg b =? CRUSH_BUCKET_TREE then
    '(_, nw) ← as_tree b; w ← aget nw (crush_calc_tree_node p); Ret (s32 w)
  else if b_alg b =? CRUSH_BUCKET_STRAW then '(iw, _) ← as_straw b; w ← aget iw p; Ret (s32 w)
  else if b_alg b =? CRUSH_BUCKET_STRAW2 then iw ← as_straw2 b; w ← aget iw p; Ret (s32 w)
  else Ret 0.

(** *** Destruction

    The memory blocks of a map, named by what they hold; a destructor is the blocks it frees,
    in order. *)
Inductive block :=
  | Items (i : nat) | Item_weights (i : nat) | Sum_weights (i : nat) | Node_weights (i : nat)
  | Straws (i : nat) | Bucket (i : nat) | Buckets | Rule (i : nat) | Rules
  | Type_name (k : Z) | Name (k : Z)
  | Arg_weights (k : Z) (i j : nat) | Arg_weight_set (k : Z) (i : nat) | Arg_ids (k : Z) (i : nat)
  | Args (k : Z) | Arg_map (k : Z) | Map.

#[export] Instance block_eq_dec : EqDecision block.
Proof. solve_decision. Defined.

Section destroy.
Context (i : nat).
Definition crush_destroy_bucket_uniform : list block := [Items i; Bucket i].
Definition crush_destroy_bucket_list : list block :=
  [Item_weights i; Sum_weights i; Items i; Bucket i].
Definition crush_destroy_bucket_tree : list block := [Items i; Node_weights i; Bucket i].
Definition crush_destroy_bucket_straw : list block :=
  [Straws i; Item_weights i; Items i; Bucket i].
Definition crush_destroy_bucket_straw2 : list block := [Item_weights i; Items i; Bucket i].

Definition crush_destroy_bucket (b : crush_bucket) : outcome (list block) :=
  if b_alg b =? CRUSH_BUCKET_UNIFORM then _ ← as_uniform b; Ret crush_destroy_bucket_uniform
  else if b_alg b =? CRUSH_BUCKET_LIST then _ ← as_list b; Ret crush_destroy_bucket_list
  else if b_alg b =? CRUSH_BUCKET_TREE then _ ← as_tree b; Ret crush_destroy_bucket_tree
  else if b_alg b =? CRUSH_BUCKET_STRAW then _ ← as_straw b; Ret crush_destroy_bucket_straw
  else if b_alg b =? CRUSH_BUCKET_STRAW2 then _ ← as_straw2 b; Ret crush_destroy_bucket_straw2
  else Ret [].

(** [kfree] of a null pointer does nothing. *)
Definition crush_destroy_rule (r : option crush_rule) : list block :=
  match r with Some _ => [Rule i] | None => [] end.
End destroy.

(** The trees of names and of choose_args, emptied node by node. *)
Definition clear_crush_names (c : Z → block) (names : gmap Z (list Z)) : list block :=
  map (λ kv : Z * list Z, c kv.1) (map_to_list names).

Definition kfree_opt {A} (o : option A) (b : block) : list block :=
  match o with Some _ => [b] | None => [] end.

(** [free_choose_arg_map] on one argument: an empty array of weights is a null pointer. *)
Definition free_choose_arg (k : Z) (i : Z) (arg : crush_choose_arg) : outcome (list block) :=
  freed ← for_range (Z.to_nat (arg_weight_set_size arg)) 0
    (λ j freed,
       wss ← deref (arg_weight_set arg);
       ws ← aget wss j;
       Ret (freed ++ match ws_weights ws with
                     | [] => []
                     | _ => [Arg_weights k (Z.to_nat i) (Z.to_nat j)]
                     end)) [];
  Ret (freed ++ kfree_opt (arg_weight_set arg) (Arg_weight_set k (Z.to_nat i))
       ++ kfree_opt (arg_ids arg) (Arg_ids k (Z.to_nat i))).

Definition free_choose_arg_map (k : Z) (am : crush_choose_arg_map) : outcome (list block) :=
  freed ← for_range (Z.to_nat (ca_size am)) 0
    (λ i freed, arg ← aget (ca_args am) i; fr ← free_choose_arg k i arg; Ret (freed ++ fr)) [];
  Ret (freed ++ [Args k; Arg_map k]).

Fixpoint free_choose_arg_maps (l : list (Z * crush_choose_arg_map)) : outcome (list block) :=
  match l with
  | [] => Ret []
  | (k, am) :: l =>
      fr ← free_choose_arg_map k am; rest ← free_choose_arg_maps l; Ret (fr ++ rest)
  end.

Definition clear_choose_args (m : crush_map) : outcome (list block) :=
  free_choose_arg_maps (map_to_list (choose_args m)).

(** An array that is a null pointer is not followed; one of no elements has nothing to free. *)
Definition crush_destroy (m : crush_map) : outcome (list block) :=
  freed ← match buckets m with
          | [] => Ret []
          | _ =>
              freed ← for_range (Z.to_nat (max_buckets m)) 0
                (λ b freed, o ← aget (buckets m) b;
                   match o with
                   | None => Ret freed
                   | Some bk => fr ← crush_destroy_bucket (Z.to_nat b) bk; Ret (freed ++ fr)
                   end) [];
              Ret (freed ++ [Buckets])
          end;
  freed ← match rules m with
          | [] => Ret freed
          | _ =>
              freed ← for_range (Z.to_nat (max_rules m)) 0
                (λ b freed, r ← aget (rules m) b; Ret (freed ++ crush_destroy_rule (Z.to_nat b) r))
                freed;
              Ret (freed ++ [Rules])
          end;
  args ← clear_choose_args m;
  Ret (freed ++ clear_crush_names Type_name (type_names m)
       ++ clear_crush_names Name (names m) ++ args ++ [Map]).

(** ** Well-formedness

    What the mapper relies on.  [crush_decode] establishes part of it. *)

(** A tree bucket is a heap of [2 ^ d] nodes; odd nodes are leaves, a node of height [h]
    is a number [n = q * 2 ^ (h+1) + 2 ^ h] with children [n - 2 ^ (h-1)] and [n + 2 ^ (h-1)].  The weight of an inner node is the
    sum of its children's, the weight of a leaf outside the bucket is zero, and the root's
    weight is positive. *)
Record wf_tree (size num_nodes : Z) (nw : list Z) : Prop := {
  tree_depth : ∃ d, 1 <= d <= 7 ∧ num_nodes = 2 ^ d;
  tree_len : Z.of_nat (length nw) = num_nodes;
  tree_word : Forall word nw;
  tree_sum : ∀ q h wn wl wr, 0 <= q → 1 <= h →
    let n := q * 2 ^ (h + 1) + 2 ^ h in
    nw !! Z.to_nat n = Some wn →
    nw !! Z.to_nat (n - 2 ^ (h - 1)) = Some wl →
    nw !! Z.to_nat (n + 2 ^ (h - 1)) = Some wr → wn = wl + wr;
  tree_root : ∃ w, nw !! Z.to_nat (num_nodes / 2) = Some w ∧ 0 < w;
  tree_leaf : ∀ q w, 0 <= q → nw !! Z.to_nat (q * 2 + 1) = Some w → 0 < w → q < size }.

Definition wf_body (b : crush_bucket) : Prop :=
  match b_body b with
  | crush_bucket_uniform _ => b_alg b = CRUSH_BUCKET_UNIFORM
  | crush_bucket_list iw sw =>
      b_alg b = CRUSH_BUCKET_LIST ∧ Z.of_nat (length iw) = b_size b
      ∧ Z.of_nat (length sw) = b_size b
  | crush_bucket_tree nn nw =>
      b_alg b = CRUSH_BUCKET_TREE ∧ (0 < b_size b → wf_tree (b_size b) nn nw)
  | crush_bucket_straw iw straws =>
      b_alg b = CRUSH_BUCKET_STRAW ∧ Z.of_nat (length iw) = b_size b
      ∧ Z.of_nat (length straws) = b_size b
  | crush_bucket_straw2 iw =>
      b_alg b = CRUSH_BUCKET_STRAW2 ∧ Z.of_nat (length iw) = b_size b
  end.

(** The magic value 0xffff of the permutation cache is no length of it. *)
Record wf_bucket (b : crush_bucket) : Prop := {
  wfb_items : Z.of_nat (length (b_items b)) = b_size b;
  wfb_size : b_size b < 0xffff;
  wfb_body : wf_body b }.

(** Replacement weights and ids for a straw2 bucket of [size] items. *)
Definition wf_arg (size : Z) (arg : option crush_choose_arg) : Prop :=
  match arg with
  | None => True
  | Some a =>
      match arg_ids a with None => True | Some ids => size <= Z.of_nat (length ids) end
      ∧ match arg_weight_set a with
        | None => True
        | Some wss =>
            0 < arg_weight_set_size a < 2 ^ 31 ∧ Z.of_nat (length wss) = arg_weight_set_size a
            ∧ Forall (λ ws, size <= Z.of_nat (length (ws_weights ws))) wss
        end
  end.
