(* ===== verification/Mapper.v ===== *)
(** * Choosing an item of a bucket (libceph/crush/mapper.c, up to [is_out])

    One choose method per bucket algorithm, the cached random permutation behind the uniform
    one, and the test whether a device is out. *)
From S2P Require Import Prelude Hash Crush CrushLn.

Definition rule_matches (r : crush_rule) (ruleset type size : Z) : bool :=
  (mask_ruleset (rule_mask r) =? ruleset) && (mask_type (rule_mask r) =? type)
  && (mask_min_size (rule_mask r) <=? size) && (mask_max_size (rule_mask r) >=? size).

Definition find_rule_step (m : crush_map) (ruleset type size i : Z) : outcome (Z + Z) :=
  if i <? max_rules m then
    o ← aget (rules m) i;
    match o with
    | Some r => if rule_matches r ruleset type size then Ret (inr (s32 i)) else Ret (inl (i + 1))
    | None => Ret (inl (i + 1))
    end
  else Ret (inr (-1)).

Definition crush_find_rule (m : crush_map) (ruleset type size : Z) : outcome Z :=
  loop (Z.to_nat (max_rules m) + 1) (find_rule_step m ruleset type size) 0.

(** ** The permutation *)

(** [for (i = from; i < size; i++) work->perm[i] = i] *)
Definition perm_identity (size from : Z) (perm : list Z) : outcome (list Z) :=
  for_range (Z.to_nat (size - from)) from (λ i perm, aset perm i i) perm.

(** The swap of entry [p] with a random entry at or after it. *)
Definition perm_swap_step (b : crush_bucket) (x p : Z) (perm : list Z) : outcome (list Z) :=
  if p <? u32 (b_size b - 1) then
    let i := crush_hash32_3 (b_hash b) x (b_id b) p mod u32 (b_size b - p) in
    if nonzero i then
      t ← aget perm (u32 (p + i));
      q ← aget perm p;
      perm ← aset perm (u32 (p + i)) q;
      aset perm p t
    else Ret perm
  else Ret perm.

Definition perm_extend_step (b : crush_bucket) (x pr : Z) (w : crush_work_bucket)
    : outcome (crush_work_bucket + crush_work_bucket) :=
  if perm_n w <=? pr then
    l ← perm_swap_step b x (perm_n w) (perm w);
    Ret (inl (CrushWorkBucket (perm_x w) (u32 (perm_n w + 1)) l))
  else Ret (inr w).

(** The [goto out] of the common case carries the chosen index past the permutation. *)
Definition bucket_perm_choose (b : crush_bucket) (w : crush_work_bucket) (x r : Z)
    : outcome (Z * crush_work_bucket) :=
  if b_size b =? 0 then Undef else
  let pr := u32 r mod b_size b in
  '(w, out) ←
    (if negb (perm_x w =? u32 x) || (perm_n w =? 0) then
       if pr =? 0 then
         let s := crush_hash32_3 (b_hash b) x (b_id b) 0 mod b_size b in
         l ← aset (perm w) 0 s;
         Ret (CrushWorkBucket (u32 x) 0xffff l, Some s)
       else
         l ← perm_identity (b_size b) 0 (perm w);
         Ret (CrushWorkBucket (u32 x) 0 l, None)
     else if perm_n w =? 0xffff then
       l ← perm_identity (b_size b) 1 (perm w);
       p0 ← aget l 0;
       l ← aset l p0 0;
       Ret (CrushWorkBucket (perm_x w) 1 l, None)
     else Ret (w, None));
  match out with
  | Some s => item ← aget (b_items b) s; Ret (item, w)
  | None =>
      w ← loop (Z.to_nat pr + 2) (perm_extend_step b x pr) w;
      s ← aget (perm w) pr;
      item ← aget (b_items b) s;
      Ret (item, w)
  end.

Definition bucket_uniform_choose (b : crush_bucket) (w : crush_work_bucket) (x r : Z)
    : outcome (Z * crush_work_bucket) :=
  _ ← as_uniform b; bucket_perm_choose b w x r.

(** ** List buckets *)

Definition list_choose_step (b : crush_bucket) (iw sw : list Z) (x r i : Z) : outcome (Z + Z) :=
  if i >=? 0 then
    item ← aget (b_items b) i;
    let w := Z.land (crush_hash32_4 (b_hash b) x item r (b_id b)) 0xffff in
    sum ← aget sw i;
    let w := Z.shiftr (u64 (w * sum)) 16 in
    weight ← aget iw i;
    if w <? weight then Ret (inr item) else Ret (inl (i - 1))
  else item ← aget (b_items b) 0; Ret (inr item).

Definition bucket_list_choose (b : crush_bucket) (x r : Z) : outcome Z :=
  '(iw, sw) ← as_list b;
  loop (Z.to_nat (b_size b) + 1) (list_choose_step b iw sw x r) (s32 (b_size b - 1)).

(** ** Tree buckets *)

Definition height_step (s : Z * Z) : outcome ((Z * Z) + Z) :=
  let '(h, n) := s in
  if Z.land n 1 =? 0 then Ret (inl (h + 1, Z.shiftr n 1)) else Ret (inr h).

(** An [int] other than zero has an odd part after 31 shifts at most. *)
Definition height (n : Z) : outcome Z := loop 33 height_step (0, n).

Definition left (x : Z) : outcome Z := h ← height x; Ret (x - Z.shiftl 1 (h - 1)).
Definition right (x : Z) : outcome Z := h ← height x; Ret (x + Z.shiftl 1 (h - 1)).
Definition terminal (x : Z) : bool := nonzero (Z.land x 1).

Definition tree_choose_step (b : crush_bucket) (nw : list Z) (x r n : Z) : outcome (Z + Z) :=
  if terminal n then Ret (inr n) else
  w ← aget nw n;
  let t := Z.shiftr (u64 (crush_hash32_4 (b_hash b) x n r (b_id b) * w)) 32 in
  l ← left n;
  wl ← aget nw l;
  if t <? wl then Ret (inl l) else n ← right n; Ret (inl n).

(** [num_nodes] is a byte: the tree has at most eight levels. *)
Definition bucket_tree_choose (b : crush_bucket) (x r : Z) : outcome Z :=
  '(num_nodes, nw) ← as_tree b;
  n ← loop 9 (tree_choose_step b nw x r) (Z.shiftr num_nodes 1);
  aget (b_items b) (Z.shiftr n 1).

(** ** Straw buckets *)

(** The draw kept so far, [i == 0 || draw > high_draw]. *)
Definition keep_high (i draw : Z) (s : Z * Z) : Z * Z :=
  let '(high, high_draw) := s in
  if (i =? 0) || (draw >? high_draw) then (i, draw) else (high, high_draw).

Definition straw_draw (b : crush_bucket) (straws : list Z) (x r i : Z) : outcome Z :=
  item ← aget (b_items b) i;
  straw ← aget straws i;
  Ret (u64 (Z.land (crush_hash32_3 (b_hash b) x item r) 0xffff * straw)).

Definition bucket_straw_choose (b : crush_bucket) (x r : Z) : outcome Z :=
  '(_, straws) ← as_straw b;
  '(high, _) ← for_range (Z.to_nat (b_size b)) 0
    (λ i s, draw ← straw_draw b straws x r i; Ret (keep_high i draw s)) (0, 0);
  aget (b_items b) high.

Definition S64_MIN : Z := - 2 ^ 63.

Definition get_choose_arg_weights (item_weights : list Z) (arg : option crush_choose_arg)
    (position : Z) : outcome (list Z) :=
  match arg with
  | None => Ret item_weights
  | Some a =>
      match arg_weight_set a with
      | None => Ret item_weights
      | Some wss =>
          let position :=
            if u32 position >=? arg_weight_set_size a then s32 (arg_weight_set_size a - 1)
            else position in
          ws ← aget wss position; Ret (ws_weights ws)
      end
  end.

Definition get_choose_arg_ids (b : crush_bucket) (arg : option crush_choose_arg) : list Z :=
  match arg with
  | None => b_items b
  | Some a => match arg_ids a with None => b_items b | Some ids => ids end
  end.

(** [div64_s64] truncates toward zero. *)
Definition straw2_draw (b : crush_bucket) (weights ids : list Z) (x r i : Z) : outcome Z :=
  weight ← aget weights i;
  if nonzero weight then
    id ← aget ids i;
    let u := Z.land (crush_hash32_3 (b_hash b) x id r) 0xffff in
    ln ← crush_ln u;
    Ret (Z.quot (s64 (ln - 0x1000000000000)) weight)
  else Ret S64_MIN.

Definition bucket_straw2_choose (b : crush_bucket) (x r : Z) (arg : option crush_choose_arg)
    (position : Z) : outcome Z :=
  iw ← as_straw2 b;
  weights ← get_choose_arg_weights iw arg position;
  let ids := get_choose_arg_ids b arg in
  '(high, _) ← for_range (Z.to_nat (b_size b)) 0
    (λ i s, draw ← straw2_draw b weights ids x r i; Ret (keep_high i draw s)) (0, 0);
  aget (b_items b) high.

(** ** Dispatch *)

Definition crush_bucket_choose (b : crush_bucket) (w : crush_work_bucket) (x r : Z)
    (arg : option crush_choose_arg) (position : Z) : outcome (Z * crush_work_bucket) :=
  if b_size b =? 0 then Undef
  else if b_alg b =? CRUSH_BUCKET_UNIFORM then bucket_uniform_choose b w x r
  else if b_alg b =? CRUSH_BUCKET_LIST then item ← bucket_list_choose b x r; Ret (item, w)
  else if b_alg b =? CRUSH_BUCKET_TREE then item ← bucket_tree_choose b x r; Ret (item, w)
  else if b_alg b =? CRUSH_BUCKET_STRAW then item ← bucket_straw_choose b x r; Ret (item, w)
  else if b_alg b =? CRUSH_BUCKET_STRAW2 then
    item ← bucket_straw2_choose b x r arg position; Ret (item, w)
  else item ← aget (b_items b) 0; Ret (item, w).

Definition is_out (weight : list Z) (weight_max item x : Z) : outcome bool :=
  if item >=? weight_max then Ret true else
  w ← aget weight item;
  if w >=? 0x10000 then Ret false
  else if w =? 0 then Ret true
  else if Z.land (crush_hash32_2 CRUSH_HASH_RJENKINS1 x item) 0xffff <? w then Ret false
  else Ret true.

(** ** The random permutation, without the cache *)

Lemma u32_hash3 t x a b : crush_hash32_3 t (u32 x) a b = crush_hash32_3 t x a b.
Proof. unfold crush_hash32_3. by rewrite u32_u32. Qed.

Definition swap (l : list Z) (i j : nat) : list Z :=
  <[i := default 0 (l !! j)]> (<[j := default 0 (l !! i)]> l).

(** How far from [p] its partner is. *)
Definition perm_jump (b : crush_bucket) (x p : Z) : Z :=
  crush_hash32_3 (b_hash b) x (b_id b) p mod (b_size b - p).

(** The first [n] entries drawn, starting from the identity. *)
Fixpoint perm_ref (b : crush_bucket) (x : Z) (n : nat) : list Z :=
  match n with
  | O => seqZ 0 (b_size b)
  | S n =>
      if decide (Z.of_nat n < b_size b - 1)
      then swap (perm_ref b x n) n (n + Z.to_nat (perm_jump b x (Z.of_nat n)))
      else perm_ref b x n
  end.

Lemma length_swap l i j : length (swap l i j) = length l.
Proof. unfold swap. by rewrite !length_insert. Qed.

Lemma swap_same l i : (i < length l)%nat → swap l i i = l.
Proof.
  intros Hi. destruct (lookup_lt_is_Some_2 l i Hi) as [v Hv]. unfold swap.
  rewrite Hv. simpl. rewrite list_insert_insert_eq. by apply list_insert_id.
Qed.

Lemma lookup_swap_lt l i j k : (k < i)%nat → (i <= j)%nat → swap l i j !! k = l !! k.
Proof. intros ??. unfold swap. by rewrite !list_lookup_insert_ne by lia. Qed.

Lemma swap_permutation l i j : (i <= j)%nat → (j < length l)%nat → swap l i j ≡ₚ l.
Proof.
  intros Hij Hj. destruct (decide (i = j)) as [->|Hne]; [by rewrite swap_same|].
  destruct (lookup_lt_is_Some_2 l j Hj) as [y Hy].
  destruct (lookup_lt_is_Some_2 l i ltac:(lia)) as [v Hv].
  assert (Hl : l = take i l ++ v :: (take (j - i - 1) (drop (S i) l)) ++ y :: drop (S j) l).
  { rewrite <- (take_drop_middle l i v Hv) at 1. f_equal. f_equal.
    replace (drop (S j) l) with (drop (S (j - i - 1)) (drop (S i) l))
      by (rewrite drop_drop; f_equal; lia).
    rewrite take_drop_middle; [done|]. rewrite lookup_drop, <- Hy. f_equal. lia. }
  set (l1 := take i l) in *. set (l2 := take (j - i - 1) (drop (S i) l)) in *.
  set (l3 := drop (S j) l) in *.
  assert (H1 : length l1 = i) by (subst l1; rewrite length_take; lia).
  assert (H2 : length l2 = (j - i - 1)%nat) by (subst l2; rewrite length_take, length_drop; lia).
  unfold swap. rewrite Hv, Hy. simpl. rewrite Hl. clearbody l1 l2 l3.
  rewrite !insert_app_r_alt by lia. rewrite H1, Nat.sub_diag.
  replace (j - i)%nat with (S (length l2)) by lia. simpl.
  rewrite insert_app_r_alt, Nat.sub_diag by lia. simpl. solve_Permutation.
Qed.

Section perm.
Context (b : crush_bucket).
Context (Hsize : 0 < b_size b < 0xffff).

Lemma perm_jump_range x p : 0 <= p < b_size b → 0 <= perm_jump b x p < b_size b - p.
Proof. intros Hp. apply Z.mod_pos_bound. lia. Qed.

Lemma perm_ref_permutation x n : (Z.of_nat n <= b_size b) → perm_ref b x n ≡ₚ seqZ 0 (b_size b).
Proof.
  induction n as [|n IH]; intros Hn; [done|]. cbn [perm_ref]. case_decide as Hd; [|apply IH; lia].
  pose proof (perm_jump_range x (Z.of_nat n) ltac:(lia)).
  rewrite swap_permutation; [apply IH; lia|lia|].
  rewrite (Permutation_length (IH ltac:(lia))), length_seqZ. lia.
Qed.

Lemma length_perm_ref x n : (Z.of_nat n <= b_size b) →
  length (perm_ref b x n) = Z.to_nat (b_size b).
Proof. intros Hn. by rewrite (perm_ref_permutation x n Hn), length_seqZ. Qed.

(** A drawn entry never moves again. *)
Lemma perm_ref_stable x n m k : (k < n)%nat → (n <= m)%nat →
  perm_ref b x m !! k = perm_ref b x n !! k.
Proof.
  intros Hk Hm. induction m as [|m IH]; [by replace n with 0%nat by lia|].
  destruct (decide (n = S m)) as [->|]; [done|]. rewrite <- IH by lia.
  cbn [perm_ref]. case_decide; [|done]. by rewrite lookup_swap_lt by lia.
Qed.

(** The choice the code promises for replica [r]. *)
Definition perm_item (x r : Z) : option Z :=
  i ← perm_ref b x (Z.to_nat (b_size b)) !! Z.to_nat (u32 r mod b_size b);
  b_items b !! Z.to_nat i.

Lemma perm_ref_entry x n k : (Z.of_nat n <= b_size b) → (Z.of_nat k < b_size b) →
  ∃ i, perm_ref b x n !! k = Some i ∧ 0 <= i < b_size b.
Proof.
  intros Hn Hk.
  destruct (lookup_lt_is_Some_2 (perm_ref b x n) k) as [i Hi]; [rewrite length_perm_ref; lia|].
  exists i. split; [done|].
  apply list_elem_of_lookup_2 in Hi. rewrite (perm_ref_permutation x n Hn) in Hi.
  apply elem_of_seqZ in Hi. lia.
Qed.

Lemma aget_Some {A} (l : list A) i a : 0 <= i → l !! Z.to_nat i = Some a → aget l i = Ret a.
Proof. intros Hi Hl. unfold aget. rewrite (proj2 (Z.ltb_ge _ _)) by lia. by rewrite Hl. Qed.

Lemma aset_eq {A} (l : list A) i a : 0 <= i < Z.of_nat (length l) →
  aset l i a = Ret (<[Z.to_nat i := a]> l).
Proof. intros Hi. unfold aset. by rewrite (proj2 (Z.leb_le 0 i)), (proj2 (Z.ltb_lt i _)) by lia. Qed.

(** One round of the loop draws the next entry. *)
Lemma perm_swap_step_eq x n : (Z.of_nat n < b_size b) →
  perm_swap_step b x (Z.of_nat n) (perm_ref b x n) = Ret (perm_ref b x (S n)).
Proof.
  intros Hn. unfold perm_swap_step. cbn [perm_ref].
  rewrite !u32_small by lia.
  destruct (Z.ltb_spec (Z.of_nat n) (b_size b - 1)); case_decide; try lia; [|done].
  fold (perm_jump b x (Z.of_nat n)).
  pose proof (perm_jump_range x (Z.of_nat n) ltac:(lia)) as Hj.
  set (j := perm_jump b x (Z.of_nat n)) in *. clearbody j.
  assert (Hlen : Z.of_nat (length (perm_ref b x n)) = b_size b) by (rewrite length_perm_ref; lia).
  unfold nonzero. destruct (Z.eqb_spec j 0) as [->|Hj0]; simpl.
  - rewrite Nat.add_0_r, swap_same; [done|lia].
  - destruct (perm_ref_entry x n (n + Z.to_nat j) ltac:(lia) ltac:(lia)) as (t & Ht & _).
    destruct (perm_ref_entry x n n ltac:(lia) ltac:(lia)) as (q & Hq & _).
    rewrite (u32_small (_ + _)) by lia.
    assert (Htn : Z.to_nat (Z.of_nat n + j) = (n + Z.to_nat j)%nat) by lia.
    rewrite (aget_Some _ (Z.of_nat n + j) t); [|lia|by rewrite Htn].
    cbn [mbind outcome_bind]. rewrite (aget_Some _ _ q); [|lia|by rewrite Nat2Z.id].
    cbn [mbind outcome_bind]. rewrite aset_eq by lia.
    cbn [mbind outcome_bind]. rewrite aset_eq by (rewrite length_insert; lia).
    unfold swap. rewrite Ht, Hq. simpl. rewrite Nat2Z.id. do 3 f_equal. lia.
Qed.

(** ** What the cache holds *)

Definition cache_ok (w : crush_work_bucket) : Prop :=
  Z.of_nat (length (perm w)) = b_size b ∧
  (perm_n w = 0
   ∨ perm_n w = 0xffff ∧ perm w !! 0%nat = Some (perm_jump b (perm_x w) 0)
   ∨ 0 < perm_n w <= b_size b ∧ perm w = perm_ref b (perm_x w) (Z.to_nat (perm_n w))).

Lemma perm_identity_eq from l :
  Z.of_nat (length l) = b_size b → 0 <= from <= b_size b →
  perm_identity (b_size b) from l
    = Ret (take (Z.to_nat from) l ++ seqZ from (b_size b - from)).
Proof.
  intros Hl Hfrom. unfold perm_identity.
  assert (H : ∀ n i l, Z.of_nat (length l) = i + Z.of_nat n → 0 <= i →
    for_range n i (λ i perm, aset perm i i) l = Ret (take (Z.to_nat i) l ++ seqZ i (Z.of_nat n))).
  { clear. intros n. induction n as [|n IH]; intros i l Hl Hi; cbn [for_range].
    - rewrite take_ge by lia. change (seqZ i (Z.of_nat 0)) with (@nil Z). by rewrite app_nil_r.
    - rewrite aset_eq by lia. cbn [mbind outcome_bind]. rewrite IH by (rewrite ?length_insert; lia).
      rewrite Nat2Z.inj_succ, (seqZ_cons i) by lia. rewrite <- Z.add_1_r, Z.add_1_r, Z.pred_succ.
      replace (Z.to_nat (Z.succ i)) with (S (Z.to_nat i)) by lia. f_equal.
      rewrite (take_S_r _ _ i) by (rewrite list_lookup_insert_eq by lia; done).
      rewrite take_insert_ge by lia. by rewrite <- (assoc_L (++)). }
  rewrite H by lia. do 3 f_equal. lia.
Qed.

Lemma perm_ref_u32 x n : perm_ref b (u32 x) n = perm_ref b x n.
Proof.
  induction n as [|n IH]; [done|]. cbn [perm_ref]. unfold perm_jump. by rewrite IH, u32_hash3.
Qed.

(** Cleaning up after the common case yields the permutation with one entry drawn. *)
Lemma perm_cleanup {B} x l (k : list Z → outcome B) :
  Z.of_nat (length l) = b_size b → l !! 0%nat = Some (perm_jump b x 0) →
  (l ← perm_identity (b_size b) 1 l; p0 ← aget l 0; l ← aset l p0 0; k l) = k (perm_ref b x 1).
Proof.
  intros Hl H0. rewrite perm_identity_eq by lia. cbn [mbind outcome_bind].
  pose proof (perm_jump_range x 0 ltac:(lia)) as Hs. set (s := perm_jump b x 0) in *.
  destruct l as [|s' l]; [done|]. injection H0 as ->. change (take (Z.to_nat 1) (s :: l)) with [s]. cbn [app].
  change (aget (s :: _) 0) with (Ret s). cbn [mbind outcome_bind].
  rewrite aset_eq by (simpl length; rewrite length_seqZ; lia). f_equal.
  cbn [perm_ref]. rewrite (seqZ_cons 0) by lia. rewrite <- Z.add_1_r, Z.add_0_l, <- Z.sub_1_r.
  change (Z.of_nat 0) with 0. cbn [Nat.add]. fold s.
  assert (Hlook : (0 :: seqZ 1 (b_size b - 1)) !! Z.to_nat s = Some s).
  { destruct (Z.eq_dec s 0) as [->|]; [done|].
    replace (Z.to_nat s) with (S (Z.to_nat (s - 1))) by lia. simpl.
    rewrite lookup_seqZ. split; lia. }
  case_decide.
  - unfold swap. rewrite Hlook. simpl. destruct (Z.eq_dec s 0) as [E|]; [by rewrite E|].
    replace (Z.to_nat s) with (S (Z.to_nat (s - 1))) by lia. done.
  - by replace s with 0 by lia.
Qed.

(** The loop draws up to [pr]. *)
Lemma perm_extend_loop x pr fuel n px :
  0 <= pr < b_size b → (Z.of_nat n <= b_size b) → (Z.to_nat (pr + 1) - n < fuel)%nat →
  ∃ n', loop fuel (perm_extend_step b x pr) (CrushWorkBucket px (Z.of_nat n) (perm_ref b x n))
         = Ret (CrushWorkBucket px (Z.of_nat n') (perm_ref b x n'))
       ∧ (Z.of_nat n' <= b_size b) ∧ pr < Z.of_nat n'.
Proof.
  intros Hpr. revert n. induction fuel as [|fuel IH]; intros n Hn Hfuel; [lia|].
  destruct (Z.leb_spec (Z.of_nat n) pr) as [Hle|Hgt].
  - destruct (IH (S n)) as (n' & Hloop & ?); [lia..|]. exists n'. split; [|done].
    rewrite <- Hloop. apply loop_inl. unfold perm_extend_step. cbn [perm_n perm perm_x].
    rewrite (proj2 (Z.leb_le _ _)), perm_swap_step_eq, u32_small by lia.
    cbn [mbind outcome_bind]. by rewrite Nat2Z.inj_succ.
  - exists n. split; [|lia]. apply loop_inr. unfold perm_extend_step. cbn [perm_n].
    by rewrite (proj2 (Z.leb_gt _ _)) by lia.
Qed.

Hypothesis Hitems : Z.of_nat (length (b_items b)) = b_size b.

Lemma perm_jump_0 x : perm_jump b x 0 = crush_hash32_3 (b_hash b) x (b_id b) 0 mod b_size b.
Proof. unfold perm_jump. by rewrite Z.sub_0_r. Qed.

Lemma perm_ref_head x : perm_ref b x 1 !! 0%nat = Some (perm_jump b x 0).
Proof.
  cbn [perm_ref]. pose proof (perm_jump_range x 0 ltac:(lia)) as Hs. change (Z.of_nat 0) with 0.
  case_decide.
  - unfold swap. cbn [Nat.add]. rewrite list_lookup_insert_eq.
    + rewrite lookup_seqZ_lt by lia. simpl. f_equal. lia.
    + rewrite length_insert, length_seqZ. lia.
  - rewrite lookup_seqZ_lt by lia. f_equal. lia.
Qed.

(** The last phase, from a permutation drawn to any length. *)
Lemma perm_finish x r n :
  (Z.of_nat n <= b_size b) →
  let pr := u32 r mod b_size b in
  wp (w ← loop (Z.to_nat pr + 2) (perm_extend_step b x pr)
        (CrushWorkBucket (u32 x) (Z.of_nat n) (perm_ref b x n));
      s ← aget (perm w) pr; item ← aget (b_items b) s; Ret (item, w))
    (λ '(item, w), perm_item x r = Some item ∧ cache_ok w).
Proof.
  intros Hn pr. pose proof (Z.mod_pos_bound (u32 r) (b_size b) ltac:(lia)) as Hpr. fold pr in Hpr.
  destruct (perm_extend_loop x pr (Z.to_nat pr + 2) n (u32 x)) as (n' & -> & Hn' & Hprn);
    [done|done|lia|]. cbn [mbind outcome_bind perm].
  destruct (perm_ref_entry x n' (Z.to_nat pr) ltac:(lia) ltac:(lia)) as (s & Hs & Hsr).
  rewrite (aget_Some _ _ s) by (done || lia). cbn [mbind outcome_bind].
  destruct (lookup_Z_Some (b_items b) s ltac:(lia)) as [item Hitem].
  rewrite (aget_Some _ _ item) by (done || lia). cbn [mbind outcome_bind wp]. split.
  - unfold perm_item. fold pr.
    rewrite (perm_ref_stable x n') by lia. by rewrite Hs.
  - split; cbn [perm perm_n perm_x].
    + rewrite length_perm_ref; lia.
    + right; right. split; [lia|]. by rewrite Nat2Z.id, perm_ref_u32.
Qed.

Lemma bucket_perm_choose_wp w x r :
  cache_ok w →
  wp (bucket_perm_choose b w x r) (λ '(item, w'), perm_item x r = Some item ∧ cache_ok w').
Proof.
  intros [Hlen Hcache]. unfold bucket_perm_choose. rewrite (proj2 (Z.eqb_neq _ 0)) by lia.
  pose proof (Z.mod_pos_bound (u32 r) (b_size b) ltac:(lia)) as Hpr.
  cbv zeta. rewrite <- (perm_jump_0 x).
  destruct (negb (perm_x w =? u32 x) || (perm_n w =? 0)) eqn:Hnew.
  - destruct (Z.eqb_spec (u32 r mod b_size b) 0) as [Hpr0|Hpr0].
    + pose proof (perm_jump_range x 0 ltac:(lia)) as Hs.
      rewrite aset_eq by lia. cbn [mbind outcome_bind].
      destruct (lookup_Z_Some (b_items b) (perm_jump b x 0) ltac:(lia)) as [item Hitem].
      rewrite (aget_Some _ _ item) by (done || lia). cbn [mbind outcome_bind wp]. split.
      * unfold perm_item. rewrite Hpr0, (perm_ref_stable x 1) by lia. by rewrite perm_ref_head.
      * split; cbn [perm perm_n perm_x]; [by rewrite length_insert|]. right; left.
        split; [done|]. rewrite list_lookup_insert_eq by lia. unfold perm_jump.
        by rewrite u32_hash3.
    + rewrite perm_identity_eq by lia. cbn [mbind outcome_bind].
      rewrite Z.sub_0_r. apply (perm_finish x r 0). lia.
  - apply orb_false_iff in Hnew as [Hx Hn]. bool_to_prop.
    destruct Hcache as [?|Hcache]; [done|].
    destruct (Z.eqb_spec (perm_n w) 0xffff) as [Hmagic|Hnm].
    + destruct Hcache as [[_ H0]|[? _]]; [|lia]. rewrite Hx in H0.
      unfold perm_jump in H0. rewrite u32_hash3 in H0. fold (perm_jump b x 0) in H0.
      rewrite (perm_cleanup x) by done. cbn [mbind outcome_bind]. rewrite Hx.
      apply (perm_finish x r 1). lia.
    + destruct Hcache as [[? _]|[Hn' Hperm]]; [done|].
      rewrite Hx, perm_ref_u32 in Hperm. destruct w as [px pn l]; cbn [perm perm_n perm_x] in *.
      subst px l. cbn [mbind outcome_bind].
      pose proof (perm_finish x r (Z.to_nat pn) ltac:(lia)) as H.
      by rewrite Z2Nat.id in H by lia.
Qed.
End perm.

(** ** The other methods *)

(** What the list method asks of item [i]. *)
Definition list_accepts (b : crush_bucket) (iw sw : list Z) (x r i : Z) : bool :=
  Z.shiftr (u64 (Z.land (crush_hash32_4 (b_hash b) x (default 0 (b_items b !! Z.to_nat i)) r (b_id b))
                   0xffff * default 0 (sw !! Z.to_nat i))) 16 <? default 0 (iw !! Z.to_nat i).

Section methods.
Context (b : crush_bucket) (Hwf : wf_bucket b) (Hsize : 0 < b_size b).

Lemma aget_default (l : list Z) i :
  0 <= i < Z.of_nat (length l) → aget l i = Ret (default 0 (l !! Z.to_nat i)).
Proof.
  intros Hi. destruct (lookup_Z_Some l i Hi) as [a Ha].
  rewrite (aget_Some l i a), Ha by (done || lia). done.
Qed.

Lemma items_at i : 0 <= i < b_size b →
  ∃ item, b_items b !! Z.to_nat i = Some item ∧ aget (b_items b) i = Ret item.
Proof.
  intros Hi. destruct (lookup_Z_Some (b_items b) i) as [a Ha]; [rewrite (wfb_items b Hwf); lia|].
  exists a. split; [done|]. apply aget_Some; [lia|done].
Qed.

Lemma bucket_list_choose_wp x r iw sw :
  b_body b = crush_bucket_list iw sw →
  wp (bucket_list_choose b x r) (λ item, ∃ i, 0 <= i < b_size b
    ∧ b_items b !! Z.to_nat i = Some item
    ∧ (list_accepts b iw sw x r i = true ∨ i = 0)
    ∧ ∀ j, i < j < b_size b → list_accepts b iw sw x r j = false).
Proof.
  intros Hbody. pose proof (wfb_body b Hwf) as Hb. pose proof (wfb_size b Hwf).
  pose proof (wfb_items b Hwf) as Hit. unfold wf_body in Hb. rewrite Hbody in Hb.
  destruct Hb as (_ & Hiw & Hsw). unfold bucket_list_choose, as_list. rewrite Hbody.
  cbn [mbind outcome_bind].
  apply (wp_loop (λ i, -1 <= i < b_size b
      ∧ ∀ j, i < j < b_size b → list_accepts b iw sw x r j = false) (λ i, Z.to_nat (i + 1)));
    [|rewrite s32_small by lia; split; [lia|intros j ?; lia]|rewrite s32_small by lia; lia].
  intros i [Hi Hrej]. unfold list_choose_step. rewrite Z.geb_leb.
  destruct (Z.leb_spec 0 i) as [Hge|Hlt].
  - destruct (items_at i ltac:(lia)) as (item & Hitem & ->). cbn [mbind outcome_bind].
    rewrite (aget_default sw) by lia. cbn [mbind outcome_bind].
    rewrite (aget_default iw) by lia. cbn [mbind outcome_bind].
    destruct (list_accepts b iw sw x r i) eqn:Hacc; pose proof Hacc as Hacc';
      unfold list_accepts in Hacc'; rewrite Hitem in Hacc'; cbn [default from_option id] in Hacc';
      rewrite Hacc'; cbn [wp].
    + exists i. split_and!; [lia|lia|done|by left|done].
    + split; [|lia]. split; [lia|]. intros j Hj. destruct (Z.eq_dec j i) as [->|]; [done|].
      apply Hrej. lia.
  - destruct (items_at 0 ltac:(lia)) as (item & Hitem & ->). cbn [mbind outcome_bind wp].
    exists 0. split_and!; [lia|lia|done|by right|]. intros j Hj. apply Hrej. lia.
Qed.

(** The first index with the highest draw. *)
Definition first_max (draw : Z → Z) (n high : Z) : Prop :=
  0 <= high < n ∧ (∀ j, 0 <= j < n → draw j <= draw high)
  ∧ ∀ j, 0 <= j < high → draw j < draw high.

Lemma keep_high_loop (draw : Z → Z) (drawm : Z → outcome Z) n :
  0 < n → (∀ i, 0 <= i < n → drawm i = Ret (draw i)) →
  wp (for_range (Z.to_nat n) 0 (λ i s, d ← drawm i; Ret (keep_high i d s)) (0, 0))
    (λ '(high, _), first_max draw n high).
Proof.
  intros Hn Hd.
  pose proof (wp_for_range (λ i '(high, hd), 0 < i → hd = draw high ∧ first_max draw i high)
    (λ i s, d ← drawm i; Ret (keep_high i d s)) (Z.to_nat n) 0 (0, 0)) as H.
  replace (0 + Z.of_nat (Z.to_nat n)) with n in H by lia.
  eapply wp_mono; [apply H; [|lia]|intros [high hd]; naive_solver]. clear H.
  intros i [high hd] Hi HI. rewrite Hd by lia. cbn [mbind outcome_bind wp].
  unfold keep_high, first_max in *. rewrite Z.gtb_ltb.
  destruct (Z.eqb_spec i 0) as [->|Hi0]; cbn [orb].
  - intros _. split; [done|]. split_and!; try lia; intros j Hj; replace j with 0 by lia; lia.
  - destruct HI as (-> & Hh & Hmax & Hfirst); [lia|].
    destruct (Z.ltb_spec (draw high) (draw i)) as [Hlt|Hge]; intros _; (split; [done|]).
    + split_and!; try lia; intros j Hj; destruct (Z.eq_dec j i) as [->|]; try lia;
        pose proof (Hmax j); lia.
    + split_and!; try lia; intros j Hj.
      * destruct (Z.eq_dec j i) as [->|]; [done|]. apply Hmax. lia.
      * apply Hfirst. lia.
Qed.

(** The length of the straw item [i] draws. *)
Definition straw_length (straws : list Z) (x r i : Z) : Z :=
  u64 (Z.land (crush_hash32_3 (b_hash b) x (default 0 (b_items b !! Z.to_nat i)) r) 0xffff
       * default 0 (straws !! Z.to_nat i)).

Lemma bucket_straw_choose_wp x r iw straws :
  b_body b = crush_bucket_straw iw straws →
  wp (bucket_straw_choose b x r) (λ item, ∃ i,
    b_items b !! Z.to_nat i = Some item ∧ first_max (straw_length straws x r) (b_size b) i).
Proof.
  intros Hbody. pose proof (wfb_body b Hwf) as Hb. unfold wf_body in Hb. rewrite Hbody in Hb.
  destruct Hb as (_ & Hiw & Hst). unfold bucket_straw_choose, as_straw. rewrite Hbody.
  cbn [mbind outcome_bind]. apply wp_bind.
  eapply wp_mono; [apply (keep_high_loop (straw_length straws x r)); [done|]|].
  - intros i Hi. unfold straw_draw, straw_length.
    destruct (items_at i Hi) as (item & Hitem & ->). cbn [mbind outcome_bind].
    rewrite aget_default by lia. cbn [mbind outcome_bind]. by rewrite Hitem.
  - intros [high hd] Hmax. destruct (items_at high) as (item & Hitem & ->); [apply Hmax|].
    by exists high.
Qed.

Lemma hash16_range h : 0 <= Z.land h 0xffff < 2 ^ 16.
Proof. change 0xffff with (Z.ones 16). rewrite Z.land_ones by lia. by apply Z.mod_pos_bound. Qed.

(** What item [i] draws: its exponential variate, or the least integer for a zero weight. *)
Definition straw2_value (weights ids : list Z) (x r i : Z) : Z :=
  let w := default 0 (weights !! Z.to_nat i) in
  if w =? 0 then S64_MIN else
  let u := Z.land (crush_hash32_3 (b_hash b) x (default 0 (ids !! Z.to_nat i)) r) 0xffff in
  match crush_ln u with
  | Ret ln => Z.quot (ln - 2 ^ 48) w
  | _ => 0
  end.

Lemma straw2_draw_eq weights ids x r i :
  0 <= i < Z.of_nat (length weights) → i < Z.of_nat (length ids) →
  straw2_draw b weights ids x r i = Ret (straw2_value weights ids x r i).
Proof.
  intros Hw Hids. unfold straw2_draw, straw2_value, nonzero.
  rewrite (aget_default weights) by lia. cbn [mbind outcome_bind].
  destruct (default 0 (weights !! Z.to_nat i) =? 0); cbn [negb]; [done|].
  rewrite aget_default by lia. cbn [mbind outcome_bind].
  destruct (crush_ln_range _ (hash16_range (crush_hash32_3 (b_hash b) x
    (default 0 (ids !! Z.to_nat i)) r))) as (l & -> & Hl).
  cbn [mbind outcome_bind]. change 0x1000000000000 with (2 ^ 48). by rewrite s64_small by lia.
Qed.

Lemma straw2_value_bounds weights ids x r i : Forall word weights →
  S64_MIN <= straw2_value weights ids x r i
  ∧ (default 0 (weights !! Z.to_nat i) ≠ 0 → S64_MIN < straw2_value weights ids x r i).
Proof.
  intros Hw. unfold straw2_value.
  destruct (Z.eqb_spec (default 0 (weights !! Z.to_nat i)) 0) as [|Hne]; [lia|].
  destruct (crush_ln_range _ (hash16_range (crush_hash32_3 (b_hash b) x
    (default 0 (ids !! Z.to_nat i)) r))) as (l & -> & Hl).
  assert (0 < default 0 (weights !! Z.to_nat i)).
  { revert Hne. destruct (weights !! Z.to_nat i) as [w|] eqn:E; intros Hne; [|by simpl in Hne].
    cbn [default from_option id] in *.
    rewrite Forall_lookup in Hw. destruct (Hw _ _ E). lia. }
  pose proof (Z.quot_opp_l (2 ^ 48 - l) (default 0 (weights !! Z.to_nat i)) Hne) as Hq.
  rewrite (Z.quot_div_nonneg (2 ^ 48 - l)) in Hq by lia.
  replace (- (2 ^ 48 - l)) with (l - 2 ^ 48) in Hq by lia. rewrite Hq. unfold S64_MIN.
  assert ((2 ^ 48 - l) / default 0 (weights !! Z.to_nat i) <= 2 ^ 48)
    by (apply Z.div_le_upper_bound; nia). lia.
Qed.

Lemma get_choose_arg_weights_wp iw arg position :
  wf_arg (b_size b) arg → Z.of_nat (length iw) = b_size b → 0 <= position < 2 ^ 31 →
  wp (get_choose_arg_weights iw arg position) (λ ws, b_size b <= Z.of_nat (length ws)).
Proof.
  intros Harg Hiw Hpos. unfold get_choose_arg_weights. destruct arg as [a|]; [|cbn; lia].
  destruct Harg as [_ Hws]. destruct (arg_weight_set a) as [wss|]; [|cbn; lia].
  destruct Hws as (Hsz & Hlen & Hall). rewrite Z.geb_leb, u32_small by lia.
  assert (∃ p, (if arg_weight_set_size a <=? position then s32 (arg_weight_set_size a - 1)
     else position) = p ∧ 0 <= p < arg_weight_set_size a) as (p & -> & Hp).
  { eexists. split; [done|]. destruct (Z.leb_spec (arg_weight_set_size a) position); [|lia].
    rewrite s32_small; lia. }
  destruct (lookup_Z_Some wss p ltac:(lia)) as [ws Hlook].
  rewrite (aget_Some _ _ ws) by (done || lia). cbn [mbind outcome_bind wp].
  rewrite Forall_lookup in Hall. by apply Hall in Hlook.
Qed.

Lemma get_choose_arg_ids_length arg :
  wf_arg (b_size b) arg → b_size b <= Z.of_nat (length (get_choose_arg_ids b arg)).
Proof.
  intros Harg. pose proof (wfb_items b Hwf). unfold get_choose_arg_ids.
  destruct arg as [a|]; [|lia]. destruct Harg as [Hids _]. destruct (arg_ids a); lia.
Qed.

Lemma bucket_straw2_choose_wp x r arg position iw :
  b_body b = crush_bucket_straw2 iw → wf_arg (b_size b) arg → 0 <= position < 2 ^ 31 →
  wp (bucket_straw2_choose b x r arg position) (λ item, ∃ i weights,
    get_choose_arg_weights iw arg position = Ret weights
    ∧ b_items b !! Z.to_nat i = Some item
    ∧ first_max (straw2_value weights (get_choose_arg_ids b arg) x r) (b_size b) i).
Proof.
  intros Hbody Harg Hpos. pose proof (wfb_body b Hwf) as Hb. unfold wf_body in Hb.
  rewrite Hbody in Hb. destruct Hb as (_ & Hiw).
  unfold bucket_straw2_choose, as_straw2. rewrite Hbody. cbn [mbind outcome_bind].
  pose proof (get_choose_arg_weights_wp iw arg position Harg Hiw Hpos) as Hw.
  apply wp_exists in Hw as (weights & Hweights & Hlen). rewrite Hweights.
  cbn [mbind outcome_bind]. apply wp_bind.
  pose proof (get_choose_arg_ids_length arg Harg).
  eapply wp_mono;
    [apply (keep_high_loop (straw2_value weights (get_choose_arg_ids b arg) x r)); [done|]|].
  - intros i Hi. apply straw2_draw_eq; lia.
  - intros [high hd] Hmax. destruct (items_at high) as (item & Hitem & ->); [apply Hmax|].
    by exists high, weights.
Qed.

(** *** The tree: node [q * 2 ^ (h+1) + 2 ^ h] has height [h]. *)

Lemma pow2_S h : 2 ^ Z.of_nat (S h) = 2 * 2 ^ Z.of_nat h.
Proof. rewrite Nat2Z.inj_succ, Z.pow_succ_r by lia. done. Qed.

Definition node (q : Z) (h : nat) : Z := q * (2 * 2 ^ Z.of_nat h) + 2 ^ Z.of_nat h.

Lemma land_1 n : Z.land n 1 = n mod 2.
Proof. change 1 with (Z.ones 1). by rewrite Z.land_ones. Qed.

Lemma height_loop q h fuel k :
  (h < fuel)%nat → loop fuel height_step (k, node q h) = Ret (k + Z.of_nat h).
Proof.
  revert k fuel. induction h as [|h IH]; intros k [|fuel] Hf; try lia.
  - apply loop_inr. unfold height_step, node. rewrite land_1.
    change (2 ^ Z.of_nat 0) with 1. replace (q * (2 * 1) + 1) with (1 + q * 2) by lia.
    rewrite Z.mod_add by done. simpl. by rewrite Z.add_0_r.
  - erewrite loop_inl.
    + rewrite (IH (k + 1)) by lia. f_equal. lia.
    + unfold height_step. rewrite land_1, Z.shiftr_div_pow2 by lia. unfold node. rewrite pow2_S.
      replace (q * (2 * (2 * 2 ^ Z.of_nat h)) + 2 * 2 ^ Z.of_nat h)
        with (node q h * 2) by (unfold node; lia).
      rewrite Z.mod_mul, Z.div_mul by done. done.
Qed.

Lemma height_node q h : (h <= 32)%nat → height (node q h) = Ret (Z.of_nat h).
Proof. intros Hh. unfold height. rewrite height_loop by lia. done. Qed.

Lemma terminal_node q h : terminal (node q h) = bool_decide (h = 0)%nat.
Proof.
  unfold terminal, nonzero. rewrite land_1. destruct h as [|h].
  - unfold node. change (2 ^ Z.of_nat 0) with 1. replace (q * (2 * 1) + 1) with (1 + q * 2) by lia.
    by rewrite Z.mod_add.
  - replace (node q (S h)) with (node q h * 2) by (unfold node; rewrite pow2_S; lia).
    by rewrite Z.mod_mul.
Qed.

Lemma left_node q h : (h < 32)%nat → left (node q (S h)) = Ret (node (2 * q) h).
Proof.
  intros Hh. unfold left. rewrite height_node by lia. cbn [mbind outcome_bind].
  replace (Z.of_nat (S h) - 1) with (Z.of_nat h) by lia. rewrite Z.shiftl_mul_pow2 by lia.
  unfold node. rewrite pow2_S. f_equal. lia.
Qed.
Lemma right_node q h : (h < 32)%nat → right (node q (S h)) = Ret (node (2 * q + 1) h).
Proof.
  intros Hh. unfold right. rewrite height_node by lia. cbn [mbind outcome_bind].
  replace (Z.of_nat (S h) - 1) with (Z.of_nat h) by lia. rewrite Z.shiftl_mul_pow2 by lia.
  unfold node. rewrite pow2_S. f_equal. lia.
Qed.

Section tree.
Context (num_nodes : Z) (nw : list Z) (Htree : wf_tree (b_size b) num_nodes nw) (x r : Z).

(** A node of positive weight inside the tree. *)
Definition live (n : Z) : Prop :=
  0 <= n < num_nodes ∧ ∃ w, nw !! Z.to_nat n = Some w ∧ 0 < w.

Lemma node_pos q h : 0 <= q → 0 < node q h.
Proof. intros Hq. unfold node. pose proof (Z.pow_pos_nonneg 2 (Z.of_nat h)). nia. Qed.

(** The subtree of a node inside the tree is inside the tree. *)
Lemma node_right_lt q h : 0 <= q → node q (S h) < num_nodes →
  node (2 * q) h < num_nodes ∧ node (2 * q + 1) h < num_nodes.
Proof.
  intros Hq Hlt. destruct (tree_depth _ _ _ Htree) as (d & Hd & Hn). unfold node in *.
  rewrite pow2_S in Hlt. pose proof (Z.pow_pos_nonneg 2 (Z.of_nat h)) as Hp.
  split; [nia|].
  assert (Hhd : Z.of_nat h + 2 <= d).
  { apply Z.nlt_ge. intros Hc.
    assert (2 ^ d <= 2 ^ (Z.of_nat (S h))) by (apply Z.pow_le_mono_r; lia).
    rewrite pow2_S in *. nia. }
  assert (2 ^ d = 2 ^ (d - 2 - Z.of_nat h) * (4 * 2 ^ Z.of_nat h)) as Hsplit.
  { change 4 with (2 ^ 2). rewrite <- !Z.pow_add_r by lia. f_equal. lia. }
  rewrite Hn, Hsplit in *. set (P := 2 ^ Z.of_nat h) in *. set (Q := 2 ^ (d - 2 - Z.of_nat h)) in *.
  assert (q < Q) by nia. nia.
Qed.

Lemma live_aget n : live n → ∃ w, aget nw n = Ret w ∧ 0 < w < 2 ^ 32
  ∧ nw !! Z.to_nat n = Some w.
Proof.
  intros (Hn & w & Hw & Hpos). exists w. rewrite (aget_Some _ _ w) by (done || lia).
  pose proof (tree_word _ _ _ Htree) as Hword. rewrite Forall_lookup in Hword.
  destruct (Hword _ _ Hw). done.
Qed.

(** One level down, toward positive weight. *)
Lemma tree_choose_descend q h : (h < 32)%nat → 0 <= q → live (node q (S h)) →
  ∃ q', 0 <= q' ∧ live (node q' h)
    ∧ tree_choose_step b nw x r (node q (S h)) = Ret (inl (node q' h)).
Proof.
  intros Hh Hq Hlive. destruct (live_aget _ Hlive) as (w & Hw & Hwr & Hlook).
  destruct Hlive as [[_ Hlt] _]. destruct (node_right_lt q h Hq Hlt) as [Hl Hr].
  pose proof (node_pos (2 * q) h ltac:(lia)). pose proof (node_pos (2 * q + 1) h ltac:(lia)).
  pose proof (tree_len _ _ _ Htree) as Hlen.
  destruct (lookup_Z_Some nw (node (2 * q) h) ltac:(lia)) as [wl Hwl].
  destruct (lookup_Z_Some nw (node (2 * q + 1) h) ltac:(lia)) as [wr Hwr'].
  assert (Hsum : w = wl + wr).
  { apply (tree_sum _ _ _ Htree q (Z.of_nat (S h))); [lia|lia|..].
    - rewrite <- Hlook. unfold node. do 2 f_equal. rewrite Z.pow_add_r by lia. lia.
    - rewrite <- Hwl. do 2 f_equal. unfold node. replace (Z.of_nat (S h) - 1) with (Z.of_nat h) by lia.
      rewrite Z.pow_add_r, pow2_S by lia. lia.
    - rewrite <- Hwr'. do 2 f_equal. unfold node. replace (Z.of_nat (S h) - 1) with (Z.of_nat h) by lia.
      rewrite Z.pow_add_r, pow2_S by lia. lia. }
  unfold tree_choose_step. rewrite terminal_node, Hw. cbn [bool_decide mbind outcome_bind].
  rewrite left_node by done. cbn [mbind outcome_bind].
  rewrite (aget_Some nw _ wl) by (done || lia). cbn [mbind outcome_bind].
  set (t := Z.shiftr _ 32). assert (Ht : 0 <= t < w).
  { subst t. destruct (word_crush_hash32_4 (b_hash b) x (node q (S h)) r (b_id b)).
    rewrite u64_small by nia. rewrite Z.shiftr_div_pow2 by lia.
    split; [apply Z.div_pos; nia|apply Z.div_lt_upper_bound; nia]. }
  destruct (Z.ltb_spec t wl).
  - exists (2 * q). split_and!; [lia| |done]. split; [lia|]. exists wl. split; [done|lia].
  - rewrite right_node by done. exists (2 * q + 1). split_and!; [lia| |done].
    split; [lia|]. exists wr. split; [done|lia].
Qed.

Lemma tree_choose_loop h q fuel : (h < 32)%nat → (h < fuel)%nat → 0 <= q → live (node q h) →
  ∃ q', 0 <= q' ∧ live (node q' 0) ∧ loop fuel (tree_choose_step b nw x r) (node q h)
    = Ret (node q' 0).
Proof.
  revert q fuel. induction h as [|h IH]; intros q [|fuel] Hh Hf Hq Hlive; try lia.
  - exists q. split_and!; [done..|]. apply loop_inr. unfold tree_choose_step.
    by rewrite terminal_node.
  - destruct (tree_choose_descend q h) as (q' & Hq' & Hlive' & Hstep); [lia|done..|].
    erewrite loop_inl by exact Hstep. apply IH; [lia|lia|done..].
Qed.
End tree.

Lemma bucket_tree_choose_wp x r num_nodes nw :
  b_body b = crush_bucket_tree num_nodes nw →
  wp (bucket_tree_choose b x r) (λ item, ∃ i w,
    b_items b !! Z.to_nat i = Some item ∧ 0 <= i < b_size b
    ∧ nw !! Z.to_nat (crush_calc_tree_node i) = Some w ∧ 0 < w).
Proof.
  intros Hbody. pose proof (wfb_body b Hwf) as Hb. unfold wf_body in Hb. rewrite Hbody in Hb.
  destruct Hb as (_ & Htree). specialize (Htree Hsize).
  unfold bucket_tree_choose, as_tree. rewrite Hbody. cbn [mbind outcome_bind].
  destruct (tree_depth _ _ _ Htree) as (d & Hd & Hn).
  assert (Hroot : Z.shiftr num_nodes 1 = node 0 (Z.to_nat (d - 1))).
  { rewrite Z.shiftr_div_pow2 by lia. unfold node. rewrite Z.mul_0_l, Z.add_0_l, Z2Nat.id by lia.
    rewrite Hn. replace d with (1 + (d - 1)) at 1 by lia. rewrite Z.pow_add_r by lia.
    change (2 ^ 1) with 2. by rewrite Z.mul_comm, Z.div_mul. }
  destruct (tree_choose_loop num_nodes nw Htree x r (Z.to_nat (d - 1)) 0 9)
    as (q & Hq & Hlive & Hloop); [lia..| |].
  { rewrite <- Hroot. split.
    - rewrite Z.shiftr_div_pow2 by lia. change (2 ^ 1) with 2.
      assert (0 < num_nodes) by (rewrite Hn; apply Z.pow_pos_nonneg; lia).
      split; [apply Z.div_pos; lia|apply Z.div_lt; lia].
    - rewrite Z.shiftr_div_pow2 by lia. apply (tree_root _ _ _ Htree). }
  rewrite Hroot, Hloop. cbn [mbind outcome_bind].
  assert (E : node q 0 = q * 2 + 1) by (unfold node; change (2 ^ Z.of_nat 0) with 1; lia).
  destruct Hlive as (Hnn & w & Hw & Hpos). rewrite E in *.
  pose proof (tree_leaf _ _ _ Htree q w Hq Hw Hpos).
  assert (Hsh : Z.shiftr (q * 2 + 1) 1 = q).
  { rewrite Z.shiftr_div_pow2 by lia. change (2 ^ 1) with 2. apply (div_mod_add q 2 1). lia. }
  rewrite Hsh. destruct (items_at q ltac:(lia)) as (item & Hitem & ->). cbn [wp].
  exists q, w. split_and!; [done|lia|lia| |done].
  unfold crush_calc_tree_node. rewrite Z.shiftl_mul_pow2 by lia. rewrite <- Hw. do 2 f_equal. lia.
Qed.
End methods.

Lemma crush_bucket_choose_wp b w x r arg position :
  wf_bucket b → 0 < b_size b → cache_ok b w → wf_arg (b_size b) arg → 0 <= position < 2 ^ 31 →
  wp (crush_bucket_choose b w x r arg position) (λ '(item, w'), item ∈ b_items b ∧ cache_ok b w').
Proof.
  intros Hwf Hsize Hw Harg Hpos. unfold crush_bucket_choose.
  rewrite (proj2 (Z.eqb_neq (b_size b) 0)) by lia.
  pose proof (wfb_body b Hwf) as Hb. unfold wf_body in Hb.
  destruct (b_body b) as [iw0|iw sw|nn nw|iw straws|iw] eqn:Hbody.
  - rewrite Hb. cbn. unfold bucket_uniform_choose, as_uniform. rewrite Hbody.
    cbn [mbind outcome_bind]. eapply wp_mono; [apply bucket_perm_choose_wp|].
    + pose proof (wfb_size b Hwf). lia.
    + apply Hwf.
    + done.
    + intros [item w'] [Hitem ?]. split; [|done]. unfold perm_item in Hitem.
      apply bind_Some in Hitem as (i & _ & Hi). by apply list_elem_of_lookup_2 in Hi.
  - destruct Hb as [-> _]. cbn. apply wp_bind. eapply wp_mono;
      [by apply (bucket_list_choose_wp b Hwf Hsize x r iw sw)|].
    intros item (i & _ & Hi & _). split; [|done]. by apply list_elem_of_lookup_2 in Hi.
  - destruct Hb as [-> _]. cbn. apply wp_bind. eapply wp_mono;
      [by apply (bucket_tree_choose_wp b Hwf Hsize x r nn nw)|].
    intros item (i & _ & Hi & _). split; [|done]. by apply list_elem_of_lookup_2 in Hi.
  - destruct Hb as [-> _]. cbn. apply wp_bind. eapply wp_mono;
      [by apply (bucket_straw_choose_wp b Hwf Hsize x r iw straws)|].
    intros item (i & Hi & _). split; [|done]. by apply list_elem_of_lookup_2 in Hi.
  - destruct Hb as [-> _]. cbn. apply wp_bind. eapply wp_mono;
      [by apply (bucket_straw2_choose_wp b Hwf Hsize x r arg position iw)|].
    intros item (i & ws & _ & Hi & _). split; [|done]. by apply list_elem_of_lookup_2 in Hi.
Qed.

Lemma is_out_wp weight weight_max item x :
  0 <= item → weight_max <= Z.of_nat (length weight) →
  wp (is_out weight weight_max item x) (λ _, True).
Proof.
  intros Hitem Hlen. unfold is_out. rewrite Z.geb_leb.
  destruct (Z.leb_spec weight_max item); [done|].
  rewrite aget_default by lia. cbn [mbind outcome_bind]. by repeat case_match.
Qed.

(** The index of the first rule that matches. *)
Definition rule_at (m : crush_map) (ruleset type size i : Z) : Prop :=
  ∃ r, rules m !! Z.to_nat i = Some (Some r) ∧ rule_matches r ruleset type size = true.

Lemma crush_find_rule_wp m ruleset type size :
  0 <= max_rules m < 2 ^ 31 → Z.of_nat (length (rules m)) = max_rules m →
  wp (crush_find_rule m ruleset type size) (λ i,
    (0 <= i < max_rules m ∧ rule_at m ruleset type size i
      ∧ ∀ j, 0 <= j < i → ¬ rule_at m ruleset type size j)
    ∨ (i = -1 ∧ ∀ j, 0 <= j < max_rules m → ¬ rule_at m ruleset type size j)).
Proof.
  intros Hmax Hlen. unfold crush_find_rule.
  apply (wp_loop (λ i, 0 <= i <= max_rules m
      ∧ ∀ j, 0 <= j < i → ¬ rule_at m ruleset type size j) (λ i, Z.to_nat (max_rules m - i)));
    [|split; [lia|intros j ?; lia]|lia].
  intros i [Hi Hnone]. unfold find_rule_step.
  destruct (Z.ltb_spec i (max_rules m)); [|cbn; right; split; [done|intros j ?; apply Hnone; lia]].
  destruct (lookup_Z_Some (rules m) i ltac:(lia)) as [o Ho].
  rewrite (aget_Some _ _ o) by (done || lia). cbn [mbind outcome_bind].
  assert (Hstep : ¬ rule_at m ruleset type size i → ∀ j, 0 <= j < i + 1 → ¬ rule_at m ruleset type size j).
  { intros Hn j Hj. destruct (Z.eq_dec j i) as [->|]; [done|]. apply Hnone. lia. }
  destruct o as [r|]; [destruct (rule_matches r ruleset type size) eqn:Hm|]; cbn [wp].
  - left. rewrite s32_small by lia. split_and!; [lia|lia|by exists r|done].
  - split; [split; [lia|]|lia]. apply Hstep. intros (r' & Hr' & Hm'). congruence.
  - split; [split; [lia|]|lia]. apply Hstep. intros (r' & Hr' & Hm'). congruence.
Qed.

(** * Properties *)

(** Buckets for the witnesses. *)
Definition ex_uniform : crush_bucket :=
  CrushBucket (-2) 1 CRUSH_BUCKET_UNIFORM 0 0x30000 3 [0; 1; 2] (crush_bucket_uniform 0x10000).
Definition ex_straw2 : crush_bucket :=
  CrushBucket (-3) 1 CRUSH_BUCKET_STRAW2 0 0x30000 3 [0; 1; 2]
    (crush_bucket_straw2 [0; 0x10000; 0x20000]).
Definition ex_work : crush_work_bucket := CrushWorkBucket 0 0 [7; 7; 7].

Lemma wf_ex_uniform : wf_bucket ex_uniform.
Proof. by split. Qed.
Lemma wf_ex_straw2 : wf_bucket ex_straw2.
Proof. by split. Qed.
Lemma cache_ok_ex_work : cache_ok ex_uniform ex_work.
Proof. split; [done|by left]. Qed.

(** C13: the cached permutation is transparent.  Whatever the cache holds from earlier calls
    with any inputs, and whatever was in the memory before, choosing replica [r] for input [x]
    gives the item at position [r mod size] of one fixed random permutation of the bucket's
    items for [x]; so the first [size] replicas are a rearrangement of the items. *)
Theorem bucket_perm_choose_permutation (b : crush_bucket) (w : crush_work_bucket) (x r : Z)
    (Hwf : wf_bucket b) (Hsize : 0 < b_size b) (Hw : cache_ok b w) :
  wp (bucket_perm_choose b w x r) (λ '(item, w'), perm_item b x r = Some item ∧ cache_ok b w')
  ∧ perm_ref b x (Z.to_nat (b_size b)) ≡ₚ seqZ 0 (b_size b).
Proof.
  pose proof (wfb_size b Hwf). split.
  - apply bucket_perm_choose_wp; [lia|apply Hwf|done].
  - apply perm_ref_permutation; lia.
Qed.

Lemma bucket_perm_choose_permutation_witness :
  wf_bucket ex_uniform ∧ cache_ok ex_uniform ex_work
  ∧ wp (bucket_perm_choose ex_uniform ex_work 42 1)
      (λ '(item, w'), perm_item ex_uniform 42 1 = Some item ∧ cache_ok ex_uniform w').
Proof.
  split; [exact wf_ex_uniform|]. split; [exact cache_ok_ex_work|].
  apply (bucket_perm_choose_permutation ex_uniform ex_work 42 1 wf_ex_uniform eq_refl
    cache_ok_ex_work).
Defined.

(** C14: choosing from a non-empty well-formed bucket, by any algorithm, ends, stays inside the
    bucket's arrays, yields one of its items and keeps the permutation cache valid. *)
Theorem crush_bucket_choose_sound (b : crush_bucket) (w : crush_work_bucket) (x r : Z)
    (arg : option crush_choose_arg) (position : Z)
    (Hwf : wf_bucket b) (Hsize : 0 < b_size b) (Hw : cache_ok b w)
    (Harg : wf_arg (b_size b) arg) (Hpos : 0 <= position < 2 ^ 31) :
  wp (crush_bucket_choose b w x r arg position) (λ '(item, w'), item ∈ b_items b ∧ cache_ok b w').
Proof. by apply crush_bucket_choose_wp. Qed.

Lemma crush_bucket_choose_sound_witness :
  wf_bucket ex_uniform ∧ cache_ok ex_uniform ex_work
  ∧ wp (crush_bucket_choose ex_uniform ex_work 42 1 None 0)
      (λ '(item, w'), item ∈ [0; 1; 2] ∧ cache_ok ex_uniform w').
Proof.
  split; [exact wf_ex_uniform|]. split; [exact cache_ok_ex_work|].
  apply (crush_bucket_choose_sound ex_uniform ex_work 42 1 None 0 wf_ex_uniform eq_refl
    cache_ok_ex_work I). lia.
Defined.

(** C15: a straw2 bucket yields the first item with the highest draw under the weights and ids
    in force at the position, and never an item of weight zero while another has weight. *)
Theorem bucket_straw2_choose_max (b : crush_bucket) (x r : Z) (arg : option crush_choose_arg)
    (position : Z) (iw weights : list Z)
    (Hwf : wf_bucket b) (Hsize : 0 < b_size b) (Hbody : b_body b = crush_bucket_straw2 iw)
    (Harg : wf_arg (b_size b) arg) (Hpos : 0 <= position < 2 ^ 31)
    (Hweights : get_choose_arg_weights iw arg position = Ret weights)
    (Hword : Forall word weights) :
  wp (bucket_straw2_choose b x r arg position) (λ item, ∃ i,
    b_items b !! Z.to_nat i = Some item
    ∧ first_max (straw2_value b weights (get_choose_arg_ids b arg) x r) (b_size b) i
    ∧ ((∃ j, 0 <= j < b_size b ∧ default 0 (weights !! Z.to_nat j) ≠ 0) →
       default 0 (weights !! Z.to_nat i) ≠ 0)).
Proof.
  eapply wp_mono; [by apply (bucket_straw2_choose_wp b Hwf Hsize x r arg position iw)|].
  intros item (i & weights' & Hw' & Hitem & Hmax). rewrite Hweights in Hw'. injection Hw' as <-.
  exists i. split_and!; [done|done|]. intros (j & Hj & Hwj) Hwi.
  destruct Hmax as (_ & Hmax & _). specialize (Hmax j Hj).
  destruct (straw2_value_bounds b weights (get_choose_arg_ids b arg) x r j Hword) as [_ Hlt].
  specialize (Hlt Hwj). unfold straw2_value in Hmax at 2. rewrite Hwi in Hmax.
  cbv zeta in Hmax. rewrite Z.eqb_refl in Hmax. lia.
Qed.

Lemma bucket_straw2_choose_max_witness :
  wf_bucket ex_straw2 ∧
  wp (bucket_straw2_choose ex_straw2 7 0 None 0) (λ item, ∃ i,
    [0; 1; 2] !! Z.to_nat i = Some item
    ∧ ((∃ j, 0 <= j < 3 ∧ default 0 ([0; 0x10000; 0x20000] !! Z.to_nat j) ≠ 0) →
       default 0 ([0; 0x10000; 0x20000] !! Z.to_nat i) ≠ 0)).
Proof.
  split; [exact wf_ex_straw2|].
  assert (Hword : Forall word [0; 0x10000; 0x20000]) by (repeat constructor; done).
  eapply wp_mono; [apply (bucket_straw2_choose_max ex_straw2 7 0 None 0 _ _ wf_ex_straw2 eq_refl
    eq_refl I ltac:(lia) eq_refl Hword)|].
  intros item (i & H1 & _ & H2). exists i. split; [exact H1|exact H2].
Defined.

(** Looking up a rule scans the rule table once and returns the lowest number of a rule of
    that ruleset and type whose size range holds the size, or -1 exactly when there is none. *)
Theorem crush_find_rule_first (m : crush_map) (ruleset type size : Z)
    (Hmax : 0 <= max_rules m < 2 ^ 31) (Hlen : Z.of_nat (length (rules m)) = max_rules m) :
  wp (crush_find_rule m ruleset type size) (λ i,
    (0 <= i < max_rules m ∧ rule_at m ruleset type size i
      ∧ ∀ j, 0 <= j < i → ¬ rule_at m ruleset type size j)
    ∨ (i = -1 ∧ ∀ j, 0 <= j < max_rules m → ¬ rule_at m ruleset type size j)).
Proof. by apply crush_find_rule_wp. Qed.

Definition ex_rules_map : crush_map :=
  CrushMap [] [None; Some (CrushRule 0 (CrushRuleMask 3 1 1 10) [])] 0 2 0 0 0 0 0 0 0 0 ∅ ∅ ∅.

Lemma crush_find_rule_first_witness :
  wp (crush_find_rule ex_rules_map 3 1 2) (λ i,
    (0 <= i < 2 ∧ rule_at ex_rules_map 3 1 2 i ∧ ∀ j, 0 <= j < i → ¬ rule_at ex_rules_map 3 1 2 j)
    ∨ (i = -1 ∧ ∀ j, 0 <= j < 2 → ¬ rule_at ex_rules_map 3 1 2 j)).
Proof.
  apply (crush_find_rule_first ex_rules_map 3 1 2); [cbn; lia|reflexivity].
Defined.
