(* ===== verification/Choose.v ===== *)
(** * Descending the hierarchy, first-n (libceph/crush/mapper.c, [crush_choose_firstn])

    Picking distinct items of a type below a bucket: the retry loops with their three ways out,
    the recursion to a leaf, and the output vectors. *)
From S2P Require Import Prelude Hash Crush CrushLn Mapper.

(** What a choose call reads and writes through its pointers: the workspace, the output vector
    [out] and, when it looks for leaves, [out2].  The two vectors are disjoint memory. *)
Record vectors := Vectors { v_work : crush_work; v_out : list Z; v_out2 : option (list Z) }.

(** The arguments no call of the recursion changes. *)
Record choose_env := ChooseEnv {
  e_map : crush_map;
  e_weight : list Z; e_weight_max : Z;
  e_x : Z;
  e_choose_args : option (list crush_choose_arg) }.

Record firstn_tunables := FirstnTunables {
  local_retries : Z; local_fallback_retries : Z; vary_r : Z; stable : Z }.

Section choose.
Context (env : choose_env).

Definition work_at (work : crush_work) (id : Z) : outcome crush_work_bucket :=
  o ← aget work (-1 - id); deref o.

(** [choose_args ? &choose_args[-1-in->id] : NULL] *)
Definition choose_arg_of (in_ : crush_bucket) : outcome (option crush_choose_arg) :=
  match e_choose_args env with
  | None => Ret None
  | Some args => a ← aget args (-1 - b_id in_); Ret (Some a)
  end.

(** Either choose method, on the bucket's entry of the workspace. *)
Definition choose_item (exhaustive : bool) (in_ : crush_bucket) (work : crush_work)
    (r position : Z) : outcome (Z * crush_work) :=
  w ← work_at work (b_id in_);
  '(item, w) ←
    (if exhaustive then bucket_perm_choose in_ w (e_x env) r
     else arg ← choose_arg_of in_; crush_bucket_choose in_ w (e_x env) r arg position);
  work ← aset work (-1 - b_id in_) (Some w);
  Ret (item, work).

Definition item_type (item : Z) : outcome Z :=
  if item <? 0 then b ← bucket_at (e_map env) item; Ret (b_type b) else Ret 0.

(** [for (i = from; i < to; i++) if (out[i] == item) ...] *)
Definition collide_step (out : list Z) (to item i : Z) : outcome (Z + bool) :=
  if i <? to then v ← aget out i; Ret (if v =? item then inr true else inl (i + 1))
  else Ret (inr false).
Definition collides (out : list Z) (from to item : Z) : outcome bool :=
  loop (Z.to_nat (to - from) + 1) (collide_step out to item) from.

Definition out_of_cluster (item : Z) : outcome bool :=
  is_out (e_weight env) (e_weight_max env) item (e_x env).

(** ** One call of crush_choose_firstn *)

Section firstn.
Context (tun : firstn_tunables).
(** The recursive call for a leaf: the bucket, [numrep], [outpos], [out_size], [parent_r], and
    the vectors, [out2] being its output. *)
Context (leaf_call : crush_bucket → Z → Z → Z → Z → vectors → outcome (Z * vectors)).
Context (fuel : nat) (bucket : crush_bucket).
Context (numrep type : Z) (tries : Z) (recurse_to_leaf : bool) (parent_r : Z).

(** How one pass through the innermost loop judges what it drew. *)
Inductive verdict :=
  | Bad_item
  | Descend (b : crush_bucket)
  | Judged (item : Z) (reject collide : bool).

(** [r >> (vary_r-1)]: shifting an [int] by its width or more is undefined. *)
Definition shift_right (r n : Z) : outcome Z := if n <? 32 then Ret (Z.shiftr r n) else Undef.

Definition firstn_leaf (outpos count r item : Z) (v : vectors) : outcome (bool * vectors) :=
  out2 ← deref (v_out2 v);
  if item <? 0 then
    sub_r ← (if nonzero (vary_r tun) then shift_right r (u32 (vary_r tun - 1)) else Ret 0);
    b ← bucket_at (e_map env) item;
    '(res, v') ← leaf_call b (if nonzero (stable tun) then 1 else outpos + 1) outpos count sub_r
                   (Vectors (v_work v) out2 None);
    Ret (res <=? outpos, Vectors (v_work v') (v_out v) (Some (v_out v')))
  else
    out2 ← aset out2 outpos item;
    Ret (false, Vectors (v_work v) (v_out v) (Some out2)).

Definition firstn_judge (outpos count r item itemtype : Z) (v : vectors)
    : outcome (verdict * vectors) :=
  collide ← collides (v_out v) 0 outpos item;
  '(reject, v) ←
    (if negb collide && recurse_to_leaf then firstn_leaf outpos count r item v
     else Ret (false, v));
  reject ←
    (if negb reject && negb collide && (itemtype =? 0) then out_of_cluster item
     else Ret reject);
  Ret (Judged item reject collide, v).

(** Draw from [in_] and judge. *)
Definition firstn_draw (rep outpos count ftotal flocal : Z) (in_ : crush_bucket) (v : vectors)
    : outcome (verdict * vectors) :=
  let r := s32 (s32 (rep + parent_r) + ftotal) in
  if b_size in_ =? 0 then Ret (Judged 0 true false, v) else
  let exhaustive := (local_fallback_retries tun >? 0) && (flocal >=? Z.shiftr (b_size in_) 1)
                    && (flocal >? local_fallback_retries tun) in
  '(item, work) ← choose_item exhaustive in_ (v_work v) r outpos;
  let v := Vectors work (v_out v) (v_out2 v) in
  if item >=? max_devices (e_map env) then Ret (Bad_item, v) else
  itemtype ← item_type item;
  if negb (itemtype =? type) then
    if (item >=? 0) || (-1 - item >=? max_buckets (e_map env)) then Ret (Bad_item, v)
    else b ← bucket_at (e_map env) item; Ret (Descend b, v)
  else firstn_judge outpos count r item itemtype v.

(** Where the flags send the loops. *)
Inductive firstn_next := Retry_descent | Skip_rep | Got (item : Z).

Definition firstn_retry (in_ : crush_bucket) (collide : bool) (ftotal flocal : Z)
    : option firstn_next :=
  if collide && (flocal <=? local_retries tun) then None
  else if (local_fallback_retries tun >? 0)
       && (flocal <=? u32 (b_size in_ + local_fallback_retries tun)) then None
  else if ftotal <? tries then Some Retry_descent
  else Some Skip_rep.

(** The innermost loop, on [in], [ftotal], [flocal] and the vectors; [inl] is [retry_bucket]. *)
Definition firstn_bucket_step (rep outpos count : Z) (s : crush_bucket * Z * Z * vectors)
    : outcome ((crush_bucket * Z * Z * vectors) + (firstn_next * Z * vectors)) :=
  let '(in_, ftotal, flocal, v) := s in
  '(verdict, v) ← firstn_draw rep outpos count ftotal flocal in_ v;
  match verdict with
  | Bad_item => Ret (inr (Skip_rep, ftotal, v))
  | Descend b => Ret (inl (b, ftotal, flocal, v))
  | Judged item reject collide =>
      if reject || collide then
        let ftotal := u32 (ftotal + 1) in
        let flocal := u32 (flocal + 1) in
        match firstn_retry in_ collide ftotal flocal with
        | None => Ret (inl (in_, ftotal, flocal, v))
        | Some next => Ret (inr (next, ftotal, v))
        end
      else Ret (inr (Got item, ftotal, v))
  end.

(** The loop around it restarts from the top; [Some item] is a replica found. *)
Definition firstn_descent_step (rep outpos count : Z) (s : Z * vectors)
    : outcome ((Z * vectors) + (option Z * vectors)) :=
  let '(ftotal, v) := s in
  '(next, ftotal, v) ← loop fuel (firstn_bucket_step rep outpos count) (bucket, ftotal, 0, v);
  match next with
  | Retry_descent => Ret (inl (ftotal, v))
  | Skip_rep => Ret (inr (None, v))
  | Got item => Ret (inr (Some item, v))
  end.

Definition firstn_rep_step (s : Z * Z * Z * vectors)
    : outcome ((Z * Z * Z * vectors) + (Z * vectors)) :=
  let '(rep, outpos, count, v) := s in
  if (rep <? numrep) && (count >? 0) then
    '(got, v) ← loop fuel (firstn_descent_step rep outpos count) (0, v);
    match got with
    | None => Ret (inl (rep + 1, outpos, count, v))
    | Some item =>
        out ← aset (v_out v) outpos item;
        Ret (inl (rep + 1, outpos + 1, count - 1, Vectors (v_work v) out (v_out2 v)))
    end
  else Ret (inr (outpos, v)).

Definition firstn_body (outpos out_size : Z) (v : vectors) : outcome (Z * vectors) :=
  loop (Z.to_nat numrep + 1) firstn_rep_step
    (if nonzero (stable tun) then 0 else outpos, outpos, out_size, v).
End firstn.

(** The recursive call does not recurse: its [recurse_to_leaf] is 0 and its [out2] is null. *)
Definition no_call (b : crush_bucket) (numrep outpos out_size parent_r : Z) (v : vectors)
    : outcome (Z * vectors) := Undef.

Definition crush_choose_firstn_leaf (tun : firstn_tunables) (fuel : nat) (recurse_tries : Z)
    (b : crush_bucket) (numrep outpos out_size parent_r : Z) (v : vectors)
    : outcome (Z * vectors) :=
  firstn_body tun no_call fuel b numrep 0 recurse_tries false parent_r outpos out_size v.

Definition crush_choose_firstn (tun : firstn_tunables) (fuel : nat) (bucket : crush_bucket)
    (numrep type outpos out_size tries recurse_tries : Z) (recurse_to_leaf : bool)
    (parent_r : Z) (v : vectors) : outcome (Z * vectors) :=
  firstn_body tun (crush_choose_firstn_leaf tun fuel recurse_tries) fuel bucket numrep type tries
    recurse_to_leaf parent_r outpos out_size v.
End choose.

(** ** Well-formed maps

    [rank] bounds the depth below a bucket: the hierarchy has no cycle. *)
Definition map_bucket (m : crush_map) (b : crush_bucket) : Prop :=
  b_id b < 0 ∧ buckets m !! Z.to_nat (-1 - b_id b) = Some (Some b).

Record wf_map (m : crush_map) (rank : Z → nat) : Prop := {
  wfm_len : Z.of_nat (length (buckets m)) = max_buckets m;
  wfm_id : ∀ i b, buckets m !! i = Some (Some b) → b_id b = -1 - Z.of_nat i;
  wfm_bucket : ∀ b, map_bucket m b → wf_bucket b;
  wfm_type : ∀ b, map_bucket m b → b_type b ≠ 0;
  wfm_item : ∀ b item, map_bucket m b → item ∈ b_items b → item < 0 →
    (rank item < rank (b_id b))%nat
    ∧ ∃ b', buckets m !! Z.to_nat (-1 - item) = Some (Some b') }.

Definition wf_work (m : crush_map) (work : crush_work) : Prop :=
  ∀ b, map_bucket m b →
    ∃ w, work !! Z.to_nat (-1 - b_id b) = Some (Some w) ∧ cache_ok b w.

Definition wf_env (env : choose_env) (rank : Z → nat) : Prop :=
  wf_map (e_map env) rank
  ∧ e_weight_max env <= Z.of_nat (length (e_weight env))
  ∧ match e_choose_args env with
    | None => True
    | Some args => ∀ b, map_bucket (e_map env) b →
        ∃ a, args !! Z.to_nat (-1 - b_id b) = Some a ∧ wf_arg (b_size b) (Some a)
    end.

(** What lies under a bucket. *)
Inductive below (m : crush_map) : crush_bucket → Z → Prop :=
  | below_item b item : item ∈ b_items b → below m b item
  | below_bucket b item b' item' :
      item ∈ b_items b → item < 0 → buckets m !! Z.to_nat (-1 - item) = Some (Some b') →
      below m b' item' → below m b item'.

Section choose_facts.
Context (env : choose_env) (rank : Z → nat) (Henv : wf_env env rank).
#[local] Abbreviation m := (e_map env).

Lemma wf_env_map : wf_map m rank. Proof. apply Henv. Qed.

Lemma map_bucket_at item b' :
  item < 0 → buckets m !! Z.to_nat (-1 - item) = Some (Some b') →
  map_bucket m b' ∧ b_id b' = item ∧ bucket_at m item = Ret b' ∧ -1 - item < max_buckets m.
Proof.
  intros Hneg Hb. pose proof (wfm_id _ _ wf_env_map _ _ Hb) as Hid.
  pose proof (wfm_len _ _ wf_env_map). pose proof (lookup_lt_Some _ _ _ Hb).
  assert (b_id b' = item) as Hid' by lia. split_and!; [|done| |lia].
  - split; [lia|]. by rewrite Hid'.
  - unfold bucket_at. rewrite (aget_Some _ _ (Some b')) by (done || lia). done.
Qed.

Lemma item_bucket b item :
  map_bucket m b → item ∈ b_items b → item < 0 →
  ∃ b', buckets m !! Z.to_nat (-1 - item) = Some (Some b') ∧ map_bucket m b' ∧ b_id b' = item
    ∧ bucket_at m item = Ret b' ∧ -1 - item < max_buckets m ∧ (rank item < rank (b_id b))%nat.
Proof.
  intros Hb Hitem Hneg. destruct (wfm_item _ _ wf_env_map b item Hb Hitem Hneg) as (Hr & b' & Hb').
  exists b'. destruct (map_bucket_at item b' Hneg Hb') as (?&?&?&?). done.
Qed.

(** The type of an item of the map: 0 exactly for devices. *)
Definition has_type (item type : Z) : Prop :=
  (0 <= item < max_devices m ∧ type = 0)
  ∨ (item < 0 ∧ type ≠ 0
     ∧ ∃ b, map_bucket m b ∧ b_id b = item ∧ b_type b = type ∧ bucket_at m item = Ret b).

Definition in_cluster (item : Z) : Prop := out_of_cluster env item = Ret false.

Lemma choose_item_wp exhaustive in_ work r position :
  map_bucket m in_ → 0 < b_size in_ → wf_work m work → 0 <= position < 2 ^ 31 →
  wp (choose_item env exhaustive in_ work r position)
    (λ '(item, work'), item ∈ b_items in_ ∧ wf_work m work').
Proof.
  intros Hin Hsize Hwork Hpos. destruct (Hwork in_ Hin) as (w & Hw & Hcache).
  pose proof (wfm_bucket _ _ wf_env_map in_ Hin) as Hwf. destruct Hin as [Hid Hlook].
  unfold choose_item, work_at. rewrite (aget_Some _ _ (Some w)) by (done || lia).
  cbn [mbind outcome_bind deref].
  assert (Hchoose : wp (if exhaustive then bucket_perm_choose in_ w (e_x env) r
     else arg ← choose_arg_of env in_; crush_bucket_choose in_ w (e_x env) r arg position)
     (λ '(item, w'), item ∈ b_items in_ ∧ cache_ok in_ w')).
  { destruct exhaustive.
    - eapply wp_mono; [apply bucket_perm_choose_wp|].
      + pose proof (wfb_size _ Hwf). lia.
      + apply Hwf.
      + done.
      + intros [item w'] [Hitem ?]. split; [|done]. unfold perm_item in Hitem.
        apply bind_Some in Hitem as (i & _ & Hi). by apply list_elem_of_lookup_2 in Hi.
    - destruct Henv as (_ & _ & Hargs). unfold choose_arg_of.
      destruct (e_choose_args env) as [args|].
      + destruct (Hargs in_) as (a & Ha & Hwfa); [done|].
        rewrite (aget_Some _ _ a) by (done || lia). by apply crush_bucket_choose_wp.
      + by apply crush_bucket_choose_wp. }
  apply wp_bind. eapply wp_mono; [exact Hchoose|]. intros [item w'] [Hitem Hw'].
  apply wp_bind. apply wp_aset; [apply lookup_lt_Some in Hw; lia|]. cbn [wp].
  split; [done|]. intros b Hb. destruct (decide (b_id b = b_id in_)) as [Heq|Hne].
  - assert (b = in_) as ->.
    { destruct Hb as [_ Hb]. rewrite Heq in Hb. congruence. }
    exists w'. rewrite list_lookup_insert_eq by (by apply lookup_lt_Some in Hw). done.
  - destruct (Hwork b Hb) as (wb & Hwb & ?). exists wb. split; [|done].
    rewrite list_lookup_insert_ne; [done|]. destruct Hb. lia.
Qed.

Lemma collides_wp out from to item :
  0 <= from → to <= Z.of_nat (length out) →
  wp (collides out from to item) (λ c,
    if c then True else ∀ i, from <= i < to → out !! Z.to_nat i ≠ Some item).
Proof.
  intros Hfrom Hto. unfold collides.
  apply (wp_loop (λ i, from <= i ∧ ∀ j, from <= j < i → out !! Z.to_nat j ≠ Some item)
    (λ i, Z.to_nat (to - i))); [|split; [lia|intros j ?; lia]|lia].
  intros i [Hi Hnone]. unfold collide_step. destruct (Z.ltb_spec i to).
  - destruct (lookup_Z_Some out i ltac:(lia)) as [v Hv].
    rewrite (aget_Some _ _ v) by (done || lia). cbn [mbind outcome_bind].
    destruct (Z.eqb_spec v item) as [->|Hne]; cbn [wp]; [done|]. split; [|lia].
    split; [lia|]. intros j Hj. destruct (Z.eq_dec j i) as [->|]; [congruence|].
    apply Hnone. lia.
  - cbn [wp]. intros j Hj. apply Hnone. lia.
Qed.

Lemma item_type_wp b item :
  map_bucket m b → item ∈ b_items b → item < max_devices m →
  wp (item_type env item) (λ t, has_type item t).
Proof.
  intros Hb Hitem Hdev. unfold item_type. destruct (Z.ltb_spec item 0).
  - destruct (item_bucket b item Hb Hitem ltac:(done)) as (b' & _ & Hb' & Hid & Hat & _).
    rewrite Hat. cbn [mbind outcome_bind wp]. right. split; [done|]. split.
    + by apply (wfm_type _ _ wf_env_map).
    + by exists b'.
  - cbn. left. done.
Qed.

Lemma out_of_cluster_wp item : 0 <= item → wp (out_of_cluster env item) (λ _, True).
Proof. intros ?. apply is_out_wp; [done|]. apply Henv. Qed.
End choose_facts.

(** ** Vectors *)

Definition same_below (n : Z) (l l' : list Z) : Prop :=
  length l' = length l ∧ ∀ i, 0 <= i < n → l' !! Z.to_nat i = l !! Z.to_nat i.

Definition absent_below (n : Z) (l : list Z) (item : Z) : Prop :=
  ∀ i, 0 <= i < n → l !! Z.to_nat i ≠ Some item.

Lemma same_below_refl n l : same_below n l l.
Proof. done. Qed.
Lemma same_below_trans n l1 l2 l3 : same_below n l1 l2 → same_below n l2 l3 → same_below n l1 l3.
Proof. intros [L1 H1] [L2 H2]. split; [congruence|]. intros i Hi. by rewrite H2, H1. Qed.
Lemma same_below_le n n' l l' : n' <= n → same_below n l l' → same_below n' l l'.
Proof. intros Hn [L H]. split; [done|]. intros i Hi. apply H. lia. Qed.
Lemma same_below_insert n l v : 0 <= n → same_below n l (<[Z.to_nat n := v]> l).
Proof.
  intros Hn. split; [apply length_insert|]. intros i Hi.
  apply list_lookup_insert_ne. lia.
Qed.
Lemma absent_below_same n l l' item :
  same_below n l l' → absent_below n l item → absent_below n l' item.
Proof. intros [_ H] Ha i Hi. rewrite H by done. by apply Ha. Qed.
#[export] Hint Resolve same_below_refl : core.

(** [v'] differs from [v] only in the workspace and in [out2] from [n] on. *)
Definition vec_keeps (m : crush_map) (n : Z) (v v' : vectors) : Prop :=
  wf_work m (v_work v') ∧ v_out v' = v_out v
  ∧ match v_out2 v, v_out2 v' with
    | None, None => True
    | Some l, Some l' => same_below n l l'
    | _, _ => False
    end.

Lemma vec_keeps_refl m n v : wf_work m (v_work v) → vec_keeps m n v v.
Proof. intros Hw. split_and!; [done..|]. by destruct (v_out2 v). Qed.
Lemma vec_keeps_trans m n v1 v2 v3 :
  vec_keeps m n v1 v2 → vec_keeps m n v2 v3 → vec_keeps m n v1 v3.
Proof.
  intros (W1 & O1 & H1) (W2 & O2 & H2). split_and!; [done|congruence|].
  destruct (v_out2 v1), (v_out2 v2), (v_out2 v3); try done. by eapply same_below_trans.
Qed.

Section firstn_facts.
Context (env : choose_env) (rank : Z → nat) (Henv : wf_env env rank).
#[local] Abbreviation m := (e_map env).
Context (tun : firstn_tunables).
Context (leaf_call : crush_bucket → Z → Z → Z → Z → vectors → outcome (Z * vectors)).
Context (fuel : nat) (bucket : crush_bucket).
Context (numrep type tries : Z) (recurse_to_leaf : bool) (parent_r : Z).
(** [B] bounds the local retries of a descent, [R] the depth of the hierarchy. *)
Context (B : Z) (R : nat).
Hypothesis Hbucket : map_bucket m bucket.
Hypothesis Hvary : 0 <= vary_r tun <= 32.
Hypothesis Htries : 0 <= tries < 2 ^ 31.
Hypothesis HB : 0 <= local_retries tun <= B ∧ B < 2 ^ 30.
Hypothesis Hfallback : 0 <= local_fallback_retries tun
  ∧ ∀ b, map_bucket m b → b_size b + local_fallback_retries tun <= B.
Hypothesis Hrank : ∀ b, map_bucket m b → (rank (b_id b) <= R)%nat.
Hypothesis Hfuel : (S R * (Z.to_nat B + 2) < fuel)%nat ∧ (Z.to_nat tries + 1 < fuel)%nat.

(** A leaf found under [b] at position [i] of [l]. *)
Definition leaf_at (b : crush_bucket) (l : list Z) (i lf : Z) : Prop :=
  l !! Z.to_nat i = Some lf ∧ 0 <= lf < max_devices m ∧ in_cluster env lf ∧ below m b lf
  ∧ absent_below i l lf.

Hypothesis Hleaf : recurse_to_leaf = true →
  ∀ b n outpos count sub_r v, map_bucket m b → wf_work m (v_work v) → v_out2 v = None →
    0 <= outpos → 0 < count → outpos + count < 2 ^ 31 →
    outpos + count <= Z.of_nat (length (v_out v)) →
    wp (leaf_call b n outpos count sub_r v) (λ '(res, v'),
      wf_work m (v_work v') ∧ same_below outpos (v_out v) (v_out v')
      ∧ (outpos < res → ∃ lf, leaf_at b (v_out v') outpos lf)).

(** One attempt at the replica of position [outpos]. *)
Section attempt.
Context (outpos count : Z).
Hypothesis Hpos : 0 <= outpos.
Hypothesis Hcount : 0 < count.
Hypothesis Hsmall : outpos + count < 2 ^ 31.

Definition vec_fits (v : vectors) : Prop :=
  outpos + count <= Z.of_nat (length (v_out v))
  ∧ (recurse_to_leaf = true → ∃ l, v_out2 v = Some l ∧ outpos + count <= Z.of_nat (length l)).

Lemma vec_fits_keeps v v' : vec_keeps m outpos v v' → vec_fits v → vec_fits v'.
Proof.
  intros (_ & Ho & H2) [Hf Hf2]. split; [by rewrite Ho|]. intros Hr.
  destruct (Hf2 Hr) as (l & Hl & Hlen). rewrite Hl in H2.
  destruct (v_out2 v') as [l'|]; [|done]. exists l'. split; [done|]. destruct H2 as [-> _]. done.
Qed.

(** The leaf that goes with a chosen item. *)
Definition leaf_for (item : Z) (v : vectors) : Prop :=
  recurse_to_leaf = true → ∃ l lf, v_out2 v = Some l
    ∧ ((0 <= item ∧ lf = item ∧ l !! Z.to_nat outpos = Some lf)
       ∨ (item < 0 ∧ ∃ b, bucket_at m item = Ret b ∧ leaf_at b l outpos lf)).

(** A replica fit to be stored at [outpos]. *)
Definition replica_ok (item : Z) (v : vectors) : Prop :=
  below m bucket item ∧ has_type env item type ∧ (type = 0 → in_cluster env item)
  ∧ absent_below outpos (v_out v) item ∧ leaf_for item v.

Lemma firstn_leaf_wp r item t v :
  recurse_to_leaf = true → has_type env item t → wf_work m (v_work v) → vec_fits v →
  wp (firstn_leaf env tun leaf_call outpos count r item v) (λ '(reject, v'),
    vec_keeps m outpos v v' ∧ (reject = false → leaf_for item v')).
Proof.
  intros Hr Htype Hw [_ Hfit]. destruct (Hfit Hr) as (l & Hl & Hlen). unfold firstn_leaf.
  rewrite Hl. cbn [deref mbind outcome_bind].
  destruct Htype as [(Hdev & _)|(Hneg & _ & b & Hb & Hid & _ & Hat)].
  - rewrite (proj2 (Z.ltb_ge _ _)) by lia. apply wp_bind, wp_aset; [lia|]. cbn [wp]. split.
    + split_and!; [done..|]. rewrite Hl. apply same_below_insert. lia.
    + intros _ _. eexists _, item. split; [done|]. left. split_and!; [lia|done|].
      apply list_lookup_insert_eq. lia.
  - rewrite (proj2 (Z.ltb_lt _ _)) by lia.
    assert (Hsub : wp (if nonzero (vary_r tun) then shift_right r (u32 (vary_r tun - 1)) else Ret 0)
      (λ _, True)).
    { unfold nonzero, shift_right. destruct (Z.eqb_spec (vary_r tun) 0); [done|].
      cbn [negb]. rewrite u32_small by lia. by rewrite (proj2 (Z.ltb_lt _ 32)) by lia. }
    apply wp_bind. eapply wp_mono; [exact Hsub|]. intros sub_r _. rewrite Hat.
    cbn [mbind outcome_bind]. apply wp_bind.
    eapply wp_mono; [apply (Hleaf Hr); [done|done|done|done|done|done|cbn [v_out]; lia]|].
    intros [res v'] (Hw' & Hsame & Hfound). cbn [v_out] in Hsame. cbn [wp]. split.
    + split_and!; [done..|]. by rewrite Hl.
    + intros Hres _. destruct (Z.leb_spec res outpos) as [|Hlt]; [done|].
      destruct (Hfound Hlt) as (lf & Hlf). eexists _, lf. split; [done|].
      right. split; [done|]. by exists b.
Qed.

Lemma firstn_judge_wp r item v :
  below m bucket item → has_type env item type → wf_work m (v_work v) → vec_fits v →
  wp (firstn_judge env tun leaf_call recurse_to_leaf outpos count r item type v)
    (λ '(verdict, v'), vec_keeps m outpos v v' ∧ ∃ reject collide,
       verdict = Judged item reject collide
       ∧ (reject || collide = false → replica_ok item v')).
Proof.
  intros Hbelow Htype Hw Hfit. unfold firstn_judge. apply wp_bind.
  eapply wp_mono; [apply collides_wp; [done|destruct Hfit; lia]|]. intros collide Hcoll.
  apply wp_bind.
  assert (Hl : wp (if negb collide && recurse_to_leaf
       then firstn_leaf env tun leaf_call outpos count r item v else Ret (false, v))
     (λ '(reject, v'), vec_keeps m outpos v v'
        ∧ (reject || collide = false → leaf_for item v'))).
  { destruct (negb collide && recurse_to_leaf) eqn:Hb.
    - apply andb_true_iff in Hb as [Hc Hr].
      eapply wp_mono; [by eapply firstn_leaf_wp|]. intros [[] v'] [Hk Hf]; split; try done.
      intros _. by apply Hf.
    - split; [by apply vec_keeps_refl|]. intros Hc Hr. destruct collide; [done|].
      rewrite Hr in Hb. done. }
  eapply wp_mono; [exact Hl|]. intros [reject v'] [Hkeep Hleafok].
  assert (Hout : wp (if negb reject && negb collide && (type =? 0) then out_of_cluster env item
       else Ret reject) (λ reject', reject' || collide = false →
         reject || collide = false ∧ (type = 0 → in_cluster env item))).
  { destruct reject, collide; cbn [negb andb]; try done.
    destruct (Z.eqb_spec type 0) as [Ht|Ht].
    - destruct Htype as [[Hdev _]|(_ & Hne & _)]; [|done].
      pose proof (out_of_cluster_wp env rank Henv item ltac:(lia)) as Ho.
      apply wp_exists in Ho as (o & Ho & _). unfold in_cluster. rewrite Ho. cbn [wp].
      destruct o; [done|]. done.
    - cbn [wp]. done. }
  apply wp_bind. eapply wp_mono; [exact Hout|]. intros reject' Hrej. cbn [wp].
  split; [done|]. exists reject', collide. split; [done|]. intros Hacc.
  destruct (Hrej Hacc) as [Hacc' Hin]. split_and!; [done..| |by apply Hleafok].
  destruct Hkeep as (_ & -> & _). destruct collide; [by destruct reject|]. exact Hcoll.
Qed.

(** The bucket the descent has reached. *)
Definition under (in_ : crush_bucket) : Prop :=
  map_bucket m in_ ∧ ∀ item, below m in_ item → below m bucket item.

Lemma firstn_draw_wp rep ftotal flocal in_ v :
  under in_ → wf_work m (v_work v) → vec_fits v →
  wp (firstn_draw env tun leaf_call type recurse_to_leaf parent_r rep outpos count ftotal flocal in_ v)
    (λ '(verdict, v'), vec_keeps m outpos v v' ∧
       match verdict with
       | Bad_item => True
       | Descend b => under b ∧ (rank (b_id b) < rank (b_id in_))%nat
       | Judged item reject collide => reject || collide = false → replica_ok item v'
       end).
Proof.
  intros [Hin Hunder] Hw Hfit. unfold firstn_draw.
  pose proof (wfb_items _ (wfm_bucket _ _ (wf_env_map _ _ Henv) _ Hin)).
  destruct (Z.eqb_spec (b_size in_) 0) as [|Hne]; [split; [by apply vec_keeps_refl|done]|].
  apply wp_bind. eapply wp_mono; [apply (choose_item_wp env rank Henv); [done|lia|done|lia]|].
  intros [item work'] [Hitem Hwork']. cbn beta iota.
  set (v1 := Vectors work' (v_out v) (v_out2 v)).
  assert (Hk : vec_keeps m outpos v v1) by (split_and!; [done..|]; subst v1; cbn; by destruct (v_out2 v)).
  rewrite Z.geb_leb. destruct (Z.leb_spec (max_devices m) item) as [|Hdev]; [done|].
  apply wp_bind. eapply wp_mono; [by apply (item_type_wp env rank Henv in_)|].
  intros t Htype. destruct (Z.eqb_spec t type) as [->|Htne]; cbn [negb].
  - eapply wp_mono; [apply firstn_judge_wp; [by apply Hunder, below_item|done|done|
      by apply (vec_fits_keeps v)]|].
    intros [verdict v'] [Hk' (reject & collide & -> & Hok)]. split; [|done].
    by apply (vec_keeps_trans _ _ _ v1).
  - destruct Htype as [([Hge _] & _)|(Hneg & _)].
    + rewrite Z.geb_leb, (proj2 (Z.leb_le _ _)) by lia. done.
    + destruct (item_bucket env rank Henv in_ item Hin Hitem Hneg)
        as (b & Hlook & Hb & Hid & Hat & Hmax & Hr).
      rewrite !Z.geb_leb, !(proj2 (Z.leb_gt _ _)) by lia. cbn [orb].
      rewrite Hat. cbn [mbind outcome_bind wp]. split; [done|]. split.
      * split; [done|]. intros item' Hb'. apply Hunder. by apply (below_bucket _ _ item b).
      * by rewrite Hid.
Qed.

Lemma firstn_retry_spec in_ collide ftotal flocal :
  map_bucket m in_ →
  match firstn_retry tun tries in_ collide ftotal flocal with
  | None => flocal <= B
  | Some Retry_descent => ftotal < tries
  | Some Skip_rep => True
  | Some (Got _) => False
  end.
Proof.
  intros Hin. destruct Hfallback as [Hf0 Hf]. specialize (Hf in_ Hin).
  pose proof (wfb_items _ (wfm_bucket _ _ (wf_env_map _ _ Henv) _ Hin)).
  unfold firstn_retry. rewrite u32_small by lia.
  destruct (collide && (flocal <=? local_retries tun)) eqn:H1; [bool_to_prop; lia|].
  destruct ((local_fallback_retries tun >? 0)
    && (flocal <=? b_size in_ + local_fallback_retries tun)) eqn:H2; [bool_to_prop; lia|].
  by destruct (Z.ltb_spec ftotal tries).
Qed.

Definition bucket_measure (s : crush_bucket * Z * Z * vectors) : nat :=
  let '(in_, _, flocal, _) := s in
  (rank (b_id in_) * (Z.to_nat B + 2) + Z.to_nat (B + 1 - flocal))%nat.

Lemma bucket_measure_descend (r r' k f : nat) :
  (r' < r)%nat → (f < k)%nat → (r' * k + f < r * k)%nat.
Proof. nia. Qed.

Lemma firstn_bucket_loop_wp rep ftotal0 v0 :
  0 <= ftotal0 < 2 ^ 31 → wf_work m (v_work v0) → vec_fits v0 →
  wp (loop fuel (firstn_bucket_step env tun leaf_call type tries recurse_to_leaf parent_r
        rep outpos count) (bucket, ftotal0, 0, v0))
    (λ '(next, ftotal, v), vec_keeps m outpos v0 v ∧
       match next with
       | Retry_descent => ftotal0 < ftotal < tries
       | Skip_rep => True
       | Got item => replica_ok item v
       end).
Proof.
  intros Hft Hw Hfit.
  apply (wp_loop (λ '(in_, ftotal, flocal, v), under in_ ∧ 0 <= flocal <= B
      ∧ ftotal = ftotal0 + flocal ∧ vec_keeps m outpos v0 v) bucket_measure).
  - intros [[[in_ ftotal] flocal] v] (Hunder & Hfl & -> & Hk). unfold firstn_bucket_step.
    apply wp_bind. eapply wp_mono;
      [by apply firstn_draw_wp; [|apply Hk|apply (vec_fits_keeps v0)]|].
    intros [verdict v'] [Hk' Hv]. pose proof (vec_keeps_trans _ _ _ _ _ Hk Hk') as Hk2.
    destruct verdict as [|b|item reject collide].
    + done.
    + destruct Hv as [Hub Hr]. split; [done|]. unfold bucket_measure.
      pose proof (bucket_measure_descend _ _ (Z.to_nat B + 2) (Z.to_nat (B + 1 - flocal)) Hr).
      lia.
    + destruct (reject || collide) eqn:Hrej; [|by split; [|apply Hv]].
      rewrite !u32_small by lia.
      pose proof (firstn_retry_spec in_ collide (ftotal0 + flocal + 1) (flocal + 1) ltac:(apply Hunder)) as Hs.
      destruct (firstn_retry _ _ _ _ _ _) as [next|]; cbn [wp].
      * split; [done|]. destruct next; try done. lia.
      * split; [split_and!; (done || lia)|]. unfold bucket_measure. lia.
  - split; [by split|]. split_and!; [lia|lia|lia|by apply vec_keeps_refl].
  - unfold bucket_measure. pose proof (Hrank bucket Hbucket). destruct Hfuel as [Hf _]. nia.
Qed.

Lemma firstn_descent_loop_wp rep v0 :
  wf_work m (v_work v0) → vec_fits v0 →
  wp (loop fuel (firstn_descent_step env tun leaf_call fuel bucket type tries recurse_to_leaf
        parent_r rep outpos count) (0, v0))
    (λ '(got, v), vec_keeps m outpos v0 v ∧
       match got with Some item => replica_ok item v | None => True end).
Proof.
  intros Hw Hfit.
  apply (wp_loop (λ '(ftotal, v), (ftotal = 0 ∨ 0 < ftotal < tries) ∧ vec_keeps m outpos v0 v)
    (λ '(ftotal, v), Z.to_nat (tries - ftotal))).
  - intros [ftotal v] [Hft Hk]. unfold firstn_descent_step. apply wp_bind.
    eapply wp_mono; [apply firstn_bucket_loop_wp; [lia|apply Hk|by apply (vec_fits_keeps v0)]|].
    intros [[next ftotal'] v'] [Hk' Hnext].
    pose proof (vec_keeps_trans _ _ _ _ _ Hk Hk') as Hk2.
    destruct next as [| |item]; cbn [wp]; [|done|done]. split; [split; [lia|done]|lia].
  - split; [by left|by apply vec_keeps_refl].
  - destruct Hfuel. lia.
Qed.
End attempt.

(** ** The replicas of one call *)

(** Position [i] of the output. *)
Definition out_entry (v : vectors) (i : Z) : Prop :=
  ∃ item, v_out v !! Z.to_nat i = Some item ∧ below m bucket item ∧ has_type env item type
    ∧ (type = 0 → in_cluster env item) ∧ absent_below i (v_out v) item.

(** Its leaf: the item itself, or a device of the cluster below it that no lower position has. *)
Definition leaf_entry (v : vectors) (i : Z) : Prop :=
  ∃ item l lf, v_out v !! Z.to_nat i = Some item ∧ v_out2 v = Some l
    ∧ ((0 <= item ∧ lf = item ∧ l !! Z.to_nat i = Some lf)
       ∨ (item < 0 ∧ ∃ b, bucket_at m item = Ret b ∧ leaf_at b l i lf)).

Definition out2_same (n : Z) (v v' : vectors) : Prop :=
  match v_out2 v, v_out2 v' with
  | None, None => True
  | Some l, Some l' => same_below n l l'
  | _, _ => False
  end.

Record chosen (v0 v : vectors) (from to : Z) : Prop := {
  ch_work : wf_work m (v_work v);
  ch_below : same_below from (v_out v0) (v_out v);
  ch_out : ∀ i, from <= i < to → out_entry v i;
  ch_out2 : out2_same from v0 v;
  ch_leaf : recurse_to_leaf = true → ∀ i, from <= i < to → leaf_entry v i }.

Lemma out_entry_store v v' outpos item i :
  vec_keeps m outpos v v' → 0 <= i < outpos → out_entry v i →
  out_entry (Vectors (v_work v') (<[Z.to_nat outpos := item]> (v_out v')) (v_out2 v')) i.
Proof.
  intros (_ & Ho & _) Hi (it & Hit & Hb & Ht & Hc & Ha). exists it. cbn [v_out]. rewrite Ho.
  destruct (same_below_insert outpos (v_out v) item ltac:(lia)) as [_ Hs].
  rewrite Hs by lia. split_and!; [done..|].
  eapply absent_below_same; [|exact Ha]. apply (same_below_le outpos); [lia|].
  apply same_below_insert. lia.
Qed.

Lemma leaf_entry_store v v' outpos item i :
  vec_keeps m outpos v v' → 0 <= i < outpos → leaf_entry v i →
  leaf_entry (Vectors (v_work v') (<[Z.to_nat outpos := item]> (v_out v')) (v_out2 v')) i.
Proof.
  intros (_ & Ho & H2) Hi (it & l & lf & Hit & Hl & Hlf). rewrite Hl in H2.
  destruct (v_out2 v') as [l'|] eqn:Hl'; [|done]. exists it, l', lf. cbn [v_out v_out2].
  destruct (same_below_insert outpos (v_out v) item ltac:(lia)) as [_ Hs].
  rewrite Ho, Hs by lia. split_and!; [done..|]. destruct H2 as [L2 H2].
  destruct Hlf as [(Hge & -> & Hlf)|(Hneg & b & Hat & (Hlf & [? ?] & Hc & Hb & Ha))].
  - left. split_and!; [done..|]. by rewrite H2 by lia.
  - right. split; [done|]. exists b. split; [done|]. split_and!; [by rewrite H2 by lia|done..|].
    eapply absent_below_same; [|exact Ha]. apply (same_below_le outpos); [lia|done].
Qed.

Lemma out2_same_trans n n' v1 v2 v3 :
  n <= n' → out2_same n v1 v2 → out2_same n' v2 v3 → out2_same n v1 v3.
Proof.
  unfold out2_same. intros Hn H1 H2.
  destruct (v_out2 v1), (v_out2 v2), (v_out2 v3); try done.
  eapply same_below_trans; [exact H1|]. by eapply same_below_le.
Qed.

Lemma chosen_keeps v0 v v' from outpos :
  from <= outpos → 0 <= from → vec_keeps m outpos v v' → chosen v0 v from outpos →
  chosen v0 v' from outpos.
Proof.
  intros Hle Hfrom Hk [Hw Hb Ho H2 Hl]. pose proof Hk as (Hw' & Hout & Hout2). split.
  - done.
  - by rewrite Hout.
  - intros i Hi. destruct (Ho i Hi) as (it & ?). exists it. by rewrite Hout.
  - by apply (out2_same_trans from outpos _ v).
  - intros Hr i Hi. destruct (Hl Hr i Hi) as (it & l & lf & Hit & Hl2 & Hlf).
    rewrite Hl2 in Hout2. destruct (v_out2 v') as [l'|] eqn:Hl'; [|done].
    exists it, l', lf. rewrite Hout. split_and!; [done..|]. destruct Hout2 as [L2 Hs].
    destruct Hlf as [(Hge & -> & Hlf)|(Hneg & b & Hat & (Hlf & [? ?] & Hc & Hbl & Ha))].
    + left. split_and!; [done..|]. by rewrite Hs by lia.
    + right. split; [done|]. exists b. split; [done|]. split_and!; [by rewrite Hs by lia|done..|].
      eapply absent_below_same; [|exact Ha]. by apply (same_below_le outpos); [lia|].
Qed.

(** Storing an accepted replica. *)
Lemma chosen_store v0 v v' from outpos count item :
  0 <= from <= outpos → 0 < count → vec_fits outpos count v' →
  vec_keeps m outpos v v' → replica_ok outpos item v' → chosen v0 v from outpos →
  chosen v0 (Vectors (v_work v') (<[Z.to_nat outpos := item]> (v_out v')) (v_out2 v'))
    from (outpos + 1).
Proof.
  intros Hfrom Hc [Hfit _] Hk (Hb & Ht & Hin & Ha & Hleafok) Hch.
  pose proof (chosen_keeps v0 v v' from outpos ltac:(lia) ltac:(lia) Hk Hch) as [_ Hbel' _ H2' _].
  destruct Hch as [Hw Hbel Ho H2 Hl].
  assert (Hself : <[Z.to_nat outpos := item]> (v_out v') !! Z.to_nat outpos = Some item)
    by (apply list_lookup_insert_eq; lia).
  split.
  - apply Hk.
  - eapply same_below_trans; [exact Hbel'|]. apply (same_below_le outpos); [lia|].
    apply same_below_insert. lia.
  - intros i Hi. destruct (Z.eq_dec i outpos) as [->|].
    + exists item. cbn [v_out]. split_and!; [done..|].
      eapply absent_below_same; [|exact Ha]. apply same_below_insert. lia.
    + apply (out_entry_store v); [done|lia|apply Ho; lia].
  - done.
  - intros Hr i Hi. destruct (Z.eq_dec i outpos) as [->|].
    + destruct (Hleafok Hr) as (l & lf & Hl2 & Hlf). by exists item, l, lf.
    + apply (leaf_entry_store v); [done|lia|apply Hl; [done|lia]].
Qed.

Lemma firstn_body_wp outpos0 count0 v0 :
  0 <= outpos0 → 0 <= count0 → outpos0 + count0 < 2 ^ 31 →
  wf_work m (v_work v0) → vec_fits outpos0 count0 v0 →
  wp (firstn_body env tun leaf_call fuel bucket numrep type tries recurse_to_leaf parent_r
        outpos0 count0 v0)
    (λ '(outpos, v), outpos0 <= outpos <= outpos0 + count0 ∧ chosen v0 v outpos0 outpos).
Proof.
  intros Hop Hct Hlt Hw Hfit. unfold firstn_body.
  apply (wp_loop (λ '(rep, outpos, count, v), 0 <= rep ∧ outpos0 <= outpos ∧ 0 <= count
      ∧ outpos + count = outpos0 + count0 ∧ vec_fits outpos count v
      ∧ chosen v0 v outpos0 outpos) (λ '(rep, _, _, _), Z.to_nat (numrep - rep))).
  - intros [[[rep outpos] count] v] (Hrep & Hge & Hc & Hsum & Hf & Hch). unfold firstn_rep_step.
    rewrite Z.gtb_ltb. destruct ((rep <? numrep) && (0 <? count)) eqn:Hb; [|split; [lia|done]].
    bool_to_prop. apply wp_bind.
    eapply wp_mono; [apply firstn_descent_loop_wp; [lia|lia|lia|apply Hch|done]|].
    intros [[item|] v'] [Hk Hok].
    + pose proof (vec_fits_keeps _ _ _ _ Hk Hf) as Hf'.
      apply wp_bind, wp_aset; [destruct Hf'; lia|]. cbn [wp]. split; [|lia].
      split_and!; [lia..| |by apply (chosen_store v0 v v' outpos0 outpos count)]. split.
      * cbn [v_out]. rewrite length_insert. destruct Hf'; lia.
      * intros Hr. destruct Hf' as [_ Hf']. destruct (Hf' Hr) as (l & ? & ?). exists l.
        split; [done|lia].
    + cbn [wp]. split; [|lia]. split_and!; [lia..| |].
      * by apply (vec_fits_keeps _ _ v).
      * by apply (chosen_keeps v0 v); [lia|lia| |].
  - split_and!; [destruct (nonzero _); lia|lia|lia|lia|exact Hfit|].
    split; [done|done|intros ? ?; lia| |intros _ ? ?; lia].
    unfold out2_same. by destruct (v_out2 v0).
  - destruct (nonzero (stable tun)); lia.
Qed.
End firstn_facts.

(** ** The whole call, with its recursion *)

Record firstn_limits (env : choose_env) (rank : Z → nat) (tun : firstn_tunables) (fuel : nat)
    (tries recurse_tries : Z) : Prop := {
  fl_vary : 0 <= vary_r tun <= 32;
  fl_tries : 0 <= tries < 2 ^ 31 ∧ 0 <= recurse_tries < 2 ^ 31;
  fl_fuel : ∃ (B : Z) (R : nat),
    (0 <= local_retries tun <= B ∧ B < 2 ^ 30)
    ∧ (0 <= local_fallback_retries tun
       ∧ ∀ b, map_bucket (e_map env) b → b_size b + local_fallback_retries tun <= B)
    ∧ (∀ b, map_bucket (e_map env) b → (rank (b_id b) <= R)%nat)
    ∧ (S R * (Z.to_nat B + 2) < fuel)%nat
    ∧ (Z.to_nat tries + 1 < fuel)%nat ∧ (Z.to_nat recurse_tries + 1 < fuel)%nat }.

Section firstn_call.
Context (env : choose_env) (rank : Z → nat) (Henv : wf_env env rank).
#[local] Abbreviation m := (e_map env).
Context (tun : firstn_tunables) (fuel : nat) (tries recurse_tries : Z).
Hypothesis Hlim : firstn_limits env rank tun fuel tries recurse_tries.

Lemma crush_choose_firstn_leaf_wp b n outpos count sub_r v :
  map_bucket m b → wf_work m (v_work v) → v_out2 v = None →
  0 <= outpos → 0 < count → outpos + count < 2 ^ 31 →
  outpos + count <= Z.of_nat (length (v_out v)) →
  wp (crush_choose_firstn_leaf env tun fuel recurse_tries b n outpos count sub_r v)
    (λ '(res, v'), wf_work m (v_work v') ∧ same_below outpos (v_out v) (v_out v')
      ∧ (outpos < res → ∃ lf, leaf_at env b (v_out v') outpos lf)).
Proof.
  intros Hb Hw H2 Hop Hc Hsmall Hlen.
  destruct Hlim as [Hvary [_ Ht] (B & R & HB & Hf & HR & F1 & _ & F3)].
  eapply wp_mono.
  - apply (firstn_body_wp env rank Henv tun (no_call) fuel b n 0 recurse_tries false sub_r B R);
      try done; try lia.
  - intros [res v'] [Hres [Hw' Hs Ho _ _]]. split_and!; [done..|]. intros Hlt.
    destruct (Ho outpos ltac:(lia)) as (lf & Hlf & Hbel & Hty & Hin & Habs). exists lf.
    destruct Hty as [[? _]|(_ & ? & _)]; [|done]. split_and!; try done; try lia. by apply Hin.
Qed.

Lemma crush_choose_firstn_wp bucket numrep type outpos out_size recurse_to_leaf parent_r v :
  map_bucket m bucket → wf_work m (v_work v) →
  0 <= outpos → 0 <= out_size → outpos + out_size < 2 ^ 31 →
  vec_fits recurse_to_leaf outpos out_size v →
  wp (crush_choose_firstn env tun fuel bucket numrep type outpos out_size tries recurse_tries
        recurse_to_leaf parent_r v)
    (λ '(n, v'), outpos <= n <= outpos + out_size
       ∧ chosen env bucket type recurse_to_leaf v v' outpos n).
Proof.
  intros Hb Hw Hop Hsz Hlt Hfit.
  pose proof Hlim as [Hvary [Ht _] (B & R & HB & Hf & HR & F1 & F2 & _)].
  apply (firstn_body_wp env rank Henv tun _ fuel bucket numrep type tries recurse_to_leaf
    parent_r B R); try done.
  intros _ b n op ct sub_r v' ? ? ? ? ? ? ?. by apply crush_choose_firstn_leaf_wp.
Qed.
End firstn_call.

(** ** Distinctness, as lists *)

Lemma absent_NoDup (l : list Z) (n : Z) :
  0 <= n → (∀ i, 0 <= i < n → ∃ a, l !! Z.to_nat i = Some a ∧ absent_below i l a) →
  NoDup (take (Z.to_nat n) l) ∧ Z.of_nat (length (take (Z.to_nat n) l)) = n.
Proof.
  intros Hn H. split.
  - apply NoDup_alt. intros i j a Hi Hj.
    pose proof (lookup_lt_Some _ _ _ Hi) as Li. pose proof (lookup_lt_Some _ _ _ Hj) as Lj.
    rewrite length_take in Li, Lj.
    rewrite lookup_take_lt in Hi by lia. rewrite lookup_take_lt in Hj by lia.
    assert (Hne : ∀ i j, (i < j < Z.to_nat n)%nat → l !! i = Some a → l !! j = Some a → False).
    { clear i j Hi Hj Li Lj. intros i j Hij Hi Hj. destruct (H (Z.of_nat j) ltac:(lia)) as (a' & Ha & Habs).
      rewrite Nat2Z.id, Hj in Ha. injection Ha as <-. apply (Habs (Z.of_nat i)); [lia|].
      by rewrite Nat2Z.id. }
    destruct (Nat.lt_trichotomy i j) as [?|[?|?]]; [|done|]; exfalso.
    + apply (Hne i j); [lia|done..].
    + apply (Hne j i); [lia|done..].
  - rewrite length_take. destruct (Z.eq_dec n 0) as [->|]; [lia|].
    destruct (H (n - 1) ltac:(lia)) as (a & Ha & _). apply lookup_lt_Some in Ha. lia.
Qed.

Lemma Forall_take (P : Z → Prop) (l : list Z) (n : Z) :
  (∀ i, 0 <= i < n → ∃ a, l !! Z.to_nat i = Some a ∧ P a) → Forall P (take (Z.to_nat n) l).
Proof.
  intros H. apply Forall_lookup. intros i a Ha.
  pose proof (lookup_lt_Some _ _ _ Ha) as L. rewrite length_take in L.
  rewrite lookup_take_lt in Ha by lia. destruct (H (Z.of_nat i) ltac:(lia)) as (a' & Ha' & HP).
  rewrite Nat2Z.id in Ha'. congruence.
Qed.

Lemma Forall2_take (P : Z → Z → Prop) (l k : list Z) (n : Z) :
  0 <= n →
  (∀ i, 0 <= i < n → ∃ a b, l !! Z.to_nat i = Some a ∧ k !! Z.to_nat i = Some b ∧ P a b) →
  Forall2 P (take (Z.to_nat n) l) (take (Z.to_nat n) k).
Proof.
  intros Hn H. apply Forall2_same_length_lookup. split.
  - rewrite !length_take. destruct (Z.eq_dec n 0) as [->|]; [done|].
    destruct (H (n - 1) ltac:(lia)) as (a & b & Ha & Hb & _).
    apply lookup_lt_Some in Ha, Hb. lia.
  - intros i a b Ha Hb. pose proof (lookup_lt_Some _ _ _ Ha) as L. rewrite length_take in L.
    rewrite lookup_take_lt in Ha by lia. rewrite lookup_take_lt in Hb by lia.
    destruct (H (Z.of_nat i) ltac:(lia)) as (a' & b' & Ha' & Hb' & HP).
    rewrite Nat2Z.id in Ha', Hb'. congruence.
Qed.

(** The leaf of a replica: the replica itself, or a device below it. *)
Definition leaf_of (env : choose_env) (item lf : Z) : Prop :=
  0 <= lf < max_devices (e_map env) ∧ in_cluster env lf
  ∧ (item = lf ∨ ∃ b, bucket_at (e_map env) item = Ret b ∧ below (e_map env) b lf).

(** The outcome of a call from position 0: [n] distinct replicas of the type, below the bucket,
    devices among them not out; and as many distinct leaves below them. *)
Definition replicas_ok (env : choose_env) (bucket : crush_bucket) (type : Z)
    (recurse_to_leaf : bool) (n : Z) (v : vectors) : Prop :=
  let got := take (Z.to_nat n) (v_out v) in
  Z.of_nat (length got) = n ∧ NoDup got
  ∧ Forall (λ item, below (e_map env) bucket item ∧ has_type env item type
              ∧ (type = 0 → in_cluster env item)) got
  ∧ (recurse_to_leaf = true → ∃ out2, v_out2 v = Some out2
       ∧ NoDup (take (Z.to_nat n) out2)
       ∧ Forall2 (leaf_of env) got (take (Z.to_nat n) out2)).

Lemma chosen_replicas_ok env bucket type recurse_to_leaf v0 v n :
  0 <= n → chosen env bucket type recurse_to_leaf v0 v 0 n →
  (recurse_to_leaf = true → v_out2 v ≠ None) →
  replicas_ok env bucket type recurse_to_leaf n v.
Proof.
  intros Hn [_ _ Ho _ Hl] Hsome. unfold replicas_ok. cbv zeta.
  destruct (absent_NoDup (v_out v) n Hn) as [Hnd Hlen].
  { intros i Hi. destruct (Ho i Hi) as (item & ? & _ & _ & _ & ?). by exists item. }
  split_and!; [done|done| |].
  - apply Forall_take. intros i Hi. destruct (Ho i Hi) as (item & ? & ? & ? & ? & _).
    by exists item.
  - intros Hr. specialize (Hl Hr). specialize (Hsome Hr).
    destruct (v_out2 v) as [out2|] eqn:H2; [|done]. exists out2. split; [done|].
    assert (Hent : ∀ i, 0 <= i < n → ∃ item lf, v_out v !! Z.to_nat i = Some item
      ∧ out2 !! Z.to_nat i = Some lf ∧ leaf_of env item lf ∧ (0 <= item ∧ lf = item
        ∨ type ≠ 0 ∧ absent_below i out2 lf)).
    { intros i Hi. destruct (Hl i Hi) as (item & l & lf & Hit & Hl2 & Hlf).
      rewrite H2 in Hl2. injection Hl2 as <-.
      destruct (Ho i Hi) as (item' & Hit' & _ & Hty & Hin & _).
      assert (item' = item) as -> by congruence. exists item, lf.
      destruct Hlf as [(Hge & -> & Hlf)|(Hneg & b & Hat & (Hlf & ? & ? & ? & ?))].
      - destruct Hty as [[? Ht]|[? _]]; [|lia]. split_and!; [done|done| |by left].
        split; [lia|]. split; [by apply Hin|by left].
      - destruct Hty as [[? _]|(_ & ? & _)]; [lia|]. split_and!; [done|done| |by right].
        split; [lia|]. split; [done|right; by exists b]. }
    split.
    + destruct (Z.eq_dec type 0) as [Ht|Ht].
      * assert (Forall2 eq (take (Z.to_nat n) out2) (take (Z.to_nat n) (v_out v))) as Heq.
        { apply Forall2_take; [done|]. intros i Hi.
          destruct (Hent i Hi) as (item & lf & ? & ? & _ & [[_ ->]|[? _]]); [|done].
          by exists item, item. }
        apply list_eq_Forall2 in Heq. by rewrite Heq.
      * apply absent_NoDup; [done|]. intros i Hi.
        destruct (Hent i Hi) as (item & lf & Hit & ? & _ & [[? ->]|[_ ?]]); [|by exists lf].
        destruct (Ho i Hi) as (item' & Hit' & _ & [[_ ?]|[? _]] & _); [done|].
        rewrite Hit in Hit'. injection Hit' as ->. lia.
    + apply Forall2_take; [done|]. intros i Hi.
      destruct (Hent i Hi) as (item & lf & ? & ? & ? & _). by exists item, lf.
Qed.

(** * Properties *)

(** A root over two hosts of two devices each. *)
Definition ex_root : crush_bucket :=
  CrushBucket (-1) 2 CRUSH_BUCKET_STRAW2 0 0x40000 2 [-2; -3]
    (crush_bucket_straw2 [0x20000; 0x20000]).
Definition ex_host1 : crush_bucket :=
  CrushBucket (-2) 1 CRUSH_BUCKET_UNIFORM 0 0x20000 2 [0; 1] (crush_bucket_uniform 0x10000).
Definition ex_host2 : crush_bucket :=
  CrushBucket (-3) 1 CRUSH_BUCKET_LIST 0 0x20000 2 [2; 3]
    (crush_bucket_list [0x10000; 0x10000] [0x10000; 0x20000]).
Definition ex_rule : crush_rule :=
  CrushRule 3 (CrushRuleMask 0 1 1 10)
    [CrushRuleStep CRUSH_RULE_TAKE (-1) 0; CrushRuleStep CRUSH_RULE_CHOOSELEAF_FIRSTN 0 1;
     CrushRuleStep CRUSH_RULE_EMIT 0 0].
Definition ex_map : crush_map :=
  CrushMap [Some ex_root; Some ex_host1; Some ex_host2] [Some ex_rule] 3 1 4 0 0 50 1 1 1 120
    {[1 := chars "host"; 2 := chars "root"]}
    {[-1 := chars "default"; -2 := chars "host1"; -3 := chars "host2"]} ∅.
Definition ex_env : choose_env :=
  ChooseEnv ex_map [0x10000; 0x10000; 0; 0x10000] 4 42 None.
Definition ex_rank (id : Z) : nat := if id =? -1 then 1%nat else 0%nat.
Definition ex_tun : firstn_tunables := FirstnTunables 0 0 1 1.
Definition ex_workspace : crush_work :=
  [Some (CrushWorkBucket 0 0 [0; 0]); Some (CrushWorkBucket 0 0 [0; 0]);
   Some (CrushWorkBucket 0 0 [0; 0])].

Lemma ex_buckets i b : buckets ex_map !! i = Some (Some b) →
  (i = 0%nat ∧ b = ex_root) ∨ (i = 1%nat ∧ b = ex_host1) ∨ (i = 2%nat ∧ b = ex_host2).
Proof. destruct i as [|[|[|i]]]; intros [= <-]; auto. Qed.

Lemma ex_map_bucket b : map_bucket ex_map b → b = ex_root ∨ b = ex_host1 ∨ b = ex_host2.
Proof. intros [_ H]. apply ex_buckets in H. naive_solver. Qed.

Lemma wf_ex_map : wf_map ex_map ex_rank.
Proof.
  split.
  - done.
  - intros i b H. by apply ex_buckets in H as [[-> ->]|[[-> ->]|[-> ->]]].
  - intros b H. apply ex_map_bucket in H as [-> | [-> | ->]]; by split.
  - intros b H. by apply ex_map_bucket in H as [-> | [-> | ->]].
  - intros b item H Hitem Hneg. apply ex_map_bucket in H as [-> | [-> | ->]];
      cbn [b_items ex_root ex_host1 ex_host2] in Hitem; rewrite !elem_of_cons in Hitem;
      destruct Hitem as [->|[->|Hn]]; try lia; try (by inversion Hn).
    + split; [unfold ex_rank; simpl; lia|by exists ex_host1].
    + split; [unfold ex_rank; simpl; lia|by exists ex_host2].
Qed.

Lemma wf_ex_env : wf_env ex_env ex_rank.
Proof. split; [exact wf_ex_map|]. split; [simpl; lia|done]. Qed.

Lemma wf_ex_workspace : wf_work ex_map ex_workspace.
Proof.
  intros b H. apply ex_map_bucket in H as [-> | [-> | ->]];
    (eexists; split; [reflexivity|split; [done|by left]]).
Qed.

Lemma ex_limits tries : 0 <= tries <= 51 → firstn_limits ex_env ex_rank ex_tun 100 tries 1.
Proof.
  intros Ht. split; [simpl; lia|lia|]. exists 2, 1%nat. simpl local_retries.
  simpl local_fallback_retries. split_and!; try lia.
  - intros b H. apply ex_map_bucket in H as [-> | [-> | ->]]; simpl; lia.
  - intros b H. apply ex_map_bucket in H as [-> | [-> | ->]]; unfold ex_rank; simpl; lia.
Qed.

(** C16: first-n selection.  On a well-formed hierarchy without cycles, however many retries the
    tunables allow, choosing from position 0 ends, touches nothing outside its arrays, and
    returns at most [out_size] replicas: pairwise distinct, of the type asked for, below the
    bucket, none of them a device that is out; with a leaf asked for, as many pairwise distinct
    devices of the cluster, each below its replica.  The workspace stays valid. *)
Theorem crush_choose_firstn_distinct (env : choose_env) (rank : Z → nat) (tun : firstn_tunables)
    (fuel : nat) (bucket : crush_bucket) (numrep type out_size tries recurse_tries : Z)
    (recurse_to_leaf : bool) (parent_r : Z) (v : vectors)
    (Henv : wf_env env rank) (Hlim : firstn_limits env rank tun fuel tries recurse_tries)
    (Hbucket : map_bucket (e_map env) bucket) (Hwork : wf_work (e_map env) (v_work v))
    (Hsize : 0 <= out_size < 2 ^ 31) (Hfit : vec_fits recurse_to_leaf 0 out_size v) :
  wp (crush_choose_firstn env tun fuel bucket numrep type 0 out_size tries recurse_tries
        recurse_to_leaf parent_r v)
    (λ '(n, v'), 0 <= n <= out_size ∧ replicas_ok env bucket type recurse_to_leaf n v'
       ∧ wf_work (e_map env) (v_work v')).
Proof.
  eapply wp_mono; [apply (crush_choose_firstn_wp env rank Henv tun fuel tries recurse_tries Hlim); (done || lia)|].
  intros [n v'] [Hn Hch]. split; [lia|]. split; [|apply Hch].
  eapply chosen_replicas_ok; [lia|done|]. intros Hr H2.
  destruct Hfit as [_ Hf]. destruct (Hf Hr) as (l & Hl & _).
  pose proof (ch_out2 _ _ _ _ _ _ _ _ Hch) as Hs. unfold out2_same in Hs.
  by rewrite Hl, H2 in Hs.
Qed.

Lemma crush_choose_firstn_distinct_witness :
  wf_env ex_env ex_rank ∧ wf_work ex_map ex_workspace ∧
  wp (crush_choose_firstn ex_env ex_tun 100 ex_root 2 1 0 2 51 1 true 0
        (Vectors ex_workspace [0; 0] (Some [0; 0])))
    (λ '(n, v'), 0 <= n <= 2 ∧ replicas_ok ex_env ex_root 1 true n v'
       ∧ wf_work ex_map (v_work v')).
Proof.
  split; [exact wf_ex_env|]. split; [exact wf_ex_workspace|].
  apply (crush_choose_firstn_distinct ex_env ex_rank ex_tun 100 ex_root 2 1 2 51 1 true 0
    (Vectors ex_workspace [0; 0] (Some [0; 0])) wf_ex_env (ex_limits 51 ltac:(lia))).
  - by split.
  - exact wf_ex_workspace.
  - lia.
  - split; [simpl; lia|]. intros _. exists [0; 0]. split; [done|simpl; lia].
Defined.
