(* ===== verification/Indep.v ===== *)
(** * Descending the hierarchy, positionally stable (libceph/crush/mapper.c,
    [crush_choose_indep])

    Breadth-first rounds over the positions of the output; a position without a replica is
    [CRUSH_ITEM_NONE], and the replicas of the others do not move. *)
From S2P Require Import Prelude Hash Crush CrushLn Mapper Choose.

Section indep.
Context (env : choose_env).

Section indep_call.
(** The recursive call for a leaf: the bucket, [outpos], [parent_r], and the vectors, [out2]
    being its output. *)
Context (leaf_call : crush_bucket → Z → Z → vectors → outcome vectors).
Context (fuel : nat) (bucket : crush_bucket).
Context (numrep type : Z) (tries : Z) (recurse_to_leaf : bool) (parent_r : Z).
Context (outpos endpos : Z).

(** [if (out2) out2[rep] = v] *)
Definition set_out2 (v : vectors) (rep item : Z) : outcome vectors :=
  match v_out2 v with
  | None => Ret v
  | Some l => l ← aset l rep item; Ret (Vectors (v_work v) (v_out v) (Some l))
  end.
Definition set_out (v : vectors) (rep item : Z) : outcome vectors :=
  l ← aset (v_out v) rep item; Ret (Vectors (v_work v) l (v_out2 v)).
Definition set_both (v : vectors) (rep item : Z) : outcome vectors :=
  v ← set_out v rep item; set_out2 v rep item.

(** [r'=r+(n+1)*f_total] in a uniform bucket whose size [numrep] divides, [r'=r+n*f_total]
    elsewhere. *)
Definition indep_r (in_ : crush_bucket) (rep ftotal : Z) : outcome Z :=
  let r := s32 (rep + parent_r) in
  careful ← (if b_alg in_ =? CRUSH_BUCKET_UNIFORM then
               _ ← require (nonzero (u32 numrep));
               Ret (b_size in_ mod u32 numrep =? 0)
             else Ret false);
  Ret (s32 (r + (if careful : bool then numrep + 1 else numrep) * ftotal)).

(** What ends the innermost loop: nothing chosen in this round, no item ever for the position,
    or an item. *)
Inductive indep_next := Try_later | No_item | Placed (item : Z).

Definition indep_leaf (rep r item : Z) (v : vectors) : outcome (bool * vectors) :=
  out2 ← deref (v_out2 v);
  if item <? 0 then
    b ← bucket_at (e_map env) item;
    v' ← leaf_call b rep r (Vectors (v_work v) out2 None);
    lf ← aget (v_out v') rep;
    Ret (lf =? CRUSH_ITEM_NONE, Vectors (v_work v') (v_out v) (Some (v_out v')))
  else
    out2 ← aset out2 rep item;
    Ret (false, Vectors (v_work v) (v_out v) (Some out2)).

Definition indep_judge (rep r item itemtype : Z) (v : vectors) : outcome (indep_next * vectors) :=
  collide ← collides (v_out v) outpos endpos item;
  if collide : bool then Ret (Try_later, v) else
  '(no_leaf, v) ← (if recurse_to_leaf then indep_leaf rep r item v else Ret (false, v));
  if no_leaf : bool then Ret (Try_later, v) else
  out ← (if itemtype =? 0 then out_of_cluster env item else Ret false);
  if out : bool then Ret (Try_later, v) else Ret (Placed item, v).

(** One pass of [for (;;)], on [in] and the vectors. *)
Definition indep_bucket_step (rep ftotal : Z) (s : crush_bucket * vectors)
    : outcome ((crush_bucket * vectors) + (indep_next * vectors)) :=
  let '(in_, v) := s in
  r ← indep_r in_ rep ftotal;
  if b_size in_ =? 0 then Ret (inr (Try_later, v)) else
  '(item, work) ← choose_item env false in_ (v_work v) r outpos;
  let v := Vectors work (v_out v) (v_out2 v) in
  if item >=? max_devices (e_map env) then Ret (inr (No_item, v)) else
  itemtype ← item_type env item;
  if negb (itemtype =? type) then
    if (item >=? 0) || (-1 - item >=? max_buckets (e_map env)) then Ret (inr (No_item, v))
    else b ← bucket_at (e_map env) item; Ret (inl (b, v))
  else
    '(next, v) ← indep_judge rep r item itemtype v;
    Ret (inr (next, v)).

(** One position in a round, on [left] and the vectors. *)
Definition indep_rep_step (ftotal rep : Z) (s : Z * vectors) : outcome (Z * vectors) :=
  let '(left, v) := s in
  cur ← aget (v_out v) rep;
  if negb (cur =? CRUSH_ITEM_UNDEF) then Ret (left, v) else
  '(next, v) ← loop fuel (indep_bucket_step rep ftotal) (bucket, v);
  match next with
  | Try_later => Ret (left, v)
  | No_item => v ← set_both v rep CRUSH_ITEM_NONE; Ret (left - 1, v)
  | Placed item => v ← set_out v rep item; Ret (left - 1, v)
  end.

Definition indep_round_step (s : Z * Z * vectors) : outcome ((Z * Z * vectors) + vectors) :=
  let '(ftotal, left, v) := s in
  if (left >? 0) && (ftotal <? tries) then
    '(left, v) ← for_range (Z.to_nat (endpos - outpos)) outpos (indep_rep_step ftotal) (left, v);
    Ret (inl (u32 (ftotal + 1), left, v))
  else Ret (inr v).

(** Positions still undefined get no item. *)
Definition indep_finish_step (rep : Z) (v : vectors) : outcome vectors :=
  cur ← aget (v_out v) rep;
  v ← (if cur =? CRUSH_ITEM_UNDEF then set_out v rep CRUSH_ITEM_NONE else Ret v);
  match v_out2 v with
  | None => Ret v
  | Some l =>
      lf ← aget l rep;
      if lf =? CRUSH_ITEM_UNDEF then set_out2 v rep CRUSH_ITEM_NONE else Ret v
  end.

Definition indep_body (v : vectors) : outcome vectors :=
  v ← for_range (Z.to_nat (endpos - outpos)) outpos
        (λ rep v, set_both v rep CRUSH_ITEM_UNDEF) v;
  v ← loop fuel indep_round_step (0, endpos - outpos, v);
  for_range (Z.to_nat (endpos - outpos)) outpos indep_finish_step v.
End indep_call.

Definition no_indep_call (b : crush_bucket) (outpos parent_r : Z) (v : vectors)
    : outcome vectors := Undef.

Definition crush_choose_indep_leaf (fuel : nat) (numrep recurse_tries : Z) (b : crush_bucket)
    (outpos parent_r : Z) (v : vectors) : outcome vectors :=
  indep_body no_indep_call fuel b numrep 0 recurse_tries false parent_r outpos (outpos + 1) v.

Definition crush_choose_indep (fuel : nat) (bucket : crush_bucket)
    (left numrep type outpos tries recurse_tries : Z) (recurse_to_leaf : bool) (parent_r : Z)
    (v : vectors) : outcome vectors :=
  indep_body (crush_choose_indep_leaf fuel numrep recurse_tries) fuel bucket numrep type tries
    recurse_to_leaf parent_r outpos (outpos + left) v.
End indep.

(** ** Vectors *)

Definition same_outside (from to : Z) (l l' : list Z) : Prop :=
  length l' = length l ∧ ∀ i, 0 <= i → i < from ∨ to <= i → l' !! Z.to_nat i = l !! Z.to_nat i.

Lemma same_outside_refl from to l : same_outside from to l l.
Proof. done. Qed.
Lemma same_outside_trans from to l1 l2 l3 :
  same_outside from to l1 l2 → same_outside from to l2 l3 → same_outside from to l1 l3.
Proof. intros [L1 H1] [L2 H2]. split; [congruence|]. intros i Hi Ho. by rewrite H2, H1. Qed.
Lemma same_outside_wider from to from' to' l l' :
  from' <= from → to <= to' → same_outside from to l l' → same_outside from' to' l l'.
Proof. intros Hf Ht [L H]. split; [done|]. intros i Hi Ho. apply H; lia. Qed.
Lemma same_outside_insert i v l :
  0 <= i → same_outside i (i + 1) l (<[Z.to_nat i := v]> l).
Proof.
  intros Hi. split; [apply length_insert|]. intros j Hj Ho. apply list_lookup_insert_ne. lia.
Qed.
#[local] Hint Resolve same_outside_refl : core.

(** [out2] of [v'] is that of [v] but for positions [from] to [to]. *)
Definition out2_outside (from to : Z) (v v' : vectors) : Prop :=
  match v_out2 v, v_out2 v' with
  | None, None => True
  | Some l, Some l' => same_outside from to l l'
  | _, _ => False
  end.

Lemma out2_outside_refl from to v : out2_outside from to v v.
Proof. unfold out2_outside. by destruct (v_out2 v). Qed.
Lemma out2_outside_trans from to v1 v2 v3 :
  out2_outside from to v1 v2 → out2_outside from to v2 v3 → out2_outside from to v1 v3.
Proof.
  unfold out2_outside. destruct (v_out2 v1), (v_out2 v2), (v_out2 v3); try done.
  apply same_outside_trans.
Qed.
Lemma out2_outside_wider from to from' to' v v' :
  from' <= from → to <= to' → out2_outside from to v v' → out2_outside from' to' v v'.
Proof.
  unfold out2_outside. destruct (v_out2 v), (v_out2 v'); try done. apply same_outside_wider.
Qed.

(** An attempt at position [rep] leaves [out] alone and writes no other entry of [out2]. *)
Definition attempt_keeps (m : crush_map) (rep : Z) (v v' : vectors) : Prop :=
  wf_work m (v_work v') ∧ v_out v' = v_out v ∧ out2_outside rep (rep + 1) v v'.

Lemma attempt_keeps_refl m rep v : wf_work m (v_work v) → attempt_keeps m rep v v.
Proof. intros Hw. split_and!; [done..|apply out2_outside_refl]. Qed.
Lemma attempt_keeps_trans m rep v1 v2 v3 :
  attempt_keeps m rep v1 v2 → attempt_keeps m rep v2 v3 → attempt_keeps m rep v1 v3.
Proof.
  intros (W1 & O1 & H1) (W2 & O2 & H2). split_and!; [done|congruence|].
  by eapply out2_outside_trans.
Qed.

Definition placed (a : Z) : Prop := a ≠ CRUSH_ITEM_UNDEF ∧ a ≠ CRUSH_ITEM_NONE.

Section indep_facts.
Context (env : choose_env) (rank : Z → nat) (Henv : wf_env env rank).
#[local] Abbreviation m := (e_map env).
Hypothesis Hdevices : max_devices m <= CRUSH_ITEM_UNDEF.

(** A device of the cluster below [b]. *)
Definition leaf_ok (b : crush_bucket) (lf : Z) : Prop :=
  0 <= lf < max_devices m ∧ in_cluster env lf ∧ below m b lf.

Section call.
Context (leaf_call : crush_bucket → Z → Z → vectors → outcome vectors).
Context (fuel : nat) (bucket : crush_bucket).
Context (numrep type tries : Z) (recurse_to_leaf : bool) (parent_r : Z).
Context (outpos endpos : Z).
Hypothesis Hbucket : map_bucket m bucket.
Hypothesis Hnumrep : 0 < numrep < 2 ^ 31.
Hypothesis Htries : 0 <= tries < 2 ^ 31.
Hypothesis Hfuel : (∀ b, map_bucket m b → (rank (b_id b) < fuel)%nat) ∧ (Z.to_nat tries < fuel)%nat.
Hypothesis Hpos : 0 <= outpos ∧ outpos < 2 ^ 31.

Hypothesis Hleaf : recurse_to_leaf = true →
  ∀ b rep r v, map_bucket m b → wf_work m (v_work v) → v_out2 v = None →
    0 <= rep < Z.of_nat (length (v_out v)) → rep + 1 < 2 ^ 31 →
    wp (leaf_call b rep r v) (λ v',
      wf_work m (v_work v') ∧ same_outside rep (rep + 1) (v_out v) (v_out v')
      ∧ ∃ lf, v_out v' !! Z.to_nat rep = Some lf ∧ (lf = CRUSH_ITEM_NONE ∨ leaf_ok b lf)).

Definition indep_fits (v : vectors) : Prop :=
  endpos <= Z.of_nat (length (v_out v))
  ∧ match v_out2 v with
    | Some l => endpos <= Z.of_nat (length l)
    | None => recurse_to_leaf = false
    end.

Lemma indep_fits_keeps rep v v' : attempt_keeps m rep v v' → indep_fits v → indep_fits v'.
Proof.
  intros (_ & Ho & H2) [Hf Hf2]. split; [by rewrite Ho|]. unfold out2_outside in H2.
  destruct (v_out2 v), (v_out2 v'); try done. by destruct H2 as [-> _].
Qed.

(** The leaf beside an item. *)
Definition leaf_beside (item lf : Z) : Prop :=
  (0 <= item ∧ lf = item) ∨ (item < 0 ∧ ∃ b, bucket_at m item = Ret b ∧ leaf_ok b lf).

Definition out2_at (v : vectors) (i : Z) (P : Z → Prop) : Prop :=
  ∃ l lf, v_out2 v = Some l ∧ l !! Z.to_nat i = Some lf ∧ P lf.

(** What an attempt at position [rep] may end with. *)
Definition next_ok (rep : Z) (v : vectors) (next : indep_next) (v' : vectors) : Prop :=
  match next with
  | Placed item =>
      below m bucket item ∧ has_type env item type ∧ (type = 0 → in_cluster env item)
      ∧ (∀ i, outpos <= i < endpos → v_out v !! Z.to_nat i ≠ Some item)
      ∧ (recurse_to_leaf = true → out2_at v' rep (leaf_beside item))
  | No_item => True
  | Try_later =>
      recurse_to_leaf = true →
      v_out2 v' = v_out2 v ∨ out2_at v' rep (λ lf, 0 <= lf ∧ (type ≠ 0 → lf = CRUSH_ITEM_NONE))
  end.

Section at_position.
Context (rep : Z).
Hypothesis Hrep : outpos <= rep < endpos ∧ endpos < 2 ^ 31.

Lemma indep_leaf_wp r item t v :
  recurse_to_leaf = true → has_type env item t → wf_work m (v_work v) → indep_fits v →
  wp (indep_leaf env leaf_call rep r item v) (λ '(no_leaf, v'),
    attempt_keeps m rep v v'
    ∧ if no_leaf : bool then item < 0 ∧ out2_at v' rep (λ lf, lf = CRUSH_ITEM_NONE)
      else out2_at v' rep (leaf_beside item)).
Proof.
  intros Hr Htype Hw [_ Hfit]. unfold indep_leaf, out2_at.
  destruct (v_out2 v) as [l|] eqn:Hl; [|congruence]. cbn [deref mbind outcome_bind].
  destruct Htype as [(Hdev & _)|(Hneg & _ & b & Hb & Hid & _ & Hat)].
  - rewrite (proj2 (Z.ltb_ge _ _)) by lia. apply wp_bind, wp_aset; [lia|]. cbn [wp]. split.
    + split_and!; [done..|]. unfold out2_outside. rewrite Hl. apply same_outside_insert. lia.
    + eexists _, item. split; [done|]. split; [apply list_lookup_insert_eq; lia|].
      left. lia.
  - rewrite (proj2 (Z.ltb_lt _ _)), Hat by lia. cbn [mbind outcome_bind]. apply wp_bind.
    eapply wp_mono; [apply (Hleaf Hr); [done|done|done|cbn [v_out]; lia|lia]|].
    intros v' (Hw' & Hsame & lf & Hlook & Hlf). cbn [v_out] in Hsame.
    rewrite (aget_Some _ _ lf) by (done || lia). cbn [mbind outcome_bind wp]. split.
    + split_and!; [done..|]. unfold out2_outside. by rewrite Hl.
    + destruct (Z.eqb_spec lf CRUSH_ITEM_NONE) as [->|Hne].
      * split; [done|]. by eexists _, _.
      * eexists _, lf. split; [done|]. split; [done|]. right. split; [done|].
        exists b. split; [done|]. by destruct Hlf.
Qed.

Lemma indep_judge_wp r item v :
  below m bucket item → has_type env item type → wf_work m (v_work v) → indep_fits v →
  wp (indep_judge env leaf_call recurse_to_leaf outpos endpos rep r item type v)
    (λ '(next, v'), attempt_keeps m rep v v' ∧ next_ok rep v next v').
Proof.
  intros Hbelow Htype Hw Hfit. unfold indep_judge. apply wp_bind.
  eapply wp_mono; [apply collides_wp; [lia|destruct Hfit; lia]|].
  intros [] Hcoll; [split; [by apply attempt_keeps_refl|by left]|].
  assert (Hl : wp (if recurse_to_leaf then indep_leaf env leaf_call rep r item v else Ret (false, v))
    (λ '(no_leaf, v'), attempt_keeps m rep v v'
      ∧ if no_leaf : bool then next_ok rep v Try_later v'
        else recurse_to_leaf = true → out2_at v' rep (leaf_beside item))).
  { destruct (bool_dec recurse_to_leaf true) as [Hr|Hr%not_true_is_false].
    - rewrite Hr at 1. eapply wp_mono; [by apply (indep_leaf_wp r item type)|].
      intros [[] v'] [Hk Hn]; (split; [done|]); [|done]. intros _. right.
      destruct Hn as [_ (l & lf & ? & ? & ->)]. by exists l, CRUSH_ITEM_NONE.
    - rewrite Hr at 1. cbn [wp]. split; [by apply attempt_keeps_refl|]. congruence. }
  apply wp_bind. eapply wp_mono; [exact Hl|]. intros [[] v'] [Hk Hn]; [done|].
  assert (Hout : wp (if type =? 0 then out_of_cluster env item else Ret false)
    (λ out, if out : bool then type = 0 else type = 0 → in_cluster env item)).
  { destruct (Z.eqb_spec type 0) as [Ht|Ht]; [|cbn [wp]; intros ?; congruence].
    destruct Htype as [[Hdev _]|(_ & Hne & _)]; [|done].
    pose proof (out_of_cluster_wp env rank Henv item ltac:(lia)) as Ho.
    apply wp_exists in Ho as (o & Ho & _). unfold in_cluster. rewrite Ho. by destruct o. }
  apply wp_bind. eapply wp_mono; [exact Hout|]. intros [] Ho; cbn [wp]; (split; [done|]).
  - intros Hr. right. destruct (Hn Hr) as (l & lf & ? & ? & Hb). exists l, lf.
    split_and!; [done|done| |done]. destruct Htype as [[? _]|(_ & ? & _)]; [|done].
    destruct Hb as [[_ ->]|[? _]]; lia.
  - done.
Qed.

Lemma indep_r_wp in_ ftotal : wp (indep_r numrep parent_r in_ rep ftotal) (λ _, True).
Proof.
  unfold indep_r, require, nonzero. case_match; [|done].
  rewrite u32_small, (proj2 (Z.eqb_neq numrep 0)) by lia. done.
Qed.

(** The descent goes down one level per pass. *)
Lemma indep_bucket_loop_wp ftotal v0 :
  wf_work m (v_work v0) → indep_fits v0 →
  wp (loop fuel (indep_bucket_step env leaf_call numrep type recurse_to_leaf parent_r outpos endpos
        rep ftotal) (bucket, v0))
    (λ '(next, v), attempt_keeps m rep v0 v ∧ next_ok rep v0 next v).
Proof.
  intros Hw Hfit.
  apply (wp_loop (λ '(in_, v), under env bucket in_ ∧ attempt_keeps m rep v0 v ∧ v_out2 v = v_out2 v0)
    (λ '(in_, _), rank (b_id in_))); [| |by apply Hfuel].
  2: { split; [by split|]. split; [by apply attempt_keeps_refl|done]. }
  intros [in_ v] ([Hin Hunder] & Hk & H2). unfold indep_bucket_step.
  pose proof (wfb_items _ (wfm_bucket _ _ (wf_env_map _ _ Henv) _ Hin)).
  apply wp_bind. eapply wp_mono; [apply indep_r_wp|]. intros r _.
  destruct (Z.eqb_spec (b_size in_) 0) as [|Hne]; [split; [done|intros _; by left]|].
  apply wp_bind. eapply wp_mono; [apply (choose_item_wp env rank Henv); [done|lia|apply Hk|lia]|].
  intros [item work'] [Hitem Hwork']. cbn beta iota.
  set (v1 := Vectors work' (v_out v) (v_out2 v)).
  assert (Hk1 : attempt_keeps m rep v0 v1).
  { destruct Hk as (_ & Ho & _). split_and!; [done|done|]. unfold out2_outside. subst v1.
    cbn [v_out2]. rewrite H2. by destruct (v_out2 v0). }
  rewrite Z.geb_leb. destruct (Z.leb_spec (max_devices m) item) as [|Hdev]; [done|].
  apply wp_bind. eapply wp_mono; [by apply (item_type_wp env rank Henv in_)|].
  intros t Htype. destruct (Z.eqb_spec t type) as [->|Htne]; cbn [negb].
  - apply wp_bind. eapply wp_mono; [apply indep_judge_wp; [by apply Hunder, below_item|done|done|
      by apply (indep_fits_keeps rep v0)]|].
    intros [next v'] [Hk' Hok]. cbn [wp]. split; [by apply (attempt_keeps_trans _ _ _ v1)|].
    destruct Hk1 as (_ & Ho1 & _). destruct next as [| |it]; cbn [next_ok] in *.
    + subst v1. cbn [v_out2] in Hok. by rewrite H2 in Hok.
    + done.
    + by rewrite Ho1 in Hok.
  - destruct Htype as [([Hge _] & _)|(Hneg & _)].
    + rewrite Z.geb_leb, (proj2 (Z.leb_le _ _)) by lia. done.
    + destruct (item_bucket env rank Henv in_ item Hin Hitem Hneg)
        as (b & Hlook & Hb & Hid & Hat & Hmax & Hr).
      rewrite !Z.geb_leb, !(proj2 (Z.leb_gt _ _)) by lia. cbn [orb].
      rewrite Hat. cbn [mbind outcome_bind wp]. rewrite Hid. split; [|done]. split; [|done].
      split; [done|]. intros item' Hb'. apply Hunder. by apply (below_bucket _ _ item b).
Qed.
End at_position.

(** ** The positions of one call *)

Definition good_item (item : Z) : Prop :=
  below m bucket item ∧ has_type env item type ∧ (type = 0 → in_cluster env item).

Definition free_in_range (v : vectors) (but item : Z) : Prop :=
  ∀ j, outpos <= j < endpos → j ≠ but → v_out v !! Z.to_nat j ≠ Some item.

(** The leaf entry beside output entry [a]. *)
Definition leaf_state (a lf : Z) : Prop :=
  0 <= lf ∧ (placed a → leaf_beside a lf)
  ∧ (type ≠ 0 → ¬ placed a →
     lf = CRUSH_ITEM_NONE ∨ a = CRUSH_ITEM_UNDEF ∧ lf = CRUSH_ITEM_UNDEF).

Record pos_ok (v : vectors) (i a : Z) : Prop := {
  pos_at : v_out v !! Z.to_nat i = Some a;
  pos_good : placed a → good_item a ∧ free_in_range v i a;
  pos_leaf : recurse_to_leaf = true → out2_at v i (leaf_state a) }.

Record indep_inv (v0 v : vectors) : Prop := {
  inv_work : wf_work m (v_work v);
  inv_fits : indep_fits v;
  inv_out : same_outside outpos endpos (v_out v0) (v_out v);
  inv_out2 : out2_outside outpos endpos v0 v;
  inv_pos : ∀ i, outpos <= i < endpos → ∃ a, pos_ok v i a }.

Lemma not_placed_undef : ¬ placed CRUSH_ITEM_UNDEF.
Proof. by intros [? _]. Qed.
Lemma not_placed_none : ¬ placed CRUSH_ITEM_NONE.
Proof. by intros [_ ?]. Qed.

Lemma out2_at_outside v v' rep i P :
  0 <= i → i ≠ rep → out2_outside rep (rep + 1) v v' → out2_at v i P → out2_at v' i P.
Proof.
  intros Hi Hne Hout (l & lf & Hl & Hlf & HP). unfold out2_outside in Hout. rewrite Hl in Hout.
  destruct (v_out2 v') as [l'|] eqn:Hl'; [|done]. exists l', lf. split; [done|].
  destruct Hout as [_ Hs]. by rewrite Hs by lia.
Qed.

(** Changing one position from what is not yet placed. *)
Lemma inv_update v0 v v' rep a a' :
  indep_inv v0 v → outpos <= rep < endpos →
  v_out v !! Z.to_nat rep = Some a → a' = a ∨ ¬ placed a →
  wf_work m (v_work v') → v_out v' = <[Z.to_nat rep := a']> (v_out v) →
  out2_outside rep (rep + 1) v v' →
  (placed a' → good_item a' ∧ free_in_range v rep a') →
  (recurse_to_leaf = true → out2_at v' rep (leaf_state a')) →
  indep_inv v0 v'.
Proof.
  intros [Hw Hf Ho H2 Hp] Hrep Ha Hchg Hw' Hout Hout2 Hgood Hleaf'.
  pose proof (lookup_lt_Some _ _ _ Ha) as Hlt.
  assert (Hlook : ∀ j, 0 <= j → j ≠ rep → v_out v' !! Z.to_nat j = v_out v !! Z.to_nat j).
  { intros j Hj Hne. rewrite Hout. apply list_lookup_insert_ne. lia. }
  assert (Hself : v_out v' !! Z.to_nat rep = Some a') by (rewrite Hout; by apply list_lookup_insert_eq).
  split; [done| | | |].
  - destruct Hf as [Hf1 Hf2]. split; [by rewrite Hout, length_insert|]. unfold out2_outside in Hout2.
    destruct (v_out2 v), (v_out2 v'); try done. by destruct Hout2 as [-> _].
  - eapply same_outside_trans; [exact Ho|]. rewrite Hout.
    apply (same_outside_wider rep (rep + 1)); [lia|lia|]. apply same_outside_insert. lia.
  - eapply out2_outside_trans; [exact H2|]. by apply (out2_outside_wider rep (rep + 1)); [lia|lia|].
  - intros i Hi. destruct (Z.eq_dec i rep) as [->|Hne].
    + exists a'. split; [done| |done]. intros Hpl. destruct (Hgood Hpl) as [Hg Hfree].
      split; [done|]. intros j Hj Hjr. rewrite Hlook by lia. by apply Hfree.
    + destruct (Hp i Hi) as (b & [Hb Hbg Hbl]). exists b. split.
      * by rewrite Hlook by lia.
      * intros Hpl. destruct (Hbg Hpl) as [Hg Hfree]. split; [done|]. intros j Hj Hji.
        destruct (Z.eq_dec j rep) as [->|]; [|rewrite Hlook by lia; by apply Hfree].
        rewrite Hself. intros [= ->]. destruct Hchg as [->|Hnp]; [by apply (Hfree rep)|].
        destruct (Hgood Hpl) as [_ Hfree']. by apply (Hfree' i).
      * intros Hr. apply (out2_at_outside v _ rep); [lia|done|done|by apply Hbl].
Qed.

(** An attempt's outcome, stored. *)
Lemma indep_rep_step_wp ftotal rep v0 left v :
  endpos < 2 ^ 31 → outpos <= rep < endpos → indep_inv v0 v →
  wp (indep_rep_step env leaf_call fuel bucket numrep type recurse_to_leaf parent_r outpos endpos
        ftotal rep (left, v)) (λ '(_, v'), indep_inv v0 v').
Proof.
  intros Hend Hrep Hinv. destruct (inv_pos _ _ Hinv rep Hrep) as (a & [Ha Hag Hal]).
  unfold indep_rep_step. rewrite (aget_Some _ _ a) by (done || lia). cbn [mbind outcome_bind].
  destruct (Z.eqb_spec a CRUSH_ITEM_UNDEF) as [->|]; cbn [negb]; [|done].
  pose proof not_placed_undef as Hnp.
  apply wp_bind. eapply wp_mono; [apply (indep_bucket_loop_wp rep); [lia|apply Hinv|apply Hinv]|].
  intros [next v'] [(Hw' & Ho' & H2') Hok]. pose proof (lookup_lt_Some _ _ _ Ha) as Hlt.
  destruct next as [| |item]; cbn [next_ok] in Hok.
  - cbn [wp]. apply (inv_update v0 v v' rep _ CRUSH_ITEM_UNDEF Hinv Hrep Ha); [by left|done| |done|done|].
    + rewrite Ho'. symmetry. by apply list_insert_id.
    + intros Hr. specialize (Hal Hr). destruct Hal as (l & lf & Hl & Hlf & Hst).
      unfold out2_outside in H2'. rewrite Hl in H2'.
      destruct (v_out2 v') as [l'|] eqn:Hl'; [|done]. destruct H2' as [Hlen _].
      destruct (lookup_lt_is_Some_2 l' (Z.to_nat rep)) as [lf' Hlf'];
        [rewrite Hlen; by apply lookup_lt_Some in Hlf|].
      exists l', lf'. split_and!; [done..|].
      destruct (Hok Hr) as [Heq|(l2 & lf2 & Hl2 & Hlf2 & Hge & Hlf2n)].
      * rewrite Hl in Heq. injection Heq as ->.
        by assert (lf' = lf) as -> by congruence.
      * assert (lf2 = lf') as -> by congruence. split; [done|]. split; [done|].
        intros Hty _. left. by apply Hlf2n.
  - unfold set_both, set_out. apply wp_bind, wp_bind, wp_bind, wp_aset; [rewrite Ho'; lia|].
    cbn [wp]. unfold set_out2. cbn [v_out2 v_work v_out].
    pose proof (indep_fits_keeps rep v v' ltac:(done) ltac:(apply Hinv)) as [_ Hf2].
    pose proof not_placed_none as Hnn.
    destruct (v_out2 v') as [l'|] eqn:Hl'.
    + apply wp_bind, wp_aset; [lia|]. cbn [wp].
      apply (inv_update v0 v _ rep _ CRUSH_ITEM_NONE Hinv Hrep Ha); [by right|done|by rewrite Ho'| |done|].
      * eapply out2_outside_trans; [exact H2'|]. unfold out2_outside. rewrite Hl'.
        apply same_outside_insert. lia.
      * intros _. eexists _, CRUSH_ITEM_NONE. split; [done|].
        split; [apply list_lookup_insert_eq; lia|]. split; [done|]. split; [done|]. by left.
    + cbn [wp].
      apply (inv_update v0 v _ rep _ CRUSH_ITEM_NONE Hinv Hrep Ha); [by right|done|by rewrite Ho'| |done|].
      * eapply out2_outside_trans; [exact H2'|]. unfold out2_outside. by rewrite Hl'.
      * congruence.
  - unfold set_out. apply wp_bind, wp_bind, wp_aset; [rewrite Ho'; lia|]. cbn [wp].
    destruct Hok as (Hbel & Hty & Hin & Habs & Hlf).
    apply (inv_update v0 v _ rep _ item Hinv Hrep Ha); [by right|done|by rewrite Ho'| | |].
    + eapply out2_outside_trans; [exact H2'|]. unfold out2_outside. cbn [v_out2].
      by destruct (v_out2 v').
    + intros _. split; [done|]. intros j Hj _. by apply Habs.
    + intros Hr. destruct (Hlf Hr) as (l & lf & Hl & Hlook & Hbes). exists l, lf.
      split_and!; [done..|]. split; [by destruct Hbes as [[? ->]|(_ & b & _ & [? _] & _)]; lia|].
      split; [done|]. intros _ Hnpl. exfalso. apply Hnpl.
      unfold placed, CRUSH_ITEM_UNDEF, CRUSH_ITEM_NONE in *.
      destruct Hty as [[? _]|[? _]]; lia.
Qed.

Context (Hrange : outpos <= endpos ∧ endpos < 2 ^ 31).

Lemma wp_for_positions {S} (I : Z → S → Prop) (body : Z → S → outcome S) s :
  (∀ i s, outpos <= i < endpos → I i s → wp (body i s) (I (i + 1))) →
  I outpos s → wp (for_range (Z.to_nat (endpos - outpos)) outpos body s) (I endpos).
Proof.
  intros Hbody HI. replace endpos with (outpos + Z.of_nat (Z.to_nat (endpos - outpos))) at 2 by lia.
  apply wp_for_range; [|done]. intros i s' Hi. apply Hbody. lia.
Qed.

Lemma indep_init_wp v0 :
  wf_work m (v_work v0) → indep_fits v0 →
  wp (for_range (Z.to_nat (endpos - outpos)) outpos (λ rep v, set_both v rep CRUSH_ITEM_UNDEF) v0)
    (indep_inv v0).
Proof.
  intros Hw Hfit.
  eapply wp_mono; [apply (wp_for_positions (λ k v, wf_work m (v_work v) ∧ indep_fits v
      ∧ same_outside outpos endpos (v_out v0) (v_out v) ∧ out2_outside outpos endpos v0 v
      ∧ ∀ i, outpos <= i < k → v_out v !! Z.to_nat i = Some CRUSH_ITEM_UNDEF
          ∧ ∀ l, v_out2 v = Some l → l !! Z.to_nat i = Some CRUSH_ITEM_UNDEF))|].
  - intros i v Hi (Hw' & [Hf1 Hf2] & Ho & H2 & Hdone). unfold set_both, set_out.
    apply wp_bind, wp_bind, wp_aset; [lia|]. cbn [wp]. unfold set_out2. cbn [v_out2 v_work v_out].
    assert (Hi' : 0 <= i) by lia.
    assert (Hout : same_outside outpos endpos (v_out v0) (<[Z.to_nat i := CRUSH_ITEM_UNDEF]> (v_out v))).
    { eapply same_outside_trans; [exact Ho|]. apply (same_outside_wider i (i + 1)); [lia|lia|].
      by apply same_outside_insert. }
    assert (Hins : ∀ l : list Z, endpos <= Z.of_nat (length l) → ∀ j, outpos <= j < i + 1 →
      (j ≠ i → l !! Z.to_nat j = Some CRUSH_ITEM_UNDEF) →
      <[Z.to_nat i := CRUSH_ITEM_UNDEF]> l !! Z.to_nat j = Some CRUSH_ITEM_UNDEF).
    { intros l Hl j Hj Hold. destruct (Z.eq_dec j i) as [->|].
      - apply list_lookup_insert_eq. lia.
      - rewrite list_lookup_insert_ne by lia. by apply Hold. }
    destruct (v_out2 v) as [l|] eqn:Hl.
    + apply wp_bind, wp_aset; [lia|]. cbn [wp]. split_and!; [done| |done| |].
      * split; cbn [v_out v_out2]; by rewrite length_insert.
      * eapply out2_outside_trans; [exact H2|]. unfold out2_outside. rewrite Hl. cbn [v_out2].
        apply (same_outside_wider i (i + 1)); [lia|lia|]. by apply same_outside_insert.
      * intros j Hj. split.
        -- apply Hins; [done|done|]. intros Hne. by destruct (Hdone j ltac:(lia)).
        -- cbn [v_out2]. intros l' [= <-]. apply Hins; [done|done|]. intros Hne.
           destruct (Hdone j ltac:(lia)) as [_ D]. by apply D.
    + cbn [wp]. split_and!; [done| |done| |].
      * split; cbn [v_out v_out2]; [by rewrite length_insert|by rewrite Hf2].
      * unfold out2_outside in *. cbn [v_out2]. by rewrite Hl in H2.
      * intros j Hj. split; [|done]. apply Hins; [done|done|]. intros Hne.
        by destruct (Hdone j ltac:(lia)).
  - split_and!; [done|exact Hfit|done|apply out2_outside_refl|intros i ?; lia].
  - intros v (Hw' & Hf & Ho & H2 & Hdone). split; [done..|]. intros i Hi.
    destruct (Hdone i Hi) as [Ha Hl]. exists CRUSH_ITEM_UNDEF. pose proof not_placed_undef as Hnp.
    split; [done|done|]. intros Hr. destruct Hf as [_ Hf].
    destruct (v_out2 v) as [l|] eqn:Hv2; [|congruence].
    exists l, CRUSH_ITEM_UNDEF. split; [done|]. split; [by apply Hl|]. split; [done|].
    split; [done|]. by right.
Qed.

Lemma indep_rounds_wp v0 v :
  indep_inv v0 v →
  wp (loop fuel (indep_round_step env leaf_call fuel bucket numrep type tries recurse_to_leaf
        parent_r outpos endpos) (0, endpos - outpos, v)) (indep_inv v0).
Proof.
  intros Hinv.
  apply (wp_loop (λ '(ftotal, _, v), 0 <= ftotal <= tries ∧ indep_inv v0 v)
    (λ '(ftotal, _, _), Z.to_nat (tries - ftotal))); [|split; [lia|done]|].
  - intros [[ftotal left] v'] [Hft Hi]. unfold indep_round_step.
    destruct ((left >? 0) && (ftotal <? tries)) eqn:Hb; [|done]. bool_to_prop. apply wp_bind.
    eapply wp_mono; [apply (wp_for_positions (λ _ '(_, v), indep_inv v0 v)); [|done]|].
    + intros rep [left' v1] Hrep Hi1. eapply wp_mono; [apply indep_rep_step_wp; [lia|done|done]|].
      by intros [left2 v2].
    + intros [left' v1] Hi1. cbn [wp]. rewrite u32_small by lia. split; [|lia]. split; [lia|done].
  - destruct Hfuel as [_ Hf]. lia.
Qed.

(** A position that is settled. *)
Definition settled (v : vectors) (i : Z) : Prop :=
  v_out v !! Z.to_nat i ≠ Some CRUSH_ITEM_UNDEF
  ∧ ∀ l, v_out2 v = Some l → l !! Z.to_nat i ≠ Some CRUSH_ITEM_UNDEF.

Lemma good_item_range item : good_item item → item < CRUSH_ITEM_UNDEF.
Proof.
  intros (_ & Hty & _). destruct Hty as [[? _]|[? _]]; [lia|]. unfold CRUSH_ITEM_UNDEF. lia.
Qed.

Lemma leaf_beside_range item lf :
  good_item item → leaf_beside item lf → lf < CRUSH_ITEM_UNDEF.
Proof.
  intros Hg [[_ ->]|(_ & b & _ & Hl & _)]; [by apply good_item_range|]. lia.
Qed.

Lemma indep_finish_step_wp v0 rep v :
  outpos <= rep < endpos → indep_inv v0 v →
  wp (indep_finish_step rep v) (λ v', indep_inv v0 v' ∧ settled v' rep
    ∧ ∀ i, outpos <= i < endpos → i ≠ rep → settled v i → settled v' i).
Proof.
  intros Hrep Hinv. destruct (inv_pos _ _ Hinv rep Hrep) as (a & [Ha Hag Hal]).
  pose proof (inv_fits _ _ Hinv) as [Hf1 Hf2]. pose proof (lookup_lt_Some _ _ _ Ha) as Hlt.
  set (a' := if a =? CRUSH_ITEM_UNDEF then CRUSH_ITEM_NONE else a).
  assert (Ha' : a' ≠ CRUSH_ITEM_UNDEF ∧ (placed a' → a' = a) ∧ (a' = a ∨ ¬ placed a)
    ∧ (placed a → placed a') ∧ (a = CRUSH_ITEM_UNDEF → a' = CRUSH_ITEM_NONE)).
  { subst a'. unfold placed. destruct (Z.eqb_spec a CRUSH_ITEM_UNDEF) as [->|]; naive_solver. }
  destruct Ha' as (Hne & Heq & Hchg & Hkeep & Hund).
  assert (Hset : (if a =? CRUSH_ITEM_UNDEF then set_out v rep CRUSH_ITEM_NONE else Ret v)
    = Ret (Vectors (v_work v) (<[Z.to_nat rep := a']> (v_out v)) (v_out2 v))).
  { subst a'. destruct (a =? CRUSH_ITEM_UNDEF).
    - unfold set_out. by rewrite aset_eq by lia.
    - rewrite list_insert_id by done. by destruct v. }
  unfold indep_finish_step. rewrite (aget_Some _ _ a) by (done || lia). cbn [mbind outcome_bind].
  rewrite Hset. cbn [mbind outcome_bind v_out2].
  assert (Hself : <[Z.to_nat rep := a']> (v_out v) !! Z.to_nat rep = Some a')
    by by apply list_lookup_insert_eq.
  assert (Hgood : placed a' → good_item a' ∧ free_in_range v rep a').
  { intros Hp. pose proof (Heq Hp) as E. rewrite E in Hp |- *. by apply Hag. }
  destruct (v_out2 v) as [l|] eqn:Hl.
  - destruct (lookup_Z_Some l rep ltac:(lia)) as [lf Hlf].
    rewrite (aget_Some _ _ lf) by (done || lia). cbn [mbind outcome_bind].
    set (lf' := if lf =? CRUSH_ITEM_UNDEF then CRUSH_ITEM_NONE else lf).
    assert (Hset2 : (if lf =? CRUSH_ITEM_UNDEF
        then set_out2 (Vectors (v_work v) (<[Z.to_nat rep := a']> (v_out v)) (Some l)) rep CRUSH_ITEM_NONE
        else Ret (Vectors (v_work v) (<[Z.to_nat rep := a']> (v_out v)) (Some l)))
      = Ret (Vectors (v_work v) (<[Z.to_nat rep := a']> (v_out v)) (Some (<[Z.to_nat rep := lf']> l)))).
    { subst lf'. unfold set_out2. cbn [v_out2 v_out v_work]. destruct (lf =? CRUSH_ITEM_UNDEF).
      - by rewrite aset_eq by lia.
      - by rewrite (list_insert_id l). }
    rewrite Hset2. cbn [wp].
    assert (Hl2 : <[Z.to_nat rep := lf']> l !! Z.to_nat rep = Some lf')
      by (apply list_lookup_insert_eq; by apply lookup_lt_Some in Hlf).
    split_and!.
    + apply (inv_update v0 v _ rep a a' Hinv Hrep Ha Hchg); [apply Hinv|done| |done|].
      * unfold out2_outside. rewrite Hl. apply same_outside_insert. lia.
      * intros Hr. destruct (Hal Hr) as (l1 & lf1 & Hl1 & Hlf1 & Hge1 & Hb1 & Hn1).
        rewrite Hl in Hl1. injection Hl1 as <-. assert (lf1 = lf) as -> by congruence.
        eexists _, lf'. split; [done|]. split; [done|].
        split; [subst lf'; by destruct (lf =? CRUSH_ITEM_UNDEF)|]. split.
        -- intros Hp. pose proof (Heq Hp) as E. rewrite E in *. specialize (Hb1 Hp).
           destruct (Hgood Hp) as [Hg _]. pose proof (leaf_beside_range _ _ Hg Hb1).
           subst lf'. by rewrite (proj2 (Z.eqb_neq _ _)) by lia.
        -- intros Hty Hnp. left. subst lf'.
           destruct (Hn1 Hty) as [->|[_ ->]]; [|done|done]. intros Hp. by apply Hnp, Hkeep.
    + split; cbn [v_out v_out2]; [rewrite Hself; congruence|]. intros l' [= <-]. rewrite Hl2.
      subst lf'. destruct (Z.eqb_spec lf CRUSH_ITEM_UNDEF); [done|congruence].
    + intros i Hi Hir [S1 S2]. split; cbn [v_out v_out2].
      * by rewrite list_lookup_insert_ne by lia.
      * intros l' [= <-]. rewrite list_lookup_insert_ne by lia. by apply S2.
  - cbn [wp]. split_and!.
    + apply (inv_update v0 v _ rep a a' Hinv Hrep Ha Hchg); [apply Hinv|done| |done|congruence].
      unfold out2_outside. by rewrite Hl.
    + split; cbn [v_out v_out2]; [rewrite Hself; congruence|done].
    + intros i Hi Hir [S1 S2]. split; cbn [v_out v_out2]; [|done].
      by rewrite list_lookup_insert_ne by lia.
Qed.

Lemma indep_body_wp v0 :
  wf_work m (v_work v0) → indep_fits v0 →
  wp (indep_body env leaf_call fuel bucket numrep type tries recurse_to_leaf parent_r
        outpos endpos v0)
    (λ v, indep_inv v0 v ∧ ∀ i, outpos <= i < endpos → settled v i).
Proof.
  intros Hw Hfit. unfold indep_body. apply wp_bind.
  eapply wp_mono; [by apply indep_init_wp|]. intros v1 Hinv1. apply wp_bind.
  eapply wp_mono; [by apply indep_rounds_wp|]. intros v2 Hinv2.
  apply (wp_for_positions (λ k v, indep_inv v0 v ∧ ∀ i, outpos <= i < k → settled v i)).
  - intros rep v Hrep [Hinv Hs]. eapply wp_mono; [by apply (indep_finish_step_wp v0 rep v)|].
    intros v' (Hinv' & Hself & Hothers). split; [done|]. intros i Hi.
    destruct (Z.eq_dec i rep) as [->|]; [done|]. apply Hothers; [lia|done|apply Hs; lia].
  - split; [done|]. intros i ?. lia.
Qed.
End call.

(** ** The whole call, with its recursion *)

Section whole.
Context (fuel : nat) (numrep tries recurse_tries : Z).
Hypothesis Hnumrep : 0 < numrep < 2 ^ 31.
Hypothesis Htries : 0 <= tries < 2 ^ 31 ∧ 0 <= recurse_tries < 2 ^ 31.
Hypothesis Hfuel : (∀ b, map_bucket m b → (rank (b_id b) < fuel)%nat)
  ∧ (Z.to_nat tries < fuel)%nat ∧ (Z.to_nat recurse_tries < fuel)%nat.

Lemma crush_choose_indep_leaf_wp b rep r v :
  map_bucket m b → wf_work m (v_work v) → v_out2 v = None →
  0 <= rep < Z.of_nat (length (v_out v)) → rep + 1 < 2 ^ 31 →
  wp (crush_choose_indep_leaf env fuel numrep recurse_tries b rep r v) (λ v',
    wf_work m (v_work v') ∧ same_outside rep (rep + 1) (v_out v) (v_out v')
    ∧ ∃ lf, v_out v' !! Z.to_nat rep = Some lf ∧ (lf = CRUSH_ITEM_NONE ∨ leaf_ok b lf)).
Proof.
  intros Hb Hw H2 Hrep Hsmall. unfold crush_choose_indep_leaf. eapply wp_mono.
  - apply (indep_body_wp no_indep_call fuel b numrep 0 recurse_tries false r rep (rep + 1));
      try done; try lia.
    + split; [apply Hfuel|apply Hfuel].
    + split; [lia|]. by rewrite H2.
  - intros v' [[Hw' _ Ho _ Hp] Hs]. split_and!; [done..|].
    destruct (Hp rep ltac:(lia)) as (lf & [Hlf Hg _]). destruct (Hs rep ltac:(lia)) as [Hund _].
    exists lf. split; [done|]. destruct (Z.eq_dec lf CRUSH_ITEM_NONE) as [|Hne]; [by left|right].
    destruct Hg as [(Hbel & Hty & Hin) _]; [split; [congruence|done]|].
    destruct Hty as [[? _]|(_ & ? & _)]; [|done]. split_and!; [lia|lia|by apply Hin|done].
Qed.

(** The result at position [i]. *)
Definition indep_entry (bucket : crush_bucket) (type left : Z) (recurse_to_leaf : bool)
    (v : vectors) (i : Z) : Prop :=
  ∃ a, v_out v !! Z.to_nat i = Some a
    ∧ (a = CRUSH_ITEM_NONE
       ∨ below m bucket a ∧ has_type env a type ∧ (type = 0 → in_cluster env a)
         ∧ ∀ j, 0 <= j < left → j ≠ i → v_out v !! Z.to_nat j ≠ Some a)
    ∧ (recurse_to_leaf = true → ∃ l lf, v_out2 v = Some l ∧ l !! Z.to_nat i = Some lf
       ∧ 0 <= lf ∧ (a ≠ CRUSH_ITEM_NONE → leaf_of env a lf)
       ∧ (type ≠ 0 → a = CRUSH_ITEM_NONE → lf = CRUSH_ITEM_NONE)).

Lemma crush_choose_indep_wp bucket left type recurse_to_leaf parent_r v :
  map_bucket m bucket → wf_work m (v_work v) → 0 <= left < 2 ^ 31 - 1 →
  left <= Z.of_nat (length (v_out v)) →
  match v_out2 v with
  | Some l => left <= Z.of_nat (length l)
  | None => recurse_to_leaf = false
  end →
  wp (crush_choose_indep env fuel bucket left numrep type 0 tries recurse_tries recurse_to_leaf
        parent_r v)
    (λ v', wf_work m (v_work v') ∧ same_outside 0 left (v_out v) (v_out v')
       ∧ out2_outside 0 left v v'
       ∧ ∀ i, 0 <= i < left → indep_entry bucket type left recurse_to_leaf v' i).
Proof.
  intros Hb Hw Hleft Hlen Hlen2. unfold crush_choose_indep. rewrite Z.add_0_l. eapply wp_mono.
  - apply (indep_body_wp (crush_choose_indep_leaf env fuel numrep recurse_tries) fuel bucket
      numrep type tries recurse_to_leaf parent_r 0 left); try done; try lia.
    + split; apply Hfuel.
    + intros Hr b rep r v' ? ? ? ? ?. by apply crush_choose_indep_leaf_wp.
  - intros v' [[Hw' Hf Ho Ho2 Hp] Hs]. split_and!; [done..|].
    intros i Hi. destruct (Hp i Hi) as (a & [Ha Hg Hl]). destruct (Hs i Hi) as [Hund _].
    exists a. split; [done|]. split.
    + destruct (Z.eq_dec a CRUSH_ITEM_NONE) as [|Hne]; [by left|right].
      destruct Hg as [(? & ? & ?) Hfree]; [split; [congruence|done]|]. split_and!; [done..|].
      intros j Hj Hji. by apply Hfree.
    + intros Hr. destruct (Hl Hr) as (l & lf & Hl2 & Hlf & Hge & Hbes & Hnone).
      exists l, lf. split_and!; [done|done|done| |].
      * intros Hne. assert (Hpl : placed a) by (split; [congruence|done]).
        destruct (Hg Hpl) as [(_ & Hty & Hin) _].
        destruct (Hbes Hpl) as [[Hge' ->]|(Hneg & b & Hat & Hd & Hc & Hbel)].
        -- destruct Hty as [[? Ht]|[? _]]; [|lia]. split; [lia|]. split; [by apply Hin|by left].
        -- split; [done|]. split; [done|]. right. by exists b.
      * intros Hty ->. destruct (Hnone Hty not_placed_none) as [|[? _]]; done.
Qed.
End whole.
End indep_facts.

(** * Properties *)

(** C17: positionally stable selection.  On a well-formed hierarchy without cycles the rounds
    end, inside the arrays, and settle every position: it holds either [CRUSH_ITEM_NONE] or an
    item of the type asked for, below the bucket, not out when it is a device, and different
    from every other position's.  With a leaf asked for, the leaf of an item is a device of the
    cluster at or below it, and a position without a bucket has no leaf. *)
Theorem crush_choose_indep_positional (env : choose_env) (rank : Z → nat) (fuel : nat)
    (bucket : crush_bucket) (left numrep type tries recurse_tries : Z) (recurse_to_leaf : bool)
    (parent_r : Z) (v : vectors)
    (Henv : wf_env env rank) (Hdevices : max_devices (e_map env) <= CRUSH_ITEM_UNDEF)
    (Hnumrep : 0 < numrep < 2 ^ 31)
    (Htries : 0 <= tries < 2 ^ 31 ∧ 0 <= recurse_tries < 2 ^ 31)
    (Hfuel : (∀ b, map_bucket (e_map env) b → (rank (b_id b) < fuel)%nat)
       ∧ (Z.to_nat tries < fuel)%nat ∧ (Z.to_nat recurse_tries < fuel)%nat)
    (Hbucket : map_bucket (e_map env) bucket) (Hwork : wf_work (e_map env) (v_work v))
    (Hleft : 0 <= left < 2 ^ 31 - 1) (Hout : left <= Z.of_nat (length (v_out v)))
    (Hout2 : match v_out2 v with
             | Some l => left <= Z.of_nat (length l)
             | None => recurse_to_leaf = false
             end) :
  wp (crush_choose_indep env fuel bucket left numrep type 0 tries recurse_tries recurse_to_leaf
        parent_r v)
    (λ v', wf_work (e_map env) (v_work v')
       ∧ ∀ i, 0 <= i < left → indep_entry env bucket type left recurse_to_leaf v' i).
Proof.
  eapply wp_mono; [by apply (crush_choose_indep_wp env rank Henv Hdevices)|].
  intros v' (? & _ & _ & ?). done.
Qed.

Lemma crush_choose_indep_positional_witness :
  wf_env ex_env ex_rank ∧
  wp (crush_choose_indep ex_env 100 ex_root 2 2 1 0 51 1 true 0
        (Vectors ex_workspace [0; 0] (Some [0; 0])))
    (λ v', wf_work ex_map (v_work v')
       ∧ ∀ i, 0 <= i < 2 → indep_entry ex_env ex_root 1 2 true v' i).
Proof.
  split; [exact wf_ex_env|].
  apply (crush_choose_indep_positional ex_env ex_rank 100 ex_root 2 2 1 51 1 true 0
    (Vectors ex_workspace [0; 0] (Some [0; 0])) wf_ex_env).
  - vm_compute. discriminate.
  - lia.
  - lia.
  - split; [|simpl; lia]. intros b H. apply ex_map_bucket in H as [-> | [-> | ->]];
      unfold ex_rank; simpl; lia.
  - by split.
  - exact wf_ex_workspace.
  - lia.
  - simpl. lia.
  - simpl. lia.
Defined.
