(* ===== verification/DoRule.v ===== *)
(** * Running a placement rule (libceph/crush/mapper.c, [crush_init_workspace],
    [crush_do_rule]; [crush_finalize] of libceph/osdmap.c)

    The layout of the scratch memory, and the interpreter of the rule steps over its three
    vectors. *)
From S2P Require Import Prelude Hash Crush CrushLn Mapper Choose Indep.

(** ** Scratch memory *)

Definition sizeof_crush_work : Z := 24.
Definition sizeof_work_bucket : Z := 16.
Definition sizeof_pointer : Z := 8.
Definition sizeof_u32 : Z := 4.

Definition crush_finalize (m : crush_map) : outcome crush_map :=
  ws ← for_range (Z.to_nat (max_buckets m)) 0
    (λ b ws, o ← aget (buckets m) b;
       Ret match o with
           | None => ws
           | Some bk => ws + sizeof_work_bucket + b_size bk * sizeof_u32
           end)
    (sizeof_crush_work + max_buckets m * sizeof_pointer);
  Ret (CrushMap (buckets m) (rules m) (max_buckets m) (max_rules m) (max_devices m)
         (choose_local_tries m) (choose_local_fallback_tries m) (choose_total_tries m)
         (chooseleaf_descend_once m) (chooseleaf_vary_r m) (chooseleaf_stable m) ws
         (type_names m) (names m) (choose_args m)).

Definition crush_work_size (m : crush_map) (result_max : Z) : Z :=
  working_size m + result_max * 3 * sizeof_u32.

(** [mem] is the word the uninitialised memory holds at each offset; [v] the offset reached.
    The permutation of a bucket is the memory [perm] points to. *)
Definition init_workspace_step (m : crush_map) (mem : Z → Z) (b : Z) (s : crush_work * Z)
    : outcome (crush_work * Z) :=
  let '(work, v) := s in
  o ← aget (buckets m) b;
  match o with
  | None => Ret (work ++ [None], v)
  | Some bk =>
      let v := v + sizeof_work_bucket in
      let p := map (λ i, mem (v + i * sizeof_u32)) (seqZ 0 (b_size bk)) in
      Ret (work ++ [Some (CrushWorkBucket 0 0 p)], v + b_size bk * sizeof_u32)
  end.

Definition crush_init_workspace (m : crush_map) (mem : Z → Z) : outcome crush_work :=
  let v := sizeof_crush_work + max_buckets m * sizeof_pointer in
  '(work, v) ← for_range (Z.to_nat (max_buckets m)) 0 (init_workspace_step m mem) ([], v);
  _ ← require (v =? working_size m);
  Ret work.

(** ** The interpreter *)

(** The tunables a rule may override. *)
Record rule_tunables := RuleTunables {
  rt_choose_tries : Z; rt_choose_leaf_tries : Z;
  rt_local_retries : Z; rt_local_fallback_retries : Z;
  rt_vary_r : Z; rt_stable : Z }.

(** [w], [o], [c] are the three vectors in the scratch memory; the first two swap. *)
Record rule_state := RuleState {
  rs_work : crush_work;
  rs_w : list Z; rs_o : list Z; rs_c : list Z;
  rs_wsize : Z;
  rs_result : list Z; rs_result_len : Z;
  rs_tun : rule_tunables }.

Definition set_tun (s : rule_state) (t : rule_tunables) : rule_state :=
  RuleState (rs_work s) (rs_w s) (rs_o s) (rs_c s) (rs_wsize s) (rs_result s) (rs_result_len s) t.
Definition set_w (s : rule_state) (w : list Z) (wsize : Z) : rule_state :=
  RuleState (rs_work s) w (rs_o s) (rs_c s) wsize (rs_result s) (rs_result_len s) (rs_tun s).

Section do_rule.
Context (env : choose_env) (fuel : nat) (result_max : Z).
#[local] Abbreviation m := (e_map env).

Definition take_step (arg1 : Z) (s : rule_state) : outcome rule_state :=
  ok ← (if (arg1 >=? 0) && (arg1 <? max_devices m) then Ret true
        else if (-1 - arg1 >=? 0) && (-1 - arg1 <? max_buckets m) then
          o ← aget (buckets m) (-1 - arg1);
          Ret match o with Some _ => true | None => false end
        else Ret false);
  if ok : bool then w ← aset (rs_w s) 0 arg1; Ret (set_w s w 1) else Ret s.

(** What the loop over [w] changes: the workspace, [o], [c] and [osize]. *)
Record choose_state := ChooseState {
  cs_work : crush_work; cs_o : list Z; cs_c : list Z; cs_osize : Z }.

(** Results written through [o+osize] and [c+osize]. *)
Definition put_vectors (s : choose_state) (v : vectors) (osize : Z) : choose_state :=
  let k := Z.to_nat (cs_osize s) in
  ChooseState (v_work v) (take k (cs_o s) ++ v_out v)
    (match v_out2 v with Some c => take k (cs_c s) ++ c | None => cs_c s end) osize.

Definition get_vectors (s : choose_state) : vectors :=
  let k := Z.to_nat (cs_osize s) in
  Vectors (cs_work s) (drop k (cs_o s)) (Some (drop k (cs_c s))).

Definition choose_one (t : rule_tunables) (firstn recurse_to_leaf : bool) (arg1 arg2 wi : Z)
    (s : choose_state) : outcome choose_state :=
  let numrep := if arg1 <=? 0 then arg1 + result_max else arg1 in
  if numrep <=? 0 then Ret s else
  let bno := -1 - wi in
  if (bno <? 0) || (bno >=? max_buckets m) then Ret s else
  o ← aget (buckets m) bno;
  bucket ← deref o;
  let room := result_max - cs_osize s in
  if firstn then
    let recurse_tries :=
      if nonzero (rt_choose_leaf_tries t) then rt_choose_leaf_tries t
      else if nonzero (chooseleaf_descend_once m) then 1
      else rt_choose_tries t in
    let tun := FirstnTunables (u32 (rt_local_retries t)) (u32 (rt_local_fallback_retries t))
                 (u32 (rt_vary_r t)) (u32 (rt_stable t)) in
    '(n, v) ← crush_choose_firstn env tun fuel bucket numrep arg2 0 room
                (u32 (rt_choose_tries t)) (u32 recurse_tries) recurse_to_leaf 0 (get_vectors s);
    Ret (put_vectors s v (cs_osize s + n))
  else
    let out_size := if numrep <? room then numrep else room in
    let recurse_tries :=
      if nonzero (rt_choose_leaf_tries t) then rt_choose_leaf_tries t else 1 in
    v ← crush_choose_indep env fuel bucket out_size numrep arg2 0 (u32 (rt_choose_tries t))
          (u32 recurse_tries) recurse_to_leaf 0 (get_vectors s);
    Ret (put_vectors s v (cs_osize s + out_size)).

Definition choose_step (firstn recurse_to_leaf : bool) (arg1 arg2 : Z) (s : rule_state)
    : outcome rule_state :=
  if rs_wsize s =? 0 then Ret s else
  cs ← for_range (Z.to_nat (rs_wsize s)) 0
    (λ i cs, wi ← aget (rs_w s) i;
       choose_one (rs_tun s) firstn recurse_to_leaf arg1 arg2 wi cs)
    (ChooseState (rs_work s) (rs_o s) (rs_c s) 0);
  let k := Z.to_nat (cs_osize cs) in
  o ← (if recurse_to_leaf then
         _ ← require (cs_osize cs <=? Z.of_nat (length (cs_o cs)));
         _ ← require (cs_osize cs <=? Z.of_nat (length (cs_c cs)));
         Ret (take k (cs_c cs) ++ drop k (cs_o cs))
       else Ret (cs_o cs));
  (* swap(o, w) *)
  Ret (RuleState (cs_work cs) o (rs_w s) (cs_c cs) (cs_osize cs) (rs_result s) (rs_result_len s)
         (rs_tun s)).

Definition emit_loop_step (w : list Z) (wsize : Z) (s : Z * list Z * Z)
    : outcome ((Z * list Z * Z) + (list Z * Z)) :=
  let '(i, result, result_len) := s in
  if (i <? wsize) && (result_len <? result_max) then
    wi ← aget w i;
    result ← aset result result_len wi;
    Ret (inl (i + 1, result, result_len + 1))
  else Ret (inr (result, result_len)).

Definition emit_step (s : rule_state) : outcome rule_state :=
  '(result, result_len) ←
    loop (Z.to_nat (rs_wsize s) + 1) (emit_loop_step (rs_w s) (rs_wsize s))
      (0, rs_result s, rs_result_len s);
  Ret (RuleState (rs_work s) (rs_w s) (rs_o s) (rs_c s) 0 result result_len (rs_tun s)).

Definition run_step (step : crush_rule_step) (s : rule_state) : outcome rule_state :=
  let op := step_op step in
  let arg1 := step_arg1 step in
  let arg2 := step_arg2 step in
  let t := rs_tun s in
  if op =? CRUSH_RULE_TAKE then take_step arg1 s
  else if op =? CRUSH_RULE_SET_CHOOSE_TRIES then
    Ret (if arg1 >? 0 then
      set_tun s (RuleTunables arg1 (rt_choose_leaf_tries t) (rt_local_retries t)
        (rt_local_fallback_retries t) (rt_vary_r t) (rt_stable t)) else s)
  else if op =? CRUSH_RULE_SET_CHOOSELEAF_TRIES then
    Ret (if arg1 >? 0 then
      set_tun s (RuleTunables (rt_choose_tries t) arg1 (rt_local_retries t)
        (rt_local_fallback_retries t) (rt_vary_r t) (rt_stable t)) else s)
  else if op =? CRUSH_RULE_SET_CHOOSE_LOCAL_TRIES then
    Ret (if arg1 >=? 0 then
      set_tun s (RuleTunables (rt_choose_tries t) (rt_choose_leaf_tries t) arg1
        (rt_local_fallback_retries t) (rt_vary_r t) (rt_stable t)) else s)
  else if op =? CRUSH_RULE_SET_CHOOSE_LOCAL_FALLBACK_TRIES then
    Ret (if arg1 >=? 0 then
      set_tun s (RuleTunables (rt_choose_tries t) (rt_choose_leaf_tries t) (rt_local_retries t)
        arg1 (rt_vary_r t) (rt_stable t)) else s)
  else if op =? CRUSH_RULE_SET_CHOOSELEAF_VARY_R then
    Ret (if arg1 >=? 0 then
      set_tun s (RuleTunables (rt_choose_tries t) (rt_choose_leaf_tries t) (rt_local_retries t)
        (rt_local_fallback_retries t) arg1 (rt_stable t)) else s)
  else if op =? CRUSH_RULE_SET_CHOOSELEAF_STABLE then
    Ret (if arg1 >=? 0 then
      set_tun s (RuleTunables (rt_choose_tries t) (rt_choose_leaf_tries t) (rt_local_retries t)
        (rt_local_fallback_retries t) (rt_vary_r t) arg1) else s)
  else if op =? CRUSH_RULE_CHOOSELEAF_FIRSTN then choose_step true true arg1 arg2 s
  else if op =? CRUSH_RULE_CHOOSE_FIRSTN then choose_step true false arg1 arg2 s
  else if op =? CRUSH_RULE_CHOOSELEAF_INDEP then choose_step false true arg1 arg2 s
  else if op =? CRUSH_RULE_CHOOSE_INDEP then choose_step false false arg1 arg2 s
  else if op =? CRUSH_RULE_EMIT then emit_step s
  else Ret s.

(** The defaults from the map; [choose_total_tries] counted retries. *)
Definition map_tunables : rule_tunables :=
  RuleTunables (s32 (choose_total_tries m + 1)) 0 (s32 (choose_local_tries m))
    (s32 (choose_local_fallback_tries m)) (chooseleaf_vary_r m) (chooseleaf_stable m).

(** [a], [b] and [c] are the scratch vectors behind the workspace. *)
Definition crush_do_rule (ruleno : Z) (work : crush_work) (a b c result : list Z)
    : outcome (Z * list Z * crush_work) :=
  if u32 ruleno >=? max_rules m then Ret (0, result, work) else
  o ← aget (rules m) ruleno;
  rule ← deref o;
  s ← for_range (Z.to_nat (rule_len rule)) 0
    (λ step s, cur ← aget (rule_steps rule) step; run_step cur s)
    (RuleState work a b c 0 result 0 map_tunables);
  Ret (rs_result_len s, rs_result s, rs_work s).
End do_rule.

(** ** The scratch memory fits *)

Lemma wp_for_range_0 {S} (I : Z → S → Prop) (body : Z → S → outcome S) n s :
  0 <= n → (∀ i s, 0 <= i < n → I i s → wp (body i s) (I (i + 1))) → I 0 s →
  wp (for_range (Z.to_nat n) 0 body s) (I n).
Proof.
  intros Hn Hbody HI. pose proof (wp_for_range I body (Z.to_nat n) 0 s) as H.
  replace (0 + Z.of_nat (Z.to_nat n)) with n in H by lia. apply H; [|done].
  intros i s' Hi. apply Hbody. lia.
Qed.

(** What bucket [i] takes. *)
Definition bucket_space (o : option crush_bucket) : Z :=
  match o with None => 0 | Some b => sizeof_work_bucket + b_size b * sizeof_u32 end.
Definition space_upto (m : crush_map) (k : Z) : Z :=
  sizeof_crush_work + max_buckets m * sizeof_pointer
  + foldr Z.add 0 (map bucket_space (take (Z.to_nat k) (buckets m))).

Lemma space_upto_S m k o :
  0 <= k → buckets m !! Z.to_nat k = Some o → space_upto m (k + 1) = space_upto m k + bucket_space o.
Proof.
  intros Hk Ho. unfold space_upto. replace (Z.to_nat (k + 1)) with (S (Z.to_nat k)) by lia.
  rewrite (take_S_r _ _ _ Ho), map_app, foldr_app. simpl.
  rewrite (foldr_add_acc _ (bucket_space o + 0)). lia.
Qed.

Section scratch.
Context (m : crush_map) (rank : Z → nat) (Hwf : wf_map m rank).

Lemma max_buckets_nonneg : 0 <= max_buckets m.
Proof. rewrite <- (wfm_len _ _ Hwf). lia. Qed.

Lemma bucket_slot k : 0 <= k < max_buckets m → ∃ o, buckets m !! Z.to_nat k = Some o.
Proof. intros Hk. apply lookup_Z_Some. rewrite (wfm_len _ _ Hwf). lia. Qed.

Lemma crush_finalize_wp : wp (crush_finalize m) (λ m', working_size m' = space_upto m (max_buckets m)
  ∧ buckets m' = buckets m ∧ max_buckets m' = max_buckets m).
Proof.
  unfold crush_finalize. apply wp_bind.
  eapply wp_mono; [apply (wp_for_range_0 (λ k ws, ws = space_upto m k)); [apply max_buckets_nonneg| |]|].
  - intros k ws Hk ->. destruct (bucket_slot k Hk) as [o Ho].
    rewrite (aget_Some _ _ o) by (done || lia). cbn [mbind outcome_bind wp].
    rewrite (space_upto_S m k o) by (done || lia). destruct o; simpl; lia.
  - unfold space_upto. simpl. lia.
  - intros ws ->. done.
Qed.

Lemma crush_finalize_fields : wp (crush_finalize m) (λ m', wf_map m' rank).
Proof.
  unfold crush_finalize. apply wp_bind.
  eapply wp_mono; [apply (wp_for_range_0 (λ _ _, True)); [apply max_buckets_nonneg| |done]|].
  - intros k ws Hk _. destruct (bucket_slot k Hk) as [o Ho].
    by rewrite (aget_Some _ _ o) by (done || lia).
  - intros ws _. destruct Hwf. by split.
Qed.

(** Initialising lays out exactly the memory [crush_finalize] counted. *)
Lemma crush_init_workspace_wp mem :
  (∀ i b, buckets m !! i = Some (Some b) → 0 <= b_size b) →
  working_size m = space_upto m (max_buckets m) →
  wp (crush_init_workspace m mem) (λ work, Z.of_nat (length work) = max_buckets m ∧ wf_work m work).
Proof.
  intros Hsizes Hws. unfold crush_init_workspace. apply wp_bind.
  eapply wp_mono; [apply (wp_for_range_0 (λ k '(work, v), Z.of_nat (length work) = k
      ∧ v = space_upto m k
      ∧ ∀ i b, (i < Z.to_nat k)%nat → buckets m !! i = Some (Some b) →
         ∃ w, work !! i = Some (Some w) ∧ perm_n w = 0 ∧ Z.of_nat (length (perm w)) = b_size b));
    [apply max_buckets_nonneg| |]|].
  - intros k [work v] Hk (Hlen & -> & Hw). destruct (bucket_slot k Hk) as [o Ho].
    unfold init_workspace_step. rewrite (aget_Some _ _ o) by (done || lia).
    cbn [mbind outcome_bind].
    destruct o as [bk|]; cbn [wp]; rewrite length_app, (space_upto_S m k _ ltac:(lia) Ho);
      cbn [bucket_space length]; (split; [lia|]); (split; [lia|]); intros i b Hi Hb;
      destruct (decide (i = Z.to_nat k)) as [->|Hne].
    + assert (b = bk) as -> by congruence. eexists.
      rewrite lookup_app_r by lia. replace (Z.to_nat k - length work)%nat with 0%nat by lia.
      split; [done|]. split; [done|]. cbn [perm]. rewrite length_map, length_seqZ.
      specialize (Hsizes _ _ Hb). lia.
    + rewrite lookup_app_l by lia. apply Hw; [lia|done].
    + congruence.
    + rewrite lookup_app_l by lia. apply Hw; [lia|done].
  - split; [done|]. split; [unfold space_upto; simpl; lia|]. intros i b Hi. lia.
  - intros [work v] (Hlen & -> & Hw). unfold require. rewrite (proj2 (Z.eqb_eq _ _)) by done.
    cbn [mbind outcome_bind wp]. split; [done|]. intros b [Hid Hb].
    pose proof (lookup_lt_Some _ _ _ Hb) as Hlt. pose proof (wfm_len _ _ Hwf).
    destruct (Hw (Z.to_nat (-1 - b_id b)) b ltac:(lia) Hb) as (w & Hwk & Hn & Hp). exists w. split; [done|].
    split; [done|]. by left.
Qed.
End scratch.

(** ** The interpreter keeps its state valid *)

Record rule_limits (env : choose_env) (rank : Z → nat) (fuel : nat) (T L : Z) : Prop := {
  rl_tries : 1 <= T < 2 ^ 31 ∧ (Z.to_nat T + 1 < fuel)%nat;
  rl_depth : 0 <= L ∧ ∃ (S : Z) (R : nat), 0 <= S ∧ L + S < 2 ^ 30
    ∧ (∀ b, map_bucket (e_map env) b → b_size b <= S ∧ (rank (b_id b) <= R)%nat)
    ∧ (Datatypes.S R * (Z.to_nat (L + S) + 2) < fuel)%nat }.

Record tunables_ok (T L : Z) (t : rule_tunables) : Prop := {
  tk_tries : 0 < rt_choose_tries t <= T;
  tk_leaf : 0 <= rt_choose_leaf_tries t <= T;
  tk_retries : 0 <= rt_local_retries t <= L;
  tk_fallback : 0 <= rt_local_fallback_retries t <= L;
  tk_vary : 0 <= rt_vary_r t <= 32 }.

(** A step within the limits: what it sets is bounded, what it asks for is an [int]. *)
Definition step_ok (T L : Z) (st : crush_rule_step) : Prop :=
  let op := step_op st in
  (op = CRUSH_RULE_SET_CHOOSE_TRIES ∨ op = CRUSH_RULE_SET_CHOOSELEAF_TRIES → step_arg1 st <= T)
  ∧ (op = CRUSH_RULE_SET_CHOOSE_LOCAL_TRIES ∨ op = CRUSH_RULE_SET_CHOOSE_LOCAL_FALLBACK_TRIES →
     step_arg1 st <= L)
  ∧ (op = CRUSH_RULE_SET_CHOOSELEAF_VARY_R → step_arg1 st <= 32)
  ∧ step_arg1 st < 2 ^ 31.

Section run.
Context (env : choose_env) (rank : Z → nat) (Henv : wf_env env rank).
#[local] Abbreviation m := (e_map env).
Context (fuel : nat) (T L result_max : Z).
Hypothesis Hdevices : max_devices m <= CRUSH_ITEM_UNDEF.
Hypothesis Hlim : rule_limits env rank fuel T L.
Hypothesis Hmax : 0 < result_max < 2 ^ 31 - 1.

(** What a vector of the scratch memory may hold: a device, no item, or a bucket. *)
Definition entry_ok (a : Z) : Prop :=
  0 <= a ∨ ∃ b, buckets m !! Z.to_nat (-1 - a) = Some (Some b).

Definition entries_ok (n : Z) (l : list Z) : Prop :=
  ∀ i, 0 <= i < n → ∃ a, l !! Z.to_nat i = Some a ∧ entry_ok a.

Record rule_inv (s : rule_state) : Prop := {
  ri_work : wf_work m (rs_work s);
  ri_w : Z.of_nat (length (rs_w s)) = result_max;
  ri_o : Z.of_nat (length (rs_o s)) = result_max;
  ri_c : Z.of_nat (length (rs_c s)) = result_max;
  ri_wsize : 0 <= rs_wsize s <= result_max;
  ri_entries : entries_ok (rs_wsize s) (rs_w s);
  ri_result : Z.of_nat (length (rs_result s)) = result_max;
  ri_result_len : 0 <= rs_result_len s <= result_max;
  ri_tun : tunables_ok T L (rs_tun s) }.

Lemma entry_ok_type item t : has_type env item t → entry_ok item.
Proof.
  intros [[? _]|(Hneg & _ & b & [Hid Hb] & Heq & _)]; [left; lia|right].
  exists b. by rewrite <- Heq.
Qed.

Record choose_inv (recurse_to_leaf : bool) (cs : choose_state) : Prop := {
  ci_work : wf_work m (cs_work cs);
  ci_o : Z.of_nat (length (cs_o cs)) = result_max;
  ci_c : Z.of_nat (length (cs_c cs)) = result_max;
  ci_osize : 0 <= cs_osize cs <= result_max;
  ci_entries : entries_ok (cs_osize cs) (if recurse_to_leaf then cs_c cs else cs_o cs) }.

Lemma entries_ok_put k n (l l' : list Z) :
  0 <= k <= Z.of_nat (length l) → entries_ok k l → entries_ok n l' →
  entries_ok (k + n) (take (Z.to_nat k) l ++ l').
Proof.
  intros Hk Hl Hl' i Hi. destruct (Z.lt_ge_cases i k).
  - destruct (Hl i ltac:(lia)) as (a & Ha & ?). exists a. split; [|done].
    rewrite lookup_app_l by (rewrite length_take; lia). by rewrite lookup_take_lt by lia.
  - destruct (Hl' (i - k) ltac:(lia)) as (a & Ha & ?). exists a. split; [|done].
    rewrite lookup_app_r by (rewrite length_take; lia). rewrite <- Ha. f_equal.
    rewrite length_take. lia.
Qed.

Lemma choose_inv_put recurse_to_leaf cs v n out2 :
  choose_inv recurse_to_leaf cs → wf_work m (v_work v) → v_out2 v = Some out2 →
  length (v_out v) = length (drop (Z.to_nat (cs_osize cs)) (cs_o cs)) →
  length out2 = length (drop (Z.to_nat (cs_osize cs)) (cs_c cs)) →
  0 <= n <= result_max - cs_osize cs →
  entries_ok n (if recurse_to_leaf then out2 else v_out v) →
  choose_inv recurse_to_leaf (put_vectors cs v (cs_osize cs + n)).
Proof.
  intros [Hw Ho Hc Hos He] Hw' H2 Hlo Hlc Hn Hent. rewrite length_drop in Hlo, Hlc.
  unfold put_vectors. rewrite H2. split; cbn [cs_work cs_o cs_c cs_osize].
  - done.
  - rewrite length_app, length_take. lia.
  - rewrite length_app, length_take. lia.
  - lia.
  - destruct recurse_to_leaf; apply entries_ok_put; try done; lia.
Qed.

Lemma firstn_limits_of t recurse_tries :
  tunables_ok T L t → 0 <= recurse_tries <= T →
  firstn_limits env rank (FirstnTunables (u32 (rt_local_retries t)) (u32 (rt_local_fallback_retries t))
    (u32 (rt_vary_r t)) (u32 (rt_stable t))) fuel (u32 (rt_choose_tries t)) (u32 recurse_tries).
Proof.
  intros [H1 H2 H3 H4 H5] Hr. destruct Hlim as [[HT Hf] (HL & S & R & HS & HLS & Hb & Hfuel)].
  rewrite (u32_small (rt_local_retries t)), (u32_small (rt_local_fallback_retries t)),
    (u32_small (rt_vary_r t)), (u32_small (rt_choose_tries t)), (u32_small recurse_tries) by lia.
  split; cbn [vary_r local_retries local_fallback_retries]; [lia|lia|].
  exists (L + S), R. split_and!; try lia.
  - intros b Hmb. specialize (Hb b Hmb). lia.
  - intros b Hmb. by apply Hb.
Qed.

Lemma choose_one_wp t firstn recurse_to_leaf arg1 arg2 wi cs :
  tunables_ok T L t → arg1 < 2 ^ 31 → entry_ok wi → choose_inv recurse_to_leaf cs →
  wp (choose_one env fuel result_max t firstn recurse_to_leaf arg1 arg2 wi cs)
    (choose_inv recurse_to_leaf).
Proof.
  intros Ht Harg Hwi Hcs. unfold choose_one. cbv zeta.
  set (numrep := if arg1 <=? 0 then arg1 + result_max else arg1).
  assert (Hnr : numrep < 2 ^ 31) by (subst numrep; destruct (Z.leb_spec arg1 0); lia).
  clearbody numrep. destruct (Z.leb_spec numrep 0); [done|].
  destruct ((-1 - wi <? 0) || (-1 - wi >=? max_buckets m)) eqn:Hbno; [done|]. bool_to_prop.
  destruct Hwi as [?|[b Hb]]; [lia|].
  rewrite (aget_Some _ _ (Some b)) by (done || lia). cbn [mbind outcome_bind deref].
  destruct (map_bucket_at env rank Henv wi b ltac:(lia) Hb) as (Hmb & _ & _ & _).
  pose proof Hcs as [Hw Ho Hc Hos _]. pose proof Ht as [Ht1 Ht2 _ _ _].
  pose proof Hlim as [[HT HfT] _].
  assert (Hfit : ∀ r, vec_fits r 0 (result_max - cs_osize cs) (get_vectors cs)).
  { intros r. split; cbn [v_out v_out2 get_vectors].
    - rewrite length_drop. lia.
    - intros _. eexists. split; [done|]. rewrite length_drop. lia. }
  destruct firstn.
  - assert (Hrt : 0 <= (if nonzero (rt_choose_leaf_tries t) then rt_choose_leaf_tries t
      else if nonzero (chooseleaf_descend_once m) then 1 else rt_choose_tries t) <= T)
      by (repeat case_match; lia).
    apply wp_bind. eapply wp_mono;
      [apply (crush_choose_firstn_wp env rank Henv _ _ _ _ (firstn_limits_of t _ Ht Hrt));
       [done|done|lia|lia|lia|apply Hfit]|].
    intros [n v] [Hn [Hw' [Hlo _] Hout Hout2 Hleaf]]. cbn [wp].
    unfold out2_same in Hout2. cbn [v_out2 get_vectors] in Hout2.
    destruct (v_out2 v) as [out2|] eqn:H2; [|done]. destruct Hout2 as [Hl2 _].
    eapply choose_inv_put; try done.
    intros i Hi. destruct recurse_to_leaf.
    + destruct (Hleaf eq_refl i Hi) as (item & l & lf & _ & Hl & Hlf). rewrite H2 in Hl.
      injection Hl as <-. exists lf.
      destruct Hlf as [(? & -> & ?)|(_ & b' & _ & (? & ? & _))]; (split; [done|left; lia]).
    + destruct (Hout i Hi) as (item & ? & _ & Hty & _). exists item. split; [done|].
      by eapply entry_ok_type.
  - set (out_size := if numrep <? result_max - cs_osize cs then numrep else result_max - cs_osize cs).
    assert (Hos' : 0 <= out_size <= result_max - cs_osize cs)
      by (subst out_size; destruct (Z.ltb_spec numrep (result_max - cs_osize cs)); lia).
    clearbody out_size.
    assert (Hrt : 0 <= (if nonzero (rt_choose_leaf_tries t) then rt_choose_leaf_tries t else 1) <= T)
      by (case_match; lia).
    rewrite !u32_small by lia. apply wp_bind. eapply wp_mono.
    + apply (crush_choose_indep_wp env rank Henv Hdevices); try done; try lia.
      * destruct Hlim as [_ (HL & S & R & HS & HLS & Hb' & Hfuel)]. split; [|lia].
        intros b' Hmb'. destruct (Hb' b' Hmb') as [_ ?]. nia.
      * cbn [v_out get_vectors]. rewrite length_drop. lia.
      * cbn [v_out2 get_vectors]. rewrite length_drop. lia.
    + intros v (Hw' & [Hlo _] & Hout2 & Hent). cbn [wp].
      unfold out2_outside in Hout2. cbn [v_out2 get_vectors] in Hout2.
      destruct (v_out2 v) as [out2|] eqn:H2; [|done]. destruct Hout2 as [Hl2 _].
      eapply choose_inv_put; try done.
      intros i Hi. destruct (Hent i Hi) as (a & Ha & Hcase & Hlf). destruct recurse_to_leaf.
      * destruct (Hlf eq_refl) as (l & lf & Hl & Hlook & Hge & _). rewrite H2 in Hl.
        injection Hl as <-. exists lf. split; [done|by left].
      * exists a. split; [done|]. destruct Hcase as [->|(_ & Hty & _)]; [by left|].
        by eapply entry_ok_type.
Qed.

Lemma take_step_wp arg1 s : rule_inv s → wp (take_step env arg1 s) rule_inv.
Proof.
  intros [Hw Hlw Ho Hc Hws He Hr Hrl Ht]. unfold take_step.
  assert (Hok : wp (if (arg1 >=? 0) && (arg1 <? max_devices m) then Ret true
        else if (-1 - arg1 >=? 0) && (-1 - arg1 <? max_buckets m) then
          o ← aget (buckets m) (-1 - arg1);
          Ret match o with Some _ => true | None => false end
        else Ret false) (λ ok, if ok : bool then entry_ok arg1 else True)).
  { destruct ((arg1 >=? 0) && _) eqn:H1; [bool_to_prop; left; lia|].
    destruct ((-1 - arg1 >=? 0) && (-1 - arg1 <? max_buckets m)) eqn:H2; [|done]. bool_to_prop.
    destruct (bucket_slot m rank (wf_env_map _ _ Henv) (-1 - arg1) ltac:(lia)) as [o Hb].
    rewrite (aget_Some _ _ o) by (done || lia). cbn [mbind outcome_bind wp].
    destruct o as [b|]; [|done]. right. by exists b. }
  apply wp_bind. eapply wp_mono; [exact Hok|]. intros [] Hent; [|done].
  apply wp_bind, wp_aset; [lia|]. cbn [wp].
  split; cbn; try done; [by rewrite length_insert|lia|].
  intros i Hi. replace i with 0 by lia. exists arg1. split; [|done].
  apply list_lookup_insert_eq. lia.
Qed.

Lemma choose_step_wp firstn recurse_to_leaf arg1 arg2 s :
  arg1 < 2 ^ 31 → rule_inv s →
  wp (choose_step env fuel result_max firstn recurse_to_leaf arg1 arg2 s) rule_inv.
Proof.
  intros Harg Hs. pose proof Hs as [Hw Hlw Ho Hc Hws He Hr Hrl Ht]. unfold choose_step.
  destruct (Z.eqb_spec (rs_wsize s) 0); [done|]. apply wp_bind.
  eapply wp_mono; [apply (wp_for_range_0 (λ _ cs, choose_inv recurse_to_leaf cs)); [lia| |]|].
  - intros i cs Hi Hcs. destruct (He i Hi) as (wi & Hwi & Hent).
    rewrite (aget_Some _ _ wi) by (done || lia). by apply choose_one_wp.
  - split; cbn; try done; [lia|]. intros i ?. lia.
  - intros cs [Hw' Ho' Hc' Hos He']. cbv zeta. destruct recurse_to_leaf.
    + unfold require. rewrite !(proj2 (Z.leb_le _ _)) by lia. cbn [mbind outcome_bind wp].
      split; cbn; try done.
      * rewrite length_app, length_take, length_drop. lia.
      * intros i Hi. destruct (He' i Hi) as (a & Ha & ?). exists a. split; [|done].
        rewrite lookup_app_l by (rewrite length_take; lia). by rewrite lookup_take_lt by lia.
    + cbn [mbind outcome_bind wp]. split; cbn; done.
Qed.

Lemma emit_step_wp s : rule_inv s → wp (emit_step result_max s) rule_inv.
Proof.
  intros [Hw Hlw Ho Hc Hws He Hr Hrl Ht]. unfold emit_step. apply wp_bind.
  eapply wp_mono; [apply (wp_loop (λ '(i, result, n), 0 <= i
      ∧ Z.of_nat (length result) = result_max ∧ 0 <= n <= result_max)
    (λ '(i, _, _), Z.to_nat (rs_wsize s - i))
    (λ '(result, n), Z.of_nat (length result) = result_max ∧ 0 <= n <= result_max))|].
  - intros [[i result] n] (Hi & Hlen & Hn). unfold emit_loop_step.
    destruct ((i <? rs_wsize s) && (n <? result_max)) eqn:Hb; [|done]. bool_to_prop.
    destruct (He i ltac:(lia)) as (a & Ha & _). rewrite (aget_Some _ _ a) by (done || lia).
    cbn [mbind outcome_bind]. apply wp_bind, wp_aset; [lia|]. cbn [wp].
    rewrite length_insert. lia.
  - split_and!; [lia|done|lia|lia].
  - lia.
  - intros [result n] [Hlen Hn]. cbn [wp]. split; cbn; try done; [lia|]. intros i ?. lia.
Qed.

Lemma rule_inv_set_tun s t : rule_inv s → tunables_ok T L t → rule_inv (set_tun s t).
Proof. intros [? ? ? ? ? ? ? ? ?] ?. by split. Qed.

Lemma run_step_wp st s : step_ok T L st → rule_inv s → wp (run_step env fuel result_max st s) rule_inv.
Proof.
  intros (Hk1 & Hk2 & Hk3 & Harg) Hs. pose proof (ri_tun _ Hs) as [H1 H2 H3 H4 H5].
  unfold run_step. cbv zeta.
  destruct (Z.eqb_spec (step_op st) CRUSH_RULE_TAKE); [by apply take_step_wp|].
  destruct (Z.eqb_spec (step_op st) CRUSH_RULE_SET_CHOOSE_TRIES).
  { cbn [wp]. rewrite Z.gtb_ltb. destruct (Z.ltb_spec 0 (step_arg1 st)); [|done].
    apply rule_inv_set_tun; [done|]. split; cbn; lia. }
  destruct (Z.eqb_spec (step_op st) CRUSH_RULE_SET_CHOOSELEAF_TRIES).
  { cbn [wp]. rewrite Z.gtb_ltb. destruct (Z.ltb_spec 0 (step_arg1 st)); [|done].
    apply rule_inv_set_tun; [done|]. split; cbn; lia. }
  destruct (Z.eqb_spec (step_op st) CRUSH_RULE_SET_CHOOSE_LOCAL_TRIES).
  { cbn [wp]. rewrite Z.geb_leb. destruct (Z.leb_spec 0 (step_arg1 st)); [|done].
    apply rule_inv_set_tun; [done|]. split; cbn; lia. }
  destruct (Z.eqb_spec (step_op st) CRUSH_RULE_SET_CHOOSE_LOCAL_FALLBACK_TRIES).
  { cbn [wp]. rewrite Z.geb_leb. destruct (Z.leb_spec 0 (step_arg1 st)); [|done].
    apply rule_inv_set_tun; [done|]. split; cbn; lia. }
  destruct (Z.eqb_spec (step_op st) CRUSH_RULE_SET_CHOOSELEAF_VARY_R).
  { cbn [wp]. rewrite Z.geb_leb. destruct (Z.leb_spec 0 (step_arg1 st)); [|done].
    apply rule_inv_set_tun; [done|]. split; cbn; lia. }
  destruct (Z.eqb_spec (step_op st) CRUSH_RULE_SET_CHOOSELEAF_STABLE).
  { cbn [wp]. rewrite Z.geb_leb. destruct (Z.leb_spec 0 (step_arg1 st)); [|done].
    apply rule_inv_set_tun; [done|]. split; cbn; lia. }
  repeat (case_match; [by apply choose_step_wp|]).
  case_match; [by apply emit_step_wp|done].
Qed.

Lemma map_tunables_ok :
  0 <= choose_total_tries m < T → 0 <= choose_local_tries m <= L →
  0 <= choose_local_fallback_tries m <= L → 0 <= chooseleaf_vary_r m <= 32 →
  tunables_ok T L (map_tunables env).
Proof.
  intros Ht Hl Hf Hv. pose proof Hlim as [[HT _] (HL & S & R & HS & HLS & _)].
  unfold map_tunables. split; cbn; rewrite ?s32_small; lia.
Qed.

Lemma crush_do_rule_wp ruleno rule work a b c result :
  rules m !! Z.to_nat ruleno = Some (Some rule) → 0 <= ruleno < max_rules m → max_rules m < 2 ^ 31 →
  0 <= rule_len rule <= Z.of_nat (length (rule_steps rule)) → Forall (step_ok T L) (rule_steps rule) →
  tunables_ok T L (map_tunables env) → wf_work m work →
  Z.of_nat (length a) = result_max → Z.of_nat (length b) = result_max →
  Z.of_nat (length c) = result_max → Z.of_nat (length result) = result_max →
  wp (crush_do_rule env fuel result_max ruleno work a b c result) (λ '(n, result', work'),
    0 <= n <= result_max ∧ Z.of_nat (length result') = result_max ∧ wf_work m work').
Proof.
  intros Hrule Hno Hmr Hlen Hsteps Ht Hw Ha Hb Hc Hr. unfold crush_do_rule.
  rewrite u32_small, Z.geb_leb, (proj2 (Z.leb_gt _ _)) by lia.
  rewrite (aget_Some _ _ (Some rule)) by (done || lia). cbn [mbind outcome_bind deref].
  apply wp_bind. eapply wp_mono; [apply (wp_for_range_0 (λ _ s, rule_inv s)); [lia| |]|].
  - intros i s Hi Hs. destruct (lookup_Z_Some (rule_steps rule) i ltac:(lia)) as [st Hst].
    rewrite (aget_Some _ _ st) by (done || lia). cbn [mbind outcome_bind].
    apply run_step_wp; [|done]. by eapply Forall_lookup_1.
  - split; cbn; try done; try lia. intros i ?. lia.
  - intros s [Hw' _ _ _ _ _ Hr' Hn' _]. done.
Qed.

(** *** The usual replicated rule *)

Lemma below_trans b item b' lf :
  below m b item → map_bucket m b → bucket_at m item = Ret b' → item < 0 → below m b' lf →
  below m b lf.
Proof.
  intros Hbel. induction Hbel as [b item Hitem|b i1 b1 item Hi1 Hneg Hlook Hbel IH];
    intros Hmb Hat Hitem0 Hlf.
  - destruct (item_bucket env rank Henv b item Hmb Hitem Hitem0) as (b2 & Hb2 & _ & _ & Hat2 & _).
    assert (b2 = b') as -> by congruence. by eapply below_bucket.
  - eapply below_bucket; [done|done|done|]. apply IH; try done.
    by destruct (map_bucket_at env rank Henv i1 b1 Hneg Hlook).
Qed.

(** Emitting copies the vector. *)
Lemma emit_step_copies s :
  rs_result_len s = 0 → 0 <= rs_wsize s <= result_max →
  rs_wsize s <= Z.of_nat (length (rs_w s)) → Z.of_nat (length (rs_result s)) = result_max →
  wp (emit_step result_max s) (λ s', rs_result_len s' = rs_wsize s ∧ rs_work s' = rs_work s
    ∧ take (Z.to_nat (rs_wsize s)) (rs_result s') = take (Z.to_nat (rs_wsize s)) (rs_w s)).
Proof.
  intros H0 Hws Hw Hr. unfold emit_step. rewrite H0. apply wp_bind.
  eapply wp_mono; [apply (wp_loop (λ '(i, result, n), i = n ∧ 0 <= n <= rs_wsize s
      ∧ Z.of_nat (length result) = result_max ∧ take (Z.to_nat n) result = take (Z.to_nat n) (rs_w s))
    (λ '(i, _, _), Z.to_nat (rs_wsize s - i))
    (λ '(result, n), n = rs_wsize s ∧ take (Z.to_nat n) result = take (Z.to_nat n) (rs_w s)))|].
  - intros [[i result] n] (-> & Hn & Hlen & Heq). unfold emit_loop_step.
    destruct ((n <? rs_wsize s) && (n <? result_max)) eqn:Hb.
    + bool_to_prop. destruct (lookup_Z_Some (rs_w s) n ltac:(lia)) as [a Ha].
      rewrite (aget_Some _ _ a) by (done || lia). cbn [mbind outcome_bind].
      apply wp_bind, wp_aset; [lia|]. cbn [wp]. split; [|lia].
      split_and!; [done|lia|lia|by rewrite length_insert|].
      replace (Z.to_nat (n + 1)) with (S (Z.to_nat n)) by lia.
      rewrite (take_S_r (rs_w s) _ a Ha), (take_S_r _ _ a) by (apply list_lookup_insert_eq; lia).
      by rewrite take_insert_ge, Heq by lia.
    + cbn [wp]. split; [|done]. apply andb_false_iff in Hb as [?%Z.ltb_ge|?%Z.ltb_ge]; lia.
  - split; [done|]. split; [lia|]. done.
  - lia.
  - intros [result n] [-> Heq]. done.
Qed.

(** The devices a rule may return. *)
Definition device_ok (root : crush_bucket) (d : Z) : Prop :=
  0 <= d < max_devices m ∧ in_cluster env d ∧ below m root d.

Lemma choose_one_leaf_wp t arg1 arg2 root work b c :
  tunables_ok T L t → arg1 < 2 ^ 31 → 0 < (if arg1 <=? 0 then arg1 + result_max else arg1) →
  map_bucket m root → wf_work m work →
  Z.of_nat (length b) = result_max → Z.of_nat (length c) = result_max →
  wp (choose_one env fuel result_max t true true arg1 arg2 (b_id root) (ChooseState work b c 0))
    (λ cs, wf_work m (cs_work cs) ∧ 0 <= cs_osize cs <= result_max
      ∧ Z.of_nat (length (cs_o cs)) = result_max ∧ Z.of_nat (length (cs_c cs)) = result_max
      ∧ NoDup (take (Z.to_nat (cs_osize cs)) (cs_c cs))
      ∧ Forall (device_ok root) (take (Z.to_nat (cs_osize cs)) (cs_c cs))).
Proof.
  intros Ht Harg Hnum Hroot Hw Hb Hc. unfold choose_one. cbv zeta.
  set (numrep := if arg1 <=? 0 then arg1 + result_max else arg1) in *.
  rewrite (proj2 (Z.leb_gt numrep 0)) by lia. pose proof Hroot as [Hneg Hlook].
  destruct (map_bucket_at env rank Henv (b_id root) root Hneg Hlook) as (_ & _ & _ & Hlt).
  rewrite Z.geb_leb, (proj2 (Z.ltb_ge _ _)), (proj2 (Z.leb_gt _ _)) by lia. cbn [orb].
  rewrite (aget_Some _ _ (Some root)) by (done || lia). cbn [mbind outcome_bind deref].
  pose proof Ht as [Ht1 Ht2 _ _ _]. pose proof Hlim as [[HT HfT] _].
  assert (Hrt : 0 <= (if nonzero (rt_choose_leaf_tries t) then rt_choose_leaf_tries t
    else if nonzero (chooseleaf_descend_once m) then 1 else rt_choose_tries t) <= T)
    by (repeat case_match; lia).
  apply wp_bind. eapply wp_mono;
    [apply (crush_choose_firstn_wp env rank Henv _ _ _ _ (firstn_limits_of t _ Ht Hrt));
     [done|done|lia|cbn [cs_osize]; lia|cbn [cs_osize]; lia|]|].
  { split; cbn [v_out v_out2 get_vectors cs_o cs_c cs_osize]; change (Z.to_nat 0) with 0%nat;
      [rewrite length_drop; lia|]. intros _. eexists. split; [done|rewrite length_drop; lia]. }
  intros [n v] [Hn Hch]. cbn [cs_osize] in *. pose proof Hch as [Hw' [Hlo _] Hout Hout2 _].
  unfold out2_same in Hout2. cbn in Hout2. destruct (v_out2 v) as [out2|] eqn:H2; [|done].
  destruct Hout2 as [Hl2 _].
  destruct (chosen_replicas_ok env root arg2 true _ v n ltac:(lia) Hch) as (_ & _ & Hall & Hleaf).
  { intros _. by rewrite H2. }
  destruct (Hleaf eq_refl) as (l & Hl & Hnd & Hf2). rewrite H2 in Hl. injection Hl as <-.
  cbn [mbind outcome_bind wp]. unfold put_vectors. rewrite H2. cbn [cs_work cs_o cs_c cs_osize].
  cbn [v_out get_vectors cs_o cs_osize] in Hlo. rewrite length_drop in Hlo, Hl2.
  change (Z.to_nat 0) with 0%nat in *. rewrite !take_0. cbn [app]. rewrite Z.add_0_l.
  split_and!; [done|lia|lia|lia|lia|done|].
  apply Forall_lookup. intros i lf Hlf.
  destruct (Forall2_lookup_r _ _ _ _ _ Hf2 Hlf) as (item & Hitem & Hd & Hcl & Hat).
  rewrite Forall_lookup in Hall. destruct (Hall i item Hitem) as (Hbel & Hty & _).
  split_and!; [lia|lia|done|]. destruct Hat as [->|(b' & Hat & Hbel')]; [done|].
  destruct Hty as [[Hge _]|[Hi _]]; [|by eapply below_trans].
  exfalso. unfold bucket_at, aget in Hat. by rewrite (proj2 (Z.ltb_lt _ _)) in Hat by lia.
Qed.

Lemma crush_do_rule_chooseleaf_wp ruleno rule root arg1 arg2 work a b c result :
  rules m !! Z.to_nat ruleno = Some (Some rule) → 0 <= ruleno < max_rules m → max_rules m < 2 ^ 31 →
  rule_len rule = 3 →
  rule_steps rule = [CrushRuleStep CRUSH_RULE_TAKE (b_id root) 0;
    CrushRuleStep CRUSH_RULE_CHOOSELEAF_FIRSTN arg1 arg2; CrushRuleStep CRUSH_RULE_EMIT 0 0] →
  map_bucket m root → arg1 < 2 ^ 31 → 0 < (if arg1 <=? 0 then arg1 + result_max else arg1) →
  tunables_ok T L (map_tunables env) → wf_work m work →
  Z.of_nat (length a) = result_max → Z.of_nat (length b) = result_max →
  Z.of_nat (length c) = result_max → Z.of_nat (length result) = result_max →
  wp (crush_do_rule env fuel result_max ruleno work a b c result) (λ '(n, result', work'),
    0 <= n <= result_max ∧ NoDup (take (Z.to_nat n) result')
    ∧ Forall (device_ok root) (take (Z.to_nat n) result') ∧ wf_work m work').
Proof.
  intros Hrule Hno Hmr Hlen Hsteps Hroot Harg Hnum Ht Hw Ha Hb Hc Hr. unfold crush_do_rule.
  rewrite u32_small, Z.geb_leb, (proj2 (Z.leb_gt _ _)) by lia.
  rewrite (aget_Some _ _ (Some rule)) by (done || lia). cbn [mbind outcome_bind deref].
  rewrite Hlen, Hsteps. change (Z.to_nat 3) with 3%nat. cbn [for_range].
  change (0 + 1) with 1. change (1 + 1) with 2.
  set (s0 := RuleState work a b c 0 result 0 (map_tunables env)).
  assert (Htake : take_step env (b_id root) s0 = Ret (set_w s0 (<[0%nat := b_id root]> a) 1)).
  { pose proof Hroot as [Hneg Hlook].
    destruct (map_bucket_at env rank Henv (b_id root) root Hneg Hlook) as (_ & _ & _ & Hlt).
    unfold take_step. rewrite !Z.geb_leb, (proj2 (Z.leb_gt 0 _)) by lia. cbn [andb].
    rewrite (proj2 (Z.leb_le 0 _)), (proj2 (Z.ltb_lt _ _)) by lia. cbn [andb].
    rewrite (aget_Some _ _ (Some root)) by (done || lia). cbn [mbind outcome_bind rs_w s0].
    by rewrite aset_eq by lia. }
  apply wp_bind. apply wp_bind.
  change (wp (take_step env (b_id root) s0)
    (λ s, wp (s1 ← choose_step env fuel result_max true true arg1 arg2 s;
              s2 ← emit_step result_max s1; Ret s2) (λ s, wp (Ret (rs_result_len s, rs_result s, rs_work s))
      (λ '(n, result', work'), 0 <= n <= result_max ∧ NoDup (take (Z.to_nat n) result')
        ∧ Forall (device_ok root) (take (Z.to_nat n) result') ∧ wf_work m work')))).
  rewrite Htake. cbn [wp]. apply wp_bind.
  assert (Hstep : wp (choose_step env fuel result_max true true arg1 arg2
      (set_w s0 (<[0%nat := b_id root]> a) 1))
    (λ s, wf_work m (rs_work s) ∧ 0 <= rs_wsize s <= result_max
      ∧ Z.of_nat (length (rs_w s)) = result_max ∧ rs_result s = result ∧ rs_result_len s = 0
      ∧ NoDup (take (Z.to_nat (rs_wsize s)) (rs_w s))
      ∧ Forall (device_ok root) (take (Z.to_nat (rs_wsize s)) (rs_w s)))).
  { unfold choose_step. cbn [rs_wsize set_w rs_w rs_tun rs_work rs_o rs_c s0].
    change (1 =? 0) with false. change (Z.to_nat 1) with 1%nat. cbn [for_range].
    apply wp_bind, wp_bind.
    rewrite (aget_Some _ 0 (b_id root)) by (lia || (apply list_lookup_insert_eq; lia)).
    cbn [mbind outcome_bind].
    eapply wp_mono; [by apply (choose_one_leaf_wp _ arg1 arg2 root work b c)|].
    intros cs (Hw' & Hos & Ho' & Hc' & Hnd & Hall). cbn [wp]. unfold require.
    rewrite !(proj2 (Z.leb_le _ _)) by lia. cbn [mbind outcome_bind wp rs_work rs_wsize rs_w].
    assert (Htk : take (Z.to_nat (cs_osize cs))
        (take (Z.to_nat (cs_osize cs)) (cs_c cs) ++ drop (Z.to_nat (cs_osize cs)) (cs_o cs))
      = take (Z.to_nat (cs_osize cs)) (cs_c cs)).
    { rewrite take_app_le, take_take by (rewrite length_take; lia). f_equal. lia. }
    rewrite Htk. split_and!; try done; try lia.
    rewrite length_app, length_take, length_drop. lia. }
  eapply wp_mono; [exact Hstep|]. intros s (Hws & Hsz & Hlw & Hres & Hrl & Hnd & Hall).
  apply wp_bind. eapply wp_mono; [apply emit_step_copies; [done|done|lia|by rewrite Hres]|].
  intros s' (Hn & Hwk & Htk). cbn [wp]. rewrite Hn, Htk, Hwk. done.
Qed.
End run.

(** * Properties *)

(** The memory [crush_finalize] counts is exactly what [crush_init_workspace] lays out: on
    any well-formed map its closing check passes, whatever the memory held before, and every
    bucket gets a permutation cache of its size, valid from the start. *)
Theorem crush_init_workspace_fits (m : crush_map) (rank : Z → nat) (mem : Z → Z)
    (Hwf : wf_map m rank) :
  wp (m' ← crush_finalize m; crush_init_workspace m' mem)
    (λ work, Z.of_nat (length work) = max_buckets m ∧ wf_work m work).
Proof.
  apply wp_bind. eapply wp_mono; [by eapply wp_and; [apply (crush_finalize_wp m rank Hwf)|
    apply (crush_finalize_fields m rank Hwf)]|].
  intros m' ((Hws & Hb & Hmb) & Hwf').
  pose proof (crush_init_workspace_wp m' rank Hwf' mem) as H.
  unfold space_upto, wf_work, map_bucket in *. rewrite Hb, Hmb in *. apply H; [|done].
  intros i b Hib. pose proof (wfm_id _ _ Hwf i b Hib) as Hid.
  rewrite <- (wfb_items b); [lia|]. apply (wfm_bucket _ _ Hwf). split; [lia|].
  by replace (Z.to_nat (-1 - b_id b)) with i by lia.
Qed.

Lemma crush_init_workspace_fits_witness :
  wf_map ex_map ex_rank ∧
  wp (m' ← crush_finalize ex_map; crush_init_workspace m' (λ v, v))
    (λ work, Z.of_nat (length work) = 3 ∧ wf_work ex_map work).
Proof.
  split; [exact wf_ex_map|]. apply (crush_init_workspace_fits ex_map ex_rank (λ v, v) wf_ex_map).
Defined.

(** C18: every placement rule is safe to run.  On a well-formed map, whatever its steps, as long
    as they set no tunable above the limits, running it ends, follows no null or stray bucket
    pointer, stays inside the scratch vectors and the result, and returns at most [result_max]
    entries; the workspace can be used again. *)
Theorem crush_do_rule_safe (env : choose_env) (rank : Z → nat) (fuel : nat) (T L result_max : Z)
    (ruleno : Z) (rule : crush_rule) (work : crush_work) (a b c result : list Z)
    (Henv : wf_env env rank) (Hdevices : max_devices (e_map env) <= CRUSH_ITEM_UNDEF)
    (Hlim : rule_limits env rank fuel T L) (Hmax : 0 < result_max < 2 ^ 31 - 1)
    (Hrule : rules (e_map env) !! Z.to_nat ruleno = Some (Some rule))
    (Hno : 0 <= ruleno < max_rules (e_map env)) (Hmr : max_rules (e_map env) < 2 ^ 31)
    (Hlen : 0 <= rule_len rule <= Z.of_nat (length (rule_steps rule)))
    (Hsteps : Forall (step_ok T L) (rule_steps rule))
    (Htun : tunables_ok T L (map_tunables env)) (Hwork : wf_work (e_map env) work)
    (Ha : Z.of_nat (length a) = result_max) (Hb : Z.of_nat (length b) = result_max)
    (Hc : Z.of_nat (length c) = result_max) (Hr : Z.of_nat (length result) = result_max) :
  wp (crush_do_rule env fuel result_max ruleno work a b c result) (λ '(n, result', work'),
    0 <= n <= result_max ∧ Z.of_nat (length result') = result_max
    ∧ wf_work (e_map env) work').
Proof. by eapply crush_do_rule_wp. Qed.

Lemma ex_rule_limits : rule_limits ex_env ex_rank 100 51 0.
Proof.
  split; [lia|]. split; [lia|]. exists 2, 1%nat. split_and!; try lia.
  intros b H. apply ex_map_bucket in H as [-> | [-> | ->]]; unfold ex_rank; simpl; lia.
Qed.

Lemma ex_tunables_ok : tunables_ok 51 0 (map_tunables ex_env).
Proof. split; vm_compute; split; congruence. Qed.

Lemma crush_do_rule_safe_witness :
  wf_env ex_env ex_rank ∧
  wp (crush_do_rule ex_env 100 3 0 ex_workspace [0; 0; 0] [0; 0; 0] [0; 0; 0] [0; 0; 0])
    (λ '(n, result', work'), 0 <= n <= 3 ∧ Z.of_nat (length result') = 3 ∧ wf_work ex_map work').
Proof.
  split; [exact wf_ex_env|].
  apply (crush_do_rule_safe ex_env ex_rank 100 51 0 3 0 ex_rule ex_workspace [0; 0; 0] [0; 0; 0]
    [0; 0; 0] [0; 0; 0] wf_ex_env ltac:(vm_compute; discriminate) ex_rule_limits);
    try reflexivity; try exact wf_ex_workspace; try exact ex_tunables_ok; try (simpl; lia).
  repeat constructor; simpl; try lia; intros [H|H]; discriminate.
Defined.

(** C19: the usual replicated rule, take a bucket, choose leaves first-n, emit.  Its result is a
    list of at most [result_max] pairwise distinct devices, each existing, in the cluster (not
    out for this input) and below the bucket taken. *)
Theorem crush_do_rule_chooseleaf_firstn (env : choose_env) (rank : Z → nat) (fuel : nat)
    (T L result_max : Z) (ruleno : Z) (rule : crush_rule) (root : crush_bucket) (arg1 arg2 : Z)
    (work : crush_work) (a b c result : list Z)
    (Henv : wf_env env rank) (Hlim : rule_limits env rank fuel T L)
    (Hmax : 0 < result_max < 2 ^ 31 - 1)
    (Hrule : rules (e_map env) !! Z.to_nat ruleno = Some (Some rule))
    (Hno : 0 <= ruleno < max_rules (e_map env)) (Hmr : max_rules (e_map env) < 2 ^ 31)
    (Hlen : rule_len rule = 3)
    (Hsteps : rule_steps rule = [CrushRuleStep CRUSH_RULE_TAKE (b_id root) 0;
       CrushRuleStep CRUSH_RULE_CHOOSELEAF_FIRSTN arg1 arg2; CrushRuleStep CRUSH_RULE_EMIT 0 0])
    (Hroot : map_bucket (e_map env) root) (Harg : arg1 < 2 ^ 31)
    (Hnum : 0 < (if arg1 <=? 0 then arg1 + result_max else arg1))
    (Htun : tunables_ok T L (map_tunables env)) (Hwork : wf_work (e_map env) work)
    (Ha : Z.of_nat (length a) = result_max) (Hb : Z.of_nat (length b) = result_max)
    (Hc : Z.of_nat (length c) = result_max) (Hr : Z.of_nat (length result) = result_max) :
  wp (crush_do_rule env fuel result_max ruleno work a b c result) (λ '(n, result', work'),
    0 <= n <= result_max ∧ NoDup (take (Z.to_nat n) result')
    ∧ Forall (device_ok env root) (take (Z.to_nat n) result') ∧ wf_work (e_map env) work').
Proof. by eapply crush_do_rule_chooseleaf_wp. Qed.

Lemma crush_do_rule_chooseleaf_firstn_witness :
  wf_env ex_env ex_rank ∧
  wp (crush_do_rule ex_env 100 3 0 ex_workspace [0; 0; 0] [0; 0; 0] [0; 0; 0] [0; 0; 0])
    (λ '(n, result', work'), 0 <= n <= 3 ∧ NoDup (take (Z.to_nat n) result')
       ∧ Forall (device_ok ex_env ex_root) (take (Z.to_nat n) result') ∧ wf_work ex_map work').
Proof.
  split; [exact wf_ex_env|].
  apply (crush_do_rule_chooseleaf_firstn ex_env ex_rank 100 51 0 3 0 ex_rule ex_root 0 1
    ex_workspace [0; 0; 0] [0; 0; 0] [0; 0; 0] [0; 0; 0] wf_ex_env ex_rule_limits);
    try reflexivity; try exact wf_ex_workspace; try exact ex_tunables_ok; try (simpl; lia).
  by split.
Defined.

(** ** A limit of the positionally stable leaf rule

    With type 0 the item is its own leaf and is stored in [out2] before the test whether it is
    out; a position that gives up keeps it there, and the leaves are what the rule returns.  So
    the rule can return a device that is out of the cluster. *)
Definition ex_indep_rule : crush_rule :=
  CrushRule 3 (CrushRuleMask 0 1 1 10)
    [CrushRuleStep CRUSH_RULE_TAKE (-2) 0; CrushRuleStep CRUSH_RULE_CHOOSELEAF_INDEP 0 0;
     CrushRuleStep CRUSH_RULE_EMIT 0 0].
Definition ex_indep_env : choose_env :=
  ChooseEnv (CrushMap [Some ex_root; Some ex_host1; Some ex_host2] [Some ex_indep_rule]
               3 1 4 0 0 50 1 1 1 120 ∅ ∅ ∅) [0; 0; 0; 0] 4 42 None.

Lemma chooseleaf_indep_returns_out_device :
  ∃ d work, crush_do_rule ex_indep_env 100 1 0 ex_workspace [0] [0] [0] [0] = Ret (1, [d], work)
    ∧ 0 <= d < 4 ∧ out_of_cluster ex_indep_env d = Ret true.
Proof. eexists _, _. split; [vm_compute; reflexivity|]. split; [lia|]. vm_compute. reflexivity. Qed.
