(* ===== verification/Workspace.v ===== *)
(** * CRUSH workspaces (libceph/osdmap.c)

    Placement computations run concurrently, each on a scratch workspace of its own.  The map
    keeps idle ones, allocates up to a bound and makes tasks wait beyond it.  The bodies of
    [get_workspace] and [put_workspace] are cut at the points where the lock is taken or dropped
    and at each access outside it; tasks interleave at these cuts. *)
From S2P Require Import Prelude Hash Crush Mapper Choose DoRule.

(** ** The manager *)

(** A workspace in memory, by a number that names it. *)
Abbreviation handle := nat.

Record workspace_manager := WorkspaceManager {
  idle_ws : list handle; free_ws : Z; total_ws : Z }.

Definition init_workspace_manager : workspace_manager := WorkspaceManager [] 0 0.

Definition add_initial_workspace (wsm : workspace_manager) (work : handle) : workspace_manager :=
  WorkspaceManager (work :: idle_ws wsm) 1 1.

(** The workspaces freed, in order, and the manager left. *)
Definition cleanup_step (s : list handle * list handle)
    : outcome (list handle * list handle + list handle) :=
  let '(idle, freed) := s in
  match idle with
  | [] => Ret (inr freed)
  | work :: idle => Ret (inl (idle, freed ++ [work]))
  end.
Definition cleanup_workspace_manager (wsm : workspace_manager)
    : outcome (list handle * workspace_manager) :=
  freed ← loop (length (idle_ws wsm) + 1) cleanup_step (idle_ws wsm, []);
  Ret (freed, WorkspaceManager [] 0 0).

(** [None] is a failed allocation; [mem] is what the fresh memory holds. *)
Definition alloc_workspace (c : crush_map) (mem_ok : bool) (mem : Z → Z)
    : outcome (option crush_work) :=
  if mem_ok then work ← crush_init_workspace c mem; Ret (Some work) else Ret None.

(** ** One task *)

Inductive task :=
  | Outside
  | Again                      (* at the label [again] *)
  | Must_wait                  (* lock dropped, before [prepare_to_wait] *)
  | Prepared                   (* on the wait queue, before the condition *)
  | Prepared_full              (* [total_ws > cpus] was seen, before reading [free_ws] *)
  | Sleeping                   (* in [schedule] *)
  | Allocating                 (* counted in [total_ws], calling [alloc_workspace] *)
  | Alloc_failed               (* counted out again, before [wake_up] *)
  | Have (work : handle)       (* computing on its workspace *)
  | Put_freeing (work : handle) (* freed, before it is counted out *)
  | Put_wake.                  (* at the label [wake] *)

#[export] Instance task_eq_dec : EqDecision task.
Proof. solve_decision. Defined.

(** What a task does next: the new manager, its new place, and whether it wakes the queue.
    A sleeping task does nothing.  [alloc] is the allocation's outcome. *)
Definition task_step (cpus : Z) (alloc : option handle) (wsm : workspace_manager) (t : task)
    : option (workspace_manager * task * bool) :=
  match t with
  | Outside => Some (wsm, Again, false)
  | Again =>
      match idle_ws wsm with
      | work :: idle =>
          Some (WorkspaceManager idle (free_ws wsm - 1) (total_ws wsm), Have work, false)
      | [] =>
          if total_ws wsm >? cpus then Some (wsm, Must_wait, false)
          else Some (WorkspaceManager [] (free_ws wsm) (total_ws wsm + 1), Allocating, false)
      end
  | Must_wait => Some (wsm, Prepared, false)
  | Prepared =>
      if total_ws wsm >? cpus then Some (wsm, Prepared_full, false) else Some (wsm, Again, false)
  | Prepared_full =>
      if free_ws wsm =? 0 then Some (wsm, Sleeping, false) else Some (wsm, Again, false)
  | Sleeping => None
  | Allocating =>
      match alloc with
      | Some work => Some (wsm, Have work, false)
      | None =>
          Some (WorkspaceManager (idle_ws wsm) (free_ws wsm) (total_ws wsm - 1),
                Alloc_failed, false)
      end
  | Alloc_failed => Some (wsm, Again, true)
  | Have work =>
      if free_ws wsm <=? cpus then
        Some (WorkspaceManager (work :: idle_ws wsm) (free_ws wsm + 1) (total_ws wsm),
              Put_wake, false)
      else Some (wsm, Put_freeing work, false)
  | Put_freeing _ =>
      Some (WorkspaceManager (idle_ws wsm) (free_ws wsm) (total_ws wsm - 1), Put_wake, false)
  | Put_wake => Some (wsm, Outside, true)
  end.

(** [wake_up] makes every task of the queue run again; each goes back to [again], whether it had
    gone to sleep or not, as [schedule] returns at once in a task that was woken before it. *)
Definition wake_up (t : task) : task :=
  match t with Prepared | Prepared_full | Sleeping => Again | t => t end.

(** ** All tasks *)

Record system := System { s_wsm : workspace_manager; s_tasks : list task; s_next : handle }.

(** Task [i] takes a step; a fresh workspace has a name not used before. *)
Definition system_step (cpus : Z) (i : nat) (alloc_ok : bool) (s : system) : option system :=
  t ← s_tasks s !! i;
  '(wsm, t', wakes) ← task_step cpus (if alloc_ok then Some (s_next s) else None) (s_wsm s) t;
  let tasks := <[i := t']> (s_tasks s) in
  Some (System wsm (if (wakes : bool) then wake_up <$> tasks else tasks) (S (s_next s))).

(** After [osdmap_set_crush]: one idle workspace, [n] tasks that have not called yet. *)
Definition system_init (n : nat) : system :=
  System (add_initial_workspace init_workspace_manager 0%nat) (replicate n Outside) 1.

Inductive reachable (cpus : Z) (n : nat) : system → Prop :=
  | reachable_init : reachable cpus n (system_init n)
  | reachable_step s s' i alloc_ok :
      reachable cpus n s → system_step cpus i alloc_ok s = Some s' → reachable cpus n s'.

(** ** Counting *)

Definition count (f : task → Z) (l : list task) : Z := foldr (λ t a, f t + a) 0 l.

(** Tasks counted in [total_ws] but whose workspace is not idle. *)
Definition counted (t : task) : Z :=
  match t with Allocating | Have _ | Put_freeing _ => 1 | _ => 0 end.
Definition holding (t : task) : Z := match t with Have _ => 1 | _ => 0 end.
Definition held (t : task) : list handle := match t with Have w => [w] | _ => [] end.

(** A task that will wake the queue. *)
Definition about_to_wake (t : task) : bool :=
  match t with Alloc_failed | Put_wake => true | _ => false end.

Lemma count_insert f l i t t' :
  l !! i = Some t → count f (<[i := t']> l) = count f l - f t + f t'.
Proof.
  revert i. induction l as [|t0 l IH]; intros [|i] Hi; simplify_eq/=; [lia|].
  rewrite (IH i Hi). lia.
Qed.

Lemma count_wake f l : (∀ t, f (wake_up t) = f t) → count f (wake_up <$> l) = count f l.
Proof.
  intros Hf. induction l as [|t l IH]; [done|].
  change (f (wake_up t) + count f (wake_up <$> l) = f t + count f l). by rewrite Hf, IH.
Qed.

Lemma count_ge0 f l : (∀ t, 0 <= f t) → 0 <= count f l.
Proof. intros Hf. induction l as [|t l IH]; simpl; [lia|]. specialize (Hf t). lia. Qed.

Lemma count_pos f l : (∀ t, 0 <= f t) → 0 < count f l → ∃ i t, l !! i = Some t ∧ 0 < f t.
Proof.
  intros Hf. induction l as [|t l IH]; simpl; [lia|]. intros Hc.
  destruct (decide (0 < f t)); [by exists 0%nat, t|].
  destruct IH as (i & t' & Hi & ?); [specialize (Hf t); lia|]. by exists (S i), t'.
Qed.

Lemma count_le f g l : (∀ t, f t <= g t) → count f l <= count g l.
Proof. intros Hf. induction l as [|t l IH]; simpl; [lia|]. specialize (Hf t). lia. Qed.

(** ** What is true of every reachable system *)

Definition held_by (l : list task) : list handle := l ≫= held.

Lemma held_by_insert l i t t' :
  l !! i = Some t → held t ++ held_by (<[i := t']> l) ≡ₚ held t' ++ held_by l.
Proof.
  unfold held_by. revert i. induction l as [|t0 l IH]; intros [|i] Hi; simplify_eq/=.
  - rewrite !(assoc_L (++)), (Permutation_app_comm (held t)). done.
  - rewrite !(assoc_L (++)), (Permutation_app_comm (held t)), <- (assoc_L (++)), (IH i Hi).
    rewrite !(assoc_L (++)), (Permutation_app_comm (held t0)). done.
Qed.

Lemma held_by_wake l : held_by (wake_up <$> l) = held_by l.
Proof.
  unfold held_by. induction l as [|t l IH]; [done|]. rewrite fmap_cons, !bind_cons, IH.
  by destruct t.
Qed.

(** No wake-up is lost: a sleeping task, or one about to decide whether to sleep, has seen a
    full manager, and it is still full or a wake-up is under way. *)
Definition no_lost_wakeup (cpus : Z) (wsm : workspace_manager) (l : list task) : Prop :=
  (Sleeping ∈ l → (cpus < total_ws wsm ∧ free_ws wsm = 0)
     ∨ ∃ t, t ∈ l ∧ about_to_wake t = true)
  ∧ (Prepared_full ∈ l → cpus < total_ws wsm ∨ ∃ t, t ∈ l ∧ about_to_wake t = true).

Lemma woken_not_sleeping (l : list task) t : t ∈ wake_up <$> l → t ≠ Sleeping ∧ t ≠ Prepared_full.
Proof. intros ([] & -> & _)%list_elem_of_fmap; done. Qed.

Lemma no_lost_wakeup_woken cpus wsm l : no_lost_wakeup cpus wsm (wake_up <$> l).
Proof. split; intros H; by apply woken_not_sleeping in H as []. Qed.

Lemma no_lost_wakeup_pending cpus wsm l i t :
  (i < length l)%nat → about_to_wake t = true → no_lost_wakeup cpus wsm (<[i := t]> l).
Proof.
  intros Hi Ht. split; intros _; right; exists t; (split; [|done]);
    apply (list_elem_of_lookup_2 _ i); by apply list_lookup_insert_eq.
Qed.

Lemma elem_of_insert_task (l : list task) i t t' x :
  l !! i = Some t → x ∈ <[i := t']> l → x = t' ∨ x ∈ l.
Proof.
  intros Hi [j Hj]%list_elem_of_lookup. destruct (decide (i = j)) as [<-|Hne].
  - rewrite list_lookup_insert_eq in Hj by (by apply lookup_lt_Some in Hi). left. congruence.
  - rewrite list_lookup_insert_ne in Hj by done. right. by eapply list_elem_of_lookup_2.
Qed.

Lemma pending_insert (l : list task) i t t' :
  l !! i = Some t → about_to_wake t = false →
  (∃ u, u ∈ l ∧ about_to_wake u = true) → ∃ u, u ∈ <[i := t']> l ∧ about_to_wake u = true.
Proof.
  intros Hi Ht (u & [j Hj]%list_elem_of_lookup & Hu). exists u. split; [|done].
  apply (list_elem_of_lookup_2 _ j). rewrite list_lookup_insert_ne; [done|]. congruence.
Qed.

(** A move of a task that does not wake, and changes the counters only in the safe direction. *)
Lemma no_lost_wakeup_move cpus wsm wsm' l i t t' :
  no_lost_wakeup cpus wsm l → l !! i = Some t → about_to_wake t = false →
  (cpus < total_ws wsm → cpus < total_ws wsm') →
  (free_ws wsm = 0 → free_ws wsm' = 0) →
  (t' = Sleeping → t = Prepared_full ∧ free_ws wsm' = 0) →
  (t' = Prepared_full → cpus < total_ws wsm') →
  no_lost_wakeup cpus wsm' (<[i := t']> l).
Proof.
  intros [Hs Hp] Hi Ht Htot Hfree Hsl Hpr.
  assert (Hin : t ∈ l) by by eapply list_elem_of_lookup_2.
  pose proof (pending_insert l i t t' Hi Ht) as Hpend.
  split; intros Hx; destruct (elem_of_insert_task _ _ _ _ _ Hi Hx) as [<-|Hl].
  - destruct (Hsl eq_refl) as [-> H0]. destruct (Hp Hin); [left; auto|right; auto].
  - destruct (Hs Hl) as [[]|]; [left; auto|right; auto].
  - left. auto.
  - destruct (Hp Hl); [left; auto|right; auto].
Qed.

(** The counters are exact, some workspace always remains, and none has two owners. *)
Record owned (cpus : Z) (wsm : workspace_manager) (l : list task) (next : handle) : Prop := {
  ow_free : free_ws wsm = Z.of_nat (length (idle_ws wsm));
  ow_total : total_ws wsm = Z.of_nat (length (idle_ws wsm)) + count counted l;
  ow_bound : total_ws wsm <= cpus + 1;
  ow_one : 1 <= Z.of_nat (length (idle_ws wsm)) + count holding l;
  ow_owner : NoDup (idle_ws wsm ++ held_by l);
  ow_fresh : Forall (λ w, (w < next)%nat) (idle_ws wsm ++ held_by l) }.

Lemma owned_wake cpus wsm l next : owned cpus wsm l next → owned cpus wsm (wake_up <$> l) next.
Proof. intros []. split; rewrite ?held_by_wake, ?count_wake; try done; by intros []. Qed.

Lemma owned_next cpus wsm l next : owned cpus wsm l next → owned cpus wsm l (S next).
Proof.
  intros []. split; try done. eapply Forall_impl; [done|]. intros w Hw. simpl in *. lia.
Qed.

Lemma owned_step cpus wsm l next i t wsm' t' wakes (alloc_ok : bool) :
  1 <= cpus → owned cpus wsm l next → l !! i = Some t →
  task_step cpus (if alloc_ok then Some next else None) wsm t = Some (wsm', t', wakes) →
  owned cpus wsm' (<[i := t']> l) (S next).
Proof.
  intros Hcpus [Hfree Htotal Hbound Hone Howner Hfresh] Hi Hstep.
  pose proof (held_by_insert l i t t' Hi) as Hheld.
  pose proof (count_insert counted l i t t' Hi) as Hc.
  pose proof (count_insert holding l i t t' Hi) as Hh.
  pose proof (count_ge0 holding l (λ t, ltac:(by destruct t))) as Hh0.
  assert (Hnext : next ∉ idle_ws wsm ++ held_by l).
  { intros Hin. rewrite Forall_forall in Hfresh. specialize (Hfresh _ Hin). simpl in Hfresh. lia. }
  assert (Hfresh' : Forall (λ w, (w < S next)%nat) (idle_ws wsm ++ held_by l)).
  { eapply Forall_impl; [exact Hfresh|]. intros w Hw. simpl in *. lia. }
  assert (Hperm : ∀ k, idle_ws wsm' ++ held_by (<[i := t']> l) ≡ₚ k →
    NoDup k → Forall (λ w, (w < S next)%nat) k →
    NoDup (idle_ws wsm' ++ held_by (<[i := t']> l))
    ∧ Forall (λ w, (w < S next)%nat) (idle_ws wsm' ++ held_by (<[i := t']> l))).
  { by intros k -> ??. }
  cut (total_ws wsm' <= cpus + 1 ∧ free_ws wsm' = Z.of_nat (length (idle_ws wsm'))
    ∧ total_ws wsm' = Z.of_nat (length (idle_ws wsm')) + count counted (<[i := t']> l)
    ∧ 1 <= Z.of_nat (length (idle_ws wsm')) + count holding (<[i := t']> l)
    ∧ ∃ k, idle_ws wsm' ++ held_by (<[i := t']> l) ≡ₚ k ∧ NoDup k
        ∧ Forall (λ w, (w < S next)%nat) k).
  { intros (?&?&?&?&k&?&?&?). destruct (Hperm k) as [??]; by try split. }
  clear Hperm.
  destruct wsm as [idle fr tot], t; simpl in Hstep; repeat case_match; bool_to_prop; simplify_eq; simpl in *;
    (split; [lia|]); (split; [lia|]); (split; [lia|]); (split; [lia|]).
  all: try by (eexists; split; [by rewrite Hheld|]).
  - by exists (held_by l).
  - by exists (held_by l).
  - exists (n :: l0 ++ held_by l). split; [by rewrite Hheld, <- Permutation_middle|done].
  - exists (n :: idle ++ held_by l). split; [by rewrite Hheld, <- Permutation_middle|].
    split; [by apply NoDup_cons|]. constructor; [lia|done].
  - exists (idle ++ held_by l). split; [by rewrite Permutation_middle, Hheld|done].
  - exists (idle ++ held_by (<[i:=Put_freeing work]> l)). split; [done|].
    rewrite <- Hheld, <- Permutation_middle in Howner.
    rewrite <- Hheld, <- Permutation_middle in Hfresh'.
    apply NoDup_cons in Howner as [_ ?]. by apply Forall_cons in Hfresh' as [_ ?].
Qed.

Lemma no_lost_wakeup_step cpus wsm l i t wsm' t' wakes alloc :
  no_lost_wakeup cpus wsm l → free_ws wsm = Z.of_nat (length (idle_ws wsm)) →
  l !! i = Some t → task_step cpus alloc wsm t = Some (wsm', t', wakes) →
  no_lost_wakeup cpus wsm' (if wakes then wake_up <$> <[i := t']> l else <[i := t']> l).
Proof.
  intros Hnl Hfree Hi Hstep. pose proof (lookup_lt_Some _ _ _ Hi) as Hlt.
  destruct wakes; [apply no_lost_wakeup_woken|].
  destruct (about_to_wake t') eqn:Hw; [by apply no_lost_wakeup_pending|].
  apply (no_lost_wakeup_move cpus wsm wsm' l i t t' Hnl Hi);
    destruct wsm as [idle fr tot], t; simpl in Hstep; repeat case_match; bool_to_prop;
    simplify_eq; simpl in *; try done; lia.
Qed.

Lemma system_step_ok cpus i alloc_ok s s' :
  1 <= cpus → owned cpus (s_wsm s) (s_tasks s) (s_next s) →
  no_lost_wakeup cpus (s_wsm s) (s_tasks s) → system_step cpus i alloc_ok s = Some s' →
  owned cpus (s_wsm s') (s_tasks s') (s_next s') ∧ no_lost_wakeup cpus (s_wsm s') (s_tasks s').
Proof.
  intros Hcpus How Hnl Hstep. unfold system_step in Hstep.
  apply bind_Some in Hstep as (t & Hi & Hstep).
  apply bind_Some in Hstep as ([[wsm' t'] wakes] & Ht & Heq). injection Heq as <-. simpl.
  split.
  - pose proof (owned_step _ _ _ _ _ _ _ _ _ _ Hcpus How Hi Ht). destruct wakes; [|done].
    by apply owned_wake.
  - eapply no_lost_wakeup_step; [done| |done..]. apply How.
Qed.

Lemma count_replicate f n t : f t = 0 → count f (replicate n t) = 0.
Proof.
  intros Hf. induction n as [|n IH]; [done|].
  change (f t + count f (replicate n t) = 0). lia.
Qed.

Lemma held_by_outside n : held_by (replicate n Outside) = [].
Proof. by induction n. Qed.

Lemma reachable_ok cpus n s :
  1 <= cpus → reachable cpus n s →
  owned cpus (s_wsm s) (s_tasks s) (s_next s) ∧ no_lost_wakeup cpus (s_wsm s) (s_tasks s).
Proof.
  intros Hcpus. induction 1 as [|s s' i alloc_ok _ [How Hnl] Hstep].
  - split.
    + split; simpl; rewrite ?held_by_outside, ?count_replicate; simpl; try done || lia.
      * by apply NoDup_singleton.
      * constructor; [lia|done].
    + split; intros [? ?]%elem_of_replicate; done.
  - by eapply system_step_ok.
Qed.

(** A task that will let a waiting one go on: it wakes the queue, or holds a workspace or an
    allocation whose end wakes it. *)
Definition owes_wakeup (t : task) : bool := (0 <? counted t) || about_to_wake t.

(** C20: scratch space is handed out safely.  However tasks interleave and allocations fail, the
    counters are exact, at most one workspace more than there are CPUs exists, none is used by
    two tasks or used while idle, and one always remains. *)
Theorem workspaces_exclusive (cpus : Z) (n : nat) (s : system) (Hcpus : 1 <= cpus)
    (Hs : reachable cpus n s) :
  let wsm := s_wsm s in
  free_ws wsm = Z.of_nat (length (idle_ws wsm))
  ∧ total_ws wsm = free_ws wsm + count counted (s_tasks s)
  ∧ 1 <= total_ws wsm <= cpus + 1
  ∧ NoDup (idle_ws wsm ++ held_by (s_tasks s))
  ∧ idle_ws wsm ++ held_by (s_tasks s) ≠ [].
Proof.
  destruct (reachable_ok cpus n s Hcpus Hs) as [[Hf Ht Hb Ho Hn _] _].
  pose proof (count_le holding counted (s_tasks s) (λ t, ltac:(by destruct t))).
  split_and!; try done; try lia. intros [Hnil Hheld]%app_eq_nil. rewrite Hnil in Ho.
  destruct (count_pos holding (s_tasks s)) as (i & t & Hi & Htp);
    [by intros []|simpl in Ho; lia|].
  destruct t; simpl in Htp; try lia.
  assert (work ∈ held_by (s_tasks s)) as Hin; [|by rewrite Hheld in Hin; apply not_elem_of_nil in Hin].
  unfold held_by. apply list_elem_of_bind. exists (Have work). simpl.
  split; [by apply list_elem_of_singleton|by eapply list_elem_of_lookup_2].
Qed.

(** C21: no task sleeps for ever for want of a wake-up.  In every reachable state in which a task
    sleeps, another is going to wake the queue: it is about to, or it holds a workspace, or
    allocates one, and all of these end in a wake-up. *)
Theorem no_sleeper_forgotten (cpus : Z) (n : nat) (s : system) (Hcpus : 1 <= cpus)
    (Hs : reachable cpus n s) (Hsleep : Sleeping ∈ s_tasks s) :
  ∃ t, t ∈ s_tasks s ∧ owes_wakeup t = true.
Proof.
  destruct (reachable_ok cpus n s Hcpus Hs) as [[Hf Ht _ _ _ _] [Hsl _]].
  destruct (Hsl Hsleep) as [[Htot Hfree]|(t & Hin & Hw)].
  - destruct (count_pos counted (s_tasks s)) as (i & t & Hi & Hc); [by intros []|lia|].
    exists t. split; [by eapply list_elem_of_lookup_2|]. unfold owes_wakeup.
    by rewrite (proj2 (Z.ltb_lt _ _) Hc).
  - exists t. split; [done|]. unfold owes_wakeup. rewrite Hw. by rewrite orb_true_r.
Qed.

(** Running a schedule, for examples. *)
Fixpoint run_schedule (cpus : Z) (steps : list (nat * bool)) (s : system) : option system :=
  match steps with
  | [] => Some s
  | (i, alloc_ok) :: steps => s' ← system_step cpus i alloc_ok s; run_schedule cpus steps s'
  end.

Lemma reachable_schedule cpus n steps s s' :
  reachable cpus n s → run_schedule cpus steps s = Some s' → reachable cpus n s'.
Proof.
  revert s. induction steps as [|[i a] steps IH]; intros s Hs Hr; [by simplify_eq/=|].
  simpl in Hr. apply bind_Some in Hr as (s1 & H1 & Hr). eapply IH; [|done].
  by eapply reachable_step.
Qed.

(** Two workspaces are in the hands of tasks 0 and 1 on a machine with one CPU; task 2 sleeps. *)
Definition ex_schedule : list (nat * bool) :=
  (λ i, (i, true)) <$> [0; 0; 1; 1; 2; 2; 2; 2; 2]%nat.
Definition ex_system : system :=
  System (WorkspaceManager [] 0 2) [Have 0; Allocating; Sleeping] 10.

Lemma ex_system_reachable : reachable 1 3 ex_system.
Proof. by apply (reachable_schedule 1 3 ex_schedule (system_init 3)); [apply reachable_init|]. Qed.

Lemma workspaces_exclusive_witness :
  reachable 1 3 ex_system ∧ 1 <= total_ws (s_wsm ex_system) <= 2.
Proof.
  split; [exact ex_system_reachable|].
  apply (workspaces_exclusive 1 3 ex_system ltac:(lia) ex_system_reachable).
Defined.

Lemma no_sleeper_forgotten_witness :
  reachable 1 3 ex_system ∧ ∃ t, t ∈ s_tasks ex_system ∧ owes_wakeup t = true.
Proof.
  split; [exact ex_system_reachable|].
  apply (no_sleeper_forgotten 1 3 ex_system ltac:(lia) ex_system_reachable).
  do 2 apply list_elem_of_further. apply list_elem_of_here.
Defined.
