(* ===== verification/OsdMap.v ===== *)
(** * The OSD map (libceph/osdmap.c, libceph/include/linux/ceph/osdmap.h, rados.h)

    Placement groups and their order, pools and their masks, the map record with its per-OSD
    arrays, OSD sets and their comparison, and the splitting of placement groups. *)
From S2P Require Import Prelude Hash Crush Mapper Choose DoRule Workspace.

(** ** Placement groups *)

Record ceph_pg := CephPg { pg_pool : Z; pg_seed : Z }.
Record ceph_spg := CephSpg { spg_pgid : ceph_pg; spg_shard : Z }.

#[export] Instance ceph_pg_eq_dec : EqDecision ceph_pg.
Proof. solve_decision. Defined.
#[export] Instance ceph_pg_countable : Countable ceph_pg.
Proof.
  refine (inj_countable' (λ p, (pg_pool p, pg_seed p)) (λ '(a, b), CephPg a b) _). by intros [].
Defined.

#[export] Instance ceph_spg_eq_dec : EqDecision ceph_spg.
Proof. solve_decision. Defined.
#[export] Instance ceph_spg_countable : Countable ceph_spg.
Proof.
  refine (inj_countable' (λ p, (spg_pgid p, spg_shard p)) (λ '(a, b), CephSpg a b) _). by intros [].
Defined.

Definition CEPH_SPG_NOSHARD : Z := -1.

Definition ceph_pg_compare (lhs rhs : ceph_pg) : Z :=
  if pg_pool lhs <? pg_pool rhs then -1
  else if pg_pool lhs >? pg_pool rhs then 1
  else if pg_seed lhs <? pg_seed rhs then -1
  else if pg_seed lhs >? pg_seed rhs then 1 else 0.

Definition ceph_spg_compare (lhs rhs : ceph_spg) : Z :=
  let ret := ceph_pg_compare (spg_pgid lhs) (spg_pgid rhs) in
  if nonzero ret then ret
  else if spg_shard lhs <? spg_shard rhs then -1
  else if spg_shard lhs >? spg_shard rhs then 1 else 0.

(** [ceph_stable_mod]: every argument is an [int]. *)
Definition ceph_stable_mod (x b bmask : Z) : Z :=
  if Z.land x bmask <? b then Z.land x bmask else Z.land x (Z.shiftr bmask 1).

(** ** Pools *)

Definition CEPH_NOPOOL : Z := 2 ^ 64 - 1.
Definition CEPH_POOL_TYPE_REP : Z := 1.
Definition CEPH_POOL_TYPE_EC : Z := 3.
Definition CEPH_POOL_FLAG_HASHPSPOOL : Z := Z.shiftl 1 0.
Definition CEPH_POOL_FLAG_FULL : Z := Z.shiftl 1 1.

Record ceph_pg_pool_info := CephPgPoolInfo {
  pi_id : Z; pi_type : Z; pi_size : Z; pi_min_size : Z; pi_crush_ruleset : Z;
  pi_object_hash : Z; pi_last_force_request_resend : Z;
  pi_pg_num : Z; pi_pgp_num : Z; pi_pg_num_mask : Z; pi_pgp_num_mask : Z;
  pi_read_tier : Z; pi_write_tier : Z; pi_flags : Z; pi_name : option (list Z);
  pi_was_full : bool }.

Definition set_pg_masks (pi : ceph_pg_pool_info) (pgm pgpm : Z) : ceph_pg_pool_info :=
  CephPgPoolInfo (pi_id pi) (pi_type pi) (pi_size pi) (pi_min_size pi) (pi_crush_ruleset pi)
    (pi_object_hash pi) (pi_last_force_request_resend pi) (pi_pg_num pi) (pi_pgp_num pi)
    pgm pgpm (pi_read_tier pi) (pi_write_tier pi) (pi_flags pi) (pi_name pi) (pi_was_full pi).

Definition calc_bits_step (s : Z * Z) : outcome (Z * Z + Z) :=
  let '(t, b) := s in
  if nonzero t then Ret (inl (Z.shiftr t 1, b + 1)) else Ret (inr b).
Definition calc_bits_of (t : Z) : outcome Z := loop 33 calc_bits_step (t, 0).

(** [1 << n] on [int]: a shift by the width or by a negative count is undefined. *)
Definition shift_left (x n : Z) : outcome Z :=
  if (0 <=? n) && (n <? 32) then Ret (s32 (Z.shiftl x n)) else Undef.

Definition calc_mask (num : Z) : outcome Z :=
  b ← calc_bits_of (u32 (num - 1)); one ← shift_left 1 b; Ret (s32 (one - 1)).
Definition calc_pg_masks (pi : ceph_pg_pool_info) : outcome ceph_pg_pool_info :=
  pgm ← calc_mask (pi_pg_num pi);
  pgpm ← calc_mask (pi_pgp_num pi);
  Ret (set_pg_masks pi pgm pgpm).

(** The default case is [BUG()]. *)
Definition ceph_can_shift_osds (pi : ceph_pg_pool_info) : outcome bool :=
  if pi_type pi =? CEPH_POOL_TYPE_REP then Ret true
  else if pi_type pi =? CEPH_POOL_TYPE_EC then Ret false
  else Undef.

(** ** The map

    The red-black trees are finite maps on their keys; an array that was never allocated is the
    empty list, as [max_osd] is 0 then. *)
Record ceph_entity_addr := CephEntityAddr { addr_type : Z; addr_nonce : Z; in_addr : list Z }.
Definition zero_addr : ceph_entity_addr := CephEntityAddr 0 0 (replicate 128 0).

Record ceph_osdmap := CephOsdmap {
  om_fsid : list Z; om_epoch : Z; om_created : Z * Z; om_modified : Z * Z; om_flags : Z;
  om_max_osd : Z; om_osd_state : list Z; om_osd_weight : list Z; om_osd_addr : list ceph_entity_addr;
  om_pg_temp : gmap ceph_pg (list Z); om_primary_temp : gmap ceph_pg Z;
  om_pg_upmap : gmap ceph_pg (list Z); om_pg_upmap_items : gmap ceph_pg (list (Z * Z));
  om_osd_primary_affinity : option (list Z);
  om_pg_pools : gmap Z ceph_pg_pool_info; om_pool_max : Z;
  om_crush : option crush_map; om_crush_wsm : workspace_manager }.

Definition CEPH_OSD_EXISTS : Z := Z.shiftl 1 0.
Definition CEPH_OSD_UP : Z := Z.shiftl 1 1.
Definition CEPH_OSD_OUT : Z := 0.
Definition CEPH_OSD_IN : Z := 0x10000.
Definition CEPH_OSD_MAX_PRIMARY_AFFINITY : Z := 0x10000.
Definition CEPH_OSD_DEFAULT_PRIMARY_AFFINITY : Z := 0x10000.
Definition CEPH_PG_MAX_SIZE : Z := 32.

(** [kzalloc] and the non-zero fields; [None] is a failed allocation. *)
Definition ceph_osdmap_alloc (mem_ok : bool) : option ceph_osdmap :=
  if mem_ok then
    Some (CephOsdmap (replicate 16 0) 0 (0, 0) (0, 0) 0 0 [] [] [] ∅ ∅ ∅ ∅ None ∅ (u32 (-1)) None
      init_workspace_manager)
  else None.

(** A non-negative [int] keeps its value when it is compared with the unsigned [max_osd]. *)
Definition ceph_osd_exists (map : ceph_osdmap) (osd : Z) : outcome bool :=
  if (osd >=? 0) && (osd <? om_max_osd map) then
    st ← aget (om_osd_state map) osd; Ret (nonzero (Z.land st CEPH_OSD_EXISTS))
  else Ret false.

Definition ceph_osd_is_up (map : ceph_osdmap) (osd : Z) : outcome bool :=
  e ← ceph_osd_exists map osd;
  if (e : bool) then
    st ← aget (om_osd_state map) osd; Ret (nonzero (Z.land st CEPH_OSD_UP))
  else Ret false.

Definition ceph_osd_is_down (map : ceph_osdmap) (osd : Z) : outcome bool :=
  up ← ceph_osd_is_up map osd; Ret (negb up).

(** [None] is the null pointer. *)
Definition ceph_osd_addr (map : ceph_osdmap) (osd : Z) : outcome (option ceph_entity_addr) :=
  if u32 osd >=? om_max_osd map then Ret None
  else a ← aget (om_osd_addr map) osd; Ret (Some a).

Definition ceph_osdmap_state_str (str : list Z) (len state : Z) : list Z :=
  if len =? 0 then str
  else
    let text :=
      if nonzero (Z.land state CEPH_OSD_EXISTS) && nonzero (Z.land state CEPH_OSD_UP)
      then chars "exists, up"
      else if nonzero (Z.land state CEPH_OSD_EXISTS) then chars "exists"
      else if nonzero (Z.land state CEPH_OSD_UP) then chars "up"
      else chars "doesn't exist" in
    let written := take (Z.to_nat (len - 1)) text ++ [0] in
    written ++ drop (length written) str.

(** *** Field updates *)
Definition set_osd_arrays (map : ceph_osdmap) (st w : list Z) (ad : list ceph_entity_addr)
    : ceph_osdmap :=
  CephOsdmap (om_fsid map) (om_epoch map) (om_created map) (om_modified map) (om_flags map)
    (om_max_osd map) st w ad (om_pg_temp map) (om_primary_temp map) (om_pg_upmap map)
    (om_pg_upmap_items map) (om_osd_primary_affinity map) (om_pg_pools map) (om_pool_max map)
    (om_crush map) (om_crush_wsm map).
Definition set_max_osd (map : ceph_osdmap) (max : Z) : ceph_osdmap :=
  CephOsdmap (om_fsid map) (om_epoch map) (om_created map) (om_modified map) (om_flags map)
    max (om_osd_state map) (om_osd_weight map) (om_osd_addr map) (om_pg_temp map)
    (om_primary_temp map) (om_pg_upmap map) (om_pg_upmap_items map)
    (om_osd_primary_affinity map) (om_pg_pools map) (om_pool_max map) (om_crush map)
    (om_crush_wsm map).
Definition set_affinity (map : ceph_osdmap) (aff : option (list Z)) : ceph_osdmap :=
  CephOsdmap (om_fsid map) (om_epoch map) (om_created map) (om_modified map) (om_flags map)
    (om_max_osd map) (om_osd_state map) (om_osd_weight map) (om_osd_addr map) (om_pg_temp map)
    (om_primary_temp map) (om_pg_upmap map) (om_pg_upmap_items map) aff (om_pg_pools map)
    (om_pool_max map) (om_crush map) (om_crush_wsm map).
Definition set_crush (map : ceph_osdmap) (c : option crush_map) (wsm : workspace_manager)
    : ceph_osdmap :=
  CephOsdmap (om_fsid map) (om_epoch map) (om_created map) (om_modified map) (om_flags map)
    (om_max_osd map) (om_osd_state map) (om_osd_weight map) (om_osd_addr map) (om_pg_temp map)
    (om_primary_temp map) (om_pg_upmap map) (om_pg_upmap_items map)
    (om_osd_primary_affinity map) (om_pg_pools map) (om_pool_max map) c wsm.

(** *** Pools *)

(** The tree is keyed by the signed pool id, the lookups take an unsigned one. *)
Definition ceph_pg_pool_by_id (map : ceph_osdmap) (id : Z) : option ceph_pg_pool_info :=
  om_pg_pools map !! s64 id.

(** The name is a pointer, null without a pool or a name. *)
Definition ceph_pg_pool_name_by_id (map : ceph_osdmap) (id : Z) : option (list Z) :=
  if id =? CEPH_NOPOOL then None
  else if id >? 2 ^ 31 - 1 then None
  else pi ← om_pg_pools map !! s64 id; pi_name pi.

Definition ceph_pg_pool_flags (map : ceph_osdmap) (id : Z) : Z :=
  match om_pg_pools map !! s64 id with Some pi => pi_flags pi | None => 0 end.

(** The tree in the order [rb_first], [rb_next] visit it. *)
Definition key_le {A} (x y : Z * A) : Prop := x.1 <= y.1.
#[export] Instance key_le_dec {A} : RelDecision (key_le (A := A)).
Proof. intros x y. unfold key_le. apply _. Defined.
Definition rb_in_order {A} (m : gmap Z A) : list (Z * A) := merge_sort key_le (map_to_list m).

Definition poolid_by_name_step (name : list Z) (s : list (Z * ceph_pg_pool_info))
    : outcome (list (Z * ceph_pg_pool_info) + Z) :=
  match s with
  | [] => Ret (inr (- ENOENT))
  | (_, pi) :: rest =>
      if bool_decide (pi_name pi = Some name) then Ret (inr (s32 (pi_id pi)))
      else Ret (inl rest)
  end.
Definition ceph_pg_poolid_by_name (map : ceph_osdmap) (name : list Z) : outcome Z :=
  let pools := rb_in_order (om_pg_pools map) in
  loop (length pools + 1) (poolid_by_name_step name) pools.

Definition remove_pg_pool (map : gmap Z ceph_pg_pool_info) (pi : ceph_pg_pool_info)
    : gmap Z ceph_pg_pool_info := delete (pi_id pi) map.

(** *** The per-OSD arrays *)

Definition ceph_get_primary_affinity (map : ceph_osdmap) (osd : Z) : outcome Z :=
  _ ← require (negb (u32 osd >=? om_max_osd map));
  match om_osd_primary_affinity map with
  | None => Ret CEPH_OSD_DEFAULT_PRIMARY_AFFINITY
  | Some aff => aget aff osd
  end.

(** The result, and the map: [mem_ok] is whether the array could be allocated. *)
Definition set_primary_affinity (mem_ok : bool) (map : ceph_osdmap) (osd aff : Z)
    : outcome (Z * ceph_osdmap) :=
  _ ← require (negb (u32 osd >=? om_max_osd map));
  match om_osd_primary_affinity map with
  | None =>
      if negb mem_ok then Ret (- ENOMEM, map)
      else
        let a := replicate (Z.to_nat (om_max_osd map)) CEPH_OSD_DEFAULT_PRIMARY_AFFINITY in
        a ← aset a osd aff; Ret (0, set_affinity map (Some a))
  | Some a => a ← aset a osd aff; Ret (0, set_affinity map (Some a))
  end.

(** A block of [n] elements of indeterminate content [mem], the first [k] of them copied. *)
Definition kvmalloc_copy {A} (mem : nat → A) (n k : Z) (old : list A) : outcome (list A) :=
  _ ← require (k <=? Z.of_nat (length old));
  Ret (take (Z.to_nat k) old ++ drop (Z.to_nat k) (mem <$> seq 0 (Z.to_nat n))).

(** [arrays_ok]: the three arrays could be allocated; [affinity_ok]: the fourth could.  The
    contents of fresh memory are [mem] and [amem]. *)
Definition osdmap_set_max_osd (arrays_ok affinity_ok : bool) (mem : nat → Z)
    (amem : nat → ceph_entity_addr) (map : ceph_osdmap) (max : Z) : outcome (Z * ceph_osdmap) :=
  if max =? om_max_osd map then Ret (0, map)
  else if negb arrays_ok then Ret (- ENOMEM, map)
  else
    let to_copy := Z.min (om_max_osd map) max in
    st ← kvmalloc_copy mem max to_copy (om_osd_state map);
    w ← kvmalloc_copy mem max to_copy (om_osd_weight map);
    ad ← kvmalloc_copy amem max to_copy (om_osd_addr map);
    '(st, w, ad) ← for_range (Z.to_nat (max - om_max_osd map)) (om_max_osd map)
      (λ i '(st, w, ad),
         st ← aset st i 0; w ← aset w i CEPH_OSD_OUT; ad ← aset ad i zero_addr;
         Ret (st, w, ad)) (st, w, ad);
    let map := set_osd_arrays map st w ad in
    match om_osd_primary_affinity map with
    | None => Ret (0, set_max_osd map max)
    | Some old =>
        if negb affinity_ok then Ret (- ENOMEM, map)
        else
          aff ← kvmalloc_copy mem max to_copy old;
          aff ← for_range (Z.to_nat (max - om_max_osd map)) (om_max_osd map)
            (λ i aff, aset aff i CEPH_OSD_DEFAULT_PRIMARY_AFFINITY) aff;
          Ret (0, set_max_osd (set_affinity map (Some aff)) max)
    end.

(** The new CRUSH map, or the error in its place.  The old map and its idle workspaces are
    freed; [h] names the new workspace. *)
Definition osdmap_set_crush (mem_ok : bool) (mem : Z → Z) (h : handle) (map : ceph_osdmap)
    (crush : crush_map + Z) : outcome (Z * ceph_osdmap * option crush_work) :=
  match crush with
  | inr err => Ret (err, map, None)
  | inl c =>
      work ← alloc_workspace c mem_ok mem;
      match work with
      | None => _ ← crush_destroy c; Ret (- ENOMEM, map, None)
      | Some work =>
          _ ← match om_crush map with Some old => crush_destroy old | None => Ret [] end;
          '(_, wsm) ← cleanup_workspace_manager (om_crush_wsm map);
          Ret (0, set_crush map (Some c) (add_initial_workspace wsm h), Some work)
      end
  end.

(** ** OSD sets *)

Record ceph_osds := CephOsds { osds : list Z; os_size : Z; os_primary : Z }.
Definition set_osds (s : ceph_osds) (l : list Z) : ceph_osds := CephOsds l (os_size s) (os_primary s).
Definition set_size (s : ceph_osds) (n : Z) : ceph_osds := CephOsds (osds s) n (os_primary s).
Definition set_primary (s : ceph_osds) (p : Z) : ceph_osds := CephOsds (osds s) (os_size s) p.

Definition ceph_osds_init (set : ceph_osds) : ceph_osds := CephOsds (osds set) 0 (-1).

(** The first [n] elements of an array, as [memcmp] and [memcpy] read them. *)
Definition mem_prefix (l : list Z) (n : Z) : outcome (list Z) :=
  if (0 <=? n) && (n <=? Z.of_nat (length l)) then Ret (take (Z.to_nat n) l) else Undef.

Definition osds_equal_raw (lhs rhs : ceph_osds) : outcome bool :=
  if os_size lhs =? os_size rhs then
    a ← mem_prefix (osds lhs) (os_size rhs);
    b ← mem_prefix (osds rhs) (os_size rhs);
    Ret (bool_decide (a = b))
  else Ret false.

Definition osds_equal (lhs rhs : ceph_osds) : outcome bool :=
  e ← osds_equal_raw lhs rhs; Ret ((e : bool) && (os_primary lhs =? os_primary rhs)).

Definition all_none_step (set : ceph_osds) (i : Z) : outcome (Z + Z) :=
  if i <? os_size set then
    osd ← aget (osds set) i;
    if negb (osd =? CRUSH_ITEM_NONE) then Ret (inr i) else Ret (inl (i + 1))
  else Ret (inr i).

Definition osds_valid (set : ceph_osds) : outcome bool :=
  if (os_size set >? 0) && (os_primary set >=? 0) then Ret true
  else if (os_size set =? 0) && (os_primary set =? -1) then Ret true
  else if (os_size set >? 0) && (os_primary set =? -1) then
    i ← loop (Z.to_nat (os_size set) + 1) (all_none_step set) 0;
    Ret (i =? os_size set)
  else Ret false.

(** Copy the first [size] entries over those of [dest]. *)
Definition copy_osds (dest src : list Z) (n : Z) : outcome (list Z) :=
  l ← mem_prefix src n;
  _ ← require (n <=? Z.of_nat (length dest));
  Ret (l ++ drop (Z.to_nat n) dest).

Definition ceph_osds_copy (dest src : ceph_osds) : outcome ceph_osds :=
  l ← copy_osds (osds dest) (osds src) (os_size src);
  Ret (CephOsds l (os_size src) (os_primary src)).

Definition pg_rank_step (osd : Z) (acting : ceph_osds) (i : Z) : outcome (Z + Z) :=
  if i <? os_size acting then
    o ← aget (osds acting) i; if o =? osd then Ret (inr i) else Ret (inl (i + 1))
  else Ret (inr (-1)).
Definition calc_pg_rank (osd : Z) (acting : ceph_osds) : outcome Z :=
  loop (Z.to_nat (os_size acting) + 1) (pg_rank_step osd acting) 0.

Definition primary_changed (old_acting new_acting : ceph_osds) : outcome bool :=
  let e_old := os_size old_acting =? 0 in
  let e_new := os_size new_acting =? 0 in
  if e_old && e_new then Ret false
  else if xorb e_old e_new then Ret true
  else if negb (os_primary old_acting =? os_primary new_acting) then Ret true
  else
    r ← calc_pg_rank (os_primary old_acting) old_acting;
    r' ← calc_pg_rank (os_primary new_acting) new_acting;
    Ret (negb (r =? r')).

Definition ceph_osds_changed (old_acting new_acting : ceph_osds) (any_change : bool)
    : outcome bool :=
  p ← primary_changed old_acting new_acting;
  if (p : bool) then Ret true
  else if any_change then e ← osds_equal_raw old_acting new_acting; Ret (negb e)
  else Ret false.

(** ** Splitting *)

Definition pg_split_step (seed old_pg_num new_pg_num old_bits old_mask : Z) (n : Z)
    : outcome (Z + bool) :=
  next_bit ← (if (0 <=? old_bits - 1) && (old_bits - 1 <? 32)
              then Ret (s32 (Z.shiftl n (old_bits - 1))) else Undef);
  let s := u32 (Z.lor next_bit seed) in
  if (s <? old_pg_num) || (s =? seed) then Ret (inl (n + 1))
  else if s >=? new_pg_num then Ret (inr false)
  else
    let s := u32 (ceph_stable_mod (s32 s) (s32 old_pg_num) old_mask) in
    if s =? seed then Ret (inr true) else Ret (inl (n + 1)).

(** [fuel] bounds the loop, which the code does not. *)
Definition ceph_pg_is_split (fuel : nat) (pgid : ceph_pg) (old_pg_num new_pg_num : Z)
    : outcome bool :=
  old_bits ← calc_bits_of old_pg_num;
  one ← (if old_bits <? 32 then Ret (s32 (Z.shiftl 1 old_bits)) else Undef);
  let old_mask := s32 (one - 1) in
  if new_pg_num <=? old_pg_num then Ret false
  else loop fuel (pg_split_step (pg_seed pgid) old_pg_num new_pg_num old_bits old_mask) 1.

Definition ceph_is_new_interval (fuel : nat) (old_acting new_acting old_up new_up : ceph_osds)
    (old_size new_size old_min_size new_min_size old_pg_num new_pg_num : Z)
    (old_sort_bitwise new_sort_bitwise old_recovery_deletes new_recovery_deletes : bool)
    (pgid : ceph_pg) : outcome bool :=
  a ← osds_equal old_acting new_acting;
  if negb a then Ret true else
  u ← osds_equal old_up new_up;
  if negb u then Ret true else
  if negb (old_size =? new_size) then Ret true else
  if negb (old_min_size =? new_min_size) then Ret true else
  s ← ceph_pg_is_split fuel pgid old_pg_num new_pg_num;
  if (s : bool) then Ret true else
  Ret (xorb old_sort_bitwise new_sort_bitwise
       || xorb old_recovery_deletes new_recovery_deletes).

(** ** The order of placement groups *)

Ltac split_compare :=
  repeat match goal with
  | |- context [Z.ltb ?x ?y] => destruct (Z.ltb_spec x y)
  | |- context [Z.gtb ?x ?y] => rewrite (Z.gtb_ltb x y)
  | |- context [Z.eqb ?x ?y] => destruct (Z.eqb_spec x y)
  end; simpl.

Lemma ceph_spg_eq a b :
  a = b ↔ pg_pool (spg_pgid a) = pg_pool (spg_pgid b) ∧ pg_seed (spg_pgid a) = pg_seed (spg_pgid b)
          ∧ spg_shard a = spg_shard b.
Proof. destruct a as [[] ?], b as [[] ?]. simpl. naive_solver. Qed.

(** ** Masks and the stable modulus *)

(** The bits needed to write [t]. *)
Definition nbits (t : Z) : Z := if t =? 0 then 0 else Z.log2 t + 1.

Lemma nbits_nonneg t : 0 <= nbits t.
Proof. unfold nbits. pose proof (Z.log2_nonneg t). destruct (t =? 0); lia. Qed.

Lemma nbits_spec t : 0 < t → 0 < nbits t ∧ 2 ^ (nbits t - 1) <= t < 2 ^ nbits t.
Proof.
  intros Ht. unfold nbits. rewrite (proj2 (Z.eqb_neq t 0)) by lia.
  pose proof (Z.log2_nonneg t). pose proof (Z.log2_spec t Ht).
  replace (Z.log2 t + 1 - 1) with (Z.log2 t) by lia.
  change (Z.log2 t + 1) with (Z.succ (Z.log2 t)) at 2. replace (Z.log2 t + 1) with (Z.succ (Z.log2 t)) by lia.
  lia.
Qed.

Lemma nbits_lt t n : 0 <= n → 0 <= t < 2 ^ n → nbits t <= n.
Proof.
  intros Hn Ht. destruct (Z.eq_dec t 0) as [->|]; [done|].
  destruct (nbits_spec t ltac:(lia)) as (Hpos & Hlo & _).
  assert (2 ^ (nbits t - 1) < 2 ^ n) as Hlt by lia.
  apply Z.pow_lt_mono_r_iff in Hlt; lia.
Qed.

Lemma nbits_mono t u : 0 <= t <= u → nbits t <= nbits u.
Proof.
  intros Htu. destruct (Z.eq_dec u 0) as [->|]; [by replace t with 0 by lia|].
  apply nbits_lt; [apply nbits_nonneg|]. destruct (nbits_spec u); lia.
Qed.

Lemma nbits_half t : 0 < t → nbits t = nbits (t / 2) + 1.
Proof.
  intros Ht. destruct (nbits_spec t Ht) as (Hn & Hlo & Hhi).
  destruct (Z.eq_dec (nbits t) 1) as [H1|H1].
  - rewrite H1 in *. replace t with 1 by (change (2 ^ 1) with 2 in Hhi; lia). done.
  - assert (0 < t / 2) as Hh.
    { apply Z.div_str_pos. split; [lia|].
      replace 2 with (2 ^ 1) at 1 by done. etransitivity; [|apply Hlo]. apply Z.pow_le_mono_r; lia. }
    apply Z.le_antisymm.
    + destruct (nbits_spec (t / 2) Hh) as (? & _ & Hhi'). apply nbits_lt; [lia|]. split; [lia|].
      rewrite Z.pow_add_r by lia. change (2 ^ 1) with 2.
      pose proof (Z.mul_succ_div_gt t 2 ltac:(lia)). lia.
    + enough (nbits (t / 2) <= nbits t - 1) by lia. apply nbits_lt; [lia|]. split; [lia|].
      apply Z.div_lt_upper_bound; [lia|]. rewrite <- Z.pow_succ_r by lia.
      by replace (Z.succ (nbits t - 1)) with (nbits t) by lia.
Qed.

Lemma calc_bits_of_nbits t : 0 <= t < 2 ^ 32 → calc_bits_of t = Ret (nbits t).
Proof.
  intros Ht. assert (wp (calc_bits_of t) (λ b, b = nbits t)) as (b & -> & ->)%wp_exists; [|done].
  unfold calc_bits_of.
  apply (wp_loop (λ '(u, b), 0 <= u < 2 ^ 32 ∧ nbits u + b = nbits t)
    (λ '(u, b), Z.to_nat (nbits u))).
  - intros [u b] [Hu Hb]. unfold calc_bits_step, nonzero.
    destruct (Z.eqb_spec u 0) as [->|Hne]; cbn [negb wp]; [done|].
    rewrite Z.shiftr_div_pow2 by done. change (2 ^ 1) with 2.
    pose proof (nbits_half u ltac:(lia)). pose proof (nbits_nonneg (u / 2)).
    split; [|lia]. split; [|lia]. split; [by apply Z.div_pos; lia|].
    apply Z.div_lt_upper_bound; lia.
  - split; [done|lia].
  - pose proof (nbits_lt t 32 ltac:(lia) Ht). lia.
Qed.

(** The mask the code computes. *)
Definition pg_mask (b : Z) : Z := 2 ^ nbits (b - 1) - 1.

Lemma s32_mask n : 0 <= n <= 31 → s32 (s32 (2 ^ n) - 1) = 2 ^ n - 1.
Proof.
  intros Hn. destruct (Z.eq_dec n 31) as [->|]; [done|].
  assert (2 ^ n <= 2 ^ 30) by (apply Z.pow_le_mono_r; lia).
  assert (0 < 2 ^ n) by (apply Z.pow_pos_nonneg; lia).
  change (2 ^ 30) with 1073741824 in *. rewrite (s32_small (2 ^ _)) by lia.
  rewrite s32_small; lia.
Qed.

Lemma calc_mask_pg_mask b : 0 < b <= 2 ^ 31 → calc_mask b = Ret (pg_mask b).
Proof.
  intros Hb. unfold calc_mask. rewrite (u32_small (b - 1)), calc_bits_of_nbits by lia.
  pose proof (nbits_lt (b - 1) 31 ltac:(lia) ltac:(lia)) as Hn.
  pose proof (nbits_nonneg (b - 1)). cbn [mbind outcome_bind]. unfold shift_left.
  rewrite (proj2 (Z.leb_le _ _)), (proj2 (Z.ltb_lt _ _)) by lia. cbn [andb mbind outcome_bind].
  by rewrite Z.shiftl_mul_pow2, Z.mul_1_l, s32_mask by lia.
Qed.

Lemma land_low x n : 0 <= n → Z.land x (2 ^ n - 1) = x mod 2 ^ n.
Proof.
  intros Hn. rewrite <- Z.land_ones by done. unfold Z.ones. by rewrite Z.shiftl_1_l, Z.sub_1_r.
Qed.

Lemma half_mask n : 0 < n → Z.shiftr (2 ^ n - 1) 1 = 2 ^ (n - 1) - 1.
Proof.
  intros Hn. rewrite Z.shiftr_div_pow2 by done. change (2 ^ 1) with 2.
  replace (2 ^ n) with (2 * 2 ^ (n - 1)); [symmetry; apply (Z.div_unique_pos _ _ _ 1); lia|]. rewrite <- Z.pow_succ_r by lia. f_equal. lia.
Qed.

(** What the stable modulus is: the low bits, and one bit less of them when they are too many. *)
Definition stable_mod_of (x b : Z) (n : Z) : Z :=
  if x mod 2 ^ n <? b then x mod 2 ^ n else x mod 2 ^ (n - 1).

(** [n] bits suit [b] bins. *)
Definition bits_for (b n : Z) : Prop := 0 <= n ∧ 0 < b <= 2 ^ n ∧ (0 < n → 2 ^ (n - 1) <= b).

Lemma stable_mod_eq x b n : bits_for b n → ceph_stable_mod x b (2 ^ n - 1) = stable_mod_of x b n.
Proof.
  intros (Hn & Hb & _). unfold ceph_stable_mod, stable_mod_of. rewrite land_low by done.
  destruct (Z.ltb_spec (x mod 2 ^ n) b); [done|].
  destruct (Z.eq_dec n 0) as [->|]; [rewrite Z.mod_1_r in *; lia|].
  by rewrite half_mask, land_low by lia.
Qed.

Lemma stable_mod_of_range x b n : bits_for b n → 0 <= stable_mod_of x b n < b.
Proof.
  intros (Hn & Hb & Hlo). unfold stable_mod_of.
  pose proof (Z.mod_pos_bound x (2 ^ n) ltac:(lia)).
  destruct (Z.ltb_spec (x mod 2 ^ n) b); [lia|].
  destruct (Z.eq_dec n 0) as [->|]; [rewrite Z.mod_1_r in *; lia|].
  pose proof (Z.mod_pos_bound x (2 ^ (n - 1)) ltac:(lia)). specialize (Hlo ltac:(lia)). lia.
Qed.

Lemma mod_pow_mod x n k : 0 <= k <= n → (x mod 2 ^ n) mod 2 ^ k = x mod 2 ^ k.
Proof.
  intros Hk. apply Z.mod_mod_divide.
  exists (2 ^ (n - k)). rewrite <- Z.pow_add_r by lia. f_equal. lia.
Qed.

(** Reducing to more bins first changes nothing. *)
Lemma stable_mod_of_nested x b n b' n' :
  bits_for b n → bits_for b' n' → b <= b' → n <= n' →
  stable_mod_of (stable_mod_of x b' n') b n = stable_mod_of x b n.
Proof.
  intros Hb Hb' Hle Hn. pose proof Hb as (Hn0 & Hbn & Hlo).
  unfold stable_mod_of at 2.
  destruct (Z.ltb_spec (x mod 2 ^ n') b') as [Hlt|Hge].
  - unfold stable_mod_of. rewrite mod_pow_mod by lia.
    destruct (Z.ltb_spec (x mod 2 ^ n) b); [done|].
    destruct (Z.eq_dec n 0) as [->|]; [rewrite Z.mod_1_r in *; lia|].
    apply mod_pow_mod. lia.
  - destruct (Z.eq_dec n n') as [<-|Hne].
    + destruct (Z.eq_dec n 0) as [->|]; [rewrite Z.mod_1_r in *; lia|].
      specialize (Hlo ltac:(lia)).
      pose proof (Z.mod_pos_bound x (2 ^ (n - 1)) ltac:(lia)).
      unfold stable_mod_of. rewrite (Z.mod_small (x mod 2 ^ (n - 1)) (2 ^ n)) by lia.
      rewrite (proj2 (Z.ltb_lt (x mod 2 ^ (n - 1)) b)) by lia.
      by rewrite (proj2 (Z.ltb_ge (x mod 2 ^ n) b)) by lia.
    + unfold stable_mod_of. rewrite mod_pow_mod by lia.
      destruct (Z.ltb_spec (x mod 2 ^ n) b); [done|].
      destruct (Z.eq_dec n 0) as [->|]; [rewrite Z.mod_1_r in *; lia|].
      apply mod_pow_mod. lia.
Qed.

Lemma bits_for_mask b : 0 < b → bits_for b (nbits (b - 1)).
Proof.
  intros Hb. pose proof (nbits_nonneg (b - 1)). split; [done|].
  destruct (Z.eq_dec b 1) as [->|]; [by vm_compute|].
  destruct (nbits_spec (b - 1) ltac:(lia)) as (? & ? & ?). split; [lia|]. intros. lia.
Qed.

Definition stable_mod (x b : Z) : Z := ceph_stable_mod x b (pg_mask b).

Lemma stable_mod_alt x b : 0 < b → stable_mod x b = stable_mod_of x b (nbits (b - 1)).
Proof. intros Hb. apply stable_mod_eq. by apply bits_for_mask. Qed.

Lemma stable_mod_range x b : 0 < b → 0 <= stable_mod x b < b.
Proof. intros Hb. rewrite stable_mod_alt by done. by apply stable_mod_of_range, bits_for_mask. Qed.

Lemma stable_mod_nested x b b' :
  0 < b <= b' → stable_mod (stable_mod x b') b = stable_mod x b.
Proof.
  intros Hb. rewrite !stable_mod_alt by lia.
  apply stable_mod_of_nested; [apply bits_for_mask; lia..|lia|]. apply nbits_mono. lia.
Qed.

Lemma stable_mod_below x b : 0 <= x < b → stable_mod x b = x.
Proof.
  intros Hx. rewrite stable_mod_alt by lia. destruct (bits_for_mask b) as (_ & ? & _); [lia|].
  unfold stable_mod_of. by rewrite Z.mod_small, (proj2 (Z.ltb_lt _ _)) by lia.
Qed.

(** The [int] the unsigned seed is converted to has the same low bits. *)
Lemma stable_mod_s32 x b : 0 < b <= 2 ^ 31 → stable_mod (s32 x) b = stable_mod x b.
Proof.
  intros Hb. rewrite !stable_mod_alt by lia.
  pose proof (nbits_lt (b - 1) 31 ltac:(lia) ltac:(lia)). pose proof (nbits_nonneg (b - 1)).
  assert (∀ n, 0 <= n <= 31 → s32 x mod 2 ^ n = x mod 2 ^ n) as Hmod.
  { intros n Hn. rewrite <- (mod_pow_mod (s32 x) 32), <- (mod_pow_mod x 32) by lia.
    f_equal. apply u32_s32. }
  unfold stable_mod_of. rewrite Hmod by lia.
  destruct (Z.eq_dec (nbits (b - 1)) 0) as [->|]; [|by rewrite Hmod by lia].
  by rewrite !Z.mod_1_r, (proj2 (Z.ltb_lt 0 b)) by lia.
Qed.

(** The number of bits does not matter, as long as it suits. *)
Lemma stable_mod_of_unique x b n n' :
  bits_for b n → bits_for b n' → n <= n' → stable_mod_of x b n = stable_mod_of x b n'.
Proof.
  intros Hb Hb' Hn. rewrite <- (stable_mod_of_nested x b n b n') by done.
  pose proof (stable_mod_of_range x b n' Hb'). destruct Hb as (? & ? & ?).
  unfold stable_mod_of at 1. by rewrite Z.mod_small, (proj2 (Z.ltb_lt _ _)) by lia.
Qed.

Lemma stable_mod_bits x b n : bits_for b n → ceph_stable_mod x b (2 ^ n - 1) = stable_mod x b.
Proof.
  intros Hb. assert (0 < b) as Hpos by (destruct Hb as (? & ? & ?); lia).
  rewrite stable_mod_eq, stable_mod_alt by done.
  destruct (Z.le_ge_cases n (nbits (b - 1))); [|symmetry];
    apply stable_mod_of_unique; try done; by apply bits_for_mask.
Qed.

(** ** Splitting: bits above a place *)

Lemma lor_high B n h lo :
  0 <= B → 0 <= lo < 2 ^ B → Z.lor (n * 2 ^ B) (h * 2 ^ B + lo) = Z.lor n h * 2 ^ B + lo.
Proof.
  intros HB Hlo.
  assert (Hno : ∀ k, Z.land (k * 2 ^ B) lo = 0).
  { intros k. apply Z.bits_inj_0. intros m. rewrite Z.land_spec.
    destruct (Z.ltb_spec m B); [by rewrite Z.mul_pow2_bits_low|].
    rewrite <- (Z.mod_small lo (2 ^ B)), Z.mod_pow2_bits_high by lia. apply andb_false_r. }
  rewrite !Z.add_nocarry_lor by done. rewrite Z.lor_assoc. f_equal.
  rewrite <- !Z.shiftl_mul_pow2 by done. by rewrite Z.shiftl_lor.
Qed.

Lemma lor_bit n h : 0 <= n → h = 0 ∨ h = 1 → Z.lor n h = n + h - (n mod 2) * h.
Proof.
  intros Hn Hh. pose proof (Z.add_lor_land n h) as Heq. destruct Hh as [-> | ->].
  - rewrite Z.land_0_r in Heq. lia.
  - pose proof (land_low n 1 ltac:(lia)) as Hl. change (2 ^ 1 - 1) with 1 in Hl.
    change (2 ^ 1) with 2 in Hl. lia.
Qed.

Section split.
Context (seed old new : Z).
Hypothesis Hold : 0 < old < 2 ^ 31.
Hypothesis Hseed : 0 <= seed < old.
Hypothesis Hnew : old < new < 2 ^ 31.
#[local] Abbreviation B := (nbits old - 1).

Lemma split_bits : 0 <= B < 31 ∧ 2 ^ B <= old < 2 * 2 ^ B ∧ bits_for old (nbits old) ∧ 0 < 2 ^ B.
Proof.
  destruct (nbits_spec old ltac:(lia)) as (Hn & Hlo & Hhi).
  pose proof (nbits_lt old 31 ltac:(lia) ltac:(lia)).
  assert (2 ^ nbits old = 2 * 2 ^ B) as Heq.
  { rewrite <- Z.pow_succ_r by lia. f_equal. lia. }
  split; [lia|]. split; [lia|]. split; [|by apply Z.pow_pos_nonneg; lia].
  split; [lia|]. split; [lia|]. done.
Qed.

(** The [n]-th candidate child. *)
Definition candidate (n : Z) : Z := Z.lor (n * 2 ^ B) seed.
Definition is_child (s : Z) : Prop := old <= s < new ∧ stable_mod s old = seed.

Lemma seed_parts : ∃ h lo, seed = h * 2 ^ B + lo ∧ 0 <= lo < 2 ^ B ∧ (h = 0 ∨ h = 1).
Proof.
  destruct split_bits as (HB & Ho & _ & Hp). exists (seed / 2 ^ B), (seed mod 2 ^ B).
  pose proof (Z.mod_pos_bound seed (2 ^ B) Hp). pose proof (Z.div_mod seed (2 ^ B) ltac:(lia)).
  split; [lia|]. split; [lia|].
  assert (0 <= seed / 2 ^ B < 2); [|lia].
  split; [by apply Z.div_pos; lia|]. apply Z.div_lt_upper_bound; lia.
Qed.

Lemma candidate_bounds n : 0 <= n → n * 2 ^ B <= candidate n <= n * 2 ^ B + 2 * 2 ^ B - 1.
Proof.
  intros Hn. destruct split_bits as (HB & _ & _ & Hp).
  destruct seed_parts as (h & lo & Hs & Hlo & Hh). unfold candidate.
  rewrite Hs, lor_high, lor_bit by (done || lia).
  pose proof (Z.mod_pos_bound n 2 ltac:(lia)). destruct Hh as [-> | ->]; nia.
Qed.

Lemma candidate_mono n k : 0 <= n <= k → candidate n <= candidate k.
Proof.
  intros Hn. destruct split_bits as (HB & _ & _ & Hp).
  destruct seed_parts as (h & lo & Hs & Hlo & Hh). unfold candidate.
  rewrite Hs, !lor_high, !lor_bit by (done || lia).
  pose proof (Z.mod_pos_bound n 2 ltac:(lia)). pose proof (Z.mod_pos_bound k 2 ltac:(lia)).
  assert (n + h - n mod 2 * h <= k + h - k mod 2 * h); [|nia].
  destruct (Z.eq_dec n k) as [->|]; [lia|]. destruct Hh as [-> | ->]; lia.
Qed.

(** Every child is a candidate. *)
Lemma child_candidate s : is_child s → ∃ n, 1 <= n ∧ candidate n = s.
Proof.
  intros [Hs Hmod]. destruct split_bits as (HB & Ho & Hbits & Hp).
  destruct seed_parts as (h & lo & Hse & Hlo & Hh).
  rewrite <- (stable_mod_bits _ _ _ Hbits), stable_mod_eq in Hmod by done.
  unfold stable_mod_of in Hmod.
  pose proof (Z.div_mod s (2 ^ B) ltac:(lia)) as Hdiv.
  assert (s / 2 ^ B >= 1) as Hq.
  { enough (1 <= s / 2 ^ B) by lia. apply Z.div_le_lower_bound; lia. }
  assert (Hsmall : seed mod 2 ^ B = lo).
  { rewrite Hse, Z.add_comm, Z.mod_add, Z.mod_small by lia. done. }
  exists (s / 2 ^ B). split; [lia|]. unfold candidate.
  rewrite Hse, lor_high, lor_bit by (done || lia).
  assert (s mod 2 ^ B = lo ∧ (h = 0 ∨ (s / 2 ^ B) mod 2 = 1)) as [Hr Hodd].
  { destruct (Z.ltb_spec (s mod 2 ^ nbits old) old).
    - assert (s mod 2 ^ B = lo) as Hr by (by rewrite <- (mod_pow_mod s (nbits old)), Hmod by lia).
      split; [done|]. destruct Hh as [->|Hh]; [by left|right].
      replace (nbits old) with (B + 1) in Hmod by lia.
      rewrite Z.pow_add_r, Z.rem_mul_r in Hmod by lia. change (2 ^ 1) with 2 in Hmod.
      nia.
    - split; [by rewrite <- Hsmall, <- Hmod, mod_pow_mod by lia|]. left.
      pose proof (Z.mod_pos_bound s (2 ^ B) Hp). destruct Hh as [->|Hh]; [done|]. nia. }
  destruct Hodd as [->|Hodd]; [lia|]. rewrite Hodd. lia.
Qed.

Lemma candidate_word n :
  0 <= n → n * 2 ^ B <= 2 ^ 31 →
  u32 (Z.lor (s32 (Z.shiftl n B)) seed) = candidate n.
Proof.
  intros Hn Hlt. destruct split_bits as (HB & _ & _ & Hp). rewrite Z.shiftl_mul_pow2 by lia.
  pose proof (Z.pow_le_mono_r 2 B 30 ltac:(lia) ltac:(lia)). change (2 ^ 30) with 1073741824 in *.
  pose proof (candidate_bounds n Hn).
  assert (∀ x, u32 x = Z.land x (2 ^ 32 - 1)) as Hu by (intros x; by rewrite land_low).
  rewrite Hu, Z.land_lor_distr_l, <- !Hu, u32_s32, !Hu, <- Z.land_lor_distr_l, <- Hu.
  apply u32_small. unfold candidate in *. nia.
Qed.

Lemma pg_split_step_eq n :
  0 <= n → n * 2 ^ B <= 2 ^ 31 →
  pg_split_step seed old new (nbits old) (2 ^ nbits old - 1) n =
    Ret (if (candidate n <? old) || (candidate n =? seed) then inl (n + 1)
         else if candidate n >=? new then inr false
         else if stable_mod (candidate n) old =? seed then inr true else inl (n + 1)).
Proof.
  intros Hn Hlt. destruct split_bits as (HB & _ & Hbits & Hp). unfold pg_split_step.
  rewrite (proj2 (Z.leb_le 0 B)), (proj2 (Z.ltb_lt B 32)) by lia. cbn [andb mbind outcome_bind].
  rewrite candidate_word by done. pose proof (candidate_bounds n Hn).
  destruct ((candidate n <? old) || (candidate n =? seed)); [done|].
  destruct (candidate n >=? new) eqn:Hge; [done|]. bool_to_prop.
  rewrite (s32_small (candidate n)), (s32_small old), stable_mod_bits by (done || lia).
  pose proof (stable_mod_range (candidate n) old ltac:(lia)).
  rewrite u32_small by lia. by destruct (_ =? seed).
Qed.

Lemma pg_split_loop_wp fuel :
  (Z.to_nat new + 1 < fuel)%nat →
  wp (loop fuel (pg_split_step seed old new (nbits old) (2 ^ nbits old - 1)) 1)
    (λ b, b = true ↔ ∃ s, is_child s).
Proof.
  intros Hfuel. destruct split_bits as (HB & Ho & _ & Hp).
  apply (wp_loop (λ n, 1 <= n ∧ (n - 1) * 2 ^ B < new
      ∧ ∀ k, 1 <= k < n → candidate k < new ∧ ¬ is_child (candidate k))
    (λ n, Z.to_nat (new - (n - 1) * 2 ^ B))).
  - intros n (Hn & Hlt & Hseen).
    assert (n * 2 ^ B <= 2 ^ 31) as Hbound.
    { assert (2 ^ 31 = 2 ^ (31 - B) * 2 ^ B) as Hq by (rewrite <- Z.pow_add_r by lia; f_equal; lia).
      assert (n <= 2 ^ (31 - B)) by nia. nia. }
    rewrite pg_split_step_eq by lia. cbn [wp].
    pose proof (candidate_bounds n ltac:(lia)) as Hc.
    assert (Hnext : candidate n < new → ¬ is_child (candidate n) →
      (1 <= n + 1 ∧ (n + 1 - 1) * 2 ^ B < new
       ∧ ∀ k, 1 <= k < n + 1 → candidate k < new ∧ ¬ is_child (candidate k))
      ∧ (Z.to_nat (new - (n + 1 - 1) * 2 ^ B) < Z.to_nat (new - (n - 1) * 2 ^ B))%nat).
    { intros Hcn Hno. split; [|lia]. split; [lia|]. split; [lia|].
      intros k Hk. destruct (Z.eq_dec k n) as [->|]; [done|]. apply Hseen. lia. }
    destruct ((candidate n <? old) || (candidate n =? seed)) eqn:Hskip.
    { apply orb_true_iff in Hskip. assert (candidate n < old) by (destruct Hskip; bool_to_prop; lia).
      apply Hnext; [lia|]. intros [? _]. lia. }
    bool_to_prop. destruct (candidate n >=? new) eqn:Hge; bool_to_prop.
    + split; [done|]. intros (s & Hs). destruct (child_candidate s Hs) as (k & Hk & <-).
      destruct (Z_lt_le_dec k n); [by destruct (Hseen k ltac:(lia))|].
      pose proof (candidate_mono n k ltac:(lia)). destruct Hs. lia.
    + destruct (Z.eqb_spec (stable_mod (candidate n) old) seed) as [Heq|Hne].
      * split; [|done]. intros _. exists (candidate n). split; [lia|done].
      * apply Hnext; [lia|]. by intros [_ ?].
  - split; [lia|]. split; [lia|]. intros k ?. lia.
  - lia.
Qed.
End split.

(** ** Resizing the arrays *)

(** The arrays have [max_osd] elements. *)
Record wf_arrays (map : ceph_osdmap) : Prop := {
  wa_max : 0 <= om_max_osd map;
  wa_state : Z.of_nat (length (om_osd_state map)) = om_max_osd map;
  wa_weight : Z.of_nat (length (om_osd_weight map)) = om_max_osd map;
  wa_addr : Z.of_nat (length (om_osd_addr map)) = om_max_osd map;
  wa_affinity : ∀ a, om_osd_primary_affinity map = Some a →
    Z.of_nat (length a) = om_max_osd map }.

Section fill.
Context {A : Type} (mem : nat → A) (old : list A) (n : Z) (d : A).
#[local] Abbreviation o := (Z.of_nat (length old)).

(** The new array when the elements below [i] are settled. *)
Definition filled (i : Z) : list A :=
  take (Z.to_nat i) (resize (Z.to_nat n) d old) ++ drop (Z.to_nat i) (mem <$> seq 0 (Z.to_nat n)).

Lemma length_filled i : 0 <= i <= n → length (filled i) = Z.to_nat n.
Proof.
  intros Hi. unfold filled.
  rewrite length_app, length_take, length_drop, length_fmap, length_seq, length_resize. lia.
Qed.

Lemma kvmalloc_copy_filled :
  0 <= n → kvmalloc_copy mem n (Z.min o n) old = Ret (filled (Z.min o n)).
Proof.
  intros Hn. unfold kvmalloc_copy, require. rewrite (proj2 (Z.leb_le _ _)) by lia.
  cbn [mbind outcome_bind]. unfold filled. f_equal. f_equal.
  apply list_eq. intros j. destruct (decide (j < Z.to_nat (Z.min o n))%nat).
  - rewrite !lookup_take_lt by lia. symmetry. apply lookup_resize; lia.
  - by rewrite !lookup_take_ge by lia.
Qed.

Lemma aset_filled i : o <= i < n → aset (filled i) i d = Ret (filled (i + 1)).
Proof.
  intros Hi. unfold aset. rewrite length_filled by lia.
  rewrite (proj2 (Z.leb_le _ _)), (proj2 (Z.ltb_lt _ _)) by lia. cbn [andb]. f_equal.
  apply list_eq. intros j. unfold filled. replace (Z.to_nat (i + 1)) with (S (Z.to_nat i)) by lia.
  set (k := Z.to_nat i) in *.
  assert (length (resize (Z.to_nat n) d old) = Z.to_nat n) by apply length_resize.
  destruct (decide (j = k)) as [->|Hne].
  - rewrite list_lookup_insert_eq by (rewrite length_app, length_take, length_drop,
      length_fmap, length_seq; lia).
    rewrite lookup_app_l, lookup_take_lt by (rewrite ?length_take; lia).
    symmetry. rewrite lookup_resize_new by lia. done.
  - rewrite list_lookup_insert_ne by done. destruct (decide (j < k)%nat).
    + rewrite !lookup_app_l, !lookup_take_lt by (rewrite ?length_take; lia). done.
    + rewrite !lookup_app_r by (rewrite ?length_take; lia). rewrite !lookup_drop, !length_take.
      f_equal. lia.
Qed.

Lemma filled_done : 0 <= n → filled n = resize (Z.to_nat n) d old.
Proof.
  intros Hn. unfold filled.
  rewrite take_ge by (rewrite length_resize; lia).
  rewrite drop_ge by (rewrite length_fmap, length_seq; lia). apply app_nil_r.
Qed.

(** The loop that initialises the new elements. *)
Lemma fill_wp :
  0 <= n → wp (for_range (Z.to_nat (n - o)) o (λ i l, aset l i d) (filled (Z.min o n)))
    (λ l, l = resize (Z.to_nat n) d old).
Proof.
  intros Hn. eapply wp_mono.
  - apply (wp_for_range (λ i l, l = filled (Z.min i n))); [|done].
    intros i l Hi ->. rewrite !Z.min_l, aset_filled by lia. done.
  - intros l ->. rewrite Z.min_r, filled_done by lia. done.
Qed.
End fill.

(** The three arrays are filled by one loop. *)
Lemma fill_arrays_wp mem amem st w (ad : list ceph_entity_addr) n :
  0 <= n → length w = length st → length ad = length st →
  let o := Z.of_nat (length st) in
  wp (for_range (Z.to_nat (n - o)) o
      (λ i '(st, w, ad),
         st ← aset st i 0; w ← aset w i CEPH_OSD_OUT; ad ← aset ad i zero_addr;
         Ret (st, w, ad))
      (filled mem st n 0 (Z.min o n), filled mem w n CEPH_OSD_OUT (Z.min o n),
       filled amem ad n zero_addr (Z.min o n)))
    (λ r, r = (resize (Z.to_nat n) 0 st, resize (Z.to_nat n) CEPH_OSD_OUT w,
               resize (Z.to_nat n) zero_addr ad)).
Proof.
  intros Hn Hw Had o. eapply wp_mono.
  - apply (wp_for_range (λ i r, r = (filled mem st n 0 (Z.min i n),
      filled mem w n CEPH_OSD_OUT (Z.min i n), filled amem ad n zero_addr (Z.min i n)))); [|done].
    intros i r Hi ->. rewrite !Z.min_l, !aset_filled by lia. done.
  - intros r ->. rewrite !Z.min_r, !filled_done by lia. done.
Qed.

Lemma ceph_pg_is_split_wp (fuel : nat) (pgid : ceph_pg) (old_pg_num new_pg_num : Z)
    (Hold : 0 < old_pg_num < 2 ^ 31) (Hnew : 0 < new_pg_num < 2 ^ 31)
    (Hseed : 0 <= pg_seed pgid < old_pg_num) (Hfuel : (Z.to_nat new_pg_num + 1 < fuel)%nat) :
  wp (ceph_pg_is_split fuel pgid old_pg_num new_pg_num) (λ b, b = true ↔
    ∃ s, old_pg_num <= s < new_pg_num
      ∧ ceph_stable_mod s old_pg_num (pg_mask old_pg_num) = pg_seed pgid).
Proof.
  unfold ceph_pg_is_split. rewrite calc_bits_of_nbits by lia. cbn [mbind outcome_bind].
  pose proof (nbits_lt old_pg_num 31 ltac:(lia) ltac:(lia)). pose proof (nbits_nonneg old_pg_num).
  rewrite (proj2 (Z.ltb_lt (nbits old_pg_num) 32)) by lia. cbn [mbind outcome_bind].
  rewrite Z.shiftl_mul_pow2, Z.mul_1_l, s32_mask by lia.
  destruct (Z.leb_spec new_pg_num old_pg_num).
  - split; [done|]. intros (s & ? & _). lia.
  - by apply pg_split_loop_wp; try lia.
Qed.

(** ** Intervals *)

(** An OSD set in bounds, and the entries that count. *)
Definition osds_ok (s : ceph_osds) : Prop :=
  Z.of_nat (length (osds s)) = CEPH_PG_MAX_SIZE ∧ 0 <= os_size s <= CEPH_PG_MAX_SIZE.
Definition visible (s : ceph_osds) : list Z := take (Z.to_nat (os_size s)) (osds s).

Lemma length_visible s : osds_ok s → Z.of_nat (length (visible s)) = os_size s.
Proof. intros [? ?]. unfold visible. rewrite length_take. lia. Qed.

Lemma mem_prefix_visible s : osds_ok s → mem_prefix (osds s) (os_size s) = Ret (visible s).
Proof.
  intros [Hl Hs]. unfold mem_prefix. by rewrite (proj2 (Z.leb_le _ _)), (proj2 (Z.leb_le _ _)) by lia.
Qed.

Lemma osds_equal_raw_wp a b :
  osds_ok a → osds_ok b → wp (osds_equal_raw a b) (λ e, e = true ↔ visible a = visible b).
Proof.
  intros Ha Hb. unfold osds_equal_raw. destruct (Z.eqb_spec (os_size a) (os_size b)) as [Heq|Hne].
  - rewrite <- Heq at 1. rewrite mem_prefix_visible by done. cbn [mbind outcome_bind].
    rewrite mem_prefix_visible by done. cbn [mbind outcome_bind wp]. apply bool_decide_eq_true.
  - cbn [wp]. split; [done|]. intros Hv. apply (f_equal length) in Hv.
    apply length_visible in Ha, Hb. lia.
Qed.

Lemma osds_equal_wp a b :
  osds_ok a → osds_ok b →
  wp (osds_equal a b) (λ e, e = true ↔ visible a = visible b ∧ os_primary a = os_primary b).
Proof.
  intros Ha Hb. unfold osds_equal. apply wp_bind. eapply wp_mono; [by apply osds_equal_raw_wp|].
  intros e He. cbn [wp]. rewrite andb_true_iff, He, Z.eqb_eq. done.
Qed.

(** C22: a placement group splits exactly when it has a child.  For any growth of the number of
    groups the test ends, and it says yes exactly when some new seed reduces to the group's own
    under the old number. *)
Theorem ceph_pg_is_split_children (fuel : nat) (pgid : ceph_pg) (old_pg_num new_pg_num : Z)
    (Hold : 0 < old_pg_num < 2 ^ 31) (Hnew : 0 < new_pg_num < 2 ^ 31)
    (Hseed : 0 <= pg_seed pgid < old_pg_num) (Hfuel : (Z.to_nat new_pg_num + 1 < fuel)%nat) :
  wp (ceph_pg_is_split fuel pgid old_pg_num new_pg_num) (λ b, b = true ↔
    ∃ s, old_pg_num <= s < new_pg_num
      ∧ ceph_stable_mod s old_pg_num (pg_mask old_pg_num) = pg_seed pgid).
Proof. by apply ceph_pg_is_split_wp. Qed.

Lemma ceph_pg_is_split_children_witness :
  wp (ceph_pg_is_split 20 (CephPg 1 2) 6 12) (λ b, b = true ↔
    ∃ s, 6 <= s < 12 ∧ ceph_stable_mod s 6 (pg_mask 6) = 2)
  ∧ ceph_pg_is_split 20 (CephPg 1 2) 6 12 = Ret true.
Proof.
  split; [|reflexivity].
  by apply (ceph_pg_is_split_children 20 (CephPg 1 2) 6 12); try (simpl; lia).
Defined.

(** C23: the placement groups of the trees are totally ordered.  The comparison of shards is
    antisymmetric and transitive, and 0 exactly for equal ones, which is what makes a search
    tree keyed by it find what was inserted. *)
Theorem ceph_spg_compare_total (a b c : ceph_spg) :
  (ceph_spg_compare a b = 0 ↔ a = b)
  ∧ (ceph_spg_compare a b = -1 ↔ ceph_spg_compare b a = 1)
  ∧ (ceph_spg_compare a b = -1 ∨ ceph_spg_compare a b = 0 ∨ ceph_spg_compare a b = 1)
  ∧ (ceph_spg_compare a b <= 0 → ceph_spg_compare b c <= 0 → ceph_spg_compare a c <= 0).
Proof.
  split_and!; rewrite ?ceph_spg_eq; unfold ceph_spg_compare, ceph_pg_compare, nonzero;
    split_compare; lia.
Qed.

(** Resizing the OSD arrays.  On success every array has the new length, keeps what it held
    and is initialised where it grew (not existing, out, no address, default affinity).  When
    memory for the first three arrays is missing nothing changes; when only the affinities
    cannot be copied the call fails with the three arrays already of the new length but the old
    [max_osd]. *)
Theorem osdmap_set_max_osd_resizes (arrays_ok affinity_ok : bool) (mem : nat → Z)
    (amem : nat → ceph_entity_addr) (map : ceph_osdmap) (max : Z)
    (Hwf : wf_arrays map) (Hmax : 0 <= max < 2 ^ 31) :
  let n := Z.to_nat max in
  wp (osdmap_set_max_osd arrays_ok affinity_ok mem amem map max) (λ '(r, map'),
    (r = 0 ∨ r = - ENOMEM)
    ∧ (r = 0 → om_max_osd map' = max ∧ wf_arrays map'
        ∧ om_osd_state map' = resize n 0 (om_osd_state map)
        ∧ om_osd_weight map' = resize n CEPH_OSD_OUT (om_osd_weight map)
        ∧ om_osd_addr map' = resize n zero_addr (om_osd_addr map)
        ∧ om_osd_primary_affinity map' =
            resize n CEPH_OSD_DEFAULT_PRIMARY_AFFINITY <$> om_osd_primary_affinity map)
    ∧ (r ≠ 0 → om_max_osd map' = om_max_osd map
        ∧ (arrays_ok = false → map' = map)
        ∧ (arrays_ok = true → Z.of_nat (length (om_osd_state map')) = max ∧ ¬ wf_arrays map'))).
Proof.
  destruct Hwf as [Hm Hs Hw Ha Hf]. unfold osdmap_set_max_osd. cbv zeta.
  destruct (Z.eqb_spec max (om_max_osd map)) as [Heq|Hne].
  { cbn [wp]. split; [by left|]. split; [|done]. intros _. rewrite Heq.
    rewrite !resize_all_alt by lia. split_and!; try done.
    destruct (om_osd_primary_affinity map) as [a|] eqn:E; [|done]. simpl. specialize (Hf a eq_refl).
    by rewrite resize_all_alt by lia. }
  destruct arrays_ok; cbn [negb]; [|by cbn [wp]; split; [right|]; split].
  pose proof (kvmalloc_copy_filled mem (om_osd_state map) max 0 ltac:(lia)) as E1.
  pose proof (kvmalloc_copy_filled mem (om_osd_weight map) max CEPH_OSD_OUT ltac:(lia)) as E2.
  pose proof (kvmalloc_copy_filled amem (om_osd_addr map) max zero_addr ltac:(lia)) as E3.
  pose proof (fill_arrays_wp mem amem (om_osd_state map) (om_osd_weight map) (om_osd_addr map) max
    ltac:(lia) ltac:(lia) ltac:(lia)) as E4.
  rewrite Hs in E1, E4. rewrite Hw in E2. rewrite Ha in E3.
  rewrite E1, E2, E3. cbn [mbind outcome_bind].
  apply wp_bind. eapply wp_mono; [exact E4|]. intros r ->.
  unfold set_osd_arrays at 1. cbn [om_osd_primary_affinity].
  destruct (om_osd_primary_affinity map) as [a|] eqn:Eaff.
  - specialize (Hf a eq_refl). destruct affinity_ok; cbn [negb].
    + pose proof (kvmalloc_copy_filled mem a max CEPH_OSD_DEFAULT_PRIMARY_AFFINITY ltac:(lia)) as E5.
      pose proof (fill_wp mem a max CEPH_OSD_DEFAULT_PRIMARY_AFFINITY ltac:(lia)) as E6.
      rewrite Hf in E5, E6. rewrite E5. cbn [mbind outcome_bind om_max_osd set_osd_arrays].
      apply wp_bind. eapply wp_mono; [exact E6|]. intros l ->. cbn [wp]. split; [by left|].
      split; [|done]. intros _. split_and!; try done.
      split; simpl; rewrite ?length_resize; try lia. intros a' [= <-]. rewrite length_resize. lia.
    + cbn [wp]. split; [by right|]. split; [done|]. intros _. split; [done|]. split; [done|].
      intros _. simpl. rewrite length_resize. split; [lia|]. intros [_ Hbad _ _ _].
      simpl in Hbad. rewrite length_resize in Hbad. lia.
  - cbn [wp]. split; [by left|]. split; [|done]. intros _. split_and!; try done.
    split; simpl; rewrite ?length_resize; try lia. intros a. by rewrite Eaff.
Qed.

Definition ex_osdmap : ceph_osdmap :=
  CephOsdmap (replicate 16 0) 1 (0, 0) (0, 0) 0 4 [3; 3; 1; 3] [0x10000; 0x10000; 0x10000; 0]
    (replicate 4 zero_addr) ∅ ∅ ∅ ∅ (Some [0x10000; 0x8000; 0x10000; 0x10000]) ∅ 0 None
    init_workspace_manager.

Lemma wf_ex_osdmap : wf_arrays ex_osdmap.
Proof. split; try done. by intros a [= <-]. Qed.

Lemma osdmap_set_max_osd_resizes_witness :
  wf_arrays ex_osdmap ∧
  wp (osdmap_set_max_osd true false (λ _, 7) (λ _, zero_addr) ex_osdmap 2) (λ '(r, map'),
    (r ≠ 0 → om_max_osd map' = 4 ∧ Z.of_nat (length (om_osd_state map')) = 2)).
Proof.
  split; [exact wf_ex_osdmap|].
  eapply wp_mono; [apply (osdmap_set_max_osd_resizes true false (λ _, 7) (λ _, zero_addr) ex_osdmap 2
    wf_ex_osdmap); lia|].
  intros [r map'] (_ & _ & H) Hr. destruct (H Hr) as (? & _ & H'). split; [done|]. by apply H'.
Defined.

(** C24: when requests must be sent again.  The test for a new interval says no exactly when the
    acting and the up set list the same OSDs with the same primary, the pool's sizes and the two
    flags are unchanged, and the group does not split. *)
Theorem ceph_is_new_interval_exact (fuel : nat) (old_acting new_acting old_up new_up : ceph_osds)
    (old_size new_size old_min_size new_min_size old_pg_num new_pg_num : Z)
    (old_sort new_sort old_deletes new_deletes : bool) (pgid : ceph_pg)
    (Hoa : osds_ok old_acting) (Hna : osds_ok new_acting) (Hou : osds_ok old_up)
    (Hnu : osds_ok new_up) (Hold : 0 < old_pg_num < 2 ^ 31) (Hnew : 0 < new_pg_num < 2 ^ 31)
    (Hseed : 0 <= pg_seed pgid < old_pg_num) (Hfuel : (Z.to_nat new_pg_num + 1 < fuel)%nat) :
  wp (ceph_is_new_interval fuel old_acting new_acting old_up new_up old_size new_size old_min_size
        new_min_size old_pg_num new_pg_num old_sort new_sort old_deletes new_deletes pgid)
    (λ b, b = false ↔
      (visible old_acting = visible new_acting ∧ os_primary old_acting = os_primary new_acting)
      ∧ (visible old_up = visible new_up ∧ os_primary old_up = os_primary new_up)
      ∧ old_size = new_size ∧ old_min_size = new_min_size
      ∧ old_sort = new_sort ∧ old_deletes = new_deletes
      ∧ ¬ ∃ s, old_pg_num <= s < new_pg_num
          ∧ ceph_stable_mod s old_pg_num (pg_mask old_pg_num) = pg_seed pgid).
Proof.
  unfold ceph_is_new_interval.
  apply wp_bind. eapply wp_mono; [by apply osds_equal_wp|]. intros [] Ha; cbn [negb wp]; [|naive_solver].
  apply wp_bind. eapply wp_mono; [by apply osds_equal_wp|]. intros [] Hu; cbn [negb wp]; [|naive_solver].
  destruct (Z.eqb_spec old_size new_size); cbn [negb wp]; [|naive_solver].
  destruct (Z.eqb_spec old_min_size new_min_size); cbn [negb wp]; [|naive_solver].
  apply wp_bind. eapply wp_mono; [by apply ceph_pg_is_split_wp|].
  intros [] Hs; cbn [wp]; [naive_solver|].
  destruct old_sort, new_sort, old_deletes, new_deletes; simpl; naive_solver.
Qed.

Definition ex_osds : ceph_osds := CephOsds ([0; 1; 3] ++ replicate 29 0) 3 0.

Lemma ceph_is_new_interval_exact_witness :
  osds_ok ex_osds ∧
  wp (ceph_is_new_interval 20 ex_osds ex_osds ex_osds (set_primary ex_osds 1) 3 3 2 2 6 12
        true true true true (CephPg 1 2)) (λ b, b ≠ false).
Proof.
  assert (Hok : osds_ok ex_osds) by (split; [done|simpl; unfold CEPH_PG_MAX_SIZE; lia]).
  split; [exact Hok|].
  eapply wp_mono; [apply (ceph_is_new_interval_exact 20 ex_osds ex_osds ex_osds
    (set_primary ex_osds 1) 3 3 2 2 6 12 true true true true (CephPg 1 2) Hok Hok Hok Hok);
    simpl; lia|].
  intros b Hb Hf. apply Hb in Hf as (_ & [_ ?] & _). discriminate.
Defined.
