(* ===== verification/Placement.v ===== *)
(** * Placement (libceph/osdmap.c, from objects to OSDs)

    An object name is hashed to a raw placement group, that to a group and a placement seed, the
    seed by CRUSH to OSDs; then the exceptions are applied, down OSDs dropped, a primary chosen
    and temporary mappings taken into account. *)
From S2P Require Import Prelude Hash Crush Mapper Choose DoRule Workspace OsdMap.

(** ** Objects to placement groups *)

(** The object's name, and its locator: the pool and the namespace, if there is one. *)
Record ceph_object_locator := CephObjectLocator { oloc_pool : Z; oloc_pool_ns : option (list Z) }.

Definition ceph_oloc_init : ceph_object_locator := CephObjectLocator (-1) None.
Definition ceph_oloc_empty (oloc : ceph_object_locator) : bool := oloc_pool oloc =? -1.

(** The buffer hashed when there is a namespace. *)
Definition NS_SEPARATOR : Z := 0x1f.
Definition object_locator_to_pg (pi : ceph_pg_pool_info) (name : list Z)
    (oloc : ceph_object_locator) : outcome ceph_pg :=
  match oloc_pool_ns oloc with
  | None =>
      seed ← ceph_str_hash (pi_object_hash pi) name (Z.of_nat (length name));
      Ret (CephPg (u64 (oloc_pool oloc)) seed)
  | Some ns =>
      let total := Z.of_nat (length ns) + 1 + Z.of_nat (length name) in
      let buf := ns ++ [NS_SEPARATOR] ++ name in
      seed ← ceph_str_hash (pi_object_hash pi) buf total;
      Ret (CephPg (u64 (oloc_pool oloc)) seed)
  end.

Definition ceph_object_locator_to_pg (map : ceph_osdmap) (name : list Z)
    (oloc : ceph_object_locator) : outcome (Z * option ceph_pg) :=
  match ceph_pg_pool_by_id map (u64 (oloc_pool oloc)) with
  | None => Ret (- ENOENT, None)
  | Some pi => pg ← object_locator_to_pg pi name oloc; Ret (0, Some pg)
  end.

Definition raw_pg_to_pg (pi : ceph_pg_pool_info) (raw_pgid : ceph_pg) : ceph_pg :=
  CephPg (pg_pool raw_pgid)
    (u32 (ceph_stable_mod (s32 (pg_seed raw_pgid)) (s32 (pi_pg_num pi)) (pi_pg_num_mask pi))).

Definition raw_pg_to_pps (pi : ceph_pg_pool_info) (raw_pgid : ceph_pg) : Z :=
  let ps := ceph_stable_mod (s32 (pg_seed raw_pgid)) (s32 (pi_pgp_num pi)) (pi_pgp_num_mask pi) in
  if nonzero (Z.land (pi_flags pi) CEPH_POOL_FLAG_HASHPSPOOL) then
    crush_hash32_2 CRUSH_HASH_RJENKINS1 ps (pg_pool raw_pgid)
  else u32 (ps + u32 (pg_pool raw_pgid)).

(** ** CRUSH *)

Definition CEPH_DEFAULT_CHOOSE_ARGS : Z := -1.

Section placement.
(** [fuel] bounds the descents; [scratch] is what the memory of the vectors behind the workspace
    holds before the call. *)
Context (fuel : nat) (scratch : Z → Z).
Context (map : ceph_osdmap) (pi : ceph_pg_pool_info).

Definition choose_args_of (c : crush_map) (index : Z) : option crush_choose_arg_map :=
  match choose_args c !! index with
  | Some a => Some a
  | None => choose_args c !! CEPH_DEFAULT_CHOOSE_ARGS
  end.

Definition crush_env (c : crush_map) (x : Z) (choose_args_index : Z) : choose_env :=
  ChooseEnv c (om_osd_weight map) (om_max_osd map) x
    (ca_args <$> choose_args_of c choose_args_index).

(** The workspace got is passed in, and put back as returned. *)
Definition do_crush (ruleno x : Z) (result : list Z) (result_max : Z) (choose_args_index : Z)
    (work : crush_work) : outcome (Z * list Z * crush_work) :=
  _ ← require (negb (result_max >? CEPH_PG_MAX_SIZE));
  c ← deref (om_crush map);
  let vec k := scratch <$> seqZ (k * result_max) result_max in
  crush_do_rule (crush_env c (s32 x) choose_args_index) fuel result_max ruleno work
    (vec 0) (vec 1) (vec 2) result.

(** Drop the entries for which [gone] says so, moving the others left. *)
Definition shift_step (gone : Z → outcome bool) (i : Z) (s : Z * list Z) : outcome (Z * list Z) :=
  let '(removed, l) := s in
  osd ← aget l i;
  g ← gone osd;
  if (g : bool) then Ret (removed + 1, l)
  else if nonzero removed then l ← aset l (i - removed) osd; Ret (removed, l)
  else Ret (removed, l).

Definition remove_nonexistent_osds (set : ceph_osds) : outcome ceph_osds :=
  shift ← ceph_can_shift_osds pi;
  if (shift : bool) then
    '(removed, l) ← for_range (Z.to_nat (os_size set)) 0
      (shift_step (λ osd, e ← ceph_osd_exists map osd; Ret (negb e))) (0, osds set);
    Ret (CephOsds l (os_size set - removed) (os_primary set))
  else
    l ← for_range (Z.to_nat (os_size set)) 0
      (λ i l,
         osd ← aget l i;
         e ← ceph_osd_exists map osd;
         if negb e then aset l i CRUSH_ITEM_NONE else Ret l) (osds set);
    Ret (set_osds set l).

Definition pg_to_raw_osds (raw_pgid : ceph_pg) (raw : ceph_osds) (work : crush_work)
    : outcome (ceph_osds * Z * crush_work) :=
  let pps := raw_pg_to_pps pi raw_pgid in
  let raw := ceph_osds_init raw in
  c ← deref (om_crush map);
  ruleno ← crush_find_rule c (pi_crush_ruleset pi) (pi_type pi) (pi_size pi);
  if ruleno <? 0 then Ret (raw, pps, work)
  else if pi_size pi >? CEPH_PG_MAX_SIZE then Ret (raw, pps, work)
  else
    '(len, result, work) ← do_crush ruleno pps (take (Z.to_nat (pi_size pi)) (osds raw))
        (pi_size pi) (pi_id pi) work;
    let raw := set_osds raw (result ++ drop (Z.to_nat (pi_size pi)) (osds raw)) in
    if len <? 0 then Ret (raw, pps, work)
    else raw ← remove_nonexistent_osds (set_size raw len); Ret (raw, pps, work).

(** ** Exceptions *)

(** The target is marked out.  The comparison with [max_osd] is unsigned. *)
Definition target_out (osd : Z) : outcome bool :=
  if negb (osd =? CRUSH_ITEM_NONE) && (u32 osd <? om_max_osd map) then
    w ← aget (om_osd_weight map) osd; Ret (w =? 0)
  else Ret false.

Definition upmap_reject_step (targets : list Z) (i : Z) : outcome (Z + bool) :=
  if i <? Z.of_nat (length targets) then
    osd ← aget targets i;
    out ← target_out osd;
    if (out : bool) then Ret (inr true) else Ret (inl (i + 1))
  else Ret (inr false).

Definition upmap_item_step (raw : ceph_osds) (from to : Z) (s : Z * Z)
    : outcome (Z * Z + Z * bool) :=
  let '(j, pos) := s in
  if j <? os_size raw then
    osd ← aget (osds raw) j;
    if osd =? to then Ret (inr (pos, true))
    else
      out ← (if (osd =? from) && (pos <? 0) then target_out to else Ret true);
      Ret (inl (j + 1, if negb out then j else pos))
  else Ret (inr (pos, false)).

Definition upmap_item (from to : Z) (raw : ceph_osds) : outcome ceph_osds :=
  '(pos, exists_) ← loop (Z.to_nat (os_size raw) + 1) (upmap_item_step raw from to) (0, -1);
  if negb exists_ && (pos >=? 0) then l ← aset (osds raw) pos to; Ret (set_osds raw l)
  else Ret raw.

Definition apply_upmap_items (pgid : ceph_pg) (raw : ceph_osds) : outcome ceph_osds :=
  match om_pg_upmap_items map !! pgid with
  | None => Ret raw
  | Some items =>
      for_range (length items) 0
        (λ i raw, '(from, to) ← aget items i; upmap_item from to raw) raw
  end.

Definition apply_upmap (pgid : ceph_pg) (raw : ceph_osds) : outcome ceph_osds :=
  match om_pg_upmap map !! pgid with
  | Some targets =>
      rejected ← loop (length targets + 1) (upmap_reject_step targets) 0;
      if (rejected : bool) then Ret raw
      else
        l ← for_range (length targets) 0
          (λ i l, osd ← aget targets i; aset l i osd) (osds raw);
        apply_upmap_items pgid (CephOsds l (Z.of_nat (length targets)) (os_primary raw))
  | None => apply_upmap_items pgid raw
  end.

(** ** The up set *)

Definition raw_to_up_osds (set : ceph_osds) : outcome ceph_osds :=
  _ ← require (os_primary set =? -1);
  shift ← ceph_can_shift_osds pi;
  if (shift : bool) then
    '(removed, l) ← for_range (Z.to_nat (os_size set)) 0 (shift_step (ceph_osd_is_down map))
      (0, osds set);
    let size := os_size set - removed in
    if size >? 0 then p ← aget l 0; Ret (CephOsds l size p)
    else Ret (CephOsds l size (os_primary set))
  else
    for_range (Z.to_nat (os_size set)) 0
      (λ k set,
         let i := os_size set - 1 - k in
         osd ← aget (osds set) i;
         down ← ceph_osd_is_down map osd;
         if (down : bool) then l ← aset (osds set) i CRUSH_ITEM_NONE; Ret (set_osds set l)
         else Ret (set_primary set osd)) set.

(** *** Primary affinity *)

Definition affinity_scan_step (aff : list Z) (up : ceph_osds) (i : Z) : outcome (Z + Z) :=
  if i <? os_size up then
    osd ← aget (osds up) i;
    if osd =? CRUSH_ITEM_NONE then Ret (inl (i + 1))
    else
      a ← aget aff osd;
      if negb (a =? CEPH_OSD_DEFAULT_PRIMARY_AFFINITY) then Ret (inr i) else Ret (inl (i + 1))
  else Ret (inr i).

(** The hash rejects this OSD as primary. *)
Definition affinity_rejects (pps osd a : Z) : bool :=
  (a <? CEPH_OSD_MAX_PRIMARY_AFFINITY)
  && (Z.shiftr (crush_hash32_2 CRUSH_HASH_RJENKINS1 pps osd) 16 >=? a).

Definition affinity_pick_step (aff : list Z) (pps : Z) (up : ceph_osds) (s : Z * Z)
    : outcome (Z * Z + Z) :=
  let '(i, pos) := s in
  if i <? os_size up then
    osd ← aget (osds up) i;
    if osd =? CRUSH_ITEM_NONE then Ret (inl (i + 1, pos))
    else
      a ← aget aff osd;
      if affinity_rejects pps osd a then Ret (inl (i + 1, if pos <? 0 then i else pos))
      else Ret (inr i)
  else Ret (inr pos).

(** [for (i = pos; i > 0; i--) up->osds[i] = up->osds[i - 1];] *)
Definition rotate_right (l : list Z) (pos : Z) : outcome (list Z) :=
  for_range (Z.to_nat pos) 0 (λ k l, let i := pos - k in v ← aget l (i - 1); aset l i v) l.

Definition apply_primary_affinity (pps : Z) (up : ceph_osds) : outcome ceph_osds :=
  match om_osd_primary_affinity map with
  | None => Ret up
  | Some aff =>
      i ← loop (Z.to_nat (os_size up) + 1) (affinity_scan_step aff up) 0;
      if i =? os_size up then Ret up
      else
        pos ← loop (Z.to_nat (os_size up) + 1) (affinity_pick_step aff pps up) (0, -1);
        if pos <? 0 then Ret up
        else
          primary ← aget (osds up) pos;
          let up := set_primary up primary in
          shift ← ceph_can_shift_osds pi;
          if (shift : bool) && (pos >? 0) then
            l ← rotate_right (osds up) pos;
            l ← aset l 0 primary;
            Ret (set_osds up l)
          else Ret up
  end.

(** ** The acting set *)

Definition temp_primary_step (temp : ceph_osds) (i : Z) : outcome (Z + Z) :=
  if i <? os_size temp then
    osd ← aget (osds temp) i;
    if negb (osd =? CRUSH_ITEM_NONE) then Ret (inr osd) else Ret (inl (i + 1))
  else Ret (inr (os_primary temp)).

Definition pg_temp_step (targets : list Z) (i : Z) (temp : ceph_osds) : outcome ceph_osds :=
  let push v :=
    l ← aset (osds temp) (os_size temp) v;
    Ret (CephOsds l (os_size temp + 1) (os_primary temp)) in
  osd ← aget targets i;
  down ← ceph_osd_is_down map osd;
  if (down : bool) then
    shift ← ceph_can_shift_osds pi;
    if (shift : bool) then Ret temp else push CRUSH_ITEM_NONE
  else push osd.

Definition get_temp_osds (pgid : ceph_pg) (temp : ceph_osds) : outcome ceph_osds :=
  let temp := ceph_osds_init temp in
  temp ← match om_pg_temp map !! pgid with
         | None => Ret temp
         | Some targets =>
             temp ← for_range (length targets) 0 (pg_temp_step targets) temp;
             p ← loop (Z.to_nat (os_size temp) + 1) (temp_primary_step temp) 0;
             Ret (set_primary temp p)
         end;
  Ret (match om_primary_temp map !! pgid with
       | Some osd => set_primary temp osd
       | None => temp
       end).

(** The sets, the workspace, and whether the warning fires. *)
Definition ceph_pg_to_up_acting_osds (raw_pgid : ceph_pg) (up acting : ceph_osds)
    (work : crush_work) : outcome (ceph_osds * ceph_osds * crush_work * bool) :=
  let pgid := raw_pg_to_pg pi raw_pgid in
  '(up, pps, work) ← pg_to_raw_osds raw_pgid up work;
  up ← apply_upmap pgid up;
  up ← raw_to_up_osds up;
  up ← apply_primary_affinity pps up;
  acting ← get_temp_osds pgid acting;
  acting ←
    (if os_size acting =? 0 then
       l ← copy_osds (osds acting) (osds up) (os_size up);
       Ret (CephOsds l (os_size up)
              (if os_primary acting =? -1 then os_primary up else os_primary acting))
     else Ret acting);
  uv ← osds_valid up;
  warn ← (if negb uv then Ret true else av ← osds_valid acting; Ret (negb av));
  Ret (up, acting, work, warn).

Definition primary_shard_step (acting : ceph_osds) (i : Z) : outcome (Z + option Z) :=
  if i <? os_size acting then
    osd ← aget (osds acting) i;
    if osd =? os_primary acting then Ret (inr (Some i)) else Ret (inl (i + 1))
  else Ret (inr None).

(** [None] is the result [false]. *)
Definition ceph_pg_to_primary_shard (raw_pgid : ceph_pg) (up acting : ceph_osds)
    (work : crush_work) : outcome (option ceph_spg * crush_work) :=
  let pgid := raw_pg_to_pg pi raw_pgid in
  shift ← ceph_can_shift_osds pi;
  if (shift : bool) then Ret (Some (CephSpg pgid CEPH_SPG_NOSHARD), work)
  else
    '(_, acting, work, _) ← ceph_pg_to_up_acting_osds pgid up acting work;
    o ← loop (Z.to_nat (os_size acting) + 1) (primary_shard_step acting) 0;
    match o with
    | Some i => Ret (Some (CephSpg pgid (s8 i)), work)
    | None => Ret (None, work)
    end.
End placement.

Definition ceph_pg_to_acting_primary (fuel : nat) (scratch : Z → Z) (map : ceph_osdmap)
    (raw_pgid : ceph_pg) (up acting : ceph_osds) (work : crush_work)
    : outcome (Z * crush_work) :=
  match ceph_pg_pool_by_id map (pg_pool raw_pgid) with
  | None => Ret (-1, work)
  | Some pi =>
      '(_, acting, work, _) ← ceph_pg_to_up_acting_osds fuel scratch map pi raw_pgid up acting work;
      Ret (os_primary acting, work)
  end.

(** ** Objects map to groups *)


(** A pool whose masks were computed from its numbers of groups. *)
Definition pool_masks_ok (pi : ceph_pg_pool_info) : Prop :=
  0 < pi_pgp_num pi <= pi_pg_num pi ∧ pi_pg_num pi < 2 ^ 31
  ∧ pi_pg_num_mask pi = pg_mask (pi_pg_num pi) ∧ pi_pgp_num_mask pi = pg_mask (pi_pgp_num pi).

Lemma calc_pg_masks_ok pi :
  0 < pi_pgp_num pi <= pi_pg_num pi → pi_pg_num pi < 2 ^ 31 →
  wp (calc_pg_masks pi) pool_masks_ok.
Proof.
  intros Hp Hpg. unfold calc_pg_masks. rewrite !calc_mask_pg_mask by lia.
  cbn [mbind outcome_bind wp]. unfold pool_masks_ok. simpl. split_and!; try done; lia.
Qed.

Section pool.
Context (pi : ceph_pg_pool_info) (Hpi : pool_masks_ok pi).

Lemma raw_pg_to_pg_eq raw :
  raw_pg_to_pg pi raw = CephPg (pg_pool raw) (stable_mod (pg_seed raw) (pi_pg_num pi)).
Proof.
  destruct Hpi as (? & ? & Hm & _). unfold raw_pg_to_pg. rewrite Hm, (s32_small (pi_pg_num pi)) by lia.
  fold (stable_mod (s32 (pg_seed raw)) (pi_pg_num pi)). rewrite stable_mod_s32 by lia.
  pose proof (stable_mod_range (pg_seed raw) (pi_pg_num pi) ltac:(lia)).
  by rewrite u32_small by lia.
Qed.

Lemma pgp_seed_eq raw :
  ceph_stable_mod (s32 (pg_seed raw)) (s32 (pi_pgp_num pi)) (pi_pgp_num_mask pi)
    = stable_mod (pg_seed raw) (pi_pgp_num pi).
Proof.
  destruct Hpi as (? & ? & _ & Hm). rewrite Hm, (s32_small (pi_pgp_num pi)) by lia.
  apply stable_mod_s32. lia.
Qed.
End pool.

(** ** Sets of OSDs, purely *)

Definition osd_exists (map : ceph_osdmap) (osd : Z) : bool :=
  match om_osd_state map !! Z.to_nat osd with
  | Some st => (0 <=? osd) && nonzero (Z.land st CEPH_OSD_EXISTS)
  | None => false
  end.
Definition osd_up (map : ceph_osdmap) (osd : Z) : bool :=
  osd_exists map osd &&
  match om_osd_state map !! Z.to_nat osd with
  | Some st => nonzero (Z.land st CEPH_OSD_UP)
  | None => false
  end.

(** What is kept of a set: replicas move up, positions stay. *)
Definition keep (shift : bool) (p : Z → bool) (l : list Z) : list Z :=
  if shift then filter (λ x, p x = true) l
  else (λ x, if p x then x else CRUSH_ITEM_NONE) <$> l.

(** The first real entry. *)
Definition first_osd (l : list Z) : Z := default (-1) (head (filter (λ x, x ≠ CRUSH_ITEM_NONE) l)).

Section sets.
Context (map : ceph_osdmap) (Hmap : wf_arrays map) (Hnone : om_max_osd map <= CRUSH_ITEM_NONE).

Lemma ceph_osd_exists_eq osd : ceph_osd_exists map osd = Ret (osd_exists map osd).
Proof.
  destruct Hmap as [Hm Hs _ _ _]. unfold ceph_osd_exists, osd_exists. rewrite Z.geb_leb.
  destruct (Z.leb_spec 0 osd); cbn [andb]; [|by case_match].
  destruct (Z.ltb_spec osd (om_max_osd map)).
  - destruct (lookup_Z_Some (om_osd_state map) osd ltac:(lia)) as [st Hst].
    by rewrite (aget_Some _ _ st), Hst by (done || lia).
  - by rewrite lookup_ge_None_2 by lia.
Qed.

Lemma osd_exists_range osd : osd_exists map osd = true → 0 <= osd < om_max_osd map.
Proof.
  destruct Hmap as [Hm Hs _ _ _]. unfold osd_exists. case_match eqn:Hst; [|done].
  apply lookup_lt_Some in Hst. intros H. bool_to_prop. lia.
Qed.

Lemma ceph_osd_is_up_eq osd : ceph_osd_is_up map osd = Ret (osd_up map osd).
Proof.
  unfold ceph_osd_is_up, osd_up. rewrite ceph_osd_exists_eq. cbn [mbind outcome_bind].
  destruct (osd_exists map osd) eqn:He; [|done]. cbn [andb].
  apply osd_exists_range in He as Hr. destruct Hmap as [Hm Hs _ _ _].
  destruct (lookup_Z_Some (om_osd_state map) osd ltac:(lia)) as [st Hst].
  by rewrite (aget_Some _ _ st), Hst by (done || lia).
Qed.

Lemma ceph_osd_is_down_eq osd : ceph_osd_is_down map osd = Ret (negb (osd_up map osd)).
Proof. unfold ceph_osd_is_down. by rewrite ceph_osd_is_up_eq. Qed.

Lemma osd_up_range osd : osd_up map osd = true → 0 <= osd < om_max_osd map.
Proof. unfold osd_up. intros [H _]%andb_true_iff. by apply osd_exists_range. Qed.

Lemma osd_up_not_none osd : osd_up map osd = true → osd ≠ CRUSH_ITEM_NONE.
Proof. intros H%osd_up_range. lia. Qed.
End sets.

(** ** Shifting *)

Lemma filter_take_S (p : Z → bool) (l : list Z) i x :
  l !! i = Some x →
  filter (λ x, p x = true) (take (S i) l)
    = filter (λ x, p x = true) (take i l) ++ (if p x then [x] else []).
Proof.
  intros Hx. rewrite (take_S_r _ _ _ Hx), filter_app. f_equal.
  destruct (p x) eqn:E; [by rewrite filter_cons_True|]. rewrite filter_cons_False; [done|congruence].
Qed.

Lemma shift_loop_wp (gone : Z → outcome bool) (p : Z → bool) (l : list Z) n :
  (∀ x, gone x = Ret (negb (p x))) → (n <= length l)%nat →
  wp (for_range n 0 (shift_step gone) (0, l)) (λ '(removed, l'),
    length l' = length l
    ∧ Z.of_nat (length (filter (λ x, p x = true) (take n l))) = Z.of_nat n - removed
    ∧ 0 <= removed
    ∧ take (Z.to_nat (Z.of_nat n - removed)) l' = filter (λ x, p x = true) (take n l)).
Proof.
  intros Hgone Hn.
  pose proof (wp_for_range (λ i '(removed, l'), length l' = length l
    ∧ Z.of_nat (length (filter (λ x, p x = true) (take (Z.to_nat i) l))) = i - removed
    ∧ 0 <= removed
    ∧ take (Z.to_nat (i - removed)) l' = filter (λ x, p x = true) (take (Z.to_nat i) l)
    ∧ drop (Z.to_nat i) l' = drop (Z.to_nat i) l) (shift_step gone) n 0 (0, l)) as H.
  eapply wp_mono; [apply H; clear H|].
  - intros i [removed l'] Hi (Hlen & Hcount & Hr & Htake & Hdrop).
    destruct (lookup_Z_Some l i ltac:(lia)) as [x Hx].
    assert (Hx' : l' !! Z.to_nat i = Some x).
    { rewrite <- (Nat.add_0_r (Z.to_nat i)), <- lookup_drop, Hdrop, lookup_drop.
      by rewrite Nat.add_0_r. }
    assert (Hd : drop (Z.to_nat (i + 1)) l' = drop (Z.to_nat (i + 1)) l).
    { replace (Z.to_nat (i + 1)) with (Z.to_nat i + 1)%nat by lia.
      by rewrite <- !drop_drop, Hdrop. }
    assert (Hi1 : Z.to_nat (i + 1) = S (Z.to_nat i)) by lia.
    assert (Hle : 0 <= i - removed) by lia.
    unfold shift_step. rewrite (aget_Some _ _ x) by (done || lia).
    cbn [mbind outcome_bind]. rewrite Hgone. cbn [mbind outcome_bind]. destruct (p x) eqn:Hp; cbn [negb]; [|cbn [wp]].
    + unfold nonzero. destruct (Z.eqb_spec removed 0) as [->|Hne]; cbn [negb].
      * cbn [wp]. rewrite Hi1, (filter_take_S p l _ x Hx), Hp, length_app. cbn [length].
        rewrite <- Hi1. split_and!; [done|lia|lia| |done]. rewrite <- Htake.
        replace (Z.to_nat (i + 1 - 0)) with (S (Z.to_nat (i - 0))) by lia.
        apply take_S_r. by rewrite Z.sub_0_r.
      * apply wp_bind, wp_aset; [lia|]. cbn [wp].
        rewrite Hi1, (filter_take_S p l _ x Hx), Hp, !length_app, <- Hi1, length_insert. cbn [length].
        replace (Z.to_nat (i + 1 - removed)) with (S (Z.to_nat (i - removed))) by lia.
        rewrite drop_insert_lt by lia. split_and!; try done; try lia.
        rewrite (take_S_r _ _ x) by (apply list_lookup_insert_eq; lia).
        by rewrite take_insert_ge, Htake by lia.
    + rewrite Hi1, (filter_take_S p l _ x Hx), Hp, app_nil_r, <- Hi1.
      replace (i + 1 - (removed + 1)) with (i - removed) by lia. split_and!; try done; lia.
  - split_and!; done.
  - intros [removed l'] (Hlen & Hcount & Hr & Htake & _).
    rewrite Z.add_0_l, Nat2Z.id in *. done.
Qed.

(** ** Dropping OSDs *)

Definition pool_type_ok (pi : ceph_pg_pool_info) : Prop :=
  pi_type pi = CEPH_POOL_TYPE_REP ∨ pi_type pi = CEPH_POOL_TYPE_EC.
Definition can_shift (pi : ceph_pg_pool_info) : bool := pi_type pi =? CEPH_POOL_TYPE_REP.

Lemma ceph_can_shift_eq pi : pool_type_ok pi → ceph_can_shift_osds pi = Ret (can_shift pi).
Proof. intros [H | H]; unfold ceph_can_shift_osds, can_shift; by rewrite H. Qed.

Lemma length_keep shift p l : (length (keep shift p l) <= length l)%nat.
Proof. unfold keep. destruct shift; [apply length_filter|by rewrite length_fmap]. Qed.

Lemma visible_lookup s i : 0 <= i < os_size s → visible s !! Z.to_nat i = osds s !! Z.to_nat i.
Proof. intros Hi. unfold visible. apply lookup_take_lt. lia. Qed.

(** A set in bounds with the given entries. *)
Definition osds_are (s : ceph_osds) (l : list Z) (primary : Z) : Prop :=
  osds_ok s ∧ visible s = l ∧ os_primary s = primary.

(** An entry replaced changes the entries seen. *)
Lemma osds_are_insert s l i v :
  osds_ok s → visible s = l → 0 <= i < os_size s →
  wp (aset (osds s) i v) (λ l', osds_ok (set_osds s l') ∧
    visible (set_osds s l') = <[Z.to_nat i := v]> l).
Proof.
  intros [Hlen Hsize] <- Hi. apply wp_aset; [lia|]. split.
  - split; simpl; [by rewrite length_insert|done].
  - unfold visible. simpl. by rewrite take_insert_lt by lia.
Qed.

(** The first [i] entries tested, the others not yet. *)
Definition kept_upto (p : Z → bool) (l : list Z) (i : Z) : list Z :=
  keep false p (take (Z.to_nat i) l) ++ drop (Z.to_nat i) l.

Lemma kept_upto_S p l i x :
  0 <= i → l !! Z.to_nat i = Some x →
  kept_upto p l (i + 1) = if p x then kept_upto p l i
                          else <[Z.to_nat i := CRUSH_ITEM_NONE]> (kept_upto p l i).
Proof.
  intros Hi Hx. unfold kept_upto, keep. replace (Z.to_nat (i + 1)) with (S (Z.to_nat i)) by lia.
  rewrite (take_S_r _ _ _ Hx), fmap_app, <- (assoc_L (++)). cbn [fmap list_fmap app].
  rewrite (drop_S l x (Z.to_nat i) Hx).
  destruct (p x); [done|]. pose proof (lookup_lt_Some _ _ _ Hx).
  rewrite insert_app_r_alt by (rewrite length_fmap, length_take; lia).
  rewrite length_fmap, length_take. by replace (Z.to_nat i - Z.to_nat i `min` length l)%nat with 0%nat by lia.
Qed.

Lemma kept_upto_lookup p l i x :
  0 <= i → l !! Z.to_nat i = Some x → kept_upto p l i !! Z.to_nat i = Some x.
Proof.
  intros Hi Hx. unfold kept_upto, keep. pose proof (lookup_lt_Some _ _ _ Hx).
  rewrite lookup_app_r by (rewrite length_fmap, length_take; lia).
  rewrite length_fmap, length_take, lookup_drop. rewrite <- Hx. f_equal. lia.
Qed.

Section drop_osds.
Context (map : ceph_osdmap) (Hmap : wf_arrays map).
Context (pi : ceph_pg_pool_info) (Htype : pool_type_ok pi).

Lemma osds_are_shifted s l' removed (p : Z → bool) :
  osds_ok s → length l' = length (osds s) →
  Z.of_nat (length (filter (λ x, p x = true) (visible s))) = os_size s - removed → 0 <= removed →
  take (Z.to_nat (os_size s - removed)) l' = filter (λ x, p x = true) (visible s) →
  ∀ primary, osds_are (CephOsds l' (os_size s - removed) primary) (keep true p (visible s)) primary.
Proof.
  intros [Hlen Hsize] Hl Hcount Hr Htake primary. split; [|done].
  split; simpl; [by rewrite Hl|]. lia.
Qed.

Lemma remove_nonexistent_osds_wp s :
  osds_ok s →
  wp (remove_nonexistent_osds map pi s)
    (λ s', osds_are s' (keep (can_shift pi) (osd_exists map) (visible s)) (os_primary s)).
Proof.
  intros Hok. pose proof Hok as [Hlen Hsize]. unfold remove_nonexistent_osds.
  rewrite ceph_can_shift_eq by done. cbn [mbind outcome_bind].
  destruct (can_shift pi).
  - apply wp_bind. eapply wp_mono; [apply (shift_loop_wp _ (osd_exists map))|].
    + intros x. by rewrite ceph_osd_exists_eq.
    + lia.
    + intros [removed l'] (Hl & Hcount & Hr & Htake). rewrite Z2Nat.id in * by lia.
      cbn [wp]. by apply osds_are_shifted.
  - apply wp_bind. eapply wp_mono.
    + apply (wp_for_range_0 (λ i l, osds_are (set_osds s l) (kept_upto (osd_exists map) (visible s) i)
        (os_primary s))); [lia| |].
      * intros i l Hi (Hok' & Hvis & _).
        destruct (lookup_Z_Some (visible s) i) as [x Hx]; [rewrite length_visible by done; lia|].
        pose proof (kept_upto_lookup (osd_exists map) _ i x ltac:(lia) Hx) as Hx'.
        rewrite <- Hvis, visible_lookup in Hx' by (simpl; lia). simpl in Hx'.
        rewrite (aget_Some _ _ x) by (done || lia). cbn [mbind outcome_bind].
        rewrite ceph_osd_exists_eq by done. cbn [mbind outcome_bind].
        rewrite (kept_upto_S _ _ i x) by (done || lia).
        destruct (osd_exists map x); cbn [negb]; [by cbn [wp]|].
        eapply wp_mono; [by eapply (osds_are_insert (set_osds s l) _ i CRUSH_ITEM_NONE)|].
        intros l' [??]. by split_and!.
      * split; [by destruct s|]. split; [|done]. by destruct s.
    + intros l Hl. cbn [wp]. unfold kept_upto in Hl.
      rewrite take_ge, drop_ge, app_nil_r in Hl by (pose proof (length_visible s Hok); lia). done.
Qed.
End drop_osds.

(** The same from the end of the set down to entry [i]. *)
Definition kept_from (p : Z → bool) (l : list Z) (i : Z) : list Z :=
  take (Z.to_nat i) l ++ keep false p (drop (Z.to_nat i) l).

Lemma kept_from_step p l i x :
  0 <= i → l !! Z.to_nat i = Some x →
  kept_from p l (i + 1) !! Z.to_nat i = Some x ∧
  kept_from p l i = if p x then kept_from p l (i + 1)
                    else <[Z.to_nat i := CRUSH_ITEM_NONE]> (kept_from p l (i + 1)).
Proof.
  intros Hi Hx. unfold kept_from, keep. replace (Z.to_nat (i + 1)) with (S (Z.to_nat i)) by lia.
  pose proof (lookup_lt_Some _ _ _ Hx).
  assert (length (take (Z.to_nat i) l) = Z.to_nat i) as Hlen by (rewrite length_take; lia).
  rewrite (take_S_r _ _ _ Hx), (drop_S l x (Z.to_nat i) Hx), <- (assoc_L (++)).
  cbn [fmap list_fmap app]. split.
  - rewrite lookup_app_r, Hlen, Nat.sub_diag by lia. done.
  - destruct (p x); [done|]. rewrite insert_app_r_alt, Hlen, Nat.sub_diag by lia. done.
Qed.

(** The first entry of the tail that passes. *)
Lemma head_filter_drop (p : Z → bool) (l : list Z) i x :
  l !! i = Some x →
  head (filter (λ x, p x = true) (drop i l)) =
    if p x then Some x else head (filter (λ x, p x = true) (drop (S i) l)).
Proof.
  intros Hx. rewrite (drop_S l x i Hx). destruct (p x) eqn:E.
  - by rewrite filter_cons_True.
  - rewrite filter_cons_False by congruence. done.
Qed.

Section up_set.
Context (map : ceph_osdmap) (Hmap : wf_arrays map).
Context (pi : ceph_pg_pool_info) (Htype : pool_type_ok pi).

(** The first OSD of the set that is up, -1 without one. *)
Definition first_up (l : list Z) : Z := default (-1) (head (filter (λ x, osd_up map x = true) l)).

Lemma raw_to_up_osds_wp s :
  osds_ok s → os_primary s = -1 →
  wp (raw_to_up_osds map pi s)
    (λ s', osds_are s' (keep (can_shift pi) (osd_up map) (visible s)) (first_up (visible s))).
Proof.
  intros Hok Hprim. pose proof Hok as [Hlen Hsize]. unfold raw_to_up_osds, require.
  rewrite Hprim. cbn [Z.eqb Pos.eqb mbind outcome_bind].
  rewrite ceph_can_shift_eq by done. cbn [mbind outcome_bind]. destruct (can_shift pi).
  - apply wp_bind. eapply wp_mono; [apply (shift_loop_wp _ (osd_up map))|].
    + intros x. by rewrite ceph_osd_is_down_eq.
    + lia.
    + intros [removed l'] (Hl & Hcount & Hr & Htake). rewrite Z2Nat.id in * by lia.
      pose proof (osds_are_shifted s l' removed (osd_up map) Hok Hl Hcount Hr Htake) as Hare.
      fold (visible s) in Htake. unfold first_up. rewrite <- Htake.
      destruct (Z.gtb_spec (os_size s - removed) 0) as [Hgt|Hle].
      * destruct l' as [|p l']; [simpl in Hl; unfold CEPH_PG_MAX_SIZE in Hlen; lia|].
        change (aget (p :: l') 0) with (Ret p). cbn [mbind outcome_bind wp].
        replace (default _ _) with p; [apply Hare|].
        by destruct (Z.to_nat (os_size s - removed)) eqn:?; [lia|].
      * cbn [wp]. replace (default _ _) with (-1); [apply Hare|].
        by replace (Z.to_nat (os_size s - removed)) with 0%nat by lia.
  - eapply wp_mono.
    + apply (wp_for_range_0 (λ k s', osds_are s' (kept_from (osd_up map) (visible s) (os_size s - k))
        (first_up (drop (Z.to_nat (os_size s - k)) (visible s))) ∧ os_size s' = os_size s)); [lia| |].
      * intros k s' Hk ((Hok' & Hvis & Hp) & Hsz).
        destruct (lookup_Z_Some (visible s) (os_size s - 1 - k)) as [x Hx];
          [rewrite length_visible by done; lia|].
        destruct (kept_from_step (osd_up map) _ (os_size s - 1 - k) x ltac:(lia) Hx) as [Hx' Hstep].
        replace (os_size s - (k + 1)) with (os_size s - 1 - k) by lia.
        replace (os_size s - 1 - k + 1) with (os_size s - k) in * by lia.
        rewrite <- Hvis, visible_lookup in Hx' by lia.
        rewrite Hsz, (aget_Some _ _ x) by (done || lia). cbn [mbind outcome_bind].
        rewrite ceph_osd_is_down_eq by done. cbn [mbind outcome_bind].
        unfold first_up at 1. rewrite (head_filter_drop _ _ _ x Hx), Hstep.
        destruct (osd_up map x); cbn [negb].
        -- cbn [wp]. split; [|done]. split; [done|]. done.
        -- apply wp_bind.
           eapply wp_mono; [by eapply (osds_are_insert s' _ (os_size s - 1 - k)); try done; lia|].
           intros l' [??]. cbn [wp]. split; [|done]. split; [done|]. split; [done|].
           replace (S (Z.to_nat (os_size s - 1 - k))) with (Z.to_nat (os_size s - k)) by lia. done.
      * split; [|done]. split; [done|]. unfold kept_from.
        rewrite Z.sub_0_r, take_ge, drop_ge by (pose proof (length_visible s Hok); lia).
        by rewrite app_nil_r.
    + intros s' [Hare _]. by rewrite Z.sub_diag in Hare.
Qed.
End up_set.

(** ** Exceptions, purely *)

Definition is_int (x : Z) : Prop := - 2 ^ 31 <= x < 2 ^ 31.

(** A target that is marked out cancels its mapping. *)
Definition marked_out (map : ceph_osdmap) (osd : Z) : bool :=
  (0 <=? osd) && match om_osd_weight map !! Z.to_nat osd with Some w => w =? 0 | None => false end.

(** One pair: the first occurrence of [from] becomes [to], unless [to] is there or out. *)
Definition upmap_pair (map : ceph_osdmap) (from to : Z) (l : list Z) : list Z :=
  if bool_decide (to ∈ l) || marked_out map to then l
  else match list_find (λ x, x = from) l with Some (i, _) => <[i := to]> l | None => l end.

Definition upmap_pairs (map : ceph_osdmap) (items : list (Z * Z)) (l : list Z) : list Z :=
  foldl (λ l '(from, to), upmap_pair map from to l) l items.

Definition upmap_ref (map : ceph_osdmap) (pgid : ceph_pg) (l : list Z) : list Z :=
  let items := default [] (om_pg_upmap_items map !! pgid) in
  match om_pg_upmap map !! pgid with
  | Some targets => if existsb (marked_out map) targets then l else upmap_pairs map items targets
  | None => upmap_pairs map items l
  end.

(** What the decoder of the map has to have checked: the entries are C integers and a mapping
    fits an OSD set. *)
Definition upmaps_ok (map : ceph_osdmap) (pgid : ceph_pg) : Prop :=
  (∀ targets, om_pg_upmap map !! pgid = Some targets →
     Z.of_nat (length targets) <= CEPH_PG_MAX_SIZE ∧ Forall is_int targets)
  ∧ (∀ items, om_pg_upmap_items map !! pgid = Some items →
     Forall (λ '(from, to), is_int to) items).

Section upmap.
Context (map : ceph_osdmap) (Hmap : wf_arrays map) (Hnone : om_max_osd map <= CRUSH_ITEM_NONE).

Lemma target_out_eq osd : is_int osd → target_out map osd = Ret (marked_out map osd).
Proof.
  intros Hint. destruct Hmap as [Hm _ Hw _ _]. unfold target_out, marked_out, CRUSH_ITEM_NONE in *.
  destruct (Z.leb_spec 0 osd) as [Hpos|Hneg]; cbn [andb].
  - rewrite u32_small by (unfold is_int in Hint; lia).
    destruct (Z.eqb_spec osd 0x7fffffff) as [->|Hne]; cbn [negb andb].
    { by rewrite lookup_ge_None_2 by lia. }
    destruct (Z.ltb_spec osd (om_max_osd map)).
    + destruct (lookup_Z_Some (om_osd_weight map) osd ltac:(lia)) as [w Hw'].
      by rewrite (aget_Some _ _ w), Hw' by (done || lia).
    + by rewrite lookup_ge_None_2 by lia.
  - assert (u32 osd = osd + 2 ^ 32) as ->.
    { unfold u32, is_int in *. symmetry. apply (Z.mod_unique_pos _ _ (-1)); lia. }
    rewrite (proj2 (Z.ltb_ge _ _)) by (unfold is_int in Hint; lia). by rewrite andb_false_r.
Qed.

Lemma upmap_reject_wp targets :
  Forall is_int targets →
  wp (loop (length targets + 1) (upmap_reject_step map targets) 0)
    (λ r, r = existsb (marked_out map) targets).
Proof.
  intros Hint. apply (wp_loop (λ i, 0 <= i <= Z.of_nat (length targets)
      ∧ existsb (marked_out map) (take (Z.to_nat i) targets) = false)
    (λ i, length targets - Z.to_nat i)%nat); [|by split; [lia|]|lia].
  intros i [Hi Hno]. unfold upmap_reject_step. destruct (Z.ltb_spec i (Z.of_nat (length targets))).
  - destruct (lookup_Z_Some targets i ltac:(lia)) as [x Hx].
    rewrite (aget_Some _ _ x) by (done || lia). cbn [mbind outcome_bind].
    rewrite Forall_lookup in Hint. rewrite target_out_eq by by eapply Hint. cbn [mbind outcome_bind].
    destruct (marked_out map x) eqn:Hout; cbn [wp].
    + symmetry. apply existsb_exists. exists x. split; [|done].
      by apply list_elem_of_In, (list_elem_of_lookup_2 _ (Z.to_nat i)).
    + split; [|lia]. split; [lia|]. replace (Z.to_nat (i + 1)) with (S (Z.to_nat i)) by lia.
      rewrite (take_S_r _ _ _ Hx), existsb_app, Hno. simpl. by rewrite Hout.
  - cbn [wp]. by rewrite take_ge in Hno by lia.
Qed.

(** The scan of one pair. *)
Definition scanned (from to : Z) (l : list Z) (pos : Z) : Prop :=
  (to ∉ l) ∧
  ((pos = -1 ∧ (marked_out map to = true ∨ from ∉ l))
   ∨ (0 <= pos ∧ marked_out map to = false
      ∧ ∃ x, list_find (λ x, x = from) l = Some (Z.to_nat pos, x))).

Lemma list_find_take_S (from : Z) (l : list Z) i x :
  l !! i = Some x →
  list_find (λ x, x = from) (take (S i) l) =
    match list_find (λ x, x = from) (take i l) with
    | Some r => Some r
    | None => if decide (x = from) then Some (i, x) else None
    end.
Proof.
  intros Hx. rewrite (take_S_r _ _ _ Hx). pose proof (lookup_lt_Some _ _ _ Hx).
  destruct (list_find _ (take i l)) as [[k y]|] eqn:Hf; [by apply list_find_app_l|].
  rewrite list_find_app_r by done. simpl. rewrite length_take, Nat.min_l by lia.
  by case_decide.
Qed.

Lemma list_find_None_notin (from : Z) (l : list Z) : list_find (λ x, x = from) l = None ↔ from ∉ l.
Proof. rewrite list_find_None, Forall_forall. naive_solver. Qed.

Lemma scanned_S from to l i x pos :
  l !! i = Some x → x ≠ to → scanned from to (take i l) pos →
  scanned from to (take (S i) l)
    (if (x =? from) && (pos <? 0) && negb (marked_out map to) then Z.of_nat i else pos).
Proof.
  intros Hx Hne [Hto Hpos]. split.
  - rewrite (take_S_r _ _ _ Hx). set_solver.
  - destruct Hpos as [[-> Hcase]|(Hpos & Hout & y & Hy)].
    + destruct (Z.eqb_spec x from) as [->|Hnf]; cbn [andb Z.ltb Z.compare].
      * destruct (marked_out map to) eqn:Hout; cbn [negb]; [by left; auto|].
        destruct Hcase as [?|Hnot]; [done|]. right. split; [lia|]. split; [done|].
        rewrite (list_find_take_S from l i from Hx), (proj2 (list_find_None_notin _ _) Hnot), Nat2Z.id.
        rewrite decide_True by done. by eexists.
      * left. split; [done|]. destruct Hcase as [?|Hnot]; [by left|right].
        rewrite (take_S_r _ _ _ Hx). set_solver.
    + rewrite (proj2 (Z.ltb_ge pos 0)), andb_false_r by lia. cbn [andb].
      right. split; [done|]. split; [done|]. exists y. by rewrite (list_find_take_S from l i x Hx), Hy.
Qed.

Lemma upmap_item_wp from to s :
  is_int to → osds_ok s →
  wp (upmap_item map from to s)
    (λ s', osds_are s' (upmap_pair map from to (visible s)) (os_primary s)).
Proof.
  intros Hint Hok. pose proof (length_visible s Hok) as Hlen. pose proof Hok as [Hlen' Hsize].
  unfold upmap_item. apply wp_bind.
  eapply wp_mono; [apply (wp_loop (λ '(j, pos), 0 <= j <= os_size s
      ∧ scanned from to (take (Z.to_nat j) (visible s)) pos) (λ '(j, _), Z.to_nat (os_size s - j))
      (λ '(pos, ex), if (ex : bool) then to ∈ visible s else scanned from to (visible s) pos))|].
  - intros [j pos] [Hj Hscan]. unfold upmap_item_step.
    destruct (Z.ltb_spec j (os_size s)).
    + destruct (lookup_Z_Some (visible s) j ltac:(lia)) as [x Hx].
      pose proof Hx as Hx'. rewrite visible_lookup in Hx' by lia.
      rewrite (aget_Some _ _ x) by (done || lia). cbn [mbind outcome_bind].
      destruct (Z.eqb_spec x to) as [->|Hne]; [by apply list_elem_of_lookup_2 in Hx|].
      pose proof (scanned_S from to _ _ x pos Hx Hne Hscan) as Hnext. rewrite Z2Nat.id in Hnext by lia.
      replace (S (Z.to_nat j)) with (Z.to_nat (j + 1)) in Hnext by lia.
      destruct ((x =? from) && (pos <? 0)); cbn [andb] in Hnext.
      * rewrite target_out_eq by done. cbn [mbind outcome_bind wp].
        split; [|lia]. by split; [lia|].
      * cbn [mbind outcome_bind negb wp]. split; [|lia]. by split; [lia|].
    + cbn [wp]. by rewrite take_ge in Hscan by lia.
  - split; [lia|]. split; [set_solver|]. left. split; [done|]. right. set_solver.
  - lia.
  - intros [pos ex] Hres. unfold upmap_pair. destruct ex; cbn [negb andb].
    { cbn [wp]. by rewrite bool_decide_true by done. }
    destruct Hres as [Hto Hpos]. rewrite bool_decide_false by done. cbn [orb].
    destruct Hpos as [[-> Hcase]|(Hpos & Hout & y & Hy)].
    + cbn. split; [done|]. split; [|done].
      destruct (marked_out map to); [done|]. destruct Hcase as [?|Hnot]; [done|].
      by rewrite (proj2 (list_find_None_notin _ _) Hnot).
    + rewrite Z.geb_leb, (proj2 (Z.leb_le 0 pos)), Hout, Hy by lia.
      apply list_find_Some in Hy as (Hy & _). apply lookup_lt_Some in Hy.
      apply wp_bind. eapply wp_mono; [by apply (osds_are_insert s (visible s) pos to); try lia|].
      intros l' [??]. by split_and!.
Qed.

Lemma apply_upmap_items_wp pgid s :
  osds_ok s → upmaps_ok map pgid →
  wp (apply_upmap_items map pgid s) (λ s', osds_are s'
    (upmap_pairs map (default [] (om_pg_upmap_items map !! pgid)) (visible s)) (os_primary s)).
Proof.
  intros Hok [_ Hitems]. unfold apply_upmap_items.
  destruct (om_pg_upmap_items map !! pgid) as [items|]; [|done].
  specialize (Hitems items eq_refl). simpl.
  pose proof (wp_for_range (λ i s', osds_are s' (upmap_pairs map (take (Z.to_nat i) items) (visible s))
    (os_primary s)) (λ i raw, '(from, to) ← aget items i; upmap_item map from to raw)
    (length items) 0 s) as H.
  eapply wp_mono; [apply H; clear H; [|done]|].
  - intros i s' Hi (Hok' & Hvis & Hp).
    destruct (lookup_Z_Some items i ltac:(lia)) as [[from to] Hft].
    rewrite (aget_Some _ _ (from, to)) by (done || lia). cbn [mbind outcome_bind].
    rewrite Forall_lookup in Hitems. specialize (Hitems _ _ Hft). simpl in Hitems.
    eapply wp_mono; [by apply upmap_item_wp|]. intros s'' (? & Hv & Hp').
    split; [done|]. split; [|congruence]. replace (Z.to_nat (i + 1)) with (S (Z.to_nat i)) by lia.
    rewrite (take_S_r _ _ _ Hft). unfold upmap_pairs in *. rewrite foldl_app, <- Hvis. done.
  - intros s' Hs'. rewrite take_ge in Hs' by lia. done.
Qed.

(** Overwriting the first entries, one by one. *)
Lemma overwrite_wp (targets l : list Z) :
  (length targets <= length l)%nat →
  wp (for_range (length targets) 0 (λ i l, osd ← aget targets i; aset l i osd) l)
    (λ l', l' = targets ++ drop (length targets) l).
Proof.
  intros Hle.
  pose proof (wp_for_range (λ i l', l' = take (Z.to_nat i) targets ++ drop (Z.to_nat i) l)
    (λ i l, osd ← aget targets i; aset l i osd) (length targets) 0 l) as H.
  eapply wp_mono; [apply H; clear H; [|done]|].
  - intros i l' Hi ->. destruct (lookup_Z_Some targets i ltac:(lia)) as [x Hx].
    rewrite (aget_Some _ _ x) by (done || lia). cbn [mbind outcome_bind].
    assert (length (take (Z.to_nat i) targets) = Z.to_nat i) as Hlen by (rewrite length_take; lia).
    apply wp_aset; [rewrite length_app, Hlen, length_drop; lia|].
    destruct (lookup_Z_Some l i ltac:(lia)) as [y Hy].
    rewrite insert_app_r_alt, Hlen, Nat.sub_diag, (drop_S l y _ Hy) by lia.
    replace (Z.to_nat (i + 1)) with (S (Z.to_nat i)) by lia.
    rewrite (take_S_r _ _ _ Hx), <- (assoc_L (++)). done.
  - intros l' ->. rewrite Z.add_0_l, Nat2Z.id, firstn_all. done.
Qed.

Lemma apply_upmap_wp pgid s :
  osds_ok s → upmaps_ok map pgid →
  wp (apply_upmap map pgid s)
    (λ s', osds_are s' (upmap_ref map pgid (visible s)) (os_primary s)).
Proof.
  intros Hok Hups. pose proof Hok as [Hlen Hsize]. pose proof Hups as [Htargets _].
  unfold apply_upmap, upmap_ref. destruct (om_pg_upmap map !! pgid) as [targets|].
  - destruct (Htargets targets eq_refl) as [Hmax Hint].
    apply wp_bind. eapply wp_mono; [by apply upmap_reject_wp|]. intros r ->.
    destruct (existsb _ targets); [done|].
    apply wp_bind. eapply wp_mono; [apply overwrite_wp; lia|]. intros l ->.
    eapply wp_mono; [apply apply_upmap_items_wp; [|done]|].
    + split; simpl; [rewrite length_app, length_drop; lia|lia].
    + intros s'. unfold visible at 1. simpl. by rewrite Nat2Z.id, take_app_length.
  - by apply apply_upmap_items_wp.
Qed.
End upmap.

(** ** Distinct OSDs *)

(** No OSD is listed twice; holes may be. *)
Definition distinct (l : list Z) : Prop := NoDup (filter (λ x, x ≠ CRUSH_ITEM_NONE) l).

Lemma distinct_upmap_pair map from to l : distinct l → distinct (upmap_pair map from to l).
Proof.
  unfold upmap_pair, distinct. intros Hl. case_bool_decide as Hto; [done|]. cbn [orb].
  destruct (marked_out map to); [done|].
  destruct (list_find _ l) as [[i y]|] eqn:Hf; [|done].
  apply list_find_Some in Hf as (Hi & _).
  rewrite insert_take_drop by (by eapply lookup_lt_Some).
  rewrite <- (take_drop_middle _ _ _ Hi) in Hl, Hto.
  rewrite filter_app, filter_cons in *.
  assert (NoDup (filter (λ x, x ≠ CRUSH_ITEM_NONE) (take i l)
    ++ filter (λ x, x ≠ CRUSH_ITEM_NONE) (drop (S i) l))) as Hl'.
  { case_decide; [|done]. rewrite <- Permutation_middle in Hl. by apply NoDup_cons in Hl as [_ ?]. }
  clear Hl. case_decide; [|done]. rewrite <- Permutation_middle. apply NoDup_cons. split; [|done].
  rewrite elem_of_app, !list_elem_of_filter. set_solver.
Qed.

Lemma distinct_upmap_ref map pgid l :
  (∀ targets, om_pg_upmap map !! pgid = Some targets → distinct targets) →
  distinct l → distinct (upmap_ref map pgid l).
Proof.
  intros Htargets Hl.
  assert (Hpairs : ∀ items l, distinct l → distinct (upmap_pairs map items l)).
  { intros items. induction items as [|[from to] items IH]; intros l0 Hl0; [done|].
    simpl. by apply IH, distinct_upmap_pair. }
  unfold upmap_ref. destruct (om_pg_upmap map !! pgid) as [targets|]; [|by apply Hpairs].
  destruct (existsb _ _); [done|]. by apply Hpairs, Htargets.
Qed.

Lemma distinct_keep shift (p : Z → bool) l : distinct l → distinct (keep shift p l).
Proof.
  unfold distinct, keep. intros Hl. destruct shift.
  - rewrite list_filter_filter. rewrite (list_filter_iff _ (λ x, p x = true ∧ x ≠ CRUSH_ITEM_NONE)) by naive_solver.
    rewrite <- list_filter_filter. by apply NoDup_filter.
  - induction l as [|x l IH]; [done|]. rewrite fmap_cons, !filter_cons in *.
    destruct (p x); [|rewrite decide_False by naive_solver; apply IH; case_decide; [by apply NoDup_cons in Hl as [_ ?]|done]].
    case_decide; [|by apply IH]. apply NoDup_cons in Hl as [Hx Hl]. apply NoDup_cons. split; [|by apply IH].
    rewrite list_elem_of_filter. intros [Hne (y & Heq & Hy)%list_elem_of_fmap].
    apply Hx. apply list_elem_of_filter. split; [done|]. destruct (p y); congruence.
Qed.

(** ** Primary affinity, purely *)

Definition affinity_at (aff : list Z) (osd : Z) : Z := default 0 (aff !! Z.to_nat osd).

(** The OSD takes the role: its affinity is full, or the hash is below it. *)
Definition accepts (aff : list Z) (pps osd : Z) : Prop :=
  osd ≠ CRUSH_ITEM_NONE ∧ affinity_rejects pps osd (affinity_at aff osd) = false.
#[export] Instance accepts_dec aff pps osd : Decision (accepts aff pps osd).
Proof. unfold accepts. apply _. Defined.

(** The first OSD that accepts, or else the first there is. *)
Definition affinity_choice (aff : list Z) (pps : Z) (l : list Z) : option (nat * Z) :=
  match list_find (accepts aff pps) l with
  | Some r => Some r
  | None => list_find (λ x, x ≠ CRUSH_ITEM_NONE) l
  end.

Definition default_affinity (aff : list Z) (osd : Z) : bool :=
  (osd =? CRUSH_ITEM_NONE) || (affinity_at aff osd =? CEPH_OSD_DEFAULT_PRIMARY_AFFINITY).

(** The set and its primary: the chosen one moves to the front of a replicated set. *)
Definition affinity_ref (affs : option (list Z)) (shift : bool) (pps : Z) (l : list Z) (primary : Z)
    : list Z * Z :=
  match affs with
  | None => (l, primary)
  | Some aff =>
      if forallb (default_affinity aff) l then (l, primary)
      else match affinity_choice aff pps l with
           | None => (l, primary)
           | Some (i, x) => (if shift then x :: delete i l else l, x)
           end
  end.

Lemma list_find_take_S_gen (P : Z → Prop) `{!∀ x, Decision (P x)} (l : list Z) i x :
  l !! i = Some x →
  list_find P (take (S i) l) =
    match list_find P (take i l) with
    | Some r => Some r
    | None => if decide (P x) then Some (i, x) else None
    end.
Proof.
  intros Hx. rewrite (take_S_r _ _ _ Hx). pose proof (lookup_lt_Some _ _ _ Hx).
  destruct (list_find _ (take i l)) as [[k y]|] eqn:Hf; [by apply list_find_app_l|].
  rewrite list_find_app_r by done. simpl. rewrite length_take, Nat.min_l by lia.
  by case_decide.
Qed.

Lemma list_find_take_Some (P : Z → Prop) `{!∀ x, Decision (P x)} (l : list Z) n r :
  list_find P (take n l) = Some r → list_find P l = Some r.
Proof.
  intros HS. rewrite <- (take_drop n l). destruct r. by apply list_find_app_l.
Qed.

Section affinity.
Context (aff : list Z) (pps : Z) (up : ceph_osds) (Hok : osds_ok up).
Hypothesis Hin : Forall (λ x, x = CRUSH_ITEM_NONE ∨ 0 <= x < Z.of_nat (length aff)) (visible up).
#[local] Abbreviation l := (visible up).

Lemma visible_entry i :
  0 <= i < os_size up → ∃ x, l !! Z.to_nat i = Some x ∧ aget (osds up) i = Ret x
    ∧ (x ≠ CRUSH_ITEM_NONE → aget aff x = Ret (affinity_at aff x)).
Proof.
  intros Hi. destruct (lookup_Z_Some l i) as [x Hx]; [rewrite length_visible by done; lia|].
  exists x. split; [done|]. pose proof Hx as Hx'. rewrite visible_lookup in Hx' by done.
  split; [by rewrite (aget_Some _ _ x) by (done || lia)|]. intros Hne.
  rewrite Forall_lookup in Hin. destruct (Hin _ _ Hx) as [?|Hr]; [done|].
  destruct (lookup_Z_Some aff x Hr) as [a Ha]. unfold affinity_at. rewrite Ha.
  by rewrite (aget_Some _ _ a) by (done || lia).
Qed.

Lemma affinity_scan_wp :
  wp (loop (Z.to_nat (os_size up) + 1) (affinity_scan_step aff up) 0)
    (λ i, (i =? os_size up) = forallb (default_affinity aff) l).
Proof.
  pose proof (length_visible up Hok) as Hlen. destruct Hok as [_ Hsize].
  apply (wp_loop (λ i, 0 <= i <= os_size up
      ∧ forallb (default_affinity aff) (take (Z.to_nat i) l) = true)
    (λ i, Z.to_nat (os_size up - i))); [|by split; [lia|]|lia].
  intros i [Hi Hall]. unfold affinity_scan_step. destruct (Z.ltb_spec i (os_size up)).
  - destruct (visible_entry i ltac:(lia)) as (x & Hx & Hget & Haff).
    rewrite Hget. cbn [mbind outcome_bind].
    assert (Hnext : default_affinity aff x = true →
      0 <= i + 1 <= os_size up ∧ forallb (default_affinity aff) (take (Z.to_nat (i + 1)) l) = true).
    { intros Hd. split; [lia|]. replace (Z.to_nat (i + 1)) with (S (Z.to_nat i)) by lia.
      rewrite (take_S_r _ _ _ Hx), forallb_app, Hall. simpl. by rewrite Hd. }
    unfold default_affinity in Hnext. destruct (Z.eqb_spec x CRUSH_ITEM_NONE) as [->|Hne].
    { cbn [wp]. split; [by apply Hnext|lia]. }
    rewrite Haff by done. cbn [mbind outcome_bind orb] in *.
    destruct (affinity_at aff x =? _) eqn:Hd; cbn [negb wp]; [split; [by apply Hnext|lia]|].
    rewrite (proj2 (Z.eqb_neq _ _)) by lia. symmetry. apply not_true_is_false.
    rewrite forallb_forall. intros Hf.
    assert (default_affinity aff x = true) as Hbad
      by (apply Hf, list_elem_of_In; by eapply list_elem_of_lookup_2).
    unfold default_affinity in Hbad. rewrite (proj2 (Z.eqb_neq _ _)), Hd in Hbad by done. done.
  - cbn [wp]. rewrite take_ge in Hall by lia. rewrite Hall. apply Z.eqb_eq. lia.
Qed.

(** The position as the loop counts it. *)
Definition pos_of (o : option (nat * Z)) : Z := match o with Some (i, _) => Z.of_nat i | None => -1 end.

Lemma affinity_pick_wp :
  wp (loop (Z.to_nat (os_size up) + 1) (affinity_pick_step aff pps up) (0, -1))
    (λ pos, pos = pos_of (affinity_choice aff pps l)).
Proof.
  pose proof (length_visible up Hok) as Hlen. pose proof Hok as [_ Hsize].
  apply (wp_loop (λ '(i, pos), 0 <= i <= os_size up
      ∧ list_find (accepts aff pps) (take (Z.to_nat i) l) = None
      ∧ pos = pos_of (list_find (λ x, x ≠ CRUSH_ITEM_NONE) (take (Z.to_nat i) l)))
    (λ '(i, _), Z.to_nat (os_size up - i))); [|by split; [lia|]|lia].
  intros [i pos] (Hi & Hnone & Hpos). unfold affinity_pick_step.
  destruct (Z.ltb_spec i (os_size up)).
  - destruct (visible_entry i ltac:(lia)) as (x & Hx & Hget & Haff).
    rewrite Hget. cbn [mbind outcome_bind].
    pose proof (list_find_take_S_gen (accepts aff pps) l _ x Hx) as HA. rewrite Hnone in HA.
    pose proof (list_find_take_S_gen (λ x, x ≠ CRUSH_ITEM_NONE) l _ x Hx) as HN.
    replace (S (Z.to_nat i)) with (Z.to_nat (i + 1)) in HA, HN by lia.
    destruct (Z.eqb_spec x CRUSH_ITEM_NONE) as [->|Hne].
    { cbn [wp]. split; [|lia]. split; [lia|]. rewrite HA, HN.
      rewrite decide_False by (unfold accepts; naive_solver). split; [done|].
      rewrite decide_False by naive_solver. rewrite Hpos. by destruct (list_find (λ x, x ≠ CRUSH_ITEM_NONE) _) as [[]|]. }
    rewrite Haff by done. cbn [mbind outcome_bind].
    destruct (affinity_rejects pps x (affinity_at aff x)) eqn:Hrej; cbn [wp].
    + split; [|lia]. split; [lia|]. rewrite HA, HN.
      rewrite decide_False by (intros [_ Hacc]; congruence). split; [done|].
      rewrite decide_True by done. rewrite Hpos.
      destruct (list_find (λ x, x ≠ CRUSH_ITEM_NONE) _) as [[k y]|]; cbn [pos_of];
        [rewrite (proj2 (Z.ltb_ge (Z.of_nat k) 0)) by lia; done|simpl; lia].
    + rewrite decide_True in HA by done. unfold affinity_choice.
      rewrite (list_find_take_Some _ _ _ _ HA). simpl. lia.
  - cbn [wp]. rewrite take_ge in Hnone, Hpos by lia. unfold affinity_choice. by rewrite Hnone.
Qed.
End affinity.

(** The rotation puts entry [pos] first. *)
Lemma rotate_right_wp (l : list Z) pos x :
  l !! pos = Some x → (0 < pos)%nat →
  wp (l' ← rotate_right l (Z.of_nat pos); aset l' 0 x) (λ l', l' = x :: delete pos l).
Proof.
  intros Hx Hpos. pose proof (lookup_lt_Some _ _ _ Hx). unfold rotate_right. rewrite Nat2Z.id.
  pose proof (wp_for_range (λ k l', length l' = length l ∧ ∀ j, l' !! j =
      if decide (pos - Z.to_nat k < j <= pos)%nat then l !! (j - 1)%nat else l !! j)
    (λ k l, let i := Z.of_nat pos - k in v ← aget l (i - 1); aset l i v) pos 0 l) as H'.
  apply wp_bind. eapply wp_mono; [apply H'; clear H'|].
  - intros k l' Hk [Hlen Hl']. cbv zeta.
    destruct (lookup_Z_Some l (Z.of_nat pos - k - 1) ltac:(lia)) as [v Hv].
    assert (l' !! Z.to_nat (Z.of_nat pos - k - 1) = Some v) as Hv'.
    { rewrite Hl', decide_False by lia. done. }
    rewrite (aget_Some _ _ v) by (done || lia). cbn [mbind outcome_bind].
    apply wp_aset; [lia|]. split; [by rewrite length_insert|]. intros j.
    destruct (decide (j = Z.to_nat (Z.of_nat pos - k))) as [->|Hne].
    + rewrite list_lookup_insert_eq by lia. rewrite decide_True by lia. rewrite <- Hv. f_equal. lia.
    + rewrite list_lookup_insert_ne, Hl' by done. repeat case_decide; try done; lia.
  - split; [done|]. intros j. rewrite decide_False by lia. done.
  - intros l' [Hlen Hl']. apply wp_aset; [lia|]. apply list_eq. intros [|j].
    + rewrite list_lookup_insert_eq by (simpl; lia). done.
    + rewrite list_lookup_insert_ne, Hl' by done. simpl.
      destruct (decide (j < pos)%nat).
      * rewrite decide_True by lia. rewrite list_lookup_delete_lt by done. f_equal. lia.
      * rewrite decide_False by lia. rewrite list_lookup_delete_ge by lia. done.
Qed.

Lemma take_delete {A} (l : list A) i n : (i <= n)%nat → take n (delete i l) = delete i (take (S n) l).
Proof.
  intros Hi. rewrite !delete_take_drop, take_take, skipn_firstn_comm, Nat.min_l by lia.
  destruct (decide (i <= length l)%nat).
  - rewrite take_app_ge by (rewrite length_take; lia).
    rewrite length_take, Nat.min_l by lia. f_equal.
  - rewrite !drop_ge, !take_nil, !app_nil_r, !take_ge by (rewrite ?length_take; lia). done.
Qed.

Lemma apply_primary_affinity_wp map pi pps up :
  osds_ok up → pool_type_ok pi →
  (∀ aff, om_osd_primary_affinity map = Some aff →
    Forall (λ x, x = CRUSH_ITEM_NONE ∨ 0 <= x < Z.of_nat (length aff)) (visible up)) →
  wp (apply_primary_affinity map pi pps up) (λ up', osds_ok up' ∧ (visible up', os_primary up')
    = affinity_ref (om_osd_primary_affinity map) (can_shift pi) pps (visible up) (os_primary up)).
Proof.
  intros Hok Htype Haffs. unfold apply_primary_affinity, affinity_ref.
  destruct (om_osd_primary_affinity map) as [aff|]; [|done]. specialize (Haffs aff eq_refl).
  apply wp_bind. eapply wp_mono; [by apply affinity_scan_wp|]. intros i ->.
  destruct (forallb _ _); [done|].
  apply wp_bind. eapply wp_mono; [by apply affinity_pick_wp|]. intros pos ->.
  destruct (affinity_choice aff pps (visible up)) as [[i' x]|] eqn:Hc; [|done]. simpl.
  assert (visible up !! i' = Some x) as Hx.
  { unfold affinity_choice in Hc. case_match; simplify_eq;
      match goal with H : list_find _ _ = Some _ |- _ => by apply list_find_Some in H as (? & _) end. }
  rewrite (proj2 (Z.ltb_ge _ _)) by lia.
  pose proof (lookup_lt_Some _ _ _ Hx) as Hlt. pose proof (length_visible up Hok) as Hlen.
  pose proof Hx as Hx'. rewrite <- (Nat2Z.id i'), visible_lookup in Hx' by lia.
  rewrite (aget_Some _ _ x) by (done || lia). cbn [mbind outcome_bind].
  rewrite ceph_can_shift_eq by done. cbn [mbind outcome_bind].
  destruct (can_shift pi) eqn:Hs; cbn [andb]; [|by cbn [wp]].
  destruct (Z.gtb_spec (Z.of_nat i') 0) as [Hgt|Hle].
  - pose proof Hok as [Hl Hsz].
    rewrite Nat2Z.id in Hx'. pose proof (rotate_right_wp (osds up) i' x Hx' ltac:(lia)) as Hrot.
    apply wp_exists in Hrot as (l' & Hrot & ->). simpl. 
    destruct (rotate_right (osds up) (Z.of_nat i')) as [l0| |]; try done. cbn [mbind outcome_bind] in *.
    rewrite Hrot. cbn [mbind outcome_bind wp]. split.
    + split; simpl; [|done]. rewrite length_delete by done. lia.
    + f_equal. unfold visible. simpl.
      destruct (Z.to_nat (os_size up)) as [|n] eqn:En; [lia|]. cbn [take].
      by rewrite take_delete by lia.
  - cbn [wp]. split; [done|]. replace i' with 0%nat in * by lia. f_equal.
    change (visible (set_primary up x)) with (visible up).
    destruct (visible up); simplify_eq/=. done.
Qed.

(** ** Temporary mappings *)

(** What [pg_temp] and [primary_temp] ask for. *)
Definition temp_ref (map : ceph_osdmap) (shift : bool) (pgid : ceph_pg) : list Z * Z :=
  let l := keep shift (osd_up map) (default [] (om_pg_temp map !! pgid)) in
  (l, default (first_osd l) (om_primary_temp map !! pgid)).

Definition pg_temp_ok (map : ceph_osdmap) (pgid : ceph_pg) : Prop :=
  ∀ targets, om_pg_temp map !! pgid = Some targets →
    Z.of_nat (length targets) <= CEPH_PG_MAX_SIZE.

Lemma filter_all_none l :
  Forall (λ x, x = CRUSH_ITEM_NONE) l → filter (λ x, x ≠ CRUSH_ITEM_NONE) l = [].
Proof.
  induction 1 as [|x l -> _ IH]; [done|]. rewrite filter_cons_False; [done|]. by intros H.
Qed.

Lemma first_osd_take_S l i x :
  l !! i = Some x → (∀ y, y ∈ take i l → y = CRUSH_ITEM_NONE) → x ≠ CRUSH_ITEM_NONE → first_osd l = x.
Proof.
  intros Hx Hnone Hne. unfold first_osd. rewrite <- (take_drop_middle _ _ _ Hx), filter_app.
  rewrite filter_all_none by by apply Forall_forall. by rewrite filter_cons_True.
Qed.

Lemma temp_primary_wp s :
  osds_ok s → wp (loop (Z.to_nat (os_size s) + 1) (temp_primary_step s) 0)
    (λ p, p = if bool_decide (Forall (λ x, x = CRUSH_ITEM_NONE) (visible s)) then os_primary s
              else first_osd (visible s)).
Proof.
  intros Hok. pose proof (length_visible s Hok) as Hlen. pose proof Hok as [Hl Hsize].
  apply (wp_loop (λ i, 0 <= i <= os_size s
      ∧ Forall (λ x, x = CRUSH_ITEM_NONE) (take (Z.to_nat i) (visible s)))
    (λ i, Z.to_nat (os_size s - i))); [|by split; [lia|]|lia].
  intros i [Hi Hnone]. unfold temp_primary_step. destruct (Z.ltb_spec i (os_size s)).
  - destruct (lookup_Z_Some (visible s) i ltac:(lia)) as [x Hx].
    pose proof Hx as Hx'. rewrite visible_lookup in Hx' by lia.
    rewrite (aget_Some _ _ x) by (done || lia). cbn [mbind outcome_bind].
    destruct (Z.eqb_spec x CRUSH_ITEM_NONE) as [->|Hne]; cbn [negb wp].
    + split; [|lia]. split; [lia|]. replace (Z.to_nat (i + 1)) with (S (Z.to_nat i)) by lia.
      rewrite (take_S_r _ _ _ Hx). apply Forall_app. split; [done|]. by constructor.
    + rewrite bool_decide_false.
      * symmetry. eapply first_osd_take_S; [done| |done]. by apply Forall_forall.
      * intros Hall. rewrite Forall_lookup in Hall. by apply Hall in Hx.
  - cbn [wp]. rewrite take_ge in Hnone by lia. by rewrite bool_decide_true.
Qed.

Lemma first_osd_all_none l : Forall (λ x, x = CRUSH_ITEM_NONE) l → first_osd l = -1.
Proof. intros Hl. unfold first_osd. by rewrite filter_all_none. Qed.

Lemma keep_take_S shift p l i x :
  l !! i = Some x →
  keep shift p (take (S i) l) = keep shift p (take i l)
    ++ (if p x then [x] else if shift then [] else [CRUSH_ITEM_NONE]).
Proof.
  intros Hx. unfold keep. destruct shift.
  - by apply filter_take_S.
  - rewrite (take_S_r _ _ _ Hx), fmap_app. simpl. by destruct (p x).
Qed.

Section acting.
Context (map : ceph_osdmap) (Hmap : wf_arrays map).
Context (pi : ceph_pg_pool_info) (Htype : pool_type_ok pi).

(** Writing behind the last entry. *)
Lemma push_wp s v :
  osds_ok s → os_size s < CEPH_PG_MAX_SIZE →
  wp (l ← aset (osds s) (os_size s) v; Ret (CephOsds l (os_size s + 1) (os_primary s)))
    (λ s', osds_are s' (visible s ++ [v]) (os_primary s)).
Proof.
  intros [Hl Hs] Hlt. apply wp_bind, wp_aset; [lia|]. cbn [wp]. split.
  - split; simpl; [by rewrite length_insert|lia].
  - split; [|done]. unfold visible. simpl.
    replace (Z.to_nat (os_size s + 1)) with (S (Z.to_nat (os_size s))) by lia.
    rewrite (take_S_r _ _ v) by (apply list_lookup_insert_eq; lia). by rewrite take_insert_ge by lia.
Qed.

Lemma get_temp_osds_wp pgid temp :
  Z.of_nat (length (osds temp)) = CEPH_PG_MAX_SIZE → pg_temp_ok map pgid →
  wp (get_temp_osds map pi pgid temp)
    (λ s, osds_are s (temp_ref map (can_shift pi) pgid).1 (temp_ref map (can_shift pi) pgid).2).
Proof.
  intros Hlen Hok. unfold get_temp_osds, temp_ref. cbn [fst snd].
  set (l := keep (can_shift pi) (osd_up map) (default [] (om_pg_temp map !! pgid))).
  apply wp_bind. apply (wp_mono _ (λ s, osds_are s l (first_osd l))).
  - destruct (om_pg_temp map !! pgid) as [targets|] eqn:Ht; subst l; simpl.
    + specialize (Hok targets Ht).
      pose proof (wp_for_range (λ i s, osds_are s (keep (can_shift pi) (osd_up map)
          (take (Z.to_nat i) targets)) (-1)) (pg_temp_step map pi targets) (length targets) 0
          (ceph_osds_init temp)) as H.
      apply wp_bind. eapply wp_mono; [apply H; clear H|].
      * intros i s Hi (Hs & Hv & Hp). destruct (lookup_Z_Some targets i ltac:(lia)) as [x Hx].
        unfold pg_temp_step. rewrite (aget_Some _ _ x) by (done || lia). cbn [mbind outcome_bind].
        rewrite ceph_osd_is_down_eq by done. cbn [mbind outcome_bind].
        replace (Z.to_nat (i + 1)) with (S (Z.to_nat i)) by lia. rewrite (keep_take_S _ _ _ _ x Hx).
        assert (os_size s < CEPH_PG_MAX_SIZE) as Hroom.
        { rewrite <- (length_visible s Hs), Hv.
          pose proof (length_keep (can_shift pi) (osd_up map) (take (Z.to_nat i) targets)).
          rewrite length_take in *. lia. }
        rewrite <- Hv, <- Hp.
        destruct (osd_up map x); cbn [negb]; [by apply push_wp|].
        rewrite ceph_can_shift_eq by done. cbn [mbind outcome_bind].
        destruct (can_shift pi); [|by apply push_wp].
        cbn [wp]. rewrite app_nil_r. done.
      * split; [|split; [unfold keep; by destruct (can_shift pi)|done]].
        split; simpl; [done|unfold CEPH_PG_MAX_SIZE; lia].
      * intros s (Hs & Hv & Hp). rewrite Z.add_0_l, Nat2Z.id, firstn_all in Hv.
        apply wp_bind. eapply wp_mono; [by apply temp_primary_wp|]. intros p ->. cbn [wp].
        split; [done|]. split; [done|]. rewrite Hv, Hp. simpl. case_bool_decide as Hall; [|done].
        by rewrite first_osd_all_none.
    + cbn [wp]. split; [split; simpl; [done|unfold CEPH_PG_MAX_SIZE; lia]|].
      unfold keep. by destruct (can_shift pi).
  - intros s (Hs & Hv & Hp). cbn [wp]. by destruct (om_primary_temp map !! pgid).
Qed.
End acting.

(** ** The pipeline, purely *)

(** The up and the acting set, each with its primary, of the group [pgid] with placement seed
    [pps] for which CRUSH and the removal of non-existent OSDs left [raw]. *)
Definition placement_ref (map : ceph_osdmap) (pi : ceph_pg_pool_info) (pgid : ceph_pg) (pps : Z)
    (raw : list Z) : (list Z * Z) * (list Z * Z) :=
  let shift := can_shift pi in
  let mapped := upmap_ref map pgid raw in
  let up := affinity_ref (om_osd_primary_affinity map) shift pps
              (keep shift (osd_up map) mapped) (first_up map mapped) in
  let temp := temp_ref map shift pgid in
  (up, match temp.1 with
       | [] => (up.1, if temp.2 =? -1 then up.2 else temp.2)
       | _ => temp
       end).

(** The map and the pool are as the decoder leaves them: the arrays have their length, the pool's
    type is known and its size positive, mappings fit an OSD set. *)
Record placement_ok (map : ceph_osdmap) (pi : ceph_pg_pool_info) (pgid : ceph_pg) : Prop := {
  pl_arrays : wf_arrays map;
  pl_max : om_max_osd map <= CRUSH_ITEM_NONE;
  pl_type : pool_type_ok pi;
  pl_upmaps : upmaps_ok map pgid;
  pl_temp : pg_temp_ok map pgid }.

(** The CRUSH map can be run with the given fuel, whatever the input. *)
Record crush_ok (map : ceph_osdmap) (pi : ceph_pg_pool_info) (c : crush_map) (rank : Z → nat)
    (fuel : nat) (T L : Z) : Prop := {
  co_crush : om_crush map = Some c;
  co_size : 0 < pi_size pi < 2 ^ 8;
  co_env : ∀ x, wf_env (crush_env map c x (pi_id pi)) rank;
  co_limits : ∀ x, rule_limits (crush_env map c x (pi_id pi)) rank fuel T L;
  co_tunables : ∀ x, tunables_ok T L (map_tunables (crush_env map c x (pi_id pi)));
  co_devices : max_devices c <= CRUSH_ITEM_UNDEF;
  co_rules : 0 <= max_rules c < 2 ^ 31 ∧ Z.of_nat (length (rules c)) = max_rules c;
  co_steps : ∀ i r, rules c !! i = Some (Some r) →
    0 <= rule_len r <= Z.of_nat (length (rule_steps r)) ∧ Forall (step_ok T L) (rule_steps r) }.

Definition fresh_osds (s : ceph_osds) : Prop := Z.of_nat (length (osds s)) = CEPH_PG_MAX_SIZE.

Section pipeline.
Context (fuel : nat) (scratch : Z → Z) (map : ceph_osdmap) (pi : ceph_pg_pool_info).

Lemma do_crush_wp c rank T L ruleno rule x result work :
  crush_ok map pi c rank fuel T L → pi_size pi <= CEPH_PG_MAX_SIZE →
  0 <= ruleno < max_rules c → rules c !! Z.to_nat ruleno = Some (Some rule) →
  wf_work c work → Z.of_nat (length result) = pi_size pi →
  wp (do_crush fuel scratch map ruleno x result (pi_size pi) (pi_id pi) work)
    (λ '(n, result', work'), 0 <= n <= pi_size pi ∧ Z.of_nat (length result') = pi_size pi
       ∧ wf_work c work').
Proof.
  intros [Hc Hsize Henv Hlim Htun Hdev [Hmr Hrl] Hsteps] Hmax Hno Hrule Hwork Hres.
  unfold do_crush, require. rewrite Z.gtb_ltb, (proj2 (Z.ltb_ge _ _)), Hc by done.
  cbn [negb mbind outcome_bind deref].
  destruct (Hsteps _ _ Hrule) as [Hlen Hst].
  assert (∀ k, Z.of_nat (length (scratch <$> seqZ k (pi_size pi))) = pi_size pi) as Hvec
    by (intros k; rewrite length_fmap, length_seqZ; lia).
  eapply (crush_do_rule_wp (crush_env map c (s32 x) (pi_id pi)) rank (Henv _) fuel T L (pi_size pi)
    Hdev (Hlim _)); try done; try lia; try apply Hvec; try apply Htun; simpl; lia.
Qed.

Lemma pg_to_raw_osds_wp c rank T L raw_pgid raw work :
  crush_ok map pi c rank fuel T L → wf_arrays map → pool_type_ok pi → wf_work c work →
  fresh_osds raw →
  wp (pg_to_raw_osds fuel scratch map pi raw_pgid raw work) (λ '(raw', pps, work'),
    osds_ok raw' ∧ os_primary raw' = -1 ∧ pps = raw_pg_to_pps pi raw_pgid ∧ wf_work c work').
Proof.
  intros Hcrush Hmap Htype Hwork Hraw. pose proof Hcrush as [Hc Hsize _ _ _ _ [Hmr Hrl] _].
  assert (Hinit : osds_ok (ceph_osds_init raw)).
  { split; simpl; [done|unfold CEPH_PG_MAX_SIZE; lia]. }
  unfold pg_to_raw_osds. rewrite Hc. cbn [mbind outcome_bind deref].
  apply wp_bind. eapply wp_mono; [by apply crush_find_rule_wp|]. intros ruleno Hfound.
  destruct (Z.ltb_spec ruleno 0); [done|].
  destruct Hfound as [(Hno & (rule & Hrule & _) & _)|[-> _]]; [|lia].
  destruct (Z.gtb_spec (pi_size pi) CEPH_PG_MAX_SIZE); [done|].
  unfold fresh_osds in Hraw.
  apply wp_bind. eapply wp_mono; [eapply do_crush_wp; try done|].
  { rewrite length_take. simpl. lia. }
  intros [[len result] work'] (Hlen & Hres & Hwork'). rewrite (proj2 (Z.ltb_ge len 0)) by lia.
  apply wp_bind. eapply wp_mono; [apply remove_nonexistent_osds_wp; [done|done|]|].
  { split; simpl; [rewrite length_app, length_drop; lia|lia]. }
  intros raw' (Hok & _ & Hp). cbn [wp]. done.
Qed.

(** *** The set is what the warning tests *)

Lemma osds_valid_wp s :
  osds_ok s →
  wp (osds_valid s) (λ v, v = true ↔
    (visible s ≠ [] ∧ 0 <= os_primary s) ∨ (visible s = [] ∧ os_primary s = -1)
    ∨ (visible s ≠ [] ∧ os_primary s = -1 ∧ Forall (λ x, x = CRUSH_ITEM_NONE) (visible s))).
Proof.
  intros Hok. pose proof (length_visible s Hok) as Hlen. pose proof Hok as [Hl Hsize].
  assert (Hnil : visible s = [] ↔ os_size s = 0).
  { rewrite <- Hlen. split; [by intros ->|]. intros H0. apply nil_length_inv. lia. }
  unfold osds_valid. rewrite Z.gtb_ltb, Z.geb_leb.
  destruct (Z.ltb_spec 0 (os_size s)), (Z.leb_spec 0 (os_primary s)),
    (Z.eqb_spec (os_size s) 0), (Z.eqb_spec (os_primary s) (-1));
    try lia; cbn [andb wp]; try (split; [intros _|done]; rewrite Hnil; lia);
    try (split; [done|]; rewrite Hnil; lia).
  apply wp_bind. eapply wp_mono; [apply (wp_loop (λ i, 0 <= i <= os_size s
      ∧ Forall (λ x, x = CRUSH_ITEM_NONE) (take (Z.to_nat i) (visible s)))
    (λ i, Z.to_nat (os_size s - i))
    (λ i, i = os_size s ↔ Forall (λ x, x = CRUSH_ITEM_NONE) (visible s)))|].
  - intros i [Hi Hnone]. unfold all_none_step. destruct (Z.ltb_spec i (os_size s)).
    + destruct (lookup_Z_Some (visible s) i ltac:(lia)) as [x Hx].
      pose proof Hx as Hx'. rewrite visible_lookup in Hx' by lia.
      rewrite (aget_Some _ _ x) by (done || lia). cbn [mbind outcome_bind].
      destruct (Z.eqb_spec x CRUSH_ITEM_NONE) as [->|Hne]; cbn [negb wp].
      * split; [|lia]. split; [lia|]. replace (Z.to_nat (i + 1)) with (S (Z.to_nat i)) by lia.
        rewrite (take_S_r _ _ _ Hx). apply Forall_app. split; [done|]. by constructor.
      * split; [lia|]. intros Hall. rewrite Forall_lookup in Hall. by apply Hall in Hx.
    + cbn [wp]. rewrite take_ge in Hnone by lia. split; [done|lia].
  - by split; [lia|].
  - lia.
  - intros i Hi. cbn [wp]. rewrite Z.eqb_eq, Hi, Hnil. split; [intros ?; right; right; done || (split; [lia|done])|].
    intros [?|[?|(_ & _ & ?)]]; [lia|lia|done].
Qed.
End pipeline.

(** ** What the sets are *)

(** A set of the pool's kind with its primary: replicas are all up, positions are up or empty;
    the primary is one of them, first among replicas, and -1 exactly when there is none. *)
Record served (map : ceph_osdmap) (shift : bool) (l : list Z) (p : Z) : Prop := {
  sv_up : Forall (λ x, osd_up map x = true ∨ (shift = false ∧ x = CRUSH_ITEM_NONE)) l;
  sv_primary : (p = -1 ∧ Forall (λ x, x = CRUSH_ITEM_NONE) l) ∨ (p ∈ l ∧ osd_up map p = true);
  sv_first : shift = true → l ≠ [] → head l = Some p }.

Section served.
Context (map : ceph_osdmap) (Hmap : wf_arrays map) (Hmax : om_max_osd map <= CRUSH_ITEM_NONE).

Lemma keep_up_entries shift l :
  Forall (λ x, osd_up map x = true ∨ (shift = false ∧ x = CRUSH_ITEM_NONE))
    (keep shift (osd_up map) l).
Proof.
  unfold keep. destruct shift; apply Forall_forall; intros x Hx.
  - apply list_elem_of_filter in Hx as [? _]. by left.
  - apply list_elem_of_fmap in Hx as (y & -> & _). destruct (osd_up map y) eqn:E; auto.
Qed.

Lemma served_keep shift l : served map shift (keep shift (osd_up map) l) (first_up map l).
Proof.
  split; [apply keep_up_entries| |].
  - unfold first_up. destruct (filter (λ x, osd_up map x = true) l) as [|y k] eqn:E.
    + left. split; [done|]. unfold keep. destruct shift; [by rewrite E|].
      apply Forall_forall. intros x (y & -> & Hy)%list_elem_of_fmap.
      destruct (osd_up map y) eqn:Hu; [|done].
      assert (y ∈ filter (λ x, osd_up map x = true) l) as Hin by by apply list_elem_of_filter.
      rewrite E in Hin. by apply not_elem_of_nil in Hin.
    + right. assert (y ∈ filter (λ x, osd_up map x = true) l) as Hin by (rewrite E; apply list_elem_of_here).
      pose proof Hin as [Hu Hl]%list_elem_of_filter. simpl. split; [|done].
      unfold keep. destruct shift; [done|]. apply list_elem_of_fmap. exists y. by rewrite Hu.
  - intros ->. unfold keep, first_up. by destruct (filter _ l).
Qed.

Lemma first_osd_keep shift l : first_osd (keep shift (osd_up map) l) = first_up map l.
Proof.
  unfold first_osd, first_up, keep. do 2 f_equal. induction l as [|x l IH]; [by destruct shift|].
  destruct shift; [rewrite filter_cons|rewrite fmap_cons, !filter_cons];
    destruct (osd_up map x) eqn:E.
  - rewrite decide_True, filter_cons_True by (done || by eapply osd_up_not_none). by rewrite IH.
  - by rewrite decide_False.
  - rewrite !decide_True by (done || by eapply osd_up_not_none). f_equal. done.
  - rewrite !decide_False by (done || by intros H). done.
Qed.

Lemma served_entry shift l p x :
  served map shift l p → x ∈ l → x ≠ CRUSH_ITEM_NONE → osd_up map x = true.
Proof. intros [Hup _ _] Hx Hne. rewrite Forall_forall in Hup. by destruct (Hup x Hx) as [|[]]. Qed.

Lemma affinity_choice_spec aff pps l i x :
  affinity_choice aff pps l = Some (i, x) → l !! i = Some x ∧ x ≠ CRUSH_ITEM_NONE.
Proof.
  unfold affinity_choice. destruct (list_find (accepts aff pps) l) as [r|] eqn:E; intros ?; simplify_eq.
  - by apply list_find_Some in E as (? & [? _] & _).
  - by apply list_find_Some in H as (? & ? & _).
Qed.

Lemma served_affinity affs shift pps l p :
  served map shift l p →
  let r := affinity_ref affs shift pps l p in served map shift r.1 r.2.
Proof.
  intros Hs. unfold affinity_ref. destruct affs as [aff|]; [|done].
  destruct (forallb _ _); [done|].
  destruct (affinity_choice aff pps l) as [[i x]|] eqn:Hc; [|done]. cbv zeta. cbn [fst snd].
  apply affinity_choice_spec in Hc as [Hi Hne].
  pose proof (list_elem_of_lookup_2 _ _ _ Hi) as Hin.
  pose proof (served_entry _ _ _ _ Hs Hin Hne) as Hu. destruct Hs as [Hup _ _].
  destruct shift.
  - split; [|right; split; [apply list_elem_of_here|done]|done].
    constructor; [by left|]. rewrite (delete_Permutation l i x Hi) in Hup.
    by apply Forall_cons in Hup as [_ ?].
  - split; [done|by right|done].
Qed.

Lemma distinct_affinity affs shift pps l p : distinct l → distinct (affinity_ref affs shift pps l p).1.
Proof.
  intros Hl. unfold affinity_ref. destruct affs as [aff|]; [|done].
  destruct (forallb _ _); [done|].
  destruct (affinity_choice aff pps l) as [[i x]|] eqn:Hc; [|done].
  apply affinity_choice_spec in Hc as [Hi _]. destruct shift; [|done]. cbn [fst].
  unfold distinct. rewrite <- (delete_Permutation l i x Hi). done.
Qed.

Lemma served_range shift l p :
  served map shift l p → ∀ aff : list Z, Z.of_nat (length aff) = om_max_osd map →
  Forall (λ x, x = CRUSH_ITEM_NONE ∨ 0 <= x < Z.of_nat (length aff)) l.
Proof.
  intros [Hup _ _] aff Haff. eapply Forall_impl; [exact Hup|]. intros x [Hx|[_ ->]]; [right|by left].
  apply osd_up_range in Hx; [|done]. lia.
Qed.

Lemma served_valid shift l p :
  served map shift l p →
  (l ≠ [] ∧ 0 <= p) ∨ (l = [] ∧ p = -1) ∨ (l ≠ [] ∧ p = -1 ∧ Forall (λ x, x = CRUSH_ITEM_NONE) l).
Proof.
  intros [_ [[-> Hn]|[Hin Hu]] _].
  - destruct l; [by right; left|by right; right].
  - left. split; [by intros ->; apply not_elem_of_nil in Hin|]. apply osd_up_range in Hu; [lia|done].
Qed.
End served.

Section composed.
Context (fuel : nat) (scratch : Z → Z) (map : ceph_osdmap) (pi : ceph_pg_pool_info).
Context (c : crush_map) (rank : Z → nat) (T L : Z) (raw_pgid : ceph_pg).
#[local] Abbreviation pgid := (raw_pg_to_pg pi raw_pgid).
Hypothesis Hcrush : crush_ok map pi c rank fuel T L.
Hypothesis Hok : placement_ok map pi pgid.

Definition set_valid (l : list Z) (p : Z) : Prop :=
  (l ≠ [] ∧ 0 <= p) ∨ (l = [] ∧ p = -1) ∨ (l ≠ [] ∧ p = -1 ∧ Forall (λ x, x = CRUSH_ITEM_NONE) l).

Lemma copy_osds_wp dest s p :
  fresh_osds dest → osds_ok s →
  wp (l ← copy_osds (osds dest) (osds s) (os_size s); Ret (CephOsds l (os_size s) p))
    (λ s', osds_are s' (visible s) p).
Proof.
  intros Hd Hs. pose proof (length_visible s Hs) as Hlen. pose proof Hs as [Hl Hsz].
  unfold fresh_osds in Hd. unfold copy_osds. rewrite mem_prefix_visible by done.
  cbn [mbind outcome_bind]. unfold require. rewrite (proj2 (Z.leb_le _ _)) by lia.
  cbn [mbind outcome_bind wp]. split.
  - split; simpl; [rewrite length_app, length_drop; lia|done].
  - split; [|done]. unfold visible at 1. simpl. rewrite take_app_length'; [done|lia].
Qed.

(** The stages compose to the pure pipeline. *)
Lemma up_acting_wp up0 acting0 work :
  wf_work c work → fresh_osds up0 → fresh_osds acting0 →
  wp (ceph_pg_to_up_acting_osds fuel scratch map pi raw_pgid up0 acting0 work)
    (λ '(up, acting, work', warn), ∃ raw,
      pg_to_raw_osds fuel scratch map pi raw_pgid up0 work
        = Ret (raw, raw_pg_to_pps pi raw_pgid, work')
      ∧ osds_ok up ∧ osds_ok acting ∧ wf_work c work'
      ∧ ((visible up, os_primary up), (visible acting, os_primary acting))
        = placement_ref map pi pgid (raw_pg_to_pps pi raw_pgid) (visible raw)
      ∧ (warn = false ↔ set_valid (visible up) (os_primary up)
           ∧ set_valid (visible acting) (os_primary acting))).
Proof.
  intros Hwork Hup0 Hac0. destruct Hok as [Hmap Hmax Htype Hups Htemp].
  unfold ceph_pg_to_up_acting_osds. apply wp_bind.
  pose proof (pg_to_raw_osds_wp fuel scratch map pi c rank T L raw_pgid up0 work Hcrush Hmap Htype
    Hwork Hup0) as Hraw. apply wp_exists in Hraw as ([[raw pps] work'] & Heq & Hrok & Hrp & -> & Hw').
  rewrite Heq. cbn [wp].
  apply wp_bind. eapply wp_mono; [by apply apply_upmap_wp|]. intros mapped (Hmok & Hmv & Hmp).
  apply wp_bind. eapply wp_mono; [apply raw_to_up_osds_wp; try done; congruence|].
  intros s1 (H1ok & H1v & H1p).
  assert (Hserved : served map (can_shift pi) (visible s1) (os_primary s1)).
  { rewrite H1v, H1p. by apply served_keep. }
  apply wp_bind. eapply wp_mono; [apply apply_primary_affinity_wp; try done|].
  { intros aff Haff. eapply served_range; [done..|]. by apply Hmap. }
  intros up [Hupok Hup]. apply wp_bind. eapply wp_mono; [by apply get_temp_osds_wp|].
  intros temp (Htok & Htv & Htp).
  apply wp_bind. eapply (wp_mono _ (λ acting, osds_ok acting ∧ (visible acting, os_primary acting) =
    match visible temp with
    | [] => (visible up, if os_primary temp =? -1 then os_primary up else os_primary temp)
    | _ => (visible temp, os_primary temp)
    end)).
  { pose proof (length_visible temp Htok) as Htl. destruct (Z.eqb_spec (os_size temp) 0).
    - eapply wp_mono; [apply copy_osds_wp; [apply Htok|done]|]. intros s (? & -> & ->).
      by destruct (visible temp); [|simpl in Htl; lia].
    - cbn [wp]. by destruct (visible temp); [simpl in Htl; lia|]. }
  intros acting [Haok Ha].
  apply wp_bind. eapply wp_mono; [by apply osds_valid_wp|]. intros uv Huv.
  fold (set_valid (visible up) (os_primary up)) in Huv.
  assert (Hrest : (visible up, os_primary up, (visible acting, os_primary acting))
    = placement_ref map pi pgid (raw_pg_to_pps pi raw_pgid) (visible raw)).
  { unfold placement_ref. rewrite <- Hmv, <- H1v, <- H1p, <- Hup, Ha, <- Htv, <- Htp. cbn [fst snd].
    f_equal. rewrite Htv, Htp. by destruct (temp_ref _ _ _) as [[] ?]. }
  destruct uv; cbn [negb].
  - apply wp_bind, wp_bind. eapply wp_mono; [by apply osds_valid_wp|]. intros av Hav. cbn [wp].
    exists raw. split_and!; try done. rewrite negb_false_iff, Hav. naive_solver.
  - cbn [wp]. exists raw. split_and!; try done. naive_solver.
Qed.

(** The entries of the result are those of the pipeline. *)
Lemma placement_ref_served raw :
  let '((up, upp), _) := placement_ref map pi pgid (raw_pg_to_pps pi raw_pgid) raw in
  served map (can_shift pi) up upp
  ∧ ((∀ targets, om_pg_upmap map !! pgid = Some targets → distinct targets) →
     distinct raw → distinct up).
Proof.
  destruct Hok as [Hmap Hmax _ _ _]. unfold placement_ref. cbv zeta.
  set (m := upmap_ref map pgid raw).
  pose proof (served_keep map (can_shift pi) m) as Hs.
  pose proof (served_affinity map (om_osd_primary_affinity map) (can_shift pi)
    (raw_pg_to_pps pi raw_pgid) _ _ Hs) as Ha. cbv zeta in Ha.
  pose proof (λ H, distinct_affinity (om_osd_primary_affinity map) (can_shift pi)
    (raw_pg_to_pps pi raw_pgid) (keep (can_shift pi) (osd_up map) m) (first_up map m) H) as Hd.
  destruct (affinity_ref _ _ _ _ _) as [up upp]. split; [done|].
  intros Ht Hr. apply Hd, distinct_keep. by apply distinct_upmap_ref.
Qed.

(** Without a temporary primary the acting set is servable, too. *)
Lemma placement_ref_acting raw :
  om_primary_temp map !! pgid = None →
  let '(_, (l, p)) := placement_ref map pi pgid (raw_pg_to_pps pi raw_pgid) raw in
  served map (can_shift pi) l p.
Proof.
  intros Hnt. pose proof (placement_ref_served raw) as Hs. unfold placement_ref in *. cbv zeta in *.
  destruct (affinity_ref _ _ _ _ _) as [up upp]. destruct Hs as [Hs _].
  destruct Hok as [Hmap Hmax _ _ _].
  unfold temp_ref. rewrite Hnt. cbn [fst snd default]. set (t := default [] _).
  pose proof (served_keep map (can_shift pi) t) as Ht.
  rewrite first_osd_keep by done.
  destruct (keep (can_shift pi) (osd_up map) t) as [|x l] eqn:Hk; [|done].
  destruct Ht as [_ [[Hp _]|[Hin _]] _]; [|by apply not_elem_of_nil in Hin].
  rewrite Hp. done.
Qed.
End composed.

(** *** Shards *)

Lemma raw_pg_to_pg_idem pi (Hpi : pool_masks_ok pi) raw :
  raw_pg_to_pg pi (raw_pg_to_pg pi raw) = raw_pg_to_pg pi raw
  ∧ raw_pg_to_pps pi (raw_pg_to_pg pi raw) = raw_pg_to_pps pi raw.
Proof.
  pose proof Hpi as ([? Hpgp] & ? & _). unfold raw_pg_to_pps. rewrite !pgp_seed_eq by done.
  rewrite !raw_pg_to_pg_eq by done. simpl. rewrite !stable_mod_nested by lia. done.
Qed.

(** CRUSH sees the placement seed only. *)
Lemma pg_to_raw_osds_pps fuel scratch map pi a b raw work :
  raw_pg_to_pps pi a = raw_pg_to_pps pi b →
  pg_to_raw_osds fuel scratch map pi a raw work = pg_to_raw_osds fuel scratch map pi b raw work.
Proof. intros H. unfold pg_to_raw_osds. by rewrite H. Qed.

Lemma primary_shard_wp s :
  osds_ok s →
  wp (loop (Z.to_nat (os_size s) + 1) (primary_shard_step s) 0)
    (λ o, o = (λ '(i, _), Z.of_nat i) <$> list_find (λ x, x = os_primary s) (visible s)).
Proof.
  intros Hok. pose proof (length_visible s Hok) as Hlen. pose proof Hok as [Hl Hsize].
  apply (wp_loop (λ i, 0 <= i <= os_size s
      ∧ list_find (λ x, x = os_primary s) (take (Z.to_nat i) (visible s)) = None)
    (λ i, Z.to_nat (os_size s - i))); [|by split; [lia|]|lia].
  intros i [Hi Hnone]. unfold primary_shard_step. destruct (Z.ltb_spec i (os_size s)).
  - destruct (lookup_Z_Some (visible s) i ltac:(lia)) as [x Hx].
    pose proof Hx as Hx'. rewrite visible_lookup in Hx' by lia.
    rewrite (aget_Some _ _ x) by (done || lia). cbn [mbind outcome_bind].
    pose proof (list_find_take_S_gen (λ x, x = os_primary s) (visible s) _ x Hx) as HS.
    rewrite Hnone in HS. destruct (Z.eqb_spec x (os_primary s)) as [Heq|Hne]; cbn [wp].
    + rewrite decide_True in HS by done. rewrite (list_find_take_Some _ _ _ _ HS). simpl.
      by rewrite Z2Nat.id by lia.
    + split; [|lia]. split; [lia|]. replace (Z.to_nat (i + 1)) with (S (Z.to_nat i)) by lia.
      rewrite HS. by rewrite decide_False.
  - cbn [wp]. rewrite take_ge in Hnone by lia. by rewrite Hnone.
Qed.

(** * Properties *)

(** Naming objects to groups.  Whatever the length of the name and the namespace, the call
    returns: [-ENOENT] exactly when the pool does not exist, and otherwise the raw group of the
    pool whose seed is the pool's hash of the name, after the namespace and the byte 0x1f if
    there is a namespace. *)
Theorem ceph_object_locator_to_pg_spec (map : ceph_osdmap) (name : list Z)
    (oloc : ceph_object_locator) :
  ceph_object_locator_to_pg map name oloc =
    Ret (match ceph_pg_pool_by_id map (u64 (oloc_pool oloc)) with
         | None => (- ENOENT, None)
         | Some pi =>
             let key := match oloc_pool_ns oloc with
                        | None => name
                        | Some ns => ns ++ NS_SEPARATOR :: name
                        end in
             (0, Some (CephPg (u64 (oloc_pool oloc))
                (if pi_object_hash pi =? CEPH_STR_HASH_LINUX then u32 (linux_ref key)
                 else if pi_object_hash pi =? CEPH_STR_HASH_RJENKINS then rjenkins_ref key
                 else 2 ^ 32 - 1)))
         end).
Proof.
  unfold ceph_object_locator_to_pg, object_locator_to_pg.
  destruct (ceph_pg_pool_by_id map _) as [pi|]; [|done].
  destruct (oloc_pool_ns oloc) as [ns|]; cbv zeta.
  - replace (Z.of_nat (length ns) + 1 + Z.of_nat (length name))
      with (Z.of_nat (length (ns ++ [NS_SEPARATOR] ++ name))) by (rewrite !length_app; simpl; lia).
    rewrite ceph_str_hash_eq. done.
  - by rewrite ceph_str_hash_eq.
Qed.

(** C27: a group stands for all its objects.  The reduced seed is below the number of groups;
    reducing again changes nothing; the placement seed of an object depends on its group alone;
    and when the number of groups grows, an object stays in its group or moves to a new one
    that splits from it. *)
Theorem raw_pg_to_pg_stable (pi pi' : ceph_pg_pool_info) (raw : ceph_pg)
    (Hpi : pool_masks_ok pi) (Hpi' : pool_masks_ok pi')
    (Hgrow : pi_pg_num pi <= pi_pg_num pi') :
  let pg := raw_pg_to_pg pi raw in
  let pg' := raw_pg_to_pg pi' raw in
  0 <= pg_seed pg < pi_pg_num pi
  ∧ raw_pg_to_pg pi pg = pg
  ∧ raw_pg_to_pps pi pg = raw_pg_to_pps pi raw
  ∧ raw_pg_to_pg pi pg' = pg
  ∧ (pg' = pg ∨ pi_pg_num pi <= pg_seed pg' < pi_pg_num pi').
Proof.
  cbv zeta. rewrite !raw_pg_to_pg_eq by done. simpl.
  pose proof Hpi as ([? Hpgp] & ? & _). pose proof Hpi' as ([? ?] & ? & _).
  pose proof (stable_mod_range (pg_seed raw) (pi_pg_num pi) ltac:(lia)) as Hr.
  pose proof (stable_mod_range (pg_seed raw) (pi_pg_num pi') ltac:(lia)) as Hr'.
  pose proof (stable_mod_nested (pg_seed raw) (pi_pg_num pi) (pi_pg_num pi') ltac:(lia)) as Hn.
  split; [done|]. split; [f_equal; apply stable_mod_nested; lia|]. split.
  { unfold raw_pg_to_pps. rewrite !pgp_seed_eq by done. simpl.
    by rewrite stable_mod_nested by lia. }
  split; [by rewrite Hn|].
  destruct (Z.lt_ge_cases (stable_mod (pg_seed raw) (pi_pg_num pi')) (pi_pg_num pi)) as [Hlt|]; [left|right; lia].
  rewrite stable_mod_below in Hn by lia. by rewrite Hn.
Qed.

(** C25: placing a group refines the pure pipeline.  Running CRUSH, applying exceptions, dropping
    OSDs that are down, choosing a primary and applying temporary mappings, all in place on
    arrays of 32 entries, ends within bounds, and the up and acting sets are exactly those of
    [placement_ref] on what CRUSH returned; the warning fires exactly when one of them is not a
    valid set, and the workspace can be put back. *)
Theorem ceph_pg_to_up_acting_osds_refines (fuel : nat) (scratch : Z → Z) (map : ceph_osdmap)
    (pi : ceph_pg_pool_info) (c : crush_map) (rank : Z → nat) (T L : Z) (raw_pgid : ceph_pg)
    (up0 acting0 : ceph_osds) (work : crush_work)
    (Hcrush : crush_ok map pi c rank fuel T L)
    (Hok : placement_ok map pi (raw_pg_to_pg pi raw_pgid))
    (Hwork : wf_work c work) (Hup0 : fresh_osds up0) (Hac0 : fresh_osds acting0) :
  wp (ceph_pg_to_up_acting_osds fuel scratch map pi raw_pgid up0 acting0 work)
    (λ '(up, acting, work', warn), ∃ raw,
      pg_to_raw_osds fuel scratch map pi raw_pgid up0 work
        = Ret (raw, raw_pg_to_pps pi raw_pgid, work')
      ∧ osds_ok up ∧ osds_ok acting ∧ wf_work c work'
      ∧ ((visible up, os_primary up), (visible acting, os_primary acting))
        = placement_ref map pi (raw_pg_to_pg pi raw_pgid) (raw_pg_to_pps pi raw_pgid) (visible raw)
      ∧ (warn = false ↔ set_valid (visible up) (os_primary up)
           ∧ set_valid (visible acting) (os_primary acting))).
Proof. by eapply up_acting_wp. Qed.

(** C26: the up set is servable.  Every entry is an OSD that exists and is up, or an empty
    position of an erasure-coded group; the primary is one of the OSDs, the first one of a
    replicated group, and -1 exactly when there is none; if the rule's raw result lists no OSD
    twice, and neither does an explicit mapping of the group, the up set lists none twice.  Without a temporary primary the warning stays silent. *)
Theorem ceph_pg_to_up_acting_osds_up (fuel : nat) (scratch : Z → Z) (map : ceph_osdmap)
    (pi : ceph_pg_pool_info) (c : crush_map) (rank : Z → nat) (T L : Z) (raw_pgid : ceph_pg)
    (up0 acting0 : ceph_osds) (work : crush_work)
    (Hcrush : crush_ok map pi c rank fuel T L)
    (Hok : placement_ok map pi (raw_pg_to_pg pi raw_pgid))
    (Hwork : wf_work c work) (Hup0 : fresh_osds up0) (Hac0 : fresh_osds acting0) :
  wp (ceph_pg_to_up_acting_osds fuel scratch map pi raw_pgid up0 acting0 work)
    (λ '(up, acting, work', warn),
      served map (can_shift pi) (visible up) (os_primary up)
      ∧ ((∀ targets, om_pg_upmap map !! raw_pg_to_pg pi raw_pgid = Some targets → distinct targets) →
          ∀ raw, pg_to_raw_osds fuel scratch map pi raw_pgid up0 work
            = Ret (raw, raw_pg_to_pps pi raw_pgid, work') →
          distinct (visible raw) → distinct (visible up))
      ∧ (om_primary_temp map !! raw_pg_to_pg pi raw_pgid = None →
          served map (can_shift pi) (visible acting) (os_primary acting) ∧ warn = false)).
Proof.
  pose proof Hok as [Hmap Hmax _ _ _].
  eapply wp_mono; [by eapply up_acting_wp|].
  intros [[[up acting] work'] warn] (raw & Hraw & _ & _ & _ & Heq & Hwarn).
  pose proof (placement_ref_served map pi raw_pgid Hok (visible raw)) as Hs.
  pose proof (placement_ref_acting map pi raw_pgid Hok (visible raw)) as Ha.
  destruct (placement_ref _ _ _ _ _) as [[l p] [l' p']]. injection Heq as <- <- <- <-.
  destruct Hs as [Hs Hd]. split; [done|]. split.
  - intros Ht raw' Heq' Hdist. rewrite Hraw in Heq'. injection Heq' as <-. by apply Hd.
  - intros Hnt. specialize (Ha Hnt). split; [done|]. apply Hwarn.
    split; by eapply served_valid.
Qed.

(** The shard that serves a group.  A replicated group has none; of an erasure-coded group it
    is the position of the acting primary in the acting set, found exactly when the primary is
    in the set, and it is the same for the raw group of every object in it. *)
Theorem ceph_pg_to_primary_shard_position (fuel : nat) (scratch : Z → Z) (map : ceph_osdmap)
    (pi : ceph_pg_pool_info) (c : crush_map) (rank : Z → nat) (T L : Z) (raw_pgid : ceph_pg)
    (up0 acting0 : ceph_osds) (work : crush_work)
    (Hcrush : crush_ok map pi c rank fuel T L) (Hpi : pool_masks_ok pi)
    (Hok : placement_ok map pi (raw_pg_to_pg pi raw_pgid))
    (Hwork : wf_work c work) (Hup0 : fresh_osds up0) (Hac0 : fresh_osds acting0) :
  let pgid := raw_pg_to_pg pi raw_pgid in
  wp (ceph_pg_to_primary_shard fuel scratch map pi raw_pgid up0 acting0 work) (λ '(o, work'),
    if can_shift pi then o = Some (CephSpg pgid CEPH_SPG_NOSHARD) ∧ work' = work
    else ∃ raw acting primary,
      pg_to_raw_osds fuel scratch map pi raw_pgid up0 work
        = Ret (raw, raw_pg_to_pps pi raw_pgid, work')
      ∧ (placement_ref map pi pgid (raw_pg_to_pps pi raw_pgid) (visible raw)).2 = (acting, primary)
      ∧ o = ((λ '(i, _), CephSpg pgid (Z.of_nat i)) <$> list_find (λ x, x = primary) acting)).
Proof.
  cbv zeta. unfold ceph_pg_to_primary_shard.
  pose proof (raw_pg_to_pg_idem pi Hpi raw_pgid) as [Hidem Hpps].
  rewrite ceph_can_shift_eq by apply Hok. cbn [mbind outcome_bind].
  destruct (can_shift pi) eqn:Hshift; [done|].
  apply wp_bind. eapply wp_mono; [eapply (up_acting_wp fuel scratch map pi c rank T L); try done|].
  { by rewrite Hidem. }
  intros [[[up acting] work'] warn] (raw & Hraw & _ & Hacok & _ & Heq & _).
  rewrite Hidem, Hpps in Heq.
  rewrite (pg_to_raw_osds_pps _ _ _ _ _ raw_pgid), Hpps in Hraw by done.
  apply wp_bind. eapply wp_mono; [by apply primary_shard_wp|]. intros o ->.
  destruct (list_find _ (visible acting)) as [[i y]|] eqn:Hf; cbn [fmap option_fmap option_map wp];
    exists raw, (visible acting), (os_primary acting); rewrite <- Heq, Hf; split_and!; try done.
  simpl. do 2 f_equal. apply list_find_Some in Hf as (Hi & _). apply lookup_lt_Some in Hi.
  pose proof (length_visible acting Hacok). destruct Hacok as [_ ?]. unfold CEPH_PG_MAX_SIZE in *.
  unfold s8. rewrite Z.mod_small; lia.
Qed.

(** ** A cluster of four OSDs, one of them down, and a pool of three replicas in 12 groups *)
Definition ex_cluster : ceph_osdmap := set_crush ex_osdmap (Some ex_map) init_workspace_manager.
Definition ex_pool (type : Z) : ceph_pg_pool_info :=
  CephPgPoolInfo 1 type 3 2 0 CEPH_STR_HASH_RJENKINS 0 12 8 15 7 (-1) (-1)
    CEPH_POOL_FLAG_HASHPSPOOL None false.
Definition ex_raw_pg : ceph_pg := CephPg 1 0xdeadbeef.
Definition ex_buf : ceph_osds := CephOsds (replicate 32 0) 0 0.

Lemma ex_pool_masks type : pool_masks_ok (ex_pool type).
Proof. split; [simpl; lia|]. by split; [simpl; lia|]. Qed.

Lemma ex_placement_ok type :
  type = CEPH_POOL_TYPE_REP ∨ type = CEPH_POOL_TYPE_EC →
  placement_ok ex_cluster (ex_pool type) (raw_pg_to_pg (ex_pool type) ex_raw_pg).
Proof.
  intros Htype. split.
  - split; try done. by intros a [= <-].
  - done.
  - done.
  - split; intros ? H; discriminate H.
  - intros ? H. discriminate H.
Qed.

Lemma ex_crush_ok type : crush_ok ex_cluster (ex_pool type) ex_map ex_rank 100 51 0.
Proof.
  split.
  - done.
  - simpl. lia.
  - intros x. split; [exact wf_ex_map|]. by split.
  - intros x. destruct ex_rule_limits. by split.
  - intros x. destruct ex_tunables_ok. by split.
  - done.
  - split; [simpl; lia|done].
  - intros [|i] r Hr; [|done]. injection Hr as <-. split; [simpl; lia|].
    repeat constructor; simpl; try lia; intros [H|H]; discriminate.
Qed.

Lemma ex_buf_fresh : fresh_osds ex_buf. Proof. done. Qed.

Lemma raw_pg_to_pg_stable_witness :
  pool_masks_ok (ex_pool 1) ∧ raw_pg_to_pg (ex_pool 1) (raw_pg_to_pg (ex_pool 1) ex_raw_pg)
    = raw_pg_to_pg (ex_pool 1) ex_raw_pg.
Proof.
  split; [apply ex_pool_masks|].
  apply (raw_pg_to_pg_stable (ex_pool 1) (ex_pool 1) ex_raw_pg (ex_pool_masks 1) (ex_pool_masks 1)).
  simpl. lia.
Defined.

Lemma ceph_pg_to_up_acting_osds_refines_witness :
  crush_ok ex_cluster (ex_pool 1) ex_map ex_rank 100 51 0 ∧
  wp (ceph_pg_to_up_acting_osds 100 (λ _, 0) ex_cluster (ex_pool 1) ex_raw_pg ex_buf ex_buf
        ex_workspace) (λ '(up, _, _, _), osds_ok up).
Proof.
  split; [apply ex_crush_ok|].
  eapply wp_mono; [apply (ceph_pg_to_up_acting_osds_refines 100 (λ _, 0) ex_cluster (ex_pool 1) ex_map
    ex_rank 51 0 ex_raw_pg ex_buf ex_buf ex_workspace (ex_crush_ok 1)
    (ex_placement_ok 1 (or_introl eq_refl)) wf_ex_workspace ex_buf_fresh ex_buf_fresh)|].
  intros [[[up acting] work'] warn] (raw & _ & H & _). exact H.
Defined.

Lemma ceph_pg_to_up_acting_osds_up_witness :
  crush_ok ex_cluster (ex_pool 1) ex_map ex_rank 100 51 0 ∧
  wp (ceph_pg_to_up_acting_osds 100 (λ _, 0) ex_cluster (ex_pool 1) ex_raw_pg ex_buf ex_buf
        ex_workspace) (λ '(up, _, _, warn), served ex_cluster true (visible up) (os_primary up)
          ∧ warn = false).
Proof.
  split; [apply ex_crush_ok|].
  eapply wp_mono; [apply (ceph_pg_to_up_acting_osds_up 100 (λ _, 0) ex_cluster (ex_pool 1) ex_map
    ex_rank 51 0 ex_raw_pg ex_buf ex_buf ex_workspace (ex_crush_ok 1)
    (ex_placement_ok 1 (or_introl eq_refl)) wf_ex_workspace ex_buf_fresh ex_buf_fresh)|].
  intros [[[up acting] work'] warn] (H & _ & H'). split; [exact H|].
  by apply H'.
Defined.

Lemma ceph_pg_to_primary_shard_position_witness :
  crush_ok ex_cluster (ex_pool 3) ex_map ex_rank 100 51 0 ∧
  wp (ceph_pg_to_primary_shard 100 (λ _, 0) ex_cluster (ex_pool 3) ex_raw_pg ex_buf ex_buf
        ex_workspace) (λ '(o, _), True).
Proof.
  split; [apply ex_crush_ok|].
  eapply wp_mono; [apply (ceph_pg_to_primary_shard_position 100 (λ _, 0) ex_cluster (ex_pool 3) ex_map
    ex_rank 51 0 ex_raw_pg ex_buf ex_buf ex_workspace (ex_crush_ok 3) (ex_pool_masks 3)
    (ex_placement_ok 3 (or_intror eq_refl)) wf_ex_workspace ex_buf_fresh ex_buf_fresh)|].
  by intros [o work'] _.
Defined.
