(* ===== verification/CrushLoc.v ===== *)
(** * CRUSH locations (libceph/osdmap.c)

    The [crush_location] option as a set of bucket type and name pairs, and how near an OSD is to
    it: the type of the lowest bucket above the OSD that the location names. *)
From S2P Require Import Prelude Hash Crush Mapper Choose DoRule Workspace OsdMap.

(** A C string ends at its first zero byte. *)
Fixpoint cstr (s : list Z) : list Z :=
  match s with [] => [] | c :: s => if c =? 0 then [] else c :: cstr s end.
Fixpoint strcmp (a b : list Z) : Z :=
  match a, b with
  | [], [] => 0
  | [], _ => -1
  | _, [] => 1
  | x :: a, y :: b => if x <? y then -1 else if x >? y then 1 else strcmp a b
  end.

Record crush_loc := CrushLoc { cl_type_name : list Z; cl_name : list Z }.

Definition crush_loc_compare (loc1 loc2 : crush_loc) : Z :=
  let ret := strcmp (cl_type_name loc1) (cl_type_name loc2) in
  if nonzero ret then ret else strcmp (cl_name loc1) (cl_name loc2).

(** A tree of locations is the list of its nodes in order. *)
Definition lookup_crush_loc (locs : list crush_loc) (loc : crush_loc) : bool :=
  existsb (λ l, crush_loc_compare loc l =? 0) locs.
Fixpoint try_insert_crush_loc (locs : list crush_loc) (loc : crush_loc) : option (list crush_loc) :=
  match locs with
  | [] => Some [loc]
  | l :: rest =>
      let cmp := crush_loc_compare loc l in
      if cmp <? 0 then Some (loc :: locs)
      else if cmp >? 0 then cons l <$> try_insert_crush_loc rest loc else None
  end.

(** The tokens [strsep] yields one after the other. *)
Fixpoint split_on (delim : Z) (s : list Z) : list (list Z) :=
  match s with
  | [] => [[]]
  | c :: s =>
      if c =? delim then [] :: split_on delim s
      else match split_on delim s with t :: ts => (c :: t) :: ts | [] => [[c]] end
  end.
Fixpoint strchr (c : Z) (s : list Z) : option (list Z * list Z) :=
  match s with
  | [] => None
  | x :: s => if x =? c then Some ([], s) else '(a, b) ← strchr c s; Some (x :: a, b)
  end.

(** [mem_ok] says for the rest of the string whether the next allocation succeeds. *)
Fixpoint parse_crush_locs (mem_ok : nat → bool) (tokens : list (list Z)) (locs : list crush_loc)
    : Z * list crush_loc :=
  match tokens with
  | [] => (0, locs)
  | t :: tokens =>
      match strchr 58 t with
      | None => (- EINVAL, locs)
      | Some (type_name, name) =>
          if Z.of_nat (length type_name) =? 0 then (- EINVAL, locs)
          else if Z.of_nat (length name) =? 0 then (- EINVAL, locs)
          else if negb (mem_ok (length tokens)) then (- ENOMEM, locs)
          else
            match try_insert_crush_loc locs (CrushLoc type_name name) with
            | None => (- EEXIST, locs)
            | Some locs => parse_crush_locs mem_ok tokens locs
            end
      end
  end.
Definition ceph_parse_crush_location (mem_ok : nat → bool) (crush_location : list Z)
    (locs : list crush_loc) : Z * list crush_loc :=
  parse_crush_locs mem_ok (split_on 124 crush_location) locs.

Fixpoint ceph_compare_crush_locs (locs1 locs2 : list crush_loc) : Z :=
  match locs1, locs2 with
  | [], [] => 0
  | [], _ => -1
  | _, [] => 1
  | l1 :: locs1, l2 :: locs2 =>
      let ret := crush_loc_compare l1 l2 in
      if nonzero ret then ret else ceph_compare_crush_locs locs1 locs2
  end.

(** [a-zA-Z0-9-_.]+ *)
Definition is_valid_crush_char (c : Z) : bool :=
  (97 <=? c) && (c <=? 122) || (65 <=? c) && (c <=? 90) || (48 <=? c) && (c <=? 57)
  || (c =? 45) || (c =? 95) || (c =? 46).
Definition is_valid_crush_name (name : list Z) : bool :=
  match name with [] => false | _ => forallb is_valid_crush_char name end.

(** Whether one of the first [n] items is [id]; reading behind the items is undefined. *)
Fixpoint holds_item (n : nat) (items : list Z) (id : Z) : outcome bool :=
  match n, items with
  | O, _ => Ret false
  | S n, [] => Undef
  | S n, x :: items => if x =? id then Ret true else holds_item n items id
  end.

(** The first of [n] buckets from [bs] on that holds [id]: its id, its type and its location. *)
Fixpoint immediate_parent (c : crush_map) (n : nat) (bs : list (option crush_bucket)) (id : Z)
    : outcome (option (Z * Z * crush_loc)) :=
  match n, bs with
  | O, _ => Ret None
  | S n, [] => Undef
  | S n, None :: bs => immediate_parent c n bs id
  | S n, Some b :: bs =>
      match names c !! b_id b with
      | Some name =>
          if is_valid_crush_name (cstr name) then
            found ← holds_item (Z.to_nat (b_size b)) (b_items b) id;
            if found : bool then
              type_name ← deref (type_names c !! b_type b);
              Ret (Some (b_id b, b_type b, CrushLoc (cstr type_name) (cstr name)))
            else immediate_parent c n bs id
          else immediate_parent c n bs id
      | None => immediate_parent c n bs id
      end
  end.
(** [None] is the result 0. *)
Definition get_immediate_parent (c : crush_map) (id : Z) : outcome (option (Z * Z * crush_loc)) :=
  immediate_parent c (Z.to_nat (max_buckets c)) (buckets c) id.

Definition locality_step (c : crush_map) (locs : list crush_loc) (id : Z) : outcome (Z + Z) :=
  o ← get_immediate_parent c id;
  match o with
  | None => Ret (inr (-1))
  | Some (id, type_id, loc) =>
      if id >=? 0 then Ret (inr (-1))
      else if lookup_crush_loc locs loc then Ret (inr type_id) else Ret (inl id)
  end.
(** [fuel] bounds the climb, which the code does not. *)
Definition ceph_get_crush_locality (fuel : nat) (map : ceph_osdmap) (id : Z) (locs : list crush_loc)
    : outcome Z :=
  c ← deref (om_crush map); loop fuel (locality_step c locs) id.

(** ** The climb *)

(** Names of the types of buckets, which the decoder does not check. *)
Definition types_named (c : crush_map) : Prop :=
  ∀ b, map_bucket c b → is_Some (type_names c !! b_type b).

(** [p] is the first named bucket of the map that holds [id]. *)
Definition names_bucket (c : crush_map) (b : crush_bucket) : Prop :=
  ∃ name, names c !! b_id b = Some name ∧ is_valid_crush_name (cstr name) = true.
Definition crush_loc_of (c : crush_map) (b : crush_bucket) : crush_loc :=
  CrushLoc (cstr (default [] (type_names c !! b_type b))) (cstr (default [] (names c !! b_id b))).

Section climb.
Context (c : crush_map) (rank : Z → nat) (Hwf : wf_map c rank) (Htypes : types_named c).

Lemma holds_item_eq items id : holds_item (length items) items id = Ret (bool_decide (id ∈ items)).
Proof.
  induction items as [|x items IH]; simpl; [done|]. destruct (Z.eqb_spec x id) as [->|Hne].
  - rewrite bool_decide_true; [done|by left].
  - rewrite IH. f_equal. apply bool_decide_ext. set_solver.
Qed.

(** Any suffix of the table. *)
Lemma immediate_parent_wp bs id :
  (∀ b, Some b ∈ bs → map_bucket c b) →
  wp (immediate_parent c (length bs) bs id) (λ o,
    match o with
    | Some (p, type, loc) => ∃ b, map_bucket c b ∧ names_bucket c b ∧ id ∈ b_items b
        ∧ p = b_id b ∧ type = b_type b ∧ loc = crush_loc_of c b
    | None => ∀ b, Some b ∈ bs → names_bucket c b → id ∉ b_items b
    end).
Proof.
  induction bs as [|[b|] bs IH]; intros Hbs; cbn [immediate_parent length]; [by intros b Hb; apply not_elem_of_nil in Hb| |].
  2:{ eapply wp_mono; [apply IH; set_solver|]. intros [[[p type] loc]|]; [done|]. intros Hno b [?|?]%elem_of_cons; [done|by apply Hno]. }
  assert (Hb : map_bucket c b) by (apply Hbs; by left).
  assert (Hrest : (¬ names_bucket c b ∨ id ∉ b_items b) → wp (immediate_parent c (length bs) bs id) (λ o,
    match o with
    | Some (p, type, loc) => ∃ b, map_bucket c b ∧ names_bucket c b ∧ id ∈ b_items b
        ∧ p = b_id b ∧ type = b_type b ∧ loc = crush_loc_of c b
    | None => ∀ b', Some b' ∈ Some b :: bs → names_bucket c b' → id ∉ b_items b'
    end)).
  { intros Hb'. eapply wp_mono; [apply IH; set_solver|]. intros [[[p type] loc]|]; [done|].
    intros Hno b' [[= ->]|?]%elem_of_cons ?; [tauto|by apply Hno]. }
  destruct (names c !! b_id b) as [name|] eqn:Hname; [|apply Hrest; left; intros (n & Hn & _); congruence].
  destruct (is_valid_crush_name (cstr name)) eqn:Hvalid; [|apply Hrest; left; intros (n & Hn & Hv); congruence].
  pose proof (wfb_items _ (wfm_bucket _ _ Hwf _ Hb)) as Hlen. replace (Z.to_nat (b_size b)) with (length (b_items b)) by lia.
  rewrite holds_item_eq. cbn [mbind outcome_bind]. case_bool_decide as Hin; [|by apply Hrest; right].
  destruct (Htypes b Hb) as [tn Htn]. rewrite Htn. cbn. exists b. split_and!; try done; [by exists name|].
  unfold crush_loc_of. by rewrite Htn, Hname.
Qed.

Lemma get_immediate_parent_wp id :
  wp (get_immediate_parent c id) (λ o,
    match o with
    | Some (p, type, loc) => ∃ b, map_bucket c b ∧ names_bucket c b ∧ id ∈ b_items b
        ∧ p = b_id b ∧ type = b_type b ∧ loc = crush_loc_of c b
    | None => ∀ b, map_bucket c b → names_bucket c b → id ∉ b_items b
    end).
Proof.
  unfold get_immediate_parent. rewrite <- (wfm_len _ _ Hwf), Nat2Z.id. eapply wp_mono; [apply immediate_parent_wp|].
  - intros b [i Hi]%list_elem_of_lookup. pose proof (wfm_id _ _ Hwf _ _ Hi) as Hid. split; [lia|].
    by replace (Z.to_nat (-1 - b_id b)) with i by lia.
  - intros [[[p type] loc]|]; [done|]. intros Hno b [_ Hb]. apply Hno. by eapply list_elem_of_lookup_2.
Qed.

(** The locality of an item: the type of the lowest bucket above it that is in [locs], or -1. *)
Inductive locality (locs : list crush_loc) : Z → Z → Prop :=
  | locality_none id : (∀ b, map_bucket c b → names_bucket c b → id ∉ b_items b) → locality locs id (-1)
  | locality_here id b :
      map_bucket c b → names_bucket c b → id ∈ b_items b →
      lookup_crush_loc locs (crush_loc_of c b) = true → locality locs id (b_type b)
  | locality_up id b type :
      map_bucket c b → names_bucket c b → id ∈ b_items b →
      lookup_crush_loc locs (crush_loc_of c b) = false → locality locs (b_id b) type → locality locs id type.

Lemma ceph_get_crush_locality_wp fuel map locs R id :
  om_crush map = Some c → (∀ b, map_bucket c b → (rank (b_id b) <= R)%nat) → (R + 1 < fuel)%nat →
  wp (ceph_get_crush_locality fuel map id locs) (locality locs id).
Proof.
  intros Hc HR Hfuel. unfold ceph_get_crush_locality. rewrite Hc. cbn [deref mbind outcome_bind].
  assert (Hup : ∀ b, map_bucket c b → id ∈ b_items b → (R - rank (b_id b) + 1 < fuel)%nat) by (intros; lia).
  assert (0 < fuel)%nat as Hpos by lia. clear Hfuel.
  revert id Hup Hpos. induction fuel as [|fuel IH]; intros id Hup Hpos; [lia|]. cbn [loop].
  apply wp_bind. unfold locality_step. apply wp_bind. eapply wp_mono; [apply get_immediate_parent_wp|].
  intros [[[p type] loc]|] Ho; [|by apply locality_none].
  destruct Ho as (b & Hb & Hn & Hin & -> & -> & ->). pose proof Hb as [Hneg _].
  rewrite Z.geb_leb, (proj2 (Z.leb_gt _ _)) by done.
  destruct (lookup_crush_loc locs (crush_loc_of c b)) eqn:El; [by apply (locality_here locs id b)|].
  specialize (Hup b Hb Hin). cbn [wp]. eapply wp_mono; [apply IH; [|lia]|intros x; by apply locality_up].
  intros b' Hb' Hin'. destruct (wfm_item _ _ Hwf _ _ Hb' Hin' Hneg) as [Hr _]. pose proof (HR b' Hb'). lia.
Qed.
End climb.
