(* ===== verification/OsdTarget.v ===== *)
(** * The target of an OSD request (libceph/osd_client.c, [calc_target])

    Which OSD a request goes to under the current map, and whether it has to be sent again
    because that, or the interval of its placement group, has changed. *)
From S2P Require Import Prelude Hash Crush Mapper Choose DoRule Workspace OsdMap Placement.
From S2P Require Import CrushLoc.

Definition CEPH_HOMELESS_OSD : Z := -1.

Definition CEPH_OSDMAP_FULL : Z := Z.shiftl 1 1.
Definition CEPH_OSDMAP_PAUSERD : Z := Z.shiftl 1 2.
Definition CEPH_OSDMAP_PAUSEWR : Z := Z.shiftl 1 3.
Definition CEPH_OSDMAP_SORTBITWISE : Z := Z.shiftl 1 15.
Definition CEPH_OSDMAP_RECOVERY_DELETES : Z := Z.shiftl 1 19.

Definition CEPH_OSD_FLAG_ONDISK : Z := 0x0004.
Definition CEPH_OSD_FLAG_RETRY : Z := 0x0008.
Definition CEPH_OSD_FLAG_READ : Z := 0x0010.
Definition CEPH_OSD_FLAG_WRITE : Z := 0x0020.
Definition CEPH_OSD_FLAG_BALANCE_READS : Z := 0x0100.
Definition CEPH_OSD_FLAG_LOCALIZE_READS : Z := 0x2000.
Definition CEPH_OSD_FLAG_IGNORE_CACHE : Z := 0x8000.
Definition CEPH_OSD_FLAG_IGNORE_OVERLAY : Z := 0x20000.
Definition CEPH_OSD_FLAG_REDIRECTED : Z := 0x200000.
Definition CEPH_OSD_FLAG_KNOWN_REDIR : Z := 0x400000.
Definition CEPH_OSD_FLAG_FULL_TRY : Z := 0x800000.
Definition CEPH_OSD_FLAG_FULL_FORCE : Z := 0x1000000.

Definition flagged (flags flag : Z) : bool := nonzero (Z.land flags flag).

(** ** The target *)

Record osd_target := OsdTarget {
  t_base_oid : list Z; t_base_oloc : ceph_object_locator;
  t_target_oid : list Z; t_target_oloc : ceph_object_locator;
  t_pgid : ceph_pg; t_spgid : ceph_spg; t_pg_num : Z; t_pg_num_mask : Z;
  t_acting : ceph_osds; t_up : ceph_osds; t_size : Z; t_min_size : Z;
  t_sort_bitwise : bool; t_recovery_deletes : bool;
  t_flags : Z; t_used_replica : bool; t_paused : bool;
  t_epoch : Z; t_last_force_resend : Z; t_osd : Z }.

(** On zeroed memory. *)
Definition target_init : osd_target :=
  let none := CephOsds (replicate 32 0) 0 (-1) in
  OsdTarget [] ceph_oloc_init [] ceph_oloc_init (CephPg 0 0) (CephSpg (CephPg 0 0) 0) 0 0
    none none (-1) (-1) false false 0 false false 0 0 CEPH_HOMELESS_OSD.

(** What a caller sets of a new request's target. *)
Definition caller_target (oid : list Z) (oloc : ceph_object_locator) (flags : Z) : osd_target :=
  OsdTarget oid oloc [] ceph_oloc_init (t_pgid target_init) (t_spgid target_init) 0 0 (t_acting target_init)
    (t_up target_init) (-1) (-1) false false flags false false 0 0 CEPH_HOMELESS_OSD.

Definition set_t_epoch (epoch : Z) (t : osd_target) : osd_target :=
  OsdTarget (t_base_oid t) (t_base_oloc t) (t_target_oid t) (t_target_oloc t) (t_pgid t) (t_spgid t)
    (t_pg_num t) (t_pg_num_mask t) (t_acting t) (t_up t) (t_size t) (t_min_size t) (t_sort_bitwise t)
    (t_recovery_deletes t) (t_flags t) (t_used_replica t) (t_paused t) epoch (t_last_force_resend t) (t_osd t).
Definition set_t_force (epoch : Z) (t : osd_target) : osd_target :=
  OsdTarget (t_base_oid t) (t_base_oloc t) (t_target_oid t) (t_target_oloc t) (t_pgid t) (t_spgid t)
    (t_pg_num t) (t_pg_num_mask t) (t_acting t) (t_up t) (t_size t) (t_min_size t) (t_sort_bitwise t)
    (t_recovery_deletes t) (t_flags t) (t_used_replica t) (t_paused t) (t_epoch t) epoch (t_osd t).
Definition set_t_osd (osd : Z) (used_replica : bool) (t : osd_target) : osd_target :=
  OsdTarget (t_base_oid t) (t_base_oloc t) (t_target_oid t) (t_target_oloc t) (t_pgid t) (t_spgid t)
    (t_pg_num t) (t_pg_num_mask t) (t_acting t) (t_up t) (t_size t) (t_min_size t) (t_sort_bitwise t)
    (t_recovery_deletes t) (t_flags t) used_replica (t_paused t) (t_epoch t) (t_last_force_resend t) osd.
Definition set_t_target (oid : list Z) (oloc : ceph_object_locator) (t : osd_target) : osd_target :=
  OsdTarget (t_base_oid t) (t_base_oloc t) oid oloc (t_pgid t) (t_spgid t)
    (t_pg_num t) (t_pg_num_mask t) (t_acting t) (t_up t) (t_size t) (t_min_size t) (t_sort_bitwise t)
    (t_recovery_deletes t) (t_flags t) (t_used_replica t) (t_paused t) (t_epoch t) (t_last_force_resend t) (t_osd t).
Definition set_t_paused (paused : bool) (t : osd_target) : osd_target :=
  OsdTarget (t_base_oid t) (t_base_oloc t) (t_target_oid t) (t_target_oloc t) (t_pgid t) (t_spgid t)
    (t_pg_num t) (t_pg_num_mask t) (t_acting t) (t_up t) (t_size t) (t_min_size t) (t_sort_bitwise t)
    (t_recovery_deletes t) (t_flags t) (t_used_replica t) paused (t_epoch t) (t_last_force_resend t) (t_osd t).
Definition set_t_flags (flags : Z) (t : osd_target) : osd_target :=
  OsdTarget (t_base_oid t) (t_base_oloc t) (t_target_oid t) (t_target_oloc t) (t_pgid t) (t_spgid t)
    (t_pg_num t) (t_pg_num_mask t) (t_acting t) (t_up t) (t_size t) (t_min_size t) (t_sort_bitwise t)
    (t_recovery_deletes t) flags (t_used_replica t) (t_paused t) (t_epoch t) (t_last_force_resend t) (t_osd t).
Definition set_t_pgid (pgid : ceph_pg) (t : osd_target) : osd_target :=
  OsdTarget (t_base_oid t) (t_base_oloc t) (t_target_oid t) (t_target_oloc t) pgid (t_spgid t)
    (t_pg_num t) (t_pg_num_mask t) (t_acting t) (t_up t) (t_size t) (t_min_size t) (t_sort_bitwise t)
    (t_recovery_deletes t) (t_flags t) (t_used_replica t) (t_paused t) (t_epoch t) (t_last_force_resend t) (t_osd t).

(** ** Pausing *)

Definition pool_is_full (pi : ceph_pg_pool_info) : bool := flagged (pi_flags pi) CEPH_POOL_FLAG_FULL.
Definition have_pool_full (map : ceph_osdmap) : bool :=
  existsb (λ kv : Z * ceph_pg_pool_info, pool_is_full kv.2) (rb_in_order (om_pg_pools map)).
Definition pool_full (map : ceph_osdmap) (pool_id : Z) : bool :=
  match ceph_pg_pool_by_id map (u64 pool_id) with Some pi => pool_is_full pi | None => false end.

Definition target_should_be_paused (map : ceph_osdmap) (epoch_barrier : Z) (t : osd_target)
    (pi : ceph_pg_pool_info) : bool :=
  let pauserd := flagged (om_flags map) CEPH_OSDMAP_PAUSERD in
  let pausewr := flagged (om_flags map) CEPH_OSDMAP_PAUSEWR || flagged (om_flags map) CEPH_OSDMAP_FULL
                 || pool_is_full pi in
  flagged (t_flags t) CEPH_OSD_FLAG_READ && pauserd
  || flagged (t_flags t) CEPH_OSD_FLAG_WRITE && pausewr
  || (om_epoch map <? epoch_barrier).

(** ** Choosing a replica *)

(** [random] is what [prandom_u32] returns. *)
Definition pick_random_replica (random : Z) (acting : ceph_osds) : outcome Z :=
  if os_size acting =? 0 then Undef else Ret (random mod os_size acting).

Definition closest_step (locality : Z → outcome Z) (acting : ceph_osds) (s : Z * Z * Z)
    : outcome (Z * Z * Z + Z) :=
  let '(i, best_i, best_locality) := s in
  osd ← aget (osds acting) i;
  l ← locality osd;
  let better := (i =? 0) || (l >=? 0) && (best_locality <? 0)
                || (l >=? 0) && (best_locality >=? 0) && (l <? best_locality) in
  let best_i := if better then i else best_i in
  let best_locality := if better then l else best_locality in
  if i + 1 <? os_size acting then Ret (inl (i + 1, best_i, best_locality)) else Ret (inr best_i).
Definition pick_closest_replica (fuel : nat) (map : ceph_osdmap) (locs : list crush_loc)
    (acting : ceph_osds) : outcome Z :=
  loop (Z.to_nat (os_size acting) + 1)
    (closest_step (λ osd, ceph_get_crush_locality fuel map osd locs) acting) (0, 0, 0).

(** ** [calc_target] *)

Inductive calc_target_result :=
  | CALC_TARGET_NO_ACTION
  | CALC_TARGET_NEED_RESEND
  | CALC_TARGET_POOL_DNE.
#[export] Instance calc_target_result_eq_dec : EqDecision calc_target_result.
Proof. solve_decision. Defined.

(** What a call finds in memory that it did not put there: the scratch vectors, the two sets on
    its stack, the workspace it gets; and a random number. *)
Record calc_env := CalcEnv {
  ce_scratch : Z → Z; ce_up : ceph_osds; ce_acting : ceph_osds; ce_work : crush_work; ce_random : Z }.

(** Whether the pool asks for everything to be sent again. *)
Definition force_resend_check (map : ceph_osdmap) (pi : ceph_pg_pool_info) (t : osd_target)
    : osd_target * bool :=
  let last := pi_last_force_request_resend pi in
  if om_epoch map =? last then
    if t_last_force_resend t <? last then (set_t_force last t, true)
    else (t, t_last_force_resend t =? 0)
  else (t, false).

(** The pool of the object, or the tier in front of it for the operation. *)
Definition tier_pool (pi : ceph_pg_pool_info) (t : osd_target) : Z :=
  let pool := oloc_pool (t_base_oloc t) in
  let pool := if flagged (t_flags t) CEPH_OSD_FLAG_READ && (pi_read_tier pi >=? 0) then pi_read_tier pi else pool in
  if flagged (t_flags t) CEPH_OSD_FLAG_WRITE && (pi_write_tier pi >=? 0) then pi_write_tier pi else pool.
Definition apply_tiering (map : ceph_osdmap) (pi : ceph_pg_pool_info) (t : osd_target)
    : osd_target * option ceph_pg_pool_info :=
  let t := set_t_target (t_base_oid t) (t_base_oloc t) t in
  if negb (flagged (t_flags t) CEPH_OSD_FLAG_IGNORE_OVERLAY) then
    let pool := tier_pool pi t in
    (set_t_target (t_target_oid t) (CephObjectLocator pool (oloc_pool_ns (t_target_oloc t))) t,
     ceph_pg_pool_by_id map (u64 pool))
  else (t, Some pi).

(** The mapping is the new one. *)
Definition set_t_mapping (pi : ceph_pg_pool_info) (pgid : ceph_pg) (spgid : ceph_spg)
    (acting up : ceph_osds) (sort_bitwise recovery_deletes : bool) (t : osd_target) : osd_target :=
  OsdTarget (t_base_oid t) (t_base_oloc t) (t_target_oid t) (t_target_oloc t) pgid spgid
    (pi_pg_num pi) (pi_pg_num_mask pi) acting up (pi_size pi) (pi_min_size pi) sort_bitwise
    recovery_deletes (t_flags t) (t_used_replica t) (t_paused t) (t_epoch t) (t_last_force_resend t) (t_osd t).

Section calc.
Context (fuel : nat) (env : calc_env) (map : ceph_osdmap) (epoch_barrier : Z) (locs : list crush_loc).

(** The primary, or a replica for reads that may go to one. *)
Definition choose_osd (pi : ceph_pg_pool_info) (acting : ceph_osds) (t : osd_target) : outcome osd_target :=
  if flagged (t_flags t) (Z.lor CEPH_OSD_FLAG_BALANCE_READS CEPH_OSD_FLAG_LOCALIZE_READS)
     && negb (flagged (t_flags t) CEPH_OSD_FLAG_WRITE) && (pi_type pi =? CEPH_POOL_TYPE_REP)
     && (os_size acting >? 1) then
    pos ← (if flagged (t_flags t) CEPH_OSD_FLAG_BALANCE_READS
           then pick_random_replica (ce_random env) acting
           else pick_closest_replica fuel map locs acting);
    osd ← aget (osds acting) pos;
    Ret (set_t_osd osd (pos >? 0) t)
  else Ret (set_t_osd (os_primary acting) false t).

(** From the hashing on: the pool is the one the object is in. *)
Definition calc_mapping (pi : ceph_pg_pool_info) (force_resend any_change : bool) (t : osd_target)
    : outcome (osd_target * calc_target_result) :=
  let sort_bitwise := flagged (om_flags map) CEPH_OSDMAP_SORTBITWISE in
  let recovery_deletes := flagged (om_flags map) CEPH_OSDMAP_RECOVERY_DELETES in
  pgid ← object_locator_to_pg pi (t_target_oid t) (t_target_oloc t);
  let last_pgid := CephPg (pg_pool pgid)
    (u32 (ceph_stable_mod (s32 (pg_seed pgid)) (s32 (t_pg_num t)) (s32 (t_pg_num_mask t)))) in
  '(up, acting, work, _) ← ceph_pg_to_up_acting_osds fuel (ce_scratch env) map pi pgid (ce_up env) (ce_acting env)
                             (ce_work env);
  new ← (if any_change : bool then
           ceph_is_new_interval fuel (t_acting t) acting (t_up t) up (t_size t) (pi_size pi) (t_min_size t)
             (pi_min_size pi) (t_pg_num t) (pi_pg_num pi) (t_sort_bitwise t) sort_bitwise
             (t_recovery_deletes t) recovery_deletes last_pgid
         else Ret false);
  let force_resend := force_resend || new in
  let unpaused := t_paused t && negb (target_should_be_paused map epoch_barrier t pi) in
  let t := if unpaused then set_t_paused false t else t in
  legacy_change ← (if nonzero (ceph_pg_compare (t_pgid t) pgid) then Ret true
                   else ceph_osds_changed (t_acting t) acting (t_used_replica t || any_change));
  split ← (if nonzero (t_pg_num t) then ceph_pg_is_split fuel last_pgid (t_pg_num t) (pi_pg_num pi)
           else Ret false);
  t ← (if legacy_change || force_resend || split then
         '(o, _) ← ceph_pg_to_primary_shard fuel (ce_scratch env) map pi pgid (ce_up env) (ce_acting env) work;
         acting' ← ceph_osds_copy (t_acting t) acting;
         up' ← ceph_osds_copy (t_up t) up;
         choose_osd pi acting
           (set_t_mapping pi pgid (default (t_spgid t) o) acting' up' sort_bitwise recovery_deletes t)
       else Ret t);
  Ret (t, if unpaused || legacy_change || force_resend || split
          then CALC_TARGET_NEED_RESEND else CALC_TARGET_NO_ACTION).

Definition calc_target (t : osd_target) (any_change : bool) : outcome (osd_target * calc_target_result) :=
  let t := set_t_epoch (om_epoch map) t in
  match ceph_pg_pool_by_id map (u64 (oloc_pool (t_base_oloc t))) with
  | None => Ret (set_t_osd CEPH_HOMELESS_OSD (t_used_replica t) t, CALC_TARGET_POOL_DNE)
  | Some pi =>
      let '(t, force_resend) := force_resend_check map pi t in
      let '(t, o) := apply_tiering map pi t in
      match o with
      | None => Ret (set_t_osd CEPH_HOMELESS_OSD (t_used_replica t) t, CALC_TARGET_POOL_DNE)
      | Some pi => calc_mapping pi force_resend any_change t
      end
  end.
End calc.

(** ** Sets that change *)

Section sets.
Implicit Types (s old new : ceph_osds).

Lemma visible_nil s : osds_ok s → (visible s = [] ↔ os_size s = 0).
Proof.
  intros Hs. pose proof (length_visible s Hs) as Hl. split.
  - intros Hv. rewrite Hv in Hl. simpl in Hl. lia.
  - intros H0. apply length_zero_iff_nil. lia.
Qed.

Lemma visible_aget s i : osds_ok s → 0 <= i < os_size s → ∃ x, aget (osds s) i = Ret x ∧ visible s !! Z.to_nat i = Some x.
Proof.
  intros [Hl Hs] Hi. destruct (lookup_lt_is_Some_2 (osds s) (Z.to_nat i)) as [x Hx]; [unfold CEPH_PG_MAX_SIZE in *; lia|].
  exists x. split; [by apply aget_Some; [lia|]|]. by rewrite visible_lookup by lia.
Qed.

Lemma calc_pg_rank_wp osd s : osds_ok s → wp (calc_pg_rank osd s) (λ _, True).
Proof.
  intros Hs. pose proof Hs as [_ Hsz]. unfold calc_pg_rank.
  apply (wp_loop (λ i, 0 <= i) (λ i, Z.to_nat (os_size s - i))); [|lia|lia].
  intros i Hi. unfold pg_rank_step. destruct (Z.ltb_spec i (os_size s)); [|done].
  destruct (visible_aget s i) as (x & -> & _); [done|lia|]. cbn [mbind outcome_bind].
  destruct (x =? osd); [done|]. split; lia.
Qed.

Lemma ceph_osds_changed_wp old new any :
  osds_ok old → osds_ok new →
  wp (ceph_osds_changed old new any) (λ b, b = false →
    ((visible old = [] ∧ visible new = []) ∨ os_primary old = os_primary new) ∧
    (any = true → visible old = visible new)).
Proof.
  intros Ho Hn. unfold ceph_osds_changed. apply wp_bind.
  eapply (wp_mono _ (λ b, b = false → (visible old = [] ∧ visible new = []) ∨ os_primary old = os_primary new)).
  - unfold primary_changed. destruct (Z.eqb_spec (os_size old) 0), (Z.eqb_spec (os_size new) 0); cbn [andb xorb]; [|done..|].
    { intros _. left. by rewrite !visible_nil. }
    destruct (Z.eqb_spec (os_primary old) (os_primary new)); cbn [negb]; [|done].
    apply wp_bind. eapply wp_mono; [by apply calc_pg_rank_wp|]. intros r _.
    apply wp_bind. eapply wp_mono; [by apply calc_pg_rank_wp|]. intros r' _. by right.
  - intros [] Hp; [done|]. destruct any; [|by split; [apply Hp|]]. apply wp_bind.
    eapply wp_mono; [by apply osds_equal_raw_wp|]. intros e He. cbn [wp]. intros Hb. apply negb_false_iff in Hb.
    split; [by apply Hp|]. intros _. by apply He.
Qed.
End sets.

(** ** Maps a client can have *)

(** Every pool can be placed with the given fuel: its masks are computed from its numbers of groups,
    its tiers exist, CRUSH can be run and has no cycle, the exceptions fit an OSD set, and an
    OSD that is made primary temporarily is up, of a group with a temporary set, and the
    first one if the group is replicated. *)
Record map_ok (fuel : nat) (map : ceph_osdmap) : Prop := {
  mk_crush : ∃ c rank R, om_crush map = Some c ∧ wf_map c rank ∧ types_named c
    ∧ (∀ b, map_bucket c b → (rank (b_id b) <= R)%nat) ∧ (R + 1 < fuel)%nat
    ∧ ∀ id pi, om_pg_pools map !! id = Some pi → ∃ T L, crush_ok map pi c rank fuel T L;
  mk_pools : ∀ id pi, om_pg_pools map !! id = Some pi →
    pool_masks_ok pi ∧ (∀ pgid, placement_ok map pi pgid) ∧ (Z.to_nat (pi_pg_num pi) + 1 < fuel)%nat
    ∧ (0 <= pi_read_tier pi → is_Some (om_pg_pools map !! s64 (u64 (pi_read_tier pi))))
    ∧ (0 <= pi_write_tier pi → is_Some (om_pg_pools map !! s64 (u64 (pi_write_tier pi))));
  mk_temp : ∀ pgid osd, om_primary_temp map !! pgid = Some osd → osd_up map osd = true
    ∧ default [] (om_pg_temp map !! pgid) ≠ []
    ∧ ∀ pi, om_pg_pools map !! s64 (pg_pool pgid) = Some pi → can_shift pi = true →
        head (keep true (osd_up map) (default [] (om_pg_temp map !! pgid))) = Some osd }.

Record env_ok (map : ceph_osdmap) (env : calc_env) : Prop := {
  ek_up : fresh_osds (ce_up env);
  ek_acting : fresh_osds (ce_acting env);
  ek_work : ∀ c, om_crush map = Some c → wf_work c (ce_work env) }.

(** The sets placement gives for a group, whatever the workspace held. *)
Definition placed (fuel : nat) (map : ceph_osdmap) (pi : ceph_pg_pool_info) (pgid : ceph_pg)
    (up acting : ceph_osds) : Prop :=
  ∃ env work warn, env_ok map env ∧
    ceph_pg_to_up_acting_osds fuel (ce_scratch env) map pi pgid (ce_up env) (ce_acting env) (ce_work env)
      = Ret (up, acting, work, warn).

(** An acting set whose members and primary are up, of a replicated group with the primary first. *)
Definition all_up (map : ceph_osdmap) (pi : ceph_pg_pool_info) (l : list Z) (p : Z) : Prop :=
  Forall (λ x, osd_up map x = true ∨ (can_shift pi = false ∧ x = CRUSH_ITEM_NONE)) l
  ∧ (p = -1 ∨ osd_up map p = true) ∧ (l = [] → p = -1) ∧ (can_shift pi = true → l ≠ [] → head l = Some p).

Section placed.
Context (fuel : nat) (map : ceph_osdmap) (Hmap : map_ok fuel map) (pgid : ceph_pg).
Context (pi : ceph_pg_pool_info) (Hpi : om_pg_pools map !! s64 (pg_pool pgid) = Some pi).

Lemma pool_ok : pool_masks_ok pi ∧ (∀ pgid, placement_ok map pi pgid) ∧ (Z.to_nat (pi_pg_num pi) + 1 < fuel)%nat.
Proof. destruct (mk_pools _ _ Hmap _ pi Hpi) as (? & ? & ? & _). done. Qed.

Lemma pool_crush : ∃ c rank T L, om_crush map = Some c ∧ crush_ok map pi c rank fuel T L.
Proof.
  destruct (mk_crush _ _ Hmap) as (c & rank & R & Hc & _ & _ & _ & _ & H).
  destruct (H _ pi Hpi) as (T & L & Hok). by exists c, rank, T, L.
Qed.

Lemma placement_ref_all_up raw :
  let '(_, (l, p)) := placement_ref map pi (raw_pg_to_pg pi pgid) (raw_pg_to_pps pi pgid) raw in all_up map pi l p.
Proof.
  destruct pool_crush as (c & rank & T & L & _ & Hcrush). destruct pool_ok as (_ & Hpl & _). specialize (Hpl (raw_pg_to_pg pi pgid)).
  pose proof (placement_ref_served map pi pgid Hpl raw) as Hs.
  unfold placement_ref in *. cbv zeta in *. destruct (affinity_ref _ _ _ _ _) as [up upp]. destruct Hs as [[Hup Hp Hhead] _].
  pose proof Hpl as [Hwf Hmax _ _ _]. unfold all_up. assert (Hupp : upp = -1 ∨ osd_up map upp = true) by (destruct Hp as [[-> _]|[_ ?]]; auto).
  unfold temp_ref. cbn [fst snd]. set (pg := raw_pg_to_pg pi pgid). set (t := default [] (om_pg_temp map !! pg)).
  pose proof (served_keep map (can_shift pi) t) as [Hk Hkp Hkh].
  destruct (om_primary_temp map !! pg) as [y|] eqn:Ey; cbn [default from_option id].
  - destruct (mk_temp _ _ Hmap pg y Ey) as (Hy & Hne & Hyh). fold t in Hne, Hyh. specialize (Hyh pi Hpi).
    destruct (keep (can_shift pi) (osd_up map) t) as [|x l] eqn:E.
    + exfalso. destruct (can_shift pi); [rewrite E in Hyh; by specialize (Hyh eq_refl)|]. by apply fmap_nil_inv in E.
    + split_and!; [done|by right|done|]. intros Hsh _. rewrite <- E, Hsh. by apply Hyh.
  - rewrite first_osd_keep by done. destruct (keep (can_shift pi) (osd_up map) t) as [|x l] eqn:E.
    + destruct Hkp as [[-> _]|[[]%not_elem_of_nil _]]. split_and!; try done. intros ->. destruct Hp as [[-> _]|[[]%not_elem_of_nil _]]; done.
    + split_and!; [done|destruct Hkp as [[-> _]|[_ ?]]; auto|done|done].
Qed.

Lemma up_acting_ok env :
  env_ok map env →
  wp (ceph_pg_to_up_acting_osds fuel (ce_scratch env) map pi pgid (ce_up env) (ce_acting env) (ce_work env))
    (λ '(up, acting, work, _), osds_ok up ∧ osds_ok acting ∧ placed fuel map pi pgid up acting
       ∧ (∀ c, om_crush map = Some c → wf_work c work) ∧ all_up map pi (visible acting) (os_primary acting)).
Proof.
  intros Henv. pose proof Henv as [Hup Hac Hwork]. destruct pool_crush as (c & rank & T & L & Hc & Hcrush).
  destruct pool_ok as (_ & Hpl & _).
  pose proof (up_acting_wp fuel (ce_scratch env) map pi c rank T L pgid Hcrush (Hpl _) (ce_up env) (ce_acting env) (ce_work env)
    (Hwork c Hc) Hup Hac) as H.
  apply wp_exists in H as ([[[up acting] work] warn] & Heq & raw & _ & Hu & Ha & Hw & Hpl' & _). rewrite Heq. cbn [wp].
  pose proof (placement_ref_all_up (visible raw)) as Hserved. rewrite <- Hpl' in Hserved.
  split_and!; try done. { by exists env, work, warn. } intros c' Hc'. by replace c' with c by congruence.
Qed.
End placed.

(** ** What [calc_target] does *)

(** The OSD is the primary of the acting set, or one of its members for a read that may go to
    a replica. *)
Definition assigned (t : osd_target) : Prop :=
  if t_used_replica t then t_osd t ∈ visible (t_acting t) ∧ t_osd t ≠ CRUSH_ITEM_NONE
  else t_osd t = os_primary (t_acting t).

(** A read that may go to a replica. *)
Definition replica_read (t : osd_target) : Prop :=
  flagged (t_flags t) (Z.lor CEPH_OSD_FLAG_BALANCE_READS CEPH_OSD_FLAG_LOCALIZE_READS) = true ∧
  flagged (t_flags t) CEPH_OSD_FLAG_WRITE = false.

(** Never computed, or computed for a pool. *)
Record target_wf (t : osd_target) : Prop := {
  tw_acting : osds_ok (t_acting t);
  tw_up : osds_ok (t_up t);
  tw_empty : visible (t_acting t) = [] → os_primary (t_acting t) = -1;
  tw_pg_num : (t_pg_num t = 0 ∧ t_pg_num_mask t = 0 ∧ t_size t = -1)
              ∨ (0 < t_pg_num t < 2 ^ 31 ∧ t_pg_num_mask t = pg_mask (t_pg_num t)) }.

(** The part of a target that an OSD sees. *)
Definition mapping (t : osd_target) : ceph_pg * ceph_spg * (list Z * Z) * bool * Z :=
  (t_pgid t, t_spgid t, (visible (t_acting t), os_primary (t_acting t)), t_used_replica t, t_osd t).
(** What a caller has set. *)
Definition wanted (t : osd_target) : list Z * ceph_object_locator * Z := (t_base_oid t, t_base_oloc t, t_flags t).

(** The target is where the map places the object: the group is the one the object is in, and
    the OSD is the primary (-1 of a group without OSDs) or, for a read, a member of the acting set. *)
Definition serves (fuel : nat) (map : ceph_osdmap) (pi : ceph_pg_pool_info) (oloc : ceph_object_locator) (t : osd_target) : Prop :=
  ∃ up acting, object_locator_to_pg pi (t_base_oid t) oloc = Ret (t_pgid t) ∧ placed fuel map pi (t_pgid t) up acting ∧
    if t_used_replica t then visible (t_acting t) = visible acting ∧ t_osd t ∈ visible acting
    else t_osd t = os_primary acting.
Definition target_pool (pi0 : ceph_pg_pool_info) (t : osd_target) : Z :=
  if flagged (t_flags t) CEPH_OSD_FLAG_IGNORE_OVERLAY then oloc_pool (t_base_oloc t) else tier_pool pi0 t.
Definition routed (fuel : nat) (map : ceph_osdmap) (t : osd_target) : Prop :=
  match ceph_pg_pool_by_id map (u64 (oloc_pool (t_base_oloc t))) with
  | None => t_osd t = CEPH_HOMELESS_OSD
  | Some pi0 => ∃ pi, ceph_pg_pool_by_id map (u64 (target_pool pi0 t)) = Some pi ∧
      serves fuel map pi (CephObjectLocator (target_pool pi0 t) (oloc_pool_ns (t_base_oloc t))) t
  end.
(** The flags of the map, the barrier or a full pool hold the request back. *)
Definition held (map : ceph_osdmap) (epoch_barrier : Z) (t : osd_target) : Prop :=
  ∀ pi0 pi, ceph_pg_pool_by_id map (u64 (oloc_pool (t_base_oloc t))) = Some pi0 →
    ceph_pg_pool_by_id map (u64 (target_pool pi0 t)) = Some pi → target_should_be_paused map epoch_barrier t pi = true.

Section calc_wp.
Context (fuel : nat) (map : ceph_osdmap) (Hmap : map_ok fuel map) (env : calc_env) (Henv : env_ok map env).
Context (epoch_barrier : Z) (locs : list crush_loc).

Lemma pick_closest_replica_wp acting :
  osds_ok acting → 0 < os_size acting →
  wp (pick_closest_replica fuel map locs acting) (λ pos, 0 <= pos < os_size acting).
Proof.
  intros Ha Hpos. unfold pick_closest_replica.
  destruct (mk_crush _ _ Hmap) as (c & rank & R & Hc & Hwf & Htypes & HR & Hfuel & _).
  apply (wp_loop (λ s : Z * Z * Z, 0 <= s.1.1 < os_size acting ∧ (s.1.1 = 0 ∨ 0 <= s.1.2 < os_size acting))
    (λ s, Z.to_nat (os_size acting - s.1.1))); [|simpl; lia|simpl; lia].
  intros [[i bi] bl] [Hi Hb]. simpl in Hi, Hb. unfold closest_step.
  destruct (visible_aget acting i Ha Hi) as (osd & -> & _). cbn [mbind outcome_bind]. apply wp_bind.
  eapply wp_mono; [by eapply (ceph_get_crush_locality_wp c rank Hwf Htypes fuel map locs R osd)|]. intros l _. cbv zeta.
  set (b := _ || _). assert (Hbi : 0 <= (if b then i else bi) < os_size acting).
  { subst b. destruct (Z.eqb_spec i 0); cbn [orb]; [lia|]. destruct Hb; [lia|]. destruct (_ || _); lia. }
  destruct (Z.ltb_spec (i + 1) (os_size acting)); cbn [wp fst snd]; [split; [split|]; lia|done].
Qed.

Lemma choose_osd_wp id pi acting t (Hpi : om_pg_pools map !! id = Some pi) :
  osds_ok acting → all_up map pi (visible acting) (os_primary acting) →
  wp (choose_osd fuel env map locs pi acting t) (λ t', ∃ osd used, t' = set_t_osd osd used t ∧
    (used = true → replica_read t) ∧
    if used : bool then osd ∈ visible acting ∧ osd ≠ CRUSH_ITEM_NONE else osd = os_primary acting).
Proof.
  intros Ha (Hup & Hp & _ & Hfirst). unfold choose_osd. destruct (_ && _) eqn:E; [|exists (os_primary acting), false; by split].
  apply andb_true_iff in E as [[[Hfl Hwr]%andb_true_iff Hrep]%andb_true_iff Hsize]. apply negb_true_iff in Hwr. rewrite Z.gtb_ltb in Hsize. apply Z.ltb_lt in Hsize.
  apply wp_bind. eapply (wp_mono _ (λ pos, 0 <= pos < os_size acting)).
  - destruct (flagged _ CEPH_OSD_FLAG_BALANCE_READS).
    + unfold pick_random_replica. rewrite (proj2 (Z.eqb_neq _ _)) by lia. apply Z.mod_pos_bound. lia.
    + apply pick_closest_replica_wp; [done|lia].
  - intros pos Hpos. destruct (visible_aget acting pos Ha Hpos) as (osd & -> & Hosd). cbn [mbind outcome_bind wp].
    exists osd, (pos >? 0). split; [done|]. split; [intros _; by split|]. rewrite Z.gtb_ltb. destruct (Z.ltb_spec 0 pos).
    { apply list_elem_of_lookup_2 in Hosd. split; [done|]. rewrite Forall_forall in Hup. destruct (Hup osd Hosd) as [Hu|[Hsh _]]; [|by unfold can_shift in Hsh; congruence].
      destruct (mk_pools _ _ Hmap _ _ Hpi) as (_ & Hpl & _). destruct (Hpl (CephPg 0 0)). by eapply osd_up_not_none. }
    replace (Z.to_nat pos) with 0%nat in Hosd by lia. destruct (visible acting) as [|x l]; [done|].
    injection Hosd as ->. by injection (Hfirst Hrep ltac:(done)).
Qed.

(** The parts of a step: the group of a name, and the group under the old number of groups. *)
Lemma object_locator_to_pg_Ret pi name oloc :
  ∃ pg, object_locator_to_pg pi name oloc = Ret pg ∧ pg_pool pg = u64 (oloc_pool oloc).
Proof.
  unfold object_locator_to_pg. destruct (oloc_pool_ns oloc) as [ns|]; cbv zeta.
  - replace (Z.of_nat (length ns) + 1 + Z.of_nat (length name))
      with (Z.of_nat (length (ns ++ [NS_SEPARATOR] ++ name))) by (rewrite !length_app; simpl; lia).
    rewrite ceph_str_hash_eq. cbn [mbind outcome_bind]. by eexists.
  - rewrite ceph_str_hash_eq. cbn [mbind outcome_bind]. by eexists.
Qed.

Lemma last_seed_range seed n :
  0 < n < 2 ^ 31 → 0 <= u32 (ceph_stable_mod (s32 seed) (s32 n) (s32 (pg_mask n))) < n.
Proof.
  intros Hn. assert (0 <= pg_mask n < 2 ^ 31) as Hm.
  { unfold pg_mask. pose proof (nbits_nonneg (n - 1)). pose proof (nbits_lt (n - 1) 31 ltac:(lia) ltac:(lia)).
    pose proof (Z.pow_le_mono_r 2 (nbits (n - 1)) 31). pose proof (Z.pow_pos_nonneg 2 (nbits (n - 1))). lia. }
  rewrite (s32_small n), (s32_small (pg_mask n)) by lia. fold (stable_mod (s32 seed) n). rewrite stable_mod_s32 by lia.
  pose proof (stable_mod_range seed n ltac:(lia)). rewrite u32_small; lia.
Qed.

Lemma new_interval_wp old_acting acting old_up up old_size size old_min min old_num num os ns od nd pgid :
  osds_ok old_acting → osds_ok acting → osds_ok old_up → osds_ok up → 0 < num < 2 ^ 31 → (Z.to_nat num + 1 < fuel)%nat →
  (0 < old_num < 2 ^ 31 ∧ 0 <= pg_seed pgid < old_num) ∨ old_size ≠ size →
  wp (ceph_is_new_interval fuel old_acting acting old_up up old_size size old_min min old_num num os ns od nd pgid) (λ _, True).
Proof.
  intros H1 H2 H3 H4 Hnum Hfuel Hold. unfold ceph_is_new_interval.
  apply wp_bind. eapply wp_mono; [by apply osds_equal_wp|]. intros [] _; cbn [negb wp]; [|done].
  apply wp_bind. eapply wp_mono; [by apply osds_equal_wp|]. intros [] _; cbn [negb wp]; [|done].
  destruct (Z.eqb_spec old_size size) as [->|]; cbn [negb wp]; [|done].
  destruct (old_min =? min); cbn [negb wp]; [|done]. destruct Hold as [[Ho Hs]|?]; [|done].
  apply wp_bind. eapply wp_mono; [by apply ceph_pg_is_split_wp|]. by intros [] _.
Qed.

(** What [calc_mapping] leaves of a target, and of which it makes another. *)
Record mapped (pi : ceph_pg_pool_info) (t t' : osd_target) (res : calc_target_result) : Prop := {
  md_wf : target_wf t';
  md_assigned : assigned t';
  md_same : wanted t' = wanted t ∧ t_target_oid t' = t_target_oid t ∧ t_target_oloc t' = t_target_oloc t ∧ t_epoch t' = t_epoch t;
  md_place : ∃ up acting, object_locator_to_pg pi (t_target_oid t) (t_target_oloc t) = Ret (t_pgid t')
    ∧ placed fuel map pi (t_pgid t') up acting
    ∧ if t_used_replica t' then visible (t_acting t') = visible acting ∧ t_osd t' ∈ visible acting
      else t_osd t' = os_primary acting;
  md_up : t_osd t' = CEPH_HOMELESS_OSD ∨ osd_up map (t_osd t') = true;
  md_paused : t_paused t' = t_paused t && target_should_be_paused map epoch_barrier t pi;
  md_replica : t_used_replica t' = true → t_used_replica t = true ∨ replica_read t';
  md_result : res ≠ CALC_TARGET_POOL_DNE ∧ (res = CALC_TARGET_NO_ACTION → mapping t' = mapping t ∧ t_paused t' = t_paused t) }.

(** The mapping is kept. *)
Lemma mapped_kept pi pgid up acting t t1 res :
  om_pg_pools map !! s64 (pg_pool pgid) = Some pi →
  object_locator_to_pg pi (t_target_oid t) (t_target_oloc t) = Ret pgid → t_pgid t = pgid → placed fuel map pi pgid up acting →
  all_up map pi (visible acting) (os_primary acting) → target_wf t → assigned t → osds_ok acting →
  ((visible (t_acting t) = [] ∧ visible acting = []) ∨ os_primary (t_acting t) = os_primary acting) →
  (t_used_replica t = true → visible (t_acting t) = visible acting) →
  t1 = (if t_paused t && negb (target_should_be_paused map epoch_barrier t pi) then set_t_paused false t else t) →
  res ≠ CALC_TARGET_POOL_DNE → (res = CALC_TARGET_NO_ACTION → t1 = t) →
  mapped pi t t1 res.
Proof.
  intros Hpi Hloc Hpg Hpl (Hup & Hp & Hempty & _) Hwf Has Hac Hprim Hrep Ht1 Hres Hno.
  assert (Hone : os_primary (t_acting t) = os_primary acting).
  { destruct Hprim as [[H1 H2]|]; [|done]. by rewrite (tw_empty _ Hwf H1), (Hempty H2). }
  assert (H : wanted t1 = wanted t ∧ t_target_oid t1 = t_target_oid t ∧ t_target_oloc t1 = t_target_oloc t ∧ t_epoch t1 = t_epoch t
    ∧ mapping t1 = mapping t ∧ t_acting t1 = t_acting t ∧ target_wf t1
    ∧ t_paused t1 = t_paused t && target_should_be_paused map epoch_barrier t pi).
  { rewrite Ht1. destruct (t_paused t) eqn:E, (target_should_be_paused _ _ _ _); cbn [andb negb]; split_and!; try done.
    destruct Hwf. by split. }
  destruct H as (Hw & Ho & Hl & He & Hm & Ha & Hwf1 & Hpa). injection Hm as Hpg1 Hspg Hv1 Hv2 Hu Hosd.
  assert (Has1 : assigned t1) by (unfold assigned in *; by rewrite Hu, Hosd, Ha).
  split; try done.
  - rewrite Hpg1, Hpg, Hu. exists up, acting. split_and!; try done. unfold assigned in Has.
    destruct (t_used_replica t) eqn:E; rewrite ?Ha, Hosd; [rewrite <- (Hrep eq_refl); by destruct Has|congruence].
  - rewrite Hosd. unfold assigned in Has. destruct (t_used_replica t) eqn:E; [|rewrite Has, Hone; exact Hp].
    destruct Has as [Hin Hne]. rewrite (Hrep eq_refl) in Hin. rewrite Forall_forall in Hup. destruct (Hup _ Hin) as [?|[_ ?]]; [by right|done].
  - intros Hu1. left. congruence.
  - split; [done|]. intros Hr. by rewrite (Hno Hr).
Qed.

(** It is the new one. *)
Lemma mapped_new pi pgid up acting acting' up' spgid sort del osd used t :
  om_pg_pools map !! s64 (pg_pool pgid) = Some pi →
  object_locator_to_pg pi (t_target_oid t) (t_target_oloc t) = Ret pgid → placed fuel map pi pgid up acting →
  all_up map pi (visible acting) (os_primary acting) → osds_ok acting' → osds_ok up' →
  visible acting' = visible acting → os_primary acting' = os_primary acting →
  (if used : bool then osd ∈ visible acting ∧ osd ≠ CRUSH_ITEM_NONE else osd = os_primary acting) →
  (used = true → replica_read t) →
  mapped pi t (set_t_osd osd used (set_t_mapping pi pgid spgid acting' up' sort del
    (if t_paused t && negb (target_should_be_paused map epoch_barrier t pi) then set_t_paused false t else t))) CALC_TARGET_NEED_RESEND.
Proof.
  intros Hpi Hloc Hpl (Hup & Hp & Hempty & _) Hac' Hup' Hv Hpr Hosd Hrep.
  destruct (pool_ok fuel map Hmap pgid pi Hpi) as ((Hn & Hn31 & Hmask & _) & _ & _).
  set (b := _ && _). split.
  - split; cbn; [done..| |right; split; [lia|done]]. rewrite Hv, Hpr. apply Hempty.
  - unfold assigned. cbn. rewrite Hv, Hpr. by destruct used.
  - unfold wanted. by destruct b.
  - exists up, acting. cbn. split_and!; [done..|]. destruct used; [|done]. by destruct Hosd.
  - cbn. destruct used; [|rewrite Hosd; exact Hp]. destruct Hosd as [Hin Hne]. rewrite Forall_forall in Hup.
    destruct (Hup _ Hin) as [?|[_ ?]]; [by right|done].
  - subst b. cbn. by destruct (t_paused t) eqn:E, (target_should_be_paused map epoch_barrier t pi); cbn.
  - intros Hu. right. unfold replica_read in *. destruct b; by apply Hrep.
  - done.
Qed.

Lemma ceph_pg_compare_0 a b : nonzero (ceph_pg_compare a b) = false → a = b.
Proof.
  destruct a as [p1 s1], b as [p2 s2]. unfold ceph_pg_compare, nonzero. cbn. split_compare; try done. intros _. f_equal; lia.
Qed.

Lemma primary_shard_ok pgid pi work :
  om_pg_pools map !! s64 (pg_pool pgid) = Some pi → (∀ c, om_crush map = Some c → wf_work c work) →
  wp (ceph_pg_to_primary_shard fuel (ce_scratch env) map pi pgid (ce_up env) (ce_acting env) work) (λ _, True).
Proof.
  intros Hpi Hwork. destruct (pool_ok fuel map Hmap pgid pi Hpi) as (_ & Hpl & _). destruct (Hpl pgid) as [_ _ Htype _ _].
  unfold ceph_pg_to_primary_shard. rewrite ceph_can_shift_eq by done. cbn [mbind outcome_bind]. destruct (can_shift pi); [done|].
  apply wp_bind. eapply wp_mono.
  - apply (up_acting_ok fuel map Hmap (raw_pg_to_pg pi pgid) pi Hpi (CalcEnv (ce_scratch env) (ce_up env) (ce_acting env) work 0)).
    destruct Henv as [Hu Ha _]. by split.
  - intros [[[up acting] w'] warn] (_ & Hac & _). apply wp_bind. eapply wp_mono; [by apply primary_shard_wp|]. by intros [i|] _.
Qed.

Lemma osds_copy_ok dest src :
  osds_ok dest → osds_ok src →
  wp (ceph_osds_copy dest src) (λ s, osds_ok s ∧ visible s = visible src ∧ os_primary s = os_primary src).
Proof. intros [Hd _] Hs. unfold ceph_osds_copy. by apply (copy_osds_wp dest src). Qed.

Lemma calc_mapping_wp pi force any t :
  ceph_pg_pool_by_id map (u64 (oloc_pool (t_target_oloc t))) = Some pi → target_wf t → assigned t →
  wp (calc_mapping fuel env map epoch_barrier locs pi force any t) (λ '(t', res), mapped pi t t' res).
Proof.
  intros Hpi Hwf Has. destruct (object_locator_to_pg_Ret pi (t_target_oid t) (t_target_oloc t)) as (pgid & Hloc & Hpool).
  unfold ceph_pg_pool_by_id in Hpi. rewrite <- Hpool in Hpi. destruct (pool_ok fuel map Hmap pgid pi Hpi) as (Hmasks & Hplok & Hfuel).
  destruct Hmasks as (Hn & Hn31 & Hmask & _). pose proof Hwf as [Htac Htup Htempty Htnum].
  unfold calc_mapping. rewrite Hloc. cbn [mbind outcome_bind]. set (last := CephPg _ _).
  assert (Hlast : 0 < t_pg_num t → 0 < t_pg_num t < 2 ^ 31 ∧ 0 <= pg_seed last < t_pg_num t).
  { intros Hpos. destruct Htnum as [(? & _)|[Hr Hm]]; [lia|]. split; [done|]. subst last. cbn. rewrite Hm. by apply last_seed_range. }
  apply wp_bind. eapply wp_mono; [by apply (up_acting_ok fuel map Hmap pgid pi Hpi env Henv)|].
  intros [[[up acting] work] warn] (Huok & Haok & Hpl & Hwork & Hall).
  apply wp_bind. apply (wp_mono _ (λ _, True)).
  { destruct any; [|done]. destruct (mk_crush _ _ Hmap) as (c & rank & R & Hc & _ & _ & _ & _ & Hcr). destruct (Hcr _ pi Hpi) as (T & L & Hco).
    apply new_interval_wp; try done; [lia|]. destruct Htnum as [(_ & _ & Hs)|[Hr _]]; [right; pose proof (co_size _ _ _ _ _ _ _ Hco); lia|left; apply Hlast; lia]. }
  intros new _. set (unpaused := _ && _). set (t1 := if unpaused then _ else t). apply wp_bind.
  assert (Ht1 : t_pgid t1 = t_pgid t ∧ t_acting t1 = t_acting t ∧ t_up t1 = t_up t ∧ t_used_replica t1 = t_used_replica t ∧ t_pg_num t1 = t_pg_num t)
    by (subst t1; by destruct unpaused). destruct Ht1 as (E1 & E2 & E3 & E4 & E5). rewrite E1, E2, E4.
  apply (wp_mono _ (λ b, b = false → t_pgid t = pgid ∧
    ((visible (t_acting t) = [] ∧ visible acting = []) ∨ os_primary (t_acting t) = os_primary acting) ∧
    (t_used_replica t = true → visible (t_acting t) = visible acting))).
  { destruct (nonzero (ceph_pg_compare _ _)) eqn:Ecmp; [done|].
    eapply wp_mono; [by apply ceph_osds_changed_wp|]. intros b Hb Hfalse. destruct (Hb Hfalse) as [H1 H2].
    split_and!; [by apply ceph_pg_compare_0|done|intros Hu; apply H2; by rewrite Hu]. }
  intros legacy Hlegacy. apply wp_bind. rewrite E5. apply (wp_mono _ (λ _, True)).
  { unfold nonzero. destruct (Z.eqb_spec (t_pg_num t) 0); cbn [negb]; [done|]. assert (0 < t_pg_num t) as Hpos by (destruct Htnum as [[? _]|[? _]]; lia).
    destruct (Hlast Hpos). eapply wp_mono; [apply ceph_pg_is_split_wp; [done|lia|done|done]|done]. }
  intros split_ _. destruct (legacy || (force || new) || split_) eqn:Eb.
  - apply wp_bind, wp_bind. eapply wp_mono; [by apply primary_shard_ok|]. intros [o w'] _.
    rewrite ?E2, ?E3. apply wp_bind. eapply wp_mono; [by apply osds_copy_ok|]. intros acting' (Hok1 & Hv1 & Hp1).
    apply wp_bind. eapply wp_mono; [by apply osds_copy_ok|]. intros up' (Hok2 & _).
    eapply wp_mono; [by apply (choose_osd_wp (s64 (pg_pool pgid)))|]. intros t2 (osd & used & -> & Hrr & Hosd). cbn [wp].
    assert ((if unpaused || legacy || (force || new) || split_ then CALC_TARGET_NEED_RESEND else CALC_TARGET_NO_ACTION)
            = CALC_TARGET_NEED_RESEND) as ->.
    { destruct unpaused; cbn [orb]; [done|by rewrite Eb]. }
    eapply mapped_new; try done. intros Hu. specialize (Hrr Hu). unfold replica_read in *. subst t1. by destruct unpaused.
  - apply orb_false_iff in Eb as [[-> Hf]%orb_false_iff ->]. destruct (Hlegacy eq_refl) as (Hpg & Hprim & Hrep).
    apply wp_bind, wp_ret, wp_ret. eapply mapped_kept; try done.
    + rewrite Hf, !orb_false_r. by destruct unpaused.
    + rewrite Hf, !orb_false_r. subst t1. by destruct unpaused.
Qed.

Lemma tier_exists pi0 t :
  ceph_pg_pool_by_id map (u64 (oloc_pool (t_base_oloc t))) = Some pi0 →
  is_Some (ceph_pg_pool_by_id map (u64 (target_pool pi0 t))).
Proof.
  intros Hpi. unfold target_pool, tier_pool. destruct (flagged _ CEPH_OSD_FLAG_IGNORE_OVERLAY); [by eexists|].
  destruct (mk_pools _ _ Hmap _ _ Hpi) as (_ & _ & _ & Hr & Hw). unfold ceph_pg_pool_by_id in *. rewrite !Z.geb_leb.
  destruct (_ && (0 <=? pi_write_tier pi0)) eqn:Ew; [apply Hw; bool_to_prop; lia|].
  destruct (_ && (0 <=? pi_read_tier pi0)) eqn:Er; [apply Hr; bool_to_prop; lia|by eexists].
Qed.

Lemma apply_tiering_eq pi0 t :
  ceph_pg_pool_by_id map (u64 (oloc_pool (t_base_oloc t))) = Some pi0 →
  ∃ pi, apply_tiering map pi0 t
    = (set_t_target (t_base_oid t) (CephObjectLocator (target_pool pi0 t) (oloc_pool_ns (t_base_oloc t))) t, Some pi)
    ∧ ceph_pg_pool_by_id map (u64 (target_pool pi0 t)) = Some pi.
Proof.
  intros Hpi. destruct (tier_exists pi0 t Hpi) as [pi Ht]. exists pi. split; [|done].
  unfold apply_tiering, target_pool in *. cbn. destruct (flagged _ CEPH_OSD_FLAG_IGNORE_OVERLAY); cbn.
  - rewrite Hpi in Ht. injection Ht as <-. by destruct (t_base_oloc t).
  - by rewrite <- Ht.
Qed.

(** What [calc_target] leaves of a target. *)
Record calculated (t t' : osd_target) (res : calc_target_result) : Prop := {
  cd_wf : target_wf t';
  cd_wanted : wanted t' = wanted t;
  cd_epoch : t_epoch t' = om_epoch map;
  cd_routed : routed fuel map t';
  cd_dne : res = CALC_TARGET_POOL_DNE ↔ ceph_pg_pool_by_id map (u64 (oloc_pool (t_base_oloc t))) = None;
  cd_assigned : res ≠ CALC_TARGET_POOL_DNE → assigned t';
  cd_up : t_osd t' = CEPH_HOMELESS_OSD ∨ osd_up map (t_osd t') = true;
  cd_paused : t_paused t' = true → t_paused t = true ∧ held map epoch_barrier t';
  cd_replica : t_used_replica t' = true → t_used_replica t = true ∨ replica_read t';
  cd_kept : res = CALC_TARGET_NO_ACTION → mapping t' = mapping t ∧ t_paused t' = t_paused t;
  cd_gone : res = CALC_TARGET_POOL_DNE →
    t' = set_t_osd CEPH_HOMELESS_OSD (t_used_replica t) (set_t_epoch (om_epoch map) t);
  cd_target : ∀ pi0, ceph_pg_pool_by_id map (u64 (oloc_pool (t_base_oloc t))) = Some pi0 →
    t_target_oid t' = t_base_oid t
    ∧ t_target_oloc t' = CephObjectLocator (target_pool pi0 t) (oloc_pool_ns (t_base_oloc t))
    ∧ pg_pool (t_pgid t') = u64 (target_pool pi0 t) }.

Lemma target_pool_wanted pi0 t t' : wanted t' = wanted t → target_pool pi0 t' = target_pool pi0 t.
Proof. intros [= _ Hb Hf]. unfold target_pool, tier_pool. by rewrite Hb, Hf. Qed.

Lemma calc_target_wp t any :
  target_wf t → (ceph_pg_pool_by_id map (u64 (oloc_pool (t_base_oloc t))) ≠ None → assigned t) →
  wp (calc_target fuel env map epoch_barrier locs t any) (λ '(t', res), calculated t t' res).
Proof.
  intros Hwf Has. unfold calc_target. cbn [t_base_oloc set_t_epoch].
  destruct (ceph_pg_pool_by_id map (u64 (oloc_pool (t_base_oloc t)))) as [pi0|] eqn:Hpi0.
  2:{ cbn [wp]. split; try done; cbn; [by destruct Hwf|unfold routed; cbn; by rewrite Hpi0|by left| |by left|by rewrite Hpi0].
      intros Hp. split; [done|]. intros pi0 pi. cbn. by rewrite Hpi0. }
  destruct (force_resend_check map pi0 (set_t_epoch (om_epoch map) t)) as [t1 force] eqn:Ef.
  assert (H1 : target_wf t1 ∧ assigned t1 ∧ wanted t1 = wanted t ∧ t_epoch t1 = om_epoch map ∧ mapping t1 = mapping t ∧ t_paused t1 = t_paused t).
  { specialize (Has ltac:(done)). unfold force_resend_check in Ef. destruct (_ =? _); [destruct (_ <? _)|]; injection Ef as <- _; split_and!; try done; by destruct Hwf. }
  destruct H1 as (Hwf1 & Has1 & Hw1 & He1 & Hm1 & Hp1). pose proof Hw1 as [= Hoid1 Holoc1 Hfl1].
  destruct (apply_tiering_eq pi0 t1) as (pi & -> & Hpi); [by rewrite Holoc1|].
  set (t2 := set_t_target _ _ t1). eapply wp_mono; [apply calc_mapping_wp; [done|by destruct Hwf1|done]|].
  intros [t' res] [Hwf' Has' (Hw & Ho & Hl & He) Hplace Hup Hpa Hrr [Hr Hno]].
  assert (Hw' : wanted t' = wanted t) by (by rewrite Hw, <- Hw1). pose proof Hw' as [= Hoid' Holoc' Hfl'].
  assert (Htp : target_pool pi0 t' = target_pool pi0 t1) by (apply target_pool_wanted; by rewrite Hw', Hw1).
  split; try done.
  - by rewrite He.
  - unfold routed. rewrite Holoc', Hpi0, Htp, <- Holoc1. exists pi. split; [done|]. unfold serves. rewrite Hoid', <- Hoid1. exact Hplace.
  - rewrite Hpi0. by split.
  - intros Ht'. rewrite Hpa in Ht'. apply andb_true_iff in Ht' as [Hpt Hs]. split; [by rewrite <- Hp1|].
    intros pi0' pi'. rewrite Holoc', Hpi0. intros [= <-]. rewrite Htp, Hpi. intros [= <-].
    unfold target_should_be_paused in *. rewrite Hfl', <- Hfl1. exact Hs.
  - intros Hu. destruct (Hrr Hu) as [Hu1|?]; [left|by right]. injection Hm1 as _ _ _ _ Hu2 _. by rewrite <- Hu2.
  - intros Hres. destruct (Hno Hres) as [Hm Hp]. split; [rewrite Hm; exact Hm1|rewrite Hp; exact Hp1].
  - intros pi0'. rewrite Hpi0. intros [= <-]. subst t2.
    cbn [set_t_target t_target_oid t_target_oloc t_base_oloc t_base_oid] in *.
    rewrite Hoid1, Holoc1, (target_pool_wanted pi0 t t1) in * by done. split_and!; [done..|].
    destruct Hplace as (up & acting & Hpg & _).
    destruct (object_locator_to_pg_Ret pi (t_base_oid t)
      (CephObjectLocator (target_pool pi0 t) (oloc_pool_ns (t_base_oloc t)))) as (pg & Hpg' & Hpool).
    rewrite Hpg' in Hpg. by injection Hpg as <-.
Qed.
End calc_wp.

(** * Properties *)

(** C37: where a request goes.  For any object, flags and earlier target, the target is calculated
    without an access out of bounds; without a pool it is nobody's, and otherwise it is in the
    group the object is in, at the OSD that placement makes the group's primary under this map or, for a
    read that may go to a replica, at a member of the acting set, which is up.  It turns to a replica
    only if the flags say that it may and it does not write.  It need not be
    sent again only if the OSD, the group and the sets are the ones it was sent to.  It is held back only
    if it was before and flags, the barrier or a full pool still say so. *)
Theorem calc_target_routes (fuel : nat) (map : ceph_osdmap) (env : calc_env) (epoch_barrier : Z) (locs : list crush_loc)
    (t : osd_target) (any_change : bool)
    (Hmap : map_ok fuel map) (Henv : env_ok map env) (Ht : target_wf t)
    (Has : ceph_pg_pool_by_id map (u64 (oloc_pool (t_base_oloc t))) ≠ None → assigned t) :
  ∃ t' res, calc_target fuel env map epoch_barrier locs t any_change = Ret (t', res) ∧
    target_wf t' ∧ wanted t' = wanted t ∧ t_epoch t' = om_epoch map ∧
    routed fuel map t' ∧ (t_osd t' = CEPH_HOMELESS_OSD ∨ osd_up map (t_osd t') = true) ∧
    (res = CALC_TARGET_POOL_DNE ↔ ceph_pg_pool_by_id map (u64 (oloc_pool (t_base_oloc t))) = None) ∧
    (res ≠ CALC_TARGET_POOL_DNE → assigned t') ∧
    (t_used_replica t' = true → t_used_replica t = true ∨ replica_read t') ∧
    (res = CALC_TARGET_NO_ACTION → mapping t' = mapping t ∧ t_paused t' = t_paused t) ∧
    (t_paused t' = true → t_paused t = true ∧ held map epoch_barrier t').
Proof.
  pose proof (calc_target_wp fuel map Hmap env Henv epoch_barrier locs t any_change Ht Has) as H.
  apply wp_exists in H as ([t' res] & Heq & []). by exists t', res.
Qed.

(** ** The example cluster with its pool, in two epochs *)

Definition ex_map_at (epoch : Z) (osd_state : list Z) : ceph_osdmap :=
  CephOsdmap (replicate 16 0) epoch (0, 0) (0, 0) 0 4 osd_state [0x10000; 0x10000; 0x10000; 0]
    (replicate 4 zero_addr) ∅ ∅ ∅ ∅ None {[1 := ex_pool 1]} 1 (Some ex_map) init_workspace_manager.
Definition ex_calc_env : calc_env := CalcEnv (λ _, 0) ex_buf ex_buf ex_workspace 7.
Definition ex_locs : list crush_loc := [CrushLoc (chars "host") (chars "host2")].

Lemma ex_types_named : types_named ex_map.
Proof. intros b H. apply ex_map_bucket in H as [-> | [-> | ->]]; by eexists. Qed.

Lemma ex_cluster_ok epoch osd_state : length osd_state = 4%nat → map_ok 100 (ex_map_at epoch osd_state).
Proof.
  intros Hst. split.
  - exists ex_map, ex_rank, 1%nat. split_and!; [done|apply wf_ex_map|apply ex_types_named| |lia|].
    + intros b H. apply ex_map_bucket in H as [-> | [-> | ->]]; unfold ex_rank; simpl; lia.
    + intros id pi Hpi. cbn [om_pg_pools ex_map_at] in Hpi. apply lookup_singleton_Some in Hpi as [_ <-]. exists 51, 0. split.
      * done. * simpl. lia.
      * intros x. split; [exact wf_ex_map|]. by split.
      * intros x. destruct ex_rule_limits. by split.
      * intros x. destruct ex_tunables_ok. by split.
      * done. * split; [simpl; lia|done].
      * intros [|i] r Hr; [|done]. injection Hr as <-. split; [simpl; lia|]. repeat constructor; simpl; try lia; intros [H|H]; discriminate.
  - intros id pi Hpi. cbn [om_pg_pools ex_map_at] in Hpi. apply lookup_singleton_Some in Hpi as [_ <-]. split; [apply ex_pool_masks|]. split; [|split; [simpl; lia|by split]].
    intros pgid. split; [|done|by left|split; intros ? H; discriminate H|intros ? H; discriminate H].
    split; cbn; rewrite ?Hst; done || lia.
  - intros pgid osd H. discriminate H.
Qed.
Lemma ex_env_ok epoch osd_state : env_ok (ex_map_at epoch osd_state) ex_calc_env.
Proof. split; [done..|]. intros c [= <-]. apply wf_ex_workspace. Qed.

Definition ex_read : osd_target :=
  let t := set_t_flags (Z.lor CEPH_OSD_FLAG_READ CEPH_OSD_FLAG_LOCALIZE_READS) target_init in
  OsdTarget (chars "rbd_data.1") (CephObjectLocator 1 None) [] ceph_oloc_init (t_pgid t) (t_spgid t) 0 0 (t_acting t) (t_up t)
    (-1) (-1) false false (t_flags t) false false 0 0 CEPH_HOMELESS_OSD.
Lemma ex_read_wf : target_wf ex_read ∧ assigned ex_read.
Proof. split; [|done]. split; [by split|by split|done|by left]. Qed.

Lemma calc_target_routes_witness :
  target_wf ex_read ∧
  ∃ t', calc_target 100 ex_calc_env (ex_map_at 2 [3; 3; 3; 3]) 0 ex_locs ex_read false = Ret (t', CALC_TARGET_NEED_RESEND) ∧
    routed 100 (ex_map_at 2 [3; 3; 3; 3]) t'.
Proof.
  split; [apply ex_read_wf|].
  destruct (calc_target_routes 100 (ex_map_at 2 [3; 3; 3; 3]) ex_calc_env 0 ex_locs ex_read false (ex_cluster_ok 2 [3; 3; 3; 3] eq_refl) (ex_env_ok 2 _)
    (proj1 ex_read_wf) (λ _, proj2 ex_read_wf)) as (t' & res & Heq & _ & _ & _ & Hr & _).
  assert (res = CALC_TARGET_NEED_RESEND) as ->.
  { assert (snd <$> calc_target 100 ex_calc_env (ex_map_at 2 [3; 3; 3; 3]) 0 ex_locs ex_read false = Ret CALC_TARGET_NEED_RESEND) as H
      by (vm_compute; reflexivity).
    rewrite Heq in H. by injection H. }
  exists t'. split; [exact Heq|exact Hr].
Defined.
