(* ===== verification/Decode.v ===== *)
(** * Decoding and encoding (libceph/include/linux/ceph/decode.h, libceph/decode.c)

    A decoder runs on a buffer with a position that it moves and an end it checks against; on
    error it leaves through the label its checks name.  The host is little-endian. *)
From S2P Require Import Prelude Hash Crush Mapper Choose DoRule Workspace OsdMap.

(** ** Little-endian words *)

Fixpoint le_combine (l : list Z) : Z :=
  match l with [] => 0 | b :: l => b + 256 * le_combine l end.

Fixpoint le_split (n : nat) (x : Z) : list Z :=
  match n with O => [] | Datatypes.S n => u8 x :: le_split n (x / 256) end.

(** ** Decoders

    [S] is the state the decoder works on besides its position, such as the map being filled.
    The outcome is a result or an error number, with the state and the position reached. *)
Definition D (S A : Type) : Type := S → Z → outcome ((A + Z) * S * Z).

#[export] Instance D_ret S : MRet (D S) := λ A a s p, Ret (inl a, s, p).
#[export] Instance D_bind S : MBind (D S) := λ A B f d s p,
  '(r, s, p) ← d s p;
  match r with inl a => f a s p | inr e => Ret (inr e, s, p) end.

Section monad.
Context {S : Type}.

Definition dfail {A} (err : Z) : D S A := λ s p, Ret (inr err, s, p).
Definition dpos : D S Z := λ s p, Ret (inl p, s, p).
Definition dseek (to : Z) : D S unit := λ s p, Ret (inl tt, s, to).
Definition dget : D S S := λ s p, Ret (inl s, s, p).
Definition dput (s : S) : D S unit := λ _ p, Ret (inl tt, s, p).
Definition dlift {A} (m : outcome A) : D S A := λ s p, a ← m; Ret (inl a, s, p).
(** A function that returns an error number, 0 for success. *)
Definition dcall (m : outcome (Z * S)) : D S unit := λ s p,
  '(r, s) ← m; Ret (if r =? 0 then inl tt else inr r, s, p).

(** [while (n--)] and [for (i = 0; i < n; i++)] around a decoder. *)
Fixpoint drepeat {A} (n : nat) (d : D S A) : D S (list A) :=
  match n with
  | O => mret []
  | Datatypes.S n => a ← d; l ← drepeat n d; mret (a :: l)
  end.
Fixpoint dfor (n : nat) (from : Z) (d : Z → D S unit) : D S unit :=
  match n with
  | O => mret tt
  | Datatypes.S n => _ ← d from; dfor n (from + 1) d
  end.
Definition dloop (n : Z) (d : D S unit) : D S unit := _ ← drepeat (Z.to_nat n) d; mret tt.
Definition dwhen (b : bool) (d : D S unit) : D S unit := if b then d else mret tt.

Definition dmodify (f : S → S) : D S unit := λ s p, Ret (inl tt, f s, p).
(** What the error path does before it leaves. *)
Definition dcatch {A} (d : D S A) (h : Z → D S A) : D S A := λ s p,
  '(r, s, p) ← d s p;
  match r with inl a => Ret (inl a, s, p) | inr e => h e s p end.
(** A decoder of a part of the state. *)
Definition dzoom {T A} (get : S → T) (set : T → S → S) (d : D T A) : D S A := λ s p,
  '(r, t, p) ← d (get s) p; Ret (r, set t s, p).
(** A decoder that fills a local object: the object, or what its error path does with it. *)
Definition dlocal {T A} (init : T) (d : D T A) (fail : T → outcome unit) : D S (A * T) := λ s p,
  '(r, t, p) ← d init p;
  match r with
  | inl a => Ret (inl (a, t), s, p)
  | inr e => _ ← fail t; Ret (inr e, s, p)
  end.
End monad.

Section decode.
Context {S : Type} (buf : list Z) (end_ : Z).

Definition ceph_has_room (p end_ n : Z) : bool := (end_ >=? p) && (n <=? end_ - p).

(** What lies at [p]: reading outside the buffer is undefined, whatever [end] says. *)
Definition slice (p n : Z) : outcome (list Z) :=
  if (0 <=? p) && (0 <=? n) && (p + n <=? Z.of_nat (length buf))
  then Ret (take (Z.to_nat n) (drop (Z.to_nat p) buf)) else Undef.

Definition ceph_decode_copy (n : Z) : D S (list Z) :=
  λ s p, l ← slice p n; Ret (inl l, s, p + n).
Definition decode_le (n : Z) : D S Z := l ← ceph_decode_copy n; mret (le_combine l).
Definition ceph_decode_64 : D S Z := decode_le 8.
Definition ceph_decode_32 : D S Z := decode_le 4.
Definition ceph_decode_16 : D S Z := decode_le 2.
Definition ceph_decode_8 : D S Z := decode_le 1.
Definition dskip (n : Z) : D S unit := λ s p, Ret (inl tt, s, p + n).

(** [bad] is the error number of the label. *)
Definition ceph_decode_need (n bad : Z) : D S unit := λ s p,
  if ceph_has_room p end_ n then Ret (inl tt, s, p) else Ret (inr bad, s, p).

(** The check whose label is the end of the function, where it succeeds. *)
Definition ceph_decode_need_done (n : Z) (rest : D S unit) : D S unit := λ s p,
  if ceph_has_room p end_ n then rest s p else Ret (inl tt, s, p).

Definition ceph_decode_64_safe (bad : Z) : D S Z := _ ← ceph_decode_need 8 bad; ceph_decode_64.
Definition ceph_decode_32_safe (bad : Z) : D S Z := _ ← ceph_decode_need 4 bad; ceph_decode_32.
Definition ceph_decode_16_safe (bad : Z) : D S Z := _ ← ceph_decode_need 2 bad; ceph_decode_16.
Definition ceph_decode_8_safe (bad : Z) : D S Z := _ ← ceph_decode_need 1 bad; ceph_decode_8.
Definition ceph_decode_copy_safe (n bad : Z) : D S (list Z) :=
  _ ← ceph_decode_need n bad; ceph_decode_copy n.

(** *** Skipping *)

Definition ceph_decode_skip_n (n bad : Z) : D S unit := _ ← ceph_decode_need n bad; dskip n.
Definition ceph_decode_skip_64 (bad : Z) : D S unit := ceph_decode_skip_n 8 bad.
Definition ceph_decode_skip_32 (bad : Z) : D S unit := ceph_decode_skip_n 4 bad.
Definition ceph_decode_skip_16 (bad : Z) : D S unit := ceph_decode_skip_n 2 bad.
Definition ceph_decode_skip_8 (bad : Z) : D S unit := ceph_decode_skip_n 1 bad.
Definition ceph_decode_skip_string (bad : Z) : D S unit :=
  len ← ceph_decode_32_safe bad; ceph_decode_skip_n len bad.
Definition ceph_decode_skip_set (type : Z → D S unit) (bad : Z) : D S unit :=
  len ← ceph_decode_32_safe bad; dloop len (type bad).
Definition ceph_decode_skip_map (ktype vtype : Z → D S unit) (bad : Z) : D S unit :=
  len ← ceph_decode_32_safe bad; dloop len (_ ← ktype bad; vtype bad).
Definition ceph_decode_skip_map_of_map (ktype1 ktype2 vtype2 : Z → D S unit) (bad : Z) : D S unit :=
  len ← ceph_decode_32_safe bad;
  dloop len (_ ← ktype1 bad; ceph_decode_skip_map ktype2 vtype2 bad).

(** *** Strings and blocks *)

(** The length and the bytes, terminator not included; the position moves on success only. *)
Definition ceph_extract_encoded_string (mem_ok : bool) : D S (list Z) := λ s p,
  '(r, s, _) ← (len ← ceph_decode_32_safe (- ERANGE);
     _ ← ceph_decode_need len (- ERANGE);
     if negb mem_ok then dfail (- ENOMEM) else ceph_decode_copy len) s p;
  match r with
  | inl str => Ret (inl str, s, p + 4 + Z.of_nat (length str))
  | inr e => Ret (inr e, s, p)
  end.

Definition CEPH_ENCODING_START_BLK_LEN : Z := 6.
(** The version and the length of the block. *)
Definition ceph_start_decoding (v : Z) : D S (Z * Z) :=
  _ ← ceph_decode_need CEPH_ENCODING_START_BLK_LEN (- ERANGE);
  struct_v ← ceph_decode_8;
  struct_compat ← ceph_decode_8;
  if v <? struct_compat then dfail (- EINVAL)
  else
    struct_len ← ceph_decode_32;
    _ ← ceph_decode_need struct_len (- ERANGE);
    mret (struct_v, struct_len).

Definition CEPH_PGID_ENCODING_LEN : Z := 1 + 8 + 4 + 4.
Definition ceph_decode_pgid : D S ceph_pg :=
  _ ← ceph_decode_need CEPH_PGID_ENCODING_LEN (- EINVAL);
  version ← ceph_decode_8;
  if version >? 1 then dfail (- EINVAL)
  else
    pool ← ceph_decode_64;
    seed ← ceph_decode_32;
    _ ← dskip 4;
    mret (CephPg pool seed).

(** *** Entity addresses *)

Definition CEPH_ENTITY_ADDR_TYPE_NONE : Z := 0.
Definition CEPH_ENTITY_ADDR_TYPE_LEGACY : Z := 1.
Definition CEPH_ENTITY_ADDR_TYPE_MSGR2 : Z := 2.
Definition sizeof_in_addr : Z := 128.

(** [ss_family] is the first two bytes of the address. *)
Definition swap_family (a : list Z) : list Z :=
  match a with b0 :: b1 :: rest => b1 :: b0 :: rest | _ => a end.

Definition ceph_decode_entity_addr_versioned : D S ceph_entity_addr :=
  '(_, struct_len) ← ceph_start_decoding 1;
  start ← dpos;
  let struct_end := start + struct_len in
  type ← ceph_decode_copy_safe 4 (- EINVAL);
  nonce ← ceph_decode_copy_safe 4 (- EINVAL);
  addr_len ← ceph_decode_32_safe (- EINVAL);
  if addr_len >? sizeof_in_addr then dfail (- EINVAL)
  else
    in_addr ← (if nonzero addr_len then
                 a ← ceph_decode_copy_safe addr_len (- EINVAL);
                 mret (a ++ replicate (Z.to_nat (sizeof_in_addr - addr_len)) 0)
               else mret (replicate (Z.to_nat sizeof_in_addr) 0));
    _ ← dseek struct_end;
    mret (CephEntityAddr (le_combine type) (le_combine nonce) in_addr).

Definition ceph_decode_entity_addr_legacy : D S ceph_entity_addr :=
  _ ← ceph_decode_skip_n 3 (- EINVAL);
  nonce ← ceph_decode_copy_safe 4 (- EINVAL);
  in_addr ← ceph_decode_copy_safe sizeof_in_addr (- EINVAL);
  mret (CephEntityAddr CEPH_ENTITY_ADDR_TYPE_LEGACY (le_combine nonce) (swap_family in_addr)).

Definition ceph_decode_entity_addr : D S ceph_entity_addr :=
  marker ← ceph_decode_8_safe (- EINVAL);
  if marker =? 1 then ceph_decode_entity_addr_versioned
  else if marker =? 0 then ceph_decode_entity_addr_legacy
  else dfail (- EINVAL).

Definition addr_is_zero (a : ceph_entity_addr) : bool :=
  (addr_type a =? 0) && (addr_nonce a =? 0) && forallb (λ b, b =? 0) (in_addr a).

(** The loop over the vector, on the address found and the last one decoded. *)
Fixpoint addrvec_loop (n : nat) (my_type : Z) (found tmp : option ceph_entity_addr)
    : D S (option ceph_entity_addr * option ceph_entity_addr) :=
  match n with
  | O => mret (found, tmp)
  | Datatypes.S n =>
      a ← ceph_decode_entity_addr;
      if addr_type a =? my_type then
        match found with
        | Some _ => dfail (- EINVAL)
        | None => addrvec_loop n my_type (Some a) (Some a)
        end
      else addrvec_loop n my_type found (Some a)
  end.

(** [None]: success, with the caller's address not written. *)
Definition ceph_decode_entity_addrvec (msgr2 : bool) : D S (option ceph_entity_addr) :=
  let my_type := if msgr2 then CEPH_ENTITY_ADDR_TYPE_MSGR2 else CEPH_ENTITY_ADDR_TYPE_LEGACY in
  marker ← ceph_decode_8_safe (- EINVAL);
  if negb (marker =? 2) then dfail (- EINVAL)
  else
    cnt ← ceph_decode_32_safe (- EINVAL);
    let addr_cnt := s32 cnt in
    '(found, tmp) ← addrvec_loop (Z.to_nat addr_cnt) my_type None None;
    match found with
    | Some a => mret (Some a)
    | None =>
        if addr_cnt =? 0 then mret None
        else if (addr_cnt =? 1) && match tmp with Some a => addr_is_zero a | None => false end
        then mret None
        else dfail (- ENOENT)
    end.
End decode.

(** ** Encoders

    What is written through the position pointer, which moves past it. *)
Definition ceph_encode_64 (v : Z) : list Z := le_split 8 v.
Definition ceph_encode_32 (v : Z) : list Z := le_split 4 v.
Definition ceph_encode_16 (v : Z) : list Z := le_split 2 v.
Definition ceph_encode_8 (v : Z) : list Z := le_split 1 v.

(** [room] is what is left before the end; the check is a [BUG_ON]. *)
Definition ceph_encode_string (room : Z) (s : list Z) (len : Z) : outcome (list Z) :=
  _ ← require (negb (4 + len >? room));
  str ← slice s 0 len;
  Ret (ceph_encode_32 len ++ str).

Definition ceph_encode_filepath (room ino : Z) (path : option (list Z)) : outcome (list Z) :=
  let str := default [] path in
  let len := u32 (Z.of_nat (length str)) in
  _ ← require (negb (1 + 8 + 4 + len >? room));
  str ← slice str 0 len;
  Ret (ceph_encode_8 1 ++ ceph_encode_64 ino ++ ceph_encode_32 len ++ str).

Definition ceph_start_encoding (struct_v struct_compat struct_len : Z) : list Z :=
  ceph_encode_8 struct_v ++ ceph_encode_8 struct_compat ++ ceph_encode_32 struct_len.

Definition AF_INET : Z := 2.
Definition AF_INET6 : Z := 10.
Definition get_sockaddr_encoding_len (family : Z) : Z :=
  if family =? AF_INET then 16 else if family =? AF_INET6 then 28 else 28.

Definition ss_family (a : ceph_entity_addr) : Z := le_combine (take 2 (in_addr a)).

Definition ceph_entity_addr_encoding_len (a : ceph_entity_addr) : Z :=
  1 + CEPH_ENCODING_START_BLK_LEN + 4 + 4 + 4 + get_sockaddr_encoding_len (ss_family a).

Definition ceph_encode_entity_addr (a : ceph_entity_addr) : list Z :=
  let addr_len := get_sockaddr_encoding_len (ss_family a) in
  ceph_encode_8 1 ++
  ceph_start_encoding 1 1 (4 + 4 + 4 + addr_len) ++
  ceph_encode_32 (addr_type a) ++ ceph_encode_32 (addr_nonce a) ++
  ceph_encode_32 addr_len ++ ceph_encode_16 (ss_family a) ++
  take (Z.to_nat (addr_len - 2)) (drop 2 (in_addr a)).

(** The banner of the first protocol: the family in network order, no type. *)
Definition ceph_encode_banner_addr (a : ceph_entity_addr) : ceph_entity_addr :=
  CephEntityAddr CEPH_ENTITY_ADDR_TYPE_NONE (addr_nonce a) (swap_family (in_addr a)).
Definition ceph_decode_banner_addr (a : ceph_entity_addr) : ceph_entity_addr :=
  CephEntityAddr CEPH_ENTITY_ADDR_TYPE_LEGACY (addr_nonce a) (swap_family (in_addr a)).

(** Times: seconds and nanoseconds, each truncated to 32 bits. *)
Definition ceph_decode_timespec64 (tv : Z * Z) : Z * Z := tv.
Definition ceph_encode_timespec64 (ts : Z * Z) : Z * Z := (u32 ts.1, u32 ts.2).

(** ** The monad *)

Lemma D_bind_assoc {S A B C} (d : D S A) (f : A → D S B) (g : B → D S C) s p :
  ((d ≫= f) ≫= g) s p = (d ≫= λ x, f x ≫= g) s p.
Proof. unfold mbind, D_bind. destruct (d s p) as [[[[a|e] s'] p']| |]; done. Qed.

Lemma D_bind_ext {S A B} (d : D S A) (f g : A → D S B) s p :
  (∀ x s p, f x s p = g x s p) → (d ≫= f) s p = (d ≫= g) s p.
Proof.
  intros H. unfold mbind, D_bind. destruct (d s p) as [[[[a|e] s'] p']| |]; simpl; try done.
Qed.

(** ** Words and bytes *)

Definition byte (b : Z) : Prop := 0 <= b < 2 ^ 8.

Lemma le_combine_split n x : 0 <= x < 2 ^ (8 * Z.of_nat n) → le_combine (le_split n x) = x.
Proof.
  revert x. induction n as [|n IH]; intros x Hx; [simpl in *; lia|].
  change (u8 x + 256 * le_combine (le_split n (x / 256)) = x).
  rewrite IH; [unfold u8; change (2 ^ 8) with 256; pose proof (Z.div_mod x 256 ltac:(lia)); lia|].
  replace (8 * Z.of_nat (Datatypes.S n)) with (8 + 8 * Z.of_nat n) in Hx by lia.
  rewrite Z.pow_add_r in Hx by lia. change (2 ^ 8) with 256 in Hx.
  split; [apply Z.div_pos; lia|]. apply Z.div_lt_upper_bound; lia.
Qed.

Lemma length_le_split n x : length (le_split n x) = n.
Proof. revert x. induction n as [|n IH]; intros x; simpl; [done|]. by rewrite IH. Qed.

Lemma le_combine_range l : Forall byte l → 0 <= le_combine l < 2 ^ (8 * Z.of_nat (length l)).
Proof.
  induction 1 as [|b l Hb _ IH]; [simpl; lia|].
  cbn [le_combine length]. replace (8 * Z.of_nat (Datatypes.S (length l))) with (8 + 8 * Z.of_nat (length l)) by lia.
  rewrite Z.pow_add_r by lia. change (2 ^ 8) with 256 in *. unfold byte in Hb. change (2 ^ 8) with 256 in Hb. lia.
Qed.

Lemma le_split_combine l : Forall byte l → le_split (length l) (le_combine l) = l.
Proof.
  induction 1 as [|b l Hb _ IH]; [done|]. unfold byte in Hb. change (2 ^ 8) with 256 in Hb.
  cbn [length le_split le_combine]. f_equal.
  - unfold u8. change (2 ^ 8) with 256. rewrite Z.mul_comm, Z.mod_add, Z.mod_small by lia. done.
  - rewrite Z.mul_comm, Z.div_add, (Z.div_small b) by lia. rewrite Z.add_0_l. apply IH.
Qed.

Lemma aset_Some {A} (l : list A) i (v : A) :
  0 <= i < Z.of_nat (length l) → aset l i v = Ret (<[Z.to_nat i := v]> l).
Proof. intros Hi. unfold aset. by rewrite (proj2 (Z.leb_le 0 i)), (proj2 (Z.ltb_lt i _)) by lia. Qed.

(** ** Parsing what was written

    [parses off d bs a]: where the bytes [bs] stand at offset [off] of a buffer, and the end is not
    before theirs, [d] yields [a] and stops behind them. *)
Definition parses {S A} (off : Z) (d : list Z → Z → D S A) (bs : list Z) (a : A) : Prop :=
  ∀ pre post end_ s,
    Z.of_nat (length pre) = off → off + Z.of_nat (length bs) <= end_ →
    d (pre ++ bs ++ post) end_ s off = Ret (inl a, s, off + Z.of_nat (length bs)).

Section parses.
Context {S : Type}.
Implicit Types (off : Z) (bs : list Z).

Lemma parses_ret {A} off (a : A) : parses off (λ _ _, mret (M := D S) a) [] a.
Proof. intros pre post e s _ _. unfold mret, D_ret. do 2 f_equal. simpl. lia. Qed.

Lemma parses_bind {A B} off (d : list Z → Z → D S A) (f : list Z → Z → A → D S B) bs1 bs2 a b :
  parses off d bs1 a → parses (off + Z.of_nat (length bs1)) (λ buf e, f buf e a) bs2 b →
  parses off (λ buf e, d buf e ≫= f buf e) (bs1 ++ bs2) b.
Proof.
  intros Hd Hf pre post e s Hpre He. rewrite length_app in He. unfold mbind at 1, D_bind.
  rewrite <- (assoc_L (++) bs1), Hd by (done || lia). cbn [mbind outcome_bind].
  specialize (Hf (pre ++ bs1) post e s). rewrite <- (assoc_L (++)) in Hf.
  rewrite Hf by (rewrite ?length_app; lia). rewrite length_app. do 2 f_equal. lia.
Qed.

Lemma parses_ext {A} (d d' : list Z → Z → D S A) off bs a :
  (∀ buf e s p, d' buf e s p = d buf e s p) → parses off d bs a → parses off d' bs a.
Proof. intros Heq Hd pre post e s Hpre He. rewrite Heq. by apply Hd. Qed.

(** The bytes left to the last step. *)
Lemma parses_bind_ret {A B} off (d : list Z → Z → D S A) (f : list Z → Z → A → D S B) bs a b :
  parses off d bs a → parses (off + Z.of_nat (length bs)) (λ buf e, f buf e a) [] b →
  parses off (λ buf e, d buf e ≫= f buf e) bs b.
Proof. intros Hd Hf. rewrite <- (app_nil_r bs). by eapply parses_bind. Qed.

(** A step that reads nothing. *)
Lemma parses_bind_nil {A B} off (d : list Z → Z → D S A) (f : list Z → Z → A → D S B) bs a b :
  parses off d [] a → parses off (λ buf e, f buf e a) bs b →
  parses off (λ buf e, d buf e ≫= f buf e) bs b.
Proof. intros Hd Hf. eapply (parses_bind _ _ _ [] bs); [done|]. by rewrite Z.add_0_r. Qed.

Lemma parses_need {A} off (d : list Z → Z → D S A) n bad bs a :
  n <= Z.of_nat (length bs) → parses off d bs a →
  parses off (λ buf e, _ ← ceph_decode_need e n bad; d buf e) bs a.
Proof.
  intros Hn Hd pre post e s Hpre He. unfold mbind, D_bind, ceph_decode_need, ceph_has_room.
  rewrite Z.geb_leb, (proj2 (Z.leb_le _ _)), (proj2 (Z.leb_le _ _)) by lia.
  cbn [andb mbind outcome_bind]. by apply Hd.
Qed.

Lemma slice_at (pre bs post : list Z) :
  slice (pre ++ bs ++ post) (Z.of_nat (length pre)) (Z.of_nat (length bs)) = Ret bs.
Proof.
  unfold slice. rewrite (proj2 (Z.leb_le _ _)), (proj2 (Z.leb_le _ _)), (proj2 (Z.leb_le _ _))
    by (rewrite ?length_app; lia).
  cbn [andb]. by rewrite !Nat2Z.id, drop_app_length, take_app_length.
Qed.

Lemma parses_copy off n bs :
  n = Z.of_nat (length bs) → parses (S := S) off (λ buf _, ceph_decode_copy buf n) bs bs.
Proof.
  intros -> pre post e s Hpre He. unfold ceph_decode_copy. subst off. by rewrite slice_at.
Qed.

Lemma parses_le off n x :
  0 <= n → 0 <= x < 2 ^ (8 * n) →
  parses (S := S) off (λ buf _, decode_le buf n) (le_split (Z.to_nat n) x) x.
Proof.
  intros Hn Hx. eapply parses_bind_ret; [apply parses_copy; rewrite length_le_split; lia|].
  rewrite le_combine_split by (by rewrite Z2Nat.id by lia). apply parses_ret.
Qed.

Lemma parses_32 off x :
  0 <= x < 2 ^ 32 → parses (S := S) off (λ buf _, ceph_decode_32 buf) (ceph_encode_32 x) x.
Proof. by apply (parses_le off 4). Qed.
Lemma parses_64 off x :
  0 <= x < 2 ^ 64 → parses (S := S) off (λ buf _, ceph_decode_64 buf) (ceph_encode_64 x) x.
Proof. by apply (parses_le off 8). Qed.
Lemma parses_16 off x :
  0 <= x < 2 ^ 16 → parses (S := S) off (λ buf _, ceph_decode_16 buf) (ceph_encode_16 x) x.
Proof. by apply (parses_le off 2). Qed.
Lemma parses_8 off x :
  0 <= x < 2 ^ 8 → parses (S := S) off (λ buf _, ceph_decode_8 buf) (ceph_encode_8 x) x.
Proof. by apply (parses_le off 1). Qed.

Lemma parses_32_safe off bad x :
  0 <= x < 2 ^ 32 → parses (S := S) off (λ buf e, ceph_decode_32_safe buf e bad) (ceph_encode_32 x) x.
Proof. intros Hx. apply parses_need; [done|]. by apply parses_32. Qed.
Lemma parses_64_safe off bad x :
  0 <= x < 2 ^ 64 → parses (S := S) off (λ buf e, ceph_decode_64_safe buf e bad) (ceph_encode_64 x) x.
Proof. intros Hx. apply parses_need; [done|]. by apply parses_64. Qed.
Lemma parses_8_safe off bad x :
  0 <= x < 2 ^ 8 → parses (S := S) off (λ buf e, ceph_decode_8_safe buf e bad) (ceph_encode_8 x) x.
Proof. intros Hx. apply parses_need; [done|]. by apply parses_8. Qed.
Lemma parses_copy_safe off bad n bs :
  n = Z.of_nat (length bs) → parses (S := S) off (λ buf e, ceph_decode_copy_safe buf e n bad) bs bs.
Proof. intros ->. apply parses_need; [done|]. by apply parses_copy. Qed.

Lemma parses_skip off n bs :
  n = Z.of_nat (length bs) → parses (S := S) off (λ _ _, dskip n) bs tt.
Proof. by intros -> pre post e s Hpre He. Qed.
Lemma parses_skip_n off bad n bs :
  n = Z.of_nat (length bs) → parses (S := S) off (λ _ e, ceph_decode_skip_n e n bad) bs tt.
Proof. intros ->. apply (parses_need _ (λ _ _, dskip _)); [done|]. by apply parses_skip. Qed.

Lemma parses_pos off : parses (S := S) off (λ _ _, dpos) [] off.
Proof. intros pre post e s Hpre He. unfold dpos. do 2 f_equal. simpl. lia. Qed.
Lemma parses_seek off to : to = off → parses (S := S) off (λ _ _, dseek to) [] tt.
Proof. intros -> pre post e s Hpre He. unfold dseek. do 2 f_equal. simpl. lia. Qed.

(** Repetition parses the concatenation. *)
Lemma parses_repeat {A} off (d : list Z → Z → D S A) (bss : list (list Z)) (l : list A) :
  Forall2 (λ bs a, ∀ off, parses off d bs a) bss l →
  parses off (λ buf e, drepeat (length l) (d buf e)) (concat bss) l.
Proof.
  intros H. revert off. induction H as [|bs a bss l Ha _ IH]; intros off; [apply (parses_ret off [])|].
  cbn [concat length drepeat].
  eapply (parses_bind _ _ (λ buf e a, l ← drepeat (length l) (d buf e); mret (a :: l))); [apply Ha|].
  eapply parses_bind_ret; [apply IH|]. apply parses_ret.
Qed.

(** A block: its header, then its content, of the length the header says. *)
Lemma parses_start {A} off v (f : list Z → Z → Z * Z → D S A) struct_v struct_compat len bs a :
  0 <= struct_v < 2 ^ 8 → 0 <= struct_compat < 2 ^ 8 → struct_compat <= v →
  0 <= len < 2 ^ 32 → len <= Z.of_nat (length bs) →
  parses (off + CEPH_ENCODING_START_BLK_LEN) (λ buf e, f buf e (struct_v, len)) bs a →
  parses off (λ buf e, ceph_start_decoding buf e v ≫= f buf e)
    (ceph_start_encoding struct_v struct_compat len ++ bs) a.
Proof.
  intros Hv Hc Hle Hlen Hbs Hf.
  apply (parses_ext (λ buf e, _ ← ceph_decode_need e CEPH_ENCODING_START_BLK_LEN (- ERANGE);
    x ← ceph_decode_8 buf; y ← ceph_decode_8 buf;
    if v <? y then dfail (- EINVAL) else z ← ceph_decode_32 buf;
    _ ← ceph_decode_need e z (- ERANGE); f buf e (x, z))).
  { intros buf e s p. unfold ceph_start_decoding.
    repeat (rewrite D_bind_assoc; apply D_bind_ext; intros ???).
    case_match; [done|]. repeat (rewrite D_bind_assoc; apply D_bind_ext; intros ???). done. }
  unfold ceph_start_encoding. apply parses_need.
  { rewrite !length_app. unfold CEPH_ENCODING_START_BLK_LEN. simpl. lia. }
  rewrite <- !(assoc_L (++)).
  eapply parses_bind; [by apply parses_8|]. eapply parses_bind; [by apply parses_8|].
  cbv beta. rewrite (proj2 (Z.ltb_ge _ _)) by lia.
  eapply parses_bind; [by apply parses_32|]. apply parses_need; [done|].
  unfold CEPH_ENCODING_START_BLK_LEN in Hf. simpl length.
  by replace (off + Z.of_nat 1 + Z.of_nat 1 + Z.of_nat 4) with (off + 6) by lia.
Qed.
End parses.

(** ** Parsing into a state

    [runs room off s d bs a s']: where [bs] stands at [off], decoding takes state [s] to [s'] and
    yields [a].  The input goes on for [room] bytes at least behind [bs], or ends there ([None]). *)
Definition runs {S A} (room : option nat) (off : Z) (s : S) (d : list Z → Z → D S A) (bs : list Z)
    (a : A) (s' : S) : Prop :=
  ∀ pre post end_,
    Z.of_nat (length pre) = off →
    match room with
    | Some k => off + Z.of_nat (length bs) + Z.of_nat k <= end_
    | None => off + Z.of_nat (length bs) = end_
    end →
    d (pre ++ bs ++ post) end_ s off = Ret (inl a, s', off + Z.of_nat (length bs)).

Section runs.
Context {S : Type} (x : option nat).
Implicit Types (off : Z) (bs : list Z) (s t : S).

Lemma runs_parses {A} off s (d : list Z → Z → D S A) bs a : parses off d bs a → runs x off s d bs a s.
Proof. intros H pre post e Hpre He. apply H; [done|]. destruct x; lia. Qed.

Lemma runs_ret {A} off s (a : A) : runs x off s (λ _ _, mret (M := D S) a) [] a s.
Proof. apply runs_parses, parses_ret. Qed.
Lemma runs_get off s : runs x off s (λ _ _, dget) [] s s.
Proof. intros pre post e _ _. unfold dget. do 2 f_equal. simpl. lia. Qed.
Lemma runs_put off s t : runs x off s (λ _ _, dput t) [] tt t.
Proof. intros pre post e _ _. unfold dput. do 2 f_equal. simpl. lia. Qed.
Lemma runs_modify off s f : runs x off s (λ _ _, dmodify f) [] tt (f s).
Proof. intros pre post e _ _. unfold dmodify. do 2 f_equal. simpl. lia. Qed.
Lemma runs_lift {A} off s (m : outcome A) a : m = Ret a → runs x off s (λ _ _, dlift m) [] a s.
Proof. intros -> pre post e _ _. unfold dlift. cbn [mbind outcome_bind]. do 2 f_equal. simpl. lia. Qed.

Lemma runs_bind_room {A B} r off s t u (d : list Z → Z → D S A) (f : list Z → Z → A → D S B)
    bs1 bs2 a b :
  (r <= length bs2 + default 0 x)%nat →
  runs (Some r) off s d bs1 a t →
  runs x (off + Z.of_nat (length bs1)) t (λ buf e, f buf e a) bs2 b u →
  runs x off s (λ buf e, d buf e ≫= f buf e) (bs1 ++ bs2) b u.
Proof.
  intros Hr Hd Hf pre post e Hpre He. rewrite length_app in He. unfold mbind at 1, D_bind.
  rewrite <- (assoc_L (++) bs1), Hd by (done || (destruct x; simpl in *; lia)).
  cbn [mbind outcome_bind].
  specialize (Hf (pre ++ bs1) post e). rewrite <- (assoc_L (++)) in Hf.
  rewrite Hf by (rewrite ?length_app; destruct x; lia). rewrite length_app. do 2 f_equal. lia.
Qed.

Lemma runs_bind {A B} off s t u (d : list Z → Z → D S A) (f : list Z → Z → A → D S B) bs1 bs2 a b :
  runs (Some 0%nat) off s d bs1 a t →
  runs x (off + Z.of_nat (length bs1)) t (λ buf e, f buf e a) bs2 b u →
  runs x off s (λ buf e, d buf e ≫= f buf e) (bs1 ++ bs2) b u.
Proof. apply runs_bind_room. lia. Qed.

Lemma runs_bind_nil {A B} off s t u (d : list Z → Z → D S A) (f : list Z → Z → A → D S B) bs a b :
  runs (Some 0%nat) off s d [] a t → runs x off t (λ buf e, f buf e a) bs b u →
  runs x off s (λ buf e, d buf e ≫= f buf e) bs b u.
Proof. intros Hd Hf. eapply (runs_bind _ _ _ _ _ _ [] bs); [done|]. by rewrite Z.add_0_r. Qed.

Lemma runs_bind_ret {A B} off s t u (d : list Z → Z → D S A) (f : list Z → Z → A → D S B) bs a b :
  runs x off s d bs a t →
  runs x (off + Z.of_nat (length bs)) t (λ buf e, f buf e a) [] b u →
  runs x off s (λ buf e, d buf e ≫= f buf e) bs b u.
Proof.
  intros Hd Hf pre post e Hpre He. unfold mbind at 1, D_bind.
  rewrite Hd by done. cbn [mbind outcome_bind].
  specialize (Hf (pre ++ bs) post e). rewrite <- (assoc_L (++)) in Hf. simpl app in Hf.
  rewrite Hf by (rewrite ?length_app; simpl length; destruct x; lia). simpl length. do 2 f_equal. lia.
Qed.

Lemma runs_need {A} off s t (d : list Z → Z → D S A) n bad bs a :
  n <= Z.of_nat (length bs + default 0%nat x) → runs x off s d bs a t →
  runs x off s (λ buf e, _ ← ceph_decode_need e n bad; d buf e) bs a t.
Proof.
  intros Hn Hd pre post e Hpre He. unfold mbind, D_bind, ceph_decode_need, ceph_has_room.
  rewrite Z.geb_leb, (proj2 (Z.leb_le _ _)), (proj2 (Z.leb_le _ _)) by (destruct x; simpl in *; lia).
  cbn [andb mbind outcome_bind]. by apply Hd.
Qed.

Lemma runs_ext {A} (d d' : list Z → Z → D S A) off s t bs a :
  (∀ buf e s p, d' buf e s p = d buf e s p) → runs x off s d bs a t → runs x off s d' bs a t.
Proof. intros Heq Hd pre post e Hpre He. rewrite Heq. by apply Hd. Qed.

Lemma runs_any {A} off s t (d : list Z → Z → D S A) bs a :
  runs (Some 0%nat) off s d bs a t → runs x off s d bs a t.
Proof. intros Hd pre post e Hpre He. apply Hd; [done|]. destruct x; lia. Qed.

Lemma runs_catch {A} off s t (d : list Z → Z → D S A) h bs a :
  runs x off s d bs a t → runs x off s (λ buf e, dcatch (d buf e) (h buf e)) bs a t.
Proof. intros Hd pre post e Hpre He. unfold dcatch. by rewrite Hd. Qed.

Lemma runs_local {T A} off s (i t : T) (d : list Z → Z → D T A) fail bs a :
  runs x off i d bs a t → runs x off s (λ buf e, dlocal i (d buf e) fail) bs (a, t) s.
Proof. intros Hd pre post e Hpre He. unfold dlocal. by rewrite Hd. Qed.

Lemma runs_zoom {T A} off s (t : T) get set (d : list Z → Z → D T A) bs a :
  runs x off (get s) d bs a t → runs x off s (λ buf e, dzoom get set (d buf e)) bs a (set t s).
Proof. intros Hd pre post e Hpre He. unfold dzoom. by rewrite Hd. Qed.

Lemma runs_need_done off s t (rest : list Z → Z → D S unit) n bs :
  n <= Z.of_nat (length bs) → runs x off s rest bs tt t →
  runs x off s (λ buf e, ceph_decode_need_done e n (rest buf e)) bs tt t.
Proof.
  intros Hn Hd pre post e Hpre He. unfold ceph_decode_need_done, ceph_has_room.
  rewrite Z.geb_leb, (proj2 (Z.leb_le _ _)), (proj2 (Z.leb_le _ _)) by (destruct x; lia).
  cbn [andb]. by apply Hd.
Qed.

Lemma runs_eq {A} off s t t' (d : list Z → Z → D S A) bs bs' a :
  runs x off s d bs a t → bs = bs' → t = t' → runs x off s d bs' a t'.
Proof. by intros ? <- <-. Qed.
Lemma runs_init {A} off s s' t (d : list Z → Z → D S A) bs a :
  runs x off s d bs a t → s = s' → runs x off s' d bs a t.
Proof. by intros ? <-. Qed.
End runs.

(** Somewhere in a buffer. *)
Lemma runs_in {S A} off s (d : list Z → Z → D S A) bs a t B pre post end_ :
  runs (Some 0%nat) off s d bs a t → B = pre ++ bs ++ post → Z.of_nat (length pre) = off →
  off + Z.of_nat (length bs) <= end_ →
  d B end_ s off = Ret (inl a, t, off + Z.of_nat (length bs)).
Proof. intros Hd -> Hpre He. apply Hd; [done|lia]. Qed.

Lemma D_bind_eq {S A B} (d : D S A) (f : A → D S B) s p a s' p' :
  d s p = Ret (inl a, s', p') → (d ≫= f) s p = f a s' p'.
Proof. unfold mbind, D_bind. by intros ->. Qed.

(** At the end of the input. *)
Lemma runs_done {S} off (s : S) (rest : list Z → Z → D S unit) n :
  0 < n → runs None off s (λ buf e, ceph_decode_need_done e n (rest buf e)) [] tt s.
Proof.
  intros Hn pre post e Hpre He. unfold ceph_decode_need_done, ceph_has_room.
  simpl length in *. rewrite Z.add_0_r in *. subst e.
  rewrite (proj2 (Z.leb_gt n _)), andb_false_r by lia. done.
Qed.

Section runs_loops.
Context {S B : Type} (r : nat) (enc : B → list Z) (st : list B → list B → S).
Implicit Types (off : Z).

(** A loop over a list on the wire; [st done rest] is the state between its rounds. *)
Lemma runs_for (d : list Z → Z → Z → D S unit) l off :
  (∀ done b rest off, l = done ++ b :: rest →
     runs (Some r) off (st done (b :: rest)) (λ buf e, d buf e (Z.of_nat (length done))) (enc b) tt
       (st (done ++ [b]) rest)) →
  runs (Some r) off (st [] l) (λ buf e, dfor (length l) 0 (d buf e)) (concat (map enc l)) tt (st l []).
Proof.
  intros Hd. change 0 with (Z.of_nat (length (@nil B))).
  assert (∀ done rest off, l = done ++ rest →
    runs (Some r) off (st done rest) (λ buf e, dfor (length rest) (Z.of_nat (length done)) (d buf e))
      (concat (map enc rest)) tt (st l [])) as H; [|by apply (H [] l)].
  intros done rest. revert done. induction rest as [|b rest IH]; intros done off' ->; cbn [length dfor map concat].
  - rewrite app_nil_r. apply (runs_ret _).
  - eapply runs_bind_room; [|by apply Hd|]; [simpl; lia|].
    eapply runs_ext; [|apply (IH (done ++ [b])); by rewrite <- (assoc_L (++))].
    intros ????. cbv beta. do 2 f_equal. rewrite length_app. simpl. lia.
Qed.

Lemma runs_loop (d : list Z → Z → D S unit) l off :
  (∀ done b rest off, l = done ++ b :: rest →
     runs (Some r) off (st done (b :: rest)) d (enc b) tt (st (done ++ [b]) rest)) →
  runs (Some r) off (st [] l) (λ buf e, dloop (Z.of_nat (length l)) (d buf e)) (concat (map enc l)) tt
    (st l []).
Proof.
  intros Hd. unfold dloop. eapply (runs_bind_ret _ _ _ _ _ _ _ _ (replicate (length l) tt)); [|apply runs_ret].
  rewrite Nat2Z.id.
  assert (∀ done rest off, l = done ++ rest →
    runs (Some r) off (st done rest) (λ buf e, drepeat (length rest) (d buf e))
      (concat (map enc rest)) (replicate (length rest) tt) (st l [])) as H; [|by apply (H [] l)].
  intros done rest. revert done. induction rest as [|b rest IH]; intros done off' ->; cbn [length drepeat map concat replicate].
  - rewrite app_nil_r. apply (runs_ret _).
  - eapply (runs_bind_room _ r _ _ _ _ _ (λ buf e a, l ← drepeat (length rest) (d buf e); mret (a :: l))); [simpl; lia|by apply Hd|].
    eapply runs_bind_ret; [apply (IH (done ++ [b])); by rewrite <- (assoc_L (++))|]. apply runs_ret.
Qed.
End runs_loops.

Create HintDb parse discriminated.
#[export] Hint Resolve parses_ret parses_32 parses_64 parses_16 parses_8 parses_32_safe
  parses_64_safe parses_8_safe parses_copy_safe parses_skip_n parses_pos : parse.

(** ** Addresses *)

(** An address as the messenger holds it: nothing behind what its family uses. *)
Record addr_ok (a : ceph_entity_addr) : Prop := {
  ao_type : 0 <= addr_type a < 2 ^ 32;
  ao_nonce : 0 <= addr_nonce a < 2 ^ 32;
  ao_len : Z.of_nat (length (in_addr a)) = sizeof_in_addr;
  ao_bytes : Forall byte (in_addr a);
  ao_tail : let n := get_sockaddr_encoding_len (ss_family a) in
    drop (Z.to_nat n) (in_addr a) = replicate (Z.to_nat (sizeof_in_addr - n)) 0 }.

Lemma sockaddr_len_cases family :
  get_sockaddr_encoding_len family = 16 ∨ get_sockaddr_encoding_len family = 28.
Proof. unfold get_sockaddr_encoding_len. repeat case_match; auto. Qed.

Lemma family_and_data a :
  addr_ok a →
  let n := get_sockaddr_encoding_len (ss_family a) in
  ceph_encode_16 (ss_family a) ++ take (Z.to_nat (n - 2)) (drop 2 (in_addr a))
    = take (Z.to_nat n) (in_addr a).
Proof.
  intros [_ _ Hlen Hb _] n. unfold sizeof_in_addr in Hlen.
  assert (Hn : n = 16 ∨ n = 28) by apply sockaddr_len_cases.
  assert (length (take 2 (in_addr a)) = 2%nat) as H2 by (rewrite length_take; lia).
  unfold ceph_encode_16, ss_family. rewrite <- H2 at 1.
  rewrite le_split_combine by (rewrite <- (take_drop 2) in Hb; by apply Forall_app in Hb as [? _]).
  rewrite take_take_drop. f_equal. lia.
Qed.

Lemma length_encode_entity_addr a :
  addr_ok a → Z.of_nat (length (ceph_encode_entity_addr a)) = ceph_entity_addr_encoding_len a.
Proof.
  intros Ha. pose proof (family_and_data a Ha) as Hfam. destruct Ha as [_ _ Hlen _ _].
  unfold sizeof_in_addr in Hlen. cbv zeta in Hfam.
  unfold ceph_encode_entity_addr, ceph_entity_addr_encoding_len, CEPH_ENCODING_START_BLK_LEN.
  rewrite Hfam. unfold ceph_start_encoding.
  rewrite !length_app, length_take. pose proof (sockaddr_len_cases (ss_family a)).
  simpl length. lia.
Qed.

Lemma parses_entity_addr {S} off a :
  addr_ok a → parses (S := S) off (λ buf e, ceph_decode_entity_addr buf e) (ceph_encode_entity_addr a) a.
Proof.
  intros Ha. pose proof (family_and_data a Ha) as Hfam. cbv zeta in Hfam.
  destruct Ha as [Htype Hnonce Hlen Hb Htail]. unfold sizeof_in_addr in Hlen, Htail.
  unfold ceph_encode_entity_addr. cbv zeta. set (n := get_sockaddr_encoding_len (ss_family a)) in *.
  assert (Hn : n = 16 ∨ n = 28) by apply sockaddr_len_cases. cbv zeta in Htail.
  eapply parses_bind; [by apply parses_8_safe|]. cbv beta. simpl Z.eqb. cbv iota.
  unfold ceph_decode_entity_addr_versioned. rewrite Hfam.
  assert (Hl : length (take (Z.to_nat n) (in_addr a)) = Z.to_nat n) by (rewrite length_take; lia).
  eapply parses_start; try lia.
  { rewrite !length_app, Hl. simpl. lia. }
  eapply parses_bind_nil; [apply parses_pos|]. cbv beta zeta.
  eapply parses_bind; [by apply parses_copy_safe|].
  eapply parses_bind; [by apply parses_copy_safe|].
  eapply parses_bind; [apply parses_32_safe; lia|]. cbv beta.
  rewrite Z.gtb_ltb, (proj2 (Z.ltb_ge _ _)) by (unfold sizeof_in_addr; lia).
  unfold nonzero. rewrite (proj2 (Z.eqb_neq n 0)) by lia. cbn [negb].
  eapply parses_bind_ret.
  { eapply parses_bind_ret; [apply parses_copy_safe; by rewrite Hl, Z2Nat.id by lia|]. apply parses_ret. }
  eapply parses_bind_nil; [apply parses_seek; rewrite Hl; simpl length; lia|].
  unfold sizeof_in_addr, ceph_encode_32. rewrite <- Htail, take_drop, !le_combine_split by (simpl; lia).
  destruct a. apply parses_ret.
Qed.

(** ** Decoding anything

    [wpd d s p Q E]: from state [s] and position [p] the decoder returns; a result satisfies [Q],
    an error number and the state left satisfy [E]. *)
Definition wpd {S A} (d : D S A) (s : S) (p : Z) (Q : A → S → Z → Prop) (E : Z → S → Prop) : Prop :=
  wp (d s p) (λ '(r, s', p'), match r with inl a => Q a s' p' | inr e => E e s' end).

Section wpd.
Context {S : Type} (buf : list Z) (end_ : Z).
Hypothesis Hbuf : Forall byte buf.
Hypothesis Hend : end_ <= Z.of_nat (length buf).
Implicit Types (s : S) (p : Z) (E : Z → S → Prop).

Lemma wpd_ret {A} (a : A) s p Q E : Q a s p → wpd (mret a) s p Q E.
Proof. done. Qed.
Lemma wpd_fail {A} err s p (Q : A → S → Z → Prop) E : E err s → wpd (dfail err) s p Q E.
Proof. done. Qed.
Lemma wpd_bind {A B} (d : D S A) (f : A → D S B) s p Q E :
  wpd d s p (λ a s' p', wpd (f a) s' p' Q E) E → wpd (d ≫= f) s p Q E.
Proof.
  unfold wpd, mbind, D_bind. destruct (d s p) as [[[[a|e] s'] p']| |]; simpl; done.
Qed.
Lemma wpd_mono {A} (d : D S A) s p (Q Q' : A → S → Z → Prop) E :
  wpd d s p Q E → (∀ a s' p', Q a s' p' → Q' a s' p') → wpd d s p Q' E.
Proof.
  unfold wpd. intros H HQ. eapply wp_mono; [done|]. intros [[[a|e] s'] p']; [apply HQ|done].
Qed.
Lemma wpd_pos s p (Q : Z → S → Z → Prop) E : Q p s p → wpd dpos s p Q E.
Proof. done. Qed.
Lemma wpd_seek to s p (Q : unit → S → Z → Prop) E : Q tt s to → wpd (dseek to) s p Q E.
Proof. done. Qed.

Lemma wpd_need n bad s p (Q : unit → S → Z → Prop) E :
  (p + n <= end_ → p <= end_ → Q tt s p) → E bad s → wpd (ceph_decode_need end_ n bad) s p Q E.
Proof.
  intros HQ HE. unfold wpd, ceph_decode_need, ceph_has_room. rewrite Z.geb_leb.
  destruct (Z.leb_spec p end_), (Z.leb_spec n (end_ - p)); cbn [andb wp]; try done. apply HQ; lia.
Qed.

(** Reading what was checked for. *)
Lemma wpd_copy n s p (Q : list Z → S → Z → Prop) E :
  0 <= p → 0 <= n → p + n <= end_ →
  (∀ l, Forall byte l → Z.of_nat (length l) = n → Q l s (p + n)) →
  wpd (ceph_decode_copy buf n) s p Q E.
Proof.
  intros Hp Hn Hroom HQ. unfold wpd, ceph_decode_copy, slice.
  rewrite (proj2 (Z.leb_le _ _)), (proj2 (Z.leb_le _ _)), (proj2 (Z.leb_le _ _)) by lia.
  cbn [andb mbind outcome_bind wp]. apply HQ.
  - rewrite <- (take_drop (Z.to_nat p) buf) in Hbuf. apply Forall_app in Hbuf as [_ Hd].
    rewrite <- (take_drop (Z.to_nat n)) in Hd. by apply Forall_app in Hd as [? _].
  - rewrite length_take, length_drop. lia.
Qed.

Lemma wpd_le n s p (Q : Z → S → Z → Prop) E :
  0 <= p → 0 <= n → p + n <= end_ → (∀ x, 0 <= x < 2 ^ (8 * n) → Q x s (p + n)) →
  wpd (decode_le buf n) s p Q E.
Proof.
  intros Hp Hn Hroom HQ. unfold decode_le. apply wpd_bind. apply wpd_copy; try done.
  intros l Hl Hlen. apply wpd_ret, HQ. rewrite <- Hlen. by apply le_combine_range.
Qed.

Lemma wpd_le_safe n bad s p (Q : Z → S → Z → Prop) E :
  0 <= p → 0 <= n → (∀ x, p + n <= end_ → 0 <= x < 2 ^ (8 * n) → Q x s (p + n)) → E bad s →
  wpd (_ ← ceph_decode_need end_ n bad; decode_le buf n) s p Q E.
Proof.
  intros Hp Hn HQ HE. apply wpd_bind, wpd_need; [|done]. intros Hroom _.
  apply wpd_le; try done. intros x Hx. by apply HQ.
Qed.

Lemma wpd_copy_safe n bad s p (Q : list Z → S → Z → Prop) E :
  0 <= p → 0 <= n →
  (∀ l, p + n <= end_ → Forall byte l → Z.of_nat (length l) = n → Q l s (p + n)) → E bad s →
  wpd (ceph_decode_copy_safe buf end_ n bad) s p Q E.
Proof.
  intros Hp Hn HQ HE. apply wpd_bind, wpd_need; [|done]. intros Hroom _.
  apply wpd_copy; try done. intros l ??. by apply HQ.
Qed.

Lemma wpd_skip_n n bad s p (Q : unit → S → Z → Prop) E :
  (p + n <= end_ → Q tt s (p + n)) → E bad s → wpd (ceph_decode_skip_n end_ n bad) s p Q E.
Proof. intros HQ HE. apply wpd_bind, wpd_need; [|done]. intros Hroom _. by apply HQ. Qed.

Lemma wpd_start v s p (Q : Z * Z → S → Z → Prop) E :
  0 <= p → E (- ERANGE) s → E (- EINVAL) s →
  (∀ sv len, 0 <= len < 2 ^ 32 → p + 6 + len <= end_ → Q (sv, len) s (p + 6)) →
  wpd (ceph_start_decoding buf end_ v) s p Q E.
Proof.
  intros Hp HE1 HE2 HQ. unfold ceph_start_decoding. apply wpd_bind, wpd_need; [|done].
  unfold CEPH_ENCODING_START_BLK_LEN. intros Hroom _.
  apply wpd_bind, wpd_le; [lia..|]. intros sv _. apply wpd_bind, wpd_le; [lia..|]. intros sc _.
  case_match; [by apply wpd_fail|]. apply wpd_bind, wpd_le; [lia..|]. intros len Hlen.
  apply wpd_bind, wpd_need; [|done]. intros Hroom' _. apply wpd_ret.
  replace (p + 1 + 1 + 4) with (p + 6) in * by lia. apply HQ; lia.
Qed.
End wpd.

(** One step of a [wpd] proof. *)
Ltac wpd_step :=
  lazymatch goal with
  | |- wpd (_ ≫= _) _ _ _ _ => apply wpd_bind
  | |- wpd (mret _) _ _ _ _ => apply wpd_ret
  | |- wpd (dfail _) _ _ _ _ => apply wpd_fail
  | |- wpd dpos _ _ _ _ => apply wpd_pos
  | |- wpd (dseek _) _ _ _ _ => apply wpd_seek
  | |- wpd (ceph_decode_need _ _ _) _ _ _ _ => apply wpd_need
  | Hb : Forall byte ?buf, He : ?e <= Z.of_nat (length ?buf) |- wpd (?d ?buf) _ _ _ _ =>
      lazymatch d with
      | ceph_decode_8 => apply (wpd_le buf e Hb He 1)
      | ceph_decode_16 => apply (wpd_le buf e Hb He 2)
      | ceph_decode_32 => apply (wpd_le buf e Hb He 4)
      | ceph_decode_64 => apply (wpd_le buf e Hb He 8)
      end
  | Hb : Forall byte ?buf, He : ?e <= Z.of_nat (length ?buf) |- wpd (ceph_decode_copy ?buf _) _ _ _ _ =>
      apply (wpd_copy buf e Hb He)
  | |- wpd (ceph_decode_skip_n _ _ _) _ _ _ _ => apply wpd_skip_n
  | Hb : Forall byte ?buf, He : ?e <= Z.of_nat (length ?buf) |- wpd (?d ?buf ?e _) _ _ _ _ =>
      lazymatch d with
      | ceph_decode_8_safe => apply (wpd_le_safe buf e Hb He 1)
      | ceph_decode_16_safe => apply (wpd_le_safe buf e Hb He 2)
      | ceph_decode_32_safe => apply (wpd_le_safe buf e Hb He 4)
      | ceph_decode_64_safe => apply (wpd_le_safe buf e Hb He 8)
      | ceph_start_decoding => apply (wpd_start buf e Hb He)
      end
  | Hb : Forall byte ?buf, He : ?e <= Z.of_nat (length ?buf) |- wpd (ceph_decode_copy_safe ?buf ?e _ _) _ _ _ _ =>
      apply (wpd_copy_safe buf e Hb He)
  | |- wpd (if ?b then _ else _) _ _ _ _ => destruct b eqn:?
  | |- wpd (let '(_, _) := ?x in _) _ _ _ _ => destruct x
  end; cbv beta.

(** An address in memory, whatever was received. *)
Definition addr_shape (a : ceph_entity_addr) : Prop :=
  0 <= addr_type a < 2 ^ 32 ∧ 0 <= addr_nonce a < 2 ^ 32
  ∧ Z.of_nat (length (in_addr a)) = sizeof_in_addr ∧ Forall byte (in_addr a).

Lemma Forall_byte_zeros n : Forall byte (replicate n 0).
Proof. apply Forall_replicate. unfold byte. lia. Qed.

Lemma le_combine_4 l : Forall byte l → Z.of_nat (length l) = 4 → 0 <= le_combine l < 2 ^ 32.
Proof. intros Hl Hlen. pose proof (le_combine_range l Hl). by rewrite Hlen in *. Qed.

Section addresses.
Context {S : Type} (buf : list Z) (end_ : Z).
Hypothesis Hbuf : Forall byte buf.
Hypothesis Hend : end_ <= Z.of_nat (length buf).

Definition negative_error (e : Z) (s : S) : Prop := e < 0.

Lemma wpd_entity_addr s p (Q : ceph_entity_addr → S → Z → Prop) :
  0 <= p → (∀ a p', addr_shape a → p < p' <= end_ → Q a s p') →
  wpd (ceph_decode_entity_addr buf end_) s p Q negative_error.
Proof.
  intros Hp HQ. unfold ceph_decode_entity_addr.
  repeat wpd_step; try done; try lia. intros marker Hroom _. wpd_step.
  - unfold ceph_decode_entity_addr_versioned. repeat wpd_step; try done; try lia.
    intros sv len Hlen Hblock. wpd_step. repeat (wpd_step; try done; try lia).
    intros type Hr1 Htype Htl. repeat (wpd_step; try done; try lia).
    intros nonce Hr2 Hnonce Hnl. repeat (wpd_step; try done; try lia).
    intros addr_len Hr3 Hal. wpd_step; [by apply wpd_fail|]. bool_to_prop.
    unfold sizeof_in_addr in *. repeat (wpd_step; try done; try lia).
    + intros l Hr4 Hl Hll. repeat wpd_step. apply HQ; [|lia].
      split; [by apply le_combine_4|]. split; [by apply le_combine_4|]. simpl.
      split; [rewrite length_app, length_replicate; unfold sizeof_in_addr; lia|].
      apply Forall_app. split; [done|apply Forall_byte_zeros].
    + apply HQ; [|lia]. split; [by apply le_combine_4|]. split; [by apply le_combine_4|]. simpl.
      split; [done|]. apply (Forall_byte_zeros 128).
  - wpd_step; [|by apply wpd_fail].
    unfold ceph_decode_entity_addr_legacy, sizeof_in_addr. repeat (wpd_step; try done; try lia).
    intros Hr1. repeat (wpd_step; try done; try lia). intros nonce Hr2 Hnonce Hnl.
    repeat (wpd_step; try done; try lia). intros ia Hr3 Hia Hial.
    repeat wpd_step. apply HQ; [|lia]. split; [simpl; unfold CEPH_ENTITY_ADDR_TYPE_LEGACY; lia|].
    split; [by apply le_combine_4|]. simpl. destruct ia as [|b0 [|b1 ia]]; try (simpl in *; lia).
    split; [done|]. apply Forall_cons in Hia as [? [? ?]%Forall_cons].
    apply Forall_cons. split; [done|]. apply Forall_cons. by split.
Qed.
End addresses.

Section addrvec.
Context {S : Type} (buf : list Z) (end_ : Z).
Hypothesis Hbuf : Forall byte buf.
Hypothesis Hend : end_ <= Z.of_nat (length buf).

Definition found_ok (my_type : Z) (o : option ceph_entity_addr) : Prop :=
  ∀ a, o = Some a → addr_shape a ∧ addr_type a = my_type.

Lemma wpd_addrvec_loop n my_type found tmp (s : S) p :
  0 <= p <= end_ → found_ok my_type found →
  wpd (addrvec_loop buf end_ n my_type found tmp) s p
    (λ '(found', _) s' p', s' = s ∧ p <= p' <= end_ ∧ found_ok my_type found') negative_error.
Proof.
  revert found tmp p. induction n as [|n IH]; intros found tmp p Hp Hf; cbn [addrvec_loop].
  - wpd_step. split_and!; try done; lia.
  - wpd_step. apply wpd_entity_addr; try done; [lia|]. intros a p' Ha Hp'.
    assert (Hgo : ∀ found', found_ok my_type found' →
      wpd (addrvec_loop buf end_ n my_type found' (Some a)) s p'
        (λ '(found', _) s' p', s' = s ∧ p <= p' <= end_ ∧ found_ok my_type found') negative_error).
    { intros found' Hf'. eapply wpd_mono; [apply IH; [lia|done]|].
      intros [f t] s' p'' (-> & ? & ?). split_and!; try done; lia. }
    wpd_step; [|by apply Hgo]. bool_to_prop.
    destruct found; [by apply wpd_fail|]. apply Hgo. by intros a' [= <-].
Qed.

(** Whatever bytes a peer sends as a vector of addresses, decoding them ends, reads nothing
    outside the buffer and the position stays before the end; the result is an error number, or
    an address of the wanted kind that fills its structure, or none. *)
Theorem ceph_decode_entity_addrvec_safe (msgr2 : bool) (s : S) (p : Z) (Hp : 0 <= p) :
  wpd (ceph_decode_entity_addrvec buf end_ msgr2) s p
    (λ o s' p', s' = s ∧ p < p' <= end_
       ∧ found_ok (if msgr2 then CEPH_ENTITY_ADDR_TYPE_MSGR2 else CEPH_ENTITY_ADDR_TYPE_LEGACY) o)
    negative_error.
Proof.
  unfold ceph_decode_entity_addrvec. repeat (wpd_step; try done; try lia).
  intros marker Hr Hm. wpd_step; [by apply wpd_fail|]. repeat (wpd_step; try done; try lia).
  intros cnt Hr' Hc. wpd_step. eapply wpd_mono; [apply wpd_addrvec_loop; [lia|done]|].
  intros [found tmp] s' p' (-> & Hp' & Hf). destruct found as [a|].
  - wpd_step. split_and!; try done; lia.
  - repeat case_match; try (by apply wpd_fail); wpd_step; split_and!; try done; lia.
Qed.
End addrvec.

(** Addresses survive the wire.  Encoding writes exactly as many bytes as predicted, and
    decoding them, wherever they stand in a message, gives the address back and stops behind
    them. *)
Theorem ceph_decode_encode_entity_addr {S : Type} (a : ceph_entity_addr) (pre post : list Z)
    (end_ : Z) (s : S) (Ha : addr_ok a)
    (Hend : Z.of_nat (length pre) + ceph_entity_addr_encoding_len a <= end_) :
  Z.of_nat (length (ceph_encode_entity_addr a)) = ceph_entity_addr_encoding_len a
  ∧ ceph_decode_entity_addr (pre ++ ceph_encode_entity_addr a ++ post) end_ s (Z.of_nat (length pre))
    = Ret (inl a, s, Z.of_nat (length pre) + ceph_entity_addr_encoding_len a).
Proof.
  pose proof (length_encode_entity_addr a Ha) as Hlen. split; [done|]. rewrite <- Hlen in *.
  by apply (parses_entity_addr _ a Ha).
Qed.

Definition ex_addr : ceph_entity_addr :=
  CephEntityAddr CEPH_ENTITY_ADDR_TYPE_MSGR2 7
    ([2; 0; 0x1a; 0x90; 10; 0; 0; 1] ++ replicate 120 0).

Lemma ex_addr_ok : addr_ok ex_addr.
Proof.
  split.
  - by vm_compute.
  - by vm_compute.
  - done.
  - unfold in_addr, ex_addr. apply Forall_app. split; [|apply (Forall_byte_zeros)].
    repeat (apply Forall_cons; split; [unfold byte; lia|]). apply Forall_nil_2.
  - done.
Qed.

Lemma ceph_decode_encode_entity_addr_witness :
  addr_ok ex_addr ∧
  ceph_decode_entity_addr ([1; 2; 3] ++ ceph_encode_entity_addr ex_addr ++ [9]) 38 tt 3
    = Ret (inl ex_addr, tt, 38).
Proof.
  split; [exact ex_addr_ok|].
  apply (ceph_decode_encode_entity_addr ex_addr [1; 2; 3] [9] 38 tt ex_addr_ok).
  vm_compute. discriminate.
Defined.

Lemma ceph_decode_entity_addrvec_safe_witness :
  wpd (ceph_decode_entity_addrvec [2; 255; 255; 255; 255; 1; 1] 7 true) tt 0
    (λ o s' p', s' = tt ∧ 0 < p' <= 7 ∧ found_ok CEPH_ENTITY_ADDR_TYPE_MSGR2 o) negative_error.
Proof.
  apply (ceph_decode_entity_addrvec_safe [2; 255; 255; 255; 255; 1; 1] 7
    ltac:(repeat (apply Forall_cons; split; [unfold byte; lia|]); apply Forall_nil_2)
    ltac:(simpl; lia) true tt 0 ltac:(lia)).
Defined.
