(* ===== verification/CrushDecode.v ===== *)
(** * Decoding the CRUSH map (libceph/osdmap.c, [crush_decode] and what it calls)

    The decoder fills the map it has allocated; on any error it destroys what is there.  The
    state is that map, so that what an error leaves behind is what is destroyed. *)
From S2P Require Import Prelude Hash Crush Mapper Choose DoRule Workspace OsdMap Decode.

(** ** Allocation

    Whether the allocation a line of the code asks for at a position of the input succeeds. *)
Inductive alloc_site :=
  | A_map | A_buckets | A_rules | A_bucket | A_items | A_item_weights | A_sum_weights
  | A_node_weights | A_straws | A_rule | A_name | A_arg_map | A_args | A_weight_set | A_array
  | A_osdmap | A_pool | A_pool_name | A_mapping | A_osd_arrays | A_osd_affinity | A_affinity
  | A_workspace.

(** ** The fields the decoder writes *)

Definition with_sizes (mb mr md : Z) (m : crush_map) : crush_map :=
  CrushMap (buckets m) (rules m) mb mr md (choose_local_tries m) (choose_local_fallback_tries m)
    (choose_total_tries m) (chooseleaf_descend_once m) (chooseleaf_vary_r m) (chooseleaf_stable m)
    (working_size m) (type_names m) (names m) (choose_args m).
Definition with_buckets (bs : list (option crush_bucket)) (m : crush_map) : crush_map :=
  CrushMap bs (rules m) (max_buckets m) (max_rules m) (max_devices m) (choose_local_tries m)
    (choose_local_fallback_tries m) (choose_total_tries m) (chooseleaf_descend_once m)
    (chooseleaf_vary_r m) (chooseleaf_stable m) (working_size m) (type_names m) (names m)
    (choose_args m).
Definition with_rules (rs : list (option crush_rule)) (m : crush_map) : crush_map :=
  CrushMap (buckets m) rs (max_buckets m) (max_rules m) (max_devices m) (choose_local_tries m)
    (choose_local_fallback_tries m) (choose_total_tries m) (chooseleaf_descend_once m)
    (chooseleaf_vary_r m) (chooseleaf_stable m) (working_size m) (type_names m) (names m)
    (choose_args m).
Definition with_tries (lt lft tt : Z) (m : crush_map) : crush_map :=
  CrushMap (buckets m) (rules m) (max_buckets m) (max_rules m) (max_devices m) lt lft tt
    (chooseleaf_descend_once m) (chooseleaf_vary_r m) (chooseleaf_stable m) (working_size m)
    (type_names m) (names m) (choose_args m).
Definition with_chooseleaf (once vary stable : Z) (m : crush_map) : crush_map :=
  CrushMap (buckets m) (rules m) (max_buckets m) (max_rules m) (max_devices m)
    (choose_local_tries m) (choose_local_fallback_tries m) (choose_total_tries m) once vary stable
    (working_size m) (type_names m) (names m) (choose_args m).
Definition with_type_names (t : gmap Z (list Z)) (m : crush_map) : crush_map :=
  CrushMap (buckets m) (rules m) (max_buckets m) (max_rules m) (max_devices m)
    (choose_local_tries m) (choose_local_fallback_tries m) (choose_total_tries m)
    (chooseleaf_descend_once m) (chooseleaf_vary_r m) (chooseleaf_stable m) (working_size m) t
    (names m) (choose_args m).
Definition with_names (t : gmap Z (list Z)) (m : crush_map) : crush_map :=
  CrushMap (buckets m) (rules m) (max_buckets m) (max_rules m) (max_devices m)
    (choose_local_tries m) (choose_local_fallback_tries m) (choose_total_tries m)
    (chooseleaf_descend_once m) (chooseleaf_vary_r m) (chooseleaf_stable m) (working_size m)
    (type_names m) t (choose_args m).
Definition with_choose_args (t : gmap Z crush_choose_arg_map) (m : crush_map) : crush_map :=
  CrushMap (buckets m) (rules m) (max_buckets m) (max_rules m) (max_devices m)
    (choose_local_tries m) (choose_local_fallback_tries m) (choose_total_tries m)
    (chooseleaf_descend_once m) (chooseleaf_vary_r m) (chooseleaf_stable m) (working_size m)
    (type_names m) (names m) t.

Definition with_body (body : bucket_body) (b : crush_bucket) : crush_bucket :=
  CrushBucket (b_id b) (b_type b) (b_alg b) (b_hash b) (b_weight b) (b_size b) (b_items b) body.
Definition with_items (items : list Z) (b : crush_bucket) : crush_bucket :=
  CrushBucket (b_id b) (b_type b) (b_alg b) (b_hash b) (b_weight b) (b_size b) items (b_body b).

(** Zeroed memory: the pointers behind the header are null. *)
Definition zero_bucket (body : bucket_body) : crush_bucket := CrushBucket 0 0 0 0 0 0 [] body.
Definition zero_map : crush_map := CrushMap [] [] 0 0 0 0 0 0 0 0 0 0 ∅ ∅ ∅.
Definition zero_arg : crush_choose_arg := CrushChooseArg None 0 None 0.

Section crush_decode.
Context (buf : list Z) (end_ : Z).
(** By line of the code, position reached and bytes asked for. *)
Context (alloc_ok : alloc_site → Z → Z → bool).

Definition kmalloc {S} (site : alloc_site) (bytes : Z) : D S unit := λ s p,
  Ret (if alloc_ok site p bytes then inl tt else inr (- ENOMEM), s, p).

(** ** Buckets *)

Definition get_bucket (i : Z) : D crush_map crush_bucket :=
  m ← dget; o ← dlift (aget (buckets m) i); dlift (deref o).
Definition put_bucket (i : Z) (o : option crush_bucket) : D crush_map unit :=
  m ← dget; bs ← dlift (aset (buckets m) i o); dput (with_buckets bs m).

Definition crush_decode_uniform_bucket (i : Z) : D crush_map unit :=
  b ← get_bucket i;
  _ ← ceph_decode_need end_ (u32 (1 + b_size b) * 4) (- EINVAL);
  w ← ceph_decode_32 buf;
  _ ← dlift (as_uniform b);
  put_bucket i (Some (with_body (crush_bucket_uniform w) b)).

(** Two words for each item: the arrays are filled in step. *)
Definition decode_pair : D crush_map (Z * Z) :=
  x ← ceph_decode_32 buf; y ← ceph_decode_32 buf; mret (x, y).

Definition crush_decode_list_bucket (i : Z) : D crush_map unit :=
  b ← get_bucket i;
  _ ← kmalloc A_item_weights (b_size b * 4);
  _ ← dlift (as_list b);
  _ ← kmalloc A_sum_weights (b_size b * 4);
  _ ← ceph_decode_need end_ (u32 (2 * b_size b) * 4) (- EINVAL);
  ws ← drepeat (Z.to_nat (b_size b)) decode_pair;
  put_bucket i (Some (with_body (crush_bucket_list (map fst ws) (map snd ws)) b)).

Definition crush_decode_tree_bucket (i : Z) : D crush_map unit :=
  b ← get_bucket i;
  num_nodes ← ceph_decode_8_safe buf end_ (- EINVAL);
  _ ← dlift (as_tree b);
  _ ← put_bucket i (Some (with_body (crush_bucket_tree num_nodes []) b));
  _ ← kmalloc A_node_weights (num_nodes * 4);
  _ ← ceph_decode_need end_ (num_nodes * 4) (- EINVAL);
  nw ← drepeat (Z.to_nat num_nodes) (ceph_decode_32 buf);
  put_bucket i (Some (with_body (crush_bucket_tree num_nodes nw) b)).

Definition crush_decode_straw_bucket (i : Z) : D crush_map unit :=
  b ← get_bucket i;
  _ ← kmalloc A_item_weights (b_size b * 4);
  _ ← dlift (as_straw b);
  _ ← kmalloc A_straws (b_size b * 4);
  _ ← ceph_decode_need end_ (u32 (2 * b_size b) * 4) (- EINVAL);
  ws ← drepeat (Z.to_nat (b_size b)) decode_pair;
  put_bucket i (Some (with_body (crush_bucket_straw (map fst ws) (map snd ws)) b)).

Definition crush_decode_straw2_bucket (i : Z) : D crush_map unit :=
  b ← get_bucket i;
  _ ← kmalloc A_item_weights (b_size b * 4);
  _ ← dlift (as_straw2 b);
  _ ← ceph_decode_need end_ (b_size b * 4) (- EINVAL);
  ws ← drepeat (Z.to_nat (b_size b)) (ceph_decode_32 buf);
  put_bucket i (Some (with_body (crush_bucket_straw2 ws) b)).

(** What the first [alg], a whole word, has allocated: the body behind the header and its size. *)
Definition alloc_body (alg : Z) : option (bucket_body * Z) :=
  if alg =? CRUSH_BUCKET_UNIFORM then Some (crush_bucket_uniform 0, 32)
  else if alg =? CRUSH_BUCKET_LIST then Some (crush_bucket_list [] [], 40)
  else if alg =? CRUSH_BUCKET_TREE then Some (crush_bucket_tree 0 [], 40)
  else if alg =? CRUSH_BUCKET_STRAW then Some (crush_bucket_straw [] [], 40)
  else if alg =? CRUSH_BUCKET_STRAW2 then Some (crush_bucket_straw2 [], 32)
  else None.

(** The decoder the [alg] byte of the header chooses. *)
Definition decode_body (alg i : Z) : D crush_map unit :=
  if alg =? CRUSH_BUCKET_UNIFORM then crush_decode_uniform_bucket i
  else if alg =? CRUSH_BUCKET_LIST then crush_decode_list_bucket i
  else if alg =? CRUSH_BUCKET_TREE then crush_decode_tree_bucket i
  else if alg =? CRUSH_BUCKET_STRAW then crush_decode_straw_bucket i
  else if alg =? CRUSH_BUCKET_STRAW2 then crush_decode_straw2_bucket i
  else mret tt.

Definition decode_header (body : bucket_body) : D crush_map crush_bucket :=
  id ← ceph_decode_32 buf;
  type ← ceph_decode_16 buf;
  alg ← ceph_decode_8 buf;
  hash ← ceph_decode_8 buf;
  weight ← ceph_decode_32 buf;
  size ← ceph_decode_32 buf;
  mret (CrushBucket (s32 id) type alg hash weight size [] body).

Definition decode_bucket (i : Z) : D crush_map unit :=
  alg ← ceph_decode_32_safe buf end_ (- EINVAL);
  if alg =? 0 then put_bucket i None
  else
    match alloc_body alg with
    | None => dfail (- EINVAL)
    | Some (body, size) =>
        _ ← kmalloc A_bucket size;
        _ ← put_bucket i (Some (zero_bucket body));
        _ ← ceph_decode_need end_ (4 * 4) (- EINVAL);
        b ← decode_header body;
        _ ← put_bucket i (Some b);
        _ ← kmalloc A_items (b_size b * 4);
        _ ← ceph_decode_need end_ (b_size b * 4) (- EINVAL);
        items ← drepeat (Z.to_nat (b_size b)) (ceph_decode_32 buf);
        _ ← put_bucket i (Some (with_items (map s32 items) b));
        decode_body (b_alg b) i
    end.

(** ** Rules *)

Definition decode_mask (l : list Z) : crush_rule_mask :=
  CrushRuleMask (nth 0 l 0) (nth 1 l 0) (nth 2 l 0) (nth 3 l 0).

Definition decode_rule_step : D crush_map crush_rule_step :=
  op ← ceph_decode_32 buf;
  arg1 ← ceph_decode_32 buf;
  arg2 ← ceph_decode_32 buf;
  mret (CrushRuleStep op (s32 arg1) (s32 arg2)).

Definition put_rule (i : Z) (o : option crush_rule) : D crush_map unit :=
  m ← dget; rs ← dlift (aset (rules m) i o); dput (with_rules rs m).

(** The block of a rule is in the map before its content is read. *)
Definition decode_rule (i : Z) : D crush_map unit :=
  yes ← ceph_decode_32_safe buf end_ (- EINVAL);
  if yes =? 0 then put_rule i None
  else
    len ← ceph_decode_32_safe buf end_ (- EINVAL);
    _ ← kmalloc A_rule (8 + 12 * len);
    _ ← put_rule i (Some (CrushRule len (CrushRuleMask 0 0 0 0) []));
    mask ← ceph_decode_copy_safe buf end_ 4 (- EINVAL);
    _ ← ceph_decode_need end_ (u32 (len * 3) * 4) (- EINVAL);
    steps ← drepeat (Z.to_nat len) decode_rule_step;
    put_rule i (Some (CrushRule len (decode_mask mask) steps)).

(** ** Names *)

Definition decode_crush_name : D (gmap Z (list Z)) unit :=
  id ← ceph_decode_32_safe buf end_ (- EINVAL);
  name_len ← ceph_decode_32_safe buf end_ (- EINVAL);
  _ ← ceph_decode_need end_ name_len (- EINVAL);
  _ ← kmalloc A_name (32 + name_len + 1);
  name ← ceph_decode_copy buf name_len;
  root ← dget;
  match rb_try_insert (s32 id) name root with
  | Some root => dput root
  | None => dfail (- EEXIST)
  end.

Definition decode_crush_names : D (gmap Z (list Z)) unit :=
  n ← ceph_decode_32_safe buf end_ (- EINVAL);
  dloop n decode_crush_name.

(** ** Weight sets

    An array of no elements is a null pointer. *)
Definition decode_array_32_alloc {S} : D S (option (list Z) * Z) :=
  len ← ceph_decode_32_safe buf end_ (- EINVAL);
  if nonzero len then
    _ ← kmalloc A_array (len * 4);
    _ ← ceph_decode_need end_ (len * 4) (- EINVAL);
    a ← drepeat (Z.to_nat len) (ceph_decode_32 buf);
    mret (Some a, len)
  else mret (None, 0).

Definition with_args (args : list crush_choose_arg) (am : crush_choose_arg_map)
    : crush_choose_arg_map := CrushChooseArgMap (ca_index am) args (ca_size am).
Definition get_arg (i : Z) : D crush_choose_arg_map crush_choose_arg :=
  am ← dget; dlift (aget (ca_args am) i).
Definition put_arg (i : Z) (arg : crush_choose_arg) : D crush_choose_arg_map unit :=
  am ← dget; args ← dlift (aset (ca_args am) i arg); dput (with_args args am).

Definition with_weight_set (wss : option (list crush_weight_set)) (n : Z) (arg : crush_choose_arg) :=
  CrushChooseArg (arg_ids arg) (arg_ids_size arg) wss n.
Definition with_ids (ids : option (list Z)) (n : Z) (arg : crush_choose_arg) :=
  CrushChooseArg ids n (arg_weight_set arg) (arg_weight_set_size arg).

(** The sets are in memory that was not cleared: the list is what has been written of it. *)
Definition push_weight_set (i : Z) (ws : crush_weight_set) : D crush_choose_arg_map unit :=
  arg ← get_arg i;
  wss ← dlift (deref (arg_weight_set arg));
  put_arg i (with_weight_set (Some (wss ++ [ws])) (arg_weight_set_size arg) arg).

Definition decode_weight_set (i : Z) : D crush_choose_arg_map unit :=
  '(a, n) ← dcatch decode_array_32_alloc
    (λ err, _ ← push_weight_set i (CrushWeightSet [] 0); dfail err);
  push_weight_set i (CrushWeightSet (default [] a) n).

Definition decode_choose_arg (i : Z) : D crush_choose_arg_map unit :=
  n ← ceph_decode_32_safe buf end_ (- EINVAL);
  arg ← get_arg i;
  _ ← put_arg i (with_weight_set (arg_weight_set arg) n arg);
  _ ← dwhen (nonzero n)
        (_ ← dcatch (kmalloc A_weight_set (n * 16))
               (λ err, arg ← get_arg i; _ ← put_arg i (with_weight_set None n arg); dfail err);
         arg ← get_arg i;
         _ ← put_arg i (with_weight_set (Some []) n arg);
         dloop n (decode_weight_set i));
  '(ids, ids_size) ← dcatch decode_array_32_alloc
    (λ err, arg ← get_arg i; _ ← put_arg i (with_ids None (arg_ids_size arg) arg); dfail err);
  arg ← get_arg i;
  put_arg i (with_ids (map s32 <$> ids) ids_size arg).

(** One argument of a map of them; the ids of a bucket that is not there are a null pointer
    followed. *)
Definition decode_choose_args_entry (c : crush_map) : D crush_choose_arg_map unit :=
  bucket_index ← ceph_decode_32_safe buf end_ (- EINVAL);
  am ← dget;
  if bucket_index >=? ca_size am then dfail (- EINVAL)
  else
    _ ← decode_choose_arg bucket_index;
    arg ← get_arg bucket_index;
    if nonzero (arg_ids_size arg) then
      o ← dlift (aget (buckets c) bucket_index);
      b ← dlift (deref o);
      if negb (arg_ids_size arg =? b_size b) then dfail (- EINVAL) else mret tt
    else mret tt.

Definition decode_choose_arg_map (c : crush_map) : D crush_choose_arg_map unit :=
  index ← ceph_decode_64_safe buf end_ (- EINVAL);
  _ ← dput (CrushChooseArgMap (s64 index) [] (max_buckets c));
  _ ← kmalloc A_args (max_buckets c * 32);
  _ ← dmodify (with_args (replicate (Z.to_nat (max_buckets c)) zero_arg));
  num_buckets ← ceph_decode_32_safe buf end_ (- EINVAL);
  dloop num_buckets (decode_choose_args_entry c).

Definition decode_choose_args : D crush_map unit :=
  num_choose_arg_maps ← ceph_decode_32_safe buf end_ (- EINVAL);
  dloop num_choose_arg_maps
    (_ ← kmalloc A_arg_map 48;
     c ← dget;
     '(_, am) ← dlocal (CrushChooseArgMap 0 [] 0) (decode_choose_arg_map c)
       (λ am, _ ← free_choose_arg_map (ca_index am) am; Ret tt);
     t ← dlift (rb_insert (ca_index am) am (choose_args c));
     dput (with_choose_args t c)).

(** ** The map *)

(** [if ( *p != end)] *)
Definition if_more (d : D crush_map unit) : D crush_map unit :=
  p ← dpos; dwhen (negb (p =? end_)) d.

Definition skip_classes : D crush_map unit :=
  _ ← ceph_decode_skip_map buf end_ (ceph_decode_skip_32 end_) (ceph_decode_skip_32 end_) (- EINVAL);
  _ ← ceph_decode_skip_map buf end_ (ceph_decode_skip_32 end_) (ceph_decode_skip_string buf end_)
        (- EINVAL);
  ceph_decode_skip_map_of_map buf end_ (ceph_decode_skip_32 end_) (ceph_decode_skip_32 end_)
    (ceph_decode_skip_32 end_) (- EINVAL).

(** Each group of tunables may be missing, with all that follow. *)
Definition decode_stable : D crush_map unit :=
  ceph_decode_need_done end_ 1
    (stable ← ceph_decode_8 buf;
     _ ← dmodify (λ c, with_chooseleaf (chooseleaf_descend_once c) (chooseleaf_vary_r c) stable c);
     _ ← if_more skip_classes;
     if_more decode_choose_args).
Definition decode_straw_calc : D crush_map unit :=
  ceph_decode_need_done end_ (1 + 4) (_ ← dskip (1 + 4); decode_stable).
Definition decode_vary_r : D crush_map unit :=
  ceph_decode_need_done end_ 1
    (vary ← ceph_decode_8 buf;
     _ ← dmodify (λ c, with_chooseleaf (chooseleaf_descend_once c) vary (chooseleaf_stable c) c);
     decode_straw_calc).
Definition decode_descend_once : D crush_map unit :=
  ceph_decode_need_done end_ 4
    (once ← ceph_decode_32 buf;
     _ ← dmodify (λ c, with_chooseleaf once (chooseleaf_vary_r c) (chooseleaf_stable c) c);
     decode_vary_r).
Definition decode_tunables : D crush_map unit :=
  ceph_decode_need_done end_ (3 * 4)
    (local ← ceph_decode_32 buf;
     fallback ← ceph_decode_32 buf;
     total ← ceph_decode_32 buf;
     _ ← dmodify (with_tries local fallback total);
     decode_descend_once).

Definition decode_map : D crush_map unit :=
  _ ← dput (with_tries 2 5 19 zero_map);
  _ ← ceph_decode_need end_ (4 * 4) (- EINVAL);
  magic ← ceph_decode_32 buf;
  if negb (magic =? CRUSH_MAGIC) then dfail (- EINVAL)
  else
    mb ← ceph_decode_32 buf;
    mr ← ceph_decode_32 buf;
    md ← ceph_decode_32 buf;
    _ ← dmodify (with_sizes (s32 mb) mr (s32 md));
    _ ← (if s32 mb <? 0 then dfail (- ENOMEM) else kmalloc A_buckets (s32 mb * 8));
    _ ← dmodify (with_buckets (replicate (Z.to_nat (s32 mb)) None));
    _ ← kmalloc A_rules (mr * 8);
    _ ← dmodify (with_rules (replicate (Z.to_nat mr) None));
    _ ← dfor (Z.to_nat (s32 mb)) 0 decode_bucket;
    _ ← dfor (Z.to_nat mr) 0 decode_rule;
    _ ← dzoom type_names with_type_names decode_crush_names;
    _ ← dzoom names with_names decode_crush_names;
    _ ← ceph_decode_skip_map buf end_ (ceph_decode_skip_32 end_)
          (ceph_decode_skip_string buf end_) (- EINVAL);
    decode_tunables.

(** The map, or the error number after the map has been destroyed. *)
Definition crush_decode (pbyval : Z) : outcome (crush_map + Z) :=
  if negb (alloc_ok A_map pbyval 128) then Ret (inr (- ENOMEM))
  else
    '(r, c, _) ← decode_map zero_map pbyval;
    match r with
    | inl _ => c ← crush_finalize c; Ret (inl c)
    | inr err => _ ← crush_destroy c; Ret (inr err)
    end.
End crush_decode.
