(* ===== verification/CrushWire.v ===== *)
(** * The wire format of CRUSH maps, and the decoder against it

    A reference encoder: the format the monitors send, written from its description and not from
    the decoder.  [crush_decode] gives back every map it can express. *)
From S2P Require Import Prelude Hash Crush Mapper Choose DoRule Workspace OsdMap Decode CrushDecode.

(** ** The format *)

Definition enc_words (l : list Z) : list Z := concat (map ceph_encode_32 l).
Definition enc_ints (l : list Z) : list Z := enc_words (map u32 l).
Definition enc_pair (xy : Z * Z) : list Z := ceph_encode_32 xy.1 ++ ceph_encode_32 xy.2.
Definition enc_pairs (l k : list Z) : list Z := concat (map enc_pair (zip l k)).

Definition enc_body (body : bucket_body) : list Z :=
  match body with
  | crush_bucket_uniform w => ceph_encode_32 w
  | crush_bucket_list iw sw => enc_pairs iw sw
  | crush_bucket_tree n nw => ceph_encode_8 n ++ enc_words nw
  | crush_bucket_straw iw straws => enc_pairs iw straws
  | crush_bucket_straw2 iw => enc_words iw
  end.

Definition enc_bucket (o : option crush_bucket) : list Z :=
  match o with
  | None => ceph_encode_32 0
  | Some b =>
      ceph_encode_32 (b_alg b) ++
      (ceph_encode_32 (u32 (b_id b)) ++ ceph_encode_16 (b_type b) ++ ceph_encode_8 (b_alg b)
       ++ ceph_encode_8 (b_hash b) ++ ceph_encode_32 (b_weight b) ++ ceph_encode_32 (b_size b))
      ++ enc_ints (b_items b) ++ enc_body (b_body b)
  end.

Definition enc_rule_step (s : crush_rule_step) : list Z :=
  ceph_encode_32 (step_op s) ++ ceph_encode_32 (u32 (step_arg1 s))
  ++ ceph_encode_32 (u32 (step_arg2 s)).
Definition enc_mask (m : crush_rule_mask) : list Z :=
  [mask_ruleset m; mask_type m; mask_min_size m; mask_max_size m].
Definition enc_rule (o : option crush_rule) : list Z :=
  match o with
  | None => ceph_encode_32 0
  | Some r =>
      ceph_encode_32 1 ++ ceph_encode_32 (rule_len r) ++ enc_mask (rule_mask r)
      ++ concat (map enc_rule_step (rule_steps r))
  end.

Definition enc_string (s : list Z) : list Z := ceph_encode_32 (Z.of_nat (length s)) ++ s.
Definition enc_list {A} (enc : A → list Z) (l : list A) : list Z :=
  ceph_encode_32 (Z.of_nat (length l)) ++ concat (map enc l).
Definition enc_name (kv : Z * list Z) : list Z := ceph_encode_32 (u32 kv.1) ++ enc_string kv.2.
Definition enc_names (t : gmap Z (list Z)) : list Z := enc_list enc_name (map_to_list t).

Definition enc_weight_set (ws : crush_weight_set) : list Z := enc_list ceph_encode_32 (ws_weights ws).
Definition enc_arg (arg : crush_choose_arg) : list Z :=
  ceph_encode_32 (arg_weight_set_size arg)
  ++ concat (map enc_weight_set (default [] (arg_weight_set arg)))
  ++ enc_list (λ x, ceph_encode_32 (u32 x)) (default [] (arg_ids arg)).

(** Only the arguments that say something are sent, each with its index. *)
Definition is_empty_arg (arg : crush_choose_arg) : bool :=
  (arg_weight_set_size arg =? 0) && (arg_ids_size arg =? 0).
Fixpoint sent_args (i : nat) (args : list crush_choose_arg) : list (nat * crush_choose_arg) :=
  match args with
  | [] => []
  | a :: args =>
      if is_empty_arg a then sent_args (Datatypes.S i) args
      else (i, a) :: sent_args (Datatypes.S i) args
  end.
Definition enc_sent (ia : nat * crush_choose_arg) : list Z :=
  ceph_encode_32 (Z.of_nat ia.1) ++ enc_arg ia.2.
Definition enc_arg_map (kam : Z * crush_choose_arg_map) : list Z :=
  ceph_encode_64 (u64 kam.1) ++ enc_list enc_sent (sent_args 0 (ca_args kam.2)).
Definition enc_choose_args (t : gmap Z crush_choose_arg_map) : list Z :=
  enc_list enc_arg_map (map_to_list t).

(** What follows the names: a list of names that is skipped, then the tunables and the device
    classes, in groups of which older monitors send the first [tail_level]. *)
Record wire_tail := WireTail {
  tail_rule_names : list (Z * list Z);
  tail_level : nat;
  tail_straw_calc : list Z;
  tail_classes : list (Z * Z);
  tail_class_names : list (Z * list Z);
  tail_class_buckets : list (Z * list (Z * Z)) }.

Definition enc_class_buckets (kl : Z * list (Z * Z)) : list Z :=
  ceph_encode_32 (u32 kl.1) ++ enc_list enc_pair kl.2.
Definition enc_classes (t : wire_tail) : list Z :=
  enc_list enc_pair (tail_classes t) ++ enc_list enc_name (tail_class_names t)
  ++ enc_list enc_class_buckets (tail_class_buckets t).

Section tail.
Context (t : wire_tail) (m : crush_map).
Definition from_args (n : nat) : list Z :=
  match n with O => [] | _ => enc_choose_args (choose_args m) end.
Definition from_classes (n : nat) : list Z :=
  match n with O => [] | S n => enc_classes t ++ from_args n end.
Definition from_stable (n : nat) : list Z :=
  match n with O => [] | S n => ceph_encode_8 (chooseleaf_stable m) ++ from_classes n end.
Definition from_straw_calc (n : nat) : list Z :=
  match n with O => [] | S n => tail_straw_calc t ++ from_stable n end.
Definition from_vary_r (n : nat) : list Z :=
  match n with O => [] | S n => ceph_encode_8 (chooseleaf_vary_r m) ++ from_straw_calc n end.
Definition from_descend_once (n : nat) : list Z :=
  match n with O => [] | S n => ceph_encode_32 (chooseleaf_descend_once m) ++ from_vary_r n end.
Definition from_tunables (n : nat) : list Z :=
  match n with
  | O => []
  | S n => ceph_encode_32 (choose_local_tries m) ++ ceph_encode_32 (choose_local_fallback_tries m)
           ++ ceph_encode_32 (choose_total_tries m) ++ from_descend_once n
  end.

Definition enc_after_buckets : list Z :=
  concat (map enc_rule (rules m)) ++ enc_names (type_names m) ++ enc_names (names m)
  ++ enc_list enc_name (tail_rule_names t) ++ from_tunables (tail_level t).
Definition enc_map : list Z :=
  ceph_encode_32 CRUSH_MAGIC ++ ceph_encode_32 (u32 (max_buckets m)) ++ ceph_encode_32 (max_rules m)
  ++ ceph_encode_32 (u32 (max_devices m)) ++ concat (map enc_bucket (buckets m))
  ++ enc_after_buckets.
End tail.

(** ** What it can express *)

Definition int32 (x : Z) : Prop := - 2 ^ 31 <= x < 2 ^ 31.
Definition u8_range (x : Z) : Prop := 0 <= x < 2 ^ 8.

Definition body_alg (body : bucket_body) : Z :=
  match body with
  | crush_bucket_uniform _ => CRUSH_BUCKET_UNIFORM
  | crush_bucket_list _ _ => CRUSH_BUCKET_LIST
  | crush_bucket_tree _ _ => CRUSH_BUCKET_TREE
  | crush_bucket_straw _ _ => CRUSH_BUCKET_STRAW
  | crush_bucket_straw2 _ => CRUSH_BUCKET_STRAW2
  end.

Definition arrays_fit (n : Z) (body : bucket_body) : Prop :=
  match body with
  | crush_bucket_uniform w => word w
  | crush_bucket_list iw sw | crush_bucket_straw iw sw =>
      Z.of_nat (length iw) = n ∧ Z.of_nat (length sw) = n ∧ Forall word iw ∧ Forall word sw
  | crush_bucket_tree nn nw => u8_range nn ∧ Z.of_nat (length nw) = nn ∧ Forall word nw
  | crush_bucket_straw2 iw => Z.of_nat (length iw) = n ∧ Forall word iw
  end.

Record wire_bucket (b : crush_bucket) : Prop := {
  wb_id : int32 (b_id b);
  wb_type : 0 <= b_type b < 2 ^ 16;
  wb_hash : u8_range (b_hash b);
  wb_weight : word (b_weight b);
  wb_len : Z.of_nat (length (b_items b)) = b_size b;
  wb_size : b_size b < 2 ^ 31;
  wb_items : Forall int32 (b_items b);
  wb_alg : b_alg b = body_alg (b_body b);
  wb_body : arrays_fit (b_size b) (b_body b) }.

(** A uniform bucket asks for as many words behind it as it has items, though it reads one. *)
Definition uniform_room (room : nat) (b : crush_bucket) : Prop :=
  match b_body b with crush_bucket_uniform _ => b_size b * 4 <= Z.of_nat room | _ => True end.

Definition wire_slot (room : nat) (o : option crush_bucket) : Prop :=
  ∀ b, o = Some b → wire_bucket b ∧ uniform_room room b.

Definition wire_step (s : crush_rule_step) : Prop :=
  word (step_op s) ∧ int32 (step_arg1 s) ∧ int32 (step_arg2 s).
Definition wire_rule (r : crush_rule) : Prop :=
  Z.of_nat (length (rule_steps r)) = rule_len r ∧ rule_len r * 3 < 2 ^ 32
  ∧ Forall wire_step (rule_steps r).

Definition wire_names (t : gmap Z (list Z)) : Prop :=
  Z.of_nat (size t) < 2 ^ 32 ∧ ∀ k s, t !! k = Some s → int32 k ∧ Z.of_nat (length s) < 2 ^ 32.

Definition wire_weight_set (ws : crush_weight_set) : Prop :=
  Z.of_nat (length (ws_weights ws)) = ws_size ws ∧ word (ws_size ws) ∧ Forall word (ws_weights ws).

(** [o] is the bucket the argument is for: its ids are as many as its items. *)
Record wire_arg (o : option crush_bucket) (arg : crush_choose_arg) : Prop := {
  wa_sets : match arg_weight_set arg with
            | None => arg_weight_set_size arg = 0
            | Some wss =>
                0 < arg_weight_set_size arg < 2 ^ 32
                ∧ Z.of_nat (length wss) = arg_weight_set_size arg ∧ Forall wire_weight_set wss
            end;
  wa_ids : match arg_ids arg with
           | None => arg_ids_size arg = 0
           | Some ids =>
               0 < arg_ids_size arg < 2 ^ 32
               ∧ Z.of_nat (length ids) = arg_ids_size arg ∧ Forall int32 ids
               ∧ ∃ b, o = Some b ∧ b_size b = arg_ids_size arg
           end }.

Record wire_arg_map (c : crush_map) (k : Z) (am : crush_choose_arg_map) : Prop := {
  wm_index : ca_index am = k;
  wm_range : - 2 ^ 63 <= k < 2 ^ 63;
  wm_size : ca_size am = max_buckets c;
  wm_buckets : length (ca_args am) = length (buckets c);
  wm_args : ∀ i o arg, buckets c !! i = Some o → ca_args am !! i = Some arg → wire_arg o arg }.

(** What a map has where the sender says nothing. *)
Definition default_tail (n : nat) (m : crush_map) : Prop :=
  ((n < 1)%nat → choose_local_tries m = 2 ∧ choose_local_fallback_tries m = 5
                 ∧ choose_total_tries m = 19)
  ∧ ((n < 2)%nat → chooseleaf_descend_once m = 0) ∧ ((n < 3)%nat → chooseleaf_vary_r m = 0)
  ∧ ((n < 5)%nat → chooseleaf_stable m = 0) ∧ ((n < 7)%nat → choose_args m = ∅).

Definition wire_skipped (l : list (Z * list Z)) : Prop :=
  Z.of_nat (length l) < 2 ^ 32 ∧ Forall (λ kv, Z.of_nat (length kv.2) < 2 ^ 32) l.

Record wire_tail_ok (t : wire_tail) : Prop := {
  wt_rule_names : wire_skipped (tail_rule_names t);
  wt_straw : length (tail_straw_calc t) = 5%nat;
  wt_classes : Z.of_nat (length (tail_classes t)) < 2 ^ 32;
  wt_class_names : wire_skipped (tail_class_names t);
  wt_class_buckets : Z.of_nat (length (tail_class_buckets t)) < 2 ^ 32
    ∧ Forall (λ kl, Z.of_nat (length kl.2) < 2 ^ 32) (tail_class_buckets t) }.

Record wire_map (t : wire_tail) (m : crush_map) : Prop := {
  wmap_buckets : Z.of_nat (length (buckets m)) = max_buckets m ∧ max_buckets m < 2 ^ 31
    ∧ Forall (wire_slot (length (enc_after_buckets t m))) (buckets m);
  wmap_rules : Z.of_nat (length (rules m)) = max_rules m ∧ word (max_rules m)
    ∧ Forall (λ o, ∀ r, o = Some r → wire_rule r) (rules m);
  wmap_devices : int32 (max_devices m);
  wmap_type_names : wire_names (type_names m);
  wmap_names : wire_names (names m);
  wmap_tunables : word (choose_local_tries m) ∧ word (choose_local_fallback_tries m)
    ∧ word (choose_total_tries m) ∧ word (chooseleaf_descend_once m)
    ∧ u8_range (chooseleaf_vary_r m) ∧ u8_range (chooseleaf_stable m);
  wmap_defaults : default_tail (tail_level t) m;
  wmap_args : Z.of_nat (size (choose_args m)) < 2 ^ 32
    ∧ ∀ k am, choose_args m !! k = Some am → wire_arg_map m k am }.

(** ** Words and lists *)

Lemma s32_of_u32 x : int32 x → s32 (u32 x) = x.
Proof.
  unfold int32, s32, u32. intros Hx. rewrite Z.add_mod_idemp_l by lia.
  rewrite Z.mod_small by lia. lia.
Qed.
Lemma arg_index_of_u64 x : - 2 ^ 63 <= x < 2 ^ 63 → s64 (u64 x) = x.
Proof. unfold s64, u64. intros Hx. rewrite Z.add_mod_idemp_l by lia. rewrite Z.mod_small by lia. lia. Qed.
Lemma word_of_u32 x : 0 <= u32 x < 2 ^ 32.
Proof. apply Z.mod_pos_bound. lia. Qed.

Lemma map_s32_u32 l : Forall int32 l → map s32 (map u32 l) = l.
Proof. induction 1 as [|x l Hx _ IH]; [done|]. simpl. by rewrite s32_of_u32, IH. Qed.

Lemma enc_list_u32 l : enc_list (λ x, ceph_encode_32 (u32 x)) l = enc_list ceph_encode_32 (map u32 l).
Proof. unfold enc_list. by rewrite length_map, map_map. Qed.

Lemma Forall_word_u32 l : Forall word (map u32 l).
Proof. apply Forall_map, Forall_forall. intros x _. apply word_of_u32. Qed.

Lemma length_enc_words l : Z.of_nat (length (enc_words l)) = 4 * Z.of_nat (length l).
Proof.
  induction l as [|x l IH]; [done|]. unfold enc_words in *. cbn [map concat].
  rewrite length_app. unfold ceph_encode_32 at 1. rewrite length_le_split. simpl length. lia.
Qed.

Lemma length_enc_pairs l k :
  length l = length k → Z.of_nat (length (enc_pairs l k)) = 8 * Z.of_nat (length l).
Proof.
  revert k. induction l as [|x l IH]; intros [|y k] Hlen; try done.
  unfold enc_pairs in *. cbn [zip map concat zip_with]. injection Hlen as Hlen.
  rewrite length_app, Nat2Z.inj_add, IH by done. simpl. lia.
Qed.

Lemma map_fst_zip_eq (l k : list Z) : length l = length k → map fst (zip l k) = l.
Proof. intros. apply (fst_zip l k). lia. Qed.
Lemma map_snd_zip_eq (l k : list Z) : length l = length k → map snd (zip l k) = k.
Proof. intros. apply (snd_zip l k). lia. Qed.

Section words.
Context {S : Type}.
Implicit Types (off : Z).

Lemma parses_list {A} off (d : list Z → Z → D S A) (enc : A → list Z) (P : A → Prop) l n :
  n = Z.of_nat (length l) → Forall P l → (∀ a off, P a → parses off d (enc a) a) →
  parses off (λ buf e, drepeat (Z.to_nat n) (d buf e)) (concat (map enc l)) l.
Proof.
  intros -> Hl Hd. rewrite Nat2Z.id. apply parses_repeat.
  induction Hl as [|a l Ha _ IH]; constructor; [intros; by apply Hd|done].
Qed.

Lemma parses_words off l n :
  n = Z.of_nat (length l) → Forall word l →
  parses (S := S) off (λ buf _, drepeat (Z.to_nat n) (ceph_decode_32 buf)) (enc_words l) l.
Proof.
  intros Hn Hl. eapply (parses_list _ (λ buf _, ceph_decode_32 buf)); [done|done|].
  intros a o Ha. by apply parses_32.
Qed.

Lemma parses_string_body off s :
  parses (S := S) off (λ buf e, ceph_decode_skip_n e (Z.of_nat (length s)) (- EINVAL)) s tt.
Proof. by apply parses_skip_n. Qed.

(** A list whose elements are skipped. *)
Lemma parses_skip_list {A} off (d : list Z → Z → D S unit) (enc : A → list Z) (P : A → Prop) l :
  Z.of_nat (length l) < 2 ^ 32 → Forall P l → (∀ a off, P a → parses off d (enc a) tt) →
  parses off (λ buf e, len ← ceph_decode_32_safe buf e (- EINVAL); dloop len (d buf e))
    (enc_list enc l) tt.
Proof.
  intros Hlen Hl Hd. eapply parses_bind; [apply parses_32_safe; lia|].
  eapply parses_bind_ret; [|apply parses_ret]. rewrite Nat2Z.id.
  replace (length l) with (length (map (λ _, tt) l)) by apply length_map.
  apply parses_repeat. clear Hlen. induction Hl as [|a l Ha _ IH]; simpl; constructor; [intros; by apply Hd|done].
Qed.
End words.

(** ** Buckets *)

Section buckets.
Context (ok : alloc_site → Z → Z → bool).
Hypothesis Hok : ∀ site p n, ok site p n = true.
Implicit Types (m : crush_map) (b : crush_bucket) (off : Z).

Lemma runs_kmalloc {S} y off (s : S) site n : runs y off s (λ _ _, kmalloc ok site n) [] tt s.
Proof. intros pre post e _ _. unfold kmalloc. rewrite Hok. do 2 f_equal. simpl. lia. Qed.

Lemma parses_kmalloc {S} off site n : parses (S := S) off (λ _ _, kmalloc ok site n) [] tt.
Proof. intros pre post e s _ _. unfold kmalloc. rewrite Hok. do 2 f_equal. simpl. lia. Qed.

Lemma runs_get_bucket y off m i b :
  buckets m !! i = Some (Some b) → runs y off m (λ _ _, get_bucket (Z.of_nat i)) [] b m.
Proof.
  intros Hi. unfold get_bucket. eapply runs_bind_nil; [apply runs_get|].
  eapply runs_bind_nil; [apply runs_lift, (aget_Some _ _ (Some b)); [lia|by rewrite Nat2Z.id]|].
  by apply runs_lift.
Qed.

Lemma runs_put_bucket y off m i o :
  (i < length (buckets m))%nat →
  runs y off m (λ _ _, put_bucket (Z.of_nat i) o) [] tt (with_buckets (<[i := o]> (buckets m)) m).
Proof.
  intros Hi. unfold put_bucket. eapply runs_bind_nil; [apply runs_get|].
  eapply runs_bind_nil; [apply runs_lift, aset_Some; lia|]. rewrite Nat2Z.id. apply runs_put.
Qed.

Lemma parses_pairs off (l k : list Z) n :
  n = Z.of_nat (length l) → length l = length k → Forall word l → Forall word k →
  parses off (λ buf _, drepeat (Z.to_nat n) (decode_pair buf)) (enc_pairs l k) (zip l k).
Proof.
  intros -> Hlen Hl Hk.
  apply (parses_list _ (λ buf _, decode_pair buf) enc_pair (λ xy, word xy.1 ∧ word xy.2)).
  - rewrite length_zip_with_l_eq by done. done.
  - apply Forall_forall. intros [u v] Huv. rewrite Forall_forall in Hl, Hk.
    split; [apply Hl|apply Hk]; simpl.
    + by eapply elem_of_zip_l.
    + by eapply elem_of_zip_r.
  - intros [u v] o [Hu Hv]. unfold decode_pair, enc_pair.
    eapply parses_bind; [by apply parses_32|].
    eapply parses_bind_ret; [by apply parses_32|]. apply parses_ret.
Qed.

(** The body of bucket [i], allocated in the shape its algorithm has. *)
Section body.
Context (y : option nat) (m : crush_map) (i : nat) (b0 : crush_bucket).
Hypothesis Hi : buckets m !! i = Some (Some b0).
Hypothesis Hsize : 0 <= b_size b0 < 2 ^ 31.

Lemma bucket_in_range : (i < length (buckets m))%nat.
Proof. by eapply lookup_lt_Some. Qed.
Lemma u32_double : u32 (2 * b_size b0) = 2 * b_size b0.
Proof. unfold u32. apply Z.mod_small. lia. Qed.

Definition fills (off : Z) (d : list Z → Z → D crush_map unit) (body : bucket_body) : Prop :=
  runs y off m d (enc_body body) tt
    (with_buckets (<[i := Some (with_body body b0)]> (buckets m)) m).

Lemma fills_uniform off w w0 :
  b_body b0 = crush_bucket_uniform w0 → word w → b_size b0 * 4 <= Z.of_nat (default 0%nat y) →
  fills off (λ buf e, crush_decode_uniform_bucket buf e (Z.of_nat i)) (crush_bucket_uniform w).
Proof.
  intros Hb Hw Hroom. eapply runs_bind_nil; [by apply runs_get_bucket|].
  apply runs_need; [unfold u32; rewrite Z.mod_small by lia; simpl; lia|].
  eapply runs_bind_ret; [by apply runs_parses, parses_32|].
  eapply runs_bind_nil; [apply runs_lift; unfold as_uniform; by rewrite Hb|].
  apply runs_put_bucket, bucket_in_range.
Qed.

Lemma fills_list off iw sw iw0 sw0 :
  b_body b0 = crush_bucket_list iw0 sw0 → arrays_fit (b_size b0) (crush_bucket_list iw sw) →
  fills off (λ buf e, crush_decode_list_bucket buf e ok (Z.of_nat i)) (crush_bucket_list iw sw).
Proof.
  intros Hb (Hl & Hk & Hwl & Hwk). eapply runs_bind_nil; [by apply runs_get_bucket|].
  eapply runs_bind_nil; [by apply runs_kmalloc|].
  eapply runs_bind_nil; [apply runs_lift; unfold as_list; by rewrite Hb|].
  eapply runs_bind_nil; [by apply runs_kmalloc|]. rewrite u32_double.
  apply runs_need; [simpl; rewrite Nat2Z.inj_add, length_enc_pairs; lia|].
  eapply runs_bind_ret; [apply runs_parses, parses_pairs; (done || lia)|].
  cbv beta. rewrite map_fst_zip_eq, map_snd_zip_eq by lia. apply runs_put_bucket, bucket_in_range.
Qed.

Lemma fills_tree off nn nw nn0 nw0 :
  b_body b0 = crush_bucket_tree nn0 nw0 → arrays_fit (b_size b0) (crush_bucket_tree nn nw) →
  fills off (λ buf e, crush_decode_tree_bucket buf e ok (Z.of_nat i)) (crush_bucket_tree nn nw).
Proof.
  intros Hb (Hn & Hl & Hw). eapply runs_bind_nil; [by apply runs_get_bucket|].
  eapply runs_bind; [by apply runs_parses, parses_8_safe|].
  eapply runs_bind_nil; [apply runs_lift; unfold as_tree; by rewrite Hb|].
  eapply runs_bind_nil; [apply runs_put_bucket, bucket_in_range|].
  eapply runs_bind_nil; [by apply runs_kmalloc|].
  apply runs_need; [rewrite Nat2Z.inj_add, length_enc_words; lia|].
  eapply runs_bind_ret; [by apply runs_parses, parses_words|].
  eapply runs_eq; [apply runs_put_bucket|done|].
  - cbn [with_buckets buckets]. rewrite length_insert. apply bucket_in_range.
  - cbn [with_buckets buckets]. by rewrite list_insert_insert_eq.
Qed.

Lemma fills_straw off iw sw iw0 sw0 :
  b_body b0 = crush_bucket_straw iw0 sw0 → arrays_fit (b_size b0) (crush_bucket_straw iw sw) →
  fills off (λ buf e, crush_decode_straw_bucket buf e ok (Z.of_nat i)) (crush_bucket_straw iw sw).
Proof.
  intros Hb (Hl & Hk & Hwl & Hwk). eapply runs_bind_nil; [by apply runs_get_bucket|].
  eapply runs_bind_nil; [by apply runs_kmalloc|].
  eapply runs_bind_nil; [apply runs_lift; unfold as_straw; by rewrite Hb|].
  eapply runs_bind_nil; [by apply runs_kmalloc|]. rewrite u32_double.
  apply runs_need; [simpl; rewrite Nat2Z.inj_add, length_enc_pairs; lia|].
  eapply runs_bind_ret; [apply runs_parses, parses_pairs; (done || lia)|].
  cbv beta. rewrite map_fst_zip_eq, map_snd_zip_eq by lia. apply runs_put_bucket, bucket_in_range.
Qed.

Lemma fills_straw2 off iw iw0 :
  b_body b0 = crush_bucket_straw2 iw0 → arrays_fit (b_size b0) (crush_bucket_straw2 iw) →
  fills off (λ buf e, crush_decode_straw2_bucket buf e ok (Z.of_nat i)) (crush_bucket_straw2 iw).
Proof.
  intros Hb (Hl & Hw). eapply runs_bind_nil; [by apply runs_get_bucket|].
  eapply runs_bind_nil; [by apply runs_kmalloc|].
  eapply runs_bind_nil; [apply runs_lift; unfold as_straw2; by rewrite Hb|].
  apply runs_need; [simpl; rewrite Nat2Z.inj_add, length_enc_words; lia|].
  eapply runs_bind_ret; [by apply runs_parses, parses_words|].
  apply runs_put_bucket, bucket_in_range.
Qed.

Lemma fills_body off body :
  body_alg (b_body b0) = body_alg body → arrays_fit (b_size b0) body →
  uniform_room (default 0%nat y) b0 →
  fills off (λ buf e, decode_body buf e ok (body_alg body) (Z.of_nat i)) body.
Proof.
  unfold uniform_room. intros Halg Hfit Hroom. unfold fills.
  destruct body, (b_body b0) eqn:Hb; try discriminate.
  - eapply (runs_ext y (λ buf e, crush_decode_uniform_bucket buf e (Z.of_nat i))); [done|].
    by eapply fills_uniform.
  - eapply (runs_ext y (λ buf e, crush_decode_list_bucket buf e ok (Z.of_nat i))); [done|].
    by eapply fills_list.
  - eapply (runs_ext y (λ buf e, crush_decode_tree_bucket buf e ok (Z.of_nat i))); [done|].
    by eapply fills_tree.
  - eapply (runs_ext y (λ buf e, crush_decode_straw_bucket buf e ok (Z.of_nat i))); [done|].
    by eapply fills_straw.
  - eapply (runs_ext y (λ buf e, crush_decode_straw2_bucket buf e ok (Z.of_nat i))); [done|].
    by eapply fills_straw2.
Qed.
End body.

Lemma alloc_body_alg body :
  ∃ body0 n, alloc_body (body_alg body) = Some (body0, n) ∧ body_alg body0 = body_alg body.
Proof. destruct body; by do 2 eexists. Qed.

Lemma body_alg_range body : 0 < body_alg body < 2 ^ 8.
Proof. by destruct body. Qed.

Lemma runs_header off m b body :
  wire_bucket b →
  runs (Some 0%nat) off m (λ buf _, decode_header buf body)
    (ceph_encode_32 (u32 (b_id b)) ++ ceph_encode_16 (b_type b) ++ ceph_encode_8 (b_alg b)
       ++ ceph_encode_8 (b_hash b) ++ ceph_encode_32 (b_weight b) ++ ceph_encode_32 (b_size b))
    (CrushBucket (b_id b) (b_type b) (b_alg b) (b_hash b) (b_weight b) (b_size b) [] body) m.
Proof.
  intros [Hid Htype Hhash Hweight Hlen Hsize _ Halg _].
  pose proof (body_alg_range (b_body b)). rewrite <- Halg in *.
  eapply runs_bind; [apply runs_parses, parses_32, word_of_u32|].
  eapply runs_bind; [apply runs_parses, parses_16; lia|].
  eapply runs_bind; [apply runs_parses, parses_8; lia|].
  eapply runs_bind; [by apply runs_parses, parses_8|].
  eapply runs_bind; [by apply runs_parses, parses_32|].
  eapply runs_bind_ret; [apply runs_parses, parses_32; lia|].
  rewrite s32_of_u32 by done. apply runs_ret.
Qed.

Lemma runs_bucket y off m i b :
  (i < length (buckets m))%nat → wire_bucket b → uniform_room (default 0%nat y) b →
  runs y off m (λ buf e, decode_bucket buf e ok (Z.of_nat i)) (enc_bucket (Some b)) tt
    (with_buckets (<[i := Some b]> (buckets m)) m).
Proof.
  intros Hi Hb Hroom. pose proof (runs_header) as Hheader.
  destruct (alloc_body_alg (b_body b)) as (body0 & n & Halloc & Hbody0).
  pose proof (body_alg_range (b_body b)) as Hrange. unfold decode_bucket, enc_bucket.
  eapply runs_bind; [apply runs_parses, parses_32_safe; rewrite (wb_alg b Hb); lia|].
  cbv beta. rewrite (wb_alg b Hb), Halloc, (proj2 (Z.eqb_neq _ 0)) by lia.
  eapply runs_bind_nil; [by apply runs_kmalloc|].
  eapply runs_bind_nil; [by apply runs_put_bucket|].
  apply runs_need; [rewrite !length_app; simpl; lia|]. rewrite <- (wb_alg b Hb).
  eapply runs_bind; [by apply Hheader|].
  eapply runs_bind_nil; [apply runs_put_bucket; cbn; by rewrite length_insert|].
  eapply runs_bind_nil; [by apply runs_kmalloc|]. cbn [b_size with_buckets buckets].
  pose proof (wb_len b Hb). unfold enc_ints.
  apply runs_need; [rewrite length_app, !Nat2Z.inj_add, length_enc_words, length_map; lia|].
  eapply runs_bind; [apply runs_parses, parses_words; [rewrite length_map; lia|apply Forall_word_u32]|].
  eapply runs_bind_nil; [apply runs_put_bucket; cbn; by rewrite !length_insert|].
  cbn [with_buckets buckets b_alg with_items b_id b_type b_hash b_weight b_size b_body].
  rewrite map_s32_u32, (wb_alg b Hb), !list_insert_insert_eq by apply (wb_items b Hb).
  eapply runs_eq; [eapply fills_body|done|].
  - cbn [with_buckets buckets]. by rewrite list_lookup_insert_eq by done.
  - cbn [with_items b_size]. pose proof (wb_size b Hb). lia.
  - done.
  - apply (wb_body b Hb).
  - revert Hroom. unfold uniform_room. cbn [with_items b_body b_size].
    destruct body0, (b_body b); try discriminate; done.
  - unfold with_buckets, with_items, with_body.
    cbn [buckets b_id b_type b_alg b_hash b_weight b_size b_items].
    rewrite list_insert_insert_eq, <- (wb_alg b Hb). by destruct b.
Qed.

Lemma runs_slot y off m i o :
  (i < length (buckets m))%nat → wire_slot (default 0%nat y) o →
  runs y off m (λ buf e, decode_bucket buf e ok (Z.of_nat i)) (enc_bucket o) tt
    (with_buckets (<[i := o]> (buckets m)) m).
Proof.
  intros Hi Ho. destruct o as [b|].
  - destruct (Ho b eq_refl). by apply runs_bucket.
  - eapply runs_bind_ret; [by apply runs_parses, parses_32_safe|]. by apply runs_put_bucket.
Qed.

(** The slots one after the other. *)
Lemma insert_next {A} (done rest : list (option A)) o :
  <[length done := o]> (done ++ replicate (length (o :: rest)) None)
    = (done ++ [o]) ++ replicate (length rest) None.
Proof. by rewrite insert_app_r_alt, Nat.sub_diag, <- (assoc_L (++)) by lia. Qed.

Lemma runs_buckets r off m l :
  Forall (wire_slot r) l →
  runs (Some r) off (with_buckets (replicate (length l) None) m)
    (λ buf e, dfor (length l) 0 (decode_bucket buf e ok))
    (concat (map enc_bucket l)) tt (with_buckets l m).
Proof.
  intros Hl. eapply runs_eq; [|done|].
  - apply (runs_for r enc_bucket (λ done rest, with_buckets (done ++ replicate (length rest) None) m)
      (λ buf e, decode_bucket buf e ok) l).
    intros done o rest off' ->. eapply runs_eq; [apply runs_slot|done|].
    + cbn [with_buckets buckets]. rewrite length_app. simpl. lia.
    + by apply Forall_app in Hl as [_ [? _]%Forall_cons].
    + cbn [with_buckets buckets]. by rewrite insert_next.
  - cbv beta. simpl replicate. by rewrite app_nil_r.
Qed.

(** ** Rules *)

Lemma parses_rule_step off st :
  wire_step st → parses off (λ buf _, decode_rule_step buf) (enc_rule_step st) st.
Proof.
  intros (Hop & H1 & H2). eapply parses_bind; [by apply parses_32|].
  eapply parses_bind; [apply parses_32, word_of_u32|].
  eapply parses_bind_ret; [apply parses_32, word_of_u32|]. rewrite !s32_of_u32 by done.
  destruct st. apply parses_ret.
Qed.

Lemma length_enc_rule_steps l :
  Z.of_nat (length (concat (map enc_rule_step l))) = 12 * Z.of_nat (length l).
Proof.
  induction l as [|st l IH]; [done|]. cbn [map concat]. rewrite length_app, Nat2Z.inj_add, IH.
  simpl length. lia.
Qed.

Lemma runs_put_rule y off m i o :
  (i < length (rules m))%nat →
  runs y off m (λ _ _, put_rule (Z.of_nat i) o) [] tt (with_rules (<[i := o]> (rules m)) m).
Proof.
  intros Hi. unfold put_rule. eapply runs_bind_nil; [apply runs_get|].
  eapply runs_bind_nil; [apply runs_lift, aset_Some; lia|]. rewrite Nat2Z.id. apply runs_put.
Qed.

Lemma runs_rule y off m i o :
  (i < length (rules m))%nat → (∀ r, o = Some r → wire_rule r) →
  runs y off m (λ buf e, decode_rule buf e ok (Z.of_nat i)) (enc_rule o) tt
    (with_rules (<[i := o]> (rules m)) m).
Proof.
  intros Hi Ho. destruct o as [r|]; [|eapply runs_bind_ret; [by apply runs_parses, parses_32_safe|];
                                      by apply runs_put_rule].
  destruct (Ho r eq_refl) as (Hlen & Hfit & Hsteps). unfold decode_rule, enc_rule.
  eapply runs_bind; [by apply runs_parses, parses_32_safe|]. cbv beta. simpl Z.eqb. cbv iota.
  eapply runs_bind; [apply runs_parses, parses_32_safe; lia|].
  eapply runs_bind_nil; [apply runs_kmalloc|].
  eapply runs_bind_nil; [by apply runs_put_rule|].
  eapply runs_bind; [by apply runs_parses, parses_copy_safe|]. cbv beta.
  assert (u32 (rule_len r * 3) = rule_len r * 3) as -> by (unfold u32; apply Z.mod_small; lia).
  apply runs_need; [rewrite Nat2Z.inj_add, length_enc_rule_steps; lia|].
  eapply runs_bind_ret.
  { apply runs_parses. eapply (parses_list _ (λ buf _, decode_rule_step buf)); [done|exact Hsteps|].
    intros st o. apply parses_rule_step. }
  cbv beta. eapply runs_eq; [apply runs_put_rule|done|].
  - cbn [with_rules rules]. by rewrite length_insert.
  - unfold with_rules. cbn. rewrite list_insert_insert_eq. by destruct r as [? [] ?].
Qed.

Lemma runs_rules r off m l :
  Forall (λ o, ∀ r, o = Some r → wire_rule r) l →
  runs (Some r) off (with_rules (replicate (length l) None) m)
    (λ buf e, dfor (length l) 0 (decode_rule buf e ok))
    (concat (map enc_rule l)) tt (with_rules l m).
Proof.
  intros Hl. eapply runs_eq; [|done|].
  - apply (runs_for r enc_rule (λ done rest, with_rules (done ++ replicate (length rest) None) m)
      (λ buf e, decode_rule buf e ok) l).
    intros done o rest off' ->. eapply runs_eq; [apply runs_rule|done|].
    + cbn [with_rules rules]. rewrite length_app. simpl. lia.
    + by apply Forall_app in Hl as [_ [? _]%Forall_cons].
    + cbn [with_rules rules]. by rewrite insert_next.
  - cbv beta. simpl replicate. by rewrite app_nil_r.
Qed.

(** ** Names *)

Lemma runs_name off (t : gmap Z (list Z)) k v :
  t !! k = None → int32 k → Z.of_nat (length v) < 2 ^ 32 →
  runs (Some 0%nat) off t (λ buf e, decode_crush_name buf e ok) (enc_name (k, v)) tt (<[k := v]> t).
Proof.
  intros Hk Hint Hlen. unfold decode_crush_name, enc_name, enc_string. cbn [fst snd].
  eapply runs_bind; [apply runs_parses, parses_32_safe, word_of_u32|].
  eapply runs_bind; [apply runs_parses, parses_32_safe; lia|].
  apply runs_need; [lia|]. eapply runs_bind_nil; [apply runs_kmalloc|].
  eapply runs_bind_ret; [by apply runs_parses, parses_copy|].
  eapply runs_bind_nil; [apply runs_get|]. rewrite s32_of_u32 by done.
  unfold rb_try_insert. rewrite Hk. apply runs_put.
Qed.

Lemma runs_names off (t : gmap Z (list Z)) :
  wire_names t →
  runs (Some 0%nat) off ∅ (λ buf e, decode_crush_names buf e ok) (enc_names t) tt t.
Proof.
  intros [Hsize Ht]. unfold decode_crush_names, enc_names, enc_list.
  assert (Hlen : length (map_to_list t) = size t) by apply length_map_to_list.
  eapply runs_bind; [apply runs_parses, parses_32_safe; lia|].
  eapply runs_eq; [|done|apply (list_to_map_to_list t)].
  apply (runs_loop 0 enc_name (λ done _, list_to_map done) (λ buf e, decode_crush_name buf e ok)).
  intros done [k v] rest off' Hl.
  pose proof (NoDup_fst_map_to_list t) as Hnd. rewrite Hl, fmap_app in Hnd.
  assert (Hkv : t !! k = Some v).
  { apply elem_of_map_to_list. rewrite Hl. set_solver. }
  assert (Hnew : k ∉ done.*1) by (apply NoDup_app in Hnd as (_ & H & _); intros ?; eapply H; set_solver).
  eapply runs_eq; [apply runs_name|done|].
  - by apply not_elem_of_list_to_map.
  - by apply (Ht k v).
  - by apply (Ht k v).
  - rewrite <- list_to_map_cons. apply list_to_map_proper; [|by rewrite Permutation_app_comm].
    simpl. constructor; [done|]. by apply NoDup_app in Hnd as (? & _).
Qed.

(** ** Weight sets *)

Lemma parses_array off l :
  Z.of_nat (length l) < 2 ^ 32 → Forall word l →
  parses (S := crush_choose_arg_map) off (λ buf e, decode_array_32_alloc buf e ok)
    (enc_list ceph_encode_32 l)
    (match l with [] => None | _ => Some l end, Z.of_nat (length l)).
Proof.
  intros Hlen Hl. unfold decode_array_32_alloc, enc_list.
  eapply parses_bind; [apply parses_32_safe; lia|]. cbv beta.
  destruct l as [|w l]; [apply parses_ret|].
  unfold nonzero. rewrite (proj2 (Z.eqb_neq _ 0)) by (simpl; lia). cbn [negb].
  eapply parses_bind_nil; [apply parses_kmalloc|].
  fold (enc_words (w :: l)). apply parses_need; [rewrite length_enc_words; lia|].
  eapply parses_bind_ret; [by apply parses_words|]. apply parses_ret.
Qed.

Implicit Types (am : crush_choose_arg_map) (arg : crush_choose_arg).

Lemma runs_get_arg y off am i arg :
  ca_args am !! i = Some arg → runs y off am (λ _ _, get_arg (Z.of_nat i)) [] arg am.
Proof.
  intros Hi. unfold get_arg. eapply runs_bind_nil; [apply runs_get|].
  apply runs_lift, aget_Some; [lia|by rewrite Nat2Z.id].
Qed.

Lemma runs_put_arg y off am i arg :
  (i < length (ca_args am))%nat →
  runs y off am (λ _ _, put_arg (Z.of_nat i) arg) [] tt (with_args (<[i := arg]> (ca_args am)) am).
Proof.
  intros Hi. unfold put_arg. eapply runs_bind_nil; [apply runs_get|].
  eapply runs_bind_nil; [apply runs_lift, aset_Some; lia|]. rewrite Nat2Z.id. apply runs_put.
Qed.

(** The argument at [i], the others as they are. *)
Definition at_arg (am : crush_choose_arg_map) (i : nat) (arg : crush_choose_arg) :=
  with_args (<[i := arg]> (ca_args am)) am.

Section arg.
Context (am : crush_choose_arg_map) (i : nat).
Hypothesis Hi : (i < length (ca_args am))%nat.

Lemma runs_get_at y off arg : runs y off (at_arg am i arg) (λ _ _, get_arg (Z.of_nat i)) [] arg (at_arg am i arg).
Proof. apply runs_get_arg. unfold at_arg, with_args. cbn [ca_args]. by apply list_lookup_insert_eq. Qed.
Lemma runs_put_at y off arg arg' :
  runs y off (at_arg am i arg) (λ _ _, put_arg (Z.of_nat i) arg') [] tt (at_arg am i arg').
Proof.
  eapply runs_eq; [apply runs_put_arg|done|]; unfold at_arg, with_args; cbn [ca_args ca_index ca_size].
  - by rewrite length_insert.
  - by rewrite list_insert_insert_eq.
Qed.

Lemma runs_weight_set off arg wss ws :
  arg_weight_set arg = Some wss → wire_weight_set ws →
  runs (Some 0%nat) off (at_arg am i arg) (λ buf e, decode_weight_set buf e ok (Z.of_nat i))
    (enc_weight_set ws) tt
    (at_arg am i (with_weight_set (Some (wss ++ [ws])) (arg_weight_set_size arg) arg)).
Proof.
  intros Hwss (Hlen & Hsize & Hw). unfold decode_weight_set, enc_weight_set, word in *.
  eapply runs_bind_ret; [apply runs_catch, runs_parses, parses_array; [lia|done]|].
  cbv beta iota. unfold push_weight_set. eapply runs_bind_nil; [apply runs_get_at|].
  eapply runs_bind_nil; [apply runs_lift; by rewrite Hwss|]. rewrite Hlen.
  replace (CrushWeightSet _ _) with ws by (destruct ws as [[|??] ?]; done). apply runs_put_at.
Qed.

Lemma runs_weight_sets off arg wss n :
  n = Z.of_nat (length wss) → Forall wire_weight_set wss →
  runs (Some 0%nat) off (at_arg am i (with_weight_set (Some []) n arg))
    (λ buf e, dloop n (decode_weight_set buf e ok (Z.of_nat i)))
    (concat (map enc_weight_set wss)) tt (at_arg am i (with_weight_set (Some wss) n arg)).
Proof.
  intros Hn Hl.
  pose proof (runs_loop 0 enc_weight_set (λ done _, at_arg am i (with_weight_set (Some done) n arg))
    (λ buf e, decode_weight_set buf e ok (Z.of_nat i)) wss off) as H.
  rewrite <- Hn in H. apply H. intros done ws rest off' ->.
  apply Forall_app in Hl as [_ [Hws _]%Forall_cons].
  by apply (runs_weight_set off' (with_weight_set (Some done) n arg) done ws).
Qed.

Lemma runs_arg off o arg :
  ca_args am !! i = Some zero_arg → wire_arg o arg →
  runs (Some 0%nat) off am (λ buf e, decode_choose_arg buf e ok (Z.of_nat i)) (enc_arg arg) tt
    (at_arg am i arg).
Proof.
  intros Hzero [Hsets Hids]. unfold decode_choose_arg, enc_arg.
  set (n := arg_weight_set_size arg) in *.
  assert (Hn : 0 <= n < 2 ^ 32) by (destruct (arg_weight_set arg); lia).
  eapply runs_bind; [by apply runs_parses, parses_32_safe|].
  eapply runs_bind_nil; [by apply runs_get_arg|].
  eapply runs_bind_nil; [by apply runs_put_arg|]. fold (at_arg am i (with_weight_set None n zero_arg)).
  change (arg_weight_set zero_arg) with (@None (list crush_weight_set)).
  eapply (runs_bind _ _ _ (at_arg am i (with_weight_set (arg_weight_set arg) n zero_arg))).
  { destruct (arg_weight_set arg) as [wss|]; unfold nonzero, dwhen.
    - destruct Hsets as (Hpos & Hlen & Hw). rewrite (proj2 (Z.eqb_neq n 0)) by lia. cbn [negb].
      eapply runs_bind_nil; [apply runs_catch, runs_kmalloc|].
      eapply runs_bind_nil; [apply runs_get_at|]. eapply runs_bind_nil; [apply runs_put_at|].
      by apply (runs_weight_sets _ (with_weight_set None n zero_arg)).
    - rewrite Hsets. apply runs_ret. }
  set (ids := default [] (arg_ids arg)).
  assert (Hint : Forall int32 ids ∧ Z.of_nat (length ids) = arg_ids_size arg ∧ word (arg_ids_size arg)).
  { unfold ids, word. destruct (arg_ids arg) as [l|]; simpl; [|rewrite Hids; repeat split; try lia; constructor].
    destruct Hids as (? & ? & ? & _). repeat split; (done || lia). }
  destruct Hint as (Hint & Hlen & Hword). unfold word in Hword.
  rewrite enc_list_u32. eapply runs_bind_ret.
  { apply runs_catch, runs_parses, parses_array; [rewrite length_map; lia|apply Forall_word_u32]. }
  cbv beta iota. eapply runs_bind_nil; [apply runs_get_at|].
  eapply runs_eq; [apply runs_put_at|done|]. f_equal. rewrite length_map, Hlen.
  unfold with_ids. cbn [with_weight_set arg_weight_set arg_weight_set_size].
  replace (map s32 <$> _) with (arg_ids arg); [by destruct arg|].
  unfold ids in *. destruct (arg_ids arg) as [[|w l]|]; simpl in *; [lia| |done].
  apply Forall_cons in Hint as [Hw Hl]. by rewrite s32_of_u32, map_s32_u32.
Qed.
End arg.

(** ** Maps of arguments *)

Definition insert_sent (args : list crush_choose_arg) (ia : nat * crush_choose_arg) :=
  <[ia.1 := ia.2]> args.

Lemma sent_args_spec k args i arg :
  (i, arg) ∈ sent_args k args → (k <= i)%nat ∧ args !! (i - k)%nat = Some arg ∧ is_empty_arg arg = false.
Proof.
  revert k. induction args as [|a args IH]; intros k; simpl; [set_solver|].
  assert (Hrec : (i, arg) ∈ sent_args (Datatypes.S k) args →
    (k <= i)%nat ∧ (a :: args) !! (i - k)%nat = Some arg ∧ is_empty_arg arg = false).
  { intros (? & ? & ?)%IH. replace (i - k)%nat with (Datatypes.S (i - Datatypes.S k)) by lia.
    repeat split; (done || lia). }
  destruct (is_empty_arg a) eqn:Ha; [done|].
  intros [[= -> ->]|Hin]%elem_of_cons; [|by apply Hrec]. rewrite Nat.sub_diag. done.
Qed.

Lemma sent_args_length k args : (length (sent_args k args) <= length args)%nat.
Proof.
  revert k. induction args as [|a args IH]; intros k; simpl; [lia|]. specialize (IH (S k)).
  destruct (is_empty_arg a); simpl; lia.
Qed.

Lemma sent_args_NoDup k args : NoDup (sent_args k args).*1.
Proof.
  revert k. induction args as [|a args IH]; intros k; simpl; [constructor|].
  destruct (is_empty_arg a); [done|]. cbn. constructor; [|done].
  intros ([i arg] & -> & Hin)%list_elem_of_fmap. apply sent_args_spec in Hin. simpl in Hin. lia.
Qed.

Lemma insert_sent_other l args i :
  i ∉ l.*1 → foldl insert_sent args l !! i = args !! i.
Proof.
  revert args. induction l as [|[j a] l IH]; intros args Hi; [done|]. simpl.
  rewrite IH by set_solver. unfold insert_sent. simpl. apply list_lookup_insert_ne. set_solver.
Qed.

Lemma insert_sent_length l args : length (foldl insert_sent args l) = length args.
Proof.
  revert args. induction l as [|[j a] l IH]; intros args; [done|]. simpl. rewrite IH.
  apply length_insert.
Qed.

(** Inserting what was sent into cleared memory restores the arguments. *)
Lemma insert_sent_all pre args :
  (∀ a, a ∈ args → is_empty_arg a = true → a = zero_arg) →
  foldl insert_sent (pre ++ replicate (length args) zero_arg) (sent_args (length pre) args)
    = pre ++ args.
Proof.
  revert pre. induction args as [|a args IH]; intros pre Hz; [done|]. cbn [sent_args length].
  assert (Hnext : foldl insert_sent ((pre ++ [a]) ++ replicate (length args) zero_arg)
    (sent_args (Datatypes.S (length pre)) args) = pre ++ a :: args).
  { replace (Datatypes.S (length pre)) with (length (pre ++ [a])) by (rewrite length_app; simpl; lia).
    rewrite IH by set_solver. by rewrite <- (assoc_L (++)). }
  destruct (is_empty_arg a) eqn:Ha.
  - rewrite (Hz a) in Hnext |- * by set_solver. rewrite <- (assoc_L (++)) in Hnext. apply Hnext.
  - cbn [foldl]. unfold insert_sent at 2. cbn [fst snd replicate].
    rewrite insert_app_r_alt, Nat.sub_diag by lia. cbn. rewrite <- (assoc_L (++)) in Hnext. apply Hnext.
Qed.

Lemma empty_arg_zero o arg : wire_arg o arg → is_empty_arg arg = true → arg = zero_arg.
Proof.
  intros [Hs Hi] [H1%Z.eqb_eq H2%Z.eqb_eq]%andb_true_iff. destruct arg as [ids ni wss nw]; simpl in *.
  subst. destruct ids, wss; try lia. done.
Qed.

Lemma runs_entry off (c : crush_map) am i o arg :
  buckets c !! i = Some o → Z.of_nat i < ca_size am < 2 ^ 31 →
  ca_args am !! i = Some zero_arg → wire_arg o arg →
  runs (Some 0%nat) off am (λ buf e, decode_choose_args_entry buf e ok c) (enc_sent (i, arg)) tt
    (at_arg am i arg).
Proof.
  intros Ho Hsize Hzero Harg. pose proof (lookup_lt_Some _ _ _ Hzero) as Hlt.
  unfold decode_choose_args_entry, enc_sent. cbn [fst snd].
  eapply runs_bind; [apply runs_parses, parses_32_safe; lia|].
  eapply runs_bind_nil; [apply runs_get|]. rewrite Z.geb_leb, (proj2 (Z.leb_gt _ _)) by lia.
  eapply runs_bind_ret; [by eapply runs_arg|]. eapply runs_bind_nil; [by apply runs_get_at|].
  destruct Harg as [_ Hids]. unfold nonzero.
  destruct (Z.eqb_spec (arg_ids_size arg) 0) as [_|Hn]; cbn [negb]; [apply runs_ret|].
  destruct (arg_ids arg); [|lia]. destruct Hids as (_ & _ & _ & b & -> & Hb).
  eapply runs_bind_nil; [apply runs_lift, aget_Some; [lia|by rewrite Nat2Z.id]|].
  eapply runs_bind_nil; [by apply runs_lift|]. rewrite Hb, Z.eqb_refl. apply runs_ret.
Qed.

Lemma runs_arg_map off (c : crush_map) k am :
  Z.of_nat (length (buckets c)) = max_buckets c → max_buckets c < 2 ^ 31 → wire_arg_map c k am →
  runs (Some 0%nat) off (CrushChooseArgMap 0 [] 0) (λ buf e, decode_choose_arg_map buf e ok c)
    (enc_arg_map (k, am)) tt am.
Proof.
  intros Hlen Hmax [Hk Hrange Hsize Hargs Hwire]. unfold decode_choose_arg_map, enc_arg_map.
  cbn [fst snd]. set (args := ca_args am) in *. set (l := sent_args 0 args).
  assert (Hl : Z.of_nat (length l) < 2 ^ 32).
  { pose proof (sent_args_length 0 args) as H. fold l in H. lia. }
  eapply runs_bind; [apply runs_parses, parses_64_safe, u64_range|]. cbv beta. rewrite arg_index_of_u64 by done.
  eapply runs_bind_nil; [apply runs_put|]. eapply runs_bind_nil; [apply runs_kmalloc|].
  eapply runs_bind_nil; [apply runs_modify|].
  eapply runs_bind; [apply runs_parses, parses_32_safe; lia|].
  replace (Z.to_nat (max_buckets c)) with (length args) by lia.
  set (zeros := replicate (length args) zero_arg).
  eapply runs_eq; [apply (runs_loop 0 enc_sent (λ done _,
    CrushChooseArgMap k (foldl insert_sent zeros done) (max_buckets c))
    (λ buf e, decode_choose_args_entry buf e ok c) l)|done|].
  - intros done [i arg] rest off' Hdone.
    assert (Hin : (i, arg) ∈ l) by (rewrite Hdone; set_solver).
    apply sent_args_spec in Hin as (_ & Hi & _). rewrite Nat.sub_0_r in Hi.
    pose proof (lookup_lt_Some _ _ _ Hi) as Hlt.
    destruct (lookup_lt_is_Some_2 (buckets c) i) as [o Ho]; [lia|].
    pose proof (sent_args_NoDup 0 args) as Hnd. fold l in Hnd. rewrite Hdone, fmap_app in Hnd.
    eapply runs_eq; [eapply (runs_entry _ _ _ _ o)|done|]; cbn [ca_size ca_args]; try done.
    + lia.
    + rewrite insert_sent_other by (apply NoDup_app in Hnd as (_ & H & _); intros ?; eapply H; set_solver).
      apply lookup_replicate. auto.
    + by apply (Hwire i).
    + unfold at_arg, with_args. cbn. by rewrite foldl_app.
  - assert (foldl insert_sent zeros l = args) as ->;
      [apply (insert_sent_all [])|rewrite <- Hk, <- Hsize; by destruct am].
    intros a [i Hi]%list_elem_of_lookup He. destruct (lookup_lt_is_Some_2 (buckets c) i) as [o Ho].
    { apply lookup_lt_Some in Hi. lia. }
    by apply (empty_arg_zero o), He; apply (Hwire i).
Qed.

Lemma runs_choose_args off (m : crush_map) (t : gmap Z crush_choose_arg_map) :
  Z.of_nat (length (buckets m)) = max_buckets m → max_buckets m < 2 ^ 31 →
  Z.of_nat (size t) < 2 ^ 32 → (∀ k am, t !! k = Some am → wire_arg_map m k am) →
  runs (Some 0%nat) off (with_choose_args ∅ m) (λ buf e, decode_choose_args buf e ok)
    (enc_choose_args t) tt (with_choose_args t m).
Proof.
  intros Hlen Hmax Hsize Ht. unfold decode_choose_args, enc_choose_args, enc_list.
  assert (Hl : length (map_to_list t) = size t) by apply length_map_to_list.
  eapply runs_bind; [apply runs_parses, parses_32_safe; lia|].
  eapply runs_eq; [|done|exact (f_equal (λ t, with_choose_args t m) (list_to_map_to_list t))].
  apply (runs_loop 0 enc_arg_map (λ done _, with_choose_args (list_to_map done) m)).
  intros done [k am] rest off' Hdone.
  pose proof (NoDup_fst_map_to_list t) as Hnd. rewrite Hdone, fmap_app in Hnd.
  assert (Hkam : wire_arg_map m k am) by (apply Ht, elem_of_map_to_list; rewrite Hdone; set_solver).
  assert (Hnew : k ∉ done.*1) by (apply NoDup_app in Hnd as (_ & H & _); intros ?; eapply H; set_solver).
  eapply runs_bind_nil; [apply runs_kmalloc|]. eapply runs_bind_nil; [apply runs_get|].
  eapply runs_bind_ret.
  { apply runs_local, runs_arg_map; [done..|]. destruct Hkam. by constructor. }
  cbv beta iota.
  rewrite (wm_index _ _ _ Hkam). cbn [with_choose_args choose_args].
  eapply runs_bind_nil.
  { apply runs_lift. unfold rb_insert, rb_try_insert. by rewrite not_elem_of_list_to_map_1. }
  eapply runs_eq; [apply runs_put|done|]. unfold with_choose_args. cbn. f_equal.
  rewrite <- list_to_map_cons. apply list_to_map_proper; [|by rewrite Permutation_app_comm].
  simpl. constructor; [done|]. by apply NoDup_app in Hnd as (? & _).
Qed.

(** ** The tail *)

Lemma parses_skip_name off kv :
  Z.of_nat (length kv.2) < 2 ^ 32 →
  parses (S := crush_map) off (λ buf e, _ ← ceph_decode_skip_32 e (- EINVAL);
    ceph_decode_skip_string buf e (- EINVAL)) (enc_name kv) tt.
Proof.
  intros Hlen. eapply parses_bind; [by apply parses_skip_n|].
  eapply parses_bind; [apply parses_32_safe; lia|]. by apply parses_skip_n.
Qed.

Lemma parses_skip_names off l :
  wire_skipped l →
  parses (S := crush_map) off (λ buf e, ceph_decode_skip_map buf e (ceph_decode_skip_32 e)
    (ceph_decode_skip_string buf e) (- EINVAL)) (enc_list enc_name l) tt.
Proof. intros [Hlen Hl]. eapply parses_skip_list; [done|exact Hl|]. intros kv o. apply parses_skip_name. Qed.

Lemma parses_skip_pairs off l :
  Z.of_nat (length l) < 2 ^ 32 →
  parses (S := crush_map) off (λ buf e, ceph_decode_skip_map buf e (ceph_decode_skip_32 e)
    (ceph_decode_skip_32 e) (- EINVAL)) (enc_list enc_pair l) tt.
Proof.
  intros Hlen. apply (parses_skip_list _ _ enc_pair (λ _, True)); [done|by apply Forall_true|].
  intros xy o _. eapply parses_bind; by apply parses_skip_n.
Qed.

Lemma parses_classes off t :
  wire_tail_ok t → parses (S := crush_map) off (λ buf e, skip_classes buf e) (enc_classes t) tt.
Proof.
  intros [_ _ Hc Hn [Hb Hbs]]. eapply parses_bind; [by apply parses_skip_pairs|].
  eapply parses_bind; [by apply parses_skip_names|].
  eapply parses_skip_list; [done|exact Hbs|]. intros kl o Hl.
  eapply parses_bind; [by apply parses_skip_n|]. by apply parses_skip_pairs.
Qed.

Lemma runs_if_more y off s s' d bs :
  (0 < length bs)%nat → runs y off s d bs tt s' →
  runs y off s (λ buf e, if_more e (d buf e)) bs tt s'.
Proof.
  intros Hbs Hd pre post e Hpre He. unfold if_more, mbind, D_bind, dpos. cbn [mbind outcome_bind].
  rewrite (proj2 (Z.eqb_neq off e)) by (destruct y; lia). by apply Hd.
Qed.
Lemma runs_no_more off s d : runs None off s (λ buf e, if_more e (d buf e)) [] tt s.
Proof.
  intros pre post e Hpre He. unfold if_more, mbind, D_bind, dpos. cbn [mbind outcome_bind].
  cbn in He. rewrite (proj2 (Z.eqb_eq off e)) by lia. cbn [negb dwhen].
  by apply (runs_ret None off s tt pre post e).
Qed.

Section tail_ok.
Context (t : wire_tail) (m : crush_map).
Hypothesis Ht : wire_tail_ok t.
Hypothesis Hm : wire_map t m.

Lemma length_choose_args_pos : (0 < length (enc_choose_args (choose_args m)))%nat.
Proof. unfold enc_choose_args, enc_list. rewrite length_app. simpl. lia. Qed.

Lemma runs_from_classes off n :
  ((n < 2)%nat → choose_args m = ∅) →
  runs None off (with_choose_args ∅ m)
    (λ buf e, _ ← if_more e (skip_classes buf e); if_more e (decode_choose_args buf e ok))
    (from_classes t m n) tt m.
Proof.
  intros Hargs. destruct Hm as [(Hlen & Hmax & _) _ _ _ _ _ _ [Hsize Hwire]].
  assert (Hm' : with_choose_args (choose_args m) m = m) by (by destruct m).
  destruct n as [|n]; cbn [from_classes].
  - rewrite <- Hargs, Hm' by lia.
    eapply (runs_bind_ret None); [apply runs_no_more|]. apply runs_no_more.
  - eapply runs_bind; [apply runs_if_more; [|by apply runs_parses, parses_classes]|].
    { unfold enc_classes, enc_list. rewrite length_app. simpl. lia. }
    destruct n as [|n]; cbn [from_args].
    + rewrite <- Hargs, Hm' by lia. apply runs_no_more.
    + eapply runs_eq; [apply runs_if_more; [apply length_choose_args_pos|by apply runs_any, runs_choose_args]|done|done].
Qed.

(** The map with the defaults where nothing has been read yet. *)
Definition before (once vary stable : Z) : crush_map :=
  with_choose_args ∅ (with_chooseleaf once vary stable m).

Ltac defaults :=
  repeat match goal with H : (_ < _)%nat → _ |- _ => specialize (H ltac:(lia)) end;
  unfold before, with_choose_args, with_chooseleaf, with_tries; cbn; destruct m; simpl in *;
  destruct_and?; subst; reflexivity.

Lemma runs_from_stable off n :
  ((n < 1)%nat → chooseleaf_stable m = 0) → ((n < 3)%nat → choose_args m = ∅) →
  runs None off (before (chooseleaf_descend_once m) (chooseleaf_vary_r m) 0)
    (λ buf e, decode_stable buf e ok) (from_stable t m n) tt m.
Proof.
  intros H1 H2. destruct n as [|n]; cbn [from_stable].
  - eapply runs_eq; [by apply runs_done|done|]. defaults.
  - apply runs_need_done; [rewrite length_app; simpl; lia|].
    eapply runs_bind; [apply runs_parses, parses_8; apply (wmap_tunables _ _ Hm)|].
    eapply runs_bind_nil; [apply runs_modify|].
    replace (with_chooseleaf _ _ _ _) with (with_choose_args ∅ m) by defaults.
    apply runs_from_classes. intros. apply H2. lia.
Qed.

Lemma runs_from_straw_calc off n :
  ((n < 2)%nat → chooseleaf_stable m = 0) → ((n < 4)%nat → choose_args m = ∅) →
  runs None off (before (chooseleaf_descend_once m) (chooseleaf_vary_r m) 0)
    (λ buf e, decode_straw_calc buf e ok) (from_straw_calc t m n) tt m.
Proof.
  intros H1 H2. pose proof (wt_straw t Ht) as Hs. destruct n as [|n]; cbn [from_straw_calc].
  - eapply runs_eq; [by apply runs_done|done|]. defaults.
  - apply runs_need_done; [rewrite length_app; lia|].
    eapply runs_bind; [apply runs_parses, parses_skip; lia|].
    apply runs_from_stable; intros; [apply H1|apply H2]; lia.
Qed.

Lemma runs_from_vary_r off n :
  ((n < 1)%nat → chooseleaf_vary_r m = 0) → ((n < 3)%nat → chooseleaf_stable m = 0) →
  ((n < 5)%nat → choose_args m = ∅) →
  runs None off (before (chooseleaf_descend_once m) 0 0)
    (λ buf e, decode_vary_r buf e ok) (from_vary_r t m n) tt m.
Proof.
  intros H0 H1 H2. destruct n as [|n]; cbn [from_vary_r].
  - eapply runs_eq; [by apply runs_done|done|]. defaults.
  - apply runs_need_done; [rewrite length_app; simpl; lia|].
    eapply runs_bind; [apply runs_parses, parses_8; apply (wmap_tunables _ _ Hm)|].
    eapply runs_bind_nil; [apply runs_modify|].
    apply runs_from_straw_calc; intros; [apply H1|apply H2]; lia.
Qed.

Lemma runs_from_descend_once off n :
  ((n < 1)%nat → chooseleaf_descend_once m = 0) → ((n < 2)%nat → chooseleaf_vary_r m = 0) →
  ((n < 4)%nat → chooseleaf_stable m = 0) → ((n < 6)%nat → choose_args m = ∅) →
  runs None off (before 0 0 0)
    (λ buf e, decode_descend_once buf e ok) (from_descend_once t m n) tt m.
Proof.
  intros H0 Hv H1 H2. destruct n as [|n]; cbn [from_descend_once].
  - eapply runs_eq; [by apply runs_done|done|]. defaults.
  - apply runs_need_done; [rewrite length_app; simpl; lia|].
    eapply runs_bind; [apply runs_parses, parses_32; apply (wmap_tunables _ _ Hm)|].
    eapply runs_bind_nil; [apply runs_modify|].
    apply runs_from_vary_r; intros; [apply Hv|apply H1|apply H2]; lia.
Qed.

Lemma runs_from_tunables off :
  runs None off (with_tries 2 5 19 (before 0 0 0))
    (λ buf e, decode_tunables buf e ok) (from_tunables t m (tail_level t)) tt m.
Proof.
  destruct (wmap_defaults _ _ Hm) as (H0 & H1 & H2 & H3 & H4).
  destruct (wmap_tunables _ _ Hm) as (Hl & Hf & Htt & _).
  destruct (tail_level t) as [|n]; cbn [from_tunables].
  - eapply runs_eq; [by apply runs_done|done|]. defaults.
  - apply runs_need_done; [rewrite !length_app; simpl; lia|].
    eapply runs_bind; [by apply runs_parses, parses_32|].
    eapply runs_bind; [by apply runs_parses, parses_32|].
    eapply runs_bind; [by apply runs_parses, parses_32|].
    eapply runs_bind_nil; [apply runs_modify|].
    apply runs_from_descend_once; intros; [apply H1|apply H2|apply H3|apply H4]; lia.
Qed.
End tail_ok.

(** ** The map *)

(** As before [crush_finalize]. *)
Definition unsized (m : crush_map) : crush_map :=
  CrushMap (buckets m) (rules m) (max_buckets m) (max_rules m) (max_devices m)
    (choose_local_tries m) (choose_local_fallback_tries m) (choose_total_tries m)
    (chooseleaf_descend_once m) (chooseleaf_vary_r m) (chooseleaf_stable m) 0 (type_names m)
    (names m) (choose_args m).

Lemma wire_map_unsized t m : wire_map t m → wire_map t (unsized m).
Proof.
  intros [Hb Hr Hd Ht Hn Htun Hdef [Hs Ha]]. constructor; try done. split; [done|].
  intros k am Hk. destruct (Ha k am Hk). by constructor.
Qed.

Lemma runs_map off t m :
  wire_tail_ok t → wire_map t m →
  runs None off zero_map (λ buf e, decode_map buf e ok) (enc_map t m) tt (unsized m).
Proof.
  intros Ht Hm%wire_map_unsized. set (m0 := unsized m) in *.
  destruct Hm as [(Hlen & Hmax & Hbs) (Hrl & Hrw & Hrs) Hd Htn Hnm Htun Hdef Hargs] eqn:HM. clear HM.
  change (enc_map t m) with (enc_map t m0). unfold decode_map, enc_map, word in *.
  eapply runs_bind_nil; [apply runs_put|].
  apply runs_need; [rewrite !length_app; simpl; lia|].
  eapply runs_bind; [by apply runs_parses, parses_32|]. cbv beta. rewrite Z.eqb_refl. cbn [negb].
  eapply runs_bind; [apply runs_parses, parses_32, word_of_u32|].
  eapply runs_bind; [by apply runs_parses, parses_32|].
  eapply runs_bind; [apply runs_parses, parses_32, word_of_u32|]. cbv beta.
  rewrite !s32_of_u32 by (unfold int32 in *; lia).
  eapply runs_bind_nil; [apply runs_modify|]. rewrite (proj2 (Z.ltb_ge _ _)) by lia.
  eapply runs_bind_nil; [apply runs_kmalloc|]. eapply runs_bind_nil; [apply runs_modify|].
  eapply runs_bind_nil; [apply runs_kmalloc|]. eapply runs_bind_nil; [apply runs_modify|].
  replace (Z.to_nat (max_buckets m0)) with (length (buckets m0)) by lia.
  replace (Z.to_nat (max_rules m0)) with (length (rules m0)) by lia.
  eapply (runs_bind_room _ (length (enc_after_buckets t m0))); [lia| |].
  { eapply (runs_buckets _ _ (with_rules (replicate (length (rules m0)) None)
      (with_sizes (max_buckets m0) (max_rules m0) (max_devices m0) (with_tries 2 5 19 zero_map)))).
    exact Hbs. }
  unfold enc_after_buckets. eapply runs_bind.
  { apply (runs_rules 0 _ (with_buckets (buckets m0)
      (with_sizes (max_buckets m0) (max_rules m0) (max_devices m0) (with_tries 2 5 19 zero_map)))).
    exact Hrs. }
  eapply runs_bind; [by apply runs_zoom, runs_names|].
  eapply runs_bind; [by apply runs_zoom, runs_names|].
  eapply runs_bind; [by apply runs_parses, parses_skip_names, (wt_rule_names t Ht)|].
  eapply runs_eq; [apply (runs_from_tunables t m0 Ht); by constructor|done|done].
Qed.
End buckets.

(** [crush_decode] on a map in the middle of a message. *)
Lemma crush_decode_enc_map (ok : alloc_site → Z → Z → bool) (t : wire_tail) (m : crush_map)
    (pre post : list Z)
    (Hok : ∀ site p n, ok site p n = true) (Ht : wire_tail_ok t) (Hm : wire_map t m)
    (Hsized : crush_finalize m = Ret m) :
  crush_decode (pre ++ enc_map t m ++ post) (Z.of_nat (length (pre ++ enc_map t m))) ok
    (Z.of_nat (length pre)) = Ret (inl m).
Proof.
  unfold crush_decode. rewrite Hok. cbn [negb].
  rewrite (runs_map ok Hok _ t m Ht Hm pre post) by (rewrite ?length_app; lia).
  cbn [mbind outcome_bind]. change (crush_finalize (unsized m)) with (crush_finalize m).
  by rewrite Hsized.
Qed.


(** A root of two hosts, one of them uniform, with a rule, names, weights of its own for one pool
    and for the pools that have none (the index -1). *)
Definition ex_arg_map (index : Z) : crush_choose_arg_map :=
  CrushChooseArgMap index
    [CrushChooseArg (Some [-2; -3]) 2 (Some [CrushWeightSet [0x10000; 0x8000] 2]) 1; zero_arg; zero_arg] 3.
Definition ex_wire_map : crush_map :=
  CrushMap
    [Some (CrushBucket (-1) 10 CRUSH_BUCKET_STRAW2 0 0x30000 2 [-2; -3]
             (crush_bucket_straw2 [0x10000; 0x20000]));
     Some (CrushBucket (-2) 1 CRUSH_BUCKET_UNIFORM 0 0x10000 1 [0] (crush_bucket_uniform 0x10000));
     Some (CrushBucket (-3) 1 CRUSH_BUCKET_LIST 0 0x20000 2 [1; 2]
             (crush_bucket_list [0x10000; 0x10000] [0x10000; 0x20000]))]
    [None; Some (CrushRule 3 (CrushRuleMask 1 1 1 10)
       [CrushRuleStep CRUSH_RULE_TAKE (-1) 0; CrushRuleStep CRUSH_RULE_CHOOSELEAF_FIRSTN 0 1;
        CrushRuleStep CRUSH_RULE_EMIT 0 0])]
    3 2 3 0 0 50 1 1 1 (24 + 3 * 8 + 3 * 16 + 5 * 4) {[1 := [104; 111; 115; 116]]} {[-1 := [114]]}
    {[5 := ex_arg_map 5; -1 := ex_arg_map (-1)]}.
Definition ex_tail : wire_tail := WireTail [(1, [114; 49])] 7 [1; 54; 0; 0; 0] [(0, 0)] [(0, [115])] [(0, [(1, 2)])].

Lemma ex_tail_ok : wire_tail_ok ex_tail.
Proof.
  constructor; try done; split; (done || (repeat constructor; done)).
Qed.

Ltac words := repeat first [done | apply Forall_nil_2 | apply Forall_cons; split | split].

Lemma ex_wire_map_ok : wire_map ex_tail ex_wire_map.
Proof.
  constructor; try done.
  - do 2 (split; [done|]). repeat (apply Forall_cons; split); [..|apply Forall_nil_2];
      intros b [= <-]; (split; [constructor; words|done]).
  - do 2 (split; [done|]). repeat (apply Forall_cons; split); [..|apply Forall_nil_2];
      intros r [= <-]; words.
  - split; [done|]. cbn [ex_wire_map type_names]. by intros k s [<- <-]%lookup_singleton_Some.
  - split; [done|]. cbn [ex_wire_map names]. by intros k s [<- <-]%lookup_singleton_Some.
  - repeat split; intros; simpl in *; lia.
  - split; [done|]. cbn [ex_wire_map choose_args].
    intros k am [[<- <-]|[_ [<- <-]%lookup_singleton_Some]]%lookup_insert_Some; constructor; try done;
      intros [|[|[|i]]] o arg [= <-] [= <-]; constructor; words; by eexists.
Qed.


(** What the decoder does not survive.  A weight set cut short: the sets that were not reached are
    freed through pointers nobody has written. *)
Example choose_args_cut_short :
  let bytes := ceph_encode_32 1 ++ ceph_encode_64 5 ++ ceph_encode_32 1 ++ ceph_encode_32 0
               ++ ceph_encode_32 2 in
  decode_choose_args bytes 24 (λ _ _ _, true) ex_wire_map 0 = Undef.
Proof. reflexivity. Qed.

(** A bucket allocated as one kind and decoded as another. *)
Example bucket_kinds_differ :
  let header := ceph_encode_32 0xffffffff ++ ceph_encode_16 1 ++ ceph_encode_8 CRUSH_BUCKET_LIST
                ++ ceph_encode_8 0 ++ ceph_encode_32 0 ++ ceph_encode_32 0 in
  let bytes := ceph_encode_32 CRUSH_MAGIC ++ ceph_encode_32 1 ++ ceph_encode_32 0
               ++ ceph_encode_32 0 ++ ceph_encode_32 CRUSH_BUCKET_UNIFORM ++ header in
  crush_decode bytes 36 (λ _ _ _, true) 0 = Undef.
Proof. reflexivity. Qed.
