(* ===== verification/OsdMapDecode.v ===== *)
(** * Decoding OSD maps (libceph/osdmap.c, [osdmap_decode], [osdmap_apply_incremental] and what
    they call)

    Decoders on the map being filled: what an error leaves in it stays there. *)
From S2P Require Import Prelude Hash Crush Mapper Choose DoRule Workspace OsdMap Decode.
From S2P Require Import CrushDecode.

(** ** Field updates *)

Definition with_header (fsid : list Z) (epoch : Z) (created modified : Z * Z) (map : ceph_osdmap)
    : ceph_osdmap :=
  CephOsdmap fsid epoch created modified (om_flags map) (om_max_osd map) (om_osd_state map)
    (om_osd_weight map) (om_osd_addr map) (om_pg_temp map) (om_primary_temp map) (om_pg_upmap map)
    (om_pg_upmap_items map) (om_osd_primary_affinity map) (om_pg_pools map) (om_pool_max map)
    (om_crush map) (om_crush_wsm map).
Definition with_flags (flags : Z) (map : ceph_osdmap) : ceph_osdmap :=
  CephOsdmap (om_fsid map) (om_epoch map) (om_created map) (om_modified map) flags (om_max_osd map)
    (om_osd_state map) (om_osd_weight map) (om_osd_addr map) (om_pg_temp map) (om_primary_temp map)
    (om_pg_upmap map) (om_pg_upmap_items map) (om_osd_primary_affinity map) (om_pg_pools map)
    (om_pool_max map) (om_crush map) (om_crush_wsm map).
Definition with_pools (pools : gmap Z ceph_pg_pool_info) (map : ceph_osdmap) : ceph_osdmap :=
  CephOsdmap (om_fsid map) (om_epoch map) (om_created map) (om_modified map) (om_flags map)
    (om_max_osd map) (om_osd_state map) (om_osd_weight map) (om_osd_addr map) (om_pg_temp map)
    (om_primary_temp map) (om_pg_upmap map) (om_pg_upmap_items map) (om_osd_primary_affinity map)
    pools (om_pool_max map) (om_crush map) (om_crush_wsm map).
Definition with_pool_max (pool_max : Z) (map : ceph_osdmap) : ceph_osdmap :=
  CephOsdmap (om_fsid map) (om_epoch map) (om_created map) (om_modified map) (om_flags map)
    (om_max_osd map) (om_osd_state map) (om_osd_weight map) (om_osd_addr map) (om_pg_temp map)
    (om_primary_temp map) (om_pg_upmap map) (om_pg_upmap_items map) (om_osd_primary_affinity map)
    (om_pg_pools map) pool_max (om_crush map) (om_crush_wsm map).
Definition with_temps (pg_temp : gmap ceph_pg (list Z)) (primary_temp : gmap ceph_pg Z)
    (map : ceph_osdmap) : ceph_osdmap :=
  CephOsdmap (om_fsid map) (om_epoch map) (om_created map) (om_modified map) (om_flags map)
    (om_max_osd map) (om_osd_state map) (om_osd_weight map) (om_osd_addr map) pg_temp primary_temp
    (om_pg_upmap map) (om_pg_upmap_items map) (om_osd_primary_affinity map) (om_pg_pools map)
    (om_pool_max map) (om_crush map) (om_crush_wsm map).
Definition with_upmaps (pg_upmap : gmap ceph_pg (list Z))
    (pg_upmap_items : gmap ceph_pg (list (Z * Z))) (map : ceph_osdmap) : ceph_osdmap :=
  CephOsdmap (om_fsid map) (om_epoch map) (om_created map) (om_modified map) (om_flags map)
    (om_max_osd map) (om_osd_state map) (om_osd_weight map) (om_osd_addr map) (om_pg_temp map)
    (om_primary_temp map) pg_upmap pg_upmap_items (om_osd_primary_affinity map) (om_pg_pools map)
    (om_pool_max map) (om_crush map) (om_crush_wsm map).

Definition with_placement (type size ruleset hash pg_num pgp_num : Z) (pi : ceph_pg_pool_info) :=
  CephPgPoolInfo (pi_id pi) type size (pi_min_size pi) ruleset hash
    (pi_last_force_request_resend pi) pg_num pgp_num (pi_pg_num_mask pi) (pi_pgp_num_mask pi)
    (pi_read_tier pi) (pi_write_tier pi) (pi_flags pi) (pi_name pi) (pi_was_full pi).
Definition with_pool_flags (flags : Z) (pi : ceph_pg_pool_info) :=
  CephPgPoolInfo (pi_id pi) (pi_type pi) (pi_size pi) (pi_min_size pi) (pi_crush_ruleset pi)
    (pi_object_hash pi) (pi_last_force_request_resend pi) (pi_pg_num pi) (pi_pgp_num pi)
    (pi_pg_num_mask pi) (pi_pgp_num_mask pi) (pi_read_tier pi) (pi_write_tier pi) flags
    (pi_name pi) (pi_was_full pi).
Definition with_min_size (min_size : Z) (pi : ceph_pg_pool_info) :=
  CephPgPoolInfo (pi_id pi) (pi_type pi) (pi_size pi) min_size (pi_crush_ruleset pi)
    (pi_object_hash pi) (pi_last_force_request_resend pi) (pi_pg_num pi) (pi_pgp_num pi)
    (pi_pg_num_mask pi) (pi_pgp_num_mask pi) (pi_read_tier pi) (pi_write_tier pi) (pi_flags pi)
    (pi_name pi) (pi_was_full pi).
Definition with_tiers (read write : Z) (pi : ceph_pg_pool_info) :=
  CephPgPoolInfo (pi_id pi) (pi_type pi) (pi_size pi) (pi_min_size pi) (pi_crush_ruleset pi)
    (pi_object_hash pi) (pi_last_force_request_resend pi) (pi_pg_num pi) (pi_pgp_num pi)
    (pi_pg_num_mask pi) (pi_pgp_num_mask pi) read write (pi_flags pi) (pi_name pi)
    (pi_was_full pi).
Definition with_resend (epoch : Z) (pi : ceph_pg_pool_info) :=
  CephPgPoolInfo (pi_id pi) (pi_type pi) (pi_size pi) (pi_min_size pi) (pi_crush_ruleset pi)
    (pi_object_hash pi) epoch (pi_pg_num pi) (pi_pgp_num pi) (pi_pg_num_mask pi)
    (pi_pgp_num_mask pi) (pi_read_tier pi) (pi_write_tier pi) (pi_flags pi) (pi_name pi)
    (pi_was_full pi).
Definition with_name (name : list Z) (pi : ceph_pg_pool_info) :=
  CephPgPoolInfo (pi_id pi) (pi_type pi) (pi_size pi) (pi_min_size pi) (pi_crush_ruleset pi)
    (pi_object_hash pi) (pi_last_force_request_resend pi) (pi_pg_num pi) (pi_pgp_num pi)
    (pi_pg_num_mask pi) (pi_pgp_num_mask pi) (pi_read_tier pi) (pi_write_tier pi) (pi_flags pi)
    (Some name) (pi_was_full pi).

(** [kzalloc] and the id. *)
Definition new_pool (id : Z) : ceph_pg_pool_info :=
  CephPgPoolInfo id 0 0 0 0 0 0 0 0 0 0 0 0 0 None false.

(** [kstrndup]: up to the terminator. *)
Fixpoint kstrndup (l : list Z) : list Z :=
  match l with [] => [] | b :: l => if b =? 0 then [] else b :: kstrndup l end.

Section decode.
Context (buf : list Z) (end_ : Z).
Context (alloc_ok : alloc_site → Z → Z → bool).

(** ** Pools *)

Definition skip_string {S} : D S unit := ceph_decode_skip_string buf end_ (- EINVAL).
Definition skip_n {S} (n : Z) : D S unit := ceph_decode_skip_n end_ n (- EINVAL).

(** What newer encodings have, in their order; [ev] is the version of the encoding. *)
Definition decode_pool_optional (ev : Z) : D ceph_pg_pool_info unit :=
  _ ← (if ev >=? 7 then
         m ← ceph_decode_8_safe buf end_ (- EINVAL); dmodify (with_min_size m)
       else dmodify (λ pi, with_min_size (u8 (pi_size pi - pi_size pi / 2)) pi));
  _ ← dwhen (ev >=? 8) (skip_n (8 + 8));
  _ ← (if ev >=? 9 then
         _ ← ceph_decode_skip_set buf end_ (ceph_decode_skip_64 end_) (- EINVAL);
         _ ← ceph_decode_need end_ (8 + 1 + 8 + 8) (- EINVAL);
         _ ← dskip 8;
         _ ← dskip 1;
         r ← ceph_decode_64 buf;
         w ← ceph_decode_64 buf;
         dmodify (with_tiers (s64 r) (s64 w))
       else dmodify (with_tiers (-1) (-1)));
  _ ← dwhen (ev >=? 10) (ceph_decode_skip_map buf end_ (ceph_decode_skip_string buf end_)
                           (ceph_decode_skip_string buf end_) (- EINVAL));
  _ ← dwhen (ev >=? 11) (_ ← skip_n 2; _ ← skip_string; skip_n (4 + 4));
  _ ← dwhen (ev >=? 12) (ceph_decode_skip_32 end_ (- EINVAL));
  _ ← dwhen (ev >=? 13) (skip_n (16 + 8 + 8));
  _ ← dwhen (ev >=? 14) skip_string;
  _ ← (if ev >=? 15 then
         r ← ceph_decode_32_safe buf end_ (- EINVAL); dmodify (with_resend r)
       else dmodify (with_resend 0));
  _ ← dwhen (ev >=? 16) (ceph_decode_skip_32 end_ (- EINVAL));
  _ ← dwhen (ev >=? 17) (ceph_decode_skip_64 end_ (- EINVAL));
  _ ← dwhen (ev >=? 19) (ceph_decode_skip_32 end_ (- EINVAL));
  _ ← dwhen (ev >=? 20) (ceph_decode_skip_32 end_ (- EINVAL));
  _ ← dwhen (ev >=? 21) (ceph_decode_skip_8 end_ (- EINVAL));
  _ ← dwhen (ev >=? 22) (ceph_decode_skip_8 end_ (- EINVAL));
  _ ← dwhen (ev >=? 23) (skip_n (4 + 4));
  _ ← dwhen (ev >=? 24) (_ ← skip_n 2; skip_string);
  dwhen (ev >=? 25)
    (r ← ceph_decode_32_safe buf end_ (- EINVAL); dmodify (with_resend r)).

Definition decode_pool_placement : D ceph_pg_pool_info unit :=
  type ← ceph_decode_8 buf;
  size ← ceph_decode_8 buf;
  ruleset ← ceph_decode_8 buf;
  hash ← ceph_decode_8 buf;
  pg_num ← ceph_decode_32 buf;
  pgp_num ← ceph_decode_32 buf;
  dmodify (with_placement type size ruleset hash pg_num pgp_num).
Definition skip_pool_snaps : D ceph_pg_pool_info unit :=
  num ← ceph_decode_32_safe buf end_ (- EINVAL);
  dloop num (_ ← skip_n (8 + 2); skip_string).
Definition decode_pool_flags : D ceph_pg_pool_info unit :=
  _ ← ceph_decode_need end_ (8 + 8 + 4) (- EINVAL);
  _ ← dskip 8;
  flags ← ceph_decode_64 buf;
  _ ← dmodify (with_pool_flags flags);
  dskip 4.

Definition decode_pool : D ceph_pg_pool_info unit :=
  _ ← ceph_decode_need end_ (2 + 4) (- EINVAL);
  ev ← ceph_decode_8 buf;
  cv ← ceph_decode_8 buf;
  if ev <? 5 then dfail (- EINVAL)
  else if cv >? 9 then dfail (- EINVAL)
  else
    len ← ceph_decode_32 buf;
    _ ← ceph_decode_need end_ len (- EINVAL);
    start ← dpos;
    let pool_end := start + len in
    _ ← ceph_decode_need end_ (4 + 4 + 4) (- EINVAL);
    _ ← decode_pool_placement;
    _ ← skip_n (8 + 4 + 8 + 4);
    _ ← skip_pool_snaps;
    _ ← ceph_decode_skip_map buf end_ (ceph_decode_skip_64 end_) (ceph_decode_skip_64 end_) (- EINVAL);
    _ ← decode_pool_flags;
    _ ← decode_pool_optional ev;
    _ ← dseek pool_end;
    pi ← dget;
    pi ← dlift (calc_pg_masks pi);
    dput pi.

(** The pool [id] of the map, in place. *)
Definition in_pool (id : Z) (d : D ceph_pg_pool_info unit) : D ceph_osdmap unit :=
  dzoom (λ map, default (new_pool id) (om_pg_pools map !! id))
    (λ pi map, with_pools (<[id := pi]> (om_pg_pools map)) map) d.

Definition decode_one_pool (incremental : bool) : D ceph_osdmap unit :=
  pool ← ceph_decode_64_safe buf end_ (- EINVAL);
  map ← dget;
  _ ← dwhen (negb incremental || negb (bool_decide (is_Some (ceph_pg_pool_by_id map pool))))
        (_ ← kmalloc alloc_ok A_pool 152;
         match rb_try_insert (s64 pool) (new_pool (s64 pool)) (om_pg_pools map) with
         | None => dfail (- EEXIST)
         | Some pools => dput (with_pools pools map)
         end);
  in_pool (s64 pool) decode_pool.

Definition decode_pools_ (incremental : bool) : D ceph_osdmap unit :=
  n ← ceph_decode_32_safe buf end_ (- EINVAL);
  dloop n (decode_one_pool incremental).
Definition decode_pools : D ceph_osdmap unit := decode_pools_ false.
Definition decode_new_pools : D ceph_osdmap unit := decode_pools_ true.

Definition decode_pool_name : D ceph_osdmap unit :=
  pool ← ceph_decode_64_safe buf end_ (- EINVAL);
  len ← ceph_decode_32_safe buf end_ (- EINVAL);
  _ ← ceph_decode_need end_ len (- EINVAL);
  map ← dget;
  start ← dpos;
  _ ← match ceph_pg_pool_by_id map pool with
      | None => mret tt
      | Some pi =>
          _ ← kmalloc alloc_ok A_pool_name (len + 1);
          str ← dlift (slice buf start len);
          dput (with_pools (<[s64 pool := with_name (kstrndup str) pi]> (om_pg_pools map)) map)
      end;
  dskip len.
Definition decode_pool_names : D ceph_osdmap unit :=
  num ← ceph_decode_32_safe buf end_ (- EINVAL);
  dloop num decode_pool_name.

Definition decode_old_pool : D ceph_osdmap unit :=
  pool ← ceph_decode_64_safe buf end_ (- EINVAL);
  map ← dget;
  match ceph_pg_pool_by_id map pool with
  | None => mret tt
  | Some pi => dput (with_pools (remove_pg_pool (om_pg_pools map) pi) map)
  end.

(** ** Mappings of placement groups *)

(** [fn] decodes what a group is mapped to: [None] says that it is no longer mapped. *)
Definition decode_one_mapping {V} (fn : option (D (gmap ceph_pg V) (option V)))
    : D (gmap ceph_pg V) unit :=
  pgid ← ceph_decode_pgid buf end_;
  _ ← dmodify (delete pgid);
  match fn with
  | None => mret tt
  | Some fn =>
      v ← fn;
      match v with None => mret tt | Some v => dmodify (<[pgid := v]>) end
  end.
Definition decode_pg_mapping {V} (fn : option (D (gmap ceph_pg V) (option V)))
    : D (gmap ceph_pg V) unit :=
  n ← ceph_decode_32_safe buf end_ (- EINVAL);
  dloop n (decode_one_mapping fn).

Definition decode_pg_temp_ {S} (incremental : bool) : D S (option (list Z)) :=
  len ← ceph_decode_32_safe buf end_ (- EINVAL);
  if (len =? 0) && incremental then mret None
  else
    _ ← ceph_decode_need end_ (len * 4) (- EINVAL);
    _ ← kmalloc alloc_ok A_mapping (48 + len * 4);
    osds ← drepeat (Z.to_nat len) (ceph_decode_32 buf);
    mret (Some (map s32 osds)).

Definition decode_primary_temp_ {S} (incremental : bool) : D S (option Z) :=
  osd ← ceph_decode_32_safe buf end_ (- EINVAL);
  if (osd =? 2 ^ 32 - 1) && incremental then mret None
  else _ ← kmalloc alloc_ok A_mapping 48; mret (Some (s32 osd)).

Definition decode_pg_upmap_ {S} : D S (option (list Z)) := decode_pg_temp_ false.

(** The product is computed in 32 bits: the pairs may not fit what is checked and allocated. *)
Definition decode_pg_upmap_items_ {S} : D S (option (list (Z * Z))) :=
  len ← ceph_decode_32_safe buf end_ (- EINVAL);
  let bytes := u32 (2 * len) * 4 in
  _ ← ceph_decode_need end_ bytes (- EINVAL);
  _ ← kmalloc alloc_ok A_mapping (48 + bytes);
  _ ← dlift (require (len * 8 <=? bytes));
  items ← drepeat (Z.to_nat len)
    (x ← ceph_decode_32 buf; y ← ceph_decode_32 buf; mret (s32 x, s32 y));
  mret (Some items).

Definition in_pg_temp : D (gmap ceph_pg (list Z)) unit → D ceph_osdmap unit :=
  dzoom om_pg_temp (λ t map, with_temps t (om_primary_temp map) map).
Definition in_primary_temp : D (gmap ceph_pg Z) unit → D ceph_osdmap unit :=
  dzoom om_primary_temp (λ t map, with_temps (om_pg_temp map) t map).
Definition in_pg_upmap : D (gmap ceph_pg (list Z)) unit → D ceph_osdmap unit :=
  dzoom om_pg_upmap (λ t map, with_upmaps t (om_pg_upmap_items map) map).
Definition in_pg_upmap_items : D (gmap ceph_pg (list (Z * Z))) unit → D ceph_osdmap unit :=
  dzoom om_pg_upmap_items (λ t map, with_upmaps (om_pg_upmap map) t map).

Definition decode_pg_temp := in_pg_temp (decode_pg_mapping (Some (decode_pg_temp_ false))).
Definition decode_new_pg_temp := in_pg_temp (decode_pg_mapping (Some (decode_pg_temp_ true))).
Definition decode_primary_temp :=
  in_primary_temp (decode_pg_mapping (Some (decode_primary_temp_ false))).
Definition decode_new_primary_temp :=
  in_primary_temp (decode_pg_mapping (Some (decode_primary_temp_ true))).
Definition decode_pg_upmap := in_pg_upmap (decode_pg_mapping (Some decode_pg_upmap_)).
Definition decode_new_pg_upmap := in_pg_upmap (decode_pg_mapping (Some decode_pg_upmap_)).
Definition decode_old_pg_upmap := in_pg_upmap (decode_pg_mapping None).
Definition decode_pg_upmap_items :=
  in_pg_upmap_items (decode_pg_mapping (Some decode_pg_upmap_items_)).
Definition decode_new_pg_upmap_items :=
  in_pg_upmap_items (decode_pg_mapping (Some decode_pg_upmap_items_)).
Definition decode_old_pg_upmap_items := in_pg_upmap_items (decode_pg_mapping None).

(** ** Primary affinities *)

(** Whether the array could be allocated is asked where it is. *)
Definition set_affinity_at (osd aff : Z) : D ceph_osdmap unit := λ map p,
  dcall (set_primary_affinity (alloc_ok A_affinity p (om_max_osd map * 4)) map osd aff) map p.

Definition decode_primary_affinity : D ceph_osdmap unit :=
  len ← ceph_decode_32_safe buf end_ (- EINVAL);
  map ← dget;
  if len =? 0 then dput (set_affinity map None)
  else if negb (len =? om_max_osd map) then dfail (- EINVAL)
  else
    _ ← ceph_decode_need end_ (om_max_osd map * 4) (- EINVAL);
    dfor (Z.to_nat (om_max_osd map)) 0 (λ i, aff ← ceph_decode_32 buf; set_affinity_at i aff).

Definition decode_new_primary_affinity : D ceph_osdmap unit :=
  n ← ceph_decode_32_safe buf end_ (- EINVAL);
  dloop n
    (osd ← ceph_decode_32_safe buf end_ (- EINVAL);
     aff ← ceph_decode_32_safe buf end_ (- EINVAL);
     set_affinity_at (s32 osd) aff).

(** ** Versions *)

Definition OSDMAP_WRAPPER_COMPAT_VER : Z := 7.
Definition OSDMAP_CLIENT_DATA_COMPAT_VER : Z := 1.

Definition get_osdmap_client_data_v {S} : D S Z :=
  struct_v ← ceph_decode_8_safe buf end_ (- EINVAL);
  if struct_v >=? 7 then
    struct_compat ← ceph_decode_8_safe buf end_ (- EINVAL);
    if struct_compat >? OSDMAP_WRAPPER_COMPAT_VER then dfail (- EINVAL)
    else
      _ ← dskip 4;
      struct_v ← ceph_decode_8_safe buf end_ (- EINVAL);
      struct_compat ← ceph_decode_8_safe buf end_ (- EINVAL);
      if struct_compat >? OSDMAP_CLIENT_DATA_COMPAT_VER then dfail (- EINVAL)
      else _ ← dskip 4; mret struct_v
  else
    _ ← dskip (-1);
    version ← ceph_decode_16_safe buf end_ (- EINVAL);
    if version <? 6 then dfail (- EINVAL) else mret 0.
End decode.

Section maps.
Context (buf : list Z) (msgr2 : bool).
Context (alloc_ok : alloc_site → Z → Z → bool).
(** The contents of fresh memory, of a variable nobody has written, and the name a fresh
    workspace gets. *)
Context (mem : nat → Z) (amem : nat → ceph_entity_addr) (wmem : Z → Z) (junk : ceph_entity_addr)
  (new_handle : handle).

(** ** The per-OSD state *)

Definition CEPH_OSD_AUTOOUT : Z := Z.shiftl 1 2.
Definition CEPH_OSD_NEW : Z := Z.shiftl 1 3.

(** [decode_set_max_osd], [decode_set_crush]: the calls, with the allocations of this place. *)
Definition decode_set_max_osd (max : Z) : D ceph_osdmap unit := λ map p,
  dcall (osdmap_set_max_osd (alloc_ok A_osd_arrays p (max * 144)) (alloc_ok A_osd_affinity p (max * 4))
           mem amem map max) map p.
Definition decode_set_crush (crush : crush_map + Z) : D ceph_osdmap unit := λ map p,
  dcall ('(r, map, _) ← osdmap_set_crush (alloc_ok A_workspace p 0) wmem new_handle map crush;
         Ret (r, map)) map p.

Section to.
Context (end_ : Z).

Definition decode_addr (vec : bool) : D ceph_osdmap (option ceph_entity_addr) :=
  if vec then ceph_decode_entity_addrvec buf end_ msgr2
  else a ← ceph_decode_entity_addr buf end_; mret (Some a).

Definition put_states (st : list Z) : D ceph_osdmap unit :=
  dmodify (λ map, set_osd_arrays map st (om_osd_weight map) (om_osd_addr map)).
Definition put_weights (w : list Z) : D ceph_osdmap unit :=
  dmodify (λ map, set_osd_arrays map (om_osd_state map) w (om_osd_addr map)).
Definition put_addrs (ad : list ceph_entity_addr) : D ceph_osdmap unit :=
  dmodify (λ map, set_osd_arrays map (om_osd_state map) (om_osd_weight map) ad).

(** [map->osd_state[osd] = f(map->osd_state[osd])] *)
Definition update_state (osd : Z) (f : Z → Z) : D ceph_osdmap unit :=
  map ← dget;
  v ← dlift (aget (om_osd_state map) osd);
  st ← dlift (aset (om_osd_state map) osd (f v));
  put_states st.
Definition put_addr (osd : Z) (a : ceph_entity_addr) : D ceph_osdmap unit :=
  map ← dget; ad ← dlift (aset (om_osd_addr map) osd a); put_addrs ad.

(** [BUG_ON(osd >= map->max_osd)], compared unsigned. *)
Definition check_osd (osd : Z) : D ceph_osdmap unit :=
  map ← dget; dlift (require (negb (u32 osd >=? om_max_osd map))).

Definition skip_up_client (struct_v : Z) : D ceph_osdmap unit :=
  _ ← ceph_decode_skip_32 end_ (- EINVAL);
  _ ← decode_addr (struct_v >=? 7);
  mret tt.

Definition decode_new_weight : D ceph_osdmap unit :=
  _ ← ceph_decode_need end_ (2 * 4) (- EINVAL);
  osd ← ceph_decode_32 buf;
  let osd := s32 osd in
  w ← ceph_decode_32 buf;
  _ ← check_osd osd;
  map ← dget;
  ws ← dlift (aset (om_osd_weight map) osd w);
  _ ← put_weights ws;
  dwhen (nonzero w)
    (update_state osd (λ st, Z.land (Z.lor st CEPH_OSD_EXISTS)
                               (u32 (Z.lnot (Z.lor CEPH_OSD_AUTOOUT CEPH_OSD_NEW))))).

Definition decode_new_state (struct_v : Z) : D ceph_osdmap unit :=
  osd ← ceph_decode_32 buf;
  let osd := s32 osd in
  xorstate ← (if struct_v >=? 5 then ceph_decode_32 buf else ceph_decode_8 buf);
  let xorstate := if xorstate =? 0 then CEPH_OSD_UP else xorstate in
  _ ← check_osd osd;
  map ← dget;
  st ← dlift (aget (om_osd_state map) osd);
  if nonzero (Z.land st CEPH_OSD_EXISTS) && nonzero (Z.land xorstate CEPH_OSD_EXISTS) then
    _ ← set_affinity_at alloc_ok osd CEPH_OSD_DEFAULT_PRIMARY_AFFINITY;
    _ ← put_addr osd zero_addr;
    update_state osd (λ _, 0)
  else update_state osd (λ st, Z.lxor st xorstate).

Definition decode_new_up_client (struct_v : Z) : D ceph_osdmap unit :=
  osd ← ceph_decode_32 buf;
  let osd := s32 osd in
  _ ← check_osd osd;
  addr ← decode_addr (struct_v >=? 7);
  _ ← update_state osd (λ st, Z.lor st (Z.lor CEPH_OSD_EXISTS CEPH_OSD_UP));
  put_addr osd (default junk addr).

(** The section of the clients that came up is passed over, then applied last. *)
Definition decode_new_up_state_weight (struct_v : Z) : D ceph_osdmap unit :=
  new_up_client ← dpos;
  len ← ceph_decode_32_safe buf end_ (- EINVAL);
  _ ← dloop len (skip_up_client struct_v);
  new_state ← dpos;
  len ← ceph_decode_32_safe buf end_ (- EINVAL);
  let len := u32 (len * (4 + if struct_v >=? 5 then 4 else 1)) in
  _ ← ceph_decode_need end_ len (- EINVAL);
  _ ← dskip len;
  len ← ceph_decode_32_safe buf end_ (- EINVAL);
  _ ← dloop len decode_new_weight;
  new_weight_end ← dpos;
  _ ← dseek new_state;
  len ← ceph_decode_32 buf;
  _ ← dloop len (decode_new_state struct_v);
  _ ← dseek new_up_client;
  len ← ceph_decode_32 buf;
  _ ← dloop len (decode_new_up_client struct_v);
  dseek new_weight_end.

(** ** Full maps *)

(** An array whose length must be the map's. *)
Definition decode_len : D ceph_osdmap unit :=
  n ← ceph_decode_32 buf;
  map ← dget;
  if negb (n =? om_max_osd map) then dfail (- EINVAL) else mret tt.

Definition decode_osd_states (struct_v : Z) : D ceph_osdmap unit :=
  map ← dget;
  dfor (Z.to_nat (om_max_osd map)) 0
    (λ i, v ← (if struct_v >=? 5 then ceph_decode_32 buf else ceph_decode_8 buf);
          map ← dget; st ← dlift (aset (om_osd_state map) i v); put_states st).
Definition decode_osd_weights : D ceph_osdmap unit :=
  map ← dget;
  dfor (Z.to_nat (om_max_osd map)) 0
    (λ i, v ← ceph_decode_32 buf;
          map ← dget; w ← dlift (aset (om_osd_weight map) i v); put_weights w).
(** An empty vector leaves the address as it is. *)
Definition decode_osd_addrs (struct_v : Z) : D ceph_osdmap unit :=
  map ← dget;
  dfor (Z.to_nat (om_max_osd map)) 0
    (λ i, map ← dget;
          old ← dlift (aget (om_osd_addr map) i);
          a ← decode_addr (struct_v >=? 8);
          put_addr i (default old a)).

Definition decode_timespec {S} : D S (Z * Z) :=
  sec ← ceph_decode_32 buf; nsec ← ceph_decode_32 buf; mret (sec, nsec).

(** The CRUSH map in the next [len] bytes, or what there is of them. *)
Definition decode_crush (len : Z) : D ceph_osdmap unit :=
  p ← dpos;
  crush ← dlift (crush_decode buf (Z.min (p + len) end_) alloc_ok p);
  _ ← decode_set_crush crush;
  dskip len.

Definition skip_erasure_code_profiles : D ceph_osdmap unit :=
  ceph_decode_skip_map_of_map buf end_ (ceph_decode_skip_string buf end_)
    (ceph_decode_skip_string buf end_) (ceph_decode_skip_string buf end_) (- EINVAL).

(** What the arrays take is not checked in full here; the addresses are when they are read. *)
Definition decode_osd_arrays (struct_v : Z) : D ceph_osdmap unit :=
  map ← dget;
  _ ← ceph_decode_need end_ (3 * 4 + om_max_osd map * (if struct_v >=? 5 then 4 else 1) + 4) (- EINVAL);
  _ ← decode_len;
  _ ← decode_osd_states struct_v;
  _ ← decode_len;
  _ ← decode_osd_weights;
  _ ← decode_len;
  decode_osd_addrs struct_v.

Definition decode_full_header : D ceph_osdmap unit :=
  _ ← ceph_decode_need end_ (16 + 4 + 8 + 8) (- EINVAL);
  fsid ← ceph_decode_copy buf 16;
  epoch ← ceph_decode_32 buf;
  created ← decode_timespec;
  modified ← decode_timespec;
  dmodify (with_header fsid epoch created modified).

Definition decode_temps (struct_v : Z) : D ceph_osdmap unit :=
  _ ← decode_pg_temp buf end_ alloc_ok;
  _ ← dwhen (struct_v >=? 1) (decode_primary_temp buf end_ alloc_ok);
  dwhen (struct_v >=? 2) (decode_primary_affinity buf end_ alloc_ok).

Definition osdmap_decode : D ceph_osdmap unit :=
  struct_v ← get_osdmap_client_data_v buf end_;
  _ ← decode_full_header;
  _ ← decode_pools buf end_ alloc_ok;
  _ ← decode_pool_names buf end_ alloc_ok;
  pool_max ← ceph_decode_32_safe buf end_ (- EINVAL);
  _ ← dmodify (with_pool_max pool_max);
  flags ← ceph_decode_32_safe buf end_ (- EINVAL);
  _ ← dmodify (with_flags flags);
  max ← ceph_decode_32_safe buf end_ (- EINVAL);
  _ ← decode_set_max_osd max;
  _ ← decode_osd_arrays struct_v;
  _ ← decode_temps struct_v;
  len ← ceph_decode_32_safe buf end_ (- EINVAL);
  _ ← decode_crush len;
  _ ← dwhen (struct_v >=? 3) skip_erasure_code_profiles;
  _ ← dwhen (struct_v >=? 4)
        (_ ← decode_pg_upmap buf end_ alloc_ok; decode_pg_upmap_items buf end_ alloc_ok);
  dseek end_.
End to.

(** [ceph_osdmap_destroy]: what goes wrong is in the CRUSH map and the workspaces. *)
Definition ceph_osdmap_destroy (map : ceph_osdmap) : outcome unit :=
  _ ← match om_crush map with Some c => crush_destroy c | None => Ret [] end;
  _ ← cleanup_workspace_manager (om_crush_wsm map);
  Ret tt.

(** The map or an error number, and the position. *)
Definition ceph_osdmap_decode (p end_ : Z) : outcome ((ceph_osdmap + Z) * Z) :=
  match ceph_osdmap_alloc (alloc_ok A_osdmap p 0) with
  | None => Ret (inr (- ENOMEM), p)
  | Some map =>
      '(r, map, p) ← osdmap_decode end_ map p;
      match r with
      | inl _ => Ret (inl map, p)
      | inr err => _ ← ceph_osdmap_destroy map; Ret (inr err, p)
      end
  end.

(** ** Incremental maps *)

(** What an incremental map gives: the map it was applied to, or a new one. *)
Inductive applied :=
  | Same_map
  | New_map (map : ceph_osdmap).

Section incremental.
Context (end_ : Z).

(** A full map inside the incremental one: its result is the result. *)
Definition decode_full (len : Z) : D ceph_osdmap applied := λ map p,
  '(r, p) ← ceph_osdmap_decode p (Z.min (p + len) end_);
  Ret (match r with inl new => inl (New_map new) | inr err => inr err end, map, p).

(** The updates, behind the header, in their order. *)
Definition decode_new_crush : D ceph_osdmap unit :=
  len ← ceph_decode_32_safe buf end_ (- EINVAL);
  dwhen (s32 len >? 0) (decode_crush end_ (s32 len)).
Definition apply_header (modified : Z * Z) (new_pool_max new_flags : Z) : D ceph_osdmap unit :=
  _ ← dwhen (new_flags >=? 0) (dmodify (with_flags (u32 new_flags)));
  _ ← dwhen (new_pool_max >=? 0) (dmodify (with_pool_max (u32 new_pool_max)));
  max ← ceph_decode_32_safe buf end_ (- EINVAL);
  _ ← dwhen (s32 max >=? 0) (decode_set_max_osd (s32 max));
  dmodify (λ map, with_header (om_fsid map) (u32 (om_epoch map + 1)) (om_created map) modified map).
Definition decode_pool_changes : D ceph_osdmap unit :=
  _ ← decode_new_pools buf end_ alloc_ok;
  _ ← decode_pool_names buf end_ alloc_ok;
  len ← ceph_decode_32_safe buf end_ (- EINVAL);
  dloop len (decode_old_pool buf end_).
Definition decode_new_temps (struct_v : Z) : D ceph_osdmap unit :=
  _ ← decode_new_pg_temp buf end_ alloc_ok;
  _ ← dwhen (struct_v >=? 1) (decode_new_primary_temp buf end_ alloc_ok);
  dwhen (struct_v >=? 2) (decode_new_primary_affinity buf end_ alloc_ok).
Definition skip_profile_changes : D ceph_osdmap unit :=
  _ ← skip_erasure_code_profiles end_;
  ceph_decode_skip_set buf end_ (ceph_decode_skip_string buf end_) (- EINVAL).
Definition decode_upmap_changes : D ceph_osdmap unit :=
  _ ← decode_new_pg_upmap buf end_ alloc_ok;
  _ ← decode_old_pg_upmap buf end_;
  _ ← decode_new_pg_upmap_items buf end_ alloc_ok;
  decode_old_pg_upmap_items buf end_.

Definition apply_changes (struct_v : Z) (modified : Z * Z) (new_pool_max new_flags : Z)
    : D ceph_osdmap unit :=
  _ ← decode_new_crush;
  _ ← apply_header modified new_pool_max new_flags;
  _ ← decode_pool_changes;
  _ ← decode_new_up_state_weight end_ struct_v;
  _ ← decode_new_temps struct_v;
  _ ← dwhen (struct_v >=? 3) skip_profile_changes;
  _ ← dwhen (struct_v >=? 4) decode_upmap_changes;
  dseek end_.

(** The version, the epoch, when it was made, the new [pool_max] and flags. *)
Definition decode_inc_header : D ceph_osdmap (Z * Z * (Z * Z) * Z * Z) :=
  struct_v ← get_osdmap_client_data_v buf end_;
  _ ← ceph_decode_need end_ (16 + 4 + 8 + 8 + 4) (- EINVAL);
  fsid ← ceph_decode_copy buf 16;
  epoch ← ceph_decode_32 buf;
  modified ← decode_timespec;
  new_pool_max ← ceph_decode_64 buf;
  new_flags ← ceph_decode_32 buf;
  mret (struct_v, epoch, modified, s64 new_pool_max, s32 new_flags).

Definition osdmap_apply_incremental : D ceph_osdmap applied :=
  header ← decode_inc_header;
  let '(struct_v, epoch, modified, new_pool_max, new_flags) := header in
  map ← dget;
  if negb (epoch =? u32 (om_epoch map + 1)) then dfail (- EINVAL)
  else
    len ← ceph_decode_32_safe buf end_ (- EINVAL);
    if s32 len >? 0 then decode_full (s32 len)
    else _ ← apply_changes struct_v modified new_pool_max new_flags; mret Same_map.
End incremental.
End maps.
