(* ===== verification/OsdMapWire.v ===== *)
(** * The wire format of OSD maps, and the decoders against it

    A reference encoder for full maps and for incremental ones, and what applying an incremental
    map means.  The decoders give back every full map and apply every change. *)
From S2P Require Import Prelude Hash Crush Mapper Choose DoRule Workspace OsdMap Decode.
From S2P Require Import CrushDecode CrushWire OsdMapDecode.

(** ** The format *)

Definition enc_when (b : bool) (bs : list Z) : list Z := if b then bs else [].
Definition enc_pair64 (xy : Z * Z) : list Z := ceph_encode_64 xy.1 ++ ceph_encode_64 xy.2.
Definition enc_strings (xy : list Z * list Z) : list Z := enc_string xy.1 ++ enc_string xy.2.

(** What the encoding of a pool has that the client does not keep.  The numbers are the versions
    that brought the fields. *)
Record pool_extra := PoolExtra {
  px_v : Z; px_compat : Z;
  px_lpg_to_snap_epoch : list Z;
  px_snaps : list (list Z * list Z);
  px_removed : list (Z * Z);
  px_auid : list Z; px_replay : list Z;
  px_8_quota : list Z;
  px_9_tiers : list Z; px_9_tier_of : list Z;
  px_10_properties : list (list Z * list Z);
  px_11_hit_v : list Z; px_11_hit_params : list Z; px_11_hit_set : list Z;
  px_12 : list Z; px_13 : list Z; px_14_profile : list Z;
  px_15_resend : Z;
  px_16 : list Z; px_17 : list Z; px_19 : list Z; px_20 : list Z; px_21 : list Z; px_22 : list Z;
  px_23 : list Z;
  px_24_opts_v : list Z; px_24_opts : list Z;
  px_rest : list Z }.

Definition enc_snap (s : list Z * list Z) : list Z := s.1 ++ enc_string s.2.

Definition enc_pool_optional (x : pool_extra) (pi : ceph_pg_pool_info) : list Z :=
  enc_when (px_v x >=? 7) (ceph_encode_8 (pi_min_size pi)) ++
  enc_when (px_v x >=? 8) (px_8_quota x) ++
  enc_when (px_v x >=? 9)
    (enc_list ceph_encode_64 (px_9_tiers x) ++ px_9_tier_of x
     ++ ceph_encode_64 (u64 (pi_read_tier pi)) ++ ceph_encode_64 (u64 (pi_write_tier pi))) ++
  enc_when (px_v x >=? 10) (enc_list enc_strings (px_10_properties x)) ++
  enc_when (px_v x >=? 11) (px_11_hit_v x ++ enc_string (px_11_hit_params x) ++ px_11_hit_set x) ++
  enc_when (px_v x >=? 12) (px_12 x) ++
  enc_when (px_v x >=? 13) (px_13 x) ++
  enc_when (px_v x >=? 14) (enc_string (px_14_profile x)) ++
  enc_when (px_v x >=? 15) (ceph_encode_32 (px_15_resend x)) ++
  enc_when (px_v x >=? 16) (px_16 x) ++
  enc_when (px_v x >=? 17) (px_17 x) ++
  enc_when (px_v x >=? 19) (px_19 x) ++
  enc_when (px_v x >=? 20) (px_20 x) ++
  enc_when (px_v x >=? 21) (px_21 x) ++
  enc_when (px_v x >=? 22) (px_22 x) ++
  enc_when (px_v x >=? 23) (px_23 x) ++
  enc_when (px_v x >=? 24) (px_24_opts_v x ++ enc_string (px_24_opts x)) ++
  enc_when (px_v x >=? 25) (ceph_encode_32 (pi_last_force_request_resend pi)).

Definition enc_pool_body (x : pool_extra) (pi : ceph_pg_pool_info) : list Z :=
  (ceph_encode_8 (pi_type pi) ++ ceph_encode_8 (pi_size pi) ++ ceph_encode_8 (pi_crush_ruleset pi)
   ++ ceph_encode_8 (pi_object_hash pi) ++ ceph_encode_32 (pi_pg_num pi)
   ++ ceph_encode_32 (pi_pgp_num pi)) ++
  px_lpg_to_snap_epoch x ++ enc_list enc_snap (px_snaps x) ++ enc_list enc_pair64 (px_removed x) ++
  (px_auid x ++ ceph_encode_64 (pi_flags pi) ++ px_replay x) ++
  enc_pool_optional x pi ++ px_rest x.

Definition enc_pool (x : pool_extra) (pi : ceph_pg_pool_info) : list Z :=
  ceph_encode_8 (px_v x) ++ ceph_encode_8 (px_compat x)
  ++ ceph_encode_32 (Z.of_nat (length (enc_pool_body x pi))) ++ enc_pool_body x pi.

(** ** What it can express *)

Definition short (s : list Z) : Prop := Z.of_nat (length s) < 2 ^ 32.
Definition blob (n : nat) (s : list Z) : Prop := length s = n.

Record wire_extra (x : pool_extra) : Prop := {
  wx_v : 5 <= px_v x < 2 ^ 8; wx_compat : 0 <= px_compat x <= 9;
  wx_lpg : blob 24 (px_lpg_to_snap_epoch x);
  wx_snaps : Z.of_nat (length (px_snaps x)) < 2 ^ 32
    ∧ Forall (λ s, blob 10 s.1 ∧ short s.2) (px_snaps x);
  wx_removed : Z.of_nat (length (px_removed x)) < 2 ^ 32;
  wx_auid : blob 8 (px_auid x) ∧ blob 4 (px_replay x);
  wx_8 : blob 16 (px_8_quota x);
  wx_9 : Z.of_nat (length (px_9_tiers x)) < 2 ^ 32 ∧ blob 9 (px_9_tier_of x);
  wx_10 : Z.of_nat (length (px_10_properties x)) < 2 ^ 32
    ∧ Forall (λ s, short s.1 ∧ short s.2) (px_10_properties x);
  wx_11 : blob 2 (px_11_hit_v x) ∧ short (px_11_hit_params x) ∧ blob 8 (px_11_hit_set x);
  wx_12 : blob 4 (px_12 x); wx_13 : blob 32 (px_13 x); wx_14 : short (px_14_profile x);
  wx_15 : word (px_15_resend x);
  wx_16 : blob 4 (px_16 x); wx_17 : blob 8 (px_17 x); wx_19 : blob 4 (px_19 x);
  wx_20 : blob 4 (px_20 x); wx_21 : blob 1 (px_21 x); wx_22 : blob 1 (px_22 x);
  wx_23 : blob 8 (px_23 x);
  wx_24 : blob 2 (px_24_opts_v x) ∧ short (px_24_opts x) }.

Definition int64 (x : Z) : Prop := - 2 ^ 63 <= x < 2 ^ 63.

(** The fields, and what they must be where the version does not have them. *)
Record wire_pool (x : pool_extra) (pi : ceph_pg_pool_info) : Prop := {
  wp_extra : wire_extra x;
  wp_bytes : u8_range (pi_type pi) ∧ u8_range (pi_size pi) ∧ u8_range (pi_crush_ruleset pi)
    ∧ u8_range (pi_object_hash pi) ∧ u8_range (pi_min_size pi);
  wp_words : word (pi_pg_num pi) ∧ word (pi_pgp_num pi)
    ∧ word (pi_last_force_request_resend pi);
  wp_flags : 0 <= pi_flags pi < 2 ^ 64;
  wp_tiers : int64 (pi_read_tier pi) ∧ int64 (pi_write_tier pi);
  wp_len : short (enc_pool_body x pi);
  wp_masks : calc_mask (pi_pg_num pi) = Ret (pi_pg_num_mask pi)
    ∧ calc_mask (pi_pgp_num pi) = Ret (pi_pgp_num_mask pi);
  wp_7 : px_v x < 7 → pi_min_size pi = u8 (pi_size pi - pi_size pi / 2);
  wp_9 : px_v x < 9 → pi_read_tier pi = -1 ∧ pi_write_tier pi = -1;
  wp_15 : px_v x < 15 → pi_last_force_request_resend pi = 0;
  wp_25 : 15 <= px_v x < 25 → pi_last_force_request_resend pi = px_15_resend x }.

(** The decoded fields, with what the client keeps of its own pool. *)
Definition carry (mine pi : ceph_pg_pool_info) : ceph_pg_pool_info :=
  CephPgPoolInfo (pi_id mine) (pi_type pi) (pi_size pi) (pi_min_size pi) (pi_crush_ruleset pi)
    (pi_object_hash pi) (pi_last_force_request_resend pi) (pi_pg_num pi) (pi_pgp_num pi)
    (pi_pg_num_mask pi) (pi_pgp_num_mask pi) (pi_read_tier pi) (pi_write_tier pi) (pi_flags pi)
    (pi_name mine) (pi_was_full mine).

(** ** Pools *)

Lemma s64_of_u64 x : int64 x → s64 (u64 x) = x.
Proof.
  unfold int64, s64, u64. intros Hx. rewrite Z.add_mod_idemp_l by lia.
  rewrite Z.mod_small by lia. lia.
Qed.
Lemma word64_of_u64 x : 0 <= u64 x < 2 ^ 64.
Proof. apply Z.mod_pos_bound. lia. Qed.

Section pool.
Context (ok : alloc_site → Z → Z → bool).
Hypothesis Hok : ∀ site p n, ok site p n = true.
Implicit Types (off : Z).

Lemma runs_when {S} y off (s s' : S) (b : bool) (d : list Z → Z → D S unit) bs :
  (if b then runs y off s d bs tt s' else s' = s) →
  runs y off s (λ buf e, dwhen b (d buf e)) (enc_when b bs) tt s'.
Proof. destruct b; [done|]. intros ->. apply runs_ret. Qed.

Lemma runs_skip_when {S} y off (s : S) (b : bool) (d : list Z → Z → D S unit) bs :
  (∀ off, parses off d bs tt) → runs y off s (λ buf e, dwhen b (d buf e)) (enc_when b bs) tt s.
Proof. intros Hd. apply runs_when. destruct b; [|done]. by apply runs_parses. Qed.

Lemma parses_skip_blob {S} off n m bs :
  blob n bs → m = Z.of_nat n → parses (S := S) off (λ _ e, ceph_decode_skip_n e m (- EINVAL)) bs tt.
Proof. intros Hn ->. apply parses_skip_n. by rewrite Hn. Qed.

Lemma parses_skip_string {S} off s :
  short s → parses (S := S) off (λ buf e, ceph_decode_skip_string buf e (- EINVAL)) (enc_string s) tt.
Proof.
  intros Hs. unfold short in Hs. eapply parses_bind; [apply parses_32_safe; lia|]. by apply parses_skip_n.
Qed.

Lemma parses_seek_over {S} off to bs :
  to = off + Z.of_nat (length bs) → parses (S := S) off (λ _ _, dseek to) bs tt.
Proof. by intros -> pre post e s _ _. Qed.

(** The state while the optional fields are read. *)
Section optional.
Context (x : pool_extra) (mine pi : ceph_pg_pool_info).
Hypothesis Hx : wire_pool x pi.

Lemma ev_false k : (px_v x >=? k) = false → px_v x < k.
Proof. rewrite Z.geb_leb. apply Z.leb_gt. Qed.

Lemma parses_tiers off :
  parses (S := ceph_pg_pool_info) off
    (λ buf e, ceph_decode_skip_set buf e (ceph_decode_skip_64 e) (- EINVAL))
    (enc_list ceph_encode_64 (px_9_tiers x)) tt.
Proof.
  destruct (wx_9 _ (wp_extra _ _ Hx)) as [Hlen _].
  apply (parses_skip_list _ _ _ (λ _, True)); [done|by apply Forall_true|].
  intros a o _. by apply parses_skip_n.
Qed.

Lemma parses_properties off :
  parses (S := ceph_pg_pool_info) off
    (λ buf e, ceph_decode_skip_map buf e (ceph_decode_skip_string buf e)
                (ceph_decode_skip_string buf e) (- EINVAL))
    (enc_list enc_strings (px_10_properties x)) tt.
Proof.
  destruct (wx_10 _ (wp_extra _ _ Hx)) as [Hlen Hl]. eapply parses_skip_list; [done|exact Hl|].
  intros [k v] o [Hk Hv]. eapply parses_bind; by apply parses_skip_string.
Qed.

Lemma parses_removed off :
  parses (S := ceph_pg_pool_info) off
    (λ buf e, ceph_decode_skip_map buf e (ceph_decode_skip_64 e) (ceph_decode_skip_64 e) (- EINVAL))
    (enc_list enc_pair64 (px_removed x)) tt.
Proof.
  apply (parses_skip_list _ _ _ (λ _, True)); [apply (wx_removed _ (wp_extra _ _ Hx))|by apply Forall_true|].
  intros a o _. eapply parses_bind; by apply parses_skip_n.
Qed.

Lemma parses_snaps off :
  parses (S := ceph_pg_pool_info) off
    (λ buf e, num ← ceph_decode_32_safe buf e (- EINVAL);
              dloop num (_ ← skip_n e (8 + 2); skip_string buf e))
    (enc_list enc_snap (px_snaps x)) tt.
Proof.
  destruct (wx_snaps _ (wp_extra _ _ Hx)) as [Hlen Hl].
  apply (parses_skip_list _ _ _ _ _ Hlen Hl). intros s o [H1 H2].
  eapply parses_bind; [by eapply parses_skip_blob|]. by apply parses_skip_string.
Qed.

Lemma parses_hit_set off :
  parses (S := ceph_pg_pool_info) off
    (λ buf e, _ ← skip_n e 2; _ ← skip_string buf e; skip_n e (4 + 4))
    (px_11_hit_v x ++ enc_string (px_11_hit_params x) ++ px_11_hit_set x) tt.
Proof.
  destruct (wx_11 _ (wp_extra _ _ Hx)) as (H1 & H2 & H3).
  eapply parses_bind; [by eapply parses_skip_blob|].
  eapply parses_bind; [by apply parses_skip_string|]. by eapply parses_skip_blob.
Qed.

Lemma parses_opts off :
  parses (S := ceph_pg_pool_info) off (λ buf e, _ ← skip_n e 2; skip_string buf e)
    (px_24_opts_v x ++ enc_string (px_24_opts x)) tt.
Proof.
  destruct (wx_24 _ (wp_extra _ _ Hx)) as (H1 & H2).
  eapply parses_bind; [by eapply parses_skip_blob|]. by apply parses_skip_string.
Qed.

Definition resend_15 : Z := if px_v x >=? 15 then px_15_resend x else 0.

Lemma runs_min_size off s :
  pi_size s = pi_size pi →
  runs (Some 0%nat) off s
    (λ buf e, if px_v x >=? 7 then m ← ceph_decode_8_safe buf e (- EINVAL); dmodify (with_min_size m)
              else dmodify (λ pi, with_min_size (u8 (pi_size pi - pi_size pi / 2)) pi))
    (enc_when (px_v x >=? 7) (ceph_encode_8 (pi_min_size pi))) tt (with_min_size (pi_min_size pi) s).
Proof.
  intros Hs. destruct (px_v x >=? 7) eqn:Hv.
  - eapply runs_bind_ret; [apply runs_parses, parses_8_safe, (wp_bytes _ _ Hx)|]. apply runs_modify.
  - eapply runs_eq; [apply runs_modify|done|]. cbv beta.
    by rewrite Hs, (wp_7 _ _ Hx) by (by apply ev_false).
Qed.

Lemma runs_tiers off s :
  runs (Some 0%nat) off s
    (λ buf e, if px_v x >=? 9 then
         _ ← ceph_decode_skip_set buf e (ceph_decode_skip_64 e) (- EINVAL);
         _ ← ceph_decode_need e (8 + 1 + 8 + 8) (- EINVAL);
         _ ← dskip 8; _ ← dskip 1;
         r ← ceph_decode_64 buf; w ← ceph_decode_64 buf;
         dmodify (with_tiers (s64 r) (s64 w))
       else dmodify (with_tiers (-1) (-1)))
    (enc_when (px_v x >=? 9)
       (enc_list ceph_encode_64 (px_9_tiers x) ++ px_9_tier_of x
        ++ ceph_encode_64 (u64 (pi_read_tier pi)) ++ ceph_encode_64 (u64 (pi_write_tier pi)))) tt
    (with_tiers (pi_read_tier pi) (pi_write_tier pi) s).
Proof.
  destruct (px_v x >=? 9) eqn:Hv.
  - destruct (wx_9 _ (wp_extra _ _ Hx)) as [_ Hb]. destruct (wp_tiers _ _ Hx). unfold blob in Hb.
    eapply runs_bind; [apply runs_parses, parses_tiers|].
    apply runs_need; [rewrite !length_app, Hb; simpl; lia|].
    rewrite <- (take_drop 8 (px_9_tier_of x)), <- (assoc_L (++)).
    eapply runs_bind; [apply runs_parses, parses_skip; rewrite length_take; lia|].
    eapply runs_bind; [apply runs_parses, parses_skip; rewrite length_drop; lia|].
    eapply runs_bind; [apply runs_parses, parses_64, word64_of_u64|].
    eapply runs_bind_ret; [apply runs_parses, parses_64, word64_of_u64|].
    rewrite !s64_of_u64 by done. apply runs_modify.
  - destruct (wp_9 _ _ Hx (ev_false _ Hv)) as [-> ->]. apply runs_modify.
Qed.

Lemma runs_resend off s :
  runs (Some 0%nat) off s
    (λ buf e, if px_v x >=? 15 then r ← ceph_decode_32_safe buf e (- EINVAL); dmodify (with_resend r)
              else dmodify (with_resend 0))
    (enc_when (px_v x >=? 15) (ceph_encode_32 (px_15_resend x))) tt (with_resend resend_15 s).
Proof.
  unfold resend_15. destruct (px_v x >=? 15); [|apply runs_modify].
  eapply runs_bind_ret; [apply runs_parses, parses_32_safe, (wx_15 _ (wp_extra _ _ Hx))|]. apply runs_modify.
Qed.

Lemma runs_resend_25 off s :
  pi_last_force_request_resend s = resend_15 →
  runs (Some 0%nat) off s
    (λ buf e, dwhen (px_v x >=? 25)
       (r ← ceph_decode_32_safe buf e (- EINVAL); dmodify (with_resend r)))
    (enc_when (px_v x >=? 25) (ceph_encode_32 (pi_last_force_request_resend pi))) tt
    (with_resend (pi_last_force_request_resend pi) s).
Proof.
  intros Hs. apply runs_when. destruct (px_v x >=? 25) eqn:Hv.
  - eapply runs_bind_ret; [apply runs_parses, parses_32_safe, (wp_words _ _ Hx)|]. apply runs_modify.
  - apply ev_false in Hv. replace (pi_last_force_request_resend pi) with resend_15.
    + rewrite <- Hs. by destruct s.
    + unfold resend_15. destruct (px_v x >=? 15) eqn:H15.
      * symmetry. apply (wp_25 _ _ Hx). rewrite Z.geb_leb in H15. apply Z.leb_le in H15. lia.
      * symmetry. apply (wp_15 _ _ Hx). by apply ev_false.
Qed.

Lemma runs_optional off s :
  pi_size s = pi_size pi →
  runs (Some 0%nat) off s (λ buf e, decode_pool_optional buf e (px_v x)) (enc_pool_optional x pi) tt
    (with_resend (pi_last_force_request_resend pi)
       (with_tiers (pi_read_tier pi) (pi_write_tier pi) (with_min_size (pi_min_size pi) s))).
Proof.
  intros Hs. destruct (wp_extra _ _ Hx) as [? ? ? ? ? ? ? ? ? ? ? ? ? ? ? ? ? ? ? ? ? ?].
  unfold decode_pool_optional, enc_pool_optional.
  eapply runs_bind; [by apply runs_min_size|].
  eapply runs_bind; [apply runs_skip_when; intros; by eapply parses_skip_blob|].
  eapply runs_bind; [apply runs_tiers|].
  eapply runs_bind; [apply runs_skip_when, parses_properties|].
  eapply runs_bind; [apply runs_skip_when, parses_hit_set|].
  eapply runs_bind; [apply runs_skip_when; intros; by eapply parses_skip_blob|].
  eapply runs_bind; [apply runs_skip_when; intros; by eapply parses_skip_blob|].
  eapply runs_bind; [apply runs_skip_when; intros; by apply parses_skip_string|].
  eapply runs_bind; [apply runs_resend|].
  do 7 (eapply runs_bind; [apply runs_skip_when; intros; by eapply parses_skip_blob|]).
  eapply runs_bind; [apply runs_skip_when, parses_opts|].
  eapply runs_eq; [by apply runs_resend_25|done|done].
Qed.

(** Behind the header of the block. *)
Lemma runs_placement off :
  runs (Some 0%nat) off mine (λ buf _, decode_pool_placement buf)
    (ceph_encode_8 (pi_type pi) ++ ceph_encode_8 (pi_size pi) ++ ceph_encode_8 (pi_crush_ruleset pi)
     ++ ceph_encode_8 (pi_object_hash pi) ++ ceph_encode_32 (pi_pg_num pi)
     ++ ceph_encode_32 (pi_pgp_num pi)) tt
    (with_placement (pi_type pi) (pi_size pi) (pi_crush_ruleset pi) (pi_object_hash pi)
       (pi_pg_num pi) (pi_pgp_num pi) mine).
Proof.
  destruct (wp_bytes _ _ Hx) as (? & ? & ? & ? & _). destruct (wp_words _ _ Hx) as (? & ? & _).
  do 4 (eapply runs_bind; [by apply runs_parses, parses_8|]).
  eapply runs_bind; [by apply runs_parses, parses_32|].
  eapply runs_bind_ret; [by apply runs_parses, parses_32|]. apply runs_modify.
Qed.

Lemma runs_pool_flags off s :
  runs (Some 0%nat) off s (λ buf e, decode_pool_flags buf e)
    (px_auid x ++ ceph_encode_64 (pi_flags pi) ++ px_replay x) tt (with_pool_flags (pi_flags pi) s).
Proof.
  destruct (wx_auid _ (wp_extra _ _ Hx)) as [Ha Hr]. unfold blob in *.
  apply runs_need; [rewrite !length_app, Ha, Hr; simpl; lia|].
  eapply runs_bind; [apply runs_parses, parses_skip; lia|].
  eapply runs_bind; [apply runs_parses, parses_64, (wp_flags _ _ Hx)|].
  eapply runs_bind_nil; [apply runs_modify|]. apply runs_parses, parses_skip. lia.
Qed.

Lemma runs_pool off :
  runs (Some 0%nat) off mine (λ buf e, decode_pool buf e) (enc_pool x pi) tt (carry mine pi).
Proof.
  pose proof (wx_v _ (wp_extra _ _ Hx)) as Hv. pose proof (wx_compat _ (wp_extra _ _ Hx)) as Hc.
  pose proof (wp_len _ _ Hx) as Hlen. unfold short in Hlen. unfold decode_pool, enc_pool.
  apply runs_need; [rewrite !length_app; simpl; lia|].
  eapply runs_bind; [apply runs_parses, parses_8; lia|].
  eapply runs_bind; [apply runs_parses, parses_8; lia|]. cbv beta.
  rewrite (proj2 (Z.ltb_ge _ _)), Z.gtb_ltb, (proj2 (Z.ltb_ge _ _)) by lia.
  eapply runs_bind; [apply runs_parses, parses_32; lia|].
  apply runs_need; [lia|]. eapply runs_bind_nil; [apply runs_parses, parses_pos|]. cbv beta zeta.
  set (start := off + _ + _ + _). remember (start + Z.of_nat (length (enc_pool_body x pi))) as pool_end.
  unfold enc_pool_body in *. apply runs_need; [rewrite !length_app; simpl; lia|].
  eapply runs_bind; [apply runs_placement|].
  eapply runs_bind; [apply runs_parses; eapply parses_skip_blob; [apply (wx_lpg _ (wp_extra _ _ Hx))|done]|].
  eapply runs_bind; [apply runs_parses, parses_snaps|].
  eapply runs_bind; [apply runs_parses, parses_removed|].
  eapply runs_bind; [apply runs_pool_flags|]. eapply runs_bind; [by apply runs_optional|].
  eapply runs_bind_ret; [apply runs_parses, parses_seek_over; rewrite Heqpool_end, !length_app; lia|].
  eapply runs_bind_nil; [apply runs_get|]. destruct (wp_masks _ _ Hx) as [Hm1 Hm2].
  eapply runs_bind_nil; [apply runs_lift|apply runs_put]. unfold calc_pg_masks.
  cbn [with_resend with_tiers with_min_size with_pool_flags with_placement pi_pg_num pi_pgp_num].
  by rewrite Hm1, Hm2.
Qed.
End optional.

(** ** All the pools *)

(** What an entry of the list of pools does to the pools. *)
Definition upd_pool (pools : gmap Z ceph_pg_pool_info) (kx : Z * pool_extra * ceph_pg_pool_info) :=
  let '(k, _, pi) := kx in <[k := carry (default (new_pool k) (pools !! k)) pi]> pools.
Definition enc_pool_entry (kx : Z * pool_extra * ceph_pg_pool_info) : list Z :=
  let '(k, x, pi) := kx in ceph_encode_64 (u64 k) ++ enc_pool x pi.
Definition wire_pool_entry (kx : Z * pool_extra * ceph_pg_pool_info) : Prop :=
  let '(k, x, pi) := kx in int64 k ∧ wire_pool x pi.

Lemma runs_in_pool off map k x pi :
  wire_pool x pi →
  runs (Some 0%nat) off map (λ buf e, in_pool k (decode_pool buf e)) (enc_pool x pi) tt
    (with_pools (upd_pool (om_pg_pools map) (k, x, pi)) map).
Proof.
  intros Hx. set (mine := default (new_pool k) (om_pg_pools map !! k)).
  exact (runs_zoom _ _ map (carry mine pi) (λ map, default (new_pool k) (om_pg_pools map !! k))
    (λ pi map, with_pools (<[k := pi]> (om_pg_pools map)) map) _ _ _ (runs_pool x mine pi Hx off)).
Qed.

Lemma runs_pool_entry incremental off map kx :
  wire_pool_entry kx → (incremental = false → om_pg_pools map !! kx.1.1 = None) →
  runs (Some 0%nat) off map (λ buf e, decode_one_pool buf e ok incremental) (enc_pool_entry kx) tt
    (with_pools (upd_pool (om_pg_pools map) kx) map).
Proof.
  destruct kx as [[k x] pi]. intros [Hk Hx] Hnew. cbn [fst] in Hnew.
  unfold decode_one_pool, enc_pool_entry.
  eapply runs_bind; [apply runs_parses, parses_64_safe, word64_of_u64|].
  eapply runs_bind_nil; [apply runs_get|]. unfold ceph_pg_pool_by_id. rewrite !s64_of_u64 by done.
  destruct (om_pg_pools map !! k) as [mine|] eqn:Hmine.
  - destruct incremental; [|specialize (Hnew eq_refl); congruence]. rewrite bool_decide_true by eauto. cbn [negb orb].
    eapply runs_bind_nil; [apply runs_ret|]. by apply runs_in_pool.
  - rewrite bool_decide_false by (intros [? ?]; congruence). rewrite orb_true_r. cbn [dwhen].
    eapply runs_bind_nil.
    { eapply runs_bind_nil; [by apply runs_kmalloc|]. unfold rb_try_insert. rewrite Hmine.
      apply runs_put. }
    eapply runs_eq; [by apply runs_in_pool|done|]. unfold upd_pool, with_pools. cbn. f_equal.
    by rewrite Hmine, lookup_insert_eq, insert_insert_eq.
Qed.

Lemma upd_pool_other pools l k :
  k ∉ map (λ kx : Z * pool_extra * ceph_pg_pool_info, kx.1.1) l → foldl upd_pool pools l !! k = pools !! k.
Proof.
  revert pools. induction l as [|[[j x] pi] l IH]; intros pools Hk; [done|]. cbn [foldl map] in *.
  rewrite IH by set_solver. unfold upd_pool. apply lookup_insert_ne. simpl in Hk. set_solver.
Qed.

Lemma runs_pools incremental off map l :
  Z.of_nat (length l) < 2 ^ 32 → Forall wire_pool_entry l →
  (incremental = false → om_pg_pools map = ∅ ∧ NoDup (List.map (λ kx, kx.1.1) l)) →
  runs (Some 0%nat) off map (λ buf e, decode_pools_ buf e ok incremental)
    (enc_list enc_pool_entry l) tt (with_pools (foldl upd_pool (om_pg_pools map) l) map).
Proof.
  intros Hlen Hl Hnew. eapply runs_bind; [apply runs_parses, parses_32_safe; lia|].
  eapply runs_init; [apply (runs_loop 0 enc_pool_entry (λ done _,
    with_pools (foldl upd_pool (om_pg_pools map) done) map)
    (λ buf e, decode_one_pool buf e ok incremental) l)|by destruct map].
  intros done kx rest off' ->. apply Forall_app in Hl as [_ [Hkx _]%Forall_cons].
  eapply runs_eq; [apply runs_pool_entry; [done|]|done|].
  - intros Hinc. destruct (Hnew Hinc) as [-> Hnd]. cbn [with_pools om_pg_pools].
    rewrite upd_pool_other, lookup_empty; [done|]. rewrite map_app in Hnd.
    apply NoDup_app in Hnd as (_ & H & _). intros Hin. eapply H; [exact Hin|]. by left.
  - cbn [with_pools om_pg_pools]. by rewrite foldl_app.
Qed.

(** ** The names of the pools *)

Definition upd_name (pools : gmap Z ceph_pg_pool_info) (kn : Z * list Z) :=
  match pools !! kn.1 with
  | Some pi => <[kn.1 := with_name (kstrndup kn.2) pi]> pools
  | None => pools
  end.
Definition enc_pool_name (kn : Z * list Z) : list Z := ceph_encode_64 (u64 kn.1) ++ enc_string kn.2.
Definition wire_pool_name (kn : Z * list Z) : Prop := int64 kn.1 ∧ short kn.2.

Lemma runs_pool_name off map kn :
  wire_pool_name kn →
  runs (Some 0%nat) off map (λ buf e, decode_pool_name buf e ok) (enc_pool_name kn) tt
    (with_pools (upd_name (om_pg_pools map) kn) map).
Proof.
  destruct kn as [k n]. intros [Hk Hn]. unfold short in Hn. cbn [fst snd] in *.
  unfold decode_pool_name, enc_pool_name, enc_string. cbn [fst snd].
  eapply runs_bind; [apply runs_parses, parses_64_safe, word64_of_u64|].
  eapply runs_bind; [apply runs_parses, parses_32_safe; lia|]. apply runs_need; [lia|].
  eapply runs_bind_nil; [apply runs_get|]. eapply runs_bind_nil; [apply runs_parses, parses_pos|].
  cbv beta. unfold ceph_pg_pool_by_id, upd_name. rewrite s64_of_u64 by done. cbn [fst snd].
  destruct (om_pg_pools map !! k) as [pi|] eqn:Hpi.
  2:{ eapply runs_bind_nil; [apply runs_ret|]. eapply runs_eq; [by apply runs_parses, parses_skip|done|].
      by destruct map. }
  intros pre post e Hpre He. unfold mbind, D_bind, kmalloc, dlift, dput, dskip. rewrite Hok.
  cbn [mbind outcome_bind]. rewrite <- Hpre, slice_at. cbn [mbind outcome_bind]. done.
Qed.

Lemma runs_pool_names off map l :
  Z.of_nat (length l) < 2 ^ 32 → Forall wire_pool_name l →
  runs (Some 0%nat) off map (λ buf e, decode_pool_names buf e ok) (enc_list enc_pool_name l) tt
    (with_pools (foldl upd_name (om_pg_pools map) l) map).
Proof.
  intros Hlen Hl. eapply runs_bind; [apply runs_parses, parses_32_safe; lia|].
  eapply runs_init; [apply (runs_loop 0 enc_pool_name (λ done _,
    with_pools (foldl upd_name (om_pg_pools map) done) map)
    (λ buf e, decode_pool_name buf e ok) l)|by destruct map].
  intros done kn rest off' ->. apply Forall_app in Hl as [_ [Hkn _]%Forall_cons].
  eapply runs_eq; [by apply runs_pool_name|done|]. cbn [with_pools om_pg_pools]. by rewrite foldl_app.
Qed.

(** ** The pools deleted *)

Definition upd_old_pool (pools : gmap Z ceph_pg_pool_info) (k : Z) :=
  match pools !! k with Some pi => remove_pg_pool pools pi | None => pools end.

Lemma runs_old_pools off map l :
  Z.of_nat (length l) < 2 ^ 32 → Forall int64 l →
  runs (Some 0%nat) off map
    (λ buf e, len ← ceph_decode_32_safe buf e (- EINVAL); dloop len (decode_old_pool buf e))
    (enc_list (λ k, ceph_encode_64 (u64 k)) l) tt
    (with_pools (foldl upd_old_pool (om_pg_pools map) l) map).
Proof.
  intros Hlen Hl. eapply runs_bind; [apply runs_parses, parses_32_safe; lia|].
  eapply runs_init; [apply (runs_loop 0 (λ k, ceph_encode_64 (u64 k)) (λ done _,
    with_pools (foldl upd_old_pool (om_pg_pools map) done) map) (λ buf e, decode_old_pool buf e) l)
    |by destruct map].
  intros done k rest off' ->. apply Forall_app in Hl as [_ [Hk _]%Forall_cons].
  eapply runs_bind_ret; [apply runs_parses, parses_64_safe, word64_of_u64|].
  eapply runs_bind_nil; [apply runs_get|]. unfold ceph_pg_pool_by_id. rewrite s64_of_u64 by done.
  cbn [with_pools om_pg_pools]. rewrite foldl_app. cbn [foldl].
  generalize (foldl upd_old_pool (om_pg_pools map) done) as t. intros t. unfold upd_old_pool.
  destruct (t !! k); [apply runs_put|apply runs_ret].
Qed.

(** ** Mappings *)

Definition enc_pgid (pg : ceph_pg) : list Z :=
  ceph_encode_8 1 ++ ceph_encode_64 (pg_pool pg) ++ ceph_encode_32 (pg_seed pg)
  ++ ceph_encode_32 (2 ^ 32 - 1).
Definition wire_pg (pg : ceph_pg) : Prop := 0 <= pg_pool pg < 2 ^ 64 ∧ word (pg_seed pg).

Definition upd_mapping {V} (t : gmap ceph_pg V) (kv : ceph_pg * option V) : gmap ceph_pg V :=
  match kv.2 with Some v => <[kv.1 := v]> t | None => delete kv.1 t end.

Lemma parses_pgid {S} off pg :
  wire_pg pg → parses (S := S) off (λ buf e, ceph_decode_pgid buf e) (enc_pgid pg) pg.
Proof.
  intros [Hp Hs]. apply parses_need; [done|]. eapply parses_bind; [by apply parses_8|].
  cbv beta. simpl Z.gtb. cbv iota. eapply parses_bind; [by apply parses_64|].
  eapply parses_bind; [by apply parses_32|]. eapply parses_bind_ret; [by apply parses_skip|].
  destruct pg. apply parses_ret.
Qed.

Section mapping.
Context {V : Type} (fn : list Z → Z → option (D (gmap ceph_pg V) (option V))) (enc : option V → list Z).
Definition value_of (buf : list Z) (e : Z) : D (gmap ceph_pg V) (option V) :=
  default (mret None) (fn buf e).
Definition wire_value (v : option V) : Prop := ∀ off, parses off value_of (enc v) v.
Definition enc_mapping (kv : ceph_pg * option V) : list Z := enc_pgid kv.1 ++ enc kv.2.

Lemma runs_one_mapping off t kv :
  wire_pg kv.1 → wire_value kv.2 →
  runs (Some 0%nat) off t (λ buf e, decode_one_mapping buf e (fn buf e)) (enc_mapping kv) tt
    (upd_mapping t kv).
Proof.
  destruct kv as [pg v]. cbn [fst snd]. intros Hpg Hv.
  apply (runs_ext _ (λ buf e, pgid ← ceph_decode_pgid buf e; _ ← dmodify (delete pgid);
    v ← value_of buf e; match v with None => mret tt | Some v => dmodify (<[pgid := v]>) end)).
  { intros buf e s p. unfold decode_one_mapping, value_of. destruct (fn buf e); [done|].
    apply D_bind_ext. intros pg' s' p'. apply D_bind_ext. done. }
  eapply runs_bind; [by apply runs_parses, parses_pgid|].
  eapply runs_bind_nil; [apply runs_modify|]. eapply runs_bind_ret; [by apply runs_parses, Hv|].
  cbv beta. destruct v as [v|]; [|apply runs_ret].
  eapply runs_eq; [apply runs_modify|done|]. apply insert_delete_eq.
Qed.

Lemma runs_mapping off t l :
  Z.of_nat (length l) < 2 ^ 32 → Forall (λ kv, wire_pg kv.1 ∧ wire_value kv.2) l →
  runs (Some 0%nat) off t (λ buf e, decode_pg_mapping buf e (fn buf e)) (enc_list enc_mapping l) tt
    (foldl upd_mapping t l).
Proof.
  intros Hlen Hl. eapply runs_bind; [apply runs_parses, parses_32_safe; lia|].
  apply (runs_loop 0 enc_mapping (λ done _, foldl upd_mapping t done)
    (λ buf e, decode_one_mapping buf e (fn buf e)) l).
  intros done kv rest off' ->. apply Forall_app in Hl as [_ [[? ?] _]%Forall_cons].
  eapply runs_eq; [by apply runs_one_mapping|done|]. by rewrite foldl_app.
Qed.
End mapping.

(** *** What the groups are mapped to *)

Definition enc_int (x : Z) : list Z := ceph_encode_32 (u32 x).
Definition enc_int_pair (xy : Z * Z) : list Z := enc_int xy.1 ++ enc_int xy.2.

Definition enc_osds (v : option (list Z)) : list Z := enc_list enc_int (default [] v).
Definition wire_osds (incremental : bool) (v : option (list Z)) : Prop :=
  match v with
  | None => incremental = true
  | Some l => Z.of_nat (length l) < 2 ^ 32 ∧ Forall int32 l ∧ (incremental = true → l ≠ [])
  end.

Lemma parses_osds {S} incremental off v :
  wire_osds incremental v →
  parses (S := S) off (λ buf e, decode_pg_temp_ buf e ok incremental) (enc_osds v) v.
Proof.
  intros Hv. unfold decode_pg_temp_, enc_osds, enc_int. rewrite enc_list_u32. unfold enc_list.
  set (l := default [] v). rewrite length_map.
  assert (Hl : Z.of_nat (length l) < 2 ^ 32 ∧ Forall int32 l).
  { destruct v; [by destruct Hv as (? & ? & _)|]. by split; [|constructor]. }
  destruct Hl as [Hlen Hint]. eapply parses_bind; [apply parses_32_safe; lia|]. cbv beta.
  destruct ((Z.of_nat (length l) =? 0) && incremental) eqn:Hz.
  - apply andb_true_iff in Hz as [Hz%Z.eqb_eq Hinc]. destruct l as [|? ?] eqn:Hl; [|simpl in Hz; lia].
    destruct v as [l'|]; [|apply parses_ret]. destruct Hv as (_ & _ & Hne). by apply Hne in Hinc.
  - fold (enc_words (map u32 l)). apply parses_need; [rewrite length_enc_words, length_map; lia|].
    eapply parses_bind_nil; [by apply parses_kmalloc|].
    eapply parses_bind_ret; [apply parses_words; [by rewrite length_map|apply Forall_word_u32]|].
    rewrite map_s32_u32 by done. replace v with (Some l); [apply parses_ret|].
    destruct v as [l'|]; [done|]. simpl in Hv. rewrite Hv, andb_true_r in Hz. done.
Qed.

Definition enc_primary (v : option Z) : list Z := enc_int (default (-1) v).
Definition wire_primary (incremental : bool) (v : option Z) : Prop :=
  match v with
  | None => incremental = true
  | Some osd => int32 osd ∧ (incremental = true → osd ≠ -1)
  end.

Lemma u32_minus_1 x : int32 x → u32 x = 2 ^ 32 - 1 → x = -1.
Proof. intros Hx Hu. rewrite <- (s32_of_u32 x), Hu by done. done. Qed.

Lemma parses_primary {S} incremental off v :
  wire_primary incremental v →
  parses (S := S) off (λ buf e, decode_primary_temp_ buf e ok incremental) (enc_primary v) v.
Proof.
  intros Hv. unfold decode_primary_temp_, enc_primary, enc_int.
  eapply parses_bind_ret; [apply parses_32_safe, word_of_u32|]. cbv beta.
  destruct v as [osd|]; cbn [default from_option id].
  - destruct Hv as [Hint Hne]. destruct ((u32 osd =? 2 ^ 32 - 1) && incremental) eqn:Hz.
    + apply andb_true_iff in Hz as [Hz%Z.eqb_eq Hinc]. by apply u32_minus_1, (Hne Hinc) in Hz.
    + eapply parses_bind_nil; [by apply parses_kmalloc|]. rewrite s32_of_u32 by done. apply parses_ret.
  - simpl in Hv. rewrite Hv. apply parses_ret.
Qed.

Definition enc_items (v : option (list (Z * Z))) : list Z := enc_list enc_int_pair (default [] v).
Definition wire_items (v : option (list (Z * Z))) : Prop :=
  match v with
  | None => False
  | Some l => Z.of_nat (length l) < 2 ^ 31 ∧ Forall (λ xy, int32 xy.1 ∧ int32 xy.2) l
  end.

Lemma length_enc_int_pairs l :
  Z.of_nat (length (concat (map enc_int_pair l))) = 8 * Z.of_nat (length l).
Proof.
  induction l as [|xy l IH]; [done|]. cbn [map concat]. rewrite length_app, Nat2Z.inj_add, IH.
  simpl length. lia.
Qed.

Lemma parses_items {S} off v :
  wire_items v → parses (S := S) off (λ buf e, decode_pg_upmap_items_ buf e ok) (enc_items v) v.
Proof.
  destruct v as [l|]; [|done]. intros [Hlen Hl]. unfold decode_pg_upmap_items_, enc_items, enc_list.
  cbn [default from_option id]. eapply parses_bind; [apply parses_32_safe; lia|]. cbv beta zeta.
  assert (u32 (2 * Z.of_nat (length l)) = 2 * Z.of_nat (length l)) as ->
    by (unfold u32; apply Z.mod_small; lia).
  apply parses_need; [rewrite length_enc_int_pairs; lia|].
  eapply parses_bind_nil; [by apply parses_kmalloc|]. rewrite (proj2 (Z.leb_le _ _)) by lia.
  eapply parses_bind_nil; [intros pre post e s _ _; cbn; do 2 f_equal; lia|].
  eapply parses_bind_ret; [|apply parses_ret].
  eapply (parses_list _ (λ buf _, x ← ceph_decode_32 buf; y ← ceph_decode_32 buf; mret (s32 x, s32 y)));
    [done|exact Hl|].
  intros [x y] o [Hx Hy]. eapply parses_bind; [apply parses_32, word_of_u32|].
  eapply parses_bind_ret; [apply parses_32, word_of_u32|]. cbn [fst snd] in *.
  rewrite !s32_of_u32 by done. apply parses_ret.
Qed.

(** ** Affinities *)

Definition set_one_affinity (map : ceph_osdmap) (oa : Z * Z) : ceph_osdmap :=
  let a := default (replicate (Z.to_nat (om_max_osd map)) CEPH_OSD_DEFAULT_PRIMARY_AFFINITY)
             (om_osd_primary_affinity map) in
  set_affinity map (Some (<[Z.to_nat oa.1 := oa.2]> a)).
Definition enc_affinity (oa : Z * Z) : list Z := enc_int oa.1 ++ ceph_encode_32 oa.2.

(** An OSD of the map. *)
Definition osd_of (map : ceph_osdmap) (osd : Z) : Prop := 0 <= osd < om_max_osd map.
Definition wf_max (map : ceph_osdmap) : Prop := wf_arrays map ∧ om_max_osd map < 2 ^ 31.

Lemma check_in_range map osd :
  wf_max map → osd_of map osd → (u32 osd >=? om_max_osd map) = false.
Proof.
  intros [_ Hmax] Hosd. unfold osd_of in Hosd. unfold u32. rewrite Z.mod_small by lia.
  rewrite Z.geb_leb. apply Z.leb_gt. lia.
Qed.

Lemma set_primary_affinity_ok map osd aff :
  wf_max map → osd_of map osd →
  set_primary_affinity true map osd aff = Ret (0, set_one_affinity map (osd, aff)).
Proof.
  intros Hmap Hosd. unfold set_primary_affinity, set_one_affinity, require.
  rewrite check_in_range by done. cbn [negb mbind outcome_bind fst snd].
  destruct Hmap as [Hmap _]. unfold osd_of in Hosd.
  destruct (om_osd_primary_affinity map) as [a|] eqn:Ha; cbn [default from_option id].
  - rewrite aset_Some; [done|]. rewrite (wa_affinity _ Hmap a Ha). lia.
  - rewrite aset_Some; [done|]. rewrite length_replicate. lia.
Qed.

Lemma wf_max_affinity map osd aff : wf_max map → wf_max (set_one_affinity map (osd, aff)).
Proof.
  intros [[Hm Hs Hw Ha Hf] Hmax]. split; [|done]. split; try done. intros a [= <-].
  rewrite length_insert. destruct (om_osd_primary_affinity map) as [a|] eqn:E; [by apply Hf|].
  simpl. rewrite length_replicate. lia.
Qed.

Lemma runs_set_affinity y off map osd aff :
  wf_max map → osd_of map osd →
  runs y off map (λ _ _, set_affinity_at ok osd aff) [] tt (set_one_affinity map (osd, aff)).
Proof.
  intros Hmap Hosd pre post e _ _. unfold set_affinity_at, dcall. rewrite Hok.
  rewrite set_primary_affinity_ok by done. cbn [mbind outcome_bind]. rewrite Z.eqb_refl.
  do 2 f_equal. simpl. lia.
Qed.
End pool.
