(* ===== verification/OsdUpdate.v ===== *)
(** * The per-OSD part of OSD map updates (libceph/osdmap.c, [decode_new_up_state_weight],
    [decode_new_primary_affinity]; libceph/decode.c, [ceph_decode_entity_addrvec])

    What the three lists of an incremental map mean, and that the decoder, which reads them twice
    and out of order, does that. *)
From S2P Require Import Prelude Hash Crush Mapper Choose DoRule Workspace OsdMap Decode.
From S2P Require Import CrushDecode CrushWire OsdMapDecode OsdMapWire.

(** ** Addresses *)

Definition wanted_type (msgr2 : bool) : Z :=
  if msgr2 then CEPH_ENTITY_ADDR_TYPE_MSGR2 else CEPH_ENTITY_ADDR_TYPE_LEGACY.
Definition wanted (msgr2 : bool) (l : list ceph_entity_addr) : list ceph_entity_addr :=
  filter (λ a, addr_type a = wanted_type msgr2) l.

(** A vector of addresses, or in older encodings a single one. *)
Definition enc_addrs (vec : bool) (l : list ceph_entity_addr) : list Z :=
  if vec then ceph_encode_8 2 ++ enc_list ceph_encode_entity_addr l
  else concat (map ceph_encode_entity_addr l).
(** The address meant: the one of the wanted kind; none for an unused slot. *)
Definition chosen_addr (msgr2 vec : bool) (l : list ceph_entity_addr) : option ceph_entity_addr :=
  head (if vec then wanted msgr2 l else l).
Definition wire_addrs (msgr2 vec : bool) (l : list ceph_entity_addr) : Prop :=
  Forall addr_ok l ∧ Z.of_nat (length l) < 2 ^ 31
  ∧ if vec then l = [] ∨ length (wanted msgr2 l) = 1%nat else length l = 1%nat.

Section addrs.
Context {S : Type} (msgr2 : bool).

Lemma parses_addrvec_loop off l found tmp :
  Forall addr_ok l → (found ≠ None → wanted msgr2 l = []) → (length (wanted msgr2 l) <= 1)%nat →
  parses (S := S) off (λ buf e, addrvec_loop buf e (length l) (wanted_type msgr2) found tmp)
    (concat (map ceph_encode_entity_addr l))
    (match found with Some a => Some a | None => head (wanted msgr2 l) end,
     match last l with Some a => Some a | None => tmp end).
Proof.
  intros Hl. revert off found tmp. induction Hl as [|a l Ha _ IH]; intros off found tmp Hf H1.
  { destruct found; apply parses_ret. }
  cbn [length addrvec_loop map concat]. eapply parses_bind; [by apply parses_entity_addr|]. cbv beta.
  assert (Hlast : match last (a :: l) with Some b => Some b | None => tmp end
    = match last l with Some b => Some b | None => Some a end).
  { rewrite last_cons. by destruct (last l). }
  rewrite Hlast. unfold wanted in Hf, H1 |- *. rewrite filter_cons in Hf, H1 |- *.
  destruct (Z.eqb_spec (addr_type a) (wanted_type msgr2)) as [Heq|Hne].
  - rewrite decide_True in Hf, H1 |- * by done.
    destruct found as [b|]; [by discriminate Hf|]. cbn [head length] in *.
    apply (IH _ (Some a)); unfold wanted; [|lia]. intros _. apply nil_length_inv. lia.
  - rewrite decide_False in Hf, H1 |- * by done. by apply IH.
Qed.

Lemma parses_addrvec off l :
  wire_addrs msgr2 true l →
  parses (S := S) off (λ buf e, ceph_decode_entity_addrvec buf e msgr2) (enc_addrs true l)
    (chosen_addr msgr2 true l).
Proof.
  intros (Hl & Hlen & H1). unfold ceph_decode_entity_addrvec, enc_addrs, enc_list, chosen_addr.
  fold (wanted_type msgr2).
  eapply parses_bind; [by apply parses_8_safe|]. cbv beta. simpl Z.eqb. cbn [negb].
  eapply parses_bind; [apply parses_32_safe; lia|]. cbv beta zeta.
  assert (s32 (Z.of_nat (length l)) = Z.of_nat (length l)) as ->.
  { unfold s32. rewrite Z.mod_small by lia. lia. }
  rewrite Nat2Z.id. eapply parses_bind_ret.
  { apply parses_addrvec_loop; [done|done|]. destruct H1 as [->|H1]; [simpl; lia|lia]. }
  cbv beta iota. destruct H1 as [->|H1]; [apply parses_ret|].
  destruct (wanted msgr2 l) as [|a [|b k]]; try discriminate. apply parses_ret.
Qed.

End addrs.

Lemma runs_addr y off (om : ceph_osdmap) msgr2 vec l :
  wire_addrs msgr2 vec l →
  runs y off om (λ buf e, decode_addr buf msgr2 e vec) (enc_addrs vec l) (chosen_addr msgr2 vec l) om.
Proof.
  intros Hl. destruct vec; [by apply runs_parses, parses_addrvec|].
  destruct Hl as (Hl & _ & H1). destruct l as [|a [|b l]]; try discriminate.
  apply Forall_cons in Hl as [Ha _]. unfold enc_addrs, chosen_addr. cbn [map concat head].
  rewrite app_nil_r. eapply runs_bind_ret; [by apply runs_parses, parses_entity_addr|]. apply runs_ret.
Qed.

(** ** What the lists mean *)

Definition with_states (f : list Z → list Z) (map : ceph_osdmap) : ceph_osdmap :=
  set_osd_arrays map (f (om_osd_state map)) (om_osd_weight map) (om_osd_addr map).
Definition with_addr (osd : Z) (a : ceph_entity_addr) (map : ceph_osdmap) : ceph_osdmap :=
  set_osd_arrays map (om_osd_state map) (om_osd_weight map) (<[Z.to_nat osd := a]> (om_osd_addr map)).

(** A weight; an OSD with a weight exists, and is no longer new or marked out by itself. *)
Definition mark_in (st : Z) : Z :=
  Z.land (Z.lor st CEPH_OSD_EXISTS) (u32 (Z.lnot (Z.lor CEPH_OSD_AUTOOUT CEPH_OSD_NEW))).
Definition apply_weight (map : ceph_osdmap) (ow : Z * Z) : ceph_osdmap :=
  let i := Z.to_nat ow.1 in
  set_osd_arrays map
    (if nonzero ow.2 then alter mark_in i (om_osd_state map) else om_osd_state map)
    (<[i := ow.2]> (om_osd_weight map)) (om_osd_addr map).

(** State bits to flip, [UP] when there are none; an OSD that stops existing is forgotten. *)
Definition apply_state (map : ceph_osdmap) (ox : Z * Z) : ceph_osdmap :=
  let i := Z.to_nat ox.1 in
  let x := if ox.2 =? 0 then CEPH_OSD_UP else ox.2 in
  let st := nth i (om_osd_state map) 0 in
  if nonzero (Z.land st CEPH_OSD_EXISTS) && nonzero (Z.land x CEPH_OSD_EXISTS) then
    with_states (<[i := 0]>)
      (with_addr ox.1 zero_addr (set_one_affinity map (ox.1, CEPH_OSD_DEFAULT_PRIMARY_AFFINITY)))
  else with_states (alter (λ st, Z.lxor st x) i) map.

(** A client address of an OSD that came up. *)
Definition apply_up (msgr2 vec : bool) (junk : ceph_entity_addr) (map : ceph_osdmap)
    (oa : Z * list ceph_entity_addr) : ceph_osdmap :=
  with_addr oa.1 (default junk (chosen_addr msgr2 vec oa.2))
    (with_states (alter (λ st, Z.lor st (Z.lor CEPH_OSD_EXISTS CEPH_OSD_UP)) (Z.to_nat oa.1)) map).

Definition enc_weight (ow : Z * Z) : list Z := enc_int ow.1 ++ ceph_encode_32 ow.2.
Definition enc_state (struct_v : Z) (ox : Z * Z) : list Z :=
  enc_int ox.1 ++ if struct_v >=? 5 then ceph_encode_32 ox.2 else ceph_encode_8 ox.2.
Definition enc_up (vec : bool) (oa : Z * list ceph_entity_addr) : list Z :=
  enc_int oa.1 ++ enc_addrs vec oa.2.

(** ** The arrays keep their lengths *)

Lemma wf_max_arrays om st w ad :
  wf_max om → length st = length (om_osd_state om) → length w = length (om_osd_weight om) →
  length ad = length (om_osd_addr om) → wf_max (set_osd_arrays om st w ad).
Proof. intros [[? ? ? ? ?] ?] Hs Hw Ha. split; [|done]. split; simpl; congruence || done. Qed.

Lemma apply_weight_ok om ow :
  wf_max om → wf_max (apply_weight om ow) ∧ om_max_osd (apply_weight om ow) = om_max_osd om.
Proof.
  intros Hom. split; [|done]. apply wf_max_arrays; try done.
  - destruct (nonzero _); [apply length_alter|done].
  - apply length_insert.
Qed.

Lemma apply_state_ok om ox :
  wf_max om → wf_max (apply_state om ox) ∧ om_max_osd (apply_state om ox) = om_max_osd om.
Proof.
  intros Hom. unfold apply_state. case_match.
  - split; [|done]. apply wf_max_arrays; [apply wf_max_arrays|..]; try done.
    + by apply wf_max_affinity.
    + cbn. apply length_insert.
    + cbn. apply length_insert.
  - split; [|done]. apply wf_max_arrays; try done. apply length_alter.
Qed.

Lemma apply_up_ok msgr2 vec junk om oa :
  wf_max om → wf_max (apply_up msgr2 vec junk om oa)
    ∧ om_max_osd (apply_up msgr2 vec junk om oa) = om_max_osd om.
Proof.
  intros Hom. split; [|done]. apply wf_max_arrays; [apply wf_max_arrays|..]; try done.
  - apply length_alter.
  - cbn. apply length_insert.
Qed.

(** Folding steps that keep the arrays. *)
Lemma foldl_ok {B} (f : ceph_osdmap → B → ceph_osdmap) om l :
  (∀ om b, wf_max om → wf_max (f om b) ∧ om_max_osd (f om b) = om_max_osd om) →
  wf_max om → wf_max (foldl f om l) ∧ om_max_osd (foldl f om l) = om_max_osd om.
Proof.
  intros Hf. revert om. induction l as [|b l IH]; intros om Hom; [done|].
  destruct (Hf om b Hom) as [H1 H2]. destruct (IH _ H1) as [H3 H4]. simpl. by rewrite H4, H2.
Qed.

Section lists.
Context (ok : alloc_site → Z → Z → bool).
Hypothesis Hok : ∀ site p n, ok site p n = true.
Context (msgr2 : bool) (junk : ceph_entity_addr) (struct_v : Z).
Implicit Types (om : ceph_osdmap) (off : Z).
#[local] Abbreviation vec := (struct_v >=? 7).

Lemma runs_check y off om osd :
  wf_max om → osd_of om osd → runs y off om (λ _ _, check_osd osd) [] tt om.
Proof.
  intros Hom Hosd. unfold check_osd. eapply runs_bind_nil; [apply runs_get|].
  apply runs_lift. by rewrite check_in_range.
Qed.

Lemma state_at om osd :
  wf_max om → osd_of om osd → aget (om_osd_state om) osd = Ret (nth (Z.to_nat osd) (om_osd_state om) 0).
Proof.
  intros [[_ Hs _ _ _] _] Hosd. unfold osd_of in Hosd. apply aget_Some; [lia|].
  destruct (nth_lookup_or_length (om_osd_state om) (Z.to_nat osd) 0); [done|lia].
Qed.

Lemma insert_alter (f : Z → Z) l i d : (i < length l)%nat → <[i := f (nth i l d)]> l = alter f i l.
Proof.
  intros Hi. destruct (nth_lookup_or_length l i d) as [H|]; [|lia].
  apply list_eq. intros j. destruct (decide (i = j)) as [->|Hne].
  - rewrite list_lookup_insert_eq, list_lookup_alter_eq, H by done. done.
  - by rewrite list_lookup_insert_ne, list_lookup_alter_ne by done.
Qed.

Lemma runs_update_state y off om osd f :
  wf_max om → osd_of om osd →
  runs y off om (λ _ _, update_state osd f) [] tt (with_states (alter f (Z.to_nat osd)) om).
Proof.
  intros Hom Hosd. unfold update_state. eapply runs_bind_nil; [apply runs_get|].
  eapply runs_bind_nil; [apply runs_lift, state_at; done|].
  destruct Hom as [[_ Hs _ _ _] _]. unfold osd_of in Hosd.
  eapply runs_bind_nil; [apply runs_lift, aset_Some; lia|].
  eapply runs_eq; [apply runs_modify|done|]. cbv beta. rewrite insert_alter by lia. by destruct om.
Qed.

Lemma runs_put_addr y off om osd a :
  wf_max om → osd_of om osd → runs y off om (λ _ _, put_addr osd a) [] tt (with_addr osd a om).
Proof.
  intros [[_ _ _ Ha _] _] Hosd. unfold osd_of in Hosd. unfold put_addr.
  eapply runs_bind_nil; [apply runs_get|]. eapply runs_bind_nil; [apply runs_lift, aset_Some; lia|].
  eapply runs_eq; [apply runs_modify|done|done].
Qed.

(** ** One element of each list *)

Lemma wire_osd om osd : wf_max om → osd_of om osd → int32 osd.
Proof. intros [_ ?] ?. unfold osd_of, int32 in *. lia. Qed.

Lemma runs_weight off om ow :
  wf_max om → osd_of om ow.1 → word ow.2 →
  runs (Some 0%nat) off om (λ buf e, decode_new_weight buf e) (enc_weight ow) tt (apply_weight om ow).
Proof.
  destruct ow as [osd w]. cbn [fst snd]. intros Hom Hosd Hw. unfold decode_new_weight, enc_weight, enc_int.
  cbn [fst snd]. pose proof (wire_osd _ _ Hom Hosd).
  apply runs_need; [done|]. eapply runs_bind; [apply runs_parses, parses_32, word_of_u32|]. cbv beta zeta.
  rewrite s32_of_u32 by done. eapply runs_bind_ret; [by apply runs_parses, parses_32|].
  eapply runs_bind_nil; [by apply runs_check|]. eapply runs_bind_nil; [apply runs_get|].
  destruct (Hom) as [[_ Hs Hww _ _] _]. unfold osd_of in Hosd.
  eapply runs_bind_nil; [apply runs_lift, aset_Some; lia|]. eapply runs_bind_nil; [apply runs_modify|].
  unfold apply_weight. cbn [fst snd]. destruct (nonzero w); [|apply runs_ret].
  eapply runs_eq; [apply runs_update_state|done|done]; [|done].
  apply wf_max_arrays; [done..|apply length_insert|done].
Qed.

Definition wire_state (ox : Z * Z) : Prop :=
  if struct_v >=? 5 then word ox.2 else u8_range ox.2.

Lemma runs_state off om ox :
  wf_max om → osd_of om ox.1 → wire_state ox →
  runs (Some 0%nat) off om (λ buf e, decode_new_state buf ok struct_v) (enc_state struct_v ox) tt
    (apply_state om ox).
Proof.
  destruct ox as [osd x]. unfold wire_state. cbn [fst snd]. intros Hom Hosd Hx.
  unfold decode_new_state, enc_state, enc_int. cbn [fst snd]. pose proof (wire_osd _ _ Hom Hosd).
  eapply runs_bind; [apply runs_parses, parses_32, word_of_u32|]. cbv beta zeta.
  rewrite s32_of_u32 by done.
  eapply (runs_bind_ret _ _ _ om); [apply runs_parses; destruct (struct_v >=? 5); [by apply parses_32|by apply parses_8]|].
  cbv beta zeta. eapply runs_bind_nil; [by apply runs_check|]. eapply runs_bind_nil; [apply runs_get|].
  eapply runs_bind_nil; [by apply runs_lift, state_at|]. cbv beta. unfold apply_state. cbn [fst snd].
  destruct (nonzero _ && nonzero _); [|by apply runs_update_state].
  assert (H1 : wf_max (set_one_affinity om (osd, CEPH_OSD_DEFAULT_PRIMARY_AFFINITY)))
    by by apply wf_max_affinity.
  eapply runs_bind_nil; [by apply runs_set_affinity|].
  eapply runs_bind_nil; [by apply runs_put_addr|].
  eapply runs_eq; [apply runs_update_state|done|]; [|done|].
  - apply wf_max_arrays; [done..|]. apply length_insert.
  - unfold with_states, with_addr, set_osd_arrays. cbn. f_equal.
    apply list_eq. intros j. destruct Hom as [[_ Hs _ _ _] _]. unfold osd_of in Hosd.
    destruct (decide (Z.to_nat osd = j)) as [<-|Hne].
    + rewrite list_lookup_alter_eq, list_lookup_insert_eq by lia.
      destruct (lookup_lt_is_Some_2 (om_osd_state om) (Z.to_nat osd)) as [v ->]; [lia|done].
    + by rewrite list_lookup_alter_ne, list_lookup_insert_ne by done.
Qed.

Lemma runs_up off om oa :
  wf_max om → osd_of om oa.1 → wire_addrs msgr2 vec oa.2 →
  runs (Some 0%nat) off om (λ buf e, decode_new_up_client buf msgr2 junk e struct_v) (enc_up vec oa) tt
    (apply_up msgr2 vec junk om oa).
Proof.
  destruct oa as [osd l]. cbn [fst snd]. intros Hom Hosd Hl.
  unfold decode_new_up_client, enc_up, enc_int. cbn [fst snd]. pose proof (wire_osd _ _ Hom Hosd).
  eapply runs_bind; [apply runs_parses, parses_32, word_of_u32|]. cbv beta zeta.
  rewrite s32_of_u32 by done. eapply runs_bind_nil; [by apply runs_check|].
  eapply runs_bind_ret; [by apply runs_addr|]. eapply runs_bind_nil; [by apply runs_update_state|].
  apply runs_put_addr; [|done]. apply wf_max_arrays; [done|apply length_alter|done..].
Qed.

Lemma runs_skip_up off om oa :
  wire_addrs msgr2 vec oa.2 →
  runs (Some 0%nat) off om (λ buf e, skip_up_client buf msgr2 e struct_v) (enc_up vec oa) tt om.
Proof.
  intros Hl. eapply runs_bind; [by apply runs_parses, parses_skip_n|].
  eapply runs_bind_ret; [by apply runs_addr|]. apply runs_ret.
Qed.

(** ** The lists *)

Record osd_lists := OsdLists {
  ol_ups : list (Z * list ceph_entity_addr);
  ol_states : list (Z * Z);
  ol_weights : list (Z * Z) }.

Definition enc_osd_lists (l : osd_lists) : list Z :=
  enc_list (enc_up vec) (ol_ups l) ++ enc_list (enc_state struct_v) (ol_states l)
  ++ enc_list enc_weight (ol_weights l).

(** Weights first, then states, then the clients that came up. *)
Definition apply_osd_lists (om : ceph_osdmap) (l : osd_lists) : ceph_osdmap :=
  foldl (apply_up msgr2 vec junk)
    (foldl apply_state (foldl apply_weight om (ol_weights l)) (ol_states l)) (ol_ups l).

Record wire_osd_lists (om : ceph_osdmap) (l : osd_lists) : Prop := {
  wl_ups : Z.of_nat (length (ol_ups l)) < 2 ^ 32
    ∧ Forall (λ oa, osd_of om oa.1 ∧ wire_addrs msgr2 vec oa.2) (ol_ups l);
  wl_states : Z.of_nat (length (ol_states l)) * 8 < 2 ^ 32
    ∧ Forall (λ ox, osd_of om ox.1 ∧ wire_state ox) (ol_states l);
  wl_weights : Z.of_nat (length (ol_weights l)) < 2 ^ 32
    ∧ Forall (λ ow, osd_of om ow.1 ∧ word ow.2) (ol_weights l) }.

Lemma osd_of_eq om om' osd : om_max_osd om' = om_max_osd om → osd_of om osd → osd_of om' osd.
Proof. unfold osd_of. by intros ->. Qed.

(** A loop of steps, each a total function of the map. *)
Lemma runs_osd_loop {B} off om (f : ceph_osdmap → B → ceph_osdmap) (enc : B → list Z) (P : B → Prop)
    (osd : B → Z) d l :
  (∀ om b, wf_max om → wf_max (f om b) ∧ om_max_osd (f om b) = om_max_osd om) →
  (∀ om b off, wf_max om → osd_of om (osd b) → P b → runs (Some 0%nat) off om d (enc b) tt (f om b)) →
  wf_max om → Forall (λ b, osd_of om (osd b) ∧ P b) l →
  runs (Some 0%nat) off om (λ buf e, dloop (Z.of_nat (length l)) (d buf e)) (concat (map enc l)) tt
    (foldl f om l).
Proof.
  intros Hf Hd Hom Hl.
  apply (runs_loop 0 enc (λ done _, foldl f om done) d l).
  intros done b rest off' ->. apply Forall_app in Hl as [_ [[Hosd Hb] _]%Forall_cons].
  destruct (foldl_ok f om done Hf Hom) as [Hom' Hmax].
  eapply runs_eq; [apply Hd; [done|by eapply osd_of_eq|done]|done|]. by rewrite foldl_app.
Qed.

Lemma length_enc_states (l : list (Z * Z)) :
  Z.of_nat (length (concat (map (enc_state struct_v) l)))
    = Z.of_nat (length l) * (4 + if struct_v >=? 5 then 4 else 1).
Proof.
  induction l as [|ox l IH]; [done|]. cbn [map concat length]. rewrite length_app, Nat2Z.inj_add, IH.
  unfold enc_state at 1. rewrite length_app. destruct (struct_v >=? 5); simpl length; lia.
Qed.

Lemma wire_osd_lists_eq om om' l :
  om_max_osd om' = om_max_osd om → wire_osd_lists om l → wire_osd_lists om' l.
Proof.
  intros Heq [[? Hu] [? Hs] [? Hw]].
  split; (split; [done|]); (eapply Forall_impl; [eassumption|]); intros ? [? ?]; split; try done;
    by eapply osd_of_eq.
Qed.

(** The two passes, on the bytes of the three lists in place. *)
Section passes.
Context (om : ceph_osdmap) (l : osd_lists) (pre post : list Z) (e : Z).
Hypothesis Hom : wf_max om.
Hypothesis Hl : wire_osd_lists om l.
#[local] Abbreviation nu := (Z.of_nat (length (ol_ups l))).
#[local] Abbreviation ns := (Z.of_nat (length (ol_states l))).
#[local] Abbreviation nw := (Z.of_nat (length (ol_weights l))).
Let u : list Z := concat (map (enc_up vec) (ol_ups l)).
Let t : list Z := concat (map (enc_state struct_v) (ol_states l)).
Let w : list Z := concat (map enc_weight (ol_weights l)).
Let B : list Z :=
  pre ++ ceph_encode_32 nu ++ u ++ ceph_encode_32 ns ++ t ++ ceph_encode_32 nw ++ w ++ post.
Let off : Z := Z.of_nat (length pre).
Let at_states : Z := off + 4 + Z.of_nat (length u).
Let at_weights : Z := at_states + 4 + Z.of_nat (length t).
Hypothesis He : at_weights + 4 + Z.of_nat (length w) <= e.

(** A piece of the buffer [bs], behind [p] and before [q]. *)
Lemma piece {A} (d : list Z → Z → D ceph_osdmap A) s s' p bs q a o :
  B = p ++ bs ++ q → o = Z.of_nat (length p) → o + Z.of_nat (length bs) <= e →
  (∀ off, runs (Some 0%nat) off s d bs a s') → d B e s o = Ret (inl a, s', o + Z.of_nat (length bs)).
Proof. intros HB -> Hend Hd. eapply runs_in; [apply Hd|exact HB|done|done]. Qed.

Let p_states : list Z := pre ++ ceph_encode_32 nu ++ u.
Let p_weights : list Z := p_states ++ ceph_encode_32 ns ++ t.

Lemma length_p_states : Z.of_nat (length p_states) = at_states.
Proof. unfold p_states, at_states, off. rewrite !length_app. simpl length. lia. Qed.
Lemma length_p_weights : Z.of_nat (length p_weights) = at_weights.
Proof.
  unfold p_weights, at_weights. rewrite length_app, Nat2Z.inj_add, length_p_states, length_app. simpl length. lia.
Qed.

Ltac assoc := unfold B, p_weights, p_states; rewrite <- ?(assoc_L (++)); reflexivity.
Ltac position :=
  rewrite ?length_app, ?Nat2Z.inj_add, ?length_p_weights, ?length_p_states;
  unfold at_weights, at_states, off in *; simpl length; lia.

Lemma read_nu (s : ceph_osdmap) : ceph_decode_32_safe B e (- EINVAL) s off = Ret (inl nu, s, off + 4)
  ∧ ceph_decode_32 B s off = Ret (inl nu, s, off + 4).
Proof.
  destruct Hl as [[? _] _ _]. split.
  - apply (piece (λ buf e, ceph_decode_32_safe buf e (- EINVAL)) s s pre (ceph_encode_32 nu)
      (u ++ ceph_encode_32 ns ++ t ++ ceph_encode_32 nw ++ w ++ post)); [assoc|done|position|].
    intros o. apply runs_parses, parses_32_safe. lia.
  - apply (piece (λ buf e, ceph_decode_32 buf) s s pre (ceph_encode_32 nu)
      (u ++ ceph_encode_32 ns ++ t ++ ceph_encode_32 nw ++ w ++ post)); [assoc|done|position|].
    intros o. apply runs_parses, parses_32. lia.
Qed.

Lemma read_ns (s : ceph_osdmap) :
  ceph_decode_32_safe B e (- EINVAL) s at_states = Ret (inl ns, s, at_states + 4)
  ∧ ceph_decode_32 B s at_states = Ret (inl ns, s, at_states + 4).
Proof.
  destruct Hl as [_ [? _] _]. split.
  - apply (piece (λ buf e, ceph_decode_32_safe buf e (- EINVAL)) s s p_states (ceph_encode_32 ns)
      (t ++ ceph_encode_32 nw ++ w ++ post)); [assoc|position|position|].
    intros o. apply runs_parses, parses_32_safe. lia.
  - apply (piece (λ buf e, ceph_decode_32 buf) s s p_states (ceph_encode_32 ns)
      (t ++ ceph_encode_32 nw ++ w ++ post)); [assoc|position|position|].
    intros o. apply runs_parses, parses_32. lia.
Qed.

Lemma read_nw (s : ceph_osdmap) :
  ceph_decode_32_safe B e (- EINVAL) s at_weights = Ret (inl nw, s, at_weights + 4).
Proof.
  destruct Hl as [_ _ [? _]].
  apply (piece (λ buf e, ceph_decode_32_safe buf e (- EINVAL)) s s p_weights (ceph_encode_32 nw)
    (w ++ post)); [assoc|position|position|].
  intros o. apply runs_parses, parses_32_safe. lia.
Qed.

Lemma skip_ups s :
  dloop nu (skip_up_client B msgr2 e struct_v) s (off + 4) = Ret (inl tt, s, at_states).
Proof.
  destruct Hl as [[_ Hu] _ _].
  replace at_states with (off + 4 + Z.of_nat (length u)) by done.
  apply (piece (λ buf e, dloop nu (skip_up_client buf msgr2 e struct_v)) s s (pre ++ ceph_encode_32 nu) u
    (ceph_encode_32 ns ++ t ++ ceph_encode_32 nw ++ w ++ post)); [assoc|position|position|].
  intros o. apply (runs_loop 0 (enc_up vec) (λ _ _, s) (λ buf e, skip_up_client buf msgr2 e struct_v)).
  intros done oa rest o' Hdone. rewrite Hdone in Hu. apply Forall_app in Hu as [_ [[_ ?] _]%Forall_cons].
  by apply runs_skip_up.
Qed.

Lemma read_weights s :
  wf_max s → om_max_osd s = om_max_osd om →
  dloop nw (decode_new_weight B e) s (at_weights + 4)
    = Ret (inl tt, foldl apply_weight s (ol_weights l), at_weights + 4 + Z.of_nat (length w)).
Proof.
  intros Hs Hmax. destruct (wire_osd_lists_eq om s l Hmax Hl) as [_ _ [_ Hw]].
  apply (piece (λ buf e, dloop nw (decode_new_weight buf e)) s _ (p_weights ++ ceph_encode_32 nw) w
    post); [assoc|position|position|].
  intros o. apply (runs_osd_loop o s apply_weight enc_weight (λ ow, word ow.2) fst
    (λ buf e, decode_new_weight buf e)); [apply apply_weight_ok| |done|done].
  intros. by apply runs_weight.
Qed.

Lemma read_states s :
  wf_max s → om_max_osd s = om_max_osd om →
  dloop ns (decode_new_state B ok struct_v) s (at_states + 4)
    = Ret (inl tt, foldl apply_state s (ol_states l), at_weights).
Proof.
  intros Hs Hmax. destruct (wire_osd_lists_eq om s l Hmax Hl) as [_ [_ Ht] _].
  apply (piece (λ buf e, dloop ns (decode_new_state buf ok struct_v)) s _
    (p_states ++ ceph_encode_32 ns) t (ceph_encode_32 nw ++ w ++ post)); [assoc|position|position|].
  intros o. apply (runs_osd_loop o s apply_state (enc_state struct_v) wire_state fst
    (λ buf e, decode_new_state buf ok struct_v)); [apply apply_state_ok| |done|done].
  intros. by apply runs_state.
Qed.

Lemma read_ups s :
  wf_max s → om_max_osd s = om_max_osd om →
  dloop nu (decode_new_up_client B msgr2 junk e struct_v) s (off + 4)
    = Ret (inl tt, foldl (apply_up msgr2 vec junk) s (ol_ups l), at_states).
Proof.
  intros Hs Hmax. destruct (wire_osd_lists_eq om s l Hmax Hl) as [[_ Hu] _ _].
  apply (piece (λ buf e, dloop nu (decode_new_up_client buf msgr2 junk e struct_v)) s _
    (pre ++ ceph_encode_32 nu) u
    (ceph_encode_32 ns ++ t ++ ceph_encode_32 nw ++ w ++ post)); [assoc|position|position|].
  intros o. apply (runs_osd_loop o s (apply_up msgr2 vec junk) (enc_up vec)
    (λ oa, wire_addrs msgr2 vec oa.2) fst (λ buf e, decode_new_up_client buf msgr2 junk e struct_v));
    [apply apply_up_ok| |done|done].
  intros. by apply runs_up.
Qed.

Lemma two_passes :
  decode_new_up_state_weight B msgr2 ok junk e struct_v om off
    = Ret (inl tt, apply_osd_lists om l, at_weights + 4 + Z.of_nat (length w)).
Proof.
  destruct (foldl_ok apply_weight om (ol_weights l) apply_weight_ok Hom) as [Hom1 Hm1].
  destruct (foldl_ok apply_state _ (ol_states l) apply_state_ok Hom1) as [Hom2 Hm2].
  assert (Hts : u32 (ns * (4 + if struct_v >=? 5 then 4 else 1)) = Z.of_nat (length t)).
  { unfold t. rewrite length_enc_states. destruct Hl as [_ [? _] _].
    unfold u32. apply Z.mod_small. destruct (struct_v >=? 5); lia. }
  unfold decode_new_up_state_weight.
  rewrite (D_bind_eq _ _ _ _ off om off) by done.
  rewrite (D_bind_eq _ _ _ _ _ _ _ (proj1 (read_nu om))).
  rewrite (D_bind_eq _ _ _ _ _ _ _ (skip_ups om)).
  rewrite (D_bind_eq _ _ _ _ at_states om at_states) by done.
  rewrite (D_bind_eq _ _ _ _ _ _ _ (proj1 (read_ns om))). cbv zeta. rewrite Hts.
  rewrite (D_bind_eq _ _ _ _ tt om (at_states + 4)).
  2:{ unfold ceph_decode_need, ceph_has_room. rewrite Z.geb_leb, (proj2 (Z.leb_le _ _)), (proj2 (Z.leb_le _ _));
      [done|position|position]. }
  rewrite (D_bind_eq _ _ _ _ tt om at_weights) by done.
  rewrite (D_bind_eq _ _ _ _ _ _ _ (read_nw om)).
  rewrite (D_bind_eq _ _ _ _ _ _ _ (read_weights om Hom eq_refl)).
  rewrite (D_bind_eq _ _ _ _ _ _ _ (eq_refl : dpos _ _ = _)).
  rewrite (D_bind_eq _ _ _ _ tt _ at_states) by done.
  rewrite (D_bind_eq _ _ _ _ _ _ _ (proj2 (read_ns _))).
  rewrite (D_bind_eq _ _ _ _ _ _ _ (read_states _ Hom1 Hm1)).
  rewrite (D_bind_eq _ _ _ _ tt _ off) by done.
  rewrite (D_bind_eq _ _ _ _ _ _ _ (proj2 (read_nu _))).
  rewrite (D_bind_eq _ _ _ _ _ _ _ (read_ups _ Hom2 (eq_trans Hm2 Hm1))). done.
Qed.
End passes.

Lemma runs_osd_lists off om l :
  wf_max om → wire_osd_lists om l →
  runs (Some 0%nat) off om
    (λ buf e, decode_new_up_state_weight buf msgr2 ok junk e struct_v) (enc_osd_lists l) tt
    (apply_osd_lists om l).
Proof.
  intros Hom Hl pre post e Hpre He. pose proof (two_passes om l pre post e Hom Hl) as H.
  unfold enc_osd_lists, enc_list in *. rewrite !length_app in He |- *. rewrite <- !(assoc_L (++)).
  subst off. rewrite H; [|simpl length in *; lia]. do 2 f_equal. simpl length. lia.
Qed.
End lists.

(** ** An OSD that came up is up *)

Definition up_state (st : Z) : Prop := Z.land st (Z.lor CEPH_OSD_EXISTS CEPH_OSD_UP) = Z.lor CEPH_OSD_EXISTS CEPH_OSD_UP.

Lemma up_state_lor st : up_state (Z.lor st (Z.lor CEPH_OSD_EXISTS CEPH_OSD_UP)).
Proof.
  unfold up_state. apply Z.bits_inj'. intros n Hn. rewrite Z.land_spec, Z.lor_spec.
  destruct (Z.testbit st n), (Z.testbit (Z.lor CEPH_OSD_EXISTS CEPH_OSD_UP) n); done.
Qed.

Definition is_up_at (om : ceph_osdmap) (osd : Z) (a : ceph_entity_addr) : Prop :=
  (∃ st, om_osd_state om !! Z.to_nat osd = Some st ∧ up_state st)
  ∧ om_osd_addr om !! Z.to_nat osd = Some a.

Lemma is_up_after msgr2 vec junk om oa :
  wf_max om → osd_of om oa.1 →
  is_up_at (apply_up msgr2 vec junk om oa) oa.1 (default junk (chosen_addr msgr2 vec oa.2)).
Proof.
  destruct oa as [osd l]. cbn [fst snd]. intros [[_ Hs _ Ha _] _] Hosd. unfold osd_of in Hosd.
  destruct (lookup_lt_is_Some_2 (om_osd_state om) (Z.to_nat osd)) as [st Hst]; [lia|].
  split; cbn.
  - eexists. rewrite list_lookup_alter_eq, Hst. split; [done|]. apply up_state_lor.
  - apply list_lookup_insert_eq. lia.
Qed.

Lemma is_up_stays msgr2 vec junk om oa osd a :
  Z.to_nat oa.1 ≠ Z.to_nat osd → is_up_at om osd a → is_up_at (apply_up msgr2 vec junk om oa) osd a.
Proof.
  intros Hne [(st & Hst & Hup) Ha]. split; cbn.
  - exists st. by rewrite list_lookup_alter_ne.
  - by rewrite list_lookup_insert_ne.
Qed.

Lemma ups_are_up msgr2 vec junk om l osd al :
  wf_max om → Forall (λ oa, osd_of om oa.1) l → NoDup l.*1 → (osd, al) ∈ l →
  is_up_at (foldl (apply_up msgr2 vec junk) om l) osd (default junk (chosen_addr msgr2 vec al)).
Proof.
  intros Hom Hl. induction l as [|oa l IH] using rev_ind; [set_solver|].
  rewrite foldl_app, fmap_app. cbn [foldl]. apply Forall_app in Hl as [Hl [Hoa _]%Forall_cons].
  intros (Hnd & Hdis & _)%NoDup_app Hin. destruct (foldl_ok (apply_up msgr2 vec junk) om l
    (apply_up_ok msgr2 vec junk) Hom) as [Hom' Hmax].
  apply elem_of_app in Hin as [Hin|Hin]; [|apply list_elem_of_singleton in Hin as <-].
  - apply is_up_stays; [|by apply IH].
    assert (osd ≠ oa.1) as Hne. { intros ->. apply (Hdis oa.1); set_solver. }
    rewrite Forall_forall in Hl. specialize (Hl _ Hin). unfold osd_of in *. simpl in Hl. lia.
  - apply (is_up_after msgr2 vec junk _ (osd, al) Hom'). by eapply osd_of_eq.
Qed.

(** C31: the per-OSD changes of an incremental map.  They stand in the message as clients that
    came up, state bits, weights; the decoder goes over them twice and applies the weights, then
    the states, then the clients.  So an OSD listed as come up is up with its new address, even
    if the state bits of the same message made it vanish. *)
Theorem decode_new_up_state_weight_applies (ok : alloc_site → Z → Z → bool) (msgr2 : bool)
    (junk : ceph_entity_addr) (struct_v : Z) (om : ceph_osdmap) (l : osd_lists)
    (pre post : list Z) (end_ : Z)
    (Hok : ∀ site p n, ok site p n = true) (Hom : wf_max om)
    (Hl : wire_osd_lists msgr2 struct_v om l)
    (Hend : Z.of_nat (length (pre ++ enc_osd_lists struct_v l)) <= end_) :
  let vec := struct_v >=? 7 in
  let om' := apply_osd_lists msgr2 junk struct_v om l in
  decode_new_up_state_weight (pre ++ enc_osd_lists struct_v l ++ post) msgr2 ok junk end_ struct_v om
      (Z.of_nat (length pre))
    = Ret (inl tt, om', Z.of_nat (length (pre ++ enc_osd_lists struct_v l)))
  ∧ wf_max om'
  ∧ (NoDup (ol_ups l).*1 → ∀ osd al, (osd, al) ∈ ol_ups l →
      is_up_at om' osd (default junk (chosen_addr msgr2 vec al))).
Proof.
  cbv zeta. rewrite length_app, Nat2Z.inj_add in *.
  destruct (foldl_ok apply_weight om (ol_weights l) apply_weight_ok Hom) as [Hom1 Hm1].
  destruct (foldl_ok apply_state _ (ol_states l) apply_state_ok Hom1) as [Hom2 Hm2].
  split; [by apply (runs_osd_lists ok Hok msgr2 junk struct_v _ om l Hom Hl); [|lia]|]. split.
  - by apply foldl_ok; [apply apply_up_ok|].
  - intros Hnd osd al Hin. apply ups_are_up; try done.
    destruct Hl as [[_ Hu] _ _]. eapply Forall_impl; [exact Hu|]. intros oa [? _].
    eapply osd_of_eq; [|done]. by rewrite Hm2.
Qed.

(** OSD 1 leaves and comes back at a new address in one message. *)
Definition ex_lists : osd_lists := OsdLists [(1, [ex_addr])] [(1, 1); (2, 0)] [(3, 0x10000)].

Lemma wf_max_ex_osdmap : wf_max ex_osdmap.
Proof. split; [apply wf_ex_osdmap|done]. Qed.

Lemma wire_ex_lists : wire_osd_lists true 7 ex_osdmap ex_lists.
Proof.
  split; (split; [done|]); repeat (apply Forall_cons; split); try apply Forall_nil_2; try done.
  split; [done|]. split; [by apply Forall_singleton, ex_addr_ok|]. split; [done|]. by right.
Qed.

Lemma decode_new_up_state_weight_applies_witness :
  let bytes := [5; 5] ++ enc_osd_lists 7 ex_lists ++ [] in
  wire_osd_lists true 7 ex_osdmap ex_lists ∧
  ∃ om', decode_new_up_state_weight bytes true (λ _ _ _, true) zero_addr (Z.of_nat (length bytes)) 7 ex_osdmap 2
      = Ret (inl tt, om', Z.of_nat (length bytes))
    ∧ om_osd_state om' = [3; 3; 3; 3] ∧ om_osd_addr om' !! 1%nat = Some ex_addr.
Proof.
  split; [exact wire_ex_lists|]. eexists. split; [|split].
  - apply (decode_new_up_state_weight_applies (λ _ _ _, true) true zero_addr 7 ex_osdmap ex_lists
      [5; 5] [] _ (λ _ _ _, eq_refl) wf_max_ex_osdmap wire_ex_lists). reflexivity.
  - by vm_compute.
  - by vm_compute.
Defined.
