(* ===== verification/OsdMessages.v ===== *)
(** * Full and incremental OSD maps on the wire

    The two messages as data, what each means, and that [osdmap_decode] and
    [osdmap_apply_incremental] (libceph/osdmap.c) do that. *)
From S2P Require Import Prelude Hash Crush Mapper Choose DoRule Workspace OsdMap Decode.
From S2P Require Import CrushDecode CrushWire OsdMapDecode OsdMapWire OsdUpdate.

(** ** A CRUSH map takes its place *)

(** What replacing the CRUSH map needs of the old one: destroying it ends well. *)
Definition ends {A} (m : outcome A) : Prop := wp m (λ _, True).
Definition live_crush (c : crush_map) : Prop := ends (crush_destroy c).
Definition live (om : ceph_osdmap) : Prop :=
  wf_max om ∧ ∀ c, om_crush om = Some c → live_crush c.

Lemma wp_eq_Ret {A} (m : outcome A) a : wp m (λ x, x = a) → m = Ret a.
Proof. destruct m; simpl; congruence || done. Qed.
Lemma ends_for {S} n from (body : Z → S → outcome S) s :
  (∀ i s, from <= i < from + Z.of_nat n → ends (body i s)) → ends (for_range n from body s).
Proof. intros H. apply (wp_for_range (λ _ _, True)); [|done]. intros i s' Hi _. by apply H. Qed.
Lemma ends_bind {A B} (m : outcome A) (f : A → outcome B) :
  ends m → (∀ a, ends (f a)) → ends (m ≫= f).
Proof. intros Hm Hf. apply wp_bind. eapply wp_mono; [exact Hm|]. intros a _. apply Hf. Qed.

Lemma destroy_bucket_ends i b : wire_bucket b → ends (crush_destroy_bucket i b).
Proof.
  intros Hb. pose proof (wb_alg b Hb) as Halg. unfold crush_destroy_bucket, as_uniform, as_list,
    as_tree, as_straw, as_straw2.
  destruct (b_body b); rewrite Halg; done.
Qed.

Lemma free_choose_arg_ends k i o arg : wire_arg o arg → ends (free_choose_arg k i arg).
Proof.
  intros [Hs _]. apply ends_bind; [|done]. apply ends_for. intros j freed Hj.
  destruct (arg_weight_set arg) as [wss|]; [|lia]. destruct Hs as (Hpos & Hlen & _).
  destruct (lookup_Z_Some wss j) as [ws Hws]; [lia|].
  cbn [deref mbind outcome_bind]. by rewrite (aget_Some _ _ ws) by (done || lia).
Qed.

Lemma free_choose_arg_map_ends c k k' am :
  Z.of_nat (length (buckets c)) = max_buckets c → wire_arg_map c k am →
  ends (free_choose_arg_map k' am).
Proof.
  intros Hlen [_ _ Hsize Hargs Hwire]. apply ends_bind; [|done]. apply ends_for. intros i freed Hi.
  destruct (lookup_Z_Some (ca_args am) i) as [arg Harg]; [lia|].
  destruct (lookup_Z_Some (buckets c) i) as [o Ho]; [lia|].
  rewrite (aget_Some _ _ arg) by (done || lia). cbn [mbind outcome_bind].
  apply ends_bind; [|done]. by apply (free_choose_arg_ends _ _ o), (Hwire (Z.to_nat i)).
Qed.

Lemma free_choose_arg_maps_ends l :
  Forall (λ kam : Z * crush_choose_arg_map, ends (free_choose_arg_map kam.1 kam.2)) l →
  ends (free_choose_arg_maps l).
Proof.
  induction 1 as [|[k am] l Hk _ IH]; [done|]. cbn [free_choose_arg_maps].
  apply ends_bind; [exact Hk|]. intros fr. by apply ends_bind.
Qed.

Lemma crush_destroy_ends t c : wire_map t c → live_crush c.
Proof.
  intros [(Hlen & _ & Hbs) (Hrl & _) _ _ _ _ _ [_ Hargs]]. unfold live_crush, crush_destroy.
  apply ends_bind; [|intros freed; apply ends_bind; [|intros freed'; apply ends_bind; [|done]]].
  - destruct (buckets c) as [|o0 bs] eqn:E; [done|]. apply ends_bind; [|done].
    apply ends_for. intros i fr Hi. rewrite <- E in *.
    destruct (lookup_Z_Some (buckets c) i) as [o Ho]; [lia|].
    rewrite (aget_Some _ _ o) by (done || lia). cbn [mbind outcome_bind].
    destruct o as [b|]; [|done]. apply ends_bind; [|done]. apply destroy_bucket_ends.
    rewrite Forall_lookup in Hbs. by apply (Hbs _ _ Ho).
  - destruct (rules c) as [|r0 rs] eqn:E; [done|]. apply ends_bind; [|done].
    apply ends_for. intros i fr Hi. rewrite <- E in *.
    destruct (lookup_Z_Some (rules c) i) as [r Hr]; [lia|]. by rewrite (aget_Some _ _ r) by (done || lia).
  - apply free_choose_arg_maps_ends, Forall_forall. intros [k am] Hin%elem_of_map_to_list.
    by apply (free_choose_arg_map_ends c k), Hargs.
Qed.

(** The memory [crush_finalize] counts is what the workspace is laid out in. *)
Lemma init_workspace_follows c mem n i ws ws' work :
  for_range n i (λ b ws, o ← aget (buckets c) b;
       Ret match o with
           | None => ws
           | Some bk => ws + sizeof_work_bucket + b_size bk * sizeof_u32
           end) ws = Ret ws' →
  ∃ work', for_range n i (init_workspace_step c mem) (work, ws) = Ret (work', ws').
Proof.
  revert i ws work. induction n as [|n IH]; intros i ws work; cbn [for_range].
  { intros [= ->]. eauto. }
  assert (Hstep : ∀ o, aget (buckets c) i = Ret o → ∃ w, init_workspace_step c mem i (work, ws)
    = Ret (w, match o with None => ws | Some bk => ws + sizeof_work_bucket + b_size bk * sizeof_u32 end)).
  { intros o Ho. unfold init_workspace_step. rewrite Ho. destruct o; by eexists. }
  destruct (aget (buckets c) i) as [o| |]; try done. destruct (Hstep o eq_refl) as [w ->].
  cbn [mbind outcome_bind]. apply IH.
Qed.

Lemma alloc_workspace_ok c wmem :
  crush_finalize c = Ret c → ∃ work, alloc_workspace c true wmem = Ret (Some work).
Proof.
  unfold crush_finalize. destruct (for_range _ _ _ _) as [ws| |] eqn:E; try done. cbn [mbind outcome_bind].
  intros Heq. assert (Hws : ws = working_size c) by (by injection Heq as <-).
  destruct (init_workspace_follows c wmem _ _ _ _ [] E) as [work Hwork].
  exists work. unfold alloc_workspace, crush_init_workspace. rewrite Hwork. cbn [mbind outcome_bind].
  by rewrite Hws, Z.eqb_refl.
Qed.

Lemma cleanup_loop l freed : loop (length l + 1) cleanup_step (l, freed) = Ret (freed ++ l).
Proof.
  revert freed. induction l as [|h l IH]; intros freed; [by rewrite app_nil_r|].
  cbn [length]. change (Datatypes.S (length l) + 1)%nat with (Datatypes.S (length l + 1)).
  rewrite (loop_inl _ _ _ (l, freed ++ [h])) by done. rewrite IH, <- (assoc_L (++)). done.
Qed.
Lemma cleanup_ok wsm : cleanup_workspace_manager wsm = Ret (idle_ws wsm, init_workspace_manager).
Proof. unfold cleanup_workspace_manager. by rewrite cleanup_loop. Qed.

(** The map with another CRUSH map and one fresh workspace. *)
Definition with_crush (h : handle) (c : crush_map) (om : ceph_osdmap) : ceph_osdmap :=
  set_crush om (Some c) (add_initial_workspace init_workspace_manager h).

Lemma set_crush_ok wmem h om c :
  live om → crush_finalize c = Ret c →
  ∃ work, osdmap_set_crush true wmem h om (inl c) = Ret (0, with_crush h c om, work).
Proof.
  intros [_ Hlive] Hc. destruct (alloc_workspace_ok c wmem Hc) as [work Hwork].
  exists (Some work). unfold osdmap_set_crush. rewrite Hwork. cbn [mbind outcome_bind].
  destruct (om_crush om) as [old|]; [|by rewrite cleanup_ok].
  specialize (Hlive old eq_refl). unfold live_crush, ends in Hlive.
  destruct (crush_destroy old); try done. cbn [mbind outcome_bind]. by rewrite cleanup_ok.
Qed.

(** ** Pieces of the messages *)

Definition enc_timespec (ts : Z * Z) : list Z := ceph_encode_32 ts.1 ++ ceph_encode_32 ts.2.
Definition wire_timespec (ts : Z * Z) : Prop := word ts.1 ∧ word ts.2.

(** The wrapper and the section for clients, with their versions. *)
Record versions := Versions { wrapper_v : Z; wrapper_compat : Z; client_v : Z; client_compat : Z;
  wrapper_len : list Z; client_len : list Z }.
Definition enc_versions (v : versions) : list Z :=
  ceph_encode_8 (wrapper_v v) ++ ceph_encode_8 (wrapper_compat v) ++ wrapper_len v
  ++ ceph_encode_8 (client_v v) ++ ceph_encode_8 (client_compat v) ++ client_len v.
Record wire_versions (v : versions) : Prop := {
  wv_wrapper : 7 <= wrapper_v v < 2 ^ 8 ∧ 0 <= wrapper_compat v <= 7;
  wv_client : u8_range (client_v v) ∧ 0 <= client_compat v <= 1;
  wv_lens : blob 4 (wrapper_len v) ∧ blob 4 (client_len v) }.

Lemma parses_timespec {S} off ts :
  wire_timespec ts → parses (S := S) off (λ buf _, decode_timespec buf) (enc_timespec ts) ts.
Proof.
  intros [? ?]. eapply parses_bind; [by apply parses_32|]. eapply parses_bind_ret; [by apply parses_32|].
  destruct ts. apply parses_ret.
Qed.

Lemma parses_versions {S} off v :
  wire_versions v → parses (S := S) off (λ buf e, get_osdmap_client_data_v buf e) (enc_versions v) (client_v v).
Proof.
  intros [[Hw Hwc] [Hc Hcc] [Hl1 Hl2]]. unfold blob in *. unfold get_osdmap_client_data_v, enc_versions,
    OSDMAP_WRAPPER_COMPAT_VER, OSDMAP_CLIENT_DATA_COMPAT_VER.
  eapply parses_bind; [apply parses_8_safe; lia|]. cbv beta.
  rewrite Z.geb_leb, (proj2 (Z.leb_le _ _)) by lia.
  eapply parses_bind; [apply parses_8_safe; lia|]. cbv beta.
  rewrite Z.gtb_ltb, (proj2 (Z.ltb_ge _ _)) by lia.
  eapply parses_bind; [apply parses_skip; lia|].
  eapply parses_bind; [by apply parses_8_safe|].
  eapply parses_bind; [apply parses_8_safe; lia|]. cbv beta.
  rewrite Z.gtb_ltb, (proj2 (Z.ltb_ge _ _)) by lia.
  eapply parses_bind_ret; [apply parses_skip; lia|]. apply parses_ret.
Qed.

(** Profiles of erasure codes are passed over. *)
Definition profiles : Type := list (list Z * list (list Z * list Z)).
Definition enc_profile (p : list Z * list (list Z * list Z)) : list Z :=
  enc_string p.1 ++ enc_list enc_strings p.2.
Definition wire_profiles (l : profiles) : Prop :=
  Z.of_nat (length l) < 2 ^ 32
  ∧ Forall (λ p, short p.1 ∧ Z.of_nat (length p.2) < 2 ^ 32
      ∧ Forall (λ s, short s.1 ∧ short s.2) p.2) l.

Lemma parses_string_map {S} off (l : list (list Z * list Z)) :
  Z.of_nat (length l) < 2 ^ 32 → Forall (λ s, short s.1 ∧ short s.2) l →
  parses (S := S) off (λ buf e, ceph_decode_skip_map buf e (ceph_decode_skip_string buf e)
    (ceph_decode_skip_string buf e) (- EINVAL)) (enc_list enc_strings l) tt.
Proof.
  intros Hlen Hl. eapply parses_skip_list; [done|exact Hl|].
  intros [k v] o [Hk Hv]. eapply parses_bind; by apply parses_skip_string.
Qed.

Lemma parses_profiles off l :
  wire_profiles l → parses (S := ceph_osdmap) off (λ buf e, skip_erasure_code_profiles buf e) (enc_list enc_profile l) tt.
Proof.
  intros [Hlen Hl]. eapply parses_skip_list; [done|exact Hl|]. intros p o (H1 & H2 & H3).
  eapply parses_bind; [by apply parses_skip_string|]. by apply parses_string_map.
Qed.

(** ** Resizing *)

Definition resized (max : Z) (om : ceph_osdmap) : ceph_osdmap :=
  let n := Z.to_nat max in
  set_max_osd
    (set_affinity
       (set_osd_arrays om (resize n 0 (om_osd_state om)) (resize n CEPH_OSD_OUT (om_osd_weight om))
          (resize n zero_addr (om_osd_addr om)))
       (resize n CEPH_OSD_DEFAULT_PRIMARY_AFFINITY <$> om_osd_primary_affinity om)) max.

Lemma set_max_osd_ok mem amem om max :
  wf_arrays om → 0 <= max → osdmap_set_max_osd true true mem amem om max = Ret (0, resized max om).
Proof.
  intros [Hm Hs Hw Ha Hf] Hmax. apply wp_eq_Ret. unfold osdmap_set_max_osd, resized. cbv zeta.
  destruct (Z.eqb_spec max (om_max_osd om)) as [Heq|Hne].
  { cbn [wp]. rewrite Heq, !resize_all_alt by lia. f_equal.
    destruct (om_osd_primary_affinity om) as [a|] eqn:E; simpl.
    - specialize (Hf a eq_refl). rewrite resize_all_alt by lia. destruct om. simpl in *. by subst.
    - destruct om. simpl in *. by subst. }
  cbn [negb].
  pose proof (kvmalloc_copy_filled mem (om_osd_state om) max 0 ltac:(lia)) as E1.
  pose proof (kvmalloc_copy_filled mem (om_osd_weight om) max CEPH_OSD_OUT ltac:(lia)) as E2.
  pose proof (kvmalloc_copy_filled amem (om_osd_addr om) max zero_addr ltac:(lia)) as E3.
  pose proof (fill_arrays_wp mem amem (om_osd_state om) (om_osd_weight om) (om_osd_addr om) max
    ltac:(lia) ltac:(lia) ltac:(lia)) as E4.
  rewrite Hs in E1, E4. rewrite Hw in E2. rewrite Ha in E3.
  rewrite E1, E2, E3. cbn [mbind outcome_bind].
  apply wp_bind. eapply wp_mono; [exact E4|]. intros r ->.
  unfold set_osd_arrays at 1. cbn [om_osd_primary_affinity].
  destruct (om_osd_primary_affinity om) as [a|] eqn:Eaff; [|cbn [wp]; by destruct om; simpl in *; subst].
  specialize (Hf a eq_refl).
  pose proof (kvmalloc_copy_filled mem a max CEPH_OSD_DEFAULT_PRIMARY_AFFINITY ltac:(lia)) as E5.
  pose proof (fill_wp mem a max CEPH_OSD_DEFAULT_PRIMARY_AFFINITY ltac:(lia)) as E6.
  rewrite Hf in E5, E6. cbn [negb]. rewrite E5. cbn [mbind outcome_bind om_max_osd set_osd_arrays].
  apply wp_bind. eapply wp_mono; [exact E6|]. by intros l ->.
Qed.

Lemma wf_resized max om : wf_arrays om → 0 <= max < 2 ^ 31 → wf_max (resized max om).
Proof.
  intros _ Hmax. split; [|simpl; lia]. split; simpl; rewrite ?length_resize; try lia.
  intros a Ha. destruct (om_osd_primary_affinity om); simplify_eq/=. rewrite length_resize. lia.
Qed.

(** ** The arrays of a full map *)

Lemma overwrite_next {A} (done old : list A) v :
  (length done < length old)%nat →
  <[length done := v]> (done ++ drop (length done) old)
    = (done ++ [v]) ++ drop (length (done ++ [v])) old.
Proof.
  intros Hlt. rewrite insert_app_r_alt, Nat.sub_diag by lia. rewrite <- (assoc_L (++)). f_equal.
  destruct (lookup_lt_is_Some_2 old (length done) Hlt) as [x Hx].
  rewrite (drop_S _ _ _ Hx), length_app. simpl. do 2 f_equal. lia.
Qed.

Section arrays.
Context (om : ceph_osdmap).
Hypothesis Hom : wf_max om.
Implicit Types (off : Z).

Lemma max_length {A} (l : list A) : Z.of_nat (length l) = om_max_osd om → Z.to_nat (om_max_osd om) = length l.
Proof. lia. Qed.

Definition enc_osd_state (struct_v st : Z) : list Z :=
  if struct_v >=? 5 then ceph_encode_32 st else ceph_encode_8 st.
Definition wire_osd_state (struct_v st : Z) : Prop := if struct_v >=? 5 then word st else u8_range st.

Lemma runs_osd_states off struct_v l :
  Z.of_nat (length l) = om_max_osd om → Forall (wire_osd_state struct_v) l →
  runs (Some 0%nat) off om (λ buf _, decode_osd_states buf struct_v) (concat (map (enc_osd_state struct_v) l))
    tt (with_states (λ _, l) om).
Proof.
  intros Hlen Hl. unfold decode_osd_states. eapply runs_bind_nil; [apply runs_get|].
  rewrite (max_length l Hlen). destruct Hom as [[_ Hs _ _ _] _].
  eapply runs_init; [eapply runs_eq; [apply (runs_for 0 (enc_osd_state struct_v)
    (λ done _, with_states (λ old, done ++ drop (length done) old) om)
    (λ buf _ i, v ← (if struct_v >=? 5 then ceph_decode_32 buf else ceph_decode_8 buf);
        map ← dget; st ← dlift (aset (om_osd_state map) i v); put_states st) l)|done|]|].
  - intros done st rest off' ->. apply Forall_app in Hl as [_ [Hst _]%Forall_cons].
    rewrite length_app in Hlen. simpl in Hlen. unfold wire_osd_state, enc_osd_state in *.
    eapply (runs_bind_ret _ _ _ (with_states _ om)); [apply runs_parses; destruct (struct_v >=? 5);
      [by apply parses_32|by apply parses_8]|].
    cbv beta. eapply runs_bind_nil; [apply runs_get|].
    eapply runs_bind_nil; [apply runs_lift, aset_Some; cbn; rewrite length_app, length_drop; lia|].
    eapply runs_eq; [apply runs_modify|done|]. cbn. rewrite Nat2Z.id, overwrite_next by lia. done.
  - unfold with_states. rewrite drop_ge, app_nil_r by lia. done.
  - by destruct om.
Qed.

Lemma runs_osd_weights off l :
  Z.of_nat (length l) = om_max_osd om → Forall word l →
  runs (Some 0%nat) off om (λ buf _, decode_osd_weights buf) (enc_words l) tt
    (set_osd_arrays om (om_osd_state om) l (om_osd_addr om)).
Proof.
  intros Hlen Hl. unfold decode_osd_weights. eapply runs_bind_nil; [apply runs_get|].
  rewrite (max_length l Hlen). destruct Hom as [[_ _ Hw _ _] _].
  eapply runs_init; [eapply runs_eq; [apply (runs_for 0 ceph_encode_32
    (λ done _, set_osd_arrays om (om_osd_state om) (done ++ drop (length done) (om_osd_weight om)) (om_osd_addr om))
    (λ buf _ i, v ← ceph_decode_32 buf;
        map ← dget; w ← dlift (aset (om_osd_weight map) i v); put_weights w) l)|done|]|].
  - intros done w rest off' ->. apply Forall_app in Hl as [_ [Hw' _]%Forall_cons].
    rewrite length_app in Hlen. simpl in Hlen.
    eapply runs_bind_ret; [by apply runs_parses, parses_32|].
    eapply runs_bind_nil; [apply runs_get|].
    eapply runs_bind_nil; [apply runs_lift, aset_Some; cbn; rewrite length_app, length_drop; lia|].
    eapply runs_eq; [apply runs_modify|done|]. cbn. rewrite Nat2Z.id, overwrite_next by lia. done.
  - by rewrite drop_ge, app_nil_r by lia.
  - by destruct om.
Qed.

(** In a fresh map the addresses are zero where none is sent. *)
Definition received (msgr2 vec : bool) (l : list ceph_entity_addr) : ceph_entity_addr :=
  default zero_addr (chosen_addr msgr2 vec l).

Lemma runs_osd_addrs off msgr2 struct_v l :
  om_osd_addr om = replicate (Z.to_nat (om_max_osd om)) zero_addr →
  Z.of_nat (length l) = om_max_osd om → Forall (wire_addrs msgr2 (struct_v >=? 8)) l →
  runs (Some 0%nat) off om (λ buf e, decode_osd_addrs buf msgr2 e struct_v)
    (concat (map (enc_addrs (struct_v >=? 8)) l)) tt
    (set_osd_arrays om (om_osd_state om) (om_osd_weight om)
       (map (received msgr2 (struct_v >=? 8)) l)).
Proof.
  intros Hzero Hlen Hl. unfold decode_osd_addrs. eapply runs_bind_nil; [apply runs_get|].
  set (vec := struct_v >=? 8) in *. rewrite (max_length l Hlen) in *. set (n := length l) in *.
  eapply runs_init; [eapply runs_eq; [apply (runs_for 0 (enc_addrs vec)
    (λ done _, set_osd_arrays om (om_osd_state om) (om_osd_weight om)
       (map (received msgr2 vec) done ++ drop (length (map (received msgr2 vec) done)) (replicate n zero_addr)))
    (λ buf e i, map ← dget; old ← dlift (aget (om_osd_addr map) i);
       a ← decode_addr buf msgr2 e vec; put_addr i (default old a)) l)|done|]|].
  - intros done al rest off' Hdone. rewrite Hdone in Hl. apply Forall_app in Hl as [_ [Ha _]%Forall_cons].
    assert (Hlt : (length done < n)%nat) by (unfold n; rewrite Hdone, length_app; simpl; lia).
    set (st := set_osd_arrays om _ _ _).
    assert (Hst : om_osd_addr st = map (received msgr2 vec) done
      ++ drop (length (map (received msgr2 vec) done)) (replicate n zero_addr)) by done.
    assert (Hlen' : (length (om_osd_addr st) = n)%nat).
    { rewrite Hst, length_app, length_drop, length_replicate, length_map. lia. }
    rewrite length_map in Hst.
    eapply runs_bind_nil; [apply runs_get|].
    eapply runs_bind_nil; [apply runs_lift, (aget_Some _ _ zero_addr); [lia|]|].
    { rewrite Hst, Nat2Z.id, lookup_app_r, length_map, Nat.sub_diag by (rewrite length_map; lia).
      rewrite lookup_drop, Nat.add_0_r. by apply lookup_replicate_2. }
    eapply runs_bind_ret; [by apply runs_addr|]. cbv beta. unfold put_addr.
    eapply runs_bind_nil; [apply runs_get|].
    eapply runs_bind_nil; [apply runs_lift, aset_Some; lia|].
    eapply runs_eq; [apply runs_modify|done|]. unfold st, set_osd_arrays. cbn. f_equal.
    rewrite Nat2Z.id, map_app. rewrite <- (length_map (received msgr2 vec) done) at 1.
    rewrite overwrite_next by (rewrite length_map, length_replicate; lia). done.
  - rewrite drop_ge, app_nil_r by (rewrite length_map, length_replicate; unfold n; lia). done.
  - cbn. rewrite drop_0, <- Hzero. by destruct om.
Qed.
End arrays.

(** ** The arrays of a full map, with their lengths *)

Definition enc_osd_arrays (struct_v : Z) (states weights : list Z) (addrs : list (list ceph_entity_addr))
    : list Z :=
  let max := ceph_encode_32 (Z.of_nat (length states)) in
  max ++ concat (map (enc_osd_state struct_v) states) ++ max ++ enc_words weights
  ++ max ++ concat (map (enc_addrs (struct_v >=? 8)) addrs).

Lemma length_enc_osd_states struct_v l :
  Z.of_nat (length (concat (map (enc_osd_state struct_v) l)))
    = Z.of_nat (length l) * if struct_v >=? 5 then 4 else 1.
Proof.
  induction l as [|st l IH]; [done|]. cbn [map concat length]. rewrite length_app, Nat2Z.inj_add, IH.
  unfold enc_osd_state at 1. destruct (struct_v >=? 5); simpl length; lia.
Qed.

Lemma runs_decode_len y off (om : ceph_osdmap) n :
  om_max_osd om = Z.of_nat n → om_max_osd om < 2 ^ 31 →
  runs y off om (λ buf _, decode_len buf) (ceph_encode_32 (Z.of_nat n)) tt om.
Proof.
  intros Hn Hlt. unfold decode_len. eapply runs_bind_ret; [apply runs_parses, parses_32; lia|].
  eapply runs_bind_nil; [apply runs_get|]. rewrite Hn, Z.eqb_refl. apply runs_ret.
Qed.

Lemma wf_max_set_arrays om st w ad :
  wf_max om → length st = length (om_osd_state om) → length w = length (om_osd_weight om) →
  length ad = length (om_osd_addr om) → wf_max (set_osd_arrays om st w ad).
Proof. intros [[? ? ? ? ?] ?] Hs Hw Ha. split; [|done]. split; simpl; congruence || done. Qed.

(** The check in front asks for four bytes more than an empty map has here. *)
Lemma runs_osd_arrays off om msgr2 struct_v states weights addrs :
  wf_max om → om_max_osd om = Z.of_nat (length states) →
  length weights = length states → length addrs = length states →
  om_osd_addr om = replicate (length states) zero_addr →
  Forall (wire_osd_state struct_v) states → Forall word weights →
  Forall (wire_addrs msgr2 (struct_v >=? 8)) addrs →
  runs (Some 4%nat) off om (λ buf e, decode_osd_arrays buf msgr2 e struct_v)
    (enc_osd_arrays struct_v states weights addrs) tt
    (set_osd_arrays om states weights (map (received msgr2 (struct_v >=? 8)) addrs)).
Proof.
  intros Hom Hmax Hw Ha Hzero Hst Hwt Had. pose proof (proj2 Hom) as Hlt.
  destruct (Hom) as [[_ Hls Hlw Hla _] _].
  unfold decode_osd_arrays, enc_osd_arrays. cbv zeta. eapply runs_bind_nil; [apply runs_get|].
  apply runs_need.
  { rewrite !length_app, !Nat2Z.inj_add, length_enc_osd_states, length_enc_words, Hmax. simpl length.
    cbn [from_option]. unfold id. destruct (struct_v >=? 5); lia. }
  eapply runs_bind; [by apply runs_decode_len|].
  eapply runs_bind; [by apply runs_osd_states|]. set (om1 := with_states _ om).
  assert (Hom1 : wf_max om1) by (apply wf_max_set_arrays; done || lia).
  eapply runs_bind; [by apply runs_decode_len|].
  eapply runs_bind; [apply (runs_osd_weights om1 Hom1); [simpl; lia|done]|].
  set (om2 := set_osd_arrays om1 _ _ _).
  assert (Hom2 : wf_max om2) by (apply wf_max_set_arrays; done || (simpl; lia)).
  eapply runs_bind; [by apply runs_decode_len|].
  eapply runs_eq; [apply runs_any, (runs_osd_addrs om2 Hom2)|done|done]; [| |done].
  - change (om_osd_addr om = replicate (Z.to_nat (om_max_osd om)) zero_addr). by rewrite Hmax, Nat2Z.id.
  - change (Z.of_nat (length addrs) = om_max_osd om). lia.
Qed.

(** ** The CRUSH map of a message *)

Lemma runs_set_max_osd ok mem amem y off om max :
  (∀ site p n, ok site p n = true) → wf_arrays om → 0 <= max →
  runs y off om (λ _ _, decode_set_max_osd ok mem amem max) [] tt (resized max om).
Proof.
  intros Hok Hom Hmax pre post e _ _. unfold decode_set_max_osd, dcall. rewrite !Hok, set_max_osd_ok by done.
  cbn [mbind outcome_bind]. rewrite Z.eqb_refl. do 2 f_equal. simpl. lia.
Qed.

Lemma runs_decode_crush ok wmem h y off om t c :
  (∀ site p n, ok site p n = true) → live om →
  wire_tail_ok t → wire_map t c → crush_finalize c = Ret c →
  runs y off om (λ buf e, decode_crush buf ok wmem h e (Z.of_nat (length (enc_map t c)))) (enc_map t c)
    tt (with_crush h c om).
Proof.
  intros Hok Hom Ht Hm Hfin pre post e Hpre He. unfold decode_crush.
  rewrite (D_bind_eq dpos _ om off off om off) by done.
  rewrite Z.min_l by (destruct y; lia).
  pose proof (crush_decode_enc_map ok t c pre post Hok Ht Hm Hfin) as Hdec.
  rewrite length_app, Nat2Z.inj_add in Hdec. subst off.
  rewrite (D_bind_eq _ _ om _ (inl c) om (Z.of_nat (length pre))) by (unfold dlift; by rewrite Hdec).
  destruct (set_crush_ok wmem h om c Hom Hfin) as [work Hset].
  rewrite (D_bind_eq _ _ om _ tt (with_crush h c om) (Z.of_nat (length pre))); [done|].
  unfold decode_set_crush, dcall. by rewrite Hok, Hset.
Qed.

(** The CRUSH maps decoded are fit to be replaced. *)
Lemma live_with_crush h t c om : wf_max om → wire_map t c → live (with_crush h c om).
Proof.
  intros [Hom Hmax] Hc. split; [by destruct Hom|]. intros c' [= <-]. by eapply crush_destroy_ends.
Qed.

(** ** Tables of placement groups *)

Section tables.
Context (ok : alloc_site → Z → Z → bool).
Hypothesis Hok : ∀ site p n, ok site p n = true.
Implicit Types (off : Z) (om : ceph_osdmap).

Definition wire_table {V} (wire_v : option V → Prop) (l : list (ceph_pg * option V)) : Prop :=
  Z.of_nat (length l) < 2 ^ 32 ∧ Forall (λ kv, wire_pg kv.1 ∧ wire_v kv.2) l.
Definition enc_osd_table : list (ceph_pg * option (list Z)) → list Z := enc_list (enc_mapping enc_osds).
Definition enc_primary_table : list (ceph_pg * option Z) → list Z := enc_list (enc_mapping enc_primary).
Definition enc_items_table : list (ceph_pg * option (list (Z * Z))) → list Z :=
  enc_list (enc_mapping enc_items).
Definition enc_deleted : list ceph_pg → list Z := enc_list enc_pgid.

Lemma runs_table {V} (fn : list Z → Z → option (D (gmap ceph_pg V) (option V))) enc wire_v off t
    (l : list (ceph_pg * option V)) :
  (∀ v, wire_v v → wire_value fn enc v) → wire_table wire_v l →
  runs (Some 0%nat) off t (λ buf e, decode_pg_mapping buf e (fn buf e)) (enc_list (enc_mapping enc) l) tt
    (foldl upd_mapping t l).
Proof.
  intros Hv [Hlen Hl]. apply runs_mapping; [done|]. eapply Forall_impl; [exact Hl|].
  intros kv [? ?]. split; [done|]. by apply Hv.
Qed.

Lemma runs_pg_temp incremental off om l :
  wire_table (wire_osds incremental) l →
  runs (Some 0%nat) off om
    (λ buf e, in_pg_temp (decode_pg_mapping buf e (Some (decode_pg_temp_ buf e ok incremental))))
    (enc_osd_table l) tt (with_temps (foldl upd_mapping (om_pg_temp om) l) (om_primary_temp om) om).
Proof.
  intros Hl. refine (runs_zoom _ _ om _ om_pg_temp
    (λ t om, with_temps t (om_primary_temp om) om) (λ buf e, decode_pg_mapping buf e _) _ _ _).
  apply (runs_table (λ buf e, Some (decode_pg_temp_ buf e ok incremental)) _ _ _ _ _) with (2 := Hl).
  intros v Hv o. by apply (parses_osds ok Hok).
Qed.

Lemma runs_primary_temp incremental off om l :
  wire_table (wire_primary incremental) l →
  runs (Some 0%nat) off om
    (λ buf e, in_primary_temp (decode_pg_mapping buf e (Some (decode_primary_temp_ buf e ok incremental))))
    (enc_primary_table l) tt (with_temps (om_pg_temp om) (foldl upd_mapping (om_primary_temp om) l) om).
Proof.
  intros Hl. refine (runs_zoom _ _ om _ om_primary_temp
    (λ t om, with_temps (om_pg_temp om) t om) (λ buf e, decode_pg_mapping buf e _) _ _ _).
  apply (runs_table (λ buf e, Some (decode_primary_temp_ buf e ok incremental)) _ _ _ _ _) with (2 := Hl).
  intros v Hv o. by apply (parses_primary ok Hok).
Qed.

Lemma runs_pg_upmap off om l :
  wire_table (wire_osds false) l →
  runs (Some 0%nat) off om (λ buf e, decode_pg_upmap buf e ok) (enc_osd_table l) tt
    (with_upmaps (foldl upd_mapping (om_pg_upmap om) l) (om_pg_upmap_items om) om).
Proof.
  intros Hl. refine (runs_zoom _ _ om _ om_pg_upmap
    (λ t om, with_upmaps t (om_pg_upmap_items om) om) (λ buf e, decode_pg_mapping buf e _) _ _ _).
  apply (runs_table (λ buf e, Some (decode_pg_upmap_ buf e ok)) _ _ _ _ _) with (2 := Hl).
  intros v Hv o. by apply (parses_osds ok Hok).
Qed.

Lemma runs_pg_upmap_items off om l :
  wire_table wire_items l →
  runs (Some 0%nat) off om (λ buf e, decode_pg_upmap_items buf e ok) (enc_items_table l) tt
    (with_upmaps (om_pg_upmap om) (foldl upd_mapping (om_pg_upmap_items om) l) om).
Proof.
  intros Hl. refine (runs_zoom _ _ om _ om_pg_upmap_items
    (λ t om, with_upmaps (om_pg_upmap om) t om) (λ buf e, decode_pg_mapping buf e _) _ _ _).
  apply (runs_table (λ buf e, Some (decode_pg_upmap_items_ buf e ok)) _ _ _ _ _) with (2 := Hl).
  intros v Hv o. by apply (parses_items ok Hok).
Qed.

(** Entries that are only deleted: nothing follows the group. *)
Definition deletions {V} (l : list ceph_pg) : list (ceph_pg * option V) := map (λ pg, (pg, None)) l.

Lemma runs_deletions {V} off (t : gmap ceph_pg V) l :
  Z.of_nat (length l) < 2 ^ 32 → Forall wire_pg l →
  runs (Some 0%nat) off t (λ buf e, decode_pg_mapping buf e None) (enc_deleted l) tt
    (foldl upd_mapping t (deletions l)).
Proof.
  intros Hlen Hl. eapply runs_eq; [apply (runs_table (λ _ _, None) (λ _, []) (λ v, v = None))| |done].
  - intros v ->. intros o. apply parses_ret.
  - unfold deletions. split; [by rewrite length_map|]. rewrite Forall_map.
    eapply Forall_impl; [exact Hl|done].
  - unfold enc_deleted, enc_list, deletions. by rewrite length_map, map_map.
Qed.

Lemma runs_old_pg_upmap off om l :
  Z.of_nat (length l) < 2 ^ 32 → Forall wire_pg l →
  runs (Some 0%nat) off om (λ buf e, decode_old_pg_upmap buf e) (enc_deleted l) tt
    (with_upmaps (foldl upd_mapping (om_pg_upmap om) (deletions l)) (om_pg_upmap_items om) om).
Proof.
  intros Hlen Hl. refine (runs_zoom _ _ om _ om_pg_upmap
    (λ t om, with_upmaps t (om_pg_upmap_items om) om) (λ buf e, decode_pg_mapping buf e None) _ _ _).
  by apply runs_deletions.
Qed.
Lemma runs_old_pg_upmap_items off om l :
  Z.of_nat (length l) < 2 ^ 32 → Forall wire_pg l →
  runs (Some 0%nat) off om (λ buf e, decode_old_pg_upmap_items buf e) (enc_deleted l) tt
    (with_upmaps (om_pg_upmap om) (foldl upd_mapping (om_pg_upmap_items om) (deletions l)) om).
Proof.
  intros Hlen Hl. refine (runs_zoom _ _ om _ om_pg_upmap_items
    (λ t om, with_upmaps (om_pg_upmap om) t om) (λ buf e, decode_pg_mapping buf e None) _ _ _).
  by apply runs_deletions.
Qed.
End tables.
