(* ===== verification/OsdFullMap.v ===== *)
(** * Full OSD maps (libceph/osdmap.c, [osdmap_decode], [ceph_osdmap_decode])

    The message as data, its encoding, the map it describes, and that the decoder builds it. *)
From S2P Require Import Prelude Hash Crush Mapper Choose DoRule Workspace OsdMap Decode.
From S2P Require Import CrushDecode CrushWire OsdMapDecode OsdMapWire OsdUpdate OsdMessages.

(** ** The message *)

Record full_map := FullMap {
  fm_versions : versions;
  fm_fsid : list Z; fm_epoch : Z; fm_created : Z * Z; fm_modified : Z * Z;
  fm_pools : list (Z * pool_extra * ceph_pg_pool_info);
  fm_names : list (Z * list Z);
  fm_pool_max : Z; fm_flags : Z;
  fm_states : list Z; fm_weights : list Z; fm_addrs : list (list ceph_entity_addr);
  fm_pg_temp : list (ceph_pg * option (list Z));
  fm_primary_temp : list (ceph_pg * option Z);
  fm_affinity : list Z;
  fm_tail : wire_tail; fm_crush : crush_map;
  fm_profiles : profiles;
  fm_upmap : list (ceph_pg * option (list Z));
  fm_upmap_items : list (ceph_pg * option (list (Z * Z)));
  fm_rest : list Z }.

#[local] Abbreviation v m := (client_v (fm_versions m)).

Definition enc_header (m : full_map) : list Z :=
  fm_fsid m ++ ceph_encode_32 (fm_epoch m) ++ enc_timespec (fm_created m) ++ enc_timespec (fm_modified m).
Definition enc_crush (t : wire_tail) (c : crush_map) : list Z :=
  ceph_encode_32 (Z.of_nat (length (enc_map t c))) ++ enc_map t c.
Definition enc_upmaps (up : list (ceph_pg * option (list Z)))
    (items : list (ceph_pg * option (list (Z * Z)))) : list Z := enc_osd_table up ++ enc_items_table items.

Definition enc_full (m : full_map) : list Z :=
  enc_versions (fm_versions m) ++ enc_header m ++
  enc_list enc_pool_entry (fm_pools m) ++ enc_list enc_pool_name (fm_names m) ++
  ceph_encode_32 (fm_pool_max m) ++ ceph_encode_32 (fm_flags m) ++
  ceph_encode_32 (Z.of_nat (length (fm_states m))) ++
  enc_osd_arrays (v m) (fm_states m) (fm_weights m) (fm_addrs m) ++
  enc_osd_table (fm_pg_temp m) ++
  enc_when (v m >=? 1) (enc_primary_table (fm_primary_temp m)) ++
  enc_when (v m >=? 2) (enc_list ceph_encode_32 (fm_affinity m)) ++
  enc_crush (fm_tail m) (fm_crush m) ++
  enc_when (v m >=? 3) (enc_list enc_profile (fm_profiles m)) ++
  enc_when (v m >=? 4) (enc_upmaps (fm_upmap m) (fm_upmap_items m)) ++
  fm_rest m.

(** ** The map it describes *)

Definition affinity_of (l : list Z) : option (list Z) := match l with [] => None | _ => Some l end.

Definition map_of_full (msgr2 : bool) (h : handle) (m : full_map) : ceph_osdmap :=
  CephOsdmap (fm_fsid m) (fm_epoch m) (fm_created m) (fm_modified m) (fm_flags m)
    (Z.of_nat (length (fm_states m))) (fm_states m) (fm_weights m)
    (map (received msgr2 (v m >=? 8)) (fm_addrs m))
    (foldl upd_mapping ∅ (fm_pg_temp m)) (foldl upd_mapping ∅ (fm_primary_temp m))
    (foldl upd_mapping ∅ (fm_upmap m)) (foldl upd_mapping ∅ (fm_upmap_items m))
    (affinity_of (fm_affinity m))
    (foldl upd_name (foldl upd_pool ∅ (fm_pools m)) (fm_names m)) (fm_pool_max m)
    (Some (fm_crush m)) (add_initial_workspace init_workspace_manager h).

(** ** What the format can express *)

Record wire_full (msgr2 : bool) (m : full_map) : Prop := {
  wf_versions : wire_versions (fm_versions m);
  wf_header : blob 16 (fm_fsid m) ∧ word (fm_epoch m) ∧ wire_timespec (fm_created m)
    ∧ wire_timespec (fm_modified m);
  wf_pools : Z.of_nat (length (fm_pools m)) < 2 ^ 32 ∧ Forall wire_pool_entry (fm_pools m)
    ∧ NoDup (map (λ kx, kx.1.1) (fm_pools m));
  wf_names : Z.of_nat (length (fm_names m)) < 2 ^ 32 ∧ Forall wire_pool_name (fm_names m);
  wf_numbers : word (fm_pool_max m) ∧ word (fm_flags m);
  wf_lengths : Z.of_nat (length (fm_states m)) < 2 ^ 31 ∧ length (fm_weights m) = length (fm_states m)
    ∧ length (fm_addrs m) = length (fm_states m);
  wf_osds : Forall (wire_osd_state (v m)) (fm_states m) ∧ Forall word (fm_weights m)
    ∧ Forall (wire_addrs msgr2 (v m >=? 8)) (fm_addrs m);
  wf_temps : wire_table (wire_osds false) (fm_pg_temp m)
    ∧ wire_table (wire_primary false) (fm_primary_temp m)
    ∧ (v m < 1 → fm_primary_temp m = []);
  wf_affinities : (fm_affinity m = [] ∨ length (fm_affinity m) = length (fm_states m))
    ∧ Forall word (fm_affinity m) ∧ (v m < 2 → fm_affinity m = []);
  wf_crush : wire_tail_ok (fm_tail m) ∧ wire_map (fm_tail m) (fm_crush m)
    ∧ crush_finalize (fm_crush m) = Ret (fm_crush m)
    ∧ Z.of_nat (length (enc_map (fm_tail m) (fm_crush m))) < 2 ^ 32;
  wf_profiles : wire_profiles (fm_profiles m);
  wf_upmaps : wire_table (wire_osds false) (fm_upmap m) ∧ wire_table wire_items (fm_upmap_items m)
    ∧ (v m < 4 → fm_upmap m = [] ∧ fm_upmap_items m = []) }.

(** ** The decoder *)

Lemma runs_seek_end {S} off (s : S) bs : runs None off s (λ _ e, dseek e) bs tt s.
Proof. intros pre post e _ He. unfold dseek. by rewrite He. Qed.

Lemma runs_word {S} y off (s : S) (f : Z → S → S) x :
  word x → runs y off s (λ buf e, x ← ceph_decode_32_safe buf e (- EINVAL); dmodify (f x)) (ceph_encode_32 x) tt (f x s).
Proof.
  intros Hx. eapply runs_bind_ret; [by apply runs_parses, parses_32_safe|]. apply runs_modify.
Qed.

Lemma runs_full_header off om m :
  blob 16 (fm_fsid m) → word (fm_epoch m) → wire_timespec (fm_created m) → wire_timespec (fm_modified m) →
  runs (Some 0%nat) off om (λ buf e, decode_full_header buf e) (enc_header m) tt
    (with_header (fm_fsid m) (fm_epoch m) (fm_created m) (fm_modified m) om).
Proof.
  intros Hf He Hc Hm. unfold blob in Hf. unfold decode_full_header, enc_header.
  apply runs_need; [rewrite !length_app, Hf; done|].
  eapply runs_bind; [apply runs_parses, parses_copy; lia|].
  eapply runs_bind; [by apply runs_parses, parses_32|].
  eapply runs_bind; [by apply runs_parses, parses_timespec|].
  eapply runs_bind_ret; [by apply runs_parses, parses_timespec|]. apply runs_modify.
Qed.

Section full.
Context (ok : alloc_site → Z → Z → bool).
Hypothesis Hok : ∀ site p n, ok site p n = true.
Context (msgr2 : bool) (mem : nat → Z) (amem : nat → ceph_entity_addr) (wmem : Z → Z) (h : handle).

(** The array of affinities as it fills up; before the first one there is none. *)
Definition filling (om : ceph_osdmap) (done : list Z) : ceph_osdmap :=
  match done with
  | [] => om
  | _ => set_affinity om (Some (done ++ drop (length done)
           (replicate (Z.to_nat (om_max_osd om)) CEPH_OSD_DEFAULT_PRIMARY_AFFINITY)))
  end.

Lemma filling_ok om done :
  om_osd_primary_affinity om = None → wf_max om → Z.of_nat (length done) <= om_max_osd om →
  wf_max (filling om done) ∧ om_max_osd (filling om done) = om_max_osd om
  ∧ default (replicate (Z.to_nat (om_max_osd om)) CEPH_OSD_DEFAULT_PRIMARY_AFFINITY)
      (om_osd_primary_affinity (filling om done))
    = done ++ drop (length done) (replicate (Z.to_nat (om_max_osd om)) CEPH_OSD_DEFAULT_PRIMARY_AFFINITY).
Proof.
  intros Hnone [[? ? ? ? ?] ?] Hlen. destruct done as [|a done].
  { split; [done|]. split; [done|]. simpl. by rewrite Hnone. }
  split; [|done]. split; [|done]. split; try done. intros l [= <-]. change (om_max_osd (filling om (a :: done))) with (om_max_osd om).
  simpl length in *. rewrite length_app, length_drop, length_replicate. lia.
Qed.

Lemma runs_affinity off om l :
  om_osd_primary_affinity om = None → wf_max om →
  (l = [] ∨ Z.of_nat (length l) = om_max_osd om) → Forall word l →
  runs (Some 0%nat) off om (λ buf e, decode_primary_affinity buf e ok) (enc_list ceph_encode_32 l) tt
    (set_affinity om (affinity_of l)).
Proof.
  intros Hnone Hom Hlen Hl. pose proof (proj2 Hom) as Hmax. unfold decode_primary_affinity, enc_list.
  pose proof (wa_max _ (proj1 Hom)) as Hmax0.
  eapply runs_bind; [apply runs_parses, parses_32_safe; destruct Hlen as [->|]; simpl; lia|].
  eapply runs_bind_nil; [apply runs_get|].
  destruct l as [|a l']; [by apply runs_put|]. set (l := a :: l') in *.
  destruct Hlen as [|Hlen]; [done|].
  rewrite (proj2 (Z.eqb_neq _ 0)) by (simpl; lia). rewrite Hlen, Z.eqb_refl. cbn [negb].
  change (concat (map ceph_encode_32 l)) with (enc_words l). apply runs_need; [rewrite Nat2Z.inj_add, length_enc_words; lia|].
  replace (Z.to_nat (om_max_osd om)) with (length l) by lia.
  eapply runs_eq; [apply (runs_for 0 ceph_encode_32 (λ done _, filling om done)
    (λ buf e i, aff ← ceph_decode_32 buf; set_affinity_at ok i aff) l)|done|].
  - intros done w rest off' Hdone. rewrite Hdone in Hl, Hlen. apply Forall_app in Hl as [_ [Hw _]%Forall_cons].
    rewrite length_app in Hlen. simpl in Hlen.
    destruct (filling_ok om done Hnone Hom ltac:(lia)) as (Hom' & Hmax' & Haff).
    eapply runs_bind_ret; [by apply runs_parses, parses_32|].
    eapply runs_eq; [apply (runs_set_affinity ok Hok); [done|]|done|].
    { unfold osd_of. lia. }
    unfold set_one_affinity. cbn [fst snd]. rewrite Hmax', Haff, Nat2Z.id, overwrite_next
      by (rewrite length_replicate; lia).
    destruct done; [done|]. unfold filling. destruct om; done.
  - unfold filling, l. rewrite drop_ge, app_nil_r by (rewrite length_replicate; unfold l in Hlen; lia). done.
Qed.

(** The map [ceph_osdmap_alloc] gives. *)
Definition fresh_map : ceph_osdmap :=
  CephOsdmap (replicate 16 0) 0 (0, 0) (0, 0) 0 0 [] [] [] ∅ ∅ ∅ ∅ None ∅ (u32 (-1)) None
    init_workspace_manager.

Lemma wf_fresh : wf_arrays fresh_map.
Proof. by constructor. Qed.

Lemma resize_nil {A} n (x : A) : resize n x [] = replicate n x.
Proof. by rewrite resize_nil. Qed.

Lemma ver_false k x : (x >=? k) = false → x < k.
Proof. rewrite Z.geb_leb. apply Z.leb_gt. Qed.

(** What only depends on the arrays. *)
Lemma wf_max_same om om' :
  wf_max om → om_max_osd om' = om_max_osd om → om_osd_state om' = om_osd_state om →
  om_osd_weight om' = om_osd_weight om → om_osd_addr om' = om_osd_addr om →
  om_osd_primary_affinity om' = om_osd_primary_affinity om → wf_max om'.
Proof. intros [[] ?] E1 E2 E3 E4 E5. split; [split|]; rewrite ?E1, ?E2, ?E3, ?E4, ?E5; done. Qed.

Lemma wf_max_affinity_of om l :
  wf_max om → (l = [] ∨ Z.of_nat (length l) = om_max_osd om) → wf_max (set_affinity om (affinity_of l)).
Proof.
  intros [[] ?] Hl. split; [split|]; try done. intros a. destruct l; [done|]. intros [= <-].
  by destruct Hl.
Qed.

(** What becomes of the temporary mappings and the affinities. *)
Definition with_full_temps (m : full_map) (om : ceph_osdmap) : ceph_osdmap :=
  set_affinity (with_temps (foldl upd_mapping (om_pg_temp om) (fm_pg_temp m))
    (foldl upd_mapping (om_primary_temp om) (fm_primary_temp m)) om) (affinity_of (fm_affinity m)).

Lemma fm_affinity_length m :
  wire_full msgr2 m →
  fm_affinity m = [] ∨ Z.of_nat (length (fm_affinity m)) = Z.of_nat (length (fm_states m)).
Proof. intros H. destruct (wf_affinities _ _ H) as [[?|?] _]; [by left|right; lia]. Qed.

Lemma runs_temps off m om :
  wire_full msgr2 m → wf_max om → om_max_osd om = Z.of_nat (length (fm_states m)) →
  om_osd_primary_affinity om = None →
  runs (Some 0%nat) off om (λ buf e, decode_temps buf ok e (v m))
    (enc_osd_table (fm_pg_temp m) ++
     enc_when (v m >=? 1) (enc_primary_table (fm_primary_temp m)) ++
     enc_when (v m >=? 2) (enc_list ceph_encode_32 (fm_affinity m))) tt
    (with_full_temps m om).
Proof.
  intros Hm Hom Hmax Hnone. destruct (wf_temps _ _ Hm) as (Htemp & Hprim & Hprim0).
  destruct (wf_affinities _ _ Hm) as (_ & Haffw & Haff0).
  eapply runs_bind; [by apply (runs_pg_temp ok Hok false)|].
  eapply (runs_bind _ _ _ (with_temps (foldl upd_mapping (om_pg_temp om) (fm_pg_temp m))
    (foldl upd_mapping (om_primary_temp om) (fm_primary_temp m)) om)).
  - apply runs_when. destruct (v m >=? 1) eqn:E;
      [by eapply runs_eq; [apply (runs_primary_temp ok Hok false)|..]|].
    rewrite (Hprim0 (ver_false _ _ E)). done.
  - apply runs_when. destruct (v m >=? 2) eqn:E.
    + apply runs_affinity; [done|by apply (wf_max_same om)| |done].
      cbn. rewrite Hmax. by apply fm_affinity_length.
    + unfold with_full_temps. rewrite (Haff0 (ver_false _ _ E)). by destruct om; simpl in *; subst.
Qed.

Lemma runs_upmaps off m om :
  wire_full msgr2 m →
  runs (Some 0%nat) off om
    (λ buf e, dwhen (v m >=? 4) (_ ← decode_pg_upmap buf e ok; decode_pg_upmap_items buf e ok))
    (enc_when (v m >=? 4) (enc_upmaps (fm_upmap m) (fm_upmap_items m))) tt
    (with_upmaps (foldl upd_mapping (om_pg_upmap om) (fm_upmap m))
       (foldl upd_mapping (om_pg_upmap_items om) (fm_upmap_items m)) om).
Proof.
  intros Hm. destruct (wf_upmaps _ _ Hm) as (Hup & Hit & Hup0).
  apply runs_when. destruct (v m >=? 4) eqn:E.
  - eapply runs_bind; [by apply (runs_pg_upmap ok Hok)|]. by eapply runs_eq; [apply (runs_pg_upmap_items ok Hok)|..].
  - destruct (Hup0 (ver_false _ _ E)) as [-> ->]. by destruct om.
Qed.

Lemma runs_full off m :
  wire_full msgr2 m →
  runs None off fresh_map (λ buf e, osdmap_decode buf msgr2 ok mem amem wmem h e) (enc_full m) tt
    (map_of_full msgr2 h m).
Proof.
  intros Hm. destruct (Hm) as [Hv (Hf & Hep & Hcr & Hmod) (Hpl & Hpe & Hpn) [Hnl Hne] [Hpm Hfl]
    (Hmax & Hw & Ha) (Hst & Hwt & Had) _ _ (Htail & Hmap & Hfin & Hclen) Hprof _].
  unfold osdmap_decode, enc_full.
  eapply runs_bind; [by apply runs_parses, parses_versions|].
  eapply runs_bind; [by apply runs_full_header|].
  eapply runs_bind; [by apply (runs_pools ok Hok false)|].
  eapply runs_bind; [by apply (runs_pool_names ok Hok)|].
  eapply runs_bind; [by apply runs_parses, parses_32_safe|]. eapply runs_bind_nil; [apply runs_modify|].
  eapply runs_bind; [by apply runs_parses, parses_32_safe|]. eapply runs_bind_nil; [apply runs_modify|].
  eapply runs_bind; [apply runs_parses, parses_32_safe; lia|].
  eapply runs_bind_nil; [apply (runs_set_max_osd ok); [done|by constructor|lia]|].
  set (om1 := resized _ _).
  assert (Hom1 : wf_max om1) by (apply wf_resized; [by constructor|lia]).
  eapply (runs_bind_room _ 4%nat); [|apply runs_osd_arrays; try done|].
  { rewrite length_app. unfold enc_osd_table, enc_list. rewrite length_app. simpl length. lia. }
  { subst om1. cbn. by rewrite Nat2Z.id, resize_nil. }
  set (om2 := set_osd_arrays _ _ _ _).
  assert (Hom2 : wf_max om2) by (apply wf_max_set_arrays; [done|..]; subst om1; cbn;
    rewrite ?length_resize, ?length_map; lia).
  rewrite (assoc_L (++)), (assoc_L (++) (_ ++ _)), <- (assoc_L (++) (enc_osd_table _)).
  eapply runs_bind; [by apply runs_temps|].
  unfold enc_crush. rewrite <- (assoc_L (++)).
  eapply runs_bind; [apply runs_parses, parses_32_safe; lia|].
  eapply runs_bind; [apply (runs_decode_crush ok); try done|].
  { split; [|done]. apply wf_max_affinity_of; [by apply (wf_max_same om2)|by apply fm_affinity_length]. }
  eapply runs_bind; [apply runs_when; destruct (v m >=? 3);
    [by apply runs_parses, parses_profiles|done]|].
  eapply runs_bind; [by apply runs_upmaps|].
  eapply runs_eq; [apply runs_seek_end|done|]. reflexivity.
Qed.

Lemma full_live m : wire_full msgr2 m → live (map_of_full msgr2 h m).
Proof.
  intros Hm. destruct (wf_lengths _ _ Hm) as (Hmax & Hw & Ha).
  destruct (wf_crush _ _ Hm) as (_ & Hmap & _ & _). split.
  - split; [|done]. split; simpl; rewrite ?length_map; try lia. intros a Haff.
    destruct (fm_affinity_length _ Hm) as [E|E]; [by rewrite E in Haff|].
    destruct (fm_affinity m); [done|]. by injection Haff as <-.
  - intros c [= <-]. by eapply crush_destroy_ends.
Qed.

Lemma decode_full_map pre m post :
  wire_full msgr2 m →
  ceph_osdmap_decode (pre ++ enc_full m ++ post) msgr2 ok mem amem wmem h
      (Z.of_nat (length pre)) (Z.of_nat (length (pre ++ enc_full m)))
    = Ret (inl (map_of_full msgr2 h m), Z.of_nat (length (pre ++ enc_full m))).
Proof.
  intros Hm. unfold ceph_osdmap_decode. rewrite Hok. cbn [ceph_osdmap_alloc]. fold fresh_map.
  rewrite (runs_full _ m Hm pre post) by (rewrite ?length_app; lia). cbn [mbind outcome_bind].
  by rewrite length_app, Nat2Z.inj_add.
Qed.
End full.


(** One pool of a newer version, one of an older one, two OSDs, one of them without an address. *)
Definition ex_new_extra : pool_extra :=
  PoolExtra 29 5 (replicate 24 1) [(replicate 10 2, [115])] [(1, 2)] (replicate 8 0) (replicate 4 0)
    (replicate 16 0) [7] (replicate 9 0) [([97], [98])] (replicate 2 1) [5] (replicate 8 0)
    (replicate 4 0) (replicate 32 0) [] 9 (replicate 4 0) (replicate 8 0) (replicate 4 0)
    (replicate 4 0) [0] [1] (replicate 8 0) (replicate 2 1) [] [1; 2; 3].
Definition ex_old_extra : pool_extra :=
  PoolExtra 5 5 (replicate 24 1) [] [] (replicate 8 0) (replicate 4 0)
    (replicate 16 0) [7] (replicate 9 0) [] (replicate 2 1) [5] (replicate 8 0)
    (replicate 4 0) (replicate 32 0) [] 9 (replicate 4 0) (replicate 8 0) (replicate 4 0)
    (replicate 4 0) [0] [1] (replicate 8 0) (replicate 2 1) [] [].
Definition ex_new_pool : ceph_pg_pool_info :=
  CephPgPoolInfo 3 1 3 2 0 2 17 12 8 15 7 (-1) 4 1 None false.
Definition ex_old_pool : ceph_pg_pool_info :=
  CephPgPoolInfo 4 3 3 2 0 2 0 8 8 7 7 (-1) (-1) 1 None false.

Definition ex_full : full_map :=
  FullMap (Versions 8 7 9 1 [0; 0; 0; 0] [0; 0; 0; 0]) (replicate 16 7) 40 (1, 2) (3, 4)
    [(3, ex_new_extra, ex_new_pool); (4, ex_old_extra, ex_old_pool)] [(3, [114; 98; 100]); (9, [120])]
    4 0x10 [3; 1] [0x10000; 0] [[ex_addr]; []]
    [(CephPg 3 1, Some [1; 0])] [(CephPg 3 2, Some 1)] [0x10000; 0x8000]
    ex_tail ex_wire_map [([100], [([107], [50])])] [(CephPg 3 3, Some [0])]
    [(CephPg 3 4, Some [(1, 0)])] [9; 9].

Lemma ex_extra_ok : wire_extra ex_new_extra ∧ wire_extra ex_old_extra.
Proof. split; constructor; words. Qed.

Lemma ex_pools_ok : wire_pool ex_new_extra ex_new_pool ∧ wire_pool ex_old_extra ex_old_pool.
Proof.
  split; (constructor; [apply ex_extra_ok|..]; intros; words); simpl in *; lia.
Qed.

Lemma ex_full_ok : wire_full true ex_full.
Proof.
  constructor; try (words; fail).
  - split; [done|]. split; [|by apply (bool_decide_eq_true_1 _)].
    destruct ex_pools_ok as [H1 H2].
    apply Forall_cons; split; [by split|]. apply Forall_cons; split; [by split|]. apply Forall_nil_2.
  - split; [words|]. split; [words|]. apply Forall_cons; split; [|apply Forall_cons; split; [|done]].
    + split; [by apply Forall_singleton, ex_addr_ok|]. split; [done|]. by right.
    + split; [done|]. split; [done|]. by left.
  - split; [by right|]. words.
  - split; [exact ex_tail_ok|]. split; [exact ex_wire_map_ok|]. by split.
Qed.

