(* ===== verification/OsdIncremental.v ===== *)
(** * Incremental OSD maps (libceph/osdmap.c, [osdmap_apply_incremental])

    The message as data, its encoding, what it does to a map, and that applying it does that. *)
From S2P Require Import Prelude Hash Crush Mapper Choose DoRule Workspace OsdMap Decode.
From S2P Require Import CrushDecode CrushWire OsdMapDecode OsdMapWire OsdUpdate OsdMessages OsdFullMap.

(** ** The message *)

Record inc_header := IncHeader {
  ih_versions : versions; ih_fsid : list Z; ih_epoch : Z; ih_modified : Z * Z;
  ih_new_pool_max : Z; ih_new_flags : Z }.

Record inc_changes := IncChanges {
  ic_crush : option (wire_tail * crush_map);
  ic_max : Z;
  ic_pools : list (Z * pool_extra * ceph_pg_pool_info);
  ic_names : list (Z * list Z);
  ic_old_pools : list Z;
  ic_osds : osd_lists;
  ic_pg_temp : list (ceph_pg * option (list Z));
  ic_primary_temp : list (ceph_pg * option Z);
  ic_affinity : list (Z * Z);
  ic_profiles : profiles; ic_old_profiles : list (list Z);
  ic_upmap : list (ceph_pg * option (list Z)); ic_old_upmap : list ceph_pg;
  ic_items : list (ceph_pg * option (list (Z * Z))); ic_old_items : list ceph_pg;
  ic_rest : list Z }.

#[local] Abbreviation v h := (client_v (ih_versions h)).

Definition enc_inc_header (h : inc_header) : list Z :=
  enc_versions (ih_versions h) ++ ih_fsid h ++ ceph_encode_32 (ih_epoch h)
  ++ enc_timespec (ih_modified h) ++ ceph_encode_64 (u64 (ih_new_pool_max h)) ++ enc_int (ih_new_flags h).

Definition enc_new_crush (c : option (wire_tail * crush_map)) : list Z :=
  match c with None => ceph_encode_32 0 | Some (t, c) => enc_crush t c end.
Definition enc_pool_changes (c : inc_changes) : list Z :=
  enc_list enc_pool_entry (ic_pools c) ++ enc_list enc_pool_name (ic_names c)
  ++ enc_list (λ k, ceph_encode_64 (u64 k)) (ic_old_pools c).
Definition enc_new_temps (struct_v : Z) (c : inc_changes) : list Z :=
  enc_osd_table (ic_pg_temp c)
  ++ enc_when (struct_v >=? 1) (enc_primary_table (ic_primary_temp c))
  ++ enc_when (struct_v >=? 2) (enc_list enc_affinity (ic_affinity c)).
Definition enc_profile_changes (c : inc_changes) : list Z :=
  enc_list enc_profile (ic_profiles c) ++ enc_list enc_string (ic_old_profiles c).
Definition enc_upmap_changes (c : inc_changes) : list Z :=
  enc_osd_table (ic_upmap c) ++ enc_deleted (ic_old_upmap c)
  ++ enc_items_table (ic_items c) ++ enc_deleted (ic_old_items c).

Definition enc_changes (struct_v : Z) (c : inc_changes) : list Z :=
  enc_new_crush (ic_crush c) ++ enc_int (ic_max c) ++ enc_pool_changes c
  ++ enc_osd_lists struct_v (ic_osds c) ++ enc_new_temps struct_v c
  ++ enc_when (struct_v >=? 3) (enc_profile_changes c)
  ++ enc_when (struct_v >=? 4) (enc_upmap_changes c) ++ ic_rest c.

(** A full map replaces the changes. *)
Inductive inc_payload :=
  | Changes (c : inc_changes)
  | Full (m : full_map) (rest : list Z).
Definition enc_payload (struct_v : Z) (pl : inc_payload) : list Z :=
  match pl with
  | Changes c => ceph_encode_32 0 ++ enc_changes struct_v c
  | Full m rest => ceph_encode_32 (Z.of_nat (length (enc_full m))) ++ enc_full m ++ rest
  end.

(** ** What it does *)

Definition apply_crush (h : handle) (c : option (wire_tail * crush_map)) (om : ceph_osdmap) :=
  match c with None => om | Some (_, c) => with_crush h c om end.
Definition apply_numbers (hd : inc_header) (max : Z) (om : ceph_osdmap) : ceph_osdmap :=
  let om := if ih_new_flags hd >=? 0 then with_flags (ih_new_flags hd) om else om in
  let om := if ih_new_pool_max hd >=? 0 then with_pool_max (u32 (ih_new_pool_max hd)) om else om in
  let om := if max >=? 0 then resized max om else om in
  with_header (om_fsid om) (u32 (om_epoch om + 1)) (om_created om) (ih_modified hd) om.
Definition apply_pools (c : inc_changes) (om : ceph_osdmap) : ceph_osdmap :=
  with_pools (foldl upd_old_pool (foldl upd_name (foldl upd_pool (om_pg_pools om) (ic_pools c))
    (ic_names c)) (ic_old_pools c)) om.
Definition apply_temps (c : inc_changes) (om : ceph_osdmap) : ceph_osdmap :=
  foldl set_one_affinity
    (with_temps (foldl upd_mapping (om_pg_temp om) (ic_pg_temp c))
       (foldl upd_mapping (om_primary_temp om) (ic_primary_temp c)) om) (ic_affinity c).
Definition apply_upmaps (c : inc_changes) (om : ceph_osdmap) : ceph_osdmap :=
  with_upmaps
    (foldl upd_mapping (foldl upd_mapping (om_pg_upmap om) (ic_upmap c)) (deletions (ic_old_upmap c)))
    (foldl upd_mapping (foldl upd_mapping (om_pg_upmap_items om) (ic_items c))
       (deletions (ic_old_items c))) om.

Definition sized (hd : inc_header) (c : inc_changes) (h : handle) (om : ceph_osdmap) : ceph_osdmap :=
  apply_pools c (apply_numbers hd (ic_max c) (apply_crush h (ic_crush c) om)).
Definition changed (msgr2 : bool) (junk : ceph_entity_addr) (h : handle) (hd : inc_header)
    (c : inc_changes) (om : ceph_osdmap) : ceph_osdmap :=
  apply_upmaps c (apply_temps c (apply_osd_lists msgr2 junk (v hd) (sized hd c h om) (ic_osds c))).

(** ** What the format can express *)

Record wire_inc_header (hd : inc_header) : Prop := {
  wih_versions : wire_versions (ih_versions hd);
  wih_fsid : blob 16 (ih_fsid hd) ∧ word (ih_epoch hd) ∧ wire_timespec (ih_modified hd);
  wih_numbers : int64 (ih_new_pool_max hd) ∧ int32 (ih_new_flags hd) }.

(** An OSD of the map as it is after the resizing. *)
Definition new_max (c : inc_changes) (om : ceph_osdmap) : Z :=
  if ic_max c >=? 0 then ic_max c else om_max_osd om.

Record wire_changes (msgr2 : bool) (struct_v : Z) (om : ceph_osdmap) (c : inc_changes) : Prop := {
  wc_crush : match ic_crush c with
    | None => True
    | Some (t, m) => wire_tail_ok t ∧ wire_map t m ∧ crush_finalize m = Ret m
        ∧ 0 < Z.of_nat (length (enc_map t m)) < 2 ^ 31
    end;
  wc_max : int32 (ic_max c);
  wc_pools : Z.of_nat (length (ic_pools c)) < 2 ^ 32 ∧ Forall wire_pool_entry (ic_pools c);
  wc_names : Z.of_nat (length (ic_names c)) < 2 ^ 32 ∧ Forall wire_pool_name (ic_names c);
  wc_old_pools : Z.of_nat (length (ic_old_pools c)) < 2 ^ 32 ∧ Forall int64 (ic_old_pools c);
  wc_osds : wire_osd_lists msgr2 struct_v (set_max_osd om (new_max c om)) (ic_osds c);
  wc_temps : wire_table (wire_osds true) (ic_pg_temp c)
    ∧ wire_table (wire_primary true) (ic_primary_temp c)
    ∧ (struct_v < 1 → ic_primary_temp c = []);
  wc_affinity : Z.of_nat (length (ic_affinity c)) < 2 ^ 32
    ∧ Forall (λ oa, 0 <= oa.1 < new_max c om ∧ word oa.2) (ic_affinity c)
    ∧ (struct_v < 2 → ic_affinity c = []);
  wc_profiles : wire_profiles (ic_profiles c)
    ∧ Z.of_nat (length (ic_old_profiles c)) < 2 ^ 32 ∧ Forall short (ic_old_profiles c);
  wc_upmaps : wire_table (wire_osds false) (ic_upmap c) ∧ wire_table wire_items (ic_items c)
    ∧ Z.of_nat (length (ic_old_upmap c)) < 2 ^ 32 ∧ Forall wire_pg (ic_old_upmap c)
    ∧ Z.of_nat (length (ic_old_items c)) < 2 ^ 32 ∧ Forall wire_pg (ic_old_items c)
    ∧ (struct_v < 4 → ic_upmap c = [] ∧ ic_old_upmap c = [] ∧ ic_items c = [] ∧ ic_old_items c = []) }.

(** ** The decoder, piece by piece *)

Section incremental.
Context (ok : alloc_site → Z → Z → bool).
Hypothesis Hok : ∀ site p n, ok site p n = true.
Context (msgr2 : bool) (mem : nat → Z) (amem : nat → ceph_entity_addr) (wmem : Z → Z)
  (junk : ceph_entity_addr) (h : handle).
Context (om : ceph_osdmap) (hd : inc_header) (c : inc_changes).
Hypothesis Hom : live om.
Hypothesis Hhd : wire_inc_header hd.
Hypothesis Hc : wire_changes msgr2 (v hd) om c.
Implicit Types (off : Z).

Lemma live_crushed : live (apply_crush h (ic_crush c) om).
Proof.
  pose proof (wc_crush _ _ _ _ Hc) as H. destruct (ic_crush c) as [[t m]|]; [|done].
  apply (live_with_crush h t); [apply Hom|apply H].
Qed.

Lemma runs_new_crush off :
  runs (Some 0%nat) off om (λ buf e, decode_new_crush buf ok wmem h e) (enc_new_crush (ic_crush c)) tt
    (apply_crush h (ic_crush c) om).
Proof.
  pose proof (wc_crush _ _ _ _ Hc) as H. unfold decode_new_crush.
  destruct (ic_crush c) as [[t m]|]; cbn [enc_new_crush apply_crush].
  - destruct H as (Ht & Hm & Hfin & Hlen). unfold enc_crush.
    eapply runs_bind; [apply runs_parses, parses_32_safe; lia|]. cbv beta.
    assert (s32 (Z.of_nat (length (enc_map t m))) = Z.of_nat (length (enc_map t m))) as ->.
    { unfold s32. rewrite Z.mod_small by lia. lia. }
    rewrite Z.gtb_ltb, (proj2 (Z.ltb_lt _ _)) by lia. cbn [dwhen].
    by apply (runs_decode_crush ok).
  - eapply runs_bind_ret; [by apply runs_parses, parses_32_safe|]. apply runs_ret.
Qed.

Lemma s32_flags : u32 (ih_new_flags hd) = ih_new_flags hd ∨ ih_new_flags hd < 0.
Proof.
  destruct (wih_numbers _ Hhd) as [_ Hf]. unfold int32 in Hf.
  destruct (decide (ih_new_flags hd < 0)); [by right|left]. unfold u32. apply Z.mod_small. lia.
Qed.

Lemma runs_apply_header off om0 :
  live om0 → om_max_osd om0 = om_max_osd om →
  runs (Some 0%nat) off om0
    (λ buf e, apply_header buf ok mem amem e (ih_modified hd) (ih_new_pool_max hd) (ih_new_flags hd))
    (enc_int (ic_max c)) tt (apply_numbers hd (ic_max c) om0).
Proof.
  intros [Hom0 _] Hmax. unfold apply_header, apply_numbers, enc_int.
  eapply runs_bind_nil.
  { instantiate (1 := if ih_new_flags hd >=? 0 then with_flags (ih_new_flags hd) om0 else om0).
    destruct (ih_new_flags hd >=? 0) eqn:E; [|apply runs_ret].
    destruct s32_flags as [Hu|Hn]; [|rewrite Z.geb_leb in E; apply Z.leb_le in E; lia].
    rewrite Hu. apply runs_modify. }
  set (om1 := if ih_new_flags hd >=? 0 then _ else _).
  assert (Hom1 : wf_max om1) by (subst om1; destruct (ih_new_flags hd >=? 0); [by apply (wf_max_same om0)|done]).
  eapply runs_bind_nil.
  { instantiate (1 := if ih_new_pool_max hd >=? 0 then with_pool_max (u32 (ih_new_pool_max hd)) om1 else om1).
    destruct (ih_new_pool_max hd >=? 0); [apply runs_modify|apply runs_ret]. }
  set (om2 := if ih_new_pool_max hd >=? 0 then _ else _).
  assert (Hom2 : wf_max om2) by (subst om2; destruct (ih_new_pool_max hd >=? 0); [by apply (wf_max_same om1)|done]).
  eapply runs_bind_ret; [apply runs_parses, parses_32_safe, word_of_u32|]. cbv beta.
  rewrite s32_of_u32 by apply (wc_max _ _ _ _ Hc).
  eapply (runs_bind_nil _ _ _ (if ic_max c >=? 0 then resized (ic_max c) om2 else om2));
    [|by eapply runs_eq; [apply runs_modify|..]].
  destruct (ic_max c >=? 0) eqn:E; [|apply runs_ret].
  rewrite Z.geb_leb in E. apply Z.leb_le in E.
  apply (runs_set_max_osd ok); [done|apply Hom2|done].
Qed.

Lemma runs_pool_changes off om0 :
  runs (Some 0%nat) off om0 (λ buf e, decode_pool_changes buf ok e) (enc_pool_changes c) tt (apply_pools c om0).
Proof.
  destruct (wc_pools _ _ _ _ Hc), (wc_names _ _ _ _ Hc), (wc_old_pools _ _ _ _ Hc).
  eapply runs_bind; [by apply (runs_pools ok Hok true)|].
  eapply runs_bind; [by apply (runs_pool_names ok Hok)|].
  eapply runs_eq; [by apply runs_old_pools|done|done].
Qed.

Lemma sized_max : wf_max (sized hd c h om) ∧ om_max_osd (sized hd c h om) = new_max c om.
Proof.
  pose proof live_crushed as [Hom1 _]. pose proof (wc_max _ _ _ _ Hc) as Hmax.
  assert (om_max_osd (apply_crush h (ic_crush c) om) = om_max_osd om) as Heq
    by (destruct (ic_crush c) as [[]|]; done).
  unfold sized, new_max. generalize dependent (apply_crush h (ic_crush c) om). intros om1 Hom1 Heq.
  unfold apply_numbers. cbv zeta.
  set (om2 := if ih_new_flags hd >=? 0 then _ else _).
  set (om3 := if ih_new_pool_max hd >=? 0 then _ else _).
  assert (Hom3 : wf_max om3 ∧ om_max_osd om3 = om_max_osd om).
  { subst om3 om2. destruct (ih_new_flags hd >=? 0), (ih_new_pool_max hd >=? 0); (split; [|done]);
      by apply (wf_max_same om1). }
  destruct Hom3 as [Hom3 Hmax3]. destruct (ic_max c >=? 0) eqn:E.
  - rewrite Z.geb_leb in E. apply Z.leb_le in E. unfold int32 in Hmax.
    split; [|done]. apply (wf_max_same (resized (ic_max c) om3)); [|done..].
    apply wf_resized; [apply Hom3|lia].
  - split; [by apply (wf_max_same om3)|done].
Qed.

Lemma set_one_affinity_ok om0 oa :
  wf_max om0 → wf_max (set_one_affinity om0 oa) ∧ om_max_osd (set_one_affinity om0 oa) = om_max_osd om0.
Proof. destruct oa. intros H. split; [by apply wf_max_affinity|done]. Qed.

Lemma runs_new_affinity off om0 :
  wf_max om0 → om_max_osd om0 = new_max c om →
  runs (Some 0%nat) off om0 (λ buf e, decode_new_primary_affinity buf e ok)
    (enc_list enc_affinity (ic_affinity c)) tt (foldl set_one_affinity om0 (ic_affinity c)).
Proof.
  intros Hom0 Hmax. destruct (wc_affinity _ _ _ _ Hc) as (Hlen & Hl & _).
  unfold decode_new_primary_affinity, enc_list.
  eapply runs_bind; [apply runs_parses, parses_32_safe; lia|].
  apply (runs_osd_loop _ om0 set_one_affinity enc_affinity (λ oa, word oa.2) fst
    (λ buf e, osd ← ceph_decode_32_safe buf e (- EINVAL); aff ← ceph_decode_32_safe buf e (- EINVAL);
       set_affinity_at ok (s32 osd) aff)); [apply set_one_affinity_ok| |done|].
  - intros om1 [osd aff] o Hom1 Hosd Haff. cbn [fst snd] in *. unfold enc_affinity, enc_int. cbn [fst snd].
    eapply runs_bind; [apply runs_parses, parses_32_safe, word_of_u32|].
    eapply runs_bind_ret; [by apply runs_parses, parses_32_safe|].
    rewrite s32_of_u32 by (by eapply wire_osd). by apply runs_set_affinity.
  - eapply Forall_impl; [exact Hl|]. intros oa [? ?]. split; [|done]. unfold osd_of. by rewrite Hmax.
Qed.

Lemma runs_new_temps off om0 :
  wf_max om0 → om_max_osd om0 = new_max c om →
  runs (Some 0%nat) off om0 (λ buf e, decode_new_temps buf ok e (v hd)) (enc_new_temps (v hd) c) tt
    (apply_temps c om0).
Proof.
  intros Hom0 Hmax. destruct (wc_temps _ _ _ _ Hc) as (Htemp & Hprim & Hprim0).
  destruct (wc_affinity _ _ _ _ Hc) as (_ & _ & Haff0).
  eapply runs_bind; [by apply (runs_pg_temp ok Hok true)|].
  eapply (runs_bind _ _ _ (with_temps (foldl upd_mapping (om_pg_temp om0) (ic_pg_temp c))
    (foldl upd_mapping (om_primary_temp om0) (ic_primary_temp c)) om0)).
  - apply runs_when. destruct (v hd >=? 1) eqn:E;
      [by eapply runs_eq; [apply (runs_primary_temp ok Hok true)|..]|].
    rewrite (Hprim0 (ver_false _ _ E)). done.
  - apply runs_when. destruct (v hd >=? 2) eqn:E.
    + apply runs_new_affinity; [by apply (wf_max_same om0)|done].
    + unfold apply_temps. by rewrite (Haff0 (ver_false _ _ E)).
Qed.

Lemma parses_profile_changes off :
  parses (S := ceph_osdmap) off (λ buf e, skip_profile_changes buf e) (enc_profile_changes c) tt.
Proof.
  destruct (wc_profiles _ _ _ _ Hc) as (Hp & Hlen & Hold).
  eapply parses_bind; [by apply parses_profiles|]. eapply parses_skip_list; [done|exact Hold|].
  intros s o Hs. by apply parses_skip_string.
Qed.

Lemma runs_upmap_changes off om0 :
  runs (Some 0%nat) off om0
    (λ buf e, dwhen (v hd >=? 4) (decode_upmap_changes buf ok e))
    (enc_when (v hd >=? 4) (enc_upmap_changes c)) tt (apply_upmaps c om0).
Proof.
  destruct (wc_upmaps _ _ _ _ Hc) as (Hup & Hit & Hlu & Hou & Hli & Hoi & H0).
  apply runs_when. destruct (v hd >=? 4) eqn:E.
  - eapply runs_bind; [by apply (runs_pg_upmap ok Hok)|].
    eapply runs_bind; [by apply runs_old_pg_upmap|].
    eapply runs_bind; [by apply (runs_pg_upmap_items ok Hok)|].
    by eapply runs_eq; [apply runs_old_pg_upmap_items|..].
  - destruct (H0 (ver_false _ _ E)) as (E1 & E2 & E3 & E4). unfold apply_upmaps.
    rewrite E1, E2, E3, E4. by destruct om0.
Qed.

Lemma osd_lists_max om0 :
  wf_max om0 → wf_max (apply_osd_lists msgr2 junk (v hd) om0 (ic_osds c))
    ∧ om_max_osd (apply_osd_lists msgr2 junk (v hd) om0 (ic_osds c)) = om_max_osd om0.
Proof.
  intros H0. unfold apply_osd_lists.
  destruct (foldl_ok apply_weight om0 (ol_weights (ic_osds c)) apply_weight_ok H0) as [H1 E1].
  destruct (foldl_ok apply_state _ (ol_states (ic_osds c)) apply_state_ok H1) as [H2 E2].
  rewrite <- E1, <- E2. by apply foldl_ok; [apply apply_up_ok|].
Qed.

Lemma runs_changes off :
  runs None off om
    (λ buf e, apply_changes buf msgr2 ok mem amem wmem junk h e (v hd) (ih_modified hd)
                (ih_new_pool_max hd) (ih_new_flags hd))
    (enc_changes (v hd) c) tt (changed msgr2 junk h hd c om).
Proof.
  destruct sized_max as [Hsz Hmax]. destruct (osd_lists_max _ Hsz) as [Hosd Hmax'].
  assert (Hmax0 : om_max_osd (apply_crush h (ic_crush c) om) = om_max_osd om)
    by (destruct (ic_crush c) as [[]|]; done).
  unfold apply_changes, enc_changes.
  eapply runs_bind; [apply runs_new_crush|].
  eapply runs_bind; [apply runs_apply_header; [apply live_crushed|done]|].
  eapply runs_bind; [apply runs_pool_changes|]. fold (sized hd c h om).
  eapply runs_bind; [apply (runs_osd_lists ok Hok); [done|]|].
  { eapply wire_osd_lists_eq; [|apply (wc_osds _ _ _ _ Hc)]. by rewrite Hmax. }
  eapply runs_bind; [apply runs_new_temps; [done|by rewrite Hmax']|].
  eapply runs_bind; [apply runs_skip_when, parses_profile_changes|].
  eapply runs_bind; [apply runs_upmap_changes|].
  eapply runs_eq; [apply runs_seek_end|done|done].
Qed.

(** The map stays fit for the next increment. *)
Lemma foldl_keeps {B T} (g : ceph_osdmap → T) (f : ceph_osdmap → B → ceph_osdmap) l om0 :
  (∀ om b, g (f om b) = g om) → g (foldl f om0 l) = g om0.
Proof. intros Hf. revert om0. induction l as [|b l IH]; intros om0; [done|]. simpl. by rewrite IH, Hf. Qed.

Lemma changed_crush : om_crush (changed msgr2 junk h hd c om) = om_crush (apply_crush h (ic_crush c) om).
Proof.
  change (om_crush (changed msgr2 junk h hd c om)) with
    (om_crush (apply_temps c (apply_osd_lists msgr2 junk (v hd) (sized hd c h om) (ic_osds c)))).
  unfold apply_temps, apply_osd_lists. rewrite foldl_keeps by done. cbn [om_crush with_temps].
  rewrite !foldl_keeps; [|done| |done].
  - unfold sized, apply_numbers. cbv zeta.
    by destruct (ih_new_flags hd >=? 0), (ih_new_pool_max hd >=? 0), (ic_max c >=? 0).
  - intros om0 ox. unfold apply_state. by destruct (_ && _).
Qed.

Lemma changed_live : live (changed msgr2 junk h hd c om).
Proof.
  destruct sized_max as [Hsz _]. destruct (osd_lists_max _ Hsz) as [Hosd _]. split.
  - apply (wf_max_same (apply_temps c (apply_osd_lists msgr2 junk (v hd) (sized hd c h om) (ic_osds c))));
      [|done..].
    apply foldl_ok; [apply set_one_affinity_ok|].
    by apply (wf_max_same (apply_osd_lists msgr2 junk (v hd) (sized hd c h om) (ic_osds c))).
  - rewrite changed_crush. apply live_crushed.
Qed.

(** ** The whole message *)

Lemma parses_inc_header off :
  parses (S := ceph_osdmap) off (λ buf e, decode_inc_header buf e) (enc_inc_header hd)
    (v hd, ih_epoch hd, ih_modified hd, ih_new_pool_max hd, ih_new_flags hd).
Proof.
  destruct Hhd as [Hv (Hf & He & Hm) [Hp Hfl]]. unfold blob in Hf. unfold decode_inc_header, enc_inc_header.
  eapply parses_bind; [by apply parses_versions|].
  apply parses_need; [rewrite !length_app, Hf; done|].
  eapply parses_bind; [apply parses_copy; lia|].
  eapply parses_bind; [by apply parses_32|].
  eapply parses_bind; [by apply parses_timespec|].
  eapply parses_bind; [apply parses_64, word64_of_u64|].
  eapply parses_bind_ret; [apply parses_32, word_of_u32|].
  rewrite s64_of_u64, s32_of_u32 by done. apply parses_ret.
Qed.

Definition apply_inc buf end_ := osdmap_apply_incremental buf msgr2 ok mem amem wmem junk h end_.

Lemma runs_inc_changes off :
  ih_epoch hd = u32 (om_epoch om + 1) →
  runs None off om apply_inc (enc_inc_header hd ++ enc_payload (v hd) (Changes c)) Same_map
    (changed msgr2 junk h hd c om).
Proof.
  intros He. unfold apply_inc, osdmap_apply_incremental.
  eapply runs_bind; [apply runs_parses, parses_inc_header|]. cbv iota beta.
  eapply runs_bind_nil; [apply runs_get|]. rewrite He, Z.eqb_refl. cbn [negb enc_payload].
  eapply runs_bind; [by apply runs_parses, parses_32_safe|]. cbv beta. simpl Z.gtb. cbv iota.
  eapply runs_bind_ret; [apply runs_changes|]. apply runs_ret.
Qed.
End incremental.

Section payloads.
Context (ok : alloc_site → Z → Z → bool).
Hypothesis Hok : ∀ site p n, ok site p n = true.
Context (msgr2 : bool) (mem : nat → Z) (amem : nat → ceph_entity_addr) (wmem : Z → Z)
  (junk : ceph_entity_addr) (h : handle).
Implicit Types (om : ceph_osdmap) (hd : inc_header).

(** A full map that stands in for the changes: the map there was is left alone. *)
Lemma inc_full om hd m rest pre post :
  wire_inc_header hd → wire_full msgr2 m → 0 < Z.of_nat (length (enc_full m)) < 2 ^ 31 →
  ih_epoch hd = u32 (om_epoch om + 1) →
  let front := pre ++ enc_inc_header hd ++ ceph_encode_32 (Z.of_nat (length (enc_full m))) in
  osdmap_apply_incremental (front ++ enc_full m ++ rest ++ post) msgr2 ok mem amem wmem junk h
      (Z.of_nat (length (front ++ enc_full m ++ rest))) om (Z.of_nat (length pre))
    = Ret (inl (New_map (map_of_full msgr2 h m)), om, Z.of_nat (length (front ++ enc_full m))).
Proof.
  intros Hhd Hm Hlen He front. unfold osdmap_apply_incremental.
  pose proof (parses_inc_header hd Hhd (Z.of_nat (length pre)) pre
    (ceph_encode_32 (Z.of_nat (length (enc_full m))) ++ enc_full m ++ rest ++ post)
    (Z.of_nat (length (front ++ enc_full m ++ rest))) om eq_refl) as Hh.
  assert (Hbuf : front ++ enc_full m ++ rest ++ post = pre ++ enc_inc_header hd ++
    ceph_encode_32 (Z.of_nat (length (enc_full m))) ++ enc_full m ++ rest ++ post).
  { unfold front. by rewrite <- !(assoc_L (++)). }
  rewrite Hbuf, (D_bind_eq _ _ _ _ _ _ _ (Hh ltac:(unfold front; rewrite !length_app; lia))).
  rewrite <- Hbuf. cbv iota beta. rewrite (D_bind_eq dget _ om _ om om _ eq_refl), He, Z.eqb_refl.
  cbn [negb].
  pose proof (parses_32_safe (S := ceph_osdmap) (Z.of_nat (length (pre ++ enc_inc_header hd))) (- EINVAL)
    (Z.of_nat (length (enc_full m))) ltac:(lia) (pre ++ enc_inc_header hd) (enc_full m ++ rest ++ post)
    (Z.of_nat (length (front ++ enc_full m ++ rest))) om eq_refl) as Hl.
  rewrite <- (assoc_L (++)), <- Hbuf in Hl. rewrite <- Nat2Z.inj_add, <- length_app.
  rewrite (D_bind_eq _ _ _ _ _ _ _ (Hl ltac:(unfold front; rewrite !length_app; simpl length; lia))).
  assert (s32 (Z.of_nat (length (enc_full m))) = Z.of_nat (length (enc_full m))) as ->.
  { unfold s32. rewrite Z.mod_small by lia. lia. }
  rewrite Z.gtb_ltb, (proj2 (Z.ltb_lt _ _)) by lia. unfold decode_full.
  replace (Z.of_nat (length (pre ++ enc_inc_header hd))
    + Z.of_nat (length (ceph_encode_32 (Z.of_nat (length (enc_full m)))))) with (Z.of_nat (length front))
    by (unfold front; rewrite !length_app; lia).
  rewrite Z.min_l by (rewrite !length_app; lia).
  rewrite <- Nat2Z.inj_add, <- length_app, (decode_full_map ok Hok msgr2 mem amem wmem h front m (rest ++ post) Hm).
  done.
Qed.

Lemma inc_wrong_epoch om hd pre bs end_ :
  wire_inc_header hd → Z.of_nat (length (pre ++ enc_inc_header hd)) <= end_ →
  ih_epoch hd ≠ u32 (om_epoch om + 1) →
  ∃ p, osdmap_apply_incremental (pre ++ enc_inc_header hd ++ bs) msgr2 ok mem amem wmem junk h end_ om
         (Z.of_nat (length pre)) = Ret (inr (- EINVAL), om, p).
Proof.
  intros Hhd Hend He. rewrite length_app in Hend. unfold osdmap_apply_incremental.
  rewrite (D_bind_eq _ _ _ _ _ _ _ (parses_inc_header hd Hhd _ pre bs end_ om eq_refl ltac:(lia))).
  cbv iota beta. rewrite (D_bind_eq dget _ om _ om om _ eq_refl), (proj2 (Z.eqb_neq _ _)) by done.
  eexists. reflexivity.
Qed.
End payloads.

Definition wire_payload (msgr2 : bool) (hd : inc_header) (om : ceph_osdmap) (pl : inc_payload) : Prop :=
  match pl with
  | Changes c => wire_changes msgr2 (v hd) om c
  | Full m _ => wire_full msgr2 m ∧ 0 < Z.of_nat (length (enc_full m)) < 2 ^ 31
  end.
(** What the caller is given, and what the map it holds becomes. *)
Definition inc_result (msgr2 : bool) (h : handle) (pl : inc_payload) : applied :=
  match pl with Changes _ => Same_map | Full m _ => New_map (map_of_full msgr2 h m) end.
Definition inc_map (msgr2 : bool) (junk : ceph_entity_addr) (h : handle) (hd : inc_header)
    (om : ceph_osdmap) (pl : inc_payload) : ceph_osdmap :=
  match pl with Changes c => changed msgr2 junk h hd c om | Full _ _ => om end.
Definition current (old : ceph_osdmap) (r : applied) : ceph_osdmap :=
  match r with Same_map => old | New_map new => new end.

Lemma inc_map_epoch msgr2 junk h hd om c :
  om_epoch (changed msgr2 junk h hd c om) = u32 (om_epoch om + 1).
Proof.
  change (om_epoch (changed msgr2 junk h hd c om)) with
    (om_epoch (apply_temps c (apply_osd_lists msgr2 junk (v hd) (sized hd c h om) (ic_osds c)))).
  unfold apply_temps, apply_osd_lists. rewrite foldl_keeps by done. cbn [om_epoch with_temps].
  rewrite !foldl_keeps; [|done| |done].
  - unfold sized, apply_numbers, apply_crush. cbv zeta.
    destruct (ic_crush c) as [[]|], (ih_new_flags hd >=? 0), (ih_new_pool_max hd >=? 0),
      (ic_max c >=? 0); done.
  - intros om0 ox. unfold apply_state. by destruct (_ && _).
Qed.

(** C30: increments are applied.  A message for the epoch after the map's changes the map exactly as
    its parts say, taken in the decoder's order: CRUSH map, flags, size, pools, names, deleted
    pools, weights, states, clients, temporary mappings, affinities, upmaps and deleted upmaps;
    or, if it carries a full map, leaves the old one alone and gives the new one.  What is current
    afterwards has the next epoch, when the sender put it there, and is again fit for the next
    message.  A message for any other epoch is refused and changes nothing. *)
Theorem osdmap_apply_incremental_applies (ok : alloc_site → Z → Z → bool) (msgr2 : bool)
    (mem : nat → Z) (amem : nat → ceph_entity_addr) (wmem : Z → Z) (junk : ceph_entity_addr)
    (h : handle) (om : ceph_osdmap) (hd : inc_header) (pl : inc_payload) (pre post : list Z)
    (Hok : ∀ site p n, ok site p n = true) (Hom : live om) (Hhd : wire_inc_header hd)
    (Hpl : wire_payload msgr2 hd om pl) :
  let msg := enc_inc_header hd ++ enc_payload (v hd) pl in
  let run := osdmap_apply_incremental (pre ++ msg ++ post) msgr2 ok mem amem wmem junk h
               (Z.of_nat (length (pre ++ msg))) om (Z.of_nat (length pre)) in
  if decide (ih_epoch hd = u32 (om_epoch om + 1)) then
    let om' := current (inc_map msgr2 junk h hd om pl) (inc_result msgr2 h pl) in
    (∃ p, run = Ret (inl (inc_result msgr2 h pl), inc_map msgr2 junk h hd om pl, p))
    ∧ live om'
    ∧ om_epoch om' = match pl with Changes _ => ih_epoch hd | Full m _ => fm_epoch m end
  else ∃ p, run = Ret (inr (- EINVAL), om, p).
Proof.
  cbv zeta. case_decide as He.
  2:{ rewrite <- (assoc_L (++)). apply inc_wrong_epoch; [done| |done]. rewrite !length_app. lia. }
  destruct pl as [c|m rest]; cbn [inc_result inc_map current] in *.
  - split; [|split; [by eapply changed_live|by rewrite inc_map_epoch]].
    eexists. apply (runs_inc_changes ok Hok msgr2 mem amem wmem junk h om hd c Hom Hhd Hpl _ He); [done|].
    rewrite !length_app. lia.
  - destruct Hpl as [Hm Hlen]. split; [|split; [by eapply full_live|done]]. eexists.
    pose proof (inc_full ok Hok msgr2 mem amem wmem junk h om hd m rest pre post Hhd Hm Hlen He) as H.
    cbv zeta in H. cbn [enc_payload]. rewrite <- !(assoc_L (++)) in *. exact H.
Qed.

(** On the example map of epoch 40: OSD 1 gets an address, OSD 0 is out, one more OSD, a pool is
    renamed and one deleted, temporary mappings end. *)
Definition ex_inc_header : inc_header :=
  IncHeader (Versions 8 7 9 1 [0; 0; 0; 0] [0; 0; 0; 0]) (replicate 16 7) 41 (5, 6) (-1) (-1).
Definition ex_changes : inc_changes :=
  IncChanges None 3 [(3, ex_new_extra, ex_new_pool)] [(3, [114])] [4]
    (OsdLists [(1, [ex_addr])] [(0, 2); (2, 1)] [(0, 0); (2, 0x8000)])
    [(CephPg 3 1, None)] [(CephPg 3 2, None); (CephPg 3 5, Some 2)] [(2, 0)]
    [] [[100]] [(CephPg 3 6, Some [2])] [CephPg 3 3] [(CephPg 3 7, Some [])] [CephPg 3 4] [1; 2; 3].

Lemma ex_changes_ok : wire_changes true 9 (map_of_full true 5 ex_full) ex_changes.
Proof.
  constructor; try (words; fail).
  - split; [done|]. apply Forall_cons; split; [|done]. split; [done|]. apply ex_pools_ok.
  - split; (split; [done|]); repeat (apply Forall_cons; split); try apply Forall_nil_2;
      (split; [done|]); try done.
    split; [by apply Forall_singleton, ex_addr_ok|]. split; [done|]. by right.
Qed.

Lemma osdmap_apply_incremental_applies_witness :
  let om := map_of_full true 5 ex_full in
  let msg := enc_inc_header ex_inc_header ++ enc_payload 9 (Changes ex_changes) in
  ∃ om' p, osdmap_apply_incremental ([0] ++ msg ++ []) true (λ _ _ _, true) (λ _, 0) (λ _, zero_addr)
      (λ _, 0) zero_addr 6 (Z.of_nat (length ([0] ++ msg))) om (Z.of_nat (length [0]))
    = Ret (inl Same_map, om', p)
  ∧ live om' ∧ om_epoch om' = 41 ∧ om_osd_state om' = [1; 3; 0]
  ∧ om_osd_weight om' = [0; 0; 0x8000] ∧ dom (om_pg_pools om') = {[3]}.
Proof.
  cbv zeta. destruct (osdmap_apply_incremental_applies (λ _ _ _, true) true (λ _, 0) (λ _, zero_addr)
    (λ _, 0) zero_addr 6 (map_of_full true 5 ex_full) ex_inc_header (Changes ex_changes) [0] []
    (λ _ _ _, eq_refl) (full_live true 5 ex_full ex_full_ok)) as ([p H1] & H2 & H3).
  - constructor; words.
  - exact ex_changes_ok.
  - exists (changed true zero_addr 6 ex_inc_header ex_changes (map_of_full true 5 ex_full)), p.
    split; [exact H1|]. split; [exact H2|]. split; [exact H3|].
    split; [by vm_compute|]. split; [by vm_compute|by vm_compute].
Defined.
