(* ===== verification/Rbd.v ===== *)
(** * RBD data and predicates (rbd/rbd.c)

    The device, the image requests and the object requests they consist of. *)
From S2P Require Import Prelude Striper.

(** ** Constants *)

Definition CEPH_NOSNAP : Z := u64 (-2).
Definition RBD_FEATURE_EXCLUSIVE_LOCK : Z := Z.shiftl 1 2.
Definition RBD_FEATURE_OBJECT_MAP : Z := Z.shiftl 1 3.
Definition RBD_FEATURE_FAST_DIFF : Z := Z.shiftl 1 4.
Definition RBD_FLAG_OBJECT_MAP_INVALID : Z := Z.shiftl 1 0.
Definition OBJECT_NONEXISTENT : Z := 0.
Definition OBJECT_EXISTS : Z := 1.
Definition OBJECT_PENDING : Z := 2.
Definition OBJECT_EXISTS_CLEAN : Z := 3.

Definition RBD_OBJ_FLAG_DELETION : Z := Z.shiftl 1 0.
Definition RBD_OBJ_FLAG_COPYUP_ENABLED : Z := Z.shiftl 1 1.
Definition RBD_OBJ_FLAG_COPYUP_ZEROS : Z := Z.shiftl 1 2.
Definition RBD_OBJ_FLAG_MAY_EXIST : Z := Z.shiftl 1 3.
Definition RBD_OBJ_FLAG_NOOP_FOR_NONEXISTENT : Z := Z.shiftl 1 4.

Definition EROFS : Z := 30.

(** [flags & f] *)
Definition has (flags f : Z) : bool := nonzero (Z.land flags f).

(** ** The device *)

Inductive rbd_lock_state :=
  | RBD_LOCK_STATE_UNLOCKED
  | RBD_LOCK_STATE_LOCKED
  | RBD_LOCK_STATE_RELEASING.
#[export] Instance rbd_lock_state_eq_dec : EqDecision rbd_lock_state.
Proof. solve_decision. Defined.

(** What requests see of [struct rbd_device]; [rd_snap_id] is [spec->snap_id], the last four
    fields are options.  No object map is a null [object_map]. *)
Record rbd_device := RbdDevice {
  rd_features : Z; rd_layout : ceph_file_layout; rd_size : Z;
  rd_snap_id : Z; rd_readonly : bool;
  rd_parent_overlap : Z;
  rd_object_map : option (list Z); rd_object_map_size : Z; rd_object_map_flags : Z;
  rd_lock_state : rbd_lock_state;
  rd_alloc_size : Z; rd_lock_on_read : bool; rd_exclusive : bool; rd_alloc_hint_flags : Z }.

Definition set_object_map (dev : rbd_device) (m : option (list Z)) (size : Z) : rbd_device :=
  RbdDevice (rd_features dev) (rd_layout dev) (rd_size dev) (rd_snap_id dev) (rd_readonly dev)
    (rd_parent_overlap dev) m size (rd_object_map_flags dev) (rd_lock_state dev)
    (rd_alloc_size dev) (rd_lock_on_read dev) (rd_exclusive dev) (rd_alloc_hint_flags dev).
Definition set_object_map_flags (dev : rbd_device) (flags : Z) : rbd_device :=
  RbdDevice (rd_features dev) (rd_layout dev) (rd_size dev) (rd_snap_id dev) (rd_readonly dev)
    (rd_parent_overlap dev) (rd_object_map dev) (rd_object_map_size dev) flags (rd_lock_state dev)
    (rd_alloc_size dev) (rd_lock_on_read dev) (rd_exclusive dev) (rd_alloc_hint_flags dev).
Definition set_lock_state (dev : rbd_device) (st : rbd_lock_state) : rbd_device :=
  RbdDevice (rd_features dev) (rd_layout dev) (rd_size dev) (rd_snap_id dev) (rd_readonly dev)
    (rd_parent_overlap dev) (rd_object_map dev) (rd_object_map_size dev) (rd_object_map_flags dev)
    st (rd_alloc_size dev) (rd_lock_on_read dev) (rd_exclusive dev) (rd_alloc_hint_flags dev).

Definition rbd_is_ro (dev : rbd_device) : bool := rd_readonly dev.
Definition rbd_is_snap (dev : rbd_device) : bool := negb (rd_snap_id dev =? CEPH_NOSNAP).
Definition rbd_is_lock_owner (dev : rbd_device) : bool :=
  match rd_lock_state dev with
  | RBD_LOCK_STATE_LOCKED | RBD_LOCK_STATE_RELEASING => true
  | RBD_LOCK_STATE_UNLOCKED => false
  end.

(** ** Requests *)

Inductive obj_operation_type := OBJ_OP_READ | OBJ_OP_WRITE | OBJ_OP_DISCARD | OBJ_OP_ZEROOUT.
Inductive obj_request_type :=
  | OBJ_REQUEST_NODATA | OBJ_REQUEST_BIO | OBJ_REQUEST_BVECS | OBJ_REQUEST_OWN_BVECS.
#[export] Instance obj_operation_type_eq_dec : EqDecision obj_operation_type.
Proof. solve_decision. Defined.
#[export] Instance obj_request_type_eq_dec : EqDecision obj_request_type.
Proof. solve_decision. Defined.

(** The first nonzero result, and how many are still to come. *)
Record pending_result := PendingResult { pr_result : Z; pr_num_pending : Z }.

(** The result if nothing else is pending. *)
Definition pending_result_dec (pending : pending_result) (result : Z)
    : outcome (option Z * pending_result) :=
  _ ← require (pr_num_pending pending >? 0);
  let r := if nonzero result && (pr_result pending =? 0) then result else pr_result pending in
  let n := pr_num_pending pending - 1 in
  let pending := PendingResult r n in
  if nonzero n then Ret (None, pending) else Ret (Some r, pending).

Inductive rbd_obj_read_state := RBD_OBJ_READ_START | RBD_OBJ_READ_OBJECT | RBD_OBJ_READ_PARENT.
Inductive rbd_obj_write_state :=
  | RBD_OBJ_WRITE_START
  | RBD_OBJ_WRITE_PRE_OBJECT_MAP
  | RBD_OBJ_WRITE_OBJECT
  | RBD_OBJ_WRITE_COPYUP_ (* [__RBD_OBJ_WRITE_COPYUP] *)
  | RBD_OBJ_WRITE_COPYUP
  | RBD_OBJ_WRITE_POST_OBJECT_MAP.
Inductive rbd_obj_copyup_state :=
  | RBD_OBJ_COPYUP_START
  | RBD_OBJ_COPYUP_READ_PARENT
  | RBD_OBJ_COPYUP_OBJECT_MAPS_
  | RBD_OBJ_COPYUP_OBJECT_MAPS
  | RBD_OBJ_COPYUP_WRITE_OBJECT_
  | RBD_OBJ_COPYUP_WRITE_OBJECT.

(** The union of [read_state] and [write_state]; zeroed memory is neither. *)
Inductive obj_state :=
  | No_state
  | Read_state (s : rbd_obj_read_state)
  | Write_state (s : rbd_obj_write_state).

(** [or_data] is what the position in the bio or the bio_vec array stands for, byte by byte;
    [or_copyup_bvecs] has the bytes of each of its elements; [or_osd_reqs] counts that list. *)
Record rbd_obj_request := RbdObjRequest {
  or_ex : ceph_object_extent; or_flags : Z; or_state : obj_state;
  or_img_extents : list ceph_file_extent;
  or_data : list Z;
  or_copyup_state : option rbd_obj_copyup_state; or_copyup_bvecs : option (list (list Z));
  or_osd_reqs : nat; or_pending : pending_result }.

(** What the object requests see of their [struct rbd_img_request].  [ir_snapc] is
    [snapc->snaps], of writes; [ir_snap_id] of reads. *)
Record img_info := ImgInfo {
  ir_op_type : obj_operation_type; ir_data_type : obj_request_type;
  ir_snap_id : Z; ir_snapc : list Z }.

Definition rbd_img_is_write (img : img_info) : bool :=
  match ir_op_type img with OBJ_OP_READ => false | _ => true end.

Definition rbd_obj_is_entire (dev : rbd_device) (req : rbd_obj_request) : bool :=
  (oe_off (or_ex req) =? 0) && (oe_len (or_ex req) =? object_size (rd_layout dev)).
Definition rbd_obj_is_tail (dev : rbd_device) (req : rbd_obj_request) : bool :=
  u64 (oe_off (or_ex req) + oe_len (or_ex req)) =? object_size (rd_layout dev).
Definition rbd_obj_copyup_enabled (dev : rbd_device) (img : img_info) (req : rbd_obj_request) : bool :=
  match or_img_extents req with
  | [] => false
  | _ => negb (rbd_obj_is_entire dev req && (Z.of_nat (length (ir_snapc img)) =? 0))
  end.
Definition rbd_obj_img_extents_bytes (req : rbd_obj_request) : Z :=
  ceph_file_extents_bytes (or_img_extents req).

Definition set_ex (req : rbd_obj_request) (ex : ceph_object_extent) : rbd_obj_request :=
  RbdObjRequest ex (or_flags req) (or_state req) (or_img_extents req) (or_data req)
    (or_copyup_state req) (or_copyup_bvecs req) (or_osd_reqs req) (or_pending req).
Definition set_flag (f : Z) (req : rbd_obj_request) : rbd_obj_request :=
  RbdObjRequest (or_ex req) (Z.lor (or_flags req) f) (or_state req) (or_img_extents req)
    (or_data req) (or_copyup_state req) (or_copyup_bvecs req) (or_osd_reqs req) (or_pending req).
Definition set_state (st : obj_state) (req : rbd_obj_request) : rbd_obj_request :=
  RbdObjRequest (or_ex req) (or_flags req) st (or_img_extents req) (or_data req)
    (or_copyup_state req) (or_copyup_bvecs req) (or_osd_reqs req) (or_pending req).
Definition set_img_extents (l : list ceph_file_extent) (req : rbd_obj_request) : rbd_obj_request :=
  RbdObjRequest (or_ex req) (or_flags req) (or_state req) l (or_data req)
    (or_copyup_state req) (or_copyup_bvecs req) (or_osd_reqs req) (or_pending req).
Definition set_data (data : list Z) (req : rbd_obj_request) : rbd_obj_request :=
  RbdObjRequest (or_ex req) (or_flags req) (or_state req) (or_img_extents req) data
    (or_copyup_state req) (or_copyup_bvecs req) (or_osd_reqs req) (or_pending req).
Definition set_copyup_state (st : rbd_obj_copyup_state) (req : rbd_obj_request) : rbd_obj_request :=
  RbdObjRequest (or_ex req) (or_flags req) (or_state req) (or_img_extents req) (or_data req)
    (Some st) (or_copyup_bvecs req) (or_osd_reqs req) (or_pending req).
Definition set_copyup_bvecs (l : option (list (list Z))) (req : rbd_obj_request) : rbd_obj_request :=
  RbdObjRequest (or_ex req) (or_flags req) (or_state req) (or_img_extents req) (or_data req)
    (or_copyup_state req) l (or_osd_reqs req) (or_pending req).
Definition add_osd_req (req : rbd_obj_request) : rbd_obj_request :=
  RbdObjRequest (or_ex req) (or_flags req) (or_state req) (or_img_extents req) (or_data req)
    (or_copyup_state req) (or_copyup_bvecs req) (S (or_osd_reqs req)) (or_pending req).
Definition set_pending (p : pending_result) (req : rbd_obj_request) : rbd_obj_request :=
  RbdObjRequest (or_ex req) (or_flags req) (or_state req) (or_img_extents req) (or_data req)
    (or_copyup_state req) (or_copyup_bvecs req) (or_osd_reqs req) p.

Definition flag (req : rbd_obj_request) (f : Z) : bool := has (or_flags req) f.
