(* ===== verification/RbdObject.v ===== *)
(** * RBD object requests (rbd/rbd.c): preparation, OSD requests, state machines

    Code that runs on one object request.  It sees the device and the image request, and sends
    requests whose completions call it again. *)
From S2P Require Import Prelude Striper Hash Crush Mapper Choose DoRule Workspace OsdMap Decode.
From S2P Require Import Rbd.

(** ** What is sent *)

Inductive osd_op :=
  | CEPH_OSD_OP_READ (off len : Z)
  | CEPH_OSD_OP_STAT
  | CEPH_OSD_OP_WRITE (off len : Z) (data : list Z)
  | CEPH_OSD_OP_WRITEFULL (off len : Z) (data : list Z)
  | CEPH_OSD_OP_DELETE
  | CEPH_OSD_OP_CREATE
  | CEPH_OSD_OP_TRUNCATE (off len : Z)
  | CEPH_OSD_OP_ZERO (off len : Z)
  | CEPH_OSD_OP_SETALLOCHINT (object_size write_size flags : Z)
  | CEPH_OSD_OP_CALL_COPYUP (data : list Z).

(** A request for the object [r_objno]; [None] is an operation not filled in.  [r_snapc] is
    [None] for reads, which have [r_snapid]. *)
Record ceph_osd_request := CephOsdRequest {
  r_objno : Z; r_snapc : option (list Z); r_snapid : Z; r_write : bool;
  r_ops : list (option osd_op) }.

(** [Map_update]: on the object map [mu_snap_id], with the payload of the class method;
    [assert_locked] in front of it makes two operations.  [Parent_read]: a child image request. *)
Inductive request :=
  | Osd_request (req : ceph_osd_request)
  | Map_update (mu_snap_id : Z) (mu_num_ops : Z) (mu_data : list Z)
  | Parent_read (extents : list ceph_file_extent).

(** ** The monad *)

(** [o_calls] numbers the calls that can fail; see [call]. *)
Record ost := Ost { o_req : rbd_obj_request; o_sent : list request; o_calls : nat }.
Definition St (A : Type) : Type := ost → outcome (A * ost).

#[export] Instance St_ret : MRet St := λ A a s, Ret (a, s).
#[export] Instance St_bind : MBind St := λ A B f m s, '(a, s) ← m s; f a s.

Definition slift {A} (m : outcome A) : St A := λ s, a ← m; Ret (a, s).
Definition rget : St rbd_obj_request := λ s, Ret (o_req s, s).
Definition rmodify (f : rbd_obj_request → rbd_obj_request) : St unit := λ s,
  Ret (tt, Ost (f (o_req s)) (o_sent s) (o_calls s)).
Definition send (r : request) : St unit := λ s,
  Ret (tt, Ost (o_req s) (o_sent s ++ [r]) (o_calls s)).

Section requests.
(** What the n-th call into the rest of the kernel that can fail gives: 0 or an error number. *)
Context (err : nat → Z).
Context (dev : rbd_device) (img : img_info).

Definition call : St Z := λ s, Ret (err (o_calls s), Ost (o_req s) (o_sent s) (S (o_calls s))).
(** An allocation: null is [-ENOMEM] for the callers. *)
Definition alloc : St Z := ret ← call; mret (if nonzero ret then - ENOMEM else 0).

(** ** The object map *)

Definition BITS_PER_OBJ : Z := 2.
Definition OBJS_PER_BYTE : Z := 8 / BITS_PER_OBJ.
Definition OBJ_MASK : Z := Z.shiftl 1 BITS_PER_OBJ - 1.

Definition object_map_index (objno : Z) : outcome (Z * Z) :=
  _ ← require (objno <? rd_object_map_size dev);
  '(index, off) ← div_u64_rem objno OBJS_PER_BYTE;
  Ret (index, u8 ((OBJS_PER_BYTE - off - 1) * BITS_PER_OBJ)).

Definition rbd_object_map_get (objno : Z) : outcome Z :=
  '(index, shift) ← object_map_index objno;
  m ← deref (rd_object_map dev);
  b ← aget m index;
  Ret (Z.land (Z.shiftr b shift) OBJ_MASK).

Definition rbd_object_map_set (objno val : Z) : outcome rbd_device :=
  _ ← require (Z.land val (Z.lnot OBJ_MASK) =? 0);
  '(index, shift) ← object_map_index objno;
  m ← deref (rd_object_map dev);
  b ← aget m index;
  m ← aset m index (u8 (Z.lor (Z.land b (Z.lnot (Z.shiftl OBJ_MASK shift))) (Z.shiftl val shift)));
  Ret (set_object_map dev (Some m) (rd_object_map_size dev)).

Definition use_object_map : bool :=
  if negb (rbd_is_snap dev) && rbd_is_ro dev then false
  else has (rd_features dev) RBD_FEATURE_OBJECT_MAP
       && negb (has (rd_object_map_flags dev) RBD_FLAG_OBJECT_MAP_INVALID).

Definition rbd_object_map_may_exist (objno : Z) : outcome bool :=
  if negb use_object_map then Ret true
  else state ← rbd_object_map_get objno; Ret (negb (state =? OBJECT_NONEXISTENT)).

Definition update_needed (objno new_state : Z) : outcome bool :=
  state ← rbd_object_map_get objno;
  Ret (negb ((state =? new_state)
             || (new_state =? OBJECT_PENDING) && (state =? OBJECT_NONEXISTENT)
             || (new_state =? OBJECT_NONEXISTENT) && negb (state =? OBJECT_PENDING))).

(** The payload of the class method. *)
Definition object_map_update_data (objno new_state : Z) (current_state : option Z) : list Z :=
  ceph_encode_64 objno ++ ceph_encode_64 (u64 (objno + 1)) ++ ceph_encode_8 new_state
  ++ match current_state with
     | Some c => ceph_encode_8 1 ++ ceph_encode_8 c
     | None => ceph_encode_8 0
     end.
(** [rbd_cls_object_map_update]: an error or the payload. *)
Definition rbd_cls_object_map_update (objno new_state : Z) (current_state : option Z)
    : St (Z * list Z) :=
  ret ← call;
  if nonzero ret then mret (ret, [])
  else
    ret ← call;
    if nonzero ret then mret (ret, [])
    else mret (0, object_map_update_data objno new_state current_state).

(** 0: sent, 1: not needed, negative: an error. *)
Definition rbd_object_map_update (snap_id new_state : Z) (current_state : option Z) : St Z :=
  req ← rget;
  let objno := oe_objno (or_ex req) in
  needed ← (if snap_id =? CEPH_NOSNAP then slift (update_needed objno new_state) else mret true);
  if negb needed then mret 1
  else
    ret ← alloc;
    if nonzero ret then mret ret
    else
      _ ← rmodify add_osd_req;
      ret ← (if snap_id =? CEPH_NOSNAP then call else mret 0);
      if nonzero ret then mret ret
      else
        '(ret, data) ← rbd_cls_object_map_update objno new_state current_state;
        if nonzero ret then mret ret
        else
          ret ← call;
          if nonzero ret then mret ret
          else
            _ ← send (Map_update snap_id (if snap_id =? CEPH_NOSNAP then 2 else 1) data);
            mret 0.

(** ** Extents in the parent *)

(** How many of the first [cnt] extents begin below the overlap: those behind are dropped. *)
Fixpoint extents_below (exts : list ceph_file_extent) (cnt : nat) (overlap : Z) : outcome nat :=
  match cnt with
  | O => Ret O
  | S c => ex ← aget exts (Z.of_nat c);
           if fe_off ex >=? overlap then extents_below exts c overlap else Ret cnt
  end.
Definition prune_extents (exts : list ceph_file_extent) (overlap : Z)
    : outcome (list ceph_file_extent) :=
  cnt ← extents_below exts (length exts) overlap;
  match cnt with
  | O => Ret []
  | S c =>
      ex ← aget exts (Z.of_nat c);
      exts ← (if u64 (fe_off ex + fe_len ex) >? overlap then
                aset exts (Z.of_nat c) {| fe_off := fe_off ex; fe_len := overlap - fe_off ex |}
              else Ret exts);
      Ret (take cnt exts)
  end.

Definition rbd_obj_calc_img_extents (entire : bool) : St Z :=
  if rd_parent_overlap dev =? 0 then mret 0
  else
    req ← rget;
    ok ← call;
    '(ret, exts) ← slift (ceph_extent_to_file (λ _, ok =? 0) (rd_layout dev) (oe_objno (or_ex req))
        (if entire then 0 else oe_off (or_ex req))
        (if entire then object_size (rd_layout dev) else oe_len (or_ex req)));
    if nonzero ret then mret ret
    else
      exts ← slift (prune_extents exts (rd_parent_overlap dev));
      _ ← rmodify (set_img_extents exts);
      mret 0.

(** ** Preparation *)

Definition rbd_obj_init_read : St Z :=
  _ ← rmodify (set_state (Read_state RBD_OBJ_READ_START)); mret 0.

Definition rbd_obj_init_write : St Z :=
  ret ← rbd_obj_calc_img_extents true;
  if nonzero ret then mret ret
  else
    req ← rget;
    _ ← (if rbd_obj_copyup_enabled dev img req then rmodify (set_flag RBD_OBJ_FLAG_COPYUP_ENABLED)
         else mret tt);
    _ ← rmodify (set_state (Write_state RBD_OBJ_WRITE_START));
    mret 0.

(** [round_up], [round_down]: to powers of two, by their masks. *)
Definition round_up (x y : Z) : Z := u64 (Z.lor (u64 (x - 1)) (y - 1) + 1).
Definition round_down (x y : Z) : Z := Z.land x (u64 (Z.lnot (y - 1))).

(** [None]: too small to free anything. *)
Definition discard_range (req : rbd_obj_request) : option (Z * Z) :=
  let ex := or_ex req in
  if negb (rd_alloc_size dev =? object_size (rd_layout dev)) || negb (rbd_obj_is_tail dev req) then
    let off := round_up (oe_off ex) (rd_alloc_size dev) in
    let next_off := round_down (u64 (oe_off ex + oe_len ex)) (rd_alloc_size dev) in
    if off >=? next_off then None else Some (off, next_off - off)
  else Some (oe_off ex, oe_len ex).

Definition rbd_obj_init_discard : St Z :=
  req ← rget;
  match discard_range req with
  | None => mret 1
  | Some (off, len) =>
      _ ← rmodify (λ req, set_ex req
            {| oe_objno := oe_objno (or_ex req); oe_off := off; oe_len := len |});
      ret ← rbd_obj_calc_img_extents true;
      if nonzero ret then mret ret
      else
        _ ← rmodify (set_flag RBD_OBJ_FLAG_NOOP_FOR_NONEXISTENT);
        req ← rget;
        _ ← (if rbd_obj_is_entire dev req && bool_decide (or_img_extents req = []) then
               rmodify (set_flag RBD_OBJ_FLAG_DELETION)
             else mret tt);
        _ ← rmodify (set_state (Write_state RBD_OBJ_WRITE_START));
        mret 0
  end.

Definition rbd_obj_init_zeroout : St Z :=
  ret ← rbd_obj_calc_img_extents true;
  if nonzero ret then mret ret
  else
    req ← rget;
    _ ← (if rbd_obj_copyup_enabled dev img req then rmodify (set_flag RBD_OBJ_FLAG_COPYUP_ENABLED)
         else mret tt);
    _ ← (if bool_decide (or_img_extents req = []) then
           _ ← rmodify (set_flag RBD_OBJ_FLAG_NOOP_FOR_NONEXISTENT);
           if rbd_obj_is_entire dev req then rmodify (set_flag RBD_OBJ_FLAG_DELETION) else mret tt
         else mret tt);
    _ ← rmodify (set_state (Write_state RBD_OBJ_WRITE_START));
    mret 0.

(** [__rbd_img_fill_request], of one object request: 1 says that it is dropped. *)
Definition rbd_obj_init : St Z :=
  match ir_op_type img with
  | OBJ_OP_READ => rbd_obj_init_read
  | OBJ_OP_WRITE => rbd_obj_init_write
  | OBJ_OP_DISCARD => rbd_obj_init_discard
  | OBJ_OP_ZEROOUT => rbd_obj_init_zeroout
  end.

(** ** OSD requests *)

(** [osd_req_op_init] and its relatives. *)
Definition set_op (which : Z) (op : osd_op) (req : ceph_osd_request) : outcome ceph_osd_request :=
  ops ← aset (r_ops req) which (Some op);
  Ret (CephOsdRequest (r_objno req) (r_snapc req) (r_snapid req) (r_write req) ops).

Definition rbd_obj_add_osd_request_ (snapc : option (list Z)) (num_ops : Z)
    : St (ceph_osd_request + Z) :=
  ret ← alloc;
  if nonzero ret then mret (inr ret)
  else
    _ ← rmodify add_osd_req;
    ret ← call;
    if nonzero ret then mret (inr ret)
    else
      req ← rget;
      mret (inl (CephOsdRequest (oe_objno (or_ex req)) snapc CEPH_NOSNAP false
                   (replicate (Z.to_nat num_ops) None))).
Definition rbd_obj_add_osd_request (num_ops : Z) : St (ceph_osd_request + Z) :=
  rbd_obj_add_osd_request_ (Some (ir_snapc img)) num_ops.

Definition rbd_osd_format_read (req : ceph_osd_request) : ceph_osd_request :=
  CephOsdRequest (r_objno req) (r_snapc req) (ir_snap_id img) false (r_ops req).
Definition rbd_osd_format_write (req : ceph_osd_request) : ceph_osd_request :=
  CephOsdRequest (r_objno req) (r_snapc req) (r_snapid req) true (r_ops req).

(** The bytes an operation takes from the data buffer. *)
Definition rbd_osd_setup_data (req : rbd_obj_request) : outcome (list Z) :=
  match ir_data_type img with
  | OBJ_REQUEST_NODATA => Undef
  | OBJ_REQUEST_BIO => Ret (take (Z.to_nat (oe_len (or_ex req))) (or_data req))
  | OBJ_REQUEST_BVECS | OBJ_REQUEST_OWN_BVECS =>
      _ ← require (Z.of_nat (length (or_data req)) =? oe_len (or_ex req));
      Ret (or_data req)
  end.

Definition setup_write_ops (req : rbd_obj_request) (osd_req : ceph_osd_request) (which : Z)
    : outcome ceph_osd_request :=
  '(osd_req, which) ←
    (if negb use_object_map || negb (flag req RBD_OBJ_FLAG_MAY_EXIST) then
       let sz := object_size (rd_layout dev) in
       osd_req ← set_op which (CEPH_OSD_OP_SETALLOCHINT sz sz (rd_alloc_hint_flags dev)) osd_req;
       Ret (osd_req, which + 1)
     else Ret (osd_req, which));
  data ← rbd_osd_setup_data req;
  set_op which (if rbd_obj_is_entire dev req
                then CEPH_OSD_OP_WRITEFULL (oe_off (or_ex req)) (oe_len (or_ex req)) data
                else CEPH_OSD_OP_WRITE (oe_off (or_ex req)) (oe_len (or_ex req)) data) osd_req.

Definition truncate_or_zero (req : rbd_obj_request) : osd_op :=
  if rbd_obj_is_tail dev req then CEPH_OSD_OP_TRUNCATE (oe_off (or_ex req)) (oe_len (or_ex req))
  else CEPH_OSD_OP_ZERO (oe_off (or_ex req)) (oe_len (or_ex req)).

Definition setup_discard_ops (req : rbd_obj_request) (osd_req : ceph_osd_request) (which : Z)
    : outcome ceph_osd_request :=
  if rbd_obj_is_entire dev req && bool_decide (or_img_extents req = []) then
    _ ← require (flag req RBD_OBJ_FLAG_DELETION);
    set_op which CEPH_OSD_OP_DELETE osd_req
  else set_op which (truncate_or_zero req) osd_req.

Definition setup_zeroout_ops (req : rbd_obj_request) (osd_req : ceph_osd_request) (which : Z)
    : outcome ceph_osd_request :=
  if rbd_obj_is_entire dev req then
    if bool_decide (or_img_extents req = []) then
      _ ← require (flag req RBD_OBJ_FLAG_DELETION);
      set_op which CEPH_OSD_OP_DELETE osd_req
    else
      '(osd_req, which) ←
        (if negb (flag req RBD_OBJ_FLAG_COPYUP_ENABLED) then
           osd_req ← set_op which CEPH_OSD_OP_CREATE osd_req; Ret (osd_req, which + 1)
         else Ret (osd_req, which));
      set_op which (CEPH_OSD_OP_TRUNCATE (oe_off (or_ex req)) (oe_len (or_ex req))) osd_req
  else set_op which (truncate_or_zero req) osd_req.

Definition count_write_ops (req : rbd_obj_request) : outcome Z :=
  match ir_op_type img with
  | OBJ_OP_WRITE =>
      Ret (if negb use_object_map || negb (flag req RBD_OBJ_FLAG_MAY_EXIST) then 2 else 1)
  | OBJ_OP_DISCARD => Ret 1
  | OBJ_OP_ZEROOUT =>
      Ret (if rbd_obj_is_entire dev req && negb (bool_decide (or_img_extents req = []))
              && negb (flag req RBD_OBJ_FLAG_COPYUP_ENABLED) then 2 else 1)
  | OBJ_OP_READ => Undef
  end.

Definition rbd_osd_setup_write_ops (req : rbd_obj_request) (osd_req : ceph_osd_request) (which : Z)
    : outcome ceph_osd_request :=
  match ir_op_type img with
  | OBJ_OP_WRITE => setup_write_ops req osd_req which
  | OBJ_OP_DISCARD => setup_discard_ops req osd_req which
  | OBJ_OP_ZEROOUT => setup_zeroout_ops req osd_req which
  | OBJ_OP_READ => Undef
  end.

(** [ceph_osdc_alloc_messages] and [rbd_osd_submit]. *)
Definition alloc_and_submit (req : ceph_osd_request) : St Z :=
  ret ← call;
  if nonzero ret then mret ret else _ ← send (Osd_request req); mret 0.

(** The rest of a function that goes on with the request or returns the error. *)
Definition with_osd_req (r : ceph_osd_request + Z) (k : ceph_osd_request → St Z) : St Z :=
  match r with inl req => k req | inr e => mret e end.
End requests.
