(* ===== verification/RbdMachine.v ===== *)
(** * The state machines of RBD object requests (rbd/rbd.c)

    [rbd_obj_advance_read], [rbd_obj_advance_write] and what they send. *)
From S2P Require Import Prelude Striper Hash Crush Mapper Choose DoRule Workspace OsdMap Decode.
From S2P Require Import Rbd RbdObject.

(** [goto again]: a pass over the state ends with the result to go on with ([inl]) or with
    whether the request is completed and its result. *)
Fixpoint again (fuel : nat) (pass : Z → St (Z + (bool * Z))) (result : Z) : St (bool * Z) := λ s,
  match fuel with
  | O => NoFuel
  | S n => '(o, s) ← pass result s;
           match o with inl result => again n pass result s | inr r => Ret (r, s) end
  end.

Section machine.
Context (err : nat → Z) (dev : rbd_device) (img : img_info).

Definition go (result : Z) : St (Z + (bool * Z)) := mret (inl result).
Definition completed (result : Z) : St (Z + (bool * Z)) := mret (inr (true, result)).
Definition waiting (result : Z) : St (Z + (bool * Z)) := mret (inr (false, result)).

(** ** Reads *)

Definition rbd_obj_may_exist : St bool :=
  req ← rget;
  may ← slift (rbd_object_map_may_exist dev (oe_objno (or_ex req)));
  _ ← (if may : bool then rmodify (set_flag RBD_OBJ_FLAG_MAY_EXIST) else mret tt);
  mret may.

Definition rbd_obj_read_object : St Z :=
  osd_req ← rbd_obj_add_osd_request_ err None 1;
  with_osd_req osd_req (λ osd_req,
    req ← rget;
    osd_req ← slift (set_op 0 (CEPH_OSD_OP_READ (oe_off (or_ex req)) (oe_len (or_ex req))) osd_req);
    _ ← slift (rbd_osd_setup_data img req);
    alloc_and_submit err (rbd_osd_format_read img osd_req)).

(** The child request reads into the data buffer, or the buffer for the copyup. *)
Definition rbd_obj_read_from_parent : St Z :=
  ret ← alloc err;
  if nonzero ret then mret ret
  else
    req ← rget;
    _ ← slift (if rbd_img_is_write img then _ ← deref (or_copyup_bvecs req); Ret tt
               else require (negb (bool_decide (ir_data_type img = OBJ_REQUEST_NODATA))));
    ret ← call err;
    if nonzero ret then mret ret
    else _ ← send (Parent_read (or_img_extents req)); mret 0.

Definition zero_range (off bytes : Z) (data : list Z) : outcome (list Z) :=
  _ ← require (off + bytes <=? Z.of_nat (length data));
  Ret (take (Z.to_nat off) data ++ replicate (Z.to_nat bytes) 0
       ++ drop (Z.to_nat (off + bytes)) data).
Definition rbd_obj_zero_range (off bytes : Z) : St unit :=
  req ← rget;
  _ ← slift (require (negb (bool_decide (ir_data_type img = OBJ_REQUEST_NODATA))));
  data ← slift (zero_range (u32 off) (u32 bytes) (or_data req));
  rmodify (set_data data).

(** The answer of the OSD: a hole, or less than was asked for. *)
Definition read_object_done (result : Z) : St (Z + (bool * Z)) :=
  req ← rget;
  let len := oe_len (or_ex req) in
  if result =? - ENOENT then
    _ ← rbd_obj_zero_range 0 len; completed 0
  else if result >=? 0 then
    _ ← (if result <? len then rbd_obj_zero_range result (len - result)
         else slift (require (result =? len)));
    completed 0
  else completed result.

Definition advance_read (result : Z) : St (Z + (bool * Z)) :=
  req ← rget;
  match or_state req with
  | Read_state RBD_OBJ_READ_START =>
      _ ← slift (require (result =? 0));
      may ← rbd_obj_may_exist;
      if negb may then
        _ ← rmodify (set_state (Read_state RBD_OBJ_READ_OBJECT)); go (- ENOENT)
      else
        ret ← rbd_obj_read_object;
        if nonzero ret then completed ret
        else _ ← rmodify (set_state (Read_state RBD_OBJ_READ_OBJECT)); waiting result
  | Read_state RBD_OBJ_READ_OBJECT =>
      if (result =? - ENOENT) && negb (rd_parent_overlap dev =? 0) then
        ret ← rbd_obj_calc_img_extents err dev false;
        if nonzero ret then completed ret
        else
          req ← rget;
          if bool_decide (or_img_extents req = []) then read_object_done result
          else
            ret ← rbd_obj_read_from_parent;
            if nonzero ret then completed ret
            else _ ← rmodify (set_state (Read_state RBD_OBJ_READ_PARENT)); waiting result
      else read_object_done result
  | Read_state RBD_OBJ_READ_PARENT =>
      _ ← (if result =? 0 then
             let obj_overlap := u32 (rbd_obj_img_extents_bytes req) in
             let len := oe_len (or_ex req) in
             if obj_overlap <? len then rbd_obj_zero_range obj_overlap (len - obj_overlap)
             else mret tt
           else mret tt);
      completed result
  | _ => slift Undef
  end.

Definition rbd_obj_advance_read (result : Z) : St (bool * Z) := again 2 advance_read result.

(** ** Copyup *)

Definition MODS_ONLY : Z := 2 ^ 32 - 1.

(** Whether the first [bytes] bytes are zero. *)
Definition is_zero_bvecs (bvecs : list (list Z)) (bytes : Z) : outcome bool :=
  _ ← require (bytes <=? Z.of_nat (length (concat bvecs)));
  Ret (forallb (Z.eqb 0) (take (Z.to_nat bytes) (concat bvecs))).

(** [rbd_osd_setup_copyup] *)
Definition rbd_osd_setup_copyup (osd_req : ceph_osd_request) (which bytes : Z)
    : St (ceph_osd_request + Z) :=
  ret ← call err;
  if nonzero ret then mret (inr ret)
  else
    req ← rget;
    bvecs ← slift (deref (or_copyup_bvecs req));
    osd_req ← slift (set_op which (CEPH_OSD_OP_CALL_COPYUP (take (Z.to_nat bytes) (concat bvecs))) osd_req);
    mret (inl osd_req).

Definition rbd_obj_copyup_empty_snapc (bytes : Z) : St Z :=
  _ ← slift (require ((bytes >? 0) && negb (bytes =? MODS_ONLY)));
  osd_req ← rbd_obj_add_osd_request_ err (Some []) 1;
  with_osd_req osd_req (λ osd_req,
    osd_req ← rbd_osd_setup_copyup osd_req 0 bytes;
    with_osd_req osd_req (λ osd_req,
      alloc_and_submit err (rbd_osd_format_write osd_req))).

Definition rbd_obj_copyup_current_snapc (bytes : Z) : St Z :=
  req ← rget;
  num_ops ← slift (count_write_ops dev img req);
  let num_ops := if bytes =? MODS_ONLY then num_ops else num_ops + 1 in
  osd_req ← rbd_obj_add_osd_request err img num_ops;
  with_osd_req osd_req (λ osd_req,
    osd_req ← (if bytes =? MODS_ONLY then mret (inl osd_req)
               else rbd_osd_setup_copyup osd_req 0 bytes);
    with_osd_req osd_req (λ osd_req,
      req ← rget;
      osd_req ← slift (rbd_osd_setup_write_ops dev img req osd_req
                         (if bytes =? MODS_ONLY then 0 else 1));
      alloc_and_submit err (rbd_osd_format_write osd_req))).

(** The pages; [None] is the last one that could be had.  What is in them is not known yet. *)
Fixpoint copyup_pages (n : nat) (obj_overlap : Z) : St (option (list (list Z))) :=
  match n with
  | O => _ ← slift (require (obj_overlap =? 0)); mret (Some [])
  | S n =>
      let len := Z.min obj_overlap PAGE_SIZE in
      ret ← alloc err;
      if nonzero ret then mret None
      else
        l ← copyup_pages n (u64 (obj_overlap - len));
        mret (cons (replicate (Z.to_nat len) 0) <$> l)
  end.
Definition setup_copyup_bvecs (obj_overlap : Z) : St Z :=
  req ← rget;
  _ ← slift (require (bool_decide (or_copyup_bvecs req = None)));
  ret ← alloc err;
  if nonzero ret then mret ret
  else
    l ← copyup_pages (Z.to_nat ((obj_overlap + PAGE_SIZE - 1) / PAGE_SIZE)) obj_overlap;
    match l with
    | None => mret (- ENOMEM)
    | Some l => _ ← rmodify (set_copyup_bvecs (Some l)); mret 0
    end.

Definition rbd_obj_copyup_read_parent : St Z :=
  req ← rget;
  _ ← slift (require (negb (bool_decide (or_img_extents req = []))));
  exts ← slift (prune_extents (or_img_extents req) (rd_parent_overlap dev));
  _ ← rmodify (set_img_extents exts);
  if bool_decide (exts = []) then rbd_obj_copyup_current_snapc MODS_ONLY
  else
    req ← rget;
    ret ← setup_copyup_bvecs (rbd_obj_img_extents_bytes req);
    if nonzero ret then mret ret else rbd_obj_read_from_parent.

Definition no_pending (req : rbd_obj_request) : bool :=
  (pr_result (or_pending req) =? 0) && (pr_num_pending (or_pending req) =? 0).
Definition one_more_pending : St unit :=
  rmodify (λ req, set_pending (PendingResult (pr_result (or_pending req))
                                 (pr_num_pending (or_pending req) + 1)) req).
Definition pending_failed (ret : Z) : St unit :=
  rmodify (λ req, set_pending (PendingResult ret (pr_num_pending (or_pending req))) req).

Fixpoint update_snap_maps (snaps : list Z) : St unit :=
  match snaps with
  | [] => mret tt
  | snap :: snaps =>
      let new_state :=
        if has (rd_features dev) RBD_FEATURE_FAST_DIFF && negb (bool_decide (snaps = []))
        then OBJECT_EXISTS_CLEAN else OBJECT_EXISTS in
      ret ← rbd_object_map_update err dev snap new_state None;
      if ret <? 0 then pending_failed ret
      else
        _ ← slift (require (ret =? 0));
        _ ← one_more_pending;
        update_snap_maps snaps
  end.
Definition rbd_obj_copyup_object_maps : St unit :=
  req ← rget;
  _ ← slift (require (no_pending req));
  if negb (has (rd_features dev) RBD_FEATURE_OBJECT_MAP) then mret tt
  else if flag req RBD_OBJ_FLAG_COPYUP_ZEROS then mret tt
  else update_snap_maps (ir_snapc img).

Definition rbd_obj_copyup_write_object : St unit :=
  req ← rget;
  _ ← slift (require (no_pending req));
  let bytes := if flag req RBD_OBJ_FLAG_COPYUP_ZEROS then 0 else u32 (rbd_obj_img_extents_bytes req) in
  deep ← (if negb (Z.of_nat (length (ir_snapc img)) =? 0) && (bytes >? 0) then
            ret ← rbd_obj_copyup_empty_snapc bytes;
            if nonzero ret then _ ← pending_failed ret; mret None
            else _ ← one_more_pending; mret (Some MODS_ONLY)
          else mret (Some bytes));
  match deep with
  | None => mret tt
  | Some bytes =>
      ret ← rbd_obj_copyup_current_snapc bytes;
      if nonzero ret then pending_failed ret else one_more_pending
  end.

Definition dec_pending (result : Z) : St (option Z) :=
  req ← rget;
  '(o, p) ← slift (pending_result_dec (or_pending req) result);
  _ ← rmodify (set_pending p);
  mret o.

(** After the part that sends requests: the next state when there are none, or the one that
    counts them. *)
Definition await (none counting : rbd_obj_copyup_state) (result : Z) : St (Z + (bool * Z)) :=
  req ← rget;
  if pr_num_pending (or_pending req) =? 0 then
    _ ← rmodify (set_copyup_state none); go (pr_result (or_pending req))
  else _ ← rmodify (set_copyup_state counting); waiting result.

(** [RBD_OBJ_COPYUP_OBJECT_MAPS] and what falls through to it. *)
Definition copyup_maps_done (result : Z) : St (Z + (bool * Z)) :=
  if nonzero result then completed result
  else
    _ ← rbd_obj_copyup_write_object;
    await RBD_OBJ_COPYUP_WRITE_OBJECT RBD_OBJ_COPYUP_WRITE_OBJECT_ result.

Definition advance_copyup (result : Z) : St (Z + (bool * Z)) :=
  req ← rget;
  match or_copyup_state req with
  | Some RBD_OBJ_COPYUP_START =>
      _ ← slift (require (result =? 0));
      ret ← rbd_obj_copyup_read_parent;
      if nonzero ret then completed ret
      else
        _ ← rmodify (λ req, set_copyup_state
              (if bool_decide (or_img_extents req = []) then RBD_OBJ_COPYUP_WRITE_OBJECT
               else RBD_OBJ_COPYUP_READ_PARENT) req);
        waiting result
  | Some RBD_OBJ_COPYUP_READ_PARENT =>
      if nonzero result then completed result
      else
        bvecs ← slift (deref (or_copyup_bvecs req));
        zeros ← slift (is_zero_bvecs bvecs (u32 (rbd_obj_img_extents_bytes req)));
        _ ← (if zeros : bool then rmodify (set_flag RBD_OBJ_FLAG_COPYUP_ZEROS) else mret tt);
        _ ← rbd_obj_copyup_object_maps;
        await RBD_OBJ_COPYUP_OBJECT_MAPS RBD_OBJ_COPYUP_OBJECT_MAPS_ result
  | Some RBD_OBJ_COPYUP_OBJECT_MAPS_ =>
      o ← dec_pending result;
      match o with None => waiting result | Some result => copyup_maps_done result end
  | Some RBD_OBJ_COPYUP_OBJECT_MAPS => copyup_maps_done result
  | Some RBD_OBJ_COPYUP_WRITE_OBJECT_ =>
      o ← dec_pending result;
      match o with None => waiting result | Some result => completed result end
  | Some RBD_OBJ_COPYUP_WRITE_OBJECT => completed result
  | None => slift Undef
  end.
Definition rbd_obj_advance_copyup (result : Z) : St (bool * Z) := again 3 advance_copyup result.

(** ** Writes *)

Definition rbd_obj_write_is_noop : St bool :=
  _ ← rbd_obj_may_exist;
  req ← rget;
  mret (negb (flag req RBD_OBJ_FLAG_MAY_EXIST) && flag req RBD_OBJ_FLAG_NOOP_FOR_NONEXISTENT).

Definition rbd_obj_write_pre_object_map : St Z :=
  req ← rget;
  if negb (has (rd_features dev) RBD_FEATURE_OBJECT_MAP) then mret 1
  else
    rbd_object_map_update err dev CEPH_NOSNAP
      (if flag req RBD_OBJ_FLAG_DELETION then OBJECT_PENDING else OBJECT_EXISTS) None.

Definition rbd_osd_setup_stat (osd_req : ceph_osd_request) (which : Z) : St (ceph_osd_request + Z) :=
  ret ← alloc err;
  if nonzero ret then mret (inr ret)
  else osd_req ← slift (set_op which CEPH_OSD_OP_STAT osd_req); mret (inl osd_req).

Definition rbd_obj_write_object : St Z :=
  req ← rget;
  num_ops ← slift (count_write_ops dev img req);
  let guarded := flag req RBD_OBJ_FLAG_COPYUP_ENABLED in
  osd_req ← rbd_obj_add_osd_request err img (if guarded then num_ops + 1 else num_ops);
  with_osd_req osd_req (λ osd_req,
    osd_req ← (if guarded then rbd_osd_setup_stat osd_req 0 else mret (inl osd_req));
    with_osd_req osd_req (λ osd_req,
      req ← rget;
      osd_req ← slift (rbd_osd_setup_write_ops dev img req osd_req (if guarded then 1 else 0));
      alloc_and_submit err (rbd_osd_format_write osd_req))).

Definition rbd_obj_write_post_object_map : St Z :=
  req ← rget;
  if negb (has (rd_features dev) RBD_FEATURE_OBJECT_MAP) then mret 1
  else if negb (flag req RBD_OBJ_FLAG_DELETION) then mret 1
  else rbd_object_map_update err dev CEPH_NOSNAP OBJECT_NONEXISTENT (Some OBJECT_PENDING).

(** An object map update and what follows: at once if it is not needed. *)
Definition after_map_update (ret : Z) (next : rbd_obj_write_state) (result : Z)
    : St (Z + (bool * Z)) :=
  if ret <? 0 then completed ret
  else
    _ ← rmodify (set_state (Write_state next));
    if ret >? 0 then go result else waiting result.

(** [RBD_OBJ_WRITE_COPYUP] and what falls through to it. *)
Definition write_copyup_done (result : Z) : St (Z + (bool * Z)) :=
  if nonzero result then completed result
  else ret ← rbd_obj_write_post_object_map; after_map_update ret RBD_OBJ_WRITE_POST_OBJECT_MAP result.

Definition advance_write (result : Z) : St (Z + (bool * Z)) :=
  req ← rget;
  match or_state req with
  | Write_state RBD_OBJ_WRITE_START =>
      _ ← slift (require (result =? 0));
      noop ← rbd_obj_write_is_noop;
      if noop : bool then completed result
      else ret ← rbd_obj_write_pre_object_map; after_map_update ret RBD_OBJ_WRITE_PRE_OBJECT_MAP result
  | Write_state RBD_OBJ_WRITE_PRE_OBJECT_MAP =>
      if nonzero result then completed result
      else
        ret ← rbd_obj_write_object;
        if nonzero ret then completed ret
        else _ ← rmodify (set_state (Write_state RBD_OBJ_WRITE_OBJECT)); waiting result
  | Write_state RBD_OBJ_WRITE_OBJECT =>
      if (result =? - ENOENT) && flag req RBD_OBJ_FLAG_COPYUP_ENABLED then
        _ ← rmodify (λ req, set_state (Write_state RBD_OBJ_WRITE_COPYUP_)
                              (set_copyup_state RBD_OBJ_COPYUP_START req));
        go 0
      else
        let result := if (result =? - ENOENT) && flag req RBD_OBJ_FLAG_DELETION then 0 else result in
        if nonzero result then completed result
        else _ ← rmodify (set_state (Write_state RBD_OBJ_WRITE_COPYUP)); go result
  | Write_state RBD_OBJ_WRITE_COPYUP_ =>
      '(done, result) ← rbd_obj_advance_copyup result;
      if negb done then waiting result else write_copyup_done result
  | Write_state RBD_OBJ_WRITE_COPYUP => write_copyup_done result
  | Write_state RBD_OBJ_WRITE_POST_OBJECT_MAP => completed result
  | _ => slift Undef
  end.
Definition rbd_obj_advance_write (result : Z) : St (bool * Z) := again 3 advance_write result.

(** [__rbd_obj_handle_request]: whether the request is completed, and its result. *)
Definition rbd_obj_handle_request_ (result : Z) : St (bool * Z) :=
  '(done, result) ← (if rbd_img_is_write img then rbd_obj_advance_write result
                     else rbd_obj_advance_read result);
  _ ← slift (require (negb (done && nonzero result) || (result <? 0)));
  mret (done, result).

(** [rbd_osd_req_callback]: writes do not return data. *)
Definition osd_result (r_result : Z) : Z :=
  if (r_result >? 0) && rbd_img_is_write img then 0 else r_result.
End machine.

(** [rbd_object_map_update_finish]: the result, and the device with its map updated. *)
Definition rbd_object_map_update_finish (dev : rbd_device) (objno : Z) (r_result num_ops : Z)
    (data : list Z) : outcome (Z * rbd_device) :=
  if nonzero r_result then Ret (r_result, dev)
  else if num_ops =? 1 then Ret (0, dev)
  else
    _ ← require (num_ops =? 2);
    '(r, _, _) ← (no ← ceph_decode_64 data;
                  end_ ← ceph_decode_64 data;
                  new_state ← ceph_decode_8 data;
                  has_current_state ← ceph_decode_8 data;
                  current ← (if nonzero has_current_state then c ← ceph_decode_8 data; mret (Some c)
                             else mret None);
                  mret (no, end_, new_state, current)) tt 0;
    match r with
    | inr _ => Undef
    | inl (no, end_, new_state, current) =>
        _ ← require (no =? objno);
        _ ← require (end_ =? u64 (objno + 1));
        state ← rbd_object_map_get dev objno;
        let applies :=
          match current with
          | None => true
          | Some current =>
              (current =? state) || (current =? OBJECT_EXISTS) && (state =? OBJECT_EXISTS_CLEAN)
          end in
        if applies then dev ← rbd_object_map_set dev objno new_state; Ret (0, dev) else Ret (0, dev)
    end.
