(* ===== verification/RbdObjectMap.v ===== *)
(** * The object map of an RBD image (rbd/rbd.c)

    Two bits per object, read and written in place, and the protocol of its updates: what is
    encoded for the class method is what the completion applies. *)
From S2P Require Import Prelude Striper Hash Crush Mapper Choose DoRule Workspace OsdMap Decode.
From S2P Require Import Rbd RbdObject RbdMachine.

(** Loaded, and [objno] is in it. *)
Definition map_ok (dev : rbd_device) (objno : Z) : Prop :=
  0 <= objno < rd_object_map_size dev ∧ rd_object_map_size dev < 2 ^ 64 ∧
  ∃ m, rd_object_map dev = Some m ∧ rd_object_map_size dev <= 4 * Z.of_nat (length m)
       ∧ Forall (λ b, 0 <= b < 256) m.

(** The states as a function. *)
Definition state_at (dev : rbd_device) (objno : Z) : Z :=
  match rd_object_map dev with
  | Some m => Z.land (Z.shiftr (nth (Z.to_nat (objno / 4)) m 0) (2 * (3 - objno mod 4))) 3
  | None => 0
  end.

Lemma object_map_index_eq dev objno :
  0 <= objno < rd_object_map_size dev →
  object_map_index dev objno = Ret (objno / 4, 2 * (3 - objno mod 4)).
Proof.
  intros Hobj. unfold object_map_index, require. rewrite (proj2 (Z.ltb_lt _ _)) by lia.
  cbn [mbind outcome_bind]. change OBJS_PER_BYTE with 4. rewrite div_u64_rem_nz by lia.
  cbn [mbind outcome_bind]. unfold BITS_PER_OBJ. pose proof (Z.mod_pos_bound objno 4 ltac:(lia)).
  rewrite u8_small by lia. do 2 f_equal. lia.
Qed.

Lemma byte_at dev objno m :
  0 <= objno < rd_object_map_size dev → rd_object_map_size dev <= 4 * Z.of_nat (length m) →
  0 <= objno / 4 < Z.of_nat (length m) ∧ aget m (objno / 4) = Ret (nth (Z.to_nat (objno / 4)) m 0).
Proof.
  intros Hobj Hlen. assert (Hi : 0 <= objno / 4 < Z.of_nat (length m)).
  { split; [apply Z.div_pos; lia|apply Z.div_lt_upper_bound; lia]. }
  split; [done|]. apply Mapper.aget_Some; [lia|].
  destruct (nth_lookup_or_length m (Z.to_nat (objno / 4)) 0); [done|lia].
Qed.

Lemma land_3_range x : 0 <= Z.land x 3 < 4.
Proof. change 3 with (Z.ones 2). rewrite Z.land_ones by lia. apply Z.mod_pos_bound. lia. Qed.

Lemma object_map_get_eq dev objno : map_ok dev objno → rbd_object_map_get dev objno = Ret (state_at dev objno).
Proof.
  intros (Hobj & _ & m & Hm & Hlen & _). unfold rbd_object_map_get, state_at.
  rewrite object_map_index_eq by done. cbn [mbind outcome_bind]. rewrite Hm. cbn [deref mbind outcome_bind].
  destruct (byte_at dev objno m Hobj Hlen) as [_ ->]. done.
Qed.

Lemma state_at_range dev objno : map_ok dev objno → 0 <= state_at dev objno < 4.
Proof. intros (_ & _ & m & Hm & _). unfold state_at. rewrite Hm. apply land_3_range. Qed.

(** One byte: two bits change, the others stay. *)
Definition put_bits (b shift val : Z) : Z :=
  u8 (Z.lor (Z.land b (Z.lnot (Z.shiftl OBJ_MASK shift))) (Z.shiftl val shift)).

Lemma put_bits_table :
  forall_range 256 0 (λ b, forall_range 4 0 (λ i, forall_range 4 0 (λ val,
    let b' := put_bits b (2 * i) val in
    (0 <=? b') && (b' <? 256) && forall_range 4 0 (λ j,
      Z.land (Z.shiftr b' (2 * j)) 3
        =? if j =? i then val else Z.land (Z.shiftr b (2 * j)) 3)))) = true.
Proof. by vm_compute. Qed.

Lemma put_bits_spec b i val :
  0 <= b < 256 → 0 <= i < 4 → 0 <= val < 4 →
  0 <= put_bits b (2 * i) val < 256 ∧
  ∀ j, 0 <= j < 4 → Z.land (Z.shiftr (put_bits b (2 * i) val) (2 * j)) 3
    = if j =? i then val else Z.land (Z.shiftr b (2 * j)) 3.
Proof.
  intros Hb Hi Hval. pose proof (forall_range_true _ _ _ put_bits_table b ltac:(lia)) as H.
  pose proof (forall_range_true _ _ _ H i ltac:(lia)) as H1.
  pose proof (forall_range_true _ _ _ H1 val ltac:(lia)) as H2. cbv zeta in H2.
  apply andb_true_iff in H2 as [[H3 H4]%andb_true_iff H5]. bool_to_prop. split; [lia|].
  intros j Hj. pose proof (forall_range_true _ _ _ H5 j ltac:(lia)) as H6. by apply Z.eqb_eq in H6.
Qed.

(** The device with one state changed. *)
Definition with_state (dev : rbd_device) (objno val : Z) : rbd_device :=
  match rd_object_map dev with
  | Some m =>
      set_object_map dev
        (Some (<[Z.to_nat (objno / 4) := put_bits (nth (Z.to_nat (objno / 4)) m 0) (2 * (3 - objno mod 4)) val]> m))
        (rd_object_map_size dev)
  | None => dev
  end.

Lemma object_map_set_eq dev objno val :
  map_ok dev objno → 0 <= val < 4 → rbd_object_map_set dev objno val = Ret (with_state dev objno val).
Proof.
  intros (Hobj & _ & m & Hm & Hlen & _) Hval. unfold rbd_object_map_set, with_state, require.
  assert ((Z.land val (Z.lnot OBJ_MASK) =? 0) = true) as ->.
  { assert (val = 0 ∨ val = 1 ∨ val = 2 ∨ val = 3) as [-> | [-> | [-> | ->]]] by lia; done. }
  cbn [mbind outcome_bind]. rewrite object_map_index_eq by done. cbn [mbind outcome_bind]. rewrite Hm.
  cbn [deref mbind outcome_bind]. destruct (byte_at dev objno m Hobj Hlen) as [Hi ->].
  cbn [mbind outcome_bind]. unfold aset.
  rewrite (proj2 (Z.leb_le _ _)), (proj2 (Z.ltb_lt _ _)) by lia. done.
Qed.

Lemma nth_insert_same (l : list Z) i v : (i < length l)%nat → nth i (<[i := v]> l) 0 = v.
Proof.
  intros Hi. by rewrite nth_lookup, list_lookup_insert_eq.
Qed.
Lemma nth_insert_other (l : list Z) i j v : i ≠ j → nth j (<[i := v]> l) 0 = nth j l 0.
Proof. intros Hne. rewrite !nth_lookup. by rewrite list_lookup_insert_ne. Qed.

Lemma nth_byte m i : Forall (λ b, 0 <= b < 256) m → 0 <= nth i m 0 < 256.
Proof. intros Hm. rewrite nth_lookup. destruct (m !! i) eqn:E; simpl; [by eapply (Forall_lookup_1 _ _ _ _ Hm)|lia]. Qed.

Lemma with_state_spec dev objno val :
  map_ok dev objno → 0 <= val < 4 →
  (∀ no, map_ok dev no → map_ok (with_state dev objno val) no
     ∧ state_at (with_state dev objno val) no = if no =? objno then val else state_at dev no).
Proof.
  intros (Hobj & _ & m & Hm & Hlen & Hbytes) Hval no (Hno & H64 & _).
  unfold with_state. rewrite Hm.
  destruct (byte_at dev objno m Hobj Hlen) as [Hi _]. pose proof (Z.mod_pos_bound objno 4 ltac:(lia)).
  pose proof (Z.mod_pos_bound no 4 ltac:(lia)).
  destruct (put_bits_spec (nth (Z.to_nat (objno / 4)) m 0) (3 - objno mod 4) val
    (nth_byte _ _ Hbytes) ltac:(lia) Hval) as [Hrange Hbits].
  split.
  { split; [done|]. split; [done|]. eexists. split; [done|]. rewrite length_insert. split; [done|].
    by apply Forall_insert. }
  unfold state_at. cbn [set_object_map rd_object_map]. rewrite Hm.
  destruct (decide (no / 4 = objno / 4)) as [Heq|Hne].
  - rewrite Heq, nth_insert_same by lia. rewrite Hbits by lia.
    destruct (Z.eqb_spec no objno) as [->|Hd]; [by rewrite Z.eqb_refl|].
    rewrite (proj2 (Z.eqb_neq _ _)); [done|].
    pose proof (Z.div_mod no 4 ltac:(lia)). pose proof (Z.div_mod objno 4 ltac:(lia)). lia.
  - pose proof (Z.div_pos no 4 ltac:(lia) ltac:(lia)).
    rewrite nth_insert_other by lia. rewrite (proj2 (Z.eqb_neq _ _)); [done|]. congruence.
Qed.

(** ** Updates *)

Definition map_state (x : Z) : Prop := 0 <= x < 4.

(** What a completed update does to the state it finds. *)
Definition next_state (state new_state : Z) (current : option Z) : Z :=
  match current with
  | None => new_state
  | Some c =>
      if (c =? state) || (c =? OBJECT_EXISTS) && (state =? OBJECT_EXISTS_CLEAN) then new_state else state
  end.

Definition decode_update (data : list Z) : D unit (Z * Z * Z * option Z) :=
  no ← ceph_decode_64 data;
  end_ ← ceph_decode_64 data;
  new_state ← ceph_decode_8 data;
  has_current_state ← ceph_decode_8 data;
  current ← (if nonzero has_current_state then c ← ceph_decode_8 data; mret (Some c) else mret None);
  mret (no, end_, new_state, current).

Lemma decode_update_data objno new_state current :
  0 <= objno < 2 ^ 64 → map_state new_state → (∀ c, current = Some c → map_state c) →
  parses (S := unit) 0 (λ buf _, decode_update buf) (object_map_update_data objno new_state current)
    (objno, u64 (objno + 1), new_state, current).
Proof.
  unfold map_state. intros Hno Hnew Hcur. unfold decode_update, object_map_update_data.
  eapply parses_bind; [by apply parses_64|].
  eapply parses_bind; [apply parses_64, u64_range|].
  eapply parses_bind; [apply parses_8; lia|].
  destruct current as [c|].
  - specialize (Hcur c eq_refl). eapply parses_bind; [by apply parses_8|]. simpl nonzero. cbv iota.
    eapply parses_bind_ret; [|apply parses_ret]. eapply parses_bind_ret; [apply parses_8; lia|apply parses_ret].
  - eapply parses_bind_ret; [by apply parses_8|]. simpl nonzero. cbv iota.
    eapply parses_bind_nil; [apply parses_ret|apply parses_ret].
Qed.

(** What changed of the states, when one did. *)
Definition one_state (dev dev' : rbd_device) (objno val : Z) : Prop :=
  ∀ no, map_ok dev no → map_ok dev' no ∧ state_at dev' no = if no =? objno then val else state_at dev no.

Lemma one_state_same dev objno val : state_at dev objno = val → one_state dev dev objno val.
Proof. intros Heq no Hno. split; [done|]. destruct (Z.eqb_spec no objno) as [->|]; done. Qed.

(** Nothing but the map differs. *)
Definition same_but_map (dev dev' : rbd_device) : Prop := ∃ m, dev' = set_object_map dev m (rd_object_map_size dev).
Lemma same_but_map_refl dev : same_but_map dev dev.
Proof. exists (rd_object_map dev). by destruct dev. Qed.
Lemma same_but_map_with_state dev objno val : same_but_map dev (with_state dev objno val).
Proof. unfold with_state. destruct (rd_object_map dev); [by eexists|apply same_but_map_refl]. Qed.

Lemma update_finish_wp dev objno new_state current :
  map_ok dev objno → map_state new_state → (∀ c, current = Some c → map_state c) →
  ∃ dev', rbd_object_map_update_finish dev objno 0 2 (object_map_update_data objno new_state current)
      = Ret (0, dev')
    ∧ one_state dev dev' objno (next_state (state_at dev objno) new_state current) ∧ same_but_map dev dev'.
Proof.
  intros Hok Hnew Hcur. destruct (Hok) as (Hobj & H64 & _).
  pose proof (decode_update_data objno new_state current ltac:(lia) Hnew Hcur [] []
    (Z.of_nat (length (object_map_update_data objno new_state current))) tt eq_refl ltac:(lia)) as Hdec.
  rewrite app_nil_r in Hdec. cbn [app] in Hdec. unfold rbd_object_map_update_finish.
  fold (decode_update (object_map_update_data objno new_state current)). rewrite Hdec.
  simpl nonzero. cbv iota. cbn [mbind outcome_bind require]. unfold require. rewrite !Z.eqb_refl.
  cbn [mbind outcome_bind]. rewrite object_map_get_eq by done. cbn [mbind outcome_bind].
  unfold map_state in Hnew. destruct current as [c|]; cbn [next_state].
  - destruct ((c =? _) || _) eqn:E.
    + rewrite object_map_set_eq by done. cbn [mbind outcome_bind]. eexists. split; [done|].
      split; [|apply same_but_map_with_state]. intros no Hno. by apply with_state_spec.
    + eexists. split; [done|]. split; [by apply one_state_same|apply same_but_map_refl].
  - rewrite object_map_set_eq by done. cbn [mbind outcome_bind]. eexists. split; [done|].
    split; [|apply same_but_map_with_state]. intros no Hno. by apply with_state_spec.
Qed.

(** C32: the object map is a vector of states.  The completion of an update of the map of the live
    image decodes what was encoded for the class method and does to the copy in memory what the
    method does on the OSD: the object's state becomes the new one, unless a state was expected
    and another one is found ([EXISTS_CLEAN] is taken for [EXISTS]); no other object's state
    changes.  A failed update, and one of the map of a snapshot, change nothing. *)
Theorem rbd_object_map_update_finish_applies (dev : rbd_device) (objno r_result num_ops new_state : Z)
    (current : option Z)
    (Hok : map_ok dev objno) (Hnew : map_state new_state)
    (Hcur : ∀ c, current = Some c → map_state c) (Hops : num_ops = 1 ∨ num_ops = 2) :
  ∃ dev', rbd_object_map_update_finish dev objno r_result num_ops
      (object_map_update_data objno new_state current) = Ret (r_result, dev')
    ∧ if (r_result =? 0) && (num_ops =? 2)
      then one_state dev dev' objno (next_state (state_at dev objno) new_state current)
      else dev' = dev.
Proof.
  destruct (Z.eqb_spec r_result 0) as [->|Hr]; cbn [andb].
  - destruct Hops as [->| ->]; [by eexists|].
    destruct (update_finish_wp dev objno new_state current Hok Hnew Hcur) as (dev' & ? & ? & _). by exists dev'.
  - exists dev. unfold rbd_object_map_update_finish, nonzero.
    rewrite (proj2 (Z.eqb_neq _ _)) by done. done.
Qed.

Definition ex_layout : ceph_file_layout :=
  {| stripe_unit := 16; stripe_count := 1; object_size := 16 |}.
Definition ex_device : rbd_device :=
  RbdDevice (Z.lor RBD_FEATURE_EXCLUSIVE_LOCK RBD_FEATURE_OBJECT_MAP) ex_layout 96 CEPH_NOSNAP false
    40 (Some [0x1b; 0xe4]) 6 0 RBD_LOCK_STATE_LOCKED 4 false false 0.

Lemma ex_map_ok objno : 0 <= objno < 6 → map_ok ex_device objno.
Proof.
  intros H. split; [done|]. split; [done|]. exists [0x1b; 0xe4]. split; [done|]. split; [done|].
  repeat (apply Forall_cons; split); [lia..|by apply Forall_nil_2].
Qed.

Lemma rbd_object_map_update_finish_applies_witness :
  ∃ dev', rbd_object_map_update_finish ex_device 2 0 2
      (object_map_update_data 2 OBJECT_NONEXISTENT (Some OBJECT_PENDING)) = Ret (0, dev')
    ∧ state_at ex_device 2 = OBJECT_PENDING ∧ state_at dev' 2 = OBJECT_NONEXISTENT
    ∧ state_at dev' 1 = OBJECT_EXISTS.
Proof.
  destruct (rbd_object_map_update_finish_applies ex_device 2 0 2 OBJECT_NONEXISTENT (Some OBJECT_PENDING))
    as (dev' & H1 & H2).
  - by apply ex_map_ok.
  - done.
  - by intros c [= <-].
  - by right.
  - exists dev'. split; [exact H1|]. split; [reflexivity|].
    destruct (H2 2 (ex_map_ok 2 ltac:(lia))) as [_ E2]. destruct (H2 1 (ex_map_ok 1 ltac:(lia))) as [_ E1].
    split; [exact E2|exact E1].
Defined.
