(* ===== verification/RbdParent.v ===== *)
(** * What an object covers of the parent image (rbd/rbd.c, [prune_extents],
    [rbd_obj_calc_img_extents])

    The extents of an object in the parent, cut off at the overlap, as sets of bytes. *)
From S2P Require Import Prelude Striper Hash Crush Mapper Choose DoRule Workspace OsdMap Decode.
From S2P Require Import Rbd RbdObject.

(** In order, disjoint, not empty, and of offsets that do not wrap. *)
Record extents_ok (exts : list ceph_file_extent) : Prop := {
  eo_sorted : StronglySorted fe_le exts;
  eo_each : Forall (λ fe, 0 <= fe_off fe ∧ 0 < fe_len fe ∧ fe_off fe + fe_len fe < 2 ^ 64) exts }.

(** The extents below the overlap, the last one cut off there. *)
Fixpoint clip (overlap : Z) (exts : list ceph_file_extent) : list ceph_file_extent :=
  match exts with
  | [] => []
  | fe :: exts =>
      if fe_off fe >=? overlap then []
      else {| fe_off := fe_off fe; fe_len := Z.min (fe_len fe) (overlap - fe_off fe) |} :: clip overlap exts
  end.

Definition bytes_of (exts : list ceph_file_extent) : Z := foldr Z.add 0 (fe_len <$> exts).
Definition in_extents (exts : list ceph_file_extent) (f : Z) : Prop := ∃ fe, fe ∈ exts ∧ fe_contains fe f.

Lemma extents_ok_nil : extents_ok [].
Proof. split; constructor. Qed.

Lemma extents_ok_cons fe exts :
  extents_ok (fe :: exts) ↔ extents_ok exts ∧ Forall (fe_le fe) exts
    ∧ 0 <= fe_off fe ∧ 0 < fe_len fe ∧ fe_off fe + fe_len fe < 2 ^ 64.
Proof.
  split.
  - intros [[Hs Hf]%StronglySorted_cons [He1 He2]%Forall_cons]. by split; [split|].
  - intros ([Hs He] & Hf & H). by split; [apply StronglySorted_cons|apply Forall_cons].
Qed.

Lemma clip_beyond overlap exts :
  Forall (λ fe, overlap <= fe_off fe) exts → clip overlap exts = [].
Proof.
  destruct 1 as [|fe exts H]; [done|]. simpl. rewrite Z.geb_leb. by rewrite (proj2 (Z.leb_le _ _)).
Qed.

Lemma clip_app overlap l1 l2 :
  Forall (λ fe, fe_off fe < overlap) l1 → clip overlap (l1 ++ l2) = clip overlap l1 ++ clip overlap l2.
Proof.
  induction 1 as [|fe l1 H _ IH]; [done|]. simpl. rewrite Z.geb_leb.
  rewrite (proj2 (Z.leb_gt _ _)) by done. simpl. by rewrite IH.
Qed.

Lemma clip_whole overlap exts :
  Forall (λ fe, 0 < fe_len fe ∧ fe_off fe + fe_len fe <= overlap) exts → clip overlap exts = exts.
Proof.
  induction 1 as [|fe exts [H0 H] _ IH]; [done|]. simpl. rewrite Z.geb_leb.
  rewrite (proj2 (Z.leb_gt _ _)) by lia. rewrite IH, Z.min_l by lia. by destruct fe.
Qed.

(** The loop finds where the extents leave the overlap. *)
Lemma extents_below_spec overlap l1 l2 :
  Forall (λ fe, fe_off fe < overlap) l1 → Forall (λ fe, overlap <= fe_off fe) l2 →
  ∀ n, (n <= length l2)%nat →
  extents_below (l1 ++ l2) (length l1 + n) overlap = Ret (length l1).
Proof.
  intros H1 H2. induction n as [|n IH]; intros Hn.
  - rewrite Nat.add_0_r. destruct l1 as [|fe l1 _] using rev_ind; [done|].
    rewrite length_app, Nat.add_1_r. cbn [extents_below].
    rewrite (Mapper.aget_Some _ _ fe); [|lia|].
    + cbn [mbind outcome_bind]. apply Forall_app in H1 as [_ [H _]%Forall_cons].
      rewrite Z.geb_leb. by rewrite (proj2 (Z.leb_gt _ _)).
    + rewrite Nat2Z.id, <- (assoc_L (++)), lookup_app_r, Nat.sub_diag by lia. done.
  - rewrite Nat.add_succ_r. cbn [extents_below].
    destruct (lookup_lt_is_Some_2 l2 n) as [fe Hfe]; [lia|].
    rewrite (Mapper.aget_Some _ _ fe); [|lia|].
    + cbn [mbind outcome_bind]. rewrite Forall_lookup in H2. rewrite Z.geb_leb.
      rewrite (proj2 (Z.leb_le _ _)) by by eapply H2. apply IH. lia.
    + rewrite Nat2Z.id, lookup_app_r by lia. by replace (length l1 + n - length l1)%nat with n by lia.
Qed.

Lemma split_at_overlap overlap exts :
  extents_ok exts → ∃ l1 l2, exts = l1 ++ l2 ∧ Forall (λ fe, fe_off fe < overlap) l1
    ∧ Forall (λ fe, overlap <= fe_off fe) l2.
Proof.
  induction exts as [|fe exts IH]; intros Hok; [by exists [], []|].
  apply extents_ok_cons in Hok as (Hok & Hle & H0 & Hpos & _).
  destruct (decide (fe_off fe < overlap)) as [Hlt|Hge].
  - destruct (IH Hok) as (l1 & l2 & -> & H1 & H2). exists (fe :: l1), l2.
    split; [done|]. split; [by apply Forall_cons|done].
  - exists [], (fe :: exts). split; [done|]. split; [done|]. apply Forall_cons. split; [lia|].
    eapply Forall_impl; [exact Hle|]. unfold fe_le. intros x Hx. simpl in *. lia.
Qed.

Lemma prune_extents_eq overlap exts :
  extents_ok exts → prune_extents exts overlap = Ret (clip overlap exts).
Proof.
  intros Hok. destruct (split_at_overlap overlap exts Hok) as (l1 & l2 & -> & H1 & H2).
  unfold prune_extents. rewrite length_app, (extents_below_spec overlap l1 l2 H1 H2) by done.
  cbn [mbind outcome_bind]. rewrite (clip_app _ _ _ H1), (clip_beyond _ l2 H2), app_nil_r.
  destruct l1 as [|fe l1 _] using rev_ind; [done|].
  rewrite length_app, Nat.add_1_r. cbv iota.
  apply Forall_app in H1 as [H1 [Hfe _]%Forall_cons]. destruct Hok as [Hs He].
  apply Forall_app in He as [[He1 [(H0 & Hpos & H64) _]%Forall_cons]%Forall_app _].
  assert (Hlast : ((l1 ++ [fe]) ++ l2) !! Z.to_nat (Z.of_nat (length l1)) = Some fe).
  { rewrite Nat2Z.id, <- (assoc_L (++)), lookup_app_r, Nat.sub_diag by lia. done. }
  rewrite (Mapper.aget_Some _ _ fe) by (done || lia). cbn [mbind outcome_bind].
  rewrite u64_small by lia.
  assert (Hclip : clip overlap l1 = l1).
  { apply clip_whole. rewrite Forall_forall in He1 |- *. intros x Hx.
    rewrite <- (assoc_L (++)), !StronglySorted_app in Hs. destruct Hs as (Hs & _ & _).
    specialize (Hs x fe Hx ltac:(set_solver)). destruct (He1 x Hx) as (? & ? & _). unfold fe_le in Hs. lia. }
  rewrite (clip_app _ _ [fe] H1), Hclip. simpl clip. rewrite Z.geb_leb, (proj2 (Z.leb_gt _ _)) by done.
  destruct (Z.gtb_spec (fe_off fe + fe_len fe) overlap) as [Hgt|Hle].
  - rewrite aset_Some by (rewrite !length_app; simpl; lia). cbn [mbind outcome_bind].
    rewrite Nat2Z.id, <- (assoc_L (++)), insert_app_r_alt, Nat.sub_diag by lia. simpl.
    rewrite Z.min_r by lia. f_equal. change (S (length l1)) with (1 + length l1)%nat.
    rewrite Nat.add_comm, take_app_add. done.
  - cbn [mbind outcome_bind]. rewrite Z.min_l by lia. f_equal. destruct fe; simpl.
    rewrite take_app_le by (rewrite length_app; simpl; lia). apply take_ge. rewrite length_app. simpl. lia.
Qed.

Lemma clip_ok overlap exts : extents_ok exts → extents_ok (clip overlap exts).
Proof.
  induction exts as [|fe exts IH]; intros Hok; [done|]. simpl.
  destruct (Z.geb_spec (fe_off fe) overlap) as [_|Hlt]; [apply extents_ok_nil|].
  apply extents_ok_cons in Hok as (Hok & Hle & H0 & Hpos & H64). apply extents_ok_cons.
  split; [by apply IH|]. split; [|simpl; lia]. clear IH Hok.
  induction exts as [|fe2 exts IH]; [done|]. simpl. destruct (fe_off fe2 >=? overlap); [done|].
  apply Forall_cons in Hle as [H Hle]. apply Forall_cons. split; [|by apply IH].
  unfold fe_le in *. simpl in *. lia.
Qed.

(** The bytes are those below the overlap. *)
Lemma in_clip overlap exts f :
  extents_ok exts → in_extents (clip overlap exts) f ↔ in_extents exts f ∧ f < overlap.
Proof.
  induction exts as [|fe exts IH]; intros Hok.
  { unfold in_extents. simpl. split; [|intros [H _]; exact H]. intros (? & []%elem_of_nil & _). }
  apply extents_ok_cons in Hok as (Hok & Hle & H0 & Hpos & H64). specialize (IH Hok). simpl.
  unfold in_extents in *. destruct (Z.geb_spec (fe_off fe) overlap) as [Hge|Hlt].
  - split; [intros (? & []%elem_of_nil & _)|].
    intros [(x & Hx & Hc) Hf]. unfold fe_contains in Hc. apply elem_of_cons in Hx as [->|Hx]; [lia|].
    rewrite Forall_forall in Hle. specialize (Hle x Hx). unfold fe_le in Hle. lia.
  - split.
    + intros (x & [->|Hx]%elem_of_cons & Hc).
      * unfold fe_contains in *. simpl in Hc. split; [|lia]. exists fe. split; [by left|]. lia.
      * destruct (proj1 IH) as [(y & Hy & Hyc) Hf]; [by exists x|]. split; [|done]. exists y. split; [by right|done].
    + intros [(x & [->|Hx]%elem_of_cons & Hc) Hf].
      * eexists. split; [by left|]. unfold fe_contains in *. simpl. lia.
      * destruct (proj2 IH) as (y & Hy & Hyc); [by split; [exists x|]|]. exists y. split; [by right|done].
Qed.

Lemma bytes_of_cons fe exts : bytes_of (fe :: exts) = fe_len fe + bytes_of exts.
Proof. done. Qed.
Lemma bytes_of_nonneg exts : extents_ok exts → 0 <= bytes_of exts.
Proof.
  intros [_ He]. induction He as [|fe exts (? & ? & _) _ IH]; [done|]. rewrite bytes_of_cons. lia.
Qed.
Lemma bytes_of_pos exts : extents_ok exts → exts ≠ [] → 0 < bytes_of exts.
Proof.
  destruct exts as [|fe exts]; [done|]. intros Hok%extents_ok_cons _. destruct Hok as (Hok & _ & _ & Hpos & _).
  apply bytes_of_nonneg in Hok. rewrite bytes_of_cons. lia.
Qed.
Lemma bytes_of_clip overlap exts : extents_ok exts → bytes_of (clip overlap exts) <= bytes_of exts.
Proof.
  induction exts as [|fe exts IH]; intros Hok; [done|]. pose proof (bytes_of_nonneg _ Hok) as H0.
  cbn [clip]. destruct (fe_off fe >=? overlap); [done|].
  apply extents_ok_cons in Hok as (Hok & _). specialize (IH Hok).
  rewrite !bytes_of_cons in *. cbn [fe_len]. lia.
Qed.

Lemma extents_bytes_from exts z :
  extents_ok exts → 0 <= z → z + bytes_of exts < 2 ^ 64 →
  foldl (λ bytes fe, u64 (bytes + fe_len fe)) z exts = z + bytes_of exts.
Proof.
  revert z. induction exts as [|fe exts IH]; intros z Hok Hz Hlt; [unfold bytes_of; simpl; lia|].
  apply extents_ok_cons in Hok as (Hok & _ & _ & Hpos & _). pose proof (bytes_of_nonneg _ Hok).
  rewrite bytes_of_cons in *. cbn [foldl]. rewrite u64_small by lia. rewrite IH by (done || lia). lia.
Qed.
Lemma extents_bytes_eq exts :
  extents_ok exts → bytes_of exts < 2 ^ 64 → ceph_file_extents_bytes exts = bytes_of exts.
Proof. intros Hok Hlt. by apply (extents_bytes_from exts 0). Qed.

Lemma extents_of_object l n objoff cur fes :
  valid_layout l → 0 <= n → 0 <= objoff <= cur → cur <= object_size l →
  unlocate l n (object_size l - 1) < 2 ^ 64 - 1 →
  file_extents_inv l n objoff cur fes → extents_ok fes.
Proof.
  intros Hl Hn Hoff Hcur Hlast [Hs Hpos Hc _]. split; [done|]. apply Forall_forall. intros fe Hfe.
  specialize (Hpos fe Hfe).
  destruct (proj1 (Hc (fe_off fe))) as (o1 & Ho1 & E1); [exists fe; split; [done|unfold fe_contains; lia]|].
  destruct (proj1 (Hc (fe_off fe + fe_len fe - 1))) as (o2 & Ho2 & E2);
    [exists fe; split; [done|unfold fe_contains; lia]|].
  pose proof (unlocate_nonneg l Hl n o1 Hn ltac:(lia)).
  pose proof (unlocate_mono l Hl n o2 (object_size l - 1) ltac:(lia)). lia.
Qed.

(** ** Byte by byte *)

Definition addresses (exts : list ceph_file_extent) : list Z :=
  concat ((λ fe, seqZ (fe_off fe) (fe_len fe)) <$> exts).

Lemma elem_of_addresses exts f : f ∈ addresses exts ↔ in_extents exts f.
Proof.
  unfold addresses, in_extents. induction exts as [|fe exts IH].
  - split; [by intros ?%elem_of_nil|]. by intros (? & ?%elem_of_nil & _).
  - rewrite fmap_cons, concat_cons, elem_of_app, elem_of_seqZ, IH. unfold fe_contains. split.
    + intros [H|(x & Hx & Hf)]; [exists fe; split; [by left|done]|exists x; split; [by right|done]].
    + intros (x & [->|Hx]%elem_of_cons & Hf); [by left|right; by exists x].
Qed.

Lemma length_addresses exts : extents_ok exts → Z.of_nat (length (addresses exts)) = bytes_of exts.
Proof.
  intros [_ He]. induction He as [|fe exts (? & ? & _) _ IH]; [done|].
  unfold addresses in *. rewrite fmap_cons, concat_cons, length_app, Nat2Z.inj_add, IH, bytes_of_cons.
  rewrite length_seqZ. lia.
Qed.

Lemma seqZ_sorted a n : StronglySorted Z.lt (seqZ a n).
Proof.
  destruct (Z_lt_le_dec n 0) as [Hn|Hn]; [rewrite seqZ_nil by lia; constructor|].
  revert a. apply (natlike_ind (λ n, ∀ a, StronglySorted Z.lt (seqZ a n))); [intros a; rewrite seqZ_nil by lia; constructor| |done].
  intros m Hm IH a. rewrite seqZ_cons by lia. replace (Z.pred (Z.succ m)) with m by lia. constructor; [done|].
  apply Forall_forall. intros x Hx%elem_of_seqZ. lia.
Qed.

Lemma addresses_sorted exts : extents_ok exts → StronglySorted Z.lt (addresses exts).
Proof.
  induction exts as [|fe exts IH]; intros Hok; [constructor|].
  apply extents_ok_cons in Hok as (Hok & Hle & _). unfold addresses in *. rewrite fmap_cons, concat_cons.
  apply StronglySorted_app. split_and!; [|apply seqZ_sorted|by apply IH].
  intros x y Hx%elem_of_seqZ Hy. apply (elem_of_addresses exts) in Hy as (fe2 & H2 & Hc).
  rewrite Forall_forall in Hle. specialize (Hle fe2 H2). unfold fe_le, fe_contains in *. lia.
Qed.

#[export] Instance Zlt_antisym : AntiSymm (=) Z.lt.
Proof. intros x y. lia. Qed.

Lemma sorted_unique (l1 l2 : list Z) :
  StronglySorted Z.lt l1 → StronglySorted Z.lt l2 → (∀ x, x ∈ l1 ↔ x ∈ l2) → l1 = l2.
Proof.
  intros H1 H2 Heq. apply (StronglySorted_unique Z.lt); [done|done|].
  assert (Hnd : ∀ l, StronglySorted Z.lt l → NoDup l).
  { induction 1 as [|x l _ IH Hf]; constructor; [|done]. intros Hx. rewrite Forall_forall in Hf.
    specialize (Hf x Hx). lia. }
  apply NoDup_Permutation; auto.
Qed.

(** A predicate that stops holding somewhere. *)
Lemma threshold (P : Z → Prop) `{!∀ x, Decision (P x)} a n :
  0 <= n → (∀ x y, a <= x <= y → P y → P x) →
  ∃ k, 0 <= k <= n ∧ ∀ o, a <= o < a + n → (P o ↔ o < a + k).
Proof.
  intros Hn Hdown. revert n Hn. apply natlike_ind.
  - exists 0. split; [lia|]. lia.
  - intros n Hn (k & Hk & Hiff). destruct (decide (P (a + n))) as [HP|HP].
    + exists (n + 1). split; [lia|]. intros o Ho. split; [lia|]. intros _. apply (Hdown o (a + n)); [lia|done].
    + exists k. split; [lia|]. intros o Ho. destruct (decide (o < a + n)) as [Hlt|Hge]; [apply Hiff; lia|].
      replace o with (a + n) by lia. split; [done|]. lia.
Qed.

(** What bytes [a, b) of the object are in the parent, below the overlap. *)
Record parent_extents (l : ceph_file_layout) (objno a b overlap : Z) (exts : list ceph_file_extent) : Prop := {
  pe_ok : extents_ok exts;
  pe_covers : ∀ f, in_extents exts f ↔ (∃ o, a <= o < b ∧ unlocate l objno o = f) ∧ f < overlap }.

Section addresses.
Context (l : ceph_file_layout) (Hl : valid_layout l) (objno : Z) (Hobjno : 0 <= objno).

Lemma unlocated_sorted a n : 0 <= a → StronglySorted Z.lt (unlocate l objno <$> seqZ a n).
Proof.
  intros Ha. assert (Hpos : Forall (λ x, 0 <= x) (seqZ a n)) by (apply Forall_forall; intros x Hx%elem_of_seqZ; lia).
  induction (seqZ_sorted a n) as [|x xs _ IH Hf]; [constructor|]. apply Forall_cons in Hpos as [Hx Hpos].
  rewrite fmap_cons. constructor; [by apply IH|]. apply Forall_fmap. rewrite Forall_forall in *.
  intros y Hy. specialize (Hf y Hy). apply (unlocate_lt l Hl). lia.
Qed.

(** They are the first so many, in order. *)
Lemma parent_addresses a b overlap exts :
  0 <= a <= b → parent_extents l objno a b overlap exts →
  addresses exts = unlocate l objno <$> seqZ a (bytes_of exts) ∧ 0 <= bytes_of exts <= b - a ∧
  ∀ o, a <= o < b → (unlocate l objno o < overlap ↔ o < a + bytes_of exts).
Proof.
  intros Hab [Hok Hcov].
  destruct (threshold (λ o, unlocate l objno o < overlap) a (b - a)) as (k & Hk & Hiff); [lia| |].
  { intros x y Hxy Hy. pose proof (unlocate_mono l Hl objno x y ltac:(lia)). lia. }
  assert (Heq : addresses exts = unlocate l objno <$> seqZ a k).
  { apply sorted_unique; [by apply addresses_sorted|apply unlocated_sorted; lia|].
    intros f. rewrite elem_of_addresses, Hcov, list_elem_of_fmap. split.
    - intros ((o & Ho & <-) & Hf). exists o. split; [done|]. apply elem_of_seqZ. apply Hiff in Hf; lia.
    - intros (o & -> & Ho%elem_of_seqZ). split; [exists o; split; [lia|done]|]. apply Hiff; lia. }
  assert (k = bytes_of exts) as ->.
  { rewrite <- (length_addresses exts Hok), Heq, length_fmap, length_seqZ. lia. }
  split; [done|]. split; [done|]. intros o Ho. apply Hiff. lia.
Qed.

Lemma parent_extents_clip a b overlap fes :
  0 <= a <= b → b <= object_size l → unlocate l objno (object_size l - 1) < 2 ^ 64 - 1 →
  file_extents_inv l objno a b fes → parent_extents l objno a b overlap (clip overlap fes).
Proof.
  intros Ha Hb Hlast Hinv. pose proof (extents_of_object l objno a b fes Hl Hobjno Ha Hb Hlast Hinv) as Hok.
  split; [by apply clip_ok|]. intros f. rewrite in_clip by done. by rewrite <- (fi_covered _ _ _ _ _ Hinv f).
Qed.

Lemma parent_extents_nil a b overlap : 0 <= a → overlap <= 0 → parent_extents l objno a b overlap [].
Proof.
  intros Ha Hov. split; [apply extents_ok_nil|]. intros f. split; [by intros (? & ?%elem_of_nil & _)|].
  intros ((o & Ho & <-) & Hf). pose proof (unlocate_nonneg l Hl objno o Hobjno). lia.
Qed.

Lemma parent_extents_ne a b overlap exts o :
  parent_extents l objno a b overlap exts → a <= o < b → unlocate l objno o < overlap → exts ≠ [].
Proof.
  intros [_ Hcov] Ho Hlt ->. destruct (proj2 (Hcov (unlocate l objno o))) as (? & ?%elem_of_nil & _); [|done].
  split; [by exists o|done].
Qed.

(** A clip at the same place or behind it changes nothing. *)
Lemma parent_extents_below a b overlap overlap' exts :
  parent_extents l objno a b overlap exts → overlap <= overlap' → clip overlap' exts = exts.
Proof.
  intros [[_ He] Hcov] Hle. apply clip_whole. apply Forall_forall. intros fe Hfe.
  rewrite Forall_forall in He. destruct (He fe Hfe) as (? & ? & _). split; [done|].
  destruct (proj1 (Hcov (fe_off fe + fe_len fe - 1))) as [_ ?]; [|lia].
  exists fe. split; [done|]. unfold fe_contains. lia.
Qed.
End addresses.
