(* ===== verification/RbdSends.v ===== *)
(** * What RBD object requests send (rbd/rbd.c)

    The functions that send something, each with the one request it sends: a Hoare logic of
    the monad, the operations of a modification, the requests of copyup. *)
From S2P Require Import Prelude Striper Hash Crush Mapper Choose DoRule Workspace OsdMap Decode.
From S2P Require Import Rbd RbdObject RbdMachine RbdObjectMap RbdParent.

(** ** Reasoning about the monad *)

Definition wps {A} (m : St A) (s : ost) (Q : A → ost → Prop) : Prop := wp (m s) (λ '(a, s'), Q a s').

Section wps.
Context {A B : Type}.
Implicit Types (s : ost).

Lemma wps_ret (a : A) s (Q : A → ost → Prop) : Q a s → wps (mret a) s Q.
Proof. done. Qed.
Lemma wps_bind (m : St A) (f : A → St B) s Q :
  wps m s (λ a s', wps (f a) s' Q) → wps (m ≫= f) s Q.
Proof. unfold wps, mbind, St_bind. by destruct (m s) as [[a s']| |]. Qed.
Lemma wps_mono (m : St A) s (P Q : A → ost → Prop) :
  wps m s P → (∀ a s', P a s' → Q a s') → wps m s Q.
Proof. unfold wps. intros Hm HPQ. eapply wp_mono; [exact Hm|]. intros [a s']. apply HPQ. Qed.
Lemma wps_lift (m : outcome A) s (Q : A → ost → Prop) : wp m (λ a, Q a s) → wps (slift m) s Q.
Proof. unfold wps, slift. by destruct m. Qed.
End wps.

Lemma wps_rget s (Q : rbd_obj_request → ost → Prop) : Q (o_req s) s → wps rget s Q.
Proof. done. Qed.
Lemma wps_rmodify f s (Q : unit → ost → Prop) :
  Q tt (Ost (f (o_req s)) (o_sent s) (o_calls s)) → wps (rmodify f) s Q.
Proof. done. Qed.
Lemma wps_send r s (Q : unit → ost → Prop) :
  Q tt (Ost (o_req s) (o_sent s ++ [r]) (o_calls s)) → wps (send r) s Q.
Proof. done. Qed.

(** The request but for the number of OSD requests it has had. *)
Definition with_reqs (n : nat) (req : rbd_obj_request) : rbd_obj_request :=
  RbdObjRequest (or_ex req) (or_flags req) (or_state req) (or_img_extents req) (or_data req)
    (or_copyup_state req) (or_copyup_bvecs req) n (or_pending req).
Definition grows (s s' : ost) (l : list request) : Prop :=
  o_sent s' = o_sent s ++ l ∧ ∃ n, o_req s' = with_reqs n (o_req s).

Lemma grows_calls s c : grows s (Ost (o_req s) (o_sent s) c) [].
Proof. split; [by rewrite app_nil_r|]. exists (or_osd_reqs (o_req s)). by destruct s as [[] ? ?]. Qed.
Lemma grows_trans s1 s2 s3 l1 l2 : grows s1 s2 l1 → grows s2 s3 l2 → grows s1 s3 (l1 ++ l2).
Proof.
  intros [H1 [n1 E1]] [H2 [n2 E2]]. split; [by rewrite H2, H1, (assoc_L (++))|].
  exists n2. by rewrite E2, E1.
Qed.

(** Calls that fail with errors down to [lo]; 0 says that none fails. *)
Record errors (lo : Z) (err : nat → Z) : Prop := {
  errs_range : ∀ n, lo <= err n <= 0;
  errs_nomem : lo = 0 ∨ lo <= - ENOMEM }.

Definition MAX_ERRNO : Z := 4095.
Lemma any_error err : (∀ n, - MAX_ERRNO <= err n <= 0) → errors (- MAX_ERRNO) err.
Proof. intros H. split; [done|]. by right. Qed.
Lemma no_error err : (∀ n, err n = 0) → errors 0 err.
Proof. intros H. split; [|by left]. intros n. rewrite H. lia. Qed.

(** A function that sends one request or returns an error. *)
Definition sent_one (lo : Z) (P : request → Prop) (s : ost) (ret : Z) (s' : ost) : Prop :=
  (lo <= ret < 0 ∧ grows s s' []) ∨ (ret = 0 ∧ ∃ r, P r ∧ grows s s' [r]).

Section sends.
Context (err : nat → Z) (dev : rbd_device) (img : img_info).
Context (lo : Z) (Herr : errors lo err).

Lemma wps_call s (Q : Z → ost → Prop) :
  (∀ ret s', lo <= ret <= 0 → grows s s' [] → Q ret s') → wps (call err) s Q.
Proof. intros HQ. apply HQ; [by apply errs_range|apply grows_calls]. Qed.
Lemma wps_alloc s (Q : Z → ost → Prop) :
  (∀ ret s', lo <= ret <= 0 → grows s s' [] → Q ret s') → wps (alloc err) s Q.
Proof.
  intros HQ. unfold alloc. apply wps_bind, wps_call. intros ret s' Hr Hs'. apply wps_ret.
  apply HQ; [|done]. pose proof (errs_nomem _ _ Herr). unfold ENOMEM, nonzero in *.
  destruct (Z.eqb_spec ret 0); cbn [negb]; lia.
Qed.

(** A request built on: after an error nothing has been sent. *)
Definition got_req (P : ceph_osd_request → Prop) (s : ost) (r : ceph_osd_request + Z) (s' : ost) : Prop :=
  grows s s' [] ∧ match r with inl req => P req | inr e => lo <= e < 0 end.

Lemma wps_add_osd_request snapc num_ops s :
  wps (rbd_obj_add_osd_request_ err snapc num_ops) s
    (got_req (λ req, r_snapc req = snapc ∧ r_snapid req = CEPH_NOSNAP ∧ r_objno req = oe_objno (or_ex (o_req s))
                     ∧ r_ops req = replicate (Z.to_nat num_ops) None) s).
Proof.
  unfold rbd_obj_add_osd_request_. apply wps_bind, wps_alloc. intros ret s1 Hr H1.
  destruct (nonzero ret) eqn:E; unfold nonzero in E; bool_to_prop.
  { split; [done|]. lia. }
  apply wps_bind, wps_rmodify, wps_bind, wps_call. intros ret2 s2 Hr2 H2.
  assert (H12 : grows s s2 []).
  { eapply (grows_trans _ s1 _ [] []); [done|]. destruct H2 as [? [n En]]. split; [done|].
    exists n. rewrite En. by destruct (o_req s1). }
  destruct (nonzero ret2) eqn:E2; unfold nonzero in E2; bool_to_prop.
  { split; [done|]. lia. }
  apply wps_bind, wps_rget, wps_ret. split; [done|]. split; [done|].
  destruct H12 as [_ [n ->]]. done.
Qed.

Lemma wps_with_osd_req P Q s r s' k :
  got_req P s r s' →
  (∀ req s', grows s s' [] → P req → wps (k req) s' (sent_one lo Q s)) →
  wps (with_osd_req r k) s' (sent_one lo Q s).
Proof.
  intros [Hg Hr] Hk. destruct r as [req|e]; simpl; [by apply Hk|]. apply wps_ret. by left.
Qed.

Lemma wps_alloc_and_submit (P : request → Prop) s s' req :
  grows s s' [] → P (Osd_request req) → wps (alloc_and_submit err req) s' (sent_one lo P s).
Proof.
  intros Hg HP. unfold alloc_and_submit. apply wps_bind, wps_call. intros ret s2 Hr H2.
  pose proof (grows_trans _ _ _ _ _ Hg H2) as H.
  destruct (nonzero ret) eqn:E; unfold nonzero in E; bool_to_prop.
  { apply wps_ret. left. split; [lia|done]. }
  apply wps_bind, wps_send, wps_ret. right. split; [done|]. eexists. split; [done|].
  destruct H as [H [n En]]. split; simpl; [rewrite H; by rewrite app_nil_r|]. by exists n.
Qed.
End sends.

(** ** What the functions send *)

(** The modification itself. *)
Definition modification (dev : rbd_device) (img : img_info) (req : rbd_obj_request) : list osd_op :=
  let off := oe_off (or_ex req) in
  let len := oe_len (or_ex req) in
  match ir_op_type img with
  | OBJ_OP_READ => []
  | OBJ_OP_WRITE =>
      (if negb (use_object_map dev) || negb (flag req RBD_OBJ_FLAG_MAY_EXIST) then
         [CEPH_OSD_OP_SETALLOCHINT (object_size (rd_layout dev)) (object_size (rd_layout dev))
            (rd_alloc_hint_flags dev)]
       else [])
      ++ [if rbd_obj_is_entire dev req then CEPH_OSD_OP_WRITEFULL off len (or_data req)
          else CEPH_OSD_OP_WRITE off len (or_data req)]
  | OBJ_OP_DISCARD =>
      if rbd_obj_is_entire dev req && bool_decide (or_img_extents req = []) then [CEPH_OSD_OP_DELETE]
      else [truncate_or_zero dev req]
  | OBJ_OP_ZEROOUT =>
      if rbd_obj_is_entire dev req then
        if bool_decide (or_img_extents req = []) then [CEPH_OSD_OP_DELETE]
        else (if flag req RBD_OBJ_FLAG_COPYUP_ENABLED then [] else [CEPH_OSD_OP_CREATE])
             ++ [CEPH_OSD_OP_TRUNCATE off len]
      else [truncate_or_zero dev req]
  end.

(** What setting up the modification relies on. *)
Record can_modify (dev : rbd_device) (img : img_info) (req : rbd_obj_request) : Prop := {
  cm_write : rbd_img_is_write img = true;
  cm_data : ir_op_type img = OBJ_OP_WRITE → ir_data_type img ≠ OBJ_REQUEST_NODATA
    ∧ Z.of_nat (length (or_data req)) = oe_len (or_ex req);
  cm_deletion : ir_op_type img = OBJ_OP_DISCARD ∨ ir_op_type img = OBJ_OP_ZEROOUT →
    rbd_obj_is_entire dev req = true → or_img_extents req = [] → flag req RBD_OBJ_FLAG_DELETION = true }.

Lemma count_modification dev img req :
  rbd_img_is_write img = true →
  count_write_ops dev img req = Ret (Z.of_nat (length (modification dev img req))).
Proof.
  intros Hw. unfold count_write_ops, modification, rbd_img_is_write in *.
  destruct (ir_op_type img); [done|..].
  - by destruct (negb (use_object_map dev) || _).
  - by destruct (_ && _).
  - destruct (rbd_obj_is_entire dev req); [|done]. cbn [andb].
    destruct (bool_decide _); [done|]. cbn [negb andb]. by destruct (flag req _).
Qed.

(** Operations go in one behind the other. *)
Definition filled (req : ceph_osd_request) (done : list osd_op) (free : nat) : Prop :=
  r_ops req = map Some done ++ replicate free None.
Definition with_ops (req : ceph_osd_request) (ops : list (option osd_op)) : ceph_osd_request :=
  CephOsdRequest (r_objno req) (r_snapc req) (r_snapid req) (r_write req) ops.

Lemma set_op_next req done free op :
  filled req done (S free) →
  set_op (Z.of_nat (length done)) op req
    = Ret (with_ops req (map Some (done ++ [op]) ++ replicate free None)).
Proof.
  intros Hf. unfold set_op. rewrite Hf.
  rewrite aset_Some by (rewrite length_app, length_map, length_replicate; lia).
  cbn [mbind outcome_bind]. unfold with_ops. do 2 f_equal.
  rewrite Nat2Z.id, insert_app_r_alt, length_map, Nat.sub_diag by (rewrite length_map; lia).
  rewrite map_app, <- (assoc_L (++)). done.
Qed.

Lemma filled_with req ops free : filled (with_ops req (map Some ops ++ replicate free None)) ops free.
Proof. done. Qed.

Lemma set_op_last req done op :
  filled req done 1 → set_op (Z.of_nat (length done)) op req = Ret (with_ops req (map Some (done ++ [op]))).
Proof. intros Hf. by rewrite (set_op_next req done 0 op Hf), app_nil_r. Qed.

Lemma setup_modification dev img req osd_req done :
  can_modify dev img req → filled osd_req done (length (modification dev img req)) →
  rbd_osd_setup_write_ops dev img req osd_req (Z.of_nat (length done))
    = Ret (with_ops osd_req (map Some (done ++ modification dev img req))).
Proof.
  intros [Hw Hdata Hdel] Hf. unfold rbd_osd_setup_write_ops, modification, rbd_img_is_write in *.
  destruct (ir_op_type img); [done|..].
  - destruct (Hdata eq_refl) as [Htype Hlen].
    assert (Hsetup : rbd_osd_setup_data img req = Ret (or_data req)).
    { unfold rbd_osd_setup_data, require. destruct (ir_data_type img); [done|..];
        rewrite ?Hlen, ?Z.eqb_refl; [|done..]. by rewrite take_ge by lia. }
    unfold setup_write_ops. destruct (negb (use_object_map dev) || _); cbn [app length] in Hf |- *.
    + rewrite (set_op_next _ _ _ _ Hf). cbn [mbind outcome_bind]. rewrite Hsetup. cbn [mbind outcome_bind].
      set (hint := CEPH_OSD_OP_SETALLOCHINT _ _ _).
      replace (Z.of_nat (length done) + 1) with (Z.of_nat (length (done ++ [hint])))
        by (rewrite length_app; simpl; lia).
      rewrite (set_op_last _ _ _ (filled_with _ _ _)), <- (assoc_L (++)). done.
    + cbn [mbind outcome_bind]. rewrite Hsetup. cbn [mbind outcome_bind]. by apply set_op_last.
  - unfold setup_discard_ops. destruct (rbd_obj_is_entire dev req) eqn:He; cbn [andb] in *; [|by apply set_op_last].
    case_bool_decide as Hx; [|by apply set_op_last].
    rewrite Hdel by (done || by left). unfold require. cbn [mbind outcome_bind]. by apply set_op_last.
  - unfold setup_zeroout_ops. destruct (rbd_obj_is_entire dev req) eqn:He; [|by apply set_op_last].
    case_bool_decide as Hx.
    + rewrite Hdel by (done || by right). unfold require. cbn [mbind outcome_bind]. by apply set_op_last.
    + destruct (flag req RBD_OBJ_FLAG_COPYUP_ENABLED); cbn [negb app length] in Hf |- *.
      * cbn [mbind outcome_bind]. by apply set_op_last.
      * rewrite (set_op_next _ _ _ _ Hf). cbn [mbind outcome_bind].
        replace (Z.of_nat (length done) + 1) with (Z.of_nat (length (done ++ [CEPH_OSD_OP_CREATE])))
          by (rewrite length_app; simpl; lia).
        rewrite (set_op_last _ _ _ (filled_with _ _ _)), <- (assoc_L (++)). done.
Qed.

(** The request that carries operations [ops]. *)
Definition write_request (snapc : list Z) (req : rbd_obj_request) (ops : list osd_op) : request :=
  Osd_request (CephOsdRequest (oe_objno (or_ex req)) (Some snapc) CEPH_NOSNAP true (map Some ops)).

Lemma modification_reqs dev img req n : modification dev img (with_reqs n req) = modification dev img req.
Proof. done. Qed.
Lemma can_modify_reqs dev img req n : can_modify dev img req → can_modify dev img (with_reqs n req).
Proof. by intros []. Qed.

Section specs.
Context (err : nat → Z) (dev : rbd_device) (img : img_info).
Context (lo : Z) (Herr : errors lo err).
Implicit Types (s : ost).

Lemma grows_refl s : grows s s [].
Proof. split; [by rewrite app_nil_r|]. exists (or_osd_reqs (o_req s)). by destruct s as [[] ? ?]. Qed.
Lemma grows_count s1 s2 : grows s1 s2 [] → grows s1 (Ost (add_osd_req (o_req s2)) (o_sent s2) (o_calls s2)) [].
Proof. intros [H [n E]]. split; [done|]. exists (S (or_osd_reqs (o_req s2))). simpl. by rewrite E. Qed.
Lemma grows_nil_trans s1 s2 s3 l : grows s1 s2 [] → grows s2 s3 l → grows s1 s3 l.
Proof. apply (grows_trans s1 s2 s3 []). Qed.

Lemma wps_branch {A} ret s (m k : St A) (Q : A → ost → Prop) :
  ret <= 0 → (ret < 0 → wps m s Q) → (ret = 0 → wps k s Q) → wps (if nonzero ret then m else k) s Q.
Proof.
  intros Hr Hm Hk. destruct (nonzero ret) eqn:E; unfold nonzero in E; bool_to_prop; [apply Hm; lia|by apply Hk].
Qed.
(** An error returned at once, or the rest. *)
Lemma wps_check {A} ret s (a : A) (k : St A) (Q : A → ost → Prop) :
  lo <= ret <= 0 → (lo <= ret < 0 → Q a s) → (ret = 0 → wps k s Q) →
  wps (if nonzero ret then mret a else k) s Q.
Proof.
  intros Hr Ha Hk. apply wps_branch; [lia| |done]. intros H. apply wps_ret, Ha. lia.
Qed.

Lemma update_needed_eq objno new_state :
  map_ok dev objno → ∃ b, update_needed dev objno new_state = Ret b.
Proof. intros Hok. unfold update_needed. rewrite object_map_get_eq by done. by eexists. Qed.

(** An update is sent, is not needed, or fails. *)
Definition map_update (snap_id objno new_state : Z) (current : option Z) : request :=
  Map_update snap_id (if snap_id =? CEPH_NOSNAP then 2 else 1)
    (object_map_update_data objno new_state current).

Lemma wps_map_update snap_id new_state current s :
  (snap_id = CEPH_NOSNAP → map_ok dev (oe_objno (or_ex (o_req s)))) →
  wps (rbd_object_map_update err dev snap_id new_state current) s (λ ret s',
    (ret = 1 ∧ snap_id = CEPH_NOSNAP ∧ s' = s
      ∧ update_needed dev (oe_objno (or_ex (o_req s))) new_state = Ret false)
    ∨ sent_one lo (λ r, r = map_update snap_id (oe_objno (or_ex (o_req s))) new_state current) s ret s').
Proof.
  intros Hok. unfold rbd_object_map_update. apply wps_bind, wps_rget. cbv zeta. apply wps_bind.
  assert (wps (if snap_id =? CEPH_NOSNAP
    then slift (update_needed dev (oe_objno (or_ex (o_req s))) new_state) else mret true) s
    (λ b s', s' = s ∧ (b = true ∨ b = false ∧ snap_id = CEPH_NOSNAP
      ∧ update_needed dev (oe_objno (or_ex (o_req s))) new_state = Ret false))) as Hneed.
  { destruct (Z.eqb_spec snap_id CEPH_NOSNAP) as [Heq|]; [|apply wps_ret; by split; [|left]].
    destruct (update_needed_eq _ new_state (Hok Heq)) as [b Hb]. apply wps_lift. rewrite Hb.
    simpl. destruct b; eauto. }
  eapply wps_mono; [exact Hneed|]. intros b s' [-> Hb]. clear Hneed.
  destruct b; cbn [negb].
  2:{ apply wps_ret. left. destruct Hb as [|(_ & ? & ?)]; [done|]. done. }
  apply wps_bind. apply (wps_alloc err lo Herr). intros ret s1 Hr H1.
  apply wps_check; [done| |intros _]. { intros. right. by left. }
  apply wps_bind, wps_rmodify. apply grows_count in H1. set (s1' := Ost _ _ _) in *.
  apply wps_bind.
  assert (wps (if snap_id =? CEPH_NOSNAP then call err else mret 0) s1'
    (λ ret s', lo <= ret <= 0 ∧ grows s s' [])) as Hlock.
  { pose proof (errs_range _ _ Herr 0%nat). destruct (snap_id =? CEPH_NOSNAP); [|apply wps_ret; split; [lia|done]].
    apply (wps_call err lo Herr). intros ret' s2 Hr2 H2. split; [done|]. by eapply grows_nil_trans. }
  eapply wps_mono; [exact Hlock|]. intros ret2 s2 [Hr2 H2]. clear Hlock.
  apply wps_check; [done| |intros _]. { intros. right. by left. }
  apply wps_bind. unfold rbd_cls_object_map_update. apply wps_bind, (wps_call err lo Herr). intros ret3 s3 Hr3 H3.
  pose proof (grows_nil_trans _ _ _ _ H2 H3) as H3'.
  apply wps_check; [done| |intros _].
  { intros. cbv beta iota. unfold nonzero. rewrite (proj2 (Z.eqb_neq _ _)) by lia. cbn [negb].
    apply wps_ret. right. by left. }
  apply wps_bind, (wps_call err lo Herr). intros ret4 s4 Hr4 H4. pose proof (grows_nil_trans _ _ _ _ H3' H4) as H4'.
  apply wps_check; [done| |intros _].
  { intros. cbv beta iota. unfold nonzero. rewrite (proj2 (Z.eqb_neq _ _)) by lia. cbn [negb].
    apply wps_ret. right. by left. }
  cbv beta iota. simpl nonzero. cbv iota.
  apply wps_bind, (wps_call err lo Herr). intros ret5 s5 Hr5 H5. pose proof (grows_nil_trans _ _ _ _ H4' H5) as [H5' [n E5]].
  apply wps_check; [done| |intros _]. { intros. right. left. split; [done|]. split; [done|]. by exists n. }
  apply wps_bind, wps_send, wps_ret. right. right. split; [done|]. eexists. split; [done|].
  split; simpl; [by rewrite H5', app_nil_r|]. by exists n.
Qed.

Lemma wps_write_object s :
  can_modify dev img (o_req s) →
  wps (rbd_obj_write_object err dev img) s
    (sent_one lo (λ r, r = write_request (ir_snapc img) (o_req s)
       ((if flag (o_req s) RBD_OBJ_FLAG_COPYUP_ENABLED then [CEPH_OSD_OP_STAT] else [])
        ++ modification dev img (o_req s))) s).
Proof.
  intros Hcm. unfold rbd_obj_write_object. apply wps_bind, wps_rget, wps_bind, wps_lift.
  rewrite count_modification by apply Hcm. cbn [wp]. cbv zeta.
  set (guard := flag (o_req s) RBD_OBJ_FLAG_COPYUP_ENABLED).
  set (mods := modification dev img (o_req s)).
  apply wps_bind. eapply wps_mono; [apply (wps_add_osd_request err lo Herr)|].
  intros r s1 Hgot. eapply (wps_with_osd_req _ _ _ _ _ _ _ Hgot). intros req s1' Hg1 (Hsnapc & Hid & Hobj & Hops).
  clear r s1 Hgot. apply wps_bind.
  assert (wps (if guard then rbd_osd_setup_stat err req 0 else mret (inl req)) s1'
    (got_req lo (λ req', r_snapc req' = Some (ir_snapc img) ∧ r_objno req' = r_objno req ∧ r_snapid req' = r_snapid req
       ∧ filled req' (if guard then [CEPH_OSD_OP_STAT] else []) (length mods)) s)) as Hstat.
  { destruct guard.
    - apply wps_bind, (wps_alloc err lo Herr). intros ret s2 Hr H2. pose proof (grows_nil_trans _ _ _ _ Hg1 H2).
      apply wps_check; [done| |intros _]. { intros. by split. }
      apply wps_bind, wps_lift.
      rewrite (set_op_next req [] (length mods)); [|unfold filled; rewrite Hops; rewrite Z.add_1_r, <- Nat2Z.inj_succ, Nat2Z.id; done].
      cbn [wp]. apply wps_ret. split; [done|]. by split_and!.
    - apply wps_ret. split; [done|]. split_and!; [done..|]. unfold filled. rewrite Hops. by rewrite Nat2Z.id. }
  eapply wps_mono; [exact Hstat|]. clear Hstat. intros r s2 Hgot2.
  eapply (wps_with_osd_req _ _ _ _ _ _ _ Hgot2). intros req' s2' Hg2 (Hsnapc' & Hobj' & Hid' & Hfill).
  clear r s2 Hgot2. apply wps_bind, wps_rget, wps_bind, wps_lift.
  destruct (Hg2) as [_ [n En]]. rewrite En.
  pose proof (setup_modification dev img (with_reqs n (o_req s)) req' _ (can_modify_reqs _ _ _ _ Hcm) Hfill) as Hset.
  replace (if guard then 1 else 0) with (Z.of_nat (length (if guard then [CEPH_OSD_OP_STAT] else [])))
    by (by destruct guard).
  rewrite Hset. cbn [wp]. apply (wps_alloc_and_submit err lo Herr); [done|].
  unfold write_request, rbd_osd_format_write, with_ops. cbn. subst mods guard.
  rewrite Hobj', Hobj, Hsnapc', Hid', Hid. done.
Qed.
End specs.

(** ** What copyup sends *)

Section copyup.
Context (err : nat → Z) (dev : rbd_device) (img : img_info).
Context (lo : Z) (Herr : errors lo err).
Implicit Types (s : ost).

(** The operation in front of the modification. *)
Definition copyup_op (bytes : Z) (bvecs : list (list Z)) : osd_op :=
  CEPH_OSD_OP_CALL_COPYUP (take (Z.to_nat bytes) (concat bvecs)).

(** Whatever the operation in front is: it is there, with what was there before. *)
Definition got_first (op : osd_op) (free : nat) (req req' : ceph_osd_request) : Prop :=
  r_snapc req' = r_snapc req ∧ r_objno req' = r_objno req ∧ r_snapid req' = r_snapid req
  ∧ filled req' [op] free.

Lemma wps_setup_copyup s s1 req bytes bvecs free :
  grows s s1 [] → or_copyup_bvecs (o_req s) = Some bvecs → r_ops req = replicate (S free) None →
  wps (rbd_osd_setup_copyup err req 0 bytes) s1 (got_req lo (got_first (copyup_op bytes bvecs) free req) s).
Proof.
  intros Hg Hb Hops. unfold rbd_osd_setup_copyup. apply wps_bind, (wps_call err lo Herr). intros ret s2 Hr H2.
  pose proof (grows_nil_trans _ _ _ _ Hg H2) as H. apply (wps_check lo); [done| |intros _].
  { intros. by split. }
  apply wps_bind, wps_rget, wps_bind, wps_lift. destruct (H) as [_ [n ->]].
  change (or_copyup_bvecs (with_reqs n (o_req s))) with (or_copyup_bvecs (o_req s)). rewrite Hb. cbn [deref wp].
  apply wps_bind, wps_lift. rewrite (set_op_next req [] free) by exact Hops. cbn [wp].
  apply wps_ret. split; [done|]. by split_and!.
Qed.

Lemma wps_copyup_empty_snapc s bytes bvecs :
  0 < bytes → bytes ≠ MODS_ONLY → or_copyup_bvecs (o_req s) = Some bvecs →
  wps (rbd_obj_copyup_empty_snapc err bytes) s
    (sent_one lo (λ r, r = write_request [] (o_req s) [copyup_op bytes bvecs]) s).
Proof.
  intros H0 Hne Hb. unfold rbd_obj_copyup_empty_snapc. apply wps_bind, wps_lift.
  rewrite (proj2 (Z.gtb_lt _ _)), (proj2 (Z.eqb_neq _ _)) by done. cbn [andb negb require wp].
  apply wps_bind. eapply wps_mono; [apply (wps_add_osd_request err lo Herr)|].
  intros r s1 Hgot. eapply (wps_with_osd_req _ _ _ _ _ _ _ Hgot). intros req s1' Hg1 (Hsnapc & Hid & Hobj & Hops).
  clear r s1 Hgot. apply wps_bind.
  eapply wps_mono; [by apply (wps_setup_copyup s s1' req bytes bvecs 0)|]. intros r s2 Hgot2.
  eapply (wps_with_osd_req _ _ _ _ _ _ _ Hgot2). intros req' s2' Hg2 (Hsnapc' & Hobj' & Hid' & Hfill).
  apply (wps_alloc_and_submit err lo Herr); [done|].
  unfold write_request, rbd_osd_format_write. cbn. rewrite Hobj', Hobj, Hsnapc', Hid', Hid, Hsnapc, Hfill. done.
Qed.

(** [MODS_ONLY], or the data of the parent in front. *)
Definition copyup_ops (bytes : Z) (bvecs : option (list (list Z))) : list osd_op :=
  if bytes =? MODS_ONLY then []
  else match bvecs with Some bvecs => [copyup_op bytes bvecs] | None => [] end.

Lemma wps_copyup_current_snapc s bytes :
  can_modify dev img (o_req s) → (bytes ≠ MODS_ONLY → or_copyup_bvecs (o_req s) ≠ None) →
  wps (rbd_obj_copyup_current_snapc err dev img bytes) s
    (sent_one lo (λ r, r = write_request (ir_snapc img) (o_req s)
       (copyup_ops bytes (or_copyup_bvecs (o_req s)) ++ modification dev img (o_req s))) s).
Proof.
  intros Hcm Hb. unfold rbd_obj_copyup_current_snapc. apply wps_bind, wps_rget, wps_bind, wps_lift.
  rewrite count_modification by apply Hcm. cbn [wp]. cbv zeta. set (mods := modification dev img (o_req s)).
  set (ops := copyup_ops bytes (or_copyup_bvecs (o_req s))).
  apply wps_bind. eapply wps_mono; [apply (wps_add_osd_request err lo Herr)|].
  intros r s1 Hgot. eapply (wps_with_osd_req _ _ _ _ _ _ _ Hgot). intros req s1' Hg1 (Hsnapc & Hid & Hobj & Hops).
  clear r s1 Hgot. apply wps_bind.
  assert (wps (if bytes =? MODS_ONLY then mret (inl req) else rbd_osd_setup_copyup err req 0 bytes) s1'
    (got_req lo (λ req', r_snapc req' = r_snapc req ∧ r_objno req' = r_objno req ∧ r_snapid req' = r_snapid req
       ∧ filled req' ops (length mods)) s)) as Hfirst.
  { subst ops. unfold copyup_ops. destruct (Z.eqb_spec bytes MODS_ONLY) as [->|Hne].
    - apply wps_ret. split; [done|]. split_and!; [done..|]. unfold filled. rewrite Hops. by rewrite Nat2Z.id.
    - destruct (or_copyup_bvecs (o_req s)) as [bvecs|] eqn:E; [|by destruct (Hb Hne)].
      apply (wps_setup_copyup s s1' req bytes bvecs (length mods)); [done|done|].
      rewrite Hops. rewrite Z.add_1_r, <- Nat2Z.inj_succ, Nat2Z.id; done. }
  eapply wps_mono; [exact Hfirst|]. clear Hfirst. intros r s2 Hgot2.
  eapply (wps_with_osd_req _ _ _ _ _ _ _ Hgot2). intros req' s2' Hg2 (Hsnapc' & Hobj' & Hid' & Hfill).
  clear r s2 Hgot2. apply wps_bind, wps_rget, wps_bind, wps_lift. destruct (Hg2) as [_ [n ->]].
  pose proof (setup_modification dev img (with_reqs n (o_req s)) req' _ (can_modify_reqs _ _ _ _ Hcm) Hfill) as Hset.
  replace (if bytes =? MODS_ONLY then 0 else 1) with (Z.of_nat (length ops)).
  2:{ subst ops. unfold copyup_ops. destruct (Z.eqb_spec bytes MODS_ONLY) as [|Hne]; [done|].
      destruct (or_copyup_bvecs (o_req s)); [done|by destruct (Hb Hne)]. }
  rewrite Hset. cbn [wp]. apply (wps_alloc_and_submit err lo Herr); [done|].
  unfold write_request, rbd_osd_format_write, with_ops. cbn.
  rewrite Hobj', Hobj, Hsnapc', Hid', Hid, Hsnapc. done.
Qed.
End copyup.

(** ** Reading the parent for copyup *)

Section read_parent.
Context (err : nat → Z) (dev : rbd_device) (img : img_info).
Context (lo : Z) (Herr : errors lo err).
Implicit Types (s : ost).

(** The pages have room for what is asked for. *)
Lemma wps_copyup_pages n total s :
  0 <= total < 2 ^ 64 → total <= Z.of_nat n * PAGE_SIZE → (Z.of_nat n - 1) * PAGE_SIZE < total ∨ n = O →
  wps (copyup_pages err n total) s (λ l s', grows s s' []
    ∧ match l with Some bvecs => Z.of_nat (length (concat bvecs)) = total | None => lo <= - ENOMEM end).
Proof.
  revert total s. induction n as [|n IH]; intros total s Ht Hle Hlt; cbn [copyup_pages].
  - apply wps_bind, wps_lift. rewrite (proj2 (Z.eqb_eq _ _)) by lia. cbn [require wp].
    apply wps_ret. split; [apply grows_refl|]. simpl. lia.
  - cbv zeta. apply wps_bind, (wps_alloc err lo Herr). intros ret s1 Hr H1.
    apply (wps_check lo); [done|intros Hneg; split; [done|]; destruct (errs_nomem _ _ Herr); lia|intros _].
    unfold PAGE_SIZE in *. rewrite u64_small by lia.
    apply wps_bind. eapply wps_mono; [apply IH; lia|]. intros l s2 [H2 Hl]. apply wps_ret.
    split; [by eapply grows_nil_trans|]. destruct l as [l|]; [|done]. cbn [fmap option_fmap option_map].
    rewrite concat_cons, length_app, length_replicate, Nat2Z.inj_add. lia.
Qed.

(** The request but for the list of pages. *)
Definition bvecs_ready (s : ost) (total ret : Z) (s' : ost) : Prop :=
  o_sent s' = o_sent s ∧
  (lo <= ret < 0 ∨ ret = 0 ∧ ∃ n bvecs, o_req s' = set_copyup_bvecs (Some bvecs) (with_reqs n (o_req s))
     ∧ Z.of_nat (length (concat bvecs)) = total).

Lemma wps_setup_copyup_bvecs total s :
  0 < total < 2 ^ 32 → or_copyup_bvecs (o_req s) = None →
  wps (setup_copyup_bvecs err total) s (bvecs_ready s total).
Proof.
  intros Ht Hnone. unfold setup_copyup_bvecs. apply wps_bind, wps_rget, wps_bind, wps_lift.
  rewrite Hnone. cbn [bool_decide require wp]. apply wps_bind, (wps_alloc err lo Herr). intros ret s1 Hr H1.
  apply (wps_check lo); [done| |intros _].
  { intros. destruct H1 as [H1 _]. rewrite app_nil_r in H1. split; [done|]. by left. }
  apply wps_bind. pose proof (Z.div_mod (total + PAGE_SIZE - 1) PAGE_SIZE) as Hd.
  pose proof (Z.mod_pos_bound (total + PAGE_SIZE - 1) PAGE_SIZE). unfold PAGE_SIZE in *.
  eapply wps_mono; [apply wps_copyup_pages; unfold PAGE_SIZE; lia|].
  intros l s2 [H2 Hl]. destruct (grows_nil_trans _ _ _ _ H1 H2) as [Hs [n En]]. rewrite app_nil_r in Hs.
  destruct l as [l|].
  - apply wps_bind, wps_rmodify, wps_ret. split; [done|]. right. split; [done|].
    exists n, l. cbn. rewrite En. split; [done|]. exact Hl.
  - apply wps_ret. split; [done|]. left. unfold ENOMEM in *. lia.
Qed.

Lemma wps_read_from_parent s :
  rbd_img_is_write img = true → or_copyup_bvecs (o_req s) ≠ None →
  wps (rbd_obj_read_from_parent err img) s
    (sent_one lo (λ r, r = Parent_read (or_img_extents (o_req s))) s).
Proof.
  intros Hw Hb. unfold rbd_obj_read_from_parent. apply wps_bind, (wps_alloc err lo Herr). intros ret s1 Hr H1.
  apply (wps_check lo); [done|by left|intros _].
  apply wps_bind, wps_rget, wps_bind, wps_lift. rewrite Hw. destruct (H1) as [_ [n En]]. rewrite En.
  cbn [or_copyup_bvecs with_reqs or_img_extents]. destruct (or_copyup_bvecs (o_req s)); [|done]. cbn [deref mbind outcome_bind wp].
  apply wps_bind, (wps_call err lo Herr). intros ret2 s2 Hr2 H2. pose proof (grows_nil_trans _ _ _ _ H1 H2) as H12.
  apply (wps_check lo); [done|by left|intros _].
  apply wps_bind, wps_send, wps_ret. right. split; [done|]. eexists. split; [done|].
  destruct H12 as [H12 E12]. split; [by rewrite H12, app_nil_r|done].
Qed.

(** What is left of the extents. *)
Definition pruned (req : rbd_obj_request) : list ceph_file_extent :=
  clip (rd_parent_overlap dev) (or_img_extents req).

(** The parent is read into the pages; or the object is written if nothing is left of it there. *)
Definition parent_read (s : ost) (ret : Z) (s' : ost) : Prop :=
  (lo <= ret < 0 ∧ o_sent s' = o_sent s) ∨
  ret = 0 ∧ ∃ n, let req := set_img_extents (pruned (o_req s)) (with_reqs n (o_req s)) in
    (pruned (o_req s) ≠ [] ∧ o_sent s' = o_sent s ++ [Parent_read (pruned (o_req s))]
       ∧ ∃ bvecs, o_req s' = set_copyup_bvecs (Some bvecs) req
                  ∧ Z.of_nat (length (concat bvecs)) = bytes_of (pruned (o_req s))) ∨
    (pruned (o_req s) = [] ∧ o_req s' = req
       ∧ o_sent s' = o_sent s ++ [write_request (ir_snapc img) (o_req s) (modification dev img req)]).

Lemma wps_copyup_read_parent s :
  rbd_img_is_write img = true → or_copyup_bvecs (o_req s) = None →
  extents_ok (or_img_extents (o_req s)) → or_img_extents (o_req s) ≠ [] →
  bytes_of (or_img_extents (o_req s)) < 2 ^ 32 →
  (pruned (o_req s) = [] → can_modify dev img (set_img_extents [] (o_req s))) →
  wps (rbd_obj_copyup_read_parent err dev img) s (parent_read s).
Proof.
  intros Hw Hnone Hok Hne Hbytes Hcm. unfold rbd_obj_copyup_read_parent.
  apply wps_bind, wps_rget, wps_bind, wps_lift. rewrite bool_decide_false by done. cbn [negb require wp].
  apply wps_bind, wps_lift. rewrite prune_extents_eq by done. cbn [wp]. fold (pruned (o_req s)).
  apply wps_bind, wps_rmodify. set (s1 := Ost _ _ _).
  case_bool_decide as Hp.
  - eapply wps_mono; [apply (wps_copyup_current_snapc err dev img lo Herr)|].
    { specialize (Hcm Hp). subst s1. cbn. by rewrite Hp. } { done. }
    intros ret s' [[Hr [Hs _]] | [-> (r & -> & Hs & n & En)]].
    + left. split; [done|]. by rewrite Hs, app_nil_r.
    + right. split; [done|]. exists n. right. split; [done|]. split; [|exact Hs]. rewrite En. done.
  - pose proof (clip_ok (rd_parent_overlap dev) _ Hok) as Hpok. fold (pruned (o_req s)) in Hpok.
    pose proof (bytes_of_clip (rd_parent_overlap dev) _ Hok). fold (pruned (o_req s)) in *.
    pose proof (bytes_of_pos _ Hpok Hp).
    apply wps_bind, wps_rget, wps_bind. unfold rbd_obj_img_extents_bytes.
    replace (or_img_extents (o_req s1)) with (pruned (o_req s)) by done.
    rewrite (extents_bytes_eq _ Hpok) by lia.
    eapply wps_mono; [apply wps_setup_copyup_bvecs; [lia|done]|].
    intros ret s2 [Hs2 Hret]. destruct Hret as [Hneg | [-> (n & bvecs & En & Hlen)]].
    { apply (wps_check lo); [lia| |lia]. intros. by left. }
    apply wps_branch; [done|done|intros _].
    eapply wps_mono; [apply wps_read_from_parent; [done|by rewrite En]|].
    intros ret s' [[Hr [Hs _]] | [-> (r & -> & Hs & n2 & En2)]].
    + left. split; [done|]. by rewrite Hs, app_nil_r, Hs2.
    + right. split; [done|]. exists n2. left. split; [done|]. split; [by rewrite Hs, Hs2, En|].
      exists bvecs. split; [|done]. rewrite En2, En. done.
Qed.
End read_parent.

(** ** Requests that are counted *)

(** The request with its count of OSD requests and its pending result. *)
Definition with_pending (p : pending_result) (n : nat) (req : rbd_obj_request) : rbd_obj_request :=
  set_pending p (with_reqs n req).
Definition nothing_pending : pending_result := PendingResult 0 0.
(** [l] has been sent and is counted; there is an error if [r] is negative. *)
Definition counted (lo : Z) (s s' : ost) (r : Z) (l : list request) : Prop :=
  lo <= r <= 0 ∧ o_sent s' = o_sent s ++ l ∧ ∃ n,
    o_req s' = with_pending (PendingResult r (pr_num_pending (or_pending (o_req s)) + Z.of_nat (length l)))
                 n (o_req s).

Section counting.
Context (err : nat → Z) (dev : rbd_device) (img : img_info).
Context (lo : Z) (Herr : errors lo err).
Implicit Types (s : ost).

Lemma counted_more s s1 s' r l1 l2 :
  grows s s1 l1 →
  counted lo (Ost (set_pending (PendingResult (pr_result (or_pending (o_req s1)))
                 (pr_num_pending (or_pending (o_req s1)) + Z.of_nat (length l1))) (o_req s1)) (o_sent s1) (o_calls s1))
    s' r l2 →
  counted lo s s' r (l1 ++ l2).
Proof.
  intros [H1 [n1 E1]] (Hr & H2 & n2 & E2). split; [done|]. cbn in H2, E2.
  split; [by rewrite H2, H1, (assoc_L (++))|]. exists n2. rewrite E2, E1. unfold with_pending. cbn.
  rewrite length_app, Nat2Z.inj_add, Z.add_assoc. done.
Qed.

Lemma counted_failed s s1 r c :
  lo <= r <= 0 → grows s s1 [] →
  counted lo s (Ost (set_pending (PendingResult r (pr_num_pending (or_pending (o_req s1)))) (o_req s1)) (o_sent s1) c) r [].
Proof.
  intros Hr [H1 [n1 E1]]. split; [done|]. split; [done|]. exists n1. cbn. rewrite E1. cbn. by rewrite Z.add_0_r.
Qed.

Lemma counted_nothing s : pr_result (or_pending (o_req s)) = 0 → counted lo s s 0 [].
Proof.
  intros H. pose proof (errs_range _ _ Herr 0%nat). split; [lia|]. split; [by rewrite app_nil_r|]. exists (or_osd_reqs (o_req s)).
  destruct s as [[? ? ? ? ? ? ? ? []] ? ?]. unfold with_pending. cbn in *. rewrite H, Z.add_0_r. done.
Qed.

(** The state a snapshot's object map gets: only the oldest has the object as changed. *)
Definition snap_state (rest : list Z) : Z :=
  if has (rd_features dev) RBD_FEATURE_FAST_DIFF && negb (bool_decide (rest = []))
  then OBJECT_EXISTS_CLEAN else OBJECT_EXISTS.
Fixpoint snap_updates (objno : Z) (snaps : list Z) : list request :=
  match snaps with
  | [] => []
  | snap :: snaps => map_update snap objno (snap_state snaps) None :: snap_updates objno snaps
  end.

(** An error cuts the updates short. *)
Lemma wps_update_snap_maps snaps s :
  Forall (λ snap, snap ≠ CEPH_NOSNAP) snaps → pr_result (or_pending (o_req s)) = 0 →
  wps (update_snap_maps err dev snaps) s (λ _ s', ∃ r l, counted lo s s' r l
    ∧ l `prefix_of` snap_updates (oe_objno (or_ex (o_req s))) snaps
    ∧ (r = 0 → l = snap_updates (oe_objno (or_ex (o_req s))) snaps)).
Proof.
  intros Hsnaps. revert s. induction Hsnaps as [|snap snaps Hne _ IH]; intros s Hres.
  { apply wps_ret. exists 0, []. split; [by apply counted_nothing|]. split; [apply prefix_nil|done]. }
  cbn [update_snap_maps snap_updates]. cbv zeta. fold (snap_state snaps). apply wps_bind.
  eapply wps_mono; [by apply (wps_map_update err dev lo Herr)|]. intros ret s1 [(_ & ? & _)|Hone]; [done|].
  destruct Hone as [[Hneg Hg] | [-> (r & -> & Hg)]].
  - rewrite (proj2 (Z.ltb_lt _ _)) by lia. apply wps_rmodify. exists ret, [].
    split; [by apply counted_failed; [lia|]|]. split; [apply prefix_nil|lia].
  - cbn [Z.ltb Z.compare]. apply wps_bind, wps_lift. cbn [Z.eqb require wp]. apply wps_bind, wps_rmodify.
    eapply wps_mono; [apply IH|].
    { destruct Hg as [_ [n En]]. cbn. rewrite En. done. }
    intros _ s' (r & l & Hc & Hpre & Heq).
    assert (Hobj : oe_objno (or_ex (o_req s1)) = oe_objno (or_ex (o_req s))).
    { destruct Hg as [_ [n ->]]. done. }
    cbn in Hpre, Heq. rewrite Hobj in Hpre, Heq.
    exists r, ([map_update snap (oe_objno (or_ex (o_req s))) (snap_state snaps) None] ++ l).
    split; [by eapply (counted_more _ s1)|]. split; [by apply prefix_cons|]. intros ->. cbn. by rewrite Heq.
Qed.

(** The data of the parent that is written. *)
Definition copyup_bytes (req : rbd_obj_request) : Z :=
  if flag req RBD_OBJ_FLAG_COPYUP_ZEROS then 0 else u32 (rbd_obj_img_extents_bytes req).

(** What copyup writes: through all snapshots by a request of its own, if there are any. *)
Definition copyup_writes (req : rbd_obj_request) : list request :=
  let bytes := copyup_bytes req in
  let first := match or_copyup_bvecs req with Some l => copyup_op bytes l | None => CEPH_OSD_OP_STAT end in
  if negb (Z.of_nat (length (ir_snapc img)) =? 0) && (bytes >? 0) then
    [write_request [] req [first]; write_request (ir_snapc img) req (modification dev img req)]
  else [write_request (ir_snapc img) req (first :: modification dev img req)].

Lemma no_pending_nothing req : or_pending req = nothing_pending → no_pending req = true.
Proof. intros H. unfold no_pending. by rewrite H. Qed.

Lemma wps_count ret s s1 l :
  (lo <= ret < 0 ∧ grows s s1 [] ∨ ret = 0 ∧ ∃ r, l = [r] ∧ grows s s1 [r]) →
  pr_result (or_pending (o_req s)) = 0 →
  wps (if nonzero ret then pending_failed ret else one_more_pending) s1 (λ _ s',
    ∃ r l', counted lo s s' r l' ∧ l' `prefix_of` l ∧ (r = 0 → l' = l)).
Proof.
  intros [[Hneg Hg] | [-> (r & -> & Hg)]] Hres.
  - apply wps_branch; [lia| |lia]. intros _. apply wps_rmodify. exists ret, []. split; [by apply counted_failed; [lia|]|].
    split; [apply prefix_nil|lia].
  - pose proof (errs_range _ _ Herr 0%nat). exists 0, [r]. split; [|done]. split; [lia|]. destruct Hg as [Hs [n En]]. split; [done|].
    exists n. cbn. rewrite En. cbn. rewrite Hres. done.
Qed.

Lemma wps_copyup_write_object s bvecs :
  can_modify dev img (o_req s) → or_copyup_bvecs (o_req s) = Some bvecs →
  or_pending (o_req s) = nothing_pending →
  copyup_bytes (o_req s) ≠ MODS_ONLY →
  wps (rbd_obj_copyup_write_object err dev img) s (λ _ s', ∃ r l, counted lo s s' r l
    ∧ l `prefix_of` copyup_writes (o_req s) ∧ (r = 0 → l = copyup_writes (o_req s))).
Proof.
  intros Hcm Hb Hpend Hmods. unfold rbd_obj_copyup_write_object.
  apply wps_bind, wps_rget, wps_bind, wps_lift. rewrite no_pending_nothing by done. cbn [require wp]. cbv zeta.
  fold (copyup_bytes (o_req s)). unfold copyup_writes. rewrite Hb. set (bytes := copyup_bytes (o_req s)) in *.
  apply wps_bind. destruct (negb (Z.of_nat (length (ir_snapc img)) =? 0) && (bytes >? 0)) eqn:Edeep.
  - apply wps_bind. apply andb_prop in Edeep as [_ Hpos%Z.gtb_lt].
    eapply wps_mono; [by apply (wps_copyup_empty_snapc err lo Herr s bytes bvecs)|].
    intros ret s1 [[Hneg Hg] | [-> (r & -> & Hg)]].
    + apply wps_branch; [lia| |lia]. intros _. apply wps_bind, wps_rmodify, wps_ret, wps_ret. exists ret, [].
      split; [by apply counted_failed; [lia|]|]. split; [apply prefix_nil|lia].
    + apply wps_bind, wps_rmodify, wps_ret.
      set (s2 := Ost _ (o_sent s1) (o_calls s1)).
      assert (Hreq2 : ∃ n, o_req s2 = with_pending (PendingResult 0 1) n (o_req s)).
      { destruct Hg as [_ [n En]]. exists n. subst s2. cbn. rewrite En. cbn. rewrite Hpend. done. }
      destruct Hreq2 as [n2 E2].
      apply wps_bind. eapply wps_mono; [apply (wps_copyup_current_snapc err dev img lo Herr)|].
      { rewrite E2. by destruct Hcm. } { done. }
      intros ret s3 Hret. eapply wps_mono; [apply (wps_count ret s2 s3
        [write_request (ir_snapc img) (o_req s) (modification dev img (o_req s))])|].
      * rewrite E2 in Hret. destruct Hret as [Hret|[? (r & -> & Hg3)]]; [by left|right; eauto].
      * by rewrite E2.
      * intros _ s' (r & l & Hc & Hpre & Heq). eexists r, ([_] ++ l).
        split; [|split; [by apply prefix_cons|intros; by rewrite Heq]].
        eapply (counted_more _ s1); [exact Hg|]. subst s2. exact Hc.
  - apply wps_ret. apply wps_bind. eapply wps_mono; [by apply (wps_copyup_current_snapc err dev img lo Herr); [|rewrite Hb]|].
    intros ret s3 Hret. apply (wps_count ret s s3).
    + destruct Hret as [Hret|[? (r & -> & Hg3)]]; [by left|right]. split; [done|]. eexists. split; [|exact Hg3].
      f_equal. rewrite Hb. unfold copyup_ops. by rewrite (proj2 (Z.eqb_neq _ _)).
    + by rewrite Hpend.
Qed.
End counting.
