(* ===== verification/RbdStages.v ===== *)
(** * The stages of RBD writes (rbd/rbd.c)

    Where a write request can stand, what of it is outstanding then, and how it goes on when
    one of the requests it has sent completes. *)
From S2P Require Import Prelude Striper Hash Crush Mapper Choose DoRule Workspace OsdMap Decode.
From S2P Require Import Rbd RbdObject RbdMachine RbdObjectMap RbdParent RbdSends.

(** ** Flags *)

Lemma has_lor a b f : has (Z.lor a b) f = has a f || has b f.
Proof.
  unfold has, nonzero. rewrite Z.land_lor_distr_l.
  destruct (Z.eqb_spec (Z.land a f) 0) as [->|Ha]; [done|].
  destruct (Z.eqb_spec (Z.lor (Z.land a f) (Z.land b f)) 0) as [[? _]%Z.lor_eq_0_iff|]; done.
Qed.
Lemma flag_set f g req : flag (set_flag f req) g = flag req g || has f g.
Proof. apply has_lor. Qed.
Lemma flag_set_other f g req : has f g = false → flag (set_flag f req) g = flag req g.
Proof. intros H. by rewrite flag_set, H, orb_false_r. Qed.

(** ** What a request relies on *)

(** An object the extents of which have no offset that wraps. *)
Record room (l : ceph_file_layout) (objno : Z) : Prop := {
  rm_layout : valid_layout l;
  rm_size : object_size l < 2 ^ 32 - 1;
  rm_objno : 0 <= objno;
  rm_last : unlocate l objno (object_size l - 1) < 2 ^ 64 - 1 }.

Ltac settle := simpl; split_and!; intros; first [done | lia].

Section stages.
Context (dev0 : rbd_device) (img : img_info) (ex : ceph_object_extent) (data : list Z).
Implicit Types (req : rbd_obj_request) (s : ost).

(** The device may change between two completions, but not its layout; the object map has room
    for the object; a request for zeroes does not see the parent go. *)
Record dev_ok (dev : rbd_device) : Prop := {
  dk_layout : rd_layout dev = rd_layout dev0;
  dk_map : has (rd_features dev) RBD_FEATURE_OBJECT_MAP = true → map_ok dev (oe_objno ex);
  dk_overlap : ir_op_type img = OBJ_OP_ZEROOUT → rd_parent_overlap dev0 <= rd_parent_overlap dev }.

Definition removes (op : obj_operation_type) : bool :=
  match op with OBJ_OP_DISCARD | OBJ_OP_ZEROOUT => true | _ => false end.

(** A request as [rbd_obj_init] leaves it. *)
Record ready (req : rbd_obj_request) : Prop := {
  rr_ex : or_ex req = ex;
  rr_data : or_data req = data;
  rr_pending : or_pending req = nothing_pending;
  rr_bvecs : or_copyup_bvecs req = None;
  rr_extents : parent_extents (rd_layout dev0) (oe_objno ex) 0 (object_size (rd_layout dev0))
                 (rd_parent_overlap dev0) (or_img_extents req);
  rr_zeros : flag req RBD_OBJ_FLAG_COPYUP_ZEROS = false;
  rr_guard : flag req RBD_OBJ_FLAG_COPYUP_ENABLED =
    match ir_op_type img with
    | OBJ_OP_DISCARD => false
    | _ => rbd_obj_copyup_enabled dev0 img req
    end;
  rr_deletion : flag req RBD_OBJ_FLAG_DELETION =
    removes (ir_op_type img) && rbd_obj_is_entire dev0 req && bool_decide (or_img_extents req = []);
  rr_noop : flag req RBD_OBJ_FLAG_NOOP_FOR_NONEXISTENT = true →
    ir_op_type img = OBJ_OP_DISCARD ∨ ir_op_type img = OBJ_OP_ZEROOUT ∧ or_img_extents req = [] }.

(** What is given: the bytes of a write. *)
Definition given : Prop :=
  rbd_img_is_write img = true ∧
  (ir_op_type img = OBJ_OP_WRITE →
     ir_data_type img ≠ OBJ_REQUEST_NODATA ∧ Z.of_nat (length data) = oe_len ex).

(** The pages for the data of the parent. *)
Record has_copyup (req : rbd_obj_request) : Prop := {
  hc_ex : or_ex req = ex;
  hc_data : or_data req = data;
  hc_can : can_modify dev0 img req;
  hc_extents : extents_ok (or_img_extents req);
  hc_bytes : 0 < bytes_of (or_img_extents req) < 2 ^ 32 - 1;
  hc_bvecs : ∃ bvecs, or_copyup_bvecs req = Some bvecs
    ∧ Z.of_nat (length (concat bvecs)) = bytes_of (or_img_extents req)
    ∧ (flag req RBD_OBJ_FLAG_COPYUP_ZEROS = true → Forall (λ b, b = 0) (concat bvecs));
  hc_deletion : flag req RBD_OBJ_FLAG_DELETION = false }.

(** What a request waits for.  [Object] and [Mods] have been sent with the device as it was. *)
Inductive stage :=
  | Pre
  | Object (dev : rbd_device)
  | Parent
  | Mods (dev : rbd_device)
  | Maps (r : Z) (out : list request)
  | Copyup (r : Z) (out : list request)
  | Post.

Definition pre_state (req : rbd_obj_request) : Z :=
  if flag req RBD_OBJ_FLAG_DELETION then OBJECT_PENDING else OBJECT_EXISTS.
Definition guarded_ops (dev : rbd_device) (req : rbd_obj_request) : list osd_op :=
  (if flag req RBD_OBJ_FLAG_COPYUP_ENABLED then [CEPH_OSD_OP_STAT] else []) ++ modification dev img req.

Definition out_of (req : rbd_obj_request) (st : stage) : list request :=
  match st with
  | Pre => [map_update CEPH_NOSNAP (oe_objno ex) (pre_state req) None]
  | Object dev => [write_request (ir_snapc img) req (guarded_ops dev req)]
  | Parent => [Parent_read (or_img_extents req)]
  | Mods dev => [write_request (ir_snapc img) req (modification dev img req)]
  | Maps _ out | Copyup _ out => out
  | Post => [map_update CEPH_NOSNAP (oe_objno ex) OBJECT_NONEXISTENT (Some OBJECT_PENDING)]
  end.

(** How many requests have been sent by then. *)
Definition bound (st : stage) : nat :=
  match st with
  | Pre => 1 | Object _ => 2 | Parent | Mods _ => 3
  | Maps _ _ => 3 + length (ir_snapc img)
  | Copyup _ _ => 5 + length (ir_snapc img)
  | Post => 6 + length (ir_snapc img)
  end.

Definition snap_update (r : request) : Prop :=
  ∃ snap state, r = map_update snap (oe_objno ex) state None ∧ snap ≠ CEPH_NOSNAP.

Definition stage_ok (req : rbd_obj_request) (st : stage) : Prop :=
  let copyup cs := or_state req = Write_state RBD_OBJ_WRITE_COPYUP_ ∧ or_copyup_state req = Some cs in
  or_ex req = ex ∧
  match st with
  | Pre => or_state req = Write_state RBD_OBJ_WRITE_PRE_OBJECT_MAP ∧ ready req
  | Object dev => or_state req = Write_state RBD_OBJ_WRITE_OBJECT ∧ ready req ∧ dev_ok dev
  | Parent => copyup RBD_OBJ_COPYUP_READ_PARENT ∧ or_pending req = nothing_pending ∧ has_copyup req
              ∧ flag req RBD_OBJ_FLAG_COPYUP_ZEROS = false
  | Mods _ => copyup RBD_OBJ_COPYUP_WRITE_OBJECT ∧ flag req RBD_OBJ_FLAG_DELETION = false
  | Maps r out => copyup RBD_OBJ_COPYUP_OBJECT_MAPS_ ∧ r <= 0 ∧ has_copyup req ∧ Forall snap_update out
      ∧ or_pending req = PendingResult r (Z.of_nat (length out))
  | Copyup r out => copyup RBD_OBJ_COPYUP_WRITE_OBJECT_ ∧ r <= 0 ∧ flag req RBD_OBJ_FLAG_DELETION = false
      ∧ or_pending req = PendingResult r (Z.of_nat (length out))
  | Post => or_state req = Write_state RBD_OBJ_WRITE_POST_OBJECT_MAP
            ∧ flag req RBD_OBJ_FLAG_DELETION = true
  end.

(** All that has been sent but for what the stage waits for: as many as have completed. *)
Definition at_stage (c : nat) (s : ost) (st : stage) : Prop :=
  stage_ok (o_req s) st ∧ out_of (o_req s) st ≠ [] ∧
  (∃ pre, o_sent s = pre ++ out_of (o_req s) st ∧ length pre = c) ∧ (length (o_sent s) <= bound st)%nat.

(** After [c] completions: done with a result that [D] holds of, or in a stage as [next] says. *)
Definition advanced (c : nat) (D : Z → Prop) (next : rbd_obj_request → stage → Prop) (o : bool * Z) (s : ost) : Prop :=
  if o.1 then o.2 <= 0 ∧ length (o_sent s) = c ∧ (c <= 6 + length (ir_snapc img))%nat ∧ D o.2
  else ∃ st, at_stage c s st ∧ next (o_req s) st.

Lemma advanced_mono c (D D' : Z → Prop) (next next' : rbd_obj_request → stage → Prop) o s :
  advanced c D next o s → (∀ r, D r → D' r) → (∀ req st, next req st → next' req st) → advanced c D' next' o s.
Proof.
  unfold advanced. destruct o as [[] r]; simpl; [naive_solver|]. intros (st & ? & ?) _ Hn. exists st. auto.
Qed.

(** *** What does not matter to the stages *)

Lemma is_entire_dev dev req : dev_ok dev → rbd_obj_is_entire dev req = rbd_obj_is_entire dev0 req.
Proof. intros [Hl _ _]. unfold rbd_obj_is_entire. by rewrite Hl. Qed.

Lemma can_modify_dev dev req : dev_ok dev → can_modify dev0 img req → can_modify dev img req.
Proof.
  intros Hdev [Hw Hd Hx]. split; [done..|]. intros Hop He. apply (Hx Hop). by rewrite <- (is_entire_dev dev).
Qed.
Lemma can_modify_flag dev f req : can_modify dev img req → can_modify dev img (set_flag f req).
Proof.
  intros [Hw Hd Hx]. split; [done..|]. intros Hop He Hext. rewrite flag_set. by rewrite (Hx Hop He Hext).
Qed.

Lemma ready_can req : given → ready req → can_modify dev0 img req.
Proof.
  intros [Hw Hd] Hr. split; [done| |].
  - rewrite (rr_data _ Hr), (rr_ex _ Hr). done.
  - intros Hop He Hx. rewrite (rr_deletion _ Hr), He, Hx. by destruct Hop as [->| ->].
Qed.

Lemma ready_update f req : (∀ req, or_ex (f req) = or_ex req ∧ or_data (f req) = or_data req
    ∧ or_pending (f req) = or_pending req ∧ or_copyup_bvecs (f req) = or_copyup_bvecs req
    ∧ or_img_extents (f req) = or_img_extents req ∧ or_flags (f req) = or_flags req) →
  ready req → ready (f req).
Proof.
  intros Hf [? ? ? ? ? Hz Hg Hd Hn]. destruct (Hf req) as (E1 & E2 & E3 & E4 & E5 & E6).
  unfold flag, rbd_obj_copyup_enabled, rbd_obj_is_entire in *. split; rewrite ?E2, ?E3, ?E4; try done;
    unfold flag, rbd_obj_copyup_enabled, rbd_obj_is_entire; by rewrite ?E6, ?E5, ?E1.
Qed.
Lemma ready_reqs n req : ready req → ready (with_reqs n req).
Proof. by apply (ready_update (with_reqs n)). Qed.
Lemma ready_state st req : ready req → ready (set_state st req).
Proof. by apply (ready_update (set_state st)). Qed.
Lemma ready_copyup cs req : ready req → ready (set_copyup_state cs req).
Proof. by apply (ready_update (set_copyup_state cs)). Qed.
Lemma ready_may_exist req : ready req → ready (set_flag RBD_OBJ_FLAG_MAY_EXIST req).
Proof. intros [? ? ? ? ? Hz Hg Hd Hn]. split; rewrite ?flag_set_other by done; done. Qed.

Lemma has_copyup_update f req : (∀ req, or_ex (f req) = or_ex req ∧ or_data (f req) = or_data req
    ∧ or_copyup_bvecs (f req) = or_copyup_bvecs req
    ∧ or_img_extents (f req) = or_img_extents req ∧ or_flags (f req) = or_flags req) →
  has_copyup req → has_copyup (f req).
Proof.
  intros Hf [? ? [Hw Hd Hx] ? ? ? ?]. destruct (Hf req) as (E1 & E2 & E4 & E5 & E6).
  unfold flag, rbd_obj_is_entire in *. split; rewrite ?E1, ?E2, ?E4, ?E5; try done;
    unfold flag; rewrite ?E6; [|done|done].
  split; unfold flag, rbd_obj_is_entire; rewrite ?E1, ?E2, ?E5, ?E6; done.
Qed.

(** ** One pass after the other *)

Lemma wps_again n pass r s (Q : bool * Z → ost → Prop) :
  wps (pass r) s (λ o s', match o with inl r' => wps (again n pass r') s' Q | inr x => Q x s' end) →
  wps (again (S n) pass r) s Q.
Proof.
  unfold wps. cbn [again]. destruct (pass r s) as [[[r'|x] s']| |]; [done|done|done|done].
Qed.
End stages.
