(* ===== verification/RbdSteps.v ===== *)
(** * The steps of RBD writes (rbd/rbd.c)

    [rbd_obj_advance_write] at each stage: what it may complete with, and the stage it goes to. *)
From S2P Require Import Prelude Striper Hash Crush Mapper Choose DoRule Workspace OsdMap Decode.
From S2P Require Import Rbd RbdObject RbdMachine RbdObjectMap RbdParent RbdSends RbdStages.

Section steps.
Context (err : nat → Z) (lo : Z) (dev0 dev : rbd_device) (img : img_info) (ex : ceph_object_extent) (data : list Z).
Hypothesis Herr : errors lo err.
Hypothesis Hdev : dev_ok dev0 img ex dev.
Hypothesis Hgiven : given img ex data.
Hypothesis Hroom : room (rd_layout dev0) (oe_objno ex).
Implicit Types (req : rbd_obj_request) (s : ost).

Local Abbreviation ready := (ready dev0 img ex data).
Local Abbreviation has_copyup := (has_copyup dev0 img ex data).
Local Abbreviation stage_ok := (stage_ok dev0 img ex data).
Local Abbreviation advanced := (advanced dev0 img ex data).

(** A call has failed. *)
Definition failed (r : Z) : Prop := lo <= r < 0.
Lemma lo_le : lo <= 0.
Proof. pose proof (errs_range _ _ Herr 0%nat). lia. Qed.

(** One request has been sent on the way to a stage. *)
Lemma at_stage_sent c s s' st r n f :
  length (o_sent s) = c → o_sent s' = o_sent s ++ [r] → o_req s' = f (with_reqs n (o_req s)) →
  (∀ n, stage_ok (f (with_reqs n (o_req s))) st ∧ out_of img ex (f (with_reqs n (o_req s))) st = [r]) →
  (c < bound img st)%nat → at_stage dev0 img ex data c s' st.
Proof.
  intros Hc Hs En Hst Hb. destruct (Hst n) as [Hok Hout]. rewrite <- En in Hok, Hout.
  split; [done|]. split; [by rewrite Hout|]. split; [exists (o_sent s); by rewrite Hout|].
  rewrite Hs, length_app. simpl. lia.
Qed.

(** ** The object map *)

Lemma wps_after_update ret next st s s' c r0 new_state current :
  (ret = 1 ∧ s' = s) ∨ sent_one lo (λ r, r = map_update CEPH_NOSNAP (oe_objno (or_ex (o_req s))) new_state current) s ret s' →
  length (o_sent s) = c → (c < bound img st)%nat →
  (∀ n, let req := set_state (Write_state next) (with_reqs n (o_req s)) in
     stage_ok req st ∧ out_of img ex req st = [map_update CEPH_NOSNAP (oe_objno (or_ex (o_req s))) new_state current]) →
  wps (after_map_update ret next r0) s' (λ o s', match o with
    | inl r' => ret = 1 ∧ r' = r0 ∧ o_sent s' = o_sent s
         ∧ ∃ n, o_req s' = set_state (Write_state next) (with_reqs n (o_req s))
    | inr x => ret <= 0 ∧ advanced c failed (λ _ st', st' = st) x s' end).
Proof.
  intros Hret Hc Hb Hst. unfold after_map_update. destruct Hret as [[-> ->]|[[Hneg [Hs _]]|[-> (r & -> & Hs & n & En)]]].
  - cbn [Z.ltb Z.compare]. apply wps_bind, wps_rmodify. cbn [Z.gtb Z.compare]. apply wps_ret.
    split; [done|]. split; [done|]. split; [done|]. exists (or_osd_reqs (o_req s)). cbn. by destruct (o_req s).
  - rewrite (proj2 (Z.ltb_lt _ _)) by lia. apply wps_ret. split; [lia|].
    unfold RbdStages.advanced. simpl. rewrite Hs, app_nil_r. unfold failed. destruct st; simpl in Hb; lia.
  - cbn [Z.ltb Z.compare]. apply wps_bind, wps_rmodify. cbn [Z.gtb Z.compare]. apply wps_ret. split; [lia|].
    exists st. split; [|done]. eapply (at_stage_sent c s _ st _ n (set_state (Write_state next))); [done|exact Hs| |exact Hst|done].
    cbn. by rewrite En.
Qed.

(** [write_copyup_done]: nothing else is done, or the object map is updated. *)
Definition after_write (r : Z) (s : ost) (req : rbd_obj_request) (st : stage) : Prop :=
  r = 0 ∧ st = Post ∧ flag (o_req s) RBD_OBJ_FLAG_DELETION = true
  ∧ has (rd_features dev) RBD_FEATURE_OBJECT_MAP = true.

(** Completed with [r], or something has failed behind it. *)
Definition done_after (r x : Z) : Prop := (x = 0 → r = 0) ∧ (lo <= x ∨ x = r).

Lemma done_after_eq r x : x = r → done_after r x.
Proof. intros ->. by split; [|right]. Qed.
Lemma done_after_failed x : failed x → done_after 0 x.
Proof. intros [? ?]. by split; [|left]. Qed.
Hint Resolve done_after_eq done_after_failed : core.

Lemma wps_post r s c n next :
  r <= 0 → length (o_sent s) = c → (c <= 6 + length (ir_snapc img))%nat →
  or_state (o_req s) = Write_state RBD_OBJ_WRITE_POST_OBJECT_MAP →
  wps (again (S n) (advance_write err dev img) r) s (advanced c (λ x, x = r) next).
Proof.
  intros Hr Hc Hc6 Hst. apply wps_again. unfold advance_write. apply wps_bind, wps_rget. rewrite Hst.
  apply wps_ret. settle.
Qed.

Lemma wps_done_again r s c n :
  r <= 0 → length (o_sent s) = c → (c <= 5 + length (ir_snapc img))%nat → (r = 0 → or_ex (o_req s) = ex) →
  wps (write_copyup_done err dev r) s (λ o s', match o with
    | inl r' => wps (again (S n) (advance_write err dev img) r') s'
                  (advanced c (done_after r) (after_write r s))
    | inr x => advanced c (done_after r) (after_write r s) x s' end).
Proof.
  intros Hr Hc Hc5 Hobj. unfold write_copyup_done. apply wps_branch; [done| |intros ->].
  { intros. apply wps_ret. unfold RbdStages.advanced. simpl. split_and!; [lia..|by apply done_after_eq]. }
  specialize (Hobj eq_refl). apply wps_bind. unfold rbd_obj_write_post_object_map. apply wps_bind, wps_rget.
  assert (Hskip : wps (after_map_update 1 RBD_OBJ_WRITE_POST_OBJECT_MAP 0) s (λ o s', match o with
    | inl r' => wps (again (S n) (advance_write err dev img) r') s' (advanced c (done_after 0) (after_write 0 s))
    | inr x => advanced c (done_after 0) (after_write 0 s) x s' end)).
  { unfold after_map_update. cbn [Z.ltb Z.compare]. apply wps_bind, wps_rmodify. cbn [Z.gtb Z.compare].
    apply wps_ret. eapply wps_mono; [apply (wps_post 0 _ c n (after_write 0 s)); cbn; (done || lia)|].
    intros o s' Ho. by eapply advanced_mono; [exact Ho|auto|]. }
  destruct (has (rd_features dev) RBD_FEATURE_OBJECT_MAP) eqn:Hf; cbn [negb]; [|by apply wps_ret].
  destruct (flag (o_req s) RBD_OBJ_FLAG_DELETION) eqn:Hdel; cbn [negb]; [|by apply wps_ret].
  eapply wps_mono; [apply (wps_map_update err dev lo Herr)|].
  { intros _. rewrite Hobj. by apply (dk_map _ _ _ _ Hdev). }
  intros ret s' Hret. eapply wps_mono; [eapply (wps_after_update ret _ Post s s' c 0); [|done|simpl; lia|]|].
  - destruct Hret as [(-> & _ & -> & _)|Hret]; [by left|by right].
  - intros m. simpl. rewrite Hobj. done.
  - intros [r'|x] s2 Ho.
    + destruct Ho as (_ & -> & Hs & m & En). eapply wps_mono; [apply (wps_post 0 s2 c n (after_write 0 s)); rewrite ?Hs, ?En; (done || lia)|].
      intros o s3 Ho. by eapply advanced_mono; [exact Ho|auto|].
    + destruct Ho as [_ Ho]. eapply advanced_mono; [exact Ho|auto|]. intros req st ->. done.
Qed.

(** ** Copyup *)

(** [advanced], of copyup. *)
Definition copied (c : nat) (D : Z → Prop) (next : rbd_obj_request → stage → Prop) (o : bool * Z) (s : ost) : Prop :=
  if o.1 then o.2 <= 0 ∧ length (o_sent s) = c ∧ (c <= 5 + length (ir_snapc img))%nat ∧ D o.2
              ∧ (o.2 = 0 → or_ex (o_req s) = ex ∧ flag (o_req s) RBD_OBJ_FLAG_DELETION = false)
  else ∃ st, at_stage dev0 img ex data c s st ∧ next (o_req s) st.

(** Copyup has ended as [D] says, or something has failed behind it. *)
Definition copied_done (D : Z → Prop) (x : Z) : Prop := (x = 0 → D 0) ∧ (lo <= x ∨ D x).

(** Copyup inside a write. *)
Lemma wps_copyup_in_write res s c n D next :
  or_state (o_req s) = Write_state RBD_OBJ_WRITE_COPYUP_ →
  wps (again 3 (advance_copyup err dev img) res) s (copied c D next) →
  wps (again (S (S n)) (advance_write err dev img) res) s (advanced c (copied_done D) next).
Proof.
  intros Hst Hcopy. apply wps_again. unfold advance_write at 1. apply wps_bind, wps_rget. rewrite Hst.
  apply wps_bind. eapply wps_mono; [exact Hcopy|]. intros [[] r] s' Hc; cbn [negb].
  - destruct Hc as (Hr & Hlen & Hle & HD & H0). simpl in *.
    eapply wps_mono; [apply (wps_done_again r s' c n); [done|done|done|by apply H0]|].
    assert (Hpost : ∀ o s2, advanced c (done_after r) (after_write r s') o s2 → advanced c (copied_done D) next o s2).
    { intros o s2 Ho. eapply advanced_mono; [exact Ho| |].
      { intros x [Hx0 Hx]. split; [intros H; by rewrite <- (Hx0 H)|]. destruct Hx as [?| ->]; [by left|by right]. }
      intros req st (Hr0 & _ & Hdel & _). destruct (H0 Hr0) as [_ Hdel']. by rewrite Hdel' in Hdel. }
    intros [r'|x] s2 Ho; [|by apply Hpost]. eapply wps_mono; [exact Ho|]. apply Hpost.
  - by apply wps_ret.
Qed.

(** Between two requests of copyup. *)
Record copying (c : nat) (s : ost) : Prop := {
  cp_state : or_state (o_req s) = Write_state RBD_OBJ_WRITE_COPYUP_;
  cp_sent : length (o_sent s) = c }.

Lemma wps_await none counting result c s0 s r l :
  copying c s0 → counted lo s0 s r l → or_pending (o_req s0) = nothing_pending →
  wps (await none counting result) s (λ o s', match o with
    | inl r' => l = [] ∧ r' = r ∧ copying c s'
        ∧ ∃ n, o_req s' = set_copyup_state none (with_pending (PendingResult r 0) n (o_req s0))
    | inr x => x.1 = false ∧ l ≠ [] ∧ o_sent s' = o_sent s0 ++ l
        ∧ ∃ n, o_req s' = set_copyup_state counting
                            (with_pending (PendingResult r (Z.of_nat (length l))) n (o_req s0)) end).
Proof.
  intros [Hst Hc] (Hr & Hs & n & En) Hp. unfold await. apply wps_bind, wps_rget. rewrite En.
  cbn [with_pending set_pending or_pending pr_num_pending pr_result]. rewrite Hp. cbn [nothing_pending pr_num_pending].
  rewrite Z.add_0_l in *. destruct (Z.eqb_spec (Z.of_nat (length l)) 0) as [H0|Hne].
  - apply wps_bind, wps_rmodify, wps_ret. assert (l = []) as -> by (by destruct l).
    split; [done|]. split; [done|]. rewrite app_nil_r in Hs. split; [|exists n; cbn; rewrite En, Hp; done].
    split; cbn; rewrite ?En, ?Hs; done.
  - apply wps_bind, wps_rmodify, wps_ret. split; [done|]. split; [by intros ->|].
    cbn. split; [done|]. exists n. by rewrite En, Hp.
Qed.

Lemma wps_copyup_done r s c n D next :
  r <= 0 → length (o_sent s) = c → (c <= 5 + length (ir_snapc img))%nat → D r →
  (r = 0 → or_ex (o_req s) = ex ∧ flag (o_req s) RBD_OBJ_FLAG_DELETION = false) →
  or_copyup_state (o_req s) = Some RBD_OBJ_COPYUP_WRITE_OBJECT →
  wps (again (S n) (advance_copyup err dev img) r) s (copied c D next).
Proof.
  intros Hr Hc Hc5 HD H0 Hcs. apply wps_again. unfold advance_copyup. apply wps_bind, wps_rget. rewrite Hcs.
  apply wps_ret. by split_and!.
Qed.

Lemma copyup_writes_length req : (0 < length (copyup_writes dev img req) <= 2)%nat.
Proof. unfold copyup_writes. destruct (_ && _); simpl; lia. Qed.

Lemma copyup_bytes_ok req : has_copyup req → copyup_bytes req ≠ MODS_ONLY.
Proof.
  intros [_ _ _ Hok Hb _ _]. unfold copyup_bytes, MODS_ONLY, rbd_obj_img_extents_bytes.
  destruct (flag req _); [done|]. rewrite extents_bytes_eq by (done || lia). rewrite u32_small by lia. lia.
Qed.

(** The data and the extents are the same. *)
Definition keeps (req req' : rbd_obj_request) : Prop :=
  or_copyup_bvecs req' = or_copyup_bvecs req ∧ or_img_extents req' = or_img_extents req.

(** Failed: a call, or what [r] stands for. *)
Definition ends (r x : Z) : Prop := x < 0 ∧ (lo <= x ∨ x = r).

(** The object is written; an error cuts the writes short. *)
Definition enters_copyup (req : rbd_obj_request) (st : stage) : Prop :=
  ∃ r out, st = Copyup r out ∧ lo <= r ∧ out `prefix_of` copyup_writes dev img req ∧ (r = 0 → out = copyup_writes dev img req).
(** Or object maps of snapshots are still updated. *)
Definition goes_on (P : Z → Prop) (req req' : rbd_obj_request) (st : stage) : Prop :=
  (keeps req req' ∧ ∃ r out, st = Maps r out ∧ P r) ∨
  ∃ req1, keeps req req1 ∧ has_copyup req1 ∧ enters_copyup req1 st.

Lemma wps_copyup_maps_done r s c n :
  r <= 0 → copying c s → (c <= 3 + length (ir_snapc img))%nat → has_copyup (o_req s) →
  (r = 0 → or_pending (o_req s) = nothing_pending) →
  wps (copyup_maps_done err dev img r) s (λ o s', match o with
    | inl r' => wps (again (S n) (advance_copyup err dev img) r') s' (copied c (ends r) (λ _ st, enters_copyup (o_req s) st))
    | inr x => copied c (ends r) (λ _ st, enters_copyup (o_req s) st) x s' end).
Proof.
  intros Hr Hcp Hc3 Hhc Hp. unfold copyup_maps_done. apply wps_branch; [done| |intros ->].
  { intros. apply wps_ret. destruct Hcp as [Hst Hc]. unfold copied, ends. simpl. lia. }
  specialize (Hp eq_refl). destruct (Hhc) as [Hex Hdata Hcan _ _ (bvecs & Hb & _) Hdel].
  apply wps_bind. eapply wps_mono; [apply (wps_copyup_write_object err dev img lo Herr s bvecs); [|done..|]|].
  { by eapply can_modify_dev. } { by apply copyup_bytes_ok. }
  intros _ s1 (r & l & Hcnt & Hpre & Hall). pose proof (copyup_writes_length (o_req s)) as [H0 H2].
  eapply wps_mono; [by apply (wps_await _ _ _ c s s1 r l)|]. destruct Hcnt as (Hr' & _).
  intros [r'|[d x]] s2 Ho.
  - destruct Ho as (-> & -> & [_ Hlen2] & n2 & En). assert (r ≠ 0).
    { intros Hr0. rewrite <- (Hall Hr0) in H0. simpl in H0. lia. }
    apply wps_copyup_done; [lia|done|lia|unfold ends; lia|lia|by rewrite En].
  - destruct Ho as (Hd & Hl & Hs & n2 & En). simpl in Hd. subst d. destruct Hcp as [Hst Hc].
    exists (Copyup r l). split; [|exists r, l; split; [done|]; split; [lia|done]]. split; [|split; [done|split]].
    + rewrite En. split; [done|]. split; [done|]. split; [lia|done].
    + exists (o_sent s). split; [done|done].
    + rewrite Hs, length_app. apply prefix_length in Hpre. simpl. lia.
Qed.

(** One less is pending. *)
Definition next_result (r res : Z) : Z := if nonzero res && (r =? 0) then res else r.

Lemma wps_dec_pending res s r n :
  or_pending (o_req s) = PendingResult r (Z.of_nat (S n)) → r <= 0 → res <= 0 →
  wps (dec_pending res) s (λ o s',
    s' = Ost (set_pending (PendingResult (next_result r res) (Z.of_nat n)) (o_req s)) (o_sent s) (o_calls s)
    ∧ o = if (n =? 0)%nat then Some (next_result r res) else None).
Proof.
  intros Hp Hr Hres. unfold dec_pending. apply wps_bind, wps_rget, wps_bind, wps_lift. rewrite Hp.
  unfold pending_result_dec. cbn [pr_num_pending pr_result].
  rewrite (proj2 (Z.gtb_lt _ _)) by lia. cbn [require mbind outcome_bind]. fold (next_result r res).
  replace (Z.of_nat (S n) - 1) with (Z.of_nat n) by lia.
  destruct n as [|n]; cbn [nonzero negb Z.eqb Z.of_nat wp Nat.eqb]; by apply wps_bind, wps_rmodify, wps_ret.
Qed.
Lemma next_result_le r res : r <= 0 → res <= 0 → next_result r res <= 0.
Proof. unfold next_result. by destruct (nonzero res && (r =? 0)). Qed.
Lemma next_result_0 r res : next_result r res = 0 → r = 0 ∧ res = 0.
Proof.
  unfold next_result, nonzero. destruct (Z.eqb_spec res 0) as [->|]; destruct (Z.eqb_spec r 0) as [->|]; cbn; lia.
Qed.

(** A snapshot's object map has been updated. *)
Lemma wps_copyup_maps_event res s r q out c f :
  res <= 0 → at_stage dev0 img ex data c s (Maps r (q :: out)) →
  wps (again (S (S f)) (advance_copyup err dev img) res) s
    (copied (S c) (ends (next_result r res)) (goes_on (λ r', r' = next_result r res) (o_req s))).
Proof.
  intros Hres ((Hex & [Hst Hcs] & Hr & Hhc & Hout & Hp) & _ & (pre & Hs & Hpre) & Hb). simpl in Hs, Hb.
  apply wps_again. unfold advance_copyup at 1. apply wps_bind, wps_rget. rewrite Hcs. apply wps_bind.
  eapply wps_mono; [by apply (wps_dec_pending res s r (length out))|]. intros o s' [-> ->].
  pose proof (next_result_le r res Hr Hres) as Hr'. set (r' := next_result r res) in *.
  assert (Hhc' : has_copyup (set_pending (PendingResult r' (Z.of_nat (length out))) (o_req s)))
    by (by apply (has_copyup_update dev0 img ex data (set_pending (PendingResult r' (Z.of_nat (length out)))))).
  destruct out as [|q2 out]; cbn [length Nat.eqb].
  - eapply wps_mono; [apply (wps_copyup_maps_done r' _ (S c) f); [done| |rewrite Hs, length_app in Hb; simpl in Hb; lia|done|by intros ->]|].
    { split; [done|]. simpl. rewrite Hs, length_app. simpl. lia. }
    assert (Hmono : ∀ o s', copied (S c) (ends r') (λ _ st, enters_copyup (set_pending (PendingResult r' 0) (o_req s)) st) o s' →
      copied (S c) (ends r') (goes_on (λ x, x = r') (o_req s)) o s').
    { intros [[] x] s' Ho; [done|]. destruct Ho as (st & Hat & Hen). exists st. split; [done|]. right.
      exists (set_pending (PendingResult r' 0) (o_req s)). done. }
    intros [x|x] s' Ho; [|by apply Hmono]. eapply wps_mono; [exact Ho|]. apply Hmono.
  - apply wps_ret. exists (Maps r' (q2 :: out)). split; [|left; split; [done|by exists r', (q2 :: out)]].
    apply Forall_cons in Hout as [_ Hout].
    split; [by split_and!|]. split; [done|]. split; [|done]. exists (pre ++ [q]). simpl. rewrite Hs, <- (assoc_L (++)).
    split; [done|]. rewrite length_app. simpl. lia.
Qed.

(** The object has been written, or part of it. *)
Lemma wps_copyup_write_event res s r q out c f :
  res <= 0 → at_stage dev0 img ex data c s (Copyup r (q :: out)) →
  wps (again (S f) (advance_copyup err dev img) res) s
    (copied (S c) (λ x, out = [] ∧ x = next_result r res) (λ _ st, st = Copyup (next_result r res) out)).
Proof.
  intros Hres ((Hex & [Hst Hcs] & Hr & Hdel & Hp) & _ & (pre & Hs & Hpre) & Hb). simpl in Hs, Hb.
  apply wps_again. unfold advance_copyup at 1. apply wps_bind, wps_rget. rewrite Hcs. apply wps_bind.
  eapply wps_mono; [by apply (wps_dec_pending res s r (length out))|]. intros o s' [-> ->].
  pose proof (next_result_le r res Hr Hres) as Hr'.
  assert (Hlen : length (o_sent s) = (S c + length out)%nat) by (rewrite Hs, length_app; simpl; lia).
  destruct out as [|q2 out]; cbn [length Nat.eqb] in *.
  - apply wps_ret. unfold copied. simpl. split; [done|]. split; [lia|]. split; [lia|]. done.
  - apply wps_ret. eexists. split; [|done]. split; [by split_and!|]. split; [done|]. split; [|done].
    exists (pre ++ [q]). simpl. rewrite Hs, <- (assoc_L (++)). split; [done|]. rewrite length_app. simpl. lia.
Qed.

(** The modification alone has been written. *)
Lemma wps_copyup_mods_event res s dev1 c f :
  res <= 0 → at_stage dev0 img ex data c s (Mods dev1) →
  wps (again (S f) (advance_copyup err dev img) res) s (copied (S c) (λ x, x = res) (λ _ _, False)).
Proof.
  intros Hres ((Hex & [Hst Hcs] & Hdel) & _ & (pre & Hs & Hpre) & Hb). simpl in Hs, Hb.
  rewrite Hs, length_app in Hb. simpl in Hb. apply wps_copyup_done; [done| |lia|done|done|done].
  rewrite Hs, length_app. simpl. lia.
Qed.

(** The snapshots' maps, if they are to be updated. *)
Lemma snap_updates_are_snap snaps :
  Forall (λ snap, snap ≠ CEPH_NOSNAP) snaps → Forall (snap_update ex) (snap_updates dev (oe_objno ex) snaps).
Proof.
  induction 1 as [|snap snaps Hne _ IH]; [by apply Forall_nil_2|]. apply Forall_cons. split; [|done].
  by eexists _, _.
Qed.
Lemma snap_updates_length no snaps : length (snap_updates dev no snaps) = length snaps.
Proof. induction snaps as [|snap snaps IH]; [done|]. simpl. by rewrite IH. Qed.

Lemma wps_object_maps s :
  Forall (λ snap, snap ≠ CEPH_NOSNAP) (ir_snapc img) → or_pending (o_req s) = nothing_pending → or_ex (o_req s) = ex →
  wps (rbd_obj_copyup_object_maps err dev img) s (λ _ s', ∃ r l, counted lo s s' r l
    ∧ (length l <= length (ir_snapc img))%nat ∧ Forall (snap_update ex) l).
Proof.
  intros Hsnaps Hp Hex. unfold rbd_obj_copyup_object_maps. apply wps_bind, wps_rget, wps_bind, wps_lift.
  rewrite no_pending_nothing by done. cbn [require wp].
  assert (Hnone : wps (mret tt : St unit) s (λ _ s', ∃ r l, counted lo s s' r l
    ∧ (length l <= length (ir_snapc img))%nat ∧ Forall (snap_update ex) l)).
  { apply wps_ret. exists 0, []. split; [apply (counted_nothing err lo Herr); by rewrite Hp|]. split; [simpl; lia|by apply Forall_nil_2]. }
  destruct (negb (has _ _)); [done|]. destruct (flag (o_req s) _); [done|].
  eapply wps_mono; [apply (wps_update_snap_maps err dev lo Herr); [done|by rewrite Hp]|].
  intros _ s' (r & l & Hcnt & Hpre & _). exists r, l. split; [done|]. rewrite Hex in Hpre. split.
  - apply prefix_length in Hpre. by rewrite snap_updates_length in Hpre.
  - destruct Hpre as [k Hk]. pose proof (snap_updates_are_snap _ Hsnaps) as Hall. rewrite Hk in Hall.
    by apply Forall_app in Hall as [? _].
Qed.

(** The pages are zero, or taken not to be. *)
Lemma wps_is_zero s bvecs :
  has_copyup (o_req s) → or_copyup_bvecs (o_req s) = Some bvecs → flag (o_req s) RBD_OBJ_FLAG_COPYUP_ZEROS = false →
  wps (zeros ← slift (is_zero_bvecs bvecs (u32 (rbd_obj_img_extents_bytes (o_req s))));
       if zeros : bool then rmodify (set_flag RBD_OBJ_FLAG_COPYUP_ZEROS) else mret tt) s
    (λ _ s', o_sent s' = o_sent s ∧ has_copyup (o_req s') ∧ keeps (o_req s) (o_req s')
       ∧ or_state (o_req s') = or_state (o_req s) ∧ or_pending (o_req s') = or_pending (o_req s)).
Proof.
  intros [Hex Hdata Hcan Hok Hbytes (bvecs' & Hb' & Hlen & _) Hdel] Hb Hz. rewrite Hb' in Hb. injection Hb as ->.
  apply wps_bind, wps_lift. unfold is_zero_bvecs, rbd_obj_img_extents_bytes.
  rewrite (extents_bytes_eq _ Hok), u32_small by lia.
  rewrite (proj2 (Z.leb_le _ _)) by lia. cbn [require mbind outcome_bind wp].
  rewrite take_ge by lia. destruct (forallb _ _) eqn:Hall; [apply wps_rmodify|apply wps_ret; split; [done|]].
  - split; [done|]. split; [|done]. split; [done|done|by apply can_modify_flag|done|done| |].
    + exists bvecs. split; [done|]. split; [done|]. intros _. apply Forall_forall. intros x Hx.
      rewrite forallb_forall in Hall. symmetry. apply Z.eqb_eq, Hall. by apply list_elem_of_In.
    + cbn [o_req]. by rewrite flag_set_other.
  - split; [|done]. split; [done..| |done]. exists bvecs. by rewrite Hz.
Qed.

(** The data of the parent has been read. *)
Lemma wps_copyup_parent_event res s c f :
  Forall (λ snap, snap ≠ CEPH_NOSNAP) (ir_snapc img) →
  res <= 0 → at_stage dev0 img ex data c s Parent →
  wps (again (S (S (S f))) (advance_copyup err dev img) res) s
    (copied (S c) (ends res) (goes_on (λ r, lo <= r) (o_req s))).
Proof.
  intros Hsnaps Hres ((Hex & [Hst Hcs] & Hp & Hhc & Hz) & _ & (pre & Hs & Hpre) & Hb). simpl in Hs, Hb.
  assert (Hlen : length (o_sent s) = S c) by (rewrite Hs, length_app; simpl; lia).
  assert (Hc3 : (S c <= 3)%nat) by lia.
  apply wps_again. unfold advance_copyup at 1.
  apply wps_bind, wps_rget. rewrite Hcs. apply wps_branch; [done| |intros ->].
  { intros. apply wps_ret. unfold copied, ends. settle. }
  destruct (hc_bvecs _ _ _ _ _ Hhc) as (bvecs & Hbv & _). apply wps_bind, wps_lift. rewrite Hbv. cbn [deref wp].
  pose proof (wps_is_zero s bvecs Hhc Hbv Hz) as Hzero. unfold wps at 1 in Hzero.
  apply wps_bind. unfold wps at 1. unfold mbind at 1, St_bind at 1 in Hzero.
  destruct (slift _ s) as [[zeros s0]| |]; [|done..]. cbn [mbind outcome_bind] in Hzero. cbn [wp].
  apply wps_bind. eapply wps_mono; [exact Hzero|]. clear Hzero zeros s0.
  intros _ s1 (Hs1 & Hhc1 & Hk & Hst1 & Hp1). rewrite Hst in Hst1. rewrite Hp in Hp1. rewrite <- Hs1 in Hlen.
  apply wps_bind. eapply wps_mono; [apply wps_object_maps; [done|done|apply Hhc1]|]. intros _ s2 (r & l & Hcnt & Hl & Hall).
  eapply wps_mono; [by apply (wps_await _ _ _ (S c) s1 s2 r l)|]. destruct Hcnt as (Hr & _).
  assert (Hr0 : r <= 0) by lia. intros [r'|[d x]] s3 Ho.
  - destruct Ho as (-> & -> & Hcp3 & n & En). apply wps_again. unfold advance_copyup at 1.
    apply wps_bind, wps_rget. rewrite En. cbn [set_copyup_state or_copyup_state].
    assert (Hhc3 : has_copyup (o_req s3)).
    { rewrite En. by apply (has_copyup_update dev0 img ex data (λ req, set_copyup_state RBD_OBJ_COPYUP_OBJECT_MAPS (with_pending (PendingResult r 0) n req))). }
    eapply wps_mono; [apply (wps_copyup_maps_done r s3 (S c) f); [lia|done|lia|done|intros ->; by rewrite En]|].
    assert (Hmono : ∀ o s', copied (S c) (ends r) (λ _ st, enters_copyup (o_req s3) st) o s' →
      copied (S c) (ends 0) (goes_on (λ r, lo <= r) (o_req s)) o s').
    { intros [[] x] s' Ho; [unfold copied, ends in *; simpl in *; lia|]. destruct Ho as (st & Hat & Hen). exists st. split; [done|]. right.
      exists (o_req s3). split; [|done]. by rewrite En. }
    intros [x|x] s' Ho; [|by apply Hmono]. eapply wps_mono; [exact Ho|]. apply Hmono.
  - destruct Ho as (Hd & Hne & Hs3 & n & En). simpl in Hd. subst d.
    assert (Hhc3 : has_copyup (o_req s3)).
    { rewrite En. by apply (has_copyup_update dev0 img ex data (λ req, set_copyup_state RBD_OBJ_COPYUP_OBJECT_MAPS_ (with_pending (PendingResult r (Z.of_nat (length l))) n req))). }
    exists (Maps r l). split; [|left; split; [by rewrite En|exists r, l; split; [done|lia]]].
    split; [split; [apply Hhc3|]; rewrite En in *; by split_and!|]. split; [done|]. split; [by exists (o_sent s1)|].
    rewrite Hs3, length_app. simpl. lia.
Qed.

(** The object is not there, and the parent may be. *)
Lemma guard_on req :
  ready req → flag req RBD_OBJ_FLAG_COPYUP_ENABLED = true →
  ir_op_type img ≠ OBJ_OP_DISCARD ∧ or_img_extents req ≠ [] ∧ flag req RBD_OBJ_FLAG_DELETION = false.
Proof.
  intros Hr Hf. rewrite (rr_guard _ _ _ _ _ Hr) in Hf. rewrite (rr_deletion _ _ _ _ _ Hr).
  assert (Hx : ir_op_type img ≠ OBJ_OP_DISCARD ∧ or_img_extents req ≠ []).
  { destruct (ir_op_type img); try discriminate Hf; (split; [done|]); unfold rbd_obj_copyup_enabled in Hf; by intros Hx; rewrite Hx in Hf. }
  destruct Hx as [Hop Hx]. split; [done|]. split; [done|]. rewrite (bool_decide_false _ Hx). by rewrite andb_false_r.
Qed.

Lemma ready_bytes req :
  ready req → extents_ok (or_img_extents req) ∧ 0 <= bytes_of (or_img_extents req) < 2 ^ 32 - 1.
Proof.
  intros Hr. destruct Hroom as [Hl Hsize Hno _]. pose proof (rr_extents _ _ _ _ _ Hr) as Hpe.
  pose proof (proj1 Hl). destruct (parent_addresses _ Hl _ 0 (object_size (rd_layout dev0)) _ _ ltac:(lia) Hpe) as (_ & Hb & _).
  split; [apply Hpe|lia].
Qed.

Lemma pruned_nil_write req :
  ready req → flag req RBD_OBJ_FLAG_COPYUP_ENABLED = true → pruned dev req = [] → ir_op_type img = OBJ_OP_WRITE.
Proof.
  intros Hr Hf Hp. destruct (guard_on req Hr Hf) as (Hop & Hne & _).
  destruct (ir_op_type img) eqn:E; [|done|done|].
  - destruct Hgiven as [Hw _]. unfold rbd_img_is_write in Hw. by rewrite E in Hw.
  - destruct Hroom as [Hl _ Hno _]. unfold pruned in Hp.
    rewrite (parent_extents_below _ _ _ _ _ _ _ (rr_extents _ _ _ _ _ Hr)) in Hp; [done|].
    by apply (dk_overlap _ _ _ _ Hdev).
Qed.

Definition enters_read (req req' : rbd_obj_request) (st : stage) : Prop :=
  (st = Parent ∧ or_img_extents req' = pruned dev req) ∨ (st = Mods dev ∧ pruned dev req = []).

Lemma wps_copyup_start s c f :
  copying c s → (c <= 2)%nat → ready (o_req s) → flag (o_req s) RBD_OBJ_FLAG_COPYUP_ENABLED = true →
  or_copyup_state (o_req s) = Some RBD_OBJ_COPYUP_START →
  wps (again (S f) (advance_copyup err dev img) 0) s (copied c failed (enters_read (o_req s))).
Proof.
  intros [Hst Hc] Hc2 Hready Hfl Hcs. apply wps_again. unfold advance_copyup.
  apply wps_bind, wps_rget. rewrite Hcs. apply wps_bind, wps_lift. cbn [Z.eqb require wp]. apply wps_bind.
  destruct (guard_on _ Hready Hfl) as (Hop & Hne & Hdel). destruct (ready_bytes _ Hready) as (Hok & Hbytes).
  pose proof (ready_can _ _ _ _ _ Hgiven Hready) as [Hw Hd Hx].
  pose proof (clip_ok (rd_parent_overlap dev) _ Hok) as Hpok.
  pose proof (bytes_of_clip (rd_parent_overlap dev) _ Hok) as Hpb. fold (pruned dev (o_req s)) in Hpok, Hpb.
  eapply wps_mono; [apply (wps_copyup_read_parent err dev img lo Herr); [done|apply Hready|done|done|lia|]|].
  { intros Hpr. apply pruned_nil_write in Hpr; [|done..]. split; [done..|]. rewrite Hpr. by intros []. }
  intros ret s1 Hread. apply wps_branch; [destruct Hread as [[? _]|[-> _]]; lia| |intros ->].
  { intros Hneg. destruct Hread as [[Hlo Hs]|[? _]]; [|lia]. apply wps_ret.
    unfold copied. rewrite Hs. unfold failed. settle. }
  destruct Hread as [[? _]|(_ & n & Hread)]; [lia|]. apply wps_bind, wps_rmodify, wps_ret.
  destruct Hread as [(Hpne & Hs & bvecs & En & Hlen)|(Hpr & En & Hs)].
  - exists Parent. cbn. rewrite En. cbn. rewrite bool_decide_false by done. split; [|by left].
    pose proof (bytes_of_pos _ Hpok Hpne). split; [split; [apply Hready|]|].
    + split; [done|]. split; [apply Hready|]. split; [|apply Hready]. split; [apply Hready|apply Hready|by split|done| | |done].
      * change (0 < bytes_of (pruned dev (o_req s)) < 2 ^ 32 - 1). lia.
      * exists bvecs. split; [done|]. split; [done|]. cbn. intros Hz.
        pose proof (rr_zeros _ _ _ _ _ Hready) as Hz'. unfold flag in Hz, Hz'. cbn in Hz. by rewrite Hz in Hz'.
    + split; [done|]. split; [by exists (o_sent s)|]. cbn. rewrite Hs, length_app. cbn. lia.
  - exists (Mods dev). cbn. rewrite En. cbn. rewrite Hpr. split; [|by right].
    split; [split; [apply Hready|done]|]. split; [done|]. rewrite Hpr in Hs. split; [by exists (o_sent s)|].
    cbn. rewrite Hs, length_app. cbn. lia.
Qed.

(** ** Writes *)

Definition goes_to_object (req req' : rbd_obj_request) (st : stage) : Prop :=
  or_flags req' = or_flags req ∧ st = Object dev.

Lemma wps_write_step s c :
  ready (o_req s) → length (o_sent s) = c → (c <= 1)%nat →
  wps (ret ← rbd_obj_write_object err dev img;
       if nonzero ret then completed ret
       else _ ← rmodify (set_state (Write_state RBD_OBJ_WRITE_OBJECT)); waiting 0) s (λ o s', match o with
    | inl _ => False | inr x => advanced c failed (goes_to_object (o_req s)) x s' end).
Proof.
  intros Hready Hc Hc1. apply wps_bind. eapply wps_mono; [apply (wps_write_object err dev img lo Herr)|].
  { eapply can_modify_dev; [done|]. by eapply ready_can. }
  intros ret s' [[Hneg [Hs _]]|[-> (r & Hreq & Hs & m & En)]].
  - apply wps_branch; [lia| |lia]. intros _. apply wps_ret. unfold RbdStages.advanced. rewrite Hs, app_nil_r.
    unfold failed. settle.
  - apply wps_bind, wps_rmodify, wps_ret. exists (Object dev). split; [|split; [cbn; by rewrite En|done]].
    eapply (at_stage_sent c s _ _ _ m (set_state (Write_state RBD_OBJ_WRITE_OBJECT))); [done|exact Hs|cbn; by rewrite En| |simpl; lia].
    intros n. split; [|by rewrite Hreq]. split; [apply Hready|]. split; [done|]. split; [|done].
    by apply ready_state, ready_reqs.
Qed.

Lemma wps_pre_event res s c n :
  res <= 0 → or_state (o_req s) = Write_state RBD_OBJ_WRITE_PRE_OBJECT_MAP → ready (o_req s) →
  length (o_sent s) = c → (c <= 1)%nat →
  wps (again (S n) (advance_write err dev img) res) s
    (advanced c (ends res) (λ req st, res = 0 ∧ goes_to_object (o_req s) req st)).
Proof.
  intros Hres Hst Hready Hc Hc1. apply wps_again. unfold advance_write. apply wps_bind, wps_rget. rewrite Hst.
  apply wps_branch; [done| |intros ->]. { intros. apply wps_ret. unfold RbdStages.advanced, ends. settle. }
  eapply wps_mono; [by apply (wps_write_step s c)|]. intros [x|x] s' Ho; [done|].
  eapply advanced_mono; [exact Ho| |done]. unfold failed, ends. lia.
Qed.

(** The answer to the write, if it is not that the object is to be made first. *)
Definition write_result (req : rbd_obj_request) (res : Z) : Z :=
  if (res =? - ENOENT) && flag req RBD_OBJ_FLAG_DELETION then 0 else res.

Definition object_next (res : Z) (s : ost) (req : rbd_obj_request) (st : stage) : Prop :=
  if (res =? - ENOENT) && flag (o_req s) RBD_OBJ_FLAG_COPYUP_ENABLED
  then ∃ req1, or_img_extents req1 = or_img_extents (o_req s) ∧ enters_read req1 req st
  else after_write (write_result (o_req s) res) s req st.

Definition object_done (res : Z) (s : ost) (x : Z) : Prop :=
  (x = 0 → write_result (o_req s) res = 0
           ∧ (res =? - ENOENT) && flag (o_req s) RBD_OBJ_FLAG_COPYUP_ENABLED = false) ∧
  (lo <= x ∨ x = res ∧ write_result (o_req s) res ≠ 0
             ∧ (res =? - ENOENT) && flag (o_req s) RBD_OBJ_FLAG_COPYUP_ENABLED = false).

Lemma wps_object_event res s dev1 c :
  res <= 0 → at_stage dev0 img ex data c s (Object dev1) →
  wps (again 3 (advance_write err dev img) res) s
    (advanced (S c) (object_done res s) (object_next res s)).
Proof.
  intros Hres ((Hex & Hst & Hready & Hdev1) & _ & (pre & Hs & Hpre) & Hb). simpl in Hs, Hb.
  assert (Hlen : length (o_sent s) = S c) by (rewrite Hs, length_app; simpl; lia).
  apply wps_again. unfold advance_write at 1.
  apply wps_bind, wps_rget. rewrite Hst.
  destruct ((res =? - ENOENT) && flag (o_req s) RBD_OBJ_FLAG_COPYUP_ENABLED) eqn:Hcopy.
  - apply wps_bind, wps_rmodify, wps_ret. set (s1 := Ost _ _ _).
    apply andb_prop in Hcopy as Hcopy'. destruct Hcopy' as [_ Hfl].
    assert (Hready1 : ready (o_req s1)) by (by apply ready_state, ready_copyup).
    eapply wps_mono; [apply (wps_copyup_in_write 0 s1 (S c) 0 failed (enters_read (o_req s1))); [done|]|].
    { apply wps_copyup_start; [by split|lia|done|done|done]. }
    intros o s' Ho. eapply advanced_mono; [exact Ho| |].
    + intros x [Hx0 Hx]. unfold object_done, failed in *. rewrite Hcopy. split; [intros H0; specialize (Hx0 H0); lia|left; lia].
    + intros req st Hn. unfold object_next. rewrite Hcopy. by exists (o_req s1).
  - cbv zeta. fold (write_result (o_req s) res).
    assert (Hr : write_result (o_req s) res <= 0)
      by (unfold write_result; by destruct ((res =? - ENOENT) && flag (o_req s) RBD_OBJ_FLAG_DELETION)).
    apply wps_branch; [done| |intros H0]. { intros Hneg. apply wps_ret. unfold RbdStages.advanced. simpl. split; [done|]. split; [done|]. split; [lia|].
      split; [intros; lia|]. right. unfold write_result in *.
      destruct ((res =? - ENOENT) && flag (o_req s) RBD_OBJ_FLAG_DELETION); [lia|]. split; [done|]. split; [lia|done]. }
    apply wps_bind, wps_rmodify, wps_ret. set (s1 := Ost _ _ _). apply wps_again. unfold advance_write at 1.
    apply wps_bind, wps_rget. cbn [s1 set_state or_state o_req].
    eapply wps_mono; [apply (wps_done_again _ s1 (S c) 0); [lia|done|lia|done]|].
    assert (Hmono : ∀ o s', advanced (S c) (done_after (write_result (o_req s) res))
        (after_write (write_result (o_req s) res) s1) o s' →
      advanced (S c) (object_done res s) (object_next res s) o s').
    { intros o s' Ho. eapply advanced_mono; [exact Ho| |].
      { intros x [_ Hx]. split; [intros _; by split|]. pose proof lo_le. rewrite H0 in Hx. left. lia. } intros req st Hn. unfold object_next.
      by rewrite Hcopy. }
    intros [x|x] s' Ho; [|by apply Hmono]. eapply wps_mono; [exact Ho|]. apply Hmono.
Qed.

Lemma wps_post_event res s c :
  res <= 0 → at_stage dev0 img ex data c s Post →
  wps (again 3 (advance_write err dev img) res) s (advanced (S c) (λ x, x = res) (λ _ _, False)).
Proof.
  intros Hres ((Hex & Hst & Hdel) & _ & (pre & Hs & Hpre) & Hb). simpl in Hs, Hb.
  rewrite Hs, length_app in Hb. simpl in Hb. apply wps_post; [done| |lia|done]. rewrite Hs, length_app. simpl. lia.
Qed.

Lemma may_exist_eq : ∃ b, rbd_object_map_may_exist dev (oe_objno ex) = Ret b.
Proof.
  unfold rbd_object_map_may_exist, use_object_map. destruct (negb (rbd_is_snap dev) && _); [by eexists|].
  destruct (has (rd_features dev) RBD_FEATURE_OBJECT_MAP) eqn:Hf; [|by eexists].
  destruct (true && _); [|by eexists]. cbn [negb]. rewrite object_map_get_eq by (by apply Hdev). by eexists.
Qed.

(** What the start finds: nothing to do, an object map to update, or one that is right. *)
Definition is_noop (req : rbd_obj_request) : Prop :=
  rbd_object_map_may_exist dev (oe_objno ex) = Ret false ∧ flag req RBD_OBJ_FLAG_NOOP_FOR_NONEXISTENT = true.
Definition start_next (req' : rbd_obj_request) (st : stage) : Prop :=
  st = Pre ∧ has (rd_features dev) RBD_FEATURE_OBJECT_MAP = true ∨
  st = Object dev ∧ (has (rd_features dev) RBD_FEATURE_OBJECT_MAP = true →
    update_needed dev (oe_objno ex) (pre_state req') = Ret false).

Lemma wps_start s :
  or_state (o_req s) = Write_state RBD_OBJ_WRITE_START → ready (o_req s) → o_sent s = [] →
  wps (again 3 (advance_write err dev img) 0) s
    (advanced 0 (λ x, (x = 0 → is_noop (o_req s)) ∧ lo <= x) start_next).
Proof.
  intros Hst Hready Hs. apply wps_again. unfold advance_write at 1. apply wps_bind, wps_rget. rewrite Hst.
  apply wps_bind, wps_lift. cbn [Z.eqb require wp]. apply wps_bind. unfold rbd_obj_write_is_noop, rbd_obj_may_exist.
  apply wps_bind, wps_bind, wps_rget, wps_bind, wps_lift.
  destruct may_exist_eq as [may Hmay]. rewrite (rr_ex _ _ _ _ _ Hready), Hmay. cbn [wp]. apply wps_bind.
  assert (Hflag : wps (if may then rmodify (set_flag RBD_OBJ_FLAG_MAY_EXIST) else mret tt) s
    (λ _ s', or_state (o_req s') = Write_state RBD_OBJ_WRITE_START ∧ ready (o_req s') ∧ o_sent s' = [] ∧
      flag (o_req s') RBD_OBJ_FLAG_NOOP_FOR_NONEXISTENT = flag (o_req s) RBD_OBJ_FLAG_NOOP_FOR_NONEXISTENT ∧
      (may = true → flag (o_req s') RBD_OBJ_FLAG_MAY_EXIST = true))).
  { destruct may; [apply wps_rmodify|by apply wps_ret]. split; [done|]. split; [by apply ready_may_exist|].
    split; [done|]. cbn [o_req]. rewrite !flag_set, orb_false_r. split; [done|]. intros _. apply orb_true_r. }
  eapply wps_mono; [exact Hflag|]. clear Hflag. intros _ s1 (Hst1 & Hready1 & Hs1 & Hnoop1 & Hmay1).
  apply wps_ret, wps_bind, wps_rget, wps_ret.
  destruct (negb _ && _) eqn:Hnoop.
  { apply wps_ret. unfold RbdStages.advanced. simpl. rewrite Hs1. split_and!; [done..|simpl; lia| |apply lo_le]. intros _.
    apply andb_prop in Hnoop as [Hn1 Hn2]. unfold is_noop. rewrite <- Hnoop1. split; [|done].
    rewrite Hmay. destruct may; [|done]. by rewrite (Hmay1 eq_refl) in Hn1. }
  clear Hnoop Hmay Hmay1 may. rename Hst into Hst0, Hready into Hready0.
  apply wps_bind. unfold rbd_obj_write_pre_object_map. apply wps_bind, wps_rget. fold (pre_state (o_req s1)).
  eapply wps_mono with (P := λ ret s', (ret = 1 ∧ s' = s1 ∧ (has (rd_features dev) RBD_FEATURE_OBJECT_MAP = true →
      update_needed dev (oe_objno ex) (pre_state (o_req s1)) = Ret false)) ∨
    has (rd_features dev) RBD_FEATURE_OBJECT_MAP = true ∧ sent_one lo (λ r, r = map_update CEPH_NOSNAP (oe_objno (or_ex (o_req s1))) (pre_state (o_req s1)) None) s1 ret s').
  { destruct (has (rd_features dev) RBD_FEATURE_OBJECT_MAP) eqn:Hf; cbn [negb]; [|apply wps_ret; by left].
    eapply wps_mono; [apply (wps_map_update err dev lo Herr)|]; rewrite (rr_ex _ _ _ _ _ Hready1).
    { intros _. by apply Hdev. }
    intros ret s' [(-> & _ & -> & Hn)|Hret]; [by left|by right]. }
  intros ret s' Hret. eapply wps_mono; [eapply (wps_after_update ret _ Pre s1 s' 0 0)|].
  - destruct Hret as [(-> & -> & _)|[_ Hret]]; [by left|right; exact Hret].
  - by rewrite Hs1. - simpl. lia.
  - intros n. cbn. rewrite (rr_ex _ _ _ _ _ Hready1). split; [|done]. split; [apply Hready1|]. split; [done|].
    by apply ready_state, ready_reqs.
  - intros [r'|x] s2 Ho.
    + destruct Ho as (-> & -> & Hs2 & n & En).
      destruct Hret as [(_ & -> & Hn)|[_ [[? _]|[? _]]]]; [|lia|lia].
      eapply wps_mono; [apply (wps_pre_event 0 s2 0); rewrite ?En, ?Hs2, ?Hs1; [done|done| |done|lia]|].
      { by apply ready_state, ready_reqs. }
      intros o s3 Ho. eapply advanced_mono; [exact Ho| |].
      { intros y Hy. unfold ends in Hy. lia. }
      intros req st (_ & Hfl & ->). right. split; [done|].
      assert (pre_state req = pre_state (o_req s1)) as ->; [|done].
      unfold pre_state, flag. by rewrite Hfl, En.
    + destruct Ho as [Hle Ho]. destruct Hret as [(-> & _)|[Hf _]]; [lia|].
      eapply advanced_mono; [exact Ho| |intros req st ->; by left]. intros y Hy. unfold failed in Hy. lia.
Qed.
End steps.
