(* ===== verification/RbdInit.v ===== *)
(** * RBD writes are prepared (rbd/rbd.c)

    [rbd_obj_init_write], [rbd_obj_init_discard] and [rbd_obj_init_zeroout] leave a request the
    stages can start from. *)
From S2P Require Import Prelude Striper Hash Crush Mapper Choose DoRule Workspace OsdMap Decode.
From S2P Require Import Rbd RbdObject RbdMachine RbdObjectMap RbdParent RbdSends RbdStages.

(** A request as it is allocated, for bytes [data] if it has any. *)
Definition fresh (ex : ceph_object_extent) (data : list Z) : rbd_obj_request :=
  RbdObjRequest ex 0 No_state [] data None None 0 nothing_pending.

(** The bytes of the object the request is for in the end. *)
Definition target (dev : rbd_device) (img : img_info) (ex : ceph_object_extent) : option ceph_object_extent :=
  match ir_op_type img with
  | OBJ_OP_DISCARD =>
      '(off, len) ← discard_range dev (fresh ex []);
      Some {| oe_objno := oe_objno ex; oe_off := off; oe_len := len |}
  | _ => Some ex
  end.

Lemma target_objno dev img ex ex' : target dev img ex = Some ex' → oe_objno ex' = oe_objno ex.
Proof.
  unfold target. destruct (ir_op_type img); try (by intros [= <-]).
  destruct (discard_range dev _) as [[off len]|]; [|done]. by intros [= <-].
Qed.

(** A discard does not reach beyond what was given. *)
Lemma target_range dev img ex ex' :
  0 <= oe_off ex → 0 < oe_len ex → oe_off ex + oe_len ex < 2 ^ 64 → target dev img ex = Some ex' →
  0 <= oe_off ex' ∧ 0 < oe_len ex' ∧ oe_off ex' + oe_len ex' <= oe_off ex + oe_len ex.
Proof.
  intros Hoff Hlen Hend. unfold target. destruct (ir_op_type img); try (intros [= <-]; lia).
  unfold discard_range. cbn [or_ex fresh].
  destruct (negb _ || negb _); [|cbn; intros [= <-]; cbn; lia].
  destruct (Z.geb_spec (round_up (oe_off ex) (rd_alloc_size dev))
              (round_down (u64 (oe_off ex + oe_len ex)) (rd_alloc_size dev))) as [|Hlt]; [done|].
  cbn. intros [= <-]. cbn. pose proof (u64_range (Z.lor (u64 (oe_off ex - 1)) (rd_alloc_size dev - 1) + 1)) as Hu.
  fold (round_up (oe_off ex) (rd_alloc_size dev)) in Hu.
  assert (round_down (u64 (oe_off ex + oe_len ex)) (rd_alloc_size dev) <= oe_off ex + oe_len ex); [|lia].
  unfold round_down. rewrite (u64_small (oe_off ex + oe_len ex)) by lia.
  pose proof (u64_range (Z.lnot (rd_alloc_size dev - 1))) as Hm.
  clear Hlt Hu. set (y := u64 (Z.lnot _)) in *. set (x := oe_off ex + oe_len ex) in *.
  assert (Z.ldiff (Z.land x y) x = 0) as Hd.
  { apply Z.bits_inj'. intros n Hn. rewrite Z.ldiff_spec, Z.land_spec, Z.bits_0. by destruct (Z.testbit x n), (Z.testbit y n). }
  apply Z.sub_nocarry_ldiff in Hd. assert (0 <= Z.ldiff x (Z.land x y)); [|lia]. apply Z.ldiff_nonneg. left. subst x. lia.
Qed.

Section init.
Context (err : nat → Z) (dev : rbd_device) (img : img_info) (ex : ceph_object_extent) (data : list Z).
Context (lo : Z) (Herr : errors lo err).
Hypothesis Hroom : room (rd_layout dev) (oe_objno ex).
Implicit Types (s : ost).

(** The image extents of the whole object. *)
Definition covers (exts : list ceph_file_extent) : Prop :=
  parent_extents (rd_layout dev) (oe_objno ex) 0 (object_size (rd_layout dev)) (rd_parent_overlap dev) exts.

Lemma wps_calc_img_extents entire s :
  let off := if entire : bool then 0 else oe_off (or_ex (o_req s)) in
  let len := if entire then object_size (rd_layout dev) else oe_len (or_ex (o_req s)) in
  or_img_extents (o_req s) = [] → oe_objno (or_ex (o_req s)) = oe_objno ex →
  0 <= off → 0 < len → off + len <= object_size (rd_layout dev) →
  wps (rbd_obj_calc_img_extents err dev entire) s (λ ret s', o_sent s' = o_sent s ∧ lo <= ret <= 0 ∧
    (ret = 0 → ∃ n exts, o_req s' = set_img_extents exts (with_reqs n (o_req s))
       ∧ (rd_parent_overlap dev ≠ 0 ∨ exts = [])
       ∧ (0 <= rd_parent_overlap dev →
          parent_extents (rd_layout dev) (oe_objno ex) off (off + len) (rd_parent_overlap dev) exts))).
Proof.
  destruct Hroom as [Hl Hsize Hno Hlast]. intros off len Hnil Hobj Hoff Hlen Hle. unfold rbd_obj_calc_img_extents.
  destruct (Z.eqb_spec (rd_parent_overlap dev) 0) as [H0|H0].
  { pose proof (errs_range _ _ Herr 0%nat). apply wps_ret. split; [done|]. split; [lia|]. intros _. exists (or_osd_reqs (o_req s)), [].
    split; [rewrite <- Hnil; by destruct (o_req s)|]. split; [by right|]. intros _. rewrite H0.
    apply parent_extents_nil; (done || lia). }
  apply wps_bind, wps_rget, wps_bind, (wps_call err lo Herr). intros ok s1 Hcall [Hs1 [n En]]. rewrite app_nil_r in Hs1.
  apply wps_bind, wps_lift. rewrite Hobj. fold off len. pose proof (proj1 Hl) as Hsu.
  pose proof (unlocate_mono _ Hl (oe_objno ex) (off + len - 1) (object_size (rd_layout dev) - 1) ltac:(lia)).
  eapply wp_mono; [apply (extent_to_file_wp _ Hl (oe_objno ex) Hno (λ _, ok =? 0)); lia|].
  intros [r fes] [[-> Hinv]|[-> [_ Hk%Z.eqb_neq]]].
  2:{ apply wps_branch; [done| |done]. intros _. apply wps_ret. split; [done|].
      destruct (errs_nomem _ _ Herr); (split; [unfold ENOMEM in *; lia|done]). }
  pose proof (errs_range _ _ Herr 0%nat). apply wps_branch; [done|done|intros _]. apply wps_bind, wps_lift.
  pose proof (extents_of_object (rd_layout dev) (oe_objno ex) off (off + len) fes Hl Hno ltac:(lia) Hle Hlast Hinv) as Hok.
  rewrite prune_extents_eq by done. cbn [wp]. apply wps_bind, wps_rmodify, wps_ret.
  split; [done|]. split; [lia|]. intros _. exists n, (clip (rd_parent_overlap dev) fes).
  split; [cbn; by rewrite En|]. split; [by left|]. intros _.
  by apply (parent_extents_clip _ Hl _ Hno); [lia|..].
Qed.

(** Prepared: ready to start, dropped or refused. *)
Definition prepared (ret : Z) (s : ost) : Prop :=
  o_sent s = [] ∧ (lo <= ret < 0 ∨ ret = 1 ∧ target dev img ex = None ∨ ret = 0 ∧ ∃ ex', target dev img ex = Some ex'
    ∧ ready dev img ex' data (o_req s) ∧ or_state (o_req s) = Write_state RBD_OBJ_WRITE_START).

Hypothesis Hoverlap : 0 <= rd_parent_overlap dev.

Lemma calc_then (k : St Z) s :
  or_img_extents (o_req s) = [] → oe_objno (or_ex (o_req s)) = oe_objno ex → o_sent s = [] →
  (∀ n exts c, covers exts → wps k (Ost (set_img_extents exts (with_reqs n (o_req s))) [] c) prepared) →
  wps (ret ← rbd_obj_calc_img_extents err dev true; if nonzero ret then mret ret else k) s prepared.
Proof.
  intros Hnil Hobj Hs Hk. apply wps_bind. pose proof (proj1 (rm_layout _ _ Hroom)).
  eapply wps_mono; [apply wps_calc_img_extents; (done || lia)|].
  intros ret [req sent c] (Hs' & Hr & Hret). cbn in Hs'. rewrite Hs in Hs'. subst sent.
  apply (wps_check lo); [done| |intros ->].
  { intros. split; [done|]. by left. }
  destruct (Hret eq_refl) as (n & exts & En & _ & Hcov). cbn in En. subst req. by apply Hk, Hcov.
Qed.

Lemma prepared_ready ex' req n :
  target dev img ex = Some ex' → ready dev img ex' data req →
  prepared 0 (Ost (set_state (Write_state RBD_OBJ_WRITE_START) req) [] n).
Proof.
  intros Ht Hr. split; [done|]. right. right. split; [done|]. exists ex'. split; [done|].
  split; [by apply ready_state|done].
Qed.

(** The flags, of a request that is not changed otherwise. *)
Lemma ready_flags ex' n exts flags :
  oe_objno ex' = oe_objno ex → covers exts →
  let req := RbdObjRequest ex' flags No_state exts data None None n nothing_pending in
  has flags RBD_OBJ_FLAG_COPYUP_ZEROS = false →
  has flags RBD_OBJ_FLAG_COPYUP_ENABLED =
    match ir_op_type img with OBJ_OP_DISCARD => false | _ => rbd_obj_copyup_enabled dev img req end →
  has flags RBD_OBJ_FLAG_DELETION =
    removes (ir_op_type img) && rbd_obj_is_entire dev req && bool_decide (exts = []) →
  (has flags RBD_OBJ_FLAG_NOOP_FOR_NONEXISTENT = true →
     ir_op_type img = OBJ_OP_DISCARD ∨ ir_op_type img = OBJ_OP_ZEROOUT ∧ exts = []) →
  ready dev img ex' data req.
Proof. intros Hno Hcov req Hz Hg Hd Hn. unfold covers in Hcov. rewrite <- Hno in Hcov. by split. Qed.

Lemma wps_init_write n :
  ir_op_type img = OBJ_OP_WRITE → wps (rbd_obj_init_write err dev img) (Ost (fresh ex data) [] n) prepared.
Proof.
  intros Hop. assert (Ht : target dev img ex = Some ex) by (unfold target; by rewrite Hop).
  unfold rbd_obj_init_write. apply calc_then; [done..|].
  intros m exts c Hcov. apply wps_bind, wps_rget. apply wps_bind.
  destruct (rbd_obj_copyup_enabled dev img _) eqn:Hc; [apply wps_rmodify|apply wps_ret];
    apply wps_bind, wps_rmodify, wps_ret; (apply (prepared_ready ex); [done|]);
    apply ready_flags; rewrite ?Hop; done.
Qed.

Lemma wps_init_discard n :
  ir_op_type img = OBJ_OP_DISCARD → wps (rbd_obj_init_discard err dev) (Ost (fresh ex data) [] n) prepared.
Proof.
  intros Hop. unfold rbd_obj_init_discard. apply wps_bind, wps_rget.
  assert (Ht : target dev img ex = '(off, len) ← discard_range dev (fresh ex data);
    Some {| oe_objno := oe_objno ex; oe_off := off; oe_len := len |}) by (unfold target; by rewrite Hop).
  cbn [o_req]. destruct (discard_range dev _) as [[off len]|]. 2:{ apply wps_ret. split; [done|]. right. by left. }
  cbn in Ht. apply wps_bind, wps_rmodify. apply calc_then; [done..|].
  intros m exts c Hcov. apply wps_bind, wps_rmodify, wps_bind, wps_rget, wps_bind. cbn [o_req].
  set (req := set_flag _ _).
  destruct (rbd_obj_is_entire dev req && bool_decide (or_img_extents req = [])) eqn:Hdel;
    [apply wps_rmodify|apply wps_ret];
    apply wps_bind, wps_rmodify, wps_ret; (eapply prepared_ready; [exact Ht|]);
    apply ready_flags; rewrite ?Hop; first [done | intros _; by left | symmetry; exact Hdel].
Qed.

Lemma wps_init_zeroout n :
  ir_op_type img = OBJ_OP_ZEROOUT → wps (rbd_obj_init_zeroout err dev img) (Ost (fresh ex data) [] n) prepared.
Proof.
  intros Hop. assert (Ht : target dev img ex = Some ex) by (unfold target; by rewrite Hop).
  unfold rbd_obj_init_zeroout. apply calc_then; [done..|].
  intros m exts c Hcov. apply wps_bind, wps_rget. apply wps_bind. cbn [o_req].
  destruct exts as [|fe exts].
  - change (rbd_obj_copyup_enabled dev img _) with false. apply wps_ret, wps_bind. rewrite bool_decide_true by done.
    apply wps_bind, wps_rmodify. cbn [o_req].
    destruct (rbd_obj_is_entire dev _) eqn:He; [apply wps_rmodify|apply wps_ret];
      apply wps_bind, wps_rmodify, wps_ret; (apply (prepared_ready ex); [done|]);
      apply ready_flags; rewrite ?Hop; first [done | intros _; by right | symmetry; rewrite bool_decide_true, andb_true_r by done; exact He].
  - destruct (rbd_obj_copyup_enabled dev img _) eqn:Hc; [apply wps_rmodify|apply wps_ret]; apply wps_bind;
      rewrite bool_decide_false by done; apply wps_ret;
      apply wps_bind, wps_rmodify, wps_ret; (apply (prepared_ready ex); [done|]);
      apply ready_flags; rewrite ?Hop; try done; by rewrite bool_decide_false, andb_false_r by done.
Qed.

Lemma wps_init n :
  rbd_img_is_write img = true → wps (rbd_obj_init err dev img) (Ost (fresh ex data) [] n) prepared.
Proof.
  intros Hw. unfold rbd_obj_init. destruct (ir_op_type img) eqn:Hop.
  - unfold rbd_img_is_write in Hw. by rewrite Hop in Hw.
  - by apply wps_init_write.
  - by apply wps_init_discard.
  - by apply wps_init_zeroout.
Qed.
End init.
