(* ===== verification/RbdComplete.v ===== *)
(** * RBD writes complete (rbd/rbd.c)

    A write request and the completions of what it has sent, in any order and with any results:
    it completes exactly once, and that after the last of them. *)
From S2P Require Import Prelude Striper Hash Crush Mapper Choose DoRule Workspace OsdMap Decode.
From S2P Require Import Rbd RbdObject RbdMachine RbdObjectMap RbdParent RbdSends RbdStages.
From S2P Require Import RbdSteps RbdInit.

(** A completion: the device as it is then, the result the callback hands to the handler, and
    what a read of the parent has found. *)
Record completion := Completion {
  cn_dev : rbd_device; cn_result : Z; cn_parent : nat → Z }.

Definition fill_pages (bvecs : list (list Z)) (data : nat → Z) : list (list Z) :=
  reshape (length <$> bvecs) (data <$> seq 0 (length (concat bvecs))).

(** The pages are filled while the parent is read. *)
Definition arrive (ev : completion) (req : rbd_obj_request) : rbd_obj_request :=
  match or_copyup_state req, or_copyup_bvecs req with
  | Some RBD_OBJ_COPYUP_READ_PARENT, Some bvecs =>
      set_copyup_bvecs (Some (fill_pages bvecs (cn_parent ev))) req
  | _, _ => req
  end.

(** [Refused]: an error or a dropped request.  [Completed]: with the completions nothing
    waits for.  [Outstanding]: the completions have not been enough. *)
Inductive progress :=
  | Refused (ret : Z)
  | Completed (result : Z) (rest : list completion)
  | Outstanding.

Section writes.
Context (err : nat → Z) (img : img_info).

Definition obj_handle (dev : rbd_device) (result : Z) : St (bool * Z) :=
  rbd_obj_handle_request_ err dev img result.

Fixpoint drive (evs : list completion) : St progress :=
  match evs with
  | [] => mret Outstanding
  | ev :: evs =>
      _ ← rmodify (arrive ev);
      '(done, result) ← obj_handle (cn_dev ev) (cn_result ev);
      if done : bool then mret (Completed result evs) else drive evs
  end.

(** [__rbd_img_fill_request] and [rbd_img_object_requests], of one object. *)
Definition run_request (dev : rbd_device) (evs : list completion) : St progress :=
  ret ← rbd_obj_init err dev img;
  if nonzero ret then mret (Refused ret)
  else
    '(done, result) ← obj_handle dev 0;
    if done : bool then mret (Completed result evs) else drive evs.
End writes.

Lemma length_reshape_concat (bvecs : list (list Z)) (l : list Z) :
  length l = length (concat bvecs) → length (concat (reshape (length <$> bvecs) l)) = length (concat bvecs).
Proof.
  revert l. induction bvecs as [|b bvecs IH]; intros l Hl; [done|].
  rewrite concat_cons, length_app in Hl. rewrite fmap_cons. cbn [reshape]. rewrite !concat_cons, !length_app.
  rewrite length_take, IH by (rewrite length_drop; lia). lia.
Qed.
Lemma length_fill_pages bvecs data : length (concat (fill_pages bvecs data)) = length (concat bvecs).
Proof. apply length_reshape_concat. by rewrite length_fmap, length_seq. Qed.

(** Anything may happen. *)
Abbreviation any := (λ _, True).
Abbreviation anywhere := (λ _ _, True).

Section proofs.
Context (err : nat → Z) (lo : Z) (img : img_info) (dev0 : rbd_device) (ex : ceph_object_extent) (data : list Z).
Hypothesis Herr : errors lo err.
Hypothesis Hgiven : given img ex data.
Hypothesis Hroom : room (rd_layout dev0) (oe_objno ex).
Hypothesis Hsnaps : Forall (λ snap, snap ≠ CEPH_NOSNAP) (ir_snapc img).
Implicit Types (req : rbd_obj_request) (s : ost).

Local Abbreviation at_stage := (at_stage dev0 img ex data).
Local Abbreviation advanced := (advanced dev0 img ex data).

Lemma arrive_stage ev req st :
  stage_ok dev0 img ex data req st →
  stage_ok dev0 img ex data (arrive ev req) st ∧ out_of img ex (arrive ev req) st = out_of img ex req st.
Proof.
  unfold arrive. intros Hp.
  destruct (or_copyup_state req) as [[]|] eqn:Hcs; [done| |done..].
  destruct (or_copyup_bvecs req) as [bvecs|] eqn:Hb; [|done].
  destruct st; destruct Hp as [Hex Hp]; (split; [split; [done|]|done]).
  - destruct Hp as [_ Hr]. by rewrite (rr_bvecs _ _ _ _ _ Hr) in Hb.
  - destruct Hp as (_ & Hr & _). by rewrite (rr_bvecs _ _ _ _ _ Hr) in Hb.
  - destruct Hp as (Hst & Hp & [? ? [] ? ? (bv & Hbv & Hlen & Hz') ?] & Hz). split; [done|]. split; [done|]. split; [|done].
    rewrite Hb in Hbv. injection Hbv as <-. split; [done|done|by split|done|done| |done].
    eexists. split; [done|]. rewrite length_fill_pages. split; [done|].
    unfold flag in *. cbn. by rewrite Hz.
  - destruct Hp as [[_ Hcs'] _]. by rewrite Hcs in Hcs'.
  - destruct Hp as [[_ Hcs'] _]. by rewrite Hcs in Hcs'.
  - destruct Hp as [[_ Hcs'] _]. by rewrite Hcs in Hcs'.
  - exact Hp.
Qed.

(** [__rbd_obj_handle_request] asserts what has been shown. *)
Lemma wps_handle dev res s c D next :
  wps (again 3 (advance_write err dev img) res) s (advanced c D next) →
  wps (obj_handle err img dev res) s (advanced c D next).
Proof.
  intros H. unfold obj_handle, rbd_obj_handle_request_. destruct Hgiven as [Hwrite _]. rewrite Hwrite. apply wps_bind.
  eapply wps_mono; [exact H|]. intros [done r] s' Ho. apply wps_bind, wps_lift.
  assert (negb (done && nonzero r) || (r <? 0) = true) as ->; [|done].
  destruct done; [|done]. destruct Ho as (Hr & _). simpl in Hr. unfold nonzero.
  destruct (Z.eqb_spec r 0); [done|]. cbn. apply Z.ltb_lt. lia.
Qed.

(** What is next, for each stage. *)
Definition stage_done (res : Z) (s : ost) (st : stage) (x : Z) : Prop :=
  match st with
  | Pre | Parent => ends lo res x
  | Maps r _ => ends lo (next_result r res) x
  | Object _ => object_done lo res s x
  | Mods _ => (x = 0 → res = 0) ∧ (lo <= x ∨ x = res)
  | Copyup r out => (x = 0 → tail out = [] ∧ next_result r res = 0)
                    ∧ (lo <= x ∨ tail out = [] ∧ x = next_result r res)
  | Post => x = res
  end.
Definition stage_next (dev : rbd_device) (res : Z) (s : ost) (st : stage) (req : rbd_obj_request) (st' : stage) : Prop :=
  match st with
  | Pre => res = 0 ∧ goes_to_object dev (o_req s) req st'
  | Object _ => object_next dev res s req st'
  | Parent => goes_on lo dev0 dev img ex data (λ r, lo <= r) (o_req s) req st'
  | Maps r _ => goes_on lo dev0 dev img ex data (λ r', r' = next_result r res) (o_req s) req st'
  | Mods _ | Post => False
  | Copyup r out => st' = Copyup (next_result r res) (tail out)
  end.

Lemma advanced_le c (D D' : Z → Prop) (next next' : rbd_obj_request → stage → Prop) o s :
  advanced c D next o s → (∀ r, r <= 0 → D r → D' r) → (∀ req st, next req st → next' req st) → advanced c D' next' o s.
Proof.
  unfold RbdStages.advanced. destruct o as [[] r]; simpl; [naive_solver|]. intros (st & ? & ?) _ Hn. exists st. auto.
Qed.

(** One completion. *)
Lemma wps_event dev res s c st :
  dev_ok dev0 img ex dev → res <= 0 → at_stage c s st →
  wps (obj_handle err img dev res) s (advanced (S c) (stage_done res s st) (stage_next dev res s st)).
Proof.
  intros Hdev Hres Hat. apply wps_handle. pose proof Hat as ((Hex & Hst) & Hne & (pre & Hs & Hpre) & Hb).
  destruct st as [|dev1| |dev1|r [|q out]|r [|q out]|]; try done.
  - destruct Hst as (Hst & Hready). simpl in Hs, Hb. apply wps_pre_event; try done; rewrite Hs, length_app in *; simpl in *; lia.
  - eapply wps_object_event; done.
  - eapply wps_mono; [eapply wps_copyup_in_write; [done..|apply Hst|eapply wps_copyup_parent_event; done]|].
    intros o s' Ho. eapply advanced_le; [exact Ho|cbn; unfold copied_done, ends; lia|done].
  - eapply wps_mono; [eapply wps_copyup_in_write; [done..|apply Hst|eapply wps_copyup_mods_event; done]|].
    intros o s' Ho. eapply advanced_le; [exact Ho|cbn; unfold copied_done, ends; lia|done].
  - eapply wps_mono; [eapply wps_copyup_in_write; [done..|apply Hst|eapply wps_copyup_maps_event; done]|].
    intros o s' Ho. eapply advanced_le; [exact Ho|cbn; unfold copied_done, ends; lia|done].
  - eapply wps_mono; [eapply wps_copyup_in_write; [done..|apply Hst|eapply wps_copyup_write_event; done]|].
    intros o s' Ho. eapply advanced_le; [exact Ho|unfold copied_done; cbn; intros x Hx [H1 H2]; split; [intros H0; by destruct (H1 H0)|destruct H2 as [?|[? ?]]; auto]|done].
  - eapply wps_mono; [eapply wps_post_event; done|]. intros o s' Ho. eapply advanced_le; done.
Qed.

(** [n] completions have come. *)
Definition run_ok (n : nat) (o : progress) (s : ost) : Prop :=
  (length (o_sent s) <= 6 + length (ir_snapc img))%nat ∧
  match o with
  | Refused ret => (ret < 0 ∨ ret = 1) ∧ o_sent s = []
  | Completed result rest => result <= 0 ∧ n = (length (o_sent s) + length rest)%nat
  | Outstanding => (n < length (o_sent s))%nat
  end.

Definition event_ok (ev : completion) : Prop :=
  dev_ok dev0 img ex (cn_dev ev) ∧ cn_result ev <= 0.

Lemma at_stage_sent_le c s st :
  at_stage c s st → (c < length (o_sent s) <= 6 + length (ir_snapc img))%nat.
Proof.
  intros (_ & Hne & (pre & Hs & Hpre) & Hb). split; [|destruct st; simpl in *; lia].
  rewrite Hs, length_app. destruct (out_of _ _ _ _); [done|]. simpl. lia.
Qed.

Lemma at_stage_arrive ev c s st :
  at_stage c s st → at_stage c (Ost (arrive ev (o_req s)) (o_sent s) (o_calls s)) st.
Proof.
  intros (Hst & Hne & Hs & Hb). destruct (arrive_stage ev _ _ Hst) as [Hst' Hout].
  split; [done|]. cbn [o_req o_sent]. by rewrite Hout.
Qed.

Lemma wps_drive evs s st c :
  Forall event_ok evs → at_stage c s st → wps (drive err img evs) s (run_ok (c + length evs)).
Proof.
  intros Hevs. revert s st c. induction Hevs as [|ev evs [Hdev Hres] Hevs IH]; intros s st c Hat; cbn [drive].
  { apply wps_ret. apply at_stage_sent_le in Hat. unfold run_ok. simpl. lia. }
  apply wps_bind, wps_rmodify, wps_bind. apply (at_stage_arrive ev) in Hat.
  eapply wps_mono; [by eapply wps_event|].
  intros [[] r] s' Ho.
  - apply wps_ret. destruct Ho as (Hr & Hlen & Hle & _). unfold run_ok. simpl in *. lia.
  - destruct Ho as (st' & Hat' & _). replace (c + length (ev :: evs))%nat with (S c + length evs)%nat by (simpl; lia).
    by eapply IH.
Qed.
End proofs.

Section run.
Context (err : nat → Z) (lo : Z) (img : img_info) (dev0 : rbd_device) (ex : ceph_object_extent) (data : list Z).
Hypothesis Herr : errors lo err.

Lemma given_target ex' : given img ex data → target dev0 img ex = Some ex' → given img ex' data.
Proof.
  intros [Hw Hd] Ht. split; [done|]. intros Hop. unfold target in Ht. rewrite Hop in Ht. injection Ht as <-.
  by apply Hd.
Qed.

Lemma dev_ok_target ex' dev : dev_ok dev0 img ex dev → oe_objno ex' = oe_objno ex → dev_ok dev0 img ex' dev.
Proof. intros [? ? ?] He. split; rewrite ?He; done. Qed.

(** The first call of the handler. *)
Lemma wps_first s ex' :
  given img ex' data → room (rd_layout dev0) (oe_objno ex') → dev_ok dev0 img ex' dev0 →
  ready dev0 img ex' data (o_req s) → or_state (o_req s) = Write_state RBD_OBJ_WRITE_START → o_sent s = [] →
  wps (obj_handle err img dev0 0) s
    (advanced dev0 img ex' data 0 (λ x, (x = 0 → is_noop dev0 ex' (o_req s)) ∧ lo <= x) (start_next dev0 ex')).
Proof.
  intros Hgiven Hroom Hdev Hready Hst Hs. eapply wps_handle; [done..|]. by eapply wps_start.
Qed.

Lemma wps_run_request evs :
  given img ex data → room (rd_layout dev0) (oe_objno ex) → Forall (λ snap, snap ≠ CEPH_NOSNAP) (ir_snapc img) →
  dev_ok dev0 img ex dev0 → 0 <= rd_parent_overlap dev0 → Forall (event_ok img dev0 ex) evs →
  wps (run_request err img dev0 evs) (Ost (fresh ex data) [] 0) (run_ok img (length evs)).
Proof.
  intros Hgiven Hroom Hsnaps Hdev Hov Hevs. unfold run_request. apply wps_bind.
  eapply wps_mono; [apply (wps_init err dev0 img ex data lo Herr Hroom Hov); apply Hgiven|].
  intros ret s [Hs Hret].
  destruct (nonzero ret) eqn:E; unfold nonzero in E; bool_to_prop.
  { apply wps_ret. split; [rewrite Hs; simpl; lia|]. split; [|done]. lia. }
  destruct Hret as [?|[?|(_ & ex' & Ht & Hready & Hst)]]; [lia|lia|].
  pose proof (target_objno _ _ _ _ Ht) as Hobj. apply (given_target ex' Hgiven) in Ht. clear Hgiven.
  apply (dev_ok_target ex') in Hdev; [|done]. rewrite <- Hobj in Hroom.
  apply wps_bind. eapply wps_mono; [by apply (wps_first s ex')|].
  intros [[] r] s' Ho.
  - apply wps_ret. destruct Ho as (Hr & Hlen & Hle & _). unfold run_ok. simpl in *. lia.
  - destruct Ho as (st & Hat & _). change (length evs) with (0 + length evs)%nat.
    eapply (wps_drive err lo img dev0 ex' data Herr); [done..| |exact Hat].
    eapply Forall_impl; [exact Hevs|]. intros ev [? ?]. split; [|done]. by apply (dev_ok_target ex').
Qed.
End run.

(** C33: A write, discard or zeroout of an object, from [__rbd_img_fill_request] on, whatever calls
    fail and whatever the completions of the requests it sends report, in any order and with the
    device changing in between: it never runs into an assertion.  It is refused without having
    sent anything; or it completes once, with 0 or an error, exactly when every request it has
    sent has completed; or it waits for some that have not.  It sends at most six requests and
    one for each snapshot, so it completes after as many completions.

    What the device may not do meanwhile ([dev_ok]): change its layout, load an object map without
    room for the object, or, under a zeroout, lose part of its overlap with the parent.  In the last
    case the code does run into an assertion: Example [zeroout_flattened] of RbdRefine. *)
Theorem rbd_obj_write_completes (err : nat → Z) (img : img_info) (dev0 : rbd_device)
    (ex : ceph_object_extent) (data : list Z) (evs : list completion)
    (Herr : ∀ n, - MAX_ERRNO <= err n <= 0)
    (Hsnaps : Forall (λ snap, snap ≠ CEPH_NOSNAP) (ir_snapc img))
    (Hroom : room (rd_layout dev0) (oe_objno ex)) (Hdev : dev_ok dev0 img ex dev0)
    (Hoverlap : 0 <= rd_parent_overlap dev0) (Hgiven : given img ex data)
    (Hevs : Forall (event_ok img dev0 ex) evs) :
  ∃ o s, run_request err img dev0 evs (Ost (fresh ex data) [] 0) = Ret (o, s) ∧
    (length (o_sent s) <= 6 + length (ir_snapc img))%nat ∧
    match o with
    | Refused ret => (ret < 0 ∨ ret = 1) ∧ o_sent s = []
    | Completed result rest => result <= 0 ∧ length evs = (length (o_sent s) + length rest)%nat
    | Outstanding => (length evs < length (o_sent s))%nat
    end.
Proof.
  pose proof (wps_run_request err (- MAX_ERRNO) img dev0 ex data (any_error err Herr) evs Hgiven Hroom Hsnaps Hdev Hoverlap Hevs) as H.
  apply wp_exists in H as ([o s] & -> & Hok). by exists o, s.
Qed.

(** ** A write to a clone that has no such object yet *)

Definition ex_image : img_info := ImgInfo OBJ_OP_WRITE OBJ_REQUEST_BVECS CEPH_NOSNAP [5].
Definition ex_extent : ceph_object_extent := {| oe_objno := 0; oe_off := 4; oe_len := 3 |}.
Definition ex_completion (result : Z) : completion :=
  Completion ex_device result (λ n, Z.of_nat n + 1).
(** The object map, the write, the read of the parent, the snapshot's object map, two writes. *)
Definition ex_completions : list completion :=
  ex_completion <$> [0; - ENOENT; 0; 0; 0; 0].

Lemma ex_room : room (rd_layout ex_device) 0.
Proof. by split. Qed.
Lemma ex_dev_ok : dev_ok ex_device ex_image ex_extent ex_device.
Proof. split; [done| |done]. intros _. by apply ex_map_ok. Qed.
Lemma ex_events_ok : Forall (event_ok ex_image ex_device ex_extent) ex_completions.
Proof. repeat (apply Forall_cons; split; [split; [exact ex_dev_ok|done]|]). by apply Forall_nil_2. Qed.

Lemma rbd_obj_write_completes_witness :
  ∃ o s, run_request (λ _, 0) ex_image ex_device ex_completions (Ost (fresh ex_extent [7; 8; 9]) [] 0) = Ret (o, s)
    ∧ o = Completed 0 [] ∧ (length (o_sent s) = 6)%nat.
Proof.
  destruct (rbd_obj_write_completes (λ _, 0) ex_image ex_device ex_extent [7; 8; 9] ex_completions)
    as (o & s & Hrun & _ & Ho).
  { unfold MAX_ERRNO. lia. } { by repeat constructor. } { exact ex_room. } { exact ex_dev_ok. }
  { done. } { by split. } { exact ex_events_ok. }
  exists o, s. split; [exact Hrun|]. vm_compute in Hrun. injection Hrun as <- <-. done.
Defined.
