(* ===== verification/RbdWorld.v ===== *)
(** * What RBD requests see and do (rbd/rbd.c)

    The object as the OSD has it, the parent image, and what the image consists of: the bytes of
    the object or, while it does not exist, those of the parent.  The OSD and the parent are
    parameters. *)
From S2P Require Import Prelude Striper Hash Crush Mapper Choose DoRule Workspace OsdMap Decode.
From S2P Require Import Rbd RbdObject RbdMachine RbdObjectMap RbdParent RbdSends RbdStages.

(** Bytes behind the end are zero. *)
Definition byte_of (b : list Z) (i : Z) : Z := nth (Z.to_nat i) b 0.
Definition content (o : option (list Z)) : list Z := default [] o.
(** Off to off + len. *)
Definition in_range (ex : ceph_object_extent) (i : Z) : bool :=
  (oe_off ex <=? i) && (i <? oe_off ex + oe_len ex).

(** What the OSD does with the operations of a write request, all of them or none: the result and
    the object afterwards.  As documented for the operations of the OSD and the methods of the
    class [rbd]. *)
Class Osd (exec : list osd_op → option (list Z) → Z * option (list Z)) : Prop := {
  osd_nothing o : exec [] o = (0, o);
  osd_stat ops o : exec (CEPH_OSD_OP_STAT :: ops) o
    = match o with None => (- ENOENT, None) | Some _ => exec ops o end;
  osd_hint size wsize flags op o : exec [CEPH_OSD_OP_SETALLOCHINT size wsize flags; op] o = exec [op] o;
  osd_write off len data o : 0 <= off → Z.of_nat (length data) = len →
    ∃ b, exec [CEPH_OSD_OP_WRITE off len data] o = (0, Some b) ∧ ∀ i, 0 <= i →
      byte_of b i = if (off <=? i) && (i <? off + len) then byte_of data (i - off) else byte_of (content o) i;
  osd_writefull len data o : Z.of_nat (length data) = len →
    exec [CEPH_OSD_OP_WRITEFULL 0 len data] o = (0, Some data);
  osd_delete o : exec [CEPH_OSD_OP_DELETE] o = (match o with Some _ => 0 | None => - ENOENT end, None);
  osd_create ops o o' : exec ops (Some (content o)) = (0, o') → exec (CEPH_OSD_OP_CREATE :: ops) o = (0, o');
  osd_truncate_none off len : exec [CEPH_OSD_OP_TRUNCATE off len] None = (0, None);
  osd_truncate off len b : 0 <= off →
    ∃ b', exec [CEPH_OSD_OP_TRUNCATE off len] (Some b) = (0, Some b') ∧ ∀ i, 0 <= i →
      byte_of b' i = if off <=? i then 0 else byte_of b i;
  osd_zero_none off len : exec [CEPH_OSD_OP_ZERO off len] None = (0, None);
  osd_zero off len b : 0 <= off → 0 <= len →
    ∃ b', exec [CEPH_OSD_OP_ZERO off len] (Some b) = (0, Some b') ∧ ∀ i, 0 <= i →
      byte_of b' i = if (off <=? i) && (i <? off + len) then 0 else byte_of b i;
  osd_copyup data ops o o' : exec ops (match o with None => Some data | Some _ => o end) = (0, o') →
    exec (CEPH_OSD_OP_CALL_COPYUP data :: ops) o = (0, o') }.

Section view.
Context (dev0 : rbd_device) (objno : Z) (parent : Z → Z).
Local Abbreviation l := (rd_layout dev0).

(** Byte [i] of the object as the image has it. *)
Definition view (o : option (list Z)) (i : Z) : Z :=
  match o with
  | Some b => byte_of b i
  | None => if unlocate l objno i <? rd_parent_overlap dev0 then parent (unlocate l objno i) else 0
  end.

(** What it is to be. *)
Definition written (img : img_info) (ex : ceph_object_extent) (data : list Z) (o : option (list Z)) (i : Z) : Z :=
  if in_range ex i then
    match ir_op_type img with
    | OBJ_OP_READ => view o i
    | OBJ_OP_WRITE => byte_of data (i - oe_off ex)
    | OBJ_OP_DISCARD => match o with Some _ => 0 | None => view o i end
    | OBJ_OP_ZEROOUT => 0
    end
  else view o i.

(** The same bytes, of the object. *)
Definition same_view (f g : Z → Z) : Prop := ∀ i, 0 <= i < object_size l → f i = g i.

Definition parent_bytes (exts : list ceph_file_extent) : list Z := parent <$> addresses exts.

Lemma byte_of_parent a b overlap exts i :
  valid_layout l → 0 <= a <= b → parent_extents l objno a b overlap exts → 0 <= i →
  byte_of (parent_bytes exts) i = if i <? bytes_of exts then parent (unlocate l objno (a + i)) else 0.
Proof.
  intros Hl Hab Hpe Hi. destruct (parent_addresses l Hl objno a b overlap exts Hab Hpe) as (Heq & Hb & _).
  unfold byte_of, parent_bytes. rewrite nth_lookup, Heq, !list_lookup_fmap.
  destruct (Z.ltb_spec i (bytes_of exts)) as [Hlt|Hge].
  - rewrite lookup_seqZ_lt by lia. simpl. by rewrite Z2Nat.id by lia.
  - by rewrite lookup_seqZ_ge by lia.
Qed.

(** The data of the parent stands for the object that does not exist. *)
Lemma view_parent exts :
  valid_layout l → parent_extents l objno 0 (object_size l) (rd_parent_overlap dev0) exts →
  same_view (view (Some (parent_bytes exts))) (view None).
Proof.
  intros Hl Hpe i Hi. cbn [view]. pose proof (proj1 Hl).
  destruct (parent_addresses l Hl objno 0 (object_size l) _ exts ltac:(lia) Hpe) as (_ & _ & Hiff).
  rewrite (byte_of_parent 0 (object_size l) _ exts i Hl ltac:(lia) Hpe) by lia. rewrite Z.add_0_l.
  specialize (Hiff i ltac:(lia)). rewrite Z.add_0_l in Hiff.
  destruct (Z.ltb_spec i (bytes_of exts)); destruct (Z.ltb_spec (unlocate l objno i) (rd_parent_overlap dev0)); done || lia.
Qed.

Lemma view_no_parent :
  valid_layout l → parent_extents l objno 0 (object_size l) (rd_parent_overlap dev0) [] →
  same_view (view None) (λ _, 0).
Proof.
  intros Hl Hpe i Hi. rewrite <- (view_parent [] Hl Hpe i Hi). cbn [view].
  change (parent_bytes []) with ([] : list Z). unfold byte_of. by destruct (Z.to_nat i).
Qed.
End view.

(** ** The modification *)

Section modify.
Context `{Hosd : Osd exec} (dev0 dev : rbd_device) (img : img_info) (ex : ceph_object_extent) (data : list Z).
Context (parent : Z → Z).
Hypothesis Hgiven : given img ex data.
Hypothesis Hdev : dev_ok dev0 img ex dev.
Hypothesis Hroom : room (rd_layout dev0) (oe_objno ex).
Hypothesis Hoff : 0 <= oe_off ex.
Hypothesis Hlen : 0 < oe_len ex.
Hypothesis Hend : oe_off ex + oe_len ex <= object_size (rd_layout dev0).
Implicit Types (req : rbd_obj_request).

Local Abbreviation view := (view dev0 (oe_objno ex) parent).
Local Abbreviation written := (written dev0 (oe_objno ex) parent img ex data).
Local Abbreviation same_view := (same_view dev0).

Lemma is_tail_eq req : or_ex req = ex →
  rbd_obj_is_tail dev req = (oe_off ex + oe_len ex =? object_size (rd_layout dev0)).
Proof.
  intros He. unfold rbd_obj_is_tail. rewrite He, (dk_layout _ _ _ _ Hdev). pose proof (rm_size _ _ Hroom).
  by rewrite u64_small by lia.
Qed.
Lemma is_entire_eq req : or_ex req = ex →
  rbd_obj_is_entire dev req = (oe_off ex =? 0) && (oe_len ex =? object_size (rd_layout dev0)).
Proof. intros He. unfold rbd_obj_is_entire. by rewrite He, (dk_layout _ _ _ _ Hdev). Qed.

(** Cut off or overwritten with zeroes. *)
Lemma exec_zero req b : or_ex req = ex →
  ∃ b', exec [truncate_or_zero dev req] (Some b) = (0, Some b') ∧ ∀ i, 0 <= i < object_size (rd_layout dev0) →
    byte_of b' i = if in_range ex i then 0 else byte_of b i.
Proof.
  intros He. unfold truncate_or_zero, in_range. rewrite He, is_tail_eq by done.
  destruct (Z.eqb_spec (oe_off ex + oe_len ex) (object_size (rd_layout dev0))) as [Ht|_].
  - destruct (osd_truncate (oe_off ex) (oe_len ex) b Hoff) as (b' & -> & Hb). exists b'. split; [done|].
    intros i Hi. rewrite Hb by lia. rewrite Ht, (proj2 (Z.ltb_lt i _)), andb_true_r by lia. done.
  - destruct (osd_zero (oe_off ex) (oe_len ex) b Hoff ltac:(lia)) as (b' & -> & Hb). exists b'. split; [done|].
    intros i Hi. by rewrite Hb by lia.
Qed.
Lemma exec_zero_none req : or_ex req = ex → exec [truncate_or_zero dev req] None = (0, None).
Proof.
  intros He. unfold truncate_or_zero. destruct (rbd_obj_is_tail dev req); [apply osd_truncate_none|apply osd_zero_none].
Qed.

Lemma exec_write req o : or_ex req = ex → or_data req = data → ir_op_type img = OBJ_OP_WRITE →
  ∃ b', exec (modification dev img req) o = (0, Some b') ∧ ∀ i, 0 <= i < object_size (rd_layout dev0) →
    byte_of b' i = if in_range ex i then byte_of data (i - oe_off ex) else byte_of (content o) i.
Proof.
  intros He Hd Hop. unfold modification. rewrite Hop, He, Hd, (is_entire_eq req He). destruct Hgiven as [_ Hg].
  destruct (Hg Hop) as [_ Hl].
  set (op := if _ && _ then CEPH_OSD_OP_WRITEFULL _ _ _ else _).
  assert (exec ((if negb (use_object_map dev) || negb (flag req RBD_OBJ_FLAG_MAY_EXIST)
     then [CEPH_OSD_OP_SETALLOCHINT (object_size (rd_layout dev)) (object_size (rd_layout dev)) (rd_alloc_hint_flags dev)]
     else []) ++ [op]) o = exec [op] o) as -> by (destruct (_ || _); [apply osd_hint|done]).
  subst op. unfold in_range. destruct (Z.eqb_spec (oe_off ex) 0) as [H0|]; cbn [andb].
  - destruct (Z.eqb_spec (oe_len ex) (object_size (rd_layout dev0))) as [Hs|].
    + rewrite H0. rewrite osd_writefull by done. exists data. split; [done|]. intros i Hi.
      rewrite (proj2 (Z.leb_le _ _)), (proj2 (Z.ltb_lt _ _)), Z.sub_0_r by lia. done.
    + destruct (osd_write (oe_off ex) (oe_len ex) data o Hoff Hl) as (b' & -> & Hb). exists b'.
      split; [done|]. intros i Hi. by rewrite Hb by lia.
  - destruct (osd_write (oe_off ex) (oe_len ex) data o Hoff Hl) as (b' & -> & Hb). exists b'.
    split; [done|]. intros i Hi. by rewrite Hb by lia.
Qed.

Lemma all_in_range : oe_off ex = 0 → oe_len ex = object_size (rd_layout dev0) →
  ∀ i, 0 <= i < object_size (rd_layout dev0) → in_range ex i = true.
Proof. intros H0 Hl i Hi. unfold in_range. rewrite (proj2 (Z.leb_le _ _)), (proj2 (Z.ltb_lt _ _)) by lia. done. Qed.

(** On an object that is there, unless it is deleted. *)
Lemma exec_some req b :
  or_ex req = ex → or_data req = data →
  removes (ir_op_type img) && rbd_obj_is_entire dev0 req && bool_decide (or_img_extents req = []) = false →
  ∃ b', exec (modification dev img req) (Some b) = (0, Some b') ∧ same_view (view (Some b')) (written (Some b)).
Proof.
  intros He Hd Hdel. destruct Hgiven as [Hw _]. unfold rbd_img_is_write in Hw.
  destruct (exec_zero req b He) as (z & Hz & Hzb).
  assert (Hzero : same_view (view (Some z)) (λ i, if in_range ex i then 0 else view (Some b) i)) by exact Hzb.
  rewrite <- (is_entire_dev dev0 img ex dev) in Hdel by done.
  destruct (ir_op_type img) eqn:Hop; [done|..]; cbn [removes andb] in Hdel.
  - destruct (exec_write req (Some b) He Hd Hop) as (b' & -> & Hb). exists b'. split; [done|].
    intros i Hi. unfold RbdWorld.written. rewrite Hop. by apply Hb.
  - unfold modification, RbdWorld.written. rewrite Hop, Hdel. exists z. split; [done|]. exact Hzero.
  - unfold modification, RbdWorld.written. rewrite Hop. destruct (rbd_obj_is_entire dev req) eqn:Hent; [|by exists z].
    rewrite andb_true_l in Hdel. rewrite Hdel. rewrite is_entire_eq in Hent by done. apply andb_prop in Hent as [H0%Z.eqb_eq Hl%Z.eqb_eq].
    assert (∃ b', exec ((if flag req RBD_OBJ_FLAG_COPYUP_ENABLED then [] else [CEPH_OSD_OP_CREATE])
       ++ [CEPH_OSD_OP_TRUNCATE (oe_off (or_ex req)) (oe_len (or_ex req))]) (Some b) = (0, Some b')
       ∧ ∀ i, 0 <= i → byte_of b' i = if oe_off ex <=? i then 0 else byte_of b i) as (b' & -> & Hb).
    { rewrite He. destruct (osd_truncate (oe_off ex) (oe_len ex) b Hoff) as (b' & Hb' & Hb). exists b'.
      split; [|done]. destruct (flag req _); [done|]. cbn [app]. by apply osd_create. }
    exists b'. split; [done|]. intros i Hi. rewrite (all_in_range H0 Hl i Hi). cbn [RbdWorld.view].
    rewrite Hb by lia. by rewrite (proj2 (Z.leb_le _ _)) by lia.
Qed.

(** What a write depends on; a discard may be seen through. *)
Lemma written_same o o' : ir_op_type img ≠ OBJ_OP_DISCARD → same_view (view o) (view o') → same_view (written o) (written o').
Proof.
  intros Hop Hv i Hi. unfold RbdWorld.written. destruct (in_range ex i); [|by apply Hv].
  destruct (ir_op_type img); [by apply Hv|done|done|done].
Qed.

(** What is known of the parent. *)
Lemma ready_no_parent req :
  ready dev0 img ex data req → or_img_extents req = [] → same_view (view None) (λ _, 0).
Proof.
  intros Hr Hx. apply view_no_parent; [apply Hroom|]. rewrite <- Hx. apply Hr.
Qed.

(** Where nothing of the parent is in the way, the object need not be there. *)
Lemma exec_unguarded req o :
  ready dev0 img ex data req → flag req RBD_OBJ_FLAG_COPYUP_ENABLED = false →
  flag req RBD_OBJ_FLAG_DELETION = false →
  ∃ o', exec (modification dev img req) o = (0, o') ∧ same_view (view o') (written o).
Proof.
  intros Hr Hg Hdel. pose proof (rr_ex _ _ _ _ _ Hr) as He. pose proof (rr_data _ _ _ _ _ Hr) as Hd.
  rewrite (rr_deletion _ _ _ _ _ Hr) in Hdel.
  destruct o as [b|]. { destruct (exec_some req b He Hd Hdel) as (b' & ? & ?). by exists (Some b'). }
  pose proof Hg as Hg'. rewrite (rr_guard _ _ _ _ _ Hr) in Hg'. destruct Hgiven as [Hw _]. unfold rbd_img_is_write in Hw.
  rewrite <- (is_entire_dev dev0 img ex dev) in Hdel by done. unfold rbd_obj_copyup_enabled in Hg'.
  rewrite <- (is_entire_dev dev0 img ex dev) in Hg' by done.
  assert (Hx : ir_op_type img ≠ OBJ_OP_DISCARD → or_img_extents req = [] ∨ rbd_obj_is_entire dev req = true).
  { intros Hop. destruct (or_img_extents req); [by left|right]. destruct (ir_op_type img); [done| |done|];
      apply negb_false_iff, andb_prop in Hg' as [? _]; done. }
  destruct (ir_op_type img) eqn:Hop; [done|..]; cbn [removes andb] in Hdel.
  - destruct (exec_write req None He Hd Hop) as (b' & Hex & Hb). exists (Some b'). split; [done|]. intros i Hi.
    unfold RbdWorld.written. rewrite Hop. change (view (Some b') i) with (byte_of b' i). rewrite (Hb i Hi).
    destruct (Hx ltac:(done)) as [Hnil|Hent].
    + destruct (in_range ex i); [done|]. rewrite (ready_no_parent req Hr Hnil i Hi). unfold byte_of, content.
      cbn [default]. by destruct (Z.to_nat i).
    + rewrite is_entire_eq in Hent by done. apply andb_prop in Hent as [H0%Z.eqb_eq Hl%Z.eqb_eq]. by rewrite all_in_range.
  - unfold modification, RbdWorld.written. rewrite Hop, Hdel. exists None. split; [by apply exec_zero_none|].
    intros i Hi. by destruct (in_range ex i).
  - unfold modification, RbdWorld.written. rewrite Hop, Hg. cbn [app]. destruct (rbd_obj_is_entire dev req) eqn:Hent.
    + rewrite andb_true_l in Hdel. rewrite Hdel, He.
      destruct (osd_truncate (oe_off ex) (oe_len ex) [] Hoff) as (b' & Hb' & Hb). exists (Some b').
      split; [by apply osd_create|]. rewrite is_entire_eq in Hent by done. apply andb_prop in Hent as [H0%Z.eqb_eq Hl%Z.eqb_eq]. intros i Hi.
      rewrite all_in_range by done. cbn [RbdWorld.view]. rewrite Hb by lia. by rewrite (proj2 (Z.leb_le _ _)) by lia.
    + exists None. split; [by apply exec_zero_none|]. destruct (Hx ltac:(done)) as [Hnil|]; [|done].
      intros i Hi. rewrite (ready_no_parent req Hr Hnil i Hi). by destruct (in_range ex i).
Qed.

(** The object is deleted: there is nothing of the parent below it. *)
Lemma exec_delete req o :
  ready dev0 img ex data req → flag req RBD_OBJ_FLAG_DELETION = true →
  exec (modification dev img req) o = (match o with Some _ => 0 | None => - ENOENT end, None)
  ∧ same_view (view None) (written o).
Proof.
  intros Hr Hdel. pose proof (rr_ex _ _ _ _ _ Hr) as He. rewrite (rr_deletion _ _ _ _ _ Hr) in Hdel.
  apply andb_prop in Hdel as [Hdel Hnil]. apply andb_prop in Hdel as [Hrm Hent].
  rewrite <- (is_entire_dev dev0 img ex dev) in Hent by done. apply bool_decide_eq_true in Hnil as Hnil'.
  assert (modification dev img req = [CEPH_OSD_OP_DELETE]) as ->.
  { unfold modification. rewrite Hent, Hnil. by destruct (ir_op_type img). }
  split; [apply osd_delete|]. rewrite is_entire_eq in Hent by done. apply andb_prop in Hent as [H0%Z.eqb_eq Hl%Z.eqb_eq].
  intros i Hi. unfold RbdWorld.written. rewrite all_in_range by done. rewrite (ready_no_parent req Hr Hnil' i Hi).
  destruct (ir_op_type img); [done|done| |done]. destruct o; [done|]. by rewrite (ready_no_parent req Hr Hnil' i Hi).
Qed.
End modify.

(** ** An OSD *)

(** The bytes [b] with [data] at [off]. *)
Definition put (off : nat) (data b : list Z) : list Z :=
  take off (b ++ replicate off 0) ++ data ++ drop (off + length data) b.

Fixpoint ex_run (ops : list osd_op) (o : option (list Z)) : Z * option (list Z) :=
  match ops with
  | [] => (0, o)
  | op :: ops =>
      match op, o with
      | CEPH_OSD_OP_STAT, None | CEPH_OSD_OP_DELETE, None | CEPH_OSD_OP_READ _ _, None => (- ENOENT, o)
      | CEPH_OSD_OP_STAT, Some _ | CEPH_OSD_OP_READ _ _, Some _ => ex_run ops o
      | CEPH_OSD_OP_SETALLOCHINT _ _ _, _ => ex_run ops o
      | CEPH_OSD_OP_WRITE off _ data, _ => ex_run ops (Some (put (Z.to_nat off) data (content o)))
      | CEPH_OSD_OP_WRITEFULL _ _ data, _ => ex_run ops (Some data)
      | CEPH_OSD_OP_DELETE, Some _ => ex_run ops None
      | CEPH_OSD_OP_CREATE, _ => ex_run ops (Some (content o))
      | CEPH_OSD_OP_TRUNCATE off _, _ => ex_run ops (take (Z.to_nat off) <$> o)
      | CEPH_OSD_OP_ZERO off len, _ => ex_run ops (put (Z.to_nat off) (replicate (Z.to_nat len) 0) <$> o)
      | CEPH_OSD_OP_CALL_COPYUP data, None => ex_run ops (Some data)
      | CEPH_OSD_OP_CALL_COPYUP _, Some _ => ex_run ops o
      end
  end.
(** All of them or none. *)
Definition ex_exec (ops : list osd_op) (o : option (list Z)) : Z * option (list Z) :=
  let '(res, o') := ex_run ops o in if res =? 0 then (0, o') else (res, o).

Lemma byte_of_put off data b i :
  0 <= off → 0 <= i →
  byte_of (put (Z.to_nat off) data b) i
    = if (off <=? i) && (i <? off + Z.of_nat (length data)) then byte_of data (i - off) else byte_of b i.
Proof.
  intros Hoff Hi. unfold put, byte_of. rewrite !nth_lookup.
  set (p := take _ _). assert (Hp : length p = Z.to_nat off).
  { subst p. rewrite length_take, length_app, length_replicate. lia. }
  destruct (Z.leb_spec off i) as [Hle|Hlt]; cbn [andb].
  - rewrite lookup_app_r, Hp by lia. destruct (Z.ltb_spec i (off + Z.of_nat (length data))) as [Hin|Hout].
    + rewrite lookup_app_l by lia. do 2 f_equal. lia.
    + rewrite lookup_app_r by lia. rewrite lookup_drop. do 2 f_equal. lia.
  - rewrite lookup_app_l by lia. subst p. rewrite lookup_take_lt by lia.
    destruct (decide (Z.to_nat i < length b)%nat) as [Hb|Hb].
    + by rewrite lookup_app_l.
    + rewrite lookup_app_r, lookup_replicate_2 by lia. rewrite (lookup_ge_None_2 b) by lia. done.
Qed.

Lemma byte_of_take off b i :
  0 <= off → 0 <= i → byte_of (take (Z.to_nat off) b) i = if off <=? i then 0 else byte_of b i.
Proof.
  intros Hoff Hi. unfold byte_of. rewrite !nth_lookup. destruct (Z.leb_spec off i).
  - by rewrite lookup_take_ge by lia.
  - by rewrite lookup_take_lt by lia.
Qed.

Lemma ex_exec_0 ops o o' : ex_exec ops o = (0, o') → ex_run ops o = (0, o').
Proof.
  unfold ex_exec. destruct (ex_run ops o) as [r o2]. destruct (Z.eqb_spec r 0) as [->|]; [done|]. by intros [= -> _].
Qed.

#[export] Instance ex_osd : Osd ex_exec.
Proof.
  split.
  - done.
  - intros ops [b|]; done.
  - done.
  - intros off len data o Hoff <-. eexists. split; [done|]. intros i Hi. by apply byte_of_put.
  - done.
  - by intros [b|].
  - intros ops o o' H%ex_exec_0. unfold ex_exec. cbn. by rewrite H.
  - done.
  - intros off len b Hoff. eexists. split; [done|]. intros i Hi. by apply byte_of_take.
  - done.
  - intros off len b Hoff Hlen. eexists. split; [done|]. intros i Hi. rewrite byte_of_put by done.
    rewrite length_replicate, Z2Nat.id by done. destruct (_ && _) eqn:E; [|done].
    unfold byte_of. rewrite nth_lookup. destruct (replicate _ _ !! _) eqn:E2; [|done]. by apply lookup_replicate in E2 as [-> _].
  - intros data ops o o' H%ex_exec_0. unfold ex_exec. cbn. destruct o; by rewrite H.
Qed.
