(* ===== verification/RbdRefine.v ===== *)
(** * RBD writes do what they say (rbd/rbd.c)

    A write request against an OSD: what it sends is carried out in order, and the completions
    are handled.  Seen through the image, the bytes change as they are to, or not at all. *)
From S2P Require Import Prelude Striper Hash Crush Mapper Choose DoRule Workspace OsdMap Decode.
From S2P Require Import Rbd RbdObject RbdMachine RbdObjectMap RbdParent RbdSends RbdStages.
From S2P Require Import RbdSteps RbdInit RbdComplete RbdWorld.

(** The object on the OSD, and the device with its object map. *)
Record world := World { w_obj : option (list Z); w_dev : rbd_device }.

Definition sget : St ost := λ s, Ret (s, s).

Section world.
Context (exec : list osd_op → option (list Z) → Z * option (list Z)) (parent : Z → Z).
Context (err : nat → Z) (img : img_info) (objno : Z).

(** The result the callback hands to the handler, the data of the parent, and the world then. *)
Definition respond (r : request) (w : world) : outcome (completion * world) :=
  match r with
  | Osd_request req =>
      let '(res, o) := exec (omap id (r_ops req)) (w_obj w) in
      Ret (Completion (w_dev w) (osd_result img res) (λ _, 0), World o (w_dev w))
  | Map_update _ num_ops data =>
      '(res, dev) ← rbd_object_map_update_finish (w_dev w) objno 0 num_ops data;
      Ret (Completion dev res (λ _, 0), World (w_obj w) dev)
  | Parent_read exts =>
      Ret (Completion (w_dev w) 0 (λ n, byte_of (parent_bytes parent exts) (Z.of_nat n)), w)
  end.

(** The requests from the [n]-th on. *)
Fixpoint serve (fuel n : nat) (w : world) : St (Z * world) :=
  match fuel with
  | O => slift NoFuel
  | S fuel =>
      s ← sget;
      r ← slift (deref (o_sent s !! n));
      '(ev, w) ← slift (respond r w);
      _ ← rmodify (arrive ev);
      '(done, result) ← obj_handle err img (cn_dev ev) (cn_result ev);
      if done : bool then mret (result, w) else serve fuel (S n) w
  end.

(** A request: refused, with what [rbd_obj_init] says, or completed. *)
Definition run_world (w : world) : St ((Z + Z) * world) :=
  ret ← rbd_obj_init err (w_dev w) img;
  if nonzero ret then mret (inl ret, w)
  else
    '(done, result) ← obj_handle err img (w_dev w) 0;
    if done : bool then mret (inr result, w)
    else '(result, w) ← serve (6 + length (ir_snapc img)) 0 w; mret (inr result, w).
End world.

(** The object map does not deny an object that is there. *)
Definition map_sound (objno : Z) (w : world) : Prop :=
  has (rd_features (w_dev w)) RBD_FEATURE_OBJECT_MAP = true →
  map_ok (w_dev w) objno ∧ (state_at (w_dev w) objno = OBJECT_NONEXISTENT → w_obj w = None).

Lemma omap_id_some {A} (l : list A) : omap id (map Some l) = l.
Proof. induction l as [|x l IH]; [done|]. cbn. by rewrite IH. Qed.

Section refine.
Context `{Hosd : Osd exec} (parent : Z → Z) (err : nat → Z) (lo : Z) (img : img_info).
Context (w0 : world) (ex : ceph_object_extent) (data : list Z).
Local Abbreviation dev0 := (w_dev w0).
Hypothesis Herr : errors lo err.
Hypothesis Hgiven : given img ex data.
Hypothesis Hroom : room (rd_layout dev0) (oe_objno ex).
Hypothesis Hsnaps : Forall (λ snap, snap ≠ CEPH_NOSNAP) (ir_snapc img).
Hypothesis Hoff : 0 <= oe_off ex.
Hypothesis Hlen : 0 < oe_len ex.
Hypothesis Hend : oe_off ex + oe_len ex <= object_size (rd_layout dev0).
Implicit Types (req : rbd_obj_request) (s : ost) (w : world).

Local Abbreviation view := (view dev0 (oe_objno ex) parent).
Local Abbreviation written := (written dev0 (oe_objno ex) parent img ex data).
Local Abbreviation same_view := (same_view dev0).
Local Abbreviation has_map := (has (rd_features dev0) RBD_FEATURE_OBJECT_MAP = true).
Local Abbreviation state w := (state_at (w_dev w) (oe_objno ex)).

Definition is_old (o : option (list Z)) : Prop := same_view (view o) (view (w_obj w0)).
Definition is_new (o : option (list Z)) : Prop := same_view (view o) (written (w_obj w0)).
Definition is_old_or_new (o : option (list Z)) : Prop := is_old o ∨ is_new o.

(** Always. *)
Record world_ok (w : world) : Prop := {
  wo_dev : same_but_map dev0 (w_dev w);
  wo_map : map_sound (oe_objno ex) w;
  wo_view : is_old_or_new (w_obj w) }.

(** Writes still to be carried out: what they lead to if [r] says that they are all. *)
Fixpoint leads (r : Z) (o : option (list Z)) (out : list request) : Prop :=
  match out with
  | [] => r = 0 → is_new o
  | q :: out => ∃ ops o', q = Osd_request ops ∧ exec (omap id (r_ops ops)) o = (0, o')
                          ∧ is_old_or_new o' ∧ leads r o' out
  end.

(** The object map when the object is written. *)
Definition map_ready (req : rbd_obj_request) (w : world) : Prop :=
  has_map → if flag req RBD_OBJ_FLAG_DELETION
            then state w = OBJECT_PENDING ∨ state w = OBJECT_NONEXISTENT
            else state w = OBJECT_EXISTS.

(** The parent's data for the whole object. *)
Definition has_parent (req : rbd_obj_request) : Prop :=
  ir_op_type img ≠ OBJ_OP_DISCARD ∧
  parent_extents (rd_layout dev0) (oe_objno ex) 0 (object_size (rd_layout dev0)) (rd_parent_overlap dev0)
    (or_img_extents req).
Definition has_parent_data (req : rbd_obj_request) : Prop :=
  has_parent req ∧ ∃ bvecs, or_copyup_bvecs req = Some bvecs
                            ∧ concat bvecs = parent_bytes parent (or_img_extents req).

Definition at_world (req : rbd_obj_request) (st : stage) (w : world) : Prop :=
  match st with
  | Pre => w_obj w = w_obj w0 ∧ has_map
  | Object _ => w_obj w = w_obj w0 ∧ map_ready req w
  | Parent => w_obj w = None ∧ w_obj w0 = None ∧ (has_map → state w = OBJECT_EXISTS) ∧ has_parent req
  | Maps r _ => lo <= r ∧ w_obj w = None ∧ w_obj w0 = None ∧ (has_map → state w = OBJECT_EXISTS) ∧ has_parent_data req
  | Copyup r out => lo <= r ∧ leads r (w_obj w) out ∧ (has_map → state w = OBJECT_EXISTS)
  | Post => w_obj w = None ∧ is_new None ∧ has_map
  | Mods _ => False
  end.

Definition fin (x : Z) (w : world) : Prop := world_ok w ∧ (x = 0 → is_new (w_obj w)) ∧ lo <= x.

Lemma old_is_old : is_old (w_obj w0).
Proof. by intros i Hi. Qed.

(** The device is still what it was but for the map. *)
Lemma same_dev w : world_ok w → rd_layout (w_dev w) = rd_layout dev0 ∧ rd_features (w_dev w) = rd_features dev0
  ∧ rd_parent_overlap (w_dev w) = rd_parent_overlap dev0.
Proof. intros [[m ->] _ _]. done. Qed.
Lemma world_dev_ok w : world_ok w → dev_ok dev0 img ex (w_dev w).
Proof.
  intros Hw. destruct (same_dev w Hw) as (Hl & Hf & Ho). split; [done| |by rewrite Ho].
  intros H. by apply (wo_map _ Hw).
Qed.

(** ** What is carried out *)

Lemma arrive_same ev req :
  or_copyup_bvecs req = None ∨ or_copyup_state req ≠ Some RBD_OBJ_COPYUP_READ_PARENT → arrive ev req = req.
Proof.
  unfold arrive. intros [Hb|Hc].
  - rewrite Hb. by destruct (or_copyup_state req) as [[]|].
  - by destruct (or_copyup_state req) as [[]|].
Qed.

Lemma respond_map_update w new_state current :
  world_ok w → has_map → map_state new_state → (∀ c, current = Some c → map_state c) →
  ∃ dev' f, respond exec parent img (oe_objno ex) (map_update CEPH_NOSNAP (oe_objno ex) new_state current) w
      = Ret (Completion dev' 0 f, World (w_obj w) dev')
    ∧ same_but_map dev0 dev' ∧ map_ok dev' (oe_objno ex)
    ∧ state_at dev' (oe_objno ex) = next_state (state w) new_state current.
Proof.
  intros Hw Hf Hn Hc. destruct (same_dev w Hw) as (_ & Hf' & _).
  destruct (wo_map _ Hw) as [Hok _]; [by rewrite Hf'|].
  destruct (update_finish_wp (w_dev w) (oe_objno ex) new_state current Hok Hn Hc) as (dev' & Hfin & Hone & Hsame).
  exists dev', (λ _, 0). unfold respond, map_update. rewrite Z.eqb_refl. rewrite Hfin. split; [done|].
  destruct (Hone (oe_objno ex) Hok) as [Hok' Hst]. rewrite Z.eqb_refl in Hst. split; [|done].
  destruct (wo_dev _ Hw) as [m Hm]. destruct Hsame as [m' ->]. exists m'. by rewrite Hm.
Qed.

Lemma world_ok_dev w dev' :
  world_ok w → same_but_map dev0 dev' → map_ok dev' (oe_objno ex) →
  state_at dev' (oe_objno ex) ≠ OBJECT_NONEXISTENT ∨ w_obj w = None → world_ok (World (w_obj w) dev').
Proof.
  intros Hw Hs Hok Hst. split; [done| |apply Hw]. intros _. split; [done|]. cbn. intros H. by destruct Hst.
Qed.

Lemma respond_osd w req ops :
  respond exec parent img (oe_objno ex) (write_request (ir_snapc img) req ops) w
    = let '(res, o) := exec ops (w_obj w) in
      Ret (Completion (w_dev w) (osd_result img res) (λ _, 0), World o (w_dev w)).
Proof. unfold respond, write_request. cbn [r_ops]. by rewrite omap_id_some. Qed.

(** ** Stage by stage *)

(** The first request that is outstanding is carried out, and what is next fits. *)
Definition step_ok (s : ost) (st : stage) (w : world) : Prop :=
  ∃ r ev w1, head (out_of img ex (o_req s) st) = Some r ∧
    respond exec parent img (oe_objno ex) r w = Ret (ev, w1) ∧
    cn_dev ev = w_dev w1 ∧ cn_result ev <= 0 ∧ world_ok w1 ∧
    let s1 := Ost (arrive ev (o_req s)) (o_sent s) (o_calls s) in
    (∀ x, x <= 0 → stage_done lo (cn_result ev) s1 st x → (x = 0 → is_new (w_obj w1)) ∧ lo <= x) ∧
    (∀ req' st', stage_ok dev0 img ex data req' st' →
       stage_next lo img dev0 ex data (w_dev w1) (cn_result ev) s1 st req' st' → at_world req' st' w1).

Local Abbreviation stage_ok := (stage_ok dev0 img ex data).

Lemma step_pre s w :
  stage_ok (o_req s) Pre → at_world (o_req s) Pre w → world_ok w → step_ok s Pre w.
Proof.
  intros (Hex & Hst & Hready) [Hobj Hf] Hw.
  assert (Hn : map_state (pre_state (o_req s)) ∧ pre_state (o_req s) ≠ OBJECT_NONEXISTENT)
    by (unfold pre_state; by destruct (flag (o_req s) _)).
  destruct Hn as [Hn Hne].
  destruct (respond_map_update w (pre_state (o_req s)) None Hw Hf Hn ltac:(done)) as (dev' & f & Hr & Hs & Hok & Hst').
  cbn [next_state] in Hst'. eexists _, _, _. split; [done|]. split; [exact Hr|]. split; [done|]. split; [done|].
  split; [apply world_ok_dev; [done..|]; left; by rewrite Hst'|].
  rewrite arrive_same by (left; apply Hready). cbn [o_req]. split; [cbn; unfold ends; pose proof (lo_le err lo Herr); lia|].
  intros req' st' Hok' (_ & Hfl & ->). split; [done|]. intros _. cbn. rewrite Hst'.
  unfold pre_state, flag. rewrite Hfl. cbn [o_req]. destruct (has (or_flags (o_req s)) RBD_OBJ_FLAG_DELETION); [by left|done].
Qed.

Lemma step_post s w :
  stage_ok (o_req s) Post → at_world (o_req s) Post w → world_ok w → step_ok s Post w.
Proof.
  intros (Hex & Hst & Hdel) (Hobj & Hnew & Hf) Hw.
  assert (Hc : ∀ c, Some OBJECT_PENDING = Some c → map_state c) by (by intros c [= <-]).
  destruct (respond_map_update w OBJECT_NONEXISTENT (Some OBJECT_PENDING) Hw Hf ltac:(done) Hc)
    as (dev' & f & Hr & Hs & Hok & Hst').
  eexists _, _, _. split; [done|]. split; [exact Hr|]. split; [done|]. split; [done|].
  split; [apply world_ok_dev; [done..|]; by right|]. split; [|done]. cbn. intros x _ ->. split; [by rewrite Hobj|exact (lo_le err lo Herr)].
Qed.

(** Copyup finds no object, and the old bytes in the parent. *)
Lemma copyup_data_old exts :
  w_obj w0 = None → parent_extents (rd_layout dev0) (oe_objno ex) 0 (object_size (rd_layout dev0)) (rd_parent_overlap dev0) exts →
  is_old (Some (parent_bytes parent exts)).
Proof. intros Hnone Hpe. unfold is_old. rewrite Hnone. by apply view_parent; [apply Hroom|]. Qed.

(** What the modification makes of bytes that are as before. *)
Lemma mods_on_old dev req b :
  dev_ok dev0 img ex dev → or_ex req = ex → or_data req = data → or_img_extents req ≠ [] →
  ir_op_type img ≠ OBJ_OP_DISCARD → is_old (Some b) →
  ∃ b', exec (modification dev img req) (Some b) = (0, Some b') ∧ is_new (Some b').
Proof.
  intros Hdev He Hd Hx Hop Hold.
  destruct (exec_some dev0 dev img ex data parent Hgiven Hdev Hroom Hoff Hlen Hend req b He Hd) as (b' & Hex & Hnew).
  { rewrite (bool_decide_false _ Hx). by rewrite andb_false_r. }
  exists b'. split; [done|]. intros i Hi. rewrite (Hnew i Hi).
  by apply (written_same dev0 img ex data parent (Some b) (w_obj w0)).
Qed.

(** The world after an OSD request. *)
Lemma world_ok_obj w o :
  world_ok w → is_old_or_new o → (o = None ∨ w_obj w = None → o = None) ∨ (has_map → state w ≠ OBJECT_NONEXISTENT) →
  world_ok (World o (w_dev w)).
Proof.
  intros Hw Hv Hm. destruct (same_dev w Hw) as (_ & Hf & _). split; [apply Hw| |done]. intros Hf'. cbn in *.
  destruct (wo_map _ Hw Hf') as [Hok Hsound]. split; [done|]. intros Hst. destruct Hm as [Hm|Hm].
  - apply Hm. right. by apply Hsound.
  - destruct Hm; [by rewrite <- Hf|done].
Qed.

Lemma step_object_result s w dev1 res o :
  stage_ok (o_req s) (Object dev1) →
  exec (guarded_ops img dev1 (o_req s)) (w_obj w) = (res, o) → res <= 0 →
  world_ok (World o (w_dev w)) →
  ((res =? - ENOENT) && flag (o_req s) RBD_OBJ_FLAG_COPYUP_ENABLED = false → write_result (o_req s) res = 0 ∧ is_new o) →
  (∀ req' st', stage_ok req' st' → object_next (w_dev w) res s req' st' → at_world req' st' (World o (w_dev w))) →
  step_ok s (Object dev1) w.
Proof.
  intros (Hex & Hst & Hready & Hdev1) Hexec Hres Hw Hnew Hnext.
  assert (Hosdres : osd_result img res = res).
  { unfold osd_result. destruct (Z.gtb_spec res 0); [lia|done]. }
  eexists _, _, _. split; [done|]. rewrite respond_osd, Hexec, Hosdres. split; [done|]. split; [done|]. split; [done|].
  split; [done|]. rewrite arrive_same by (left; apply Hready). destruct s as [req sent calls]. cbn [o_req o_sent o_calls] in *.
  split; [|exact Hnext]. intros x Hx [Hd0 Hd]. cbn in Hd0, Hd. split.
  - intros Hx0. destruct (Hd0 Hx0) as [_ Hc]. by apply Hnew.
  - destruct Hd as [?|(_ & Hne & Hc)]; [done|]. by destruct (Hnew Hc).
Qed.

Lemma step_object_guarded s w dev1 :
  stage_ok (o_req s) (Object dev1) → at_world (o_req s) (Object dev1) w → world_ok w →
  flag (o_req s) RBD_OBJ_FLAG_COPYUP_ENABLED = true → step_ok s (Object dev1) w.
Proof.
  intros Hok [Hobj Hmap] Hw Hg. pose proof Hok as (_ & _ & Hready & Hdev1).
  destruct (guard_on dev0 img ex data (o_req s) Hready Hg) as (Hop & Hx & Hdel).
  pose proof (same_dev w Hw) as (_ & Hfeat & Hov). unfold map_ready in Hmap. rewrite Hdel in Hmap.
  assert (Hguard : guarded_ops img dev1 (o_req s) = CEPH_OSD_OP_STAT :: modification dev1 img (o_req s))
    by (unfold guarded_ops; by rewrite Hg).
  destruct (w_obj w0) as [b|] eqn:Hb.
  - destruct (mods_on_old dev1 (o_req s) b Hdev1 (rr_ex _ _ _ _ _ Hready) (rr_data _ _ _ _ _ Hready) Hx Hop) as (b' & Hex & Hnew).
    { unfold is_old. rewrite Hb. by intros i Hi. }
    apply (step_object_result s w dev1 0 (Some b')); [done| |done| |done|].
    + by rewrite Hguard, Hobj, osd_stat, Hex.
    + apply world_ok_obj; [done|by right|]. right. intros Hf. by rewrite (Hmap Hf).
    + intros req' st' _ Hn. unfold object_next in Hn. cbn in Hn. destruct Hn as (_ & _ & Hn & _).
      by rewrite Hdel in Hn.
  - apply (step_object_result s w dev1 (- ENOENT) None); [done| |done| | |].
    + by rewrite Hguard, Hobj, osd_stat.
    + rewrite <- Hobj. destruct w as [o d]. exact Hw.
    + by rewrite Hg.
    + intros req' st' Hok' Hn. unfold object_next in Hn. rewrite Hg in Hn. cbn in Hn.
      destruct Hn as (req1 & Hx1 & Hn).
      assert (Hpr : pruned (w_dev w) req1 = or_img_extents (o_req s)).
      { unfold pruned. rewrite Hx1, Hov. eapply (parent_extents_below (rd_layout dev0)); [apply Hready|done]. }
      unfold enters_read in Hn. rewrite Hpr in Hn. destruct Hn as [[-> Hn]|[-> Hn]]; [|done].
      split; [done|]. split; [done|]. split; [done|]. split; [done|]. rewrite Hn. apply Hready.
Qed.

Lemma step_object_unguarded s w dev1 :
  stage_ok (o_req s) (Object dev1) → at_world (o_req s) (Object dev1) w → world_ok w →
  flag (o_req s) RBD_OBJ_FLAG_COPYUP_ENABLED = false → step_ok s (Object dev1) w.
Proof.
  intros Hok [Hobj Hmap] Hw Hg. pose proof Hok as (_ & _ & Hready & Hdev1).
  unfold map_ready in Hmap. assert (Hguard : guarded_ops img dev1 (o_req s) = modification dev1 img (o_req s))
    by (unfold guarded_ops; by rewrite Hg).
  destruct (flag (o_req s) RBD_OBJ_FLAG_DELETION) eqn:Hdel.
  - destruct (exec_delete dev0 dev1 img ex data parent Hdev1 Hroom (o_req s) (w_obj w0) Hready Hdel) as [Hex Hnew].
    eapply step_object_result; [done|by rewrite Hguard, Hobj, Hex|by destruct (w_obj w0)| | |].
    + apply world_ok_obj; [done|by right|]. by left.
    + intros _. split; [unfold write_result; rewrite Hdel; by destruct (w_obj w0)|done].
    + intros req' st' Hok' Hn. unfold object_next in Hn. rewrite Hg, andb_false_r in Hn.
      destruct Hn as (_ & -> & _ & Hf). destruct (same_dev w Hw) as (_ & Hf' & _). rewrite Hf' in Hf. done.
  - destruct (exec_unguarded dev0 dev1 img ex data parent Hgiven Hdev1 Hroom Hoff Hlen Hend (o_req s) (w_obj w0) Hready Hg Hdel)
      as (o' & Hex & Hnew).
    apply (step_object_result s w dev1 0 o'); [done|by rewrite Hguard, Hobj, Hex|done| |done|].
    + apply world_ok_obj; [done|by right|]. right. intros Hf. by rewrite (Hmap Hf).
    + intros req' st' _ Hn. unfold object_next in Hn. cbn in Hn. destruct Hn as (_ & _ & Hn & _).
      by rewrite Hdel in Hn.
Qed.

(** ** Copyup *)

Lemma leads_prefix r o full out :
  leads 0 o full → out `prefix_of` full → (r = 0 → out = full) → leads r o out.
Proof.
  revert o out. induction full as [|q full IH]; intros o out Hl Hp Hr.
  - apply prefix_nil_inv in Hp as ->. cbn in *. auto.
  - destruct out as [|q' out].
    + cbn. intros H0. by specialize (Hr H0).
    + pose proof (prefix_cons_inv_1 _ _ _ _ Hp) as ->. apply prefix_cons_inv_2 in Hp.
      destruct Hl as (ops & o' & ? & ? & ? & Hl). exists ops, o'. split; [done|]. split; [done|]. split; [done|].
      apply IH; [done..|]. intros Hr0. by injection (Hr Hr0).
Qed.

Lemma is_old_zeros p : Forall (λ b, b = 0) p → is_old (Some p) → is_old (Some []).
Proof.
  intros Hz Hold i Hi. rewrite <- (Hold i Hi). cbn [RbdWorld.view]. unfold byte_of.
  rewrite !nth_lookup. destruct (p !! Z.to_nat i) eqn:E; [|done]. simpl. symmetry. by apply (Forall_lookup_1 _ _ _ _ Hz E).
Qed.

Lemma copyup_leads dev req :
  dev_ok dev0 img ex dev → has_copyup dev0 img ex data req → has_parent_data req → w_obj w0 = None →
  leads 0 None (copyup_writes dev img req).
Proof.
  intros Hdev [He Hd Hcan Hok Hbytes (bvecs & Hb & Hlb & Hz) Hdel] [[Hop Hpe] (bvecs' & Hb' & Hdata)] Hnone.
  rewrite Hb in Hb'. injection Hb' as <-.
  assert (Hx : or_img_extents req ≠ []) by (intros Hx; rewrite Hx in Hbytes; unfold bytes_of in Hbytes; simpl in Hbytes; lia).
  unfold copyup_writes. rewrite Hb.
  assert (Hold : is_old (Some (take (Z.to_nat (copyup_bytes req)) (concat bvecs)))).
  { pose proof (copyup_data_old _ Hnone Hpe) as Hold. rewrite <- Hdata in Hold. unfold copyup_bytes, rbd_obj_img_extents_bytes.
    destruct (flag req RBD_OBJ_FLAG_COPYUP_ZEROS).
    - cbn. by apply (is_old_zeros (concat bvecs)); [apply Hz|].
    - rewrite (extents_bytes_eq _ Hok), u32_small by lia. by rewrite take_ge by lia. }
  set (d := take _ _) in Hold. change (copyup_op (copyup_bytes req) bvecs) with (CEPH_OSD_OP_CALL_COPYUP d).
  destruct (mods_on_old dev req d Hdev He Hd Hx Hop Hold) as (b' & Hex & Hnew).
  destruct (negb _ && _).
  - eexists _, (Some d). split; [reflexivity|]. cbn [r_ops]. rewrite omap_id_some.
    split; [apply osd_copyup, osd_nothing|]. split; [by left|]. eexists _, (Some b'). split; [reflexivity|]. cbn [r_ops]. rewrite omap_id_some.
    split; [done|]. split; [by right|by intros _].
  - eexists _, (Some b'). split; [reflexivity|]. cbn [r_ops]. rewrite omap_id_some.
    split; [by apply osd_copyup|]. split; [by right|by intros _].
Qed.

Lemma goes_on_world (P : Z → Prop) w req1 req' st' :
  world_ok w → w_obj w = None → w_obj w0 = None → (has_map → state w = OBJECT_EXISTS) → has_parent_data req1 →
  (∀ r, P r → lo <= r) →
  goes_on lo dev0 (w_dev w) img ex data P req1 req' st' → at_world req' st' w.
Proof.
  assert (Hkeep : ∀ r1 r2, keeps r1 r2 → has_parent_data r1 → has_parent_data r2).
  { intros r1 r2 [Hk1 Hk2]. unfold has_parent_data, has_parent. by rewrite Hk1, Hk2. }
  intros Hw Hobj Hnone Hst Hpd HP [[Hk (r & out & -> & Hr)] | (req2 & Hk & Hhc & r & out & -> & Hlo & Hpre & Hall)].
  - split; [by apply HP|]. split; [done|]. split; [done|]. split; [done|]. by apply (Hkeep req1).
  - split; [done|]. split; [|done]. rewrite Hobj. eapply leads_prefix; [|exact Hpre|exact Hall].
    apply copyup_leads; [by apply world_dev_ok|done|by apply (Hkeep req1)|done].
Qed.

Lemma concat_fill_pages bvecs f : concat (fill_pages bvecs f) = f <$> seq 0 (length (concat bvecs)).
Proof.
  unfold fill_pages. assert (Hl : length (f <$> seq 0 (length (concat bvecs))) = length (concat bvecs))
    by (by rewrite length_fmap, length_seq).
  revert Hl. generalize (f <$> seq 0 (length (concat bvecs))) as l.
  induction bvecs as [|b bvecs IH]; intros l Hl.
  - by destruct l.
  - rewrite concat_cons, length_app in Hl. rewrite fmap_cons. cbn [reshape]. rewrite concat_cons.
    rewrite IH by (rewrite length_drop; lia). apply take_drop.
Qed.

Lemma bytes_seq (l : list Z) : (λ n, byte_of l (Z.of_nat n)) <$> seq 0 (length l) = l.
Proof.
  apply list_eq. intros i. rewrite list_lookup_fmap. unfold byte_of. destruct (decide (i < length l)%nat) as [Hi|Hi].
  - rewrite lookup_seq_lt by lia. cbn. rewrite Nat2Z.id, nth_lookup. destruct (lookup_lt_is_Some_2 l i Hi) as [x ->]. done.
  - rewrite lookup_seq_ge by lia. symmetry. apply lookup_ge_None_2. lia.
Qed.

Lemma step_parent s w :
  stage_ok (o_req s) Parent → at_world (o_req s) Parent w → world_ok w → step_ok s Parent w.
Proof.
  intros (Hex & [Hst Hcs] & Hp & Hhc & Hz) (Hobj & Hnone & Hm & Hpar) Hw.
  eexists _, _, _. split; [done|]. split; [done|]. split; [done|]. split; [done|]. split; [done|].
  split; [cbn; unfold ends; pose proof (lo_le err lo Herr); lia|]. intros req' st' Hok Hn. cbn [stage_next o_req] in Hn.
  eapply (goes_on_world (λ r, lo <= r)); [done..| |done|exact Hn]. split; [|].
  - unfold arrive. rewrite Hcs. by destruct (or_copyup_bvecs (o_req s)).
  - destruct (hc_bvecs _ _ _ _ _ Hhc) as (bvecs & Hb & Hlb & _). unfold arrive. rewrite Hcs, Hb.
    eexists. split; [done|]. cbn [cn_parent]. rewrite concat_fill_pages. cbn [set_copyup_bvecs or_img_extents].
    assert (length (concat bvecs) = length (parent_bytes parent (or_img_extents (o_req s)))) as ->; [|by rewrite bytes_seq].
    unfold parent_bytes. rewrite length_fmap. apply Nat2Z.inj. rewrite length_addresses, Hlb by apply Hhc. done.
Qed.

Lemma step_maps s w r q out :
  stage_ok (o_req s) (Maps r (q :: out)) → at_world (o_req s) (Maps r (q :: out)) w → world_ok w →
  step_ok s (Maps r (q :: out)) w.
Proof.
  intros (Hex & [Hst Hcs] & Hr & Hhc & Hout & Hp) (Hlo & Hobj & Hnone & Hm & Hpd) Hw.
  apply Forall_cons in Hout as [(snap & state & -> & Hsnap) _].
  exists (map_update snap (oe_objno ex) state None), (Completion (w_dev w) 0 (λ _, 0)), w.
  split; [done|]. split; [unfold respond, map_update; rewrite (proj2 (Z.eqb_neq _ _)) by done; by destruct w|].
  split; [done|]. split; [done|]. split; [done|]. rewrite arrive_same by (right; by rewrite Hcs).
  split; [unfold stage_done, ends, next_result; cbn; lia|].
  intros req' st' Hok Hn. eapply (goes_on_world (λ x, x = next_result r 0)); [done..|by intros ? ->|exact Hn].
Qed.

Lemma step_copyup s w r q out :
  stage_ok (o_req s) (Copyup r (q :: out)) → at_world (o_req s) (Copyup r (q :: out)) w → world_ok w →
  step_ok s (Copyup r (q :: out)) w.
Proof.
  intros (Hex & [Hst Hcs] & Hr & Hdel & Hp) (Hlo & (ops & o' & -> & Hexec & Hon & Hl) & Hm) Hw.
  exists (Osd_request ops), (Completion (w_dev w) 0 (λ _, 0)), (World o' (w_dev w)).
  split; [done|]. split; [unfold respond; by rewrite Hexec|]. split; [done|]. split; [done|].
  split; [apply world_ok_obj; [done..|]; right; intros Hf; by rewrite (Hm Hf)|].
  rewrite arrive_same by (right; by rewrite Hcs). split.
  - intros x Hx [Hd0 Hd]. change (next_result r _) with r in Hd0, Hd. cbn [tail] in Hd0, Hd. split; [|lia].
    intros Hx0. destruct (Hd0 Hx0) as [-> ->]. by apply Hl.
  - intros req' st' Hok ->. done.
Qed.

(** ** From one request to the next *)

Lemma stage_steps s c st w :
  at_stage dev0 img ex data c s st → at_world (o_req s) st w → world_ok w → step_ok s st w.
Proof.
  intros (Hok & Hne & _) Hw Hwo. destruct st as [|dev1| |dev1|r [|q out]|r [|q out]|]; try done.
  - by apply step_pre.
  - destruct (flag (o_req s) RBD_OBJ_FLAG_COPYUP_ENABLED) eqn:Hg.
    + by apply step_object_guarded. + by apply step_object_unguarded.
  - by apply step_parent.
  - by apply step_maps.
  - by apply step_copyup.
  - by apply step_post.
Qed.

Lemma wps_serve fuel c s st w :
  at_stage dev0 img ex data c s st → at_world (o_req s) st w → world_ok w →
  (6 + length (ir_snapc img) <= c + fuel)%nat →
  wps (serve exec parent err img (oe_objno ex) fuel c w) s (λ '(x, w') _, x <= 0 ∧ fin x w').
Proof.
  revert c s st w. induction fuel as [|fuel IH]; intros c s st w Hat Hworld Hw Hfuel; cbn [serve].
  { apply at_stage_sent_le in Hat. lia. }
  destruct (stage_steps s c st w Hat Hworld Hw) as (r & ev & w1 & Hhead & Hresp & Hdev & Hres & Hw1 & Hdone & Hnext).
  apply wps_bind. unfold sget, wps at 1. cbn [wp]. apply wps_bind, wps_lift.
  assert (o_sent s !! c = Some r) as ->.
  { destruct Hat as (_ & _ & (pre & -> & <-) & _). rewrite lookup_app_r, Nat.sub_diag by lia.
    by rewrite <- head_lookup. }
  cbn [deref wp]. apply wps_bind, wps_lift. rewrite Hresp. cbn [wp]. apply wps_bind, wps_rmodify, wps_bind.
  apply (at_stage_arrive img dev0 ex data ev) in Hat.
  pose proof (world_dev_ok w1 Hw1) as Hdok. rewrite <- Hdev in Hdok.
  eapply wps_mono; [eapply (wps_event err lo img dev0 ex data Herr Hgiven Hroom Hsnaps); [exact Hdok|exact Hres|exact Hat]|].
  intros [[] x] s' Ho; cbn [advanced fst snd] in Ho.
  - apply wps_ret. destruct Ho as (Hx & _ & _ & Hd). split; [done|]. split; [done|]. by apply (Hdone x Hx).
  - destruct Ho as (st' & Hat' & Hst'). rewrite Hdev in Hst'. apply (IH _ _ st'); [done| |done|lia].
    apply Hnext; [apply Hat'|done].
Qed.

(** The start: the object map may know that there is nothing to do. *)
Lemma noop_new s :
  world_ok w0 → ready dev0 img ex data (o_req s) → is_noop dev0 ex (o_req s) → is_new (w_obj w0).
Proof.
  intros Hw Hready [Hmay Hnoop]. unfold rbd_object_map_may_exist, use_object_map in Hmay.
  destruct (negb (rbd_is_snap dev0) && _); [done|].
  destruct (has (rd_features dev0) RBD_FEATURE_OBJECT_MAP) eqn:Hf; [|done].
  destruct (negb (true && _)); [done|]. destruct (wo_map _ Hw Hf) as [Hok Hsound].
  rewrite object_map_get_eq in Hmay by done. cbn [mbind outcome_bind] in Hmay. injection Hmay as Hst.
  apply negb_false_iff, Z.eqb_eq in Hst. specialize (Hsound Hst). intros i Hi. unfold RbdWorld.written.
  destruct (in_range ex i); [|done]. rewrite Hsound.
  destruct (rr_noop _ _ _ _ _ Hready Hnoop) as [->|[-> Hx]]; [done|].
  by rewrite (ready_no_parent dev0 img ex data parent Hroom (o_req s) Hready Hx i Hi).
Qed.

Lemma start_world req st :
  world_ok w0 → start_next dev0 ex req st → at_world req st w0.
Proof.
  intros Hw [[-> Hf]|[-> Hn]]; [done|]. split; [done|]. intros Hf. specialize (Hn Hf).
  destruct (wo_map _ Hw Hf) as [Hok _]. unfold update_needed in Hn. rewrite object_map_get_eq in Hn by done.
  cbn [mbind outcome_bind] in Hn. injection Hn as Hn. apply negb_false_iff in Hn. unfold pre_state in Hn.
  destruct (flag req RBD_OBJ_FLAG_DELETION).
  - destruct (Z.eqb_spec (state w0) OBJECT_PENDING) as [|_]; [by left|right].
    by destruct (Z.eqb_spec (state w0) OBJECT_NONEXISTENT).
  - by destruct (Z.eqb_spec (state w0) OBJECT_EXISTS).
Qed.
End refine.

(** ** The theorem *)

(** Bytes of an object. *)
Definition within (l : ceph_file_layout) (ex : ceph_object_extent) : Prop :=
  0 <= oe_off ex ∧ 0 < oe_len ex ∧ oe_off ex + oe_len ex <= object_size l.

Lemma wps_run_world `{Osd exec} parent err lo img w ex data
    (Herr : errors lo err) (Hsnaps : Forall (λ snap, snap ≠ CEPH_NOSNAP) (ir_snapc img))
    (Hgiven : given img ex data) (Hroom : room (rd_layout (w_dev w)) (oe_objno ex))
    (Hwithin : within (rd_layout (w_dev w)) ex) (Hoverlap : 0 <= rd_parent_overlap (w_dev w))
    (Hmap : map_sound (oe_objno ex) w) :
  wps (run_world exec parent err img (oe_objno ex) w) (Ost (fresh ex data) [] 0) (λ '(o, w') _,
    match o with
    | inl ret => (lo <= ret < 0 ∨ ret = 1 ∧ target (w_dev w) img ex = None) ∧ w' = w
    | inr result => ∃ ex', target (w_dev w) img ex = Some ex' ∧ result <= 0 ∧ fin parent lo img w ex' data result w'
    end).
Proof.
  unfold run_world. apply wps_bind.
  eapply wps_mono; [apply (wps_init err (w_dev w) img ex data lo Herr Hroom Hoverlap); apply Hgiven|].
  intros ret s [Hs Hret].
  destruct (nonzero ret) eqn:E; unfold nonzero in E; bool_to_prop.
  { apply wps_ret. split; [|done]. destruct Hret as [?|[?|[? _]]]; [by left|by right|lia]. }
  destruct Hret as [?|[[? _]|(_ & ex' & Ht & Hready & Hst)]]; [lia|lia|].
  pose proof (target_objno _ _ _ _ Ht) as Hobj. pose proof (given_target img (w_dev w) ex data ex' Hgiven Ht) as Hgiven'.
  destruct Hwithin as (Ho & Hl & He). pose proof (rm_size _ _ Hroom).
  destruct (target_range _ _ _ _ Ho Hl ltac:(lia) Ht) as (Ho' & Hl' & He'). rewrite <- Hobj in *.
  assert (Hw : world_ok parent img w ex' data w) by (split; [apply same_but_map_refl|done|left; apply old_is_old]).
  pose proof (world_dev_ok parent img w ex' data w Hw) as Hdev.
  apply wps_bind. eapply wps_mono; [by apply (wps_first err lo img (w_dev w) data Herr s ex')|].
  intros [[] r] s' Hadv.
  - apply wps_ret. destruct Hadv as (Hr & _ & _ & Hn). exists ex'. split; [done|]. split; [done|]. split; [done|].
    destruct Hn as [Hn Hlo]. split; [|exact Hlo]. intros Hr0. by eapply noop_new; [done|done|exact Hready|apply Hn].
  - destruct Hadv as (st & Hat & Hnext). apply wps_bind.
    eapply wps_mono; [eapply (wps_serve parent err lo img w ex' data); first [done | exact Hat | by eapply start_world | lia]|].
    intros [x w'] s2 [Hx Hfin]. apply wps_ret. by exists ex'.
Qed.

Lemma run_world_ok exec (Hosd : Osd exec) parent err lo img w ex data
    (Herr : errors lo err) (Hsnaps : Forall (λ snap, snap ≠ CEPH_NOSNAP) (ir_snapc img))
    (Hgiven : given img ex data) (Hroom : room (rd_layout (w_dev w)) (oe_objno ex))
    (Hwithin : within (rd_layout (w_dev w)) ex) (Hoverlap : 0 <= rd_parent_overlap (w_dev w))
    (Hmap : map_sound (oe_objno ex) w) :
  ∃ o w' s, run_world exec parent err img (oe_objno ex) w (Ost (fresh ex data) [] 0) = Ret ((o, w'), s) ∧
    map_sound (oe_objno ex) w' ∧ same_but_map (w_dev w) (w_dev w') ∧
    match o with
    | inl ret => (lo <= ret < 0 ∨ ret = 1 ∧ target (w_dev w) img ex = None) ∧ w' = w
    | inr result => ∃ ex', target (w_dev w) img ex = Some ex' ∧ lo <= result <= 0 ∧
        let is_as := same_view (w_dev w) (view (w_dev w) (oe_objno ex) parent (w_obj w')) in
        let old := view (w_dev w) (oe_objno ex) parent (w_obj w) in
        let new := written (w_dev w) (oe_objno ex) parent img ex' data (w_obj w) in
        if result =? 0 then is_as new else is_as old ∨ is_as new
    end.
Proof.
  pose proof (wps_run_world parent err lo img w ex data Herr Hsnaps Hgiven Hroom Hwithin Hoverlap Hmap) as H.
  apply wp_exists in H as ([[o w'] s] & -> & Hok). exists o, w', s. split; [done|].
  destruct o as [ret|result].
  { destruct Hok as [? ->]. split; [done|]. split; [apply same_but_map_refl|done]. }
  destruct Hok as (ex' & Ht & Hr & [Hsame Hsound Hview] & Hnew & Hlo). pose proof (target_objno _ _ _ _ Ht) as Hobj.
  unfold is_old_or_new, is_old, is_new in *. rewrite Hobj in *.
  split; [done|]. split; [done|]. exists ex'. split; [done|]. split; [lia|]. cbv zeta.
  destruct (Z.eqb_spec result 0) as [H0|_]; [by apply Hnew|done].
Qed.

(** C2: A write, discard or zeroout of bytes of an object, as seen through the image, against an
    OSD that carries out what is sent in order, whatever calls in the kernel fail: an image that
    has a parent shows the parent's bytes where the object does not exist.  The request runs to
    its end and is refused (it has changed nothing), or completes: with 0 if the bytes are
    those written (or zero), and all others of the object are what they were, the parent's
    included; with an error only if all bytes are as before or all as after.  If no call fails
    there is no error.  The object map never denies an object that exists.  (A discard may leave
    the parent's bytes where there is no object.) *)
Theorem rbd_obj_write_refines exec (Hosd : Osd exec) (parent : Z → Z) (err : nat → Z) (img : img_info) (w : world)
    (ex : ceph_object_extent) (data : list Z)
    (Herr : ∀ n, - MAX_ERRNO <= err n <= 0) (Hsnaps : Forall (λ snap, snap ≠ CEPH_NOSNAP) (ir_snapc img))
    (Hgiven : given img ex data) (Hroom : room (rd_layout (w_dev w)) (oe_objno ex))
    (Hwithin : within (rd_layout (w_dev w)) ex) (Hoverlap : 0 <= rd_parent_overlap (w_dev w))
    (Hmap : map_sound (oe_objno ex) w) :
  ∃ o w' s, run_world exec parent err img (oe_objno ex) w (Ost (fresh ex data) [] 0) = Ret ((o, w'), s) ∧
    map_sound (oe_objno ex) w' ∧ same_but_map (w_dev w) (w_dev w') ∧
    ((∀ n, err n = 0) → o = inr 0 ∨ o = inl 1) ∧
    match o with
    | inl ret => (- MAX_ERRNO <= ret < 0 ∨ ret = 1 ∧ target (w_dev w) img ex = None) ∧ w' = w
    | inr result => ∃ ex', target (w_dev w) img ex = Some ex' ∧ - MAX_ERRNO <= result <= 0 ∧
        let is_as := same_view (w_dev w) (view (w_dev w) (oe_objno ex) parent (w_obj w')) in
        let old := view (w_dev w) (oe_objno ex) parent (w_obj w) in
        let new := written (w_dev w) (oe_objno ex) parent img ex' data (w_obj w) in
        if result =? 0 then is_as new else is_as old ∨ is_as new
    end.
Proof.
  destruct (run_world_ok exec Hosd parent err (- MAX_ERRNO) img w ex data (any_error err Herr)) as (o & w' & s & Hrun & Hok); [done..|].
  exists o, w', s. split; [done|]. destruct Hok as (Hsound & Hsame & Hok). split; [done|]. split; [done|]. split; [|done].
  intros H0. destruct (run_world_ok exec Hosd parent err 0 img w ex data (no_error err H0)) as (o' & w'' & s' & Hrun' & _ & _ & Hok'); [done..|].
  rewrite Hrun in Hrun'. injection Hrun' as <- <- <-. destruct o as [ret|result].
  - destruct Hok' as [[?|[-> _]] _]; [lia|by right].
  - destruct Hok' as (ex' & _ & Hr & _). left. f_equal. lia.
Qed.

Definition ex_world : world := World None ex_device.

Lemma ex_map_sound : map_sound 0 ex_world.
Proof. intros _. split; [by apply ex_map_ok|done]. Qed.

(** A write to a clone: the object is made of the parent's bytes and those written. *)
Lemma rbd_obj_write_refines_witness :
  ∃ o w' s, run_world ex_exec (λ f, f + 100) (λ _, 0) ex_image 0 ex_world (Ost (fresh ex_extent [7; 8; 9]) [] 0)
      = Ret ((o, w'), s)
    ∧ map_sound 0 w' ∧ o = inr 0
    ∧ w_obj w' = Some [100; 101; 102; 103; 7; 8; 9; 107; 108; 109; 110; 111; 112; 113; 114; 115].
Proof.
  destruct (rbd_obj_write_refines ex_exec ex_osd (λ f, f + 100) (λ _, 0) ex_image ex_world ex_extent [7; 8; 9])
    as (o & w' & s & Hrun & Hsound & _).
  { unfold MAX_ERRNO. lia. } { by repeat constructor. } { by split. } { exact ex_room. } { done. } { done. } { exact ex_map_sound. }
  exists o, w', s. split; [exact Hrun|]. split; [exact Hsound|]. vm_compute in Hrun. injection Hrun as <- <- <-. done.
Defined.

(** With snapshots, an object discarded or zeroed whole, and the parent detached in between:
    [__rbd_osd_setup_zeroout_ops] asserts that the request is a deletion, which it was not when
    it was prepared. *)
Example zeroout_flattened :
  let img := ImgInfo OBJ_OP_ZEROOUT OBJ_REQUEST_NODATA CEPH_NOSNAP [5] in
  let ex := {| oe_objno := 0; oe_off := 0; oe_len := 16 |} in
  let flat := RbdDevice (rd_features ex_device) ex_layout 96 CEPH_NOSNAP false 0
                (rd_object_map ex_device) 6 0 RBD_LOCK_STATE_LOCKED 4 false false 0 in
  run_request (λ _, 0) img ex_device [Completion ex_device 0 (λ _, 0); Completion flat (- ENOENT) (λ _, 0)]
    (Ost (fresh ex []) [] 0) = Undef.
Proof. by vm_compute. Qed.
