(* ===== verification/RbdRead.v ===== *)
(** * RBD reads (rbd/rbd.c, [rbd_obj_advance_read])

    A read request against an OSD and a parent image: what it leaves in the data buffer is what
    the image has there. *)
From S2P Require Import Prelude Striper Hash Crush Mapper Choose DoRule Workspace OsdMap Decode.
From S2P Require Import Rbd RbdObject RbdMachine RbdObjectMap RbdParent RbdSends RbdStages.
From S2P Require Import RbdSteps RbdInit RbdComplete RbdWorld RbdRefine.

(** What the OSD answers to a read of an object: the result and the bytes, which end with the
    object; or that there is none; or an error down to [lo]. *)
Class OsdReads (lo : Z) (read : osd_op → option (list Z) → Z * list Z) : Prop :=
  osd_read off len o :
    (∃ e, read (CEPH_OSD_OP_READ off len) o = (e, []) ∧ lo <= e < 0 ∧ e ≠ - ENOENT) ∨
    match o with
    | None => read (CEPH_OSD_OP_READ off len) o = (- ENOENT, [])
    | Some b => let d := take (Z.to_nat len) (drop (Z.to_nat off) b) in
                read (CEPH_OSD_OP_READ off len) o = (Z.of_nat (length d), d)
    end.

(** The bytes that come go to the start of the buffer. *)
Definition fill (d : list Z) (req : rbd_obj_request) : rbd_obj_request :=
  set_data (d ++ drop (length d) (or_data req)) req.

Section reads.
Context (read : osd_op → option (list Z) → Z * list Z) (objects : Z → option (list Z)).
Context (parent : Z → Z) (parent_result : Z).
Context (err : nat → Z) (dev : rbd_device) (img : img_info).

(** The result for the handler and the bytes.  [objects] are the object's states by snapshot. *)
Definition answer (r : request) : outcome (Z * list Z) :=
  match r with
  | Osd_request req =>
      match omap id (r_ops req) with
      | [op] => let '(res, d) := read op (objects (r_snapid req)) in Ret (osd_result img res, d)
      | _ => Undef
      end
  | Map_update _ _ _ => Undef
  | Parent_read exts => Ret (parent_result, parent_bytes parent exts)
  end.

Fixpoint serve_reads (fuel n : nat) : St Z :=
  match fuel with
  | O => slift NoFuel
  | S fuel =>
      s ← sget;
      r ← slift (deref (o_sent s !! n));
      '(res, d) ← slift (answer r);
      _ ← rmodify (fill d);
      '(done, result) ← obj_handle err img dev res;
      if done : bool then mret result else serve_reads fuel (S n)
  end.

Lemma serve_reads_S fuel n : serve_reads (S fuel) n =
  (s ← sget;
   r ← slift (deref (o_sent s !! n));
   '(res, d) ← slift (answer r);
   _ ← rmodify (fill d);
   '(done, result) ← obj_handle err img dev res;
   if done : bool then mret result else serve_reads fuel (S n)).
Proof. done. Qed.

Definition run_read : St Z :=
  ret ← rbd_obj_init err dev img;
  if nonzero ret then mret ret
  else
    '(done, result) ← obj_handle err img dev 0;
    if done : bool then mret result else serve_reads 2 0.
End reads.

Section proofs.
Context (lo : Z) `{Hread : OsdReads lo read} (objects : Z → option (list Z)) (parent : Z → Z) (parent_result : Z).
Context (err : nat → Z) (dev : rbd_device) (img : img_info) (ex : ceph_object_extent).
Hypothesis Herr : errors lo err.
Hypothesis Hop : ir_op_type img = OBJ_OP_READ.
Hypothesis Htype : ir_data_type img ≠ OBJ_REQUEST_NODATA.
Hypothesis Hroom : room (rd_layout dev) (oe_objno ex).
Hypothesis Hoff : 0 <= oe_off ex.
Hypothesis Hlen : 0 < oe_len ex < 2 ^ 31.
Hypothesis Hend : oe_off ex + oe_len ex <= object_size (rd_layout dev).
Hypothesis Hoverlap : 0 <= rd_parent_overlap dev.
Implicit Types (req : rbd_obj_request) (s : ost).

Local Abbreviation object := (objects (ir_snap_id img)).
Local Abbreviation view := (view dev (oe_objno ex) parent).

(** The object map of what is mapped does not deny the object. *)
Definition map_agrees : Prop :=
  use_object_map dev = true → map_ok dev (oe_objno ex)
                              ∧ (state_at dev (oe_objno ex) = OBJECT_NONEXISTENT → object = None).
Hypothesis Hmap : map_agrees.

(** What is to be read. *)
Definition asked : list Z := (view object) <$> seqZ (oe_off ex) (oe_len ex).

Definition reading (st : rbd_obj_read_state) req : Prop :=
  or_ex req = ex ∧ or_state req = Read_state st ∧ Z.of_nat (length (or_data req)) = oe_len ex.

Lemma reading_reqs st n req : reading st req → reading st (with_reqs n req).
Proof. done. Qed.

Lemma wps_may_exist s st :
  reading st (o_req s) →
  wps (rbd_obj_may_exist dev) s (λ may s', o_sent s' = o_sent s ∧ reading st (o_req s')
     ∧ or_img_extents (o_req s') = or_img_extents (o_req s) ∧ (may = false → object = None)).
Proof.
  intros (Hex & Hst & Hdata). unfold rbd_obj_may_exist. apply wps_bind, wps_rget, wps_bind, wps_lift.
  rewrite Hex. unfold rbd_object_map_may_exist.
  destruct (use_object_map dev) eqn:Hu; cbn [negb wp].
  - destruct (Hmap Hu) as [Hok Hsound]. rewrite object_map_get_eq by done. cbn [mbind outcome_bind wp].
    apply wps_bind. destruct (Z.eqb_spec (state_at dev (oe_objno ex)) OBJECT_NONEXISTENT) as [E|E]; cbn [negb].
    + apply wps_ret, wps_ret. split; [done|]. split; [done|]. split; [done|]. by intros _; apply Hsound.
    + apply wps_rmodify, wps_ret. done.
  - apply wps_bind, wps_rmodify, wps_ret. done.
Qed.

Definition read_request : request :=
  Osd_request (CephOsdRequest (oe_objno ex) None (ir_snap_id img) false
                 [Some (CEPH_OSD_OP_READ (oe_off ex) (oe_len ex))]).

Lemma wps_read_object s st :
  reading st (o_req s) → wps (rbd_obj_read_object err img) s (sent_one lo (λ r, r = read_request) s).
Proof.
  intros (Hex & _ & Hdata). unfold rbd_obj_read_object. apply wps_bind.
  eapply wps_mono; [apply (wps_add_osd_request err lo Herr)|]. intros r s' Hgot.
  eapply wps_with_osd_req; [exact Hgot|]. intros req s2 Hg (Hsn & Hid & Hob & Hops).
  apply wps_bind, wps_rget. destruct (Hg) as [_ [n En]]. rewrite En. cbn [or_ex with_reqs]. rewrite Hex.
  apply wps_bind, wps_lift. change (set_op 0) with (set_op (Z.of_nat (length (@nil osd_op)))).
  rewrite set_op_last by done. cbn [wp]. apply wps_bind, wps_lift. unfold rbd_osd_setup_data. cbn [or_ex or_data with_reqs]. rewrite Hex.
  eapply (wp_mono _ (λ _, True)); [rewrite Hdata; unfold require; rewrite Z.eqb_refl; by destruct (ir_data_type img)|intros _ _].
  apply (wps_alloc_and_submit err lo Herr); [done|].
  unfold read_request, rbd_osd_format_read, with_ops. cbn [r_objno r_snapc r_ops]. by rewrite Hsn, Hob, Hex.
Qed.

(** ** Zeros behind what has been read *)

Lemma wps_zero_range s st k bytes (Q : unit → ost → Prop) :
  reading st (o_req s) → 0 <= k → k + bytes = oe_len ex → 0 <= bytes →
  Q tt (Ost (set_data (take (Z.to_nat k) (or_data (o_req s)) ++ replicate (Z.to_nat bytes) 0) (o_req s))
          (o_sent s) (o_calls s)) →
  wps (rbd_obj_zero_range img k bytes) s Q.
Proof.
  intros (Hex & _ & Hdata) Hk Hb Hb0 HQ. unfold rbd_obj_zero_range. apply wps_bind, wps_rget, wps_bind, wps_lift.
  rewrite bool_decide_false by done. cbn [negb require wp]. apply wps_bind, wps_lift.
  rewrite !u32_small by lia. unfold zero_range, require. rewrite (proj2 (Z.leb_le _ _)) by lia.
  cbn [mbind outcome_bind wp]. apply wps_rmodify. rewrite drop_ge, app_nil_r by lia. exact HQ.
Qed.

(** The buffer, when [d] has come and zeros are behind it. *)
Lemma asked_by (f : Z → Z) (d : list Z) :
  Z.of_nat (length d) <= oe_len ex →
  (∀ i, 0 <= i < oe_len ex → f (oe_off ex + i) = byte_of d i) →
  d ++ replicate (Z.to_nat (oe_len ex - Z.of_nat (length d))) 0 = f <$> seqZ (oe_off ex) (oe_len ex).
Proof.
  intros Hd Hf. apply list_eq. intros i. rewrite list_lookup_fmap.
  destruct (decide (Z.of_nat i < oe_len ex)) as [Hi|Hi].
  - rewrite lookup_seqZ_lt by lia. cbn [fmap option_fmap option_map]. rewrite Hf by lia. unfold byte_of. rewrite Nat2Z.id, nth_lookup.
    destruct (decide (i < length d)%nat) as [Hl|Hl].
    + rewrite lookup_app_l by done. by destruct (lookup_lt_is_Some_2 d i Hl) as [x ->].
    + rewrite lookup_app_r, lookup_replicate_2 by lia. by rewrite (lookup_ge_None_2 d) by lia.
  - rewrite lookup_seqZ_ge by lia. apply lookup_ge_None_2. rewrite length_app, length_replicate. lia.
Qed.

(** Done, with an error or the bytes asked for. *)
Definition read_done (o : bool * Z) s : Prop :=
  o.1 = true ∧ lo <= o.2 <= 0 ∧ (o.2 = 0 → or_data (o_req s) = asked).

Lemma wps_done_zeros s st d (res : Z) :
  reading st (o_req s) → 0 <= res <= oe_len ex → or_data (o_req s) = d ++ drop (length d) (or_data (o_req s)) →
  res = Z.of_nat (length d) → (∀ i, 0 <= i < oe_len ex → view object (oe_off ex + i) = byte_of d i) →
  wps (_ ← rbd_obj_zero_range img res (oe_len ex - res); completed 0) s
    (λ o s', match o with inl _ => False | inr x => read_done x s' end).
Proof.
  intros Hr Hres Hd Hl Hv. apply wps_bind. eapply wps_zero_range; [exact Hr|lia..|].
  apply wps_ret. split; [done|]. split; [pose proof (lo_le err lo Herr); done|]. intros _. cbn [o_req set_data or_data].
  rewrite Hd, Hl, Nat2Z.id, take_app_length. by apply asked_by; [lia|].
Qed.

(** What has come from the OSD, for the object as the image has it when there is none. *)
Definition came (res : Z) s : Prop :=
  (lo <= res < 0 ∧ res ≠ - ENOENT) ∨
  (res = - ENOENT ∧ ∀ i, 0 <= i < oe_len ex → view object (oe_off ex + i) = 0) ∨
  (0 <= res <= oe_len ex ∧ ∃ d, or_data (o_req s) = d ++ drop (length d) (or_data (o_req s)) ∧ res = Z.of_nat (length d)
     ∧ ∀ i, 0 <= i < oe_len ex → view object (oe_off ex + i) = byte_of d i).

Lemma wps_read_object_done s st res :
  reading st (o_req s) → came res s →
  wps (read_object_done img res) s (λ o s', match o with inl _ => False | inr x => read_done x s' end).
Proof.
  intros Hr Hcame. pose proof (lo_le err lo Herr) as Hlo. pose proof Hr as (Hex & _ & Hdata).
  unfold read_object_done. apply wps_bind, wps_rget. rewrite Hex. cbv zeta.
  destruct Hcame as [[Hres Hne]|[[-> Hv]|(Hres & d & Hd & Hl & Hv)]].
  - rewrite (proj2 (Z.eqb_neq _ _)) by done. rewrite Z.geb_leb, (proj2 (Z.leb_gt _ _)) by lia.
    apply wps_ret. split; [done|]. cbn. split; [lia|]. lia.
  - rewrite Z.eqb_refl. pose proof (wps_done_zeros s st [] 0 Hr) as H. rewrite Z.sub_0_r in H.
    apply H; [lia|done|done|]. intros i Hi. rewrite Hv by done. unfold byte_of. by destruct (Z.to_nat i).
  - rewrite (proj2 (Z.eqb_neq _ _)) by (unfold ENOENT; lia). rewrite Z.geb_leb, (proj2 (Z.leb_le _ _)) by lia.
    destruct (Z.ltb_spec res (oe_len ex)) as [Hlt|Hge]; [by eapply wps_done_zeros|].
    apply wps_bind, wps_lift. unfold require. rewrite (proj2 (Z.eqb_eq _ _)) by lia. cbn [wp].
    apply wps_ret. split; [done|]. split; [done|]. intros _.
    unfold asked. rewrite <- (asked_by _ d) by (done || lia). rewrite Hd, drop_ge, app_nil_r by lia.
    replace (oe_len ex - Z.of_nat (length d)) with 0 by lia. by rewrite app_nil_r.
Qed.

(** ** From the parent *)

Definition parent_covers (exts : list ceph_file_extent) : Prop :=
  parent_extents (rd_layout dev) (oe_objno ex) (oe_off ex) (oe_off ex + oe_len ex) (rd_parent_overlap dev) exts.

Lemma view_from_parent exts i :
  object = None → parent_covers exts → 0 <= i < oe_len ex →
  view object (oe_off ex + i) = byte_of (parent_bytes parent exts) i.
Proof.
  intros Hnone Hpe Hi. destruct Hroom as [Hl _ _ _].
  assert (Hab : 0 <= oe_off ex <= oe_off ex + oe_len ex) by lia.
  rewrite (byte_of_parent dev (oe_objno ex) parent _ _ _ exts i Hl Hab Hpe) by lia.
  destruct (parent_addresses _ Hl _ _ _ _ _ Hab Hpe) as (_ & _ & Hiff). specialize (Hiff (oe_off ex + i) ltac:(lia)).
  rewrite Hnone. cbn [RbdWorld.view].
  destruct (Z.ltb_spec (unlocate (rd_layout dev) (oe_objno ex) (oe_off ex + i)) (rd_parent_overlap dev));
    destruct (Z.ltb_spec i (bytes_of exts)); done || lia.
Qed.
Lemma length_parent_bytes exts :
  parent_covers exts → Z.of_nat (length (parent_bytes parent exts)) = bytes_of exts ∧ bytes_of exts <= oe_len ex.
Proof.
  intros Hpe. unfold parent_bytes. rewrite length_fmap, length_addresses by apply Hpe. split; [done|].
  assert (Hab : 0 <= oe_off ex <= oe_off ex + oe_len ex) by lia.
  destruct (parent_addresses _ (rm_layout _ _ Hroom) _ _ _ _ _ Hab Hpe) as (_ & Hb & _). lia.
Qed.

Lemma wps_read_parent s st :
  reading st (o_req s) →
  wps (rbd_obj_read_from_parent err img) s (sent_one lo (λ r, r = Parent_read (or_img_extents (o_req s))) s).
Proof.
  intros Hr. unfold rbd_obj_read_from_parent. apply wps_bind, (wps_alloc err lo Herr). intros ret s1 Hret H1.
  apply (wps_check lo); [done|by left|intros _].
  apply wps_bind, wps_rget, wps_bind, wps_lift. unfold rbd_img_is_write. rewrite Hop, bool_decide_false by done.
  cbn [negb require wp]. apply wps_bind, (wps_call err lo Herr). intros ret2 s2 Hr2 H2.
  pose proof (grows_nil_trans _ _ _ _ H1 H2) as [Hs Hn].
  apply (wps_check lo); [done|by left|intros _].
  apply wps_bind, wps_send, wps_ret. right. split; [done|]. eexists. split; [done|].
  split; [|done]. cbn [o_sent]. rewrite Hs, app_nil_r. destruct H1 as [_ [n ->]]. done.
Qed.

(** Waiting for the request that has been sent last. *)
Definition parent_waits (n : nat) s : Prop :=
  reading RBD_OBJ_READ_PARENT (o_req s) ∧ parent_covers (or_img_extents (o_req s)) ∧ object = None
  ∧ length (o_sent s) = S n ∧ o_sent s !! n = Some (Parent_read (or_img_extents (o_req s))).
Definition object_waits s : Prop :=
  reading RBD_OBJ_READ_OBJECT (o_req s) ∧ or_img_extents (o_req s) = [] ∧ o_sent s = [read_request].

Lemma wps_read_waits s st' n (D : Z + (bool * Z) → ost → Prop) :
  reading st' (o_req s) → length (o_sent s) = n → object = None → parent_covers (or_img_extents (o_req s)) →
  (∀ x s', read_done x s' ∨ x.1 = false ∧ parent_waits n s' → D (inr x) s') →
  wps (ret ← rbd_obj_read_from_parent err img;
       if nonzero ret then completed ret
       else _ ← rmodify (set_state (Read_state RBD_OBJ_READ_PARENT)); waiting (- ENOENT)) s D.
Proof.
  intros Hr Hn Hnone Hpe HD. apply wps_bind. eapply wps_mono; [by eapply wps_read_parent|].
  intros ret s1 [[Hret Hg]|[-> (r & -> & Hs & m & En)]].
  - apply (wps_check lo); [lia| |lia]. intros. apply HD. left. split; [done|]. cbn. lia.
  - apply wps_branch; [done|done|intros _]. apply wps_bind, wps_rmodify, wps_ret. apply HD. right. split; [done|].
    unfold parent_waits. cbn [o_req o_sent]. rewrite Hs, En. split; [by destruct Hr as (? & _ & ?)|]. split; [done|]. split; [done|].
    rewrite length_app, Hn. split; [simpl; lia|]. by rewrite lookup_app_r, Hn, Nat.sub_diag by lia.
Qed.

(** ** State by state *)

(** [RBD_OBJ_READ_OBJECT]; the object map may have answered in place of the OSD. *)
Definition answered (res : Z) s : Prop :=
  (lo <= res < 0 ∧ res ≠ - ENOENT) ∨
  (res = - ENOENT ∧ object = None) ∨
  (0 <= res <= oe_len ex ∧ ∃ d, or_data (o_req s) = d ++ drop (length d) (or_data (o_req s)) ∧ res = Z.of_nat (length d)
     ∧ ∀ i, 0 <= i < oe_len ex → view object (oe_off ex + i) = byte_of d i).

Lemma nothing_there : object = None → parent_covers [] → ∀ i, 0 <= i < oe_len ex → view object (oe_off ex + i) = 0.
Proof.
  intros Hnone Hpe i Hi. rewrite (view_from_parent [] i Hnone Hpe Hi). unfold byte_of. cbn. by destruct (Z.to_nat i).
Qed.

Lemma wps_object_answer res s n :
  reading RBD_OBJ_READ_OBJECT (o_req s) → or_img_extents (o_req s) = [] → length (o_sent s) = n → answered res s →
  wps (advance_read err dev img res) s
    (λ o s', match o with inl _ => False | inr x => read_done x s' ∨ x.1 = false ∧ parent_waits n s' end).
Proof.
  intros Hr Hnil Hn Hans. pose proof Hr as (Hex & Hst & _). unfold advance_read. apply wps_bind, wps_rget. rewrite Hst.
  assert (Hdone : ∀ s', reading RBD_OBJ_READ_OBJECT (o_req s') → came res s' →
    wps (read_object_done img res) s' (λ o s', match o with inl _ => False | inr x => read_done x s' ∨ x.1 = false ∧ parent_waits n s' end)).
  { intros s' Hr' Hc. eapply wps_mono; [by eapply wps_read_object_done|]. intros [?|x] s2 H; [done|]. by left. }
  destruct Hans as [Hans|[[-> Hnone]|Hans]]; [| |].
  1: rewrite (proj2 (Z.eqb_neq res _)) by apply Hans; cbn [andb]; apply Hdone; [done|by left].
  2: rewrite (proj2 (Z.eqb_neq res _)) by (unfold ENOENT; lia); cbn [andb]; apply Hdone; [done|by right; right].
  rewrite Z.eqb_refl. cbn [andb]. destruct (Z.eqb_spec (rd_parent_overlap dev) 0) as [H0|H0]; cbn [negb].
  { apply Hdone; [done|]. right. left. split; [done|]. apply nothing_there; [done|].
    unfold parent_covers. rewrite H0. apply parent_extents_nil; [apply Hroom..|lia|lia]. }
  apply wps_bind. eapply wps_mono; [apply (wps_calc_img_extents err dev ex lo Herr Hroom false); by rewrite ?Hex; (done || lia)|].
  cbv beta zeta iota. intros ret s1 (Hs1 & Hret & Hok). apply (wps_check lo); [done| |intros ->].
  { intros. left. split; [done|]. cbn. lia. }
  destruct (Hok eq_refl) as (m & exts & En & _ & Hpe). specialize (Hpe Hoverlap). rewrite Hex in Hpe.
  assert (Hr1 : reading RBD_OBJ_READ_OBJECT (o_req s1)) by (by rewrite En).
  apply wps_bind, wps_rget. case_bool_decide as Hx.
  - apply Hdone; [done|]. right. left. split; [done|]. apply nothing_there; [done|]. rewrite En in Hx. cbn in Hx. by subst exts.
  - eapply wps_read_waits; [exact Hr1|by rewrite Hs1|done|by rewrite En|done].
Qed.

Lemma wps_parent_answer s res :
  reading RBD_OBJ_READ_PARENT (o_req s) → parent_covers (or_img_extents (o_req s)) → object = None → lo <= res <= 0 →
  (let d := parent_bytes parent (or_img_extents (o_req s)) in or_data (o_req s) = d ++ drop (length d) (or_data (o_req s))) →
  wps (advance_read err dev img res) s (λ o s', match o with inl _ => False | inr x => read_done x s' end).
Proof.
  intros Hr Hpe Hnone Hres Hd. pose proof Hr as (Hex & Hst & Hdata). unfold advance_read. apply wps_bind, wps_rget.
  rewrite Hst. cbv zeta. rewrite Hex. destruct (length_parent_bytes _ Hpe) as [Hlb Hle].
  set (d := parent_bytes parent _) in *. pose proof (asked_by (view object) d ltac:(lia) (λ i, view_from_parent _ i Hnone Hpe)) as Hask.
  destruct (Z.eqb_spec res 0) as [->|Hne].
  2:{ apply wps_bind, wps_ret, wps_ret. split; [done|]. cbn. split; [done|lia]. }
  unfold rbd_obj_img_extents_bytes. rewrite extents_bytes_eq by (apply Hpe || lia). rewrite u32_small, <- Hlb by lia.
  apply wps_bind. destruct (Z.ltb_spec (Z.of_nat (length d)) (oe_len ex)) as [Hlt|Hge].
  - eapply wps_zero_range; [exact Hr|lia..|]. apply wps_ret. split; [done|]. split; [done|]. intros _.
    cbn [o_req set_data or_data]. by rewrite Hd, Nat2Z.id, take_app_length.
  - apply wps_ret, wps_ret. split; [done|]. split; [done|]. intros _. unfold asked. rewrite <- Hask, Hd.
    rewrite drop_ge, app_nil_r by lia. replace (oe_len ex - Z.of_nat (length d)) with 0 by lia. by rewrite app_nil_r.
Qed.

(** [__rbd_obj_handle_request] asserts that a result is an error or 0. *)
Lemma wps_handle_read res s (Q : bool * Z → ost → Prop) :
  wps (again 2 (advance_read err dev img) res) s (λ x s', (x.1 = true → x.2 <= 0) ∧ Q x s') →
  wps (obj_handle err img dev res) s Q.
Proof.
  intros H. unfold obj_handle, rbd_obj_handle_request_, rbd_img_is_write. rewrite Hop. apply wps_bind.
  eapply wps_mono; [exact H|]. intros [done r] s' [Hr HQ]. apply wps_bind, wps_lift.
  assert (negb (done && nonzero r) || (r <? 0) = true) as ->; [|exact HQ].
  destruct done; [|done]. specialize (Hr eq_refl). cbn in Hr. unfold nonzero.
  destruct (Z.eqb_spec r 0); [done|]. apply Z.ltb_lt. lia.
Qed.

Lemma wps_read_start s :
  reading RBD_OBJ_READ_START (o_req s) → or_img_extents (o_req s) = [] → o_sent s = [] →
  wps (obj_handle err img dev 0) s
    (λ x s', read_done x s' ∨ x.1 = false ∧ (object_waits s' ∨ parent_waits 0 s')).
Proof.
  intros Hr Hnil Hs. apply wps_handle_read, wps_again. pose proof Hr as (Hex & Hst & Hdata).
  unfold advance_read at 1. apply wps_bind, wps_rget. rewrite Hst. apply wps_bind, wps_lift. cbn [Z.eqb require wp].
  apply wps_bind. eapply wps_mono; [by eapply wps_may_exist|]. intros may s1 (Hs1 & Hr1 & Hx1 & Hmay).
  destruct may; cbn [negb].
  - apply wps_bind. eapply wps_mono; [by eapply wps_read_object|]. intros ret s2 [[Hret Hg]|[-> (r & -> & Hs2 & n & En)]].
    + apply (wps_check lo); [lia| |lia]. intros. split; [cbn; lia|]. left. split; [done|]. cbn. lia.
    + apply wps_branch; [done|done|intros _]. apply wps_bind, wps_rmodify, wps_ret. split; [done|]. right. split; [done|]. left.
      unfold object_waits. cbn [o_req o_sent]. rewrite En, Hs2, Hs1, Hs. split; [by destruct Hr1 as (? & _ & ?)|]. by rewrite <- Hnil, <- Hx1.
  - apply wps_bind, wps_rmodify. apply wps_ret. cbv iota. apply wps_again.
    eapply wps_mono; [apply (wps_object_answer (- ENOENT) _ 0)|].
    + by destruct Hr1 as (? & _ & ?).
    + cbn. by rewrite Hx1.
    + cbn. by rewrite Hs1, Hs.
    + right. left. by split; [|apply Hmay].
    + intros [?|x] s2 H; [done|]. split.
      * intros Hx. destruct H as [(_ & Hle & _)|[H _]]; [apply Hle|by rewrite H in Hx].
      * destruct H as [H|H]; [by left|]. right. split; [apply H|right; apply H].
Qed.

Lemma wps_serve_parent fuel n s :
  lo <= parent_result <= 0 → parent_waits n s →
  wps (serve_reads read objects parent parent_result err dev img (S fuel) n) s
    (λ x s', lo <= x <= 0 ∧ (x = 0 → or_data (o_req s') = asked)).
Proof.
  intros Hp (Hr & Hpe & Hnone & _ & Hsent). rewrite serve_reads_S. apply wps_bind. unfold sget, wps at 1. cbn [wp].
  rewrite Hsent. apply wps_bind, wps_lift. cbn [deref wp]. apply wps_bind, wps_lift. cbn [answer wp].
  apply wps_bind, wps_rmodify, wps_bind, wps_handle_read, wps_again. destruct (length_parent_bytes _ Hpe) as [Hlb Hle].
  eapply wps_mono; [apply wps_parent_answer; [|done..|]|].
  - destruct Hr as (? & ? & Hl). split; [done|]. split; [done|]. cbn. rewrite length_app, length_drop. lia.
  - cbn [o_req fill set_data or_data or_img_extents]. by rewrite drop_app_length.
  - intros [?|[[] x]] s' H; [done| |by destruct H]. destruct H as (_ & Hx & Hd). split; [intros _; apply Hx|].
    apply wps_ret. by split.
Qed.

Lemma osd_answers : ∃ res d,
  read (CEPH_OSD_OP_READ (oe_off ex) (oe_len ex)) object = (res, d) ∧ osd_result img res = res ∧
  Z.of_nat (length d) <= oe_len ex ∧
  ∀ s, or_data (o_req s) = d ++ drop (length d) (or_data (o_req s)) → answered res s.
Proof.
  assert (Hid : ∀ res, osd_result img res = res).
  { intros res. unfold osd_result, rbd_img_is_write. by rewrite Hop, andb_false_r. }
  destruct (Hread (oe_off ex) (oe_len ex) object) as [(e & He & Hr & Hne)|Ho].
  { exists e, []. split; [done|]. split; [done|]. split; [simpl; lia|]. intros s _. by left. }
  destruct object as [b|] eqn:Hb.
  - eexists _, _. split; [exact Ho|]. split; [done|]. split; [rewrite length_take; lia|]. intros s Hd. right. right.
    split; [rewrite length_take; lia|]. eexists. split; [exact Hd|]. split; [done|]. intros i Hi. rewrite Hb.
    cbn [RbdWorld.view]. unfold byte_of. rewrite !nth_lookup, lookup_take_lt, lookup_drop by lia. do 2 f_equal. lia.
  - exists (- ENOENT), []. split; [done|]. split; [done|]. split; [simpl; lia|]. intros s _. right. by left.
Qed.

Lemma wps_serve_object s :
  lo <= parent_result <= 0 → object_waits s →
  wps (serve_reads read objects parent parent_result err dev img 2 0) s
    (λ x s', lo <= x <= 0 ∧ (x = 0 → or_data (o_req s') = asked)).
Proof.
  intros Hp ((Hex & Hst & Hdata) & Hnil & Hsent). rewrite serve_reads_S. apply wps_bind. unfold sget at 1, wps at 1. cbn [wp].
  rewrite Hsent. apply wps_bind, wps_lift. cbn [lookup list_lookup deref wp]. apply wps_bind, wps_lift.
  unfold read_request, answer. cbn [r_ops omap list_omap id r_snapid].
  destruct osd_answers as (res & d & -> & -> & Hld & Hans). cbn [wp].
  apply wps_bind, wps_rmodify, wps_bind, wps_handle_read, wps_again.
  eapply wps_mono; [apply (wps_object_answer res _ 1)|].
  - split; [done|]. split; [done|]. cbn. rewrite length_app, length_drop. lia.
  - done.
  - cbn. by rewrite Hsent.
  - apply Hans. cbn [o_req fill set_data or_data]. by rewrite drop_app_length.
  - intros [?|x] s' H; [done|]. split.
    + intros Hx. destruct H as [(_ & Hle & _)|[H _]]; [apply Hle|by rewrite H in Hx].
    + destruct H as [(Hx & Hle & Hd)|[Hx Hw]]; destruct x as [dn x]; cbn in Hx; subst dn.
      * apply wps_ret. by split.
      * by apply wps_serve_parent.
Qed.

Lemma wps_run_read data :
  lo <= parent_result <= 0 → Z.of_nat (length data) = oe_len ex →
  wps (run_read read objects parent parent_result err dev img) (Ost (fresh ex data) [] 0)
    (λ x s', lo <= x <= 0 ∧ (x = 0 → or_data (o_req s') = asked)).
Proof.
  intros Hp Hdata. unfold run_read, rbd_obj_init. rewrite Hop. apply wps_bind.
  unfold rbd_obj_init_read. apply wps_bind, wps_rmodify, wps_ret. cbn [nonzero Z.eqb negb].
  apply wps_bind. eapply wps_mono; [by apply wps_read_start|].
  intros [dn x] s' [(Hx & Hle & Hd)|[Hx [Hw|Hw]]]; cbn in Hx; subst dn.
  - apply wps_ret. by split.
  - by apply wps_serve_object.
  - by apply wps_serve_parent.
Qed.

End proofs.

(** C34: A read of bytes of an object, at any snapshot, whatever calls in the kernel fail and
    whatever errors the OSD and the parent image return: it hits no assertion and completes with
    an error, or with 0 and exactly the bytes the image has there in the data buffer: those of the object, zeros
    behind its end, or, when there is no object, those of the parent up to the overlap and zeros
    behind it.  If nothing fails it completes with 0. *)
Theorem rbd_obj_read_returns read (objects : Z → option (list Z)) (parent : Z → Z) (parent_result : Z)
    (err : nat → Z) (dev : rbd_device) (img : img_info) (ex : ceph_object_extent) (data : list Z)
    (Hread : OsdReads (- MAX_ERRNO) read) (Herr : ∀ n, - MAX_ERRNO <= err n <= 0)
    (Hparent : - MAX_ERRNO <= parent_result <= 0)
    (Hop : ir_op_type img = OBJ_OP_READ) (Htype : ir_data_type img ≠ OBJ_REQUEST_NODATA)
    (Hroom : room (rd_layout dev) (oe_objno ex)) (Hwithin : within (rd_layout dev) ex) (Hlen : oe_len ex < 2 ^ 31)
    (Hoverlap : 0 <= rd_parent_overlap dev) (Hmap : map_agrees objects dev img ex)
    (Hdata : Z.of_nat (length data) = oe_len ex) :
  ∃ result s, run_read read objects parent parent_result err dev img (Ost (fresh ex data) [] 0) = Ret (result, s) ∧
    - MAX_ERRNO <= result <= 0 ∧
    (result = 0 → or_data (o_req s) =
       view dev (oe_objno ex) parent (objects (ir_snap_id img)) <$> seqZ (oe_off ex) (oe_len ex)) ∧
    (OsdReads 0 read → (∀ n, err n = 0) → parent_result = 0 → result = 0).
Proof.
  destruct Hwithin as (Ho & Hl & He).
  pose proof (wps_run_read (- MAX_ERRNO) objects parent parent_result err dev img ex (any_error err Herr) Hop Htype
    Hroom Ho (conj Hl Hlen) He Hoverlap Hmap data Hparent Hdata) as H.
  apply wp_exists in H as ([result s] & Hrun & Hr & Hok). exists result, s. split; [done|]. split; [done|]. split; [done|].
  intros Hread0 Herr0 ->.
  pose proof (wps_run_read 0 objects parent 0 err dev img ex (no_error err Herr0) Hop Htype
    Hroom Ho (conj Hl Hlen) He Hoverlap Hmap data (conj (Z.le_refl 0) (Z.le_refl 0)) Hdata) as H.
  unfold wps in H. rewrite Hrun in H. cbn [wp] in H. lia.
Qed.

(** ** A read of a clone, and one past the end of an object *)

Definition ex_read (op : osd_op) (o : option (list Z)) : Z * list Z :=
  match op, o with
  | CEPH_OSD_OP_READ off len, Some b =>
      let d := take (Z.to_nat len) (drop (Z.to_nat off) b) in (Z.of_nat (length d), d)
  | _, _ => (- ENOENT, [])
  end.
#[export] Instance ex_reads lo : OsdReads lo ex_read.
Proof. intros off len [b|]; by right. Qed.

Definition ex_read_image : img_info := ImgInfo OBJ_OP_READ OBJ_REQUEST_BIO CEPH_NOSNAP [].

Lemma ex_map_agrees : map_agrees (λ _, None) ex_device ex_read_image ex_extent.
Proof. intros _. split; [by apply ex_map_ok|done]. Qed.

Lemma rbd_obj_read_returns_witness :
  ∃ s, run_read ex_read (λ _, None) (λ f, f + 100) 0 (λ _, 0) ex_device ex_read_image
      (Ost (fresh ex_extent [0; 0; 0]) [] 0) = Ret (0, s) ∧ or_data (o_req s) = [104; 105; 106].
Proof.
  destruct (rbd_obj_read_returns ex_read (λ _, None) (λ f, f + 100) 0 (λ _, 0) ex_device ex_read_image
              ex_extent [0; 0; 0]) as (result & s & Hrun & _ & Hok & H0).
  { exact (ex_reads _). } { unfold MAX_ERRNO. lia. } { unfold MAX_ERRNO. lia. } { done. } { done. } { exact ex_room. } { done. }
  { done. } { done. } { exact ex_map_agrees. } { done. }
  assert (result = 0) as -> by (apply H0; [exact (ex_reads 0)|done|done]).
  exists s. split; [exact Hrun|]. by rewrite Hok.
Defined.

Example read_past_the_end :
  let ex := {| oe_objno := 2; oe_off := 2; oe_len := 4 |} in
  ∃ s, run_read ex_read (λ _, Some [1; 2; 3]) (λ f, f + 100) 0 (λ _, 0) ex_device ex_read_image
      (Ost (fresh ex [9; 9; 9; 9]) [] 0) = Ret (0, s) ∧ or_data (o_req s) = [3; 0; 0; 0].
Proof. eexists. split; [by vm_compute|done]. Qed.
