(* ===== verification/RbdImage.v ===== *)
(** * RBD image requests and the exclusive lock (rbd/rbd.c)

    [rbd_img_advance], the lists of requests that wait for the lock or run under it, and what
    acquires and releases it.  A function runs with [lock_rwsem] held as the code says; the state is
    what the lock protects, with the image requests and the queued works. *)
From S2P Require Import Prelude Striper Hash Crush Mapper Choose DoRule Workspace OsdMap Decode.
From S2P Require Import Rbd RbdObject RbdMachine.

Definition EBUSY : Z := 16.
Definition ETIMEDOUT : Z := 110.
Definition EBLOCKLISTED : Z := 108.
Definition EOPNOTSUPP : Z := 95.

(** ** Data *)

Inductive rbd_img_state :=
  | RBD_IMG_START
  | RBD_IMG_EXCLUSIVE_LOCK
  | RBD_IMG_OBJECT_REQUESTS_
  | RBD_IMG_OBJECT_REQUESTS.
#[export] Instance rbd_img_state_eq_dec : EqDecision rbd_img_state.
Proof. solve_decision. Defined.

(** An image request.  [iq_objs] has for each object request what [__rbd_obj_handle_request]
    says when it is started: completed with a result, or not yet.  [iq_work] is [work_result] while the
    work is queued. *)
Record img_req := ImgReq {
  iq_op : obj_operation_type; iq_state : rbd_img_state; iq_pending : pending_result;
  iq_objs : list (option Z); iq_work : option Z }.

(** [struct rbd_client_id]: gid and handle. *)
Definition client_id : Type := Z * Z.
Definition rbd_empty_cid : client_id := (0, 0).
Definition rbd_cid_equal (lhs rhs : client_id) : bool := (lhs.1 =? rhs.1) && (lhs.2 =? rhs.2).

(** The works of [task_wq] that are queued.  What becomes of [released_work] is told apart: when it
    has run, its notification is on the way, and comes back ([No_notice]) or is lost: the result
    of [ceph_osdc_notify] is ignored. *)
Inductive notice := No_notice | Notice_queued | Notice_sent | Notice_lost.
#[export] Instance notice_eq_dec : EqDecision notice.
Proof. solve_decision. Defined.
Record works := Works { lock_dwork : bool; unlock_work : bool; acquired_work : bool; released_work : notice }.

(** [ls_cid] is what [rbd_get_cid] gives; [ls_releasing] counts the [complete]s of
    [releasing_wait] that nothing has waited for; requests that have ended are in [ls_ended] with their results. *)
Record lstate := LState {
  ls_dev : rbd_device; ls_cid : client_id; ls_owner : client_id;
  ls_acquiring : list nat; ls_running : list nat;
  ls_acquire_done : bool; ls_acquire_err : Z; ls_releasing : nat;
  ls_works : works;
  ls_reqs : gmap nat img_req; ls_ended : list (nat * Z) }.

Definition L (A : Type) : Type := lstate → outcome (A * lstate).
#[export] Instance L_ret : MRet L := λ A a s, Ret (a, s).
#[export] Instance L_bind : MBind L := λ A B f m s, '(a, s) ← m s; f a s.
Definition llift {A} (m : outcome A) : L A := λ s, a ← m; Ret (a, s).
Definition lget : L lstate := λ s, Ret (s, s).
Definition lmodify (f : lstate → lstate) : L unit := λ s, Ret (tt, f s).

Definition set_dev (dev : rbd_device) (s : lstate) : lstate :=
  LState dev (ls_cid s) (ls_owner s) (ls_acquiring s) (ls_running s) (ls_acquire_done s)
    (ls_acquire_err s) (ls_releasing s) (ls_works s) (ls_reqs s) (ls_ended s).
Definition set_owner (cid : client_id) (s : lstate) : lstate :=
  LState (ls_dev s) (ls_cid s) cid (ls_acquiring s) (ls_running s) (ls_acquire_done s)
    (ls_acquire_err s) (ls_releasing s) (ls_works s) (ls_reqs s) (ls_ended s).
Definition set_lists (acquiring running : list nat) (s : lstate) : lstate :=
  LState (ls_dev s) (ls_cid s) (ls_owner s) acquiring running (ls_acquire_done s)
    (ls_acquire_err s) (ls_releasing s) (ls_works s) (ls_reqs s) (ls_ended s).
Definition set_acquire (err : Z) (s : lstate) : lstate :=
  LState (ls_dev s) (ls_cid s) (ls_owner s) (ls_acquiring s) (ls_running s) true
    err (ls_releasing s) (ls_works s) (ls_reqs s) (ls_ended s).
Definition set_releasing (n : nat) (s : lstate) : lstate :=
  LState (ls_dev s) (ls_cid s) (ls_owner s) (ls_acquiring s) (ls_running s) (ls_acquire_done s)
    (ls_acquire_err s) n (ls_works s) (ls_reqs s) (ls_ended s).
Definition set_works (w : works) (s : lstate) : lstate :=
  LState (ls_dev s) (ls_cid s) (ls_owner s) (ls_acquiring s) (ls_running s) (ls_acquire_done s)
    (ls_acquire_err s) (ls_releasing s) w (ls_reqs s) (ls_ended s).
Definition set_reqs (m : gmap nat img_req) (s : lstate) : lstate :=
  LState (ls_dev s) (ls_cid s) (ls_owner s) (ls_acquiring s) (ls_running s) (ls_acquire_done s)
    (ls_acquire_err s) (ls_releasing s) (ls_works s) m (ls_ended s).
Definition set_ended (l : list (nat * Z)) (s : lstate) : lstate :=
  LState (ls_dev s) (ls_cid s) (ls_owner s) (ls_acquiring s) (ls_running s) (ls_acquire_done s)
    (ls_acquire_err s) (ls_releasing s) (ls_works s) (ls_reqs s) l.

Definition set_lock_dwork (b : bool) (w : works) : works :=
  Works b (unlock_work w) (acquired_work w) (released_work w).
Definition set_unlock_work (b : bool) (w : works) : works :=
  Works (lock_dwork w) b (acquired_work w) (released_work w).
Definition set_acquired_work (b : bool) (w : works) : works :=
  Works (lock_dwork w) (unlock_work w) b (released_work w).
Definition set_released_work (b : notice) (w : works) : works :=
  Works (lock_dwork w) (unlock_work w) (acquired_work w) b.
Definition queue (f : works → works) : L unit := lmodify (λ s, set_works (f (ls_works s)) s).
Definition set_state_lock (st : rbd_lock_state) : L unit :=
  lmodify (λ s, set_dev (set_lock_state (ls_dev s) st) s).

Definition get_req (id : nat) : L img_req := s ← lget; llift (deref (ls_reqs s !! id)).
Definition put_req (id : nat) (r : img_req) : L unit := lmodify (λ s, set_reqs (<[id := r]> (ls_reqs s)) s).
Definition set_img_state (st : rbd_img_state) (r : img_req) : img_req :=
  ImgReq (iq_op r) st (iq_pending r) (iq_objs r) (iq_work r).
Definition set_img_pending (p : pending_result) (r : img_req) : img_req :=
  ImgReq (iq_op r) (iq_state r) p (iq_objs r) (iq_work r).
Definition set_img_work (w : option Z) (r : img_req) : img_req :=
  ImgReq (iq_op r) (iq_state r) (iq_pending r) (iq_objs r) w.

(** ** Image requests *)

Definition need_exclusive_lock (dev : rbd_device) (r : img_req) : bool :=
  if negb (has (rd_features dev) RBD_FEATURE_EXCLUSIVE_LOCK) then false
  else if rbd_is_ro dev then false
  else if rd_lock_on_read dev || has (rd_features dev) RBD_FEATURE_OBJECT_MAP then true
  else match iq_op r with OBJ_OP_READ => false | _ => true end.

Definition on_list (id : nat) (s : lstate) : bool :=
  bool_decide (id ∈ ls_acquiring s) || bool_decide (id ∈ ls_running s).

Definition rbd_lock_add_request (id : nat) : L bool :=
  s ← lget;
  let locked := bool_decide (rd_lock_state (ls_dev s) = RBD_LOCK_STATE_LOCKED) in
  _ ← llift (require (negb (on_list id s)));
  _ ← lmodify (if locked then set_lists (ls_acquiring s) (ls_running s ++ [id])
               else set_lists (ls_acquiring s ++ [id]) (ls_running s));
  mret locked.

Definition without (id : nat) (l : list nat) : list nat := filter (λ x, x ≠ id) l.
Definition rbd_lock_del_request (id : nat) : L unit :=
  s ← lget;
  _ ← llift (require (on_list id s));
  let running := without id (ls_running s) in
  _ ← lmodify (set_lists (without id (ls_acquiring s)) running);
  if bool_decide (rd_lock_state (ls_dev s) = RBD_LOCK_STATE_RELEASING) && bool_decide (running = [])
  then lmodify (λ s, set_releasing (S (ls_releasing s)) s)
  else mret tt.

Definition rbd_img_exclusive_lock (id : nat) : L Z :=
  s ← lget; r ← get_req id;
  if negb (need_exclusive_lock (ls_dev s) r) then mret 1
  else
    locked ← rbd_lock_add_request id;
    if locked : bool then mret 1
    else if rd_exclusive (ls_dev s) then mret (- EROFS)
    else _ ← queue (set_lock_dwork true); mret 0.

(** Started one after the other; an error ends that. *)
Fixpoint start_objects (objs : list (option Z)) (p : pending_result) : pending_result :=
  match objs with
  | [] => p
  | Some result :: objs =>
      if nonzero result then PendingResult result (pr_num_pending p) else start_objects objs p
  | None :: objs => start_objects objs (PendingResult (pr_result p) (pr_num_pending p + 1))
  end.
Definition rbd_img_object_requests (id : nat) : L unit :=
  r ← get_req id;
  _ ← llift (require ((pr_result (iq_pending r) =? 0) && (pr_num_pending (iq_pending r) =? 0)));
  put_req id (set_img_pending (start_objects (iq_objs r) (iq_pending r)) r).

(** [goto again] *)
Fixpoint img_again (fuel : nat) (pass : Z → L (Z + (bool * Z))) (result : Z) : L (bool * Z) := λ s,
  match fuel with
  | O => NoFuel
  | S n => '(o, s) ← pass result s;
           match o with inl result => img_again n pass result s | inr r => Ret (r, s) end
  end.

Definition img_advance (id : nat) (result : Z) : L (Z + (bool * Z)) :=
  r ← get_req id;
  match iq_state r with
  | RBD_IMG_START =>
      _ ← llift (require (result =? 0));
      ret ← rbd_img_exclusive_lock id;
      if ret <? 0 then mret (inr (true, ret))
      else
        _ ← put_req id (set_img_state RBD_IMG_EXCLUSIVE_LOCK r);
        if ret >? 0 then mret (inl result) else mret (inr (false, result))
  | RBD_IMG_EXCLUSIVE_LOCK =>
      if nonzero result then mret (inr (true, result))
      else
        s ← lget;
        _ ← llift (require (negb (need_exclusive_lock (ls_dev s) r) || rbd_is_lock_owner (ls_dev s)));
        _ ← rbd_img_object_requests id;
        r ← get_req id;
        if pr_num_pending (iq_pending r) =? 0 then
          _ ← put_req id (set_img_state RBD_IMG_OBJECT_REQUESTS r);
          mret (inl (pr_result (iq_pending r)))
        else
          _ ← put_req id (set_img_state RBD_IMG_OBJECT_REQUESTS_ r);
          mret (inr (false, result))
  | RBD_IMG_OBJECT_REQUESTS_ =>
      '(o, p) ← llift (pending_result_dec (iq_pending r) result);
      _ ← put_req id (set_img_pending p r);
      match o with None => mret (inr (false, result)) | Some result => mret (inr (true, result)) end
  | RBD_IMG_OBJECT_REQUESTS => mret (inr (true, result))
  end.
Definition rbd_img_advance (id : nat) (result : Z) : L (bool * Z) := img_again 3 (img_advance id) result.

Definition rbd_img_handle_request_ (id : nat) (result : Z) : L (bool * Z) :=
  s ← lget; r ← get_req id;
  '(done, result) ← rbd_img_advance id result;
  _ ← (if need_exclusive_lock (ls_dev s) r && (done : bool) then rbd_lock_del_request id else mret tt);
  _ ← llift (require (negb (done && nonzero result) || (result <? 0)));
  mret (done, result).

(** Ended requests are destroyed. *)
Definition rbd_img_handle_request (id : nat) (result : Z) : L unit :=
  '(done, result) ← rbd_img_handle_request_ id result;
  if done : bool then lmodify (λ s, set_ended (ls_ended s ++ [(id, result)]) (set_reqs (delete id (ls_reqs s)) s))
  else mret tt.

(** The work must not be queued already. *)
Definition rbd_img_schedule (id : nat) (result : Z) : L unit :=
  r ← get_req id;
  _ ← llift (require (bool_decide (iq_work r = None)));
  put_req id (set_img_work (Some result) r).
Definition rbd_img_handle_request_work (id : nat) : L unit :=
  r ← get_req id;
  result ← llift (deref (iq_work r));
  _ ← put_req id (set_img_work None r);
  rbd_img_handle_request id result.
