(* ===== verification/RbdLock.v ===== *)
(** * Acquiring and releasing the exclusive lock (rbd/rbd.c)

    What [task_wq] runs, one work after the other, and what watch notifications do.  The answers
    of the cluster are arguments. *)
From S2P Require Import Prelude Striper Hash Crush Mapper Choose DoRule Workspace OsdMap Decode.
From S2P Require Import Rbd RbdObject RbdMachine RbdImage.

Fixpoint forL {A} (l : list A) (f : A → L unit) : L unit :=
  match l with [] => mret tt | x :: l => _ ← f x; forL l f end.

Definition wake_lock_waiters (result : Z) : L unit :=
  _ ← queue (set_lock_dwork false);
  s ← lget;
  if negb (ls_acquire_done s) then
    _ ← llift (require (bool_decide (ls_acquiring s = []) && bool_decide (ls_running s = [])));
    lmodify (set_acquire result)
  else
    _ ← forL (ls_acquiring s) (λ id,
          r ← get_req id;
          _ ← llift (require (bool_decide (iq_state r = RBD_IMG_EXCLUSIVE_LOCK)));
          rbd_img_schedule id result);
    lmodify (λ s, set_lists [] (ls_running s ++ ls_acquiring s) s).

Definition rbd_lock_ : L unit :=
  _ ← set_state_lock RBD_LOCK_STATE_LOCKED;
  _ ← lmodify (λ s, set_owner (ls_cid s) s);
  queue (set_acquired_work true).
(** [ret] is what [ceph_cls_lock] returns. *)
Definition rbd_lock (ret : Z) : L Z :=
  if nonzero ret then mret ret else _ ← rbd_lock_; mret 0.
(** Errors of [ceph_cls_unlock] are ignored. *)
Definition rbd_unlock : L unit :=
  _ ← set_state_lock RBD_LOCK_STATE_UNLOCKED;
  _ ← lmodify (set_owner rbd_empty_cid);
  queue (set_released_work Notice_queued).

(** One turn of the loop: [ceph_cls_lock]; [get_lock_owner_info] with the number of lockers;
    [find_watcher] with the client it has found; [ceph_monc_blocklist_add]; [ceph_cls_break_lock]. *)
Record try_round := TryRound {
  tr_lock : Z; tr_info : Z; tr_num_lockers : Z; tr_watcher : Z; tr_cid : client_id;
  tr_blocklist : Z; tr_break : Z }.

(** There is no fuel for turns without answers. *)
Fixpoint rbd_try_lock (rounds : list try_round) : L Z :=
  match rounds with
  | [] => llift NoFuel
  | t :: rounds =>
      ret ← rbd_lock (tr_lock t);
      if negb (ret =? - EBUSY) then mret ret
      else if nonzero (tr_info t) then mret (tr_info t)
      else if tr_num_lockers t =? 0 then rbd_try_lock rounds
      else
        _ ← (if tr_watcher t =? 1 then lmodify (set_owner (tr_cid t)) else mret tt);
        if nonzero (tr_watcher t) then mret (tr_watcher t)
        else if nonzero (tr_blocklist t) then mret (tr_blocklist t)
        else if nonzero (tr_break t) && negb (tr_break t =? - ENOENT) then mret (tr_break t)
        else rbd_try_lock rounds
  end.

(** What [rbd_object_map_open] comes to: an error, or a map. *)
Definition map_answer : Type := Z + list Z * Z.
Definition rbd_post_acquire_action (open : map_answer) : L Z :=
  s ← lget;
  if has (rd_features (ls_dev s)) RBD_FEATURE_OBJECT_MAP then
    match open with
    | inl ret => mret ret
    | inr (m, size) =>
        _ ← llift (require (bool_decide (rd_object_map (ls_dev s) = None) && (rd_object_map_size (ls_dev s) =? 0)));
        _ ← lmodify (set_dev (set_object_map (ls_dev s) (Some m) size)); mret 0
    end
  else mret 0.
Definition rbd_pre_release_action : L unit :=
  s ← lget;
  if has (rd_features (ls_dev s)) RBD_FEATURE_OBJECT_MAP
  then lmodify (set_dev (set_object_map (ls_dev s) None 0)) else mret tt.

(** 0: acquired, 1: the owner is to be asked, negative: an error. *)
Definition rbd_try_acquire_lock (rounds : list try_round) (open : map_answer) : L Z :=
  s ← lget;
  if rbd_is_lock_owner (ls_dev s) then mret 0
  else
    ret ← rbd_try_lock rounds;
    if ret =? - EBLOCKLISTED then _ ← wake_lock_waiters ret; mret ret
    else if nonzero ret then mret (if ret <? 0 then 1 else ret)
    else
      s ← lget;
      _ ← llift (require (bool_decide (rd_lock_state (ls_dev s) = RBD_LOCK_STATE_LOCKED)
                          && bool_decide (ls_running s = [])));
      ret ← rbd_post_acquire_action open;
      _ ← (if nonzero ret then rbd_unlock else mret tt);
      _ ← wake_lock_waiters ret;
      mret ret.

(** [rbd_acquire_lock] up to [rbd_request_lock]: whether it goes on. *)
Definition acquire_try (rounds : list try_round) (open : map_answer) : L bool :=
  ret ← rbd_try_acquire_lock rounds open;
  mret (negb (ret <=? 0)).
(** And from there: [ret] is its answer, whether to try again at once. *)
Definition acquire_answered (ret : Z) : L bool :=
  if ret =? - ETIMEDOUT then mret true
  else
    _ ← (if ret =? - EROFS then wake_lock_waiters ret else queue (set_lock_dwork true));
    mret false.

(** ** Releasing *)

(** Up to [wait_for_completion]: what is returned at once. *)
Definition rbd_quiesce_lock : L (option bool) :=
  s ← lget;
  if negb (bool_decide (rd_lock_state (ls_dev s) = RBD_LOCK_STATE_LOCKED)) then mret (Some false)
  else
    _ ← set_state_lock RBD_LOCK_STATE_RELEASING;
    _ ← llift (require (bool_decide (ls_releasing s = O)));
    if bool_decide (ls_running s = []) then mret (Some true) else mret None.
(** After it: [Undef] without a [complete]. *)
Definition rbd_quiesced : L bool :=
  s ← lget;
  match ls_releasing s with
  | O => llift Undef
  | S n =>
      _ ← lmodify (set_releasing n);
      if negb (bool_decide (rd_lock_state (ls_dev s) = RBD_LOCK_STATE_RELEASING)) then mret false
      else _ ← llift (require (bool_decide (ls_running s = []))); mret true
  end.

Definition rbd_release_lock_ : L unit :=
  s ← lget;
  _ ← llift (require (bool_decide (ls_running s = [])));
  _ ← rbd_pre_release_action;
  rbd_unlock.

(** The two that wait, and what they do then; [ret] is what [ceph_cls_set_cookie] returns. *)
Inductive quiescer := Release | Reacquire.
#[export] Instance quiescer_eq_dec : EqDecision quiescer.
Proof. solve_decision. Defined.
Definition after_quiesce (q : quiescer) (ret : Z) : L unit :=
  match q with
  | Release => _ ← rbd_release_lock_; queue (set_lock_dwork false)
  | Reacquire =>
      if nonzero ret then _ ← rbd_release_lock_; queue (set_lock_dwork true)
      else _ ← rbd_lock_; wake_lock_waiters 0
  end.
(** Whether it waits. *)
Definition quiesce (q : quiescer) (ret : Z) : L bool :=
  o ← rbd_quiesce_lock;
  match o with
  | None => mret true
  | Some ok => _ ← (if ok : bool then after_quiesce q ret else mret tt); mret false
  end.
Definition quiesce_resume (q : quiescer) (ret : Z) : L unit :=
  ok ← rbd_quiesced; if ok : bool then after_quiesce q ret else mret tt.

Definition rbd_dev_image_unlock : L unit :=
  s ← lget; if rbd_is_lock_owner (ls_dev s) then rbd_release_lock_ else mret tt.

(** ** Notifications *)

Definition maybe_kick_acquire : L unit :=
  s ← lget;
  if rbd_is_lock_owner (ls_dev s) then mret tt
  else if negb (bool_decide (ls_acquiring s = [])) || lock_dwork (ls_works s)
       then queue (set_lock_dwork true) else mret tt.

Definition rbd_handle_acquired_lock (cid : client_id) : L unit :=
  s ← lget;
  _ ← (if negb (rbd_cid_equal cid rbd_empty_cid) && negb (rbd_cid_equal cid (ls_owner s))
       then lmodify (set_owner cid) else mret tt);
  maybe_kick_acquire.
Definition rbd_handle_released_lock (cid : client_id) : L unit :=
  s ← lget;
  _ ← (if negb (rbd_cid_equal cid rbd_empty_cid) && rbd_cid_equal cid (ls_owner s)
       then lmodify (set_owner rbd_empty_cid) else mret tt);
  maybe_kick_acquire.
(** 1: no response is needed. *)
Definition rbd_handle_request_lock (cid : client_id) : L Z :=
  s ← lget;
  if rbd_cid_equal cid (ls_cid s) then mret 1
  else if negb (rbd_is_lock_owner (ls_dev s)) then mret 1
  else
    let locked := bool_decide (rd_lock_state (ls_dev s) = RBD_LOCK_STATE_LOCKED) in
    if locked && rbd_cid_equal (ls_owner s) rbd_empty_cid then mret 1
    else if locked then
      if negb (rd_exclusive (ls_dev s)) then _ ← queue (set_unlock_work true); mret 0
      else mret (- EROFS)
    else mret 0.

Definition rbd_watch_errcb : L unit := lmodify (set_owner rbd_empty_cid).
(** The watch is registered again; [ret] is the error or 0, [cid] the new client id. *)
Definition rbd_reregister_watch (ret : Z) (cid : client_id) (cookie : Z) : L bool :=
  if nonzero ret then
    _ ← (if (ret =? - EBLOCKLISTED) || (ret =? - ENOENT) then wake_lock_waiters ret else mret tt);
    mret false
  else
    _ ← lmodify (λ s, LState (ls_dev s) cid (ls_owner s) (ls_acquiring s) (ls_running s) (ls_acquire_done s)
                        (ls_acquire_err s) (ls_releasing s) (ls_works s) (ls_reqs s) (ls_ended s));
    s ← lget;
    if bool_decide (rd_lock_state (ls_dev s) = RBD_LOCK_STATE_LOCKED) then quiesce Reacquire cookie
    else mret false.
