(* ===== verification/RbdLockSafe.v ===== *)
(** * The exclusive lock protects what runs under it (rbd/rbd.c)

    Image requests, the works of [task_wq], notifications and watch errors in any order: nothing is in
    flight without the lock, no assertion fails but in two races, and nobody waits forever. *)
From S2P Require Import Prelude Striper Hash Crush Mapper Choose DoRule Workspace OsdMap Decode.
From S2P Require Import Rbd RbdObject RbdMachine RbdImage RbdLock.

(** ** Reasoning about the monad *)

Definition wpl {A} (m : L A) (s : lstate) (Q : A → lstate → Prop) : Prop := wp (m s) (λ '(a, s'), Q a s').

Section wpl.
Context {A B : Type}.
Implicit Types (s : lstate).
Lemma wpl_ret (a : A) s (Q : A → lstate → Prop) : Q a s → wpl (mret a) s Q.
Proof. done. Qed.
Lemma wpl_bind (m : L A) (f : A → L B) s Q : wpl m s (λ a s', wpl (f a) s' Q) → wpl (m ≫= f) s Q.
Proof. unfold wpl, mbind, L_bind. by destruct (m s) as [[a s']| |]. Qed.
Lemma wpl_mono (m : L A) s (P Q : A → lstate → Prop) : wpl m s P → (∀ a s', P a s' → Q a s') → wpl m s Q.
Proof. unfold wpl. intros Hm HPQ. eapply wp_mono; [exact Hm|]. intros [a s']. apply HPQ. Qed.
Lemma wpl_lift (m : outcome A) s (Q : A → lstate → Prop) : wp m (λ a, Q a s) → wpl (llift m) s Q.
Proof. unfold wpl, llift. by destruct m. Qed.
Lemma wpl_get s (Q : lstate → lstate → Prop) : Q s s → wpl lget s Q.
Proof. done. Qed.
Lemma wpl_modify f s (Q : unit → lstate → Prop) : Q tt (f s) → wpl (lmodify f) s Q.
Proof. done. Qed.
Lemma wpl_require b s (Q : unit → lstate → Prop) : b = true → Q tt s → wpl (llift (require b)) s Q.
Proof. by intros ->. Qed.
Lemma wpl_get_req id r s (Q : img_req → lstate → Prop) : ls_reqs s !! id = Some r → Q r s → wpl (get_req id) s Q.
Proof. intros H HQ. unfold wpl, get_req, mbind, L_bind, lget, llift. cbn. by rewrite H. Qed.
Lemma wpl_again n pass r s (Q : bool * Z → lstate → Prop) :
  wpl (pass r) s (λ o s', match o with inl r' => wpl (img_again n pass r') s' Q | inr x => Q x s' end) →
  wpl (img_again (S n) pass r) s Q.
Proof. intros H. unfold wpl in *. cbn [img_again]. destruct (pass r s) as [[[r'|x] s']| |]; exact H. Qed.
End wpl.

(** ** All that happens *)

(** What [task_wq] is doing: [Requesting] the lock of its owner, about to try again, or
    [Waiting] for what runs. *)
Inductive task_wq := Idle | Requesting | Retrying | Waiting (q : quiescer).
#[export] Instance task_wq_eq_dec : EqDecision task_wq.
Proof. solve_decision. Defined.

Record lsys := LSys { y_ls : lstate; y_task : task_wq }.

Inductive event :=
  | Submit (id : nat) (op : obj_operation_type) (objs : list (option Z))
  | Run_work (id : nat)
  | Object_done (id : nat) (result : Z)
  | Acquire (rounds : list try_round) (open : map_answer)
  | Answered (ret : Z)
  | Unlock
  | Reregister (ret : Z) (cid : client_id) (cookie : Z)
  | Resume (cookie : Z)
  | Acquired (cid : client_id)
  | Released (own : bool) (cid : client_id)
  | Notify_acquired
  | Notify_released
  | Notify_lost
  | Request_lock (cid : client_id)
  | Watch_error
  | Remove.

Definition new_req (op : obj_operation_type) (objs : list (option Z)) : img_req :=
  ImgReq op RBD_IMG_START (PendingResult 0 0) objs None.
Definition no_error (o : option Z) : Prop := match o with Some x => x <= 0 | None => True end.
Definition open_ok (open : map_answer) : Prop := match open with inl ret => ret < 0 | inr _ => True end.
Definition round_ok (t : try_round) : Prop :=
  tr_lock t <= 0 ∧ tr_info t <= 0 ∧ tr_watcher t <= 1 ∧ tr_blocklist t <= 0 ∧ tr_break t <= 0.
(** One of the turns is the last. *)
Fixpoint settles (rounds : list try_round) : bool :=
  match rounds with
  | [] => false
  | t :: rounds =>
      negb (tr_lock t =? - EBUSY) || nonzero (tr_info t)
      || negb (tr_num_lockers t =? 0)
         && (nonzero (tr_watcher t) || nonzero (tr_blocklist t)
             || nonzero (tr_break t) && negb (tr_break t =? - ENOENT))
      || settles rounds
  end.

(** When an event can happen.  No request comes before the image has been mapped. *)
Definition enabled (e : event) (y : lsys) : Prop :=
  let s := y_ls y in
  match e with
  | Submit id op objs =>
      ls_reqs s !! id = None ∧ Forall no_error objs ∧
      (need_exclusive_lock (ls_dev s) (new_req op objs) = true → ls_acquire_done s = true)
  | Run_work id => ∃ r res, ls_reqs s !! id = Some r ∧ iq_work r = Some res
  | Object_done id result =>
      result <= 0 ∧ ∃ r, ls_reqs s !! id = Some r ∧ iq_state r = RBD_IMG_OBJECT_REQUESTS_
  | Acquire rounds open =>
      (y_task y = Retrying ∨ y_task y = Idle ∧ lock_dwork (ls_works s) = true) ∧
      Forall round_ok rounds ∧ settles rounds = true ∧ open_ok open
  | Answered _ => y_task y = Requesting
  | Unlock => y_task y = Idle ∧ unlock_work (ls_works s) = true
  | Reregister ret _ _ => y_task y = Idle ∧ ret <= 0
  | Resume _ => (∃ q, y_task y = Waiting q) ∧ (0 < ls_releasing s)%nat
  | Acquired _ => True
  | Released own _ => own = true → released_work (ls_works s) = Notice_sent
  | Notify_acquired => y_task y = Idle ∧ acquired_work (ls_works s) = true
  | Notify_released => y_task y = Idle ∧ released_work (ls_works s) = Notice_queued
  | Notify_lost => released_work (ls_works s) = Notice_sent
  | Request_lock _ | Watch_error => True
  | Remove => y_task y = Idle ∧ ls_reqs s = ∅
  end.

(** [lock_dwork] runs or goes on: what was lost before is of no account now. *)
Definition acquire_runs (t : task_wq) (w : works) : works :=
  let w := if bool_decide (t = Retrying) then w else set_lock_dwork false w in
  if bool_decide (released_work w = Notice_lost) then set_released_work No_notice w else w.

(** [Released true] is the notification of this client that comes back to it; another client's may
    come at any time.  [Notify_lost] is one that does not come: the notify fails, or the
    watch is gone. *)
Definition lstep (e : event) (y : lsys) : outcome lsys :=
  let s := y_ls y in
  let t := y_task y in
  match e with
  | Submit id op objs =>
      '(_, s) ← rbd_img_handle_request id 0 (set_reqs (<[id := new_req op objs]> (ls_reqs s)) s); Ret (LSys s t)
  | Run_work id => '(_, s) ← rbd_img_handle_request_work id s; Ret (LSys s t)
  | Object_done id result => '(_, s) ← rbd_img_handle_request id result s; Ret (LSys s t)
  | Acquire rounds open =>
      let s := set_works (acquire_runs t (ls_works s)) s in
      '(request, s) ← acquire_try rounds open s; Ret (LSys s (if request : bool then Requesting else Idle))
  | Answered ret =>
      '(retry, s) ← acquire_answered ret s; Ret (LSys s (if retry : bool then Retrying else Idle))
  | Unlock =>
      '(waits, s) ← quiesce Release 0 (set_works (set_unlock_work false (ls_works s)) s);
      Ret (LSys s (if waits : bool then Waiting Release else Idle))
  | Reregister ret cid cookie =>
      '(waits, s) ← rbd_reregister_watch ret cid cookie s;
      Ret (LSys s (if waits : bool then Waiting Reacquire else Idle))
  | Resume cookie =>
      match t with
      | Waiting q => '(_, s) ← quiesce_resume q cookie s; Ret (LSys s Idle)
      | _ => Undef
      end
  | Acquired cid => '(_, s) ← rbd_handle_acquired_lock cid s; Ret (LSys s t)
  | Released own cid =>
      let s := if own : bool then set_works (set_released_work No_notice (ls_works s)) s else s in
      '(_, s) ← rbd_handle_released_lock cid s; Ret (LSys s t)
  | Notify_acquired => Ret (LSys (set_works (set_acquired_work false (ls_works s)) s) t)
  | Notify_released => Ret (LSys (set_works (set_released_work Notice_sent (ls_works s)) s) t)
  | Notify_lost => Ret (LSys (set_works (set_released_work Notice_lost (ls_works s)) s) t)
  | Request_lock cid => '(_, s) ← rbd_handle_request_lock cid s; Ret (LSys s t)
  | Watch_error => '(_, s) ← rbd_watch_errcb s; Ret (LSys s t)
  | Remove => '(_, s) ← rbd_dev_image_unlock s; Ret (LSys s t)
  end.

(** Before the lock is acquired for the first time, by mapping the image. *)
Definition lsys_init (dev : rbd_device) (cid : client_id) (s : lsys) : Prop :=
  rd_lock_state dev = RBD_LOCK_STATE_UNLOCKED ∧ rd_object_map dev = None ∧ rd_object_map_size dev = 0 ∧
  s = LSys (LState dev cid rbd_empty_cid [] [] false (- ETIMEDOUT) 0 (Works true false false No_notice) ∅ []) Idle.

(** The two races: the lock is taken while requests that were told of an error have not run;
    a request comes to a device mapped [exclusive] while the lock is released or taken anew. *)
Definition race (e : event) (y : lsys) : Prop :=
  let s := y_ls y in
  match e with
  | Acquire _ _ => rbd_is_lock_owner (ls_dev s) = false ∧ ls_running s ≠ []
  | Submit id op objs => rd_exclusive (ls_dev s) = true ∧ rd_lock_state (ls_dev s) = RBD_LOCK_STATE_RELEASING
  | _ => False
  end.

(** ** The invariant *)

Section lock.
Context (dev0 : rbd_device).
Implicit Types (s : lstate) (r : img_req) (id : nat).

(** What does not change of the device. *)
Definition same_conf (dev : rbd_device) : Prop :=
  rd_features dev = rd_features dev0 ∧ rd_readonly dev = rd_readonly dev0
  ∧ rd_lock_on_read dev = rd_lock_on_read dev0 ∧ rd_exclusive dev = rd_exclusive dev0.
Local Abbreviation need := (need_exclusive_lock dev0).
Local Abbreviation owner s := (rbd_is_lock_owner (ls_dev s) = true).
Local Abbreviation lock s := (rd_lock_state (ls_dev s)).

Lemma need_same dev r : same_conf dev → need_exclusive_lock dev r = need r.
Proof. intros (Hf & Hr & Hl & _). unfold need_exclusive_lock, rbd_is_ro. by rewrite Hf, Hr, Hl. Qed.

(** A request between two events: waiting for the lock, about to go on, or waiting for its
    object requests. *)
Record req_ok s id r : Prop := {
  rq_objs : Forall no_error (iq_objs r);
  rq_state :
    match iq_state r with
    | RBD_IMG_EXCLUSIVE_LOCK =>
        iq_pending r = PendingResult 0 0 ∧ need r = true ∧
        match iq_work r with
        | None => id ∈ ls_acquiring s
        | Some res => id ∈ ls_running s ∧ res <= 0 ∧ (res = 0 → owner s)
        end
    | RBD_IMG_OBJECT_REQUESTS_ =>
        0 < pr_num_pending (iq_pending r) ∧ pr_result (iq_pending r) <= 0 ∧ iq_work r = None ∧
        (need r = true → id ∈ ls_running s ∧ owner s)
    | _ => False
    end }.

Record inv (y : lsys) : Prop := {
  iv_conf : same_conf (ls_dev (y_ls y));
  iv_reqs : ∀ id r, ls_reqs (y_ls y) !! id = Some r → req_ok (y_ls y) id r;
  iv_lists : NoDup (ls_acquiring (y_ls y) ++ ls_running (y_ls y));
  iv_listed : ∀ id, id ∈ ls_acquiring (y_ls y) ++ ls_running (y_ls y) →
    ∃ r, ls_reqs (y_ls y) !! id = Some r ∧ need r = true;
  iv_locked : lock (y_ls y) = RBD_LOCK_STATE_LOCKED → ls_acquiring (y_ls y) = [];
  iv_task : lock (y_ls y) = RBD_LOCK_STATE_RELEASING ↔ ∃ q, y_task y = Waiting q;
  iv_releasing : ls_releasing (y_ls y) =
    if bool_decide (lock (y_ls y) = RBD_LOCK_STATE_RELEASING) && bool_decide (ls_running (y_ls y) = []) then 1%nat else 0%nat;
  iv_asking : y_task y = Requesting ∨ y_task y = Retrying → lock (y_ls y) = RBD_LOCK_STATE_UNLOCKED;
  iv_mapped : ls_acquire_done (y_ls y) = false → ls_acquiring (y_ls y) = [] ∧ ls_running (y_ls y) = [];
  iv_map : has (rd_features dev0) RBD_FEATURE_OBJECT_MAP = true →
    if rbd_is_lock_owner (ls_dev (y_ls y)) then rd_object_map (ls_dev (y_ls y)) ≠ None
    else rd_object_map (ls_dev (y_ls y)) = None ∧ rd_object_map_size (ls_dev (y_ls y)) = 0;
  iv_waiters : ls_acquiring (y_ls y) ≠ [] → y_task y = Idle →
    lock_dwork (ls_works (y_ls y)) = true ∨ released_work (ls_works (y_ls y)) ≠ No_notice }.

(** Membership, in terms of the requests. *)
Lemma acquiring_req y id : inv y → id ∈ ls_acquiring (y_ls y) →
  ∃ r, ls_reqs (y_ls y) !! id = Some r ∧ need r = true ∧ iq_state r = RBD_IMG_EXCLUSIVE_LOCK
       ∧ iq_pending r = PendingResult 0 0 ∧ iq_work r = None ∧ Forall no_error (iq_objs r).
Proof.
  intros Hy Hid. destruct (iv_listed _ Hy id ltac:(set_solver)) as (r & Hr & Hn). exists r. split; [done|]. split; [done|].
  destruct (iv_reqs _ Hy _ _ Hr) as [Ho Hst]. pose proof (iv_lists _ Hy) as Hd. apply NoDup_app in Hd as (_ & Hd & _).
  specialize (Hd id Hid). destruct (iq_state r); try done.
  - destruct Hst as (Hp & _ & Hw). destruct (iq_work r); [|done]. by destruct Hw.
  - destruct Hst as (_ & _ & _ & Hw). by destruct (Hw Hn).
Qed.

(** ** Requests *)

Lemma without_notin id (l : list nat) : id ∉ l → without id l = l.
Proof.
  intros H. unfold without. induction l as [|x l IH]; [done|]. apply not_elem_of_cons in H as [Hx Hl].
  rewrite filter_cons_True by done. by rewrite IH.
Qed.
Lemma elem_of_without id x (l : list nat) : x ∈ without id l ↔ x ∈ l ∧ x ≠ id.
Proof. unfold without. rewrite list_elem_of_filter. tauto. Qed.

Definition with_reqs (m : gmap nat img_req) (y : lsys) : lsys := LSys (set_reqs m (y_ls y)) (y_task y).

Lemma req_ok_mono s s' id r :
  (id ∈ ls_acquiring s → id ∈ ls_acquiring s') → (id ∈ ls_running s → id ∈ ls_running s') → (owner s → owner s') →
  req_ok s id r → req_ok s' id r.
Proof.
  intros Ha Hr Ho [Hobjs Hst]. split; [done|]. destruct (iq_state r); try done.
  - destruct Hst as (? & ? & Hw). split; [done|]. split; [done|]. destruct (iq_work r); naive_solver.
  - naive_solver.
Qed.

(** A request changes, or comes and is on no list. *)
Lemma inv_put y id r :
  inv y → req_ok (y_ls y) id r → (id ∈ ls_acquiring (y_ls y) ++ ls_running (y_ls y) → need r = true) →
  inv (with_reqs (<[id := r]> (ls_reqs (y_ls y))) y).
Proof.
  intros [] Hok Hn. split; cbn; try done.
  - intros id' r2 [[<- <-]|[Hne H]]%lookup_insert_Some; [by apply (req_ok_mono (y_ls y))|by apply (req_ok_mono (y_ls y)), iv_reqs0].
  - intros id' Hid. destruct (decide (id' = id)) as [->|Hne].
    + rewrite lookup_insert_eq. exists r. split; [done|]. by apply Hn.
    + rewrite lookup_insert_ne by done. by apply iv_listed0.
Qed.

(** A request that is on no list goes. *)
Lemma inv_delete y id :
  inv y → id ∉ ls_acquiring (y_ls y) ++ ls_running (y_ls y) → inv (with_reqs (delete id (ls_reqs (y_ls y))) y).
Proof.
  intros [] Hid. split; cbn; try done.
  - intros id' r [Hne H]%lookup_delete_Some. by apply (req_ok_mono (y_ls y)), iv_reqs0.
  - intros id' Hin. destruct (iv_listed0 id' Hin) as (r & Hr & Hn). exists r. split; [|done].
    rewrite lookup_delete_ne by (by intros <-). done.
Qed.

(** A request that has run goes, and the one that waits for the last of them is told. *)
Definition ran (id : nat) (s : lstate) : lstate :=
  let running := without id (ls_running s) in
  let n := if bool_decide (lock s = RBD_LOCK_STATE_RELEASING) && bool_decide (running = [])
           then S (ls_releasing s) else ls_releasing s in
  set_releasing n (set_reqs (delete id (ls_reqs s)) (set_lists (ls_acquiring s) running s)).

Lemma inv_ran y id : inv y → id ∈ ls_running (y_ls y) → inv (LSys (ran id (y_ls y)) (y_task y)).
Proof.
  intros [] Hid. pose proof iv_lists0 as (Hda & Hdis & Hdr)%NoDup_app.
  assert (Hnot : id ∉ ls_acquiring (y_ls y)) by (intros H; by destruct (Hdis id H)).
  split; cbn; try done.
  - intros id' r [Hne H]%lookup_delete_Some. destruct (iv_reqs0 _ _ H) as [Ho Hst]. split; [done|].
    assert (∀ P : Prop, id' ∈ ls_running (y_ls y) ∧ P → id' ∈ without id (ls_running (y_ls y)) ∧ P) as Hin.
    { intros P [? ?]. by rewrite elem_of_without. }
    cbn. destruct (iq_state r); try done.
    + destruct Hst as (? & ? & Hw). split; [done|]. split; [done|]. destruct (iq_work r); [by apply Hin|done].
    + destruct Hst as (? & ? & ? & Hw). split; [done|]. split; [done|]. split; [done|]. intros Hn. by apply Hin, Hw.
  - apply NoDup_app. split; [done|]. split; [|by apply NoDup_filter]. intros x Hx [Hx' _]%elem_of_without. by apply (Hdis x Hx).
  - intros id' Hin. assert (id' ∈ ls_acquiring (y_ls y) ++ ls_running (y_ls y) ∧ id' ≠ id) as [Hl Hne].
    { apply elem_of_app in Hin as [Hin|[Hin ?]%elem_of_without]; (split; [set_solver|]); [by intros ->|done]. }
    destruct (iv_listed0 id' Hl) as (r & Hr & Hn). exists r. by rewrite lookup_delete_ne.
  - rewrite iv_releasing0. rewrite (bool_decide_false (ls_running (y_ls y) = [])) by (intros E; rewrite E in Hid; by apply elem_of_nil in Hid).
    rewrite andb_false_r. done.
  - intros Hd. destruct (iv_mapped0 Hd) as [? Hr]. rewrite Hr in *. by apply elem_of_nil in Hid.
Qed.

(** The log of what has ended is not looked at. *)
Lemma inv_log y l : inv y → inv (LSys (set_ended l (y_ls y)) (y_task y)).
Proof.
  intros []. split; cbn; try done. intros id r H. by apply (req_ok_mono (y_ls y)), iv_reqs0.
Qed.

Lemma wpl_handle id res r s (Q : unit → lstate → Prop) :
  ls_reqs s !! id = Some r → same_conf (ls_dev s) →
  wpl (rbd_img_advance id res) s (λ o s', if o.1 : bool then
      o.2 <= 0 ∧ wpl (if need r then rbd_lock_del_request id else mret tt) s'
        (λ _ s2, Q tt (set_ended (ls_ended s2 ++ [(id, o.2)]) (set_reqs (delete id (ls_reqs s2)) s2)))
    else Q tt s') →
  wpl (rbd_img_handle_request id res) s Q.
Proof.
  intros Hr Hconf H. unfold rbd_img_handle_request. apply wpl_bind. unfold rbd_img_handle_request_.
  apply wpl_bind, wpl_get, wpl_bind. eapply wpl_get_req; [done|]. rewrite (need_same _ _ Hconf).
  apply wpl_bind. eapply wpl_mono; [exact H|]. intros [[] x] s' Ho; cbn [fst snd] in Ho |- *.
  - destruct Ho as [Hx Hw]. rewrite andb_true_r. apply wpl_bind. eapply wpl_mono; [exact Hw|]. intros [] s2 HQ.
    apply wpl_bind, wpl_require; [|apply wpl_ret, wpl_modify, HQ].
    unfold nonzero. destruct (Z.eqb_spec x 0); [done|]. cbn. apply Z.ltb_lt. lia.
  - rewrite andb_false_r. apply wpl_bind, wpl_ret, wpl_bind, wpl_require; [done|]. apply wpl_ret, wpl_ret, Ho.
Qed.

Lemma wpl_del_running id s (Q : unit → lstate → Prop) :
  id ∈ ls_running s → id ∉ ls_acquiring s →
  Q tt (let running := without id (ls_running s) in
        let n := if bool_decide (lock s = RBD_LOCK_STATE_RELEASING) && bool_decide (running = [])
                 then S (ls_releasing s) else ls_releasing s in
        set_releasing n (set_lists (ls_acquiring s) running s)) →
  wpl (rbd_lock_del_request id) s Q.
Proof.
  intros Hr Ha HQ. unfold rbd_lock_del_request. apply wpl_bind, wpl_get, wpl_bind, wpl_require.
  { unfold on_list. by rewrite (bool_decide_true (id ∈ ls_running s)), orb_true_r. }
  apply wpl_bind, wpl_modify. rewrite (without_notin id (ls_acquiring s)) by done. cbv zeta in HQ.
  destruct (bool_decide _ && bool_decide _); [apply wpl_modify|apply wpl_ret]; exact HQ.
Qed.

(** The end of a request. *)
Lemma wpl_end y m id r x :
  inv y → delete id m = delete id (ls_reqs (y_ls y)) →
  (need r = true → id ∈ ls_running (y_ls y)) →
  (need r = false → id ∉ ls_acquiring (y_ls y) ++ ls_running (y_ls y)) →
  wpl (if need r then rbd_lock_del_request id else mret tt) (set_reqs m (y_ls y))
    (λ _ s2, inv (LSys (set_ended (ls_ended s2 ++ [(id, x)]) (set_reqs (delete id (ls_reqs s2)) s2)) (y_task y))).
Proof.
  intros Hy Hm Hin Hout. destruct (need r).
  - specialize (Hin eq_refl). pose proof (iv_lists _ Hy) as (_ & Hdis & _)%NoDup_app.
    apply wpl_del_running; [done|by intros H; destruct (Hdis id H)|]. cbn. rewrite Hm.
    exact (inv_log _ _ (inv_ran y id Hy Hin)).
  - apply wpl_ret. cbn. rewrite Hm. exact (inv_log _ _ (inv_delete y id Hy (Hout eq_refl))).
Qed.

(** ** Object requests *)

Lemma start_objects_ok objs p :
  Forall no_error objs → pr_result p <= 0 → 0 <= pr_num_pending p →
  pr_result (start_objects objs p) <= 0 ∧ pr_num_pending p <= pr_num_pending (start_objects objs p).
Proof.
  intros Ho. revert p. induction Ho as [|[x|] objs Hx _ IH]; intros p Hr Hn; cbn [start_objects]; [done| |].
  - destruct (nonzero x); [by split|by apply IH].
  - destruct (IH (PendingResult (pr_result p) (pr_num_pending p + 1))) as [? ?]; cbn in *; [done|lia|]. split; [done|lia].
Qed.

(** The request has the lock if it needs it. *)
Lemma advance_started n y m id r res :
  inv y → m !! id = Some r → delete id m = delete id (ls_reqs (y_ls y)) →
  iq_state r = RBD_IMG_EXCLUSIVE_LOCK → iq_pending r = PendingResult 0 0 → iq_work r = None → Forall no_error (iq_objs r) →
  res <= 0 → (need r = true → id ∈ ls_running (y_ls y) ∧ (res = 0 → owner (y_ls y))) →
  (need r = false → id ∉ ls_acquiring (y_ls y) ++ ls_running (y_ls y)) →
  wpl (img_again (S (S n)) (img_advance id) res) (set_reqs m (y_ls y)) (λ o s', ∃ m',
    s' = set_reqs m' (y_ls y) ∧ delete id m' = delete id (ls_reqs (y_ls y)) ∧
    if o.1 : bool then o.2 <= 0 else inv (LSys s' (y_task y))).
Proof.
  intros Hy Hr Hm Hst Hp Hw Ho Hres Hin Hout. apply wpl_again. unfold img_advance at 1. apply wpl_bind.
  eapply wpl_get_req; [exact Hr|]. rewrite Hst. destruct (nonzero res) eqn:E; unfold nonzero in E; bool_to_prop.
  { apply wpl_ret. by exists m. }
  subst res. apply wpl_bind, wpl_get, wpl_bind, wpl_require.
  { cbn [ls_dev set_reqs]. rewrite (need_same _ r (iv_conf _ Hy)). destruct (need r) eqn:Hn; [|done]. by apply Hin. }
  apply wpl_bind. unfold rbd_img_object_requests. apply wpl_bind. eapply wpl_get_req; [exact Hr|]. rewrite Hp.
  apply wpl_bind, wpl_require; [done|]. apply wpl_modify, wpl_bind. cbn [ls_reqs set_reqs].
  set (p' := start_objects _ _). set (r1 := set_img_pending p' r).
  destruct (start_objects_ok (iq_objs r) (PendingResult 0 0) Ho) as [Hle Hge]; [done..|]. fold p' in Hle, Hge. cbn in Hge.
  eapply (wpl_get_req id r1); [apply lookup_insert_eq|]. cbn [iq_pending r1 set_img_pending].
  destruct (Z.eqb_spec (pr_num_pending p') 0) as [H0|H0].
  - apply wpl_bind, wpl_modify, wpl_ret, wpl_again. cbn [ls_reqs set_reqs]. unfold img_advance at 1. apply wpl_bind.
    eapply wpl_get_req; [apply lookup_insert_eq|]. apply wpl_ret. eexists. split; [done|].
    split; [by rewrite !delete_insert_eq|done].
  - apply wpl_bind, wpl_modify, wpl_ret. eexists. split; [done|]. cbn [ls_reqs set_reqs].
    rewrite !insert_insert_eq. set (r2 := set_img_state _ r1).
    split; [by rewrite delete_insert_eq|]. cbn [fst].
    assert (<[id := r2]> m = <[id := r2]> (ls_reqs (y_ls y))) as ->.
    { by rewrite <- (insert_delete_eq m), Hm, insert_delete_eq. }
    apply (inv_put y id r2); [done| |].
    + split; [done|]. cbn. split; [lia|]. split; [done|]. split; [done|]. intros Hn. destruct (Hin Hn) as [Hi Hown]. by split; [|apply Hown].
    + intros Hl. change (need r2) with (need r). destruct (need r); [done|]. by destruct (Hout eq_refl).
Qed.

Lemma wpl_handle_started y m id r res :
  inv y → m !! id = Some r → delete id m = delete id (ls_reqs (y_ls y)) →
  iq_state r = RBD_IMG_EXCLUSIVE_LOCK → iq_pending r = PendingResult 0 0 → iq_work r = None → Forall no_error (iq_objs r) →
  res <= 0 → (need r = true → id ∈ ls_running (y_ls y) ∧ (res = 0 → owner (y_ls y))) →
  (need r = false → id ∉ ls_acquiring (y_ls y) ++ ls_running (y_ls y)) →
  wpl (rbd_img_handle_request id res) (set_reqs m (y_ls y)) (λ _ s', inv (LSys s' (y_task y))).
Proof.
  intros Hy Hr Hm Hst Hp Hw Ho Hres Hin Hout. eapply wpl_handle; [exact Hr|apply Hy|].
  eapply wpl_mono; [by eapply (advance_started 1 y m id r res)|]. intros [[] x] s' (m' & -> & Hm' & Hok); cbn [fst snd] in *; [|done].
  split; [done|]. apply (wpl_end y m' id r x); [done|done|intros Hn; by apply Hin|done].
Qed.

Lemma wpl_run_work y id r res :
  inv y → ls_reqs (y_ls y) !! id = Some r → iq_work r = Some res →
  wpl (rbd_img_handle_request_work id) (y_ls y) (λ _ s', inv (LSys s' (y_task y))).
Proof.
  intros Hy Hr Hw. destruct (iv_reqs _ Hy _ _ Hr) as [Ho Hst]. unfold rbd_img_handle_request_work.
  apply wpl_bind. eapply wpl_get_req; [exact Hr|]. apply wpl_bind, wpl_lift. rewrite Hw. cbn [deref wp].
  apply wpl_bind, wpl_modify. destruct (iq_state r) eqn:Hs; [done| | |done].
  - destruct Hst as (Hp & Hn & Hl). rewrite Hw in Hl. destruct Hl as (Hin & Hres & Hown).
    eapply (wpl_handle_started y _ id (set_img_work None r) res); [done|by rewrite lookup_insert_eq|by rewrite delete_insert_eq|done..| |].
    + by intros _.
    + change (need (set_img_work None r)) with (need r). by rewrite Hn.
  - destruct Hst as (_ & _ & Hw' & _). congruence.
Qed.

Lemma wpl_object_done y id r res :
  inv y → ls_reqs (y_ls y) !! id = Some r → iq_state r = RBD_IMG_OBJECT_REQUESTS_ → res <= 0 →
  wpl (rbd_img_handle_request id res) (y_ls y) (λ _ s', inv (LSys s' (y_task y))).
Proof.
  intros Hy Hr Hs Hres. destruct (iv_reqs _ Hy _ _ Hr) as [Ho Hst]. rewrite Hs in Hst. destruct Hst as (Hnum & Hle & Hw & Hin).
  assert (Hout : need r = false → id ∉ ls_acquiring (y_ls y) ++ ls_running (y_ls y)).
  { intros Hn Hl. destruct (iv_listed _ Hy id Hl) as (r' & Hr' & Hn'). congruence. }
  eapply wpl_handle; [exact Hr|apply Hy|]. apply wpl_again. unfold img_advance at 1. apply wpl_bind.
  eapply wpl_get_req; [exact Hr|]. rewrite Hs. apply wpl_bind, wpl_lift. unfold pending_result_dec, require.
  rewrite (proj2 (Z.gtb_lt _ _)) by lia. cbn [mbind outcome_bind wp].
  set (x := if nonzero res && _ then res else _). assert (Hx : x <= 0) by (subst x; by destruct (_ && _)).
  destruct (Z.eqb_spec (pr_num_pending (iq_pending r) - 1) 0) as [E|E]; unfold nonzero; rewrite ?(proj2 (Z.eqb_eq _ _) E), ?(proj2 (Z.eqb_neq _ _) E);
    cbn [negb wp]; apply wpl_bind, wpl_modify, wpl_ret; cbn [fst snd].
  - split; [done|]. apply (wpl_end y _ id r x); [done|by rewrite delete_insert_eq|intros Hn; by apply Hin|done].
  - apply (inv_put y id (set_img_pending (PendingResult x (pr_num_pending (iq_pending r) - 1)) r)); [done| |].
    + split; [done|]. cbn. rewrite Hs. split; [lia|]. by split_and!.
    + intros Hl. change (need (set_img_pending _ r)) with (need r). destruct (need r); [done|]. by destruct (Hout eq_refl).
Qed.

(** ** New requests *)

Lemma not_listed y id : inv y → ls_reqs (y_ls y) !! id = None → id ∉ ls_acquiring (y_ls y) ++ ls_running (y_ls y).
Proof. intros Hy Hn Hl. destruct (iv_listed _ Hy id Hl) as (r & Hr & _). congruence. Qed.

(** A request as it is when its turn has come. *)
Definition at_turn (r : img_req) : img_req := ImgReq (iq_op r) RBD_IMG_EXCLUSIVE_LOCK (PendingResult 0 0) (iq_objs r) None.

(** It runs at once. *)
Lemma inv_add_running y id r :
  inv y → ls_reqs (y_ls y) !! id = None → lock (y_ls y) = RBD_LOCK_STATE_LOCKED → ls_acquire_done (y_ls y) = true →
  need r = true → Forall no_error (iq_objs r) →
  inv (LSys (set_reqs (<[id := set_img_work (Some 0) (at_turn r)]> (ls_reqs (y_ls y)))
               (set_lists (ls_acquiring (y_ls y)) (ls_running (y_ls y) ++ [id]) (y_ls y))) (y_task y)).
Proof.
  intros Hy Hn Hlock Hdone Hneed Ho. pose proof (not_listed y id Hy Hn) as Hl. destruct Hy. split; cbn; try done.
  - intros id' r' [[<- <-]|[Hne H]]%lookup_insert_Some.
    + split; [done|]. cbn. split; [done|]. split; [done|]. split; [set_solver|]. split; [done|]. intros _. unfold rbd_is_lock_owner. by rewrite Hlock.
    + apply (req_ok_mono (y_ls y)); [done| |done|by apply iv_reqs0]. cbn. set_solver.
  - rewrite (assoc_L (++)). apply NoDup_app. split; [done|]. split; [set_solver|apply NoDup_singleton].
  - intros id' Hin. rewrite (assoc_L (++)) in Hin. apply elem_of_app in Hin as [Hin| ->%list_elem_of_singleton].
    + destruct (iv_listed0 id' Hin) as (r' & Hr' & ?). exists r'. rewrite lookup_insert_ne by congruence. done.
    + rewrite lookup_insert_eq. by eexists.
  - rewrite iv_releasing0, Hlock. done.
  - congruence.
Qed.

(** It waits, and the lock is asked for. *)
Lemma inv_add_acquiring y id r w :
  inv y → ls_reqs (y_ls y) !! id = None → lock (y_ls y) ≠ RBD_LOCK_STATE_LOCKED → ls_acquire_done (y_ls y) = true →
  need r = true → Forall no_error (iq_objs r) →
  inv (LSys (set_reqs (<[id := at_turn r]> (ls_reqs (y_ls y)))
               (set_works (set_lock_dwork true w) (set_lists (ls_acquiring (y_ls y) ++ [id]) (ls_running (y_ls y)) (y_ls y)))) (y_task y)).
Proof.
  intros Hy Hn Hlock Hdone Hneed Ho. pose proof (not_listed y id Hy Hn) as Hl. destruct Hy. split; cbn; try done.
  - intros id' r' [[<- <-]|[Hne H]]%lookup_insert_Some.
    + split; [done|]. cbn. split; [done|]. split; [done|]. set_solver.
    + apply (req_ok_mono (y_ls y)); [|done|done|by apply iv_reqs0]. cbn. set_solver.
  - rewrite <- (assoc_L (++)), (Permutation_app_comm [id]), (assoc_L (++)). apply NoDup_app. split; [done|]. split; [set_solver|apply NoDup_singleton].
  - intros id' Hin. destruct (decide (id' = id)) as [->|Hne]; [rewrite lookup_insert_eq; by eexists|].
    destruct (iv_listed0 id' ltac:(set_solver)) as (r' & Hr' & ?). exists r'. by rewrite lookup_insert_ne.
  - congruence.
  - by left.
Qed.

Lemma wpl_submit y id op objs :
  inv y → enabled (Submit id op objs) y → ¬ race (Submit id op objs) y →
  wpl (rbd_img_handle_request id 0) (set_reqs (<[id := new_req op objs]> (ls_reqs (y_ls y))) (y_ls y))
    (λ _ s', inv (LSys s' (y_task y))).
Proof.
  intros Hy (Hnone & Ho & Hdone) Hrace. pose proof (not_listed y id Hy Hnone) as Hl. set (r := new_req op objs) in *.
  rewrite (need_same _ r (iv_conf _ Hy)) in Hdone. set (m := <[id := r]> _).
  assert (Hm : m !! id = Some r) by apply lookup_insert_eq.
  assert (Hdel : ∀ r', delete id (<[id := r']> m) = ls_reqs (y_ls y)).
  { intros r'. subst m. by rewrite insert_insert_eq, delete_insert_id. }
  eapply wpl_handle; [exact Hm|apply Hy|]. apply wpl_again. unfold img_advance at 1. apply wpl_bind.
  eapply wpl_get_req; [exact Hm|]. cbn [iq_state r new_req]. apply wpl_bind, wpl_require; [done|].
  apply wpl_bind. unfold rbd_img_exclusive_lock. apply wpl_bind, wpl_get, wpl_bind. eapply wpl_get_req; [exact Hm|].
  cbn [ls_dev set_reqs]. rewrite (need_same _ r (iv_conf _ Hy)). destruct (need r) eqn:Hn; cbn [negb].
  - specialize (Hdone eq_refl). apply wpl_bind. unfold rbd_lock_add_request. apply wpl_bind, wpl_get, wpl_bind, wpl_require.
    { apply not_elem_of_app in Hl as [Ha Hr]. unfold on_list. cbn. by rewrite !bool_decide_false. }
    cbn [ls_dev ls_acquiring ls_running set_reqs].
    case_bool_decide as Hlock.
    + apply wpl_bind, wpl_modify, wpl_ret, wpl_ret. cbn [Z.ltb Z.gtb Z.compare]. apply wpl_bind, wpl_modify, wpl_ret.
      pose proof (inv_add_running y id r Hy Hnone Hlock Hdone Hn Ho) as Hy1. set (y1 := LSys _ _) in Hy1.
      eapply wpl_mono; [apply (advance_started 0 y1 (<[id := at_turn r]> m) id (at_turn r) 0 Hy1 (lookup_insert_eq _ _ _)); try done|].
      * rewrite Hdel. cbn. by rewrite delete_insert_id.
      * intros _. cbn. split; [set_solver|]. intros _. unfold rbd_is_lock_owner. by rewrite Hlock.
      * change (need (at_turn r)) with (need r). by rewrite Hn.
      * intros [[] x] s' (m' & -> & Hm' & Hok); cbn [fst snd] in *; [|done]. split; [done|].
        pose proof (wpl_end y1 m' id r x Hy1 Hm') as H. rewrite Hn in H. apply H; [|done]. intros _. cbn. set_solver.
    + apply wpl_bind, wpl_modify, wpl_ret. cbn [ls_dev set_reqs]. destruct (rd_exclusive (ls_dev (y_ls y))) eqn:Hx.
      * apply wpl_ret. cbn [Z.ltb Z.compare EROFS Z.opp]. apply wpl_ret. split; [done|].
        cbv iota. unfold rbd_lock_del_request. apply wpl_bind, wpl_get, wpl_bind, wpl_require.
        { unfold on_list. cbn. by rewrite (bool_decide_true (id ∈ _ ++ _)) by set_solver. }
        apply not_elem_of_app in Hl as [Ha Hr]. cbn [ls_dev ls_acquiring ls_running set_lists set_reqs].
        assert (without id (ls_acquiring (y_ls y) ++ [id]) = ls_acquiring (y_ls y)) as ->.
        { unfold without. rewrite filter_app, filter_cons_False by naive_solver. cbn. rewrite app_nil_r. by apply without_notin. }
        rewrite (without_notin id (ls_running (y_ls y))) by done. apply wpl_bind, wpl_modify.
        rewrite (bool_decide_false (lock (y_ls y) = _)) by (intros E; by destruct Hrace). apply wpl_ret. cbn.
        subst m. rewrite delete_insert_id by done. destruct Hy. split; cbn; try done.
        intros id' r' H. by apply (req_ok_mono (y_ls y)), iv_reqs0.
      * apply wpl_bind, wpl_modify, wpl_ret. cbn [Z.ltb Z.gtb Z.compare]. apply wpl_bind, wpl_modify, wpl_ret. cbn [fst].
        pose proof (inv_add_acquiring y id r (ls_works (y_ls y)) Hy Hnone Hlock Hdone Hn Ho) as H.
        cbn [ls_reqs ls_works set_works set_lists set_reqs]. subst m. by rewrite insert_insert_eq.
  - apply wpl_ret. cbn [Z.ltb Z.gtb Z.compare]. apply wpl_bind, wpl_modify, wpl_ret.
    eapply wpl_mono; [apply (advance_started 0 y _ id (at_turn r) 0 Hy (lookup_insert_eq _ _ _)); try done|].
    + cbn [ls_reqs set_reqs]. by rewrite Hdel, delete_id.
    + change (need (at_turn r)) with (need r). by rewrite Hn.
    + intros [[] x] s' (m' & -> & Hm' & Hok); cbn [fst snd] in *; [|done]. split; [done|].
      pose proof (wpl_end y m' id r x Hy Hm') as H. rewrite Hn in H. by apply H.
Qed.
End lock.
