(* ===== verification/RbdLockProof.v ===== *)
(** * What acquires and releases the exclusive lock keeps the invariant (rbd/rbd.c)

    The works of [task_wq] and the notifications, event by event, and the theorems. *)
From S2P Require Import Prelude Striper Hash Crush Mapper Choose DoRule Workspace OsdMap Decode.
From S2P Require Import Rbd RbdObject RbdMachine RbdImage RbdLock RbdLockSafe.

(** Where an image that has been set up can get to. *)
Inductive lreachable (dev : rbd_device) (cid : client_id) : lsys → Prop :=
  | lreachable_init s : lsys_init dev cid s → lreachable dev cid s
  | lreachable_step e s s' :
      lreachable dev cid s → enabled e s → ¬ race e s → lstep e s = Ret s' → lreachable dev cid s'.

Section lock.
Context (dev0 : rbd_device).
Implicit Types (s : lstate) (r : img_req) (id : nat).
Local Abbreviation need := (need_exclusive_lock dev0).
Local Abbreviation owner s := (rbd_is_lock_owner (ls_dev s) = true).
Local Abbreviation lock s := (rd_lock_state (ls_dev s)).
Local Abbreviation inv := (inv dev0).
Local Abbreviation same_conf := (same_conf dev0).

(** ** Waking those that wait for the lock *)

(** What the invariant is about, but for the device, [releasing_wait] and the works. *)
Definition same_lists s s' : Prop :=
  ls_acquiring s' = ls_acquiring s ∧ ls_running s' = ls_running s ∧ ls_reqs s' = ls_reqs s
  ∧ ls_acquire_done s' = ls_acquire_done s.

Definition asking (t : task_wq) : Prop := t = Requesting ∨ t = Retrying.
Definition waiting_for (t : task_wq) : Prop := ∃ q, t = Waiting q.

Definition map_cond (dev : rbd_device) : Prop :=
  has (rd_features dev0) RBD_FEATURE_OBJECT_MAP = true →
  if rbd_is_lock_owner dev then rd_object_map dev ≠ None else rd_object_map dev = None ∧ rd_object_map_size dev = 0.

(** The device changes. *)
Lemma inv_dev y s' t' :
  inv y → same_lists (y_ls y) s' → same_conf (ls_dev s') →
  (ls_running (y_ls y) ≠ [] → owner (y_ls y) → owner s') →
  (lock s' = RBD_LOCK_STATE_LOCKED → ls_acquiring (y_ls y) = []) →
  (lock s' = RBD_LOCK_STATE_RELEASING ↔ waiting_for t') →
  ls_releasing s' = (if bool_decide (lock s' = RBD_LOCK_STATE_RELEASING) && bool_decide (ls_running (y_ls y) = []) then 1%nat else 0%nat) →
  (asking t' → lock s' = RBD_LOCK_STATE_UNLOCKED) → map_cond (ls_dev s') →
  (ls_acquiring (y_ls y) ≠ [] → t' = Idle → lock_dwork (ls_works s') = true ∨ released_work (ls_works s') ≠ No_notice) →
  inv (LSys s' t').
Proof.
  intros [] (Ha & Hr & Hq & Hd) Hc Hown Hl Ht Hrel Hask Hmap Hw. split; cbn; rewrite ?Ha, ?Hr, ?Hq, ?Hd; try done.
  intros id r H. destruct (iv_reqs id r H) as [Ho Hst]. split; [done|].
  assert (Hrun : id ∈ ls_running (y_ls y) → ls_running (y_ls y) ≠ []) by (intros Hin E; rewrite E in Hin; by apply elem_of_nil in Hin).
  destruct (iq_state r); try done; rewrite ?Ha, ?Hr.
  - destruct Hst as (? & ? & Hst). split; [done|]. split; [done|]. destruct (iq_work r); naive_solver.
  - naive_solver.
Qed.

Lemma inv_move y s' t' :
  inv y → same_lists (y_ls y) s' → ls_dev s' = ls_dev (y_ls y) → ls_releasing s' = ls_releasing (y_ls y) →
  (waiting_for (y_task y) ↔ waiting_for t') → (asking t' → lock (y_ls y) = RBD_LOCK_STATE_UNLOCKED) →
  (ls_acquiring (y_ls y) ≠ [] → t' = Idle → lock_dwork (ls_works s') = true ∨ released_work (ls_works s') ≠ No_notice) →
  inv (LSys s' t').
Proof.
  intros Hy Hsame Hdev Hrel Ht Hask Hw. pose proof Hy as []. apply (inv_dev y); rewrite ?Hdev; try done.
  - by rewrite iv_task.
  - by rewrite Hrel.
Qed.

(** After [wake_lock_waiters]: all are running, and are told. *)
Definition woken (res : Z) s s' : Prop :=
  ls_acquiring s' = [] ∧ ls_running s' = ls_running s ++ ls_acquiring s ∧ ls_acquire_done s' = true ∧
  (∀ id, ls_reqs s' !! id = if bool_decide (id ∈ ls_acquiring s) then set_img_work (Some res) <$> ls_reqs s !! id
                            else ls_reqs s !! id) ∧
  ls_dev s' = ls_dev s ∧ ls_releasing s' = ls_releasing s.

Lemma wpl_schedule_all res ids s :
  NoDup ids →
  (∀ id, id ∈ ids → ∃ r, ls_reqs s !! id = Some r ∧ iq_state r = RBD_IMG_EXCLUSIVE_LOCK ∧ iq_work r = None) →
  wpl (forL ids (λ id, r ← get_req id;
         _ ← llift (require (bool_decide (iq_state r = RBD_IMG_EXCLUSIVE_LOCK))); rbd_img_schedule id res)) s
    (λ _ s', ∃ m, s' = set_reqs m s ∧
       ∀ id, m !! id = if bool_decide (id ∈ ids) then set_img_work (Some res) <$> ls_reqs s !! id else ls_reqs s !! id).
Proof.
  intros Hnd. revert s. induction Hnd as [|id ids Hid Hnd IH]; intros s Hall; cbn [forL].
  { apply wpl_ret. exists (ls_reqs s). split; [by destruct s|done]. }
  destruct (Hall id ltac:(by left)) as (r & Hr & Hst & Hw). apply wpl_bind, wpl_bind. eapply wpl_get_req; [exact Hr|].
  apply wpl_bind, wpl_require; [by rewrite Hst|]. unfold rbd_img_schedule. apply wpl_bind. eapply wpl_get_req; [exact Hr|].
  apply wpl_bind, wpl_require; [by rewrite Hw|]. apply wpl_modify.
  eapply wpl_mono; [apply IH|].
  - intros id' Hin. cbn. rewrite lookup_insert_ne by (by intros ->). apply Hall. by right.
  - cbn. intros _ s' (m & -> & Hm). exists m. split; [by destruct s|]. intros id'. rewrite Hm.
    destruct (decide (id' = id)) as [->|Hne].
    + rewrite (bool_decide_false (id ∈ ids)), lookup_insert_eq by done. rewrite bool_decide_true by (by left). by rewrite Hr.
    + rewrite lookup_insert_ne by done. rewrite (bool_decide_ext (id' ∈ id :: ids) (id' ∈ ids)); [done|]. set_solver.
Qed.

Lemma wpl_wake y s res :
  inv y → same_lists (y_ls y) s → wpl (wake_lock_waiters res) s (λ _ s', woken res s s').
Proof.
  intros Hy (Ha & Hr & Hq & Hd). unfold wake_lock_waiters. apply wpl_bind, wpl_modify, wpl_bind, wpl_get.
  cbn [ls_acquire_done ls_acquiring ls_running set_works]. destruct (ls_acquire_done s) eqn:E; cbn [negb].
  - apply wpl_bind. eapply wpl_mono; [apply wpl_schedule_all|].
    + rewrite Ha. by apply iv_lists, NoDup_app in Hy as (? & _).
    + intros id Hin. rewrite Ha in Hin. cbn [ls_reqs set_works]. rewrite Hq.
      destruct (acquiring_req dev0 y id Hy Hin) as (r & ? & _ & ? & _ & ? & _). by exists r.
    + intros _ s' (m & -> & Hm). apply wpl_modify. by split_and!.
  - symmetry in Hd. destruct (iv_mapped _ _ Hy Hd) as [Ha0 Hr0]. rewrite Ha0 in Ha. rewrite Hr0 in Hr.
    apply wpl_bind, wpl_require; [by rewrite Ha, Hr|]. apply wpl_modify. unfold woken. cbn. rewrite Ha, Hr.
    split_and!; try done.
Qed.

Lemma inv_woken y s s' res t :
  inv y → same_lists (y_ls y) s → woken res s s' → res <= 0 → (res = 0 → owner s) →
  same_conf (ls_dev s) → (ls_running (y_ls y) ≠ [] → owner (y_ls y) → owner s) →
  (lock s = RBD_LOCK_STATE_RELEASING ↔ ∃ q, t = Waiting q) → lock s ≠ RBD_LOCK_STATE_RELEASING → ls_releasing s = 0%nat →
  (t = Requesting ∨ t = Retrying → lock s = RBD_LOCK_STATE_UNLOCKED) →
  (has (rd_features dev0) RBD_FEATURE_OBJECT_MAP = true →
    if rbd_is_lock_owner (ls_dev s) then rd_object_map (ls_dev s) ≠ None
    else rd_object_map (ls_dev s) = None ∧ rd_object_map_size (ls_dev s) = 0) →
  inv (LSys s' t).
Proof.
  intros Hy (Ha & Hr & Hq & Hd) (Ha' & Hr' & Hd' & Hq' & Hdev & Hrel) Hres Hown Hconf Hrun Htask Hlock H0 Hask Hmap.
  rewrite Ha, Hr in Hr'. rewrite Ha in Hq'. rewrite Hq in Hq'. pose proof (iv_lists _ _ Hy) as Hnd.
  split; cbn [y_ls y_task]; rewrite ?Hdev, ?Ha', ?Hr', ?Hrel, ?Hd'; try done.
  - intros id r H. rewrite Hq' in H. case_bool_decide as Hin.
    + destruct (acquiring_req dev0 y id Hy Hin) as (r0 & Hr0 & Hn & Hst & Hp & _ & Ho). rewrite Hr0 in H. injection H as <-.
      split; [done|]. cbn. rewrite Hst. split; [done|]. split; [done|]. rewrite Hr', Hdev. split; [set_solver|done].
    + apply (iv_reqs _ _ Hy) in H as [Ho Hst]. split; [done|]. destruct (iq_state r); try done.
      * destruct Hst as (? & ? & Hw). split; [done|]. split; [done|]. destruct (iq_work r) as [x|]; [|done].
        destruct Hw as (Hx & ? & Hw). rewrite Hr', Hdev. split; [set_solver|]. split; [done|]. intros ->. apply Hrun; [|by apply Hw].
        intros E. rewrite E in Hx. by apply elem_of_nil in Hx.
      * destruct Hst as (? & ? & ? & Hw). split; [done|]. split; [done|]. split; [done|]. intros Hn. destruct (Hw Hn) as [Hx ?].
        rewrite Hr', Hdev. split; [set_solver|]. apply Hrun; [|done]. intros E. rewrite E in Hx. by apply elem_of_nil in Hx.
  - rewrite app_nil_l. by rewrite (Permutation_app_comm (ls_running _)).
  - intros id Hin. destruct (iv_listed _ _ Hy id ltac:(set_solver)) as (r & H & Hn). rewrite Hq'.
    destruct (bool_decide _); rewrite H; by eexists.
  - rewrite H0. by rewrite bool_decide_false.
Qed.

(** ** Acquiring *)

Definition locked_by s s' : Prop :=
  ∃ cid w, s' = set_works w (set_owner cid (set_dev (set_lock_state (ls_dev s) RBD_LOCK_STATE_LOCKED) s))
           ∧ lock_dwork w = lock_dwork (ls_works s) ∧ released_work w = released_work (ls_works s).

Lemma wpl_rbd_lock_ s (Q : unit → lstate → Prop) : (∀ s', locked_by s s' → Q tt s') → wpl rbd_lock_ s Q.
Proof.
  intros HQ. unfold rbd_lock_. apply wpl_bind, wpl_modify, wpl_bind, wpl_modify, wpl_modify. apply HQ.
  by eexists _, _.
Qed.

Lemma wpl_try_lock rounds s :
  settles rounds = true → Forall round_ok rounds →
  wpl (rbd_try_lock rounds) s (λ ret s', ret <= 1 ∧
    if ret =? 0 then ∃ cid, locked_by (set_owner cid s) s' else ∃ cid, s' = set_owner cid s).
Proof.
  intros Hset Hok. revert s. induction Hok as [|t rounds (H1 & H2 & H3 & H4 & H5) Hok IH]; intros s; [done|]. cbn [rbd_try_lock].
  assert (Hself : s = set_owner (ls_owner s) s) by by destruct s.
  apply wpl_bind. unfold rbd_lock, nonzero. destruct (Z.eqb_spec (tr_lock t) 0) as [E|E]; cbn [negb].
  { apply wpl_bind, wpl_rbd_lock_. intros s' Hs'. apply wpl_ret. cbn. apply wpl_ret. split; [done|]. cbn.
    exists (ls_owner s). by rewrite <- Hself. }
  apply wpl_ret. cbn [settles] in Hset. destruct (Z.eqb_spec (tr_lock t) (- EBUSY)) as [E2|E2]; cbn [negb orb] in *.
  2:{ apply wpl_ret. rewrite (proj2 (Z.eqb_neq _ _)) by done. split; [lia|]. by eexists. }
  unfold nonzero in *. destruct (Z.eqb_spec (tr_info t) 0) as [E3|E3]; cbn [negb orb] in *.
  2:{ apply wpl_ret. rewrite (proj2 (Z.eqb_neq _ _)) by done. split; [lia|]. by eexists. }
  destruct (Z.eqb_spec (tr_num_lockers t) 0) as [E4|E4]; cbn [negb andb orb] in *; [by apply IH|].
  assert (Hs1 : ∀ Q : lstate → Prop, (∀ cid, Q (set_owner cid s)) → wpl (if tr_watcher t =? 1 then lmodify (set_owner (tr_cid t)) else mret tt) s (λ _, Q)).
  { intros Q HQ. destruct (_ =? 1); [apply wpl_modify|apply wpl_ret; rewrite Hself]; apply HQ. }
  apply wpl_bind, Hs1. intros cid. clear Hs1.
  destruct (Z.eqb_spec (tr_watcher t) 0) as [E5|E5]; cbn [negb orb] in *.
  2:{ apply wpl_ret. rewrite (proj2 (Z.eqb_neq _ _)) by done. split; [lia|]. by eexists. }
  destruct (Z.eqb_spec (tr_blocklist t) 0) as [E6|E6]; cbn [negb orb] in *.
  2:{ apply wpl_ret. rewrite (proj2 (Z.eqb_neq _ _)) by done. split; [lia|]. by eexists. }
  destruct (negb (tr_break t =? 0) && negb (tr_break t =? - ENOENT)) eqn:E7; cbn [orb] in *.
  { apply andb_true_iff in E7 as [E7%negb_true_iff _]. apply wpl_ret. rewrite E7. split; [lia|]. by eexists. }
  eapply wpl_mono; [by apply IH|]. intros ret s' [Hret Hs']. split; [done|].
  destruct (ret =? 0); destruct Hs' as [cid' Hs']; exists cid'; exact Hs'.
Qed.

Lemma unlocked_idle y : inv y → rbd_is_lock_owner (ls_dev (y_ls y)) = false → lock (y_ls y) = RBD_LOCK_STATE_UNLOCKED.
Proof. unfold rbd_is_lock_owner. by destruct (lock (y_ls y)). Qed.
Lemma owner_idle y :
  inv y → owner (y_ls y) → ¬ waiting_for (y_task y) → lock (y_ls y) = RBD_LOCK_STATE_LOCKED ∧ ls_acquiring (y_ls y) = [].
Proof.
  intros Hy Ho Ht. assert (lock (y_ls y) = RBD_LOCK_STATE_LOCKED) as Hl; [|split; [done|by eapply iv_locked]].
  pose proof (iv_task _ _ Hy) as Hw. unfold rbd_is_lock_owner in Ho. destruct (lock (y_ls y)) eqn:E; [done|done|].
  destruct Ht. by apply Hw.
Qed.

(** The lock has been taken; [s] has the lists still as they were. *)
Lemma wpl_acquired y s s' res :
  inv y → same_lists (y_ls y) s → woken res s s' → res <= 0 → ls_running (y_ls y) = [] →
  ls_releasing s = 0%nat → same_conf (ls_dev s) →
  lock s = (if res =? 0 then RBD_LOCK_STATE_LOCKED else RBD_LOCK_STATE_UNLOCKED) →
  (has (rd_features dev0) RBD_FEATURE_OBJECT_MAP = true →
    if res =? 0 then rd_object_map (ls_dev s) ≠ None
    else rd_object_map (ls_dev s) = None ∧ rd_object_map_size (ls_dev s) = 0) →
  inv (LSys s' Idle).
Proof.
  intros Hy Hsame Hw Hres Hrun H0 Hconf Hlock Hmap.
  assert (Hown : rbd_is_lock_owner (ls_dev s) = (res =? 0)) by (unfold rbd_is_lock_owner; rewrite Hlock; by destruct (res =? 0)).
  assert (Hnot : lock s ≠ RBD_LOCK_STATE_RELEASING) by (rewrite Hlock; by destruct (res =? 0)).
  eapply (inv_woken y); [done|exact Hsame|exact Hw|..]; rewrite ?Hown; try done.
  - by intros ->.
  - split; [done|by intros [? ?]].
  - by intros [?|?].
Qed.

Lemma wpl_acquire y s rounds open :
  inv y → same_lists (y_ls y) s → ls_dev s = ls_dev (y_ls y) → ls_releasing s = ls_releasing (y_ls y) →
  ¬ waiting_for (y_task y) → settles rounds = true → Forall round_ok rounds → open_ok open →
  (rbd_is_lock_owner (ls_dev (y_ls y)) = false → ls_running (y_ls y) = []) →
  wpl (acquire_try rounds open) s (λ request s', inv (LSys s' (if request : bool then Requesting else Idle))).
Proof.
  intros Hy Hsame Hdev Hrel Hidle Hset Hok Hopen Hrace. unfold acquire_try. apply wpl_bind. unfold rbd_try_acquire_lock.
  apply wpl_bind, wpl_get. rewrite Hdev. destruct (rbd_is_lock_owner (ls_dev (y_ls y))) eqn:Ho.
  { apply wpl_ret, wpl_ret. cbn. destruct (owner_idle y Hy Ho Hidle) as [Hl Ha].
    apply (inv_move y); try done; [|by intros [?|?]]. split; [done|by intros [? ?]]. }
  pose proof (unlocked_idle y Hy Ho) as Hlock. specialize (Hrace eq_refl).
  assert (H0 : ls_releasing s = 0%nat).
  { rewrite Hrel, (iv_releasing _ _ Hy), Hlock. by rewrite bool_decide_false. }
  apply wpl_bind. eapply wpl_mono; [by apply wpl_try_lock|]. intros ret s1 [Hret Hs1].
  destruct (Z.eqb_spec ret (- EBLOCKLISTED)) as [->|Hne].
  { destruct Hs1 as [cid ->]. apply wpl_bind. eapply wpl_mono; [by eapply (wpl_wake y)|]. intros [] s2 Hw.
    apply wpl_ret, wpl_ret. cbn. eapply (inv_woken y); [done| |exact Hw|..]; try done; cbn; rewrite ?Hdev, ?Hlock; try done.
    - apply Hy. - split; [done|by intros [? ?]]. - apply Hy. }
  unfold nonzero. destruct (Z.eqb_spec ret 0) as [->|Hne0]; cbn [negb].
  2:{ destruct Hs1 as [cid ->]. apply wpl_ret, wpl_ret.
      assert (negb ((if ret <? 0 then 1 else ret) <=? 0) = true) as ->
        by (destruct (Z.ltb_spec ret 0); [done|by rewrite (proj2 (Z.leb_gt _ _)) by lia]).
      apply (inv_move y); try done. split; [done|by intros [? ?]]. }
  destruct Hs1 as (cid & cid' & w & -> & Hw1 & Hw2).
  apply wpl_bind, wpl_get, wpl_bind, wpl_require.
  { destruct Hsame as (_ & Hr & _). cbn. by rewrite Hr, Hrace. }
  set (s1 := set_works w _). assert (Hsame1 : same_lists (y_ls y) s1) by exact Hsame.
  assert (Hconf1 : same_conf (ls_dev s1)) by (subst s1; cbn; rewrite Hdev; apply Hy).
  pose proof (iv_map _ _ Hy) as Hmap. rewrite Ho in Hmap.
  apply wpl_bind. unfold rbd_post_acquire_action. apply wpl_bind, wpl_get.
  assert (Hfin : ∀ s2 ret, same_lists (y_ls y) s2 → ret <= 0 → ls_releasing s2 = 0%nat → same_conf (ls_dev s2) →
    lock s2 = (if ret =? 0 then RBD_LOCK_STATE_LOCKED else RBD_LOCK_STATE_UNLOCKED) →
    (has (rd_features dev0) RBD_FEATURE_OBJECT_MAP = true → if ret =? 0 then rd_object_map (ls_dev s2) ≠ None
      else rd_object_map (ls_dev s2) = None ∧ rd_object_map_size (ls_dev s2) = 0) →
    wpl (_ ← wake_lock_waiters ret; mret ret) s2
      (λ a s', wpl (mret (negb (a <=? 0))) s' (λ request s', inv (LSys s' (if request : bool then Requesting else Idle))))).
  { intros s2 ret Hs2 Hret2 Hrel2 Hc2 Hl2 Hm2. apply wpl_bind. eapply wpl_mono; [by eapply (wpl_wake y)|]. intros [] s3 Hw3.
    apply wpl_ret, wpl_ret. rewrite (proj2 (Z.leb_le _ _)) by done. by apply (wpl_acquired y s2 s3 ret). }
  replace (has (rd_features (ls_dev s1)) RBD_FEATURE_OBJECT_MAP) with (has (rd_features dev0) RBD_FEATURE_OBJECT_MAP)
    by (destruct Hconf1 as [-> _]; done).
  destruct (has (rd_features dev0) RBD_FEATURE_OBJECT_MAP) eqn:Hf.
  2:{ apply wpl_ret, wpl_bind, wpl_ret. by apply Hfin. }
  destruct (Hmap eq_refl) as [Hm Hsize]. destruct open as [e|[m size]].
  - apply wpl_ret, wpl_bind. unfold nonzero. cbn in Hopen. rewrite (proj2 (Z.eqb_neq _ _)) by lia. cbn [negb].
    unfold rbd_unlock. apply wpl_bind, wpl_modify, wpl_bind, wpl_modify, wpl_modify.
    apply Hfin; try done; rewrite ?(proj2 (Z.eqb_neq _ _)) by lia; [lia|done|]. intros _. cbn. by rewrite Hdev.
  - apply wpl_bind, wpl_require; [cbn; by rewrite Hdev, Hm, Hsize|]. apply wpl_bind, wpl_modify, wpl_ret, wpl_bind, wpl_ret.
    by apply Hfin.
Qed.

Lemma wpl_answered y ret :
  inv y → y_task y = Requesting →
  wpl (acquire_answered ret) (y_ls y) (λ retry s', inv (LSys s' (if retry : bool then Retrying else Idle))).
Proof.
  intros Hy Ht. pose proof (iv_asking _ _ Hy (or_introl Ht)) as Hlock. unfold acquire_answered.
  assert (Hnw : ∀ t, ¬ waiting_for t → waiting_for (y_task y) ↔ waiting_for t) by (intros t H; rewrite Ht; split; [by intros [? ?]|done]).
  destruct (ret =? - ETIMEDOUT).
  { apply wpl_ret. by apply (inv_move y); [..|apply Hnw; by intros [? ?]| |]. }
  apply wpl_bind. destruct (Z.eqb_spec ret (- EROFS)) as [->|_].
  - eapply wpl_mono; [by eapply (wpl_wake y)|]. intros [] s' Hw. apply wpl_ret.
    assert (rbd_is_lock_owner (ls_dev (y_ls y)) = false) as Ho by (unfold rbd_is_lock_owner; by rewrite Hlock).
    eapply (inv_woken y); [done| |exact Hw|..]; try done; rewrite ?Hlock; try done; [apply Hy|split; [done|by intros [? ?]]| |apply Hy].
    rewrite (iv_releasing _ _ Hy), Hlock. by rewrite bool_decide_false.
  - apply wpl_modify, wpl_ret. apply (inv_move y); try done; [apply Hnw; by intros [? ?]|by left].
Qed.

(** ** Releasing *)

(** Nothing runs any more. *)
Record quiet y s : Prop := {
  qt_lists : same_lists (y_ls y) s;
  qt_conf : same_conf (ls_dev s);
  qt_lock : lock s = RBD_LOCK_STATE_RELEASING;
  qt_running : ls_running (y_ls y) = [];
  qt_releasing : ls_releasing s = 0%nat;
  qt_map : has (rd_features dev0) RBD_FEATURE_OBJECT_MAP = true → rd_object_map (ls_dev s) ≠ None }.

Lemma wpl_release y s w (Q : unit → lstate → Prop) :
  inv y → same_lists (y_ls y) s → same_conf (ls_dev s) → ls_running (y_ls y) = [] → ls_releasing s = 0%nat →
  (∀ s', released_work (ls_works s') ≠ No_notice → inv (LSys (set_works (set_lock_dwork w (ls_works s')) s') Idle) → Q tt s') →
  wpl rbd_release_lock_ s Q.
Proof.
  intros Hy Hsame Hconf Hrun H0 HQ. unfold rbd_release_lock_. apply wpl_bind, wpl_get, wpl_bind, wpl_require.
  { destruct Hsame as (_ & Hr & _). by rewrite Hr, Hrun. }
  apply wpl_bind.
  assert (Hun : ∀ s1, same_lists (y_ls y) s1 → same_conf (ls_dev s1) → ls_releasing s1 = 0%nat →
    (has (rd_features dev0) RBD_FEATURE_OBJECT_MAP = true → rd_object_map (ls_dev s1) = None ∧ rd_object_map_size (ls_dev s1) = 0) →
    wpl rbd_unlock s1 Q).
  { intros s1 Hs1 Hc1 H1 Hm1. unfold rbd_unlock. apply wpl_bind, wpl_modify, wpl_bind, wpl_modify, wpl_modify.
    apply HQ; [done|]. apply (inv_dev y); try done; try by right. split; [done|by intros [? ?]]. }
  unfold rbd_pre_release_action. apply wpl_bind, wpl_get.
  replace (has (rd_features (ls_dev s)) RBD_FEATURE_OBJECT_MAP) with (has (rd_features dev0) RBD_FEATURE_OBJECT_MAP)
    by (destruct Hconf as [-> _]; done).
  destruct (has (rd_features dev0) RBD_FEATURE_OBJECT_MAP) eqn:Hf; [apply wpl_modify|apply wpl_ret]; by apply Hun.
Qed.

Lemma wpl_after_quiesce y s q cookie :
  inv y → quiet y s → wpl (after_quiesce q cookie) s (λ _ s', inv (LSys s' Idle)).
Proof.
  intros Hy [Hsame Hconf Hlock Hrun H0 Hmap]. unfold after_quiesce.
  assert (Hrel : ∀ b, wpl rbd_release_lock_ s (λ _ s', wpl (queue (set_lock_dwork b)) s' (λ _ s', inv (LSys s' Idle)))).
  { intros b. eapply (wpl_release y s b); [done..|]. intros s' _ H. by apply wpl_modify. }
  destruct q; [by apply wpl_bind|]. destruct (nonzero cookie); apply wpl_bind; [done|].
  apply wpl_rbd_lock_. intros s1 (cid & w & -> & _ & _).
  eapply wpl_mono; [by eapply (wpl_wake y)|]. intros [] s2 Hw. by apply (wpl_acquired y _ s2 0) in Hw.
Qed.

(** The same but for what the invariant does not mention. *)
Definition same_state s s' : Prop :=
  same_lists s s' ∧ ls_dev s' = ls_dev s ∧ ls_releasing s' = ls_releasing s
  ∧ lock_dwork (ls_works s') = lock_dwork (ls_works s) ∧ released_work (ls_works s') = released_work (ls_works s).

Lemma inv_same y s' : inv y → same_state (y_ls y) s' → inv (LSys s' (y_task y)).
Proof.
  intros Hy (Hl & Hd & Hr & Hw1 & Hw2). apply (inv_move y); try done; [apply Hy|].
  intros Ha Ht. rewrite Hw1, Hw2. by apply (iv_waiters _ _ Hy).
Qed.

Lemma wpl_quiesce y s q cookie :
  inv y → y_task y = Idle → same_state (y_ls y) s →
  wpl (quiesce q cookie) s (λ waits s', inv (LSys s' (if waits : bool then Waiting q else Idle))).
Proof.
  intros Hy Ht Hs. pose proof (inv_same y s Hy Hs) as Hys. rewrite Ht in Hys. destruct Hs as (Hsame & Hdev & Hrel & _).
  unfold quiesce, rbd_quiesce_lock. apply wpl_bind, wpl_bind, wpl_get. rewrite Hdev. case_bool_decide as Hlock; cbn [negb].
  2:{ by apply wpl_ret, wpl_bind, wpl_ret, wpl_ret. }
  assert (H0 : ls_releasing s = 0%nat) by (by rewrite Hrel, (iv_releasing _ _ Hy), Hlock).
  apply wpl_bind, wpl_modify, wpl_bind, wpl_require; [by rewrite H0|]. set (s1 := set_dev _ _).
  assert (Hconf : same_conf (ls_dev s1)) by (subst s1; cbn; rewrite Hdev; apply Hy).
  assert (Hmap : has (rd_features dev0) RBD_FEATURE_OBJECT_MAP = true → rd_object_map (ls_dev s1) ≠ None).
  { intros Hf. pose proof (iv_map _ _ Hy Hf) as Hm. unfold rbd_is_lock_owner in Hm. rewrite Hlock in Hm. subst s1. cbn. by rewrite Hdev. }
  destruct Hsame as (Ha & Hr & Hq). rewrite Hr. case_bool_decide as Hrun.
  - apply wpl_ret, wpl_bind. eapply wpl_mono; [by apply (wpl_after_quiesce y s1 q cookie); [|split]|].
    intros [] s' H. by apply wpl_ret.
  - apply wpl_ret, wpl_ret. apply (inv_dev y); try done.
    + split; [by eexists|done]. + cbn. by rewrite (bool_decide_false (_ = [])). + by intros [?|?].
Qed.

Lemma wpl_resume y q cookie :
  inv y → y_task y = Waiting q → (0 < ls_releasing (y_ls y))%nat →
  wpl (quiesce_resume q cookie) (y_ls y) (λ _ s', inv (LSys s' Idle)).
Proof.
  intros Hy Ht Hpos. pose proof (iv_releasing _ _ Hy) as Hrel.
  assert (lock (y_ls y) = RBD_LOCK_STATE_RELEASING) as Hlock by (apply (iv_task _ _ Hy); by eexists).
  rewrite Hlock, bool_decide_true in Hrel by done. cbn [andb] in Hrel. case_bool_decide as Hrun; [|lia].
  unfold quiesce_resume, rbd_quiesced. apply wpl_bind, wpl_bind, wpl_get. rewrite Hrel. apply wpl_bind, wpl_modify.
  rewrite Hlock, Hrun. cbn [bool_decide negb]. rewrite !bool_decide_true by done. cbn [negb]. apply wpl_bind, wpl_require; [done|].
  apply wpl_ret. apply (wpl_after_quiesce y); [done|]. split; try done; [apply Hy|].
  intros Hf. pose proof (iv_map _ _ Hy Hf) as Hm. unfold rbd_is_lock_owner in Hm. by rewrite Hlock in Hm.
Qed.

(** ** The watch *)

Lemma wpl_reregister y ret cid cookie :
  inv y → y_task y = Idle → ret <= 0 →
  wpl (rbd_reregister_watch ret cid cookie) (y_ls y) (λ waits s', inv (LSys s' (if waits : bool then Waiting Reacquire else Idle))).
Proof.
  intros Hy Ht Hret. assert (Hidle : inv (LSys (y_ls y) Idle)) by (rewrite <- Ht; by destruct y).
  unfold rbd_reregister_watch. destruct (nonzero ret) eqn:E; unfold nonzero in E; bool_to_prop.
  - apply wpl_bind. destruct (_ || _); [|by apply wpl_ret, wpl_ret].
    eapply wpl_mono; [by eapply (wpl_wake y)|]. intros [] s' Hw. apply wpl_ret.
    assert (Hnot : lock (y_ls y) ≠ RBD_LOCK_STATE_RELEASING).
    { intros Hl. apply (iv_task _ _ Hy) in Hl as [q Hq]. congruence. }
    eapply (inv_woken y); [done| |exact Hw|..]; try done; [apply Hy|split; [done|by intros [? ?]]| |by intros [?|?]|apply Hy].
    rewrite (iv_releasing _ _ Hy). by rewrite bool_decide_false.
  - apply wpl_bind, wpl_modify, wpl_bind, wpl_get. cbn [ls_dev].
    assert (Hs : same_state (y_ls y) (LState (ls_dev (y_ls y)) cid (ls_owner (y_ls y)) (ls_acquiring (y_ls y)) (ls_running (y_ls y))
      (ls_acquire_done (y_ls y)) (ls_acquire_err (y_ls y)) (ls_releasing (y_ls y)) (ls_works (y_ls y)) (ls_reqs (y_ls y)) (ls_ended (y_ls y)))) by by split_and!.
    case_bool_decide; [by apply wpl_quiesce with y|]. apply wpl_ret. pose proof (inv_same _ _ Hy Hs) as H'. by rewrite Ht in H'.
Qed.

(** A notification may ask for the lock again, and must if one that waits has only that. *)
Lemma wpl_kick y s :
  inv y → same_lists (y_ls y) s → ls_dev s = ls_dev (y_ls y) → ls_releasing s = ls_releasing (y_ls y) →
  lock_dwork (ls_works s) = lock_dwork (ls_works (y_ls y)) →
  wpl maybe_kick_acquire s (λ _ s', inv (LSys s' (y_task y))).
Proof.
  intros Hy Hs Hd Hr Hw. pose proof Hs as (Ha & _). unfold maybe_kick_acquire. apply wpl_bind, wpl_get. rewrite Hd, Ha, Hw.
  destruct (rbd_is_lock_owner (ls_dev (y_ls y))) eqn:Ho.
  - apply wpl_ret. apply (inv_move y); try done; [apply Hy|]. intros Hne Ht.
    destruct (owner_idle y Hy Ho) as [_ Ha']; [|done]. rewrite Ht. by intros [? ?].
  - destruct (negb _ || _) eqn:E.
    + apply wpl_modify. apply (inv_move y); try done; [apply Hy|]. intros _ _. by left.
    + apply wpl_ret. apply (inv_move y); try done; [apply Hy|]. intros Hne _.
      apply orb_false_iff in E as [E _]. by rewrite bool_decide_false in E.
Qed.

Lemma wpl_remove y :
  inv y → y_task y = Idle → ls_reqs (y_ls y) = ∅ → wpl rbd_dev_image_unlock (y_ls y) (λ _ s', inv (LSys s' Idle)).
Proof.
  intros Hy Ht Hnone. unfold rbd_dev_image_unlock. apply wpl_bind, wpl_get.
  assert (Hl : ls_acquiring (y_ls y) ++ ls_running (y_ls y) = []).
  { destruct (ls_acquiring (y_ls y) ++ ls_running (y_ls y)) as [|id l] eqn:E; [done|].
    destruct (iv_listed _ _ Hy id) as (r & Hr & _); [rewrite E; by left|]. by rewrite Hnone in Hr. }
  apply app_eq_nil in Hl as [Ha Hr]. destruct (rbd_is_lock_owner (ls_dev (y_ls y))) eqn:Ho.
  - destruct (owner_idle y Hy Ho) as [Hl _]; [rewrite Ht; by intros [? ?]|].
    eapply (wpl_release y _ (lock_dwork (ls_works (y_ls y)))); [done|by split_and!|apply Hy|done| |].
    { by rewrite (iv_releasing _ _ Hy), Hl. }
    intros s' Hw H. apply (inv_move _ s' Idle H); try done; [by intros [?|?]|by right].
  - apply wpl_ret. rewrite <- Ht. by destruct y.
Qed.

(** ** All events *)

Lemma wp_wpl {A} (m : L A) s (f : A → lstate → lsys) :
  wpl m s (λ a s', inv (f a s')) → wp ('(a, s') ← m s; Ret (f a s')) inv.
Proof. unfold wpl. by destruct (m s) as [[a s']| |]. Qed.

Lemma lstep_inv e y : inv y → enabled e y → ¬ race e y → wp (lstep e y) inv.
Proof.
  intros Hy He Hrace. destruct e as [id op objs|id|id res|rounds open|ret| |ret cid cookie|cookie|cid|own cid| | | |cid| |]; cbn [lstep enabled] in *.
  - apply (wp_wpl _ _ (λ _ s', LSys s' (y_task y))). by apply (wpl_submit dev0).
  - destruct He as (r & res & Hr & Hw). apply (wp_wpl _ _ (λ _ s', LSys s' (y_task y))). by eapply (wpl_run_work dev0).
  - destruct He as (Hres & r & Hr & Hs). apply (wp_wpl _ _ (λ _ s', LSys s' (y_task y))). by eapply (wpl_object_done dev0).
  - destruct He as (Ht & Hok & Hset & Hopen).
    apply (wp_wpl _ _ (λ request s', LSys s' (if request : bool then Requesting else Idle))).
    apply (wpl_acquire y); try done; [destruct Ht as [->|[-> _]]; by intros [? ?]|].
    intros Ho. destruct (ls_running (y_ls y)) eqn:E; [done|]. destruct Hrace. split; [done|]. by rewrite E.
  - apply (wp_wpl _ _ (λ retry s', LSys s' (if retry : bool then Retrying else Idle))). by apply wpl_answered.
  - destruct He as [Ht _]. apply (wp_wpl _ _ (λ waits s', LSys s' (if waits : bool then Waiting Release else Idle))).
    by apply (wpl_quiesce y).
  - destruct He as [Ht Hret]. apply (wp_wpl _ _ (λ waits s', LSys s' (if waits : bool then Waiting Reacquire else Idle))).
    by apply (wpl_reregister y).
  - destruct He as [[q Ht] Hn]. rewrite Ht. apply (wp_wpl _ _ (λ _ s', LSys s' Idle)). by apply (wpl_resume y).
  - apply (wp_wpl _ _ (λ _ s', LSys s' (y_task y))). unfold rbd_handle_acquired_lock.
    apply wpl_bind, wpl_get, wpl_bind. destruct (_ && _); [apply wpl_modify|apply wpl_ret]; by apply (wpl_kick y).
  - apply (wp_wpl _ _ (λ _ s', LSys s' (y_task y))). unfold rbd_handle_released_lock.
    apply wpl_bind, wpl_get, wpl_bind. destruct own; destruct (_ && _); [apply wpl_modify|apply wpl_ret|apply wpl_modify|apply wpl_ret]; by apply (wpl_kick y).
  - apply (inv_move y); try done; [apply Hy|]. intros Ha Ht. by apply (iv_waiters _ _ Hy).
  - apply (inv_move y); try done; [apply Hy|by right].
  - apply (inv_move y); try done; [apply Hy|by right].
  - apply (wp_wpl _ _ (λ _ s', LSys s' (y_task y))). unfold rbd_handle_request_lock. apply wpl_bind, wpl_get.
    assert (Hq : ∀ s', same_state (y_ls y) s' → inv (LSys s' (y_task y))) by (intros s'; by apply inv_same).
    by repeat case_match; apply Hq.
  - by apply (inv_same y (set_owner rbd_empty_cid (y_ls y))).
  - destruct He as [Ht Hn]. apply (wp_wpl _ _ (λ _ s', LSys s' (y_task y))). rewrite Ht. by apply wpl_remove.
Qed.
End lock.

Lemma inv_init dev cid y : lsys_init dev cid y → inv dev y.
Proof.
  intros (Hl & Hm & Hs & ->). split; cbn; try done.
  - apply NoDup_nil_2.
  - by intros id Hin%elem_of_nil.
  - rewrite Hl. split; [done|by intros [? ?]].
  - by rewrite Hl.
  - intros _. unfold rbd_is_lock_owner. by rewrite Hl.
Qed.

Lemma lreachable_inv dev cid y : lreachable dev cid y → inv dev y.
Proof.
  induction 1 as [y Hinit|e y y' _ IH He Hr Hstep]; [by eapply inv_init|].
  pose proof (lstep_inv dev e y IH He Hr) as H. by rewrite Hstep in H.
Qed.

(** ** The theorems *)

(** C4: An image with the exclusive lock, requests coming, running and ending in any order with
    works of the queue, notifications and watch errors, whatever the cluster answers.  Unless one
    of two races happens, no assertion fails; a request that needs the lock is on exactly one of the two
    lists; and while its object requests are outstanding, the lock is held and the object map is
    loaded: it is never released under them. *)
Theorem exclusive_lock_protects (dev : rbd_device) (cid : client_id) (y : lsys) (Hy : lreachable dev cid y) :
  (∀ e, enabled e y → ¬ race e y → ∃ y', lstep e y = Ret y') ∧
  NoDup (ls_acquiring (y_ls y) ++ ls_running (y_ls y)) ∧
  (∀ id, id ∈ ls_acquiring (y_ls y) ++ ls_running (y_ls y) ↔
     ∃ r, ls_reqs (y_ls y) !! id = Some r ∧ need_exclusive_lock dev r = true) ∧
  (∀ id r, ls_reqs (y_ls y) !! id = Some r → need_exclusive_lock dev r = true → iq_state r = RBD_IMG_OBJECT_REQUESTS_ →
     id ∈ ls_running (y_ls y) ∧ rbd_is_lock_owner (ls_dev (y_ls y)) = true ∧
     (has (rd_features dev) RBD_FEATURE_OBJECT_MAP = true → rd_object_map (ls_dev (y_ls y)) ≠ None)).
Proof.
  pose proof (lreachable_inv dev cid y Hy) as Hinv. split; [|split; [apply Hinv|split]].
  - intros e He Hr. pose proof (lstep_inv dev e y Hinv He Hr) as H. apply wp_exists in H as (y' & -> & _). by exists y'.
  - intros id. split; [apply Hinv|]. intros (r & Hr & Hn). destruct (iv_reqs _ _ Hinv _ _ Hr) as [_ Hst].
    apply elem_of_app. destruct (iq_state r); try done.
    + destruct Hst as (_ & _ & Hw). destruct (iq_work r); [right; apply Hw|by left].
    + right. by apply Hst.
  - intros id r Hr Hn Hs. destruct (iv_reqs _ _ Hinv _ _ Hr) as [_ Hst]. rewrite Hs in Hst.
    destruct Hst as (_ & _ & _ & Hst). destruct (Hst Hn) as [Hin Ho]. split; [done|]. split; [done|].
    intros Hf. pose proof (iv_map _ _ Hinv Hf) as Hm. by rewrite Ho in Hm.
Qed.

(** C35: Who waits for the exclusive lock is not forgotten, in the runs without the two races
    ([race_acquire], [race_exclusive]).  While a request waits for the lock, the work that acquires it
    is queued or runs, or a quiescer waits, or the lock has been released and the notification of
    that, which queues the work, is queued or on its way; the one exception is that this
    notification has been lost and the work has not run since ([lost_notice]).  And while a release
    waits for the requests that run, it has been told, or one of them is still to be run or
    waits for its object requests. *)
Theorem no_lock_waiter_forgotten (dev : rbd_device) (cid : client_id) (y : lsys) (Hy : lreachable dev cid y) :
  (ls_acquiring (y_ls y) ≠ [] →
     lock_dwork (ls_works (y_ls y)) = true ∨ released_work (ls_works (y_ls y)) = Notice_queued
     ∨ released_work (ls_works (y_ls y)) = Notice_sent ∨ released_work (ls_works (y_ls y)) = Notice_lost
     ∨ y_task y = Requesting ∨ y_task y = Retrying ∨ ∃ q, y_task y = Waiting q) ∧
  (∀ q, y_task y = Waiting q → enabled (Resume 0) y ∨
     ∃ id r, id ∈ ls_running (y_ls y) ∧ ls_reqs (y_ls y) !! id = Some r ∧
             (enabled (Run_work id) y ∨ enabled (Object_done id 0) y)).
Proof.
  pose proof (lreachable_inv dev cid y Hy) as Hinv. split.
  - intros Ha. destruct (y_task y) as [| | |q] eqn:Ht; [|tauto|tauto|do 6 right; by eexists].
    destruct (iv_waiters _ _ Hinv Ha Ht) as [?|Hn]; [tauto|]. destruct (released_work _); tauto.
  - intros q Ht. assert (rd_lock_state (ls_dev (y_ls y)) = RBD_LOCK_STATE_RELEASING) as Hl by (apply (iv_task _ _ Hinv); by eexists).
    pose proof (iv_releasing _ _ Hinv) as Hrel. rewrite Hl, (bool_decide_true (_ = _)) in Hrel by done. cbn [andb] in Hrel.
    destruct (ls_running (y_ls y)) as [|id l] eqn:Hrun; [left; rewrite bool_decide_true in Hrel by done; cbn; rewrite Hrel; split; [by eexists|lia]|].
    right. destruct (iv_listed _ _ Hinv id) as (r & Hr & Hn); [rewrite Hrun; set_solver|]. exists id, r. split; [by left|]. split; [done|].
    destruct (iv_reqs _ _ Hinv _ _ Hr) as [_ Hst]. destruct (iq_state r) eqn:Hs; try done.
    + destruct Hst as (_ & _ & Hw). destruct (iq_work r) as [res|] eqn:E; [left; cbn; by eauto|].
      pose proof (iv_lists _ _ Hinv) as (_ & Hdis & _)%NoDup_app. destruct (Hdis id Hw). rewrite Hrun. by left.
    + right. cbn. split; [done|]. by eauto.
Qed.

(** ** Runs *)

Fixpoint lrun (es : list event) (y : lsys) : outcome lsys :=
  match es with [] => Ret y | e :: es => y ← lstep e y; lrun es y end.

Definition ex_lock_device (exclusive : bool) : rbd_device :=
  RbdDevice (Z.lor RBD_FEATURE_EXCLUSIVE_LOCK RBD_FEATURE_OBJECT_MAP)
    {| stripe_unit := 16; stripe_count := 1; object_size := 16 |} 96 CEPH_NOSNAP false
    40 None 0 0 RBD_LOCK_STATE_UNLOCKED 4 false exclusive 0.
Definition ex_start (exclusive : bool) : lsys :=
  LSys (LState (ex_lock_device exclusive) (7, 1) rbd_empty_cid [] [] false (- ETIMEDOUT) 0
          (Works true false false No_notice) ∅ []) Idle.
(** The lock is free; or it has an owner that is alive. *)
Definition ex_free : list try_round := [TryRound 0 0 0 0 rbd_empty_cid 0 0].
Definition ex_owned : list try_round := [TryRound (- EBUSY) 0 1 1 (8, 1) 0 0].
Definition ex_map : map_answer := inr ([0x1b; 0xe4], 6).

(** Mapped, and a write is on its way when the lock is asked for by another client. *)
Definition ex_events : list event :=
  [Acquire ex_free ex_map; Submit 0 OBJ_OP_WRITE [None; None]; Request_lock (8, 1); Unlock].
Definition ex_releasing : lsys :=
  match lrun ex_events (ex_start false) with Ret y => y | _ => ex_start false end.

Fixpoint run_enabled (es : list event) (y : lsys) : Prop :=
  match es with
  | [] => True
  | e :: es => enabled e y ∧ ¬ race e y ∧ match lstep e y with Ret y => run_enabled es y | _ => False end
  end.
Lemma lrun_reachable dev cid es y y' :
  lreachable dev cid y → run_enabled es y → lrun es y = Ret y' → lreachable dev cid y'.
Proof.
  revert y. induction es as [|e es IH]; intros y Hy Hok Hrun; cbn in *; [by injection Hrun as <-|].
  destruct Hok as (He & Hr & Hok). destruct (lstep e y) as [y1| |] eqn:E; [|done|done].
  by apply (IH y1); [eapply lreachable_step|..].
Qed.

Lemma ex_releasing_reachable : lreachable (ex_lock_device false) (7, 1) ex_releasing.
Proof.
  apply (lrun_reachable _ _ ex_events (ex_start false)); [apply lreachable_init; by split_and!| |by vm_compute].
  vm_compute. split_and!; first [done|by right|by intros [? ?]|by repeat constructor].
Qed.

Lemma exclusive_lock_protects_witness :
  rd_lock_state (ls_dev (y_ls ex_releasing)) = RBD_LOCK_STATE_RELEASING ∧
  ∃ y', lstep (Object_done 0 0) ex_releasing = Ret y'.
Proof.
  split; [reflexivity|].
  destruct (exclusive_lock_protects _ _ ex_releasing ex_releasing_reachable) as (Hstep & _).
  apply Hstep; [|by intros []]. split; [done|]. eexists. by split.
Defined.
Lemma no_lock_waiter_forgotten_witness :
  ∃ id r, id ∈ ls_running (y_ls ex_releasing) ∧ ls_reqs (y_ls ex_releasing) !! id = Some r.
Proof.
  destruct (no_lock_waiter_forgotten _ _ ex_releasing ex_releasing_reachable) as [_ Hw].
  destruct (Hw Release eq_refl) as [[_ H]|(id & r & Hin & Hr & _)]; [by apply Nat.lt_irrefl in H|by exists id, r].
Defined.

(** A request that was told of an error has not run when the next one acquires the lock:
    [rbd_try_acquire_lock] asserts that nothing runs. *)
Example race_acquire :
  lrun [Acquire ex_free ex_map; Request_lock (8, 1); Unlock; Submit 1 OBJ_OP_WRITE [None]; Acquire ex_owned ex_map;
        Answered (- EROFS); Submit 2 OBJ_OP_WRITE [None]; Acquire ex_free ex_map] (ex_start false) = Undef.
Proof. by vm_compute. Qed.

(** With the option [exclusive], a request that comes while the lock is taken anew is refused and
    completes [releasing_wait] a second time: [rbd_quiesce_lock] asserts that nothing has. *)
Example race_exclusive :
  lrun [Acquire ex_free ex_map; Submit 1 OBJ_OP_WRITE [None]; Reregister 0 (7, 2) 0; Object_done 1 0;
        Submit 2 OBJ_OP_WRITE [None]; Resume 0; Reregister 0 (7, 3) 0] (ex_start true) = Undef.
Proof. by vm_compute. Qed.

(** The notification that the lock has been released is lost: [lock_dwork] was cancelled, and the
    request that came in between waits with no work queued. *)
Definition ex_lost : list event :=
  ex_events ++ [Submit 1 OBJ_OP_WRITE [None]; Object_done 0 0; Object_done 0 0; Resume 0; Notify_acquired; Notify_released; Notify_lost].
Example lost_notice :
  run_enabled ex_lost (ex_start false) ∧
  match lrun ex_lost (ex_start false) with
  | Ret y => ls_acquiring (y_ls y) = [1%nat] ∧ y_task y = Idle ∧ ls_works (y_ls y) = Works false false false Notice_lost
  | _ => False
  end.
Proof.
  split; [|by vm_compute].
  vm_compute. split_and!; first [done|by right|by intros [? ?]|by repeat constructor|eexists; by split|by eexists].
Qed.
