(* ===== verification/RbdMapLoad.v ===== *)
(** * Loading the object map (rbd/rbd.c, [rbd_object_map_open] and what it calls)

    What an OSD answers to [object_map_load], decoded and checked against the size of the
    image. *)
From S2P Require Import Prelude Striper Hash Crush Mapper Choose DoRule Workspace OsdMap Decode.
From S2P Require Import Rbd RbdObject RbdMachine RbdObjectMap RbdSends RbdImage RbdLock.

(** An answer of the lock class: [ceph_cls_lock], [ceph_cls_lock_info] with the number of
    lockers, [ceph_cls_break_lock]. *)
Record map_lock_round := MapLockRound { ml_lock : Z; ml_info : Z; ml_num_lockers : Z; ml_break : Z }.

(** There is no fuel for rounds without answers. *)
Fixpoint rbd_object_map_lock (broke_lock : bool) (rounds : list map_lock_round) : outcome Z :=
  match rounds with
  | [] => NoFuel
  | t :: rounds =>
      if negb (ml_lock t =? - EBUSY) || broke_lock then
        Ret (if ml_lock t =? - EEXIST then 0 else ml_lock t)
      else if nonzero (ml_info t) then
        if ml_info t =? - ENOENT then rbd_object_map_lock broke_lock rounds else Ret (ml_info t)
      else if ml_num_lockers t =? 0 then rbd_object_map_lock broke_lock rounds
      else if nonzero (ml_break t) then
        if ml_break t =? - ENOENT then rbd_object_map_lock broke_lock rounds else Ret (ml_break t)
      else rbd_object_map_lock true rounds
  end.

(** The size, and the position behind the header. *)
Definition decode_object_map_header (buf : list Z) (end_ : Z) : D unit Z :=
  header_len ← ceph_decode_32_safe buf end_ (- EINVAL);
  header_end ← dpos;
  _ ← ceph_start_decoding buf end_ 1;
  size ← ceph_decode_64_safe buf end_ (- EINVAL);
  _ ← dseek (header_end + header_len);
  mret size.

Definition offset_in_page (p : Z) : Z := Z.land p (PAGE_SIZE - 1).

(** [ml_pages]: whether the pages could be had; [ml_call]: the result of the call and what has
    been received into them; [ml_alloc]: whether there is memory for the map;
    [ml_flags]: the flags of the image, or an error. *)
Record map_load := MapLoad {
  ml_pages : bool; ml_call : Z → Z * list Z; ml_alloc : bool; ml_flags : Z + Z }.

Definition rbd_object_map_load_ (dev : rbd_device) (io : map_load) : outcome (Z * rbd_device) :=
  _ ← require (bool_decide (rd_object_map dev = None) && (rd_object_map_size dev =? 0));
  num_objects ← ceph_get_num_objects (rd_layout dev) (rd_size dev);
  let object_map_bytes := u64 (u64 (num_objects * BITS_PER_OBJ) + 8 - 1) / 8 in
  let num_pages := s32 (calc_pages_for 0 object_map_bytes + 1) in
  if negb (ml_pages io) then Ret (- ENOMEM, dev)
  else
    let '(ret, pages) := ml_call io num_pages in
    let reply_len := Z.of_nat (length pages) in
    if nonzero ret then Ret (ret, dev)
    else
      '(r, _, p) ← decode_object_map_header pages (Z.min reply_len PAGE_SIZE) tt 0;
      match r with
      | inr e => Ret (e, dev)
      | inl object_map_size =>
          if negb (object_map_size =? num_objects) then Ret (- EINVAL, dev)
          else if offset_in_page p + object_map_bytes >? reply_len then Ret (- EINVAL, dev)
          else if negb (ml_alloc io) then Ret (- ENOMEM, dev)
          else
            map ← slice pages (offset_in_page p) object_map_bytes;
            Ret (0, set_object_map dev (Some map) object_map_size)
      end.

Definition rbd_object_map_free (dev : rbd_device) : rbd_device := set_object_map dev None 0.
Definition rbd_object_map_load (dev : rbd_device) (io : map_load) : outcome (Z * rbd_device) :=
  '(ret, dev) ← rbd_object_map_load_ dev io;
  if nonzero ret then Ret (ret, dev)
  else
    match ml_flags io with
    | inr ret => Ret (ret, rbd_object_map_free dev)
    | inl flags => Ret (0, set_object_map_flags dev flags)
    end.
Definition rbd_object_map_open (dev : rbd_device) (rounds : list map_lock_round) (io : map_load)
    : outcome (Z * rbd_device) :=
  ret ← rbd_object_map_lock false rounds;
  if nonzero ret then Ret (ret, dev) else rbd_object_map_load dev io.

(** ** What can be received *)

Record map_load_ok (io : map_load) : Prop := {
  mo_call : ∀ num_pages, 0 < num_pages → let '(ret, pages) := ml_call io num_pages in
    ret <= 0 ∧ Z.of_nat (length pages) <= num_pages * PAGE_SIZE ∧ Forall (λ b, 0 <= b < 256) pages;
  mo_flags : match ml_flags io with inr e => e < 0 | inl _ => True end }.

Lemma wpd_object_map_header buf end_ p :
  Forall byte buf → end_ <= Z.of_nat (length buf) → 0 <= p →
  wpd (decode_object_map_header buf end_) tt p (λ size _ p', 0 <= size < 2 ^ 64 ∧ 0 <= p') negative_error.
Proof.
  intros Hb He Hp. unfold decode_object_map_header. repeat (wpd_step; try done; try lia).
  intros len Hr Hlen. repeat (wpd_step; try done; try lia). intros sv len' Hl' Hr'. repeat (wpd_step; try done; try lia).
  intros size Hr2 Hsize. repeat wpd_step. split; [done|lia].
Qed.

Lemma offset_in_page_range p : 0 <= offset_in_page p < PAGE_SIZE.
Proof.
  unfold offset_in_page, PAGE_SIZE. change (4096 - 1) with (Z.ones 12). rewrite Z.land_ones by lia. apply Z.mod_pos_bound. lia.
Qed.

(** The pages are enough for the map. *)
Lemma map_pages n :
  0 <= n < 2 ^ 44 →
  let bytes := u64 (u64 (n * BITS_PER_OBJ) + 8 - 1) / 8 in
  n <= 4 * bytes ∧ 0 <= bytes <= 2 ^ 42 ∧ 0 < s32 (calc_pages_for 0 bytes + 1) ∧ bytes < s32 (calc_pages_for 0 bytes + 1) * PAGE_SIZE.
Proof.
  intros Hn. unfold BITS_PER_OBJ. rewrite (u64_small (n * 2)) by lia. rewrite u64_small by lia. cbv zeta.
  set (bytes := (n * 2 + 8 - 1) / 8). assert (Hb : n <= 4 * bytes ∧ 0 <= bytes <= 2 ^ 42).
  { subst bytes. pose proof (Z.div_mod (n * 2 + 8 - 1) 8 ltac:(lia)). pose proof (Z.mod_pos_bound (n * 2 + 8 - 1) 8 ltac:(lia)). lia. }
  split; [lia|]. split; [lia|]. unfold calc_pages_for, PAGE_SIZE. rewrite Z.shiftr_0_l, Z.sub_0_r, u64_small by lia.
  rewrite Z.shiftr_div_pow2 by lia. change (2 ^ 12) with 4096.
  pose proof (Z.div_mod (0 + bytes + 4096 - 1) 4096 ltac:(lia)). pose proof (Z.mod_pos_bound (0 + bytes + 4096 - 1) 4096 ltac:(lia)).
  assert (0 <= (0 + bytes + 4096 - 1) / 4096 < 2 ^ 31 - 1) by (split; [apply Z.div_pos; lia|apply Z.div_lt_upper_bound; lia]).
  rewrite (s32_small (_ / _)) by lia. rewrite s32_small by lia. lia.
Qed.

(** Loaded, for the objects below [n]. *)
Definition loaded (dev : rbd_device) (n : Z) : Prop :=
  rd_object_map_size dev = n ∧ ∀ objno, 0 <= objno < n → map_ok dev objno.

Lemma wp_map_load dev io n :
  rd_object_map dev = None → rd_object_map_size dev = 0 →
  ceph_get_num_objects (rd_layout dev) (rd_size dev) = Ret n → 0 <= n < 2 ^ 44 → map_load_ok io →
  wp (rbd_object_map_load_ dev io) (λ '(ret, dev'), ret < 0 ∧ dev' = dev ∨
    ret = 0 ∧ loaded dev' n ∧ ∃ m, dev' = set_object_map dev (Some m) n).
Proof.
  intros Hm Hs Hnum Hn [Hcall Hflags]. unfold rbd_object_map_load_. rewrite Hm, Hs, Hnum. cbn [bool_decide require mbind outcome_bind wp].
  rewrite bool_decide_true by done. cbn [andb Z.eqb require mbind outcome_bind].
  destruct (map_pages n Hn) as (Hcover & Hbytes & Hpos & Hroom). set (bytes := u64 _ / 8) in *. set (num_pages := s32 _) in *.
  destruct (ml_pages io); cbn [negb]; [|by left]. specialize (Hcall num_pages Hpos).
  destruct (ml_call io num_pages) as [ret pages]. destruct Hcall as (Hret & Hlen & Hpb). cbv zeta.
  destruct (nonzero ret) eqn:E; unfold nonzero in E; bool_to_prop; [left; split; [lia|done]|].
  apply wp_bind. pose proof (wpd_object_map_header pages (Z.min (Z.of_nat (length pages)) PAGE_SIZE) 0 Hpb ltac:(lia) ltac:(lia)) as H.
  unfold wpd in H. eapply wp_mono; [exact H|]. intros [[[size|e] []] p] Hr; [|by left].
  destruct Hr as [Hsize Hp]. destruct (Z.eqb_spec size n) as [->|]; cbn [negb]; [|by left].
  rewrite Z.gtb_ltb. destruct (Z.ltb_spec (Z.of_nat (length pages)) (offset_in_page p + bytes)) as [|Hfit]; [by left|].
  destruct (ml_alloc io); cbn [negb]; [|by left]. pose proof (offset_in_page_range p).
  unfold slice. rewrite !(proj2 (Z.leb_le _ _)) by lia. cbn [andb mbind outcome_bind wp]. right. split; [done|].
  set (m := take _ _). split; [|by exists m]. split; [done|]. intros objno Ho. split; [done|]. split; [cbn; lia|].
  exists m. split; [done|]. subst m. split; [cbn; rewrite length_take, length_drop; lia|]. by apply list_relations.list.Forall_take, Forall_drop.
Qed.

(** [rbd_object_map_lock] with an answer that ends it. *)
Definition lock_answers (rounds : list map_lock_round) : Prop :=
  (∀ broke, ∃ ret, rbd_object_map_lock broke rounds = Ret ret) ∧
  Forall (λ t, ml_lock t <= 0 ∧ ml_info t <= 0 ∧ ml_break t <= 0) rounds.

Lemma map_lock_negative rounds broke ret :
  Forall (λ t, ml_lock t <= 0 ∧ ml_info t <= 0 ∧ ml_break t <= 0) rounds →
  rbd_object_map_lock broke rounds = Ret ret → ret <= 0.
Proof.
  intros Ht. revert broke. induction Ht as [|t rounds (H1 & H2 & H3) _ IH]; intros broke; cbn [rbd_object_map_lock]; [done|].
  repeat case_match; try (by apply IH); by intros [= <-].
Qed.

(** C36: Loading the object map, whatever the OSD has sent and wherever memory runs out: no byte
    but those received is read, and either an error is returned and there is no map, or the map
    has a state for every object that stores a byte of the image, and for no other. *)
Theorem rbd_object_map_open_loads (dev : rbd_device) (rounds : list map_lock_round) (io : map_load) (n : Z)
    (Hlayout : valid_layout (rd_layout dev)) (Hdiv : object_size (rd_layout dev) mod stripe_unit (rd_layout dev) = 0)
    (Hsize : 0 <= rd_size dev ∧ rd_size dev + stripe_count (rd_layout dev) * object_size (rd_layout dev) <= 2 ^ 64)
    (Hnum : ceph_get_num_objects (rd_layout dev) (rd_size dev) = Ret n) (Hn : n < 2 ^ 44)
    (Hnone : rd_object_map dev = None) (Hzero : rd_object_map_size dev = 0)
    (Hlock : lock_answers rounds) (Hio : map_load_ok io) :
  ∃ ret dev', rbd_object_map_open dev rounds io = Ret (ret, dev') ∧
    (∃ m size flags, dev' = set_object_map_flags (set_object_map dev m size) flags) ∧
    if ret =? 0 then ∀ objno, 0 <= objno → map_ok dev' objno ↔ ∃ f, 0 <= f < rd_size dev ∧ (locate (rd_layout dev) f).1 = objno
    else ret < 0 ∧ rd_object_map dev' = None ∧ rd_object_map_size dev' = 0.
Proof.
  destruct (ceph_get_num_objects_exact _ _ Hlayout Hdiv (proj1 Hsize) (proj2 Hsize)) as (n' & Hn' & Hused).
  rewrite Hnum in Hn'. injection Hn' as <-.
  destruct Hlock as [Hret Hrounds]. destruct (Hret false) as [ret Hl]. pose proof (map_lock_negative _ _ _ Hrounds Hl) as Hle.
  unfold rbd_object_map_open. rewrite Hl. cbn [mbind outcome_bind].
  assert (Hdev : ∃ m size flags, dev = set_object_map_flags (set_object_map dev m size) flags)
    by (exists (rd_object_map dev), (rd_object_map_size dev), (rd_object_map_flags dev); by destruct dev).
  destruct (nonzero ret) eqn:E; unfold nonzero in E; bool_to_prop.
  { exists ret, dev. split; [done|]. split; [done|]. rewrite (proj2 (Z.eqb_neq _ _)) by done. split; [lia|by split]. }
  assert (Hn0 : 0 <= n).
  { pose proof Hnum as H. rewrite get_num_objects_eq in H by (done || apply Hsize). injection H as <-.
    destruct Hlayout as (? & ? & ?). apply Z.add_nonneg_nonneg; [apply Z.mul_nonneg_nonneg; [apply Z.div_pos; [lia|nia]|lia]|].
    apply Z.min_glb; [lia|]. apply Z.div_pos; [|lia].
    pose proof (Z.mod_pos_bound (rd_size dev) (stripe_count (rd_layout dev) * object_size (rd_layout dev))). nia. }
  pose proof (wp_map_load dev io n Hnone Hzero Hnum (conj Hn0 Hn) Hio) as H. apply wp_exists in H as ([r dev1] & Hload & Hok).
  unfold rbd_object_map_load. rewrite Hload. cbn [mbind outcome_bind]. destruct Hok as [[Hr ->]|(-> & [Hsz Hmap] & m & Em)].
  { unfold nonzero. rewrite (proj2 (Z.eqb_neq _ _)) by lia. cbn [negb]. exists r, dev. split; [done|]. split; [done|].
    rewrite (proj2 (Z.eqb_neq _ _)) by lia. by split_and!. }
  cbn [nonzero Z.eqb negb]. pose proof (mo_flags _ Hio) as Hf. destruct (ml_flags io) as [flags|e].
  - exists 0, (set_object_map_flags dev1 flags). split; [done|]. split; [rewrite Em; by eexists _, _, _|]. cbn [Z.eqb].
    intros objno Ho. rewrite <- Hused by done. split; [intros ((_ & ?) & _); cbn in *; lia|]. intros Hlt.
    exact (Hmap objno (conj Ho Hlt)).
  - exists e, (rbd_object_map_free dev1). split; [done|]. rewrite Em. split.
    + exists None, 0, (rd_object_map_flags dev). by destruct dev.
    + rewrite (proj2 (Z.eqb_neq _ _)) by lia. by split_and!.
Qed.

(** ** An image of six objects *)

Definition ex_unloaded : rbd_device :=
  RbdDevice (Z.lor RBD_FEATURE_EXCLUSIVE_LOCK RBD_FEATURE_OBJECT_MAP)
    {| stripe_unit := 16; stripe_count := 1; object_size := 16 |} 90 CEPH_NOSNAP false
    40 None 0 0 RBD_LOCK_STATE_LOCKED 4 false false 0.
(** The header: its length, the block with the size; then two bytes. *)
Definition ex_map_reply : list Z :=
  ceph_encode_32 14 ++ ceph_encode_8 1 ++ ceph_encode_8 1 ++ ceph_encode_32 8 ++ ceph_encode_64 6 ++ [0x1b; 0xe0].
Definition ex_map_load : map_load :=
  MapLoad true (λ _, (0, ex_map_reply)) true (inl 0).
(** The lock has an owner, and is broken. *)
Definition ex_map_rounds : list map_lock_round := [MapLockRound (- EBUSY) 0 1 0; MapLockRound 0 0 0 0].

Lemma ex_map_load_ok : map_load_ok ex_map_load.
Proof.
  split; [|done]. intros n Hn. split; [done|]. unfold PAGE_SIZE. split; [vm_compute length; lia|].
  repeat (apply Forall_cons; split; [done|]). by apply Forall_nil_2.
Qed.

Lemma rbd_object_map_open_loads_witness :
  ∃ dev', rbd_object_map_open ex_unloaded ex_map_rounds ex_map_load = Ret (0, dev') ∧ map_ok dev' 5 ∧ ¬ map_ok dev' 6.
Proof.
  destruct (rbd_object_map_open_loads ex_unloaded ex_map_rounds ex_map_load 6) as (ret & dev' & Hrun & _ & Hok).
  { by split. } { reflexivity. } { done. } { reflexivity. } { done. } { reflexivity. } { reflexivity. }
  { split; [intros []; by eexists|]. by repeat constructor. } { exact ex_map_load_ok. }
  exists dev'. vm_compute in Hrun. injection Hrun as <- <-. split; [by vm_compute|]. cbn [Z.eqb] in Hok. split.
  - apply Hok; [done|]. exists 80. split; [done|]. by vm_compute.
  - intros [[_ H] _]. by vm_compute in H.
Defined.
