(* ===== verification/OsdBackoff.v ===== *)
(** * Backoffs (libceph/osd_client.c, libceph/include/linux/ceph/osd_client.h)

    An OSD asks a client to hold requests on a range of objects back.  The order of objects, ranges
    on the wire, and the tree of backoffs of a placement group. *)
From S2P Require Import Prelude Hash Crush Mapper Choose DoRule Workspace OsdMap Placement.
From S2P Require Import CrushLoc OsdTarget Decode CrushWire OsdMapDecode OsdMapWire.

(** ** Objects and their order *)

Record ceph_hobject_id := Hobject {
  h_key : list Z; h_oid : list Z; h_snapid : Z; h_hash : Z; h_is_max : Z;
  h_nspace : list Z; h_pool : Z; h_hash_reverse_bits : Z }.

(** [bitrev32] of the kernel: bit [i] becomes bit [31 - i]. *)
Fixpoint bitrev (n : nat) (x : Z) : Z :=
  match n with O => 0 | S n => x mod 2 * 2 ^ Z.of_nat n + bitrev n (x / 2) end.
Definition bitrev32 (x : Z) : Z := bitrev 32 x.

Definition ceph_hoid_build_hash_cache (h : ceph_hobject_id) : ceph_hobject_id :=
  Hobject (h_key h) (h_oid h) (h_snapid h) (h_hash h) (h_is_max h) (h_nspace h) (h_pool h) (bitrev32 (h_hash h)).

Definition hoid_get_bitwise_key (h : ceph_hobject_id) : Z :=
  if nonzero (h_is_max h) then 0x100000000 else h_hash_reverse_bits h.
Definition hoid_get_effective_key (h : ceph_hobject_id) : list Z :=
  if nonzero (Z.of_nat (length (h_key h))) then h_key h else h_oid h.

(** The sign of [memcmp] on as many bytes as the shorter name has. *)
Fixpoint memcmp (a b : list Z) : Z :=
  match a, b with
  | x :: a, y :: b => if x <? y then -1 else if x >? y then 1 else memcmp a b
  | _, _ => 0
  end.
Definition compare_names (name1 name2 : list Z) : Z :=
  let ret := memcmp name1 name2 in
  if ret =? 0 then
    if Z.of_nat (length name1) <? Z.of_nat (length name2) then -1
    else if Z.of_nat (length name1) >? Z.of_nat (length name2) then 1 else ret
  else ret.

Definition hoid_compare (lhs rhs : ceph_hobject_id) : Z :=
  if h_is_max lhs <? h_is_max rhs then -1
  else if h_is_max lhs >? h_is_max rhs then 1
  else if h_pool lhs <? h_pool rhs then -1
  else if h_pool lhs >? h_pool rhs then 1
  else if hoid_get_bitwise_key lhs <? hoid_get_bitwise_key rhs then -1
  else if hoid_get_bitwise_key lhs >? hoid_get_bitwise_key rhs then 1
  else
    let ret := compare_names (h_nspace lhs) (h_nspace rhs) in
    if nonzero ret then ret
    else
      let ret := compare_names (hoid_get_effective_key lhs) (hoid_get_effective_key rhs) in
      if nonzero ret then ret
      else
        let ret := compare_names (h_oid lhs) (h_oid rhs) in
        if nonzero ret then ret
        else if h_snapid lhs <? h_snapid rhs then -1
        else if h_snapid lhs >? h_snapid rhs then 1 else 0.

Definition hoid_fill_from_target (t : osd_target) : ceph_hobject_id :=
  ceph_hoid_build_hash_cache
    (Hobject [] (t_target_oid t) (2 ^ 64 - 2) (pg_seed (t_pgid t)) 0
       (default [] (oloc_pool_ns (t_target_oloc t))) (oloc_pool (t_target_oloc t)) 0).

(** ** On the wire *)

Section decode.
Context {S : Type} (buf : list Z) (end_ : Z).

(** Three allocations, one for each string. *)
Definition decode_hoid (mem_ok : nat → bool) : D S ceph_hobject_id :=
  '(struct_v, _) ← ceph_start_decoding buf end_ 4;
  if struct_v <? 4 then dfail (- EINVAL)
  else
    key ← ceph_extract_encoded_string buf end_ (mem_ok 0%nat);
    oid ← ceph_extract_encoded_string buf end_ (mem_ok 1%nat);
    snapid ← ceph_decode_64_safe buf end_ (- EINVAL);
    hash ← ceph_decode_32_safe buf end_ (- EINVAL);
    is_max ← ceph_decode_8_safe buf end_ (- EINVAL);
    nspace ← ceph_extract_encoded_string buf end_ (mem_ok 2%nat);
    pool ← ceph_decode_64_safe buf end_ (- EINVAL);
    mret (ceph_hoid_build_hash_cache (Hobject key oid snapid hash is_max nspace (s64 pool) 0)).
End decode.

Definition hoid_encoding_size (h : ceph_hobject_id) : Z :=
  s32 (8 + 4 + 1 + 8 + 4 + Z.of_nat (length (h_key h)) + 4 + Z.of_nat (length (h_oid h))
       + 4 + Z.of_nat (length (h_nspace h))).

(** [room] is what is left before the end of the buffer. *)
Definition encode_hoid (room : Z) (h : ceph_hobject_id) : outcome (list Z) :=
  let l0 := ceph_start_encoding 4 3 (u32 (hoid_encoding_size h)) in
  let len l := Z.of_nat (length l) in
  l1 ← ceph_encode_string (room - len l0) (h_key h) (len (h_key h));
  l2 ← ceph_encode_string (room - len (l0 ++ l1)) (h_oid h) (len (h_oid h));
  let l3 := ceph_encode_64 (h_snapid h) ++ ceph_encode_32 (h_hash h) ++ ceph_encode_8 (h_is_max h) in
  l4 ← ceph_encode_string (room - len (l0 ++ l1 ++ l2 ++ l3)) (h_nspace h) (len (h_nspace h));
  Ret (l0 ++ l1 ++ l2 ++ l3 ++ l4 ++ ceph_encode_64 (u64 (h_pool h))).

Definition encode_pgid (pgid : ceph_pg) : list Z :=
  ceph_encode_8 1 ++ ceph_encode_64 (pg_pool pgid) ++ ceph_encode_32 (pg_seed pgid) ++ ceph_encode_32 (u32 (-1)).
Definition encode_spgid (spgid : ceph_spg) : list Z :=
  ceph_start_encoding 1 1 (CEPH_PGID_ENCODING_LEN + 1) ++ encode_pgid (spg_pgid spgid)
  ++ ceph_encode_8 (u8 (spg_shard spgid)).

Record MOSDBackoff := MkMOSDBackoff {
  mb_spgid : ceph_spg; mb_map_epoch : Z; mb_op : Z; mb_id : Z;
  mb_begin : ceph_hobject_id; mb_end : ceph_hobject_id }.

Definition CEPH_OSD_BACKOFF_OP_BLOCK : Z := 1.
Definition CEPH_OSD_BACKOFF_OP_ACK_BLOCK : Z := 2.
Definition CEPH_OSD_BACKOFF_OP_UNBLOCK : Z := 3.

(** [mem_ok]: the two objects and their strings. *)
Definition decode_MOSDBackoff (mem_ok : nat → bool) (buf : list Z) : D unit MOSDBackoff :=
  let end_ := Z.of_nat (length buf) in
  _ ← ceph_start_decoding buf end_ 1;
  pgid ← ceph_decode_pgid buf end_;
  shard ← ceph_decode_8_safe buf end_ (- EINVAL);
  map_epoch ← ceph_decode_32_safe buf end_ (- EINVAL);
  op ← ceph_decode_8_safe buf end_ (- EINVAL);
  id ← ceph_decode_64_safe buf end_ (- EINVAL);
  if negb (mem_ok 0%nat) then dfail (- ENOMEM)
  else
    begin ← decode_hoid buf end_ (λ i, mem_ok (1 + i)%nat);
    if negb (mem_ok 4%nat) then dfail (- ENOMEM)
    else
      end' ← decode_hoid buf end_ (λ i, mem_ok (5 + i)%nat);
      mret (MkMOSDBackoff (CephSpg pgid (s8 shard)) map_epoch op id begin end').

(** ** The tree of a group

    A search tree by the begin of the range.  The rebalancing of rbtree.c is not modelled: an
    insertion puts a leaf where the search ends, an erasure joins the two sides. *)
Record ceph_osd_backoff := OsdBackoff {
  bo_spgid : ceph_spg; bo_id : Z; bo_begin : ceph_hobject_id; bo_end : ceph_hobject_id }.

Inductive backoff_tree :=
  | RB_ROOT
  | rb_node (left : backoff_tree) (b : ceph_osd_backoff) (right : backoff_tree).

Fixpoint insert_backoff (b : ceph_osd_backoff) (t : backoff_tree) : outcome backoff_tree :=
  match t with
  | RB_ROOT => Ret (rb_node RB_ROOT b RB_ROOT)
  | rb_node l cur r =>
      let cmp := hoid_compare (bo_begin b) (bo_begin cur) in
      if cmp <? 0 then l ← insert_backoff b l; Ret (rb_node l cur r)
      else if cmp >? 0 then r ← insert_backoff b r; Ret (rb_node l cur r)
      else Undef
  end.

Fixpoint tree_join (l r : backoff_tree) : backoff_tree :=
  match l with RB_ROOT => r | rb_node ll b lr => rb_node ll b (tree_join lr r) end.
(** The node is found where it was inserted. *)
Fixpoint erase_backoff (b : ceph_osd_backoff) (t : backoff_tree) : outcome backoff_tree :=
  match t with
  | RB_ROOT => Undef
  | rb_node l cur r =>
      let cmp := hoid_compare (bo_begin b) (bo_begin cur) in
      if cmp <? 0 then l ← erase_backoff b l; Ret (rb_node l cur r)
      else if cmp >? 0 then r ← erase_backoff b r; Ret (rb_node l cur r)
      else Ret (tree_join l r)
  end.

Fixpoint lookup_containing_backoff (t : backoff_tree) (hoid : ceph_hobject_id) : option ceph_osd_backoff :=
  match t with
  | RB_ROOT => None
  | rb_node l cur r =>
      let cmp := hoid_compare hoid (bo_begin cur) in
      if cmp <? 0 then lookup_containing_backoff l hoid
      else if cmp >? 0 then
        if hoid_compare hoid (bo_end cur) <? 0 then Some cur else lookup_containing_backoff r hoid
      else Some cur
  end.

Definition create_backoff_message (mem_ok : bool) (b : ceph_osd_backoff) (map_epoch : Z)
    : outcome (option (list Z)) :=
  let msg_size := CEPH_ENCODING_START_BLK_LEN + CEPH_PGID_ENCODING_LEN + 1 + (4 + 1 + 8)
    + (CEPH_ENCODING_START_BLK_LEN + hoid_encoding_size (bo_begin b))
    + (CEPH_ENCODING_START_BLK_LEN + hoid_encoding_size (bo_end b)) in
  if negb mem_ok then Ret None
  else
    let l0 := encode_spgid (bo_spgid b) ++ ceph_encode_32 map_epoch
              ++ ceph_encode_8 CEPH_OSD_BACKOFF_OP_ACK_BLOCK ++ ceph_encode_64 (bo_id b) in
    l1 ← encode_hoid (msg_size - Z.of_nat (length l0)) (bo_begin b);
    l2 ← encode_hoid (msg_size - Z.of_nat (length (l0 ++ l1))) (bo_end b);
    _ ← require (Z.of_nat (length (l0 ++ l1 ++ l2)) =? msg_size);
    Ret (Some (l0 ++ l1 ++ l2)).

Definition target_contained_by (t : osd_target) (begin end_ : ceph_hobject_id) : bool :=
  let hoid := hoid_fill_from_target t in
  let cmp := hoid_compare hoid begin in
  (cmp =? 0) || (cmp >? 0) && (hoid_compare hoid end_ <? 0).


(** ** The backoffs of a session

    A tree for each placement group, and all of them by their identifier. *)
Record backoffs := Backoffs {
  o_backoff_mappings : gmap ceph_spg backoff_tree;
  o_backoffs_by_id : gmap Z ceph_osd_backoff }.

Definition set_mappings (b : backoffs) m := Backoffs m (o_backoffs_by_id b).
Definition set_by_id (b : backoffs) i := Backoffs (o_backoff_mappings b) i.

Definition should_plug_request (b : backoffs) (t : osd_target) : bool :=
  match o_backoff_mappings b !! t_spgid t with
  | None => false
  | Some spg =>
      match lookup_containing_backoff spg (hoid_fill_from_target t) with None => false | Some _ => true end
  end.

(** The answer, when there is memory for it.  [mem_ok]: the group, the backoff, the message. *)
Definition handle_backoff_block (mem_ok : nat → bool) (b : backoffs) (m : MOSDBackoff)
    : outcome (backoffs * option (list Z)) :=
  '(b, ok) ← (match o_backoff_mappings b !! mb_spgid m with
              | Some _ => Ret (b, true)
              | None =>
                  if negb (mem_ok 0%nat) then Ret (b, false)
                  else
                    ms ← rb_insert (mb_spgid m) RB_ROOT (o_backoff_mappings b);
                    Ret (set_mappings b ms, true)
              end);
  if negb ok || negb (mem_ok 1%nat) then Ret (b, None)
  else
    let backoff := OsdBackoff (mb_spgid m) (mb_id m) (mb_begin m) (mb_end m) in
    spg ← deref (o_backoff_mappings b !! mb_spgid m);
    spg ← insert_backoff backoff spg;
    ids ← rb_insert (bo_id backoff) backoff (o_backoffs_by_id b);
    msg ← create_backoff_message (mem_ok 2%nat) backoff (mb_map_epoch m);
    Ret (Backoffs (<[mb_spgid m := spg]> (o_backoff_mappings b)) ids, msg).

(** The part of [handle_backoff_unblock] before the requests: [false] when there is no such
    backoff.  A range that differs is logged only. *)
Definition remove_backoff (b : backoffs) (m : MOSDBackoff) : outcome (backoffs * bool) :=
  match o_backoffs_by_id b !! mb_id m with
  | None => Ret (b, false)
  | Some backoff =>
      spg ← deref (o_backoff_mappings b !! bo_spgid backoff);
      spg ← erase_backoff backoff spg;
      ids ← rb_erase (bo_id backoff) (o_backoffs_by_id b);
      match spg with
      | RB_ROOT =>
          ms ← rb_erase (bo_spgid backoff) (o_backoff_mappings b);
          Ret (Backoffs ms ids, true)
      | _ => Ret (Backoffs (<[bo_spgid backoff := spg]> (o_backoff_mappings b)) ids, true)
      end
  end.

(** [rb_first] of the tree of a group. *)
Fixpoint rb_first_backoff (t : backoff_tree) : option ceph_osd_backoff :=
  match t with
  | RB_ROOT => None
  | rb_node RB_ROOT b _ => Some b
  | rb_node l _ _ => rb_first_backoff l
  end.
Fixpoint backoff_count (t : backoff_tree) : nat :=
  match t with RB_ROOT => 0 | rb_node l _ r => S (backoff_count l + backoff_count r) end.

Definition clear_group (spg : backoff_tree) (ids : gmap Z ceph_osd_backoff)
    : outcome (gmap Z ceph_osd_backoff) :=
  loop (S (backoff_count spg)) (λ '(spg, ids),
    match rb_first_backoff spg with
    | None => Ret (inr ids)
    | Some backoff =>
        spg ← erase_backoff backoff spg;
        ids ← rb_erase (bo_id backoff) ids;
        Ret (inl (spg, ids))
    end) (spg, ids).
(** The groups go one by one; in which order makes no difference to what is left. *)
Definition clear_backoffs (b : backoffs) : outcome backoffs :=
  ids ← foldr (λ '(_, spg) ids, ids ← ids; clear_group spg ids) (Ret (o_backoffs_by_id b))
          (map_to_list (o_backoff_mappings b));
  Ret (Backoffs ∅ ids).


(** * Three-way comparisons

    What the code's comparison functions promise each other; the order of objects is a
    lexicographic combination of them. *)

Class Comparison {A} (c : A → A → Z) : Prop := {
  cmp_opp x y : c y x = - c x y;
  cmp_trans x y z : c x y <= 0 → c y z <= 0 → c x z <= 0 }.

Definition zcmp (x y : Z) : Z := if x <? y then -1 else if x >? y then 1 else 0.
Definition lexc {A} (c c' : A → A → Z) (x y : A) : Z := if c x y =? 0 then c' x y else c x y.
Definition onc {A B} (f : A → B) (c : B → B → Z) (x y : A) : Z := c (f x) (f y).

#[export] Instance zcmp_comparison : Comparison zcmp.
Proof. split; intros *; unfold zcmp; repeat case_match; lia. Qed.

#[export] Instance onc_comparison {A B} (f : A → B) c : Comparison c → Comparison (onc f c).
Proof. intros [Ho Ht]. split; unfold onc; eauto. Qed.

Section comparison.
Context {A : Type} (c : A → A → Z) `{!Comparison c}.

Lemma cmp_refl x : c x x = 0.
Proof. pose proof (cmp_opp (c := c) x x). lia. Qed.

Lemma cmp_lt_le_trans x y z : c x y < 0 → c y z <= 0 → c x z < 0.
Proof.
  intros Hxy Hyz. destruct (decide (c x z < 0)) as [|Hn]; [done|exfalso].
  pose proof (cmp_opp (c := c) x z). pose proof (cmp_opp (c := c) x y).
  pose proof (cmp_trans (c := c) y z x). lia.
Qed.

Lemma cmp_le_lt_trans x y z : c x y <= 0 → c y z < 0 → c x z < 0.
Proof.
  intros Hxy Hyz. destruct (decide (c x z < 0)) as [|Hn]; [done|exfalso].
  pose proof (cmp_opp (c := c) x z). pose proof (cmp_opp (c := c) y z).
  pose proof (cmp_trans (c := c) z x y). lia.
Qed.

(** Objects that compare equal cannot be told apart by the order. *)
Lemma cmp_equal_l x y z : c x y = 0 → c x z = 0 ↔ c y z = 0.
Proof.
  intros H. pose proof (cmp_opp (c := c) x y). pose proof (cmp_opp (c := c) x z).
  pose proof (cmp_opp (c := c) y z). pose proof (cmp_trans (c := c) x y z).
  pose proof (cmp_trans (c := c) z y x). pose proof (cmp_trans (c := c) y x z).
  pose proof (cmp_trans (c := c) z x y). lia.
Qed.

#[export] Instance cmp_equivalence : Equivalence (λ x y, c x y = 0).
Proof.
  split; [exact cmp_refl | intros x y | intros x y z Hxy Hyz]; [|by apply (cmp_equal_l x y)].
  pose proof (cmp_opp (c := c) x y). lia.
Qed.

#[export] Instance lexc_comparison c' : Comparison c' → Comparison (lexc c c').
Proof.
  intros C'. split; unfold lexc.
  - intros x y. pose proof (cmp_opp (c := c) x y). pose proof (cmp_opp (c := c') x y).
    repeat case_match; bool_to_prop; lia.
  - intros x y z. destruct (c x y =? 0) eqn:Hxy, (c y z =? 0) eqn:Hyz; bool_to_prop; intros H1 H2.
    + assert (c x z = 0) as ->; [by apply (cmp_equal_l x y)|]. by apply (cmp_trans x y z).
    + pose proof (cmp_le_lt_trans x y z). case_match; bool_to_prop; lia.
    + pose proof (cmp_lt_le_trans x y z). case_match; bool_to_prop; lia.
    + pose proof (cmp_lt_le_trans x y z). case_match; bool_to_prop; lia.
Qed.
End comparison.

(** ** Names

    The code compares the common prefix as bytes and then the lengths. *)
Fixpoint list_cmp (a b : list Z) : Z :=
  match a, b with
  | [], [] => 0 | [], _ => -1 | _, [] => 1
  | x :: a, y :: b => if zcmp x y =? 0 then list_cmp a b else zcmp x y
  end.

Lemma compare_names_lexicographic a b : compare_names a b = list_cmp a b.
Proof.
  revert b. induction a as [|x a IH]; intros [|y b]; try done.
  specialize (IH b). unfold compare_names in *. cbn [memcmp list_cmp length]. cbn zeta in *.
  rewrite <- IH. unfold zcmp. repeat (case_match; bool_to_prop); lia.
Qed.

Lemma list_cmp_opp a b : list_cmp b a = - list_cmp a b.
Proof.
  revert b. induction a as [|x a IH]; intros [|y b]; try done. cbn. rewrite (cmp_opp (c := zcmp) x y).
  rewrite IH. repeat case_match; bool_to_prop; lia.
Qed.

Lemma list_cmp_trans a b c : list_cmp a b <= 0 → list_cmp b c <= 0 → list_cmp a c <= 0.
Proof.
  revert b c. induction a as [|x a IH]; intros [|y b] [|z c]; try (cbn; lia).
  cbn. specialize (IH b c). unfold zcmp. repeat case_match; bool_to_prop; lia.
Qed.

#[export] Instance compare_names_comparison : Comparison compare_names.
Proof.
  split; intros *; rewrite ?compare_names_lexicographic; [apply list_cmp_opp | apply list_cmp_trans].
Qed.

(** ** Objects *)

Definition hoid_order : ceph_hobject_id → ceph_hobject_id → Z :=
  lexc (onc h_is_max zcmp) (lexc (onc h_pool zcmp) (lexc (onc hoid_get_bitwise_key zcmp)
    (lexc (onc h_nspace compare_names) (lexc (onc hoid_get_effective_key compare_names)
      (lexc (onc h_oid compare_names) (onc h_snapid zcmp)))))).

Lemma hoid_compare_order a b : hoid_compare a b = hoid_order a b.
Proof.
  unfold hoid_compare, hoid_order, lexc, onc, zcmp, nonzero.
  repeat (case_match; bool_to_prop; try lia; try done).
Qed.

#[export] Instance hoid_comparison : Comparison hoid_compare.
Proof.
  pose proof (_ : Comparison hoid_order) as [Ho Ht].
  split; intros *; rewrite !hoid_compare_order; [apply Ho | apply Ht].
Qed.

(** * The trees against the ranges they hold *)

Fixpoint ranges (t : backoff_tree) : list ceph_osd_backoff :=
  match t with RB_ROOT => [] | rb_node l b r => ranges l ++ b :: ranges r end.

(** The objects a backoff holds back: its begin, and what lies between its begin and its end. *)
Definition contains (b : ceph_osd_backoff) (h : ceph_hobject_id) : Prop :=
  hoid_compare h (bo_begin b) = 0 ∨ 0 < hoid_compare h (bo_begin b) ∧ hoid_compare h (bo_end b) < 0.

(** One range ends before the other begins. *)
Definition before (a b : ceph_osd_backoff) : Prop :=
  hoid_compare (bo_begin a) (bo_begin b) < 0 ∧ hoid_compare (bo_end a) (bo_begin b) <= 0.

Definition tree_ok (t : backoff_tree) : Prop := StronglySorted before (ranges t).

Lemma before_trans a b c : before a b → before b c → before a c.
Proof.
  intros [H1 H2] [H3 H4].
  pose proof (cmp_lt_le_trans hoid_compare (bo_begin a) (bo_begin b) (bo_begin c)).
  pose proof (cmp_trans (c := hoid_compare) (bo_end a) (bo_begin b) (bo_begin c)).
  unfold before. lia.
Qed.

Lemma tree_ok_node l b r :
  tree_ok (rb_node l b r) →
  tree_ok l ∧ tree_ok r ∧ (∀ x, x ∈ ranges l → before x b) ∧ (∀ x, x ∈ ranges r → before b x).
Proof.
  unfold tree_ok. cbn [ranges]. intros H. destruct (StronglySorted_mid _ _ _ _ H).
  rewrite StronglySorted_app, StronglySorted_cons in H. tauto.
Qed.

Lemma tree_ok_node_2 l b r :
  tree_ok l → tree_ok r → (∀ x, x ∈ ranges l → before x b) → (∀ x, x ∈ ranges r → before b x) →
  tree_ok (rb_node l b r).
Proof.
  unfold tree_ok. cbn [ranges]. intros Hl Hr Hlb Hbr. apply StronglySorted_insert_mid; [|done..].
  apply StronglySorted_app. split_and!; [|done..].
  intros x y Hx Hy. eapply before_trans; [by apply Hlb | by apply Hbr].
Qed.

Lemma before_excludes_l a b h : before a b → hoid_compare h (bo_begin b) >= 0 → ¬ contains a h.
Proof.
  intros [H1 H2] Hh Hc.
  pose proof (cmp_opp (c := hoid_compare) (bo_begin b) h).
  destruct Hc as [Hc|[Hc1 Hc2]].
  - pose proof (cmp_le_lt_trans hoid_compare h (bo_begin a) (bo_begin b)). lia.
  - pose proof (cmp_lt_le_trans hoid_compare h (bo_end a) (bo_begin b)). lia.
Qed.

Lemma before_excludes_r a b h : before a b → hoid_compare h (bo_begin a) < 0 → ¬ contains b h.
Proof.
  intros [H1 H2] Hh Hc. pose proof (cmp_lt_le_trans hoid_compare h (bo_begin a) (bo_begin b)).
  destruct Hc; lia.
Qed.

Lemma before_excludes_end a b h : before a b → hoid_compare h (bo_end a) < 0 → ¬ contains b h.
Proof.
  intros [H1 H2] Hh Hc. pose proof (cmp_lt_le_trans hoid_compare h (bo_end a) (bo_begin b)).
  destruct Hc; lia.
Qed.

(** No matter how the tree is balanced, the search finds the one range with the object. *)
Lemma lookup_backoff_spec t h :
  tree_ok t →
  match lookup_containing_backoff t h with
  | Some b => b ∈ ranges t ∧ contains b h ∧ (∀ b', b' ∈ ranges t → contains b' h → b' = b)
  | None => ∀ b, b ∈ ranges t → ¬ contains b h
  end.
Proof.
  induction t as [|l IHl cur r IHr]; intros Hok; [by intros b ?%elem_of_nil|].
  apply tree_ok_node in Hok as (Hl & Hr & Hlc & Hcr). specialize (IHl Hl). specialize (IHr Hr).
  cbn [lookup_containing_backoff ranges]. cbv zeta.
  destruct (hoid_compare h (bo_begin cur) <? 0) eqn:H1; bool_to_prop.
  { assert (Hn : ∀ b, b = cur ∨ b ∈ ranges r → ¬ contains b h).
    { intros b [->|Hb]; [unfold contains; lia|]. by eapply before_excludes_r; [apply Hcr|]. }
    destruct (lookup_containing_backoff l h); set_solver. }
  assert (Hn : ∀ b, b ∈ ranges l → ¬ contains b h).
  { intros b Hb. eapply before_excludes_l; [by apply Hlc|]. lia. }
  destruct (hoid_compare h (bo_begin cur) >? 0) eqn:H2; bool_to_prop.
  - destruct (hoid_compare h (bo_end cur) <? 0) eqn:H3; bool_to_prop.
    + assert (∀ b, b ∈ ranges r → ¬ contains b h).
      { intros b Hb. by eapply before_excludes_end; [apply Hcr|]. }
      split_and!; [set_solver|unfold contains; lia|set_solver].
    + assert (¬ contains cur h) by (unfold contains; lia).
      destruct (lookup_containing_backoff r h); set_solver.
  - assert (Hc : hoid_compare h (bo_begin cur) = 0) by lia.
    assert (∀ b, b ∈ ranges r → ¬ contains b h).
    { intros b [Hb1 Hb2]%Hcr Hcb. pose proof (cmp_le_lt_trans hoid_compare h (bo_begin cur) (bo_begin b)).
      destruct Hcb; lia. }
    split_and!; [set_solver|by left|set_solver].
Qed.

Lemma insert_backoff_spec b t :
  tree_ok t → (∀ x, x ∈ ranges t → before x b ∨ before b x) →
  wp (insert_backoff b t) (λ t', tree_ok t' ∧ ranges t' ≡ₚ b :: ranges t).
Proof.
  induction t as [|l IHl cur r IHr]; intros Hok Hdis.
  { apply wp_ret. split; [repeat constructor|done]. }
  apply tree_ok_node in Hok as (Hl & Hr & Hlc & Hcr). cbn [insert_backoff ranges] in *. cbv zeta.
  pose proof (cmp_opp (c := hoid_compare) (bo_begin b) (bo_begin cur)).
  destruct (Hdis cur) as [Hbc|Hbc]; [set_solver| |]; pose proof Hbc as [Hlt _].
  - rewrite (proj2 (Z.ltb_ge _ _)), (proj2 (Z.gtb_gt _ _)) by lia. apply wp_bind.
    eapply wp_mono; [apply IHr; [done|set_solver]|]. intros r' [Hr' Hp]. apply wp_ret.
    split; [|cbn; rewrite Hp; solve_Permutation].
    apply tree_ok_node_2; [done..|]. intros x. rewrite Hp. set_solver.
  - rewrite (proj2 (Z.ltb_lt _ _)) by lia. apply wp_bind.
    eapply wp_mono; [apply IHl; [done|set_solver]|]. intros l' [Hl' Hp]. apply wp_ret.
    split; [|cbn; by rewrite Hp].
    apply tree_ok_node_2; [done..| |done]. intros x. rewrite Hp. set_solver.
Qed.

Lemma ranges_join l r : ranges (tree_join l r) = ranges l ++ ranges r.
Proof. induction l as [|ll _ b lr IH]; [done|]. cbn. by rewrite IH, <- app_assoc. Qed.

Lemma erase_backoff_spec b t :
  tree_ok t → b ∈ ranges t →
  wp (erase_backoff b t) (λ t', tree_ok t' ∧ b :: ranges t' ≡ₚ ranges t
                                ∧ (∀ x, x ∈ ranges t' → before x b ∨ before b x)).
Proof.
  induction t as [|l IHl cur r IHr]; intros Hok Hin; [set_solver|].
  apply tree_ok_node in Hok as (Hl & Hr & Hlc & Hcr). cbn [erase_backoff ranges] in *. cbv zeta.
  apply elem_of_app in Hin as [Hin|[->|Hin]%elem_of_cons].
  - pose proof (Hlc b Hin) as Hb. pose proof Hb as [Hlt _].
    rewrite (proj2 (Z.ltb_lt _ _)) by lia. apply wp_bind.
    eapply wp_mono; [by apply IHl|]. intros l' (Hl' & Hp & Hd). apply wp_ret. cbn [ranges].
    split_and!; [|rewrite <- Hp; solve_Permutation|].
    + apply tree_ok_node_2; [done..| |done]. intros x Hx. apply Hlc. rewrite <- Hp. set_solver.
    + intros x [Hx|[->|Hx]%elem_of_cons]%elem_of_app; [auto..|].
      right. eapply before_trans; [exact Hb|auto].
  - rewrite (cmp_refl hoid_compare). cbn. apply wp_ret.
    split_and!; [|rewrite ranges_join; solve_Permutation|rewrite ranges_join; set_solver].
    unfold tree_ok. rewrite ranges_join. apply StronglySorted_app. split_and!; [|done..].
    intros x y Hx Hy. eapply before_trans; [by apply Hlc | by apply Hcr].
  - pose proof (Hcr b Hin) as Hb. pose proof Hb as [Hlt _].
    pose proof (cmp_opp (c := hoid_compare) (bo_begin b) (bo_begin cur)).
    rewrite (proj2 (Z.ltb_ge _ _)), (proj2 (Z.gtb_gt _ _)) by lia. apply wp_bind.
    eapply wp_mono; [by apply IHr|]. intros r' (Hr' & Hp & Hd). apply wp_ret. cbn [ranges].
    split_and!; [|rewrite <- Hp; solve_Permutation|].
    + apply tree_ok_node_2; [done..|]. intros x Hx. apply Hcr. rewrite <- Hp. set_solver.
    + intros x [Hx|[->|Hx]%elem_of_cons]%elem_of_app; [|auto..].
      left. eapply before_trans; [by apply Hlc|exact Hb].
Qed.

(** * The acknowledgement *)

Definition enc_hoid (h : ceph_hobject_id) : list Z :=
  ceph_start_encoding 4 3 (u32 (hoid_encoding_size h)) ++ enc_string (h_key h) ++ enc_string (h_oid h)
  ++ ceph_encode_64 (h_snapid h) ++ ceph_encode_32 (h_hash h) ++ ceph_encode_8 (h_is_max h)
  ++ enc_string (h_nspace h) ++ ceph_encode_64 (u64 (h_pool h)).

(** An object that fits the wire, with its cache built. *)
Record wire_hoid (h : ceph_hobject_id) : Prop := {
  wh_size : Z.of_nat (length (h_key h)) + Z.of_nat (length (h_oid h)) + Z.of_nat (length (h_nspace h))
            < 2 ^ 30;
  wh_snapid : 0 <= h_snapid h < 2 ^ 64;
  wh_hash : word (h_hash h);
  wh_is_max : 0 <= h_is_max h < 2 ^ 8;
  wh_pool : - 2 ^ 63 <= h_pool h < 2 ^ 63;
  wh_cache : h_hash_reverse_bits h = bitrev32 (h_hash h) }.

Lemma hoid_encoding_size_spec h :
  wire_hoid h →
  hoid_encoding_size h = 33 + Z.of_nat (length (h_key h)) + Z.of_nat (length (h_oid h))
    + Z.of_nat (length (h_nspace h)).
Proof. intros []. unfold hoid_encoding_size. rewrite s32_small; lia. Qed.

Lemma length_enc_hoid h :
  wire_hoid h → Z.of_nat (length (enc_hoid h)) = CEPH_ENCODING_START_BLK_LEN + hoid_encoding_size h.
Proof.
  intros Hw. rewrite hoid_encoding_size_spec by done.
  unfold enc_hoid, enc_string, CEPH_ENCODING_START_BLK_LEN. rewrite !length_app. cbn. lia.
Qed.

Lemma encode_string_spec room s :
  4 + Z.of_nat (length s) <= room → ceph_encode_string room s (Z.of_nat (length s)) = Ret (enc_string s).
Proof.
  intros Hr. unfold ceph_encode_string. rewrite Z.gtb_ltb, (proj2 (Z.ltb_ge _ _)) by lia.
  cbn [negb require mbind outcome_bind]. assert (H : slice s 0 (Z.of_nat (length s)) = Ret s).
  { pose proof (slice_at [] s []) as H. by rewrite app_nil_r in H. }
  by rewrite H.
Qed.

Lemma encode_hoid_spec room h :
  wire_hoid h → CEPH_ENCODING_START_BLK_LEN + hoid_encoding_size h <= room →
  encode_hoid room h = Ret (enc_hoid h).
Proof.
  intros Hw Hroom. rewrite hoid_encoding_size_spec in Hroom by done.
  unfold CEPH_ENCODING_START_BLK_LEN in Hroom. unfold encode_hoid. cbv zeta.
  do 3 (rewrite encode_string_spec by (unfold enc_string; rewrite ?length_app; cbn; lia);
        cbn [mbind outcome_bind]).
  unfold enc_hoid. by rewrite <- !app_assoc.
Qed.

Lemma parses_string {S} off s :
  Z.of_nat (length s) < 2 ^ 32 →
  parses (S := S) off (λ buf e, ceph_extract_encoded_string buf e true) (enc_string s) s.
Proof.
  intros Hs. assert (H : parses (S := S) off (λ buf e, len ← ceph_decode_32_safe buf e (- ERANGE);
    _ ← ceph_decode_need e len (- ERANGE); ceph_decode_copy buf len) (enc_string s) s).
  { eapply parses_bind; [apply parses_32_safe; lia|]. apply parses_need; [done|]. by apply parses_copy. }
  intros pre post e st Hpre He. unfold ceph_extract_encoded_string. cbn [negb].
  rewrite (H pre post e st Hpre He). cbn [mbind outcome_bind]. unfold enc_string. rewrite length_app.
  do 2 f_equal. cbn. lia.
Qed.

Lemma parses_hoid {S} off h :
  wire_hoid h → parses (S := S) off (λ buf e, decode_hoid buf e (λ _, true)) (enc_hoid h) h.
Proof.
  intros Hw. pose proof (length_enc_hoid h Hw) as Hlen. pose proof (hoid_encoding_size_spec h Hw) as Hsz.
  destruct Hw. unfold word in *. rewrite Hsz in Hlen. unfold CEPH_ENCODING_START_BLK_LEN in Hlen.
  unfold decode_hoid, enc_hoid. apply parses_start; [lia..| | |].
  { rewrite Hsz. apply u32_range. }
  { rewrite Hsz, u32_small by lia. unfold enc_hoid in Hlen. rewrite length_app in Hlen. cbn in Hlen. cbn. lia. }
  cbv beta iota. change (4 <? 4) with false. cbv iota.
  eapply parses_bind; [apply parses_string; lia|]. eapply parses_bind; [apply parses_string; lia|].
  eapply parses_bind; [by apply parses_64_safe|]. eapply parses_bind; [by apply parses_32_safe|].
  eapply parses_bind; [by apply parses_8_safe|]. eapply parses_bind; [apply parses_string; lia|].
  eapply parses_bind_ret; [apply parses_64_safe, u64_range|].
  rewrite s64_of_u64 by (unfold int64; lia). unfold ceph_hoid_build_hash_cache.
  cbn [h_key h_oid h_snapid h_hash h_is_max h_nspace h_pool]. rewrite <- wh_cache0.
  destruct h. apply parses_ret.
Qed.

(** A placement group and a shard that fit the wire. *)
Definition wire_spg (spg : ceph_spg) : Prop := wire_pg (spg_pgid spg) ∧ - 2 ^ 7 <= spg_shard spg < 2 ^ 7.

Lemma s8_of_u8 x : - 2 ^ 7 <= x < 2 ^ 7 → s8 (u8 x) = x.
Proof.
  intros Hx. unfold s8, u8. replace ((x mod 2 ^ 8 + 2 ^ 7) mod 2 ^ 8) with ((x + 2 ^ 7) mod 2 ^ 8).
  - rewrite Z.mod_small; lia.
  - rewrite Zplus_mod_idemp_l. done.
Qed.

Record wire_backoff (b : ceph_osd_backoff) : Prop := {
  wb_spgid : wire_spg (bo_spgid b);
  wb_id : 0 <= bo_id b < 2 ^ 64;
  wb_begin : wire_hoid (bo_begin b);
  wb_end : wire_hoid (bo_end b) }.

Definition enc_backoff (b : ceph_osd_backoff) (epoch op : Z) : list Z :=
  encode_spgid (bo_spgid b) ++ ceph_encode_32 epoch ++ ceph_encode_8 op ++ ceph_encode_64 (bo_id b)
  ++ enc_hoid (bo_begin b) ++ enc_hoid (bo_end b).

Lemma length_encode_spgid spg :
  Z.of_nat (length (encode_spgid spg)) = CEPH_ENCODING_START_BLK_LEN + CEPH_PGID_ENCODING_LEN + 1.
Proof. done. Qed.

Lemma create_backoff_message_spec b epoch :
  wire_backoff b →
  create_backoff_message true b epoch = Ret (Some (enc_backoff b epoch CEPH_OSD_BACKOFF_OP_ACK_BLOCK)).
Proof.
  intros []. unfold create_backoff_message. cbn [negb]. cbv zeta.
  pose proof (length_enc_hoid (bo_begin b) ltac:(done)) as Hb.
  pose proof (length_enc_hoid (bo_end b) ltac:(done)) as He.
  pose proof (hoid_encoding_size_spec (bo_begin b) ltac:(done)).
  pose proof (hoid_encoding_size_spec (bo_end b) ltac:(done)).
  set (l0 := encode_spgid _ ++ _).
  assert (Hl0 : Z.of_nat (length l0) = CEPH_ENCODING_START_BLK_LEN + CEPH_PGID_ENCODING_LEN + 1 + 13) by done.
  rewrite encode_hoid_spec by (done || lia). cbn [mbind outcome_bind].
  rewrite encode_hoid_spec by (done || (rewrite length_app; lia)). cbn [mbind outcome_bind].
  rewrite (proj2 (Z.eqb_eq _ _)) by (rewrite !length_app; lia). cbn [require mbind outcome_bind].
  done.
Qed.

Lemma parses_spgid {S A} off spg (f : list Z → Z → ceph_spg → D S A) bs a :
  wire_spg spg →
  parses (off + Z.of_nat (length (encode_spgid spg))) (λ buf e, f buf e spg) bs a →
  parses off (λ buf e, _ ← ceph_start_decoding buf e 1; pgid ← ceph_decode_pgid buf e;
                       shard ← ceph_decode_8_safe buf e (- EINVAL); f buf e (CephSpg pgid (s8 shard)))
    (encode_spgid spg ++ bs) a.
Proof.
  intros [Hpg Hsh] Hf. unfold encode_spgid. rewrite <- !app_assoc.
  apply parses_start; [lia..| | |]; [done|rewrite length_app; unfold CEPH_PGID_ENCODING_LEN; cbn; lia|].
  eapply parses_bind; [by apply parses_pgid|].
  eapply parses_bind; [apply parses_8_safe, Prelude.u8_range|]. cbv beta. rewrite s8_of_u8 by done.
  replace (CephSpg (spg_pgid spg) (spg_shard spg)) with spg by (by destruct spg).
  assert (Ho : off + Z.of_nat (length (encode_spgid spg)) = off + CEPH_ENCODING_START_BLK_LEN
    + Z.of_nat (length (enc_pgid (spg_pgid spg))) + Z.of_nat (length (ceph_encode_8 (u8 (spg_shard spg)))))
    by (rewrite <- !Z.add_assoc; f_equal).
  rewrite Ho in Hf. exact Hf.
Qed.

Lemma parses_backoff off b epoch op :
  wire_backoff b → word epoch → 0 <= op < 2 ^ 8 →
  parses (S := unit) off (λ buf e, _ ← ceph_start_decoding buf e 1; pgid ← ceph_decode_pgid buf e;
      shard ← ceph_decode_8_safe buf e (- EINVAL); map_epoch ← ceph_decode_32_safe buf e (- EINVAL);
      op ← ceph_decode_8_safe buf e (- EINVAL); id ← ceph_decode_64_safe buf e (- EINVAL);
      begin ← decode_hoid buf e (λ i, true); end' ← decode_hoid buf e (λ i, true);
      mret (MkMOSDBackoff (CephSpg pgid (s8 shard)) map_epoch op id begin end'))
    (enc_backoff b epoch op) (MkMOSDBackoff (bo_spgid b) epoch op (bo_id b) (bo_begin b) (bo_end b)).
Proof.
  intros [] Hepoch Hop. unfold enc_backoff.
  eapply (parses_spgid off _ (λ buf e spg, map_epoch ← ceph_decode_32_safe buf e (- EINVAL);
      op ← ceph_decode_8_safe buf e (- EINVAL); id ← ceph_decode_64_safe buf e (- EINVAL);
      begin ← decode_hoid buf e (λ i, true); end' ← decode_hoid buf e (λ i, true);
      mret (MkMOSDBackoff spg map_epoch op id begin end'))); [done|].
  eapply parses_bind; [by apply parses_32_safe|]. eapply parses_bind; [by apply parses_8_safe|].
  eapply parses_bind; [by apply parses_64_safe|]. eapply parses_bind; [by apply parses_hoid|].
  eapply parses_bind_ret; [by apply parses_hoid|]. apply parses_ret.
Qed.

Lemma decode_MOSDBackoff_spec b epoch op :
  wire_backoff b → word epoch → 0 <= op < 2 ^ 8 →
  decode_MOSDBackoff (λ _, true) (enc_backoff b epoch op) () 0
  = Ret (inl (MkMOSDBackoff (bo_spgid b) epoch op (bo_id b) (bo_begin b) (bo_end b)), (),
         Z.of_nat (length (enc_backoff b epoch op))).
Proof.
  intros Hb He Hop.
  pose proof (parses_backoff 0 b epoch op Hb He Hop [] [] _ tt eq_refl (Z.le_refl _)) as H.
  cbn [app] in H. rewrite app_nil_r in H. exact H.
Qed.

(** * The backoffs of a session *)

Record session_ok (b : backoffs) : Prop := {
  so_groups spg tr : o_backoff_mappings b !! spg = Some tr →
    tree_ok tr ∧ ∀ x, x ∈ ranges tr → bo_spgid x = spg ∧ o_backoffs_by_id b !! bo_id x = Some x;
  so_ids id x : o_backoffs_by_id b !! id = Some x →
    bo_id x = id ∧ ∃ tr, o_backoff_mappings b !! bo_spgid x = Some tr ∧ x ∈ ranges tr }.

(** The objects that a set of backoffs holds back. *)
Definition held_back (ids : gmap Z ceph_osd_backoff) (t : osd_target) : Prop :=
  ∃ id x, ids !! id = Some x ∧ bo_spgid x = t_spgid t ∧ contains x (hoid_fill_from_target t).

Lemma session_ok_empty : session_ok (Backoffs ∅ ∅).
Proof. split; intros *; cbn [o_backoff_mappings o_backoffs_by_id]; by rewrite lookup_empty. Qed.

Lemma should_plug_spec b t :
  session_ok b → should_plug_request b t = true ↔ held_back (o_backoffs_by_id b) t.
Proof.
  intros [Hg Hi]. unfold should_plug_request, held_back.
  destruct (o_backoff_mappings b !! t_spgid t) as [tr|] eqn:Htr; cycle 1.
  { split; [done|]. intros (id & x & (? & tr & Htr' & ?)%Hi & Hx & _). rewrite Hx in Htr'. congruence. }
  destruct (Hg _ _ Htr) as [Hok Hin]. pose proof (lookup_backoff_spec tr (hoid_fill_from_target t) Hok) as H.
  destruct (lookup_containing_backoff _ _) as [x|].
  - destruct H as (Hx & Hc & _). destruct (Hin x Hx). naive_solver.
  - split; [done|]. intros (id & x & (? & tr' & Htr' & Hx')%Hi & Hx & Hc). rewrite Hx, Htr in Htr'.
    simplify_eq. by destruct (H x Hx').
Qed.

(** A new group, empty so far. *)
Lemma session_ok_group b spg :
  session_ok b → o_backoff_mappings b !! spg = None →
  session_ok (set_mappings b (<[spg := RB_ROOT]> (o_backoff_mappings b))).
Proof.
  intros [Hg Hi] Hn. split; cbn [set_mappings o_backoff_mappings o_backoffs_by_id].
  - intros spg' tr [[<- <-]|[? ?]]%lookup_insert_Some; [|by apply Hg].
    split; [constructor|]. by intros x ?%elem_of_nil.
  - intros id x (? & tr & Htr & ?)%Hi. split; [done|]. exists tr.
    rewrite lookup_insert_ne by congruence. done.
Qed.

Lemma before_irrefl a : ¬ before a a.
Proof. intros [H _]. rewrite (cmp_refl hoid_compare) in H. lia. Qed.

(** A group gains a backoff. *)
Lemma session_ok_add b x tr tr' :
  session_ok b → o_backoff_mappings b !! bo_spgid x = Some tr → o_backoffs_by_id b !! bo_id x = None →
  tree_ok tr' → ranges tr' ≡ₚ x :: ranges tr →
  session_ok (Backoffs (<[bo_spgid x := tr']> (o_backoff_mappings b)) (<[bo_id x := x]> (o_backoffs_by_id b))).
Proof.
  intros [Hg Hi] Htr Hn Hok Hp. split; cbn [o_backoff_mappings o_backoffs_by_id].
  - intros spg tr0 [[<- <-]|[Hne Htr0]]%lookup_insert_Some.
    + split; [done|]. intros y. rewrite Hp. intros [->|Hy]%elem_of_cons; [by rewrite lookup_insert_eq|].
      destruct (Hg _ _ Htr) as [_ Hin]. destruct (Hin y Hy) as [? Hy']. split; [done|].
      rewrite lookup_insert_ne; [done|]. intros Heq. rewrite Heq in Hn. congruence.
    + destruct (Hg _ _ Htr0) as [? Hin]. split; [done|]. intros y [? Hy]%Hin. split; [done|].
      rewrite lookup_insert_ne; [done|]. congruence.
  - intros id y [[<- <-]|[Hne (? & tr0 & Htr0 & Hy)%Hi]]%lookup_insert_Some.
    + split; [done|]. exists tr'. rewrite lookup_insert_eq, Hp. set_solver.
    + split; [done|]. destruct (decide (bo_spgid y = bo_spgid x)) as [Heq|].
      * exists tr'. rewrite Heq, lookup_insert_eq, Hp. rewrite Heq in Htr0. set_solver.
      * exists tr0. by rewrite lookup_insert_ne.
Qed.

(** A group loses a backoff; an empty group may go. *)
Lemma session_ok_remove b x tr tr' (ms : gmap ceph_spg backoff_tree) :
  session_ok b → o_backoffs_by_id b !! bo_id x = Some x → o_backoff_mappings b !! bo_spgid x = Some tr →
  tree_ok tr' → x :: ranges tr' ≡ₚ ranges tr → (∀ y, y ∈ ranges tr' → before y x ∨ before x y) →
  (∀ spg, spg ≠ bo_spgid x → ms !! spg = o_backoff_mappings b !! spg) →
  ms !! bo_spgid x = Some tr' ∨ ms !! bo_spgid x = None ∧ tr' = RB_ROOT →
  session_ok (Backoffs ms (delete (bo_id x) (o_backoffs_by_id b))).
Proof.
  intros [Hg Hi] Hx Htr Hok Hp Hd Hne Heq. split; cbn [o_backoff_mappings o_backoffs_by_id].
  - intros spg tr0 Htr0. destruct (decide (spg = bo_spgid x)) as [->|Hspg].
    + assert (tr0 = tr') as -> by (destruct Heq as [?|[? ?]]; congruence). split; [done|].
      intros y Hy. destruct (Hg _ _ Htr) as [_ Hin]. destruct (Hin y) as [? Hy']; [rewrite <- Hp; set_solver|].
      split; [done|]. rewrite lookup_delete_ne; [done|]. intros He. rewrite <- He in Hy'.
      assert (y = x) as -> by congruence. by destruct (Hd x Hy) as [?%before_irrefl|?%before_irrefl].
    + rewrite Hne in Htr0 by done. destruct (Hg _ _ Htr0) as [? Hin]. split; [done|].
      intros y Hy. destruct (Hin y Hy) as [? Hy']. split; [done|].
      rewrite lookup_delete_ne; [done|]. intros He. rewrite <- He in Hy'. congruence.
  - intros id y [Hid (? & tr0 & Htr0 & Hy)%Hi]%lookup_delete_Some. split; [done|].
    destruct (decide (bo_spgid y = bo_spgid x)) as [Hs|]; [|exists tr0; by rewrite Hne].
    assert (Hy' : y ∈ ranges tr').
    { rewrite Hs in Htr0. assert (tr0 = tr) as -> by congruence. rewrite <- Hp in Hy.
      apply elem_of_cons in Hy as [->|?]; [congruence|done]. }
    rewrite Hs. destruct Heq as [?|[? ->]]; [by exists tr'|]. by apply elem_of_nil in Hy'.
Qed.

(** ** The operations *)

Definition backoff_of (m : MOSDBackoff) : ceph_osd_backoff :=
  OsdBackoff (mb_spgid m) (mb_id m) (mb_begin m) (mb_end m).

(** What an OSD keeps to: identifiers are not used twice, ranges of a group do not overlap, and what
    it sends fits the wire. *)
Record fresh (ids : gmap Z ceph_osd_backoff) (x : ceph_osd_backoff) : Prop := {
  fr_wire : wire_backoff x;
  fr_id : ids !! bo_id x = None;
  fr_range id y : ids !! id = Some y → bo_spgid y = bo_spgid x → before y x ∨ before x y }.

Lemma handle_backoff_block_spec mem_ok b m :
  session_ok b → fresh (o_backoffs_by_id b) (backoff_of m) →
  wp (handle_backoff_block mem_ok b m) (λ '(b', msg), session_ok b' ∧
    ( o_backoffs_by_id b' = o_backoffs_by_id b ∧ msg = None ∧ (mem_ok 0%nat = false ∨ mem_ok 1%nat = false)
    ∨ o_backoffs_by_id b' = <[mb_id m := backoff_of m]> (o_backoffs_by_id b)
      ∧ msg = if mem_ok 2%nat
              then Some (enc_backoff (backoff_of m) (mb_map_epoch m) CEPH_OSD_BACKOFF_OP_ACK_BLOCK) else None)).
Proof.
  intros Hb [Hwire Hid Hrange]. unfold handle_backoff_block. apply wp_bind.
  apply (wp_mono _ (λ '(b', ok), session_ok b' ∧ o_backoffs_by_id b' = o_backoffs_by_id b
    ∧ (ok = true → is_Some (o_backoff_mappings b' !! mb_spgid m)) ∧ (ok = false → mem_ok 0%nat = false))).
  { destruct (o_backoff_mappings b !! mb_spgid m) as [tr|] eqn:Htr; [apply wp_ret; naive_solver|].
    destruct (mem_ok 0%nat) eqn:Hm0; cbn [negb]; [|apply wp_ret; naive_solver].
    unfold rb_insert, rb_try_insert. rewrite Htr. cbn. split_and!; [by apply session_ok_group|done| |done].
    rewrite lookup_insert_eq. eauto. }
  intros [b1 ok] (Hb1 & Hids & Hok & Hnok).
  destruct ok; cbn [negb orb]; [|apply wp_ret; split; [done|]; left; auto].
  destruct (mem_ok 1%nat) eqn:Hm1; cbn [negb]; [|apply wp_ret; split; [done|]; left; auto].
  destruct (Hok eq_refl) as [tr Htr]. rewrite Htr. cbn [deref mbind outcome_bind]. apply wp_bind.
  destruct (so_groups _ Hb1 _ _ Htr) as [Htree Hin].
  eapply wp_mono.
  { apply insert_backoff_spec; [done|]. intros y [? Hy]%Hin. rewrite Hids in Hy. by eapply Hrange. }
  intros tr' [Htr' Hp]. unfold rb_insert, rb_try_insert. cbn [bo_id]. rewrite Hids.
  cbn [backoff_of bo_id] in Hid. rewrite Hid. cbn [deref mbind outcome_bind].
  assert (Hmsg : create_backoff_message (mem_ok 2%nat) (backoff_of m) (mb_map_epoch m) = Ret (if mem_ok 2%nat
    then Some (enc_backoff (backoff_of m) (mb_map_epoch m) CEPH_OSD_BACKOFF_OP_ACK_BLOCK) else None)).
  { destruct (mem_ok 2%nat); [by apply create_backoff_message_spec|done]. }
  unfold backoff_of in Hmsg at 1. rewrite Hmsg. cbn [mbind outcome_bind wp]. split; [|by right].
  rewrite <- Hids. apply (session_ok_add b1 (backoff_of m) tr); [done..| | |done]; [by rewrite Hids|done].
Qed.

Lemma remove_backoff_spec b m :
  session_ok b →
  wp (remove_backoff b m) (λ '(b', found), session_ok b'
    ∧ o_backoffs_by_id b' = delete (mb_id m) (o_backoffs_by_id b)
    ∧ found = bool_decide (is_Some (o_backoffs_by_id b !! mb_id m))).
Proof.
  intros Hb. unfold remove_backoff.
  destruct (o_backoffs_by_id b !! mb_id m) as [x|] eqn:Hx; cycle 1.
  { apply wp_ret. split_and!; [done|by rewrite delete_id|]. symmetry. by apply bool_decide_eq_false, is_Some_None. }
  destruct (so_ids _ Hb _ _ Hx) as (Hid & tr & Htr & Hin). rewrite Htr. cbn [deref mbind outcome_bind].
  destruct (so_groups _ Hb _ _ Htr) as [Htree _]. apply wp_bind.
  eapply wp_mono; [by apply erase_backoff_spec|]. intros tr' (Htr' & Hp & Hd).
  unfold rb_erase. rewrite Hid, Hx. cbn [deref mbind outcome_bind].
  rewrite <- Hid in Hx |- *.
  assert (Hok : ∀ ms, (∀ spg, spg ≠ bo_spgid x → ms !! spg = o_backoff_mappings b !! spg) →
    ms !! bo_spgid x = Some tr' ∨ ms !! bo_spgid x = None ∧ tr' = RB_ROOT →
    session_ok (Backoffs ms (delete (bo_id x) (o_backoffs_by_id b)))).
  { intros ms. by apply (session_ok_remove b x tr tr'). }
  destruct tr' as [|l y r].
  - rewrite Htr. cbn [deref mbind outcome_bind wp]. split_and!; [|done|by rewrite bool_decide_true].
    apply Hok; [intros spg Hne; by rewrite lookup_delete_ne|]. right. by rewrite lookup_delete_eq.
  - cbn [wp]. split_and!; [|done|by rewrite bool_decide_true].
    apply Hok; [intros spg Hne; by rewrite lookup_insert_ne|]. left. by rewrite lookup_insert_eq.
Qed.

(** ** Forgetting them all *)

Lemma rb_first_backoff_in t : t ≠ RB_ROOT → ∃ x, rb_first_backoff t = Some x ∧ x ∈ ranges t.
Proof.
  induction t as [|l IHl x r IHr]; [done|]. intros _. destruct l as [|ll y lr]; [exists x; set_solver|].
  destruct (IHl ltac:(done)) as (z & Hz & Hin). exists z. cbn [ranges] in *. split; [exact Hz|set_solver].
Qed.

Lemma backoff_count_ranges t : backoff_count t = length (ranges t).
Proof. induction t as [|l IHl x r IHr]; [done|]. cbn. rewrite length_app. cbn. lia. Qed.

(** What is left without the identifiers of a list. *)
Definition forget (l : list ceph_osd_backoff) (ids : gmap Z ceph_osd_backoff) : gmap Z ceph_osd_backoff :=
  foldr (λ x, delete (bo_id x)) ids l.

Lemma lookup_forget l ids id x :
  forget l ids !! id = Some x ↔ ids !! id = Some x ∧ ∀ y, y ∈ l → bo_id y ≠ id.
Proof.
  induction l as [|z l IH]; cbn [forget foldr]; [set_solver|].
  rewrite lookup_delete_Some. fold (forget l ids). rewrite IH. set_solver.
Qed.

Lemma forget_perm l l' ids : l ≡ₚ l' → forget l ids = forget l' ids.
Proof.
  intros Hp. apply map_eq. intros id. apply option_eq. intros x. rewrite !lookup_forget.
  split; intros [? H]; (split; [done|]); intros y Hy; apply H; [by rewrite Hp|by rewrite <- Hp].
Qed.

Lemma clear_group_spec tr (ids : gmap Z ceph_osd_backoff) :
  tree_ok tr → (∀ x, x ∈ ranges tr → ids !! bo_id x = Some x) →
  clear_group tr ids = Ret (forget (ranges tr) ids).
Proof.
  intros Hok Hin. enough (H : wp (clear_group tr ids) (λ ids', ids' = forget (ranges tr) ids)).
  { apply wp_exists in H as (? & ? & ->). done. }
  unfold clear_group.
  apply (wp_loop (λ '(tr', ids'), tree_ok tr' ∧ (∀ x, x ∈ ranges tr' → ids' !! bo_id x = Some x)
    ∧ forget (ranges tr') ids' = forget (ranges tr) ids)
    (λ '(tr', _), backoff_count tr')); [|done|lia].
  intros [tr' ids'] (Hok' & Hin' & Heq). destruct tr' as [|l y r]; [done|].
  destruct (rb_first_backoff_in (rb_node l y r) ltac:(done)) as (x & -> & Hx). apply wp_bind.
  eapply wp_mono; [by apply erase_backoff_spec|]. intros tr2 (Hok2 & Hp & Hd).
  unfold rb_erase. rewrite (Hin' x Hx). cbn [deref mbind outcome_bind wp].
  split_and!; [done| | |].
  - intros z Hz. rewrite lookup_delete_ne; [apply Hin'; rewrite <- Hp; set_solver|].
    intros Heq'. assert (ids' !! bo_id z = Some z) as Hz' by (apply Hin'; rewrite <- Hp; set_solver).
    rewrite <- Heq', (Hin' x Hx) in Hz'. simplify_eq.
    by destruct (Hd z Hz) as [?%before_irrefl|?%before_irrefl].
  - rewrite <- Heq, <- (forget_perm _ _ ids' Hp).
    change (forget (x :: ranges tr2) ids') with (delete (bo_id x) (forget (ranges tr2) ids')).
    apply map_eq. intros id. apply option_eq. intros z.
    rewrite !lookup_forget, !lookup_delete_Some, lookup_forget. tauto.
  - rewrite !backoff_count_ranges, <- Hp. cbn. lia.
Qed.

Lemma clear_groups_spec b l :
  session_ok b → NoDup l.*1 → (∀ spg tr, (spg, tr) ∈ l → o_backoff_mappings b !! spg = Some tr) →
  wp (foldr (λ '(_, spg) ids, ids ← ids; clear_group spg ids) (Ret (o_backoffs_by_id b)) l)
     (λ ids, ∀ id x, ids !! id = Some x ↔ o_backoffs_by_id b !! id = Some x ∧ bo_spgid x ∉ l.*1).
Proof.
  intros Hb. induction l as [|[spg tr] l IH]; cbn [foldr fmap list_fmap fst]; intros Hnd Hl.
  { apply wp_ret. set_solver. }
  apply NoDup_cons in Hnd as [Hn Hnd]. apply wp_bind.
  eapply wp_mono; [apply IH; [done|set_solver]|]. intros ids Hids. cbv beta in Hids.
  assert (Htr : o_backoff_mappings b !! spg = Some tr) by (apply Hl; set_solver).
  destruct (so_groups _ Hb _ _ Htr) as [Hok Hin].
  rewrite clear_group_spec; [|done|].
  - cbn [wp]. intros id x. rewrite lookup_forget, Hids, not_elem_of_cons. split.
    + intros [[Hx Hnl] Hny]. split_and!; [done| |done]. intros <-.
      destruct (so_ids _ Hb _ _ Hx) as (Hid & tr' & Htr' & Hx'). rewrite Htr in Htr'. simplify_eq.
      by apply (Hny x).
    + intros (Hx & Hns & Hnl). split_and!; [done..|]. intros y [Hy1 Hy2]%Hin ?. simplify_eq.
  - intros x [Hx1 Hx2]%Hin. apply Hids. by rewrite Hx1.
Qed.

Lemma clear_backoffs_spec b : session_ok b → clear_backoffs b = Ret (Backoffs ∅ ∅).
Proof.
  intros Hb. unfold clear_backoffs.
  pose proof (clear_groups_spec b (map_to_list (o_backoff_mappings b)) Hb) as H.
  apply wp_exists in H as (ids & -> & Hids); [|apply NoDup_fst_map_to_list|by intros *; apply elem_of_map_to_list].
  cbn [mbind outcome_bind]. do 2 f_equal. apply map_empty. intros id.
  destruct (ids !! id) as [x|] eqn:Hx; [|done]. apply Hids in Hx as [Hx Hn].
  destruct (so_ids _ Hb _ _ Hx) as (_ & tr & Htr & _). destruct Hn.
  apply list_elem_of_fmap. exists (bo_spgid x, tr). split; [done|]. by apply elem_of_map_to_list.
Qed.

(** ** A session over time *)

Inductive backoff_event :=
  | ev_block (m : MOSDBackoff)
  | ev_unblock (m : MOSDBackoff)
  | ev_reset.

Definition backoff_step (b : backoffs) (e : backoff_event) : outcome backoffs :=
  match e with
  | ev_block m => '(b, _) ← handle_backoff_block (λ _, true) b m; Ret b
  | ev_unblock m => '(b, _) ← remove_backoff b m; Ret b
  | ev_reset => clear_backoffs b
  end.
Definition backoff_run (es : list backoff_event) : outcome backoffs :=
  foldl (λ b e, b ← b; backoff_step b e) (Ret (Backoffs ∅ ∅)) es.

(** What the OSD means: a set of ranges, by their identifiers. *)
Inductive blocked : list backoff_event → gmap Z ceph_osd_backoff → Prop :=
  | blocked_none : blocked [] ∅
  | blocked_block es ids m :
      blocked es ids → fresh ids (backoff_of m) →
      blocked (es ++ [ev_block m]) (<[mb_id m := backoff_of m]> ids)
  | blocked_unblock es ids m : blocked es ids → blocked (es ++ [ev_unblock m]) (delete (mb_id m) ids)
  | blocked_reset es ids : blocked es ids → blocked (es ++ [ev_reset]) ∅.

Lemma backoff_run_ok es ids :
  blocked es ids → wp (backoff_run es) (λ b, session_ok b ∧ o_backoffs_by_id b = ids).
Proof.
  intros Hb. induction Hb as [|es ids m _ IH Hf|es ids m _ IH|es ids _ IH]; unfold backoff_run in *;
    rewrite ?foldl_app; cbn [foldl].
  { split; [apply session_ok_empty|done]. }
  all: apply wp_bind; eapply wp_mono; [exact IH|]; intros b [Hok Hids]; cbn [backoff_step].
  - apply wp_bind. rewrite <- Hids in Hf.
    eapply wp_mono; [by apply (handle_backoff_block_spec (λ _, true))|]. intros [b' msg] [Hok' Hcase].
    apply wp_ret. split; [done|]. rewrite <- Hids. by destruct Hcase as [(_ & _ & [?|?])|[? _]].
  - apply wp_bind. eapply wp_mono; [by apply remove_backoff_spec|]. intros [b' f] (Hok' & Hd & _).
    apply wp_ret. split; [done|]. by rewrite Hd, Hids.
  - rewrite clear_backoffs_spec by done. split; [apply session_ok_empty|done].
Qed.

(** C38: After any sequence of blocks, unblocks and resets that an OSD may send, a request is held
    back exactly when its object lies in a range that is blocked and not unblocked since, in the
    request's placement group.  The rebalancing of the trees is not modelled; only the order of their
    keys is used ([session_ok]). *)
Theorem backoffs_refine (es : list backoff_event) (ids : gmap Z ceph_osd_backoff) :
  blocked es ids →
  wp (backoff_run es) (λ b, ∀ t, should_plug_request b t = true ↔ held_back ids t).
Proof.
  intros Hb. eapply wp_mono; [by apply backoff_run_ok|]. intros b [Hok <-] t. by apply should_plug_spec.
Qed.

(** The acknowledgement of a backoff fills its message exactly, and whoever decodes it finds the
    placement group, the identifier, the epoch of the OSD's request and the range back. *)
Theorem backoff_ack_roundtrip (b : ceph_osd_backoff) (epoch : Z) :
  wire_backoff b → word epoch →
  ∃ bytes, create_backoff_message true b epoch = Ret (Some bytes)
    ∧ decode_MOSDBackoff (λ _, true) bytes () 0
      = Ret (inl (MkMOSDBackoff (bo_spgid b) epoch CEPH_OSD_BACKOFF_OP_ACK_BLOCK (bo_id b)
                    (bo_begin b) (bo_end b)), (), Z.of_nat (length bytes)).
Proof.
  intros Hb He. eexists. split; [by apply create_backoff_message_spec|].
  by apply decode_MOSDBackoff_spec.
Qed.

(** ** Examples *)

Definition ex_hoid (hash : Z) (oid : list Z) : ceph_hobject_id :=
  ceph_hoid_build_hash_cache (Hobject [] oid (2 ^ 64 - 2) hash 0 [] 3 0).
Definition ex_spg : ceph_spg := CephSpg (CephPg 3 5) (-1).
Definition ex_block (id : Z) (from to : list Z) : MOSDBackoff :=
  MkMOSDBackoff ex_spg 40 CEPH_OSD_BACKOFF_OP_BLOCK id (ex_hoid 5 from) (ex_hoid 5 to).

Example bitrev32_example : bitrev32 0x12345678 = 0x1e6a2c48.
Proof. reflexivity. Qed.

Lemma ex_wire from to id :
  (length from < 100)%nat → (length to < 100)%nat → 0 <= id < 2 ^ 64 →
  wire_backoff (backoff_of (ex_block id from to)).
Proof.
  intros Hf Ht Hid. split; [repeat split; cbn; lia|exact Hid| |]; split; cbn; unfold word; try lia; done.
Qed.

Lemma backoff_ack_roundtrip_witness :
  let b := backoff_of (ex_block 7 (chars "a") (chars "m")) in
  wire_backoff b ∧ word 40 ∧
  ∃ bytes, create_backoff_message true b 40 = Ret (Some bytes)
    ∧ decode_MOSDBackoff (λ _, true) bytes () 0
      = Ret (inl (MkMOSDBackoff ex_spg 40 2 7 (ex_hoid 5 (chars "a")) (ex_hoid 5 (chars "m"))), (),
             Z.of_nat (length bytes)).
Proof.
  assert (H : wire_backoff (backoff_of (ex_block 7 (chars "a") (chars "m")))) by (apply ex_wire; cbn; lia).
  assert (He : word 40) by (unfold word; lia).
  split; [exact H|]. split; [exact He|]. exact (backoff_ack_roundtrip _ 40 H He).
Defined.

Definition ex_events : list backoff_event :=
  [ev_block (ex_block 7 (chars "a") (chars "m")); ev_block (ex_block 8 (chars "m") (chars "z"));
   ev_unblock (ex_block 7 (chars "a") (chars "m"))].
Definition ex_blocked : gmap Z ceph_osd_backoff := {[ 8 := backoff_of (ex_block 8 (chars "m") (chars "z")) ]}.

Lemma ex_events_blocked : blocked ex_events ex_blocked.
Proof.
  assert (H0 : blocked [ev_block (ex_block 7 (chars "a") (chars "m"))]
    (<[7 := backoff_of (ex_block 7 (chars "a") (chars "m"))]> ∅)).
  { apply (blocked_block []); [constructor|]. split; [apply ex_wire; cbn; lia|done|].
    intros id y. by rewrite lookup_empty. }
  eapply blocked_block in H0; [eapply (blocked_unblock _ _ (ex_block 7 (chars "a") (chars "m"))) in H0; exact H0|].
  split; [apply ex_wire; cbn; lia|done|].
  intros id y [[<- <-]|[_ H]]%lookup_insert_Some Hs; [|by rewrite lookup_empty in H].
  left. split; cbn [backoff_of bo_begin bo_end ex_block mb_begin mb_end]; vm_compute; congruence.
Qed.

Lemma backoffs_refine_witness :
  blocked ex_events ex_blocked ∧
  wp (backoff_run ex_events) (λ b, ∀ t, should_plug_request b t = true ↔ held_back ex_blocked t).
Proof. split; [exact ex_events_blocked|exact (backoffs_refine _ _ ex_events_blocked)]. Defined.

Example ex_plugged :
  let at_object oid := OsdTarget (chars oid) (CephObjectLocator 3 None) (chars oid) (CephObjectLocator 3 None)
    (CephPg 3 5) ex_spg 8 7 (t_acting target_init) (t_up target_init) 1 1 true false 0 false false 1 0 0 in
  match backoff_run ex_events with
  | Ret b => (should_plug_request b (at_object "c"), should_plug_request b (at_object "q"))
  | _ => (true, true)
  end = (false, true).
Proof. vm_compute. reflexivity. Qed.
