(* ===== verification/State.v ===== *)
(** * Stateful computations

    The code that changes a large state: a function from the state to an outcome with the new
    state, its total correctness, and loops over the nodes of a search tree. *)
From S2P Require Import Prelude OsdMap.

Definition ST (S A : Type) : Type := S → outcome (A * S).

#[export] Instance ST_ret {S} : MRet (ST S) := λ A a s, Ret (a, s).
#[export] Instance ST_bind {S} : MBind (ST S) := λ A B f m s, '(a, s) ← m s; f a s.

Definition st_get {S} : ST S S := λ s, Ret (s, s).
Definition st_modify {S} (f : S → S) : ST S unit := λ s, Ret (tt, f s).
Definition st_lift {S A} (m : outcome A) : ST S A := λ s, a ← m; Ret (a, s).
Definition st_undef {S A} : ST S A := λ s, Undef.
Definition st_when {S} (b : bool) (m : ST S unit) : ST S unit := if b then m else mret tt.

(** [for (n = rb_first(t); n; ) { x = n; n = rb_next(n); ... }] over a tree that loses nodes only
    meanwhile.  A node that is gone when its turn comes has been freed under the loop. *)
Fixpoint st_each {S A} (l : list (Z * A)) (there : S → Z → bool) (body : A → ST S unit) : ST S unit :=
  match l with
  | [] => mret tt
  | (k, a) :: l =>
      s ← st_get;
      if there s k then _ ← body a; st_each l there body else st_undef
  end.

Definition wpst {S A} (m : ST S A) (s : S) (Q : A → S → Prop) : Prop := wp (m s) (λ '(a, s'), Q a s').

Section wpst.
Context {S A B : Type}.
Implicit Types (s : S).
Lemma wpst_ret (a : A) s (Q : A → S → Prop) : Q a s → wpst (mret a) s Q.
Proof. done. Qed.
Lemma wpst_bind (m : ST S A) (f : A → ST S B) s Q :
  wpst m s (λ a s', wpst (f a) s' Q) → wpst (m ≫= f) s Q.
Proof. unfold wpst, mbind, ST_bind. by destruct (m s) as [[a s']| |]. Qed.
Lemma wpst_bind_inv (m : ST S A) (f : A → ST S B) s Q :
  wpst (m ≫= f) s Q → wpst m s (λ a s', wpst (f a) s' Q).
Proof. unfold wpst, mbind, ST_bind. by destruct (m s) as [[a s']| |]. Qed.
Lemma wpst_mono (m : ST S A) s (P Q : A → S → Prop) :
  wpst m s P → (∀ a s', P a s' → Q a s') → wpst m s Q.
Proof. unfold wpst. intros Hm HPQ. eapply wp_mono; [exact Hm|]. intros [a s']. apply HPQ. Qed.
Lemma wpst_lift (m : outcome A) s (Q : A → S → Prop) : wp m (λ a, Q a s) → wpst (st_lift m) s Q.
Proof. unfold wpst, st_lift. by destruct m. Qed.
Lemma wpst_get s (Q : S → S → Prop) : Q s s → wpst st_get s Q.
Proof. done. Qed.
Lemma wpst_modify f s (Q : unit → S → Prop) : Q tt (f s) → wpst (st_modify f) s Q.
Proof. done. Qed.
Lemma wpst_when b (m : ST S unit) s (Q : unit → S → Prop) :
  (b = true → wpst m s Q) → (b = false → Q tt s) → wpst (st_when b m) s Q.
Proof. destruct b; cbn; [auto|]. intros _ H. by apply H. Qed.
Lemma wpst_deref (o : option A) a s (Q : A → S → Prop) : o = Some a → Q a s → wpst (st_lift (deref o)) s Q.
Proof. by intros ->. Qed.
End wpst.

(** A loop over a tree, with what holds before each of its nodes. *)
Lemma wpst_each {S A} (I : list (Z * A) → S → Prop) there (body : A → ST S unit) l s :
  I l s →
  (∀ k a l s, I ((k, a) :: l) s → there s k = true ∧ wpst (body a) s (λ _ s', I l s')) →
  wpst (st_each l there body) s (λ _ s', I [] s').
Proof.
  intros HI Hbody. revert s HI. induction l as [|[k a] l IH]; intros s HI; cbn [st_each]; [done|].
  apply wpst_bind, wpst_get. destruct (Hbody k a l s HI) as [-> Hb]. apply wpst_bind.
  eapply wpst_mono; [exact Hb|]. intros [] s'. apply IH.
Qed.
