(* ===== verification/OsdData.v ===== *)
(** * The state of the OSD client (libceph/include/linux/ceph/osd_client.h)

    Sessions with OSDs, requests, lingering requests and the client, with their updates. *)
From S2P Require Import Prelude Hash Crush Mapper Choose DoRule Workspace OsdMap Placement.
From S2P Require Import CrushLoc OsdTarget Decode OsdBackoff State.

(** Pointers to requests and to lingering requests. *)
Abbreviation rptr := nat (only parsing).
Abbreviation lptr := nat (only parsing).

(** What [send_request] encodes and hands to the messenger. *)
Record osd_message := OsdMessage { sm_tid : Z; sm_attempt : Z; sm_t : osd_target }.

(** A session: [o_serial] tells sessions with the same OSD apart, and [o_con_queue] is what has been handed
    to its connection since it was opened.  [homeless_osd] is the session of OSD -1; it has no
    connection.  Reference counts, locks, the keepalive list and sparse reads are left out. *)
Record osd_session := OsdSession {
  o_serial : nat; o_incarnation : Z; o_peer_addr : ceph_entity_addr; o_con_queue : gmap rptr osd_message;
  o_requests : gmap Z rptr; o_linger_requests : gmap Z lptr; o_backoffs : backoffs; o_lru_ttl : Z }.

Definition set_o_con_queue (v : gmap rptr osd_message) (s : osd_session) : osd_session :=
  OsdSession (o_serial s) (o_incarnation s) (o_peer_addr s) v (o_requests s) (o_linger_requests s)
  (o_backoffs s) (o_lru_ttl s).
Definition set_o_requests (v : gmap Z rptr) (s : osd_session) : osd_session :=
  OsdSession (o_serial s) (o_incarnation s) (o_peer_addr s) (o_con_queue s) v (o_linger_requests s)
  (o_backoffs s) (o_lru_ttl s).
Definition set_o_linger_requests (v : gmap Z lptr) (s : osd_session) : osd_session :=
  OsdSession (o_serial s) (o_incarnation s) (o_peer_addr s) (o_con_queue s) (o_requests s) v (o_backoffs s)
  (o_lru_ttl s).
Definition set_o_backoffs (v : backoffs) (s : osd_session) : osd_session :=
  OsdSession (o_serial s) (o_incarnation s) (o_peer_addr s) (o_con_queue s) (o_requests s)
  (o_linger_requests s) v (o_lru_ttl s).
Definition set_o_lru_ttl (v : Z) (s : osd_session) : osd_session :=
  OsdSession (o_serial s) (o_incarnation s) (o_peer_addr s) (o_con_queue s) (o_requests s)
  (o_linger_requests s) (o_backoffs s) v.

(** An operation of a request: what the code reads of it or a reply sets. *)
Record osd_req_op := OsdReqOp { op_watch_gen : Z; op_rval : Z; op_outdata_len : Z; op_response : list Z }.

(** [r_callback]: of the caller, or of a lingering request. *)
Inductive osdc_callback := caller_cb | linger_commit_cb | linger_reconnect_cb | linger_ping_cb.

(** [r_end_latency] is set when the request has finished.  What is only encoded is left out. *)
Record osd_request := OsdRequest {
  r_tid : Z; r_osd : option Z; r_t : osd_target; r_sent : Z; r_ops : list osd_req_op; r_result : Z;
  r_linger : bool; r_completion : bool; r_callback : osdc_callback; r_priv : lptr; r_version : Z;
  r_stamp : Z; r_start_stamp : Z; r_end_latency : option Z; r_attempts : Z; r_map_dne_bound : Z }.

Definition set_r_tid (v : Z) (r : osd_request) : osd_request :=
  OsdRequest v (r_osd r) (r_t r) (r_sent r) (r_ops r) (r_result r) (r_linger r) (r_completion r)
  (r_callback r) (r_priv r) (r_version r) (r_stamp r) (r_start_stamp r) (r_end_latency r) (r_attempts r)
  (r_map_dne_bound r).
Definition set_r_osd (v : option Z) (r : osd_request) : osd_request :=
  OsdRequest (r_tid r) v (r_t r) (r_sent r) (r_ops r) (r_result r) (r_linger r) (r_completion r)
  (r_callback r) (r_priv r) (r_version r) (r_stamp r) (r_start_stamp r) (r_end_latency r) (r_attempts r)
  (r_map_dne_bound r).
Definition set_r_t (v : osd_target) (r : osd_request) : osd_request :=
  OsdRequest (r_tid r) (r_osd r) v (r_sent r) (r_ops r) (r_result r) (r_linger r) (r_completion r)
  (r_callback r) (r_priv r) (r_version r) (r_stamp r) (r_start_stamp r) (r_end_latency r) (r_attempts r)
  (r_map_dne_bound r).
Definition set_r_ops (v : list osd_req_op) (r : osd_request) : osd_request :=
  OsdRequest (r_tid r) (r_osd r) (r_t r) (r_sent r) v (r_result r) (r_linger r) (r_completion r)
  (r_callback r) (r_priv r) (r_version r) (r_stamp r) (r_start_stamp r) (r_end_latency r) (r_attempts r)
  (r_map_dne_bound r).
Definition set_r_result (v : Z) (r : osd_request) : osd_request :=
  OsdRequest (r_tid r) (r_osd r) (r_t r) (r_sent r) (r_ops r) v (r_linger r) (r_completion r) (r_callback r)
  (r_priv r) (r_version r) (r_stamp r) (r_start_stamp r) (r_end_latency r) (r_attempts r)
  (r_map_dne_bound r).
Definition set_r_completion (v : bool) (r : osd_request) : osd_request :=
  OsdRequest (r_tid r) (r_osd r) (r_t r) (r_sent r) (r_ops r) (r_result r) (r_linger r) v (r_callback r)
  (r_priv r) (r_version r) (r_stamp r) (r_start_stamp r) (r_end_latency r) (r_attempts r)
  (r_map_dne_bound r).
Definition set_r_version (v : Z) (r : osd_request) : osd_request :=
  OsdRequest (r_tid r) (r_osd r) (r_t r) (r_sent r) (r_ops r) (r_result r) (r_linger r) (r_completion r)
  (r_callback r) (r_priv r) v (r_stamp r) (r_start_stamp r) (r_end_latency r) (r_attempts r)
  (r_map_dne_bound r).
Definition set_r_stamp (v : Z) (r : osd_request) : osd_request :=
  OsdRequest (r_tid r) (r_osd r) (r_t r) (r_sent r) (r_ops r) (r_result r) (r_linger r) (r_completion r)
  (r_callback r) (r_priv r) (r_version r) v (r_start_stamp r) (r_end_latency r) (r_attempts r)
  (r_map_dne_bound r).
Definition set_r_start_stamp (v : Z) (r : osd_request) : osd_request :=
  OsdRequest (r_tid r) (r_osd r) (r_t r) (r_sent r) (r_ops r) (r_result r) (r_linger r) (r_completion r)
  (r_callback r) (r_priv r) (r_version r) (r_stamp r) v (r_end_latency r) (r_attempts r)
  (r_map_dne_bound r).
Definition set_r_end_latency (v : option Z) (r : osd_request) : osd_request :=
  OsdRequest (r_tid r) (r_osd r) (r_t r) (r_sent r) (r_ops r) (r_result r) (r_linger r) (r_completion r)
  (r_callback r) (r_priv r) (r_version r) (r_stamp r) (r_start_stamp r) v (r_attempts r)
  (r_map_dne_bound r).
Definition set_r_map_dne_bound (v : Z) (r : osd_request) : osd_request :=
  OsdRequest (r_tid r) (r_osd r) (r_t r) (r_sent r) (r_ops r) (r_result r) (r_linger r) (r_completion r)
  (r_callback r) (r_priv r) (r_version r) (r_stamp r) (r_start_stamp r) (r_end_latency r) (r_attempts r) v.

(** [linger_work]: an error or a notification for the caller of a watch, and when it was queued. *)
Inductive linger_work :=
  | watch_error (err queued_stamp : Z)
  | watch_notify (notify_id notifier_id : Z) (payload : list Z) (queued_stamp : Z).
Definition lw_queued_stamp (w : linger_work) : Z :=
  match w with watch_error _ s => s | watch_notify _ _ _ s => s end.

Record linger_request := LingerRequest {
  l_linger_id : Z; l_committed : bool; l_is_watch : bool; l_osd : option Z; l_reg_req : option rptr;
  l_ping_req : option rptr; l_ping_sent : Z; l_watch_valid_thru : Z; l_pending_lworks : list linger_work;
  l_t : osd_target; l_map_dne_bound : Z; l_reg_commit_wait : bool; l_notify_finish_wait : bool;
  l_reg_commit_error : Z; l_notify_finish_error : Z; l_last_error : Z; l_register_gen : Z;
  l_notify_id : Z }.

Definition set_l_linger_id (v : Z) (l : linger_request) : linger_request :=
  LingerRequest v (l_committed l) (l_is_watch l) (l_osd l) (l_reg_req l) (l_ping_req l) (l_ping_sent l)
  (l_watch_valid_thru l) (l_pending_lworks l) (l_t l) (l_map_dne_bound l) (l_reg_commit_wait l)
  (l_notify_finish_wait l) (l_reg_commit_error l) (l_notify_finish_error l) (l_last_error l)
  (l_register_gen l) (l_notify_id l).
Definition set_l_committed (v : bool) (l : linger_request) : linger_request :=
  LingerRequest (l_linger_id l) v (l_is_watch l) (l_osd l) (l_reg_req l) (l_ping_req l) (l_ping_sent l)
  (l_watch_valid_thru l) (l_pending_lworks l) (l_t l) (l_map_dne_bound l) (l_reg_commit_wait l)
  (l_notify_finish_wait l) (l_reg_commit_error l) (l_notify_finish_error l) (l_last_error l)
  (l_register_gen l) (l_notify_id l).
Definition set_l_osd (v : option Z) (l : linger_request) : linger_request :=
  LingerRequest (l_linger_id l) (l_committed l) (l_is_watch l) v (l_reg_req l) (l_ping_req l)
  (l_ping_sent l) (l_watch_valid_thru l) (l_pending_lworks l) (l_t l) (l_map_dne_bound l)
  (l_reg_commit_wait l) (l_notify_finish_wait l) (l_reg_commit_error l) (l_notify_finish_error l)
  (l_last_error l) (l_register_gen l) (l_notify_id l).
Definition set_l_reg_req (v : option rptr) (l : linger_request) : linger_request :=
  LingerRequest (l_linger_id l) (l_committed l) (l_is_watch l) (l_osd l) v (l_ping_req l) (l_ping_sent l)
  (l_watch_valid_thru l) (l_pending_lworks l) (l_t l) (l_map_dne_bound l) (l_reg_commit_wait l)
  (l_notify_finish_wait l) (l_reg_commit_error l) (l_notify_finish_error l) (l_last_error l)
  (l_register_gen l) (l_notify_id l).
Definition set_l_ping_req (v : option rptr) (l : linger_request) : linger_request :=
  LingerRequest (l_linger_id l) (l_committed l) (l_is_watch l) (l_osd l) (l_reg_req l) v (l_ping_sent l)
  (l_watch_valid_thru l) (l_pending_lworks l) (l_t l) (l_map_dne_bound l) (l_reg_commit_wait l)
  (l_notify_finish_wait l) (l_reg_commit_error l) (l_notify_finish_error l) (l_last_error l)
  (l_register_gen l) (l_notify_id l).
Definition set_l_ping_sent (v : Z) (l : linger_request) : linger_request :=
  LingerRequest (l_linger_id l) (l_committed l) (l_is_watch l) (l_osd l) (l_reg_req l) (l_ping_req l) v
  (l_watch_valid_thru l) (l_pending_lworks l) (l_t l) (l_map_dne_bound l) (l_reg_commit_wait l)
  (l_notify_finish_wait l) (l_reg_commit_error l) (l_notify_finish_error l) (l_last_error l)
  (l_register_gen l) (l_notify_id l).
Definition set_l_watch_valid_thru (v : Z) (l : linger_request) : linger_request :=
  LingerRequest (l_linger_id l) (l_committed l) (l_is_watch l) (l_osd l) (l_reg_req l) (l_ping_req l)
  (l_ping_sent l) v (l_pending_lworks l) (l_t l) (l_map_dne_bound l) (l_reg_commit_wait l)
  (l_notify_finish_wait l) (l_reg_commit_error l) (l_notify_finish_error l) (l_last_error l)
  (l_register_gen l) (l_notify_id l).
Definition set_l_pending_lworks (v : list linger_work) (l : linger_request) : linger_request :=
  LingerRequest (l_linger_id l) (l_committed l) (l_is_watch l) (l_osd l) (l_reg_req l) (l_ping_req l)
  (l_ping_sent l) (l_watch_valid_thru l) v (l_t l) (l_map_dne_bound l) (l_reg_commit_wait l)
  (l_notify_finish_wait l) (l_reg_commit_error l) (l_notify_finish_error l) (l_last_error l)
  (l_register_gen l) (l_notify_id l).
Definition set_l_t (v : osd_target) (l : linger_request) : linger_request :=
  LingerRequest (l_linger_id l) (l_committed l) (l_is_watch l) (l_osd l) (l_reg_req l) (l_ping_req l)
  (l_ping_sent l) (l_watch_valid_thru l) (l_pending_lworks l) v (l_map_dne_bound l) (l_reg_commit_wait l)
  (l_notify_finish_wait l) (l_reg_commit_error l) (l_notify_finish_error l) (l_last_error l)
  (l_register_gen l) (l_notify_id l).
Definition set_l_map_dne_bound (v : Z) (l : linger_request) : linger_request :=
  LingerRequest (l_linger_id l) (l_committed l) (l_is_watch l) (l_osd l) (l_reg_req l) (l_ping_req l)
  (l_ping_sent l) (l_watch_valid_thru l) (l_pending_lworks l) (l_t l) v (l_reg_commit_wait l)
  (l_notify_finish_wait l) (l_reg_commit_error l) (l_notify_finish_error l) (l_last_error l)
  (l_register_gen l) (l_notify_id l).
Definition set_l_reg_commit_wait (v : bool) (l : linger_request) : linger_request :=
  LingerRequest (l_linger_id l) (l_committed l) (l_is_watch l) (l_osd l) (l_reg_req l) (l_ping_req l)
  (l_ping_sent l) (l_watch_valid_thru l) (l_pending_lworks l) (l_t l) (l_map_dne_bound l) v
  (l_notify_finish_wait l) (l_reg_commit_error l) (l_notify_finish_error l) (l_last_error l)
  (l_register_gen l) (l_notify_id l).
Definition set_l_notify_finish_wait (v : bool) (l : linger_request) : linger_request :=
  LingerRequest (l_linger_id l) (l_committed l) (l_is_watch l) (l_osd l) (l_reg_req l) (l_ping_req l)
  (l_ping_sent l) (l_watch_valid_thru l) (l_pending_lworks l) (l_t l) (l_map_dne_bound l)
  (l_reg_commit_wait l) v (l_reg_commit_error l) (l_notify_finish_error l) (l_last_error l)
  (l_register_gen l) (l_notify_id l).
Definition set_l_reg_commit_error (v : Z) (l : linger_request) : linger_request :=
  LingerRequest (l_linger_id l) (l_committed l) (l_is_watch l) (l_osd l) (l_reg_req l) (l_ping_req l)
  (l_ping_sent l) (l_watch_valid_thru l) (l_pending_lworks l) (l_t l) (l_map_dne_bound l)
  (l_reg_commit_wait l) (l_notify_finish_wait l) v (l_notify_finish_error l) (l_last_error l)
  (l_register_gen l) (l_notify_id l).
Definition set_l_notify_finish_error (v : Z) (l : linger_request) : linger_request :=
  LingerRequest (l_linger_id l) (l_committed l) (l_is_watch l) (l_osd l) (l_reg_req l) (l_ping_req l)
  (l_ping_sent l) (l_watch_valid_thru l) (l_pending_lworks l) (l_t l) (l_map_dne_bound l)
  (l_reg_commit_wait l) (l_notify_finish_wait l) (l_reg_commit_error l) v (l_last_error l)
  (l_register_gen l) (l_notify_id l).
Definition set_l_last_error (v : Z) (l : linger_request) : linger_request :=
  LingerRequest (l_linger_id l) (l_committed l) (l_is_watch l) (l_osd l) (l_reg_req l) (l_ping_req l)
  (l_ping_sent l) (l_watch_valid_thru l) (l_pending_lworks l) (l_t l) (l_map_dne_bound l)
  (l_reg_commit_wait l) (l_notify_finish_wait l) (l_reg_commit_error l) (l_notify_finish_error l) v
  (l_register_gen l) (l_notify_id l).
Definition set_l_register_gen (v : Z) (l : linger_request) : linger_request :=
  LingerRequest (l_linger_id l) (l_committed l) (l_is_watch l) (l_osd l) (l_reg_req l) (l_ping_req l)
  (l_ping_sent l) (l_watch_valid_thru l) (l_pending_lworks l) (l_t l) (l_map_dne_bound l)
  (l_reg_commit_wait l) (l_notify_finish_wait l) (l_reg_commit_error l) (l_notify_finish_error l)
  (l_last_error l) v (l_notify_id l).
Definition set_l_notify_id (v : Z) (l : linger_request) : linger_request :=
  LingerRequest (l_linger_id l) (l_committed l) (l_is_watch l) (l_osd l) (l_reg_req l) (l_ping_req l)
  (l_ping_sent l) (l_watch_valid_thru l) (l_pending_lworks l) (l_t l) (l_map_dne_bound l)
  (l_reg_commit_wait l) (l_notify_finish_wait l) (l_reg_commit_error l) (l_notify_finish_error l)
  (l_last_error l) (l_register_gen l) v.

(** What the client does to the rest of the world. *)
Inductive effect :=
  | Con_open (osd : Z) (addr : ceph_entity_addr)
  | Con_close (osd : Z)
  | Con_keepalive (osd : Z)
  | Con_send_backoff (osd : Z) (msg : list Z)
  | Want_map (epoch : Z) (continuous : bool)
  | Got_map (epoch : Z)
  | Get_version (tid : Z)
  | Get_version_linger (linger_id : Z)
  | Callback (req : rptr) (result : Z)
  | Complete_all (req : rptr)
  | Watch_errcb (lreq : lptr) (err : Z)
  | Watch_cb (lreq : lptr) (notify_id notifier_id : Z) (payload : list Z).

(** [c_sessions] has the session -1 besides those of [osds]; [c_promoting] are the submissions
    that gave up the read lock to take the write lock; [c_stale] are the lingering requests left on a
    list that no longer exists; [c_next] is the next fresh pointer, [c_calls] counts the uses of
    memory the client does not control, [c_log] has the effects, last first. *)
Record client := Client {
  c_osdmap : ceph_osdmap; c_epoch_barrier : Z; c_abort_err : Z; c_last_tid : Z; c_last_linger_id : Z;
  c_sessions : gmap Z osd_session; c_osd_lru : list Z; c_linger_requests : gmap Z lptr;
  c_map_checks : gmap Z rptr; c_linger_map_checks : gmap Z lptr; c_num_requests : Z; c_num_homeless : Z;
  c_completion_wq : list rptr; c_notify_wq : list (lptr * linger_work); c_promoting : list rptr;
  c_stale : list lptr; c_reqs : gmap rptr osd_request; c_lreqs : gmap lptr linger_request; c_next : nat;
  c_calls : nat; c_jiffies : Z; c_log : list effect }.

Definition set_c_osdmap (v : ceph_osdmap) (c : client) : client :=
  Client v (c_epoch_barrier c) (c_abort_err c) (c_last_tid c) (c_last_linger_id c) (c_sessions c)
  (c_osd_lru c) (c_linger_requests c) (c_map_checks c) (c_linger_map_checks c) (c_num_requests c)
  (c_num_homeless c) (c_completion_wq c) (c_notify_wq c) (c_promoting c) (c_stale c) (c_reqs c) (c_lreqs c)
  (c_next c) (c_calls c) (c_jiffies c) (c_log c).
Definition set_c_epoch_barrier (v : Z) (c : client) : client :=
  Client (c_osdmap c) v (c_abort_err c) (c_last_tid c) (c_last_linger_id c) (c_sessions c) (c_osd_lru c)
  (c_linger_requests c) (c_map_checks c) (c_linger_map_checks c) (c_num_requests c) (c_num_homeless c)
  (c_completion_wq c) (c_notify_wq c) (c_promoting c) (c_stale c) (c_reqs c) (c_lreqs c) (c_next c)
  (c_calls c) (c_jiffies c) (c_log c).
Definition set_c_abort_err (v : Z) (c : client) : client :=
  Client (c_osdmap c) (c_epoch_barrier c) v (c_last_tid c) (c_last_linger_id c) (c_sessions c) (c_osd_lru c)
  (c_linger_requests c) (c_map_checks c) (c_linger_map_checks c) (c_num_requests c) (c_num_homeless c)
  (c_completion_wq c) (c_notify_wq c) (c_promoting c) (c_stale c) (c_reqs c) (c_lreqs c) (c_next c)
  (c_calls c) (c_jiffies c) (c_log c).
Definition set_c_last_tid (v : Z) (c : client) : client :=
  Client (c_osdmap c) (c_epoch_barrier c) (c_abort_err c) v (c_last_linger_id c) (c_sessions c)
  (c_osd_lru c) (c_linger_requests c) (c_map_checks c) (c_linger_map_checks c) (c_num_requests c)
  (c_num_homeless c) (c_completion_wq c) (c_notify_wq c) (c_promoting c) (c_stale c) (c_reqs c) (c_lreqs c)
  (c_next c) (c_calls c) (c_jiffies c) (c_log c).
Definition set_c_last_linger_id (v : Z) (c : client) : client :=
  Client (c_osdmap c) (c_epoch_barrier c) (c_abort_err c) (c_last_tid c) v (c_sessions c) (c_osd_lru c)
  (c_linger_requests c) (c_map_checks c) (c_linger_map_checks c) (c_num_requests c) (c_num_homeless c)
  (c_completion_wq c) (c_notify_wq c) (c_promoting c) (c_stale c) (c_reqs c) (c_lreqs c) (c_next c)
  (c_calls c) (c_jiffies c) (c_log c).
Definition set_c_sessions (v : gmap Z osd_session) (c : client) : client :=
  Client (c_osdmap c) (c_epoch_barrier c) (c_abort_err c) (c_last_tid c) (c_last_linger_id c) v
  (c_osd_lru c) (c_linger_requests c) (c_map_checks c) (c_linger_map_checks c) (c_num_requests c)
  (c_num_homeless c) (c_completion_wq c) (c_notify_wq c) (c_promoting c) (c_stale c) (c_reqs c) (c_lreqs c)
  (c_next c) (c_calls c) (c_jiffies c) (c_log c).
Definition set_c_osd_lru (v : list Z) (c : client) : client :=
  Client (c_osdmap c) (c_epoch_barrier c) (c_abort_err c) (c_last_tid c) (c_last_linger_id c) (c_sessions c)
  v (c_linger_requests c) (c_map_checks c) (c_linger_map_checks c) (c_num_requests c) (c_num_homeless c)
  (c_completion_wq c) (c_notify_wq c) (c_promoting c) (c_stale c) (c_reqs c) (c_lreqs c) (c_next c)
  (c_calls c) (c_jiffies c) (c_log c).
Definition set_c_linger_requests (v : gmap Z lptr) (c : client) : client :=
  Client (c_osdmap c) (c_epoch_barrier c) (c_abort_err c) (c_last_tid c) (c_last_linger_id c) (c_sessions c)
  (c_osd_lru c) v (c_map_checks c) (c_linger_map_checks c) (c_num_requests c) (c_num_homeless c)
  (c_completion_wq c) (c_notify_wq c) (c_promoting c) (c_stale c) (c_reqs c) (c_lreqs c) (c_next c)
  (c_calls c) (c_jiffies c) (c_log c).
Definition set_c_map_checks (v : gmap Z rptr) (c : client) : client :=
  Client (c_osdmap c) (c_epoch_barrier c) (c_abort_err c) (c_last_tid c) (c_last_linger_id c) (c_sessions c)
  (c_osd_lru c) (c_linger_requests c) v (c_linger_map_checks c) (c_num_requests c) (c_num_homeless c)
  (c_completion_wq c) (c_notify_wq c) (c_promoting c) (c_stale c) (c_reqs c) (c_lreqs c) (c_next c)
  (c_calls c) (c_jiffies c) (c_log c).
Definition set_c_linger_map_checks (v : gmap Z lptr) (c : client) : client :=
  Client (c_osdmap c) (c_epoch_barrier c) (c_abort_err c) (c_last_tid c) (c_last_linger_id c) (c_sessions c)
  (c_osd_lru c) (c_linger_requests c) (c_map_checks c) v (c_num_requests c) (c_num_homeless c)
  (c_completion_wq c) (c_notify_wq c) (c_promoting c) (c_stale c) (c_reqs c) (c_lreqs c) (c_next c)
  (c_calls c) (c_jiffies c) (c_log c).
Definition set_c_num_requests (v : Z) (c : client) : client :=
  Client (c_osdmap c) (c_epoch_barrier c) (c_abort_err c) (c_last_tid c) (c_last_linger_id c) (c_sessions c)
  (c_osd_lru c) (c_linger_requests c) (c_map_checks c) (c_linger_map_checks c) v (c_num_homeless c)
  (c_completion_wq c) (c_notify_wq c) (c_promoting c) (c_stale c) (c_reqs c) (c_lreqs c) (c_next c)
  (c_calls c) (c_jiffies c) (c_log c).
Definition set_c_num_homeless (v : Z) (c : client) : client :=
  Client (c_osdmap c) (c_epoch_barrier c) (c_abort_err c) (c_last_tid c) (c_last_linger_id c) (c_sessions c)
  (c_osd_lru c) (c_linger_requests c) (c_map_checks c) (c_linger_map_checks c) (c_num_requests c) v
  (c_completion_wq c) (c_notify_wq c) (c_promoting c) (c_stale c) (c_reqs c) (c_lreqs c) (c_next c)
  (c_calls c) (c_jiffies c) (c_log c).
Definition set_c_completion_wq (v : list rptr) (c : client) : client :=
  Client (c_osdmap c) (c_epoch_barrier c) (c_abort_err c) (c_last_tid c) (c_last_linger_id c) (c_sessions c)
  (c_osd_lru c) (c_linger_requests c) (c_map_checks c) (c_linger_map_checks c) (c_num_requests c)
  (c_num_homeless c) v (c_notify_wq c) (c_promoting c) (c_stale c) (c_reqs c) (c_lreqs c) (c_next c)
  (c_calls c) (c_jiffies c) (c_log c).
Definition set_c_notify_wq (v : list (lptr * linger_work)) (c : client) : client :=
  Client (c_osdmap c) (c_epoch_barrier c) (c_abort_err c) (c_last_tid c) (c_last_linger_id c) (c_sessions c)
  (c_osd_lru c) (c_linger_requests c) (c_map_checks c) (c_linger_map_checks c) (c_num_requests c)
  (c_num_homeless c) (c_completion_wq c) v (c_promoting c) (c_stale c) (c_reqs c) (c_lreqs c) (c_next c)
  (c_calls c) (c_jiffies c) (c_log c).
Definition set_c_promoting (v : list rptr) (c : client) : client :=
  Client (c_osdmap c) (c_epoch_barrier c) (c_abort_err c) (c_last_tid c) (c_last_linger_id c) (c_sessions c)
  (c_osd_lru c) (c_linger_requests c) (c_map_checks c) (c_linger_map_checks c) (c_num_requests c)
  (c_num_homeless c) (c_completion_wq c) (c_notify_wq c) v (c_stale c) (c_reqs c) (c_lreqs c) (c_next c)
  (c_calls c) (c_jiffies c) (c_log c).
Definition set_c_stale (v : list lptr) (c : client) : client :=
  Client (c_osdmap c) (c_epoch_barrier c) (c_abort_err c) (c_last_tid c) (c_last_linger_id c) (c_sessions c)
  (c_osd_lru c) (c_linger_requests c) (c_map_checks c) (c_linger_map_checks c) (c_num_requests c)
  (c_num_homeless c) (c_completion_wq c) (c_notify_wq c) (c_promoting c) v (c_reqs c) (c_lreqs c) (c_next c)
  (c_calls c) (c_jiffies c) (c_log c).
Definition set_c_reqs (v : gmap rptr osd_request) (c : client) : client :=
  Client (c_osdmap c) (c_epoch_barrier c) (c_abort_err c) (c_last_tid c) (c_last_linger_id c) (c_sessions c)
  (c_osd_lru c) (c_linger_requests c) (c_map_checks c) (c_linger_map_checks c) (c_num_requests c)
  (c_num_homeless c) (c_completion_wq c) (c_notify_wq c) (c_promoting c) (c_stale c) v (c_lreqs c)
  (c_next c) (c_calls c) (c_jiffies c) (c_log c).
Definition set_c_lreqs (v : gmap lptr linger_request) (c : client) : client :=
  Client (c_osdmap c) (c_epoch_barrier c) (c_abort_err c) (c_last_tid c) (c_last_linger_id c) (c_sessions c)
  (c_osd_lru c) (c_linger_requests c) (c_map_checks c) (c_linger_map_checks c) (c_num_requests c)
  (c_num_homeless c) (c_completion_wq c) (c_notify_wq c) (c_promoting c) (c_stale c) (c_reqs c) v (c_next c)
  (c_calls c) (c_jiffies c) (c_log c).
Definition set_c_next (v : nat) (c : client) : client :=
  Client (c_osdmap c) (c_epoch_barrier c) (c_abort_err c) (c_last_tid c) (c_last_linger_id c) (c_sessions c)
  (c_osd_lru c) (c_linger_requests c) (c_map_checks c) (c_linger_map_checks c) (c_num_requests c)
  (c_num_homeless c) (c_completion_wq c) (c_notify_wq c) (c_promoting c) (c_stale c) (c_reqs c) (c_lreqs c)
  v (c_calls c) (c_jiffies c) (c_log c).
Definition set_c_calls (v : nat) (c : client) : client :=
  Client (c_osdmap c) (c_epoch_barrier c) (c_abort_err c) (c_last_tid c) (c_last_linger_id c) (c_sessions c)
  (c_osd_lru c) (c_linger_requests c) (c_map_checks c) (c_linger_map_checks c) (c_num_requests c)
  (c_num_homeless c) (c_completion_wq c) (c_notify_wq c) (c_promoting c) (c_stale c) (c_reqs c) (c_lreqs c)
  (c_next c) v (c_jiffies c) (c_log c).
Definition set_c_jiffies (v : Z) (c : client) : client :=
  Client (c_osdmap c) (c_epoch_barrier c) (c_abort_err c) (c_last_tid c) (c_last_linger_id c) (c_sessions c)
  (c_osd_lru c) (c_linger_requests c) (c_map_checks c) (c_linger_map_checks c) (c_num_requests c)
  (c_num_homeless c) (c_completion_wq c) (c_notify_wq c) (c_promoting c) (c_stale c) (c_reqs c) (c_lreqs c)
  (c_next c) (c_calls c) v (c_log c).
Definition set_c_log (v : list effect) (c : client) : client :=
  Client (c_osdmap c) (c_epoch_barrier c) (c_abort_err c) (c_last_tid c) (c_last_linger_id c) (c_sessions c)
  (c_osd_lru c) (c_linger_requests c) (c_map_checks c) (c_linger_map_checks c) (c_num_requests c)
  (c_num_homeless c) (c_completion_wq c) (c_notify_wq c) (c_promoting c) (c_stale c) (c_reqs c) (c_lreqs c)
  (c_next c) (c_calls c) (c_jiffies c) v.
