(* ===== verification/OsdClient.v ===== *)
(** * The OSD client: sessions and requests (libceph/osd_client.c)

    Linking requests to sessions, opening and closing sessions, submitting, sending, completing
    and cancelling requests, and the map checks of requests whose pool does not exist.

    An operation runs under the client's lock as the code takes it, a request on a session under
    the session's lock.  The counters of requests, lingering requests, attempts and incarnations
    are not wrapped: nobody lives to see it. *)
From S2P Require Import Prelude Hash Crush Mapper Choose DoRule Workspace OsdMap Placement.
From S2P Require Import CrushLoc OsdTarget Decode OsdBackoff State OsdData.

Definition ENODEV : Z := 19.
Definition EAGAIN : Z := 11.
Definition ENOSPC : Z := 28.
Definition ETIMEDOUT : Z := 110.
Definition ENOTCONN : Z := 107.

(** What a client is configured with, and what [calc_target] finds in memory at its n-th call. *)
Record ceph_options := CephOptions {
  co_fuel : nat;
  co_env : ceph_osdmap → nat → calc_env;
  co_locs : list crush_loc;
  co_abort_on_full : bool;
  co_osd_request_timeout : Z;
  co_osd_keepalive_timeout : Z;
  co_osd_idle_ttl : Z }.

#[export] Instance ceph_entity_addr_eq_dec : EqDecision ceph_entity_addr.
Proof. solve_decision. Defined.

Abbreviation C := (ST client).

(** ** Access *)

Definition get_session (o : Z) : C osd_session := c ← st_get; st_lift (deref (c_sessions c !! o)).
Definition put_session (o : Z) (s : osd_session) : C unit :=
  st_modify (λ c, set_c_sessions (<[o := s]> (c_sessions c)) c).
Definition upd_session (o : Z) (f : osd_session → osd_session) : C unit :=
  s ← get_session o; put_session o (f s).
Definition get_req (p : rptr) : C osd_request := c ← st_get; st_lift (deref (c_reqs c !! p)).
Definition upd_req (p : rptr) (f : osd_request → osd_request) : C unit :=
  r ← get_req p; st_modify (λ c, set_c_reqs (<[p := f r]> (c_reqs c)) c).
Definition get_lreq (p : lptr) : C linger_request := c ← st_get; st_lift (deref (c_lreqs c !! p)).
Definition upd_lreq (p : lptr) (f : linger_request → linger_request) : C unit :=
  l ← get_lreq p; st_modify (λ c, set_c_lreqs (<[p := f l]> (c_lreqs c)) c).
Definition emit (e : effect) : C unit := st_modify (λ c, set_c_log (e :: c_log c) c).

Definition osd_homeless (o : Z) : bool := o =? CEPH_HOMELESS_OSD.

(** The trees of a session, empty if there is none. *)
Definition requests_of (c : client) (o : Z) : gmap Z rptr := from_option o_requests ∅ (c_sessions c !! o).
Definition lingers_of (c : client) (o : Z) : gmap Z lptr := from_option o_linger_requests ∅ (c_sessions c !! o).
Definition each_request (o : Z) (body : rptr → C unit) : C unit :=
  s ← get_session o;
  st_each (rb_in_order (o_requests s)) (λ c tid, bool_decide (is_Some (requests_of c o !! tid))) body.
Definition each_linger (o : Z) (body : lptr → C unit) : C unit :=
  s ← get_session o;
  st_each (rb_in_order (o_linger_requests s)) (λ c id, bool_decide (is_Some (lingers_of c o !! id))) body.
(** The sessions of [osds] from one on: the next one is looked up before the body, which may close the
    session and open others. *)
Definition rb_next_osd (c : client) (o : Z) : option Z :=
  head (filter (λ k, o < k) (map fst (rb_in_order (c_sessions c)))).
Fixpoint osds_from (fuel : nat) (n : option Z) (body : Z → C unit) : C unit :=
  match n with
  | None => mret tt
  | Some o =>
      match fuel with
      | O => λ _, NoFuel
      | S fuel =>
          c ← st_get;
          if bool_decide (is_Some (c_sessions c !! o)) then
            let n := rb_next_osd c o in
            _ ← body o; osds_from fuel n body
          else st_undef
      end
  end.
(** No session has a number behind those that there are and those of the map. *)
Definition osds_fuel (c : client) : nat :=
  S (Z.to_nat (foldr Z.max (om_max_osd (c_osdmap c)) (map fst (map_to_list (c_sessions c))))).
Definition each_osd (body : Z → C unit) : C unit :=
  c ← st_get; osds_from (osds_fuel c) (rb_next_osd c CEPH_HOMELESS_OSD) body.

(** ** Sessions *)

Section client.
Context (opts : ceph_options).

Definition osd_init (serial : nat) : osd_session := OsdSession serial 1 zero_addr ∅ ∅ ∅ (Backoffs ∅ ∅) 0.
Definition create_osd : C osd_session :=
  c ← st_get; _ ← st_modify (set_c_next (S (c_next c))); mret (osd_init (c_next c)).

Definition move_osd_to_lru_ (o : Z) : C unit :=
  c ← st_get;
  _ ← st_lift (require (negb (bool_decide (o ∈ c_osd_lru c))));
  _ ← st_modify (set_c_osd_lru (c_osd_lru c ++ [o]));
  upd_session o (set_o_lru_ttl (c_jiffies c + co_osd_idle_ttl opts)).
Definition maybe_move_osd_to_lru (o : Z) : C unit :=
  s ← get_session o;
  st_when (bool_decide (o_requests s = ∅) && bool_decide (o_linger_requests s = ∅)) (move_osd_to_lru_ o).
Definition remove_osd_from_lru_ (o : Z) : C unit :=
  st_modify (λ c, set_c_osd_lru (filter (λ x, x ≠ o) (c_osd_lru c)) c).

Definition link_request (o : Z) (p : rptr) : C unit :=
  r ← get_req p;
  _ ← (if osd_homeless o then st_modify (λ c, set_c_num_homeless (c_num_homeless c + 1) c)
       else remove_osd_from_lru_ o);
  s ← get_session o;
  t ← st_lift (rb_insert (r_tid r) p (o_requests s));
  _ ← put_session o (set_o_requests t s);
  upd_req p (set_r_osd (Some o)).

Definition unlink_request (o : Z) (p : rptr) : C unit :=
  _ ← upd_req p (set_r_osd None);
  r ← get_req p;
  s ← get_session o;
  t ← st_lift (rb_erase (r_tid r) (o_requests s));
  _ ← put_session o (set_o_requests t s);
  if osd_homeless o then st_modify (λ c, set_c_num_homeless (c_num_homeless c - 1) c)
  else maybe_move_osd_to_lru o.

Definition link_linger (o : Z) (p : lptr) : C unit :=
  l ← get_lreq p;
  _ ← (if osd_homeless o then st_modify (λ c, set_c_num_homeless (c_num_homeless c + 1) c)
       else remove_osd_from_lru_ o);
  s ← get_session o;
  t ← st_lift (rb_insert (l_linger_id l) p (o_linger_requests s));
  _ ← put_session o (set_o_linger_requests t s);
  upd_lreq p (set_l_osd (Some o)).

Definition unlink_linger (o : Z) (p : lptr) : C unit :=
  _ ← upd_lreq p (set_l_osd None);
  l ← get_lreq p;
  s ← get_session o;
  t ← st_lift (rb_erase (l_linger_id l) (o_linger_requests s));
  _ ← put_session o (set_o_linger_requests t s);
  if osd_homeless o then st_modify (λ c, set_c_num_homeless (c_num_homeless c - 1) c)
  else maybe_move_osd_to_lru o.

Definition clear_session_backoffs (o : Z) : C unit :=
  s ← get_session o; b ← st_lift (clear_backoffs (o_backoffs s)); put_session o (set_o_backoffs b s).

(** The messenger: a connection that is closed forgets what it was handed. *)
Definition ceph_con_close (o : Z) : C unit := _ ← emit (Con_close o); upd_session o (set_o_con_queue ∅).

Definition close_osd (o : Z) : C unit :=
  _ ← ceph_con_close o;
  _ ← each_request o (λ p, _ ← unlink_request o p; link_request CEPH_HOMELESS_OSD p);
  _ ← each_linger o (λ p, _ ← unlink_linger o p; link_linger CEPH_HOMELESS_OSD p);
  _ ← clear_session_backoffs o;
  _ ← remove_osd_from_lru_ o;
  c ← st_get;
  t ← st_lift (rb_erase o (c_sessions c));
  st_modify (set_c_sessions t).

Definition open_con (addr : ceph_entity_addr) (s : osd_session) : osd_session :=
  OsdSession (o_serial s) (o_incarnation s) addr ∅ (o_requests s) (o_linger_requests s) (o_backoffs s) (o_lru_ttl s).
Definition next_incarnation (s : osd_session) : osd_session :=
  OsdSession (o_serial s) (o_incarnation s + 1) (o_peer_addr s) (o_con_queue s) (o_requests s) (o_linger_requests s)
    (o_backoffs s) (o_lru_ttl s).
Definition ceph_con_open (o : Z) (addr : ceph_entity_addr) : C unit :=
  _ ← emit (Con_open o addr); upd_session o (open_con addr).

(** [opened]: the messenger has had the connection open ([ceph_con_opened]). *)
Definition reopen_osd (o : Z) (opened : bool) : C Z :=
  s ← get_session o;
  if bool_decide (o_requests s = ∅) && bool_decide (o_linger_requests s = ∅) then
    _ ← close_osd o; mret (- ENODEV)
  else
    c ← st_get;
    peer_addr ← st_lift (aget (om_osd_addr (c_osdmap c)) o);
    if bool_decide (peer_addr = o_peer_addr s) && negb opened then
      _ ← each_request o (λ p, upd_req p (set_r_stamp (c_jiffies c)));
      mret (- EAGAIN)
    else
      _ ← ceph_con_close o;
      _ ← ceph_con_open o peer_addr;
      _ ← upd_session o next_incarnation;
      mret 0.

(** [false] is -EAGAIN: there is no session, and the lock is held for reading only. *)
Definition lookup_create_osd (o : Z) (wrlocked : bool) : C bool :=
  c ← st_get;
  match c_sessions c !! o with
  | Some _ => mret true
  | None =>
      if negb wrlocked then mret false
      else
        s ← create_osd;
        c ← st_get;
        t ← st_lift (rb_insert o s (c_sessions c));
        _ ← st_modify (set_c_sessions t);
        addr ← st_lift (aget (om_osd_addr (c_osdmap c)) o);
        _ ← ceph_con_open o addr;
        mret true
  end.

(** ** Targets and maps *)

Definition calc_target_of (t : osd_target) (any_change : bool) : C (osd_target * calc_target_result) :=
  c ← st_get;
  _ ← st_modify (set_c_calls (S (c_calls c)));
  st_lift (calc_target (co_fuel opts) (co_env opts (c_osdmap c) (c_calls c)) (c_osdmap c) (c_epoch_barrier c)
             (co_locs opts) t any_change).

Definition osdmap_flag (c : client) (flag : Z) : bool := flagged (om_flags (c_osdmap c)) flag.

(** Whether the subscription is renewed is up to the monitor client. *)
Definition maybe_request_map : C unit :=
  c ← st_get;
  let continuous := osdmap_flag c CEPH_OSDMAP_FULL || osdmap_flag c CEPH_OSDMAP_PAUSERD
                    || osdmap_flag c CEPH_OSDMAP_PAUSEWR in
  emit (Want_map (u32 (om_epoch (c_osdmap c) + 1)) continuous).

(** ** Sending *)

(** A message is in the queue of one connection at most. *)
Definition ceph_msg_revoke (p : rptr) : C unit :=
  st_modify (λ c, set_c_sessions ((λ s, set_o_con_queue (delete p (o_con_queue s)) s) <$> c_sessions c) c).
(** [homeless_osd] has no connection to send on. *)
Definition ceph_con_send (o : Z) (p : rptr) (m : osd_message) : C unit :=
  _ ← st_lift (require (negb (osd_homeless o)));
  upd_session o (λ s, set_o_con_queue (<[p := m]> (o_con_queue s)) s).

Definition mark_sent (incarnation now : Z) (t : osd_target) (r : osd_request) : osd_request :=
  OsdRequest (r_tid r) (r_osd r) (set_t_paused false t) incarnation (r_ops r) (r_result r) (r_linger r) (r_completion r)
    (r_callback r) (r_priv r) (r_version r) now (r_start_stamp r) (r_end_latency r) (r_attempts r + 1)
    (r_map_dne_bound r).

Definition send_request (p : rptr) : C unit :=
  r ← get_req p;
  o ← st_lift (deref (r_osd r));
  s ← get_session o;
  if should_plug_request (o_backoffs s) (r_t r) then mret tt
  else
    _ ← st_when (nonzero (r_sent r)) (ceph_msg_revoke p);
    c ← st_get;
    let flags := Z.lor (t_flags (r_t r)) CEPH_OSD_FLAG_KNOWN_REDIR in
    let flags := if nonzero (r_attempts r) then Z.lor flags CEPH_OSD_FLAG_RETRY else flags in
    let t := set_t_flags flags (r_t r) in
    _ ← upd_req p (mark_sent (o_incarnation s) (c_jiffies c) t);
    ceph_con_send o p (OsdMessage (r_tid r) (r_attempts r) t).

(** ** Completion *)

Definition finish_request (p : rptr) : C unit :=
  c ← st_get;
  _ ← upd_req p (set_r_end_latency (Some (c_jiffies c)));
  r ← get_req p;
  _ ← match r_osd r with Some o => unlink_request o p | None => mret tt end;
  _ ← st_modify (λ c, set_c_num_requests (c_num_requests c - 1) c);
  ceph_msg_revoke p.

Definition complete_request (p : rptr) (err : Z) : C unit :=
  _ ← upd_req p (set_r_result err);
  _ ← finish_request p;
  st_modify (λ c, set_c_completion_wq (c_completion_wq c ++ [p]) c).

Definition cancel_map_check (p : rptr) : C unit :=
  r ← get_req p;
  c ← st_get;
  match c_map_checks c !! r_tid r with
  | None => mret tt
  | Some lookup_req => t ← st_lift (rb_erase (r_tid r) (c_map_checks c)); st_modify (set_c_map_checks t)
  end.

Definition complete_all (p : rptr) : C unit := _ ← upd_req p (set_r_completion true); emit (Complete_all p).

Definition cancel_request (p : rptr) : C unit :=
  _ ← cancel_map_check p;
  _ ← finish_request p;
  complete_all p.

Definition abort_request (p : rptr) (err : Z) : C unit := _ ← cancel_map_check p; complete_request p err.

(** [for_each_request] with a function that does not stop the iteration. *)
Definition for_each_request (f : rptr → C unit) : C unit :=
  _ ← each_osd (λ o, each_request o f); each_request CEPH_HOMELESS_OSD f.

Definition ceph_osdc_abort_requests (err : Z) : C unit :=
  _ ← for_each_request (λ p, abort_request p err); st_modify (set_c_abort_err err).
Definition ceph_osdc_clear_abort_err : C unit := st_modify (set_c_abort_err 0).

Definition update_epoch_barrier (eb : Z) : C unit :=
  c ← st_get;
  st_when (eb >? c_epoch_barrier c)
    (_ ← st_modify (set_c_epoch_barrier eb); st_when (eb >? om_epoch (c_osdmap c)) maybe_request_map).
(** The test under the lock for reading is made again under the lock for writing. *)
Definition ceph_osdc_update_epoch_barrier (eb : Z) : C unit :=
  c ← st_get; st_when (eb >? c_epoch_barrier c) (update_epoch_barrier eb).

(** The barrier moves before the first victim; for later ones it is there already. *)
Definition abort_on_full_fn (p : rptr) : C unit :=
  r ← get_req p;
  c ← st_get;
  st_when (flagged (t_flags (r_t r)) CEPH_OSD_FLAG_WRITE
           && (osdmap_flag c CEPH_OSDMAP_FULL || pool_full (c_osdmap c) (oloc_pool (t_base_oloc (r_t r)))))
    (_ ← update_epoch_barrier (om_epoch (c_osdmap c)); abort_request p (- ENOSPC)).
Definition ceph_osdc_abort_on_full : C unit :=
  c ← st_get;
  st_when (co_abort_on_full opts && (osdmap_flag c CEPH_OSDMAP_FULL || have_pool_full (c_osdmap c)))
    (for_each_request abort_on_full_fn).

(** ** Pools that do not exist *)

Definition send_map_check (p : rptr) : C unit :=
  r ← get_req p;
  c ← st_get;
  match c_map_checks c !! r_tid r with
  | Some _ => mret tt
  | None =>
      t ← st_lift (rb_insert (r_tid r) p (c_map_checks c));
      _ ← st_modify (set_c_map_checks t);
      emit (Get_version (r_tid r))
  end.

Definition check_pool_dne (p : rptr) : C unit :=
  c ← st_get;
  let epoch := om_epoch (c_osdmap c) in
  r ← get_req p;
  _ ← st_when (nonzero (r_attempts r)) (upd_req p (set_r_map_dne_bound epoch));
  r ← get_req p;
  if nonzero (r_map_dne_bound r) then
    st_when (epoch >=? r_map_dne_bound r) (complete_request p (- ENOENT))
  else send_map_check p.

Definition map_check_cb (tid newest : Z) : C unit :=
  c ← st_get;
  match c_map_checks c !! tid with
  | None => mret tt
  | Some p =>
      r ← get_req p;
      _ ← st_when (negb (nonzero (r_map_dne_bound r))) (upd_req p (set_r_map_dne_bound (u32 newest)));
      c ← st_get;
      t ← st_lift (rb_erase (r_tid r) (c_map_checks c));
      _ ← st_modify (set_c_map_checks t);
      check_pool_dne p
  end.

(** ** Submission *)

(** Whether the request fails at once, and whether it is sent now. *)
Definition submit_check (p : rptr) (o : Z) : C (Z * bool) :=
  c ← st_get;
  r ← get_req p;
  let read := flagged (t_flags (r_t r)) CEPH_OSD_FLAG_READ in
  let write := flagged (t_flags (r_t r)) CEPH_OSD_FLAG_WRITE in
  let pause := _ ← upd_req p (λ r, set_r_t (set_t_paused true (r_t r)) r); maybe_request_map in
  if nonzero (c_abort_err c) then mret (c_abort_err c, false)
  else if om_epoch (c_osdmap c) <? c_epoch_barrier c then _ ← pause; mret (0, false)
  else if write && osdmap_flag c CEPH_OSDMAP_PAUSEWR then _ ← pause; mret (0, false)
  else if read && osdmap_flag c CEPH_OSDMAP_PAUSERD then _ ← pause; mret (0, false)
  else if write && negb (flagged (t_flags (r_t r)) (Z.lor CEPH_OSD_FLAG_FULL_TRY CEPH_OSD_FLAG_FULL_FORCE))
          && (osdmap_flag c CEPH_OSDMAP_FULL || pool_full (c_osdmap c) (oloc_pool (t_base_oloc (r_t r)))) then
    if co_abort_on_full opts then mret (- ENOSPC, false) else _ ← pause; mret (0, false)
  else if negb (osd_homeless o) then mret (0, true)
  else _ ← maybe_request_map; mret (0, false).

(** [__submit_request] up to where it needs the lock for writing ([false]), or to its end. *)
Definition submit_request_ (p : rptr) (wrlocked : bool) : C bool :=
  r ← get_req p;
  '(t, ct_res) ← calc_target_of (r_t r) false;
  _ ← upd_req p (set_r_t t);
  if bool_decide (ct_res = CALC_TARGET_POOL_DNE) && negb wrlocked then mret false
  else
    found ← lookup_create_osd (t_osd t) wrlocked;
    if negb found then mret false
    else
      '(err, need_send) ← submit_check p (t_osd t);
      _ ← st_modify (λ c, set_c_last_tid (c_last_tid c + 1) c);
      c ← st_get;
      _ ← upd_req p (set_r_tid (c_last_tid c));
      _ ← link_request (t_osd t) p;
      _ ← (if (need_send : bool) then send_request p else st_when (nonzero err) (complete_request p err));
      _ ← st_when ((err =? 0) && bool_decide (ct_res = CALC_TARGET_POOL_DNE)) (send_map_check p);
      mret true.

Definition account_request (p : rptr) : C unit :=
  _ ← upd_req p (λ r, set_r_t (set_t_flags (Z.lor (t_flags (r_t r)) CEPH_OSD_FLAG_ONDISK) (r_t r)) r);
  _ ← st_modify (λ c, set_c_num_requests (c_num_requests c + 1) c);
  c ← st_get;
  upd_req p (set_r_start_stamp (c_jiffies c)).

(** Under the lock for reading: a submission that needs the one for writing waits for it, and
    starts again with it. *)
Definition submit_read (p : rptr) : C unit :=
  ok ← submit_request_ p false;
  st_when (negb ok) (st_modify (λ c, set_c_promoting (c_promoting c ++ [p]) c)).
Definition submit_promoted (p : rptr) : C unit :=
  _ ← st_modify (λ c, set_c_promoting (filter (λ x, x ≠ p) (c_promoting c)) c);
  _ ← submit_request_ p true;
  mret tt.

Definition ceph_osdc_start_request (p : rptr) : C unit := _ ← account_request p; submit_read p.
Definition ceph_osdc_cancel_request (p : rptr) : C unit :=
  r ← get_req p;
  match r_osd r with Some _ => cancel_request p | None => mret tt end.
End client.
