(* ===== verification/OsdLinger.v ===== *)
(** * The OSD client: lingering requests (libceph/osd_client.c)

    Watches and notifications: a request that registers them and is sent again after every change,
    pings, and what a completed request, an OSD's message or a map check does to them. *)
From S2P Require Import Prelude Hash Crush Mapper Choose DoRule Workspace OsdMap Placement.
From S2P Require Import CrushLoc OsdTarget Decode OsdBackoff State OsdData OsdClient.

Definition CEPH_LINGER_ID_START : Z := 0xffff000000000000.

Section linger.
Context (opts : ceph_options).

(** ** Works for the caller *)

(** [mem_ok]: the work could be allocated. *)
Definition lwork_queue (p : lptr) (w : linger_work) : C unit :=
  _ ← upd_lreq p (λ l, set_l_pending_lworks (l_pending_lworks l ++ [w]) l);
  st_modify (λ c, set_c_notify_wq (c_notify_wq c ++ [(p, w)]) c).
Definition queue_watch_error (mem_ok : bool) (p : lptr) : C unit :=
  l ← get_lreq p;
  c ← st_get;
  st_when mem_ok (lwork_queue p (watch_error (l_last_error l) (c_jiffies c))).

Definition linger_registered (p : lptr) : C bool :=
  l ← get_lreq p; c ← st_get; mret (bool_decide (c_linger_requests c !! l_linger_id l = Some p)).

(** The works run in the order they were queued: [do_watch_error] and [do_watch_notify] with
    [lwork_free]. *)
Definition do_lwork : C unit :=
  c ← st_get;
  match c_notify_wq c with
  | [] => mret tt
  | (p, w) :: rest =>
      _ ← st_modify (set_c_notify_wq rest);
      registered ← linger_registered p;
      _ ← st_when registered
            match w with
            | watch_error err _ => emit (Watch_errcb p err)
            | watch_notify notify_id notifier_id payload _ => emit (Watch_cb p notify_id notifier_id payload)
            end;
      upd_lreq p (λ l, set_l_pending_lworks (tail (l_pending_lworks l)) l)
  end.

(** ** What its requests report *)

Definition linger_reg_commit_complete (p : lptr) (result : Z) : C unit :=
  l ← get_lreq p;
  st_when (negb (l_reg_commit_wait l))
    (upd_lreq p (λ l, set_l_reg_commit_wait true (set_l_reg_commit_error (if result <=? 0 then result else 0) l))).

Definition normalize_watch_error (err : Z) : Z := if err =? - ENOENT then - ENOTCONN else err.

(** An error that is the first one is kept and told to the caller. *)
Definition linger_error (mem_ok : bool) (p : lptr) (err : Z) : C unit :=
  l ← get_lreq p;
  st_when (negb (nonzero (l_last_error l))) (_ ← upd_lreq p (set_l_last_error err); queue_watch_error mem_ok p).

Definition is_own (o : option rptr) (p : rptr) : bool := bool_decide (o = Some p).

Definition linger_commit (p : rptr) : C unit :=
  r ← get_req p;
  let lp := r_priv r in
  l ← get_lreq lp;
  st_when (is_own (l_reg_req l) p)
    (_ ← linger_reg_commit_complete lp (r_result r);
     _ ← upd_lreq lp (set_l_committed true);
     op ← st_lift (deref (r_ops r !! 0%nat));
     st_when (negb (l_is_watch l) && (op_outdata_len op >=? 8))
       (id ← st_lift (slice (op_response op) 0 8); upd_lreq lp (set_l_notify_id (le_combine id)))).

Definition linger_reconnect (mem_ok : bool) (p : rptr) : C unit :=
  r ← get_req p;
  let lp := r_priv r in
  l ← get_lreq lp;
  st_when (is_own (l_reg_req l) p && (r_result r <? 0))
    (linger_error mem_ok lp (normalize_watch_error (r_result r))).

Definition linger_ping (mem_ok : bool) (p : rptr) : C unit :=
  r ← get_req p;
  let lp := r_priv r in
  l ← get_lreq lp;
  st_when (is_own (l_ping_req l) p)
    (op ← st_lift (deref (r_ops r !! 0%nat));
     st_when (l_register_gen l =? op_watch_gen op)
       (if r_result r =? 0 then upd_lreq lp (set_l_watch_valid_thru (l_ping_sent l))
        else linger_error mem_ok lp (normalize_watch_error (r_result r)))).

(** [__complete_request]: the callback, then the waiters. *)
Definition complete_request_ (mem_ok : bool) (p : rptr) : C unit :=
  r ← get_req p;
  _ ← match r_callback r with
      | caller_cb => emit (Callback p (r_result r))
      | linger_commit_cb => linger_commit p
      | linger_reconnect_cb => linger_reconnect mem_ok p
      | linger_ping_cb => linger_ping mem_ok p
      end;
  complete_all p.
Definition complete_request_workfn (mem_ok : bool) : C unit :=
  c ← st_get;
  match c_completion_wq c with
  | [] => mret tt
  | p :: rest => _ ← st_modify (set_c_completion_wq rest); complete_request_ mem_ok p
  end.

(** ** Its requests *)

(** [cancel_linger_request]; the reference it drops is not modelled. *)
Definition cancel_linger_request (p : rptr) : C unit := cancel_request opts p.
Definition cancel_if_linked (o : option rptr) : C unit :=
  match o with
  | None => mret tt
  | Some p =>
      r ← get_req p;
      match r_osd r with Some _ => cancel_linger_request p | None => mret tt end
  end.

Definition target_copy (dest src : osd_target) : outcome osd_target :=
  acting ← ceph_osds_copy (t_acting dest) (t_acting src);
  up ← ceph_osds_copy (t_up dest) (t_up src);
  Ret (OsdTarget (t_base_oid src) (t_base_oloc src) (t_target_oid src) (t_target_oloc src) (t_pgid src) (t_spgid src)
         (t_pg_num src) (t_pg_num_mask src) acting up (t_size src) (t_min_size src) (t_sort_bitwise src)
         (t_recovery_deletes src) (t_flags src) (t_used_replica src) (t_paused src) (t_epoch src)
         (t_last_force_resend src) (t_osd src)).

(** A request of one operation, from the memory pool, which does not fail. *)
Definition alloc_linger_request (lp : lptr) (t : osd_target) (gen : Z) (cb : osdc_callback) : C rptr :=
  t ← st_lift (target_copy target_init t);
  c ← st_get;
  let p := c_next c in
  _ ← st_modify (set_c_next (S p));
  _ ← st_modify (λ c, set_c_reqs (<[p := OsdRequest 0 None t 0 [OsdReqOp gen 0 0 (replicate 8 0)] 0 true false cb lp 0 0 0
                                                None 0 0]> (c_reqs c)) c);
  mret p.

(** Allocates the request that registers, or registers again, and submits it. *)
Definition send_linger (lp : lptr) : C unit :=
  l ← get_lreq lp;
  _ ← cancel_if_linked (l_reg_req l);
  p ← (if l_is_watch l && l_committed l then
         let gen := u32 (l_register_gen l + 1) in
         _ ← upd_lreq lp (set_l_register_gen gen);
         alloc_linger_request lp (l_t l) gen linger_reconnect_cb
       else
         _ ← st_when (negb (l_is_watch l)) (upd_lreq lp (set_l_notify_id 0));
         alloc_linger_request lp (l_t l) 0 linger_commit_cb);
  _ ← upd_lreq lp (set_l_reg_req (Some p));
  _ ← account_request p;
  _ ← submit_request_ opts p true;
  mret tt.

Definition send_linger_ping (lp : lptr) : C unit :=
  c ← st_get;
  if osdmap_flag c CEPH_OSDMAP_PAUSERD then mret tt
  else
    _ ← upd_lreq lp (set_l_ping_sent (c_jiffies c));
    l ← get_lreq lp;
    _ ← cancel_if_linked (l_ping_req l);
    p ← alloc_linger_request lp (l_t l) (l_register_gen l) linger_ping_cb;
    _ ← upd_lreq lp (set_l_ping_req (Some p));
    _ ← account_request p;
    _ ← st_modify (λ c, set_c_last_tid (c_last_tid c + 1) c);
    c ← st_get;
    _ ← upd_req p (set_r_tid (c_last_tid c));
    o ← st_lift (deref (l_osd l));
    _ ← link_request o p;
    send_request p.

(** ** From registration to cancellation *)

Definition linger_register (lp : lptr) : C unit :=
  _ ← st_modify (λ c, set_c_last_linger_id (c_last_linger_id c + 1) c);
  c ← st_get;
  _ ← upd_lreq lp (set_l_linger_id (c_last_linger_id c));
  t ← st_lift (rb_insert (c_last_linger_id c) lp (c_linger_requests c));
  st_modify (set_c_linger_requests t).
Definition linger_unregister (lp : lptr) : C unit :=
  l ← get_lreq lp;
  c ← st_get;
  t ← st_lift (rb_erase (l_linger_id l) (c_linger_requests c));
  st_modify (set_c_linger_requests t).

Definition linger_submit (lp : lptr) : C unit :=
  _ ← linger_register lp;
  l ← get_lreq lp;
  '(t, _) ← calc_target_of opts (l_t l) false;
  _ ← upd_lreq lp (set_l_t t);
  _ ← lookup_create_osd (t_osd t) true;
  _ ← link_linger (t_osd t) lp;
  send_linger lp.

Definition cancel_linger_map_check (lp : lptr) : C unit :=
  l ← get_lreq lp;
  c ← st_get;
  match c_linger_map_checks c !! l_linger_id l with
  | None => mret tt
  | Some _ => t ← st_lift (rb_erase (l_linger_id l) (c_linger_map_checks c)); st_modify (set_c_linger_map_checks t)
  end.

Definition linger_cancel_ (lp : lptr) : C unit :=
  l ← get_lreq lp;
  _ ← cancel_if_linked (l_ping_req l);
  _ ← cancel_if_linked (l_reg_req l);
  _ ← cancel_linger_map_check lp;
  l ← get_lreq lp;
  o ← st_lift (deref (l_osd l));
  _ ← unlink_linger opts o lp;
  linger_unregister lp.
Definition linger_cancel (lp : lptr) : C unit :=
  registered ← linger_registered lp; st_when registered (linger_cancel_ lp).

Definition send_linger_map_check (lp : lptr) : C unit :=
  l ← get_lreq lp;
  c ← st_get;
  match c_linger_map_checks c !! l_linger_id l with
  | Some _ => mret tt
  | None =>
      t ← st_lift (rb_insert (l_linger_id l) lp (c_linger_map_checks c));
      _ ← st_modify (set_c_linger_map_checks t);
      emit (Get_version_linger (l_linger_id l))
  end.

Definition check_linger_pool_dne (lp : lptr) : C unit :=
  c ← st_get;
  let epoch := om_epoch (c_osdmap c) in
  l ← get_lreq lp;
  _ ← st_when (nonzero (l_register_gen l)) (upd_lreq lp (set_l_map_dne_bound epoch));
  l ← get_lreq lp;
  if nonzero (l_map_dne_bound l) then
    st_when (epoch >=? l_map_dne_bound l)
      (_ ← linger_reg_commit_complete lp (- ENOENT); linger_cancel_ lp)
  else send_linger_map_check lp.

Definition linger_map_check_cb (linger_id newest : Z) : C unit :=
  c ← st_get;
  match c_linger_map_checks c !! linger_id with
  | None => mret tt
  | Some lp =>
      l ← get_lreq lp;
      _ ← st_when (negb (nonzero (l_map_dne_bound l))) (upd_lreq lp (set_l_map_dne_bound (u32 newest)));
      t ← st_lift (rb_erase (l_linger_id l) (c_linger_map_checks c));
      _ ← st_modify (set_c_linger_map_checks t);
      check_linger_pool_dne lp
  end.

(** ** The caller's operations *)

(** [linger_alloc] with what a caller sets, and the submission.  Waiting is the caller's. *)
Definition linger_alloc (is_watch : bool) (oid : list Z) (oloc : ceph_object_locator) (flags : Z) : C lptr :=
  c ← st_get;
  let p := c_next c in
  _ ← st_modify (set_c_next (S p));
  _ ← st_modify (λ c, set_c_lreqs (<[p := LingerRequest 0 false is_watch None None None 0
        (if is_watch then c_jiffies c else 0) [] (caller_target oid oloc flags) 0 false false 0 0 0 0 0]> (c_lreqs c)) c);
  mret p.
Definition ceph_osdc_watch (oid : list Z) (oloc : ceph_object_locator) : C lptr :=
  p ← linger_alloc true oid oloc CEPH_OSD_FLAG_WRITE; _ ← linger_submit p; mret p.
Definition ceph_osdc_notify (oid : list Z) (oloc : ceph_object_locator) : C lptr :=
  p ← linger_alloc false oid oloc CEPH_OSD_FLAG_READ; _ ← linger_submit p; mret p.

(** The age of the watch in jiffies, or its error. *)
Definition ceph_osdc_watch_check (lp : lptr) : C (Z + Z) :=
  l ← get_lreq lp;
  c ← st_get;
  let stamp := match l_pending_lworks l with
               | w :: _ => if s64 (lw_queued_stamp w - l_watch_valid_thru l) <? 0 then lw_queued_stamp w
                           else l_watch_valid_thru l
               | [] => l_watch_valid_thru l
               end in
  mret (if nonzero (l_last_error l) then inr (l_last_error l) else inl (u64 (c_jiffies c - stamp))).

(** ** Messages of the OSD about a watch *)

Definition CEPH_WATCH_EVENT_DISCONNECT : Z := 3.

(** Behind the decoding: [mem_ok] for the work. *)
Definition watch_notify_event (mem_ok : bool) (opcode cookie notify_id notifier_id return_code : Z) (payload : list Z)
    : C unit :=
  c ← st_get;
  match c_linger_requests c !! cookie with
  | None => mret tt
  | Some lp =>
      l ← get_lreq lp;
      if opcode =? CEPH_WATCH_EVENT_DISCONNECT then linger_error mem_ok lp (- ENOTCONN)
      else if negb (l_is_watch l) then
        if nonzero (l_notify_id l) && negb (l_notify_id l =? notify_id) then mret tt
        else st_when (negb (l_notify_finish_wait l))
               (upd_lreq lp (λ l, set_l_notify_finish_wait true (set_l_notify_finish_error return_code l)))
      else st_when mem_ok (lwork_queue lp (watch_notify notify_id notifier_id payload (c_jiffies c)))
  end.
End linger.
