(* ===== verification/OsdMapChange.v ===== *)
(** * The OSD client: a new map (libceph/osd_client.c)

    The message with maps, each map in turn with the scan of all requests, and what is sent
    again at the end. *)
From S2P Require Import Prelude Hash Crush Mapper Choose DoRule Workspace OsdMap Placement.
From S2P Require Import CrushLoc OsdTarget Decode CrushDecode OsdMapDecode OsdBackoff State OsdData OsdClient.
From S2P Require Import OsdLinger.

(** What decoding a map finds: allocations that work, contents of fresh memory. *)
Record decode_mem := DecodeMem {
  dm_alloc_ok : alloc_site → Z → Z → bool;
  dm_mem : nat → Z; dm_amem : nat → ceph_entity_addr; dm_wmem : Z → Z; dm_junk : ceph_entity_addr;
  dm_handle : handle }.

(** What the monitors and the messenger have agreed on. *)
Record map_options := MapOptions {
  mo_msgr2 : bool;
  mo_fsid : option (list Z) }.

(** The local lists: requests to send again by their tid, and lingering ones. *)
Definition resend : Type := gmap Z rptr * list lptr.
Abbreviation R := (ST (client * resend)).

Definition on_client {A} (m : C A) : R A := λ '(c, l), '(a, c) ← m c; Ret (a, (c, l)).
Definition get_resend : R resend := λ s, Ret (s.2, s).
Definition put_resend (l : resend) : R unit := λ s, Ret (tt, (s.1, l)).
Definition get_client : R client := λ s, Ret (s.1, s).

Section map_change.
Context (opts : ceph_options) (mopts : map_options).

(** ** Pools and full flags *)

Definition with_was_full (b : bool) (pi : ceph_pg_pool_info) : ceph_pg_pool_info :=
  CephPgPoolInfo (pi_id pi) (pi_type pi) (pi_size pi) (pi_min_size pi) (pi_crush_ruleset pi)
    (pi_object_hash pi) (pi_last_force_request_resend pi) (pi_pg_num pi) (pi_pgp_num pi) (pi_pg_num_mask pi)
    (pi_pgp_num_mask pi) (pi_read_tier pi) (pi_write_tier pi) (pi_flags pi) (pi_name pi) b.

Definition set_pool_was_full (map : ceph_osdmap) : ceph_osdmap :=
  with_pools ((λ pi, with_was_full (pool_is_full pi) pi) <$> om_pg_pools map) map.
(** What a map made anew takes from the one before. *)
Definition keep_was_full (old new : ceph_osdmap) : ceph_osdmap :=
  with_pools ((λ pi, match ceph_pg_pool_by_id old (u64 (pi_id pi)) with
                     | Some old_pi => with_was_full (pi_was_full old_pi) pi
                     | None => pi
                     end) <$> om_pg_pools new) new.
Definition pool_cleared_full (map : ceph_osdmap) (pool_id : Z) : bool :=
  match ceph_pg_pool_by_id map (u64 pool_id) with
  | None => false
  | Some pi => pi_was_full pi && negb (pool_is_full pi)
  end.

(** ** The scan *)

Definition recalc_linger_target (lp : lptr) : C calc_target_result :=
  l ← get_lreq lp;
  '(t, ct_res) ← calc_target_of opts (l_t l) true;
  _ ← upd_lreq lp (set_l_t t);
  _ ← st_when (bool_decide (ct_res = CALC_TARGET_NEED_RESEND))
        (_ ← lookup_create_osd (t_osd t) true;
         o ← st_lift (deref (l_osd l));
         st_when (negb (t_osd t =? o)) (_ ← unlink_linger opts o lp; link_linger (t_osd t) lp));
  mret ct_res.

(** Whether a request whose target is the same goes out again. *)
Definition resend_writes (map : ceph_osdmap) (cleared_full check_pool_cleared_full : bool) (t : osd_target) : bool :=
  cleared_full || check_pool_cleared_full && pool_cleared_full map (oloc_pool (t_base_oloc t)).

Definition scan_linger (force_resend cleared_full check_pool_cleared_full : bool) (lp : lptr) : R unit :=
  ct_res ← on_client (recalc_linger_target lp);
  c ← get_client;
  l ← on_client (get_lreq lp);
  let again :=
    _ ← on_client (cancel_linger_map_check lp);
    '(reqs, lingers) ← get_resend;
    st_when (negb (bool_decide (lp ∈ lingers)) && negb (bool_decide (lp ∈ c_stale c)))
      (put_resend (reqs, lingers ++ [lp])) in
  match ct_res with
  | CALC_TARGET_NO_ACTION =>
      st_when (force_resend || resend_writes (c_osdmap c) cleared_full check_pool_cleared_full (l_t l)) again
  | CALC_TARGET_NEED_RESEND => again
  | CALC_TARGET_POOL_DNE =>
      _ ← st_lift (require (negb (bool_decide (lp ∈ c_stale c))));
      '(reqs, lingers) ← get_resend;
      _ ← put_resend (reqs, filter (λ x, x ≠ lp) lingers);
      on_client (check_linger_pool_dne opts lp)
  end.

Definition scan_request (o : Z) (force_resend cleared_full check_pool_cleared_full : bool) (p : rptr) : R unit :=
  r ← on_client (get_req p);
  '(t, ct_res) ← on_client (calc_target_of opts (r_t r) false);
  _ ← on_client (upd_req p (set_r_t t));
  c ← get_client;
  let again :=
    _ ← on_client (cancel_map_check p);
    _ ← on_client (unlink_request opts o p);
    '(reqs, lingers) ← get_resend;
    reqs ← st_lift (rb_insert (r_tid r) p reqs);
    put_resend (reqs, lingers) in
  match ct_res with
  | CALC_TARGET_NO_ACTION =>
      st_when (force_resend || flagged (t_flags t) CEPH_OSD_FLAG_WRITE
               && resend_writes (c_osdmap c) cleared_full check_pool_cleared_full t) again
  | CALC_TARGET_NEED_RESEND => again
  | CALC_TARGET_POOL_DNE => on_client (check_pool_dne opts p)
  end.

Definition scan_requests (o : Z) (force_resend cleared_full check_pool_cleared_full : bool) : R unit :=
  s ← on_client (get_session o);
  _ ← st_each (rb_in_order (o_linger_requests s))
        (λ s id, bool_decide (is_Some (lingers_of s.1 o !! id)))
        (scan_linger force_resend cleared_full check_pool_cleared_full);
  s ← on_client (get_session o);
  st_each (rb_in_order (o_requests s))
    (λ s tid, bool_decide (is_Some (requests_of s.1 o !! tid)))
    (scan_request o force_resend cleared_full check_pool_cleared_full).

(** ** One map *)

(** A session stays open while its OSD is up at the same address. *)
Definition check_session (o : Z) : C unit :=
  c ← st_get;
  s ← get_session o;
  up ← st_lift (ceph_osd_is_up (c_osdmap c) o);
  if negb up then close_osd opts o
  else
    addr ← st_lift (ceph_osd_addr (c_osdmap c) o);
    addr ← st_lift (deref addr);
    st_when (negb (bool_decide (o_peer_addr s = addr))) (close_osd opts o).

Fixpoint scan_osds (fuel : nat) (n : option Z) (skipped_map was_full : bool) : R unit :=
  match n with
  | None => mret tt
  | Some o =>
      match fuel with
      | O => λ _, NoFuel
      | S fuel =>
          c ← get_client;
          if bool_decide (is_Some (c_sessions c !! o)) then
            let n := rb_next_osd c o in
            _ ← scan_requests o skipped_map was_full true;
            _ ← on_client (check_session o);
            scan_osds fuel n skipped_map was_full
          else st_undef
      end
  end.

(** [buf] is the message, [p] where the map begins, [mem] what decoding a map of the message finds.  The
    result, with the map there was: none when that one was changed in place, or an error number. *)
Definition decode_map_at (mem : Z → decode_mem) (buf : list Z) (p end_ : Z) (incremental : bool) (map : ceph_osdmap)
    : outcome (((option ceph_osdmap) + Z) * ceph_osdmap) :=
  let m := mem p in
  if incremental then
    '(r, map, _) ← osdmap_apply_incremental buf (mo_msgr2 mopts) (dm_alloc_ok m) (dm_mem m) (dm_amem m) (dm_wmem m)
                     (dm_junk m) (dm_handle m) end_ map p;
    Ret (match r with inl Same_map => inl None | inl (New_map new) => inl (Some new) | inr err => inr err end, map)
  else
    '(r, _) ← ceph_osdmap_decode buf (mo_msgr2 mopts) (dm_alloc_ok m) (dm_mem m) (dm_amem m) (dm_wmem m)
                (dm_handle m) p end_;
    Ret (match r with inl new => inl (Some new) | inr err => inr err end, map).
Definition decode_one_map (mem : Z → decode_mem) (buf : list Z) (p end_ : Z) (incremental : bool)
    : C ((option ceph_osdmap) + Z) :=
  c ← st_get;
  '(r, map) ← st_lift (decode_map_at mem buf p end_ incremental (c_osdmap c));
  _ ← st_modify (set_c_osdmap map);
  mret r.

Definition skips (old new : ceph_osdmap) : bool := nonzero (om_epoch old) && (u32 (om_epoch old + 1) <? om_epoch new).
Definition replace_map (new : ceph_osdmap) : C bool :=
  c ← st_get;
  let old := c_osdmap c in
  let new := keep_was_full old new in
  _ ← st_lift (ceph_osdmap_destroy old);
  _ ← st_modify (set_c_osdmap new);
  mret (skips old new).

Definition handle_one_map (mem : Z → decode_mem) (buf : list Z) (p end_ : Z) (incremental : bool) : R Z :=
  c ← get_client;
  let was_full := osdmap_flag c CEPH_OSDMAP_FULL in
  _ ← on_client (st_modify (λ c, set_c_osdmap (set_pool_was_full (c_osdmap c)) c));
  r ← on_client (decode_one_map mem buf p end_ incremental);
  match r with
  | inr err => mret err
  | inl new =>
      skipped_map ← match new with None => mret false | Some new => on_client (replace_map new) end;
      c ← get_client;
      let was_full := was_full && negb (osdmap_flag c CEPH_OSDMAP_FULL) in
      _ ← scan_requests CEPH_HOMELESS_OSD skipped_map was_full true;
      c ← get_client;
      _ ← scan_osds (osds_fuel c) (rb_next_osd c CEPH_HOMELESS_OSD) skipped_map was_full;
      mret 0
  end.

(** ** What goes out again *)

Definition kick_stale (p : rptr) : R unit :=
  r ← on_client (get_req p);
  c ← get_client;
  st_when (t_epoch (r_t r) <? om_epoch (c_osdmap c))
    ('(t, ct_res) ← on_client (calc_target_of opts (r_t r) false);
     _ ← on_client (upd_req p (set_r_t t));
     st_when (bool_decide (ct_res = CALC_TARGET_POOL_DNE))
       ('(reqs, lingers) ← get_resend;
        reqs ← st_lift (rb_erase (r_tid r) reqs);
        _ ← put_resend (reqs, lingers);
        on_client (check_pool_dne opts p))).

Definition kick_request (p : rptr) : R unit :=
  r ← on_client (get_req p);
  '(reqs, lingers) ← get_resend;
  reqs ← st_lift (rb_erase (r_tid r) reqs);
  _ ← put_resend (reqs, lingers);
  let o := t_osd (r_t r) in
  _ ← on_client (lookup_create_osd o true);
  _ ← on_client (link_request o p);
  on_client
    (if negb (r_linger r) then st_when (negb (osd_homeless o) && negb (t_paused (r_t r))) (send_request p)
     else cancel_linger_request opts p).

Definition resend_has (s : client * resend) (tid : Z) : bool := bool_decide (is_Some (s.2.1 !! tid)).

Fixpoint kick_lingers (l : list lptr) : R unit :=
  match l with
  | [] => mret tt
  | lp :: l =>
      lr ← on_client (get_lreq lp);
      o ← st_lift (deref (l_osd lr));
      _ ← on_client (st_when (negb (osd_homeless o)) (send_linger opts lp));
      '(reqs, lingers) ← get_resend;
      _ ← put_resend (reqs, filter (λ x, x ≠ lp) lingers);
      kick_lingers l
  end.

Definition kick_requests : R unit :=
  '(reqs, _) ← get_resend;
  _ ← st_each (rb_in_order reqs) resend_has kick_stale;
  '(reqs, _) ← get_resend;
  _ ← st_each (rb_in_order reqs) resend_has kick_request;
  '(_, lingers) ← get_resend;
  kick_lingers lingers.

Definition any_pause (c : client) : bool :=
  osdmap_flag c CEPH_OSDMAP_PAUSERD || (osdmap_flag c CEPH_OSDMAP_PAUSEWR || osdmap_flag c CEPH_OSDMAP_FULL
                                         || have_pool_full (c_osdmap c)).
Definition check_fsid (fsid : list Z) : bool :=
  match mo_fsid mopts with Some f => bool_decide (f = fsid) | None => true end.
End map_change.

(** ** The message *)

(** A decoder with a state. *)
Definition on_state {S A} (m : ST S A) : D S A := λ s p, '(a, s) ← m s; Ret (inl a, s, p).

(** [epoch_of]: of the map that there is; [handle_at]: what is done with the map at a place of the message,
    that is [handle_one_map]. *)
Section message.
Context {S : Type} (buf : list Z) (epoch_of : S → Z) (handle_at : Z → Z → bool → ST S Z) (fsid_ok : list Z → bool).
Let end_ : Z := Z.of_nat (length buf).

(** One incremental map: applied if it is the next one. *)
Definition one_incremental (handled : bool) : D S bool :=
  _ ← ceph_decode_need end_ 8 (- EINVAL);
  epoch ← ceph_decode_32 buf;
  maplen ← ceph_decode_32 buf;
  _ ← ceph_decode_need end_ maplen (- EINVAL);
  s ← dget;
  p ← dpos;
  handled ← (if nonzero (epoch_of s) && (u32 (epoch_of s + 1) =? epoch) then
               err ← on_state (handle_at p (p + maplen) true);
               if nonzero err then dfail err else mret true
             else mret handled);
  _ ← dseek (p + maplen);
  mret handled.
Fixpoint incrementals (n : nat) (handled : bool) : D S bool :=
  match n with O => mret handled | Datatypes.S n => handled ← one_incremental handled; incrementals n handled end.

(** One full map of [n]: only the last one counts, if it is newer than ours. *)
Definition one_full (n : nat) : D S unit :=
  _ ← ceph_decode_need end_ 8 (- EINVAL);
  epoch ← ceph_decode_32 buf;
  maplen ← ceph_decode_32 buf;
  _ ← ceph_decode_need end_ maplen (- EINVAL);
  s ← dget;
  p ← dpos;
  _ ← (if (1 <? Z.of_nat n) || (epoch_of s >=? epoch) then mret tt
       else
         err ← on_state (handle_at p (p + maplen) false);
         if nonzero err then dfail err else mret tt);
  dseek (p + maplen).
Fixpoint full_maps (n : nat) : D S unit :=
  match n with O => mret tt | Datatypes.S m => _ ← one_full n; full_maps m end.

Definition decode_maps : D S unit :=
  fsid ← ceph_decode_copy_safe buf end_ 16 (- EINVAL);
  if negb (fsid_ok fsid) then dfail (- EINVAL)
  else
    nr_maps ← ceph_decode_32_safe buf end_ (- EINVAL);
    handled_incremental ← incrementals (Z.to_nat nr_maps) false;
    if (handled_incremental : bool) then mret tt
    else
      nr_maps ← ceph_decode_32_safe buf end_ (- EINVAL);
      full_maps (Z.to_nat nr_maps).
End message.

(** On an error what was to be sent again is forgotten: the requests are on no session, the
    lingering ones on a list that is gone. *)
Definition ceph_osdc_handle_map (opts : ceph_options) (mopts : map_options) (mem : Z → decode_mem) (buf : list Z)
    : C unit := λ c,
  let was_paused := any_pause c in
  '(r, (c, l), _) ← decode_maps buf (λ s : client * resend, om_epoch (c_osdmap s.1)) (handle_one_map opts mopts mem buf)
                      (check_fsid mopts) (c, (∅, [])) 0;
  match r with
  | inr _ => Ret (tt, set_c_stale (c_stale c ++ l.2) c)
  | inl _ =>
      '(_, c) ← st_when (was_paused || any_pause c || (om_epoch (c_osdmap c) <? c_epoch_barrier c)) maybe_request_map c;
      '(_, (c, _)) ← kick_requests opts (c, l);
      '(_, c) ← ceph_osdc_abort_on_full opts c;
      emit (Got_map (om_epoch (c_osdmap c))) c
  end.
