(* ===== verification/OsdReply.v ===== *)
(** * The OSD client: replies (libceph/osd_client.c)

    The decoder of an OSD's answer, with the object locator and the redirection in it, and the
    decoder of what an OSD says about a watch. *)
From S2P Require Import Prelude Hash Crush Mapper Choose DoRule Workspace OsdMap Placement.
From S2P Require Import Decode.

Definition CEPH_OSD_MAX_OPS : Z := 16.
(** [sizeof(struct ceph_osd_op)] and where its [payload_len] is. *)
Definition sizeof_ceph_osd_op : Z := 38.
Definition offset_payload_len : Z := 34.
Definition sizeof_ceph_eversion : Z := 12.

Section decode.
Context (buf : list Z) (end_ : Z).
Local Abbreviation D := (D unit).

(** [pool_ns] is the namespace the request has: one that differs is an error.  The fields are
    read without a check that the block is that long. *)
Definition ceph_oloc_decode (pool_ns : option (list Z)) : D Z :=
  _ ← ceph_decode_need end_ (1 + 1 + 4) (- EINVAL);
  struct_v ← ceph_decode_8 buf;
  struct_cv ← ceph_decode_8 buf;
  if struct_v <? 3 then dfail (- EINVAL)
  else if struct_cv >? 6 then dfail (- EINVAL)
  else
    len ← ceph_decode_32 buf;
    _ ← ceph_decode_need end_ len (- EINVAL);
    p ← dpos;
    let struct_end := p + len in
    pool ← ceph_decode_64 buf;
    _ ← dskip 4;
    len ← ceph_decode_32 buf;
    if len >? 0 then dfail (- EINVAL)
    else
      changed ← (if struct_v >=? 5 then
                   len ← ceph_decode_32 buf;
                   if len >? 0 then
                     _ ← ceph_decode_need end_ len (- EINVAL);
                     ns ← ceph_decode_copy buf len;
                     mret (negb (bool_decide (pool_ns = Some ns)))
                   else mret (negb (bool_decide (pool_ns = None)))
                 else mret false);
      if (changed : bool) then dfail (- EINVAL)
      else
        hash_set ← (if struct_v >=? 6 then hash ← ceph_decode_64 buf; mret (negb (s64 hash =? -1)) else mret false);
        if (hash_set : bool) then dfail (- EINVAL)
        else _ ← dseek struct_end; mret (s64 pool).

Definition ceph_redirect_decode (pool_ns : option (list Z)) : D Z :=
  _ ← ceph_decode_need end_ (1 + 1 + 4) (- EINVAL);
  _ ← ceph_decode_8 buf;
  struct_cv ← ceph_decode_8 buf;
  if struct_cv >? 1 then dfail (- EINVAL)
  else
    len ← ceph_decode_32 buf;
    _ ← ceph_decode_need end_ len (- EINVAL);
    p ← dpos;
    let struct_end := p + len in
    pool ← ceph_oloc_decode pool_ns;
    len ← ceph_decode_32 buf;
    if len >? 0 then dfail (- EINVAL) else _ ← dseek struct_end; mret pool.

(** [rd_redirect] is the pool a request is redirected to, -1 for none. *)
Record MOSDOpReply := MkMOSDOpReply {
  rd_pgid : ceph_pg; rd_flags : Z; rd_result : Z; rd_epoch : Z; rd_outdata_len : list Z; rd_rval : list Z;
  rd_retry_attempt : Z; rd_replay_version : list Z; rd_user_version : Z; rd_redirect : Z }.

Definition decode_MOSDOpReply (version : Z) (pool_ns : option (list Z)) : D MOSDOpReply :=
  len ← ceph_decode_32_safe buf end_ (- EINVAL);
  _ ← ceph_decode_need end_ len (- EINVAL);
  _ ← dskip len;
  pgid ← ceph_decode_pgid buf end_;
  flags ← ceph_decode_64_safe buf end_ (- EINVAL);
  result ← ceph_decode_32_safe buf end_ (- EINVAL);
  _ ← ceph_decode_need end_ sizeof_ceph_eversion (- EINVAL);
  bad_replay_version ← ceph_decode_copy buf sizeof_ceph_eversion;
  epoch ← ceph_decode_32_safe buf end_ (- EINVAL);
  num_ops ← ceph_decode_32_safe buf end_ (- EINVAL);
  if num_ops >? CEPH_OSD_MAX_OPS then dfail (- EINVAL)
  else
    _ ← ceph_decode_need end_ (num_ops * sizeof_ceph_osd_op) (- EINVAL);
    outdata_len ← drepeat (Z.to_nat num_ops)
                    (_ ← dskip offset_payload_len; ceph_decode_32 buf);
    retry_attempt ← ceph_decode_32_safe buf end_ (- EINVAL);
    rval ← drepeat (Z.to_nat num_ops) (v ← ceph_decode_32_safe buf end_ (- EINVAL); mret (s32 v));
    '(replay_version, user_version) ←
      (if version >=? 5 then
         _ ← ceph_decode_need end_ sizeof_ceph_eversion (- EINVAL);
         v ← ceph_decode_copy buf sizeof_ceph_eversion;
         u ← ceph_decode_64_safe buf end_ (- EINVAL);
         mret (v, u)
       else mret (bad_replay_version, le_combine (take 8 bad_replay_version)));
    decode_redir ← (if version >=? 6 then
                      if version >=? 7 then ceph_decode_8_safe buf end_ (- EINVAL) else mret 1
                    else mret 0);
    redirect ← (if nonzero decode_redir then ceph_redirect_decode pool_ns else mret (-1));
    mret (MkMOSDOpReply pgid flags (s32 result) epoch outdata_len rval (s32 retry_attempt) replay_version user_version
            redirect).

(** What [handle_watch_notify] reads: opcode, cookie, notify_id, payload, return code, notifier. *)
Record watch_notify_msg := WatchNotifyMsg {
  wn_opcode : Z; wn_cookie : Z; wn_notify_id : Z; wn_payload : list Z; wn_return_code : Z; wn_notifier_id : Z }.
Definition decode_watch_notify (version : Z) : D watch_notify_msg :=
  proto_ver ← ceph_decode_8_safe buf end_ (- EINVAL);
  opcode ← ceph_decode_8_safe buf end_ (- EINVAL);
  cookie ← ceph_decode_64_safe buf end_ (- EINVAL);
  _ ← dskip 8;
  notify_id ← ceph_decode_64_safe buf end_ (- EINVAL);
  payload ← (if proto_ver >=? 1 then
               len ← ceph_decode_32_safe buf end_ (- EINVAL);
               _ ← ceph_decode_need end_ len (- EINVAL);
               ceph_decode_copy buf len
             else mret []);
  return_code ← (if version >=? 2 then v ← ceph_decode_32_safe buf end_ (- EINVAL); mret (s32 v) else mret 0);
  notifier_id ← (if version >=? 3 then ceph_decode_64_safe buf end_ (- EINVAL) else mret 0);
  mret (WatchNotifyMsg opcode cookie notify_id payload return_code notifier_id).
End decode.
