(* ===== verification/OsdEvents.v ===== *)
(** * The OSD client: what happens to it (libceph/osd_client.c)

    Replies, backoffs, faults and timeouts, and all events as steps of a client. *)
From S2P Require Import Prelude Hash Crush Mapper Choose DoRule Workspace OsdMap Placement.
From S2P Require Import CrushLoc OsdTarget Decode CrushDecode OsdMapDecode OsdBackoff State OsdData OsdClient.
From S2P Require Import OsdLinger OsdMapChange OsdReply.

Definition EIO : Z := 5.

(** A message of an OSD: its header's version, tid and length of data, its front, and the data
    per operation. *)
Record osd_msg := OsdMsg {
  ms_version : Z; ms_tid : Z; ms_data_len : Z; ms_front : list Z; ms_data : list (list Z) }.

Section events.
Context (opts : ceph_options) (mopts : map_options).

(** ** Faults *)

Definition kick_osd_requests (o : Z) : C unit :=
  _ ← clear_session_backoffs o;
  _ ← each_request o (λ p,
        r ← get_req p;
        if negb (r_linger r) then st_when (negb (t_paused (r_t r))) (send_request p)
        else cancel_linger_request opts p);
  each_linger o (send_linger opts).

(** The session of a message or a fault, if it is still registered. *)
Definition registered (o : Z) (serial : nat) : C bool :=
  c ← st_get;
  mret (match c_sessions c !! o with Some s => bool_decide (o_serial s = serial) | None => false end).

Definition osd_fault (o : Z) (serial : nat) (opened : bool) : C unit :=
  ok ← registered o serial;
  st_when ok
    (err ← reopen_osd opts o opened;
     _ ← st_when (err =? 0) (kick_osd_requests o);
     maybe_request_map).

Definition ceph_osdc_reopen_osds (opened : Z → bool) : C unit :=
  each_osd (λ o, err ← reopen_osd opts o (opened o); st_when (err =? 0) (kick_osd_requests o)).

(** ** Backoffs *)

Definition handle_backoff_unblock (o : Z) (m : MOSDBackoff) : C unit :=
  s ← get_session o;
  '(b, found) ← st_lift (remove_backoff (o_backoffs s) m);
  st_when found
    (_ ← put_session o (set_o_backoffs b s);
     each_request o (λ p,
       r ← get_req p;
       st_when ((ceph_spg_compare (t_spgid (r_t r)) (mb_spgid m) =? 0)
                && target_contained_by (r_t r) (mb_begin m) (mb_end m))
         (send_request p))).

Definition handle_backoff (mem_ok : nat → bool) (o : Z) (serial : nat) (front : list Z) : C unit :=
  ok ← registered o serial;
  st_when ok
    ('(r, _, _) ← st_lift (decode_MOSDBackoff (λ i, mem_ok (3 + i)%nat) front tt 0);
     match r with
     | inr _ => mret tt
     | inl m =>
         if mb_op m =? CEPH_OSD_BACKOFF_OP_BLOCK then
           s ← get_session o;
           '(b, msg) ← st_lift (handle_backoff_block mem_ok (o_backoffs s) m);
           _ ← put_session o (set_o_backoffs b s);
           match msg with Some bytes => emit (Con_send_backoff o bytes) | None => mret tt end
         else if mb_op m =? CEPH_OSD_BACKOFF_OP_UNBLOCK then handle_backoff_unblock o m
         else mret tt
     end).

(** ** Replies *)

Definition redirected (pool : Z) (t : osd_target) : osd_target :=
  set_t_flags (Z.lor (t_flags t) (Z.lor CEPH_OSD_FLAG_REDIRECTED
                 (Z.lor CEPH_OSD_FLAG_IGNORE_OVERLAY CEPH_OSD_FLAG_IGNORE_CACHE)))
    (set_t_target (t_target_oid t) (CephObjectLocator pool (oloc_pool_ns (t_target_oloc t))) t).
Definition to_primary (t : osd_target) : osd_target :=
  set_t_flags (Z.ldiff (t_flags t) (Z.lor CEPH_OSD_FLAG_BALANCE_READS CEPH_OSD_FLAG_LOCALIZE_READS))
    (set_t_pgid (CephPg 0 0) t).

(** [rval], [outdata_len] and the data of every operation; the data goes over what the page had. *)
Definition overlay (data page : list Z) : list Z := data ++ drop (length data) page.
Fixpoint set_ops (ops : list osd_req_op) (rval outdata_len : list Z) (data : list (list Z)) : list osd_req_op :=
  match ops, rval, outdata_len with
  | op :: ops, v :: rval, n :: outdata_len =>
      OsdReqOp (op_watch_gen op) v n (overlay (default [] (head data)) (op_response op)) :: set_ops ops rval outdata_len (tail data)
  | _, _, _ => ops
  end.
Definition sum_u32 (l : list Z) : Z := foldr (λ a b, u32 (a + b)) 0 l.

Definition set_outcome (version result : Z) (r : osd_request) : osd_request :=
  set_r_version version (set_r_result result r).

(** A request that goes out anew under another tid. *)
Definition resubmit (o : Z) (p : rptr) (f : osd_target → osd_target) : C unit :=
  _ ← unlink_request opts o p;
  _ ← upd_req p (λ r, set_r_tid 0 (set_r_t (f (r_t r)) r));
  submit_read opts p.

Definition handle_reply (mem_ok : bool) (o : Z) (serial : nat) (msg : osd_msg) : C unit :=
  ok ← registered o serial;
  st_when ok
    (s ← get_session o;
     match o_requests s !! ms_tid msg with
     | None => mret tt
     | Some p =>
         r ← get_req p;
         '(d, _, _) ← st_lift (decode_MOSDOpReply (ms_front msg) (Z.of_nat (length (ms_front msg))) (ms_version msg)
                                 (oloc_pool_ns (t_target_oloc (r_t r))) tt 0);
         match d with
         | inr _ => complete_request opts p (- EIO)
         | inl m =>
             if (rd_retry_attempt m >=? 0) && negb (rd_retry_attempt m =? r_attempts r - 1) then mret tt
             else if negb (rd_redirect m =? -1) then resubmit o p (redirected (rd_redirect m))
             else if rd_result m =? - EAGAIN then resubmit o p to_primary
             else if negb (Z.of_nat (length (rd_rval m)) =? Z.of_nat (length (r_ops r))) then complete_request opts p (- EIO)
             else
               _ ← upd_req p (λ r, set_r_ops (set_ops (r_ops r) (rd_rval m) (rd_outdata_len m) (ms_data msg)) r);
               let data_len := sum_u32 (rd_outdata_len m) in
               if negb (data_len =? ms_data_len msg) then complete_request opts p (- EIO)
               else
                 _ ← upd_req p (set_outcome (rd_user_version m) (if nonzero (rd_result m) then rd_result m else s32 data_len));
                 _ ← finish_request opts p;
                 complete_request_ mem_ok p
         end
     end).

Definition handle_watch_notify (mem_ok : bool) (msg : osd_msg) : C unit :=
  '(r, _, _) ← st_lift (decode_watch_notify (ms_front msg) (Z.of_nat (length (ms_front msg))) (ms_version msg) tt 0);
  match r with
  | inr _ => mret tt
  | inl m => watch_notify_event mem_ok (wn_opcode m) (wn_cookie m) (wn_notify_id m) (wn_notifier_id m)
               (wn_return_code m) (wn_payload m)
  end.

(** ** Timeouts *)

Definition time_before (a b : Z) : bool := s64 (a - b) <? 0.

(** Requests that are too old fail. *)
Definition expire_request (p : rptr) : C unit :=
  c ← st_get;
  r ← get_req p;
  st_when (nonzero (co_osd_request_timeout opts)
           && time_before (r_start_stamp r) (u64 (c_jiffies c - co_osd_request_timeout opts)))
    (abort_request opts p (- ETIMEDOUT)).
Definition laggy (c : client) (p : rptr) : bool :=
  match c_reqs c !! p with
  | Some r => time_before (r_stamp r) (u64 (c_jiffies c - co_osd_keepalive_timeout opts))
  | None => false
  end.
Definition ping_linger (lp : lptr) : C unit :=
  l ← get_lreq lp;
  st_when (l_is_watch l && l_committed l && negb (nonzero (l_last_error l))) (send_linger_ping opts lp).

(** The sessions to keep alive are collected in the order of the loop. *)
Definition timeout_osd (o : Z) : ST (client * list Z) unit := λ '(c, slow),
  let found := existsb (λ kv : Z * rptr, laggy c kv.2) (map_to_list (requests_of c o))
               || negb (bool_decide (lingers_of c o = ∅)) in
  '(_, c) ← each_request o expire_request c;
  '(_, c) ← each_linger o ping_linger c;
  Ret (tt, (c, if found then slow ++ [o] else slow)).
Fixpoint timeout_osds (fuel : nat) (n : option Z) : ST (client * list Z) unit :=
  match n with
  | None => mret tt
  | Some o =>
      match fuel with
      | O => λ _, NoFuel
      | S fuel => _ ← timeout_osd o; s ← st_get; timeout_osds fuel (rb_next_osd s.1 o)
      end
  end.
Fixpoint keepalives (l : list Z) : C unit :=
  match l with [] => mret tt | o :: l => _ ← emit (Con_keepalive o); keepalives l end.

Definition handle_timeout : C unit := λ c,
  '(_, (c, slow)) ← timeout_osds (osds_fuel c) (rb_next_osd c CEPH_HOMELESS_OSD) (c, []);
  '(_, c) ← st_when (nonzero (co_osd_request_timeout opts)) (each_request CEPH_HOMELESS_OSD expire_request) c;
  '(_, c) ← st_when (nonzero (c_num_homeless c) || negb (bool_decide (slow = []))) maybe_request_map c;
  keepalives slow c.

(** Idle sessions are closed, the oldest first, up to the first that is not due. *)
Fixpoint close_idle (l : list Z) : C unit :=
  match l with
  | [] => mret tt
  | o :: l =>
      c ← st_get;
      s ← get_session o;
      if time_before (c_jiffies c) (o_lru_ttl s) then mret tt
      else _ ← close_osd opts o; close_idle l
  end.
Definition handle_osds_timeout : C unit := c ← st_get; close_idle (c_osd_lru c).

(** ** All of it *)

(** A client before its first map. *)
Definition client_init (map : ceph_osdmap) (jiffies : Z) : client :=
  Client map 0 0 0 CEPH_LINGER_ID_START {[ CEPH_HOMELESS_OSD := osd_init 0 ]} [] ∅ ∅ ∅ 0 0 [] [] [] [] ∅ ∅ 1 0 jiffies [].

(** A caller's request: its target and how many operations it has. *)
Definition alloc_request (t : osd_target) (ops : nat) : C rptr :=
  c ← st_get;
  let p := c_next c in
  _ ← st_modify (set_c_next (S p));
  _ ← st_modify (λ c, set_c_reqs (<[p := OsdRequest 0 None t 0 (replicate ops (OsdReqOp 0 0 0 [])) 0 false false caller_cb
                                                0 0 0 0 None 0 0]> (c_reqs c)) c);
  mret p.

Inductive osd_event :=
  | ev_start (oid : list Z) (oloc : ceph_object_locator) (flags : Z) (ops : nat)
  | ev_promoted (p : rptr)
  | ev_cancel (p : rptr)
  | ev_work (mem_ok : bool)
  | ev_map (mem : Z → decode_mem) (msg : list Z)
  | ev_map_check (tid newest : Z)
  | ev_reply (mem_ok : bool) (o : Z) (serial : nat) (msg : osd_msg)
  | ev_backoff (mem_ok : nat → bool) (o : Z) (serial : nat) (front : list Z)
  | ev_fault (o : Z) (serial : nat) (opened : bool)
  | ev_reopen (opened : Z → bool)
  | ev_timeout
  | ev_osds_timeout
  | ev_abort (err : Z)
  | ev_clear_abort
  | ev_barrier (eb : Z)
  | ev_watch (oid : list Z) (oloc : ceph_object_locator)
  | ev_notify (oid : list Z) (oloc : ceph_object_locator)
  | ev_linger_cancel (lp : lptr)
  | ev_linger_map_check (linger_id newest : Z)
  | ev_watch_notify (mem_ok : bool) (msg : osd_msg)
  | ev_lwork
  | ev_tick (jiffies : Z).

Definition osd_step (e : osd_event) : C unit :=
  match e with
  | ev_start oid oloc flags ops => p ← alloc_request (caller_target oid oloc flags) ops; ceph_osdc_start_request opts p
  | ev_promoted p => submit_promoted opts p
  | ev_cancel p => ceph_osdc_cancel_request opts p
  | ev_work mem_ok => complete_request_workfn mem_ok
  | ev_map mem msg => ceph_osdc_handle_map opts mopts mem msg
  | ev_map_check tid newest => map_check_cb opts tid newest
  | ev_reply mem_ok o serial msg => handle_reply mem_ok o serial msg
  | ev_backoff mem_ok o serial front => handle_backoff mem_ok o serial front
  | ev_fault o serial opened => osd_fault o serial opened
  | ev_reopen opened => ceph_osdc_reopen_osds opened
  | ev_timeout => handle_timeout
  | ev_osds_timeout => handle_osds_timeout
  | ev_abort err => ceph_osdc_abort_requests opts err
  | ev_clear_abort => ceph_osdc_clear_abort_err
  | ev_barrier eb => ceph_osdc_update_epoch_barrier eb
  | ev_watch oid oloc => _ ← ceph_osdc_watch opts oid oloc; mret tt
  | ev_notify oid oloc => _ ← ceph_osdc_notify opts oid oloc; mret tt
  | ev_linger_cancel lp => linger_cancel opts lp
  | ev_linger_map_check linger_id newest => linger_map_check_cb opts linger_id newest
  | ev_watch_notify mem_ok msg => handle_watch_notify mem_ok msg
  | ev_lwork => do_lwork
  | ev_tick jiffies => st_modify (set_c_jiffies jiffies)
  end.
End events.
