(* ===== verification/OsdInv.v ===== *)
(** * The invariant of the OSD client

    Where every request is: on the session of the OSD that the current map gives its target, with a
    reason not to be sent or with its message on the connection; or waiting for a lock, for a
    map, or to be sent again.  And what keeps the trees, lists and pointers of the client whole. *)
From S2P Require Import Prelude Hash Crush Mapper Choose DoRule Workspace OsdMap Placement.
From S2P Require Import CrushLoc OsdTarget Decode OsdMapWire OsdBackoff State OsdData OsdClient.

(** ** Targets under a map *)

(** The key of the pool a caller wants, as the code looks it up. *)
Definition pool_key (t : osd_target) : Z := s64 (u64 (oloc_pool (t_base_oloc t))).
Definition pool_of (m : ceph_osdmap) (t : osd_target) : option ceph_pg_pool_info := om_pg_pools m !! pool_key t.

(** The largest number of a pool so far. *)
Definition pool_bound (m : ceph_osdmap) : Z := if om_epoch m =? 0 then 0 else om_pool_max m.

(** A map of the monitors, or the empty one before it. *)
Record client_map (fuel : nat) (m : ceph_osdmap) : Prop := {
  cm_ok : map_ok fuel m ∨ om_pg_pools m = ∅;
  cm_epoch : 0 <= om_epoch m;
  cm_arrays : wf_arrays m;
  cm_max : om_max_osd m <= CRUSH_ITEM_NONE;
  cm_ids id pi : om_pg_pools m !! id = Some pi → 0 < id <= pool_bound m;
  cm_tiers id pi : om_pg_pools m !! id = Some pi → int64 (pi_read_tier pi) ∧ int64 (pi_write_tier pi) }.

(** A target that no map has had a pool for. *)
Definition unmapped (t : osd_target) : Prop :=
  t_osd t = CEPH_HOMELESS_OSD ∧ t_used_replica t = false ∧ os_primary (t_acting t) = -1 ∧ t_pgid t = CephPg 0 0.

Record target_ok (m : ceph_osdmap) (t : osd_target) : Prop := {
  to_wf : target_wf t;
  to_pool : int64 (oloc_pool (t_base_oloc t));
  to_assigned : pool_of m t ≠ None → assigned t;
  to_unmapped : pool_of m t = None → pool_key t <= pool_bound m ∨ unmapped t }.

(** What may hold a request back. *)
Definition stalled (m : ceph_osdmap) (eb : Z) (t : osd_target) : Prop :=
  om_epoch m < eb
  ∨ flagged (t_flags t) CEPH_OSD_FLAG_READ = true ∧ flagged (om_flags m) CEPH_OSDMAP_PAUSERD = true
  ∨ flagged (t_flags t) CEPH_OSD_FLAG_WRITE = true
    ∧ (flagged (om_flags m) CEPH_OSDMAP_PAUSEWR = true ∨ flagged (om_flags m) CEPH_OSDMAP_FULL = true
       ∨ pool_full m (oloc_pool (t_base_oloc t)) = true
       ∨ ∃ pi0, pool_of m t = Some pi0 ∧ pool_full m (target_pool pi0 t) = true).

(** The target was calculated under the map. *)
Record computed (fuel : nat) (m : ceph_osdmap) (eb : Z) (t : osd_target) : Prop := {
  cp_epoch : t_epoch t = om_epoch m;
  cp_routed : routed fuel m t;
  cp_target pi0 : pool_of m t = Some pi0 →
    t_target_oid t = t_base_oid t
    ∧ t_target_oloc t = CephObjectLocator (target_pool pi0 t) (oloc_pool_ns (t_base_oloc t))
    ∧ pg_pool (t_pgid t) = u64 (target_pool pi0 t);
  cp_up : t_osd t = CEPH_HOMELESS_OSD ∨ osd_up m (t_osd t) = true;
  cp_paused : t_paused t = true → stalled m eb t }.

Section targets.
Context (opts : ceph_options) (Henv : ∀ m n, map_ok (co_fuel opts) m → env_ok m (co_env opts m n)).
Implicit Types (m : ceph_osdmap) (t : osd_target).
Local Abbreviation fuel := (co_fuel opts).

Lemma unmapped_assigned t : unmapped t → assigned t.
Proof. intros (Ho & Hu & Hp & _). unfold assigned. rewrite Hu, Ho, Hp. done. Qed.

Lemma held_stalled m eb t pi0 :
  map_ok fuel m → pool_of m t = Some pi0 → held m eb t → stalled m eb t.
Proof.
  intros Hm Hpi Hh. destruct (tier_exists fuel m Hm pi0 t Hpi) as [pi Ht].
  specialize (Hh pi0 pi Hpi Ht). unfold target_should_be_paused in Hh. unfold stalled.
  assert (Hf : pool_is_full pi = true → pool_full m (target_pool pi0 t) = true) by (unfold pool_full; by rewrite Ht).
  apply orb_true_iff in Hh as [[Hr|Hw]%orb_true_iff|He].
  - apply andb_true_iff in Hr. tauto.
  - apply andb_true_iff in Hw as [Hw Hx]. right; right. split; [done|].
    apply orb_true_iff in Hx as [[Hx|Hx]%orb_true_iff|Hx]; [auto..|]. eauto 10.
  - bool_to_prop. by left.
Qed.

(** What a calculation gives, in terms of the invariant. *)
Record recalculated m eb t t' (res : calc_target_result) : Prop := {
  rc_ok : target_ok m t';
  rc_wanted : wanted t' = wanted t;
  rc_dne : res = CALC_TARGET_POOL_DNE ↔ pool_of m t = None;
  rc_gone : res = CALC_TARGET_POOL_DNE → t_osd t' = CEPH_HOMELESS_OSD ∧ t_paused t' = t_paused t;
  rc_computed : res ≠ CALC_TARGET_POOL_DNE → computed fuel m eb t';
  rc_kept : res = CALC_TARGET_NO_ACTION → mapping t' = mapping t ∧ t_paused t' = t_paused t }.

Lemma pool_of_wanted m t t' : wanted t' = wanted t → pool_of m t' = pool_of m t.
Proof. intros [= _ H _]. unfold pool_of, pool_key. by rewrite H. Qed.

Lemma calc_target_ok m eb t any n :
  client_map fuel m → target_ok m t →
  wp (calc_target fuel (co_env opts m n) m eb (co_locs opts) t any) (λ '(t', res), recalculated m eb t t' res).
Proof.
  intros [Hcm _ _ _ Hids _] [Hwf Hint Has Hun]. destruct (pool_of m t) as [pi0|] eqn:Hpi.
  - assert (Hm : map_ok fuel m).
    { destruct Hcm as [?|Hem]; [done|]. unfold pool_of in Hpi. rewrite Hem, lookup_empty in Hpi. done. }
    eapply wp_mono; [apply (calc_target_wp fuel m Hm _ (Henv m n Hm) eb (co_locs opts) t any Hwf)|].
    { intros _. by apply Has. }
    intros [t' res] [H1 H2 H3 H4 H5 H6 H7 H8 _ H9 H10 H11]. assert (Hres : res ≠ CALC_TARGET_POOL_DNE).
    { intros Hr%H5. unfold pool_of, pool_key in Hpi. unfold ceph_pg_pool_by_id in Hr. congruence. }
    assert (Hpo : pool_of m t' = pool_of m t) by by apply pool_of_wanted.
    assert (Hb : t_base_oloc t' = t_base_oloc t ∧ t_base_oid t' = t_base_oid t) by (by injection H2).
    destruct Hb as [Hb Hbo]. split; [split|..]; try done.
    + by rewrite Hb.
    + intros _. by apply H6.
    + rewrite Hpo, Hpi. done.
    + intros _. split; [done|done| |done|].
      * intros pi1. rewrite Hpo, Hpi. intros [= <-]. rewrite Hb, Hbo. rewrite (target_pool_wanted pi0 t t' H2).
        apply H11. unfold pool_of in Hpi. exact Hpi.
      * intros Hp. destruct (H8 Hp) as [_ Hh]. eapply held_stalled; [done| |done]. rewrite Hpo. exact Hpi.
  - unfold calc_target. cbn [set_t_epoch t_base_oloc]. unfold ceph_pg_pool_by_id. unfold pool_of, pool_key in Hpi.
    rewrite Hpi. cbn [wp]. split; [split|..]; cbn; try done.
    + by destruct Hwf.
    + destruct (Hun eq_refl) as [?|(? & ? & ? & ?)]; [by left|by right].
Qed.

(** The map changes as monitors change it: pools do not come back, and without a gap between the
    epochs no OSD that stays up moves. *)
Record follows (skipped_map : bool) (m m' : ceph_osdmap) : Prop := {
  fo_epoch : om_epoch m < om_epoch m';
  fo_max : pool_bound m <= pool_bound m';
  fo_pools id : is_Some (om_pg_pools m' !! id) → om_pg_pools m !! id = None → pool_bound m < id;
  fo_addr o : skipped_map = false → osd_up m o = true → osd_up m' o = true →
    om_osd_addr m' !! Z.to_nat o = om_osd_addr m !! Z.to_nat o }.

Lemma target_ok_follows b m m' t : client_map fuel m → follows b m m' → target_ok m t → target_ok m' t.
Proof.
  intros Hm [_ Hmax Hpools _] [Hwf Hint Has Hun]. split; [done..| |].
  - intros Hp'. destruct (pool_of m t) as [pi|] eqn:Hp; [by apply Has|].
    destruct (Hun eq_refl) as [Hle|?]; [|by apply unmapped_assigned].
    pose proof (Hpools (pool_key t)) as H. unfold pool_of in *. apply not_eq_None_Some in Hp'. specialize (H Hp' Hp). lia.
  - intros Hp'. destruct (pool_of m t) as [pi|] eqn:Hp.
    + left. pose proof (cm_ids _ _ Hm _ _ Hp). lia.
    + destruct (Hun eq_refl) as [Hle|?]; [left; lia|by right].
Qed.
End targets.

(** ** Trees of pointers

    The trees of the sessions hold exactly the objects that point back to them; shared by requests
    and lingering requests. *)
Section trees.
Context {X : Type} (home : X → option Z) (key : X → Z).
Implicit Types (T : gmap Z (gmap Z nat)) (M : gmap nat X) (x : X) (p : nat) (o k : Z).

Definition trees_match T M : Prop := ∀ o t k p,
  T !! o = Some t → t !! k = Some p ↔ ∃ x, M !! p = Some x ∧ home x = Some o ∧ key x = k.

(** An object changes outside the trees, or keeps its place. *)
Lemma match_update T M p x x' :
  trees_match T M → M !! p = Some x → home x' = home x → (home x ≠ None → key x' = key x) →
  trees_match T (<[p := x']> M).
Proof.
  intros HT Hx Hh Hk o t k q Ht. rewrite (HT o t k q Ht). destruct (decide (q = p)) as [->|Hne].
  - rewrite lookup_insert_eq. split; intros (y & Hy & Hyo & Hyk); simplify_eq.
    + exists x'. split_and!; [done|by rewrite Hh|]. apply Hk. by rewrite Hyo.
    + exists x. rewrite Hh in Hyo. split_and!; [done..|]. symmetry. apply Hk. by rewrite Hyo.
  - by rewrite lookup_insert_ne.
Qed.

Lemma match_alloc T M p x : trees_match T M → M !! p = None → home x = None → trees_match T (<[p := x]> M).
Proof.
  intros HT Hp Hh o t k q Ht. rewrite (HT o t k q Ht). destruct (decide (q = p)) as [->|Hne].
  - rewrite lookup_insert_eq, Hp. naive_solver.
  - by rewrite lookup_insert_ne.
Qed.

Lemma match_unlink T M p x x' o t :
  trees_match T M → M !! p = Some x → home x = Some o → T !! o = Some t → home x' = None →
  trees_match (<[o := delete (key x) t]> T) (<[p := x']> M).
Proof.
  intros HT Hx Hh Ht Hh' o' t' k q [[<- <-]|[Hne Ht']]%lookup_insert_Some.
  - rewrite lookup_delete_Some, (HT o t k q Ht). destruct (decide (q = p)) as [->|Hq].
    + rewrite lookup_insert_eq. naive_solver.
    + rewrite lookup_insert_ne by done. split; [naive_solver|]. intros (y & Hy & Hyo & <-). split; [|eauto].
      intros Hk. assert (t !! key x = Some p) as H1 by (apply (HT o t); eauto).
      assert (t !! key y = Some q) as H2 by (apply (HT o t); eauto). congruence.
  - rewrite (HT o' t' k q Ht'). destruct (decide (q = p)) as [->|Hq].
    + rewrite lookup_insert_eq. naive_solver.
    + by rewrite lookup_insert_ne.
Qed.

Lemma match_link T M p x x' o t :
  trees_match T M → M !! p = Some x → home x = None → T !! o = Some t → t !! key x' = None →
  home x' = Some o → trees_match (<[o := <[key x' := p]> t]> T) (<[p := x']> M).
Proof.
  intros HT Hx Hh Ht Hn Hh' o' t' k q [[<- <-]|[Hne Ht']]%lookup_insert_Some.
  - destruct (decide (q = p)) as [->|Hq].
    + rewrite (lookup_insert_eq M p x'), lookup_insert_Some, (HT o t k p Ht). naive_solver.
    + rewrite (lookup_insert_ne M p q), lookup_insert_Some, (HT o t k q Ht) by done. split; [naive_solver|].
      intros (y & Hy & Hyo & <-). right. split; [|eauto]. intros Hk.
      assert (t !! key y = Some q) as H2 by (apply (HT o t); eauto). congruence.
  - rewrite (HT o' t' k q Ht'). destruct (decide (q = p)) as [->|Hq].
    + rewrite lookup_insert_eq. naive_solver.
    + by rewrite lookup_insert_ne.
Qed.

Lemma match_open T M o :
  trees_match T M → T !! o = None → (∀ p x, M !! p = Some x → home x = Some o → is_Some (T !! o)) →
  trees_match (<[o := ∅]> T) M.
Proof.
  intros HT Ho Hh o' t' k q [[<- <-]|[Hne Ht']]%lookup_insert_Some; [|by apply HT].
  rewrite lookup_empty. split; [done|]. intros (x & Hx & Hxo & _). destruct (Hh _ _ Hx Hxo) as [? ?]. congruence.
Qed.

Lemma match_close T M o : trees_match T M → trees_match (delete o T) M.
Proof. intros HT o' t' k q [_ Ht']%lookup_delete_Some. by apply HT. Qed.
End trees.

(** ** The parts of the invariant

    Of a client without lingering requests. *)

Definition live (r : osd_request) : Prop := r_end_latency r = None.
Definition trees_of (S : gmap Z osd_session) : gmap Z (gmap Z rptr) := o_requests <$> S.

(** Requests, their trees and lists: of the sessions ([T]), to be sent again ([nr]), with a map check
    ([mc]), waiting for the lock ([pr]).  [X] are in the hands of an operation. *)
Record reqs_ok (T : gmap Z (gmap Z rptr)) (M : gmap rptr osd_request) (nr mc : gmap Z rptr) (pr : list rptr)
    (last : Z) (next : nat) (X : rptr → Prop) : Prop := {
  rq_tree : trees_match r_osd r_tid T M;
  rq_home p r o : M !! p = Some r → r_osd r = Some o → is_Some (T !! o) ∧ r_tid r ≠ 0 ∧ (live r ∨ X p);
  rq_nr tid p : nr !! tid = Some p →
    tid ≠ 0 ∧ mc !! tid = None ∧ ∃ r, M !! p = Some r ∧ r_osd r = None ∧ r_tid r = tid ∧ live r;
  rq_mc tid p : mc !! tid = Some p →
    tid ≠ 0 ∧ ∃ r, M !! p = Some r ∧ r_tid r = tid ∧ live r ∧ r_attempts r = 0 ∧ r_map_dne_bound r = 0;
  rq_pr p : p ∈ pr → ∃ r, M !! p = Some r ∧ r_osd r = None ∧ r_tid r = 0 ∧ live r;
  rq_tid p r : M !! p = Some r → 0 <= r_tid r <= last;
  rq_uniq p p' r r' : M !! p = Some r → M !! p' = Some r' → r_tid r = r_tid r' → r_tid r ≠ 0 → p = p';
  rq_next p r : M !! p = Some r → (p < next)%nat;
  rq_plain p r : M !! p = Some r → r_linger r = false ∧ r_callback r = caller_cb;
  rq_sent p r : M !! p = Some r → 0 <= r_attempts r ∧ (r_tid r = 0 → r_attempts r = 0 → r_map_dne_bound r = 0) }.

(** Requests that are done: each is on the list of those to complete or has completed, once. *)
Record done_ok (M : gmap rptr osd_request) (dn : list rptr) (X : rptr → Prop) : Prop := {
  dn_once : NoDup dn;
  dn_done p : p ∈ dn → ∃ r, M !! p = Some r ∧ ¬ live r;
  dn_all p r : M !! p = Some r → ¬ live r → ¬ X p → p ∈ dn }.

(** Sessions; those that are [open] have not been compared with the new map. *)
Definition at_addr (m : ceph_osdmap) (o : Z) (s : osd_session) : Prop :=
  osd_up m o = true ∧ om_osd_addr m !! Z.to_nat o = Some (o_peer_addr s).
Record sessions_ok (m m0 : ceph_osdmap) (open : Z → Prop) (S : gmap Z osd_session) (lru : list Z) : Prop := {
  ss_home : is_Some (S !! CEPH_HOMELESS_OSD);
  ss_key o : is_Some (S !! o) → o = CEPH_HOMELESS_OSD ∨ 0 <= o;
  ss_backoffs o s : S !! o = Some s → session_ok (o_backoffs s);
  ss_addr o s : S !! o = Some s → o ≠ CEPH_HOMELESS_OSD → at_addr m o s ∨ open o ∧ at_addr m0 o s;
  ss_lru : NoDup lru;
  ss_idle o : o ∈ lru → o ≠ CEPH_HOMELESS_OSD ∧ ∃ s, S !! o = Some s ∧ o_requests s = ∅;
  ss_linger o s : S !! o = Some s → o_linger_requests s = ∅ }.

(** ** Where a request is *)

(** Its message, for its present target, is on the connection. *)
Definition sent (s : osd_session) (p : rptr) (r : osd_request) : Prop :=
  ∃ msg, o_con_queue s !! p = Some msg ∧ sm_tid msg = r_tid r ∧ mapping (sm_t msg) = mapping (r_t r)
         ∧ sm_attempt msg = r_attempts r - 1.
Definition held_or_sent (s : osd_session) (p : rptr) (r : osd_request) : Prop :=
  should_plug_request (o_backoffs s) (r_t r) = true ∨ sent s p r.

Definition at_ok (fuel : nat) (m : ceph_osdmap) (eb : Z) (mc : gmap Z rptr) (o : Z) (s : osd_session) (p : rptr)
    (r : osd_request) : Prop :=
  match pool_of m (r_t r) with
  | None => mc !! r_tid r = Some p ∨ om_epoch m < r_map_dne_bound r
  | Some _ => o = t_osd (r_t r) ∧ computed fuel m eb (r_t r) ∧ mc !! r_tid r = None ∧
      (o = CEPH_HOMELESS_OSD ∨ t_paused (r_t r) = true ∨ held_or_sent s p r)
  end.

(** To be sent again, with a target that is calculated or old. *)
Definition ready (fuel : nat) (m : ceph_osdmap) (eb : Z) (r : osd_request) : Prop :=
  pool_of m (r_t r) ≠ None ∧ (t_epoch (r_t r) < om_epoch m ∨ computed fuel m eb (r_t r)).

(** What is left of a scan of all requests for a new map: the requests not scanned, by session and tid,
    and the sessions not checked, with the map before. *)
Record phase := Phase { ph_map : ceph_osdmap; ph_pend : Z → Z → Prop; ph_open : Z → Prop }.
Definition idle (m : ceph_osdmap) : phase := Phase m (λ _ _, False) (λ _, False).

Definition placed (fuel : nat) (m : ceph_osdmap) (eb : Z) (φ : phase) (S : gmap Z osd_session) (nr mc : gmap Z rptr)
    (pr : list rptr) (p : rptr) (r : osd_request) : Prop :=
  p ∈ pr
  ∨ nr !! r_tid r = Some p ∧ ready fuel m eb r
  ∨ ∃ o s, r_osd r = Some o ∧ S !! o = Some s ∧
      (¬ ph_pend φ o (r_tid r) ∧ at_ok fuel m eb mc o s p r
       ∨ ph_pend φ o (r_tid r) ∧ at_ok fuel (ph_map φ) eb mc o s p r).

(** The requests that have completed. *)
Definition completed (log : list effect) : list rptr :=
  omap (λ e, match e with Complete_all p => Some p | _ => None end) log.
Definition finished (c : client) : list rptr := c_completion_wq c ++ completed (c_log c).

Definition placed_in (opts : ceph_options) (φ : phase) (nr : gmap Z rptr) (c : client) (p : rptr) (r : osd_request)
    : Prop :=
  placed (co_fuel opts) (c_osdmap c) (c_epoch_barrier c) φ (c_sessions c) nr (c_map_checks c) (c_promoting c) p r.

Record Inv (opts : ceph_options) (φ : phase) (nr : gmap Z rptr) (X : rptr → Prop) (c : client) : Prop := {
  iv_map : client_map (co_fuel opts) (c_osdmap c);
  iv_reqs : reqs_ok (trees_of (c_sessions c)) (c_reqs c) nr (c_map_checks c) (c_promoting c) (c_last_tid c)
              (c_next c) X;
  iv_done : done_ok (c_reqs c) (finished c) X;
  iv_sess : sessions_ok (c_osdmap c) (ph_map φ) (ph_open φ) (c_sessions c) (c_osd_lru c);
  iv_plain : c_linger_requests c = ∅ ∧ c_linger_map_checks c = ∅ ∧ c_notify_wq c = [] ∧ 0 <= c_last_tid c;
  iv_target p r : c_reqs c !! p = Some r → live r → target_ok (c_osdmap c) (r_t r);
  iv_place p r : c_reqs c !! p = Some r → live r → ¬ X p → placed_in opts φ nr c p r;
  iv_stale : c_stale c = [] }.
