(* ===== verification/OsdSafe.v ===== *)
(** * The invariant under the operations on one request

    Linking, sending, completing, cancelling and checking a request that is in the hands of an
    operation keep the invariant. *)
From S2P Require Import Prelude Hash Crush Mapper Choose DoRule Workspace OsdMap Placement.
From S2P Require Import CrushLoc OsdTarget Decode OsdMapWire OsdBackoff State OsdData OsdClient.
From S2P Require Import OsdInv.

(** Fields of an updated client. *)
Ltac client_simpl :=
  cbn [c_osdmap c_epoch_barrier c_abort_err c_last_tid c_last_linger_id c_sessions c_osd_lru 
    c_linger_requests c_map_checks c_linger_map_checks c_num_requests c_num_homeless c_completion_wq 
    c_notify_wq c_promoting c_stale c_reqs c_lreqs c_next c_calls c_jiffies c_log set_c_osdmap 
    set_c_epoch_barrier set_c_abort_err set_c_last_tid set_c_last_linger_id set_c_sessions set_c_osd_lru 
    set_c_linger_requests set_c_map_checks set_c_linger_map_checks set_c_num_requests set_c_num_homeless 
    set_c_completion_wq set_c_notify_wq set_c_promoting set_c_stale set_c_reqs set_c_lreqs set_c_next 
    set_c_calls set_c_jiffies set_c_log].
Tactic Notation "client_simpl" "in" "*" :=
  cbn [c_osdmap c_epoch_barrier c_abort_err c_last_tid c_last_linger_id c_sessions c_osd_lru 
    c_linger_requests c_map_checks c_linger_map_checks c_num_requests c_num_homeless c_completion_wq 
    c_notify_wq c_promoting c_stale c_reqs c_lreqs c_next c_calls c_jiffies c_log set_c_osdmap 
    set_c_epoch_barrier set_c_abort_err set_c_last_tid set_c_last_linger_id set_c_sessions set_c_osd_lru 
    set_c_linger_requests set_c_map_checks set_c_linger_map_checks set_c_num_requests set_c_num_homeless 
    set_c_completion_wq set_c_notify_wq set_c_promoting set_c_stale set_c_reqs set_c_lreqs set_c_next 
    set_c_calls set_c_jiffies set_c_log] in *.

Section safe.
Context (opts : ceph_options) (Henv : ∀ m n, map_ok (co_fuel opts) m → env_ok m (co_env opts m n)).
Implicit Types (c : client) (p : rptr) (r : osd_request) (o : Z) (s : osd_session) (X : rptr → Prop).
Local Abbreviation fuel := (co_fuel opts).
Local Abbreviation Inv := (OsdInv.Inv opts).

(** ** Access *)

Lemma wpst_get_req p r c (Q : osd_request → client → Prop) :
  c_reqs c !! p = Some r → Q r c → wpst (get_req p) c Q.
Proof. intros H HQ. unfold get_req. apply wpst_bind, wpst_get. by eapply wpst_deref. Qed.
Lemma wpst_upd_req p r f c (Q : unit → client → Prop) :
  c_reqs c !! p = Some r → Q tt (set_c_reqs (<[p := f r]> (c_reqs c)) c) → wpst (upd_req p f) c Q.
Proof. intros H HQ. unfold upd_req. apply wpst_bind. by eapply wpst_get_req. Qed.
Lemma wpst_get_session o s c (Q : osd_session → client → Prop) :
  c_sessions c !! o = Some s → Q s c → wpst (get_session o) c Q.
Proof. intros H HQ. unfold get_session. apply wpst_bind, wpst_get. by eapply wpst_deref. Qed.
Lemma wpst_upd_session o s f c (Q : unit → client → Prop) :
  c_sessions c !! o = Some s → Q tt (set_c_sessions (<[o := f s]> (c_sessions c)) c) → wpst (upd_session o f) c Q.
Proof. intros H HQ. unfold upd_session. apply wpst_bind. by eapply wpst_get_session. Qed.

(** ** Taking requests and putting them back *)

Lemma reqs_ok_hands T M nr mc pr last next X X' :
  reqs_ok T M nr mc pr last next X → (∀ p r, M !! p = Some r → r_osd r ≠ None → ¬ live r → X p → X' p) →
  reqs_ok T M nr mc pr last next X'.
Proof.
  intros [Ht Hh Hnr Hmc Hpr Htid Hu Hn Hpl Hs] HX. split; try done.
  intros p r o Hp Ho. destruct (Hh p r o Hp Ho) as (H1 & H2 & H3). split_and!; [done..|].
  destruct (decide (r_end_latency r = None)); [by left|]. right. destruct H3; [done|].
  apply (HX p r); [done|congruence|done..].
Qed.

Lemma Inv_weaken φ nr X X' c : (∀ p, X p → X' p) → Inv φ nr X c → Inv φ nr X' c.
Proof.
  intros HX [H1 H2 [Ho Hd Ha] H4 H5 H6 H7 H8]. split; try done.
  - eapply reqs_ok_hands; [done|]. auto.
  - split; [done..|]. intros q r Hq Hl Hn. apply (Ha q r Hq Hl). auto.
  - intros q r Hq Hl Hn. apply H7; auto.
Qed.
Lemma Inv_take φ nr X p c : Inv φ nr X c → Inv φ nr (λ q, q = p ∨ X q) c.
Proof. apply Inv_weaken. auto. Qed.

Lemma Inv_put φ nr X X' p r c :
  Inv φ nr X' c → (∀ q, X' q → q = p ∨ X q) → c_reqs c !! p = Some r →
  (live r → placed_in opts φ nr c p r) → (¬ live r → r_osd r = None ∧ p ∈ finished c) → Inv φ nr X c.
Proof.
  intros [H1 H2 [Ho Hd Ha] H4 H5 H6 H7 H8] HX Hp Hl Hn. split; try done.
  - eapply reqs_ok_hands; [done|]. intros q r' Hq Hqo Hql [->|?]%HX; [|done]. simplify_eq. by destruct Hn.
  - split; [done..|]. intros q r' Hq Hnl Hx. destruct (decide (q = p)) as [->|Hne].
    + simplify_eq. by apply Hn.
    + apply (Ha q r' Hq Hnl). intros [?|?]%HX; done.
  - intros q r' Hq Hlq Hx. destruct (decide (q = p)) as [->|Hne].
    + simplify_eq. by apply Hl.
    + apply H7; [done..|]. intros [?|?]%HX; done.
Qed.

(** ** Changes of a request *)

(** What keeps its place. *)
Record same_place (r r' : osd_request) : Prop := {
  sp_osd : r_osd r' = r_osd r;
  sp_tid : r_tid r' = r_tid r;
  sp_end : r_end_latency r' = r_end_latency r;
  sp_linger : r_linger r' = r_linger r;
  sp_cb : r_callback r' = r_callback r;
  sp_attempts : 0 <= r_attempts r' }.

Lemma reqs_ok_update T M nr mc pr last next X p r r' :
  reqs_ok T M nr mc pr last next X → M !! p = Some r → same_place r r' →
  (mc !! r_tid r = None ∧ (r_tid r = 0 → r_attempts r' = 0 → r_map_dne_bound r' = 0)
   ∨ r_attempts r' = r_attempts r ∧ r_map_dne_bound r' = r_map_dne_bound r) →
  reqs_ok T (<[p := r']> M) nr mc pr last next X.
Proof.
  intros [Ht Hh Hnr Hmc Hpr Htid Hu Hn Hpl Hs] Hp [Eo Et Ee El Ec En] Ha.
  assert (Hlive : live r' ↔ live r) by (unfold live; by rewrite Ee).
  split.
  - by eapply match_update.
  - intros q r0 o [[<- <-]|[Hne Hq]]%lookup_insert_Some; [|by apply Hh].
    rewrite Eo, Et, Hlive. by apply Hh.
  - intros tid q Hq. destruct (Hnr tid q Hq) as (? & ? & r0 & Hr0 & Ho & Hti & Hl). split_and!; [done..|].
    destruct (decide (q = p)) as [->|]; [|exists r0; by rewrite lookup_insert_ne].
    simplify_eq. exists r'. rewrite lookup_insert_eq, Eo, Et, Hlive. done.
  - intros tid q Hq. destruct (Hmc tid q Hq) as (? & r0 & Hr0 & Hti & Hl & Hat & Hb). split; [done|].
    destruct (decide (q = p)) as [->|]; [|exists r0; by rewrite lookup_insert_ne].
    simplify_eq. exists r'. rewrite lookup_insert_eq, Et, Hlive. split_and!; [done..| |].
    + destruct Ha as [[? _]|[-> _]]; [congruence|done].
    + destruct Ha as [[? _]|[_ ->]]; [congruence|done].
  - intros q Hq. destruct (Hpr q Hq) as (r0 & Hr0 & Ho & Hti & Hl).
    destruct (decide (q = p)) as [->|]; [|exists r0; by rewrite lookup_insert_ne].
    simplify_eq. exists r'. rewrite lookup_insert_eq, Eo, Et, Hlive. done.
  - intros q r0 [[<- <-]|[Hne Hq]]%lookup_insert_Some; [rewrite Et|]; by eapply Htid.
  - intros q q' r0 r1 [[<- <-]|[Hne Hq]]%lookup_insert_Some [[<- <-]|[Hne' Hq']]%lookup_insert_Some; rewrite ?Et.
    + done. + by apply Hu. + by apply Hu. + by apply Hu.
  - intros q r0 [[<- <-]|[Hne Hq]]%lookup_insert_Some; by eapply Hn.
  - intros q r0 [[<- <-]|[Hne Hq]]%lookup_insert_Some; [rewrite El, Ec|]; by eapply Hpl.
  - intros q r0 [[<- <-]|[Hne Hq]]%lookup_insert_Some; [|by apply (Hs q)]. rewrite Et. split; [done|].
    destruct Ha as [[_ Ha]|[-> ->]]; [done|]. by apply (Hs p).
Qed.

Lemma done_ok_update M dn X p r r' :
  done_ok M dn X → M !! p = Some r → r_end_latency r' = r_end_latency r → done_ok (<[p := r']> M) dn X.
Proof.
  intros [Ho Hd Ha] Hp He. split; [done| |].
  - intros q Hq. destruct (Hd q Hq) as (r0 & Hr0 & Hl). destruct (decide (q = p)) as [->|].
    + exists r'. rewrite lookup_insert_eq. simplify_eq. unfold live. by rewrite He.
    + exists r0. by rewrite lookup_insert_ne.
  - intros q r0 [[<- <-]|[Hne Hq]]%lookup_insert_Some; [unfold live; rewrite He|]; by apply Ha.
Qed.

Lemma Inv_update φ nr X p r r' c :
  Inv φ nr X c → X p → c_reqs c !! p = Some r → same_place r r' → (live r → target_ok (c_osdmap c) (r_t r')) →
  (c_map_checks c !! r_tid r = None ∧ (r_tid r = 0 → r_attempts r' = 0 → r_map_dne_bound r' = 0)
   ∨ r_attempts r' = r_attempts r ∧ r_map_dne_bound r' = r_map_dne_bound r) →
  Inv φ nr X (set_c_reqs (<[p := r']> (c_reqs c)) c).
Proof.
  intros [H1 H2 H3 H4 H5 H6 H7 H8] Hx Hp Hs Ht Ha. split; client_simpl; try done.
  - by eapply reqs_ok_update.
  - eapply done_ok_update; [done..|by destruct Hs].
  - intros q r0 [[<- <-]|[Hne Hq]]%lookup_insert_Some; [|by eapply H6]. destruct Hs. unfold live. rewrite sp_end0. auto.
  - intros q r0 [[<- <-]|[Hne Hq]]%lookup_insert_Some Hl Hn; [done|]. exact (H7 q r0 Hq Hl Hn).
Qed.

(** ** What the operations on a request leave as it is *)

(** Sessions stay, with their addresses. *)
Definition sessions_stay (S S' : gmap Z osd_session) : Prop :=
  ∀ o s, S !! o = Some s → ∃ s', S' !! o = Some s' ∧ o_peer_addr s' = o_peer_addr s ∧ o_serial s' = o_serial s.
Record quiet c c' : Prop := {
  qu_map : c_osdmap c' = c_osdmap c;
  qu_eb : c_epoch_barrier c' = c_epoch_barrier c;
  qu_abort : c_abort_err c' = c_abort_err c;
  qu_next : c_next c' = c_next c;
  qu_pr : c_promoting c' = c_promoting c;
  qu_last : c_last_tid c' = c_last_tid c;
  qu_sess : sessions_stay (c_sessions c) (c_sessions c');
  qu_none o : c_sessions c !! o = None → c_sessions c' !! o = None }.
(** The lists of the requests that are done, and of the map checks. *)
Definition lists_stay c c' : Prop :=
  c_map_checks c' = c_map_checks c ∧ c_completion_wq c' = c_completion_wq c ∧ completed (c_log c') = completed (c_log c).

#[export] Instance sessions_stay_refl : Reflexive sessions_stay.
Proof. intros S. intros o s H. eauto. Qed.
Lemma sessions_stay_trans S1 S2 S3 : sessions_stay S1 S2 → sessions_stay S2 S3 → sessions_stay S1 S3.
Proof.
  intros H1 H2 o s (s' & Hs' & Ha & Hb)%H1. destruct (H2 o s' Hs') as (s'' & Hs'' & Ha' & Hb').
  exists s''. split_and!; congruence.
Qed.
Lemma sessions_stay_insert S o s s' :
  S !! o = Some s → o_peer_addr s' = o_peer_addr s → o_serial s' = o_serial s → sessions_stay S (<[o := s']> S).
Proof.
  intros Hs Ha Hb o' t Ht. destruct (decide (o' = o)) as [->|].
  - exists s'. rewrite lookup_insert_eq. split_and!; congruence.
  - exists t. by rewrite lookup_insert_ne.
Qed.
#[export] Instance quiet_po : PreOrder quiet.
Proof.
  split.
  - intros c. by split.
  - intros c1 c2 c3 [] []. split; try congruence; [by eapply sessions_stay_trans|auto].
Qed.
#[export] Instance lists_stay_po : PreOrder lists_stay.
Proof. split; [by intros c|]. intros c1 c2 c3 (? & ? & ?) (? & ? & ?). repeat split; congruence. Qed.

Lemma quiet_put_session o s s' c :
  c_sessions c !! o = Some s → o_peer_addr s' = o_peer_addr s → o_serial s' = o_serial s →
  quiet c (set_c_sessions (<[o := s']> (c_sessions c)) c).
Proof.
  intros Hs Ha Hb. split; try done; [by eapply sessions_stay_insert|].
  intros o' Ho'. cbn. rewrite lookup_insert_ne; [done|congruence].
Qed.

(** ** Moving requests between sessions *)

Lemma reqs_ok_move T T' M nr mc pr last next X p r h :
  reqs_ok T M nr mc pr last next X → M !! p = Some r →
  trees_match r_osd r_tid T' (<[p := set_r_osd h r]> M) → (∀ o, is_Some (T !! o) → is_Some (T' !! o)) →
  (∀ o, h = Some o → is_Some (T !! o) ∧ r_tid r ≠ 0 ∧ (live r ∨ X p) ∧ nr !! r_tid r ≠ Some p) →
  reqs_ok T' (<[p := set_r_osd h r]> M) nr mc pr last next X.
Proof.
  intros [Ht Hh Hnr Hmc Hpr Htid Hu Hn Hpl Hs] Hp Ht' HT Hho. split; [done|..].
  - intros q r0 o [[<- <-]|[Hne Hq]]%lookup_insert_Some Hqo.
    + destruct (Hho o Hqo) as (?%HT & ? & ? & _). done.
    + destruct (Hh q r0 o Hq Hqo) as (?%HT & ? & ?). done.
  - intros tid q Hq. destruct (Hnr tid q Hq) as (? & ? & r0 & Hr0 & Ho & Hti & Hl). split_and!; [done..|].
    destruct (decide (q = p)) as [->|]; [|exists r0; by rewrite lookup_insert_ne].
    simplify_eq. eexists. rewrite lookup_insert_eq. split_and!; [done| |done..].
    destruct h as [o|]; [|done]. by destruct (Hho o eq_refl) as (_ & _ & _ & []).
  - intros tid q Hq. destruct (Hmc tid q Hq) as (? & r0 & Hr0 & Hti & Hl & Hat & Hb). split; [done|].
    destruct (decide (q = p)) as [->|]; [|exists r0; by rewrite lookup_insert_ne].
    simplify_eq. eexists. rewrite lookup_insert_eq. done.
  - intros q Hq. destruct (Hpr q Hq) as (r0 & Hr0 & Ho & Hti & Hl).
    destruct (decide (q = p)) as [->|]; [|exists r0; by rewrite lookup_insert_ne].
    simplify_eq. eexists. rewrite lookup_insert_eq. split_and!; [done| |done..].
    destruct h as [o|]; [|done]. by destruct (Hho o eq_refl) as (_ & [] & _).
  - intros q r0 [[<- <-]|[Hne Hq]]%lookup_insert_Some; [exact (Htid p r Hp)|by eapply Htid].
  - intros q q' r0 r1 [[<- <-]|[Hne Hq]]%lookup_insert_Some [[<- <-]|[Hne' Hq']]%lookup_insert_Some; cbn.
    + done. + by apply Hu. + by apply Hu. + by apply Hu.
  - intros q r0 [[<- <-]|[Hne Hq]]%lookup_insert_Some; by eapply Hn.
  - intros q r0 [[<- <-]|[Hne Hq]]%lookup_insert_Some; [exact (Hpl p r Hp)|by eapply Hpl].
  - intros q r0 [[<- <-]|[Hne Hq]]%lookup_insert_Some; [exact (Hs p r Hp)|by eapply Hs].
Qed.

Lemma trees_of_insert S o s : trees_of (<[o := s]> S) = <[o := o_requests s]> (trees_of S).
Proof. apply fmap_insert. Qed.
Lemma trees_of_lookup S o t : trees_of S !! o = Some t ↔ ∃ s, S !! o = Some s ∧ t = o_requests s.
Proof. unfold trees_of. rewrite lookup_fmap_Some. naive_solver. Qed.

Lemma trees_of_same S o s s' : S !! o = Some s → o_requests s' = o_requests s → trees_of (<[o := s']> S) = trees_of S.
Proof. intros Hs Hr. rewrite trees_of_insert, Hr, insert_id; [done|]. unfold trees_of. by rewrite lookup_fmap, Hs. Qed.

(** A request that is not touched stays where it is. *)
Lemma placed_frame_gen φ nr nr' c c' p r :
  placed_in opts φ nr c p r → c_osdmap c' = c_osdmap c → c_epoch_barrier c' = c_epoch_barrier c →
  (p ∈ c_promoting c → p ∈ c_promoting c') → (nr !! r_tid r = Some p → nr' !! r_tid r = Some p) →
  (∀ o s, r_osd r = Some o → c_sessions c !! o = Some s → ∃ s', c_sessions c' !! o = Some s' ∧
    let at_ok m c := at_ok fuel m (c_epoch_barrier c) (c_map_checks c) o in
    (¬ ph_pend φ o (r_tid r) → at_ok (c_osdmap c) c s p r → at_ok (c_osdmap c) c' s' p r) ∧
    (ph_pend φ o (r_tid r) → at_ok (ph_map φ) c s p r → at_ok (ph_map φ) c' s' p r)) →
  placed_in opts φ nr' c' p r.
Proof.
  intros H Em Ee Hpr Hnr Hs. unfold placed_in, placed in *. rewrite Em.
  destruct H as [H|[[H1 H2]|(o & s & Ho & Hso & H)]]; [auto|rewrite Ee; auto|].
  right; right. destruct (Hs o s Ho Hso) as (s' & Hs' & Hh1 & Hh2). exists o, s'. split_and!; [done..|].
  destruct H as [[Hn H]|[Hn H]]; [left|right]; (split; [exact Hn|]); auto.
Qed.

Lemma at_ok_held m eb mc mc' o s s' p r :
  (held_or_sent s p r → held_or_sent s' p r) → mc' !! r_tid r = mc !! r_tid r →
  at_ok fuel m eb mc o s p r → at_ok fuel m eb mc' o s' p r.
Proof. intros Hh Emc. unfold at_ok. rewrite Emc. destruct (pool_of _ _); intuition. Qed.

Lemma placed_frame φ nr nr' c c' p r :
  placed_in opts φ nr c p r → c_osdmap c' = c_osdmap c → c_epoch_barrier c' = c_epoch_barrier c →
  (p ∈ c_promoting c → p ∈ c_promoting c') → (nr !! r_tid r = Some p → nr' !! r_tid r = Some p) →
  c_map_checks c' !! r_tid r = c_map_checks c !! r_tid r →
  (∀ o s, r_osd r = Some o → c_sessions c !! o = Some s →
    ∃ s', c_sessions c' !! o = Some s' ∧ (held_or_sent s p r → held_or_sent s' p r)) →
  placed_in opts φ nr' c' p r.
Proof.
  intros H Em Ee Hpr Hnr Emc Hs. eapply placed_frame_gen; try done. intros o s Ho Hso.
  destruct (Hs o s Ho Hso) as (s' & Hs' & Hh). exists s'. cbv beta zeta. rewrite Ee.
  split_and!; [done|intros _; by apply at_ok_held..].
Qed.

(** A change of a session's connection, backoffs or clock. *)
Lemma Inv_session_gen φ nr X o s s' c :
  Inv φ nr X c → c_sessions c !! o = Some s → o_requests s' = o_requests s → o_linger_requests s' = o_linger_requests s →
  session_ok (o_backoffs s') → o_peer_addr s' = o_peer_addr s →
  (∀ p r, c_reqs c !! p = Some r → r_osd r = Some o → live r → ¬ X p →
    let at_ok m := at_ok fuel m (c_epoch_barrier c) (c_map_checks c) o in
    (¬ ph_pend φ o (r_tid r) → at_ok (c_osdmap c) s p r → at_ok (c_osdmap c) s' p r) ∧
    (ph_pend φ o (r_tid r) → at_ok (ph_map φ) s p r → at_ok (ph_map φ) s' p r)) →
  Inv φ nr X (set_c_sessions (<[o := s']> (c_sessions c)) c).
Proof.
  intros [H1 H2 H3 [S1 S2 S3 S4 S5 S6 S7] H5 H6 H7 H8] Hs Er El Hb Ea Hh. split; client_simpl; try done.
  - by erewrite trees_of_same.
  - split; try done.
    + destruct (decide (o = CEPH_HOMELESS_OSD)) as [->|]; [rewrite lookup_insert_eq; eauto|by rewrite lookup_insert_ne].
    + intros o' [t Ht]. apply S2. destruct (decide (o' = o)) as [->|]; [eauto|rewrite lookup_insert_ne in Ht; eauto].
    + intros o' t [[<- <-]|[_ Ht]]%lookup_insert_Some; [done|by eapply S3].
    + intros o' t [[<- <-]|[_ Ht]]%lookup_insert_Some; [|by apply S4]. unfold at_addr. rewrite Ea. by apply S4.
    + intros o' Ho'. destruct (S6 o' Ho') as (? & t & Ht & Hr). split; [done|].
      destruct (decide (o' = o)) as [->|]; [|exists t; by rewrite lookup_insert_ne].
      exists s'. rewrite lookup_insert_eq. split; [done|]. rewrite Er. congruence.
    + intros o' t [[<- <-]|[_ Ht]]%lookup_insert_Some; [|by eapply S7]. rewrite El. by eapply S7.
  - intros p r Hp Hl Hx. apply (placed_frame_gen φ nr nr c); [by apply H7|try done..]. client_simpl. intros o' t Ho' Ht.
    destruct (decide (o' = o)) as [->|]; [|exists t; by rewrite lookup_insert_ne].
    exists s'. rewrite lookup_insert_eq. split; [done|]. simplify_eq. by apply Hh.
Qed.

Lemma Inv_session φ nr X o s s' c :
  Inv φ nr X c → c_sessions c !! o = Some s → o_requests s' = o_requests s → o_linger_requests s' = o_linger_requests s →
  session_ok (o_backoffs s') → o_peer_addr s' = o_peer_addr s →
  (∀ p r, c_reqs c !! p = Some r → r_osd r = Some o → live r → ¬ X p → held_or_sent s p r → held_or_sent s' p r) →
  Inv φ nr X (set_c_sessions (<[o := s']> (c_sessions c)) c).
Proof.
  intros H Hs Er El Hb Ea Hh. eapply Inv_session_gen; [done..|]. intros p r Hp Ho Hl Hx.
  split; intros _; (apply at_ok_held; [by apply (Hh p r)|done]).
Qed.

(** ** Unlinking and linking *)

Lemma Inv_num_homeless φ nr X n c : Inv φ nr X c → Inv φ nr X (set_c_num_homeless n c).
Proof. by intros []. Qed.

Lemma Inv_lru φ nr X l c :
  Inv φ nr X c → NoDup l →
  (∀ o, o ∈ l → o ≠ CEPH_HOMELESS_OSD ∧ ∃ s, c_sessions c !! o = Some s ∧ o_requests s = ∅) →
  Inv φ nr X (set_c_osd_lru l c).
Proof. intros [H1 H2 H3 [] H5 H6 H7 H8] Hl Hi. split; try done. Qed.

Lemma Inv_remove_lru φ nr X o c :
  Inv φ nr X c → Inv φ nr X (set_c_osd_lru (filter (λ x, x ≠ o) (c_osd_lru c)) c).
Proof.
  intros H. apply Inv_lru; [done| |].
  - apply NoDup_filter, (ss_lru _ _ _ _ _ (iv_sess _ _ _ _ _ H)).
  - intros o' [_ Ho']%list_elem_of_filter. by apply (ss_idle _ _ _ _ _ (iv_sess _ _ _ _ _ H)).
Qed.

Lemma Inv_move φ nr X p r h o s t c :
  Inv φ nr X c → X p → c_reqs c !! p = Some r → c_sessions c !! o = Some s → o ∉ c_osd_lru c →
  trees_match r_osd r_tid (<[o := t]> (trees_of (c_sessions c))) (<[p := set_r_osd h r]> (c_reqs c)) →
  (h = None ∨ h = Some o ∧ r_tid r ≠ 0 ∧ nr !! r_tid r ≠ Some p) →
  Inv φ nr X (set_c_reqs (<[p := set_r_osd h r]> (c_reqs c)) (set_c_sessions (<[o := set_o_requests t s]> (c_sessions c)) c)).
Proof.
  intros [H1 H2 H3 [S1 S2 S3 S4 S5 S6 S7] H5 H6 H7 H8] Hx Hp Hs Ho Ht Hh. split; client_simpl; try done.
  - rewrite trees_of_insert. eapply reqs_ok_move; try done.
    + intros o' Ho'. destruct (decide (o' = o)) as [->|]; [rewrite lookup_insert_eq; eauto|by rewrite lookup_insert_ne].
    + intros o' ->. destruct Hh as [?|([= ->] & ? & ?)]; [done|]. split_and!; [|done|by right|done].
      exists (o_requests s). apply trees_of_lookup. eauto.
  - by eapply done_ok_update.
  - split; try done.
    + destruct (decide (o = CEPH_HOMELESS_OSD)) as [->|]; [rewrite lookup_insert_eq; eauto|by rewrite lookup_insert_ne].
    + intros o' [x Hx']. apply S2. destruct (decide (o' = o)) as [->|]; [eauto|rewrite lookup_insert_ne in Hx'; eauto].
    + intros o' x [[<- <-]|[_ Hx']]%lookup_insert_Some; [exact (S3 o s Hs)|by eapply S3].
    + intros o' x [[<- <-]|[_ Hx']]%lookup_insert_Some; [exact (S4 o s Hs)|by apply S4].
    + intros o' Ho'. destruct (S6 o' Ho') as (? & x & Hx' & Hr). split; [done|].
      exists x. by rewrite lookup_insert_ne by congruence.
    + intros o' x [[<- <-]|[_ Hx']]%lookup_insert_Some; [exact (S7 o s Hs)|by eapply S7].
  - intros q r0 [[<- <-]|[Hne Hq]]%lookup_insert_Some; [exact (H6 p r Hp)|by eapply H6].
  - intros q r0 [[<- <-]|[Hne Hq]]%lookup_insert_Some Hl Hn; [done|].
    apply (placed_frame φ nr nr c); [by apply H7|try done..]. client_simpl. intros o' x _ Hx'.
    destruct (decide (o' = o)) as [->|]; [|exists x; by rewrite lookup_insert_ne].
    simplify_eq. eexists. rewrite lookup_insert_eq. done.
Qed.

Lemma quiet_move p r h o s t c :
  c_reqs c !! p = Some r → c_sessions c !! o = Some s →
  quiet c (set_c_reqs (<[p := set_r_osd h r]> (c_reqs c)) (set_c_sessions (<[o := set_o_requests t s]> (c_sessions c)) c)).
Proof. intros Hp Hs. destruct (quiet_put_session o s (set_o_requests t s) c Hs eq_refl eq_refl). by split. Qed.

Lemma linked_tree φ nr X p r o c :
  Inv φ nr X c → c_reqs c !! p = Some r → r_osd r = Some o →
  ∃ s, c_sessions c !! o = Some s ∧ o_requests s !! r_tid r = Some p ∧ o ∉ c_osd_lru c.
Proof.
  intros H Hp Ho. destruct (rq_home _ _ _ _ _ _ _ _ (iv_reqs _ _ _ _ _ H) p r o Hp Ho) as ([t Ht] & _).
  pose proof Ht as (s & Hs & ->)%trees_of_lookup. exists s. assert (Hk : o_requests s !! r_tid r = Some p).
  { apply (rq_tree _ _ _ _ _ _ _ _ (iv_reqs _ _ _ _ _ H) o _ _ _ Ht). eauto. }
  split_and!; [done..|]. intros (_ & s' & Hs' & Hr)%(ss_idle _ _ _ _ _ (iv_sess _ _ _ _ _ H)).
  simplify_eq. by rewrite Hr, lookup_empty in Hk.
Qed.

Lemma wpst_move_osd_to_lru φ nr X o s c :
  Inv φ nr X c → c_sessions c !! o = Some s → o ∉ c_osd_lru c → o ≠ CEPH_HOMELESS_OSD →
  wpst (maybe_move_osd_to_lru opts o) c (λ _ c', Inv φ nr X c' ∧ quiet c c' ∧ lists_stay c c' ∧ c_reqs c' = c_reqs c).
Proof.
  intros H Hs Ho Hne. unfold maybe_move_osd_to_lru. apply wpst_bind. eapply wpst_get_session; [done|].
  apply wpst_when; [|by intros _]. intros [Hr _]%andb_true_iff. apply bool_decide_eq_true in Hr.
  unfold move_osd_to_lru_. apply wpst_bind, wpst_get, wpst_bind, wpst_lift.
  rewrite (bool_decide_eq_false_2 _ Ho). cbn [negb require wp]. apply wpst_bind, wpst_modify.
  eapply wpst_upd_session; [exact Hs|]. client_simpl. split_and!; [|by destruct (quiet_put_session o s (set_o_lru_ttl (c_jiffies c + co_osd_idle_ttl opts) s) c Hs eq_refl eq_refl)|done|done].
  eapply (Inv_session _ _ _ o s _ (set_c_osd_lru _ c)); [|done|done|done|exact (ss_backoffs _ _ _ _ _ (iv_sess _ _ _ _ _ H) o s Hs)|done|by auto].
  apply Inv_lru; [done| |].
  - apply NoDup_app. split_and!; [by eapply ss_lru, iv_sess| |apply NoDup_singleton].
    by intros x Hx ->%list_elem_of_singleton.
  - intros x [Hx| ->%list_elem_of_singleton]%elem_of_app; [by eapply (ss_idle _ _ _ _ _ (iv_sess _ _ _ _ _ H))|eauto].
Qed.

Lemma wpst_unlink_request φ nr X p r o c :
  Inv φ nr X c → X p → c_reqs c !! p = Some r → r_osd r = Some o →
  wpst (unlink_request opts o p) c (λ _ c', Inv φ nr X c' ∧ quiet c c' ∧ lists_stay c c'
    ∧ c_reqs c' = <[p := set_r_osd None r]> (c_reqs c)).
Proof.
  intros H Hx Hp Ho. destruct (linked_tree _ _ _ _ _ _ _ H Hp Ho) as (s & Hs & Hk & Hlru).
  unfold unlink_request. apply wpst_bind. eapply wpst_upd_req; [exact Hp|]. apply wpst_bind.
  eapply wpst_get_req; [client_simpl; apply lookup_insert_eq|]. apply wpst_bind.
  eapply wpst_get_session; [exact Hs|]. apply wpst_bind, wpst_lift. unfold rb_erase. cbn [set_r_osd r_tid]. rewrite Hk.
  cbn [deref mbind outcome_bind wp]. apply wpst_bind, wpst_modify. client_simpl.
  set (c1 := set_c_reqs (<[p := set_r_osd None r]> (c_reqs c)) (set_c_sessions (<[o := set_o_requests (delete (r_tid r) (o_requests s)) s]> (c_sessions c)) c)).
  assert (Hc1 : Inv φ nr X c1).
  { eapply Inv_move; try done; [|by left]. eapply match_unlink; try done; [by eapply rq_tree, iv_reqs|].
    apply trees_of_lookup. eauto. }
  assert (Hq : quiet c c1) by by apply quiet_move.
  unfold osd_homeless. destruct (Z.eqb_spec o CEPH_HOMELESS_OSD) as [->|Hne].
  - apply wpst_modify. split_and!; [by apply Inv_num_homeless|by destruct Hq|done|done].
  - eapply wpst_mono; [apply (wpst_move_osd_to_lru _ _ _ _ (set_o_requests (delete (r_tid r) (o_requests s)) s) _ Hc1);
      [apply lookup_insert_eq|done..]|].
    intros _ c' (? & ? & ? & ->). split_and!; [done|by etransitivity|done|done].
Qed.

Lemma wpst_link_request φ nr X p r o s c :
  Inv φ nr X c → X p → c_reqs c !! p = Some r → r_osd r = None → r_tid r ≠ 0 → nr !! r_tid r ≠ Some p →
  c_sessions c !! o = Some s →
  wpst (link_request o p) c (λ _ c', Inv φ nr X c' ∧ quiet c c' ∧ lists_stay c c'
    ∧ c_reqs c' = <[p := set_r_osd (Some o) r]> (c_reqs c)).
Proof.
  intros H Hx Hp Ho Ht Hnr Hs. unfold link_request. apply wpst_bind. eapply wpst_get_req; [exact Hp|]. apply wpst_bind.
  set (Q := λ c', Inv φ nr X c' ∧ quiet c c' ∧ lists_stay c c' ∧ c_reqs c' = c_reqs c ∧ c_sessions c' = c_sessions c
                  ∧ o ∉ c_osd_lru c').
  eapply (wpst_mono _ _ (λ _, Q)).
  { unfold osd_homeless. destruct (Z.eqb_spec o CEPH_HOMELESS_OSD) as [->|Hne]; apply wpst_modify.
    - split_and!; [by apply Inv_num_homeless|done..|].
      by intros []%(ss_idle _ _ _ _ _ (iv_sess _ _ _ _ _ H)).
    - split_and!; [by apply Inv_remove_lru|done|done..|]. by intros []%list_elem_of_filter. }
  intros _ c0 (H0 & Hq & Hl & Er & Es & Hlru). apply wpst_bind. eapply wpst_get_session; [by rewrite Es|].
  apply wpst_bind, wpst_lift. assert (Hk : o_requests s !! r_tid r = None).
  { destruct (o_requests s !! r_tid r) as [q|] eqn:Hk; [|done].
    apply (rq_tree _ _ _ _ _ _ _ _ (iv_reqs _ _ _ _ _ H) o (o_requests s)) in Hk as (r' & Hr' & Ho' & Ht');
      [|apply trees_of_lookup; eauto].
    assert (q = p) as ->; [|congruence].
    apply (rq_uniq _ _ _ _ _ _ _ _ (iv_reqs _ _ _ _ _ H) q p r' r); congruence. }
  unfold rb_insert, rb_try_insert. rewrite Hk. cbn [deref wp]. apply wpst_bind, wpst_modify.
  eapply wpst_upd_req; [client_simpl; by rewrite Er|]. client_simpl. rewrite Er, Es.
  set (c1 := set_c_reqs _ _).
  assert (c1 = set_c_reqs (<[p := set_r_osd (Some o) r]> (c_reqs c0)) (set_c_sessions (<[o := set_o_requests (<[r_tid r := p]> (o_requests s)) s]> (c_sessions c0)) c0)) as ->
    by (subst c1; by rewrite Er, Es).
  split_and!; [|etransitivity; [exact Hq|apply quiet_move; congruence]|done|by rewrite <- Er].
  eapply Inv_move; try done; [congruence..| |by right]. rewrite Er, Es.
  eapply (match_link r_osd r_tid _ _ p r (set_r_osd (Some o) r)); try done; [by eapply rq_tree, iv_reqs|].
  apply trees_of_lookup. eauto.
Qed.
End safe.
