(* ===== verification/OsdRequests.v ===== *)
(** * The invariant under sending, completing and submitting

    A request that is sent, finished or checked for its pool, a session that is opened, and a
    submission from its target to its place. *)
From S2P Require Import Prelude Hash Crush Mapper Choose DoRule Workspace OsdMap Placement.
From S2P Require Import CrushLoc OsdTarget Decode OsdMapWire OsdBackoff State OsdData OsdClient.
From S2P Require Import OsdInv OsdSafe.

Section requests.
Context (opts : ceph_options) (Henv : ∀ m n, map_ok (co_fuel opts) m → env_ok m (co_env opts m n)).
Implicit Types (c : client) (p : rptr) (r : osd_request) (o : Z) (s : osd_session) (X : rptr → Prop).
Implicit Types (m : ceph_osdmap) (t : osd_target).
Local Abbreviation fuel := (co_fuel opts).
Local Abbreviation Inv := (OsdInv.Inv opts).

(** ** Sending *)

Lemma flagged_lor f e b : Z.land e b = 0 → flagged (Z.lor f e) b = flagged f b.
Proof. intros H. unfold flagged. by rewrite Z.land_lor_distr_l, H, Z.lor_0_r. Qed.

(** Flags that do not matter for the target. *)
Lemma computed_flags m eb t e :
  Z.land e CEPH_OSD_FLAG_READ = 0 → Z.land e CEPH_OSD_FLAG_WRITE = 0 → Z.land e CEPH_OSD_FLAG_IGNORE_OVERLAY = 0 →
  computed fuel m eb t → computed fuel m eb (set_t_paused false (set_t_flags (Z.lor (t_flags t) e) t)).
Proof.
  intros Hr Hw Hi [H1 H2 H3 H4 _]. set (t' := set_t_paused _ _).
  assert (Htp : ∀ pi, target_pool pi t' = target_pool pi t).
  { intros pi. unfold target_pool, tier_pool. subst t'. cbn. by rewrite !flagged_lor. }
  split; try done.
  - unfold routed in *. cbn. destruct (ceph_pg_pool_by_id _ _) as [pi0|]; [|done]. rewrite Htp. exact H2.
  - intros pi0 Hpi. rewrite Htp. by apply H3.
Qed.

(** A request before and after it went out. *)
Record resent (r r' : osd_request) : Prop := {
  re_place : same_place r r';
  re_wanted : t_base_oloc (r_t r') = t_base_oloc (r_t r);
  re_mapping : mapping (r_t r') = mapping (r_t r);
  re_computed m eb : computed fuel m eb (r_t r) → computed fuel m eb (r_t r');
  re_ok m : target_ok m (r_t r) → target_ok m (r_t r');
  re_bound : r_map_dne_bound r' = r_map_dne_bound r;
  re_epoch : t_epoch (r_t r') = t_epoch (r_t r) }.

Lemma resent_refl r : 0 <= r_attempts r → resent r r.
Proof. intros H. split; try done. Qed.

Definition send_flags r : Z :=
  let flags := Z.lor (t_flags (r_t r)) CEPH_OSD_FLAG_KNOWN_REDIR in
  if nonzero (r_attempts r) then Z.lor flags CEPH_OSD_FLAG_RETRY else flags.

Lemma mark_sent_resent incarnation now r :
  0 <= r_attempts r → resent r (mark_sent incarnation now (set_t_flags (send_flags r) (r_t r)) r).
Proof.
  intros Ha. assert (∃ e, send_flags r = Z.lor (t_flags (r_t r)) e ∧ Z.land e CEPH_OSD_FLAG_READ = 0 ∧
    Z.land e CEPH_OSD_FLAG_WRITE = 0 ∧ Z.land e CEPH_OSD_FLAG_IGNORE_OVERLAY = 0) as (e & -> & He).
  { unfold send_flags. destruct (nonzero _); rewrite <- ?Z.lor_assoc; eexists; (split; [reflexivity|done]). }
  split; try done.
  - split; try done. cbn. lia.
  - intros m eb. destruct He as (? & ? & ?). by apply computed_flags.
  - intros m [[] ? ? ?]. split; try done.
Qed.

Lemma Inv_revoke φ nr X p c :
  Inv φ nr X c → X p →
  Inv φ nr X (set_c_sessions ((λ s, set_o_con_queue (delete p (o_con_queue s)) s) <$> c_sessions c) c).
Proof.
  intros [H1 H2 H3 [S1 S2 S3 S4 S5 S6 S7] H5 H6 H7 H8] Hx. split; client_simpl; try done.
  - unfold trees_of. rewrite <- map_fmap_compose. by erewrite (map_fmap_ext _ o_requests) by done.
  - split; try done.
    + rewrite lookup_fmap. by apply fmap_is_Some.
    + intros o. rewrite lookup_fmap, fmap_is_Some. apply S2.
    + intros o s (s' & <- & Hs)%lookup_fmap_Some. exact (S3 o s' Hs).
    + intros o s (s' & <- & Hs)%lookup_fmap_Some. exact (S4 o s' Hs).
    + intros o Ho. destruct (S6 o Ho) as (? & s & Hs & Hr). split; [done|]. eexists. rewrite lookup_fmap, Hs. done.
    + intros o s (s' & <- & Hs)%lookup_fmap_Some. exact (S7 o s' Hs).
  - intros q r Hq Hl Hn. apply (placed_frame opts φ nr nr c); [by apply H7|try done..]. client_simpl.
    intros o s _ Hs. eexists. rewrite lookup_fmap, Hs. split; [done|].
    intros [?|(msg & Hm & ?)]; [by left|]. right. exists msg. split; [|done]. cbn. rewrite lookup_delete_ne; [done|].
    by intros ->.
Qed.

Lemma quiet_revoke p c :
  quiet c (set_c_sessions ((λ s, set_o_con_queue (delete p (o_con_queue s)) s) <$> c_sessions c) c).
Proof.
  split; try done; client_simpl.
  - intros o s Hs. eexists. by rewrite lookup_fmap, Hs.
  - intros o Ho. by rewrite lookup_fmap, Ho.
Qed.

Lemma wpst_send_request φ nr X p r o s c :
  Inv φ nr X c → X p → c_reqs c !! p = Some r → r_osd r = Some o → o ≠ CEPH_HOMELESS_OSD → c_sessions c !! o = Some s →
  c_map_checks c !! r_tid r = None →
  wpst (send_request p) c (λ _ c', Inv φ nr X c' ∧ quiet c c' ∧ lists_stay c c' ∧
    ∃ r' s', c_reqs c' = <[p := r']> (c_reqs c) ∧ resent r r' ∧ c_sessions c' !! o = Some s' ∧ held_or_sent s' p r').
Proof.
  intros H Hx Hp Ho Hne Hs Hmc. destruct (rq_sent _ _ _ _ _ _ _ _ (iv_reqs _ _ _ _ _ H) p r Hp) as [Ha _].
  unfold send_request. apply wpst_bind. eapply wpst_get_req; [done|].
  rewrite Ho. apply wpst_bind. eapply wpst_deref; [done|]. apply wpst_bind. eapply wpst_get_session; [done|].
  destruct (should_plug_request _ _) eqn:Hplug.
  { apply wpst_ret. split_and!; [done..|]. exists r, s. split_and!; [by rewrite insert_id|by apply resent_refl|done|by left]. }
  apply wpst_bind. set (Q := λ c1, Inv φ nr X c1 ∧ quiet c c1 ∧ lists_stay c c1 ∧ c_reqs c1 = c_reqs c
    ∧ ∃ s1, c_sessions c1 !! o = Some s1).
  eapply (wpst_mono _ _ (λ _, Q)).
  { apply wpst_when; intros _; [apply wpst_modify|]; unfold Q; [|split_and!; [done..|eauto]].
    split_and!; [by apply Inv_revoke|apply quiet_revoke|done|done|]. client_simpl. eexists. by rewrite lookup_fmap, Hs. }
  intros _ c1 (H1 & Hq & Hl & Er & s1 & Hs1). apply wpst_bind, wpst_get. fold (send_flags r).
  change (if nonzero (r_attempts r) then _ else _) with (send_flags r). set (t := set_t_flags _ _).
  pose proof (mark_sent_resent (o_incarnation s) (c_jiffies c1) r Ha) as Hre. fold t in Hre. set (r' := mark_sent _ _ t r) in *.
  apply wpst_bind. eapply wpst_upd_req; [by rewrite Er|]. fold r'. unfold ceph_con_send. apply wpst_bind, wpst_lift.
  unfold osd_homeless. rewrite (proj2 (Z.eqb_neq _ _) Hne). cbn [negb require wp].
  set (c2 := set_c_reqs (<[p := r']> (c_reqs c1)) c1). assert (H2 : Inv φ nr X c2).
  { eapply Inv_update; [done|done|by rewrite Er|by destruct Hre| |].
    - intros Hlive. apply (re_ok _ _ Hre). eapply iv_target; [exact H1|by rewrite Er|done].
    - left. destruct Hl as [-> _]. split; [done|]. cbn. lia. }
  eapply wpst_upd_session; [exact Hs1|]. split_and!.
  - eapply Inv_session; [exact H2|exact Hs1|done|done|exact (ss_backoffs _ _ _ _ _ (iv_sess _ _ _ _ _ H2) o s1 Hs1)|done|].
    intros q r0 Hq0 Hqo Hlq Hn [?|(msg & Hm & ?)]; [by left|]. right. exists msg. split; [|done]. cbn.
    rewrite lookup_insert_ne; [done|]. by intros ->.
  - etransitivity; [exact Hq|]. by destruct (quiet_put_session o s1 (set_o_con_queue (<[p := OsdMessage (r_tid r) (r_attempts r) t]> (o_con_queue s1)) s1) c1 Hs1).
  - exact Hl.
  - eexists r', _. unfold c2. client_simpl. rewrite Er, lookup_insert_eq. split_and!; [done..|]. right.
    eexists. cbn. rewrite lookup_insert_eq. split_and!; [done..|]. unfold r'. cbn. lia.
Qed.

(** ** Finishing *)

(** A request on none of the lists. *)
Definition free_of (nr : gmap Z rptr) c p r : Prop :=
  nr !! r_tid r ≠ Some p ∧ c_map_checks c !! r_tid r ≠ Some p ∧ p ∉ c_promoting c.

Lemma not_finished φ nr X p r c : Inv φ nr X c → c_reqs c !! p = Some r → live r → p ∉ finished c.
Proof. intros H Hp Hl (r' & Hr' & Hn)%(dn_done _ _ _ (iv_done _ _ _ _ _ H)). by simplify_eq. Qed.

Lemma reqs_ok_end T M nr mc pr last next X p r e :
  reqs_ok T M nr mc pr last next X → M !! p = Some r → X p →
  nr !! r_tid r ≠ Some p → mc !! r_tid r ≠ Some p → p ∉ pr →
  reqs_ok T (<[p := set_r_end_latency e r]> M) nr mc pr last next X.
Proof.
  intros [Ht Hh Hnr Hmc Hpr Htid Hu Hn Hpl Hs] Hp Hx Hnp Hmp Hpp. split.
  - by eapply match_update.
  - intros q r0 o [[<- <-]|[Hne Hq]]%lookup_insert_Some Hqo; [|by apply Hh].
    destruct (Hh p r o Hp Hqo) as (? & ? & _). auto.
  - intros tid q Hq. destruct (Hnr tid q Hq) as (? & ? & r0 & Hr0 & Ho & Hti & Hl). split_and!; [done..|].
    exists r0. rewrite lookup_insert_ne; [done|]. intros ->. by simplify_eq.
  - intros tid q Hq. destruct (Hmc tid q Hq) as (? & r0 & Hr0 & Hti & Hl & Hat & Hb). split; [done|].
    exists r0. rewrite lookup_insert_ne; [done|]. intros ->. by simplify_eq.
  - intros q Hq. destruct (Hpr q Hq) as (r0 & Hr0 & Ho & Hti & Hl).
    exists r0. rewrite lookup_insert_ne; [done|]. by intros ->.
  - intros q r0 [[<- <-]|[Hne Hq]]%lookup_insert_Some; [exact (Htid p r Hp)|by eapply Htid].
  - intros q q' r0 r1 [[<- <-]|[Hne Hq]]%lookup_insert_Some [[<- <-]|[Hne' Hq']]%lookup_insert_Some; cbn.
    + done. + by apply Hu. + by apply Hu. + by apply Hu.
  - intros q r0 [[<- <-]|[Hne Hq]]%lookup_insert_Some; by eapply Hn.
  - intros q r0 [[<- <-]|[Hne Hq]]%lookup_insert_Some; [exact (Hpl p r Hp)|by eapply Hpl].
  - intros q r0 [[<- <-]|[Hne Hq]]%lookup_insert_Some; [exact (Hs p r Hp)|by eapply Hs].
Qed.

Lemma Inv_end φ nr X p r j c :
  Inv φ nr X c → X p → c_reqs c !! p = Some r → free_of nr c p r →
  Inv φ nr X (set_c_reqs (<[p := set_r_end_latency (Some j) r]> (c_reqs c)) c).
Proof.
  intros [H1 H2 [Ho Hd Ha] H4 H5 H6 H7 H8] Hx Hp (Hn1 & Hn2 & Hn3). split; client_simpl; try done.
  - by apply reqs_ok_end.
  - split; [done| |].
    + intros q Hq. destruct (Hd q Hq) as (r0 & Hr0 & Hl). destruct (decide (q = p)) as [->|].
      * eexists. rewrite lookup_insert_eq. done.
      * exists r0. by rewrite lookup_insert_ne.
    + intros q r0 [[<- <-]|[Hne Hq]]%lookup_insert_Some; [done|by eapply Ha].
  - intros q r0 [[<- <-]|[Hne Hq]]%lookup_insert_Some; [done|by eapply H6].
  - intros q r0 [[<- <-]|[Hne Hq]]%lookup_insert_Some Hl Hn; [done|]. exact (H7 q r0 Hq Hl Hn).
Qed.

(** What is left of a finished request. *)
Definition ended r r' : Prop := ¬ live r' ∧ r_osd r' = None ∧ r_tid r' = r_tid r ∧ r_callback r' = r_callback r.

Lemma wpst_finish_request φ nr X p r c :
  Inv φ nr X c → X p → c_reqs c !! p = Some r → free_of nr c p r →
  wpst (finish_request opts p) c (λ _ c', Inv φ nr X c' ∧ quiet c c' ∧ lists_stay c c' ∧
    ∃ r', c_reqs c' = <[p := r']> (c_reqs c) ∧ ended r r').
Proof.
  intros H Hx Hp Hfree. unfold finish_request. apply wpst_bind, wpst_get, wpst_bind. eapply wpst_upd_req; [done|].
  set (r1 := set_r_end_latency _ r). set (c1 := set_c_reqs _ c).
  assert (H1 : Inv φ nr X c1) by by apply Inv_end.
  assert (Hp1 : c_reqs c1 !! p = Some r1) by apply lookup_insert_eq.
  apply wpst_bind. eapply wpst_get_req; [done|]. apply wpst_bind.
  eapply (wpst_mono _ _ (λ _ c', Inv φ nr X c' ∧ quiet c c' ∧ lists_stay c c' ∧ ∃ r', c_reqs c' = <[p := r']> (c_reqs c) ∧ ended r r')).
  { destruct (r_osd r1) as [o|] eqn:Ho.
    - eapply wpst_mono; [by eapply wpst_unlink_request|]. intros _ c' (? & Hq & ? & Er). split_and!; [done| |done|].
      + etransitivity; [|exact Hq]. done.
      + eexists. rewrite Er. unfold c1. client_simpl. rewrite insert_insert_eq. done.
    - apply wpst_ret. split_and!; [done..|]. eexists. done. }
  intros _ c2 (H2 & Hq & Hl & r' & Er & He). apply wpst_bind, wpst_modify, wpst_modify. split_and!; [| |done|eauto].
  - apply Inv_revoke; [|done]. by destruct H2.
  - etransitivity; [exact Hq|]. by destruct (quiet_revoke p c2).
Qed.

(** A request goes to the list of those to complete, or completes. *)
Lemma Inv_put_done φ nr X X' p r r' c c' :
  Inv φ nr X' c → (∀ q, X' q → q = p ∨ X q) → X' p → c_reqs c !! p = Some r → ¬ live r → r_osd r = None → p ∉ finished c →
  finished c' ≡ₚ p :: finished c →
  c_reqs c' = <[p := r']> (c_reqs c) → (r' = r ∨ r' = set_r_completion true r) →
  c_osdmap c' = c_osdmap c → c_epoch_barrier c' = c_epoch_barrier c → c_sessions c' = c_sessions c →
  c_osd_lru c' = c_osd_lru c → c_map_checks c' = c_map_checks c → c_promoting c' = c_promoting c →
  c_last_tid c' = c_last_tid c → c_next c' = c_next c → c_linger_requests c' = c_linger_requests c →
  c_linger_map_checks c' = c_linger_map_checks c → c_notify_wq c' = c_notify_wq c → c_stale c' = c_stale c →
  Inv φ nr X c'.
Proof.
  intros H HX Hxp Hp Hl Ho Hd Hf Er Hr' Em Ee Es Elru Emc Epr El En E1 E2 E3 E4.
  assert (H' : Inv φ nr X' (set_c_reqs (<[p := r']> (c_reqs c)) c)).
  { destruct (rq_sent _ _ _ _ _ _ _ _ (iv_reqs _ _ _ _ _ H) p r Hp) as [? _].
    destruct Hr' as [-> | ->]; (eapply Inv_update; [done..|by split|done|by right]). }
  assert (Hl' : ¬ live r' ∧ r_osd r' = None) by by destruct Hr' as [-> | ->].
  destruct H' as [H1 H2 [D1 D2 D3] H4 H5 H6 H7 H8]. client_simpl in *.
  eapply (Inv_put opts _ _ X X' p r'); [|done|by rewrite Er, lookup_insert_eq|tauto|].
  2:{ split; [tauto|]. rewrite Hf. left. }
  split; rewrite ?Em, ?Es, ?Er, ?Elru, ?Emc, ?Epr, ?El, ?En, ?E1, ?E2, ?E3, ?E4; try done.
  - split.
    + rewrite Hf. apply NoDup_cons. done.
    + intros q. rewrite Hf. intros [->|Hq]%elem_of_cons; [|by apply D2]. exists r'. rewrite lookup_insert_eq. tauto.
    + intros q r0 Hq Hlq Hn. rewrite Hf. right. by eapply D3.
  - intros q r0 Hq Hlq Hn. unfold placed_in. rewrite Em, Ee, Es, Emc, Epr. exact (H7 q r0 Hq Hlq Hn).
Qed.

(** An operation ends with a request, which is out of its hands. *)
Definition ends φ nr X p r (mc : gmap Z rptr) c c' : Prop :=
  Inv φ nr X c' ∧ quiet c c' ∧ c_map_checks c' = mc ∧ ∃ r', c_reqs c' = <[p := r']> (c_reqs c) ∧ ended r r'.

Lemma wpst_complete_request φ nr X X' p r err c :
  Inv φ nr X' c → (∀ q, X' q → q = p ∨ X q) → X' p → c_reqs c !! p = Some r → live r → free_of nr c p r →
  wpst (complete_request opts p err) c (λ _ c', ends φ nr X p r (c_map_checks c) c c').
Proof.
  intros H HX Hx Hp Hl Hfree. unfold complete_request. apply wpst_bind. eapply wpst_upd_req; [done|].
  set (r1 := set_r_result err r). set (c1 := set_c_reqs _ c).
  destruct (rq_sent _ _ _ _ _ _ _ _ (iv_reqs _ _ _ _ _ H) p r Hp) as [? _].
  assert (H1 : Inv φ nr X' c1).
  { eapply Inv_update; [done..|by split| |by right]. intros _. exact (iv_target _ _ _ _ _ H p r Hp Hl). }
  assert (Hp1 : c_reqs c1 !! p = Some r1) by apply lookup_insert_eq.
  apply wpst_bind. eapply wpst_mono; [by eapply wpst_finish_request|].
  intros _ c2 (H2 & Hq & (Emc & Ewq & El) & r2 & Er & He). apply wpst_modify. destruct He as (Hl2 & Ho2 & Ht2 & Hcb2).
  assert (Hp2 : c_reqs c2 !! p = Some r2) by by rewrite Er, lookup_insert_eq.
  assert (Hf : finished c2 = finished c) by (unfold finished; by rewrite Ewq, El).
  split_and!; [|by destruct Hq|done|].
  - eapply Inv_put_done; [exact H2|done|done|exact Hp2|done|done| | | |by left|done..].
    + rewrite Hf. by eapply not_finished.
    + unfold finished. client_simpl. rewrite <- app_assoc. cbn. by rewrite Permutation_middle.
    + client_simpl. by rewrite insert_id.
  - exists r2. client_simpl. rewrite Er. unfold c1. client_simpl. rewrite insert_insert_eq. done.
Qed.

Lemma wpst_complete_all φ nr X X' p r c :
  Inv φ nr X' c → (∀ q, X' q → q = p ∨ X q) → X' p → c_reqs c !! p = Some r → ¬ live r → r_osd r = None → p ∉ finished c →
  wpst (complete_all p) c (λ _ c', ends φ nr X p r (c_map_checks c) c c').
Proof.
  intros H HX Hx Hp Hl Ho Hd. unfold complete_all. apply wpst_bind. eapply wpst_upd_req; [done|]. apply wpst_modify.
  split_and!; [|done|done|by eexists].
  eapply Inv_put_done; [exact H|done|done|exact Hp|done|done|done| |done|by right|done..].
  unfold finished. client_simpl. cbn. by rewrite Permutation_middle.
Qed.

(** ** Map checks *)

Lemma Inv_uncheck φ nr X p r q c :
  Inv φ nr X c → X p → c_reqs c !! p = Some r → c_map_checks c !! r_tid r = Some q →
  Inv φ nr X (set_c_map_checks (delete (r_tid r) (c_map_checks c)) c).
Proof.
  intros [H1 H2 H3 H4 H5 H6 H7 H8] Hx Hp Hq. destruct H2. destruct (rq_mc _ q Hq) as (Ht & _).
  split; client_simpl; try done.
  - split; try done.
    + intros tid q' (? & Hmc & ?)%rq_nr. split_and!; [done| |done]. by rewrite lookup_delete_None; right.
    + intros tid q' [_ Hmc]%lookup_delete_Some. by apply rq_mc.
  - intros q' r' Hq' Hl Hn. apply (placed_frame opts φ nr nr c); [by apply H7|done..| |eauto]. client_simpl.
    rewrite lookup_delete_ne; [done|]. intros Heq. apply Hn. rewrite (rq_uniq q' p r' r Hq' Hp); congruence.
Qed.

Lemma wpst_cancel_map_check φ nr X p r c :
  Inv φ nr X c → X p → c_reqs c !! p = Some r →
  wpst (cancel_map_check p) c (λ _ c', Inv φ nr X c' ∧ quiet c c' ∧ c_reqs c' = c_reqs c ∧ finished c' = finished c
    ∧ c_map_checks c' = delete (r_tid r) (c_map_checks c)).
Proof.
  intros H Hx Hp. unfold cancel_map_check. apply wpst_bind. eapply wpst_get_req; [done|]. apply wpst_bind, wpst_get.
  destruct (c_map_checks c !! r_tid r) as [q|] eqn:Hq; cycle 1.
  { apply wpst_ret. split_and!; [done..|]. by rewrite delete_id. }
  apply wpst_bind, wpst_lift. unfold rb_erase. rewrite Hq. cbn [deref mbind outcome_bind wp]. apply wpst_modify.
  split_and!; [by eapply Inv_uncheck|done..].
Qed.

Lemma wpst_send_map_check φ nr X p r c :
  Inv φ nr X c → c_reqs c !! p = Some r → live r → r_tid r ≠ 0 → r_attempts r = 0 → r_map_dne_bound r = 0 →
  X p → nr !! r_tid r = None →
  wpst (send_map_check p) c (λ _ c', Inv φ nr X c' ∧ quiet c c' ∧ c_reqs c' = c_reqs c ∧ finished c' = finished c
    ∧ c_sessions c' = c_sessions c ∧ c_map_checks c' = <[r_tid r := p]> (c_map_checks c)).
Proof.
  intros H Hp Hl Ht Ha Hb Hx Hnr. unfold send_map_check. apply wpst_bind. eapply wpst_get_req; [done|].
  apply wpst_bind, wpst_get. destruct (c_map_checks c !! r_tid r) as [q|] eqn:Hq.
  { apply wpst_ret. split_and!; [done..|]. rewrite insert_id; [done|]. rewrite Hq. f_equal.
    destruct (rq_mc _ _ _ _ _ _ _ _ (iv_reqs _ _ _ _ _ H) _ q Hq) as (_ & rq & Hrq & Htq & _).
    apply (rq_uniq _ _ _ _ _ _ _ _ (iv_reqs _ _ _ _ _ H) q p rq r); congruence. }
  apply wpst_bind, wpst_lift. unfold rb_insert, rb_try_insert. rewrite Hq. cbn [deref wp].
  apply wpst_bind, wpst_modify, wpst_modify. split_and!; [|done..].
  destruct H as [H1 H2 H3 H4 H5 H6 H7 H8]. destruct H2. split; client_simpl; try done.
  - split; try done.
    + intros tid q Hnq. pose proof Hnq as (? & Hmc & ?)%rq_nr. split_and!; [done| |done]. rewrite lookup_insert_ne; [done|congruence].
    + intros tid q [[<- <-]|[_ Hmc]]%lookup_insert_Some; [|by apply rq_mc]. split; [done|]. by exists r.
  - intros q r' Hq' Hlq Hn. apply (placed_frame opts φ nr nr c); [by apply H7|done..| |eauto]. client_simpl.
    rewrite lookup_insert_ne; [done|]. intros Heq. apply Hn. rewrite (rq_uniq q p r' r Hq' Hp); congruence.
Qed.

Lemma linked_free φ nr X p r o c :
  Inv φ nr X c → c_reqs c !! p = Some r → r_osd r = Some o →
  r_tid r ≠ 0 ∧ nr !! r_tid r = None ∧ p ∉ c_promoting c.
Proof.
  intros H Hp Ho. destruct (rq_home _ _ _ _ _ _ _ _ (iv_reqs _ _ _ _ _ H) p r o Hp Ho) as (_ & Ht & _).
  split_and!; [done| |].
  - destruct (nr !! r_tid r) as [q|] eqn:Hq; [|done].
    destruct (rq_nr _ _ _ _ _ _ _ _ (iv_reqs _ _ _ _ _ H) _ q Hq) as (_ & _ & rq & Hrq & Hoq & Htq & _).
    rewrite (rq_uniq _ _ _ _ _ _ _ _ (iv_reqs _ _ _ _ _ H) q p rq r) in Hrq; congruence.
  - intros (r' & Hr' & _ & Ht' & _)%(rq_pr _ _ _ _ _ _ _ _ (iv_reqs _ _ _ _ _ H)). congruence.
Qed.

Lemma checked_self φ nr X p r c :
  Inv φ nr X c → c_reqs c !! p = Some r → ¬ (r_attempts r = 0 ∧ r_map_dne_bound r = 0) → c_map_checks c !! r_tid r = None.
Proof.
  intros H Hp Hn. destruct (c_map_checks c !! r_tid r) as [q|] eqn:Hq; [|done].
  destruct (rq_mc _ _ _ _ _ _ _ _ (iv_reqs _ _ _ _ _ H) _ q Hq) as (Ht & rq & Hrq & Htq & _ & Ha).
  rewrite (rq_uniq _ _ _ _ _ _ _ _ (iv_reqs _ _ _ _ _ H) q p rq r) in Hrq by congruence. simplify_eq.
Qed.

Lemma quiet_ends φ nr X p r mc c c1 c' :
  quiet c c1 → c_reqs c1 = c_reqs c → ends φ nr X p r mc c1 c' → ends φ nr X p r mc c c'.
Proof. intros Hq Er (? & ? & ? & r' & ? & ?). split_and!; [done|by etransitivity|done|]. exists r'. by rewrite <- Er. Qed.

Lemma wpst_abort_request φ nr X X' p r err c :
  Inv φ nr X' c → (∀ q, X' q → q = p ∨ X q) → X' p → c_reqs c !! p = Some r → live r →
  nr !! r_tid r ≠ Some p → p ∉ c_promoting c →
  wpst (abort_request opts p err) c (λ _ c', ends φ nr X p r (delete (r_tid r) (c_map_checks c)) c c').
Proof.
  intros H HX Hx Hp Hl Hnr Hpr. unfold abort_request. apply wpst_bind.
  eapply wpst_mono; [by eapply wpst_cancel_map_check|]. intros _ c1 (H1 & Hq & Er & Ef & Emc).
  eapply wpst_mono; [eapply wpst_complete_request; [done..| |done|]|].
  - by rewrite Er.
  - split_and!; [done|by rewrite Emc, lookup_delete_eq|]. by rewrite (qu_pr _ _ Hq).
  - intros [] c2 He. rewrite <- Emc. by eapply quiet_ends.
Qed.

Lemma wpst_cancel_request φ nr X X' p r c :
  Inv φ nr X' c → (∀ q, X' q → q = p ∨ X q) → X' p → c_reqs c !! p = Some r → live r →
  nr !! r_tid r ≠ Some p → p ∉ c_promoting c →
  wpst (cancel_request opts p) c (λ _ c', ends φ nr X p r (delete (r_tid r) (c_map_checks c)) c c').
Proof.
  intros H HX Hx Hp Hl Hnr Hpr. unfold cancel_request. apply wpst_bind.
  eapply wpst_mono; [by eapply wpst_cancel_map_check|]. intros _ c1 (H1 & Hq & Er & Ef & Emc).
  apply wpst_bind. eapply wpst_mono; [eapply (wpst_finish_request _ _ _ p r); [done..| |]|].
  - by rewrite Er.
  - split_and!; [done|by rewrite Emc, lookup_delete_eq|]. by rewrite (qu_pr _ _ Hq).
  - intros _ c2 (H2 & Hq2 & (Emc2 & Ewq & El) & r2 & Er2 & He). destruct He as (? & ? & ? & ?).
    assert (Hp2 : c_reqs c2 !! p = Some r2) by by rewrite Er2, lookup_insert_eq.
    eapply wpst_mono; [eapply (wpst_complete_all φ nr X X' p r2); try done|].
    + assert (finished c2 = finished c1) as -> by (unfold finished; by rewrite Ewq, El). rewrite Ef. by eapply not_finished.
    + intros _ c3 (? & Hq3 & Emc3 & r3 & Er3 & (? & ? & ? & ?)). split_and!; [done|by do 2 (etransitivity; [done|])|congruence|].
      exists r3. rewrite Er3, Er2, Er, insert_insert_eq. split; [done|]. split_and!; congruence.
Qed.

(** A request whose pool has gone is done, or stays. *)
Definition stays_or_done r r' : Prop :=
  r_tid r' = r_tid r ∧ (r_osd r' = None ∨ r_osd r' = r_osd r ∧ r_t r' = r_t r).

Lemma Inv_put_poolless φ nr X X' p r o c :
  Inv φ nr X' c → (∀ q, X' q → q = p ∨ X q) → c_reqs c !! p = Some r → live r → r_osd r = Some o →
  ¬ ph_pend φ o (r_tid r) → pool_of (c_osdmap c) (r_t r) = None →
  c_map_checks c !! r_tid r = Some p ∨ om_epoch (c_osdmap c) < r_map_dne_bound r → Inv φ nr X c.
Proof.
  intros H HX Hp Hl Ho Hpend Hpool Hc. eapply Inv_put; [exact H|done|exact Hp| |done]. intros _.
  destruct (linked_tree _ _ _ _ _ _ _ _ H Hp Ho) as (s & Hs & _). right; right. exists o, s. split_and!; [done..|].
  left. split; [done|]. unfold at_ok. by rewrite Hpool.
Qed.

Lemma wpst_check_bound φ nr X X' p r o c :
  Inv φ nr X' c → (∀ q, X' q → q = p ∨ X q) → X' p → c_reqs c !! p = Some r → live r → r_osd r = Some o →
  ¬ ph_pend φ o (r_tid r) → pool_of (c_osdmap c) (r_t r) = None → (r_attempts r ≠ 0 → r_map_dne_bound r ≠ 0) →
  wpst (if nonzero (r_map_dne_bound r) then
          st_when (om_epoch (c_osdmap c) >=? r_map_dne_bound r) (complete_request opts p (- ENOENT))
        else send_map_check p) c
    (λ _ c', Inv φ nr X c' ∧ quiet c c' ∧ ∃ r', c_reqs c' = <[p := r']> (c_reqs c) ∧ stays_or_done r r').
Proof.
  intros H HX Hx Hp Hl Ho Hpend Hpool Hatt. destruct (linked_free _ _ _ _ _ _ _ H Hp Ho) as (Ht & Hnr & Hpr).
  unfold nonzero at 1. destruct (Z.eqb_spec (r_map_dne_bound r) 0) as [Hb|Hb]; cbn [negb].
  - assert (Ha : r_attempts r = 0) by (destruct (decide (r_attempts r = 0)); tauto).
    eapply wpst_mono; [by eapply wpst_send_map_check|].
    intros _ c2 (H2 & Hq & Er & Ef & Es & Emc). assert (Hp2 : c_reqs c2 !! p = Some r) by by rewrite Er.
    split_and!; [|done|exists r; rewrite Er, insert_id by done; by split; [|split; [|right]]].
    eapply Inv_put_poolless; [exact H2|done|exact Hp2|done|done|done|by rewrite (qu_map _ _ Hq)|].
    left. rewrite Emc. apply lookup_insert_eq.
  - assert (Hmc : c_map_checks c !! r_tid r = None) by (eapply checked_self; [exact H|done|tauto]).
    apply wpst_when; intros Hge.
    + eapply wpst_mono; [eapply (wpst_complete_request _ _ X X' p r); try done|].
      * split_and!; [congruence|congruence|done].
      * intros _ c2 (? & Hq & _ & r2 & Er & _ & Ho2 & Ht2 & _). split_and!; [done..|]. exists r2. by split; [|split; [|left]].
    + split_and!; [|done|exists r; rewrite insert_id by done; by split; [|split; [|right]]].
      eapply Inv_put_poolless; [exact H|done..|]. right. rewrite Z.geb_leb in Hge. by apply Z.leb_gt in Hge.
Qed.

Lemma wpst_check_pool_dne φ nr X X' p r o c :
  Inv φ nr X' c → (∀ q, X' q → q = p ∨ X q) → X' p → c_reqs c !! p = Some r → live r → r_osd r = Some o →
  ¬ ph_pend φ o (r_tid r) → pool_of (c_osdmap c) (r_t r) = None → (r_attempts r ≠ 0 → 0 < om_epoch (c_osdmap c)) →
  wpst (check_pool_dne opts p) c (λ _ c', Inv φ nr X c' ∧ quiet c c' ∧ ∃ r', c_reqs c' = <[p := r']> (c_reqs c) ∧ stays_or_done r r').
Proof.
  intros H HX Hx Hp Hl Ho Hpend Hpool Hep. unfold check_pool_dne. apply wpst_bind, wpst_get, wpst_bind.
  eapply wpst_get_req; [done|]. apply wpst_bind.
  set (r1 := if nonzero (r_attempts r) then set_r_map_dne_bound (om_epoch (c_osdmap c)) r else r).
  set (c1 := set_c_reqs (<[p := r1]> (c_reqs c)) c).
  destruct (rq_sent _ _ _ _ _ _ _ _ (iv_reqs _ _ _ _ _ H) p r Hp) as [Ha _].
  assert (H1 : Inv φ nr X' c1).
  { eapply Inv_update; [done..| | |].
    - by unfold r1; destruct (nonzero _).
    - intros _. unfold r1. destruct (nonzero _); exact (iv_target _ _ _ _ _ H p r Hp Hl).
    - unfold r1, nonzero. destruct (Z.eqb_spec (r_attempts r) 0); cbn [negb]; [by right|]. left.
      split; [|by intros]. eapply checked_self; [done..|]. tauto. }
  assert (Hp1 : c_reqs c1 !! p = Some r1) by apply lookup_insert_eq. assert (Hq1 : quiet c c1) by done.
  eapply (wpst_mono _ _ (λ _ c', c' = c1)).
  { unfold r1 in *. destruct (nonzero (r_attempts r)) eqn:E; cbn [st_when].
    - eapply wpst_upd_req; [done|]. done.
    - apply wpst_ret. unfold c1, r1. rewrite insert_id by done. by destruct c. }
  intros _ ? ->. apply wpst_bind. eapply wpst_get_req; [done|].
  assert (Hr1 : live r1 ∧ r_osd r1 = Some o ∧ r_tid r1 = r_tid r ∧ r_t r1 = r_t r ∧ r_attempts r1 = r_attempts r)
    by (unfold r1; by destruct (nonzero _)). destruct Hr1 as (Hl1 & Ho1 & Ht1 & Et1 & Ea1).
  eapply wpst_mono; [apply (wpst_check_bound φ nr X X' p r1 o c1); try done; rewrite ?Ht1, ?Et1; try done|].
  - intros Hn. unfold r1, nonzero. rewrite Ea1 in Hn. destruct (Z.eqb_spec (r_attempts r) 0); [done|]. cbn. specialize (Hep n). lia.
  - intros _ c2 (? & Hq & r2 & Er & Ht2 & Ho2). split_and!; [done|by etransitivity|]. exists r2. split.
    + rewrite Er. unfold c1. client_simpl. apply insert_insert_eq.
    + unfold stays_or_done. rewrite Ht2, Ho, <- Ho1, Ht1, <- Et1. done.
Qed.
End requests.
