(* ===== verification/OsdSubmit.v ===== *)
(** * The invariant under submissions

    Sessions that are opened, and a request from its target to its place. *)
From S2P Require Import Prelude Hash Crush Mapper Choose DoRule Workspace OsdMap Placement.
From S2P Require Import CrushLoc OsdTarget Decode OsdMapWire OsdBackoff State OsdData OsdClient.
From S2P Require Import OsdInv OsdSafe OsdRequests.

Section submit.
Context (opts : ceph_options) (Henv : ∀ m n, map_ok (co_fuel opts) m → env_ok m (co_env opts m n)).
Implicit Types (c : client) (p : rptr) (r : osd_request) (o : Z) (s : osd_session) (X : rptr → Prop).
Implicit Types (m : ceph_osdmap) (t : osd_target).
Local Abbreviation fuel := (co_fuel opts).
Local Abbreviation Inv := (OsdInv.Inv opts).

(** ** Small steps *)

Lemma Inv_calls φ nr X n c : Inv φ nr X c → Inv φ nr X (set_c_calls n c).
Proof. by intros []. Qed.
Lemma Inv_emit φ nr X e c : (∀ p, e ≠ Complete_all p) → Inv φ nr X c → Inv φ nr X (set_c_log (e :: c_log c) c).
Proof. intros He []. by destruct e; try (split; done); destruct (He req). Qed.
Lemma Inv_next φ nr X n c : (c_next c <= n)%nat → Inv φ nr X c → Inv φ nr X (set_c_next n c).
Proof.
  intros Hn [H1 [] H3 H4 H5 H6 H7 H8]. split; try done. split; try done. client_simpl.
  intros p r Hp. specialize (rq_next p r Hp). lia.
Qed.

Lemma wpst_maybe_request_map φ nr X c :
  Inv φ nr X c →
  wpst maybe_request_map c (λ _ c', Inv φ nr X c' ∧ quiet c c' ∧ lists_stay c c' ∧ c_reqs c' = c_reqs c ∧ c_sessions c' = c_sessions c).
Proof. intros H. apply wpst_bind, wpst_get, wpst_modify. split_and!; [by apply Inv_emit|done..]. Qed.

Lemma wpst_calc_target_of t any c (Q : osd_target * calc_target_result → client → Prop) :
  client_map fuel (c_osdmap c) → target_ok (c_osdmap c) t →
  (∀ t' res, recalculated opts (c_osdmap c) (c_epoch_barrier c) t t' res → Q (t', res) (set_c_calls (S (c_calls c)) c)) →
  wpst (calc_target_of opts t any) c Q.
Proof.
  intros Hm Ht HQ. unfold calc_target_of. apply wpst_bind, wpst_get, wpst_bind, wpst_modify, wpst_lift.
  eapply wp_mono; [by eapply (calc_target_ok opts Henv)|]. intros [t' res] Hre. by apply HQ.
Qed.

(** ** Sessions *)

(** What an operation that may open sessions leaves as it is. *)
Record calm c c' : Prop := {
  ca_map : c_osdmap c' = c_osdmap c;
  ca_eb : c_epoch_barrier c' = c_epoch_barrier c;
  ca_abort : c_abort_err c' = c_abort_err c;
  ca_pr : c_promoting c' = c_promoting c;
  ca_sess : sessions_stay (c_sessions c) (c_sessions c') }.
#[export] Instance calm_po : PreOrder calm.
Proof.
  split; [intros c; by split|]. intros c1 c2 c3 [] []. split; try congruence. by eapply sessions_stay_trans.
Qed.
Lemma quiet_calm c c' : quiet c c' → calm c c'.
Proof. by intros []. Qed.

Lemma Inv_open φ nr X o s c :
  Inv φ nr X c → c_sessions c !! o = None → 0 <= o → at_addr (c_osdmap c) o s →
  o_requests s = ∅ → o_linger_requests s = ∅ → o_backoffs s = Backoffs ∅ ∅ →
  Inv φ nr X (set_c_sessions (<[o := s]> (c_sessions c)) c).
Proof.
  intros [H1 H2 H3 [S1 S2 S3 S4 S5 S6 S7] H5 H6 H7 H8] Hs Ho Ha Er El Eb.
  assert (Hne : ∀ o' x, c_sessions c !! o' = Some x → o' ≠ o) by congruence.
  split; client_simpl; try done.
  - rewrite trees_of_insert, Er. destruct H2. split; try done.
    + apply match_open; [done|unfold trees_of; by rewrite lookup_fmap, Hs|].
      intros p r Hp Hpo. by destruct (rq_home p r o Hp Hpo).
    + intros p r o' Hp Hpo. destruct (rq_home p r o' Hp Hpo) as (? & ? & ?). split_and!; [|done..].
      destruct (decide (o' = o)) as [->|]; [rewrite lookup_insert_eq; eauto|by rewrite lookup_insert_ne].
  - split; try done.
    + destruct S1 as [x Hx]. rewrite lookup_insert_ne; [eauto|]. by apply not_eq_sym, (Hne _ x).
    + intros o' [x [[<- <-]|[_ Hx]]%lookup_insert_Some]; [by right|by apply S2].
    + intros o' x [[<- <-]|[_ Hx]]%lookup_insert_Some; [|by eapply S3]. rewrite Eb. apply session_ok_empty.
    + intros o' x [[<- <-]|[_ Hx]]%lookup_insert_Some; [by left|by apply S4].
    + intros o' Ho'. destruct (S6 o' Ho') as (? & x & Hx & ?). split; [done|]. exists x.
      rewrite lookup_insert_ne; [done|]. by apply not_eq_sym, (Hne _ x).
    + intros o' x [[<- <-]|[_ Hx]]%lookup_insert_Some; [done|by eapply S7].
  - intros p r Hp Hl Hn. apply (placed_frame opts φ nr nr c); [by apply H7|done..|]. client_simpl.
    intros o' x _ Hx. exists x. rewrite lookup_insert_ne; [done|]. by apply not_eq_sym, (Hne _ x).
Qed.

Lemma wpst_lookup_create_osd φ nr X o wr c :
  Inv φ nr X c → o = CEPH_HOMELESS_OSD ∨ osd_up (c_osdmap c) o = true →
  wpst (lookup_create_osd o wr) c (λ b c', Inv φ nr X c' ∧ calm c c' ∧ lists_stay c c' ∧ c_reqs c' = c_reqs c
    ∧ c_last_tid c' = c_last_tid c ∧ if b : bool then is_Some (c_sessions c' !! o) else wr = false).
Proof.
  intros H Ho. unfold lookup_create_osd. apply wpst_bind, wpst_get.
  destruct (c_sessions c !! o) as [s|] eqn:Hs; [apply wpst_ret; split_and!; done|].
  destruct wr; cbn [negb]; [|by apply wpst_ret]. destruct Ho as [->|Ho].
  { destruct (ss_home _ _ _ _ _ (iv_sess _ _ _ _ _ H)). congruence. }
  pose proof (cm_arrays _ _ (iv_map _ _ _ _ _ H)) as Hwf.
  pose proof (osd_up_range _ Hwf o Ho) as Hr.
  destruct (lookup_Z_Some (om_osd_addr (c_osdmap c)) o) as [addr Haddr]; [by rewrite (wa_addr _ Hwf)|].
  unfold create_osd. apply wpst_bind, wpst_bind, wpst_get, wpst_bind, wpst_modify, wpst_ret.
  apply wpst_bind, wpst_get, wpst_bind, wpst_lift. client_simpl. unfold rb_insert, rb_try_insert. rewrite Hs.
  cbn [deref wp]. apply wpst_bind, wpst_modify. client_simpl. apply wpst_bind, wpst_lift.
  rewrite (aget_Some _ _ addr) by (done || lia). cbn [wp]. unfold ceph_con_open.
  apply wpst_bind, wpst_bind, wpst_modify. client_simpl. eapply wpst_upd_session; [client_simpl; apply lookup_insert_eq|].
  apply wpst_ret. client_simpl. rewrite insert_insert_eq. split_and!.
  - apply (Inv_open φ nr X o (open_con addr (osd_init (c_next c))) (set_c_log (Con_open o addr :: c_log c) (set_c_next (S (c_next c)) c))); try done; [|lia].
    apply (Inv_emit φ nr X _ (set_c_next (S (c_next c)) c)); [done|]. by apply Inv_next; [lia|].
  - split; try done. client_simpl. intros o' x Hx. exists x. rewrite lookup_insert_ne; [done|]. congruence.
  - done.
  - done.
  - done.
  - rewrite lookup_insert_eq. eauto.
Qed.

(** ** Tids *)

(** A request on no session and no list gets another tid, or none. *)
Lemma reqs_ok_tid T M nr mc pr last next X p r tid last' :
  reqs_ok T M nr mc pr last next X → M !! p = Some r → r_osd r = None → nr !! r_tid r ≠ Some p → mc !! r_tid r ≠ Some p →
  p ∉ pr → last <= last' → 0 <= tid <= last' → (tid = 0 ∧ r_attempts r ≠ 0 ∨ last < tid) →
  reqs_ok T (<[p := set_r_tid tid r]> M) nr mc pr last' next X.
Proof.
  intros [Ht Hh Hnr Hmc Hpr Htid Hu Hn Hpl Hs] Hp Ho Hnp Hmp Hpp Hlast Hrange Hfresh.
  assert (Hne : ∀ q r0, M !! q = Some r0 → r_tid r0 = tid → tid = 0).
  { intros q r0 Hq Heq. specialize (Htid q r0 Hq). lia. }
  split.
  - by eapply match_update.
  - intros q r0 o [[<- <-]|[_ Hq]]%lookup_insert_Some; [cbn; congruence|by apply Hh].
  - intros k q Hq. destruct (Hnr k q Hq) as (? & ? & r0 & Hr0 & Hoq & Hti & Hl). split_and!; [done..|].
    exists r0. rewrite lookup_insert_ne; [done|]. intros ->. simplify_eq.
  - intros k q Hq. destruct (Hmc k q Hq) as (? & r0 & Hr0 & Hti & Hl & Hat & Hb). split; [done|].
    exists r0. rewrite lookup_insert_ne; [done|]. intros ->. simplify_eq.
  - intros q Hq. destruct (Hpr q Hq) as (r0 & Hr0 & Hoq & Hti & Hl).
    exists r0. rewrite lookup_insert_ne; [done|]. by intros ->.
  - intros q r0 [[<- <-]|[_ Hq]]%lookup_insert_Some; [done|]. specialize (Htid q r0 Hq). lia.
  - intros q q' r0 r1 [[<- <-]|[Hq0 Hq]]%lookup_insert_Some [[<- <-]|[Hq0' Hq']]%lookup_insert_Some; cbn.
    + done. + intros Heq. by pose proof (Hne _ _ Hq' (eq_sym Heq)).
    + intros Heq. pose proof (Hne _ _ Hq Heq). congruence. + by apply Hu.
  - intros q r0 [[<- <-]|[_ Hq]]%lookup_insert_Some; by eapply Hn.
  - intros q r0 [[<- <-]|[_ Hq]]%lookup_insert_Some; [exact (Hpl p r Hp)|by eapply Hpl].
  - intros q r0 [[<- <-]|[_ Hq]]%lookup_insert_Some; [|by eapply Hs]. cbn. split; [by eapply Hs|].
    specialize (Htid p r Hp). destruct Hfresh as [[-> ?]|?]; [done|lia].
Qed.

Lemma Inv_tid φ nr X p r tid last' c :
  Inv φ nr X c → X p → c_reqs c !! p = Some r → r_osd r = None → free_of nr c p r →
  c_last_tid c <= last' → 0 <= tid <= last' → (tid = 0 ∧ r_attempts r ≠ 0 ∨ c_last_tid c < tid) →
  Inv φ nr X (set_c_reqs (<[p := set_r_tid tid r]> (c_reqs c)) (set_c_last_tid last' c)).
Proof.
  intros [H1 H2 H3 H4 H5 H6 H7 H8] Hx Hp Ho (Hn1 & Hn2 & Hn3) Hlast Hr Hf. split; client_simpl; try done.
  - by eapply reqs_ok_tid.
  - by eapply done_ok_update.
  - destruct H5 as (? & ? & ? & ?). split_and!; [done..|lia].
  - intros q r0 [[<- <-]|[Hne Hq]]%lookup_insert_Some; [exact (H6 p r Hp)|by eapply H6].
  - intros q r0 [[<- <-]|[Hne Hq]]%lookup_insert_Some Hl Hn; [done|]. exact (H7 q r0 Hq Hl Hn).
Qed.

(** ** A submission *)

Lemma stalled_paused m eb t b : stalled m eb t → stalled m eb (set_t_paused b t).
Proof. done. Qed.
Lemma computed_pause m eb t : computed fuel m eb t → stalled m eb t → computed fuel m eb (set_t_paused true t).
Proof. intros [] Hs. by split. Qed.

(** What [submit_check] finds. *)
Record checked (m : ceph_osdmap) (eb : Z) (o : Z) (r r' : osd_request) (err : Z) (need_send : bool) : Prop := {
  ch_req : r' = r ∨ r' = set_r_t (set_t_paused true (r_t r)) r ∧ stalled m eb (r_t r);
  ch_send : need_send = true → err = 0 ∧ o ≠ CEPH_HOMELESS_OSD;
  ch_held : need_send = false → err = 0 → o = CEPH_HOMELESS_OSD ∨ t_paused (r_t r') = true }.

Lemma wpst_submit_check φ nr X p r o c :
  Inv φ nr X c → X p → c_reqs c !! p = Some r → live r →
  wpst (submit_check opts p o) c (λ '(err, need_send) c', Inv φ nr X c' ∧ quiet c c' ∧ lists_stay c c' ∧ c_sessions c' = c_sessions c ∧
    ∃ r', c_reqs c' = <[p := r']> (c_reqs c) ∧ checked (c_osdmap c) (c_epoch_barrier c) o r r' err need_send).
Proof.
  intros H Hx Hp Hl. unfold submit_check. apply wpst_bind, wpst_get, wpst_bind. eapply wpst_get_req; [done|]. cbv zeta.
  set (Q := λ '(err, need_send) c', _).
  assert (Hpause : stalled (c_osdmap c) (c_epoch_barrier c) (r_t r) →
    wpst (_ ← (_ ← upd_req p (λ r, set_r_t (set_t_paused true (r_t r)) r); maybe_request_map); mret (0, false)) c Q).
  { intros Hst. apply wpst_bind, wpst_bind. eapply wpst_upd_req; [done|]. eapply wpst_mono; [eapply wpst_maybe_request_map|].
    - eapply Inv_update; [done..| | |by right].
      + split; try done. by apply (rq_sent _ _ _ _ _ _ _ _ (iv_reqs _ _ _ _ _ H) p r).
      + intros _. destruct (iv_target _ _ _ _ _ H p r Hp Hl) as [[] ? ? ?]. split; done.
    - intros _ c' (? & Hq & ? & Er & Es). apply wpst_ret. split_and!; [done|by destruct Hq|done|done|].
      eexists. split; [exact Er|]. split; [by right|done|by right]. }
  assert (Hsame : ∀ err need, (need = true → err = 0 ∧ o ≠ CEPH_HOMELESS_OSD) → (need = false → err = 0 → o = CEPH_HOMELESS_OSD) →
    Q (err, need) c).
  { intros err need H1 H2. split_and!; [done..|]. exists r. split; [by rewrite insert_id|]. split; [by left|done|auto]. }
  unfold nonzero at 1. destruct (Z.eqb_spec (c_abort_err c) 0); cbn [negb]; [|apply wpst_ret; by apply Hsame].
  destruct (Z.ltb_spec (om_epoch (c_osdmap c)) (c_epoch_barrier c)); [by apply Hpause; left|].
  destruct (_ && osdmap_flag c CEPH_OSDMAP_PAUSEWR) eqn:E1.
  { apply andb_true_iff in E1 as [E1 E2]. apply Hpause. right; right. auto. }
  destruct (_ && osdmap_flag c CEPH_OSDMAP_PAUSERD) eqn:E2.
  { apply andb_true_iff in E2 as [E2 E3]. apply Hpause. right; left. auto. }
  destruct (_ && _ && _) eqn:E3.
  { apply andb_true_iff in E3 as [[E3 _]%andb_true_iff E4%orb_true_iff]. destruct (co_abort_on_full opts).
    - apply wpst_ret. by apply Hsame.
    - apply Hpause. right; right. split; [done|]. unfold osdmap_flag in E4. tauto. }
  unfold osd_homeless. destruct (Z.eqb_spec o CEPH_HOMELESS_OSD) as [->|Hne]; cbn [negb]; [|apply wpst_ret; by apply Hsame].
  apply wpst_bind. eapply wpst_mono; [by eapply wpst_maybe_request_map|]. intros _ c' (? & Hq & ? & Er & Es).
  apply wpst_ret. split_and!; [done..|]. exists r. split; [by rewrite Er, insert_id|]. split; [by left|done|auto].
Qed.

Definition settled φ : Prop := ∀ o tid, ¬ ph_pend φ o tid.
Lemma settled_idle m : settled (idle m).
Proof. intros o tid []. Qed.

(** A linked request leaves an operation's hands. *)
Lemma Inv_put_at φ nr X X' p r o s c :
  Inv φ nr X' c → (∀ q, X' q → q = p ∨ X q) → c_reqs c !! p = Some r → live r → r_osd r = Some o →
  c_sessions c !! o = Some s → ¬ ph_pend φ o (r_tid r) →
  at_ok fuel (c_osdmap c) (c_epoch_barrier c) (c_map_checks c) o s p r → Inv φ nr X c.
Proof. intros H HX Hp Hl Ho Hs Hpend Hat. eapply Inv_put; [done..| |done]. intros _. right; right. eauto 10. Qed.

Lemma at_ok_some m eb mc o s p r :
  pool_of m (r_t r) ≠ None → o = t_osd (r_t r) → computed fuel m eb (r_t r) → mc !! r_tid r = None →
  (o = CEPH_HOMELESS_OSD ∨ t_paused (r_t r) = true ∨ held_or_sent s p r) → at_ok fuel m eb mc o s p r.
Proof. intros Hp. unfold at_ok. by destruct (pool_of _ _). Qed.

(** From the tid on: the target is calculated and its session open. *)
Definition submit_place p o (err : Z) (need_send : bool) (ct_res : calc_target_result) : C bool :=
  _ ← st_modify (λ c, set_c_last_tid (c_last_tid c + 1) c);
  c ← st_get;
  _ ← upd_req p (set_r_tid (c_last_tid c));
  _ ← link_request o p;
  _ ← (if need_send then send_request p else st_when (nonzero err) (complete_request opts p err));
  _ ← st_when ((err =? 0) && bool_decide (ct_res = CALC_TARGET_POOL_DNE)) (send_map_check p);
  mret true.

Lemma wpst_submit_place φ X X' p r s err need_send ct_res c :
  settled φ → Inv φ ∅ X' c → (∀ q, X' q → q = p ∨ X q) → X' p → c_reqs c !! p = Some r → live r → r_osd r = None →
  free_of ∅ c p r → c_sessions c !! t_osd (r_t r) = Some s → (r_tid r = 0) →
  (need_send = true → err = 0 ∧ t_osd (r_t r) ≠ CEPH_HOMELESS_OSD) →
  (need_send = false → err = 0 → t_osd (r_t r) = CEPH_HOMELESS_OSD ∨ t_paused (r_t r) = true) →
  (ct_res = CALC_TARGET_POOL_DNE ↔ pool_of (c_osdmap c) (r_t r) = None) →
  (ct_res ≠ CALC_TARGET_POOL_DNE → computed fuel (c_osdmap c) (c_epoch_barrier c) (r_t r)) →
  (ct_res = CALC_TARGET_POOL_DNE → t_osd (r_t r) = CEPH_HOMELESS_OSD ∧ r_attempts r = 0) →
  wpst (submit_place p (t_osd (r_t r)) err need_send ct_res) c (λ b c', b = true ∧ Inv φ ∅ X c').
Proof.
  intros Hset H HX Hx Hp Hl Ho Hfree Hs Ht0 Hsend Hheld Hdne Hcomp Hgone. unfold submit_place.
  apply wpst_bind, wpst_modify, wpst_bind, wpst_get, wpst_bind. eapply wpst_upd_req; [done|]. client_simpl.
  set (tid := c_last_tid c + 1). set (r1 := set_r_tid tid r).
  set (c1 := set_c_reqs (<[p := r1]> (c_reqs c)) (set_c_last_tid tid c)). change (set_c_reqs _ _) with c1.
  destruct (rq_tid _ _ _ _ _ _ _ _ (iv_reqs _ _ _ _ _ H) p r Hp) as [_ Hlast].
  assert (H1 : Inv φ ∅ X' c1) by (eapply Inv_tid; [done..| | |right]; lia).
  assert (Hp1 : c_reqs c1 !! p = Some r1) by apply lookup_insert_eq.
  assert (Hmc : c_map_checks c1 !! tid = None).
  { destruct (c_map_checks c1 !! tid) as [q|] eqn:Hq; [|done].
    destruct (rq_mc _ _ _ _ _ _ _ _ (iv_reqs _ _ _ _ _ H) _ q Hq) as (_ & rq & Hrq & Htq & _).
    pose proof (rq_tid _ _ _ _ _ _ _ _ (iv_reqs _ _ _ _ _ H) q rq Hrq). lia. }
  apply wpst_bind. eapply wpst_mono; [eapply (wpst_link_request opts φ ∅ X' p r1 (t_osd (r_t r)) s); try done|].
  { unfold r1. cbn. lia. }
  intros _ c2 (H2 & Hq & (Emc & _ & _) & Er). set (r2 := set_r_osd (Some (t_osd (r_t r))) r1) in *.
  assert (Hp2 : c_reqs c2 !! p = Some r2) by by rewrite Er, lookup_insert_eq.
  assert (Hmc2 : c_map_checks c2 !! r_tid r2 = None) by by rewrite Emc.
  destruct (linked_tree _ _ _ _ _ _ _ _ H2 Hp2 eq_refl) as (s2 & Hs2 & _). apply wpst_bind.
  destruct need_send.
  - destruct (Hsend eq_refl) as [-> Hne]. destruct (decide (ct_res = CALC_TARGET_POOL_DNE)) as [Hd|Hd]; [by destruct (Hgone Hd)|].
    eapply wpst_mono; [by eapply (wpst_send_request opts φ ∅ X' p r2)|].
    intros _ c3 (H3 & Hq3 & (Emc3 & _) & r3 & s3 & Er3 & Hre & Hs3 & Hh). rewrite (bool_decide_eq_false_2 _ Hd).
    cbn [Z.eqb andb st_when]. apply wpst_bind, wpst_ret, wpst_ret. split; [done|].
    pose proof Hre as [[] Hw3 Hm3 Hc3 _ _ _].
    eapply (Inv_put_at φ ∅ X X' p r3 _ s3); [done..|by rewrite Er3, lookup_insert_eq| | |done|apply Hset|].
    { unfold live. by rewrite sp_end. } { by rewrite sp_osd. }
    assert (Hpo : pool_of (c_osdmap c) (r_t r) ≠ None) by by rewrite <- Hdne.
    apply at_ok_some; rewrite ?sp_tid, ?Emc3, ?(qu_map _ _ Hq3), ?(qu_map _ _ Hq), ?(qu_eb _ _ Hq3), ?(qu_eb _ _ Hq);
      [|by injection Hm3|by apply Hc3, Hcomp|done|auto].
    unfold pool_of, pool_key in *. by rewrite Hw3.
  - unfold nonzero. destruct (Z.eqb_spec err 0) as [->|Herr]; cbn [negb andb st_when].
    + apply wpst_ret, wpst_bind. apply wpst_when; intros Hd.
      * apply bool_decide_eq_true in Hd. destruct (Hgone Hd) as [_ Ha].
        eapply wpst_mono; [eapply (wpst_send_map_check opts φ ∅ X' p r2); try done|].
        -- unfold r2, r1. cbn. lia.
        -- by apply (rq_sent _ _ _ _ _ _ _ _ (iv_reqs _ _ _ _ _ H) p r).
        -- intros _ c3 (H3 & Hq3 & Er3 & _ & Es3 & Emc3). apply wpst_ret. split; [done|].
           eapply (Inv_put_at φ ∅ X X' p r2 _ s2); [done..|by rewrite Er3|done|done|by rewrite Es3|apply Hset|].
           unfold at_ok. rewrite (qu_map _ _ Hq3), (qu_map _ _ Hq). change (c_osdmap c1) with (c_osdmap c).
           rewrite (proj1 Hdne Hd : pool_of _ (r_t r2) = None). left.
           by rewrite Emc3, lookup_insert_eq.
      * apply bool_decide_eq_false in Hd. apply wpst_ret. split; [done|].
        eapply (Inv_put_at φ ∅ X X' p r2 _ s2); [done..|apply Hset|].
        assert (Hpo : pool_of (c_osdmap c) (r_t r) ≠ None) by by rewrite <- Hdne.
        apply at_ok_some; rewrite ?(qu_map _ _ Hq), ?(qu_eb _ _ Hq); [exact Hpo|done|by apply Hcomp|done|].
        destruct (Hheld eq_refl eq_refl); auto.
    + eapply wpst_mono; [eapply (wpst_complete_request opts φ ∅ X X' p r2); try done|].
      * split_and!; [done|by rewrite Hmc2|]. rewrite (qu_pr _ _ Hq). by destruct Hfree as (_ & _ & ?).
      * intros _ c3 (H3 & _). by apply wpst_bind, wpst_ret, wpst_ret.
Qed.

(** A submission with the lock for reading that needs the one for writing has changed the target at most. *)
Lemma wpst_submit_request_ φ X X' p r wrlocked c :
  settled φ → Inv φ ∅ X' c → (∀ q, X' q → q = p ∨ X q) → X' p → c_reqs c !! p = Some r → live r → r_osd r = None →
  r_tid r = 0 → p ∉ c_promoting c →
  (wrlocked = true → pool_of (c_osdmap c) (r_t r) = None → r_attempts r = 0) →
  wpst (submit_request_ opts p wrlocked) c (λ b c',
    if b then Inv φ ∅ X c'
    else wrlocked = false ∧ Inv φ ∅ X' c' ∧ c_promoting c' = c_promoting c ∧ ∃ t, c_reqs c' = <[p := set_r_t t r]> (c_reqs c)).
Proof.
  intros Hset H HX Hx Hp Hl Ho Ht Hpr Hwr. pose proof (iv_map _ _ _ _ _ H) as Hm. pose proof (iv_target _ _ _ _ _ H p r Hp Hl) as Hto.
  destruct (rq_sent _ _ _ _ _ _ _ _ (iv_reqs _ _ _ _ _ H) p r Hp) as [Ha _].
  unfold submit_request_. apply wpst_bind. eapply wpst_get_req; [done|]. apply wpst_bind.
  apply wpst_calc_target_of; [done..|]. intros t' res [Hok Hw Hdne Hgone Hcomp _]. apply wpst_bind.
  eapply wpst_upd_req; [done|]. client_simpl. set (r1 := set_r_t t' r).
  set (c1 := set_c_reqs (<[p := r1]> (c_reqs c)) (set_c_calls (S (c_calls c)) c)). change (set_c_reqs _ _) with c1.
  assert (H1 : Inv φ ∅ X' c1).
  { eapply (Inv_update opts φ ∅ X' p r r1 (set_c_calls _ c)); [by apply Inv_calls|done..|by split| |by right]. by intros _. }
  assert (Hp1 : c_reqs c1 !! p = Some r1) by apply lookup_insert_eq.
  destruct (bool_decide (res = CALC_TARGET_POOL_DNE) && negb wrlocked) eqn:Eb.
  { apply andb_true_iff in Eb as [_ Hwf%negb_true_iff]. apply wpst_ret. split_and!; [done..|]. by exists t'. }
  apply wpst_bind. eapply wpst_mono; [eapply (wpst_lookup_create_osd φ ∅ X' (t_osd t') wrlocked); [exact H1|]|].
  { destruct (decide (res = CALC_TARGET_POOL_DNE)) as [Hd|Hd]; [left; by apply Hgone|by apply (cp_up _ _ _ _ (Hcomp Hd))]. }
  intros b c2 (H2 & Hca & (Emc & Ewq & El) & Er & Elast & Hb). destruct b; cbn [negb].
  2:{ apply wpst_ret. split_and!; [done|done|by destruct Hca|]. exists t'. by rewrite Er. }
  assert (Hp2 : c_reqs c2 !! p = Some r1) by by rewrite Er.
  apply wpst_bind. eapply wpst_mono; [by eapply (wpst_submit_check φ ∅ X' p r1)|].
  intros [err need_send] c3 (H3 & Hq3 & (Emc3 & _) & Es3 & r3 & Er3 & [Hreq Hsend Hheld]).
  assert (Hp3 : c_reqs c3 !! p = Some r3) by by rewrite Er3, lookup_insert_eq.
  assert (Em : c_osdmap c3 = c_osdmap c) by by rewrite (qu_map _ _ Hq3), (ca_map _ _ Hca).
  assert (Ee : c_epoch_barrier c3 = c_epoch_barrier c) by by rewrite (qu_eb _ _ Hq3), (ca_eb _ _ Hca).
  rewrite (ca_map _ _ Hca), (ca_eb _ _ Hca) in Hreq. change (c_osdmap c1) with (c_osdmap c) in Hreq.
  change (c_epoch_barrier c1) with (c_epoch_barrier c) in Hreq.
  assert (H3r : live r3 ∧ r_osd r3 = None ∧ r_tid r3 = 0 ∧ r_attempts r3 = r_attempts r ∧ t_osd (r_t r3) = t_osd t'
    ∧ pool_of (c_osdmap c) (r_t r3) = pool_of (c_osdmap c) (r_t r)
    ∧ (res ≠ CALC_TARGET_POOL_DNE → computed fuel (c_osdmap c) (c_epoch_barrier c) (r_t r3))).
  { assert (Hpo : pool_of (c_osdmap c) t' = pool_of (c_osdmap c) (r_t r)) by by apply pool_of_wanted.
    destruct Hreq as [-> |[-> Hst]]; split_and!; try done.
    intros Hd. by apply computed_pause; [apply Hcomp|]. }
  destruct H3r as (Hl3 & Ho3 & Ht3 & Ha3 & Eo3 & Epo & Hc3). rewrite <- Eo3 in *. destruct Hb as [s2 Hs2].
  eapply wpst_mono; [eapply (wpst_submit_place φ X X' p r3 s2 err need_send res c3); try done|].
  - split_and!; [done| |].
    + rewrite Emc3, Emc. intros Hq. destruct (rq_mc _ _ _ _ _ _ _ _ (iv_reqs _ _ _ _ _ H) _ p Hq) as [Hn _]. by rewrite Ht3 in Hn.
    + rewrite (qu_pr _ _ Hq3), (ca_pr _ _ Hca). done.
  - by rewrite Es3.
  - by rewrite Em, Epo.
  - by rewrite Em, Ee.
  - intros Hd. split; [by apply Hgone|]. rewrite Ha3. apply Hwr; [|by apply Hdne].
    rewrite (bool_decide_eq_true_2 _ Hd) in Eb. by destruct wrlocked.
  - by intros b c4 [-> H4].
Qed.

(** ** Waiting for the lock *)

Lemma Inv_promote φ nr X X' p r c :
  Inv φ nr X' c → (∀ q, X' q → q = p ∨ X q) → c_reqs c !! p = Some r → live r → r_osd r = None → r_tid r = 0 →
  Inv φ nr X (set_c_promoting (c_promoting c ++ [p]) c).
Proof.
  intros H HX Hp Hl Ho Ht. eapply (Inv_put opts _ _ X X' p r); [|done|done| |done].
  - destruct H as [H1 [] H3 H4 H5 H6 H7 H8]. split; client_simpl; try done.
    + split; try done. intros q [Hq| ->%list_elem_of_singleton]%elem_of_app; eauto.
    + intros q r' Hq Hlq Hn. apply (placed_frame opts φ nr nr c); [by apply H7|done..| |done|done|eauto].
      client_simpl. intros Hin. apply elem_of_app. by left.
  - intros _. left. client_simpl. apply elem_of_app. right. by apply list_elem_of_singleton.
Qed.

Lemma Inv_unpromote φ nr X p c :
  Inv φ nr X c → Inv φ nr (λ q, q = p ∨ X q) (set_c_promoting (filter (λ x, x ≠ p) (c_promoting c)) c).
Proof.
  intros [H1 [] H3 H4 H5 H6 H7 H8]%(Inv_take opts _ _ _ p). split; client_simpl; try done.
  - split; try done. intros q [_ Hq]%list_elem_of_filter. by apply rq_pr.
  - intros q r' Hq Hlq Hn. apply (placed_frame opts φ nr nr c); [by apply H7|done..| |done|done|eauto].
    client_simpl. intros Hin. apply list_elem_of_filter. split; [|done]. intros ->. apply Hn. by left.
Qed.

Lemma wpst_submit_read φ X X' p r c :
  settled φ → Inv φ ∅ X' c → (∀ q, X' q → q = p ∨ X q) → X' p → c_reqs c !! p = Some r → live r → r_osd r = None →
  r_tid r = 0 → p ∉ c_promoting c → wpst (submit_read opts p) c (λ _ c', Inv φ ∅ X c').
Proof.
  intros Hset H HX Hx Hp Hl Ho Ht Hpr. unfold submit_read. apply wpst_bind.
  eapply wpst_mono; [by eapply wpst_submit_request_|]. intros [] c1 Hc1; cbn [negb st_when]; [by apply wpst_ret|].
  destruct Hc1 as (_ & H1 & _ & t & Er). apply wpst_modify.
  eapply Inv_promote; [exact H1|done|by rewrite Er, lookup_insert_eq|done..].
Qed.

Lemma wpst_submit_promoted φ X p r c :
  settled φ → Inv φ ∅ X c → p ∈ c_promoting c → c_reqs c !! p = Some r →
  (pool_of (c_osdmap c) (r_t r) = None → r_attempts r = 0) →
  wpst (submit_promoted opts p) c (λ _ c', Inv φ ∅ X c').
Proof.
  intros Hset H Hpr Hp Ha. unfold submit_promoted. apply wpst_bind, wpst_modify, wpst_bind.
  destruct (rq_pr _ _ _ _ _ _ _ _ (iv_reqs _ _ _ _ _ H) p Hpr) as (r' & Hr' & Ho & Ht & Hl). simplify_eq.
  eapply wpst_mono; [eapply (wpst_submit_request_ φ X (λ q, q = p ∨ X q) p r); try done|].
  - by apply Inv_unpromote.
  - by left.
  - client_simpl. by intros [? _]%list_elem_of_filter.
  - intros b c' Hc'. destruct b; [done|]. by destruct Hc'.
Qed.

(** ** New requests *)

Lemma target_ok_flags m t f : target_ok m t → target_ok m (set_t_flags f t).
Proof. intros [[] ? ? ?]. by split. Qed.

Lemma wpst_account_request φ nr X p r c :
  Inv φ nr X c → X p → c_reqs c !! p = Some r →
  wpst (account_request p) c (λ _ c', Inv φ nr X c' ∧ quiet c c' ∧ ∃ r', c_reqs c' = <[p := r']> (c_reqs c) ∧ same_place r r').
Proof.
  intros H Hx Hp. destruct (rq_sent _ _ _ _ _ _ _ _ (iv_reqs _ _ _ _ _ H) p r Hp) as [Ha _].
  unfold account_request. apply wpst_bind. eapply wpst_upd_req; [done|].
  set (r1 := set_r_t _ r). apply wpst_bind, wpst_modify, wpst_bind, wpst_get. client_simpl.
  eapply wpst_upd_req; [client_simpl; apply lookup_insert_eq|]. client_simpl. rewrite insert_insert_eq.
  split_and!; [|done|eexists; split; [done|by split]].
  eapply (Inv_update opts φ nr X p r _ (set_c_num_requests (c_num_requests c + 1) c)); [by destruct H|done..|by split| |by right].
  intros Hl. exact (target_ok_flags _ _ _ (iv_target _ _ _ _ _ H p r Hp Hl)).
Qed.
End submit.
