(* ===== verification/OsdSessions.v ===== *)
(** * The invariant under changes of sessions

    Loops over the requests of a session, sessions that are closed or reopened, and requests that are
    sent again on a new connection. *)
From S2P Require Import Prelude Hash Crush Mapper Choose DoRule Workspace OsdMap Placement.
From S2P Require Import CrushLoc OsdTarget Decode OsdMapWire OsdBackoff State OsdData OsdClient.
From S2P Require Import OsdLinger OsdMapChange OsdReply OsdEvents OsdInv OsdSafe OsdRequests OsdSubmit.

Lemma rb_in_order_perm {A} (t : gmap Z A) : rb_in_order t ≡ₚ map_to_list t.
Proof. unfold rb_in_order. apply merge_sort_Permutation. Qed.
Lemma elem_of_in_order {A} (t : gmap Z A) k a : (k, a) ∈ rb_in_order t ↔ t !! k = Some a.
Proof. rewrite rb_in_order_perm. apply elem_of_map_to_list. Qed.

Section sessions.
Context (opts : ceph_options) (Henv : ∀ m n, map_ok (co_fuel opts) m → env_ok m (co_env opts m n)).
Implicit Types (c : client) (p : rptr) (r : osd_request) (o : Z) (s : osd_session) (X : rptr → Prop).
Implicit Types (m : ceph_osdmap) (t : osd_target) (l : list (Z * rptr)).
Local Abbreviation fuel := (co_fuel opts).
Local Abbreviation Inv := (OsdInv.Inv opts).
Local Abbreviation none := (λ _ : rptr, False).
Local Abbreviation all := (λ _ : rptr, True).

(** ** Loops over the requests of a session *)

(** The requests that a loop has still to visit. *)
Record todo o l c : Prop := {
  td_nodup : NoDup l.*2;
  td_in tid p : (tid, p) ∈ l → ∃ r, c_reqs c !! p = Some r ∧ r_osd r = Some o ∧ r_tid r = tid }.

Lemma todo_init φ nr X o s c :
  Inv φ nr X c → c_sessions c !! o = Some s → todo o (rb_in_order (o_requests s)) c.
Proof.
  intros H Hs. assert (Hin : ∀ tid p, (tid, p) ∈ rb_in_order (o_requests s) → ∃ r, c_reqs c !! p = Some r ∧ r_osd r = Some o ∧ r_tid r = tid).
  { intros tid p. rewrite elem_of_in_order. apply (rq_tree _ _ _ _ _ _ _ _ (iv_reqs _ _ _ _ _ H) o).
    apply trees_of_lookup. eauto. }
  split; [|done]. apply NoDup_fmap_2_strong.
  - intros [t1 p1] [t2 p2] H1%Hin H2%Hin. cbn. intros ->. naive_solver.
  - rewrite rb_in_order_perm. apply NoDup_map_to_list.
Qed.

Lemma todo_step o tid p l r' c c' :
  todo o ((tid, p) :: l) c → c_reqs c' = <[p := r']> (c_reqs c) → todo o l c'.
Proof.
  intros [Hd Hin] Er. apply NoDup_cons in Hd as [Hn Hd]. split; [done|]. intros k q Hq.
  destruct (Hin k q) as (r & ? & ?); [by right|]. exists r. rewrite Er, lookup_insert_ne; [done|].
  intros ->. apply Hn. apply list_elem_of_fmap. by exists (k, q).
Qed.

Lemma todo_lookup φ nr X o l tid p c :
  Inv φ nr X c → todo o l c → (tid, p) ∈ l → requests_of c o !! tid = Some p.
Proof.
  intros H [_ Hin] (r & Hp & Ho & <-)%Hin. destruct (linked_tree _ _ _ _ _ _ _ _ H Hp Ho) as (s & Hs & Hk & _).
  unfold requests_of. by rewrite Hs.
Qed.

Lemma wpst_each_request (I : list (Z * rptr) → client → Prop) o s c body :
  c_sessions c !! o = Some s → I (rb_in_order (o_requests s)) c →
  (∀ tid p l c, I ((tid, p) :: l) c → requests_of c o !! tid = Some p ∧ wpst (body p) c (λ _ c', I l c')) →
  wpst (each_request o body) c (λ _ c', I [] c').
Proof.
  intros Hs HI Hstep. unfold each_request. apply wpst_bind. eapply wpst_get_session; [done|].
  apply (wpst_each I); [done|]. intros tid p l c' HI'. destruct (Hstep tid p l c' HI') as [Hk Hb].
  split; [|done]. by rewrite Hk.
Qed.

Lemma wpst_each_linger φ nr X o s c body (Q : unit → client → Prop) :
  Inv φ nr X c → c_sessions c !! o = Some s → Q tt c → wpst (each_linger o body) c Q.
Proof.
  intros H Hs HQ. unfold each_linger. apply wpst_bind. eapply wpst_get_session; [done|].
  rewrite (ss_linger _ _ _ _ _ (iv_sess _ _ _ _ _ H) o s Hs). done.
Qed.

(** ** Where a linked request is *)

Definition based m eb (mc : gmap Z rptr) o p r : Prop :=
  match pool_of m (r_t r) with
  | None => mc !! r_tid r = Some p ∨ om_epoch m < r_map_dne_bound r
  | Some _ => o = t_osd (r_t r) ∧ computed fuel m eb (r_t r) ∧ mc !! r_tid r = None
  end.
Lemma at_ok_based m eb mc o s p r : at_ok fuel m eb mc o s p r → based m eb mc o p r.
Proof. unfold at_ok, based. destruct (pool_of _ _); tauto. Qed.
Lemma based_at_ok m eb mc o s p r :
  based m eb mc o p r → (pool_of m (r_t r) ≠ None → o = CEPH_HOMELESS_OSD ∨ t_paused (r_t r) = true ∨ held_or_sent s p r) →
  at_ok fuel m eb mc o s p r.
Proof. unfold at_ok, based. destruct (pool_of _ _); [|done]. intros (? & ? & ?) Hh. split_and!; auto. Qed.

Lemma linked_at φ nr X p r o c :
  Inv φ nr X c → c_reqs c !! p = Some r → r_osd r = Some o → ¬ X p →
  live r ∧ ∃ s, c_sessions c !! o = Some s ∧
    (¬ ph_pend φ o (r_tid r) ∧ at_ok fuel (c_osdmap c) (c_epoch_barrier c) (c_map_checks c) o s p r
     ∨ ph_pend φ o (r_tid r) ∧ at_ok fuel (ph_map φ) (c_epoch_barrier c) (c_map_checks c) o s p r).
Proof.
  intros H Hp Ho Hx. destruct (rq_home _ _ _ _ _ _ _ _ (iv_reqs _ _ _ _ _ H) p r o Hp Ho) as (_ & _ & [Hl|?]); [|done].
  destruct (linked_free _ _ _ _ _ _ _ _ H Hp Ho) as (_ & Hnr & Hpr). split; [done|].
  destruct (iv_place _ _ _ _ _ H p r Hp Hl Hx) as [?|[[? _]|(o' & s & Ho' & Hs & Hat)]]; [done|congruence|].
  rewrite Ho in Ho'. injection Ho' as <-. by exists s.
Qed.

Lemma resent_based m eb mc o p r r' : resent opts r r' → based m eb mc o p r → based m eb mc o p r'.
Proof.
  intros [[] Hw Hm Hc _ Hb _]. unfold based. assert (pool_of m (r_t r') = pool_of m (r_t r)) as ->.
  { unfold pool_of, pool_key. by rewrite Hw. }
  rewrite sp_tid, Hb. destruct (pool_of _ _); [|done]. intros (-> & ? & ?). split_and!; [by injection Hm|by apply Hc|done].
Qed.

(** ** Closing *)

(** Whether a linked request is not affected by what happens to its connection: it has no pool. *)
Definition poolless φ o c p r : Prop := pool_of (c_osdmap c) (r_t r) = None ∧ ¬ ph_pend φ o (r_tid r).

Lemma poolless_at φ o c p r s s' :
  poolless φ o c p r →
  let at_ok m := at_ok fuel m (c_epoch_barrier c) (c_map_checks c) o in
  (¬ ph_pend φ o (r_tid r) → at_ok (c_osdmap c) s p r → at_ok (c_osdmap c) s' p r) ∧
  (ph_pend φ o (r_tid r) → at_ok (ph_map φ) s p r → at_ok (ph_map φ) s' p r).
Proof. intros [Hpo Hn]. split; [|done]. intros _. unfold at_ok. by rewrite Hpo. Qed.

Lemma wpst_ceph_con_close φ nr X o s c :
  Inv φ nr X c → c_sessions c !! o = Some s →
  (∀ p r, c_reqs c !! p = Some r → r_osd r = Some o → live r → ¬ X p → poolless φ o c p r) →
  wpst (ceph_con_close o) c (λ _ c', Inv φ nr X c' ∧ quiet c c' ∧ lists_stay c c' ∧ c_reqs c' = c_reqs c
    ∧ c_sessions c' = <[o := set_o_con_queue ∅ s]> (c_sessions c)).
Proof.
  intros H Hs Hh. unfold ceph_con_close. apply wpst_bind, wpst_modify. eapply wpst_upd_session; [exact Hs|].
  split_and!; [|by destruct (quiet_put_session o s (set_o_con_queue ∅ s) c Hs)|done..].
  eapply (Inv_session_gen _ _ _ _ o s _ (set_c_log _ c)); [by apply Inv_emit|done..|exact (ss_backoffs _ _ _ _ _ (iv_sess _ _ _ _ _ H) o s Hs)|done|].
  intros p r Hp Ho Hl Hx. apply (poolless_at φ o c p r). by apply Hh.
Qed.

Lemma wpst_clear_session_backoffs φ nr X o s c :
  Inv φ nr X c → c_sessions c !! o = Some s →
  (∀ p r, c_reqs c !! p = Some r → r_osd r = Some o → live r → ¬ X p → poolless φ o c p r) →
  wpst (clear_session_backoffs o) c (λ _ c', Inv φ nr X c' ∧ quiet c c' ∧ lists_stay c c' ∧ c_reqs c' = c_reqs c
    ∧ c_sessions c' = <[o := set_o_backoffs (Backoffs ∅ ∅) s]> (c_sessions c)).
Proof.
  intros H Hs Hh. unfold clear_session_backoffs. apply wpst_bind. eapply wpst_get_session; [done|].
  apply wpst_bind, wpst_lift. rewrite clear_backoffs_spec by exact (ss_backoffs _ _ _ _ _ (iv_sess _ _ _ _ _ H) o s Hs).
  cbn [wp]. apply wpst_modify. split_and!; [|by apply quiet_put_session with s|done..].
  eapply Inv_session_gen; [exact H|done|done|done|apply session_ok_empty|done|].
  intros p r Hp Ho Hl Hx. apply (poolless_at φ o c p r). by apply Hh.
Qed.

(** A session without requests is gone. *)
Lemma Inv_close φ nr X o c :
  Inv φ nr X c → o ≠ CEPH_HOMELESS_OSD → o ∉ c_osd_lru c → (∀ p r, c_reqs c !! p = Some r → r_osd r ≠ Some o) →
  Inv φ nr X (set_c_sessions (delete o (c_sessions c)) c).
Proof.
  intros [H1 H2 H3 [S1 S2 S3 S4 S5 S6 S7] H5 H6 H7 H8] Hne Hlru Hno. split; client_simpl; try done.
  - unfold trees_of. rewrite fmap_delete. destruct H2. split; try done.
    + by apply match_close.
    + intros p r o' Hp Ho'. destruct (rq_home p r o' Hp Ho') as (? & ? & ?). split_and!; [|done..].
      rewrite lookup_delete_ne; [done|]. intros ->. by apply (Hno p r).
  - split; try done.
    + by rewrite lookup_delete_ne.
    + intros o' [x [_ Hx]%lookup_delete_Some]. by apply S2.
    + intros o' x [_ Hx]%lookup_delete_Some. by eapply S3.
    + intros o' x [_ Hx]%lookup_delete_Some. by apply S4.
    + intros o' Ho'. destruct (S6 o' Ho') as (? & x & Hx & ?). split; [done|]. exists x.
      rewrite lookup_delete_ne; [done|]. by intros ->.
    + intros o' x [_ Hx]%lookup_delete_Some. by eapply S7.
  - intros p r Hp Hl Hn. apply (placed_frame opts φ nr nr c); [by apply H7|done..|]. client_simpl.
    intros o' x Ho' Hx. exists x. rewrite lookup_delete_ne; [done|]. intros ->. by apply (Hno p r).
Qed.

(** The requests on sessions with OSDs were there before. *)
Definition real_from c c' : Prop :=
  ∀ p r o, o ≠ CEPH_HOMELESS_OSD → c_reqs c' !! p = Some r → r_osd r = Some o → c_reqs c !! p = Some r.

(** What an operation on sessions leaves as it is. *)
Definition steady c c' : Prop :=
  c_osdmap c' = c_osdmap c ∧ c_epoch_barrier c' = c_epoch_barrier c ∧ c_abort_err c' = c_abort_err c
  ∧ c_promoting c' = c_promoting c ∧ c_map_checks c' = c_map_checks c.
#[export] Instance steady_po : PreOrder steady.
Proof. split; [by intros c|]. intros c1 c2 c3 (? & ? & ? & ? & ?) (? & ? & ? & ? & ?). split_and!; congruence. Qed.
Lemma quiet_steady c c' : quiet c c' → c_map_checks c' = c_map_checks c → steady c c'.
Proof. by intros []. Qed.

(** What holds while a session is closed: its requests left have no pool. *)
Definition closing φ nr o l c : Prop :=
  Inv φ nr none c ∧ todo o l c ∧ (∀ p r, c_reqs c !! p = Some r → r_osd r = Some o → (r_tid r, p) ∈ l)
  ∧ (∀ tid p, (tid, p) ∈ l → ¬ ph_pend φ o tid ∧ ¬ ph_pend φ CEPH_HOMELESS_OSD tid)
  ∧ (∀ p r, c_reqs c !! p = Some r → r_osd r = Some o → pool_of (c_osdmap c) (r_t r) = None).

Lemma closing_step φ nr o tid p l c :
  o ≠ CEPH_HOMELESS_OSD → closing φ nr o ((tid, p) :: l) c →
  wpst (_ ← unlink_request opts o p; link_request CEPH_HOMELESS_OSD p) c (λ _ c', closing φ nr o l c' ∧ quiet c c' ∧ steady c c' ∧ real_from c c').
Proof.
  intros Hne (H & Htodo & Hall & Hpend & Hpool). pose proof Htodo as [Hd Hin].
  destruct (Hin tid p) as (r & Hp & Ho & Ht); [by left|].
  destruct (Hpend tid p) as [Hn1 Hn2]; [by left|]. rewrite <- Ht in Hn1, Hn2.
  destruct (linked_at _ _ _ _ _ _ _ H Hp Ho id) as (Hl & s & Hs & [[_ Hat]|[? _]]); [|done].
  unfold at_ok in Hat. rewrite (Hpool p r Hp Ho) in Hat.
  destruct (linked_free _ _ _ _ _ _ _ _ H Hp Ho) as (Htn & Hnr & Hpr).
  apply wpst_bind. eapply wpst_mono; [eapply (wpst_unlink_request opts φ nr (λ q, q = p ∨ none q) p r o)|].
  { by apply Inv_take. } { by left. } { done. } { done. }
  intros _ c1 (H1 & Hq1 & (Emc1 & _) & Er1). set (r1 := set_r_osd None r) in *.
  assert (Hp1 : c_reqs c1 !! p = Some r1) by by rewrite Er1, lookup_insert_eq.
  destruct (ss_home _ _ _ _ _ (iv_sess _ _ _ _ _ H1)) as [sh Hsh].
  eapply wpst_mono; [eapply (wpst_link_request opts φ nr (λ q, q = p ∨ none q) p r1 CEPH_HOMELESS_OSD sh); try done|].
  { by left. } { change (nr !! r_tid r ≠ Some p). congruence. }
  intros _ c2 (H2 & Hq2 & (Emc2 & _) & Er2). set (r2 := set_r_osd (Some CEPH_HOMELESS_OSD) r1) in *.
  assert (Er : c_reqs c2 = <[p := r2]> (c_reqs c)) by by rewrite Er2, Er1, insert_insert_eq.
  assert (Em : c_osdmap c2 = c_osdmap c) by by rewrite (qu_map _ _ Hq2), (qu_map _ _ Hq1).
  assert (Hp2 : c_reqs c2 !! p = Some r2) by by rewrite Er, lookup_insert_eq.
  destruct (linked_tree _ _ _ _ _ _ _ _ H2 Hp2 eq_refl) as (s2 & Hs2 & _).
  assert (Hcalm : quiet c c2) by by etransitivity.
  split_and!; [|done|apply quiet_steady; [done|congruence]|].
  2:{ intros q r' o' Ho' Hq Hqo. rewrite Er in Hq. apply lookup_insert_Some in Hq as [[<- <-]|[_ Hq]]; [|done]. by injection Hqo as <-. }
  assert (H3 : Inv φ nr none c2).
  { eapply (Inv_put_at opts φ nr none _ p r2 _ s2); try done. unfold at_ok. rewrite Em.
    rewrite (Hpool p r Hp Ho : pool_of _ (r_t r2) = None). by rewrite Emc2, Emc1. }
  split_and!; [done|by eapply todo_step| |intros k q Hq; apply (Hpend k q); by right|].
  - intros q r' Hq Hqo. rewrite Er in Hq. apply lookup_insert_Some in Hq as [[<- <-]|[Hqn Hq]].
    + injection Hqo. done.
    + destruct (proj1 (elem_of_cons _ _ _) (Hall q r' Hq Hqo)) as [[= _ ->]|?]; done.
  - intros q r' Hq Hqo. rewrite Er in Hq. rewrite Em. apply lookup_insert_Some in Hq as [[<- <-]|[Hqn Hq]]; [by injection Hqo|by eapply Hpool].
Qed.

(** A session is gone, and its requests are homeless. *)
Record closed φ nr o c c' : Prop := {
  cl_inv : Inv φ nr none c';
  cl_calm : steady c c';
  cl_gone : c_sessions c' !! o = None;
  cl_sub o' : is_Some (c_sessions c' !! o') → is_Some (c_sessions c !! o');
  cl_stay o' s : o' ≠ o → c_sessions c !! o' = Some s → ∃ s', c_sessions c' !! o' = Some s' ∧ o_peer_addr s' = o_peer_addr s;
  cl_real : real_from c c' }.

Lemma wpst_close_osd φ nr o s c :
  Inv φ nr none c → o ≠ CEPH_HOMELESS_OSD → c_sessions c !! o = Some s →
  (∀ p r, c_reqs c !! p = Some r → r_osd r = Some o → poolless φ o c p r ∧ ¬ ph_pend φ CEPH_HOMELESS_OSD (r_tid r)) →
  wpst (close_osd opts o) c (λ _ c', closed φ nr o c c').
Proof.
  intros H Hne Hs Hreqs. unfold close_osd. apply wpst_bind.
  eapply wpst_mono; [eapply wpst_ceph_con_close; [exact H|exact Hs|]|].
  { intros p r Hp Ho _ _. by apply (Hreqs p r). }
  intros _ c1 (H1 & Hq1 & (Emc1 & _) & Er1 & Es1). set (s1 := set_o_con_queue ∅ s) in *.
  assert (Hs1 : c_sessions c1 !! o = Some s1) by by rewrite Es1, lookup_insert_eq.
  apply wpst_bind. eapply wpst_mono; [apply (wpst_each_request (λ l c', closing φ nr o l c' ∧ quiet c1 c' ∧ steady c1 c' ∧ real_from c1 c') o s1 c1)|].
  - exact Hs1.
  - split_and!; [|done|done|by intros p r]. split_and!; [done|by eapply todo_init| | |].
    + intros p r Hp Ho. apply elem_of_in_order. destruct (linked_tree _ _ _ _ _ _ _ _ H1 Hp Ho) as (? & ? & ? & _). congruence.
    + intros tid p Hin. destruct (td_in _ _ _ (todo_init _ _ _ _ _ _ H1 Hs1) tid p Hin) as (r & Hp & Ho & <-).
      rewrite Er1 in Hp. destruct (Hreqs p r Hp Ho) as [[_ ?] ?]. done.
    + intros p r Hp Ho. rewrite Er1 in Hp. rewrite (qu_map _ _ Hq1). by apply (Hreqs p r).
  - intros tid p l c' (Hc' & Hcalm & Hst & Hreal). split.
    + destruct Hc' as (Hi & Ht & _). eapply todo_lookup; [done|done|by left].
    + eapply wpst_mono; [by eapply closing_step|]. intros _ c2 (? & ? & ? & Hr2). split_and!; [done|by etransitivity|by etransitivity|].
      intros q r o' Ho' Hq Hqo. by eapply Hreal, Hqo; [|eapply Hr2].
  - intros _ c2 ((H2 & _ & Hall & _ & _) & Hcalm & (_ & _ & _ & _ & Emc2) & Hreal). destruct (qu_sess _ _ Hcalm o s1 Hs1) as (s2 & Hs2 & _).
    assert (Hno : ∀ p r, c_reqs c2 !! p = Some r → r_osd r ≠ Some o).
    { intros p r Hp Ho. apply (not_elem_of_nil (r_tid r, p)). by apply (Hall p r). }
    apply wpst_bind. eapply wpst_each_linger; [done|done|].
    apply wpst_bind. eapply wpst_mono; [eapply wpst_clear_session_backoffs; [exact H2|exact Hs2|]|].
    { intros p r Hp Ho. by destruct (Hno p r). }
    intros _ c3 (H3 & Hq3 & (Emc3 & _) & Er3 & Es3). unfold remove_osd_from_lru_. apply wpst_bind, wpst_modify, wpst_bind, wpst_get, wpst_bind, wpst_lift.
    client_simpl. unfold rb_erase. rewrite Es3, lookup_insert_eq. cbn [deref mbind outcome_bind wp].
    apply wpst_modify. rewrite <- Es3.
    pose proof (transitivity (transitivity Hq1 Hcalm) Hq3) as Hq. destruct Hq as [? ? ? ? ? ? Hstay Hnone]. split.
    + apply (Inv_close φ nr none o (set_c_osd_lru _ c3)); [by apply Inv_remove_lru|done| |].
      * client_simpl. by intros []%list_elem_of_filter.
      * client_simpl. rewrite Er3. exact Hno.
    + unfold steady. client_simpl. split_and!; congruence.
    + client_simpl. apply lookup_delete_eq.
    + client_simpl. intros o' [x [_ Hx]%lookup_delete_Some]. apply not_eq_None_Some. intros Ho'%Hnone. congruence.
    + client_simpl. intros o' x Hne' Hx. rewrite lookup_delete_ne by done.
      destruct (Hstay o' x Hx) as (x' & ? & ? & _).
      eauto.
    + intros p r o' Ho' Hp Hpo. client_simpl in *. rewrite Er3 in Hp. rewrite <- Er1. by eapply Hreal.
Qed.

(** ** Sending everything again *)

(** What is in hand while requests of a session ([K]) are sent again. *)
Record kicking (K : rptr → Prop) φ nr o l c : Prop := {
  ki_inv : Inv φ nr (λ q, q ∈ l.*2 ∧ K q) c;
  ki_todo : todo o l c;
  ki_based tid p r : (tid, p) ∈ l → c_reqs c !! p = Some r →
    live r ∧ based (c_osdmap c) (c_epoch_barrier c) (c_map_checks c) o p r ∧ c_map_checks c !! r_tid r = None }.

Lemma kicking_put K φ nr o tid p l r r' s' c c' :
  settled φ → kicking K φ nr o ((tid, p) :: l) c → c_reqs c !! p = Some r →
  Inv φ nr (λ q, q ∈ ((tid, p) :: l).*2 ∧ K q) c' → quiet c c' → lists_stay c c' → c_reqs c' = <[p := r']> (c_reqs c) →
  resent opts r r' → c_sessions c' !! o = Some s' → (t_paused (r_t r') = true ∨ held_or_sent s' p r') →
  kicking K φ nr o l c'.
Proof.
  intros Hset [H Htodo Hb] Hp H' Hq (Emc & _) Er Hre Hs' Hh. assert (Hin : (tid, p) ∈ (tid, p) :: l) by left.
  destruct (Hb tid p r Hin Hp) as (Hl & Hbase & Hmc).
  destruct (td_in _ _ _ Htodo tid p Hin) as (r0 & Hp0 & Ho & Ht). simplify_eq.
  split; [|by eapply todo_step|].
  - eapply (Inv_put_at opts φ nr _ _ p r' o s'); [exact H'| |by rewrite Er, lookup_insert_eq| | |done|apply Hset|].
    + intros q [Hx Hk]. apply elem_of_cons in Hx as [->|Hx]; [by left|by right].
    + unfold live. by rewrite (sp_end _ _ (re_place _ _ _ Hre)).
    + by rewrite (sp_osd _ _ (re_place _ _ _ Hre)).
    + apply based_at_ok; [|auto]. rewrite (qu_map _ _ Hq), (qu_eb _ _ Hq), Emc. by eapply resent_based.
  - intros k q r1 Hk Hq1. rewrite Er in Hq1. apply lookup_insert_Some in Hq1 as [[<- <-]|[Hne Hq1]].
    + destruct Htodo as [Hd _]. apply NoDup_cons in Hd as [[] _]. apply list_elem_of_fmap. by exists (k, p).
    + rewrite (qu_map _ _ Hq), (qu_eb _ _ Hq), Emc. by apply (Hb k q); [right|].
Qed.

Lemma kicking_step K φ nr o tid p l c (body : osd_request → C unit) :
  settled φ → o ≠ CEPH_HOMELESS_OSD → kicking K φ nr o ((tid, p) :: l) c → K p →
  (∀ r, c_reqs c !! p = Some r → r_linger r = false →
    ∃ b, body r = st_when b (send_request p) ∧ (b = false → t_paused (r_t r) = true)) →
  wpst (r ← get_req p; body r) c (λ _ c', kicking K φ nr o l c' ∧ quiet c c' ∧ lists_stay c c'
    ∧ ∃ r', c_reqs c' = <[p := r']> (c_reqs c)).
Proof.
  intros Hset Hne Hk HK Hbody. pose proof Hk as [H Htodo Hb]. assert (Hin : (tid, p) ∈ (tid, p) :: l) by left.
  destruct (td_in _ _ _ Htodo tid p Hin) as (r & Hp & Ho & Ht). destruct (Hb tid p r Hin Hp) as (Hl & Hbase & Hmc).
  destruct (linked_tree _ _ _ _ _ _ _ _ H Hp Ho) as (s & Hs & _).
  apply wpst_bind. eapply wpst_get_req; [done|].
  destruct (Hbody r Hp) as (b & -> & Hpa); [apply (rq_plain _ _ _ _ _ _ _ _ (iv_reqs _ _ _ _ _ H) p r Hp)|].
  apply wpst_when; intros Hb'.
  - eapply wpst_mono; [eapply (wpst_send_request opts φ nr _ p r o s); try done|].
    { split; [by left|done]. }
    intros _ c' (H' & Hq & Hli & r' & s' & Er & Hre & Hs' & Hh). split_and!; [|done|done|eauto].
    eapply (kicking_put K φ nr o tid p l r r' s'); try done. by right.
  - split_and!; [|done|done|exists r; by rewrite insert_id]. eapply (kicking_put K φ nr o tid p l r r s); try done.
    + by rewrite insert_id.
    + apply resent_refl. by apply (rq_sent _ _ _ _ _ _ _ _ (iv_reqs _ _ _ _ _ H) p r Hp).
    + left. by apply Hpa.
Qed.

Lemma wpst_kick_osd_requests φ nr o s c :
  settled φ → o ≠ CEPH_HOMELESS_OSD → c_sessions c !! o = Some s → kicking all φ nr o (rb_in_order (o_requests s)) c →
  wpst (kick_osd_requests opts o) c (λ _ c', Inv φ nr none c' ∧ quiet c c' ∧ lists_stay c c').
Proof.
  intros Hset Hne Hs [H Htodo Hb]. unfold kick_osd_requests. apply wpst_bind.
  eapply wpst_mono; [eapply wpst_clear_session_backoffs; [exact H|exact Hs|]|].
  { intros p r Hp Ho _ []. split; [|done]. destruct (linked_tree _ _ _ _ _ _ _ _ H Hp Ho) as (s' & Hs' & Hk & _). simplify_eq.
    apply list_elem_of_fmap. exists (r_tid r, p). split; [done|]. by apply elem_of_in_order. }
  intros _ c1 (H1 & Hq1 & Hl1 & Er1 & Es1). pose proof Hl1 as (Emc1 & _). apply wpst_bind.
  eapply wpst_mono; [apply (wpst_each_request (λ l c', kicking all φ nr o l c' ∧ quiet c1 c' ∧ lists_stay c1 c') o (set_o_backoffs (Backoffs ∅ ∅) s) c1)|].
  - by rewrite Es1, lookup_insert_eq.
  - split_and!; [|done|done]. split; [done| |].
    + destruct Htodo as [Hd Hin]. split; [done|]. intros tid p. rewrite Er1. apply Hin.
    + intros tid p r Hin. rewrite Er1, (qu_map _ _ Hq1), (qu_eb _ _ Hq1), Emc1. by apply Hb with tid.
  - intros tid p l c' (Hk & Hq' & Hl'). split; [eapply todo_lookup; [by apply Hk|by apply Hk|by left]|].
    eapply wpst_mono; [eapply (kicking_step all φ nr o tid p l c'); try done|].
    { intros r _ ->. eexists. split; [done|apply negb_false_iff]. }
    intros _ c2 (? & ? & ? & _). split_and!; [done|by etransitivity..].
  - intros _ c2 ([H2 _ _] & Hq2 & Hl2).
    destruct (qu_sess _ _ Hq2 o (set_o_backoffs (Backoffs ∅ ∅) s)) as (s2 & Hs2 & _); [by rewrite Es1, lookup_insert_eq|].
    eapply wpst_each_linger; [exact H2|exact Hs2|]. split_and!; [|by etransitivity..].
    eapply Inv_weaken; [|exact H2]. by intros q [?%not_elem_of_nil _].
Qed.

(** ** Reopening *)

Lemma Inv_stamp φ nr X p r v c :
  Inv φ nr X c → c_reqs c !! p = Some r → Inv φ nr X (set_c_reqs (<[p := set_r_stamp v r]> (c_reqs c)) c).
Proof.
  intros [H1 H2 H3 H4 H5 H6 H7 H8] Hp. split; client_simpl; try done.
  - eapply reqs_ok_update; [done..|split; try done|by right]. by apply (rq_sent _ _ _ _ _ _ _ _ H2 p r Hp).
  - by eapply done_ok_update.
  - intros q r0 [[<- <-]|[Hne Hq]]%lookup_insert_Some; [exact (H6 p r Hp)|by eapply H6].
  - intros q r0 [[<- <-]|[Hne Hq]]%lookup_insert_Some Hl Hn; [exact (H7 p r Hp Hl Hn)|exact (H7 q r0 Hq Hl Hn)].
Qed.

(** Nobody has asked for the pool of a request of the session. *)
Definition unchecked o c : Prop :=
  ∀ p r, c_reqs c !! p = Some r → r_osd r = Some o → c_map_checks c !! r_tid r = None.

Lemma kicking_init φ o s c :
  settled φ → Inv φ ∅ none c → c_sessions c !! o = Some s → unchecked o c → kicking all φ ∅ o (rb_in_order (o_requests s)) c.
Proof.
  intros Hset H Hs Hun. pose proof (todo_init _ _ _ _ _ _ H Hs) as Htodo. split; [|done|].
  - eapply Inv_weaken; [|exact H]. done.
  - intros tid p r Hin Hp. destruct (td_in _ _ _ Htodo tid p Hin) as (r0 & Hp0 & Ho & Ht). simplify_eq.
    destruct (linked_at _ _ _ _ _ _ _ H Hp Ho id) as (Hl & s0 & Hs0 & [[_ Hat]|[Hpe _]]); [|by destruct (Hset _ _ Hpe)].
    split_and!; [done|by eapply at_ok_based|by apply (Hun p r)].
Qed.

(** The connection, address and incarnation change under requests in hand. *)
Lemma kicking_session φ o l s s' c :
  kicking all φ ∅ o l c → (∀ p r, c_reqs c !! p = Some r → r_osd r = Some o → p ∈ l.*2) →
  c_sessions c !! o = Some s → o_requests s' = o_requests s → o_linger_requests s' = o_linger_requests s →
  o_backoffs s' = o_backoffs s → o_peer_addr s' = o_peer_addr s →
  kicking all φ ∅ o l (set_c_sessions (<[o := s']> (c_sessions c)) c).
Proof.
  intros [H Htodo Hb] Hall Hs Er El Eb Ea. split; [|by destruct Htodo|done].
  eapply Inv_session; try done.
  - rewrite Eb. by apply (ss_backoffs _ _ _ _ _ (iv_sess _ _ _ _ _ H) o s).
  - intros p r Hp Ho _ Hn. by destruct (Hn (conj (Hall p r Hp Ho) I)).
Qed.
Lemma kicking_emit φ o l e c :
  (∀ p, e ≠ Complete_all p) → kicking all φ ∅ o l c → kicking all φ ∅ o l (set_c_log (e :: c_log c) c).
Proof. intros He [H [] Hb]. split; [by apply Inv_emit|by split|done]. Qed.

Lemma wpst_restamp φ nr o s v c :
  Inv φ nr none c → c_sessions c !! o = Some s →
  wpst (each_request o (λ p, upd_req p (set_r_stamp v))) c (λ _ c', Inv φ nr none c' ∧ quiet c c' ∧ lists_stay c c').
Proof.
  intros H Hs.
  eapply wpst_mono; [apply (wpst_each_request (λ l c', Inv φ nr none c' ∧ todo o l c' ∧ quiet c c' ∧ lists_stay c c') o s c)|].
  - done.
  - split_and!; [done|by eapply todo_init|done..].
  - intros tid p l c' (H' & Htodo & Hq' & Hl'). split; [eapply todo_lookup; [done|done|by left]|].
    destruct (td_in _ _ _ Htodo tid p) as (r & Hp & _); [by left|]. eapply wpst_upd_req; [done|].
    split_and!; [by apply Inv_stamp|by eapply todo_step|by destruct Hq'|by apply Hl'..].
  - intros _ c' (? & _ & ?). done.
Qed.

Lemma quiet_sessions c c' o : quiet c c' → is_Some (c_sessions c' !! o) ↔ is_Some (c_sessions c !! o).
Proof.
  intros Hq. split.
  - rewrite <- !not_eq_None_Some. intros Hn Ho. by apply Hn, (qu_none _ _ Hq).
  - intros [s Hs]. destruct (qu_sess _ _ Hq o s Hs) as (? & ? & _). eauto.
Qed.

Lemma wpst_reopen_osd m0 o opened s c :
  Inv (idle m0) ∅ none c → o ≠ CEPH_HOMELESS_OSD → c_sessions c !! o = Some s → unchecked o c →
  wpst (reopen_osd opts o opened) c (λ err c', steady c c' ∧
    (∀ o', o' ≠ o → is_Some (c_sessions c !! o') → is_Some (c_sessions c' !! o')) ∧
    (∀ o', is_Some (c_sessions c' !! o') → is_Some (c_sessions c !! o')) ∧
    if err =? 0 then ∃ s', c_sessions c' !! o = Some s' ∧ kicking all (idle m0) ∅ o (rb_in_order (o_requests s')) c'
    else Inv (idle m0) ∅ none c').
Proof.
  intros H Hne Hs Hun. unfold reopen_osd. apply wpst_bind. eapply wpst_get_session; [done|].
  destruct (_ && _) eqn:Ee.
  { apply andb_true_iff in Ee as [Ee _]. apply bool_decide_eq_true in Ee. apply wpst_bind.
    eapply wpst_mono; [eapply (wpst_close_osd (idle m0) ∅ o s); try done|].
    - intros p r Hp Ho. destruct (linked_tree _ _ _ _ _ _ _ _ H Hp Ho) as (s' & Hs' & Hk & _). simplify_eq.
      by rewrite Ee, lookup_empty in Hk.
    - intros _ c' [H' Hcalm _ Hsub Hst _]. apply wpst_ret. split_and!; [done| |done|done]. intros o' Hn [s' Hs'].
      destruct (Hst o' s' Hn Hs') as (? & ? & _). eauto. }
  clear Ee. apply wpst_bind, wpst_get, wpst_bind, wpst_lift.
  destruct (ss_addr _ _ _ _ _ (iv_sess _ _ _ _ _ H) o s Hs Hne) as [[Hup Haddr]|[[] _]].
  pose proof (osd_up_range _ (cm_arrays _ _ (iv_map _ _ _ _ _ H)) o Hup) as Hr.
  rewrite (aget_Some _ _ (o_peer_addr s)) by (done || lia). cbn [wp].
  destruct (_ && negb opened).
  { apply wpst_bind. eapply wpst_mono; [by eapply wpst_restamp|]. intros _ c' (H' & Hq & Emc & _).
    apply wpst_ret. split_and!; [by apply quiet_steady|intros o' _; by apply (quiet_sessions c c')|intros o'; by apply (quiet_sessions c c')|done]. }
  pose proof (kicking_init _ _ _ _ (settled_idle m0) H Hs Hun) as Hk.
  assert (Hall : ∀ p r, c_reqs c !! p = Some r → r_osd r = Some o → p ∈ (rb_in_order (o_requests s)).*2).
  { intros p r Hp Ho. destruct (linked_tree _ _ _ _ _ _ _ _ H Hp Ho) as (s' & Hs' & Hkk & _). simplify_eq.
    apply list_elem_of_fmap. exists (r_tid r, p). split; [done|]. by apply elem_of_in_order. }
  unfold ceph_con_close, ceph_con_open. apply wpst_bind, wpst_bind, wpst_modify. eapply wpst_upd_session; [exact Hs|].
  client_simpl. apply wpst_bind, wpst_bind, wpst_modify. eapply wpst_upd_session; [client_simpl; apply lookup_insert_eq|].
  client_simpl. apply wpst_bind. eapply wpst_upd_session; [client_simpl; apply lookup_insert_eq|]. apply wpst_ret. client_simpl.
  rewrite !insert_insert_eq. cbn [Z.eqb]. split_and!; [done| | |].
  - intros o' Hn Hs'. by rewrite lookup_insert_ne.
  - intros o' [x [[<- _]|[_ Hx]]%lookup_insert_Some]; eauto.
  - eexists. rewrite lookup_insert_eq. split; [done|].
    apply (kicking_session _ o _ s _ (set_c_log (Con_open o (o_peer_addr s) :: Con_close o :: c_log c) c)); try done.
    apply (kicking_emit _ o _ _ (set_c_log (Con_close o :: c_log c) c)); [done|]. by apply kicking_emit.
Qed.
End sessions.
