(* ===== verification/OsdLoops.v ===== *)
(** * The invariant under loops over all sessions

    Faults, aborts, timeouts and backoffs. *)
From S2P Require Import Prelude Hash Crush Mapper Choose DoRule Workspace OsdMap Placement.
From S2P Require Import CrushLoc OsdTarget Decode OsdMapWire OsdBackoff State OsdData OsdClient.
From S2P Require Import OsdLinger OsdMapChange OsdReply OsdEvents OsdInv OsdSafe OsdRequests OsdSubmit.
From S2P Require Import OsdSessions.

(** ** The sessions in order *)

Lemma head_filter_sorted (P : Z → Prop) `{∀ x, Decision (P x)} (l : list Z) :
  StronglySorted Z.le l →
  match head (filter P l) with
  | Some x => x ∈ l ∧ P x ∧ ∀ k, k ∈ l → P k → x <= k
  | None => ∀ k, k ∈ l → ¬ P k
  end.
Proof.
  induction 1 as [|x l Hl IH Hx]; cbn; [by intros k ?%not_elem_of_nil|].
  destruct (decide (P x)); cbn.
  - split_and!; [by left|done|]. rewrite Forall_forall in Hx. intros k [->|Hk]%elem_of_cons _; [lia|by apply Hx].
  - destruct (head (filter P l)) as [y|].
    + destruct IH as (? & ? & Hmin). split_and!; [by right|done|]. intros k [->|Hk]%elem_of_cons Hpk; [done|by apply Hmin].
    + intros k [->|Hk]%elem_of_cons; [done|by apply IH].
Qed.

Lemma keys_sorted {A} (t : gmap Z A) : StronglySorted Z.le (map fst (rb_in_order t)).
Proof.
  assert (H : StronglySorted key_le (rb_in_order t)).
  { unfold rb_in_order. apply StronglySorted_merge_sort; [intros x y z; unfold key_le; lia|intros x y; unfold key_le; lia]. }
  induction H as [|[k a] l Hl IH Hx]; cbn; constructor; [done|]. apply Forall_map. exact Hx.
Qed.

Lemma elem_of_keys {A} (t : gmap Z A) k : k ∈ map fst (rb_in_order t) ↔ is_Some (t !! k).
Proof.
  rewrite list_elem_of_fmap. split.
  - intros ([k' a] & -> & Hin%elem_of_in_order). eauto.
  - intros [a Ha%elem_of_in_order]. by exists (k, a).
Qed.

Lemma rb_next_osd_spec c o :
  match rb_next_osd c o with
  | Some o' => is_Some (c_sessions c !! o') ∧ o < o' ∧ ∀ k, is_Some (c_sessions c !! k) → o < k → o' <= k
  | None => ∀ k, is_Some (c_sessions c !! k) → k <= o
  end.
Proof.
  unfold rb_next_osd. pose proof (head_filter_sorted (λ k, o < k) _ (keys_sorted (c_sessions c))) as H.
  destruct (head _) as [x|]; setoid_rewrite elem_of_keys in H; [done|]. intros k Hk. specialize (H k Hk). lia.
Qed.

Definition osds_bound c : Z := foldr Z.max (om_max_osd (c_osdmap c)) (map fst (map_to_list (c_sessions c))).
Lemma osds_bound_le c o : is_Some (c_sessions c !! o) → o <= osds_bound c.
Proof.
  intros [s Hs%elem_of_map_to_list]. unfold osds_bound.
  assert (Hin : o ∈ map fst (map_to_list (c_sessions c))) by (apply list_elem_of_fmap; by exists (o, s)).
  induction (map fst _) as [|k l IH]; [by apply not_elem_of_nil in Hin|]. cbn.
  apply elem_of_cons in Hin as [->|Hin]; [lia|]. specialize (IH Hin). lia.
Qed.

(** A loop that closes the session it is at, at most. *)
Lemma wpst_osds_from (J : client → Prop) (B : Z) body n o c :
  (∀ c o, J c → is_Some (c_sessions c !! o) → o <= B) →
  (∀ o c, J c → CEPH_HOMELESS_OSD < o → is_Some (c_sessions c !! o) →
    wpst (body o) c (λ _ c', J c' ∧ ∀ o', o' ≠ o → is_Some (c_sessions c !! o') → is_Some (c_sessions c' !! o'))) →
  J c → match o with Some o => CEPH_HOMELESS_OSD < o ∧ is_Some (c_sessions c !! o) ∧ (Z.to_nat (B - o) < n)%nat | None => True end →
  wpst (osds_from n o body) c (λ _ c', J c').
Proof.
  intros HB Hbody. revert o c. induction n as [|n IH]; intros [o|] c HJ Ho; cbn [osds_from]; [|done| |done].
  { destruct Ho as (_ & _ & ?). lia. }
  destruct Ho as (Hpos & Hs & Hn). apply wpst_bind, wpst_get. rewrite bool_decide_eq_true_2 by done.
  pose proof (rb_next_osd_spec c o) as Hnext. apply wpst_bind. eapply wpst_mono; [by apply Hbody|].
  intros _ c' (HJ' & Hst). apply IH; [done|]. destruct (rb_next_osd c o) as [o'|]; [|done].
  destruct Hnext as (Hs' & Hlt & _). pose proof (HB c o' HJ Hs'). split_and!; [lia|apply Hst; [lia|done]|lia].
Qed.

Lemma wpst_each_osd (J : client → Prop) body c :
  J c →
  (∀ o c', J c' → CEPH_HOMELESS_OSD < o → is_Some (c_sessions c' !! o) →
    wpst (body o) c' (λ _ c'', J c'' ∧ (∀ o', o' ≠ o → is_Some (c_sessions c' !! o') → is_Some (c_sessions c'' !! o'))
      ∧ ∀ o', is_Some (c_sessions c'' !! o') → is_Some (c_sessions c' !! o'))) →
  wpst (each_osd body) c (λ _ c', J c').
Proof.
  intros HJ Hbody. unfold each_osd. apply wpst_bind, wpst_get.
  set (J' := λ c', J c' ∧ ∀ o, is_Some (c_sessions c' !! o) → is_Some (c_sessions c !! o)).
  eapply wpst_mono; [apply (wpst_osds_from J' (osds_bound c))|].
  - intros c' o [_ Hsub] Ho%Hsub. by apply osds_bound_le.
  - intros o c' [HJ' Hsub] Hpos Hs. eapply wpst_mono; [by apply Hbody|]. intros _ c'' (? & ? & Hs''). split; [|done].
    split; [done|]. intros o' ?%Hs''. by apply Hsub.
  - done.
  - pose proof (rb_next_osd_spec c CEPH_HOMELESS_OSD) as Hn. destruct (rb_next_osd _ _) as [o|]; [|done].
    destruct Hn as (Hs & Hlt & _). split_and!; [done..|]. unfold osds_fuel. fold (osds_bound c).
    pose proof (osds_bound_le c o Hs). unfold CEPH_HOMELESS_OSD in *. lia.
  - by intros _ c' [? _].
Qed.

Section loops.
Context (opts : ceph_options) (Henv : ∀ m n, map_ok (co_fuel opts) m → env_ok m (co_env opts m n)).
Implicit Types (c : client) (p : rptr) (r : osd_request) (o : Z) (s : osd_session) (X : rptr → Prop).
Implicit Types (m : ceph_osdmap) (t : osd_target) (l : list (Z * rptr)).
Local Abbreviation fuel := (co_fuel opts).
Local Abbreviation Inv := (OsdInv.Inv opts).
Local Abbreviation none := (λ _ : rptr, False).

Lemma Inv_idle_any m m' nr X c : Inv (idle m) nr X c → Inv (idle m') nr X c.
Proof.
  intros [H1 H2 H3 [S1 S2 S3 S4 S5 S6 S7] H5 H6 H7 H8]. split; try done.
  - split; try done. intros o s Hs Hne. destruct (S4 o s Hs Hne) as [?|[[] _]]. by left.
  - intros p r Hp Hl Hn. destruct (H7 p r Hp Hl Hn) as [?|[?|(o & s & Ho & Hs & [[_ ?]|[[] _]])]]; [by left|by right; left|].
    right; right. exists o, s. split_and!; [done..|]. left. split; [by intros []|done].
Qed.

(** Between events. *)
Definition Good c : Prop := Inv (idle (c_osdmap c)) ∅ none c.
Lemma Good_any m c : Inv (idle m) ∅ none c → Good c.
Proof. apply Inv_idle_any. Qed.

(** ** Faults *)

Lemma wpst_registered o serial c (Q : bool → client → Prop) :
  (∀ b, (b = true → is_Some (c_sessions c !! o)) → Q b c) → wpst (registered o serial) c Q.
Proof.
  intros HQ. unfold registered. apply wpst_bind, wpst_get, wpst_ret, HQ. by destruct (c_sessions c !! o).
Qed.

Lemma wpst_reopen_kick m0 o opened c :
  Inv (idle m0) ∅ none c → o ≠ CEPH_HOMELESS_OSD → is_Some (c_sessions c !! o) → unchecked o c →
  wpst (err ← reopen_osd opts o opened; st_when (err =? 0) (kick_osd_requests opts o)) c (λ _ c',
    Inv (idle m0) ∅ none c' ∧ c_map_checks c' = c_map_checks c ∧
    (∀ o', o' ≠ o → is_Some (c_sessions c !! o') → is_Some (c_sessions c' !! o')) ∧
    (∀ o', is_Some (c_sessions c' !! o') → is_Some (c_sessions c !! o'))).
Proof.
  intros H Hne [s Hs] Hun. apply wpst_bind. eapply wpst_mono; [by eapply wpst_reopen_osd|].
  intros err c1 ((_ & _ & _ & _ & Emc) & Hst & Hsub & Hc1). apply wpst_when; intros Herr; rewrite Herr in Hc1; [|done].
  destruct Hc1 as (s1 & Hs1 & Hk). eapply wpst_mono; [eapply (wpst_kick_osd_requests opts (idle m0) ∅ o s1); try done|].
  { apply settled_idle. }
  intros _ c2 (H2 & Hq & (Emc2 & _)). split_and!; [done|congruence|..]; intros o' *; rewrite (quiet_sessions _ _ _ Hq); auto.
Qed.

Lemma wpst_osd_fault o serial opened c :
  Good c → CEPH_HOMELESS_OSD < o → unchecked o c → wpst (osd_fault opts o serial opened) c (λ _ c', Good c').
Proof.
  intros H Hpos Hun. unfold osd_fault. apply wpst_bind, wpst_registered. intros b Hb. apply wpst_when; [|done].
  intros Hb'. apply (wpst_mono _ _ (λ _ c', ∃ m, Inv (idle m) ∅ none c')); [|intros _ c' [m ?]; by eapply Good_any].
  apply wpst_bind. eapply wpst_mono.
  { apply (wpst_bind_inv _ _ _ _ (wpst_reopen_kick (c_osdmap c) o opened c H ltac:(lia) (Hb Hb') Hun)). }
  intros err c1 Hc1. apply wpst_bind. eapply wpst_mono; [exact Hc1|]. intros _ c2 (H2 & _).
  eapply wpst_mono; [by eapply wpst_maybe_request_map|]. intros _ c3 (? & _). by exists (c_osdmap c).
Qed.

Lemma wpst_reopen_osds opened c :
  Good c → c_map_checks c = ∅ → wpst (ceph_osdc_reopen_osds opts opened) c (λ _ c', Good c').
Proof.
  intros H Hmc. unfold ceph_osdc_reopen_osds.
  eapply wpst_mono; [apply (wpst_each_osd (λ c', Inv (idle (c_osdmap c)) ∅ none c' ∧ c_map_checks c' = ∅))|].
  - done.
  - intros o c' [H' Hmc'] Hpos Hs. eapply wpst_mono; [apply (wpst_reopen_kick (c_osdmap c)); try done; [lia|]|].
    + intros p r _ _. by rewrite Hmc', lookup_empty.
    + intros _ c2 (? & ? & ? & ?). split_and!; [done|congruence|done..].
  - intros _ c' [? _]. by eapply Good_any.
Qed.

(** ** Ending the requests of all sessions *)

Lemma computed_barrier m eb eb' t : eb <= eb' → computed fuel m eb t → computed fuel m eb' t.
Proof. intros Hle [H1 H2 H3 H4 H5]. split; try done. intros Hp. destruct (H5 Hp) as [?|?]; [left; lia|by right]. Qed.

Lemma Inv_barrier φ nr X eb c : c_epoch_barrier c <= eb → Inv φ nr X c → Inv φ nr X (set_c_epoch_barrier eb c).
Proof.
  intros Hle [H1 H2 H3 H4 H5 H6 H7 H8]. split; try done. intros p r Hp Hl Hn. client_simpl.
  assert (Hat : ∀ m mc o s, at_ok fuel m (c_epoch_barrier c) mc o s p r → at_ok fuel m eb mc o s p r).
  { intros m mc o s. unfold at_ok. destruct (pool_of _ _); [|done]. intros (? & ? & ?). split_and!; [done|by eapply computed_barrier|tauto..]. }
  destruct (H7 p r Hp Hl Hn) as [?|[(? & ? & Hr)|(o & s & Ho & Hs & H)]]; [by left| |].
  - right; left. split; [done|]. split; [done|]. destruct Hr; [by left|right; by eapply computed_barrier].
  - right; right. exists o, s. split_and!; [done..|]. destruct H as [[? ?]|[? ?]]; [left|right]; split; auto.
Qed.

Lemma wpst_update_epoch_barrier φ nr X eb c :
  Inv φ nr X c →
  wpst (update_epoch_barrier eb) c (λ _ c', Inv φ nr X c' ∧ c_sessions c' = c_sessions c ∧ c_reqs c' = c_reqs c
    ∧ c_promoting c' = c_promoting c ∧ c_osdmap c' = c_osdmap c).
Proof.
  intros H. unfold update_epoch_barrier. apply wpst_bind, wpst_get, wpst_when; [|done]. rewrite Z.gtb_ltb. intros Hlt%Z.ltb_lt.
  apply wpst_bind, wpst_modify. apply wpst_when; intros _.
  - eapply wpst_mono; [eapply wpst_maybe_request_map, Inv_barrier; [|exact H]; lia|].
    intros _ c' (? & Hq & _ & ? & ?). destruct Hq. done.
  - split_and!; try done. apply Inv_barrier; [lia|done].
Qed.

(** A body that keeps the invariant and changes its request only. *)
Definition only_ends m0 o (body : rptr → C unit) : Prop := ∀ p r c,
  Inv (idle m0) ∅ none c → c_reqs c !! p = Some r → r_osd r = Some o → live r →
  wpst (body p) c (λ _ c', Inv (idle m0) ∅ none c' ∧ (∀ o', is_Some (c_sessions c' !! o') ↔ is_Some (c_sessions c !! o'))
    ∧ ∃ r', c_reqs c' = <[p := r']> (c_reqs c)).

Lemma wpst_each_ends m0 o body c :
  only_ends m0 o body → Inv (idle m0) ∅ none c → is_Some (c_sessions c !! o) →
  wpst (each_request o body) c (λ _ c', Inv (idle m0) ∅ none c' ∧ ∀ o', is_Some (c_sessions c' !! o') ↔ is_Some (c_sessions c !! o')).
Proof.
  intros Hbody H [s Hs].
  eapply wpst_mono; [apply (wpst_each_request (λ l c', Inv (idle m0) ∅ none c' ∧ todo o l c'
    ∧ ∀ o', is_Some (c_sessions c' !! o') ↔ is_Some (c_sessions c !! o')) o s c)|].
  - done.
  - split_and!; [done|by eapply todo_init|done].
  - intros tid p l c' (H' & Htodo & Hs'). split; [eapply todo_lookup; [done|done|by left]|].
    destruct (td_in _ _ _ Htodo tid p) as (r & Hp & Ho & _); [by left|].
    destruct (linked_at _ _ _ _ _ _ _ _ H' Hp Ho id) as (Hl & _).
    eapply wpst_mono; [by eapply Hbody|]. intros _ c2 (H2 & Hs2 & r' & Er). split_and!; [done|by eapply todo_step|].
    intros o'. by rewrite Hs2.
  - intros _ c' (? & _ & ?). done.
Qed.

Lemma wpst_for_each_request m0 f c :
  (∀ o, only_ends m0 o f) → Inv (idle m0) ∅ none c → wpst (for_each_request f) c (λ _ c', Inv (idle m0) ∅ none c').
Proof.
  intros Hf H. unfold for_each_request. apply wpst_bind.
  eapply wpst_mono; [apply (wpst_each_osd (λ c', Inv (idle m0) ∅ none c'))|].
  - done.
  - intros o c' H' _ Hs. eapply wpst_mono; [by apply wpst_each_ends|]. intros _ c2 (? & Hs2).
    split_and!; [done|..]; intros o' *; rewrite Hs2; auto.
  - intros [] c1 H1. eapply wpst_mono; [apply wpst_each_ends; [done|exact H1|]|].
    + apply (ss_home _ _ _ _ _ (iv_sess _ _ _ _ _ H1)).
    + by intros _ c2 [? _].
Qed.

Lemma abort_only_ends m0 o err : only_ends m0 o (λ p, abort_request opts p err).
Proof.
  intros p r c H Hp Ho Hl. destruct (linked_free _ _ _ _ _ _ _ _ H Hp Ho) as (_ & Hnr & Hpr).
  eapply wpst_mono; [eapply (wpst_abort_request opts (idle m0) ∅ none (λ q, q = p ∨ none q) p r); try done|].
  - by apply Inv_take.
  - by left.
  - intros _ c' (? & Hq & _ & r' & ? & _). split_and!; [done|intros o'; by apply quiet_sessions|eauto].
Qed.

Lemma wpst_abort_requests err c : Good c → wpst (ceph_osdc_abort_requests opts err) c (λ _ c', Good c').
Proof.
  intros H. unfold ceph_osdc_abort_requests. apply wpst_bind.
  eapply wpst_mono; [apply wpst_for_each_request; [intros o; apply abort_only_ends|exact H]|].
  intros [] c' H'. apply wpst_modify. apply (Good_any (c_osdmap c)). by destruct H'.
Qed.

Lemma abort_on_full_only_ends m0 o : only_ends m0 o (abort_on_full_fn opts).
Proof.
  intros p r c H Hp Ho Hl. unfold abort_on_full_fn. apply wpst_bind. eapply wpst_get_req; [done|]. apply wpst_bind, wpst_get.
  apply wpst_when; intros _; [|split_and!; [done|done|]; exists r; by rewrite insert_id].
  apply wpst_bind. eapply wpst_mono; [by eapply wpst_update_epoch_barrier|]. intros _ c1 (H1 & Es & Er & _).
  eapply wpst_mono; [eapply (abort_only_ends m0 o (- ENOSPC)); [exact H1|by rewrite Er|done..]|].
  intros [] c2. by rewrite Es, Er.
Qed.

Lemma wpst_abort_on_full m0 c :
  Inv (idle m0) ∅ none c → wpst (ceph_osdc_abort_on_full opts) c (λ _ c', Inv (idle m0) ∅ none c').
Proof.
  intros H. unfold ceph_osdc_abort_on_full. apply wpst_bind, wpst_get, wpst_when; [|done]. intros _.
  apply wpst_for_each_request; [apply abort_on_full_only_ends|done].
Qed.
End loops.
