(* ===== verification/OsdTimeouts.v ===== *)
(** * The invariant under timeouts, backoffs and replies *)
From S2P Require Import Prelude Hash Crush Mapper Choose DoRule Workspace OsdMap Placement.
From S2P Require Import CrushLoc OsdTarget Decode OsdMapWire OsdBackoff State OsdData OsdClient.
From S2P Require Import OsdLinger OsdMapChange OsdReply OsdEvents OsdInv OsdSafe OsdRequests OsdSubmit.
From S2P Require Import OsdSessions OsdLoops.

Section timeouts.
Context (opts : ceph_options) (Henv : ∀ m n, map_ok (co_fuel opts) m → env_ok m (co_env opts m n)).
Implicit Types (c : client) (p : rptr) (r : osd_request) (o : Z) (s : osd_session) (X : rptr → Prop).
Implicit Types (m : ceph_osdmap) (t : osd_target) (l : list (Z * rptr)).
Local Abbreviation fuel := (co_fuel opts).
Local Abbreviation Inv := (OsdInv.Inv opts).
Local Abbreviation none := (λ _ : rptr, False).

(** ** Requests that are too old *)

Lemma expire_only_ends m0 o : only_ends opts m0 o (expire_request opts).
Proof.
  intros p r c H Hp Ho Hl. unfold expire_request. apply wpst_bind, wpst_get, wpst_bind. eapply wpst_get_req; [done|].
  apply wpst_when; intros _; [by eapply abort_only_ends|]. split_and!; [done|done|]. exists r. by rewrite insert_id.
Qed.

Lemma wpst_keepalives m0 (slow : list Z) c :
  Inv (idle m0) ∅ none c → wpst (keepalives slow) c (λ _ c', Inv (idle m0) ∅ none c').
Proof.
  revert c. induction slow as [|o slow IH]; intros c H; cbn [keepalives]; [done|].
  apply wpst_bind, wpst_modify, IH. by apply Inv_emit.
Qed.

Lemma wpst_timeout_osd m0 o c slow :
  Inv (idle m0) ∅ none c → is_Some (c_sessions c !! o) →
  wpst (timeout_osd opts o) (c, slow) (λ _ z, Inv (idle m0) ∅ none z.1
    ∧ ∀ o', is_Some (c_sessions z.1 !! o') ↔ is_Some (c_sessions c !! o')).
Proof.
  intros H Hs. unfold wpst, timeout_osd. cbv zeta. apply wp_bind.
  eapply wp_mono; [apply (wpst_each_ends opts m0 o _ c (expire_only_ends m0 o) H Hs)|].
  intros [[] c1] [H1 Hs1]. destruct (proj2 (Hs1 o) Hs) as [s1 Hs1']. apply wp_bind.
  eapply wp_mono; [apply (wpst_each_linger opts (idle m0) ∅ none o s1 c1 _ (λ _ c', c' = c1) H1 Hs1' eq_refl)|].
  by intros [[] c2] ->.
Qed.

Lemma wpst_timeout_osds m0 (B : Z) n (next : option Z) c slow :
  (∀ o', is_Some (c_sessions c !! o') → o' <= B) → Inv (idle m0) ∅ none c →
  match next with Some o => CEPH_HOMELESS_OSD < o ∧ is_Some (c_sessions c !! o) ∧ (Z.to_nat (B - o) < n)%nat | None => True end →
  wpst (timeout_osds opts n next) (c, slow) (λ _ z, Inv (idle m0) ∅ none z.1
    ∧ ∀ o', is_Some (c_sessions z.1 !! o') ↔ is_Some (c_sessions c !! o')).
Proof.
  revert next c slow. induction n as [|n IH]; intros [o|] c slow HB H Ho; cbn [timeout_osds]; [|done| |done].
  { destruct Ho as (_ & _ & ?). lia. }
  destruct Ho as (Hpos & Hs & Hn). apply wpst_bind. eapply wpst_mono; [by apply (wpst_timeout_osd m0 o c)|].
  intros _ [c1 slow1] [H1 Hs1]. cbn [fst] in *. apply wpst_bind, wpst_get. cbn [fst].
  pose proof (rb_next_osd_spec c1 o) as Hnext.
  eapply wpst_mono; [apply (IH (rb_next_osd c1 o) c1 slow1)|].
  - intros o' ?%Hs1. by apply HB.
  - done.
  - destruct (rb_next_osd c1 o) as [o'|]; [|done]. destruct Hnext as (Hs' & Hlt & _). pose proof (HB o' (proj1 (Hs1 o') Hs')).
    split_and!; [lia|done|lia].
  - intros _ z [? Hs2]. split; [done|]. intros o'. by rewrite Hs2.
Qed.

Lemma wpst_handle_timeout c : Good opts c → wpst (handle_timeout opts) c (λ _ c', Good opts c').
Proof.
  intros H. unfold wpst, handle_timeout. apply wp_bind. pose proof (rb_next_osd_spec c CEPH_HOMELESS_OSD) as Hn.
  eapply wp_mono; [apply (wpst_timeout_osds (c_osdmap c) (osds_bound c) (osds_fuel c) (rb_next_osd c CEPH_HOMELESS_OSD) c [])|].
  - intros o. apply osds_bound_le.
  - exact H.
  - destruct (rb_next_osd _ _) as [o|]; [|done]. destruct Hn as (Hs & Hlt & _). split_and!; [done..|].
    unfold osds_fuel. fold (osds_bound c). pose proof (osds_bound_le c o Hs). unfold CEPH_HOMELESS_OSD in *. lia.
  - intros [[] [c1 slow]] [H1 _]. cbn [fst] in H1. apply wp_bind.
    apply (wp_mono _ (λ '(_, c'), Inv (idle (c_osdmap c)) ∅ none c')).
    { apply (wpst_when _ _ c1 (λ _ c', Inv (idle (c_osdmap c)) ∅ none c')); [|done]. intros _.
      eapply wpst_mono; [apply (wpst_each_ends opts (c_osdmap c)); [apply expire_only_ends|exact H1|]|].
      - apply (ss_home _ _ _ _ _ (iv_sess _ _ _ _ _ H1)).
      - by intros _ c' [? _]. }
    intros [[] c2] H2. apply wp_bind. apply (wp_mono _ (λ '(_, c'), Inv (idle (c_osdmap c)) ∅ none c')).
    { apply (wpst_when _ _ c2 (λ _ c', Inv (idle (c_osdmap c)) ∅ none c')); [|done]. intros _.
      eapply wpst_mono; [by eapply wpst_maybe_request_map|]. by intros _ c' [? _]. }
    intros [[] c3] H3. eapply wp_mono; [by apply wpst_keepalives|]. intros [[] c4] H4. by eapply Good_any.
Qed.

(** ** Idle sessions *)

Lemma wpst_close_idle m0 (idle_osds : list Z) c :
  Inv (idle m0) ∅ none c → NoDup idle_osds →
  (∀ o, o ∈ idle_osds → o ≠ CEPH_HOMELESS_OSD ∧ is_Some (c_sessions c !! o) ∧ ∀ p r, c_reqs c !! p = Some r → r_osd r ≠ Some o) →
  wpst (close_idle opts idle_osds) c (λ _ c', Inv (idle m0) ∅ none c').
Proof.
  revert c. induction idle_osds as [|o os IH]; intros c H Hd Hin; cbn [close_idle]; [done|].
  apply NoDup_cons in Hd as [Hn Hd]. destruct (Hin o) as (Hne & [s Hs] & Hno); [by left|].
  apply wpst_bind, wpst_get, wpst_bind. eapply wpst_get_session; [done|]. destruct (time_before _ _); [done|].
  apply wpst_bind. eapply wpst_mono; [eapply (wpst_close_osd opts (idle m0) ∅ o s); try done|].
  { intros p r Hp Ho. by destruct (Hno p r). }
  intros _ c1 [H1 _ _ _ Hstay Hreal]. apply IH; [done..|]. intros o' Ho'.
  destruct (Hin o') as (Hne' & [s' Hs'] & Hno'); [by right|]. split_and!; [done| |].
  - destruct (Hstay o' s') as (x & Hx & _); [congruence|done|eauto].
  - intros p r Hp Ho. apply (Hno' p r); [|done]. by apply (Hreal p r o').
Qed.

Lemma wpst_handle_osds_timeout c : Good opts c → wpst (handle_osds_timeout opts) c (λ _ c', Good opts c').
Proof.
  intros H. unfold handle_osds_timeout. apply wpst_bind, wpst_get.
  eapply wpst_mono; [apply (wpst_close_idle (c_osdmap c)); [exact H|by eapply ss_lru, iv_sess, H|]|intros [] c2 H2; exact (Good_any opts _ _ H2)].
  intros o Ho. destruct (ss_idle _ _ _ _ _ (iv_sess _ _ _ _ _ H) o Ho) as (Hne & s & Hs & Hr). split_and!; [done|eauto|].
  intros p r Hp Hpo. destruct (linked_tree _ _ _ _ _ _ _ _ H Hp Hpo) as (s' & Hs' & _ & Hn). by apply Hn.
Qed.

(** ** Backoffs *)

Lemma spg_compare_refl (spg : ceph_spg) : ceph_spg_compare spg spg = 0.
Proof.
  unfold ceph_spg_compare, ceph_pg_compare.
  rewrite !Z.gtb_ltb, !Z.ltb_irrefl. done.
Qed.

Lemma contains_contained x t : contains x (hoid_fill_from_target t) → target_contained_by t (bo_begin x) (bo_end x) = true.
Proof.
  unfold contains, target_contained_by. intros [->|[H1 H2]]; [done|]. apply orb_true_iff. right.
  apply andb_true_iff. split; [rewrite Z.gtb_ltb|]; by apply Z.ltb_lt.
Qed.

Lemma Inv_backoffs φ nr X o s b c :
  Inv φ nr X c → c_sessions c !! o = Some s → session_ok b →
  (∀ p r, c_reqs c !! p = Some r → r_osd r = Some o → ¬ X p → held_back (o_backoffs_by_id (o_backoffs s)) (r_t r) →
    held_back (o_backoffs_by_id b) (r_t r)) →
  Inv φ nr X (set_c_sessions (<[o := set_o_backoffs b s]> (c_sessions c)) c).
Proof.
  intros H Hs Hb Hh. pose proof (ss_backoffs _ _ _ _ _ (iv_sess _ _ _ _ _ H) o s Hs) as Hok. eapply Inv_session; try done.
  intros p r Hp Ho _ Hx [Hplug|Hsent]; [left|by right]. cbn. apply should_plug_spec; [done|].
  apply (Hh p r); try done. by apply should_plug_spec.
Qed.

Lemma held_back_more ids ids' t : ids ⊆ ids' → held_back ids t → held_back ids' t.
Proof. intros Hs (id & x & Hx & ?). exists id, x. split; [by eapply lookup_weaken|done]. Qed.

(** Whether the request is held by a backoff that goes. *)
Definition unblocks (m : MOSDBackoff) t : bool :=
  (ceph_spg_compare (t_spgid t) (mb_spgid m) =? 0) && target_contained_by t (mb_begin m) (mb_end m).

Lemma held_back_left ids (m : MOSDBackoff) t x :
  ids !! mb_id m = Some x → x = backoff_of m → unblocks m t = false → held_back ids t → held_back (delete (mb_id m) ids) t.
Proof.
  intros Hx -> Hu (id & y & Hy & Hspg & Hin). exists id, y. split_and!; [|done..].
  apply lookup_delete_Some. split; [|done]. intros <-. simplify_eq. unfold unblocks in Hu. cbn in Hspg.
  rewrite <- Hspg, spg_compare_refl in Hu. cbn in Hu.
  by rewrite (contains_contained (backoff_of m) t Hin : target_contained_by t (mb_begin m) (mb_end m) = true) in Hu.
Qed.

Lemma wpst_unblock_requests m0 (m : MOSDBackoff) o s c :
  o ≠ CEPH_HOMELESS_OSD → c_sessions c !! o = Some s →
  (∀ tid p, (tid, p) ∈ rb_in_order (o_requests s) → ∃ r, c_reqs c !! p = Some r) →
  kicking opts (λ q, ∃ r, c_reqs c !! q = Some r ∧ unblocks m (r_t r) = true) (idle m0) ∅ o (rb_in_order (o_requests s)) c →
  wpst (each_request o (λ p, r ← get_req p; st_when (unblocks m (r_t r)) (send_request p))) c
    (λ _ c', Inv (idle m0) ∅ none c').
Proof.
  intros Hne Hs Hex Hk. set (K := λ q, _) in Hk.
  eapply wpst_mono; [apply (wpst_each_request (λ l c', kicking opts K (idle m0) ∅ o l c' ∧
    ∀ tid p, (tid, p) ∈ l → c_reqs c' !! p = c_reqs c !! p) o s c)|].
  - done.
  - done.
  - intros tid p l c' [Hk' Hsame]. assert (Hin : (tid, p) ∈ (tid, p) :: l) by left.
    pose proof Hk' as [H' Htodo _]. split; [eapply todo_lookup; [done|done|by left]|].
    destruct (td_in _ _ _ Htodo tid p Hin) as (r & Hp & Ho & Ht).
    assert (Hnext : ∀ c2, (∃ r', c_reqs c2 = <[p := r']> (c_reqs c')) → ∀ k q, (k, q) ∈ l → c_reqs c2 !! q = c_reqs c !! q).
    { intros c2 [r' Er] k q Hq. rewrite Er, lookup_insert_ne; [by apply (Hsame k q); right|]. intros <-.
      destruct Htodo as [Hd _]. apply NoDup_cons in Hd as [[] _]. apply list_elem_of_fmap. by exists (k, p). }
    destruct (unblocks m (r_t r)) eqn:Hu.
    + eapply wpst_mono; [apply (kicking_step opts K (idle m0) ∅ o tid p l c'); try done|].
      { by apply settled_idle. } { exists r. by rewrite <- (Hsame tid p Hin). }
      { intros r1 Hr1 _. simplify_eq. eexists. split; [done|]. by rewrite Hu. }
      intros _ c2 (Hk2 & _ & _ & Hr2). split; [done|by apply Hnext].
    + apply wpst_bind. eapply wpst_get_req; [done|]. rewrite Hu. cbn [st_when]. apply wpst_ret.
      split; [|apply Hnext; exists r; by rewrite insert_id]. destruct Hk' as [_ _ Hb']. split.
      * eapply Inv_weaken; [|exact H']. intros q [Hq Hkq]. split; [|done]. apply elem_of_cons in Hq as [->|?]; [|done].
        cbn in Hkq. destruct Hkq as (r1 & Hr1 & Hu1). rewrite <- (Hsame tid p Hin), Hp in Hr1. simplify_eq. congruence.
      * eapply todo_step; [done|]. by rewrite insert_id.
      * intros k q r1 Hq. apply Hb' with k. by right.
  - intros _ c' [Hk' _].  eapply Inv_weaken; [|by apply Hk']. by intros q [?%not_elem_of_nil _].
Qed.

(** What an OSD says about a backoff: a new one, or one that there is. *)
Definition legal_backoff o c (m : MOSDBackoff) : Prop := ∀ s, c_sessions c !! o = Some s →
  (mb_op m = CEPH_OSD_BACKOFF_OP_BLOCK → fresh (o_backoffs_by_id (o_backoffs s)) (backoff_of m))
  ∧ (mb_op m = CEPH_OSD_BACKOFF_OP_UNBLOCK →
       (∀ x, o_backoffs_by_id (o_backoffs s) !! mb_id m = Some x → x = backoff_of m) ∧ unchecked o c).

Lemma wpst_handle_backoff_unblock m0 (m : MOSDBackoff) o s c :
  Inv (idle m0) ∅ none c → o ≠ CEPH_HOMELESS_OSD → c_sessions c !! o = Some s → unchecked o c →
  (∀ x, o_backoffs_by_id (o_backoffs s) !! mb_id m = Some x → x = backoff_of m) →
  wpst (handle_backoff_unblock o m) c (λ _ c', Inv (idle m0) ∅ none c').
Proof.
  intros H Hne Hs Hun Hx. pose proof (ss_backoffs _ _ _ _ _ (iv_sess _ _ _ _ _ H) o s Hs) as Hok.
  unfold handle_backoff_unblock. apply wpst_bind. eapply wpst_get_session; [done|]. apply wpst_bind, wpst_lift.
  eapply wp_mono; [by apply remove_backoff_spec|]. intros [b found] (Hb & Eids & ->).
  apply wpst_when; [|done]. intros [x Hid]%bool_decide_eq_true. specialize (Hx x Hid). subst x.
  apply wpst_bind, wpst_modify. set (s1 := set_o_backoffs b s). set (c1 := set_c_sessions _ c).
  pose proof (kicking_init opts _ _ _ _ (settled_idle m0) H Hs Hun) as [_ [Hd Hin] Hbase].
  apply (wpst_unblock_requests m0 m o s1 c1); [done|by apply lookup_insert_eq| |].
  { intros tid p (r & ? & _)%Hin. eauto. }
  split; [|by split|exact Hbase]. apply Inv_backoffs; [|done|done|].
  - eapply Inv_weaken; [|exact H]. done.
  - intros p r Hp Ho Hnx Hh. rewrite Eids. eapply held_back_left; [done|done| |done].
    apply not_true_is_false. intros Hu. apply Hnx. split; [|by exists r].
    destruct (linked_tree _ _ _ _ _ _ _ _ H Hp Ho) as (s' & Hs' & Hk & _). simplify_eq.
    apply list_elem_of_fmap. exists (r_tid r, p). split; [done|]. by apply elem_of_in_order.
Qed.

Lemma wpst_handle_backoff mem_ok o serial front c :
  Good opts c → CEPH_HOMELESS_OSD < o →
  wp (decode_MOSDBackoff (λ i, mem_ok (3 + i)%nat) front tt 0)
    (λ '(res, _, _), match res with inl m => legal_backoff o c m | inr _ => True end) →
  wpst (handle_backoff mem_ok o serial front) c (λ _ c', Good opts c').
Proof.
  intros H Hpos Hdec. apply (wpst_mono _ _ (λ _ c', Inv (idle (c_osdmap c)) ∅ none c')); [|intros [] c2 H2; exact (Good_any opts _ _ H2)].
  unfold handle_backoff. apply wpst_bind, wpst_registered. intros b Hb. apply wpst_when; [|done].
  intros Hbt. destruct (Hb Hbt) as [s Hs]. pose proof (ss_backoffs _ _ _ _ _ (iv_sess _ _ _ _ _ H) o s Hs) as Hok.
  apply wpst_bind, wpst_lift. eapply wp_mono; [exact Hdec|]. intros [[[m|err] []] pos] Hm; [|done].
  destruct (Hm s Hs) as [Hblock Hunblock].
  destruct (Z.eqb_spec (mb_op m) CEPH_OSD_BACKOFF_OP_BLOCK) as [Hop|_].
  - apply wpst_bind. eapply wpst_get_session; [done|]. apply wpst_bind, wpst_lift.
    eapply wp_mono; [apply handle_backoff_block_spec; [done|by apply Hblock]|]. intros [b' msg] [Hb' Hids].
    apply wpst_bind, wpst_modify.
    assert (H1 : Inv (idle (c_osdmap c)) ∅ none (set_c_sessions (<[o := set_o_backoffs b' s]> (c_sessions c)) c)).
    { apply Inv_backoffs; [exact H|done|done|]. intros p r _ _ _. apply held_back_more.
      destruct Hids as [(-> & _)|(-> & _)]; [done|]. apply insert_subseteq. by apply (fr_id _ _ (Hblock Hop)). }
    destruct msg as [bytes|]; [|exact H1]. apply wpst_modify. by apply Inv_emit.
  - destruct (Z.eqb_spec (mb_op m) CEPH_OSD_BACKOFF_OP_UNBLOCK) as [Hop|_]; [|done].
    destruct (Hunblock Hop) as [Hx Hun]. eapply wpst_handle_backoff_unblock; [exact H|lia|done..].
Qed.
End timeouts.
