(* ===== verification/OsdReplies.v ===== *)
(** * The invariant under replies and events of one request *)
From S2P Require Import Prelude Hash Crush Mapper Choose DoRule Workspace OsdMap Placement.
From S2P Require Import CrushLoc OsdTarget Decode OsdMapWire OsdBackoff State OsdData OsdClient.
From S2P Require Import OsdLinger OsdMapChange OsdReply OsdEvents OsdInv OsdSafe OsdRequests OsdSubmit.
From S2P Require Import OsdSessions OsdLoops OsdTimeouts.

Section replies.
Context (opts : ceph_options) (Henv : ∀ m n, map_ok (co_fuel opts) m → env_ok m (co_env opts m n)).
Implicit Types (c : client) (p : rptr) (r : osd_request) (o : Z) (s : osd_session) (X : rptr → Prop).
Implicit Types (m : ceph_osdmap) (t : osd_target).
Local Abbreviation fuel := (co_fuel opts).
Local Abbreviation Inv := (OsdInv.Inv opts).
Local Abbreviation none := (λ _ : rptr, False).

(** ** Completion *)

Lemma wpst_complete_request_ φ nr X X' mem_ok p r c :
  Inv φ nr X' c → (∀ q, X' q → q = p ∨ X q) → X' p → c_reqs c !! p = Some r → ¬ live r → r_osd r = None → p ∉ finished c →
  wpst (complete_request_ mem_ok p) c (λ _ c', Inv φ nr X c').
Proof.
  intros H HX Hx Hp Hl Ho Hd. unfold complete_request_. apply wpst_bind. eapply wpst_get_req; [done|].
  destruct (rq_plain _ _ _ _ _ _ _ _ (iv_reqs _ _ _ _ _ H) p r Hp) as [_ ->]. apply wpst_bind, wpst_modify.
  eapply wpst_mono; [eapply (wpst_complete_all opts φ nr X X' p r); [by apply Inv_emit|done..]|]. by intros [] c' [? _].
Qed.

Lemma wpst_work φ nr mem_ok c :
  Inv φ nr none c → wpst (complete_request_workfn mem_ok) c (λ _ c', Inv φ nr none c').
Proof.
  intros H. unfold complete_request_workfn. apply wpst_bind, wpst_get. destruct (c_completion_wq c) as [|p rest] eqn:Ewq; [done|].
  assert (Hin : p ∈ finished c) by (unfold finished; rewrite Ewq; left).
  destruct (dn_done _ _ _ (iv_done _ _ _ _ _ H) p Hin) as (r & Hp & Hl).
  assert (Ho : r_osd r = None).
  { destruct (r_osd r) as [o|] eqn:Ho; [|done].
    by destruct (rq_home _ _ _ _ _ _ _ _ (iv_reqs _ _ _ _ _ H) p r o Hp Ho) as (_ & _ & [?|[]]). }
  apply wpst_bind, wpst_modify. set (c1 := set_c_completion_wq rest c).
  pose proof (dn_once _ _ _ (iv_done _ _ _ _ _ H)) as Hd. unfold finished in Hd. rewrite Ewq in Hd. cbn in Hd.
  apply NoDup_cons in Hd as [Hn Hd].
  eapply (wpst_complete_request_ φ nr none (λ q, q = p ∨ none q) mem_ok p r c1); try done; [|by left].
  destruct (Inv_take opts φ nr none p c H) as [H1 H2 [D1 D2 D3] H4 H5 H6 H7 H8]. split; try done.
  split; [done| |].
  - intros q Hq. apply D2. unfold finished. rewrite Ewq. by right.
  - intros q r' Hq Hlq Hnq. specialize (D3 q r' Hq Hlq Hnq). unfold finished in D3. rewrite Ewq in D3.
    apply elem_of_cons in D3 as [->|?]; [|done]. destruct Hnq. by left.
Qed.

(** ** Cancelling, and answers of the monitors *)

Lemma wpst_cancel φ X p c :
  Inv φ ∅ X c → is_Some (c_reqs c !! p) → ¬ X p → wpst (ceph_osdc_cancel_request opts p) c (λ _ c', Inv φ ∅ X c').
Proof.
  intros H [r Hp] Hx. unfold ceph_osdc_cancel_request. apply wpst_bind. eapply wpst_get_req; [done|].
  destruct (r_osd r) as [o|] eqn:Ho; [|done]. destruct (linked_free _ _ _ _ _ _ _ _ H Hp Ho) as (_ & Hnr & Hpr).
  destruct (linked_at _ _ _ _ _ _ _ _ H Hp Ho Hx) as (Hl & _).
  eapply wpst_mono; [eapply (wpst_cancel_request opts φ ∅ X (λ q, q = p ∨ X q) p r); try done|].
  - by apply Inv_take.
  - by left.
  - by intros [] c' [? _].
Qed.

(** The answer to a map check.  The request is on its session: without a pool, it has nothing else to wait for. *)
Lemma wpst_map_check φ tid newest c :
  settled φ → Inv φ ∅ none c →
  wpst (map_check_cb opts tid newest) c (λ _ c', Inv φ ∅ none c').
Proof.
  intros Hset H. unfold map_check_cb. apply wpst_bind, wpst_get.
  destruct (c_map_checks c !! tid) as [p|] eqn:Hq; [|done].
  destruct (rq_mc _ _ _ _ _ _ _ _ (iv_reqs _ _ _ _ _ H) tid p Hq) as (Htn & r & Hp & Ht & Hl & Ha & Hb).
  assert (Hc : ∃ o, r_osd r = Some o ∧ pool_of (c_osdmap c) (r_t r) = None).
  { destruct (iv_place _ _ _ _ _ H p r Hp Hl id) as [Hpr|[[Hnr _]|(o & s & Ho & _ & [[_ Hat]|[Hpe _]])]].
    - destruct (rq_pr _ _ _ _ _ _ _ _ (iv_reqs _ _ _ _ _ H) p Hpr) as (x & Hx & _ & Hx0 & _). congruence.
    - by rewrite lookup_empty in Hnr.
    - exists o. split; [done|]. unfold at_ok in Hat. destruct (pool_of _ _); [|done]. destruct Hat as (_ & _ & Hat & _). congruence.
    - by destruct (Hset _ _ Hpe). }
  destruct Hc as (o & Ho & Hpool).
  apply wpst_bind. eapply wpst_get_req; [done|]. rewrite Hb. cbn [nonzero Z.eqb negb st_when].
  apply wpst_bind. eapply wpst_upd_req; [done|]. apply wpst_bind, wpst_get, wpst_bind, wpst_lift. client_simpl.
  unfold rb_erase. rewrite Ht, Hq. cbn [deref mbind outcome_bind wp]. apply wpst_bind, wpst_modify. client_simpl.
  set (r1 := set_r_map_dne_bound (u32 newest) r). set (c1 := set_c_map_checks (delete tid (c_map_checks c)) c).
  assert (H1 : Inv φ ∅ (λ q, q = p ∨ none q) c1).
  { subst tid. eapply (Inv_uncheck opts φ ∅ _ p r p); [by apply Inv_take|by left|done..]. }
  assert (H2 : Inv φ ∅ (λ q, q = p ∨ none q) (set_c_reqs (<[p := r1]> (c_reqs c)) c1)).
  { eapply (Inv_update opts φ ∅ _ p r r1 c1); [done|by left|done| | |].
    - split; try done. cbn. lia.
    - intros _. exact (iv_target _ _ _ _ _ H p r Hp Hl).
    - left. rewrite Ht. split; [apply lookup_delete_eq|done]. }
  eapply wpst_mono; [eapply (wpst_check_pool_dne opts φ ∅ none _ p r1 o); [exact H2|done|by left|..]|by intros [] c' [? _]].
  - apply lookup_insert_eq.
  - done.
  - done.
  - apply Hset.
  - done.
  - by intros [].
Qed.

(** ** Replies *)

(** A target that a reply changes: nothing of what the caller has set. *)
Definition changes_target (f : osd_target → osd_target) : Prop := ∀ m t, target_ok m t → target_ok m (f t).
Lemma redirected_ok pool : changes_target (redirected pool).
Proof. intros m t [[] ? ? ?]. by split. Qed.
Lemma to_primary_ok : changes_target to_primary.
Proof.
  intros m t [[] ? ? Hun]. split; [done..|]. intros Hp. destruct (Hun Hp) as [?|(? & ? & ? & _)]; [by left|by right].
Qed.

(** A request that an OSD has answered was sent. *)
Lemma wpst_resubmit φ p r o f c :
  settled φ → Inv φ ∅ none c → c_reqs c !! p = Some r → r_osd r = Some o → r_attempts r ≠ 0 → changes_target f →
  wpst (resubmit opts o p f) c (λ _ c', Inv φ ∅ none c').
Proof.
  intros Hset H Hp Ho Ha Hf. destruct (linked_at _ _ _ _ _ _ _ _ H Hp Ho id) as (Hl & _).
  destruct (linked_free _ _ _ _ _ _ _ _ H Hp Ho) as (Ht & _ & Hpr).
  assert (Hmc : c_map_checks c !! r_tid r = None) by (eapply checked_self; [done..|tauto]).
  unfold resubmit. apply wpst_bind.
  eapply wpst_mono; [eapply (wpst_unlink_request opts φ ∅ (λ q, q = p ∨ none q) p r o); [by apply Inv_take|by left|done..]|].
  intros _ c1 (H1 & Hq & (Emc & _) & Er). set (r1 := set_r_osd None r) in *.
  assert (Hp1 : c_reqs c1 !! p = Some r1) by by rewrite Er, lookup_insert_eq.
  apply wpst_bind. eapply wpst_upd_req; [done|]. set (r2 := set_r_t (f (r_t r)) r1).
  assert (H2 : Inv φ ∅ (λ q, q = p ∨ none q) (set_c_reqs (<[p := r2]> (c_reqs c1)) c1)).
  { eapply (Inv_update opts φ ∅ _ p r1 r2 c1); [done|by left|done| | |by right].
    - split; try done. apply (rq_sent _ _ _ _ _ _ _ _ (iv_reqs _ _ _ _ _ H) p r Hp).
    - intros _. apply Hf. exact (iv_target _ _ _ _ _ H1 p r1 Hp1 Hl). }
  set (c2 := set_c_reqs _ c1) in H2.
  assert (H3 : Inv φ ∅ (λ q, q = p ∨ none q) (set_c_reqs (<[p := set_r_tid 0 r2]> (c_reqs c2)) (set_c_last_tid (c_last_tid c1) c2))).
  { pose proof (iv_plain _ _ _ _ _ H2) as (_ & _ & _ & Hlast).
    apply (Inv_tid opts φ ∅ _ p r2 0 (c_last_tid c1) c2); [done|by left|apply lookup_insert_eq|done| |done|split; [done|exact Hlast]|by left].
    split_and!; [by rewrite lookup_empty| |].
    - change (c_map_checks c1 !! r_tid r ≠ Some p). rewrite Emc, Hmc. done.
    - change (p ∉ c_promoting c1). by rewrite (qu_pr _ _ Hq). }
  unfold c2 in H3. client_simpl in *. rewrite insert_insert_eq in H3.
  set (c3 := set_c_reqs _ _) in H3. replace (set_c_reqs _ c1) with c3 by (subst c3; by destruct c1).
  eapply (wpst_submit_read opts Henv φ none _ p (set_r_tid 0 r2) c3); [done|exact H3|done|by left|apply lookup_insert_eq|done..|].
  change (p ∉ c_promoting c1). by rewrite (qu_pr _ _ Hq).
Qed.

(** The request of a reply has been sent, and what there is of the reply can be read. *)
Definition legal_reply o c (msg : osd_msg) : Prop := ∀ s p r,
  c_sessions c !! o = Some s → o_requests s !! ms_tid msg = Some p → c_reqs c !! p = Some r →
  r_attempts r ≠ 0 ∧
  wp (decode_MOSDOpReply (ms_front msg) (Z.of_nat (length (ms_front msg))) (ms_version msg)
        (oloc_pool_ns (t_target_oloc (r_t r))) tt 0) (λ _, True).

Lemma wpst_fail_reply φ p r o err c :
  Inv φ ∅ none c → c_reqs c !! p = Some r → r_osd r = Some o → r_attempts r ≠ 0 →
  wpst (complete_request opts p err) c (λ _ c', Inv φ ∅ none c').
Proof.
  intros H Hp Ho Ha. destruct (linked_at _ _ _ _ _ _ _ _ H Hp Ho id) as (Hl & _).
  destruct (linked_free _ _ _ _ _ _ _ _ H Hp Ho) as (_ & _ & Hpr).
  eapply wpst_mono; [eapply (wpst_complete_request opts φ ∅ none (λ q, q = p ∨ none q) p r); [by apply Inv_take|done|by left|done..|]|by intros [] c' [? _]].
  split_and!; [by rewrite lookup_empty| |done].
  rewrite (checked_self opts φ ∅ none p r c H Hp); [done|tauto].
Qed.

Lemma wpst_finish_reply φ mem_ok p r o c :
  Inv φ ∅ (λ q, q = p ∨ none q) c → c_reqs c !! p = Some r → r_osd r = Some o → live r → r_attempts r ≠ 0 →
  wpst (_ ← finish_request opts p; complete_request_ mem_ok p) c (λ _ c', Inv φ ∅ none c').
Proof.
  intros H Hp Ho Hl Ha. destruct (linked_free _ _ _ _ _ _ _ _ H Hp Ho) as (_ & _ & Hpr). apply wpst_bind.
  eapply wpst_mono; [eapply (wpst_finish_request opts φ ∅ _ p r); [done|by left|done|]|].
  { split_and!; [by rewrite lookup_empty| |done]. rewrite (checked_self opts _ _ _ _ _ _ H Hp); [done|tauto]. }
  intros _ c1 (H1 & Hq & (_ & Ewq & Elog) & r' & Er & Hl' & Ho' & _).
  eapply (wpst_complete_request_ φ ∅ none _ mem_ok p r' c1); [done|done|by left|by rewrite Er, lookup_insert_eq|done|done|].
  assert (finished c1 = finished c) as -> by (unfold finished; by rewrite Ewq, Elog). by eapply not_finished.
Qed.

Lemma Inv_request φ nr X p r r' c :
  Inv φ nr X c → X p → c_reqs c !! p = Some r → same_place r r' → r_t r' = r_t r → r_attempts r' = r_attempts r →
  r_map_dne_bound r' = r_map_dne_bound r → Inv φ nr X (set_c_reqs (<[p := r']> (c_reqs c)) c).
Proof.
  intros H Hx Hp Hs Et Ea Eb. eapply Inv_update; [done..| |by right]. intros Hl. rewrite Et.
  exact (iv_target _ _ _ _ _ H p r Hp Hl).
Qed.

Lemma wpst_handle_reply mem_ok o serial msg c :
  Good opts c → legal_reply o c msg → wpst (handle_reply opts mem_ok o serial msg) c (λ _ c', Good opts c').
Proof.
  intros H Hlegal. apply (wpst_mono _ _ (λ _ c', Inv (idle (c_osdmap c)) ∅ none c')); [|intros [] c2 H2; exact (Good_any opts _ _ H2)].
  unfold handle_reply. apply wpst_bind, wpst_registered. intros b Hb. apply wpst_when; [|done]. intros Hbt.
  destruct (Hb Hbt) as [s Hs]. apply wpst_bind. eapply wpst_get_session; [done|].
  destruct (o_requests s !! ms_tid msg) as [p|] eqn:Hk; [|done].
  assert (Hr : ∃ r, c_reqs c !! p = Some r ∧ r_osd r = Some o ∧ r_tid r = ms_tid msg).
  { apply (rq_tree _ _ _ _ _ _ _ _ (iv_reqs _ _ _ _ _ H) o (o_requests s)); [|done]. apply trees_of_lookup. eauto. }
  destruct Hr as (r & Hp & Ho & _). destruct (Hlegal s p r Hs Hk Hp) as [Ha Hdec].
  destruct (linked_at _ _ _ _ _ _ _ _ H Hp Ho id) as (Hl & _).
  apply wpst_bind. eapply wpst_get_req; [done|]. apply wpst_bind, wpst_lift.
  eapply wp_mono; [exact Hdec|]. intros [[[m|err] []] pos] _; [|by eapply wpst_fail_reply].
  destruct (_ && _); [done|]. destruct (negb (rd_redirect m =? -1)).
  { eapply wpst_resubmit; [by apply settled_idle|done..|apply redirected_ok]. }
  destruct (rd_result m =? - EAGAIN).
  { eapply wpst_resubmit; [by apply settled_idle|done..|apply to_primary_ok]. }
  destruct (negb (Z.of_nat _ =? _)); [by eapply wpst_fail_reply|].
  destruct (rq_sent _ _ _ _ _ _ _ _ (iv_reqs _ _ _ _ _ H) p r Hp) as [Ha0 _].
  apply wpst_bind. eapply wpst_upd_req; [done|]. set (r1 := set_r_ops _ r). set (c1 := set_c_reqs _ c).
  assert (H1 : Inv (idle (c_osdmap c)) ∅ (λ q, q = p ∨ none q) c1).
  { eapply (Inv_request _ _ _ p r r1); [by apply Inv_take|by left|done|by split|done..]. }
  assert (Hp1 : c_reqs c1 !! p = Some r1) by apply lookup_insert_eq. cbv zeta.
  destruct (negb (sum_u32 _ =? _)).
  - eapply (wpst_fail_reply _ p r1 o); [|done..]. eapply (Inv_put _ _ _ none _ p r1); [exact H1|done|done| |by intros []].
    intros _. pose proof (iv_place _ _ _ _ _ H p r Hp Hl id) as Hpl. exact Hpl.
  - apply wpst_bind. eapply wpst_upd_req; [done|]. set (r2 := set_outcome _ _ r1).
    eapply (wpst_finish_reply _ mem_ok p r2 o); [|apply lookup_insert_eq|done..].
    eapply (Inv_request _ _ _ p r1 r2 c1); [done|by left|done|by split|done..].
Qed.

(** ** New requests *)

Lemma wpst_alloc_request φ nr X t ops c :
  Inv φ nr X c → target_ok (c_osdmap c) t →
  wpst (alloc_request t ops) c (λ p c', Inv φ nr (λ q, q = p ∨ X q) c' ∧ c_promoting c' = c_promoting c ∧ c_reqs c !! p = None ∧
    ∃ r, c_reqs c' = <[p := r]> (c_reqs c) ∧ live r ∧ r_osd r = None ∧ r_tid r = 0 ∧ r_t r = t).
Proof.
  intros H Ht. unfold alloc_request. apply wpst_bind, wpst_get, wpst_bind, wpst_modify, wpst_bind, wpst_modify, wpst_ret. client_simpl.
  set (p := c_next c). set (r := OsdRequest _ _ _ _ _ _ _ _ _ _ _ _ _ _ _ _).
  assert (Hnone : c_reqs c !! p = None).
  { destruct (c_reqs c !! p) eqn:E; [|done]. pose proof (rq_next _ _ _ _ _ _ _ _ (iv_reqs _ _ _ _ _ H) _ _ E). unfold p in *. lia. }
  assert (Hne : ∀ q x, c_reqs c !! q = Some x → q ≠ p) by congruence.
  assert (Hk : ∀ q x, c_reqs c !! q = Some x → <[p := r]> (c_reqs c) !! q = Some x).
  { intros q x Hq. rewrite lookup_insert_ne; [done|]. by apply not_eq_sym, (Hne _ x). }
  split_and!; [|done|done|by exists r].
  destruct (Inv_take opts _ _ _ p c H) as [H1 [] [D1 D2 D3] H4 H5 H6 H7 H8]. split; client_simpl; try done.
  - split; try done.
    + by apply match_alloc.
    + intros q x o [[<- <-]|[_ Hq]]%lookup_insert_Some; [done|by apply rq_home].
    + intros tid q Hq. destruct (rq_nr tid q Hq) as (? & ? & x & ? & ?). eauto 10.
    + intros tid q Hq. destruct (rq_mc tid q Hq) as (? & x & ? & ?). eauto 10.
    + intros q Hq. destruct (rq_pr q Hq) as (x & ? & ?). eauto 10.
    + intros q x [[<- <-]|[_ Hq]]%lookup_insert_Some; [|by eapply rq_tid]. cbn.
 destruct H5 as (_ & _ & _ & ?). lia.
    + intros q q' x x' [[<- <-]|[_ Hq]]%lookup_insert_Some [[<- <-]|[_ Hq']]%lookup_insert_Some; [done| | |by apply rq_uniq].
      * by intros _ [].
      * intros Ht0 Hn. by rewrite Ht0 in Hn.
    + intros q x [[<- <-]|[_ Hq]]%lookup_insert_Some; [unfold p; lia|]. specialize (rq_next q x Hq). lia.
    + intros q x [[<- <-]|[_ Hq]]%lookup_insert_Some; [done|by eapply rq_plain].
    + intros q x [[<- <-]|[_ Hq]]%lookup_insert_Some; [done|by eapply rq_sent].
  - split; [done| |].
    + intros q (x & ? & ?)%D2. eauto.
    + intros q x [[<- <-]|[_ Hq]]%lookup_insert_Some; [by intros []|by apply D3].
  - intros q x [[<- <-]|[_ Hq]]%lookup_insert_Some; [done|exact (H6 q x Hq)].
  - intros q x [[<- <-]|[_ Hq]]%lookup_insert_Some Hl Hn; [by destruct Hn; left|]. exact (H7 q x Hq Hl Hn).
Qed.

Lemma caller_target_ok m oid oloc flags : int64 (oloc_pool oloc) → target_ok m (caller_target oid oloc flags).
Proof.
  intros Hi. split; [split| |..]; try done.
  - by left.
  - by right.
Qed.

Lemma wpst_start φ oid oloc flags ops c :
  settled φ → Inv φ ∅ none c → int64 (oloc_pool oloc) →
  wpst (p ← alloc_request (caller_target oid oloc flags) ops; ceph_osdc_start_request opts p) c (λ _ c', Inv φ ∅ none c').
Proof.
  intros Hset H Hi. apply wpst_bind. eapply wpst_mono; [apply wpst_alloc_request; [exact H|by apply caller_target_ok]|].
  intros p c1 (H1 & Epr & Hnone & r & Er & Hl & Ho & Ht & _). unfold ceph_osdc_start_request. apply wpst_bind.
  eapply wpst_mono; [eapply (wpst_account_request opts φ ∅ _ p r); [exact H1|by left|by rewrite Er, lookup_insert_eq]|].
  intros _ c2 (H2 & Hq & r2 & Er2 & [Eo Et Ee _ _ _]).
  assert (Hpr : p ∉ c_promoting c2).
  { rewrite (qu_pr _ _ Hq), Epr. intros (x & Hx & _)%(rq_pr _ _ _ _ _ _ _ _ (iv_reqs _ _ _ _ _ H)). congruence. }
  eapply (wpst_submit_read opts Henv φ none _ p r2 c2); [done|exact H2|done|by left|by rewrite Er2, lookup_insert_eq|..|done]; try congruence.
Qed.
End replies.
