(* ===== verification/OsdScan.v ===== *)
(** * The invariant under a new map

    The scan of the requests of all sessions, which leaves on its session what stays where it is. *)
From S2P Require Import Prelude Hash Crush Mapper Choose DoRule Workspace OsdMap Placement.
From S2P Require Import CrushLoc OsdTarget Decode OsdMapWire OsdBackoff State OsdData OsdClient.
From S2P Require Import OsdLinger OsdMapChange OsdReply OsdEvents OsdInv OsdSafe OsdRequests OsdSubmit.
From S2P Require Import OsdSessions OsdLoops.

Section scan.
Context (opts : ceph_options) (Henv : ∀ m n, map_ok (co_fuel opts) m → env_ok m (co_env opts m n)).
Implicit Types (c : client) (p : rptr) (r : osd_request) (o : Z) (s : osd_session) (X : rptr → Prop).
Implicit Types (m : ceph_osdmap) (t : osd_target).
Local Abbreviation fuel := (co_fuel opts).
Local Abbreviation Inv := (OsdInv.Inv opts).
Local Abbreviation none := (λ _ : rptr, False).

(** ** Targets that stay *)

Lemma int64_inj x y : int64 x → int64 y → u64 x = u64 y → x = y.
Proof. unfold int64. intros Hx Hy H. rewrite <- (s64_of_u64 x), <- (s64_of_u64 y) by done. by rewrite H. Qed.

Lemma target_pool_int64 m t pi0 :
  client_map fuel m → int64 (oloc_pool (t_base_oloc t)) → pool_of m t = Some pi0 → int64 (target_pool pi0 t).
Proof.
  intros Hm Hi Hpi. destruct (cm_tiers _ _ Hm _ _ Hpi). unfold target_pool, tier_pool. by repeat case_match.
Qed.

Lemma map_of_pool m t pi0 : client_map fuel m → pool_of m t = Some pi0 → map_ok fuel m.
Proof. intros Hm Hpi. destruct (cm_ok _ _ Hm) as [?|He]; [done|]. unfold pool_of in Hpi. by rewrite He, lookup_empty in Hpi. Qed.

Lemma target_pool_pos m t pi0 : client_map fuel m → int64 (oloc_pool (t_base_oloc t)) → pool_of m t = Some pi0 → u64 (target_pool pi0 t) ≠ 0.
Proof.
  intros Hm Hi Hpi. pose proof (target_pool_int64 m t pi0 Hm Hi Hpi) as Ht.
  destruct (tier_exists fuel m (map_of_pool _ _ _ Hm Hpi) pi0 t Hpi) as [pi Hp]. unfold ceph_pg_pool_by_id in Hp.
  rewrite s64_of_u64 in Hp by done. pose proof (cm_ids _ _ Hm _ _ Hp). rewrite u64_small; [lia|]. unfold int64 in Ht. lia.
Qed.

(** A calculation that takes no action: the pool was there, and the object is the same. *)
Lemma no_action_same m m' b eb eb' t t' :
  client_map fuel m → client_map fuel m' → follows b m m' → target_ok m t → (pool_of m t ≠ None → computed fuel m eb t) →
  pool_of m' t ≠ None → computed fuel m' eb' t' → wanted t' = wanted t → mapping t' = mapping t →
  pool_of m t ≠ None ∧ hoid_fill_from_target t' = hoid_fill_from_target t.
Proof.
  intros Hm Hm' Hf Ht Hc Hp' Hc' Hw Hmap. destruct (pool_of m' t) as [pi'|] eqn:Hpi'; [|done]. clear Hp'.
  assert (Hpt : pool_of m' t' = Some pi') by by rewrite (pool_of_wanted m' t t' Hw).
  assert (Hi' : int64 (oloc_pool (t_base_oloc t'))) by (injection Hw as _ -> _; by apply (to_pool _ _ Ht)).
  destruct (cp_target _ _ _ _ Hc' pi' Hpt) as (Hoid' & Holoc' & Hpg').
  pose proof (target_pool_pos m' t' pi' Hm' Hi' Hpt) as Hpos.
  assert (Hpgid : t_pgid t' = t_pgid t) by by injection Hmap. destruct (pool_of m t) as [pi|] eqn:Hpi; cycle 1.
  - exfalso. destruct (to_unmapped _ _ Ht Hpi) as [Hle|(_ & _ & _ & Hz)].
    + pose proof (fo_pools _ _ _ Hf (pool_key t) (mk_is_Some _ _ Hpi') Hpi). lia.
    + rewrite Hpgid, Hz in Hpg'. cbn in Hpg'. congruence.
  - split; [done|]. destruct (cp_target _ _ _ _ (Hc ltac:(done)) pi Hpi) as (Hoid & Holoc & Hpg).
    assert (Heq : target_pool pi' t' = target_pool pi t).
    { apply int64_inj; [by eapply target_pool_int64|eapply target_pool_int64; [exact Hm|by apply (to_pool _ _ Ht)|done]|congruence]. }
    unfold hoid_fill_from_target. rewrite Hoid', Hoid, Holoc', Holoc, Hpgid, Heq. by injection Hw as -> -> _.
Qed.

(** ** What an operation on the client does to the client and the lists *)

Lemma wpst_on_client {A} (m : C A) c (lists : resend) (Q : A → client * resend → Prop) :
  wpst m c (λ a c', Q a (c', lists)) → wpst (on_client m) (c, lists) Q.
Proof. intros H. unfold wpst, on_client. apply wp_bind. eapply wp_mono; [exact H|]. by intros [a c']. Qed.

(** ** Phases *)

Lemma Inv_phase φ φ' nr X c :
  Inv φ nr X c → ph_map φ' = ph_map φ →
  (∀ o s, c_sessions c !! o = Some s → o ≠ CEPH_HOMELESS_OSD → ph_open φ o → at_addr (ph_map φ) o s →
    ph_open φ' o ∨ at_addr (c_osdmap c) o s) →
  (∀ p r o, c_reqs c !! p = Some r → r_osd r = Some o → live r → ¬ X p → ph_pend φ' o (r_tid r) ↔ ph_pend φ o (r_tid r)) →
  Inv φ' nr X c.
Proof.
  intros [H1 H2 H3 [S1 S2 S3 S4 S5 S6 S7] H5 H6 H7 H8] Em Hopen Hpend. split; try done.
  - split; try done. intros o s Hs Hne. destruct (S4 o s Hs Hne) as [?|[Ho Ha]]; [by left|].
    destruct (Hopen o s Hs Hne Ho Ha); [right|by left]. by rewrite Em.
  - intros p r Hp Hl Hx. destruct (H7 p r Hp Hl Hx) as [?|[?|(o & s & Ho & Hs & Hat)]]; [by left|by right; left|].
    right; right. exists o, s. split_and!; [done..|]. rewrite (Hpend p r o Hp Ho Hl Hx), Em. exact Hat.
Qed.

(** ** To be sent again *)

Lemma Inv_resend φ nr X X' p r c :
  Inv φ nr X' c → (∀ q, X' q → q = p ∨ X q) → c_reqs c !! p = Some r → r_osd r = None → r_tid r ≠ 0 → live r →
  nr !! r_tid r = None → c_map_checks c !! r_tid r = None → ready fuel (c_osdmap c) (c_epoch_barrier c) r →
  Inv φ (<[r_tid r := p]> nr) X c.
Proof.
  intros H HX Hp Ho Ht Hl Hnr Hmc Hr.
  assert (H' : Inv φ (<[r_tid r := p]> nr) X' c).
  { destruct H as [H1 [] H3 H4 H5 H6 H7 H8]. split; try done.
    - split; try done. intros tid q [[<- <-]|[_ Hq]]%lookup_insert_Some; [|by apply rq_nr]. split_and!; [done..|]. by exists r.
    - intros q x Hq Hlq Hn. apply (placed_frame opts φ nr _ c c); [by apply H7|done..| |done|eauto].
      intros Hx. rewrite lookup_insert_ne; [done|]. intros Heq. congruence. }
  eapply (Inv_put opts _ _ X X' p r); [done..| |done]. intros _. right; left. split; [apply lookup_insert_eq|done].
Qed.

Definition resend_request o p (tid : Z) : R unit :=
  _ ← on_client (cancel_map_check p);
  _ ← on_client (unlink_request opts o p);
  '(reqs, lingers) ← get_resend;
  reqs ← st_lift (rb_insert tid p reqs);
  put_resend (reqs, lingers).

Lemma wpst_resend_request φ nr X p r o c :
  Inv φ nr (λ q, q = p ∨ X q) c → c_reqs c !! p = Some r → r_osd r = Some o → live r →
  ready fuel (c_osdmap c) (c_epoch_barrier c) r →
  wpst (resend_request o p (r_tid r)) (c, (nr, [])) (λ _ z, ∃ nr', z.2 = (nr', []) ∧ Inv φ nr' X z.1 ∧ quiet c z.1
    ∧ c_reqs z.1 = <[p := set_r_osd None r]> (c_reqs c)).
Proof.
  intros H Hp Ho Hl Hr. destruct (linked_free _ _ _ _ _ _ _ _ H Hp Ho) as (Ht & Hnr & _). unfold resend_request.
  apply wpst_bind, wpst_on_client. eapply wpst_mono; [eapply (wpst_cancel_map_check opts); [exact H|by left|done]|].
  intros _ c1 (H1 & Hq1 & Er1 & _ & Emc1). assert (Hp1 : c_reqs c1 !! p = Some r) by by rewrite Er1.
  apply wpst_bind, wpst_on_client. eapply wpst_mono; [eapply (wpst_unlink_request opts); [exact H1|by left|done..]|].
  intros _ c2 (H2 & Hq2 & (Emc2 & _) & Er2). apply wpst_bind. unfold get_resend at 1. cbn [wpst wp snd]. apply wpst_bind, wpst_lift.
  unfold rb_insert, rb_try_insert. rewrite Hnr. cbn [deref wp]. unfold put_resend. cbn [wpst wp fst snd].
  exists (<[r_tid r := p]> nr). split_and!; [done| |by etransitivity|by rewrite Er2, Er1].
  eapply (Inv_resend φ nr X _ p (set_r_osd None r)); [exact H2|done|by rewrite Er2, lookup_insert_eq|done..| |].
  - cbn. rewrite Emc2, Emc1. apply lookup_delete_eq.
  - rewrite (qu_map _ _ Hq2), (qu_map _ _ Hq1), (qu_eb _ _ Hq2), (qu_eb _ _ Hq1). exact Hr.
Qed.

(** ** One request *)

(** The scan is at session [o], with the requests [l] still to scan. *)
Definition scan_phase m0 o (l : list (Z * rptr)) : phase :=
  Phase m0 (λ o' tid, o < o' ∨ o' = o ∧ tid ∈ l.*1) (λ o', o <= o').

(** Pending requests have what they had under the map before. *)
Definition pend_ok φ c : Prop := ∀ p r o, c_reqs c !! p = Some r → r_osd r = Some o → ph_pend φ o (r_tid r) →
  target_ok (ph_map φ) (r_t r).

(** [skipped]: everything goes out again. *)
Record scanning (skipped : bool) m0 o (l : list (Z * rptr)) nr c : Prop := {
  sc_inv : Inv (scan_phase m0 o l) nr none c;
  sc_todo : todo o l c;
  sc_pend : pend_ok (scan_phase m0 o l) c;
  sc_maps : client_map fuel m0 ∧ follows skipped m0 (c_osdmap c);
  sc_force : skipped = true → ∀ p r, c_reqs c !! p = Some r → r_osd r = Some o → (r_tid r, p) ∉ l →
    pool_of (c_osdmap c) (r_t r) = None }.

Lemma scan_pend m0 o tid p l c p' r' o' :
  todo o ((tid, p) :: l) c → c_reqs c !! p' = Some r' → r_osd r' = Some o' → p' ≠ p →
  (∀ q q' r r', c_reqs c !! q = Some r → c_reqs c !! q' = Some r' → r_tid r = r_tid r' → r_tid r ≠ 0 → q = q') → tid ≠ 0 →
  ph_pend (scan_phase m0 o l) o' (r_tid r') ↔ ph_pend (scan_phase m0 o ((tid, p) :: l)) o' (r_tid r').
Proof.
  intros [_ Hin] Hp' Ho' Hne Huniq Ht. cbn. rewrite elem_of_cons. split; [tauto|].
  intros [?|[-> [Heq|?]]]; [tauto| |tauto]. destruct (Hin tid p) as (r & Hp & _ & Htid); [by left|].
  destruct Hne. symmetry. apply (Huniq p p' r r'); congruence.
Qed.

Lemma scan_done φ nr X m0 o tid p l r c :
  Inv φ nr X c → todo o ((tid, p) :: l) c → c_reqs c !! p = Some r → r_osd r = Some o →
  ¬ ph_pend (scan_phase m0 o l) o (r_tid r).
Proof.
  intros H [Hd Hin] Hp Ho [?|[_ Hi]]; [lia|]. apply list_elem_of_fmap in Hi as ([k q] & Hk & Hkq). cbn in Hk.
  destruct (linked_free _ _ _ _ _ _ _ _ H Hp Ho) as (Ht & _). destruct (Hin k q) as (x & Hx & _ & Hxt); [by right|].
  assert (q = p) as -> by (apply (rq_uniq _ _ _ _ _ _ _ _ (iv_reqs _ _ _ _ _ H) q p x r); congruence).
  apply NoDup_cons in Hd as [[] _]. apply list_elem_of_fmap. by exists (k, p).
Qed.

Lemma scanning_step skipped m0 o tid p l nr nr' r r' c c' :
  scanning skipped m0 o ((tid, p) :: l) nr c → c_reqs c !! p = Some r → r_osd r = Some o →
  Inv (scan_phase m0 o l) nr' none c' → quiet c c' → c_reqs c' = <[p := r']> (c_reqs c) → r_tid r' = r_tid r →
  (r_osd r' = None ∨ r_osd r' = Some o ∧ (skipped = true → pool_of (c_osdmap c') (r_t r') = None)) →
  scanning skipped m0 o l nr' c'.
Proof.
  intros [H Htodo Hpend [Hm0 Hf] Hforce] Hp Ho H' Hq Er Ht' Hr'. assert (Hin : (tid, p) ∈ (tid, p) :: l) by left.
  destruct (td_in _ _ _ Htodo tid p Hin) as (r0 & Hp0 & _ & Htid). rewrite Hp in Hp0. injection Hp0 as <-.
  pose proof Htodo as [Hd _]. apply NoDup_cons in Hd as [Hn Hd].
  assert (Htn : tid ≠ 0) by (rewrite <- Htid; by destruct (linked_free _ _ _ _ _ _ _ _ H Hp Ho)).
  split; [done|by eapply todo_step| |rewrite (qu_map _ _ Hq); done|].
  - intros q x o' Hq' Ho' Hpe. rewrite Er in Hq'. apply lookup_insert_Some in Hq' as [[<- <-]|[Hne Hq']].
    + exfalso. destruct Hr' as [?|[Hx _]]; [congruence|]. rewrite Hx in Ho'. injection Ho' as <-.
      rewrite Ht' in Hpe. by apply (scan_done _ _ _ m0 o tid p l r c H Htodo Hp Ho).
    + apply (Hpend q x o' Hq' Ho').
      exact (proj1 (scan_pend m0 o tid p l c q x o' Htodo Hq' Ho' (not_eq_sym Hne) (rq_uniq _ _ _ _ _ _ _ _ (iv_reqs _ _ _ _ _ H)) Htn) Hpe).
  - intros Hsk q x Hq' Ho' Hnl. rewrite Er in Hq'. apply lookup_insert_Some in Hq' as [[<- <-]|[Hne Hq']].
    + destruct Hr' as [?|[_ Hx]]; [congruence|by apply Hx].
    + rewrite (qu_map _ _ Hq). apply (Hforce Hsk q x Hq' Ho'). intros [[= _ ->]|?]%elem_of_cons; done.
Qed.

(** A request that stays where it is. *)
Lemma stays_at m m' b eb mc o s p r t' :
  client_map fuel m → client_map fuel m' → follows b m m' → target_ok m (r_t r) → at_ok fuel m eb mc o s p r →
  recalculated opts m' eb (r_t r) t' CALC_TARGET_NO_ACTION → at_ok fuel m' eb mc o s p (set_r_t t' r).
Proof.
  intros Hm Hm' Hf Ht Hat [_ Hw Hdne _ Hc Hk]. destruct (Hk eq_refl) as [Hmap Hpa].
  assert (Hp' : pool_of m' (r_t r) ≠ None) by (intros Hp; apply Hdne in Hp; done).
  assert (Hcp : pool_of m (r_t r) ≠ None → computed fuel m eb (r_t r)).
  { intros Hp. unfold at_ok in Hat. destruct (pool_of m (r_t r)); [tauto|done]. }
  destruct (no_action_same m m' b eb eb _ _ Hm Hm' Hf Ht Hcp Hp' (Hc ltac:(done)) Hw Hmap) as [Hp Hoid].
  assert (Hosd : t_osd t' = t_osd (r_t r)) by by injection Hmap.
  assert (Hspg : t_spgid t' = t_spgid (r_t r)) by by injection Hmap.
  unfold at_ok in Hat. destruct (pool_of m (r_t r)) as [pi|]; [|done]. destruct Hat as (-> & _ & Hmc & Hh).
  apply at_ok_some; cbn [r_t r_tid set_r_t]; [by rewrite (pool_of_wanted m' _ _ Hw)|done|by apply Hc|done|].
  destruct Hh as [Hh|[Hh|[Hh|(msg & Hm1 & Hm2 & Hm3 & Hm4)]]].
  - by left.
  - right; left. congruence.
  - right; right; left. cbn. unfold should_plug_request in *. by rewrite Hspg, Hoid.
  - right; right; right. exists msg. cbn [r_t r_tid set_r_t]. split_and!; [done..|congruence|done].
Qed.

Lemma wpst_scan_request skipped wf m0 o tid p l nr c :
  client_map fuel (c_osdmap c) → scanning skipped m0 o ((tid, p) :: l) nr c →
  wpst (scan_request opts o skipped wf true p) (c, (nr, [])) (λ _ z, ∃ nr', z.2 = (nr', []) ∧ scanning skipped m0 o l nr' z.1 ∧ quiet c z.1).
Proof.
  intros Hm Hsc. pose proof Hsc as [H Htodo Hpend [Hm0 Hf] Hforce]. assert (Hin : (tid, p) ∈ (tid, p) :: l) by left.
  destruct (td_in _ _ _ Htodo tid p Hin) as (r & Hp & Ho & Ht).
  assert (Hpe : ph_pend (scan_phase m0 o ((tid, p) :: l)) o (r_tid r)) by (right; split; [done|]; rewrite Ht; left).
  destruct (linked_at _ _ _ _ _ _ _ _ H Hp Ho id) as (Hl & s & Hs & [[Hn _]|[_ Hat]]); [by destruct Hn|].
  destruct (linked_free _ _ _ _ _ _ _ _ H Hp Ho) as (Htn & _).
  destruct (rq_sent _ _ _ _ _ _ _ _ (iv_reqs _ _ _ _ _ H) p r Hp) as [Ha _].
  unfold scan_request. apply wpst_bind, wpst_on_client. eapply wpst_get_req; [done|].
  apply wpst_bind, wpst_on_client, (wpst_calc_target_of opts Henv); [done|by apply (iv_target _ _ _ _ _ H p r)|].
  intros t' res Hrec. pose proof Hrec as [Hok Hw Hdne Hgone Hcomp Hkept]. set (c1 := set_c_calls _ c).
  apply wpst_bind, wpst_on_client. eapply wpst_upd_req; [exact Hp|]. set (r1 := set_r_t t' r).
  set (c2 := set_c_reqs (<[p := r1]> (c_reqs c1)) c1).
  assert (H2 : Inv (scan_phase m0 o l) nr (λ q, q = p ∨ none q) c2).
  { eapply (Inv_phase (scan_phase m0 o ((tid, p) :: l))); [|done|by left|].
    - eapply (Inv_update opts _ _ _ p r r1 c1); [by apply Inv_calls, Inv_take|by left|done|by split|by intros _|by right].
    - intros q x o' Hq Ho' _ Hx. unfold c2 in Hq. client_simpl in *. apply lookup_insert_Some in Hq as [[<- <-]|[Hne Hq]]; [by destruct Hx; left|].
      apply (scan_pend m0 o tid p l c q x o' Htodo Hq Ho' (not_eq_sym Hne) (rq_uniq _ _ _ _ _ _ _ _ (iv_reqs _ _ _ _ _ H))). congruence. }
  assert (Hp2 : c_reqs c2 !! p = Some r1) by apply lookup_insert_eq. assert (Hq2 : quiet c c2) by done.
  assert (Hagain : pool_of (c_osdmap c) (r_t r) ≠ None → computed fuel (c_osdmap c) (c_epoch_barrier c) t' →
    wpst (resend_request o p (r_tid r)) (c2, (nr, [])) (λ _ z, ∃ nr', z.2 = (nr', []) ∧ scanning skipped m0 o l nr' z.1 ∧ quiet c z.1)).
  { intros Hpool Hc. eapply wpst_mono; [eapply (wpst_resend_request _ _ none p r1 o c2); [exact H2|done..|]|].
    - split; [|by right]. change (c_osdmap c2) with (c_osdmap c). by rewrite (pool_of_wanted _ _ _ Hw : pool_of _ (r_t r1) = _).
    - intros _ [c3 lists] (nr' & Eli & H3 & Hq3 & Er3). exists nr'. split_and!; [done| |by etransitivity].
      eapply (scanning_step skipped m0 o tid p l nr nr' r (set_r_osd None r1) c c3); [done..|by etransitivity| |done|by left].
      cbn in Er3; rewrite Er3. apply insert_insert_eq. }
  apply wpst_bind. cbn [get_client wpst wp fst]. change (c_osdmap c2) with (c_osdmap c).
  destruct res.
  - apply wpst_when; [intros _; apply Hagain; [intros Hpo; by apply Hdne in Hpo|by apply Hcomp]|].
    intros Hff. apply orb_false_iff in Hff as [-> _]. exists nr. split_and!; [done| |done].
    eapply (scanning_step false m0 o tid p l nr nr r r1 c c2); try done; [|by right; split].
    eapply (Inv_put_at opts _ _ none _ p r1 o s c2); [exact H2|done|done|done|done|exact Hs| |].
    + exact (scan_done _ _ _ m0 o tid p l r c H Htodo Hp Ho).
    + eapply (stays_at m0 (c_osdmap c)); [done..| |exact Hat|done]. by apply (Hpend p r o).
  - apply Hagain; [intros Hpo; by apply Hdne in Hpo|by apply Hcomp].
  - apply wpst_on_client. destruct (Hgone eq_refl) as [Hth _]. assert (Hpo : pool_of (c_osdmap c) (r_t r1) = None).
    { rewrite (pool_of_wanted _ (r_t r) (r_t r1) Hw). by apply Hdne. }
    eapply wpst_mono; [eapply (wpst_check_pool_dne opts _ nr none _ p r1 o c2); [exact H2|done|by left|done|done|done| |done|]|].
    + exact (scan_done _ _ _ m0 o tid p l r c H Htodo Hp Ho).
    + intros _. pose proof (fo_epoch _ _ _ Hf). pose proof (cm_epoch _ _ Hm0). change (c_osdmap c2) with (c_osdmap c). lia.
    + intros _ c3 (H3 & Hq3 & r3 & Er3 & Ht3 & Ho3). exists nr. split_and!; [done| |by etransitivity].
      eapply (scanning_step skipped m0 o tid p l nr nr r r3 c c3); [done..|by etransitivity| |done|].
      * rewrite Er3. apply insert_insert_eq.
      * destruct Ho3 as [?|[Ho3 Et3]]; [by left|right]. split; [by rewrite Ho3|]. intros _.
        by rewrite (qu_map _ _ Hq3), Et3.
Qed.

(** ** The requests of a session *)

(** The sessions from [o] on are still to scan. *)
Definition at_phase m0 o : phase := Phase m0 (λ o' _, o <= o') (λ o', o <= o').
Record before_osd (skipped : bool) m0 o nr c : Prop := {
  bo_inv : Inv (at_phase m0 o) nr none c;
  bo_pend : pend_ok (at_phase m0 o) c;
  bo_maps : client_map fuel m0 ∧ follows skipped m0 (c_osdmap c) }.

Lemma wpst_scan_requests skipped wf m0 o s nr c :
  before_osd skipped m0 o nr c → c_sessions c !! o = Some s →
  wpst (scan_requests opts o skipped wf true) (c, (nr, [])) (λ _ z, ∃ nr', z.2 = (nr', []) ∧ scanning skipped m0 o [] nr' z.1 ∧ quiet c z.1).
Proof.
  intros [H Hpend Hmaps] Hs. pose proof (ss_linger _ _ _ _ _ (iv_sess _ _ _ _ _ H) o s Hs) as Hlin.
  pose proof (iv_map _ _ _ _ _ H) as Hm. unfold scan_requests.
  apply wpst_bind, wpst_on_client. eapply wpst_get_session; [done|]. rewrite Hlin.
  apply wpst_bind. change (rb_in_order ∅) with (@nil (Z * lptr)). cbn [st_each]. apply wpst_ret.
  apply wpst_bind, wpst_on_client. eapply wpst_get_session; [done|]. set (l0 := rb_in_order (o_requests s)).
  assert (Hiff : ∀ p r o', c_reqs c !! p = Some r → r_osd r = Some o' →
    ph_pend (scan_phase m0 o l0) o' (r_tid r) ↔ ph_pend (at_phase m0 o) o' (r_tid r)).
  { intros p r o' Hp Ho'. cbn. split; [lia|]. intros Hle. destruct (decide (o' = o)) as [->|]; [right|lia]. split; [done|].
    destruct (linked_tree _ _ _ _ _ _ _ _ H Hp Ho') as (s' & Hs' & Hk & _). simplify_eq.
    apply list_elem_of_fmap. exists (r_tid r, p). split; [done|]. by apply elem_of_in_order. }
  assert (Hsc : scanning skipped m0 o l0 nr c).
  { split; [|by eapply todo_init| |done|].
    - eapply (Inv_phase (at_phase m0 o)); [done|done|by left|]. intros p r o' Hp Ho' _ _. exact (Hiff p r o' Hp Ho').
    - intros p r o' Hp Ho' Hpe. exact (Hpend p r o' Hp Ho' (proj1 (Hiff p r o' Hp Ho') Hpe)).
    - intros _ p r Hp Ho Hn. destruct Hn. apply elem_of_in_order.
      destruct (linked_tree _ _ _ _ _ _ _ _ H Hp Ho) as (s' & Hs' & Hk & _). by simplify_eq. }
  clear Hiff.
  eapply wpst_mono; [apply (wpst_each (λ l z, ∃ nr', z.2 = (nr', []) ∧ scanning skipped m0 o l nr' z.1 ∧ quiet c z.1))|by intros [] z].
  - exists nr. done.
  - intros tid p l [c1 lists] (nr1 & Eli & Hsc1 & Hq1). cbn [fst snd] in *. subst lists. split.
    + rewrite (todo_lookup opts _ _ _ o _ tid p c1 (sc_inv _ _ _ _ _ _ Hsc1) (sc_todo _ _ _ _ _ _ Hsc1)); [done|by left].
    + eapply wpst_mono; [eapply wpst_scan_request; [by rewrite (qu_map _ _ Hq1)|done]|].
      intros [] [c2 lists] (nr2 & Eli & Hsc2 & Hq2). exists nr2. split_and!; [done..|by etransitivity].
Qed.

(** ** All sessions *)

Lemma session_done skipped m0 o nr c :
  CEPH_HOMELESS_OSD <= o →
  Inv (scan_phase m0 o []) nr none c → pend_ok (scan_phase m0 o []) c → client_map fuel m0 ∧ follows skipped m0 (c_osdmap c) →
  (∀ s, c_sessions c !! o = Some s → o ≠ CEPH_HOMELESS_OSD → at_addr (c_osdmap c) o s) → before_osd skipped m0 (o + 1) nr c.
Proof.
  intros Hle H Hpend Hmaps Ho. split; [| |done].
  - eapply (Inv_phase (scan_phase m0 o [])); [done|done| |].
    + intros o' s Hs Hne Hop _. cbn in *. destruct (decide (o' = o)) as [->|]; [right; by apply Ho|left; lia].
    + intros p r o' _ _ _ _. cbn. split; [lia|]. intros [?|[_ []%not_elem_of_nil]]. lia.
  - intros p r o' Hp Ho' Hpe. apply (Hpend p r o' Hp Ho'). left. cbn in Hpe. lia.
Qed.

Lemma wpst_check_session skipped m0 o s nr c :
  CEPH_HOMELESS_OSD < o → scanning skipped m0 o [] nr c → c_sessions c !! o = Some s →
  wpst (check_session opts o) c (λ _ c', before_osd skipped m0 (o + 1) nr c' ∧ c_osdmap c' = c_osdmap c ∧
    (∀ o', o' ≠ o → is_Some (c_sessions c !! o') → is_Some (c_sessions c' !! o')) ∧
    (∀ o', is_Some (c_sessions c' !! o') → is_Some (c_sessions c !! o'))).
Proof.
  intros Hpos [H _ Hpend [Hm0 Hf] Hforce] Hs. pose proof (iv_map _ _ _ _ _ H) as Hm. pose proof (cm_arrays _ _ Hm) as Hwf.
  assert (Hne : o ≠ CEPH_HOMELESS_OSD) by lia.
  assert (Hclose : (osd_up (c_osdmap c) o = false ∨ om_osd_addr (c_osdmap c) !! Z.to_nat o ≠ Some (o_peer_addr s)) →
    wpst (close_osd opts o) c (λ _ c', before_osd skipped m0 (o + 1) nr c' ∧ c_osdmap c' = c_osdmap c ∧
      (∀ o', o' ≠ o → is_Some (c_sessions c !! o') → is_Some (c_sessions c' !! o')) ∧
      (∀ o', is_Some (c_sessions c' !! o') → is_Some (c_sessions c !! o')))).
  { intros Hgone. eapply wpst_mono; [eapply (wpst_close_osd opts _ nr o s c H Hne Hs)|].
    - intros p r Hp Ho. assert (Hnp : ¬ ph_pend (scan_phase m0 o []) o (r_tid r)) by (cbn; intros [?|[_ []%not_elem_of_nil]]; lia).
      split; [split; [|done]|cbn; intros [?|[_ []%not_elem_of_nil]]; lia].
      destruct (pool_of (c_osdmap c) (r_t r)) as [pi|] eqn:Hpool; [|done]. exfalso.
      destruct (linked_at _ _ _ _ _ _ _ _ H Hp Ho id) as (_ & s' & Hs' & [[_ Hat]|[? _]]); [|done].
      unfold at_ok in Hat. rewrite Hpool in Hat. destruct Hat as (Heq & [_ _ _ Hup _] & _). rewrite <- Heq in Hup.
      destruct Hup as [?|Hup]; [done|]. destruct Hgone as [?|Haddr]; [congruence|].
      destruct (ss_addr _ _ _ _ _ (iv_sess _ _ _ _ _ H) o s Hs Hne) as [[_ ?]|[_ [Hup0 Ha0]]]; [done|].
      destruct skipped.
      + rewrite (Hforce eq_refl p r Hp Ho (not_elem_of_nil _)) in Hpool. done.
      + apply Haddr. rewrite (fo_addr _ _ _ Hf o eq_refl Hup0 Hup). exact Ha0.
    - intros _ c' [H' (Em & _) Hg Hsub Hst Hreal]. split_and!; [|done| |done].
      + apply session_done; [lia|done| |by rewrite Em|congruence].
        intros p r o' Hp Ho' Hpe. apply (Hpend p r o'); [|done..]. apply (Hreal p r o'); [|done..].
        destruct Hpe as [?|[_ []%not_elem_of_nil]]. lia.
      + intros o' Hn [s' Hs']. destruct (Hst o' s' Hn Hs') as (? & ? & _). eauto. }
  unfold check_session. apply wpst_bind, wpst_get, wpst_bind. eapply wpst_get_session; [done|].
  apply wpst_bind, wpst_lift. rewrite (ceph_osd_is_up_eq _ Hwf). cbn [wp].
  destruct (osd_up (c_osdmap c) o) eqn:Hup; cbn [negb]; [|apply Hclose; by left].
  pose proof (osd_up_range _ Hwf o Hup) as Hr. pose proof (cm_max _ _ Hm) as Hmax. unfold CRUSH_ITEM_NONE in Hmax.
  destruct (lookup_Z_Some (om_osd_addr (c_osdmap c)) o) as [addr Haddr]; [by rewrite (wa_addr _ Hwf)|].
  apply wpst_bind, wpst_lift. unfold ceph_osd_addr. rewrite u32_small, Z.geb_leb by lia.
  rewrite (proj2 (Z.leb_gt _ _)) by lia. rewrite (aget_Some _ _ addr) by (done || lia). cbn [mbind outcome_bind wp].
  apply wpst_bind, wpst_lift. cbn [deref wp]. apply wpst_when; intros Heq.
  - apply Hclose. right. apply negb_true_iff, bool_decide_eq_false in Heq. rewrite Haddr. congruence.
  - apply negb_false_iff, bool_decide_eq_true in Heq. split_and!; [|done..]. apply session_done; try done; [lia|].
    intros s' Hs' _. rewrite Hs in Hs'. injection Hs' as <-. split; [done|congruence].
Qed.

Lemma scan_end skipped m0 k nr c :
  before_osd skipped m0 (k + 1) nr c → (∀ o, is_Some (c_sessions c !! o) → o <= k) → Inv (idle m0) nr none c.
Proof.
  intros [H _ _] Hnext. eapply (Inv_phase (at_phase m0 (k + 1))); [done|done| |].
  - intros o s Hs _ Hop _. cbn in Hop. specialize (Hnext o (mk_is_Some _ _ Hs)). lia.
  - intros p r o Hp Ho _ _. cbn. split; [done|]. intros Hle. destruct (linked_tree _ _ _ _ _ _ _ _ H Hp Ho) as (s & Hs & _).
    specialize (Hnext o (mk_is_Some _ _ Hs)). lia.
Qed.

Lemma wpst_scan_osds skipped wf m0 (B : Z) n (next : option Z) k nr c :
  (∀ o', is_Some (c_sessions c !! o') → o' <= B) → before_osd skipped m0 (k + 1) nr c → CEPH_HOMELESS_OSD <= k →
  match next with
  | Some o => is_Some (c_sessions c !! o) ∧ k < o ∧ (Z.to_nat (B - o) < n)%nat ∧ ∀ o', is_Some (c_sessions c !! o') → k < o' → o <= o'
  | None => ∀ o', is_Some (c_sessions c !! o') → o' <= k
  end →
  wpst (scan_osds opts n next skipped wf) (c, (nr, [])) (λ _ z, ∃ nr', z.2 = (nr', []) ∧ Inv (idle m0) nr' none z.1 ∧ c_osdmap z.1 = c_osdmap c).
Proof.
  revert next k nr c. induction n as [|n IH]; intros [o|] k nr c HB H Hk Hnext; cbn [scan_osds].
  - destruct Hnext as (_ & _ & ? & _). lia.
  - apply wpst_ret. exists nr. split_and!; [done|by eapply scan_end|done].
  - destruct Hnext as ([s Hs] & Hlt & Hn & Hmin). apply wpst_bind. cbn [get_client wpst wp fst].
    rewrite bool_decide_eq_true_2 by eauto. pose proof (rb_next_osd_spec c o) as Hno. cbv zeta. set (next := rb_next_osd c o) in *.
    assert (H' : before_osd skipped m0 o nr c).
    { destruct H as [Hi Hp Hm]. split; [| |done].
      - eapply (Inv_phase (at_phase m0 (k + 1))); [done|done| |].
        + intros o' s' Hs' _ Hop _. left. cbn in *. apply Hmin; [eauto|lia].
        + intros p r o' Hpr Ho' _ _. cbn. split; [lia|]. intros Hle. destruct (linked_tree _ _ _ _ _ _ _ _ Hi Hpr Ho') as (s' & Hs' & _).
          apply Hmin; [eauto|lia].
      - intros p r o' Hpr Ho' Hpe. apply (Hp p r o' Hpr Ho'). cbn in *. lia. }
    apply wpst_bind. eapply wpst_mono; [by eapply wpst_scan_requests|].
    intros _ [c1 lists] (nr1 & Eli & Hsc & Hq). cbn [fst snd] in *. subst lists.
    destruct (qu_sess _ _ Hq o s Hs) as (s1 & Hs1 & _).
    apply wpst_bind, wpst_on_client. eapply wpst_mono; [eapply wpst_check_session; [lia|done|done]|].
    intros _ c2 (H2 & Em2 & Hst & Hsub).
    eapply wpst_mono; [apply (IH next o nr1 c2); [|done|lia|]|].
    + intros o' ?%Hsub%(quiet_sessions c c1 o' Hq). by apply HB.
    + destruct next as [o'|].
      * destruct Hno as (Hs' & Hlt' & Hmin'). pose proof (HB o' Hs'). split_and!; [|done|lia|].
        -- apply Hst; [lia|]. by apply (quiet_sessions c c1 o' Hq).
        -- intros o2 Ho2%Hsub%(quiet_sessions c c1 o2 Hq). by apply Hmin'.
      * intros o' Ho'%Hsub%(quiet_sessions c c1 o' Hq). by apply Hno.
    + intros _ z (nr' & ? & ? & Em). exists nr'. split_and!; [done..|]. rewrite Em, Em2. by apply qu_map.
  - apply wpst_ret. exists nr. split_and!; [done|by eapply scan_end|done].
Qed.

(** ** A new map *)

Lemma Inv_new_map skipped nr m' c :
  Inv (idle (c_osdmap c)) nr none c → client_map fuel m' → follows skipped (c_osdmap c) m' →
  (∀ tid p r, nr !! tid = Some p → c_reqs c !! p = Some r → pool_of m' (r_t r) ≠ None) →
  before_osd skipped (c_osdmap c) CEPH_HOMELESS_OSD nr (set_c_osdmap m' c).
Proof.
  intros H Hm' Hf Hnr. pose proof H as [H1 H2 H3 H4 H5 H6 H7 H8].
  assert (Hkey : ∀ o, is_Some (c_sessions c !! o) → CEPH_HOMELESS_OSD <= o).
  { intros o Ho. unfold CEPH_HOMELESS_OSD. destruct (ss_key _ _ _ _ _ H4 o Ho) as [->|?]; [done|lia]. }
  split; [split; client_simpl; try done| |done].
  - destruct H4 as [S1 S2 S3 S4 S5 S6 S7]. split; try done. intros o s Hs Hne. right. cbn. split; [apply Hkey; eauto|].
    by destruct (S4 o s Hs Hne) as [?|[[] _]].
  - intros p r Hp Hl. eapply target_ok_follows; [exact H1|exact Hf|by eapply H6].
  - intros p r Hp Hl Hx. destruct (H7 p r Hp Hl Hx) as [?|[[Hn [_ Hr]]|(o & s & Ho & Hs & [[_ Hat]|[[] _]])]].
    + by left.
    + right; left. split; [done|]. split; [by eapply Hnr|]. left. client_simpl. pose proof (fo_epoch _ _ _ Hf).
      destruct Hr as [?|Hc]; [lia|]. rewrite (cp_epoch _ _ _ _ Hc). done.
    + right; right. exists o, s. split_and!; [done..|]. right. split; [|exact Hat]. cbn. apply Hkey. eauto.
  - intros p r o Hp Ho _. cbn in Hp |- *.
    destruct (linked_at _ _ _ _ _ _ _ _ H Hp Ho id) as (Hl & _). by apply (H6 p r).
Qed.

Lemma wpst_scan_all skipped wf m' nr c :
  Inv (idle (c_osdmap c)) nr none c → client_map fuel m' → follows skipped (c_osdmap c) m' →
  (∀ tid p r, nr !! tid = Some p → c_reqs c !! p = Some r → pool_of m' (r_t r) ≠ None) →
  wpst (_ ← scan_requests opts CEPH_HOMELESS_OSD skipped wf true;
        c ← get_client;
        scan_osds opts (osds_fuel c) (rb_next_osd c CEPH_HOMELESS_OSD) skipped wf) (set_c_osdmap m' c, (nr, []))
    (λ _ z, ∃ nr', z.2 = (nr', []) ∧ Inv (idle m') nr' none z.1 ∧ c_osdmap z.1 = m').
Proof.
  intros H Hm' Hf Hnr. pose proof (Inv_new_map skipped nr m' c H Hm' Hf Hnr) as Hb. set (c1 := set_c_osdmap m' c) in *.
  destruct (ss_home _ _ _ _ _ (iv_sess _ _ _ _ _ (bo_inv _ _ _ _ _ Hb))) as [sh Hsh].
  apply wpst_bind. eapply wpst_mono; [by eapply wpst_scan_requests|].
  intros _ [c2 lists] (nr2 & Eli & [H2 _ Hp2 Hmaps _] & Hq). cbn [fst snd] in *. subst lists.
  apply wpst_bind. cbn [get_client wpst wp fst]. pose proof (rb_next_osd_spec c2 CEPH_HOMELESS_OSD) as Hn.
  eapply wpst_mono; [apply (wpst_scan_osds skipped wf (c_osdmap c) (osds_bound c2) _ _ CEPH_HOMELESS_OSD nr2 c2)|].
  - intros o. apply osds_bound_le.
  - by apply session_done.
  - done.
  - destruct (rb_next_osd _ _) as [o|]; [|exact Hn]. destruct Hn as (Hs & Hlt & Hmin). split_and!; [done..| |done].
    unfold osds_fuel. fold (osds_bound c2). pose proof (osds_bound_le c2 o Hs). unfold CEPH_HOMELESS_OSD in *. lia.
  - intros _ z (nr' & ? & H' & Em). exists nr'. assert (Ez : c_osdmap z.1 = m') by (rewrite Em; by apply (qu_map _ _ Hq)).
    split_and!; [done|by eapply Inv_idle_any|done].
Qed.
End scan.
