(* ===== verification/OsdResend.v ===== *)
(** * The invariant under resending

    What a message with maps leaves to be sent again goes to the session of its new target. *)
From S2P Require Import Prelude Hash Crush Mapper Choose DoRule Workspace OsdMap Placement.
From S2P Require Import CrushLoc OsdTarget Decode OsdMapWire OsdBackoff State OsdData OsdClient.
From S2P Require Import OsdLinger OsdMapChange OsdReply OsdEvents OsdInv OsdSafe OsdRequests OsdSubmit.
From S2P Require Import OsdSessions OsdLoops OsdScan.

Section resend.
Context (opts : ceph_options) (Henv : ∀ m n, map_ok (co_fuel opts) m → env_ok m (co_env opts m n)).
Implicit Types (c : client) (p : rptr) (r : osd_request) (o : Z) (s : osd_session) (X : rptr → Prop).
Implicit Types (m : ceph_osdmap) (t : osd_target).
Local Abbreviation fuel := (co_fuel opts).
Local Abbreviation Inv := (OsdInv.Inv opts).
Local Abbreviation none := (λ _ : rptr, False).

(** What is to be sent again is on no session. *)
Lemma to_resend φ nr tid p c :
  Inv φ nr none c → nr !! tid = Some p →
  tid ≠ 0 ∧ c_map_checks c !! tid = None ∧ ∃ r, c_reqs c !! p = Some r ∧ r_osd r = None ∧ r_tid r = tid ∧ live r
    ∧ 0 <= r_attempts r ∧ ready fuel (c_osdmap c) (c_epoch_barrier c) r.
Proof.
  intros H Hnr. destruct (rq_nr _ _ _ _ _ _ _ _ (iv_reqs _ _ _ _ _ H) tid p Hnr) as (Ht & Hmc & r & Hp & Ho & Htid & Hl).
  split_and!; [done..|]. exists r. destruct (rq_sent _ _ _ _ _ _ _ _ (iv_reqs _ _ _ _ _ H) p r Hp) as [Ha _].
  split_and!; [done..|].
  destruct (iv_place _ _ _ _ _ H p r Hp Hl id) as [Hpr|[[_ ?]|(o & s & Ho' & _)]]; [|done|congruence].
  destruct (rq_pr _ _ _ _ _ _ _ _ (iv_reqs _ _ _ _ _ H) p Hpr) as (x & Hx & _ & Hx0 & _). congruence.
Qed.

(** ** Targets that are old *)

Record staling nr (l : list (Z * rptr)) c : Prop := {
  st_inv : Inv (idle (c_osdmap c)) nr none c;
  st_in tid p : (tid, p) ∈ l → nr !! tid = Some p;
  st_done tid p r : nr !! tid = Some p → c_reqs c !! p = Some r → (tid, p) ∈ l ∨ computed fuel (c_osdmap c) (c_epoch_barrier c) (r_t r) }.

Lemma wpst_kick_stale nr tid p l c :
  staling nr ((tid, p) :: l) c →
  wpst (kick_stale opts p) (c, (nr, [])) (λ _ z, z.2 = (nr, []) ∧ staling nr l z.1).
Proof.
  intros [H Hin Hdone]. assert (Hnr : nr !! tid = Some p) by (apply Hin; left).
  destruct (to_resend _ _ _ _ _ H Hnr) as (Ht & Hmc & r & Hp & Ho & Htid & Hl & Ha & Hpool & Hrd).
  unfold kick_stale. apply wpst_bind, wpst_on_client. eapply wpst_get_req; [done|].
  apply wpst_bind. cbn [get_client wpst wp fst].
  apply wpst_when; intros Hlt; cycle 1.
  { apply Z.ltb_ge in Hlt. split; [done|]. split; [done|intros k q ?; apply Hin; by right|].
    intros k q x Hk Hq. destruct (Hdone k q x Hk Hq) as [[[= -> ->]|?]%elem_of_cons|?]; [|by left|by right].
    cbn [fst] in *. rewrite Hp in Hq. injection Hq as <-. right. destruct Hrd as [?|?]; [lia|done]. }
  apply wpst_bind, wpst_on_client, (wpst_calc_target_of opts Henv); [by eapply iv_map|by apply (iv_target _ _ _ _ _ H p r)|].
  intros t' res [Hok Hw Hdne _ Hcomp _]. set (c1 := set_c_calls _ c).
  assert (Hres : res ≠ CALC_TARGET_POOL_DNE) by (intros ->; by apply Hpool, Hdne).
  apply wpst_bind, wpst_on_client. eapply wpst_upd_req; [exact Hp|]. rewrite bool_decide_eq_false_2 by done.
  cbn [st_when]. apply wpst_ret. cbn [fst snd]. split; [done|]. set (r1 := set_r_t t' r).
  split; [|intros k q ?; apply Hin; by right|].
  - eapply (Inv_put opts _ nr none _ p r1); [eapply (Inv_update opts _ nr _ p r r1 c1); [by apply Inv_calls, Inv_take|by left|done|by split|done|by right]|done|apply lookup_insert_eq| |done].
    intros _. right; left. cbn [r1 set_r_t r_tid]. rewrite Htid. split; [done|]. split.
    + change (pool_of (c_osdmap c) t' ≠ None). by rewrite (pool_of_wanted _ _ _ Hw).
    + right. by apply Hcomp.
  - intros k q x Hk Hq. client_simpl in *. apply lookup_insert_Some in Hq as [[<- <-]|[Hne Hq]]; [right; by apply Hcomp|].
    destruct (Hdone k q x Hk Hq) as [[[= -> ->]|?]%elem_of_cons|?]; [done|by left|by right].
Qed.

Lemma wpst_stale nr c :
  Inv (idle (c_osdmap c)) nr none c →
  wpst (st_each (rb_in_order nr) resend_has (kick_stale opts)) (c, (nr, [])) (λ _ z, z.2 = (nr, []) ∧ staling nr [] z.1).
Proof.
  intros H. eapply wpst_mono; [apply (wpst_each (λ l z, z.2 = (nr, []) ∧ staling nr l z.1))|by intros [] z].
  - split; [done|]. split; [done|intros tid p; apply elem_of_in_order|]. intros tid p r Hnr _. left. by apply elem_of_in_order.
  - intros tid p l [c1 lists] [Eli Hst]. cbn [fst snd] in *. subst lists. split; [|by eapply wpst_kick_stale].
    unfold resend_has. cbn [fst snd]. apply bool_decide_eq_true. exists p. apply (st_in _ _ _ Hst). left.
Qed.

(** ** To the sessions *)

Lemma Inv_unresend φ nr X tid p c :
  Inv φ nr X c → nr !! tid = Some p → Inv φ (delete tid nr) (λ q, q = p ∨ X q) c.
Proof.
  intros H Hnr. pose proof (Inv_take opts φ nr X p c H) as [H1 [] H3 H4 H5 H6 H7 H8]. split; try done.
  - split; try done. intros k q [_ Hq]%lookup_delete_Some. by apply rq_nr.
  - intros q x Hq Hl Hn. apply (placed_frame opts φ nr _ c c); [by apply H7|done..| |done|eauto].
    intros Hx. rewrite lookup_delete_ne; [done|]. intros ->. apply Hn. left. congruence.
Qed.

Record kicked nr (l : list (Z * rptr)) c : Prop := {
  kk_inv : Inv (idle (c_osdmap c)) nr none c;
  kk_nodup : NoDup l.*1;
  kk_in tid p : (tid, p) ∈ l ↔ nr !! tid = Some p;
  kk_computed tid p r : nr !! tid = Some p → c_reqs c !! p = Some r → computed fuel (c_osdmap c) (c_epoch_barrier c) (r_t r) }.

(** A request on its session is sent, unless it has to wait. *)
Lemma wpst_send_linked φ nr X p r o s c :
  settled φ → Inv φ nr (λ q, q = p ∨ X q) c → c_reqs c !! p = Some r → live r → r_osd r = Some o → c_sessions c !! o = Some s →
  o = t_osd (r_t r) → computed fuel (c_osdmap c) (c_epoch_barrier c) (r_t r) → pool_of (c_osdmap c) (r_t r) ≠ None →
  c_map_checks c !! r_tid r = None →
  wpst (st_when (negb (osd_homeless o) && negb (t_paused (r_t r))) (send_request p)) c
    (λ _ c', Inv φ nr X c' ∧ quiet c c' ∧ ∃ r', c_reqs c' = <[p := r']> (c_reqs c)).
Proof.
  intros Hset H Hp Hl Ho Hs Hto Hc Hpool Hmc.
  destruct (rq_sent _ _ _ _ _ _ _ _ (iv_reqs _ _ _ _ _ H) p r Hp) as [Ha _]. apply wpst_when; intros Hcond.
  - apply andb_true_iff in Hcond as [Hh _]. unfold osd_homeless in Hh. apply negb_true_iff, Z.eqb_neq in Hh.
    eapply wpst_mono; [eapply (wpst_send_request opts φ nr _ p r o s); try done; by left|].
    intros _ c' (H' & Hq & (Emc & _) & r' & s' & Er & [[Eo Et Ee _ _ _] Hw Hm Hcc _ _ _] & Hs' & Hsent).
    split_and!; [|done|by eexists]. eapply (Inv_put_at opts φ nr X _ p r' o s'); [exact H'|done|by rewrite Er, lookup_insert_eq| | |done|apply Hset|].
    + unfold live. by rewrite Ee.
    + by rewrite Eo.
    + rewrite (qu_map _ _ Hq), (qu_eb _ _ Hq), Emc. apply at_ok_some; [|rewrite Hto; by injection Hm|by apply Hcc|by rewrite Et|auto].
      unfold pool_of, pool_key. by rewrite Hw.
  - split_and!; [|done|exists r; by rewrite insert_id].
    eapply (Inv_put_at opts φ nr X _ p r o s); [exact H|done|done|done|done|done|apply Hset|].
    apply at_ok_some; try done. apply andb_false_iff in Hcond as [Hh|Hh]; apply negb_false_iff in Hh; [left|by right; left].
    by apply Z.eqb_eq in Hh.
Qed.

Lemma wpst_kick_request nr tid p l c :
  kicked nr ((tid, p) :: l) c →
  wpst (kick_request opts p) (c, (nr, [])) (λ _ z, z.2 = (delete tid nr, []) ∧ kicked (delete tid nr) l z.1 ∧ c_osdmap z.1 = c_osdmap c).
Proof.
  intros [H Hd Hin Hcomp]. assert (Hnr : nr !! tid = Some p) by (apply Hin; left).
  destruct (to_resend _ _ _ _ _ H Hnr) as (Ht & Hmc & r & Hp & Ho & Htid & Hl & Ha & Hpool & _).
  specialize (Hcomp tid p) as Hc. specialize (Hc r Hnr Hp).
  unfold kick_request. apply wpst_bind, wpst_on_client. eapply wpst_get_req; [done|].
  apply wpst_bind. cbn [get_resend wpst wp snd]. apply wpst_bind, wpst_lift. unfold rb_erase. rewrite Htid, Hnr.
  cbn [deref mbind outcome_bind wp]. apply wpst_bind. cbn [put_resend wpst wp fst]. set (nr' := delete tid nr).
  assert (H1 : Inv (idle (c_osdmap c)) nr' (λ q, q = p ∨ none q) c) by by apply Inv_unresend.
  apply wpst_bind, wpst_on_client. eapply wpst_mono; [apply (wpst_lookup_create_osd opts _ _ _ (t_osd (r_t r)) true c H1 (cp_up _ _ _ _ Hc))|].
  intros b c2 (H2 & [Em2 Ee2 _ Epr2 _] & (Emc2 & _) & Er2 & _ & Hb). destruct b; [|done]. destruct Hb as [s Hs].
  assert (Hp2 : c_reqs c2 !! p = Some r) by by rewrite Er2.
  apply wpst_bind, wpst_on_client. eapply wpst_mono; [eapply (wpst_link_request opts _ _ _ p r (t_osd (r_t r)) s); [exact H2|by left|done|done|congruence| |done]|].
  { rewrite Htid. unfold nr'. by rewrite lookup_delete_eq. }
  intros _ c3 (H3 & Hq3 & (Emc3 & _) & Er3). set (r3 := set_r_osd (Some (t_osd (r_t r))) r) in *.
  assert (Hp3 : c_reqs c3 !! p = Some r3) by by rewrite Er3, lookup_insert_eq.
  destruct (linked_tree _ _ _ _ _ _ _ _ H3 Hp3 eq_refl) as (s3 & Hs3 & _).
  apply wpst_on_client. destruct (rq_plain _ _ _ _ _ _ _ _ (iv_reqs _ _ _ _ _ H) p r Hp) as [-> _]. cbn [negb].
  eapply wpst_mono; [apply (wpst_send_linked (idle (c_osdmap c)) nr' none p r3 _ s3 c3 (settled_idle _) H3 Hp3 Hl eq_refl Hs3 eq_refl)|].
  - rewrite (qu_map _ _ Hq3), (qu_eb _ _ Hq3), Em2, Ee2. exact Hc.
  - rewrite (qu_map _ _ Hq3), Em2. exact Hpool.
  - change (r_tid r3) with (r_tid r). congruence.
  - intros _ c4 (H4 & Hq4 & r4 & Er4). cbn [fst snd]. assert (Em : c_osdmap c4 = c_osdmap c) by (rewrite (qu_map _ _ Hq4), (qu_map _ _ Hq3); done).
    split_and!; [done| |done]. apply NoDup_cons in Hd as [Hn Hd]. split; [by rewrite Em|done| |].
    + intros k q. unfold nr'. rewrite lookup_delete_Some, <- Hin, elem_of_cons. split.
      * intros Hkq. split; [|by right]. intros <-. apply Hn, list_elem_of_fmap. by exists (tid, q).
      * intros [Hne [[= -> _]|?]]; [by destruct Hne|done].
    + intros k q x [Hne Hk]%lookup_delete_Some Hq. rewrite (qu_eb _ _ Hq4), (qu_eb _ _ Hq3), Ee2, Em.
      rewrite Er4, Er3, Er2, insert_insert_eq in Hq. apply lookup_insert_Some in Hq as [[<- <-]|[_ Hq]]; [|by eapply Hcomp].
      exfalso. destruct (to_resend _ _ _ _ _ H Hk) as (_ & _ & x & Hx & _ & Hxt & _). congruence.
Qed.

Lemma wpst_kick_requests nr c :
  Inv (idle (c_osdmap c)) nr none c →
  wpst (kick_requests opts) (c, (nr, [])) (λ _ z, Good opts z.1).
Proof.
  intros H. unfold kick_requests. apply wpst_bind. cbn [get_resend wpst wp snd].
  apply wpst_bind. eapply wpst_mono; [by apply wpst_stale|]. intros _ [c1 lists] [Eli [H1 _ Hdone]]. cbn [fst snd] in *. subst lists.
  apply wpst_bind. cbn [get_resend wpst wp snd]. apply wpst_bind.
  eapply wpst_mono; [apply (wpst_each (λ l z, ∃ nr', z.2 = (nr', []) ∧ kicked nr' l z.1))|].
  - exists nr. split; [done|]. split; [done| |intros tid p; apply elem_of_in_order|].
    + rewrite rb_in_order_perm. apply NoDup_fst_map_to_list.
    + intros tid p r Hnr Hp. destruct (Hdone tid p r Hnr Hp) as [[]%not_elem_of_nil|?]; done.
  - intros tid p l [c2 lists] (nr' & Eli & Hk). cbn [fst snd] in *. subst lists. split.
    + unfold resend_has. cbn [fst snd]. apply bool_decide_eq_true. exists p. apply (kk_in _ _ _ Hk). left.
    + eapply wpst_mono; [by eapply wpst_kick_request|]. intros [] [c3 lists] (Eli & Hk3 & _). by exists (delete tid nr').
  - intros [] [c2 lists] (nr' & Eli & [H2 _ Hin _]). cbn [fst snd] in *. subst lists.
    assert (nr' = ∅) as ->. { apply map_empty. intros k. destruct (nr' !! k) eqn:Ek; [|done]. by apply Hin, not_elem_of_nil in Ek. }
    apply wpst_bind. cbn [get_resend wpst wp snd]. by apply wpst_ret.
Qed.
End resend.
