(* ===== verification/OsdMaps.v ===== *)
(** * The invariant under a message with maps

    The message is read twice: as what it does to the map alone, which tells the maps it goes through,
    and as the client reads it.  The second follows the first. *)
From S2P Require Import Prelude Hash Crush Mapper Choose DoRule Workspace OsdMap Placement.
From S2P Require Import CrushLoc OsdTarget Decode CrushDecode OsdMapDecode OsdMapWire OsdBackoff State OsdData.
From S2P Require Import OsdClient.
From S2P Require Import OsdLinger OsdMapChange OsdReply OsdEvents OsdInv OsdSafe OsdRequests OsdSubmit.
From S2P Require Import OsdSessions OsdLoops OsdScan OsdResend.

(** ** A decoder that follows another

    [R] relates the states, [E] is what the other one only adds to; where the other one has ended with a
    [legal] state and without an error, the decoder reads the same. *)
Section follow.
Context {S T : Type} (R : T → S → Prop) (legal : T → Prop) (E : T → T → Prop) `{!PreOrder E}.
Context (Hlegal : ∀ t t', E t t' → legal t' → legal t).

Definition sims {A} (d : D S A) (d' : D T A) : Prop := ∀ t pos res t' pos', d' t pos = Ret (res, t', pos') →
  E t t' ∧ ∀ a s, res = inl a → R t s → legal t' → wp (d s pos) (λ '(x, s', q), x = inl a ∧ q = pos' ∧ R t' s').

Lemma sims_bind {A B} (d : D S A) (d' : D T A) (f : A → D S B) (f' : A → D T B) :
  sims d d' → (∀ a, sims (f a) (f' a)) → sims (d ≫= f) (d' ≫= f').
Proof.
  intros Hd Hf t pos res t' pos' Heq. unfold mbind, D_bind in Heq.
  destruct (d' t pos) as [[[r1 t1] p1]| |] eqn:E1; [|done|done]. cbn in Heq.
  destruct (Hd _ _ _ _ _ E1) as [He Hs]. destruct r1 as [a|e].
  - destruct (Hf a _ _ _ _ _ Heq) as [He' Hs']. split; [by etransitivity|]. intros b s -> HR Hl.
    unfold mbind, D_bind. apply wp_bind. eapply wp_mono; [apply (Hs a s eq_refl HR); by eapply Hlegal|].
    intros [[x s1] q] (-> & -> & HR1). by apply Hs'.
  - injection Heq as <- <- <-. by split.
Qed.

Lemma sims_ret {A} (a : A) : sims (mret a) (mret a).
Proof. intros t pos res t' pos' [= <- <- <-]. split; [done|]. intros b s [= <-] HR _. done. Qed.
Lemma sims_fail {A} e : sims (A := A) (dfail e) (dfail e).
Proof. intros t pos res t' pos' [= <- <- <-]. done. Qed.
Lemma sims_pos : sims dpos dpos.
Proof. intros t pos res t' pos' [= <- <- <-]. split; [done|]. intros b s [= <-] HR _. done. Qed.
Lemma sims_seek q : sims (dseek q) (dseek q).
Proof. intros t pos res t' pos' [= <- <- <-]. split; [done|]. intros b s [= <-] HR _. done. Qed.
Lemma sims_need end_ n e : sims (ceph_decode_need end_ n e) (ceph_decode_need end_ n e).
Proof.
  intros t pos res t' pos'. unfold ceph_decode_need. destruct (ceph_has_room _ _ _); intros [= <- <- <-]; (split; [done|]); [|done].
  intros b s [= <-] HR _. done.
Qed.
Lemma sims_copy buf n : sims (ceph_decode_copy buf n) (ceph_decode_copy buf n).
Proof.
  intros t pos res t' pos'. unfold ceph_decode_copy. destruct (slice buf pos n) as [l| |]; [|done|done].
  intros [= <- <- <-]. split; [done|]. intros b s [= <-] HR _. done.
Qed.
Lemma sims_32 buf : sims (ceph_decode_32 buf) (ceph_decode_32 buf).
Proof. apply sims_bind; [apply sims_copy|]. intros l. apply sims_ret. Qed.
Lemma sims_32_safe buf end_ e : sims (ceph_decode_32_safe buf end_ e) (ceph_decode_32_safe buf end_ e).
Proof. apply sims_bind; [apply sims_need|]. intros _. apply sims_32. Qed.
Lemma sims_copy_safe buf end_ n e : sims (ceph_decode_copy_safe buf end_ n e) (ceph_decode_copy_safe buf end_ n e).
Proof. apply sims_bind; [apply sims_need|]. intros _. apply sims_copy. Qed.

Lemma sims_get {A X} (g : S → X) (g' : T → X) (f : X → D S A) (f' : X → D T A) :
  (∀ t s, R t s → g s = g' t) → (∀ x, sims (f x) (f' x)) →
  sims (s ← dget; f (g s)) (t ← dget; f' (g' t)).
Proof.
  intros Hg Hf t pos res t' pos' Heq. destruct (Hf (g' t) t pos res t' pos' Heq) as [He Hs]. split; [done|].
  intros a s Ha HR Hl. change ((s ← dget; f (g s)) s pos) with (f (g s) s pos). rewrite (Hg t s HR). by apply Hs.
Qed.

(** A step of the state that reports no error. *)
Definition follows_step (h : ST S Z) (h' : ST T Z) : Prop := ∀ t e t', h' t = Ret (e, t') →
  E t t' ∧ (e = 0 → ∀ s, R t s → legal t' → wpst h s (λ e' s', e' = 0 ∧ R t' s')).

Lemma sims_step {A} (k : A) h h' :
  follows_step h h' →
  sims (err ← on_state h; if nonzero err then dfail err else mret k) (err ← on_state h'; if nonzero err then dfail err else mret k).
Proof.
  intros Hh t pos res t' pos' Heq. unfold mbind, D_bind, on_state in Heq. destruct (h' t) as [[e t1]| |] eqn:Eh; [|done|done].
  destruct (Hh t e t1 Eh) as [He Hs]. cbn in Heq. unfold nonzero in Heq. destruct (Z.eqb_spec e 0) as [->|Hne]; cbn in Heq; injection Heq as <- <- <-.
  - split; [done|]. intros a s [= <-] HR Hl. unfold mbind, D_bind, on_state. apply wp_bind, wp_bind.
    eapply wp_mono; [by apply Hs|]. intros [e' s'] [-> HR']. cbn. done.
  - by split.
Qed.

(** ** The message *)

Context (buf : list Z) (epoch_of : S → Z) (epoch_of' : T → Z) (fsid_ok : list Z → bool).
Context (handle_at : Z → Z → bool → ST S Z) (handle_at' : Z → Z → bool → ST T Z).
Context (Hepoch : ∀ t s, R t s → epoch_of s = epoch_of' t).
Context (Hstep : ∀ p end_ incremental, follows_step (handle_at p end_ incremental) (handle_at' p end_ incremental)).

Lemma sims_incremental handled :
  sims (one_incremental buf epoch_of handle_at handled) (one_incremental buf epoch_of' handle_at' handled).
Proof.
  unfold one_incremental. apply sims_bind; [apply sims_need|]. intros _. apply sims_bind; [apply sims_32|]. intros epoch.
  apply sims_bind; [apply sims_32|]. intros maplen. apply sims_bind; [apply sims_need|]. intros _.
  apply (sims_get epoch_of epoch_of'
    (λ e, p ← dpos; h ← (if nonzero e && (u32 (e + 1) =? epoch) then err ← on_state (handle_at p (p + maplen) true);
                           if nonzero err then dfail err else mret true else mret handled);
          _ ← dseek (p + maplen); mret h)
    (λ e, p ← dpos; h ← (if nonzero e && (u32 (e + 1) =? epoch) then err ← on_state (handle_at' p (p + maplen) true);
                           if nonzero err then dfail err else mret true else mret handled);
          _ ← dseek (p + maplen); mret h)); [done|].
  intros e. apply sims_bind; [apply sims_pos|]. intros p. apply sims_bind.
  - destruct (_ && _); [by apply sims_step|apply sims_ret].
  - intros h. apply sims_bind; [apply sims_seek|]. intros _. apply sims_ret.
Qed.

Lemma sims_incrementals n handled :
  sims (incrementals buf epoch_of handle_at n handled) (incrementals buf epoch_of' handle_at' n handled).
Proof.
  revert handled. induction n as [|n IH]; intros handled; cbn [incrementals]; [apply sims_ret|].
  apply sims_bind; [apply sims_incremental|done].
Qed.

Lemma sims_full n : sims (one_full buf epoch_of handle_at n) (one_full buf epoch_of' handle_at' n).
Proof.
  unfold one_full. apply sims_bind; [apply sims_need|]. intros _. apply sims_bind; [apply sims_32|]. intros epoch.
  apply sims_bind; [apply sims_32|]. intros maplen. apply sims_bind; [apply sims_need|]. intros _.
  apply (sims_get epoch_of epoch_of'
    (λ e, p ← dpos; _ ← (if (1 <? Z.of_nat n) || (e >=? epoch) then mret tt
                          else err ← on_state (handle_at p (p + maplen) false); if nonzero err then dfail err else mret tt);
          dseek (p + maplen))
    (λ e, p ← dpos; _ ← (if (1 <? Z.of_nat n) || (e >=? epoch) then mret tt
                          else err ← on_state (handle_at' p (p + maplen) false); if nonzero err then dfail err else mret tt);
          dseek (p + maplen))); [done|].
  intros e. apply sims_bind; [apply sims_pos|]. intros p. apply sims_bind.
  - destruct (_ || _); [apply sims_ret|by apply sims_step].
  - intros _. apply sims_seek.
Qed.

Lemma sims_fulls n : sims (full_maps buf epoch_of handle_at n) (full_maps buf epoch_of' handle_at' n).
Proof.
  induction n as [|n IH]; cbn [full_maps]; [apply sims_ret|]. apply sims_bind; [apply sims_full|done].
Qed.

Lemma sims_maps : sims (decode_maps buf epoch_of handle_at fsid_ok) (decode_maps buf epoch_of' handle_at' fsid_ok).
Proof.
  unfold decode_maps. apply sims_bind; [apply sims_copy_safe|]. intros fsid. destruct (negb _); [apply sims_fail|].
  apply sims_bind; [apply sims_32_safe|]. intros nr_maps. apply sims_bind; [apply sims_incrementals|].
  intros [|]; [apply sims_ret|]. apply sims_bind; [apply sims_32_safe|]. intros nr_full. apply sims_fulls.
Qed.
End follow.

(** ** The maps that a message goes through *)

(** The newest first, with whether there was a gap before it. *)
Definition map_trace : Type := list (bool * ceph_osdmap).
Definition trace_map (tr : map_trace) : option ceph_osdmap := snd <$> head tr.
Definition trace_epoch (tr : map_trace) : Z := from_option om_epoch 0 (trace_map tr).

Definition read_map (mopts : map_options) (mem : Z → decode_mem) (buf : list Z) (p end_ : Z) (incremental : bool)
    : ST map_trace Z := λ tr,
  match trace_map tr with
  | None => Undef
  | Some m =>
      '(res, map) ← decode_map_at mopts mem buf p end_ incremental (set_pool_was_full m);
      match res with
      | inr err => _ ← require (nonzero err); Ret (err, tr)
      | inl None => Ret (0, (false, map) :: tr)
      | inl (Some new) => _ ← ceph_osdmap_destroy map; Ret (0, (skips map new, keep_was_full map new) :: tr)
      end
  end.
Definition read_maps (mopts : map_options) (mem : Z → decode_mem) (buf : list Z) (m : ceph_osdmap)
    : outcome ((unit + Z) * map_trace * Z) :=
  decode_maps buf trace_epoch (read_map mopts mem buf) (check_fsid mopts) [(false, m)] 0.

(** Each is a map that may come after the one before; pools that a map of the message has are not
    deleted by a later one of the same message. *)
Fixpoint legal_trace (fuel : nat) (tr : map_trace) : Prop :=
  match tr with
  | (skipped, m') :: ((_, m) :: rest) as tr' =>
      client_map fuel m' ∧ follows skipped m m'
      ∧ (rest ≠ [] → ∀ id, is_Some (om_pg_pools m !! id) → is_Some (om_pg_pools m' !! id))
      ∧ legal_trace fuel tr'
  | _ => True
  end.

Lemma legal_suffix fuel tr tr' : tr `suffix_of` tr' → legal_trace fuel tr' → legal_trace fuel tr.
Proof.
  intros [l ->]. induction l as [|[b m'] l IH]; [done|]. cbn [app legal_trace].
  destruct (l ++ tr) as [|[b1 m1] rest] eqn:El; [|intros (_ & _ & _ & ?); by apply IH].
  apply app_eq_nil in El as [-> ->]. done.
Qed.

Section maps.
Context (opts : ceph_options) (Henv : ∀ m n, map_ok (co_fuel opts) m → env_ok m (co_env opts m n)).
Context (mopts : map_options) (mem : Z → decode_mem).
Implicit Types (c : client) (p : rptr) (r : osd_request) (m : ceph_osdmap).
Local Abbreviation fuel := (co_fuel opts).
Local Abbreviation Inv := (OsdInv.Inv opts).
Local Abbreviation none := (λ _ : rptr, False).

(** The client has the last map, and what is to be sent again comes from the maps of this message. *)
Definition reading (tr : map_trace) (z : client * resend) : Prop :=
  ∃ nr b m rest, tr = (b, m) :: rest ∧ z.2 = (nr, []) ∧ c_osdmap z.1 = m ∧ Inv (idle m) nr none z.1 ∧ (rest = [] → nr = ∅).

Lemma set_osdmap_twice m m' c : set_c_osdmap m' (set_c_osdmap m c) = set_c_osdmap m' c.
Proof. done. Qed.

Lemma follows_one_map buf at_ end_ incremental :
  follows_step reading (legal_trace fuel) suffix (handle_one_map opts mopts mem buf at_ end_ incremental)
    (read_map mopts mem buf at_ end_ incremental).
Proof.
  intros tr e tr' Heq. unfold read_map in Heq. destruct tr as [|[b m] rest]; [done|]. cbn [trace_map head fmap option_fmap option_map snd] in Heq.
  destruct (decode_map_at mopts mem buf at_ end_ incremental (set_pool_was_full m)) as [[res map]| |] eqn:Edec; [|done|done].
  cbn [mbind outcome_bind] in Heq.
  assert (Hscan : ∀ skipped m' z, reading ((b, m) :: rest) z → legal_trace fuel ((skipped, m') :: (b, m) :: rest) →
    ∀ wf, wpst (_ ← scan_requests opts CEPH_HOMELESS_OSD skipped wf true; c ← get_client;
      _ ← scan_osds opts (osds_fuel c) (rb_next_osd c CEPH_HOMELESS_OSD) skipped wf; mret 0) (set_c_osdmap m' z.1, z.2)
      (λ e' z', e' = 0 ∧ reading ((skipped, m') :: (b, m) :: rest) z')).
  { intros skipped m' [c lists] (nr & b0 & m0 & rest0 & [= <- <- <-] & Eli & Em & H & Hnr) (Hm' & Hf & Hkeep & _) wf. cbn [fst snd] in *.
    subst lists m. pose proof (wpst_scan_all opts Henv skipped wf m' nr c H Hm' Hf) as Hsc. apply wpst_bind.
    eapply wpst_mono; [refine (wpst_bind_inv _ _ _ _ (Hsc _))|].
    - intros tid q r Hq Hr. destruct rest as [|x rest]; [rewrite Hnr in Hq by done; done|].
      destruct (to_resend opts _ _ _ _ _ H Hq) as (_ & _ & r' & Hr' & _ & _ & _ & _ & [Hp _]). simplify_eq.
      apply not_eq_None_Some, (Hkeep ltac:(done)), not_eq_None_Some. exact Hp.
    - intros [] z Hz. apply wpst_bind. eapply wpst_mono; [exact (wpst_bind_inv _ _ _ _ Hz)|]. intros c2 z2 Hz2. apply wpst_bind.
      eapply wpst_mono; [exact Hz2|]. intros [] z3 (nr' & ? & ? & ?). apply wpst_ret. split; [done|].
      by exists nr', skipped, m', ((b, c_osdmap c) :: rest). }
  assert (Hgo : ∀ skipped m' z, reading ((b, m) :: rest) z → (e, tr') = (0, (skipped, m') :: (b, m) :: rest) →
    (∀ c, c_osdmap c = set_pool_was_full m → wpst (decode_one_map mopts mem buf at_ end_ incremental) c
       (λ res c1, ∃ new, res = inl new ∧ wpst (match new with None => mret false | Some new => replace_map new end) c1
          (λ sk c2, sk = skipped ∧ c2 = set_c_osdmap m' c))) →
    legal_trace fuel tr' → wpst (handle_one_map opts mopts mem buf at_ end_ incremental) z (λ e' z', e' = 0 ∧ reading tr' z')).
  { intros skipped m' [c lists] Hrd [= -> ->] Hdec Hl. unfold handle_one_map. apply wpst_bind. cbn [get_client wpst wp fst].
    cbv zeta. apply wpst_bind, wpst_on_client, wpst_modify. apply wpst_bind, wpst_on_client.
    eapply wpst_mono; [apply (Hdec (set_c_osdmap (set_pool_was_full (c_osdmap c)) c))|].
    - destruct Hrd as (nr & b0 & m0 & rest0 & [= <- <- <-] & _ & Em & _). cbn in *. by rewrite Em.
    - intros res1 c1 (new & -> & Hnew). apply wpst_bind.
      apply (wpst_mono _ _ (λ sk z, sk = skipped ∧ z = (set_c_osdmap m' c, lists))).
      + destruct new as [new|]; [apply wpst_on_client|apply wpst_ret]; [eapply wpst_mono; [exact Hnew|]|].
        * intros sk c2 [-> ->]. done.
        * destruct Hnew as [-> ->]. done.
      + intros sk z [-> ->]. apply wpst_bind. cbn [get_client wpst wp fst]. apply (Hscan skipped m' (c, lists) Hrd Hl). }
  destruct res as [[new|]|err]; cbn in Heq.
  - destruct (ceph_osdmap_destroy map) as [[]| |] eqn:Ed; [|done|done]. injection Heq as <- <-.
    split; [by exists [(skips map new, keep_was_full map new)]|]. intros _ z Hz. eapply Hgo; [exact Hz|done|].
    intros c Ec. unfold decode_one_map. apply wpst_bind, wpst_get, wpst_bind, wpst_lift. rewrite Ec, Edec. cbn [wp].
    apply wpst_bind, wpst_modify, wpst_ret. exists (Some new). split; [done|]. unfold replace_map.
    apply wpst_bind, wpst_get. cbv zeta. apply wpst_bind, wpst_lift. client_simpl. rewrite Ed. cbn [wp].
    apply wpst_bind, wpst_modify, wpst_ret. done.
  - injection Heq as <- <-. split; [by exists [(false, map)]|]. intros _ z Hz. eapply Hgo; [exact Hz|done|].
    intros c Ec. unfold decode_one_map. apply wpst_bind, wpst_get, wpst_bind, wpst_lift. rewrite Ec, Edec. cbn [wp].
    apply wpst_bind, wpst_modify, wpst_ret. exists None. split; [done|]. by apply wpst_ret.
  - destruct (nonzero err) eqn:En; [|done]. injection Heq as <- <-. split; [done|]. by intros ->.
Qed.

(** A message that the client applies. *)
Definition legal_maps (buf : list Z) (m : ceph_osdmap) : Prop :=
  wp (read_maps mopts mem buf m) (λ '(res, tr, _), res = inl tt ∧ legal_trace fuel tr).

Lemma wpst_handle_map buf c :
  Good opts c → legal_maps buf (c_osdmap c) → wpst (ceph_osdc_handle_map opts mopts mem buf) c (λ _ c', Good opts c').
Proof.
  intros H Hlegal. unfold legal_maps in Hlegal. destruct (read_maps _ _ _ _) as [[[res tr] pos]| |] eqn:Erd; [|done|done].
  destruct Hlegal as [-> Hl].
  destruct (sims_maps reading (legal_trace fuel) suffix (legal_suffix fuel) buf (λ s : client * resend, om_epoch (c_osdmap s.1)) trace_epoch
    (check_fsid mopts) (handle_one_map opts mopts mem buf) (read_map mopts mem buf)) with (t := [(false, c_osdmap c)]) (pos := 0)
    (res := inl tt : unit + Z) (t' := tr) (pos' := pos) as [_ Hsim].
  { intros tr' z (nr & b & m & rest & -> & _ & -> & _). done. }
  { intros at_ end_ incremental. apply follows_one_map. }
  { exact Erd. }
  specialize (Hsim tt (c, (∅, [])) eq_refl). unfold wpst, ceph_osdc_handle_map. cbv zeta. apply wp_bind.
  eapply wp_mono; [apply Hsim; [|done]|].
  { exists ∅, false, (c_osdmap c), []. split_and!; done. }
  intros [[x [c1 lists]] q] (-> & _ & (nr & b & m & rest & _ & Eli & Em & H1 & _)). cbn [fst snd] in *. subst lists m.
  apply wp_bind. apply (wp_mono _ (λ '(_, c'), Inv (idle (c_osdmap c')) nr none c')).
  { apply (wpst_when _ _ c1 (λ _ c', Inv (idle (c_osdmap c')) nr none c')); [|done]. intros _.
    eapply wpst_mono; [by eapply wpst_maybe_request_map|]. intros _ c' (? & Hq & _). by rewrite (qu_map _ _ Hq). }
  intros [[] c2] H2. apply wp_bind. eapply wp_mono; [by apply wpst_kick_requests|]. intros [[] [c3 lists]] H3. cbn [fst] in H3.
  apply wp_bind. eapply wp_mono; [by apply wpst_abort_on_full|]. intros [[] c4] H4.
  apply wpst_modify. apply (Good_any opts (c_osdmap c3)). by apply Inv_emit.
Qed.
End maps.
