(* ===== verification/OsdSteps.v ===== *)
(** * What the OSD client keeps to

    The states a client without lingering requests goes through, whatever the order of submissions,
    cancellations, maps, replies, backoffs, faults and timeouts, but for the cases [enabled] leaves out. *)
From S2P Require Import Prelude Hash Crush Mapper Choose DoRule Workspace OsdMap Placement.
From S2P Require Import CrushLoc OsdTarget Decode CrushDecode OsdMapDecode OsdMapWire OsdBackoff State OsdData.
From S2P Require Import OsdClient OsdLinger OsdMapChange OsdReply OsdEvents OsdInv OsdSafe OsdRequests.
From S2P Require Import OsdSubmit OsdSessions OsdLoops OsdTimeouts OsdReplies OsdScan OsdResend OsdMaps.
From S2P Require Import OsdUpdate OsdMessages OsdFullMap OsdIncremental.

Section steps.
Context (opts : ceph_options) (mopts : map_options).
Implicit Types (c : client) (p : rptr) (r : osd_request) (m : ceph_osdmap).
Local Abbreviation fuel := (co_fuel opts).

(** ** Events that may happen

    A promoted submission is one that waits; an answered request was sent; a reply or backoff can be
    decoded, and OSDs and monitors say what they may say.  The runs leave out:
    - everything that lingering requests have (watches, notifies, their map checks, watch messages);
    - a message with maps that is corrupt, or of which a later map deletes a pool that an earlier one
      has: the code then leaves requests on no session ([legal_maps]);
    - a fault of a session, or a backoff lifted there, while the pool of one of its requests is
      being asked for, connections reopened while any pool is ([unchecked]), and a submission that was
      answered before and is promoted after its pool has gone: the code may then complete the
      request twice. *)
Definition enabled (c : client) (e : osd_event) : Prop :=
  match e with
  | ev_start _ oloc _ _ => int64 (oloc_pool oloc)
  | ev_promoted p => p ∈ c_promoting c ∧
      ∀ r, c_reqs c !! p = Some r → pool_of (c_osdmap c) (r_t r) = None → r_attempts r = 0
  | ev_cancel p => is_Some (c_reqs c !! p)
  | ev_map mem msg => legal_maps opts mopts mem msg (c_osdmap c)
  | ev_reply _ o _ msg => legal_reply o c msg
  | ev_backoff mem_ok o _ front => CEPH_HOMELESS_OSD < o ∧
      wp (decode_MOSDBackoff (λ i, mem_ok (3 + i)%nat) front tt 0)
        (λ '(res, _, _), match res with inl m => legal_backoff o c m | inr _ => True end)
  | ev_fault o _ _ => CEPH_HOMELESS_OSD < o ∧ unchecked o c
  | ev_reopen _ => c_map_checks c = ∅
  | ev_work _ | ev_map_check _ _ | ev_timeout | ev_osds_timeout | ev_abort _ | ev_clear_abort | ev_barrier _ | ev_tick _ => True
  | ev_watch _ _ | ev_notify _ _ | ev_linger_cancel _ | ev_linger_map_check _ _ | ev_watch_notify _ _ | ev_lwork => False
  end.

Inductive reached : client → Prop :=
  | reached_init m jiffies : client_map fuel m → reached (client_init m jiffies)
  | reached_step c e c' : reached c → enabled c e → osd_step opts mopts e c = Ret (tt, c') → reached c'.

Context (Henv : ∀ m n, map_ok fuel m → env_ok m (co_env opts m n)).

Lemma client_init_good m jiffies : client_map fuel m → Good opts (client_init m jiffies).
Proof.
  intros Hm. assert (Hone : ∀ o s, c_sessions (client_init m jiffies) !! o = Some s → o = CEPH_HOMELESS_OSD ∧ s = osd_init 0).
  { intros o s Hs. change (({[ CEPH_HOMELESS_OSD := osd_init 0 ]} : gmap Z osd_session) !! o = Some s) in Hs.
    by apply lookup_singleton_Some in Hs as [<- <-]. }
  assert (Hhome : c_sessions (client_init m jiffies) !! CEPH_HOMELESS_OSD = Some (osd_init 0)) by apply lookup_singleton_eq.
  split; try done.
  - split; try done.
    + intros o t k p (s & [-> ->]%Hone & ->)%trees_of_lookup. cbn. rewrite lookup_empty. split; [done|]. intros (x & Hx & _). done.
    + intros p Hp. by apply not_elem_of_nil in Hp.
  - split; [apply NoDup_nil_2| |done]. intros p Hp. by apply not_elem_of_nil in Hp.
  - split.
    + by eexists.
    + intros o [s [-> _]%Hone]. by left.
    + intros o s [_ ->]%Hone. apply session_ok_empty.
    + intros o s [-> _]%Hone. done.
    + apply NoDup_nil_2.
    + intros o Ho. by apply not_elem_of_nil in Ho.
    + intros o s [_ ->]%Hone. done.
Qed.

Lemma step_good c e : Good opts c → enabled c e → wpst (osd_step opts mopts e) c (λ _ c', Good opts c').
Proof.
  intros H He. pose proof (settled_idle (c_osdmap c)) as Hset.
  assert (Hgood : ∀ (mm : C unit), wpst mm c (λ _ c', OsdInv.Inv opts (idle (c_osdmap c)) ∅ (λ _, False) c') → wpst mm c (λ _ c', Good opts c')).
  { intros mm Hw. eapply wpst_mono; [exact Hw|]. intros [] c'. apply Good_any. }
  destruct e; cbn [osd_step enabled] in *; try done.
  - apply Hgood. eapply wpst_start; [done..|exact H|done].
  - destruct He as [Hp Hr]. apply Hgood.
    destruct (rq_pr _ _ _ _ _ _ _ _ (iv_reqs _ _ _ _ _ H) p Hp) as (r & Hr' & _).
    eapply wpst_submit_promoted; [done..|exact H|done|exact Hr'|by apply Hr].
  - apply Hgood. eapply wpst_cancel; [exact H|done|tauto].
  - apply Hgood. eapply wpst_work, H.
  - by eapply wpst_handle_map.
  - apply Hgood. eapply wpst_map_check; [done|exact H].
  - by eapply wpst_handle_reply.
  - destruct He. by eapply wpst_handle_backoff.
  - destruct He. by eapply wpst_osd_fault.
  - by eapply wpst_reopen_osds.
  - by eapply wpst_handle_timeout.
  - by eapply wpst_handle_osds_timeout.
  - by eapply wpst_abort_requests.
  - apply wpst_modify. by destruct H.
  - unfold ceph_osdc_update_epoch_barrier. apply Hgood, wpst_bind, wpst_get, wpst_when; [|intros _; exact H]. intros _.
    eapply wpst_mono; [eapply wpst_update_epoch_barrier, H|]. by intros _ c' [? _].
  - apply wpst_modify. by destruct H.
Qed.

Lemma reached_good c : reached c → Good opts c.
Proof.
  induction 1 as [m jiffies Hm|c e c' _ IH He Hs]; [by apply client_init_good|].
  pose proof (step_good c e IH He) as Hw. unfold wpst in Hw. rewrite Hs in Hw. exact Hw.
Qed.

(** ** The theorems *)

(** Where a request with a pool is: on the session of its target, which is the one the map gives it, and unless
    that is nowhere the session is with an OSD that is up, at its address, and the request is held back
    with a reason or its message is on the connection. *)
Definition served (c : client) (o : Z) (s : osd_session) (p : rptr) (r : osd_request) : Prop :=
  o = t_osd (r_t r) ∧ routed fuel (c_osdmap c) (r_t r) ∧
  (o = CEPH_HOMELESS_OSD
   ∨ osd_up (c_osdmap c) o = true ∧ om_osd_addr (c_osdmap c) !! Z.to_nat o = Some (o_peer_addr s)
     ∧ (t_paused (r_t r) = true ∧ stalled (c_osdmap c) (c_epoch_barrier c) (r_t r)
        ∨ held_back (o_backoffs_by_id (o_backoffs s)) (r_t r)
        ∨ sent s p r)).

(** C1: no request is lost or misdirected, in the runs of [enabled]: without lingering requests, without
    corrupt messages of maps or such that delete a pool their earlier maps have, and without faults,
    lifted backoffs, reopened connections and promotions while a pool is asked for or gone.  In every
    state of such a run, a request that is not finished waits for
    the lock or is linked to one session.  If its pool exists, that is the session of the OSD that the
    current map gives its target: an OSD that is up, its connection opened to the OSD's present address, and
    with the request's message for this target in its queue, unless the request is paused by the map or by the epoch barrier
    or held by a backoff of the OSD; or there is no such OSD.  If its pool does not exist, the
    monitors have been asked for the newest map, or a newer map is awaited. *)
Theorem osd_requests_routed c p r :
  reached c → c_reqs c !! p = Some r → r_end_latency r = None →
  p ∈ c_promoting c
  ∨ ∃ o s, r_osd r = Some o ∧ c_sessions c !! o = Some s ∧ o_requests s !! r_tid r = Some p ∧
      match pool_of (c_osdmap c) (r_t r) with
      | Some _ => served c o s p r
      | None => c_map_checks c !! r_tid r = Some p ∨ om_epoch (c_osdmap c) < r_map_dne_bound r
      end.
Proof.
  intros Hc%reached_good Hp Hl.
  destruct (iv_place _ _ _ _ _ Hc p r Hp Hl id) as [?|[[Hn _]|(o & s & Ho & Hs & [[_ Hat]|[[] _]])]]; [by left|by rewrite lookup_empty in Hn|].
  right. exists o, s. destruct (linked_tree _ _ _ _ _ _ _ _ Hc Hp Ho) as (s' & Hs' & Hk & _). simplify_eq.
  split_and!; [done..|]. unfold at_ok in Hat. destruct (pool_of _ _); [|done]. destruct Hat as (Ho' & [_ Hr _ _ Hpa] & _ & Hh).
  split; [done|]. split; [done|]. destruct (decide (o = CEPH_HOMELESS_OSD)) as [|Hne]; [by left|right].
  destruct (ss_addr _ _ _ _ _ (iv_sess _ _ _ _ _ Hc) o s Hs Hne) as [[Hup Ha]|[[] _]]. split_and!; [done..|].
  destruct Hh as [?|[Hh|[Hh|Hh]]]; [done|left; auto|right; left|by right; right].
  by apply should_plug_spec; [exact (ss_backoffs _ _ _ _ _ (iv_sess _ _ _ _ _ Hc) o s Hs)|].
Qed.

(** C3: requests complete once, in the runs of [enabled].  These leave out the cases in which the code
    completes a request twice: a fault, a lifted backoff or reopened connections while the pool of a
    request of the session is asked for, and the promotion of an answered request whose pool has gone.  No request is twice among those that have completed or are queued to
    complete; those are exactly the requests that have finished; and none of them is on a session,
    so none is sent again or answered. *)
Theorem osd_requests_complete_once c :
  reached c →
  NoDup (finished c)
  ∧ (∀ p, p ∈ finished c ↔ ∃ r, c_reqs c !! p = Some r ∧ r_end_latency r ≠ None)
  ∧ (∀ o s tid p, c_sessions c !! o = Some s → o_requests s !! tid = Some p → p ∉ finished c).
Proof.
  intros Hc%reached_good. pose proof (iv_done _ _ _ _ _ Hc) as [D1 D2 D3]. split_and!; [done| |].
  - intros p. split; [intros (r & ? & ?)%D2; eauto|]. intros (r & Hp & Hl). exact (D3 p r Hp Hl id).
  - intros o s tid p Hs Hk. apply (rq_tree _ _ _ _ _ _ _ _ (iv_reqs _ _ _ _ _ Hc) o (o_requests s)) in Hk as (r & Hp & Ho & _);
      [|apply trees_of_lookup; eauto].
    eapply not_finished; [exact Hc|done|]. by destruct (linked_at _ _ _ _ _ _ _ _ Hc Hp Ho id).
Qed.

End steps.

(** ** An example

    On the example cluster a read goes to OSD 0; then a map says that OSD 0 is down, and the read goes out again to
    OSD 2. *)
Definition fresh_work (c : crush_map) : crush_work :=
  map (fmap (λ bk, CrushWorkBucket 0 0 (replicate (Z.to_nat (b_size bk)) 0))) (buckets c).
Definition ex_opts : ceph_options :=
  CephOptions 100 (λ m _, CalcEnv (λ _, 0) ex_buf ex_buf (from_option fresh_work [] (om_crush m)) 7) [] false 0 0 0.
Definition ex_mopts : map_options := MapOptions true None.
Definition ex_mem : Z → decode_mem :=
  λ _, DecodeMem (λ _ _ _, true) (λ _, 0) (λ _, zero_addr) (λ _, 0) zero_addr 6%nat.

Lemma fresh_work_ok c rank : wf_map c rank → wf_work c (fresh_work c).
Proof.
  intros Hc b Hb. pose proof (wfm_bucket _ _ Hc b Hb) as Hwf. destruct Hb as [_ Hb]. eexists. unfold fresh_work.
  rewrite list_lookup_fmap, Hb. split; [reflexivity|]. split; [|by left]. cbn. rewrite length_replicate.
  destruct Hwf. lia.
Qed.
Lemma ex_opts_ok m n : map_ok (co_fuel ex_opts) m → env_ok m (co_env ex_opts m n).
Proof.
  intros [(c & rank & R & Hc & Hwf & _) _ _]. split; [apply ex_buf_fresh..|]. intros c' Hc'. cbn. rewrite Hc in Hc' |- *.
  injection Hc' as <-. by eapply fresh_work_ok.
Qed.

Lemma ex_client_map epoch osd_state : 0 < epoch → length osd_state = 4%nat → client_map 100 (ex_map_at epoch osd_state).
Proof.
  intros He Hs. split.
  - left. by apply ex_cluster_ok.
  - cbn. lia.
  - split; cbn; rewrite ?Hs; done.
  - done.
  - intros id pi Hpi. cbn [om_pg_pools ex_map_at] in Hpi. apply lookup_singleton_Some in Hpi as [<- _].
    unfold pool_bound. cbn. destruct (Z.eqb_spec epoch 0); lia.
  - intros id pi Hpi. cbn [om_pg_pools ex_map_at] in Hpi. apply lookup_singleton_Some in Hpi as [_ <-]. done.
Qed.

(** The message: an incremental map that flips the state of an OSD. *)
Definition ex_flip (osd : Z) : list Z :=
  let hd := IncHeader (Versions 8 7 9 1 [0; 0; 0; 0] [0; 0; 0; 0]) (replicate 16 0) 3 (0, 0) (-1) (-1) in
  let changes := IncChanges None (-1) [] [] [] (OsdLists [] [(osd, 2)] []) [] [] [] [] [] [] [] [] [] [] in
  let inc := enc_inc_header hd ++ enc_payload 9 (Changes changes) in
  replicate 16 0 ++ ceph_encode_32 1 ++ ceph_encode_32 3 ++ ceph_encode_32 (Z.of_nat (length inc)) ++ inc
  ++ ceph_encode_32 0.
Definition ex_start : client := client_init (ex_map_at 2 [3; 3; 3; 3]) 0.
Definition ex_step (e : osd_event) (c : client) : client :=
  match osd_step ex_opts ex_mopts e c with Ret (_, c) => c | _ => c end.
Definition ex_submit : osd_event := ev_start (chars "rbd_data.1") (CephObjectLocator 1 None) CEPH_OSD_FLAG_READ 1.
Definition ex_sent : client := Eval vm_compute in ex_step (ev_promoted 1) (ex_step ex_submit ex_start).
Definition ex_moved : client := Eval vm_compute in ex_step (ev_map ex_mem (ex_flip 0)) ex_sent.

Example ex_sent_to : c_sessions ex_sent !! 0 ≫= (λ s, o_con_queue s !! 1%nat) ≠ None.
Proof. by vm_compute. Qed.
Example ex_moved_to :
  c_sessions ex_moved !! 0 = None ∧ c_sessions ex_moved !! 2 ≫= (λ s, o_con_queue s !! 1%nat) ≠ None.
Proof. by vm_compute. Qed.

Lemma ex_flip_legal : legal_maps ex_opts ex_mopts ex_mem (ex_flip 0) (ex_map_at 2 [3; 3; 3; 3]).
Proof.
  unfold legal_maps.
  assert (∃ q, read_maps ex_mopts ex_mem (ex_flip 0) (ex_map_at 2 [3; 3; 3; 3])
    = Ret (inl tt, [(false, ex_map_at 3 [1; 3; 3; 3]); (false, ex_map_at 2 [3; 3; 3; 3])], q)) as [q ->]
    by (eexists; vm_compute; reflexivity).
  cbn [wp]. split; [done|]. cbn [legal_trace]. split_and!; [by apply ex_client_map| |done|done]. split.
  - done.
  - done.
  - intros id [pi Hpi] Hn. cbn [om_pg_pools ex_map_at] in *. congruence.
  - done.
Qed.

Lemma ex_reached : reached ex_opts ex_mopts ex_moved.
Proof.
  assert (H1 : reached ex_opts ex_mopts (ex_step ex_submit ex_start)).
  { apply (reached_step _ _ ex_start ex_submit); [by apply reached_init, (ex_client_map 2 [3; 3; 3; 3])|cbn; unfold int64; lia|]. vm_compute. reflexivity. }
  assert (H2 : reached ex_opts ex_mopts ex_sent).
  { apply (reached_step _ _ _ (ev_promoted 1%nat) _ H1); [|vm_compute; reflexivity]. split; [vm_compute; left|].
    intros r Hr _. vm_compute in Hr. injection Hr as <-. done. }
  apply (reached_step _ _ _ (ev_map ex_mem (ex_flip 0)) _ H2); [|vm_compute; reflexivity].
  cbn [enabled]. assert (c_osdmap ex_sent = ex_map_at 2 [3; 3; 3; 3]) as -> by (vm_compute; reflexivity). exact ex_flip_legal.
Qed.

Lemma ex_moved_request :
  ∃ r, c_reqs ex_moved !! 1%nat = Some r ∧ r_end_latency r = None ∧ r_osd r = Some 2
    ∧ pool_of (c_osdmap ex_moved) (r_t r) = Some (ex_pool 1) ∧ c_promoting ex_moved = [].
Proof. eexists. split; [reflexivity|]. do 3 (split; [vm_compute; reflexivity|]). reflexivity. Qed.

Lemma osd_requests_routed_witness :
  reached ex_opts ex_mopts ex_moved ∧
  ∃ r s, c_reqs ex_moved !! 1%nat = Some r ∧ r_end_latency r = None ∧ c_sessions ex_moved !! 2 = Some s
    ∧ served ex_opts ex_moved 2 s 1 r.
Proof.
  split; [exact ex_reached|]. destruct ex_moved_request as (r & Hr & Hl & Ho & Hp & Hpr).
  destruct (osd_requests_routed ex_opts ex_mopts ex_opts_ok ex_moved 1 r ex_reached Hr Hl) as [Hin|(o & s & Ho' & Hs & _ & H)].
  - rewrite Hpr in Hin. by apply not_elem_of_nil in Hin.
  - rewrite Ho in Ho'. injection Ho' as <-. rewrite Hp in H. exists r, s. exact (conj Hr (conj Hl (conj Hs H))).
Defined.

Lemma osd_requests_complete_once_witness :
  reached ex_opts ex_mopts ex_moved ∧
  NoDup (finished ex_moved)
  ∧ (∀ p, p ∈ finished ex_moved ↔ ∃ r, c_reqs ex_moved !! p = Some r ∧ r_end_latency r ≠ None)
  ∧ (∀ o s tid p, c_sessions ex_moved !! o = Some s → o_requests s !! tid = Some p → p ∉ finished ex_moved).
Proof. split; [exact ex_reached|]. exact (osd_requests_complete_once ex_opts ex_mopts ex_opts_ok ex_moved ex_reached). Defined.

