(* ===== verification/MsgData.v ===== *)
(** The data of a message ([messenger.c]): items of several kinds, walked by a cursor one piece
    of a page at a time, and the loop that writes them to a socket ([messenger_v1.c]).

    A byte of data is its place: the page and the offset in it.  The block layer's and the
    kernel's iterators are interfaces ([BvecIter], [IovIter]) with the laws their
    documentation states ([BvecLaws], [IovLaws]). *)

From S2P Require Import Prelude.

(** The places of [n] bytes from an offset of a page. *)
Definition run (page off n : Z) : list (Z * Z) := map (λ k, (page, off + Z.of_nat k)) (seq 0 (Z.to_nat n)).

(** * Interfaces *)

(** A position in an array of segments: the array and a [struct bvec_iter].  A piece is a page,
    an offset and a length. *)
Class BvecIter := {
  bvec_iter : Type;
  bi_size : bvec_iter → Z;
  with_bi_size : bvec_iter → Z → bvec_iter;
  bi_bvec_done : bvec_iter → Z;
  bvec_iter_bvec : bvec_iter → Z * Z * Z;
  bvec_iter_advance : bvec_iter → Z → bvec_iter;
}.

(** [struct iov_iter]; [iov_iter_get_pages2] yields at most one page here and moves on. *)
Class IovIter := {
  iov_iter : Type;
  iov_iter_count : iov_iter → Z;
  iov_iter_truncate : iov_iter → Z → iov_iter;
  iov_iter_advance : iov_iter → Z → iov_iter;
  iov_iter_revert : iov_iter → Z → iov_iter;
  iov_iter_get_pages2 : iov_iter → Z → iov_iter * (Z * Z * Z);
}.

(** * Data *)
Section data.
Context `{BvecIter} `{IovIter}.

Definition bvec_iter_page (it : bvec_iter) : Z := (bvec_iter_bvec it).1.1.
Definition bvec_iter_len (it : bvec_iter) : Z := (bvec_iter_bvec it).2.

(** A position in a list of bios: the position in the first and those at which the next begin. *)
Record ceph_bio_iter := {
  bio_iter : bvec_iter;
  bi_next : list bvec_iter;
}.

(** A page is not null, a page vector and a pagelist are there. *)
Inductive ceph_msg_data :=
  | MSG_DATA_NONE
  | MSG_DATA_PAGES (pages : list Z) (length alignment : Z) (own_pages : bool)
  | MSG_DATA_PAGELIST (pages : list Z) (length : Z)
  | MSG_DATA_BIO (bio_pos : ceph_bio_iter) (bio_length : Z)
  | MSG_DATA_BVECS (bvec_pos : bvec_iter)
  | MSG_DATA_ITER (it : iov_iter).

(** The union of a cursor; the page of a pagelist comes with those that follow it. *)
Inductive cursor_at :=
  | AtNone
  | AtPages (page_offset page_index page_count : Z)
  | AtPagelist (page : list Z) (offset : Z)
  | AtBio (it : ceph_bio_iter)
  | AtBvecs (it : bvec_iter)
  | AtIter (it : iov_iter) (lastlen : Z).

(** [c_data]: the items from [cursor->data] on. *)
Record ceph_msg_data_cursor := {
  total_resid : Z;
  c_data : list ceph_msg_data;
  resid : Z;
  sr_resid : Z;
  need_crc : bool;
  c_at : cursor_at;
}.

Definition set_at (at_ : cursor_at) (r : Z) (c : ceph_msg_data_cursor) : ceph_msg_data_cursor :=
  {| total_resid := total_resid c; c_data := c_data c; resid := r; sr_resid := sr_resid c;
     need_crc := need_crc c; c_at := at_ |}.
Definition set_need_crc (b : bool) (c : ceph_msg_data_cursor) : ceph_msg_data_cursor :=
  {| total_resid := total_resid c; c_data := c_data c; resid := resid c; sr_resid := sr_resid c;
     need_crc := b; c_at := c_at c |}.
Definition set_total_resid (n : Z) (c : ceph_msg_data_cursor) : ceph_msg_data_cursor :=
  {| total_resid := n; c_data := c_data c; resid := resid c; sr_resid := sr_resid c;
     need_crc := need_crc c; c_at := c_at c |}.
Definition set_data (l : list ceph_msg_data) (c : ceph_msg_data_cursor) : ceph_msg_data_cursor :=
  {| total_resid := total_resid c; c_data := l; resid := resid c; sr_resid := sr_resid c;
     need_crc := need_crc c; c_at := c_at c |}.

(** What a message holds of its data. *)
Record ceph_msg := {
  m_data : list ceph_msg_data;
  m_data_length : Z;
  m_max_data_items : Z;
}.

(** * Adding data *)
Definition ceph_msg_data_add (d : ceph_msg_data) (n : Z) (m : ceph_msg) : outcome ceph_msg :=
  _ ← require (Z.of_nat (length (m_data m)) <? m_max_data_items m);
  Ret {| m_data := m_data m ++ [d]; m_data_length := u64 (m_data_length m + n);
         m_max_data_items := m_max_data_items m |}.

Definition ceph_msg_data_add_pages (pages : list Z) (length alignment : Z) (own_pages : bool)
    (m : ceph_msg) : outcome ceph_msg :=
  _ ← require (nonzero length);
  ceph_msg_data_add (MSG_DATA_PAGES pages length (u32 (Z.land alignment (PAGE_SIZE - 1))) own_pages) length m.

Definition ceph_msg_data_add_pagelist (pages : list Z) (length : Z) (m : ceph_msg) : outcome ceph_msg :=
  _ ← require (nonzero length);
  ceph_msg_data_add (MSG_DATA_PAGELIST pages length) length m.

Definition ceph_msg_data_add_bio (bio_pos : ceph_bio_iter) (length : Z) (m : ceph_msg) : outcome ceph_msg :=
  ceph_msg_data_add (MSG_DATA_BIO bio_pos length) length m.

Definition ceph_msg_data_add_bvecs (bvec_pos : bvec_iter) (m : ceph_msg) : outcome ceph_msg :=
  ceph_msg_data_add (MSG_DATA_BVECS bvec_pos) (bi_size bvec_pos) m.

Definition ceph_msg_data_add_iter (it : iov_iter) (m : ceph_msg) : outcome ceph_msg :=
  ceph_msg_data_add (MSG_DATA_ITER it) (iov_iter_count it) m.

(** * The cursor

    One step of a kind of item yields the new place and what remains ([resid]). *)

Definition ceph_msg_data_bio_cursor_init (bio_pos : ceph_bio_iter) (bio_length length : Z)
    : outcome (cursor_at * Z) :=
  let r := Z.min length bio_length in
  let it := bio_iter bio_pos in
  let it := if r <? bi_size it then with_bi_size it r else it in
  _ ← require (bvec_iter_len it <=? r);
  Ret (AtBio {| bio_iter := it; bi_next := bi_next bio_pos |}, r).

Definition ceph_msg_data_bio_next (it : ceph_bio_iter) : Z * Z * Z := bvec_iter_bvec (bio_iter it).

Definition ceph_msg_data_bio_advance (it : ceph_bio_iter) (r bytes : Z) : outcome (cursor_at * Z * bool) :=
  let page := bvec_iter_page (bio_iter it) in
  _ ← require (bytes <=? r);
  _ ← require (bytes <=? bvec_iter_len (bio_iter it));
  let r := u64 (r - bytes) in
  let i := bvec_iter_advance (bio_iter it) bytes in
  let it := {| bio_iter := i; bi_next := bi_next it |} in
  if r =? 0 then Ret (AtBio it, r, false)
  else if (bytes =? 0) || (nonzero (bi_size i) && nonzero (bi_bvec_done i) && (page =? bvec_iter_page i)) then
    Ret (AtBio it, r, false)
  else
    it ← (if bi_size i =? 0 then
            match bi_next it with
            | [] => Undef
            | j :: nexts =>
                Ret {| bio_iter := if r <? bi_size j then with_bi_size j r else j; bi_next := nexts |}
            end
          else Ret it);
    _ ← require (bvec_iter_len (bio_iter it) <=? r);
    Ret (AtBio it, r, true).

Definition ceph_msg_data_bvecs_cursor_init (bvec_pos : bvec_iter) (length : Z) : outcome (cursor_at * Z) :=
  let r := Z.min length (bi_size bvec_pos) in
  let it := with_bi_size bvec_pos r in
  _ ← require (bvec_iter_len it <=? r);
  Ret (AtBvecs it, r).

Definition ceph_msg_data_bvecs_next (it : bvec_iter) : Z * Z * Z := bvec_iter_bvec it.

Definition ceph_msg_data_bvecs_advance (it : bvec_iter) (r bytes : Z) : outcome (cursor_at * Z * bool) :=
  let page := bvec_iter_page it in
  _ ← require (bytes <=? r);
  _ ← require (bytes <=? bvec_iter_len it);
  let r := u64 (r - bytes) in
  let it := bvec_iter_advance it bytes in
  if r =? 0 then Ret (AtBvecs it, r, false)
  else if (bytes =? 0) || (nonzero (bi_bvec_done it) && (page =? bvec_iter_page it)) then
    Ret (AtBvecs it, r, false)
  else
    _ ← require (bvec_iter_len it <=? r);
    Ret (AtBvecs it, r, true).

Definition ceph_msg_data_pages_cursor_init (data_length alignment length : Z) : outcome (cursor_at * Z) :=
  _ ← require (nonzero data_length);
  let page_count := calc_pages_for alignment data_length in
  let page_offset := u32 (Z.land alignment (PAGE_SIZE - 1)) in
  _ ← require (page_count <=? 2 ^ 16 - 1);
  _ ← require (length <=? 2 ^ 64 - 1 - page_offset);
  Ret (AtPages page_offset 0 (u16 page_count), Z.min length data_length).

Definition ceph_msg_data_pages_next (pages : list Z) (page_offset page_index page_count r : Z)
    : outcome (Z * Z * Z) :=
  _ ← require (page_index <? page_count);
  _ ← require (page_offset <? PAGE_SIZE);
  page ← aget pages page_index;
  Ret (page, page_offset, Z.min r (PAGE_SIZE - page_offset)).

Definition ceph_msg_data_pages_advance (page_offset page_index page_count r bytes : Z)
    : outcome (cursor_at * Z * bool) :=
  _ ← require (u64 (page_offset + bytes) <=? PAGE_SIZE);
  let r := u64 (r - bytes) in
  let page_offset := u32 (Z.land (page_offset + bytes) (PAGE_SIZE - 1)) in
  if (bytes =? 0) || nonzero page_offset then Ret (AtPages page_offset page_index page_count, r, false)
  else if r =? 0 then Ret (AtPages page_offset page_index page_count, r, false)
  else
    _ ← require (page_index <? page_count);
    Ret (AtPages page_offset (u16 (page_index + 1)) page_count, r, true).

(** Without a length the cursor stays as it is. *)
Definition ceph_msg_data_pagelist_cursor_init (pages : list Z) (data_length length : Z)
    (c : ceph_msg_data_cursor) : outcome (cursor_at * Z) :=
  if length =? 0 then Ret (c_at c, resid c)
  else
    match pages with
    | [] => Undef
    | _ :: _ => Ret (AtPagelist pages 0, Z.min length data_length)
    end.

Definition ceph_msg_data_pagelist_next (data_length : Z) (page : list Z) (offset r : Z)
    : outcome (Z * Z * Z) :=
  _ ← require (u64 (offset + r) =? data_length);
  let page_offset := Z.land offset (PAGE_SIZE - 1) in
  p ← deref (head page);
  Ret (p, page_offset, Z.min r (PAGE_SIZE - page_offset)).

Definition ceph_msg_data_pagelist_advance (data_length : Z) (page : list Z) (offset r bytes : Z)
    : outcome (cursor_at * Z * bool) :=
  _ ← require (u64 (offset + r) =? data_length);
  _ ← require (u64 (Z.land offset (PAGE_SIZE - 1) + bytes) <=? PAGE_SIZE);
  let r := u64 (r - bytes) in
  let offset := u64 (offset + bytes) in
  if (bytes =? 0) || nonzero (Z.land offset (PAGE_SIZE - 1)) then Ret (AtPagelist page offset, r, false)
  else if r =? 0 then Ret (AtPagelist page offset, r, false)
  else
    match page with
    | _ :: (_ :: _) as rest => Ret (AtPagelist rest offset, r, true)
    | _ => Undef
    end.

Definition ceph_msg_data_iter_cursor_init (it : iov_iter) (length : Z) : cursor_at * Z :=
  let it := iov_iter_truncate it length in
  (AtIter it 0, iov_iter_count it).

Definition ceph_msg_data_iter_next (it : iov_iter) (lastlen r : Z) : outcome (cursor_at * (Z * Z * Z)) :=
  let it := if nonzero lastlen then iov_iter_revert it lastlen else it in
  let '(it, (page, page_offset, len)) := iov_iter_get_pages2 it PAGE_SIZE in
  _ ← require (0 <=? len);
  Ret (AtIter it (u32 len), (page, page_offset, Z.min len r)).

Definition ceph_msg_data_iter_advance (it : iov_iter) (lastlen r bytes : Z) : outcome (cursor_at * Z * bool) :=
  _ ← require (bytes <=? r);
  let r := u64 (r - bytes) in
  if bytes <? lastlen then Ret (AtIter it (lastlen - bytes), r, nonzero r)
  else Ret (AtIter (iov_iter_advance it (bytes - lastlen)) 0, r, nonzero r).

(** [__ceph_msg_data_cursor_init] *)
Definition msg_data_cursor_init_ (c : ceph_msg_data_cursor) : outcome ceph_msg_data_cursor :=
  let length := total_resid c in
  d ← deref (head (c_data c));
  '(at_, r) ← (match d with
               | MSG_DATA_PAGELIST pages n => ceph_msg_data_pagelist_cursor_init pages n length c
               | MSG_DATA_PAGES _ n a _ => ceph_msg_data_pages_cursor_init n a length
               | MSG_DATA_BIO bio_pos n => ceph_msg_data_bio_cursor_init bio_pos n length
               | MSG_DATA_BVECS bvec_pos => ceph_msg_data_bvecs_cursor_init bvec_pos length
               | MSG_DATA_ITER it => Ret (ceph_msg_data_iter_cursor_init it length)
               | MSG_DATA_NONE => Ret (c_at c, resid c)
               end);
  Ret (set_need_crc true (set_at at_ r c)).

Definition ceph_msg_data_cursor_init (m : ceph_msg) (length : Z) (c : ceph_msg_data_cursor)
    : outcome ceph_msg_data_cursor :=
  _ ← require (nonzero length);
  _ ← require (length <=? m_data_length m);
  _ ← require (negb (Z.of_nat (List.length (m_data m)) =? 0));
  msg_data_cursor_init_
    {| total_resid := length; c_data := m_data m; resid := resid c; sr_resid := 0;
       need_crc := need_crc c; c_at := c_at c |}.

Definition ceph_msg_data_next (c : ceph_msg_data_cursor) : outcome (ceph_msg_data_cursor * (Z * Z * Z)) :=
  d ← deref (head (c_data c));
  '(c, (page, page_offset, length)) ←
    (match d, c_at c with
     | MSG_DATA_PAGELIST _ n, AtPagelist page offset =>
         pc ← ceph_msg_data_pagelist_next n page offset (resid c); Ret (c, pc)
     | MSG_DATA_PAGES pages _ _ _, AtPages off i n =>
         pc ← ceph_msg_data_pages_next pages off i n (resid c); Ret (c, pc)
     | MSG_DATA_BIO _ _, AtBio it => Ret (c, ceph_msg_data_bio_next it)
     | MSG_DATA_BVECS _, AtBvecs it => Ret (c, ceph_msg_data_bvecs_next it)
     | MSG_DATA_ITER _, AtIter it lastlen =>
         '(at_, pc) ← ceph_msg_data_iter_next it lastlen (resid c);
         Ret (set_at at_ (resid c) c, pc)
     | _, _ => Undef
     end);
  _ ← require (u64 (page_offset + length) <=? PAGE_SIZE);
  _ ← require (nonzero length);
  _ ← require (length <=? resid c);
  Ret (c, (page, page_offset, length)).

Definition ceph_msg_data_advance (c : ceph_msg_data_cursor) (bytes : Z) : outcome ceph_msg_data_cursor :=
  _ ← require (bytes <=? resid c);
  d ← deref (head (c_data c));
  '(at_, r, new_piece) ←
    (match d, c_at c with
     | MSG_DATA_PAGELIST _ n, AtPagelist page offset =>
         ceph_msg_data_pagelist_advance n page offset (resid c) bytes
     | MSG_DATA_PAGES _ _ _ _, AtPages off i n => ceph_msg_data_pages_advance off i n (resid c) bytes
     | MSG_DATA_BIO _ _, AtBio it => ceph_msg_data_bio_advance it (resid c) bytes
     | MSG_DATA_BVECS _, AtBvecs it => ceph_msg_data_bvecs_advance it (resid c) bytes
     | MSG_DATA_ITER _, AtIter it lastlen => ceph_msg_data_iter_advance it lastlen (resid c) bytes
     | _, _ => Undef
     end);
  let c := set_total_resid (u64 (total_resid c - bytes)) (set_at at_ r c) in
  '(c, new_piece) ← (if (resid c =? 0) && nonzero (total_resid c) then
                       c ← msg_data_cursor_init_ (set_data (tail (c_data c)) c); Ret (c, true)
                     else Ret (c, new_piece));
  Ret (set_need_crc new_piece c).
End data.

(** * Laws of the interfaces *)

(** A valid position has bytes; its piece is the first of them, on one page; after part of a
    piece comes its rest, at the same page of the same segment, and after the whole of it
    another segment ([bi_bvec_done] is 0) or another page. *)
Class BvecLaws `{BvecIter} := {
  bi_ok : bvec_iter → Prop;
  bi_bytes : bvec_iter → list (Z * Z);
  bi_bytes_length it : bi_ok it → Z.of_nat (length (bi_bytes it)) = bi_size it;
  bvec_piece it page off len : bi_ok it → bvec_iter_bvec it = (page, off, len) →
    0 <= off ∧ 0 <= len <= bi_size it ∧ off + len <= PAGE_SIZE ∧ (0 < bi_size it → 0 < len) ∧
    take (Z.to_nat len) (bi_bytes it) = run page off len;
  bvec_advance it n : bi_ok it → 0 <= n <= bi_size it →
    bi_ok (bvec_iter_advance it n) ∧ bi_bytes (bvec_iter_advance it n) = drop (Z.to_nat n) (bi_bytes it);
  bvec_resize it n : bi_ok it → 0 <= n <= bi_size it →
    bi_ok (with_bi_size it n) ∧ bi_bytes (with_bi_size it n) = take (Z.to_nat n) (bi_bytes it);
  bvec_within it page off len n : bi_ok it → bvec_iter_bvec it = (page, off, len) → 0 <= n < len →
    bvec_iter_bvec (bvec_iter_advance it n) = (page, off + n, len - n) ∧
    (n ≠ 0 → bi_bvec_done (bvec_iter_advance it n) ≠ 0);
  bvec_across it page off len : bi_ok it → bvec_iter_bvec it = (page, off, len) → len < bi_size it →
    bi_bvec_done (bvec_iter_advance it len) = 0 ∨ bvec_iter_page (bvec_iter_advance it len) ≠ page;
}.

(** A valid iterator has bytes; pages taken from it are the first of them; reverting undoes
    advancing. *)
Class IovLaws `{IovIter} := {
  iov_ok : iov_iter → Prop;
  iov_bytes : iov_iter → list (Z * Z);
  iov_count it : iov_ok it → iov_iter_count it = Z.of_nat (length (iov_bytes it));
  iov_truncate it n : iov_ok it → 0 <= n →
    iov_ok (iov_iter_truncate it n) ∧ iov_bytes (iov_iter_truncate it n) = take (Z.to_nat n) (iov_bytes it);
  iov_advance it n : iov_ok it → 0 <= n <= iov_iter_count it →
    iov_ok (iov_iter_advance it n) ∧ iov_bytes (iov_iter_advance it n) = drop (Z.to_nat n) (iov_bytes it);
  iov_advance_0 it : iov_ok it → iov_iter_advance it 0 = it;
  iov_advance_add it a b : iov_ok it → 0 <= a → 0 <= b → a + b <= iov_iter_count it →
    iov_iter_advance (iov_iter_advance it a) b = iov_iter_advance it (a + b);
  iov_revert it n : iov_ok it → 0 <= n <= iov_iter_count it →
    iov_iter_revert (iov_iter_advance it n) n = it;
  iov_get_pages2 it it' page off len : iov_ok it → 0 < iov_iter_count it →
    iov_iter_get_pages2 it PAGE_SIZE = (it', (page, off, len)) →
    0 <= off ∧ 0 < len <= iov_iter_count it ∧ off + len <= PAGE_SIZE ∧
    it' = iov_iter_advance it len ∧ take (Z.to_nat len) (iov_bytes it) = run page off len;
}.

(** * Runs of bytes and pages *)
Definition pages_bytes (pages : list Z) : list (Z * Z) := concat (map (λ p, run p 0 PAGE_SIZE) pages).

Section runs.
Implicit Types (p off n : Z) (pages : list Z).

Lemma length_run p off n : length (run p off n) = Z.to_nat n.
Proof. unfold run. by rewrite length_map, length_seq. Qed.

Lemma run_app p off n k : 0 <= n → 0 <= k → run p off (n + k) = run p off n ++ run p (off + n) k.
Proof.
  intros. unfold run. rewrite Z2Nat.inj_add, seq_app, map_app by lia. f_equal.
  rewrite Nat.add_0_l. replace (Z.to_nat n) with (Z.to_nat n + 0)%nat at 1 by lia.
  rewrite <- fmap_add_seq. rewrite map_map. apply map_ext. intros i. f_equal. lia.
Qed.

Lemma take_run p off n k : 0 <= n <= k → take (Z.to_nat n) (run p off k) = run p off n.
Proof.
  intros. replace k with (n + (k - n)) by lia. rewrite run_app by lia.
  apply take_app_length'. by rewrite length_run.
Qed.
Lemma drop_run p off n k : 0 <= n <= k → drop (Z.to_nat n) (run p off k) = run p (off + n) (k - n).
Proof.
  intros. replace k with (n + (k - n)) at 1 by lia. rewrite run_app by lia.
  apply drop_app_length'. by rewrite length_run.
Qed.

Lemma length_pages_bytes pages : Z.of_nat (length (pages_bytes pages)) = PAGE_SIZE * Z.of_nat (length pages).
Proof.
  induction pages as [|p pages IH]; [done|].
  change (pages_bytes (p :: pages)) with (run p 0 PAGE_SIZE ++ pages_bytes pages).
  rewrite length_app, length_run. simpl length. unfold PAGE_SIZE in *. lia.
Qed.

Lemma drop_pages_bytes pages (i : nat) :
  drop (Z.to_nat (Z.of_nat i * PAGE_SIZE)) (pages_bytes pages) = pages_bytes (drop i pages).
Proof.
  revert i. induction pages as [|p pages IH]; intros [|i]; try done.
  { rewrite drop_nil. unfold pages_bytes. apply drop_nil. }
  change (pages_bytes (p :: pages)) with (run p 0 PAGE_SIZE ++ pages_bytes pages).
  rewrite drop_app_ge by (rewrite length_run; unfold PAGE_SIZE; lia).
  rewrite length_run. simpl drop. rewrite <- IH. f_equal. unfold PAGE_SIZE. lia.
Qed.

(** A piece of a page in an array of pages. *)
Lemma take_pages_bytes p pages off n :
  0 <= off → 0 <= n → off + n <= PAGE_SIZE →
  take (Z.to_nat n) (drop (Z.to_nat off) (pages_bytes (p :: pages))) = run p off n.
Proof.
  intros. change (pages_bytes (p :: pages)) with (run p 0 PAGE_SIZE ++ pages_bytes pages).
  rewrite drop_app_le by (rewrite length_run; lia). rewrite drop_run by lia.
  rewrite take_app_le by (rewrite length_run; lia). rewrite take_run by lia. reflexivity.
Qed.
Lemma drop_pages_bytes_at p pages off :
  off = PAGE_SIZE → drop (Z.to_nat off) (pages_bytes (p :: pages)) = pages_bytes pages.
Proof. intros ->. apply (drop_pages_bytes (p :: pages) 1). Qed.
End runs.

(** * What a cursor has left *)
Section cursor.
Context `{BvecLaws} `{IovLaws}.
Implicit Types (d : ceph_msg_data) (c : ceph_msg_data_cursor).

Definition bio_bytes (it : ceph_bio_iter) : list (Z * Z) :=
  bi_bytes (bio_iter it) ++ concat (map bi_bytes (bi_next it)).
Definition bio_ok (it : ceph_bio_iter) : Prop :=
  bi_ok (bio_iter it) ∧ Forall (λ i, bi_ok i ∧ 0 < bi_size i) (bi_next it).

(** The bytes of an item, in order. *)
Definition item_bytes d : list (Z * Z) :=
  match d with
  | MSG_DATA_NONE => []
  | MSG_DATA_PAGES pages n a _ => take (Z.to_nat n) (drop (Z.to_nat a) (pages_bytes pages))
  | MSG_DATA_PAGELIST pages n => take (Z.to_nat n) (pages_bytes pages)
  | MSG_DATA_BIO it n => take (Z.to_nat n) (bio_bytes it)
  | MSG_DATA_BVECS it => bi_bytes it
  | MSG_DATA_ITER it => iov_bytes it
  end.
Definition item_len d : Z := Z.of_nat (length (item_bytes d)).

(** An item as the functions that add one leave it, with as many pages as its length asks for. *)
Definition item_ok d : Prop :=
  match d with
  | MSG_DATA_NONE => False
  | MSG_DATA_PAGES pages n a _ =>
      0 < n ∧ 0 <= a < PAGE_SIZE ∧ a + n <= PAGE_SIZE * Z.of_nat (length pages) ∧
      a + n <= PAGE_SIZE * (2 ^ 16 - 1)
  | MSG_DATA_PAGELIST pages n => 0 < n < 2 ^ 64 ∧ n <= PAGE_SIZE * Z.of_nat (length pages)
  | MSG_DATA_BIO it n =>
      bio_ok it ∧ 0 <= n <= Z.of_nat (length (bio_bytes it)) ∧ (0 < n → 0 < bi_size (bio_iter it))
  | MSG_DATA_BVECS it => bi_ok it
  | MSG_DATA_ITER it => iov_ok it
  end.

(** The place of a cursor in an item, with [r] bytes of it, [rest], to go. *)
Definition at_ok d at_ (r : Z) (rest : list (Z * Z)) : Prop :=
  Z.of_nat (length rest) = r ∧
  match d, at_ with
  | MSG_DATA_PAGES pages _ _ _, AtPages off i n =>
      0 <= off < PAGE_SIZE ∧ 0 <= i ∧ n < 2 ^ 16 ∧ n <= Z.of_nat (length pages) ∧
      (0 < r → i * PAGE_SIZE + off + r <= n * PAGE_SIZE) ∧
      rest = take (Z.to_nat r) (drop (Z.to_nat off) (pages_bytes (drop (Z.to_nat i) pages)))
  | MSG_DATA_PAGELIST _ n, AtPagelist pages off =>
      0 <= off ∧ off + r = n ∧ n < 2 ^ 64 ∧
      rest = take (Z.to_nat r) (drop (Z.to_nat (off mod PAGE_SIZE)) (pages_bytes pages))
  | MSG_DATA_BIO _ _, AtBio it =>
      bio_ok it ∧ rest = take (Z.to_nat r) (bio_bytes it) ∧
      bi_size (bio_iter it) <= r ∧ (0 < r → 0 < bi_size (bio_iter it))
  | MSG_DATA_BVECS _, AtBvecs it => bi_ok it ∧ rest = bi_bytes it
  | MSG_DATA_ITER _, AtIter it lastlen =>
      ∃ base, iov_ok base ∧ rest = iov_bytes base ∧ it = iov_iter_advance base lastlen ∧
        0 <= lastlen <= r ∧ lastlen <= PAGE_SIZE
  | _, _ => False
  end.

(** The piece at a cursor. *)
Definition piece d at_ (r : Z) : Z * Z * Z :=
  match d, at_ with
  | MSG_DATA_PAGES pages _ _ _, AtPages off i _ =>
      (default 0 (pages !! Z.to_nat i), off, Z.min r (PAGE_SIZE - off))
  | MSG_DATA_PAGELIST _ _, AtPagelist pages off =>
      (default 0 (head pages), off mod PAGE_SIZE, Z.min r (PAGE_SIZE - off mod PAGE_SIZE))
  | MSG_DATA_BIO _ _, AtBio it => bvec_iter_bvec (bio_iter it)
  | MSG_DATA_BVECS _, AtBvecs it => bvec_iter_bvec it
  | MSG_DATA_ITER _, AtIter it lastlen =>
      (iov_iter_get_pages2 (if nonzero lastlen then iov_iter_revert it lastlen else it) PAGE_SIZE).2
  | _, _ => (0, 0, 0)
  end.

Definition is_iter d : bool := match d with MSG_DATA_ITER _ => true | _ => false end.

(** What a step of [n] bytes into a piece [(page, off, len)], [r] bytes before the item's end,
    says of the next piece. *)
Definition piece_told d (pc : Z * Z * Z) (r n : Z) at_ (new_piece : bool) : Prop :=
  is_iter d = false →
  (0 < n < pc.2 → new_piece = false ∧ piece d at_ (r - n) = (pc.1.1, pc.1.2 + n, pc.2 - n)) ∧
  (n = pc.2 → n < r → new_piece = true).

(** A step of [n] bytes, at most a piece, within an item. *)
Definition stepped d at_ (r : Z) (rest : list (Z * Z)) (n : Z) (o : cursor_at * Z * bool) : Prop :=
  o.1.2 = r - n ∧ at_ok d o.1.1 (r - n) (drop (Z.to_nat n) rest) ∧
  piece_told d (piece d at_ r) r n o.1.1 o.2.

Lemma at_ok_range d at_ r rest : at_ok d at_ r rest → 0 <= r.
Proof. intros [? _]. lia. Qed.

Lemma land_page x : Z.land x (PAGE_SIZE - 1) = x mod PAGE_SIZE.
Proof. change (PAGE_SIZE - 1) with (Z.ones 12). by rewrite Z.land_ones by lia. Qed.

Lemma bvec_bytes_within it page off len n :
  bi_ok it → bvec_iter_bvec it = (page, off, len) → 0 <= n <= len →
  bi_ok (bvec_iter_advance it n) ∧ bi_bytes (bvec_iter_advance it n) = drop (Z.to_nat n) (bi_bytes it) ∧
  bi_size (bvec_iter_advance it n) = bi_size it - n.
Proof.
  intros Hok Hpc Hn. destruct (bvec_piece it page off len Hok Hpc) as (_ & Hl & _).
  destruct (bvec_advance it n Hok ltac:(lia)) as [Hok' Hb]. split; [done|]. split; [done|].
  rewrite <- !bi_bytes_length by done. rewrite Hb, length_drop. pose proof (bi_bytes_length it Hok). lia.
Qed.

Lemma bvec_resized it n :
  bi_ok it → 0 <= n <= bi_size it → bi_ok (with_bi_size it n) ∧
  bi_bytes (with_bi_size it n) = take (Z.to_nat n) (bi_bytes it) ∧ bi_size (with_bi_size it n) = n.
Proof.
  intros Hok Hn. destruct (bvec_resize it n Hok Hn) as [Hok' Hb]. split; [done|]. split; [done|].
  rewrite <- bi_bytes_length by done. rewrite Hb, length_take. pose proof (bi_bytes_length it Hok). lia.
Qed.

Lemma bvec_len_range it : bi_ok it → 0 <= bvec_iter_len it <= bi_size it ∧ (0 < bi_size it → 0 < bvec_iter_len it).
Proof.
  intros Hok. unfold bvec_iter_len. destruct (bvec_iter_bvec it) as [[page off] len] eqn:E.
  destruct (bvec_piece it page off len Hok E) as (_ & ? & _ & ? & _). simpl. auto.
Qed.

(** The test for a new piece, of a position whose piece was [(page, off, len)]. *)
Lemma bvec_new_piece it page off len n :
  bi_ok it → bvec_iter_bvec it = (page, off, len) → 0 <= n <= len → n < bi_size it →
  (nonzero (bi_bvec_done (bvec_iter_advance it n)) && (page =? bvec_iter_page (bvec_iter_advance it n))) =
  (if n =? 0 then nonzero (bi_bvec_done (bvec_iter_advance it n)) else n <? len).
Proof.
  intros Hok Hpc Hn Hsz. destruct (Z.ltb_spec n len) as [Hlt|Hge].
  - destruct (bvec_within it page off len n Hok Hpc ltac:(lia)) as [Hpc' Hdone].
    unfold bvec_iter_page. rewrite Hpc'. simpl. rewrite Z.eqb_refl, andb_true_r.
    destruct (Z.eqb_spec n 0) as [->|Hn0]; [done|]. unfold nonzero. apply negb_true_iff, Z.eqb_neq. auto.
  - assert (n = len) as -> by lia.
    destruct (bvec_piece it page off len Hok Hpc) as (_ & Hl & _ & Hpos & _).
    destruct (Z.eqb_spec len 0) as [E|_]; [lia|].
    destruct (bvec_across it page off len Hok Hpc Hsz) as [->|Hne]; [done|].
    apply andb_false_iff. right. apply Z.eqb_neq. congruence.
Qed.

Lemma take_drop_rest {A} (l rest : list A) (r n k : Z) :
  rest = take (Z.to_nat r) (drop (Z.to_nat k) l) → 0 <= n <= r → 0 <= k →
  drop (Z.to_nat n) rest = take (Z.to_nat (r - n)) (drop (Z.to_nat (k + n)) l).
Proof.
  intros -> Hn Hk. rewrite skipn_firstn_comm, drop_drop. f_equal; [lia|]. f_equal. lia.
Qed.

Lemma wp_pages_advance pages n0 a own off i cnt r rest n :
  let d := MSG_DATA_PAGES pages n0 a own in
  at_ok d (AtPages off i cnt) r rest → r < 2 ^ 64 → 0 <= n <= (piece d (AtPages off i cnt) r).2 →
  wp (ceph_msg_data_pages_advance off i cnt r n) (stepped d (AtPages off i cnt) r rest n).
Proof.
  intros d (Hlen & Hoff & Hi & Hcnt & Hpages & Hbound & Hrest) Hr Hn. simpl in Hn. unfold PAGE_SIZE in *.
  unfold ceph_msg_data_pages_advance. rewrite land_page. apply wp_bind, wp_require.
  { unfold PAGE_SIZE. word_small. bool_to_prop. lia. }
  pose proof (take_drop_rest _ _ r n off Hrest ltac:(lia) ltac:(lia)) as Hrest'.
  assert (Z.of_nat (length (drop (Z.to_nat n) rest)) = r - n) as Hlen' by (rewrite length_drop; lia).
  pose proof (Z.mod_pos_bound (off + n) PAGE_SIZE). unfold PAGE_SIZE in *. word_small.
  assert (off + n < 4096 ∧ (off + n) mod 4096 = off + n ∨ off + n = 4096 ∧ (off + n) mod 4096 = 0) as Hmod.
  { destruct (Z.eq_dec (off + n) 4096) as [->|]; [by right|]. left. rewrite Z.mod_small; lia. }
  destruct (n =? 0) eqn:En; simpl; [|destruct (nonzero ((off + n) mod 4096)) eqn:Enz; simpl];
    [| |destruct (r - n =? 0) eqn:Er; simpl]; unfold nonzero in *; bool_to_prop.
  1-2: assert ((off + n) mod 4096 = off + n) as E by lia; rewrite E; split; [done|]; split;
    [split; [done|]; simpl; unfold PAGE_SIZE; repeat split; try done; lia|];
    intros _; simpl; unfold PAGE_SIZE; split; [intros; split; [done|]; f_equal; lia|intros; lia].
  - split; [done|]. split; [split; [done|]|intros _; simpl; unfold PAGE_SIZE; lia].
    replace (r - n) with 0 in * by lia. simpl. unfold PAGE_SIZE. repeat split; try done; try lia.
  - apply wp_bind, wp_require; [bool_to_prop; lia|]. apply wp_ret.
    split; [done|]. split; [split; [done|]|intros _; simpl; unfold PAGE_SIZE; split; [lia|done]].
    simpl. word_small. unfold PAGE_SIZE. repeat split; try done; try lia.
    replace ((off + n) mod 4096) with 0 by lia. rewrite Hrest', drop_0. f_equal.
    replace (off + n) with (Z.of_nat 1 * PAGE_SIZE) by (unfold PAGE_SIZE; lia).
    rewrite drop_pages_bytes, drop_drop. do 2 f_equal. lia.
Qed.

Lemma page_step off n :
  0 <= off → 0 <= n <= PAGE_SIZE - off mod PAGE_SIZE →
  (off + n) mod PAGE_SIZE = off mod PAGE_SIZE + n ∧ off mod PAGE_SIZE + n < PAGE_SIZE ∨
  (off + n) mod PAGE_SIZE = 0 ∧ off mod PAGE_SIZE + n = PAGE_SIZE.
Proof.
  intros Hoff Hn. pose proof (Z.mod_pos_bound off PAGE_SIZE ltac:(done)). rewrite <- Zplus_mod_idemp_l.
  destruct (Z.eq_dec (off mod PAGE_SIZE + n) PAGE_SIZE) as [E|]; [right; by rewrite E|left].
  rewrite Z.mod_small by lia. lia.
Qed.

Lemma wp_pagelist_advance l n0 pages off r rest n :
  let d := MSG_DATA_PAGELIST l n0 in
  at_ok d (AtPagelist pages off) r rest → 0 <= n <= (piece d (AtPagelist pages off) r).2 →
  wp (ceph_msg_data_pagelist_advance n0 pages off r n) (stepped d (AtPagelist pages off) r rest n).
Proof.
  intros d (Hlen & Hoff & Hn0 & Hmax & Hrest) Hn. simpl in Hn.
  unfold ceph_msg_data_pagelist_advance. rewrite !land_page.
  pose proof (page_step off n Hoff ltac:(lia)) as Hmod.
  pose proof (Z.mod_pos_bound off PAGE_SIZE ltac:(done)).
  apply wp_bind, wp_require; [word_small; bool_to_prop; lia|].
  apply wp_bind, wp_require; [unfold PAGE_SIZE in *; word_small; bool_to_prop; lia|].
  pose proof (take_drop_rest _ _ r n (off mod PAGE_SIZE) Hrest ltac:(lia) ltac:(lia)) as Hrest'.
  assert (Z.of_nat (length (drop (Z.to_nat n) rest)) = r - n) as Hlen' by (rewrite length_drop; lia).
  word_small. destruct Hmod as [[E Hlt]|[E Hend]]; rewrite E.
  - assert ((n =? 0) || nonzero (off mod PAGE_SIZE + n) = true) as ->.
    { unfold nonzero. apply orb_true_iff. destruct (Z.eqb_spec n 0); [by left|right].
      apply negb_true_iff, Z.eqb_neq. lia. }
    split; [done|]. split; [split; [done|]; simpl; rewrite E; repeat split; try done; lia|].
    intros _. simpl. rewrite E. split; [intros; split; [done|]; f_equal; lia|intros; lia].
  - rewrite (proj2 (Z.eqb_neq n 0)) by lia. simpl. destruct (Z.eqb_spec (r - n) 0) as [E0|Hne].
    + split; [done|]. split; [split; [done|]|intros _; simpl; lia].
      simpl. rewrite E, E0 in *. repeat split; try done; lia.
    + assert (∃ p q qs, pages = p :: q :: qs) as (p & q & qs & ->).
      { pose proof (length_pages_bytes pages) as Hpl. rewrite Hrest, length_take, length_drop in Hlen.
        assert (2 <= Z.of_nat (length pages)) by (unfold PAGE_SIZE in *; lia).
        destruct pages as [|p [|q qs]]; [simpl in *; lia..|by eauto]. }
      split; [done|]. split; [split; [done|]|intros _; simpl; split; [lia|done]].
      simpl. rewrite E. repeat split; try done; try lia.
      rewrite Hrest', drop_0. f_equal. by apply drop_pages_bytes_at.
Qed.

Lemma wp_bvecs_advance it0 it r rest n :
  let d := MSG_DATA_BVECS it0 in
  at_ok d (AtBvecs it) r rest → r < 2 ^ 64 → 0 <= n <= (piece d (AtBvecs it) r).2 →
  wp (ceph_msg_data_bvecs_advance it r n) (stepped d (AtBvecs it) r rest n).
Proof.
  intros d (Hlen & Hok & ->) Hr Hn. simpl in Hn. rewrite bi_bytes_length in Hlen by done.
  destruct (bvec_iter_bvec it) as [[page off] len] eqn:Hpc. simpl in Hn.
  destruct (bvec_piece it page off len Hok Hpc) as (_ & Hl & _ & Hpos & _).
  unfold ceph_msg_data_bvecs_advance, bvec_iter_len. rewrite Hpc. simpl.
  apply wp_bind, wp_require; [bool_to_prop; lia|]. apply wp_bind, wp_require; [bool_to_prop; lia|].
  word_small. destruct (bvec_bytes_within it page off len n Hok Hpc Hn) as (Hok' & Hb & Hsz).
  assert (at_ok d (AtBvecs (bvec_iter_advance it n)) (r - n) (drop (Z.to_nat n) (bi_bytes it))) as Hat.
  { rewrite <- Hb. split; [rewrite bi_bytes_length by done; lia|done]. }
  assert (∀ np, (0 < n < len → np = false) → (n = len → n < r → np = true) →
    stepped d (AtBvecs it) r (bi_bytes it) n (AtBvecs (bvec_iter_advance it n), r - n, np)) as Hdone.
  { intros np Hin Hend. split; [done|]. split; [done|]. intros _. simpl. rewrite Hpc. simpl.
    split; [|done]. intros Hn'. split; [auto|]. apply (bvec_within it page off len n); (done || lia). }
  destruct (Z.eqb_spec (r - n) 0) as [E|Hne]; [apply Hdone; [done|lia]|].
  unfold bvec_iter_page at 1. rewrite Hpc. simpl.
  rewrite (bvec_new_piece it page off len n) by (done || lia).
  destruct (Z.eqb_spec n 0) as [->|Hn0]; simpl.
  { apply Hdone; [done|lia]. }
  destruct (Z.ltb_spec n len); [apply Hdone; [done|lia]|].
  pose proof (bvec_len_range _ Hok') as [? _]. unfold bvec_iter_len in *.
  apply wp_bind, wp_require; [bool_to_prop; lia|]. apply Hdone; [lia|done].
Qed.

Lemma wp_iter_advance it0 it lastlen r rest n :
  let d := MSG_DATA_ITER it0 in
  at_ok d (AtIter it lastlen) r rest → r < 2 ^ 64 → 0 <= n <= r →
  wp (ceph_msg_data_iter_advance it lastlen r n) (stepped d (AtIter it lastlen) r rest n).
Proof.
  intros d (Hlen & base & Hok & -> & -> & Hl & Hp) Hr Hn. pose proof (iov_count base Hok) as Hc.
  unfold ceph_msg_data_iter_advance. apply wp_bind, wp_require; [bool_to_prop; lia|]. word_small.
  destruct (iov_advance base n Hok ltac:(lia)) as [Hok' Hb].
  pose proof (iov_count _ Hok') as Hc'. rewrite Hb, length_drop in Hc'.
  assert (∀ l k np, n + l = k → 0 <= l <= r - n → l <= PAGE_SIZE →
    stepped d (AtIter (iov_iter_advance base lastlen) lastlen) r (iov_bytes base) n
      (AtIter (iov_iter_advance base k) l, r - n, np)) as Hdone.
  { intros l k np <- Hl' Hlp. split; [done|]. split; [|done]. split; [rewrite length_drop; simpl; lia|].
    exists (iov_iter_advance base n). rewrite iov_advance_add by (done || lia). rewrite Hb. done. }
  destruct (Z.ltb_spec n lastlen); apply wp_ret; [apply Hdone; lia|].
  rewrite iov_advance_add by (done || lia). apply Hdone; unfold PAGE_SIZE; lia.
Qed.

(** The bytes from a bio that is cut down to [r] bytes when it is longer. *)
Lemma take_resized i r (l : list (Z * Z)) :
  bi_ok i → 0 <= r →
  let i' := if r <? bi_size i then with_bi_size i r else i in
  bi_ok i' ∧ bi_size i' = Z.min r (bi_size i) ∧ take (Z.to_nat r) (bi_bytes i' ++ l) = take (Z.to_nat r) (bi_bytes i ++ l).
Proof.
  intros Hok Hr i'. pose proof (bi_bytes_length i Hok). subst i'. destruct (Z.ltb_spec r (bi_size i)) as [Hlt|].
  - destruct (bvec_resized i r Hok ltac:(lia)) as (Hok' & Hb & Hsz). split; [done|]. split; [lia|].
    rewrite Hb, !take_app_le by (rewrite ?length_take; lia). rewrite take_take. f_equal. lia.
  - split; [done|]. split; [lia|done].
Qed.

(** The step to the next bio of the list. *)
Lemma bio_next_ok it r rest :
  bio_ok it → 0 < r → bi_bytes (bio_iter it) = [] → rest = take (Z.to_nat r) (bio_bytes it) →
  Z.of_nat (length rest) = r →
  ∃ j nexts, bi_next it = j :: nexts ∧
    let it' := {| bio_iter := if r <? bi_size j then with_bi_size j r else j; bi_next := nexts |} in
    bio_ok it' ∧ rest = take (Z.to_nat r) (bio_bytes it') ∧ bi_size (bio_iter it') <= r ∧ 0 < bi_size (bio_iter it').
Proof.
  destruct it as [i [|j nexts]]; intros [Hi Hn] Hr Hnil Hrest Hlen; simpl in *; subst rest.
  { exfalso. unfold bio_bytes in Hlen. rewrite length_take in Hlen. simpl in Hlen. rewrite Hnil in Hlen. simpl in Hlen. lia. }
  apply Forall_cons in Hn as [[Hj Hpos] Hn]. exists j, nexts. split; [done|].
  destruct (take_resized j r (concat (map bi_bytes nexts)) Hj ltac:(lia)) as (Hok & Hsz & Htake).
  split; [done|]. unfold bio_bytes. simpl. rewrite Hnil, Htake, Hsz. repeat split; [lia..].
Qed.

Lemma wp_bio_advance b0 n0 it r rest n :
  let d := MSG_DATA_BIO b0 n0 in
  at_ok d (AtBio it) r rest → r < 2 ^ 64 → 0 <= n <= (piece d (AtBio it) r).2 →
  wp (ceph_msg_data_bio_advance it r n) (stepped d (AtBio it) r rest n).
Proof.
  intros d (Hlen & [Hok Hnext] & Hrest & Hsize & Hpos) Hr Hn. simpl in Hn. destruct it as [i nexts]. simpl in *.
  destruct (bvec_iter_bvec i) as [[page off] len] eqn:Hpc. simpl in Hn.
  destruct (bvec_piece i page off len Hok Hpc) as (_ & Hl & _ & Hlpos & _).
  unfold ceph_msg_data_bio_advance, bvec_iter_len, bvec_iter_page at 1. cbn [bio_iter bi_next]. rewrite Hpc. cbn.
  apply wp_bind, wp_require; [bool_to_prop; lia|]. apply wp_bind, wp_require; [bool_to_prop; lia|]. word_small.
  destruct (bvec_bytes_within i page off len n Hok Hpc Hn) as (Hok' & Hb & Hsz).
  set (i' := bvec_iter_advance i n) in *.
  assert (drop (Z.to_nat n) rest = take (Z.to_nat (r - n)) (bio_bytes {| bio_iter := i'; bi_next := nexts |})) as Hrest'.
  { rewrite Hrest, skipn_firstn_comm. unfold bio_bytes. simpl. rewrite Hb, drop_app_le by
      (pose proof (bi_bytes_length i Hok); lia). f_equal. lia. }
  assert (Z.of_nat (length (drop (Z.to_nat n) rest)) = r - n) as Hlen' by (rewrite length_drop; lia).
  assert (∀ it' np, bio_ok it' → drop (Z.to_nat n) rest = take (Z.to_nat (r - n)) (bio_bytes it') →
    bi_size (bio_iter it') <= r - n → (0 < r - n → 0 < bi_size (bio_iter it')) →
    (0 < n < len → np = false ∧ bvec_iter_bvec (bio_iter it') = (page, off + n, len - n)) →
    (n = len → n < r → np = true) →
    stepped d (AtBio {| bio_iter := i; bi_next := nexts |}) r rest n (AtBio it', r - n, np)) as Hdone.
  { intros it' np Hbio Hr' Hs Hp Hin Hend. split; [done|]. split; [split; [done|by repeat split; try done; apply Hbio]|].
    intros _. simpl. rewrite Hpc. by split. }
  destruct (Z.eqb_spec (r - n) 0) as [E|Hne].
  { apply Hdone; simpl; try done; try lia. }
  destruct (Z.eqb_spec n 0) as [En|Hn0].
  { simpl. apply Hdone; simpl; try done; lia. }
  cbn [orb]. destruct (Z.eq_dec (bi_size i') 0) as [E|Hs].
  - rewrite E. cbn.
    destruct (bio_next_ok {| bio_iter := i'; bi_next := nexts |} (r - n) (drop (Z.to_nat n) rest)) as
      (j & nexts' & Hj & Hok'' & Hr'' & Hs'' & Hp''); try done; [lia| |].
    { apply nil_length_inv. pose proof (bi_bytes_length i' Hok'). simpl. lia. }
    simpl in Hj. subst nexts. simpl. apply wp_bind, wp_require.
    { destruct Hok'' as [Hokj _]. pose proof (bvec_len_range _ Hokj) as [? _]. unfold bvec_iter_len in *.
      bool_to_prop. simpl in *. lia. }
    apply wp_ret, Hdone; try done. lia.
  - rewrite (proj2 (Z.eqb_neq (bi_size i') 0)) by done. unfold nonzero at 1. rewrite (proj2 (Z.eqb_neq (bi_size i') 0)) by done.
    cbn [negb andb]. subst i'. rewrite (bvec_new_piece i page off len n) by (done || lia).
    rewrite (proj2 (Z.eqb_neq n 0)) by done. pose proof (bvec_len_range _ Hok') as [? _]. unfold bvec_iter_len in *.
    destruct (Z.ltb_spec n len).
    + apply wp_ret, Hdone; simpl; try done; try lia. intros _. split; [done|].
      apply (bvec_within i page off len n); (done || lia).
    + cbn. apply wp_bind, wp_require; [bool_to_prop; lia|]. apply wp_ret, Hdone; simpl; try done; lia.
Qed.

(** ** The whole cursor *)

(** No pagelist is cut off by the [t] bytes to go: [ceph_msg_data_pagelist_next] insists. *)
Fixpoint whole (l : list ceph_msg_data) (t : Z) : Prop :=
  match l with
  | [] => True
  | d :: l =>
      (0 < t → match d with MSG_DATA_PAGELIST _ n => n <= t | _ => True end) ∧ whole l (t - item_len d)
  end.

Definition data_bytes (l : list ceph_msg_data) : list (Z * Z) := concat (map item_bytes l).

(** A cursor with exactly [bytes] to go. *)
Definition cursor_ok c (bytes : list (Z * Z)) : Prop :=
  ∃ d ds rest, c_data c = d :: ds ∧ at_ok d (c_at c) (resid c) rest ∧ Forall item_ok ds ∧
    whole ds (total_resid c - resid c) ∧ total_resid c < 2 ^ 63 ∧ resid c <= total_resid c ∧
    total_resid c = Z.of_nat (length bytes) ∧
    bytes = rest ++ take (Z.to_nat (total_resid c - resid c)) (data_bytes ds).

(** The piece at the cursor. *)
Definition cur c : Z * Z * Z :=
  match c_data c with d :: _ => piece d (c_at c) (resid c) | [] => (0, 0, 0) end.

(** An item entered with [t] bytes to go in the message. *)
Definition started d (t : Z) (o : cursor_at * Z) : Prop :=
  o.2 = Z.min t (item_len d) ∧ at_ok d o.1 o.2 (take (Z.to_nat t) (item_bytes d)).

Lemma started_len d t : 0 <= t → Z.of_nat (length (take (Z.to_nat t) (item_bytes d))) = Z.min t (item_len d).
Proof. intros. rewrite length_take. unfold item_len. lia. Qed.

Lemma calc_pages_for_spec a n :
  0 <= a < PAGE_SIZE → 0 < n → a + n <= PAGE_SIZE * (2 ^ 16 - 1) →
  a + n <= calc_pages_for a n * PAGE_SIZE < a + n + PAGE_SIZE ∧ 0 < calc_pages_for a n < 2 ^ 16.
Proof.
  unfold calc_pages_for, PAGE_SIZE. intros Ha Hn Hmax. rewrite !Z.shiftr_div_pow2 by lia.
  change (2 ^ 12) with 4096. rewrite (Z.div_small a), Z.sub_0_r by lia. word_small.
  pose proof (Z.div_mod (a + n + 4096 - 1) 4096 ltac:(done)) as Hdm.
  pose proof (Z.mod_pos_bound (a + n + 4096 - 1) 4096 ltac:(done)) as Hmb.
  set (q := (a + n + 4096 - 1) / 4096) in *. word_small. lia.
Qed.

Lemma start_pages pages n a own t :
  let d := MSG_DATA_PAGES pages n a own in
  item_ok d → 0 < t < 2 ^ 63 → wp (ceph_msg_data_pages_cursor_init n a t) (started d t).
Proof.
  intros d (Hn & Ha & Hpages & Hmax) Ht. destruct (calc_pages_for_spec a n Ha Hn Hmax) as [Hc Hc16].
  assert (item_len d = n) as Hil.
  { unfold item_len. simpl. rewrite length_take, length_drop. pose proof (length_pages_bytes pages).
    unfold PAGE_SIZE in *. lia. }
  pose proof (started_len d t ltac:(lia)) as Hlen. unfold ceph_msg_data_pages_cursor_init. rewrite land_page.
  rewrite (Z.mod_small a) by lia. unfold PAGE_SIZE in *. word_small.
  apply wp_bind, wp_require; [unfold nonzero; apply negb_true_iff, Z.eqb_neq; lia|].
  apply wp_bind, wp_require; [bool_to_prop; lia|]. apply wp_bind, wp_require; [bool_to_prop; lia|]. apply wp_ret.
  rewrite Hil in *. split; [by rewrite Hil|]. split; [done|]. simpl. unfold PAGE_SIZE. word_small.
  repeat split; try done; try lia. rewrite take_take. f_equal. lia.
Qed.

Lemma start_pagelist pages n t c :
  let d := MSG_DATA_PAGELIST pages n in
  item_ok d → n <= t → wp (ceph_msg_data_pagelist_cursor_init pages n t c) (started d t).
Proof.
  intros d (Hn & Hpages) Ht.
  assert (item_len d = n) as Hil.
  { unfold item_len. simpl. rewrite length_take. pose proof (length_pages_bytes pages). unfold PAGE_SIZE in *. lia. }
  pose proof (started_len d t ltac:(lia)) as Hlen. unfold ceph_msg_data_pagelist_cursor_init.
  rewrite (proj2 (Z.eqb_neq t 0)) by lia.
  destruct pages as [|p l] eqn:Ep; [unfold PAGE_SIZE in *; simpl in *; lia|]. rewrite <- Ep in *. apply wp_ret.
  rewrite Hil in *. split; [by rewrite Hil|]. split; [done|]. simpl. repeat split; try done; try lia.
  rewrite take_take, Ep. f_equal. lia.
Qed.

Lemma start_bio it n t :
  let d := MSG_DATA_BIO it n in
  item_ok d → 0 < t → wp (ceph_msg_data_bio_cursor_init it n t) (started d t).
Proof.
  intros d ([Hok Hnext] & Hn & Hpos) Ht. unfold ceph_msg_data_bio_cursor_init.
  assert (item_len d = n) as Hil by (unfold item_len; simpl; rewrite length_take; lia).
  pose proof (started_len d t ltac:(lia)) as Hlen.
  rewrite Hil in *. destruct it as [i nexts]. simpl in *.
  destruct (take_resized i (Z.min t n) (concat (map bi_bytes nexts)) Hok ltac:(lia)) as (Hok' & Hsz & Htake).
  set (i' := if Z.min t n <? bi_size i then with_bi_size i (Z.min t n) else i) in *.
  pose proof (bvec_len_range i' Hok') as [? _].
  apply wp_bind, wp_require; [bool_to_prop; lia|]. apply wp_ret. split; [by rewrite Hil|]. split; [done|]. simpl.
  unfold bio_bytes in *. simpl in *. rewrite Htake, take_take. repeat split; try done; try lia.
  f_equal. lia.
Qed.

Lemma start_bvecs it t :
  let d := MSG_DATA_BVECS it in
  item_ok d → 0 < t → wp (ceph_msg_data_bvecs_cursor_init it t) (started d t).
Proof.
  intros d Hd Ht. unfold ceph_msg_data_bvecs_cursor_init. pose proof (bi_bytes_length it Hd) as Hbl.
  assert (item_len d = bi_size it) as Hil by done. pose proof (started_len d t ltac:(lia)) as Hlen.
  destruct (bvec_resized it (Z.min t (bi_size it)) Hd ltac:(lia)) as (Hok' & Hb & Hsz).
  pose proof (bvec_len_range _ Hok') as [? _].
  apply wp_bind, wp_require; [bool_to_prop; lia|]. apply wp_ret. rewrite Hil in *. split; [by rewrite Hil|].
  split; [done|]. split; [done|]. rewrite Hb. simpl. destruct (Z.le_ge_cases t (bi_size it)).
  - f_equal. lia.
  - rewrite !take_ge by lia. done.
Qed.

Lemma start_iter it t :
  let d := MSG_DATA_ITER it in item_ok d → 0 < t → started d t (ceph_msg_data_iter_cursor_init it t).
Proof.
  intros d Hd Ht. destruct (iov_truncate it t Hd ltac:(lia)) as [Hok' Hb].
  pose proof (iov_count _ Hok') as Hc. pose proof (started_len d t ltac:(lia)) as Hlen. simpl in Hlen.
  rewrite Hb, Hlen in Hc. split; [done|]. simpl. rewrite Hc. split; [done|].
  exists (iov_iter_truncate it t). rewrite iov_advance_0 by done. unfold item_len, PAGE_SIZE in *.
  repeat split; try done; lia.
Qed.

Lemma at_ok_init d c :
  item_ok d → head (c_data c) = Some d → 0 < total_resid c < 2 ^ 63 →
  (match d with MSG_DATA_PAGELIST _ n => n <= total_resid c | _ => True end) →
  wp (msg_data_cursor_init_ c) (λ c', total_resid c' = total_resid c ∧ c_data c' = c_data c ∧
    need_crc c' = true ∧ started d (total_resid c) (c_at c', resid c')).
Proof.
  intros Hd Hhd Ht Hpl. unfold msg_data_cursor_init_. rewrite Hhd. cbn [deref]. apply wp_bind, wp_ret.
  apply wp_bind, (wp_mono _ (started d (total_resid c))).
  2: { intros [at_ r] Hs. split; [done|]. split; [done|]. by split. }
  destruct d as [|pages n a own|pages n|it n|it|it]; [done|..].
  - by apply start_pages.
  - by apply start_pagelist.
  - apply start_bio; [done|lia].
  - apply start_bvecs; [done|lia].
  - apply wp_ret, start_iter; [done|lia].
Qed.

Lemma length_data_bytes d ds : Z.of_nat (length (data_bytes (d :: ds))) = item_len d + Z.of_nat (length (data_bytes ds)).
Proof. unfold data_bytes, item_len. simpl. rewrite length_app. lia. Qed.

Lemma take_data_bytes d ds t :
  0 <= t → take (Z.to_nat t) (data_bytes (d :: ds)) =
  take (Z.to_nat t) (item_bytes d) ++ take (Z.to_nat (t - Z.min t (item_len d))) (data_bytes ds).
Proof.
  intros. unfold data_bytes, item_len. simpl. rewrite take_app. f_equal. f_equal. lia.
Qed.

Lemma whole_done l t : t <= 0 → whole l t.
Proof.
  revert t. induction l as [|d l IH]; [done|]. intros t Ht. split; [lia|]. apply IH. unfold item_len. lia.
Qed.

Lemma wp_cursor_init_ d ds c :
  c_data c = d :: ds → Forall item_ok (d :: ds) → 0 < total_resid c < 2 ^ 63 →
  whole (d :: ds) (total_resid c) → total_resid c <= Z.of_nat (length (data_bytes (d :: ds))) →
  wp (msg_data_cursor_init_ c) (λ c', cursor_ok c' (take (Z.to_nat (total_resid c)) (data_bytes (d :: ds))) ∧
    total_resid c' = total_resid c ∧ c_data c' = d :: ds ∧ need_crc c' = true).
Proof.
  intros Hdata [Hd Hds]%Forall_cons Ht [Hpl Hw] Hlen.
  eapply wp_mono; [apply (at_ok_init d c); [done|by rewrite Hdata|done|by apply Hpl; lia]|].
  intros c' (Htot & Hdata' & Hcrc & [Hr Hat]). simpl in *. rewrite Hdata in Hdata'.
  split; [|done]. exists d, ds, (take (Z.to_nat (total_resid c)) (item_bytes d)).
  pose proof (length_data_bytes d ds). assert (0 <= item_len d) by (unfold item_len; lia).
  split; [done|]. split; [done|]. split; [done|]. rewrite Htot, Hr. split.
  { destruct (Z.min_spec (total_resid c) (item_len d)) as [[? ->]|[? ->]]; [|done]. apply whole_done. lia. }
  split; [lia|]. split; [lia|]. split; [rewrite length_take; lia|]. apply take_data_bytes. lia.
Qed.

(** What the cursor says of the next piece. *)
Definition crc_told c (n : Z) c' : Prop :=
  Forall (λ d, is_iter d = false) (c_data c) →
  Forall (λ d, is_iter d = false) (c_data c') ∧
  (0 < n < (cur c).2 → need_crc c' = false ∧ cur c' = ((cur c).1.1, (cur c).1.2 + n, (cur c).2 - n)) ∧
  (n = (cur c).2 → 0 < total_resid c' → need_crc c' = true).

Lemma piece_le d at_ r rest : at_ok d at_ r rest → is_iter d = false → (piece d at_ r).2 <= r.
Proof.
  intros [Hlen Hat] Hni.
  destruct d as [|pages m a own|pages m|it m|it|it], at_ as [|off i cnt|page off|ci|ci|ci lastlen]; try done; simpl.
  - lia.
  - lia.
  - destruct Hat as ([Hok _] & _ & Hs & _). pose proof (bvec_len_range _ Hok). unfold bvec_iter_len in *. lia.
  - destruct Hat as [Hok ->]. pose proof (bvec_len_range _ Hok). rewrite bi_bytes_length in Hlen by done.
    unfold bvec_iter_len in *. lia.
Qed.

Lemma wp_advance_at d c rest n :
  at_ok d (c_at c) (resid c) rest → resid c < 2 ^ 63 → 0 <= n <= resid c → n <= (piece d (c_at c) (resid c)).2 ∨ n = 0 →
  wp (match d, c_at c with
      | MSG_DATA_PAGELIST _ n0, AtPagelist page offset => ceph_msg_data_pagelist_advance n0 page offset (resid c) n
      | MSG_DATA_PAGES _ _ _ _, AtPages off i cnt => ceph_msg_data_pages_advance off i cnt (resid c) n
      | MSG_DATA_BIO _ _, AtBio it => ceph_msg_data_bio_advance it (resid c) n
      | MSG_DATA_BVECS _, AtBvecs it => ceph_msg_data_bvecs_advance it (resid c) n
      | MSG_DATA_ITER _, AtIter it lastlen => ceph_msg_data_iter_advance it lastlen (resid c) n
      | _, _ => Undef
      end) (stepped d (c_at c) (resid c) rest n).
Proof.
  intros Hat Hr Hn Hpc. pose proof Hat as [Hlen Hat'].
  assert (∀ i, bi_ok i → 0 <= (bvec_iter_bvec i).2) as Hbv by (intros i Hi; apply (bvec_len_range i Hi)).
  destruct d as [|pages m a own|pages m|it m|it|it], (c_at c) as [|off i cnt|page off|ci|ci|ci lastlen]; try done.
  - apply wp_pages_advance; [done|lia|]. simpl in *. lia.
  - apply wp_pagelist_advance; [done|]. simpl in *. pose proof (Z.mod_pos_bound off PAGE_SIZE ltac:(done)). lia.
  - apply wp_bio_advance; [done|lia|]. simpl in *. pose proof (Hbv (bio_iter ci) ltac:(apply Hat')). lia.
  - apply wp_bvecs_advance; [done|lia|]. simpl in *. pose proof (Hbv ci ltac:(apply Hat')). lia.
  - apply wp_iter_advance; [done|lia|]. simpl in *. lia.
Qed.

Lemma wp_msg_data_advance c bytes n :
  cursor_ok c bytes → 0 <= n <= resid c → n <= (cur c).2 ∨ n = 0 →
  wp (ceph_msg_data_advance c n) (λ c', total_resid c' = total_resid c - n ∧
    (total_resid c' ≠ 0 → cursor_ok c' (drop (Z.to_nat n) bytes)) ∧ crc_told c n c' ∧
    (resid c = n → total_resid c' ≠ 0 → need_crc c' = true ∧ (length (c_data c') < length (c_data c))%nat) ∧
    (resid c ≠ n → resid c' = resid c - n) ∧ (length (c_data c') <= length (c_data c))%nat).
Proof.
  intros (d & ds & rest & Hdata & Hat & Hds & Hw & Hmax & Hle & Htot & ->) Hn Hpc.
  unfold cur in Hpc. rewrite Hdata in Hpc. pose proof (at_ok_range _ _ _ _ Hat). pose proof Hat as [Hrest _].
  unfold ceph_msg_data_advance. apply wp_bind, wp_require; [bool_to_prop; lia|].
  rewrite Hdata. cbn [head deref]. apply wp_bind, wp_ret.
  apply wp_bind. eapply wp_mono; [apply (wp_advance_at d c rest n); (done || lia)|].
  intros [[at_ r] np] (Hr & Hat' & Htold). cbn [fst snd] in Hr, Hat', Htold. subst r.
  set (c1 := set_total_resid (u64 (total_resid c - n)) (set_at at_ (resid c - n) c)).
  assert (total_resid c1 = total_resid c - n) as Htot1 by (unfold c1; simpl; word_small; lia).
  assert (resid c1 = resid c - n) as Hr1 by done. assert (c_data c1 = d :: ds) as Hdata1 by done.
  assert (drop (Z.to_nat n) (rest ++ take (Z.to_nat (total_resid c - resid c)) (data_bytes ds)) =
    drop (Z.to_nat n) rest ++ take (Z.to_nat (total_resid c - resid c)) (data_bytes ds)) as Hdrop.
  { apply drop_app_le. lia. }
  apply wp_bind. destruct ((resid c1 =? 0) && nonzero (total_resid c1)) eqn:Etest.
  - apply andb_true_iff in Etest as [Er Et]. unfold nonzero in Et. bool_to_prop.
    destruct ds as [|d' ds'].
    { exfalso. revert Htot. rewrite length_app, length_take. simpl. lia. }
    assert (total_resid c - n <= Z.of_nat (length (data_bytes (d' :: ds')))) as Hlen.
    { revert Htot. rewrite length_app, length_take. lia. }
    set (c2 := set_data (tail (c_data c1)) c1). assert (total_resid c2 = total_resid c - n) as Htot2 by exact Htot1.
    apply wp_bind. eapply wp_mono; [apply (wp_cursor_init_ d' ds' c2); [simpl; by rewrite Hdata|done|lia| |lia]|].
    { rewrite Htot2. by replace n with (resid c) by lia. }
    intros c' (Hok & Htot' & Hdata' & Hcrc). apply wp_ret, wp_ret. rewrite Htot2 in Htot', Hok.
    split; [done|]. split; [|split; [|split; [|simpl; rewrite Hdata'; simpl; lia]]].
    + intros _. rewrite Hdrop. replace (drop (Z.to_nat n) rest) with (@nil (Z * Z)).
      2: { symmetry. apply drop_ge. lia. }
      by replace (resid c) with n by lia.
    + intros Hnis. rewrite Hdata in Hnis. apply Forall_cons in Hnis as [Hni Hnis]. simpl. rewrite Hdata'. split; [done|].
      pose proof (piece_le _ _ _ _ Hat Hni). unfold cur. rewrite Hdata. split; [lia|done].
    + intros _ _. simpl. rewrite Hdata'. simpl. split; [done|lia].
  - apply wp_ret, wp_ret. split; [exact Htot1|].
    assert (total_resid c1 ≠ 0 → resid c ≠ n) as Hnz.
    { intros Hne En. rewrite Hr1, En, Z.sub_diag in Etest. unfold nonzero in Etest. simpl in Etest. bool_to_prop. done. }
    split; [|split; [|split; [|by simpl; rewrite Hdata]]].
    + intros Hne. exists d, ds, (drop (Z.to_nat n) rest).
      change (total_resid (set_need_crc np c1)) with (total_resid c1). rewrite Htot1. cbn.
      replace (total_resid c - n - (resid c - n)) with (total_resid c - resid c) by lia.
      split; [done|]. split; [done|]. split; [done|]. split; [done|]. split; [lia|]. split; [lia|].
      split; [|done]. rewrite length_drop. lia.
    + intros Hnis. simpl. rewrite Hdata in Hnis. pose proof Hnis as [Hni _]%Forall_cons.
      destruct (Htold Hni) as [Hin Hend]. unfold cur. simpl. rewrite Hdata. split; [done|]. split; [done|].
      intros -> Hpos. apply Hend; [done|]. pose proof (piece_le _ _ _ _ Hat Hni).
      pose proof (Hnz ltac:(simpl in Hpos |- *; lia)). lia.
    + intros He Hne. by destruct (Hnz Hne).
Qed.

(** ** Asking for the piece *)

(** A piece on one page, within the item and the first of its bytes. *)
Definition piece_ok (pc : Z * Z * Z) (r : Z) (rest : list (Z * Z)) : Prop :=
  0 <= pc.1.2 ∧ 0 < pc.2 <= r ∧ pc.1.2 + pc.2 <= PAGE_SIZE ∧ take (Z.to_nat pc.2) rest = run pc.1.1 pc.1.2 pc.2.

Lemma take_take_le {A} (l : list A) (n m : Z) : n <= m → take (Z.to_nat n) (take (Z.to_nat m) l) = take (Z.to_nat n) l.
Proof. intros. rewrite take_take. f_equal. lia. Qed.

Lemma next_pages pages m a own off i cnt r rest :
  let d := MSG_DATA_PAGES pages m a own in
  at_ok d (AtPages off i cnt) r rest → 0 < r →
  ceph_msg_data_pages_next pages off i cnt r = Ret (piece d (AtPages off i cnt) r) ∧
  piece_ok (piece d (AtPages off i cnt) r) r rest.
Proof.
  intros d (Hlen & Hoff & Hi & Hcnt & Hpages & Hbound & ->) Hr. specialize (Hbound Hr). unfold PAGE_SIZE in Hbound, Hoff.
  destruct (lookup_Z_Some pages i ltac:(lia)) as [p Hp]. unfold ceph_msg_data_pages_next, aget, require. simpl.
  rewrite (proj2 (Z.ltb_lt i cnt)), (proj2 (Z.ltb_lt off PAGE_SIZE)) by (unfold PAGE_SIZE; lia).
  rewrite (proj2 (Z.ltb_ge i 0)) by lia. unfold piece_ok, d, PAGE_SIZE. simpl. rewrite Hp. split; [done|].
  simpl. split; [lia|]. split; [lia|]. split; [lia|].
  rewrite take_take_le by lia. rewrite (drop_S pages p (Z.to_nat i)) by done. apply take_pages_bytes; unfold PAGE_SIZE; lia.
Qed.

Lemma next_pagelist l m page off r rest :
  let d := MSG_DATA_PAGELIST l m in
  at_ok d (AtPagelist page off) r rest → 0 < r →
  ceph_msg_data_pagelist_next m page off r = Ret (piece d (AtPagelist page off) r) ∧
  piece_ok (piece d (AtPagelist page off) r) r rest.
Proof.
  intros d (Hlen & Hoff & Hm & Hmax & Hrest) Hr. unfold ceph_msg_data_pagelist_next, require.
  rewrite land_page. pose proof (Z.mod_pos_bound off PAGE_SIZE ltac:(done)).
  word_small. rewrite (proj2 (Z.eqb_eq (off + r) m)) by lia. simpl.
  destruct page as [|p page].
  { exfalso. rewrite Hrest in Hlen. unfold pages_bytes in Hlen. simpl in Hlen. rewrite drop_nil, take_nil in Hlen. simpl in Hlen. lia. }
  split; [done|]. unfold piece_ok. simpl. split; [lia|]. split; [lia|]. split; [lia|].
  rewrite Hrest, take_take_le by lia. apply take_pages_bytes; lia.
Qed.

Lemma next_bvec i r rest (l : list (Z * Z)) :
  bi_ok i → 0 < bi_size i <= r → rest = take (Z.to_nat r) (bi_bytes i ++ l) → piece_ok (bvec_iter_bvec i) r rest.
Proof.
  intros Hok Hr ->. destruct (bvec_iter_bvec i) as [[page off] len] eqn:E.
  destruct (bvec_piece i page off len Hok E) as (? & ? & ? & ? & Ht). pose proof (bi_bytes_length i Hok).
  unfold piece_ok. simpl. split; [done|]. split; [lia|]. split; [done|].
  rewrite take_take_le by lia. rewrite take_app_le by lia. done.
Qed.

Lemma next_iter it0 it lastlen r rest :
  let d := MSG_DATA_ITER it0 in
  at_ok d (AtIter it lastlen) r rest → 0 < r < 2 ^ 63 →
  wp (ceph_msg_data_iter_next it lastlen r) (λ '(at_, pc), pc = piece d (AtIter it lastlen) r ∧
    pc = piece d at_ r ∧ at_ok d at_ r rest ∧ piece_ok pc r rest).
Proof.
  intros d (Hlen & base & Hok & -> & -> & Hl & Hp) Hr. pose proof (iov_count base Hok) as Hc.
  assert (∀ n, 0 <= n <= r → (if nonzero n then iov_iter_revert (iov_iter_advance base n) n
    else iov_iter_advance base n) = base) as Hrev.
  { intros n Hn. unfold nonzero. destruct (Z.eqb_spec n 0) as [->|]; simpl; [by apply iov_advance_0|].
    apply iov_revert; [done|lia]. }
  unfold ceph_msg_data_iter_next. simpl. rewrite (Hrev lastlen) by lia.
  destruct (iov_iter_get_pages2 base PAGE_SIZE) as [it' [[page off] len]] eqn:E.
  destruct (iov_get_pages2 base it' page off len Hok ltac:(lia) E) as (? & ? & ? & -> & Ht).
  apply wp_bind, wp_require; [bool_to_prop; lia|]. apply wp_ret. unfold PAGE_SIZE in *. word_small.
  rewrite (Hrev len) by lia. rewrite E. simpl. rewrite Z.min_l by lia. split; [done|]. split; [done|]. split.
  - split; [done|]. exists base. unfold PAGE_SIZE. repeat split; try done; lia.
  - unfold piece_ok, PAGE_SIZE. simpl. repeat split; (done || lia).
Qed.

Lemma wp_msg_data_next c bytes :
  cursor_ok c bytes → 0 < resid c →
  wp (ceph_msg_data_next c) (λ '(c', pc), pc = cur c ∧ cur c' = pc ∧ cursor_ok c' bytes ∧
    total_resid c' = total_resid c ∧ resid c' = resid c ∧ c_data c' = c_data c ∧ need_crc c' = need_crc c ∧
    piece_ok pc (resid c) bytes).
Proof.
  intros (d & ds & rest & Hdata & Hat & Hds & Hw & Hmax & Hle & Htot & Hbytes) Hr.
  unfold ceph_msg_data_next. rewrite Hdata. cbn [head deref]. apply wp_bind, wp_ret. apply wp_bind.
  apply (wp_mono _ (λ '(c', pc), pc = piece d (c_at c) (resid c) ∧ (∃ at_, c' = set_at at_ (resid c) c ∧
    at_ok d at_ (resid c) rest ∧ pc = piece d at_ (resid c)) ∧ piece_ok pc (resid c) rest)).
  - pose proof Hat as [Hlen Hat'].
    assert (c = set_at (c_at c) (resid c) c) as Hc by (by destruct c).
    destruct d as [|pages m a own|pages m|it m|it|it], (c_at c) as [|off i cnt|page off|ci|ci|ci lastlen]; try done.
    + destruct (next_pages _ _ _ _ _ _ _ _ _ Hat Hr) as [-> Hpc]. simpl. eauto 10.
    + destruct (next_pagelist _ _ _ _ _ _ Hat Hr) as [-> Hpc]. simpl. eauto 10.
    + destruct Hat' as ([Hok _] & Hrest & Hs & Hp). apply wp_ret. split; [done|]. split; [eauto|].
      apply (next_bvec (bio_iter ci) (resid c) _ _ Hok ltac:(lia) Hrest).
    + destruct Hat' as [Hok ->]. rewrite bi_bytes_length in Hlen by done. apply wp_ret. split; [done|].
      split; [eauto|]. apply (next_bvec ci (resid c) _ [] Hok ltac:(lia)). rewrite app_nil_r, take_ge; [done|].
      pose proof (bi_bytes_length ci Hok). lia.
    + apply wp_bind. eapply wp_mono; [apply (next_iter it _ _ _ _ Hat); lia|].
      intros [at_ pc] (Hpc & Hpc' & Hat'' & Hok). apply wp_ret. eauto 10.
  - intros [c' [[page off] len]] (Hpc & (at_ & -> & Hat' & Hpc') & Hok).
    pose proof Hok as (Ho & Hl & Hpg & Ht). simpl in Ho, Hl, Hpg, Ht.
    apply wp_bind, wp_require; [unfold PAGE_SIZE in *; word_small; bool_to_prop; lia|].
    apply wp_bind, wp_require; [unfold nonzero; apply negb_true_iff, Z.eqb_neq; lia|].
    apply wp_bind, wp_require; [bool_to_prop; simpl; lia|]. apply wp_ret.
    unfold cur. simpl. rewrite Hdata. split; [done|]. split; [done|]. split.
    { exists d, ds, rest. repeat split; try done; apply Hat'. }
    do 4 (split; [done|]). split; [done|]. split; [done|]. split; [done|]. subst bytes. destruct Hat as [Hlen _].
    cbn [fst snd]. rewrite take_app_le by lia. done.
Qed.

(** ** Starting on a message *)

Lemma item_len_pagelist pages n : item_ok (MSG_DATA_PAGELIST pages n) → item_len (MSG_DATA_PAGELIST pages n) = n.
Proof.
  intros (Hn & Hp). unfold item_len. simpl. rewrite length_take. pose proof (length_pages_bytes pages).
  unfold PAGE_SIZE in *. lia.
Qed.

Lemma whole_all l t : Forall item_ok l → Z.of_nat (length (data_bytes l)) <= t → whole l t.
Proof.
  intros Hl. revert t. induction Hl as [|d l Hd _ IH]; [done|]. intros t. rewrite length_data_bytes. intros Ht. split.
  - intros _. destruct d; try done. rewrite item_len_pagelist in Ht by done. lia.
  - apply IH. lia.
Qed.

(** A message with [length] bytes of its data to go through. *)
Definition msg_ok (m : ceph_msg) (length : Z) : Prop :=
  Forall item_ok (m_data m) ∧ whole (m_data m) length ∧ 0 < length < 2 ^ 63 ∧
  length <= Z.of_nat (List.length (data_bytes (m_data m))) ∧ length <= m_data_length m.

Lemma wp_msg_data_cursor_init m length c :
  msg_ok m length →
  wp (ceph_msg_data_cursor_init m length c) (λ c', cursor_ok c' (take (Z.to_nat length) (data_bytes (m_data m))) ∧
    total_resid c' = length ∧ c_data c' = m_data m ∧ need_crc c' = true).
Proof.
  intros (Hok & Hw & Hl & Hb & Hd). unfold ceph_msg_data_cursor_init.
  apply wp_bind, wp_require; [unfold nonzero; apply negb_true_iff, Z.eqb_neq; lia|].
  apply wp_bind, wp_require; [bool_to_prop; lia|].
  destruct (m_data m) as [|d ds] eqn:E; [simpl in Hb; lia|].
  apply wp_bind, wp_require; [done|].
  match goal with |- wp (msg_data_cursor_init_ ?c1) _ => by apply (wp_cursor_init_ d ds c1) end.
Qed.

(** ** Messages as the functions that add data build them *)
Definition built (m : ceph_msg) : Prop :=
  Forall item_ok (m_data m) ∧ m_data_length m = Z.of_nat (length (data_bytes (m_data m))).

Lemma built_ok m : built m → 0 < m_data_length m < 2 ^ 63 → msg_ok m (m_data_length m).
Proof. intros [Hok Hlen] Hm. split; [done|]. split; [apply whole_all; [done|lia]|]. split; [done|lia]. Qed.

Lemma wp_data_add d n m :
  built m → item_ok d → n = item_len d → Z.of_nat (length (m_data m)) < m_max_data_items m →
  m_data_length m + n < 2 ^ 64 →
  wp (ceph_msg_data_add d n m) (λ m', built m' ∧ data_bytes (m_data m') = data_bytes (m_data m) ++ item_bytes d).
Proof.
  intros [Hok Hlen] Hd -> Hmax Hlt. unfold ceph_msg_data_add. apply wp_bind, wp_require; [bool_to_prop; lia|].
  apply wp_ret. unfold built, data_bytes. simpl. rewrite map_app, concat_app. simpl. rewrite app_nil_r. split; [|done].
  split; [by apply Forall_app; repeat constructor|]. rewrite length_app. unfold data_bytes in Hlen.
  unfold item_len in *. word_small. lia.
Qed.

Lemma wp_data_add_pages pages n alignment own m :
  let a := alignment mod PAGE_SIZE in
  built m → 0 < n → a + n <= PAGE_SIZE * Z.of_nat (length pages) → a + n <= PAGE_SIZE * (2 ^ 16 - 1) →
  Z.of_nat (length (m_data m)) < m_max_data_items m → m_data_length m + n < 2 ^ 64 →
  wp (ceph_msg_data_add_pages pages n alignment own m) (λ m', built m' ∧
    data_bytes (m_data m') = data_bytes (m_data m) ++ take (Z.to_nat n) (drop (Z.to_nat a) (pages_bytes pages))).
Proof.
  intros a Hm Hn Hp Hmax Hi Hl. unfold ceph_msg_data_add_pages.
  apply wp_bind, wp_require; [unfold nonzero; apply negb_true_iff, Z.eqb_neq; lia|].
  rewrite land_page. fold a. pose proof (Z.mod_pos_bound alignment PAGE_SIZE ltac:(done)). subst a.
  unfold PAGE_SIZE in *. word_small.
  apply wp_data_add; try done. unfold item_len. simpl. rewrite length_take, length_drop.
  pose proof (length_pages_bytes pages). unfold PAGE_SIZE in *. lia.
Qed.

Lemma wp_data_add_pagelist pages n m :
  built m → 0 < n < 2 ^ 64 → n <= PAGE_SIZE * Z.of_nat (length pages) →
  Z.of_nat (length (m_data m)) < m_max_data_items m → m_data_length m + n < 2 ^ 64 →
  wp (ceph_msg_data_add_pagelist pages n m) (λ m', built m' ∧
    data_bytes (m_data m') = data_bytes (m_data m) ++ take (Z.to_nat n) (pages_bytes pages)).
Proof.
  intros Hm Hn Hp Hi Hl. unfold ceph_msg_data_add_pagelist.
  apply wp_bind, wp_require; [unfold nonzero; apply negb_true_iff, Z.eqb_neq; lia|].
  apply wp_data_add; try done. symmetry. by apply item_len_pagelist.
Qed.

Lemma wp_data_add_bvecs it m :
  built m → bi_ok it → Z.of_nat (length (m_data m)) < m_max_data_items m → m_data_length m + bi_size it < 2 ^ 64 →
  wp (ceph_msg_data_add_bvecs it m) (λ m', built m' ∧ data_bytes (m_data m') = data_bytes (m_data m) ++ bi_bytes it).
Proof. intros. apply wp_data_add; try done. unfold item_len. simpl. by rewrite bi_bytes_length. Qed.

Lemma wp_data_add_bio it n m :
  built m → item_ok (MSG_DATA_BIO it n) → Z.of_nat (length (m_data m)) < m_max_data_items m → m_data_length m + n < 2 ^ 64 →
  wp (ceph_msg_data_add_bio it n m) (λ m', built m' ∧
    data_bytes (m_data m') = data_bytes (m_data m) ++ take (Z.to_nat n) (bio_bytes it)).
Proof.
  intros Hm Hit. pose proof Hit as (_ & ? & _). intros. apply wp_data_add; try done. unfold item_len. simpl.
  rewrite length_take. lia.
Qed.

Lemma wp_data_add_iter it m :
  built m → iov_ok it → Z.of_nat (length (m_data m)) < m_max_data_items m → m_data_length m + iov_iter_count it < 2 ^ 64 →
  wp (ceph_msg_data_add_iter it m) (λ m', built m' ∧ data_bytes (m_data m') = data_bytes (m_data m) ++ iov_bytes it).
Proof. intros. apply wp_data_add; try done. by apply iov_count. Qed.
End cursor.
