(* ===== verification/MsgSegments.v ===== *)
(** Implementations of the interfaces of [MsgData.v]: positions in a list of segments of pages
    and in a list of bytes. *)

From S2P Require Import Prelude MsgData.

(** * Segments *)
Record seg_iter := { segs : list (Z * Z * Z); seg_done : Z }.

Fixpoint segs_size (l : list (Z * Z * Z)) : Z := match l with [] => 0 | (_, _, n) :: l => n + segs_size l end.

Fixpoint segs_cut (n : Z) (l : list (Z * Z * Z)) : list (Z * Z * Z) :=
  match l with
  | [] => []
  | (p, o, len) :: l => if n <=? 0 then [] else if n <? len then [(p, o, n)] else (p, o, len) :: segs_cut (n - len) l
  end.

Fixpoint segs_skip (n done : Z) (l : list (Z * Z * Z)) : seg_iter :=
  match l with
  | [] => {| segs := []; seg_done := 0 |}
  | (p, o, len) :: l =>
      if n <? len then {| segs := (p, o + n, len - n) :: l; seg_done := done + n |} else segs_skip (n - len) 0 l
  end.

Definition segs_bytes (l : list (Z * Z * Z)) : list (Z * Z) := concat (map (λ s, run s.1.1 s.1.2 s.2) l).

#[export] Instance segments : BvecIter := {
  bvec_iter := seg_iter;
  bi_size it := segs_size (segs it);
  with_bi_size it n := {| segs := segs_cut n (segs it); seg_done := seg_done it |};
  bi_bvec_done := seg_done;
  bvec_iter_bvec it := default (0, 0, 0) (head (segs it));
  bvec_iter_advance it n := segs_skip n (seg_done it) (segs it);
}.

Definition seg_ok (s : Z * Z * Z) : Prop := 0 <= s.1.2 ∧ 0 < s.2 ∧ s.1.2 + s.2 <= PAGE_SIZE.

Lemma segs_bytes_length l : Forall seg_ok l → Z.of_nat (length (segs_bytes l)) = segs_size l ∧ 0 <= segs_size l.
Proof.
  induction 1 as [|[[p o] n] l (Ho & Hn & Hp) _ IH]; [done|].
  change (segs_bytes ((p, o, n) :: l)) with (run p o n ++ segs_bytes l). simpl in *.
  rewrite length_app, length_run. lia.
Qed.

Lemma segs_cut_ok l n : Forall seg_ok l → 0 <= n →
  Forall seg_ok (segs_cut n l) ∧ segs_bytes (segs_cut n l) = take (Z.to_nat n) (segs_bytes l).
Proof.
  intros Hl. revert n. induction Hl as [|[[p o] len] l (Ho & Hn & Hp) Hl IH]; intros n Hpos; simpl in *.
  { unfold segs_bytes. simpl. by rewrite take_nil. }
  change (segs_bytes ((p, o, len) :: l)) with (run p o len ++ segs_bytes l).
  destruct (Z.leb_spec n 0); [by replace n with 0 by lia|]. destruct (Z.ltb_spec n len).
  - split; [repeat constructor; simpl; lia|]. rewrite take_app_le by (rewrite length_run; lia).
    rewrite take_run by lia. unfold segs_bytes. simpl. by rewrite app_nil_r.
  - destruct (IH (n - len) ltac:(lia)) as [IH1 IH2]. split; [by repeat constructor|].
    change (segs_bytes ((p, o, len) :: segs_cut (n - len) l)) with (run p o len ++ segs_bytes (segs_cut (n - len) l)).
    rewrite IH2, take_app_ge by (rewrite length_run; lia). f_equal. f_equal. rewrite length_run. lia.
Qed.

Lemma segs_skip_ok l n done : Forall seg_ok l → 0 <= n → 0 <= done →
  (Forall seg_ok (segs (segs_skip n done l)) ∧ 0 <= seg_done (segs_skip n done l)) ∧
  segs_bytes (segs (segs_skip n done l)) = drop (Z.to_nat n) (segs_bytes l).
Proof.
  intros Hl. revert n done. induction Hl as [|[[p o] len] l (Ho & Hn & Hp) Hl IH]; intros n done Hpos Hd; simpl in *.
  { split; [done|]. unfold segs_bytes. simpl. by rewrite drop_nil. }
  change (segs_bytes ((p, o, len) :: l)) with (run p o len ++ segs_bytes l).
  destruct (Z.ltb_spec n len).
  - split; [split; [constructor; [red; simpl; lia|done]|simpl; lia]|]. simpl.
    rewrite drop_app_le by (rewrite length_run; lia). by rewrite drop_run by lia.
  - destruct (IH (n - len) 0 ltac:(lia) ltac:(lia)) as [IH1 IH2]. split; [done|].
    rewrite IH2, drop_app_ge by (rewrite length_run; lia). f_equal. rewrite length_run. lia.
Qed.

#[export, refine] Instance segments_laws : BvecLaws := {
  bi_ok it := Forall seg_ok (segs it) ∧ 0 <= seg_done it;
  bi_bytes it := segs_bytes (segs it);
}.
Proof.
  - intros it [Hok _]. apply (segs_bytes_length _ Hok).
  - intros [l done] page off len [Hok Hd] E. simpl in *. destruct (segs_bytes_length l Hok) as [_ Hpos].
    destruct Hok as [|[[p o] n] l (Ho & Hn & Hp) Hl]; simpl in *; injection E as <- <- <-.
    + split; [done|]. split; [done|]. unfold PAGE_SIZE. split; [lia|]. split; [lia|done].
    + destruct (segs_bytes_length l Hl) as [_ Hpos']. repeat split; try lia.
      change (segs_bytes ((p, o, n) :: l)) with (run p o n ++ segs_bytes l).
      rewrite take_app_le by (rewrite length_run; lia). apply take_run. lia.
  - intros [l done] n [Hok Hd] Hn. apply segs_skip_ok; [done|lia|done].
  - intros [l done] n [Hok Hd] Hn. simpl. destruct (segs_cut_ok l n Hok ltac:(lia)). auto.
  - intros [l done] page off len n [Hok Hd] E Hn. simpl in *.
    destruct Hok as [|[[p o] k] l (Ho & Hk & Hp) Hl]; simpl in *; injection E as <- <- <-; [lia|].
    rewrite (proj2 (Z.ltb_lt n k)) by lia. simpl. split; [done|lia].
  - intros [l done] page off len [Hok Hd] E Hlt. left. simpl in *.
    destruct Hok as [|[[p o] k] l (Ho & Hk & Hp) Hl]; simpl in *; injection E as <- <- <-; [done|].
    rewrite Z.ltb_irrefl, Z.sub_diag. destruct Hl as [|[[p' o'] k'] l (? & ? & ?) Hl]; simpl in *; [done|].
    by rewrite (proj2 (Z.ltb_lt 0 k')) by lia.
Defined.

(** * Bytes *)
Record byte_iter := { all_bytes : list (Z * Z); byte_pos : Z }.

(** The bytes of a list that follow one another on a page from an offset on. *)
Fixpoint run_length (p o : Z) (l : list (Z * Z)) : Z :=
  match l with
  | [] => 0
  | (p', o') :: l => if (p' =? p) && (o' =? o) then 1 + run_length p (o + 1) l else 0
  end.

Definition rest_of (it : byte_iter) : list (Z * Z) := drop (Z.to_nat (byte_pos it)) (all_bytes it).

#[export] Instance bytes_iter : IovIter := {
  iov_iter := byte_iter;
  iov_iter_count it := Z.of_nat (length (all_bytes it)) - byte_pos it;
  iov_iter_truncate it n := {| all_bytes := take (Z.to_nat (byte_pos it + n)) (all_bytes it); byte_pos := byte_pos it |};
  iov_iter_advance it n := {| all_bytes := all_bytes it; byte_pos := byte_pos it + n |};
  iov_iter_revert it n := {| all_bytes := all_bytes it; byte_pos := byte_pos it - n |};
  iov_iter_get_pages2 it _ :=
    match rest_of it with
    | [] => (it, (0, 0, 0))
    | (p, o) :: _ =>
        let n := run_length p o (rest_of it) in
        ({| all_bytes := all_bytes it; byte_pos := byte_pos it + n |}, (p, o, n))
    end;
}.

Definition on_page (a : Z * Z) : Prop := 0 <= a.2 < PAGE_SIZE.

Lemma run_length_spec p o l : Forall on_page l → 0 <= o →
  0 <= run_length p o l <= Z.of_nat (length l) ∧ (0 < run_length p o l → o + run_length p o l <= PAGE_SIZE) ∧
  take (Z.to_nat (run_length p o l)) l = run p o (run_length p o l).
Proof.
  intros Hl. revert o. induction Hl as [|[p' o'] l Ha Hl IH]; intros o Ho; simpl; [done|].
  destruct ((p' =? p) && (o' =? o)) eqn:E; [|done]. bool_to_prop. subst p' o'.
  destruct (IH (o + 1) ltac:(lia)) as (Hn & Hp & Ht). unfold on_page in Ha. simpl in Ha. split; [lia|]. split; [lia|].
  rewrite run_app by lia. rewrite Z2Nat.inj_add by lia. change (Z.to_nat 1) with 1%nat. simpl. rewrite Ht.
  unfold run at 2. simpl. by rewrite Z.add_0_r.
Qed.

#[export, refine] Instance bytes_iter_laws : IovLaws := {
  iov_ok it := 0 <= byte_pos it <= Z.of_nat (length (all_bytes it)) ∧ Forall on_page (all_bytes it);
  iov_bytes := rest_of;
}.
Proof.
  - intros it [Hp _]. unfold rest_of. simpl. rewrite length_drop. lia.
  - intros it n [Hp Hok] Hn. unfold rest_of. simpl. split; [split; [rewrite length_take; lia|by apply Forall_take]|].
    rewrite skipn_firstn_comm. f_equal. lia.
  - intros it n [Hp Hok] Hn. unfold rest_of. simpl in *. split; [split; [lia|done]|].
    rewrite drop_drop. f_equal. lia.
  - intros [l p] _. simpl. by rewrite Z.add_0_r.
  - intros it a b _ _ _ _. simpl. by rewrite Z.add_assoc.
  - intros [l p] n _ _. simpl. by rewrite Z.add_simpl_r.
  - intros it it' page off len [Hp Hok] Hc E. simpl in *.
    assert (Forall on_page (rest_of it)) as Hr by by apply Forall_drop.
    destruct (rest_of it) as [|[p o] l] eqn:Er.
    { exfalso. apply (f_equal length) in Er. unfold rest_of in Er. rewrite length_drop in Er. simpl in Er. lia. }
    injection E as <- <- <- <-. pose proof Hr as [Ho _]%Forall_cons. unfold on_page in Ho. simpl in Ho.
    destruct (run_length_spec p o ((p, o) :: l) Hr ltac:(lia)) as (Hn & Hp' & Ht).
    assert (Z.of_nat (length ((p, o) :: l)) = Z.of_nat (length (all_bytes it)) - byte_pos it) as Hlen.
    { rewrite <- Er. unfold rest_of. rewrite length_drop. lia. }
    simpl run_length in *. rewrite !Z.eqb_refl in *. cbn [andb] in *.
    pose proof Hr as [_ Hl]%Forall_cons. destruct (run_length_spec p (o + 1) l Hl ltac:(lia)) as ([? _] & _).
    repeat split; (lia || done).
Defined.
