(* ===== verification/MsgSend.v ===== *)
(** Writing the data of a message to a socket and reading it into place ([messenger_v1.c]): the
    loops over the cursor of [MsgData.v], whatever part of a piece the socket takes or gives,
    and the checksum they keep of what went by.

    The socket, the memory around it and [crc32c] are parameters. *)

From S2P Require Import Prelude MsgData MsgSegments.

Definition EAGAIN : Z := 11.
Definition MSG_DONTWAIT : Z := 64.
Definition MSG_NOSIGNAL : Z := 16384.
Definition MSG_MORE : Z := 32768.
Definition MSG_SENDPAGE_NOTLAST : Z := 131072.
Definition CEPH_MSG_FOOTER_COMPLETE : Z := 1.
Definition CEPH_MSG_FOOTER_NOCRC : Z := 2.

(** A socket and the memory pages around it: what a call does to them and returns, and the
    byte at a place.  [sock_sendpage] is told whether the page is fit for [sendpage]
    ([sendpage_ok]) or has to be copied. *)
Class Socket := {
  sock : Type;
  byte_at : sock → Z * Z → Z;
  sendpage_ok : Z → bool;
  sock_sendpage : bool → Z * Z * Z → Z → sock → sock * Z;
  sock_recvpage : Z * Z * Z → Z → sock → sock * Z;
}.

Class Crc := crc32c : Z → list Z → Z.

Section send.
Context `{BvecIter} `{IovIter} `{Socket} `{Crc}.

Definition ceph_tcp_sendpage (pc : Z * Z * Z) (more : Z) (s : sock) : sock * Z :=
  let flags := Z.lor (Z.lor MSG_DONTWAIT MSG_NOSIGNAL) more in
  let '(s, ret) := sock_sendpage (sendpage_ok pc.1.1) pc flags s in
  (s, if ret =? - EAGAIN then 0 else ret).

Definition ceph_tcp_recvpage (pc : Z * Z * Z) (s : sock) : outcome (sock * Z) :=
  _ ← require (u64 (pc.1.2 + pc.2) <=? PAGE_SIZE);
  let '(s, ret) := sock_recvpage pc (Z.lor MSG_DONTWAIT MSG_NOSIGNAL) s in
  Ret (s, if ret =? - EAGAIN then 0 else ret).

Definition ceph_crc32c_page (s : sock) (crc page page_offset length : Z) : Z :=
  crc32c crc (map (byte_at s) (run page page_offset length)).

(** What the loop over a message's data works on. *)
Record data_io := {
  io_sock : sock;
  io_cursor : ceph_msg_data_cursor;
  io_crc : Z;
  io_more : Z;
}.

(** The body of the loop of [write_partial_message_data]; it returns [None] when there is no
    more to write, or what the socket returned. *)
Definition write_data_body (do_datacrc : bool) (io : data_io) : outcome (data_io + option Z * data_io) :=
  let cursor := io_cursor io in
  if total_resid cursor =? 0 then Ret (inr (None, io))
  else if resid cursor =? 0 then
    cursor ← ceph_msg_data_advance cursor 0;
    Ret (inl {| io_sock := io_sock io; io_cursor := cursor; io_crc := io_crc io; io_more := io_more io |})
  else
    '(cursor, (page, page_offset, length)) ← ceph_msg_data_next cursor;
    let more := if length =? total_resid cursor then MSG_MORE else io_more io in
    let '(s, ret) := ceph_tcp_sendpage (page, page_offset, length) more (io_sock io) in
    if ret <=? 0 then
      Ret (inr (Some ret, {| io_sock := s; io_cursor := cursor; io_crc := io_crc io; io_more := more |}))
    else
      let crc := if do_datacrc && need_crc cursor then ceph_crc32c_page s (io_crc io) page page_offset length
                 else io_crc io in
      cursor ← ceph_msg_data_advance cursor ret;
      Ret (inl {| io_sock := s; io_cursor := cursor; io_crc := crc; io_more := more |}).

(** Every round sends a byte or leaves an item. *)
Definition data_fuel (c : ceph_msg_data_cursor) : nat :=
  S (Z.to_nat (total_resid c) + length (c_data c)).

(** The message on its way: its cursor and the fields of its footer for the data. *)
Record sending := {
  snd_sock : sock;
  snd_cursor : ceph_msg_data_cursor;
  data_crc : Z;
  footer_flags : Z;
}.

(** [write_partial_message_data] up to the footer's place in the queue of buffers, for a message
    with data items; 1 when all is written. *)
Definition write_partial_message_data (nocrc : bool) (m : sending) : outcome (sending * Z) :=
  let do_datacrc := negb nocrc in
  let crc := if do_datacrc then data_crc m else 0 in
  '(o, io) ← loop (data_fuel (snd_cursor m)) (write_data_body do_datacrc)
               {| io_sock := snd_sock m; io_cursor := snd_cursor m; io_crc := crc;
                  io_more := Z.lor MSG_MORE MSG_SENDPAGE_NOTLAST |};
  let crc := if do_datacrc then io_crc io else data_crc m in
  match o with
  | Some ret =>
      Ret ({| snd_sock := io_sock io; snd_cursor := io_cursor io; data_crc := crc;
              footer_flags := footer_flags m |}, ret)
  | None =>
      Ret ({| snd_sock := io_sock io; snd_cursor := io_cursor io; data_crc := crc;
              footer_flags := if do_datacrc then footer_flags m
                              else Z.lor (footer_flags m) CEPH_MSG_FOOTER_NOCRC |}, 1)
  end.

(** [read_partial_msg_data] *)
Definition read_data_body (do_datacrc : bool) (io : data_io) : outcome (data_io + option Z * data_io) :=
  let cursor := io_cursor io in
  if total_resid cursor =? 0 then Ret (inr (None, io))
  else if resid cursor =? 0 then
    cursor ← ceph_msg_data_advance cursor 0;
    Ret (inl {| io_sock := io_sock io; io_cursor := cursor; io_crc := io_crc io; io_more := io_more io |})
  else
    '(cursor, (page, page_offset, length)) ← ceph_msg_data_next cursor;
    '(s, ret) ← ceph_tcp_recvpage (page, page_offset, length) (io_sock io);
    if ret <=? 0 then
      Ret (inr (Some ret, {| io_sock := s; io_cursor := cursor; io_crc := io_crc io; io_more := io_more io |}))
    else
      let crc := if do_datacrc then ceph_crc32c_page s (io_crc io) page page_offset ret else io_crc io in
      cursor ← ceph_msg_data_advance cursor ret;
      Ret (inl {| io_sock := s; io_cursor := cursor; io_crc := crc; io_more := io_more io |}).

Definition read_partial_msg_data (nocrc : bool) (s : sock) (c : ceph_msg_data_cursor) (in_data_crc : Z)
    : outcome (sock * ceph_msg_data_cursor * Z * Z) :=
  let do_datacrc := negb nocrc in
  let crc := if do_datacrc then in_data_crc else 0 in
  '(o, io) ← loop (data_fuel c) (read_data_body do_datacrc)
               {| io_sock := s; io_cursor := c; io_crc := crc; io_more := 0 |};
  let crc := if do_datacrc then io_crc io else in_data_crc in
  Ret (io_sock io, io_cursor io, crc, match o with Some ret => ret | None => 1 end).
End send.

(** * Laws

    A call that returns a positive number has sent that many of the bytes, or put as many into
    place; any other call nothing.  Sending does not change the pages, and receiving changes
    only where it puts bytes. *)
Class SocketLaws `{Socket} := {
  sent : sock → list Z;
  received : sock → list Z;
  sendpage_law ok page off n flags s s' ret : 0 < n →
    sock_sendpage ok (page, off, n) flags s = (s', ret) →
    ret <= n ∧ (∀ a, byte_at s' a = byte_at s a) ∧ received s' = received s ∧
    sent s' = sent s ++ map (byte_at s) (run page off ret);
  recvpage_law page off n flags s s' ret : 0 < n →
    sock_recvpage (page, off, n) flags s = (s', ret) →
    ret <= n ∧ (∀ a, a ∉ run page off ret → byte_at s' a = byte_at s a) ∧ sent s' = sent s ∧
    received s' = received s ++ map (byte_at s') (run page off ret);
}.

(** A checksum can be taken in parts. *)
Class CrcLaws `{Crc} : Prop := {
  crc32c_nil c : crc32c c [] = c;
  crc32c_app c l k : crc32c c (l ++ k) = crc32c (crc32c c l) k;
}.

Section data.
Context `{BvecLaws} `{IovLaws} `{SocketLaws} `{CrcLaws}.
Implicit Types (c : ceph_msg_data_cursor) (io : data_io) (l : list ceph_msg_data).

Definition noniter l : Prop := Forall (λ d, is_iter d = false) l.

(** The bytes ahead of the cursor that the checksum has already been taken of: the rest of the
    piece it is in. *)
Definition covered c : list (Z * Z) :=
  if need_crc c || (total_resid c =? 0) then [] else run (cur c).1.1 (cur c).1.2 (cur c).2.

Lemma cursor_ok_nonempty c places : cursor_ok c places → total_resid c = Z.of_nat (length places).
Proof. by intros (d & ds & rest & _ & _ & _ & _ & _ & _ & Htot & _). Qed.

Lemma cursor_ok_resid c places : cursor_ok c places → 0 <= resid c <= total_resid c ∧ total_resid c < 2 ^ 63.
Proof. intros (d & ds & rest & _ & [Hr _] & _ & _ & ? & ? & _). lia. Qed.

Definition io_measure io : nat := Z.to_nat (total_resid (io_cursor io)) + length (c_data (io_cursor io)).

Lemma map_byte_at s (mem : Z * Z → Z) places : (∀ a, byte_at s a = mem a) → map (byte_at s) places = map mem places.
Proof. intros E. by apply map_ext. Qed.

(** After [n] bytes of the piece the checksum covers as much as before, or a piece more. *)
Lemma covered_advance c c' places n :
  crc_told c n c' → noniter (c_data c) → piece_ok (cur c) (resid c) places → 0 < n <= (cur c).2 →
  total_resid c' = total_resid c - n → resid c <= total_resid c →
  take (Z.to_nat n) places ++ covered c' = run (cur c).1.1 (cur c).1.2 (cur c).2.
Proof.
  intros Htold Hni (Ho & Hl & Hp & Ht) Hn Htot Hle. destruct (Htold Hni) as (_ & Hin & Hend).
  destruct (cur c) as [[page off] len]. cbn [fst snd] in *. unfold covered.
  rewrite <- (take_take_le _ n len), Ht, take_run by lia.
  destruct (Z.eq_dec n len) as [->|Hne].
  - assert (need_crc c' || (total_resid c' =? 0) = true) as ->; [|by rewrite app_nil_r].
    destruct (Z.eqb_spec (total_resid c') 0); [apply orb_true_r|]. by rewrite Hend by lia.
  - destruct Hin as [-> Hcur]; [lia|]. rewrite Hcur. cbn [fst snd orb].
    rewrite (proj2 (Z.eqb_neq (total_resid c') 0)) by lia. rewrite <- run_app by lia. f_equal. lia.
Qed.

Section writing.
Variables (do_datacrc : bool) (mem : Z * Z → Z) (sent0 : list Z) (crc0 : Z) (items : list ceph_msg_data).

(** [gone] bytes of the message have gone out, [places] are to go. *)
Definition writing (gone places : list (Z * Z)) io : Prop :=
  (∀ a, byte_at (io_sock io) a = mem a) ∧ sent (io_sock io) = sent0 ++ map mem gone ∧
  total_resid (io_cursor io) = Z.of_nat (length places) ∧
  (places ≠ [] → cursor_ok (io_cursor io) places) ∧
  (resid (io_cursor io) = 0 → places ≠ [] → need_crc (io_cursor io) = true) ∧
  (do_datacrc = true → noniter items → noniter (c_data (io_cursor io)) ∧
   io_crc io = crc32c crc0 (map mem (gone ++ covered (io_cursor io)))).

Definition body_post (gone places : list (Z * Z)) io (o : data_io + option Z * data_io) : Prop :=
  match o with
  | inl io' => ∃ n, (io_measure io' < io_measure io)%nat ∧ (n ≤ length places)%nat ∧
      writing (gone ++ take n places) (drop n places) io'
  | inr (None, io') => io' = io ∧ places = []
  | inr (Some ret, io') => ret <= 0 ∧ writing gone places io'
  end.

(** The loop goes over an item without bytes. *)
Lemma writing_skip gone places io :
  writing gone places io → total_resid (io_cursor io) ≠ 0 → resid (io_cursor io) = 0 →
  wp (ceph_msg_data_advance (io_cursor io) 0) (λ c,
    body_post gone places io (inl {| io_sock := io_sock io; io_cursor := c; io_crc := io_crc io; io_more := io_more io |})).
Proof.
  intros (Hmem & Hsent & Htot & Hok & Hfresh & Hcrc) Hne Hr.
  assert (places ≠ []) as Hp by (intros ->; simpl in Htot; lia).
  specialize (Hok Hp). destruct (cursor_ok_resid _ _ Hok) as [? _].
  eapply wp_mono; [apply (wp_msg_data_advance _ _ 0 Hok); [lia|by right]|].
  intros c' (Htot' & Hok' & Htold & Hlast & _ & Hlen). rewrite Z.sub_0_r in Htot'.
  destruct (Hlast Hr ltac:(lia)) as [Hnc Hlt]. exists 0%nat. unfold io_measure. cbn [io_cursor].
  split; [lia|]. split; [lia|]. change (take 0 places) with (@nil (Z * Z)). rewrite app_nil_r. change (drop 0 places) with places.
  do 2 (split; [done|]). split; [by rewrite <- Htot|]. split; [intros _; apply Hok'; lia|]. split; [done|].
  intros Hdc Hni. destruct (Hcrc Hdc Hni) as [Hni' ->]. split; [apply (Htold Hni')|]. cbn.
  unfold covered. by rewrite Hnc, Hfresh.
Qed.

Lemma wp_write_data_body gone places io :
  writing gone places io → wp (write_data_body do_datacrc io) (body_post gone places io).
Proof.
  intros Hw. pose proof Hw as (Hmem & Hsent & Htot & Hok & Hfresh & Hcrc). unfold write_data_body.
  destruct (Z.eqb_spec (total_resid (io_cursor io)) 0) as [E|Hne].
  { apply wp_ret. split; [done|]. apply nil_length_inv. lia. }
  assert (places ≠ []) as Hp by (intros ->; simpl in Htot; lia). specialize (Hok Hp).
  destruct (cursor_ok_resid _ _ Hok) as [Hr Hmax].
  destruct (Z.eqb_spec (resid (io_cursor io)) 0) as [Er|Hnr].
  { apply wp_bind. by apply writing_skip. }
  apply wp_bind. eapply wp_mono; [apply (wp_msg_data_next _ _ Hok); lia|].
  intros [c [[page off] len]] (Hpc & Hcur & Hok' & Htot' & Hr' & Hdata' & Hnc' & Hpiece).
  pose proof Hpiece as (Ho & Hl & Hpg & Ht). cbn [fst snd] in Ho, Hl, Hpg, Ht.
  unfold ceph_tcp_sendpage. set (more := if len =? total_resid c then MSG_MORE else io_more io).
  destruct (sock_sendpage _ _ _ (io_sock io)) as [s ret] eqn:Es.
  destruct (sendpage_law _ page off len _ _ _ _ ltac:(lia) Es) as (Hret & Hmem' & _ & Hsent').
  assert (∀ r, r <= 0 → ret <= 0 → body_post gone places io (inr (Some r,
    {| io_sock := s; io_cursor := c; io_crc := io_crc io; io_more := more |}))) as Hstop.
  { intros r Hr0 Hret0. split; [done|]. unfold writing. cbn. split; [intros; by rewrite Hmem'|]. split.
    { rewrite Hsent', Hsent. unfold run. replace (Z.to_nat ret) with 0%nat by lia. by rewrite app_nil_r. }
    split; [lia|]. split; [done|]. rewrite Hnc', Hr', Hdata'. split; [done|].
    intros Hdc Hni. destruct (Hcrc Hdc Hni) as [Hni' ->]. split; [done|].
    unfold covered. by rewrite Hnc', Htot', Hcur, Hpc. }
  destruct (Z.eqb_spec ret (- EAGAIN)) as [->|Hagain].
  { apply wp_ret, Hstop; unfold EAGAIN; lia. }
  destruct (Z.leb_spec ret 0) as [Hneg|Hpos]; [by apply wp_ret, Hstop|].
  apply wp_bind. eapply wp_mono; [apply (wp_msg_data_advance _ _ ret Hok'); [lia|rewrite Hcur; left; done]|].
  intros c' (Htot'' & Hok'' & Htold & Hlast & Hrest & Hlen). apply wp_ret.
  exists (Z.to_nat ret). unfold io_measure. cbn. rewrite <- Hdata'.
  split; [lia|]. split; [lia|]. split; [cbn; intros; by rewrite Hmem'|]. split.
  { cbn. rewrite Hsent', Hsent, map_app, <- app_assoc. do 2 f_equal. rewrite (map_byte_at _ mem) by done. f_equal.
    rewrite <- (take_run _ _ ret len), <- Ht, take_take_le by lia. done. }
  split; [cbn; rewrite length_drop; lia|].
  assert (drop (Z.to_nat ret) places ≠ [] → total_resid c' ≠ 0) as Hnil.
  { intros Hd E. apply Hd, nil_length_inv. rewrite length_drop. lia. }
  split; [intros Hd; apply Hok''; auto|]. split.
  { cbn. intros Er Hd. destruct (Z.eq_dec (resid c) ret) as [Eq|Hn]; [by apply Hlast; auto|].
    rewrite Hrest in Er by done. lia. }
  intros -> Hni. destruct (Hcrc eq_refl Hni) as [Hni' Hcrc']. cbn. rewrite <- Hdata' in Hni'.
  split; [apply (Htold Hni')|].
  rewrite <- app_assoc, (covered_advance c c' places ret Htold Hni'); rewrite ?Hcur; try done; try lia.
  2: by rewrite Hr'. cbn [fst snd]. rewrite Hcrc'. unfold covered. rewrite Hnc'.
  destruct (need_crc (io_cursor io)); cbn [orb].
  - unfold ceph_crc32c_page. rewrite (map_byte_at s mem) by (intros; by rewrite Hmem'). rewrite app_nil_r.
    by rewrite map_app, crc32c_app.
  - rewrite (proj2 (Z.eqb_neq _ 0)) by done. by rewrite <- Hpc.
Qed.

(** The loop ends, having written [k] bytes. *)
Lemma wp_write_data gone places io fuel :
  writing gone places io → (io_measure io < fuel)%nat →
  wp (loop fuel (write_data_body do_datacrc) io) (λ '(o, io'), ∃ k, (k ≤ length places)%nat ∧
    writing (gone ++ take k places) (drop k places) io' ∧
    match o with Some ret => ret <= 0 | None => k = length places end).
Proof.
  intros Hw Hfuel. apply (wp_loop (λ io', ∃ k, (k ≤ length places)%nat ∧ writing (gone ++ take k places) (drop k places) io')
    io_measure); [|exists 0%nat; rewrite app_nil_r, drop_0; split; [lia|done]|done].
  intros io' (k & Hk & Hw'). eapply wp_mono; [by apply wp_write_data_body|].
  intros [io''|[[ret|] io'']]; simpl.
  - intros (n & Hm & Hn & Hw''). split; [|done]. rewrite length_drop in Hn. exists (k + n)%nat. split; [lia|].
    by rewrite <- app_assoc, take_take_drop, drop_drop in Hw''.
  - intros [Hret Hw'']. eauto.
  - intros [-> Hnil]. exists k. split; [done|]. split; [done|].
    apply (f_equal length) in Hnil. rewrite length_drop in Hnil. simpl in Hnil. lia.
Qed.
End writing.

(** A message of [items] with [gone] of its data sent and [places] to go. *)
Definition outgoing (nocrc : bool) (mem : Z * Z → Z) (sent0 : list Z) (items : list ceph_msg_data)
    (gone places : list (Z * Z)) (m : sending) : Prop :=
  writing (negb nocrc) mem sent0 0 items gone places
    {| io_sock := snd_sock m; io_cursor := snd_cursor m; io_crc := data_crc m; io_more := 0 |}.

Lemma wp_write_partial_message_data nocrc mem sent0 items gone places m :
  outgoing nocrc mem sent0 items gone places m →
  wp (write_partial_message_data nocrc m) (λ '(m', ret), ∃ k, (k ≤ length places)%nat ∧
    outgoing nocrc mem sent0 items (gone ++ take k places) (drop k places) m' ∧
    (ret <= 0 ∧ footer_flags m' = footer_flags m ∨
     ret = 1 ∧ k = length places ∧
     footer_flags m' = if nocrc then Z.lor (footer_flags m) CEPH_MSG_FOOTER_NOCRC else footer_flags m)).
Proof.
  intros Hw. unfold write_partial_message_data. apply wp_bind.
  eapply wp_mono; [apply (wp_write_data (negb nocrc) mem sent0 0 items gone places); [|unfold io_measure, data_fuel; cbn; lia]|].
  - destruct Hw as (Hm & Hs & Ht & Ho & Hf & Hc). repeat (split; [done|]). intros Hdc Hni.
    destruct (Hc Hdc Hni) as [Hn Hc']. split; [done|]. cbn in *. by rewrite Hdc.
  - intros [o io] (k & Hk & (Hm & Hs & Ht & Ho & Hf & Hc) & Hret).
    assert (∀ fl, outgoing nocrc mem sent0 items (gone ++ take k places) (drop k places)
      {| snd_sock := io_sock io; snd_cursor := io_cursor io;
         data_crc := if negb nocrc then io_crc io else data_crc m; footer_flags := fl |}) as Hdone.
    { intros fl. repeat (split; [done|]). intros Hdc Hni. destruct (Hc Hdc Hni). split; [done|]. cbn. by rewrite Hdc. }
    destruct o as [ret|]; apply wp_ret; exists k; (split; [done|]); (split; [apply Hdone|]); [by left|].
    right. split; [done|]. split; [done|]. by destruct nocrc.
Qed.

(** ** Reading *)
Section reading.
Variables (do_datacrc : bool) (s0 : sock) (crc0 : Z).

(** [gone] bytes of the message are in place, [places] are to come. *)
Definition reading (gone places : list (Z * Z)) io : Prop :=
  received (io_sock io) = received s0 ++ map (byte_at (io_sock io)) gone ∧ sent (io_sock io) = sent s0 ∧
  (∀ a, a ∉ gone → byte_at (io_sock io) a = byte_at s0 a) ∧
  total_resid (io_cursor io) = Z.of_nat (length places) ∧
  (places ≠ [] → cursor_ok (io_cursor io) places) ∧
  (do_datacrc = true → io_crc io = crc32c crc0 (map (byte_at (io_sock io)) gone)).

Definition read_post (gone places : list (Z * Z)) io (o : data_io + option Z * data_io) : Prop :=
  match o with
  | inl io' => ∃ n, (io_measure io' < io_measure io)%nat ∧ (n ≤ length places)%nat ∧
      reading (gone ++ take n places) (drop n places) io'
  | inr (None, io') => io' = io ∧ places = []
  | inr (Some ret, io') => ret <= 0 ∧ reading gone places io'
  end.

(** A call puts the first bytes to come into place and leaves those that came before. *)
Lemma recv_step gone places s s' page off len ret flags :
  NoDup (gone ++ places) → take (Z.to_nat len) places = run page off len → 0 < len →
  sock_recvpage (page, off, len) flags s = (s', ret) →
  let n := Z.to_nat ret in
  received s' = received s ++ map (byte_at s') (take n places) ∧ sent s' = sent s ∧ (n <= Z.to_nat len)%nat ∧
  map (byte_at s') gone = map (byte_at s) gone ∧ run page off ret = take n places ∧
  (∀ a, a ∉ take n places → byte_at s' a = byte_at s a).
Proof.
  intros Hnd Ht Hl E n. destruct (recvpage_law page off len _ _ _ _ Hl E) as (Hret & Hmem & Hsent & Hrecv).
  assert (run page off ret = take n places) as Hrun.
  { destruct (Z.le_gt_cases ret 0) as [Hle|Hgt].
    - subst n. unfold run. by replace (Z.to_nat ret) with 0%nat by lia.
    - subst n. rewrite <- (take_run _ _ ret len), <- Ht, take_take_le by lia. done. }
  rewrite Hrun in *. split; [done|]. split; [done|]. split; [lia|]. split; [|done].
  apply map_ext_in. intros a Ha. apply Hmem. intros Hin. apply NoDup_app in Hnd as (_ & Hnd & _).
  apply (Hnd a); [by apply list_elem_of_In|]. eapply subseteq_take, Hin.
Qed.

Lemma wp_read_data_body gone places io :
  NoDup (gone ++ places) → reading gone places io → wp (read_data_body do_datacrc io) (read_post gone places io).
Proof.
  intros Hnd (Hrecv & Hsent & Hmem & Htot & Hok & Hcrc). unfold read_data_body.
  destruct (Z.eqb_spec (total_resid (io_cursor io)) 0) as [E|Hne].
  { apply wp_ret. split; [done|]. apply nil_length_inv. lia. }
  assert (places ≠ []) as Hp by (intros ->; simpl in Htot; lia). specialize (Hok Hp).
  destruct (cursor_ok_resid _ _ Hok) as [Hr Hmax].
  destruct (Z.eqb_spec (resid (io_cursor io)) 0) as [Er|Hnr].
  { apply wp_bind. eapply wp_mono; [apply (wp_msg_data_advance _ _ 0 Hok); [lia|by right]|].
    intros c' (Htot' & Hok' & _ & Hlast & _ & _). apply wp_ret. rewrite Z.sub_0_r in Htot'.
    destruct (Hlast Er ltac:(lia)) as [_ Hlt]. exists 0%nat. unfold io_measure. cbn [io_cursor].
    split; [lia|]. split; [lia|]. change (take 0 places) with (@nil (Z * Z)). rewrite app_nil_r.
    change (drop 0 places) with places. do 3 (split; [done|]). split; [by rewrite <- Htot|].
    split; [intros _; apply Hok'; cbn; lia|done]. }
  apply wp_bind. eapply wp_mono; [apply (wp_msg_data_next _ _ Hok); lia|].
  intros [c [[page off] len]] (Hpc & Hcur & Hok' & Htot' & Hr' & Hdata' & _ & Ho & Hl & Hpg & Ht).
  cbn [fst snd] in Ho, Hl, Hpg, Ht. unfold ceph_tcp_recvpage. apply wp_bind.
  apply wp_bind, wp_require; [unfold PAGE_SIZE in *; cbn; word_small; bool_to_prop; lia|].
  destruct (sock_recvpage _ _ (io_sock io)) as [s ret] eqn:Es.
  destruct (recv_step gone places _ _ _ _ _ _ _ Hnd Ht ltac:(lia) Es) as (Hrecv' & Hsent' & Hn & Hgone & Hrun & Hmem').
  apply wp_ret. cbn beta iota.
  assert (∀ crc c', total_resid c' = Z.of_nat (length (drop (Z.to_nat ret) places)) →
    (drop (Z.to_nat ret) places ≠ [] → cursor_ok c' (drop (Z.to_nat ret) places)) →
    (do_datacrc = true → crc = crc32c (io_crc io) (map (byte_at s) (take (Z.to_nat ret) places))) →
    reading (gone ++ take (Z.to_nat ret) places) (drop (Z.to_nat ret) places)
      {| io_sock := s; io_cursor := c'; io_crc := crc; io_more := io_more io |}) as Hdone.
  { intros crc c' Ht' Hc' Hcr. split; [cbn; by rewrite Hrecv', Hrecv, map_app, Hgone, app_assoc|].
    split; [cbn; by rewrite Hsent'|]. split.
    { cbn. intros a Ha. rewrite not_elem_of_app in Ha. destruct Ha. rewrite Hmem' by done. auto. }
    split; [done|]. split; [done|]. cbn. intros Hdc. rewrite Hcr, Hcrc by done.
    by rewrite map_app, Hgone, crc32c_app. }
  destruct (Z.leb_spec (if ret =? - EAGAIN then 0 else ret) 0) as [Hneg|Hpos].
  { apply wp_ret. split; [done|]. assert (Z.to_nat ret = 0%nat) as E.
    { destruct (Z.eqb_spec ret (- EAGAIN)); unfold EAGAIN in *; lia. }
    rewrite E in Hdone. change (take 0 places) with (@nil (Z * Z)) in Hdone. rewrite app_nil_r in Hdone.
    apply Hdone; [by rewrite Htot', Htot|done|intros; by rewrite crc32c_nil]. }
  destruct (Z.eqb_spec ret (- EAGAIN)); [lia|].
  apply wp_bind. eapply wp_mono; [apply (wp_msg_data_advance _ _ ret Hok'); [lia|rewrite Hcur; left; cbn; lia]|].
  intros c' (Htot'' & Hok'' & _ & _ & _ & Hlen). apply wp_ret. exists (Z.to_nat ret). unfold io_measure. cbn [io_cursor].
  rewrite <- Hdata'. split; [lia|]. split; [lia|].
  assert (total_resid c' = Z.of_nat (length (drop (Z.to_nat ret) places))) as Hd by (rewrite length_drop; lia).
  apply Hdone; [done| |].
  - intros Hnil. apply Hok''. intros E. apply Hnil, nil_length_inv. lia.
  - intros ->. unfold ceph_crc32c_page. by rewrite Hrun.
Qed.
End reading.

(** ** Whole messages *)

(** [try_write] comes back to a message whenever the socket has room, until it is written or
    the socket fails. *)
Fixpoint write_calls (nocrc : bool) (n : nat) (m : sending) : outcome (sending * Z) :=
  match n with
  | O => Ret (m, 0)
  | S n => '(m, ret) ← write_partial_message_data nocrc m; if ret =? 0 then write_calls nocrc n m else Ret (m, ret)
  end.

Fixpoint read_calls (nocrc : bool) (n : nat) (s : sock) (c : ceph_msg_data_cursor) (crc : Z)
    : outcome (sock * ceph_msg_data_cursor * Z * Z) :=
  match n with
  | O => Ret (s, c, crc, 0)
  | S n =>
      '(s, c, crc, ret) ← read_partial_msg_data nocrc s c crc;
      if ret =? 0 then read_calls nocrc n s c crc else Ret (s, c, crc, ret)
  end.

Lemma wp_write_calls nocrc mem sent0 items n gone places m :
  outgoing nocrc mem sent0 items gone places m →
  wp (write_calls nocrc n m) (λ '(m', ret), ∃ k, (k ≤ length places)%nat ∧
    outgoing nocrc mem sent0 items (gone ++ take k places) (drop k places) m' ∧
    (ret <= 0 ∧ footer_flags m' = footer_flags m ∨
     ret = 1 ∧ k = length places ∧
     footer_flags m' = if nocrc then Z.lor (footer_flags m) CEPH_MSG_FOOTER_NOCRC else footer_flags m)).
Proof.
  revert gone places m. induction n as [|n IH]; intros gone places m Hw; simpl.
  { exists 0%nat. rewrite app_nil_r, drop_0. split; [lia|]. split; [done|]. by left. }
  apply wp_bind. eapply wp_mono; [by apply wp_write_partial_message_data|].
  intros [m1 ret] (k & Hk & Hw1 & Hret). destruct (Z.eqb_spec ret 0) as [->|Hne]; [|apply wp_ret; eauto].
  destruct Hret as [[_ Hfl]|[? _]]; [|done]. eapply wp_mono; [by apply IH|].
  intros [m2 ret] (k' & Hk' & Hw2 & Hret). rewrite length_drop in Hk'. exists (k + k')%nat. split; [lia|].
  rewrite <- app_assoc, take_take_drop, drop_drop in Hw2. split; [done|]. rewrite <- Hfl.
  destruct Hret as [?|(? & E & ?)]; [by left|right]. rewrite length_drop in E. repeat split; (done || lia).
Qed.

Lemma outgoing_start nocrc m c s fl :
  msg_ok m (m_data_length m) →
  cursor_ok c (take (Z.to_nat (m_data_length m)) (data_bytes (m_data m))) → c_data c = m_data m → need_crc c = true →
  outgoing nocrc (byte_at s) (sent s) (m_data m) [] (take (Z.to_nat (m_data_length m)) (data_bytes (m_data m)))
    {| snd_sock := s; snd_cursor := c; data_crc := 0; footer_flags := fl |}.
Proof.
  intros (_ & _ & Hl & Hb & _) Hc Hdata Hnc. pose proof (cursor_ok_nonempty _ _ Hc) as Ht.
  split; [done|]. split; [cbn; by rewrite app_nil_r|]. split; [done|]. split; [done|]. split; [done|]. cbn. intros _ Hni.
  rewrite Hdata. split; [done|]. unfold covered. rewrite Hnc. simpl. by rewrite crc32c_nil.
Qed.

(** C39: writing the data of a message.  Whatever the socket takes of each piece and however often
    the writer has to come back, what has gone out is a prefix of the bytes of the message's
    items in their order, no assertion of the cursors fails and every call ends; when a call
    returns 1 all of them have gone, each once, and the footer says that there is no checksum, or its
    checksum is that of the bytes sent, if no item is an [iov_iter]: of those the code counts bytes
    twice, see [iter_checksum_counts_twice]. *)
Theorem message_data_sent (nocrc : bool) (m : ceph_msg) (c0 : ceph_msg_data_cursor) (s : sock) (n : nat) :
  msg_ok m (m_data_length m) →
  let bytes := map (byte_at s) (take (Z.to_nat (m_data_length m)) (data_bytes (m_data m))) in
  wp (c ← ceph_msg_data_cursor_init m (m_data_length m) c0;
      write_calls nocrc n {| snd_sock := s; snd_cursor := c; data_crc := 0; footer_flags := 0 |})
     (λ '(m', ret), ret <= 1 ∧
        (∃ k, sent (snd_sock m') = sent s ++ take k bytes ∧ (ret = 1 → k = length bytes)) ∧
        (ret = 1 → if nocrc then footer_flags m' = CEPH_MSG_FOOTER_NOCRC
                   else footer_flags m' = 0 ∧ (noniter (m_data m) → data_crc m' = crc32c 0 bytes))).
Proof.
  intros Hm bytes. apply wp_bind. eapply wp_mono; [by apply wp_msg_data_cursor_init|].
  intros c (Hc & Htot & Hdata & Hnc). eapply wp_mono; [by apply wp_write_calls, outgoing_start|].
  intros [m' ret] (k & Hk & (Hmem & Hsent & Ht' & _ & _ & Hcrc) & Hret). cbn in *. split; [lia|]. split.
  - exists k. split; [rewrite Hsent; by rewrite <- firstn_map|]. intros ->. unfold bytes.
    rewrite length_map. lia.
  - intros ->. destruct Hret as [[? _]|(_ & -> & Hfl)]; [lia|]. destruct nocrc; [done|]. split; [done|]. intros Hni.
    destruct (Hcrc eq_refl Hni) as [_ ->]. unfold covered. rewrite Ht', length_drop, Nat.sub_diag. cbn.
    by rewrite orb_true_r, app_nil_r, firstn_all.
Qed.

Lemma wp_read_partial_msg_data nocrc s0 crc0 gone places s c crc :
  NoDup (gone ++ places) →
  reading (negb nocrc) s0 crc0 gone places {| io_sock := s; io_cursor := c; io_crc := crc; io_more := 0 |} →
  wp (read_partial_msg_data nocrc s c crc) (λ '(s', c', crc', ret), ∃ k, (k ≤ length places)%nat ∧
    reading (negb nocrc) s0 crc0 (gone ++ take k places) (drop k places)
      {| io_sock := s'; io_cursor := c'; io_crc := crc'; io_more := 0 |} ∧
    (ret <= 0 ∨ ret = 1 ∧ k = length places)).
Proof.
  intros Hnd Hr. unfold read_partial_msg_data. apply wp_bind.
  eapply wp_mono; [apply (wp_loop (λ io, ∃ k, (k ≤ length places)%nat ∧
    reading (negb nocrc) s0 crc0 (gone ++ take k places) (drop k places) io) io_measure
    (λ '(o, io), ∃ k, (k ≤ length places)%nat ∧ reading (negb nocrc) s0 crc0 (gone ++ take k places) (drop k places) io ∧
      match o with Some ret => ret <= 0 | None => k = length places end))|].
  - intros io (k & Hk & Hr'). eapply wp_mono; [apply (wp_read_data_body _ s0 crc0 (gone ++ take k places) (drop k places)); [|done]|].
    { by rewrite <- app_assoc, take_drop. }
    intros [io'|[[ret|] io']]; simpl.
    + intros (n & Hm & Hn & Hr''). split; [|done]. rewrite length_drop in Hn. exists (k + n)%nat. split; [lia|].
      by rewrite <- app_assoc, take_take_drop, drop_drop in Hr''.
    + intros [Hret Hr'']. eauto.
    + intros [-> Hnil]. exists k. split; [done|]. split; [done|].
      apply (f_equal length) in Hnil. rewrite length_drop in Hnil. simpl in Hnil. lia.
  - exists 0%nat. rewrite app_nil_r, drop_0. split; [lia|]. destruct Hr as (Ha1 & Ha2 & Ha3 & Ha4 & Ha5 & Ha6).
    repeat (split; [done|]). cbn in *. intros Hdc. rewrite Hdc. auto.
  - unfold io_measure, data_fuel. cbn. lia.
  - intros [o io] (k & Hk & (Ha1 & Ha2 & Ha3 & Ha4 & Ha5 & Ha6) & Hret). apply wp_ret. exists k. split; [done|]. split.
    + repeat (split; [done|]). cbn. intros Hdc. rewrite Hdc. auto.
    + destruct o; [by left|by right].
Qed.

Lemma wp_read_calls nocrc s0 crc0 n gone places s c crc :
  NoDup (gone ++ places) →
  reading (negb nocrc) s0 crc0 gone places {| io_sock := s; io_cursor := c; io_crc := crc; io_more := 0 |} →
  wp (read_calls nocrc n s c crc) (λ '(s', c', crc', ret), ∃ k, (k ≤ length places)%nat ∧
    reading (negb nocrc) s0 crc0 (gone ++ take k places) (drop k places)
      {| io_sock := s'; io_cursor := c'; io_crc := crc'; io_more := 0 |} ∧
    (ret <= 0 ∨ ret = 1 ∧ k = length places)).
Proof.
  revert gone places s c crc. induction n as [|n IH]; intros gone places s c crc Hnd Hr; simpl.
  { exists 0%nat. rewrite app_nil_r, drop_0. split; [lia|]. split; [done|]. by left. }
  apply wp_bind. eapply wp_mono; [by apply wp_read_partial_msg_data|].
  intros [[[s1 c1] crc1] ret] (k & Hk & Hr1 & Hret). destruct (Z.eqb_spec ret 0) as [->|Hne]; [|apply wp_ret; eauto].
  eapply wp_mono; [apply IH; [|done]; by rewrite <- app_assoc, take_drop|].
  intros [[[s2 c2] crc2] ret] (k' & Hk' & Hr2 & Hret'). rewrite length_drop in Hk'. exists (k + k')%nat. split; [lia|].
  rewrite <- app_assoc, take_take_drop, drop_drop in Hr2. split; [done|].
  destruct Hret' as [?|(? & E)]; [by left|right]. rewrite length_drop in E. split; (done || lia).
Qed.

(** C40: reading the data of a message.  However the bytes come in, each that has come is at the
    place the message's items give it, in their order, nothing else in memory has changed, and
    no byte past the data is taken from the socket; when a call returns 1 all are in place, and
    the checksum is that of the bytes received. *)
Theorem message_data_received (nocrc : bool) (m : ceph_msg) (c0 : ceph_msg_data_cursor) (s : sock) (data_len : Z) (n : nat) :
  msg_ok m data_len → let places := take (Z.to_nat data_len) (data_bytes (m_data m)) in NoDup places →
  wp (c ← ceph_msg_data_cursor_init m data_len c0; read_calls nocrc n s c 0)
     (λ '(s', c', crc, ret), ret <= 1 ∧
        ∃ k, (k ≤ length places)%nat ∧ received s' = received s ++ map (byte_at s') (take k places) ∧
          (∀ a, a ∉ take k places → byte_at s' a = byte_at s a) ∧
          (ret = 1 → k = length places ∧ (nocrc = false → crc = crc32c 0 (map (byte_at s') places)))).
Proof.
  intros Hm places Hnd. apply wp_bind. eapply wp_mono; [by apply wp_msg_data_cursor_init|].
  intros c (Hc & Htot & Hdata & Hnc). eapply wp_mono; [apply (wp_read_calls nocrc s 0 n [] places); [done|]|].
  - pose proof (cursor_ok_nonempty _ _ Hc). split; [cbn; by rewrite app_nil_r|]. repeat (split; [done|]). cbn.
    intros _. by rewrite crc32c_nil.
  - intros [[[s' c'] crc] ret] (k & Hk & (Hrecv & _ & Hmem & _ & _ & Hcrc) & Hret). cbn in *. split; [lia|].
    exists k. repeat (split; [done|]). intros ->. destruct Hret as [?|(_ & ->)]; [lia|]. split; [done|].
    intros ->. rewrite firstn_all in Hcrc. auto.
Qed.
End data.

(** * A concrete socket

    It takes or gives at most so many bytes at each call, then none. *)
Record ex_sock := {
  ex_mem : Z * Z → Z;
  ex_takes : list Z;
  ex_sent : list Z;
  ex_coming : list Z;
  ex_received : list Z;
}.

(** The byte at a place after bytes [l] were put at an offset of a page. *)
Definition put_bytes (mem : Z * Z → Z) (p o : Z) (l : list Z) (a : Z * Z) : Z :=
  if (a.1 =? p) && (o <=? a.2) && (a.2 <? o + Z.of_nat (length l)) then nth (Z.to_nat (a.2 - o)) l 0 else mem a.

#[export] Instance ex_socket : Socket := {
  sock := ex_sock;
  byte_at := ex_mem;
  sendpage_ok _ := true;
  sock_sendpage _ pc _ s :=
    match ex_takes s with
    | [] => (s, - EAGAIN)
    | k :: ks =>
        let n := Z.min k pc.2 in
        ({| ex_mem := ex_mem s; ex_takes := ks; ex_coming := ex_coming s; ex_received := ex_received s;
            ex_sent := ex_sent s ++ map (ex_mem s) (run pc.1.1 pc.1.2 n) |}, n)
    end;
  sock_recvpage pc _ s :=
    match ex_takes s with
    | [] => (s, - EAGAIN)
    | k :: ks =>
        let l := take (Z.to_nat (Z.min k pc.2)) (ex_coming s) in
        let mem := put_bytes (ex_mem s) pc.1.1 pc.1.2 l in
        ({| ex_mem := mem; ex_takes := ks; ex_coming := drop (length l) (ex_coming s); ex_sent := ex_sent s;
            ex_received := ex_received s ++ map mem (run pc.1.1 pc.1.2 (Z.of_nat (length l))) |},
         Z.of_nat (length l))
    end;
}.

Lemma elem_of_run p o n a : a ∈ run p o n ↔ a.1 = p ∧ o <= a.2 < o + Z.max 0 n.
Proof.
  unfold run. rewrite list_elem_of_In, in_map_iff. split.
  - intros (k & <- & Hk). apply in_seq in Hk. simpl. lia.
  - destruct a as [q x]. simpl. intros [-> Hx]. exists (Z.to_nat (x - o)). split; [f_equal; lia|]. apply in_seq. lia.
Qed.

#[export, refine] Instance ex_socket_laws : SocketLaws := { sent := ex_sent; received := ex_received }.
Proof.
  - intros ok page off n flags s s' ret Hn E. simpl in E. destruct (ex_takes s) as [|k ks].
    + injection E as <- <-. unfold EAGAIN. split; [lia|]. split; [done|]. split; [done|]. by rewrite app_nil_r.
    + injection E as <- <-. simpl. split; [lia|]. done.
  - intros page off n flags s s' ret Hn E. simpl in E. destruct (ex_takes s) as [|k ks].
    + injection E as <- <-. unfold EAGAIN. split; [lia|]. split; [done|]. split; [done|]. by rewrite app_nil_r.
    + injection E as <- <-. simpl. split; [rewrite length_take; lia|]. split; [|done].
      intros a Ha. unfold put_bytes. destruct (_ && _) eqn:Et; [|done]. exfalso. apply Ha. bool_to_prop.
      apply elem_of_run. split; [done|]. lia.
Defined.

#[export] Instance ex_crc : Crc := foldl (λ c b, (c * 33 + b) mod 2 ^ 32).
#[export] Instance ex_crc_laws : CrcLaws.
Proof. split; [done|]. intros. apply foldl_app. Qed.

(** Ten bytes over two pages, a pagelist of three bytes, and four bytes of two bios. *)
Definition ex_items : list (@ceph_msg_data segments bytes_iter) :=
  [MSG_DATA_PAGES [7; 8] 10 4090 false; MSG_DATA_PAGELIST [9] 3;
   MSG_DATA_BIO {| bio_iter := {| segs := [(5, 100, 2)]; seg_done := 0 |};
                   bi_next := [{| segs := [(6, 4094, 2); (7, 0, 1)]; seg_done := 0 |}] |} 4].
Definition ex_data_msg : ceph_msg := {| m_data := ex_items; m_data_length := 17; m_max_data_items := 3 |}.
Definition ex_cursor : ceph_msg_data_cursor :=
  {| total_resid := 0; c_data := []; resid := 0; sr_resid := 0; need_crc := false; c_at := AtNone |}.
Definition ex_socket_state (takes coming : list Z) : ex_sock :=
  {| ex_mem a := (a.1 * 7 + a.2) mod 256; ex_takes := takes; ex_sent := []; ex_coming := coming; ex_received := [] |}.

Lemma ex_data_msg_ok : msg_ok ex_data_msg 17 ∧ noniter (m_data ex_data_msg).
Proof.
  split; [|by repeat constructor]. split; [|split; [by vm_compute|split; [done|split; [by vm_compute|done]]]].
  repeat constructor; simpl; try (unfold PAGE_SIZE; lia); try done.
  all: try (repeat constructor; unfold seg_ok, PAGE_SIZE; simpl; lia).
  all: vm_compute; congruence.
Qed.

Lemma message_data_sent_witness :
  let s := ex_socket_state [4; 1; 9; 2; 1; 100; 3; 3; 1; 1] [] in
  wp (c ← ceph_msg_data_cursor_init ex_data_msg 17 ex_cursor;
      write_calls false 1 {| snd_sock := s; snd_cursor := c; data_crc := 0; footer_flags := 0 |})
     (λ '(m', ret), ret = 1 ∧ length (sent (snd_sock m')) = 17%nat) ∧
  wp (c ← ceph_msg_data_cursor_init ex_data_msg 17 ex_cursor;
      write_calls false 1 {| snd_sock := s; snd_cursor := c; data_crc := 0; footer_flags := 0 |})
     (λ '(m', ret), ret <= 1 ∧
        (∃ k, sent (snd_sock m') = [] ++ take k (map (byte_at s) (take 17 (data_bytes ex_items))) ∧
          (ret = 1 → k = length (map (byte_at s) (take 17 (data_bytes ex_items))))) ∧
        (ret = 1 → footer_flags m' = 0 ∧
           (noniter ex_items → data_crc m' = crc32c 0 (map (byte_at s) (take 17 (data_bytes ex_items)))))) ∧
  noniter ex_items.
Proof.
  split; [by vm_compute|]. split; [|exact (proj2 ex_data_msg_ok)].
  exact (message_data_sent false ex_data_msg ex_cursor (ex_socket_state [4; 1; 9; 2; 1; 100; 3; 3; 1; 1] []) 1
    (proj1 ex_data_msg_ok)).
Defined.

Lemma message_data_received_witness :
  let s := ex_socket_state [4; 0; 9; 2; 1; 100; 3; 3; 1; 1] [1; 2; 3; 4; 5; 6; 7; 8; 9; 10; 11; 12; 13; 14; 15; 16; 17; 18] in
  let places := take 17 (data_bytes ex_items) in
  NoDup places ∧
  wp (c ← ceph_msg_data_cursor_init ex_data_msg 17 ex_cursor; read_calls false 2 s c 0)
     (λ '(s', c', crc, ret), ret = 1 ∧ map (byte_at s') places = seqZ 1 17) ∧
  wp (c ← ceph_msg_data_cursor_init ex_data_msg 17 ex_cursor; read_calls false 2 s c 0)
     (λ '(s', c', crc, ret), ret <= 1 ∧
        ∃ k, (k ≤ length places)%nat ∧ received s' = [] ++ map (byte_at s') (take k places) ∧
          (∀ a, a ∉ take k places → byte_at s' a = byte_at s a) ∧
          (ret = 1 → k = length places ∧ (false = false → crc = crc32c 0 (map (byte_at s') places)))).
Proof.
  assert (NoDup (take 17 (data_bytes ex_items))) as Hnd by (by apply (bool_decide_unpack _); vm_compute).
  split; [done|]. split; [by vm_compute|].
  exact (message_data_received false ex_data_msg ex_cursor
    (ex_socket_state [4; 0; 9; 2; 1; 100; 3; 3; 1; 1] [1; 2; 3; 4; 5; 6; 7; 8; 9; 10; 11; 12; 13; 14; 15; 16; 17; 18]) 17 2
    (proj1 ex_data_msg_ok) Hnd).
Defined.

(** For an [iov_iter] the checksum is wrong when the socket takes part of a piece:
    [ceph_msg_data_iter_advance] says that every step begins a piece, and the bytes that were
    left of one are counted again. *)
Lemma iter_checksum_counts_twice :
  let it : @iov_iter bytes_iter := {| all_bytes := [(1, 0); (1, 1); (1, 2)]; byte_pos := 0 |} in
  let m := {| m_data := [MSG_DATA_ITER it]; m_data_length := 3; m_max_data_items := 1 |} in
  let s := ex_socket_state [2; 1] [] in
  let bytes := map (byte_at s) (data_bytes (m_data m)) in
  wp (c ← ceph_msg_data_cursor_init m 3 ex_cursor;
      write_calls false 1 {| snd_sock := s; snd_cursor := c; data_crc := 0; footer_flags := 0 |})
     (λ '(m', ret), ret = 1 ∧ sent (snd_sock m') = bytes ∧ data_crc m' ≠ crc32c 0 bytes ∧
        data_crc m' = crc32c (crc32c 0 bytes) (drop 2 bytes)).
Proof. by vm_compute. Qed.
