(* ===== verification/Connection.v ===== *)
(** Connections ([messenger.c]): the queues of messages to send and sent, their sequence
    numbers, acknowledgement, faults, revocation and the work function; and the parts of both
    wire protocols ([messenger_v1.c], [messenger_v2.c]) that set up sessions, take messages off the
    queue and judge the sequence number of one that comes in.

    A message is its identity; a linked message is an entry of a queue with the fields of its
    header the queues use.  A frame is read and written whole.  The mutex is held by every
    operation; what happens while one drops it is an argument, [unlocked].  [v1] and [v2] are
    members of a union in the code and fields of their own here.  The buffers of control frames
    and the authorizer are had; a failure to is one more fault. *)

From S2P Require Import Prelude OsdMap State.

Definition EBUSY : Z := 16.
Definition EAGAIN : Z := 11.
Definition EBADE : Z := 52.
Definition EBADMSG : Z := 74.

Definition CEPH_CON_S_CLOSED : Z := 1.
Definition CEPH_CON_S_PREOPEN : Z := 2.
Definition CEPH_CON_S_V1_BANNER : Z := 3.
Definition CEPH_CON_S_V1_CONNECT_MSG : Z := 4.
Definition CEPH_CON_S_V2_BANNER_PREFIX : Z := 5.
Definition CEPH_CON_S_V2_AUTH_SIGNATURE : Z := 9.
Definition CEPH_CON_S_V2_SESSION_CONNECT : Z := 10.
Definition CEPH_CON_S_V2_SESSION_RECONNECT : Z := 11.
Definition CEPH_CON_S_OPEN : Z := 12.
Definition CEPH_CON_S_STANDBY : Z := 13.

Definition CON_SOCK_STATE_NEW : Z := 0.
Definition CON_SOCK_STATE_CLOSED : Z := 1.
Definition CON_SOCK_STATE_CONNECTING : Z := 2.
Definition CON_SOCK_STATE_CONNECTED : Z := 3.
Definition CON_SOCK_STATE_CLOSING : Z := 4.

(** * State *)

(** A message on a queue. *)
Record qmsg := QMsg { q_msg : Z; q_needs_out_seq : bool; q_seq : Z }.

(** What a connection sends, as far as sessions go: messages with the acknowledgement in their
    header, and the frames and replies that carry sequence numbers. *)
Inductive frame :=
  | F_MESSAGE (msg seq ack_seq : Z)
  | F_ACK (seq : Z)
  | F_KEEPALIVE
  | F_CONNECT (connect_seq global_seq : Z)
  | F_SEQ (seq : Z)
  | F_CLIENT_IDENT (global_seq cookie : Z)
  | F_SESSION_RECONNECT (client_cookie server_cookie global_seq connect_seq msg_seq : Z).

(** Calls of the connection's owner. *)
Inductive op_call :=
  | OP_DISPATCH (msg : Z)
  | OP_REENCODE (msg : Z)
  | OP_FAULT
  | OP_PEER_RESET
  | OP_INVALIDATE_AUTHORIZER
  | OP_PUT.

(** [CEPH_CON_F_*] *)
Record con_flags := ConFlags {
  f_lossytx : bool;
  f_keepalive_pending : bool;
  f_write_pending : bool;
  f_sock_closed : bool;
  f_backoff : bool;
}.
Definition set_f_lossytx (x : bool) (f : con_flags) : con_flags := ConFlags x (f_keepalive_pending f)
  (f_write_pending f) (f_sock_closed f) (f_backoff f).
Definition set_f_keepalive_pending (x : bool) (f : con_flags) : con_flags := ConFlags (f_lossytx f) x
  (f_write_pending f) (f_sock_closed f) (f_backoff f).
Definition set_f_write_pending (x : bool) (f : con_flags) : con_flags := ConFlags (f_lossytx f)
  (f_keepalive_pending f) x (f_sock_closed f) (f_backoff f).
Definition set_f_sock_closed (x : bool) (f : con_flags) : con_flags := ConFlags (f_lossytx f)
  (f_keepalive_pending f) (f_write_pending f) x (f_backoff f).
Definition set_f_backoff (x : bool) (f : con_flags) : con_flags := ConFlags (f_lossytx f) (f_keepalive_pending
  f) (f_write_pending f) (f_sock_closed f) x.

(** The queues, the sequence numbers and the messages on their way. *)
Record con_queues := ConQueues {
  out_queue : list qmsg;
  out_sent : list qmsg;
  out_seq : Z;
  in_seq : Z;
  in_seq_acked : Z;
  in_msg : option Z;
  out_msg : option Z;
}.
Definition set_out_queue (x : list qmsg) (q : con_queues) : con_queues := ConQueues x (out_sent q) (out_seq q)
  (in_seq q) (in_seq_acked q) (in_msg q) (out_msg q).
Definition set_out_sent (x : list qmsg) (q : con_queues) : con_queues := ConQueues (out_queue q) x (out_seq q)
  (in_seq q) (in_seq_acked q) (in_msg q) (out_msg q).
Definition set_out_seq (x : Z) (q : con_queues) : con_queues := ConQueues (out_queue q) (out_sent q) x (in_seq
  q) (in_seq_acked q) (in_msg q) (out_msg q).
Definition set_in_seq (x : Z) (q : con_queues) : con_queues := ConQueues (out_queue q) (out_sent q) (out_seq q)
  x (in_seq_acked q) (in_msg q) (out_msg q).
Definition set_in_seq_acked (x : Z) (q : con_queues) : con_queues := ConQueues (out_queue q) (out_sent q)
  (out_seq q) (in_seq q) x (in_msg q) (out_msg q).
Definition set_in_msg (x : option Z) (q : con_queues) : con_queues := ConQueues (out_queue q) (out_sent q)
  (out_seq q) (in_seq q) (in_seq_acked q) x (out_msg q).
Definition set_out_msg (x : option Z) (q : con_queues) : con_queues := ConQueues (out_queue q) (out_sent q)
  (out_seq q) (in_seq q) (in_seq_acked q) (in_msg q) x.

(** [struct ceph_connection_v1_info], as far as sessions go. *)
Record con_v1_info := ConV1 {
  v1_connect_seq : Z;
  v1_peer_global_seq : Z;
  v1_auth_retry : Z;
}.
Definition set_v1_connect_seq (x : Z) (v : con_v1_info) : con_v1_info := ConV1 x (v1_peer_global_seq v)
  (v1_auth_retry v).
Definition set_v1_peer_global_seq (x : Z) (v : con_v1_info) : con_v1_info := ConV1 (v1_connect_seq v) x
  (v1_auth_retry v).
Definition set_v1_auth_retry (x : Z) (v : con_v1_info) : con_v1_info := ConV1 (v1_connect_seq v)
  (v1_peer_global_seq v) x.

(** [struct ceph_connection_v2_info], as far as sessions go; [v2_skipping]: a message is being
    skipped ([IN_S_FINISH_SKIP]). *)
Record con_v2_info := ConV2 {
  v2_client_cookie : Z;
  v2_server_cookie : Z;
  v2_global_seq : Z;
  v2_connect_seq : Z;
  v2_peer_global_seq : Z;
  v2_skipping : bool;
}.
Definition set_v2_client_cookie (x : Z) (v : con_v2_info) : con_v2_info := ConV2 x (v2_server_cookie v)
  (v2_global_seq v) (v2_connect_seq v) (v2_peer_global_seq v) (v2_skipping v).
Definition set_v2_server_cookie (x : Z) (v : con_v2_info) : con_v2_info := ConV2 (v2_client_cookie v) x
  (v2_global_seq v) (v2_connect_seq v) (v2_peer_global_seq v) (v2_skipping v).
Definition set_v2_global_seq (x : Z) (v : con_v2_info) : con_v2_info := ConV2 (v2_client_cookie v)
  (v2_server_cookie v) x (v2_connect_seq v) (v2_peer_global_seq v) (v2_skipping v).
Definition set_v2_connect_seq (x : Z) (v : con_v2_info) : con_v2_info := ConV2 (v2_client_cookie v)
  (v2_server_cookie v) (v2_global_seq v) x (v2_peer_global_seq v) (v2_skipping v).
Definition set_v2_peer_global_seq (x : Z) (v : con_v2_info) : con_v2_info := ConV2 (v2_client_cookie v)
  (v2_server_cookie v) (v2_global_seq v) (v2_connect_seq v) x (v2_skipping v).
Definition set_v2_skipping (x : bool) (v : con_v2_info) : con_v2_info := ConV2 (v2_client_cookie v)
  (v2_server_cookie v) (v2_global_seq v) (v2_connect_seq v) (v2_peer_global_seq v) x.

(** A connection.  [con_msgr2]: the protocol of its messenger; [con_alive]: a reference to it can
    be had; [con_work]: the delay of its queued work; [con_global_seq]: the counter of its
    messenger; [con_frames], [con_calls]: what it has sent and whom it has called, newest last. *)
Record ceph_connection := Con {
  con_msgr2 : bool;
  con_alive : bool;
  con_state : Z;
  con_sock_state : Z;
  con_sock : bool;
  con_flags_ : con_flags;
  con_q : con_queues;
  con_delay : Z;
  con_work : option Z;
  con_global_seq : Z;
  con_v1 : con_v1_info;
  con_v2 : con_v2_info;
  con_frames : list frame;
  con_calls : list op_call;
}.
Definition set_con_msgr2 (x : bool) (c : ceph_connection) : ceph_connection := Con x (con_alive c) (con_state c)
  (con_sock_state c) (con_sock c) (con_flags_ c) (con_q c) (con_delay c) (con_work c) (con_global_seq c) (con_v1
  c) (con_v2 c) (con_frames c) (con_calls c).
Definition set_con_alive (x : bool) (c : ceph_connection) : ceph_connection := Con (con_msgr2 c) x (con_state c)
  (con_sock_state c) (con_sock c) (con_flags_ c) (con_q c) (con_delay c) (con_work c) (con_global_seq c) (con_v1
  c) (con_v2 c) (con_frames c) (con_calls c).
Definition set_con_state (x : Z) (c : ceph_connection) : ceph_connection := Con (con_msgr2 c) (con_alive c) x
  (con_sock_state c) (con_sock c) (con_flags_ c) (con_q c) (con_delay c) (con_work c) (con_global_seq c) (con_v1
  c) (con_v2 c) (con_frames c) (con_calls c).
Definition set_con_sock_state (x : Z) (c : ceph_connection) : ceph_connection := Con (con_msgr2 c) (con_alive c)
  (con_state c) x (con_sock c) (con_flags_ c) (con_q c) (con_delay c) (con_work c) (con_global_seq c) (con_v1 c)
  (con_v2 c) (con_frames c) (con_calls c).
Definition set_con_sock (x : bool) (c : ceph_connection) : ceph_connection := Con (con_msgr2 c) (con_alive c)
  (con_state c) (con_sock_state c) x (con_flags_ c) (con_q c) (con_delay c) (con_work c) (con_global_seq c)
  (con_v1 c) (con_v2 c) (con_frames c) (con_calls c).
Definition set_con_flags_ (x : con_flags) (c : ceph_connection) : ceph_connection := Con (con_msgr2 c)
  (con_alive c) (con_state c) (con_sock_state c) (con_sock c) x (con_q c) (con_delay c) (con_work c)
  (con_global_seq c) (con_v1 c) (con_v2 c) (con_frames c) (con_calls c).
Definition set_con_q (x : con_queues) (c : ceph_connection) : ceph_connection := Con (con_msgr2 c) (con_alive c)
  (con_state c) (con_sock_state c) (con_sock c) (con_flags_ c) x (con_delay c) (con_work c) (con_global_seq c)
  (con_v1 c) (con_v2 c) (con_frames c) (con_calls c).
Definition set_con_delay (x : Z) (c : ceph_connection) : ceph_connection := Con (con_msgr2 c) (con_alive c)
  (con_state c) (con_sock_state c) (con_sock c) (con_flags_ c) (con_q c) x (con_work c) (con_global_seq c)
  (con_v1 c) (con_v2 c) (con_frames c) (con_calls c).
Definition set_con_work (x : option Z) (c : ceph_connection) : ceph_connection := Con (con_msgr2 c) (con_alive
  c) (con_state c) (con_sock_state c) (con_sock c) (con_flags_ c) (con_q c) (con_delay c) x (con_global_seq c)
  (con_v1 c) (con_v2 c) (con_frames c) (con_calls c).
Definition set_con_global_seq (x : Z) (c : ceph_connection) : ceph_connection := Con (con_msgr2 c) (con_alive c)
  (con_state c) (con_sock_state c) (con_sock c) (con_flags_ c) (con_q c) (con_delay c) (con_work c) x (con_v1 c)
  (con_v2 c) (con_frames c) (con_calls c).
Definition set_con_v1 (x : con_v1_info) (c : ceph_connection) : ceph_connection := Con (con_msgr2 c) (con_alive
  c) (con_state c) (con_sock_state c) (con_sock c) (con_flags_ c) (con_q c) (con_delay c) (con_work c)
  (con_global_seq c) x (con_v2 c) (con_frames c) (con_calls c).
Definition set_con_v2 (x : con_v2_info) (c : ceph_connection) : ceph_connection := Con (con_msgr2 c) (con_alive
  c) (con_state c) (con_sock_state c) (con_sock c) (con_flags_ c) (con_q c) (con_delay c) (con_work c)
  (con_global_seq c) (con_v1 c) x (con_frames c) (con_calls c).
Definition set_con_frames (x : list frame) (c : ceph_connection) : ceph_connection := Con (con_msgr2 c)
  (con_alive c) (con_state c) (con_sock_state c) (con_sock c) (con_flags_ c) (con_q c) (con_delay c) (con_work c)
  (con_global_seq c) (con_v1 c) (con_v2 c) x (con_calls c).
Definition set_con_calls (x : list op_call) (c : ceph_connection) : ceph_connection := Con (con_msgr2 c)
  (con_alive c) (con_state c) (con_sock_state c) (con_sock c) (con_flags_ c) (con_q c) (con_delay c) (con_work c)
  (con_global_seq c) (con_v1 c) (con_v2 c) (con_frames c) x.


Definition CON (A : Type) : Type := ST ceph_connection A.

Definition on_flags (g : con_flags → con_flags) : CON unit := st_modify (λ c, set_con_flags_ (g (con_flags_ c)) c).
Definition on_q (g : con_queues → con_queues) : CON unit := st_modify (λ c, set_con_q (g (con_q c)) c).
Definition on_v1 (g : con_v1_info → con_v1_info) : CON unit := st_modify (λ c, set_con_v1 (g (con_v1 c)) c).
Definition on_v2 (g : con_v2_info → con_v2_info) : CON unit := st_modify (λ c, set_con_v2 (g (con_v2 c)) c).
Definition set_state (s : Z) : CON unit := st_modify (set_con_state s).
Definition emit (f : frame) : CON unit := st_modify (λ c, set_con_frames (con_frames c ++ [f]) c).
(** A frame is put together and there is something to write. *)
Definition emit_now (f : frame) : CON unit := _ ← emit f; on_flags (set_f_write_pending true).
Definition call (o : op_call) : CON unit := st_modify (λ c, set_con_calls (con_calls c ++ [o]) c).
Definition con_require (b : bool) : CON unit := st_lift (require b).

(** ** The socket's state *)
Definition con_sock_state_init : CON unit := st_modify (set_con_sock_state CON_SOCK_STATE_CLOSED).
Definition con_sock_state_connecting : CON unit := st_modify (set_con_sock_state CON_SOCK_STATE_CONNECTING).
Definition con_sock_state_connected : CON unit := st_modify (set_con_sock_state CON_SOCK_STATE_CONNECTED).
Definition con_sock_state_closing : CON unit := st_modify (set_con_sock_state CON_SOCK_STATE_CLOSING).
Definition con_sock_state_closed : CON unit := st_modify (set_con_sock_state CON_SOCK_STATE_CLOSED).

(** * Work *)
Section work.
Context (HZ : Z) (round_jiffies_relative : Z → Z).

Definition BASE_DELAY_INTERVAL : Z := HZ / 4.
Definition MAX_DELAY_INTERVAL : Z := 15 * HZ.

Definition queue_con_delay (delay : Z) : CON Z :=
  c ← st_get;
  if negb (con_alive c) then mret (- ENOENT)
  else
    let delay := if HZ <=? delay then round_jiffies_relative delay else delay in
    match con_work c with
    | Some _ => _ ← call OP_PUT; mret (- EBUSY)
    | None => _ ← st_modify (set_con_work (Some delay)); mret 0
    end.

Definition queue_con : CON unit := _ ← queue_con_delay 0; mret tt.

Definition cancel_con : CON unit :=
  c ← st_get;
  match con_work c with
  | Some _ => _ ← st_modify (set_con_work None); call OP_PUT
  | None => mret tt
  end.

(** ** Socket callbacks *)
Definition TCP_ESTABLISHED : Z := 1.
Definition TCP_CLOSE : Z := 7.
Definition TCP_CLOSE_WAIT : Z := 8.

Definition ceph_sock_data_ready (stopping : bool) (sk_state : Z) : CON unit :=
  if stopping then mret tt else st_when (negb (sk_state =? TCP_CLOSE_WAIT)) queue_con.

Definition ceph_sock_write_space (writeable : bool) : CON unit :=
  c ← st_get; st_when (f_write_pending (con_flags_ c) && writeable) queue_con.

Definition ceph_sock_state_change (sk_state : Z) : CON unit :=
  if (sk_state =? TCP_CLOSE) || (sk_state =? TCP_CLOSE_WAIT) then
    _ ← con_sock_state_closing;
    _ ← on_flags (set_f_sock_closed true);
    queue_con
  else if sk_state =? TCP_ESTABLISHED then
    _ ← con_sock_state_connected;
    queue_con
  else mret tt.

(** [err]: the error of making or connecting the socket, 0 if none ([-EINPROGRESS] is none). *)
Definition ceph_tcp_connect (made : bool) (err : Z) : CON Z :=
  c ← st_get;
  _ ← con_require (negb (con_sock c));
  if negb made then mret err
  else
    _ ← con_sock_state_connecting;
    if err <? 0 then mret err
    else _ ← st_modify (set_con_sock true); mret 0.

Definition ceph_con_close_socket : CON unit :=
  _ ← st_modify (set_con_sock false);
  _ ← on_flags (set_f_sock_closed false);
  con_sock_state_closed.

(** * Sessions *)
Definition ceph_con_reset_protocol : CON unit :=
  _ ← ceph_con_close_socket;
  on_q (λ q, set_in_msg None (set_out_msg None q)).

Definition ceph_con_v1_reset_session : CON unit :=
  on_v1 (λ v, set_v1_connect_seq 0 (set_v1_peer_global_seq 0 v)).
Definition ceph_con_v2_reset_session : CON unit :=
  on_v2 (λ v, set_v2_client_cookie 0 (set_v2_server_cookie 0 (set_v2_global_seq 0
                (set_v2_connect_seq 0 (set_v2_peer_global_seq 0 v))))).

Definition ceph_con_reset_session : CON unit :=
  _ ← on_q (λ q, set_out_queue [] (set_out_sent [] q));
  _ ← on_q (λ q, set_out_seq 0 (set_in_seq 0 (set_in_seq_acked 0 q)));
  c ← st_get;
  if con_msgr2 c then ceph_con_v2_reset_session else ceph_con_v1_reset_session.

Definition ceph_con_close : CON unit :=
  _ ← set_state CEPH_CON_S_CLOSED;
  _ ← on_flags (λ f, set_f_lossytx false (set_f_keepalive_pending false (set_f_write_pending false
                       (set_f_backoff false f))));
  _ ← ceph_con_reset_protocol;
  _ ← ceph_con_reset_session;
  cancel_con.

Definition ceph_con_open : CON unit :=
  _ ← set_state CEPH_CON_S_PREOPEN;
  _ ← st_modify (set_con_delay 0);
  queue_con.

Definition ceph_con_opened (c : ceph_connection) : bool :=
  if con_msgr2 c then nonzero (v2_peer_global_seq (con_v2 c)) else nonzero (v1_connect_seq (con_v1 c)).

Definition ceph_con_init (msgr2 : bool) (global_seq : Z) : ceph_connection :=
  Con msgr2 true CEPH_CON_S_CLOSED CON_SOCK_STATE_CLOSED false (ConFlags false false false false false)
    (ConQueues [] [] 0 0 0 None None) 0 None global_seq (ConV1 0 0 0) (ConV2 0 0 0 0 0 false) [] [].

Definition ceph_get_global_seq (gt : Z) : CON Z :=
  c ← st_get;
  let seq := if con_global_seq c <? gt then gt else con_global_seq c in
  let ret := u32 (seq + 1) in
  _ ← st_modify (set_con_global_seq ret);
  mret ret.

(** ** Acknowledgement *)

(** Drop the messages from the front of a queue up to a sequence number. *)
Fixpoint discard_acked (ack_seq : Z) (l : list qmsg) : list qmsg :=
  match l with
  | [] => []
  | m :: l' => if ack_seq <? q_seq m then l else discard_acked ack_seq l'
  end.
Definition ceph_con_discard_sent (ack_seq : Z) : CON unit :=
  on_q (λ q, set_out_sent (discard_acked ack_seq (out_sent q)) q).

Fixpoint discard_requeued (reconnect_seq : Z) (l : list qmsg) : list qmsg :=
  match l with
  | [] => []
  | m :: l' =>
      if q_needs_out_seq m then l
      else if reconnect_seq <? q_seq m then l else discard_requeued reconnect_seq l'
  end.
Definition ceph_con_discard_requeued (reconnect_seq : Z) : CON unit :=
  on_q (λ q, set_out_queue (discard_requeued reconnect_seq (out_queue q)) q).

(** * Messages that come in *)
Definition ceph_con_process_message (unlocked : CON unit) : CON unit :=
  c ← st_get;
  m ← st_lift (deref (in_msg (con_q c)));
  _ ← on_q (set_in_msg None);
  _ ← on_q (λ q, set_in_seq (u64 (in_seq q + 1)) q);
  _ ← call (OP_DISPATCH m);
  unlocked.

(** [msg], [skip]: the answer of [alloc_msg]; [middle_ok]: no middle is needed, or it is there or can
    be had.  Returns an error or 0, and whether to skip. *)
Definition ceph_con_in_msg_alloc (msg : option Z) (skip middle_ok : bool) (unlocked : CON unit) : CON (Z * bool) :=
  c ← st_get;
  _ ← con_require (negb (bool_decide (is_Some (in_msg (con_q c)))));
  _ ← unlocked;
  c ← st_get;
  if negb (con_state c =? CEPH_CON_S_OPEN) then mret (- EAGAIN, skip)
  else
    match msg with
    | Some m =>
        _ ← con_require (negb skip);
        _ ← on_q (set_in_msg (Some m));
        if middle_ok : bool then mret (0, skip)
        else _ ← on_q (set_in_msg None); mret (- ENOMEM, skip)
    | None => mret (if skip : bool then (0, skip) else (- ENOMEM, skip))
    end.

(** * Faults *)
Definition con_sock_closed : CON bool :=
  c ← st_get;
  let closed := f_sock_closed (con_flags_ c) in
  _ ← on_flags (set_f_sock_closed false);
  mret closed.

Definition con_backoff : CON bool :=
  c ← st_get;
  let backoff := f_backoff (con_flags_ c) in
  _ ← on_flags (set_f_backoff false);
  if negb backoff then mret false
  else
    ret ← queue_con_delay (con_delay c);
    _ ← st_when (nonzero ret)
          (_ ← con_require (negb (ret =? - ENOENT));
           on_flags (set_f_backoff true));
    mret true.

Definition next_delay (delay : Z) : Z :=
  if delay =? 0 then BASE_DELAY_INTERVAL
  else if delay <? MAX_DELAY_INTERVAL then Z.min (delay * 2) MAX_DELAY_INTERVAL
  else delay.

Definition con_fault : CON unit :=
  _ ← ceph_con_reset_protocol;
  c ← st_get;
  if f_lossytx (con_flags_ c) then set_state CEPH_CON_S_CLOSED
  else
    _ ← on_q (λ q, set_out_queue (out_sent q ++ out_queue q) (set_out_sent [] q));
    c ← st_get;
    if (Z.of_nat (length (out_queue (con_q c))) =? 0) && negb (f_keepalive_pending (con_flags_ c)) then
      _ ← on_flags (set_f_write_pending false);
      set_state CEPH_CON_S_STANDBY
    else
      _ ← set_state CEPH_CON_S_PREOPEN;
      _ ← st_modify (λ c, set_con_delay (next_delay (con_delay c)) c);
      _ ← on_flags (set_f_backoff true);
      queue_con.

Definition con_fault_finish : CON unit :=
  c ← st_get;
  _ ← st_when (nonzero (v1_auth_retry (con_v1 c)))
        (_ ← call OP_INVALIDATE_AUTHORIZER; on_v1 (set_v1_auth_retry 0));
  call OP_FAULT.

(** ** The work function, of the reader and the writer of the protocol *)
Definition work_body (try_read try_write : CON Z) : CON (unit + bool) :=
  closed ← con_sock_closed;
  if closed : bool then mret (inr true)
  else
    backoff ← con_backoff;
    if backoff : bool then mret (inr false)
    else
      c ← st_get;
      if con_state c =? CEPH_CON_S_STANDBY then mret (inr false)
      else if con_state c =? CEPH_CON_S_CLOSED then
        _ ← con_require (negb (con_sock c)); mret (inr false)
      else
        _ ← (if con_state c =? CEPH_CON_S_PREOPEN then con_require (negb (con_sock c)) else mret tt);
        ret ← try_read;
        if ret <? 0 then mret (if ret =? - EAGAIN then inl tt else inr true)
        else
          ret ← try_write;
          mret (if ret <? 0 then (if ret =? - EAGAIN then inl tt else inr true) else inr false).

Fixpoint work_loop (fuel : nat) (try_read try_write : CON Z) : CON bool :=
  match fuel with
  | O => λ _, NoFuel
  | S fuel =>
      o ← work_body try_read try_write;
      match o with inl _ => work_loop fuel try_read try_write | inr fault => mret fault end
  end.

(** The work queue takes the work off before it calls the function. *)
Definition ceph_con_workfn (fuel : nat) (try_read try_write : CON Z) : CON unit :=
  _ ← st_modify (set_con_work None);
  fault ← work_loop fuel try_read try_write;
  _ ← st_when fault con_fault;
  _ ← st_when fault con_fault_finish;
  call OP_PUT.

(** * Messages that go out *)
Definition clear_standby : CON unit :=
  c ← st_get;
  st_when (con_state c =? CEPH_CON_S_STANDBY)
    (_ ← set_state CEPH_CON_S_PREOPEN;
     on_v1 (λ v, set_v1_connect_seq (u32 (v1_connect_seq v + 1)) v)).

Definition linked (m : Z) (q : con_queues) : bool := existsb (λ e, q_msg e =? m) (out_queue q ++ out_sent q).

(** [test_and_set] of [WRITE_PENDING] and the work that follows. *)
Definition kick_writer : CON unit :=
  c ← st_get;
  _ ← on_flags (set_f_write_pending true);
  st_when (negb (f_write_pending (con_flags_ c))) queue_con.

Definition ceph_con_send (m : Z) : CON unit :=
  c ← st_get;
  if con_state c =? CEPH_CON_S_CLOSED then mret tt
  else
    _ ← con_require (negb (linked m (con_q c)));
    _ ← on_q (λ q, set_out_queue (out_queue q ++ [QMsg m true 0]) q);
    _ ← clear_standby;
    kick_writer.

Definition unlink_msg (m : Z) (l : list qmsg) : list qmsg := filter (λ e, q_msg e ≠ m) l.

(** The bytes of a message being sent are replaced by zeros below this model. *)
Definition ceph_msg_revoke (m : Z) : CON unit :=
  c ← st_get;
  if negb (linked m (con_q c)) then mret tt
  else
    _ ← on_q (λ q, set_out_queue (unlink_msg m (out_queue q)) (set_out_sent (unlink_msg m (out_sent q)) q));
    st_when (bool_decide (out_msg (con_q c) = Some m)) (on_q (set_out_msg None)).

(** Version 1 counts the message as received at once, version 2 when the rest of it has been
    skipped. *)
Definition ceph_msg_revoke_incoming (m : Z) : CON unit :=
  c ← st_get;
  st_when (bool_decide (in_msg (con_q c) = Some m))
    (_ ← (if con_msgr2 c then on_v2 (set_v2_skipping true)
          else on_q (λ q, set_in_seq (u64 (in_seq q + 1)) q));
     on_q (set_in_msg None)).

Definition ceph_con_keepalive : CON unit :=
  _ ← clear_standby;
  _ ← on_flags (set_f_keepalive_pending true);
  kick_writer.

Definition ceph_con_get_out_msg : CON qmsg :=
  c ← st_get;
  m ← st_lift (deref (head (out_queue (con_q c))));
  let fresh := q_needs_out_seq m in
  let seq := u64 (out_seq (con_q c) + 1) in
  let m' := if fresh then QMsg (q_msg m) false seq else m in
  _ ← on_q (λ q, set_out_queue (tail (out_queue q)) (set_out_sent (out_sent q ++ [m']) q));
  _ ← st_when fresh (_ ← on_q (set_out_seq seq); call (OP_REENCODE (q_msg m)));
  _ ← on_q (set_out_msg (Some (q_msg m)));
  mret m'.
End work.

(** * Version 2 *)

(** [cookie]: the random bytes drawn, not all zero. *)
Definition prepare_client_ident (cookie : Z) : CON unit :=
  c ← st_get;
  _ ← st_when (v2_client_cookie (con_v2 c) =? 0) (on_v2 (set_v2_client_cookie cookie));
  c ← st_get;
  emit_now (F_CLIENT_IDENT (v2_global_seq (con_v2 c)) (v2_client_cookie (con_v2 c))).

Definition prepare_session_reconnect : CON unit :=
  c ← st_get;
  let v := con_v2 c in
  emit_now (F_SESSION_RECONNECT (v2_client_cookie v) (v2_server_cookie v) (v2_global_seq v) (v2_connect_seq v)
          (in_seq (con_q c))).

(** The start of [ceph_con_v2_try_write]; the banners, the hello and the authentication follow. *)
Definition v2_connect (made : bool) (err : Z) : CON Z :=
  c ← st_get;
  if negb (con_state c =? CEPH_CON_S_PREOPEN) then mret 0
  else
    seq ← ceph_get_global_seq 0;
    _ ← on_v2 (set_v2_global_seq seq);
    _ ← st_when (nonzero (v2_server_cookie (con_v2 c)))
          (on_v2 (λ v, set_v2_connect_seq (u64 (v2_connect_seq v + 1)) v));
    _ ← set_state CEPH_CON_S_V2_BANNER_PREFIX;
    _ ← on_v2 (set_v2_skipping false);
    _ ← on_flags (set_f_write_pending true);
    ceph_tcp_connect made err.

(** The end of [process_auth_signature]. *)
Definition v2_authenticated (cookie : Z) : CON Z :=
  c ← st_get;
  if negb (con_state c =? CEPH_CON_S_V2_AUTH_SIGNATURE) then mret (- EINVAL)
  else
    _ ← (if v2_server_cookie (con_v2 c) =? 0 then
           _ ← prepare_client_ident cookie; set_state CEPH_CON_S_V2_SESSION_CONNECT
         else
           _ ← prepare_session_reconnect; set_state CEPH_CON_S_V2_SESSION_RECONNECT);
    mret 0.

(** [who_ok]: the address and the features are those wanted. *)
Definition process_server_ident (who_ok : bool) (global_seq cookie : Z) (lossy : bool) : CON Z :=
  c ← st_get;
  if negb (con_state c =? CEPH_CON_S_V2_SESSION_CONNECT) then mret (- EINVAL)
  else if negb who_ok then mret (- EINVAL)
  else
    _ ← on_v2 (set_v2_peer_global_seq global_seq);
    _ ← on_v2 (set_v2_server_cookie cookie);
    _ ← st_when lossy (on_flags (set_f_lossytx true));
    _ ← st_modify (set_con_delay 0);
    _ ← set_state CEPH_CON_S_OPEN;
    mret 0.

Definition process_session_reconnect_ok (seq : Z) : CON Z :=
  c ← st_get;
  if negb (con_state c =? CEPH_CON_S_V2_SESSION_RECONNECT) then mret (- EINVAL)
  else
    _ ← ceph_con_discard_requeued seq;
    _ ← st_modify (set_con_delay 0);
    _ ← set_state CEPH_CON_S_OPEN;
    mret 0.

Definition process_session_retry (connect_seq : Z) : CON Z :=
  c ← st_get;
  if negb (con_state c =? CEPH_CON_S_V2_SESSION_RECONNECT) then mret (- EINVAL)
  else
    _ ← on_v2 (set_v2_connect_seq (u64 (connect_seq + 1)));
    _ ← prepare_session_reconnect;
    mret 0.

(** The counter has 32 bits. *)
Definition process_session_retry_global (global_seq : Z) : CON Z :=
  c ← st_get;
  if negb (con_state c =? CEPH_CON_S_V2_SESSION_RECONNECT) then mret (- EINVAL)
  else
    seq ← ceph_get_global_seq (u32 global_seq);
    _ ← on_v2 (set_v2_global_seq seq);
    _ ← prepare_session_reconnect;
    mret 0.

Definition process_session_reset (full : bool) (cookie : Z) (unlocked : CON unit) : CON Z :=
  c ← st_get;
  if negb (con_state c =? CEPH_CON_S_V2_SESSION_RECONNECT) then mret (- EINVAL)
  else if negb full then mret (- EINVAL)
  else
    _ ← ceph_con_reset_session;
    _ ← call OP_PEER_RESET;
    _ ← unlocked;
    c ← st_get;
    if negb (con_state c =? CEPH_CON_S_V2_SESSION_RECONNECT) then mret (- EAGAIN)
    else
      _ ← prepare_client_ident cookie;
      _ ← set_state CEPH_CON_S_V2_SESSION_CONNECT;
      mret 0.

Definition process_ack (seq : Z) : CON Z :=
  c ← st_get;
  if negb (con_state c =? CEPH_CON_S_OPEN) then mret (- EINVAL)
  else _ ← ceph_con_discard_sent seq; mret 0.

(** Before, at or after the message that is due, as signed numbers. *)
Definition seq_ahead (seq due : Z) : Z := s64 (s64 seq - s64 due).

Definition process_message_header (seq ack_seq : Z) (msg : option Z) (skip middle_ok : bool) (unlocked : CON unit)
    : CON Z :=
  c ← st_get;
  if seq_ahead seq (in_seq (con_q c)) <? 1 then mret 0
  else if seq_ahead seq (in_seq (con_q c)) >? 1 then mret (- EBADE)
  else
    _ ← ceph_con_discard_sent ack_seq;
    '(ret, skip) ← ceph_con_in_msg_alloc msg skip middle_ok unlocked;
    mret (if nonzero ret then ret else if skip : bool then 0 else 1).

(** [__finish_skip], when the rest of the message has been drained. *)
Definition finish_skip : CON unit :=
  _ ← on_v2 (set_v2_skipping false);
  on_q (λ q, set_in_seq (u64 (in_seq q + 1)) q).

Definition process_message (unlocked : CON unit) : CON Z :=
  _ ← ceph_con_process_message unlocked;
  c ← st_get;
  mret (if negb (con_state c =? CEPH_CON_S_OPEN) then - EAGAIN else 0).

(** [__handle_control] of a message and what follows until its last byte has been read.
    [unlocked]: while a message is allocated, and while it is dispatched. *)
Definition v2_read_message (seq ack_seq : Z) (msg : option Z) (skip middle_ok : bool)
    (unlocked unlocked' : CON unit) : CON Z :=
  ret ← process_message_header seq ack_seq msg skip middle_ok unlocked;
  if ret <? 0 then mret ret
  else if ret =? 0 then _ ← finish_skip; mret 0
  else process_message unlocked'.

(** [finish_message] and the rest of [populate_out_iter]; whether there is something to send. *)
Definition finish_message : CON unit := on_q (set_out_msg None).

Definition prepare_keepalive2 : CON unit := emit_now F_KEEPALIVE.
Definition prepare_ack : CON unit :=
  _ ← on_q (λ q, set_in_seq_acked (in_seq q) q);
  c ← st_get;
  emit_now (F_ACK (in_seq_acked (con_q c))).
Definition prepare_message (m : qmsg) : CON unit :=
  c ← st_get;
  _ ← st_when (in_seq (con_q c) >? in_seq_acked (con_q c)) (on_q (λ q, set_in_seq_acked (in_seq q) q));
  c ← st_get;
  emit_now (F_MESSAGE (q_msg m) (q_seq m) (in_seq_acked (con_q c))).

Definition populate_out_iter : CON bool :=
  c ← st_get;
  if negb (con_state c =? CEPH_CON_S_OPEN) then _ ← on_flags (set_f_write_pending false); mret false
  else
    _ ← st_when (bool_decide (is_Some (out_msg (con_q c)))) finish_message;
    let keepalive := f_keepalive_pending (con_flags_ c) in
    _ ← on_flags (set_f_keepalive_pending false);
    if keepalive then _ ← prepare_keepalive2; mret true
    else
      match out_queue (con_q c) with
      | _ :: _ => m ← ceph_con_get_out_msg; _ ← prepare_message m; mret true
      | [] =>
          if in_seq (con_q c) >? in_seq_acked (con_q c) then _ ← prepare_ack; mret true
          else _ ← on_flags (set_f_write_pending false); mret false
      end.

(** * Version 1 *)

Definition prepare_write_connect : CON unit :=
  seq ← ceph_get_global_seq 0;
  c ← st_get;
  emit_now (F_CONNECT (v1_connect_seq (con_v1 c)) seq).

Definition prepare_write_seq : CON unit :=
  _ ← on_q (λ q, set_in_seq_acked (in_seq q) q);
  c ← st_get;
  emit_now (F_SEQ (in_seq_acked (con_q c))).

Inductive connect_reply :=
  | TAG_FEATURES | TAG_BADPROTOVER | TAG_BADAUTHORIZER | TAG_RESETSESSION | TAG_RETRY_SESSION
  | TAG_RETRY_GLOBAL | TAG_SEQ | TAG_READY | TAG_WAIT | TAG_GARBAGE.

(** [process_connect] from the [switch] on.  [features_ok]: the server has the features that are
    required; [lossy], [connect_seq], [global_seq]: fields of the reply. *)
Definition process_connect (tag : connect_reply) (features_ok lossy : bool) (connect_seq global_seq : Z)
    (unlocked : CON unit) : CON Z :=
  match tag with
  | TAG_FEATURES | TAG_BADPROTOVER | TAG_WAIT | TAG_GARBAGE => mret (- 1)
  | TAG_BADAUTHORIZER =>
      _ ← on_v1 (λ v, set_v1_auth_retry (s32 (v1_auth_retry v + 1)) v);
      c ← st_get;
      if v1_auth_retry (con_v1 c) =? 2 then mret (- 1) else _ ← prepare_write_connect; mret 0
  | TAG_RESETSESSION =>
      _ ← ceph_con_reset_session;
      _ ← prepare_write_connect;
      _ ← call OP_PEER_RESET;
      _ ← unlocked;
      c ← st_get;
      mret (if con_state c =? CEPH_CON_S_V1_CONNECT_MSG then 0 else - EAGAIN)
  | TAG_RETRY_SESSION =>
      _ ← on_v1 (set_v1_connect_seq connect_seq);
      _ ← prepare_write_connect;
      mret 0
  | TAG_RETRY_GLOBAL =>
      _ ← ceph_get_global_seq global_seq;
      _ ← prepare_write_connect;
      mret 0
  | TAG_SEQ | TAG_READY =>
      if negb features_ok then mret (- 1)
      else
        _ ← set_state CEPH_CON_S_OPEN;
        _ ← on_v1 (λ v, set_v1_auth_retry 0 (set_v1_peer_global_seq global_seq
                          (set_v1_connect_seq (u32 (v1_connect_seq v + 1)) v)));
        _ ← st_when lossy (on_flags (set_f_lossytx true));
        _ ← st_modify (set_con_delay 0);
        _ ← match tag with TAG_SEQ => prepare_write_seq | _ => mret tt end;
        mret 0
  end.

(** [process_ack]: an acknowledgement, or the answer to the sequence number of the handshake. *)
Definition v1_process_ack (handshake : bool) (ack : Z) : CON unit :=
  if handshake then ceph_con_discard_requeued ack else ceph_con_discard_sent ack.

(** [read_partial_message] from the sequence number on and what [try_read] does next; [ok]: the
    lengths, checksums and the signature are right. *)
Definition v1_read_message (seq : Z) (msg : option Z) (skip middle_ok ok : bool) (unlocked unlocked' : CON unit)
    : CON Z :=
  c ← st_get;
  if seq_ahead seq (in_seq (con_q c)) <? 1 then mret 1
  else if seq_ahead seq (in_seq (con_q c)) >? 1 then mret (- EBADE)
  else
    '(ret, skip) ← ceph_con_in_msg_alloc msg skip middle_ok unlocked;
    if ret <? 0 then mret ret
    else if skip : bool then _ ← on_q (λ q, set_in_seq (u64 (in_seq q + 1)) q); mret 1
    else if negb ok then mret (- EBADMSG)
    else _ ← ceph_con_process_message unlocked'; mret 1.

(** [prepare_write_message], [prepare_write_ack] and [prepare_write_keepalive], with what
    [ceph_con_v1_try_write] does when a message is out. *)
Definition prepare_write_ack : CON unit :=
  _ ← on_q (λ q, set_in_seq_acked (in_seq q) q);
  c ← st_get;
  emit_now (F_ACK (in_seq_acked (con_q c))).

Definition prepare_write_keepalive : CON unit := emit_now F_KEEPALIVE.

Definition prepare_write_message : CON unit :=
  c ← st_get;
  _ ← st_when (in_seq (con_q c) >? in_seq_acked (con_q c))
        (_ ← on_q (λ q, set_in_seq_acked (in_seq q) q);
         c ← st_get;
         emit (F_ACK (in_seq_acked (con_q c))));
  m ← ceph_con_get_out_msg;
  emit_now (F_MESSAGE (q_msg m) (q_seq m) 0).

Definition v1_write_next : CON bool :=
  _ ← on_q (set_out_msg None);
  c ← st_get;
  let nothing := _ ← on_flags (set_f_write_pending false); mret false in
  if negb (con_state c =? CEPH_CON_S_OPEN) then nothing
  else
    let keepalive := f_keepalive_pending (con_flags_ c) in
    _ ← on_flags (set_f_keepalive_pending false);
    if keepalive then _ ← prepare_write_keepalive; mret true
    else
      match out_queue (con_q c) with
      | _ :: _ => _ ← prepare_write_message; mret true
      | [] => if in_seq (con_q c) >? in_seq_acked (con_q c) then _ ← prepare_write_ack; mret true else nothing
      end.

(** The start of [ceph_con_v1_try_write]; the banners follow. *)
Definition v1_connect (made : bool) (err : Z) : CON Z :=
  c ← st_get;
  if negb (con_state c =? CEPH_CON_S_PREOPEN) then mret 0
  else
    _ ← con_require (negb (con_sock c));
    _ ← set_state CEPH_CON_S_V1_BANNER;
    _ ← on_flags (set_f_write_pending true);
    _ ← con_require (negb (bool_decide (is_Some (in_msg (con_q c)))));
    ceph_tcp_connect made err.
