(* ===== verification/Peer.v ===== *)
(** The other end of a connection, a monitor or an OSD: no part of the program, so a parameter.  Its
    state is not known; what the protocol says about it is the class [PeerLaws].  [queue_peer] is one
    such end. *)

From S2P Require Import Prelude OsdMap State Connection.

(** * What the protocol says *)

(** What an end does: its owner gives it a message; it sends or reads a frame; a session is opened,
    in which it is told how many messages the connecting end has received ([None]: version 1 servers
    that do not ask). *)
Inductive peer_label :=
  | P_give (m : Z)
  | P_send (f : frame)
  | P_read (f : frame)
  | P_open (told : option Z).

(** The number that a frame acknowledges, and the messages among frames, with their numbers. *)
Definition ack_of (f : frame) : Z := match f with F_MESSAGE _ _ a | F_ACK a | F_SEQ a => a | _ => 0 end.
Definition messages (fs : list frame) : list (Z * Z) :=
  omap (λ f, match f with F_MESSAGE m s _ => Some (m, s) | _ => None end) fs.

(** [peer_given]: the messages its owner has given it; [peer_got]: those its owner has got from the
    connection; [peer_next]: how many of its messages come before the next one of the session;
    [peer_acked]: what it has been told is received. *)
Class Peer := {
  peer : Type;
  peer_start : peer;
  peer_step : peer → peer_label → peer → Prop;
  peer_given : peer → list Z;
  peer_got : peer → list Z;
  peer_next : peer → nat;
  peer_acked : peer → Z;
}.

(** An end of a lossless session that is kept.  Messages are numbered from 1 in the order they are
    given.  In a session they go out in that order, from the one after those the other end says it has
    received, or, if it does not say, from one that is not known to be received.  The next message in
    order that comes in goes to the owner, an old one is dropped.  No more is acknowledged than has
    come in.  It can always go on. *)
Class PeerLaws `{P : Peer} : Prop := {
  peer_start_law :
    peer_given peer_start = [] ∧ peer_got peer_start = [] ∧ peer_acked peer_start = 0;
  peer_give_law m p p' : peer_step p (P_give m) p' →
    peer_given p' = peer_given p ++ [m] ∧ peer_got p' = peer_got p ∧ peer_next p' = peer_next p ∧
    peer_acked p' = peer_acked p;
  peer_send_law f p p' : peer_step p (P_send f) p' →
    peer_given p' = peer_given p ∧ peer_got p' = peer_got p ∧ peer_acked p' = peer_acked p ∧
    0 <= ack_of f <= Z.of_nat (length (peer_got p)) ∧
    match f with
    | F_MESSAGE m seq _ => peer_given p !! peer_next p = Some m ∧ seq = Z.of_nat (peer_next p) + 1 ∧
                           peer_next p' = S (peer_next p)
    | F_ACK _ | F_KEEPALIVE => peer_next p' = peer_next p
    | _ => False
    end;
  peer_read_law f p p' : peer_step p (P_read f) p' →
    peer_given p' = peer_given p ∧ peer_next p' = peer_next p ∧
    0 <= peer_acked p' <= Z.max (peer_acked p) (ack_of f) ∧
    peer_got p' = match f with
                  | F_MESSAGE m seq _ => if seq =? Z.of_nat (length (peer_got p)) + 1 then peer_got p ++ [m] else peer_got p
                  | _ => peer_got p
                  end;
  peer_open_law told p p' : peer_step p (P_open told) p' →
    peer_given p' = peer_given p ∧ peer_got p' = peer_got p ∧ peer_acked p' = peer_acked p ∧
    match told with
    | Some n => Z.of_nat (peer_next p') = n
    | None => Z.of_nat (peer_next p') <= peer_acked p
    end;
  peer_can_send p : (peer_next p < length (peer_given p))%nat →
    ∃ m seq ack p', peer_step p (P_send (F_MESSAGE m seq ack)) p';
  peer_can_read f p : (∀ m seq ack, f = F_MESSAGE m seq ack → 0 <= seq <= Z.of_nat (length (peer_got p)) + 1) →
    ∃ p', peer_step p (P_read f) p';
  peer_can_open told p : (∀ n, told = Some n → 0 <= n <= Z.of_nat (length (peer_given p))) →
    ∃ p', peer_step p (P_open told) p';
}.

(** * An end that keeps what it has been given *)

Record queue_peer := QPeer { qp_given : list Z; qp_got : list Z; qp_next : nat; qp_acked : nat }.

Definition qp_run (l : peer_label) (p : queue_peer) : option queue_peer :=
  match l with
  | P_give m => Some (QPeer (qp_given p ++ [m]) (qp_got p) (qp_next p) (qp_acked p))
  | P_send f =>
      if (0 <=? ack_of f) && (ack_of f <=? Z.of_nat (length (qp_got p))) then
        match f with
        | F_MESSAGE m seq _ =>
            if bool_decide (qp_given p !! qp_next p = Some m) && (seq =? Z.of_nat (qp_next p) + 1)
            then Some (QPeer (qp_given p) (qp_got p) (S (qp_next p)) (qp_acked p)) else None
        | F_ACK _ | F_KEEPALIVE => Some p
        | _ => None
        end
      else None
  | P_read f =>
      let got := match f with
                 | F_MESSAGE m seq _ => if seq =? Z.of_nat (length (qp_got p)) + 1 then qp_got p ++ [m] else qp_got p
                 | _ => qp_got p
                 end in
      Some (QPeer (qp_given p) got (qp_next p) (Nat.max (qp_acked p) (Z.to_nat (ack_of f))))
  | P_open told =>
      let next := match told with Some n => if n <? 0 then None else Some (Z.to_nat n) | None => Some (qp_acked p) end in
      (λ next, QPeer (qp_given p) (qp_got p) next (qp_acked p)) <$> next
  end.

Definition queue_peer_end : Peer := {|
  peer := queue_peer;
  peer_start := QPeer [] [] 0 0;
  peer_step p l p' := qp_run l p = Some p';
  peer_given := qp_given;
  peer_got := qp_got;
  peer_next := qp_next;
  peer_acked p := Z.of_nat (qp_acked p);
|}.

#[export] Instance queue_peer_laws : PeerLaws (P := queue_peer_end).
Proof.
  constructor; cbn.
  - done.
  - by intros m p p' [= <-].
  - intros f p p' H. destruct (_ && _) eqn:E in H; [|done]. bool_to_prop.
    assert (0 <= ack_of f <= Z.of_nat (length (qp_got p))) as Ha by done.
    destruct f; try done; [|by injection H as <-..]. destruct (_ && _) eqn:E2 in H; [|done].
    injection H as <-. apply andb_true_iff in E2 as [E1 E2]. apply bool_decide_eq_true in E1. bool_to_prop. done.
  - intros f p p' [= <-]. cbn. split; [done|]. split; [done|]. split; [lia|done].
  - intros [n|] p p'; [|by intros [= <-]]. destruct (Z.ltb_spec n 0); [done|]. intros [= <-]. cbn.
    repeat split; lia.
  - intros p Hn. destruct (lookup_lt_is_Some_2 (qp_given p) (qp_next p)) as [m Hm]; [done|].
    exists m, (Z.of_nat (qp_next p) + 1), 0. rewrite (proj2 (Z.leb_le 0 (Z.of_nat _))) by lia.
    rewrite (bool_decide_true (_ = Some m)) by done. rewrite Z.eqb_refl. by eexists.
  - by eexists.
  - intros [n|] p H; [|by eexists]. destruct (Z.ltb_spec n 0); [|by eexists]. specialize (H n eq_refl). lia.
Qed.
