(* ===== verification/ConnNet.v ===== *)
(** A connection, its peer, what is between them and what can happen; the connection's queues as
    parts of what was submitted; and what its operations do to the part of its state that delivery
    depends on. *)

From S2P Require Import Prelude OsdMap State Connection Peer.

(** * What can happen *)

(** What the peer says to a request for a session.  Version 1 has the fields of the reply. *)
Inductive answer :=
  | A_IDENT (global_seq cookie : Z)
  | A_RECONNECT_OK (seq : Z)
  | A_RETRY (connect_seq : Z)
  | A_RETRY_GLOBAL (global_seq : Z)
  | A_V1 (tag : connect_reply) (connect_seq global_seq : Z).

(** What happens to the connection: its owner sends or revokes a message or wants a keepalive; it
    writes; it reads a frame; it has a fault; it connects, asks for a session, reads the answer. *)
Inductive con_event :=
  | E_SEND (m : Z)
  | E_REVOKE (m : Z)
  | E_KEEPALIVE
  | E_WRITE
  | E_READ
  | E_FAULT
  | E_CONNECT (made : bool) (err : Z)
  | E_ASK (cookie : Z)
  | E_ANSWER.

(** The messages whose dispatch a connection has called for. *)
Definition dispatched (c : ceph_connection) : list Z :=
  omap (λ o, match o with OP_DISPATCH m => Some m | _ => None end) (con_calls c).

(** What an operation has sent. *)
Definition new_frames (c c' : ceph_connection) : list frame := drop (length (con_frames c)) (con_frames c').

Section net.
Context (HZ : Z) (round_jiffies_relative : Z → Z) (msgr2 : bool) `{P : Peer}.

(** [n_out], [n_in]: the frames on their way to and from the peer; [n_ask], [n_answer]: the request for a session and
    the answer; [n_wait]: the peer of version 1 waits for the sequence number of the handshake;
    [n_subs]: the messages the connection was given, but for those revoked before they were sent. *)
Record net := Net {
  n_con : ceph_connection;
  n_peer : peer;
  n_out : list frame;
  n_in : list frame;
  n_ask : option frame;
  n_answer : option answer;
  n_wait : bool;
  n_subs : list Z;
}.
Implicit Types (s : net) (c : ceph_connection).

(** Reading a frame of a session, by an owner that takes every message.  [F_SEQ] follows the answer of
    version 1. *)
Definition read_frame (f : frame) : CON Z :=
  match f with
  | F_MESSAGE m seq ack_seq =>
      if msgr2 then v2_read_message seq ack_seq (Some m) false true (mret tt) (mret tt)
      else v1_read_message seq (Some m) false true true (mret tt) (mret tt)
  | F_ACK seq => if msgr2 then process_ack seq else _ ← v1_process_ack false seq; mret 0
  | F_SEQ seq => if msgr2 then mret 0 else _ ← v1_process_ack true seq; mret 0
  | _ => mret 0
  end.

Definition write_next : CON bool := if msgr2 then populate_out_iter else v1_write_next.

(** The banners, the hello and the authentication are not modelled. *)
Definition ask_session (cookie : Z) : CON Z :=
  if msgr2 then _ ← set_state CEPH_CON_S_V2_AUTH_SIGNATURE; v2_authenticated cookie
  else _ ← set_state CEPH_CON_S_V1_CONNECT_MSG; _ ← prepare_write_connect; mret 0.

(** The features and the address are those wanted, and the session is not lossy. *)
Definition process_answer (a : answer) : CON Z :=
  match a with
  | A_IDENT global_seq cookie => process_server_ident true global_seq cookie false
  | A_RECONNECT_OK seq => process_session_reconnect_ok seq
  | A_RETRY connect_seq => process_session_retry connect_seq
  | A_RETRY_GLOBAL global_seq => process_session_retry_global global_seq
  | A_V1 tag connect_seq global_seq => process_connect tag true false connect_seq global_seq (mret tt)
  end.

Definition con_op s (e : con_event) : CON Z :=
  match e with
  | E_SEND m => _ ← ceph_con_send HZ round_jiffies_relative m; mret 0
  | E_REVOKE m => _ ← ceph_msg_revoke m; mret 0
  | E_KEEPALIVE => _ ← ceph_con_keepalive HZ round_jiffies_relative; mret 0
  | E_WRITE => _ ← write_next; mret 0
  | E_READ => match n_in s with f :: _ => read_frame f | [] => mret 0 end
  | E_FAULT => _ ← con_fault HZ round_jiffies_relative; mret 0
  | E_CONNECT made err => if msgr2 then v2_connect made err else v1_connect made err
  | E_ASK cookie => ask_session cookie
  | E_ANSWER => match n_answer s with Some a => process_answer a | None => mret 0 end
  end.

(** When it can happen.  A message that is revoked has not been sent.  A fault is one of the socket, at any
    point of the handshake or of the session.  No end is given more than 2^62 messages. *)
Definition ready s (e : con_event) : Prop :=
  match e with
  | E_SEND m => (m ∉ n_subs s) ∧ Z.of_nat (length (n_subs s)) < 2 ^ 62
  | E_REVOKE m => QMsg m true 0 ∈ out_queue (con_q (n_con s))
  | E_KEEPALIVE | E_WRITE => True
  | E_READ => con_state (n_con s) = CEPH_CON_S_OPEN ∧ n_in s ≠ []
  | E_FAULT => con_state (n_con s) ≠ CEPH_CON_S_PREOPEN ∧ con_state (n_con s) ≠ CEPH_CON_S_STANDBY
  | E_CONNECT _ _ => con_state (n_con s) = CEPH_CON_S_PREOPEN
  | E_ASK cookie =>
      con_state (n_con s) = (if msgr2 then CEPH_CON_S_V2_BANNER_PREFIX else CEPH_CON_S_V1_BANNER) ∧
      con_sock (n_con s) = true ∧ cookie ≠ 0
  | E_ANSWER => n_answer s ≠ None
  end.

(** After it.  What is sent before the session is open is a request for one. *)
Definition after s (e : con_event) (c : ceph_connection) : net :=
  let fs := new_frames (n_con s) c in
  match e with
  | E_SEND m => Net c (n_peer s) (n_out s) (n_in s) (n_ask s) (n_answer s) (n_wait s) (n_subs s ++ [m])
  | E_REVOKE m => Net c (n_peer s) (n_out s) (n_in s) (n_ask s) (n_answer s) (n_wait s) (filter (.≠ m) (n_subs s))
  | E_KEEPALIVE | E_CONNECT _ _ => Net c (n_peer s) (n_out s) (n_in s) (n_ask s) (n_answer s) (n_wait s) (n_subs s)
  | E_WRITE => Net c (n_peer s) (n_out s ++ fs) (n_in s) (n_ask s) (n_answer s) (n_wait s) (n_subs s)
  | E_READ => Net c (n_peer s) (n_out s) (tail (n_in s)) (n_ask s) (n_answer s) (n_wait s) (n_subs s)
  | E_FAULT => Net c (n_peer s) (n_out s) (n_in s) None None (n_wait s) (n_subs s)
  | E_ASK _ => Net c (n_peer s) (n_out s) (n_in s) (last fs) None (n_wait s) (n_subs s)
  | E_ANSWER =>
      if con_state c =? CEPH_CON_S_OPEN
      then Net c (n_peer s) (n_out s ++ fs) (n_in s) None None (n_wait s) (n_subs s)
      else Net c (n_peer s) (n_out s) (n_in s) (last fs) None (n_wait s) (n_subs s)
  end.

(** The session a peer opens for a request, and what it is told by it. *)
Definition accepts (got : nat) (ask : frame) (a : answer) (told : option Z) : Prop :=
  match ask, a with
  | F_CLIENT_IDENT _ _, A_IDENT _ cookie => cookie ≠ 0 ∧ told = Some 0
  | F_SESSION_RECONNECT _ _ _ _ msg_seq, A_RECONNECT_OK seq => seq = Z.of_nat got ∧ told = Some msg_seq
  | F_CONNECT _ _, A_V1 TAG_READY _ _ => told = None
  | _, _ => False
  end.

(** An answer that refuses one, but for those that say that the peer has lost the session. *)
Definition refusal (a : answer) : bool :=
  match a with
  | A_RETRY _ | A_RETRY_GLOBAL _ => msgr2
  | A_V1 (TAG_FEATURES | TAG_BADPROTOVER | TAG_BADAUTHORIZER | TAG_RETRY_SESSION | TAG_RETRY_GLOBAL | TAG_WAIT | TAG_GARBAGE) _ _ =>
      negb msgr2
  | _ => false
  end.

(** A session that is opened has a socket of its own: what is on its way on the old one is lost then, and read
    until then. *)
Inductive step : net → net → Prop :=
  | step_con s e ret c' : ready s e → con_op s e (n_con s) = Ret (ret, c') → step s (after s e c')
  | step_give s m p' :
      Z.of_nat (length (peer_given (n_peer s))) < 2 ^ 62 → peer_step (n_peer s) (P_give m) p' →
      step s (Net (n_con s) p' (n_out s) (n_in s) (n_ask s) (n_answer s) (n_wait s) (n_subs s))
  | step_peer_send s f p' :
      n_wait s = false → peer_step (n_peer s) (P_send f) p' →
      step s (Net (n_con s) p' (n_out s) (n_in s ++ [f]) (n_ask s) (n_answer s) false (n_subs s))
  | step_peer_read s f fs p' :
      n_wait s = false → n_out s = f :: fs → peer_step (n_peer s) (P_read f) p' →
      step s (Net (n_con s) p' fs (n_in s) (n_ask s) (n_answer s) false (n_subs s))
  | step_told s n fs p' :
      n_wait s = true → n_out s = F_SEQ n :: fs → peer_step (n_peer s) (P_open (Some n)) p' →
      step s (Net (n_con s) p' fs (n_in s) (n_ask s) (n_answer s) false (n_subs s))
  | step_accept s ask a told p' :
      n_ask s = Some ask → accepts (length (peer_got (n_peer s))) ask a told → peer_step (n_peer s) (P_open told) p' →
      step s (Net (n_con s) p' [] [] None (Some a) false (n_subs s))
  | step_exchange s connect_seq global_seq connect_seq' global_seq' :
      n_ask s = Some (F_CONNECT connect_seq global_seq) →
      step s (Net (n_con s) (n_peer s) [] [F_SEQ (Z.of_nat (length (peer_got (n_peer s))))] None
                (Some (A_V1 TAG_SEQ connect_seq' global_seq')) true (n_subs s))
  | step_refuse s ask a :
      n_ask s = Some ask → refusal a = true →
      step s (Net (n_con s) (n_peer s) (n_out s) (n_in s) None (Some a) (n_wait s) (n_subs s)).

(** A new connection, opened. *)
Definition net_init : net :=
  Net (set_con_state CEPH_CON_S_PREOPEN (ceph_con_init msgr2 0)) peer_start [] [] None None false [].

Definition reachable : net → Prop := rtc step net_init.
End net.
Arguments net {P}.
Arguments Net {P}.

(** * Queues as parts of what was submitted *)

(** The message at a position: the first [o] have their numbers. *)
Definition entry (o p : nat) (m : Z) : qmsg :=
  if (p <? o)%nat then QMsg m false (Z.of_nat p + 1) else QMsg m true 0.

Fixpoint number (o p : nat) (l : list Z) : list qmsg :=
  match l with [] => [] | m :: l => entry o p m :: number o (S p) l end.

(** Messages with their numbers, from a position on. *)
Fixpoint seqs (p : nat) (l : list Z) : list (Z * Z) :=
  match l with [] => [] | m :: l => (m, Z.of_nat p + 1) :: seqs (S p) l end.

Section number.
Implicit Types (o p k a n : nat) (l : list Z).

Lemma length_number o p l : length (number o p l) = length l.
Proof. revert p. induction l as [|m l IH]; intros p; simpl; [done|]. by rewrite IH. Qed.

Lemma number_app o p l l' : number o p (l ++ l') = number o p l ++ number o (p + length l) l'.
Proof.
  revert p. induction l as [|m l IH]; intros p; simpl; [by rewrite Nat.add_0_r|].
  rewrite IH. do 3 f_equal. lia.
Qed.

Lemma number_more o o' p l : (p + length l ≤ o)%nat → (o ≤ o')%nat → number o p l = number o' p l.
Proof.
  revert p. induction l as [|m l IH]; intros p Hp Ho; simpl in *; [done|]. rewrite IH by lia. f_equal.
  unfold entry. by rewrite !(proj2 (Nat.ltb_lt _ _)) by lia.
Qed.
Lemma number_unnumbered o p p' l : (o ≤ p)%nat → (o ≤ p')%nat → number o p l = number o p' l.
Proof.
  revert p p'. induction l as [|m l IH]; intros p p' Hp Hp'; simpl; [done|]. rewrite (IH (S p) (S p')) by lia. f_equal.
  unfold entry. by rewrite !(proj2 (Nat.ltb_ge _ _)) by lia.
Qed.
Lemma number_msgs o p l : map q_msg (number o p l) = l.
Proof.
  revert p. induction l as [|m l IH]; intros p; simpl; [done|]. rewrite IH. f_equal. unfold entry. by destruct (_ <? _)%nat.
Qed.

Lemma seqs_app p l l' : seqs p (l ++ l') = seqs p l ++ seqs (p + length l) l'.
Proof.
  revert p. induction l as [|m l IH]; intros p; simpl; [by rewrite Nat.add_0_r|].
  rewrite IH. do 3 f_equal. lia.
Qed.

Lemma seqs_above p l m q : (m, q) ∈ seqs p l → Z.of_nat p < q.
Proof.
  revert p. induction l as [|x l IH]; intros p; simpl; [by intros ?%elem_of_nil|].
  intros [[= -> ->]|Hin%IH]%elem_of_cons; lia.
Qed.

Lemma length_seqs p l : length (seqs p l) = length l.
Proof. revert p. induction l as [|m l IH]; intros p; simpl; [done|]. by rewrite IH. Qed.

End number.

(** * What the operations do to the queues *)

(** The part of a connection that matters here. *)
Definition core (c : ceph_connection) : con_queues * Z * bool * bool * list frame * list Z * Z :=
  (con_q c, con_state c, con_sock c, f_lossytx (con_flags_ c), con_frames c, dispatched c, v2_server_cookie (con_v2 c)).

Section ops.
Context (HZ : Z) (round_jiffies_relative : Z → Z).
Implicit Types (c : ceph_connection).

Lemma dispatched_other c o : (∀ m, o ≠ OP_DISPATCH m) → dispatched (set_con_calls (con_calls c ++ [o]) c) = dispatched c.
Proof. intros Ho. unfold dispatched. simpl. rewrite omap_app. destruct o; simpl; try (by rewrite app_nil_r). by destruct (Ho msg). Qed.

Lemma queue_con_core c : wpst (queue_con HZ round_jiffies_relative) c (λ _ c', core c' = core c).
Proof.
  unfold queue_con, queue_con_delay. apply wpst_bind, wpst_bind, wpst_get.
  destruct (con_alive c); simpl; [|done]. destruct (con_work c); [|done].
  unfold wpst. simpl. unfold core. by rewrite dispatched_other.
Qed.

Lemma when_queue_con_core b c : wpst (st_when b (queue_con HZ round_jiffies_relative)) c (λ _ c', core c' = core c).
Proof. apply wpst_when; [intros _; apply queue_con_core|done]. Qed.

Lemma kick_writer_core c : wpst (kick_writer HZ round_jiffies_relative) c (λ _ c', core c' = core c).
Proof.
  unfold kick_writer. apply wpst_bind, wpst_get, wpst_bind, wpst_modify.
  eapply wpst_mono; [apply when_queue_con_core|]. intros [] c' ->. done.
Qed.

(** The state after the connection has been wanted again. *)
Definition awake (s : Z) : Z := if s =? CEPH_CON_S_STANDBY then CEPH_CON_S_PREOPEN else s.

Lemma clear_standby_core c : wpst clear_standby c (λ _ c', core c' = core (set_con_state (awake (con_state c)) c)).
Proof.
  unfold clear_standby, awake. apply wpst_bind, wpst_get. apply wpst_when; intros E; [|by rewrite E; destruct c].
  rewrite E. done.
Qed.

Lemma ceph_con_send_core m c :
  con_state c ≠ CEPH_CON_S_CLOSED → linked m (con_q c) = false →
  wpst (ceph_con_send HZ round_jiffies_relative m) c (λ _ c', core c' =
    core (set_con_state (awake (con_state c))
      (set_con_q (set_out_queue (out_queue (con_q c) ++ [QMsg m true 0]) (con_q c)) c))).
Proof.
  intros Hst Hl. unfold ceph_con_send. apply wpst_bind, wpst_get. rewrite (proj2 (Z.eqb_neq _ _)) by done.
  rewrite Hl. apply wpst_bind, wpst_lift. apply wp_require; [done|]. apply wpst_bind, wpst_modify, wpst_bind.
  eapply wpst_mono; [apply clear_standby_core|]. intros [] c1 H1.
  eapply wpst_mono; [apply kick_writer_core|]. intros [] c2 ->. by rewrite H1.
Qed.

Lemma ceph_con_keepalive_core c :
  wpst (ceph_con_keepalive HZ round_jiffies_relative) c (λ _ c', core c' = core (set_con_state (awake (con_state c)) c)).
Proof.
  unfold ceph_con_keepalive. apply wpst_bind. eapply wpst_mono; [apply clear_standby_core|]. intros [] c1 H1.
  apply wpst_bind, wpst_modify. eapply wpst_mono; [apply kick_writer_core|]. intros [] c2 ->. by rewrite <- H1.
Qed.

Lemma ceph_msg_revoke_core m c :
  linked m (con_q c) = true →
  wpst (ceph_msg_revoke m) c (λ _ c', ∃ om, core c' = core (set_con_q (set_out_msg om
    (set_out_queue (unlink_msg m (out_queue (con_q c))) (set_out_sent (unlink_msg m (out_sent (con_q c))) (con_q c)))) c)).
Proof.
  intros Hl. unfold ceph_msg_revoke. apply wpst_bind, wpst_get. rewrite Hl. apply wpst_bind, wpst_modify, wpst_when; intros _.
  - by exists None.
  - by exists (out_msg (con_q c)).
Qed.

(** A fault of a connection that is not lossy. *)
Lemma con_fault_core c :
  f_lossytx (con_flags_ c) = false →
  wpst (con_fault HZ round_jiffies_relative) c (λ _ c', ∃ s, (s = CEPH_CON_S_PREOPEN ∨ s = CEPH_CON_S_STANDBY) ∧
    core c' = core (set_con_sock false (set_con_state s (set_con_q (set_in_msg None (set_out_msg None
      (set_out_queue (out_sent (con_q c) ++ out_queue (con_q c)) (set_out_sent [] (con_q c))))) c)))).
Proof.
  intros Hl. unfold con_fault, ceph_con_reset_protocol, ceph_con_close_socket, con_sock_state_closed.
  apply wpst_bind, wpst_bind. apply wpst_bind, wpst_modify, wpst_bind, wpst_modify, wpst_modify, wpst_modify.
  apply wpst_bind, wpst_get. cbn. rewrite Hl. apply wpst_bind, wpst_modify, wpst_bind, wpst_get. cbn.
  destruct (_ && _).
  - apply wpst_bind, wpst_modify, wpst_modify. eexists. split; [by right|]. unfold core. cbn. by rewrite Hl.
  - apply wpst_bind, wpst_modify, wpst_bind, wpst_modify, wpst_bind, wpst_modify.
    eapply wpst_mono; [apply queue_con_core|]. intros [] c' ->. eexists. split; [by left|]. unfold core. cbn. by rewrite Hl.
Qed.

Lemma messages_app fs gs : messages (fs ++ gs) = messages fs ++ messages gs.
Proof. apply omap_app. Qed.

(** The message at the front of the queue as it goes out. *)
Definition sent_msg (q : con_queues) (x : qmsg) : qmsg :=
  if q_needs_out_seq x then QMsg (q_msg x) false (u64 (out_seq q + 1)) else x.

(** What a step of writing has taken off the queue. *)
Definition taken (q q' : con_queues) (open : bool) (ms : list (Z * Z)) : Prop :=
  in_seq q' = in_seq q ∧ in_msg q' = in_msg q ∧ 0 <= in_seq_acked q' <= in_seq q' ∧
  (out_queue q' = out_queue q ∧ out_sent q' = out_sent q ∧ out_seq q' = out_seq q ∧ ms = [] ∨
   open = true ∧ ∃ x rest, out_queue q = x :: rest ∧ out_queue q' = rest ∧ out_sent q' = out_sent q ++ [sent_msg q x] ∧
     out_seq q' = (if q_needs_out_seq x then u64 (out_seq q + 1) else out_seq q) ∧
     ms = [(q_msg x, q_seq (sent_msg q x))]).

Definition written c c' : Prop :=
  ∃ q' fs, core c' = core (set_con_frames (con_frames c ++ fs) (set_con_q q' c)) ∧
    Forall (λ f, 0 <= ack_of f <= in_seq (con_q c)) fs ∧
    (fs = [] ∨ (con_state c =? CEPH_CON_S_OPEN) = true) ∧
    taken (con_q c) q' (con_state c =? CEPH_CON_S_OPEN) (messages fs).

Ltac destruct_con c :=
  destruct c as [m2 al st sst sk [fl fk fw fc fb] [oq os osq isq ia im om] dl wk gs v1 [cc sc gs2 cs pg sk2] fr cl].
(** Run an operation whose tests are decided. *)
Ltac st_run :=
  cbn;
  repeat (lazymatch goal with
  | |- wpst (_ ≫= _) _ _ => apply wpst_bind
  | |- wpst st_get _ _ => apply wpst_get
  | |- wpst (st_modify _) _ _ => apply wpst_modify
  | |- wpst (mret _) _ _ => apply wpst_ret
  | |- wpst (st_lift (require true)) _ _ => apply wpst_lift
  | |- wpst (st_lift (deref (Some _))) _ _ => apply wpst_lift
  | |- wpst (st_when true _) _ _ => unfold st_when
  | |- wpst (st_when false _) _ _ => unfold st_when
  end; cbn).
(** Give the frames; the queues are computed. *)
Ltac written_as fs :=
  unfold written, taken; eexists _, fs; split;
  [unfold core, dispatched; simpl; rewrite ?omap_app; simpl; rewrite ?app_nil_r, <- ?app_assoc; reflexivity|];
  split; [repeat constructor; simpl; lia|]; split; [first [by left|by right|right; by apply Z.eqb_eq]|]; split; [done|]; split; [done|]; split; [simpl; lia|]; simpl.

Lemma populate_out_iter_core c :
  0 <= in_seq_acked (con_q c) <= in_seq (con_q c) → wpst populate_out_iter c (λ _ c', written c c').
Proof.
  intros Hack. destruct_con c. simpl in Hack.
  unfold populate_out_iter, finish_message, prepare_keepalive2, prepare_message, prepare_ack, ceph_con_get_out_msg,
    emit_now, on_flags, on_q, emit, call. st_run.
  destruct (st =? CEPH_CON_S_OPEN) eqn:Eo; st_run; [|written_as (@nil frame); by left].
  destruct (bool_decide (is_Some om)), fk; st_run; try (written_as [F_KEEPALIVE]; by left).
  all: destruct oq as [|[id fresh sq] rest]; st_run.
  all: try destruct fresh; st_run.
  all: destruct (isq >? ia) eqn:Ea; st_run; rewrite Z.gtb_ltb in Ea; bool_to_prop.
  all: try (written_as (@nil frame); by left).
  all: try (written_as [F_ACK isq]; by left).
  all: try (written_as [F_MESSAGE id (u64 (osq + 1)) isq]; right; split; [by rewrite Eo|]; eexists _, _; split; [reflexivity|]; done).
  all: try (written_as [F_MESSAGE id (u64 (osq + 1)) ia]; right; split; [by rewrite Eo|]; eexists _, _; split; [reflexivity|]; done).
  all: try (written_as [F_MESSAGE id sq isq]; right; split; [by rewrite Eo|]; eexists _, _; split; [reflexivity|]; done).
  all: try (written_as [F_MESSAGE id sq ia]; right; split; [by rewrite Eo|]; eexists _, _; split; [reflexivity|]; done).
Qed.

Lemma v1_write_next_core c :
  0 <= in_seq_acked (con_q c) <= in_seq (con_q c) → wpst v1_write_next c (λ _ c', written c c').
Proof.
  intros Hack. destruct_con c. simpl in Hack.
  unfold v1_write_next, prepare_write_keepalive, prepare_write_message, prepare_write_ack, ceph_con_get_out_msg,
    emit_now, on_flags, on_q, emit, call. st_run.
  destruct (st =? CEPH_CON_S_OPEN) eqn:Eo; st_run; [|written_as (@nil frame); by left].
  destruct fk; st_run; [written_as [F_KEEPALIVE]; by left|].
  destruct oq as [|[id fresh sq] rest]; st_run.
  all: try destruct fresh; st_run.
  all: destruct (isq >? ia) eqn:Ea; st_run; rewrite Z.gtb_ltb in Ea; bool_to_prop.
  all: try (written_as (@nil frame); by left).
  all: try (written_as [F_ACK isq]; by left).
  all: try (written_as [F_ACK isq; F_MESSAGE id (u64 (osq + 1)) 0]; right; split; [by rewrite Eo|]; eexists _, _; split; [reflexivity|]; done).
  all: try (written_as [F_MESSAGE id (u64 (osq + 1)) 0]; right; split; [by rewrite Eo|]; eexists _, _; split; [reflexivity|]; done).
  all: try (written_as [F_ACK isq; F_MESSAGE id sq 0]; right; split; [by rewrite Eo|]; eexists _, _; split; [reflexivity|]; done).
  all: try (written_as [F_MESSAGE id sq 0]; right; split; [by rewrite Eo|]; eexists _, _; split; [reflexivity|]; done).
Qed.

Lemma write_next_core (msgr2 : bool) c :
  0 <= in_seq_acked (con_q c) <= in_seq (con_q c) → wpst (write_next msgr2) c (λ _ c', written c c').
Proof. destruct msgr2; [apply populate_out_iter_core|apply v1_write_next_core]. Qed.

(** An open connection's writer takes the front of the queue, after a keepalive. *)
Lemma write_next_open (msgr2 : bool) c :
  con_state c = CEPH_CON_S_OPEN → wpst (write_next msgr2) c (λ _ c', con_state c' = CEPH_CON_S_OPEN ∧
    f_keepalive_pending (con_flags_ c') = false ∧ out_queue (con_q c') =
      if f_keepalive_pending (con_flags_ c) then out_queue (con_q c) else tail (out_queue (con_q c))).
Proof.
  intros Hst. destruct_con c. simpl in Hst. subst st. destruct msgr2.
  - unfold write_next, populate_out_iter, finish_message, prepare_keepalive2, prepare_message, prepare_ack,
      ceph_con_get_out_msg, emit_now, on_flags, on_q, emit, call. st_run.
    destruct (bool_decide (is_Some om)), fk; st_run; try done.
    all: destruct oq as [|[id [] sq] rest]; st_run; destruct (isq >? ia); by st_run.
  - unfold write_next, v1_write_next, prepare_write_keepalive, prepare_write_message, prepare_write_ack,
      ceph_con_get_out_msg, emit_now, on_flags, on_q, emit, call. st_run.
    destruct fk; st_run; [done|]. destruct oq as [|[id [] sq] rest]; st_run; destruct (isq >? ia); by st_run.
Qed.

Lemma seq_ahead_small a b : 0 <= a < 2 ^ 63 → 0 <= b < 2 ^ 63 → seq_ahead a b = a - b.
Proof. intros. unfold seq_ahead. by word_small. Qed.

(** A message is taken in: it is counted and dispatched. *)
Definition take_in (m : Z) c : ceph_connection :=
  set_con_calls (con_calls c ++ [OP_DISPATCH m])
    (set_con_q (set_in_msg None (set_in_seq (u64 (in_seq (con_q c) + 1)) (con_q c))) c).
Definition discarded (ack : Z) c : ceph_connection :=
  set_con_q (set_out_sent (discard_acked ack (out_sent (con_q c))) (con_q c)) c.

Lemma v2_read_message_core m seq ack c :
  con_state c = CEPH_CON_S_OPEN → in_msg (con_q c) = None →
  0 <= in_seq (con_q c) < 2 ^ 63 - 1 → seq = in_seq (con_q c) + 1 →
  wpst (v2_read_message seq ack (Some m) false true (mret tt) (mret tt)) c (λ ret c', ret = 0 ∧ core c' = core (take_in m (discarded ack c))).
Proof.
  intros Hst Hin Hr ->. unfold v2_read_message, process_message_header.
  destruct_con c. simpl in Hst, Hin, Hr. subst st im.
  do 2 apply wpst_bind. apply wpst_get. cbn [con_q in_seq]. rewrite seq_ahead_small by lia.
  replace (isq + 1 - isq) with 1 by lia.
  unfold ceph_con_discard_sent, ceph_con_in_msg_alloc, con_require, process_message, ceph_con_process_message, on_q, call.
  by st_run.
Qed.

Lemma v1_read_message_core m seq c :
  con_state c = CEPH_CON_S_OPEN → in_msg (con_q c) = None →
  0 <= in_seq (con_q c) < 2 ^ 63 - 1 → 0 <= seq <= in_seq (con_q c) + 1 →
  wpst (v1_read_message seq (Some m) false true true (mret tt) (mret tt)) c (λ ret c', ret = 1 ∧
    core c' = core (if seq <=? in_seq (con_q c) then c else take_in m c)).
Proof.
  intros Hst Hin Hr Hseq. unfold v1_read_message. destruct_con c. simpl in Hst, Hin, Hr, Hseq. subst st im.
  apply wpst_bind, wpst_get. cbn [con_q in_seq]. rewrite seq_ahead_small by lia. destruct (Z.leb_spec seq isq).
  - rewrite (proj2 (Z.ltb_lt (seq - isq) 1)) by lia. by st_run.
  - replace (seq - isq) with 1 by lia.
    unfold ceph_con_in_msg_alloc, con_require, ceph_con_process_message, on_q, call. by st_run.
Qed.

(** Opening. *)
Definition requeued (n : Z) c : ceph_connection :=
  set_con_q (set_out_queue (discard_requeued n (out_queue (con_q c))) (con_q c)) c.

Lemma ceph_tcp_connect_core made err c :
  con_sock c = false → wpst (ceph_tcp_connect made err) c (λ _ c', core c' = core (set_con_sock (made && negb (err <? 0)) c)).
Proof.
  intros Hs. assert (core c = core (set_con_sock false c)) as E by (destruct c; cbn in Hs; by subst).
  unfold ceph_tcp_connect, con_require, con_sock_state_connecting. st_run. rewrite Hs. cbn.
  destruct made; [|by apply wpst_ret]. st_run. by destruct (_ <? 0); st_run.
Qed.

Lemma v2_connect_core made err c :
  con_state c = CEPH_CON_S_PREOPEN → con_sock c = false →
  wpst (v2_connect made err) c (λ _ c',
    core c' = core (set_con_sock (made && negb (err <? 0)) (set_con_state CEPH_CON_S_V2_BANNER_PREFIX c))).
Proof.
  intros Hst Hs. unfold v2_connect. apply wpst_bind, wpst_get. rewrite Hst. cbn [Z.eqb Pos.eqb negb CEPH_CON_S_PREOPEN].
  apply wpst_bind, (wpst_mono _ _ (λ _ c1, core c1 = core c)); [done|]. intros seq c1 H1.
  apply wpst_bind, wpst_modify, wpst_bind, (wpst_mono _ _ (λ _ c2, core c2 = core c)).
  { apply wpst_when; [intros _; apply wpst_modify; rewrite <- H1; done|intros _; rewrite <- H1; done]. }
  intros [] c2 H2. apply wpst_bind, wpst_modify, wpst_bind, wpst_modify, wpst_bind, wpst_modify.
  eapply wpst_mono; [apply ceph_tcp_connect_core|].
  - cbn. by injection H2 as _ _ -> _ _ _ _.
  - intros ret c3 ->. unfold core, dispatched in *. cbn in *. by injection H2 as -> _ _ -> -> -> ->.
Qed.

Lemma v1_connect_core made err c :
  con_state c = CEPH_CON_S_PREOPEN → con_sock c = false → in_msg (con_q c) = None →
  wpst (v1_connect made err) c (λ _ c',
    core c' = core (set_con_sock (made && negb (err <? 0)) (set_con_state CEPH_CON_S_V1_BANNER c))).
Proof.
  intros Hst Hs Hin. unfold v1_connect. apply wpst_bind, wpst_get. rewrite Hst, Hs.
  cbn [Z.eqb Pos.eqb negb CEPH_CON_S_PREOPEN]. apply wpst_bind, wpst_lift, wp_require; [done|].
  apply wpst_bind, wpst_modify, wpst_bind, wpst_modify, wpst_bind, wpst_lift, wp_require; [by rewrite Hin|].
  eapply wpst_mono; [by apply ceph_tcp_connect_core|]. by intros ret c1 ->.
Qed.

(** More has been sent, and the state is another. *)
Definition asked (st : Z) (fs : list frame) c : ceph_connection := set_con_frames (con_frames c ++ fs) (set_con_state st c).

(** What a request for a session says. *)
Definition asks (msgr2 : bool) c (ask : frame) : Prop :=
  match ask with
  | F_CLIENT_IDENT _ _ => msgr2 = true ∧ con_state c = CEPH_CON_S_V2_SESSION_CONNECT
  | F_SESSION_RECONNECT _ _ _ _ msg_seq =>
      msgr2 = true ∧ con_state c = CEPH_CON_S_V2_SESSION_RECONNECT ∧ msg_seq = in_seq (con_q c)
  | F_CONNECT _ _ => msgr2 = false ∧ con_state c = CEPH_CON_S_V1_CONNECT_MSG
  | _ => False
  end.

Lemma prepare_client_ident_core cookie c :
  wpst (prepare_client_ident cookie) c (λ _ c', ∃ gs ck, core c' = core (asked (con_state c) [F_CLIENT_IDENT gs ck] c)).
Proof.
  unfold prepare_client_ident. apply wpst_bind, wpst_get, wpst_bind.
  apply wpst_when; intros _; [apply wpst_modify|]; by eexists _, _.
Qed.
Lemma prepare_session_reconnect_core c :
  wpst prepare_session_reconnect c (λ _ c', ∃ cc sc gs cs,
    core c' = core (asked (con_state c) [F_SESSION_RECONNECT cc sc gs cs (in_seq (con_q c))] c)).
Proof. by eexists _, _, _, _. Qed.
Lemma prepare_write_connect_core c :
  wpst prepare_write_connect c (λ _ c', ∃ cs gs, core c' = core (asked (con_state c) [F_CONNECT cs gs] c)).
Proof. by eexists _, _. Qed.

(** Version 2 reconnects when it has the peer's cookie. *)
Definition suits (st : Z) c : Prop :=
  (st = CEPH_CON_S_V2_SESSION_CONNECT → v2_server_cookie (con_v2 c) = 0) ∧
  (st = CEPH_CON_S_V2_SESSION_RECONNECT → v2_server_cookie (con_v2 c) ≠ 0).

Lemma ask_session_core (msgr2 : bool) cookie c :
  wpst (ask_session msgr2 cookie) c (λ _ c', ∃ st ask, core c' = core (asked st [ask] c) ∧ asks msgr2 c' ask ∧ suits st c).
Proof.
  unfold ask_session. destruct msgr2; apply wpst_bind, wpst_modify.
  - unfold v2_authenticated. apply wpst_bind, wpst_get. cbn [con_state set_con_state Z.eqb Pos.eqb negb CEPH_CON_S_V2_AUTH_SIGNATURE].
    apply wpst_bind. cbn [con_v2 set_con_state]. destruct (Z.eqb_spec (v2_server_cookie (con_v2 c)) 0) as [Hz|Hz]; apply wpst_bind.
    + eapply wpst_mono; [apply prepare_client_ident_core|]. intros [] c1 (gs & ck & H1).
      apply wpst_modify, wpst_ret. exists CEPH_CON_S_V2_SESSION_CONNECT, (F_CLIENT_IDENT gs ck).
      unfold core, dispatched in *. cbn in *. by injection H1 as -> _ -> -> -> -> ->.
    + eapply wpst_mono; [apply prepare_session_reconnect_core|]. intros [] c1 (cc & sc & gs & cs & H1).
      apply wpst_modify, wpst_ret. eexists CEPH_CON_S_V2_SESSION_RECONNECT, (F_SESSION_RECONNECT cc sc gs cs _).
      unfold core, dispatched in *. cbn in *. by injection H1 as -> _ -> -> -> -> ->.
  - apply wpst_bind. eapply wpst_mono; [apply prepare_write_connect_core|]. intros [] c1 (cs & gs & H1). apply wpst_ret.
    exists CEPH_CON_S_V1_CONNECT_MSG, (F_CONNECT cs gs). unfold core, dispatched, asks in *. cbn in *.
    by injection H1 as -> -> -> -> -> -> ->.
Qed.

(** A session has been opened: with which queues, and what was sent at its start. *)
Definition opened (q' : con_queues) (fs : list frame) c c' : Prop :=
  con_state c' = CEPH_CON_S_OPEN ∧ f_lossytx (con_flags_ c') = f_lossytx (con_flags_ c) ∧ dispatched c' = dispatched c ∧
  con_q c' = q' ∧ con_frames c' = con_frames c ++ fs.

(** None has; but there may be a new request for one. *)
Definition not_opened (msgr2 : bool) c c' : Prop :=
  ∃ fs, core c' = core (asked (con_state c) fs c) ∧ (fs = [] ∨ ∃ ask, fs = [ask] ∧ asks msgr2 c' ask).

Lemma not_opened_refl msgr2 c : not_opened msgr2 c c.
Proof. exists []. split; [|by left]. unfold asked, core. cbn. by rewrite app_nil_r. Qed.

Lemma process_server_ident_core (msgr2 : bool) gs cookie c :
  wpst (process_server_ident true gs cookie false) c (λ _ c',
    if con_state c =? CEPH_CON_S_V2_SESSION_CONNECT
    then opened (con_q c) [] c c' ∧ v2_server_cookie (con_v2 c') = cookie else not_opened msgr2 c c').
Proof.
  unfold process_server_ident. apply wpst_bind, wpst_get. destruct (Z.eqb_spec (con_state c) CEPH_CON_S_V2_SESSION_CONNECT) as [Hst|Hst].
  - unfold opened. by rewrite app_nil_r.
  - apply not_opened_refl.
Qed.

Lemma process_session_reconnect_ok_core (msgr2 : bool) seq c :
  wpst (process_session_reconnect_ok seq) c (λ _ c',
    if con_state c =? CEPH_CON_S_V2_SESSION_RECONNECT
    then opened (con_q (requeued seq c)) [] c c' ∧ v2_server_cookie (con_v2 c') = v2_server_cookie (con_v2 c)
    else not_opened msgr2 c c').
Proof.
  unfold process_session_reconnect_ok. apply wpst_bind, wpst_get. destruct (Z.eqb_spec (con_state c) CEPH_CON_S_V2_SESSION_RECONNECT) as [Hst|Hst].
  - unfold opened. by rewrite app_nil_r.
  - apply not_opened_refl.
Qed.

Lemma process_retry_core a c :
  match a with A_RETRY _ | A_RETRY_GLOBAL _ => True | _ => False end → wpst (process_answer a) c (λ _ c', not_opened true c c').
Proof.
  assert (∀ c1, core c1 = core c → con_state c = CEPH_CON_S_V2_SESSION_RECONNECT →
    wpst (_ ← prepare_session_reconnect; mret 0) c1 (λ _ c', not_opened true c c')) as H.
  { intros c1 H1 Hst. apply wpst_bind. eapply wpst_mono; [apply prepare_session_reconnect_core|]. intros [] c2 (cc & sc & gs & cs & H2).
    apply wpst_ret. eexists. unfold core, dispatched, asks in *. cbn in *. injection H1 as E1 E2 E3 E4 E5 E6 E7.
    injection H2 as -> -> -> -> -> -> ->. rewrite E1, E2, E3, E4, E5, E6, E7. split; [done|]. right. by eexists. }
  destruct a as [| |connect_seq|global_seq|]; intros []; cbn [process_answer];
    [unfold process_session_retry|unfold process_session_retry_global]; apply wpst_bind, wpst_get;
    (destruct (Z.eqb_spec (con_state c) CEPH_CON_S_V2_SESSION_RECONNECT) as [Hst|Hst]; cbn [negb]; [|by apply wpst_ret, not_opened_refl]).
  - by apply wpst_bind, wpst_modify, H.
  - apply wpst_bind, (wpst_mono _ _ (λ _ c1, core c1 = core c)); [done|]. intros seq c1 H1.
    apply wpst_bind, wpst_modify, H; [|done]. by rewrite <- H1.
Qed.

Lemma process_connect_ready_core cs gs c :
  wpst (process_connect TAG_READY true false cs gs (mret tt)) c (λ _ c', opened (con_q c) [] c c').
Proof. unfold opened. by rewrite app_nil_r. Qed.
Lemma process_connect_seq_core cs gs c :
  wpst (process_connect TAG_SEQ true false cs gs (mret tt)) c (λ _ c',
    opened (set_in_seq_acked (in_seq (con_q c)) (con_q c)) [F_SEQ (in_seq (con_q c))] c c').
Proof. done. Qed.

Lemma process_connect_refused_core tag cs gs c :
  refusal false (A_V1 tag cs gs) = true → con_state c = CEPH_CON_S_V1_CONNECT_MSG →
  wpst (process_connect tag true false cs gs (mret tt)) c (λ _ c', not_opened false c c').
Proof.
  intros Hr Hst.
  assert (∀ c1, core c1 = core c → wpst (_ ← prepare_write_connect; mret 0) c1 (λ _ c', not_opened false c c')) as H.
  { intros c1 H1. apply wpst_bind. eapply wpst_mono; [apply prepare_write_connect_core|]. intros [] c2 (cs' & gs' & H2).
    apply wpst_ret. eexists. unfold core, dispatched, asks in *. cbn in *. injection H1 as E1 E2 E3 E4 E5 E6 E7.
    injection H2 as -> -> -> -> -> -> ->. rewrite E1, E2, E3, E4, E5, E6, E7. split; [done|]. right. by eexists. }
  destruct tag; try done; cbn [process_connect]; try by apply wpst_ret, not_opened_refl.
  - apply wpst_bind, wpst_modify, wpst_bind, wpst_get. destruct (_ =? 2); [|by apply H].
    apply wpst_ret. exists []. split; [|by left]. unfold asked, core, dispatched. cbn. by rewrite app_nil_r.
  - by apply wpst_bind, wpst_modify, H.
  - apply wpst_bind, (wpst_mono _ _ (λ _ c1, core c1 = core c)); [done|]. intros seq c1 H1. by apply H.
Qed.
End ops.
