(* ===== verification/Delivery.v ===== *)
(** Lossless, ordered delivery: each end's owner gets the other's messages in order and each
    once, whatever faults come in between, and everything can still be delivered. *)

From S2P Require Import Prelude OsdMap State Connection Peer ConnNet.

(** * Queues with old messages in front *)
Section queues.
Implicit Types (o n k d : nat) (subs : list Z) (A N S Q l : list qmsg).

(** What is before a position is numbered, and no larger than it. *)
Lemma old_entry o p n subs x :
  (n ≤ o)%nat → (p + length subs ≤ n)%nat → x ∈ number o p subs →
  q_needs_out_seq x = false ∧ Z.of_nat p < q_seq x <= Z.of_nat n ∧ q_msg x ∈ subs ∧ x = QMsg (q_msg x) false (q_seq x).
Proof.
  revert p. induction subs as [|m subs IH]; intros p Hn Hp; cbn in *; [by intros ?%elem_of_nil|].
  intros [->|Hx]%elem_of_cons.
  - unfold entry. rewrite (proj2 (Nat.ltb_lt p o)) by lia. cbn. split; [done|]. split; [lia|]. split; [by left|done].
  - destruct (IH (S p) Hn ltac:(lia) Hx) as (H1 & H2 & H3 & H4). split; [done|]. split; [lia|]. split; [by right|done].
Qed.

Lemma sublist_elem {T} (l l' : list T) x : l `sublist_of` l' → x ∈ l → x ∈ l'.
Proof. intros Hs Hx. by apply (elem_of_submseteq l l'); [|apply sublist_submseteq]. Qed.

Lemma old_elem o n subs A x :
  A `sublist_of` number o 0 (take n subs) → (n ≤ o)%nat → x ∈ A →
  q_needs_out_seq x = false ∧ 0 < q_seq x <= Z.of_nat n ∧ q_msg x ∈ take n subs ∧ x = QMsg (q_msg x) false (q_seq x).
Proof.
  intros HA Hn Hx. apply (sublist_elem _ _ _ HA) in Hx. eapply (old_entry o 0 n) in Hx; [|done|rewrite length_take; lia].
  done.
Qed.

(** Which ones are dropped: a front part, all numbered and no larger than what was received. *)
Lemma discard_acked_spec ack l : ∃ d, (d ≤ length l)%nat ∧ discard_acked ack l = drop d l ∧
  ∀ i x, (i < d)%nat → l !! i = Some x → q_seq x <= ack.
Proof.
  induction l as [|x l (d & Hd & E & H)]; cbn [discard_acked]; [by exists 0%nat|].
  destruct (Z.ltb_spec ack (q_seq x)); [exists 0%nat; split; [lia|]; split; [done|intros; lia]|].
  exists (S d). split; [cbn; lia|]. split; [done|]. intros [|i] y Hi; cbn; [intros [= <-]; lia|]. apply H. lia.
Qed.
Lemma discard_requeued_spec ack l : ∃ d, (d ≤ length l)%nat ∧ discard_requeued ack l = drop d l ∧
  ∀ i x, (i < d)%nat → l !! i = Some x → q_needs_out_seq x = false ∧ q_seq x <= ack.
Proof.
  induction l as [|x l (d & Hd & E & H)]; cbn [discard_requeued]; [by exists 0%nat|].
  destruct (q_needs_out_seq x) eqn:Ex; [exists 0%nat; split; [lia|]; split; [done|intros; lia]|].
  destruct (Z.ltb_spec ack (q_seq x)); [exists 0%nat; split; [lia|]; split; [done|intros; lia]|].
  exists (S d). split; [cbn; lia|]. split; [done|]. intros [|i] y Hi; cbn; [intros [= <-]; by split; [|lia]|]. apply H. lia.
Qed.

(** All of the old ones, and none of the others. *)
Lemma discard_requeued_old n o subs A :
  Forall (λ x, q_needs_out_seq x = false ∧ q_seq x <= Z.of_nat n) A →
  discard_requeued (Z.of_nat n) (A ++ number o n subs) = number o n subs.
Proof.
  induction 1 as [|x A [Hx Hs] _ IH]; cbn [app discard_requeued].
  - destruct subs as [|m subs]; [done|]. cbn [number discard_requeued]. unfold entry. destruct (n <? o)%nat; cbn [q_needs_out_seq q_seq]; [|done].
    rewrite (proj2 (Z.ltb_lt _ _)) by lia. done.
  - rewrite Hx, (proj2 (Z.ltb_ge (Z.of_nat n) (q_seq x))) by lia. done.
Qed.

Lemma number_lookup o p subs i :
  number o p subs !! i = (λ m, entry o (p + i) m) <$> subs !! i.
Proof.
  revert p i. induction subs as [|m subs IH]; intros p [|i]; cbn; [done..|by rewrite Nat.add_0_r|].
  rewrite IH. by replace (S p + i)%nat with (p + S i)%nat by lia.
Qed.
End queues.


(** * The messages to the peer *)
Section out.
Context (msgr2 : bool).
Implicit Types (c : ceph_connection) (k n o d : nat) (subs got : list Z) (w : list frame) (A : list qmsg) (B : list (Z * Z)).

(** Of the messages of a connection the peer's owner has got the first ones, [got]; [o] have a number.  On the
    queues are some of those, [A], and all the others; on the wire some old ones, [B], and the [k] that come
    next.  Version 2 never sends an old one. *)
Record out_flow subs c got w A B k o : Prop := {
  of_subs : NoDup subs ∧ Z.of_nat (length subs) <= 2 ^ 62;
  of_got : got = take (length got) subs;
  of_bounds : (length got + k ≤ o)%nat ∧ (o ≤ length subs)%nat;
  of_seq : out_seq (con_q c) = Z.of_nat o;
  of_queue : out_sent (con_q c) ++ out_queue (con_q c) = A ++ number o (length got) (drop (length got) subs);
  of_old : A `sublist_of` number o 0 got;
  of_wire : messages w = B ++ seqs (length got) (take k (drop (length got) subs));
  of_wire_old : Forall (λ x, 0 <= x.2 <= Z.of_nat (length got)) B;
  of_open : con_state c = CEPH_CON_S_OPEN → k = (length (out_sent (con_q c)) - length A)%nat;
  of_v2 : msgr2 = true → B = [] ∧ (con_state c = CEPH_CON_S_OPEN → (length A ≤ length (out_sent (con_q c)))%nat);
}.
Definition outs subs c got w : Prop := ∃ A B k o, out_flow subs c got w A B k o.

(** Only the queues matter, and whether it is open. *)
Lemma outs_same subs c c' got w :
  out_sent (con_q c') = out_sent (con_q c) → out_queue (con_q c') = out_queue (con_q c) →
  out_seq (con_q c') = out_seq (con_q c) → (con_state c' = CEPH_CON_S_OPEN → con_state c = CEPH_CON_S_OPEN) →
  outs subs c got w → outs subs c' got w.
Proof.
  intros Es Eq Eo Est (A & B & k & o & [H1 H2 H3 H4 H5 H6 H7 H8 H9 H10]).
  exists A, B, k, o. constructor; rewrite ?Eq, ?Es, ?Eo; auto. intros Hm. destruct (H10 Hm). auto.
Qed.

Lemma outs_old_elem subs c got w A B k o x :
  out_flow subs c got w A B k o → x ∈ A →
  q_needs_out_seq x = false ∧ 0 < q_seq x <= Z.of_nat (length got) ∧ q_msg x ∈ got ∧ x = QMsg (q_msg x) false (q_seq x).
Proof.
  intros F Hx. pose proof (of_bounds _ _ _ _ _ _ _ _ F). pose proof (of_old _ _ _ _ _ _ _ _ F) as HA.
  rewrite (of_got _ _ _ _ _ _ _ _ F) in HA at 1.
  apply (old_elem o (length got) subs A x) in HA as (? & ? & Hin & ?); [|lia|done].
  rewrite <- (of_got _ _ _ _ _ _ _ _ F) in Hin. done.
Qed.
Lemma outs_got subs c got w : outs subs c got w → ∀ m, m ∈ got → m ∈ subs.
Proof. intros (A & B & k & o & F) m Hm. rewrite (of_got _ _ _ _ _ _ _ _ F) in Hm. by apply subseteq_take in Hm. Qed.

(** What is on the queues has been submitted. *)
Lemma outs_linked subs c got w m : outs subs c got w → linked m (con_q c) = true → m ∈ subs.
Proof.
  intros HF Hl. pose proof (outs_got _ _ _ _ HF) as Hg. destruct HF as (A & B & k & o & F).
  unfold linked in Hl. apply existsb_exists in Hl as (q & Hin & Heq). bool_to_prop. subst m.
  assert (q ∈ out_sent (con_q c) ++ out_queue (con_q c)) as Hq.
  { apply list_elem_of_In in Hin. rewrite elem_of_app in *. tauto. }
  rewrite (of_queue _ _ _ _ _ _ _ _ F) in Hq. apply elem_of_app in Hq as [Hq|Hq].
  - apply Hg. by apply (outs_old_elem _ _ _ _ _ _ _ _ _ F Hq).
  - apply (list_elem_of_fmap_2 q_msg) in Hq. change (q_msg <$> ?l) with (map q_msg l) in Hq.
    rewrite number_msgs in Hq. by apply subseteq_drop in Hq.
Qed.

Lemma outs_send subs c got w m :
  m ∉ subs → Z.of_nat (length subs) < 2 ^ 62 → outs subs c got w →
  outs (subs ++ [m]) (set_con_q (set_out_queue (out_queue (con_q c) ++ [QMsg m true 0]) (con_q c)) c) got w.
Proof.
  intros Hm Hlen (A & B & k & o & [[H1 H1'] H2 [H3 H3'] H4 H5 H6 H7 H8 H9 H10]).
  exists A, B, k, o. constructor; cbn; try done.
  - split; [|rewrite length_app; cbn; lia]. apply NoDup_app. split; [done|]. split; [|apply NoDup_singleton].
    intros y Hy Hy'. apply list_elem_of_singleton in Hy' as ->. done.
  - by rewrite take_app_le by lia.
  - rewrite length_app. lia.
  - rewrite app_assoc, H5, <- app_assoc, drop_app_le, number_app by lia. cbn. do 3 f_equal. unfold entry.
    rewrite length_drop, (proj2 (Nat.ltb_ge _ _)) by lia. done.
  - rewrite H7. do 2 f_equal. rewrite drop_app_le, take_app_le by (rewrite ?length_drop; lia). done.
Qed.

Lemma unlink_notin m l : m ∉ map q_msg l → unlink_msg m l = l.
Proof.
  induction l as [|x l IH]; intros Hm; [done|]. cbn in Hm. apply not_elem_of_cons in Hm as [Hx Hm].
  unfold unlink_msg in *. rewrite filter_cons_True by done. by rewrite IH.
Qed.

Lemma filter_notin (l : list Z) m : m ∉ l → filter (.≠ m) l = l.
Proof.
  induction l as [|y l IH]; intros Hm; [done|]. apply not_elem_of_cons in Hm as [Hy Hm]. rewrite filter_cons_True; [|done].
  by rewrite IH.
Qed.

(** A message that has no number is somewhere behind those that have. *)
Lemma fresh_split o p (l : list Z) m :
  QMsg m true 0 ∈ number o p l → ∃ l1 l2, l = l1 ++ m :: l2 ∧ (o ≤ p + length l1)%nat.
Proof.
  revert p. induction l as [|y l IH]; intros p; cbn; [by intros ?%elem_of_nil|]. intros [E|E]%elem_of_cons.
  - unfold entry in E. destruct (Nat.ltb_spec p o); [done|]. injection E as <-. exists [], l. split; [done|]. cbn. lia.
  - destruct (IH _ E) as (l1 & l2 & -> & Ho). exists (y :: l1), l2. split; [done|]. cbn. lia.
Qed.

Lemma outs_revoke subs c got w m :
  QMsg m true 0 ∈ out_queue (con_q c) → outs subs c got w →
  outs (filter (.≠ m) subs) (set_con_q (set_out_queue (unlink_msg m (out_queue (con_q c)))
    (set_out_sent (unlink_msg m (out_sent (con_q c))) (con_q c))) c) got w.
Proof.
  intros Hm (A & B & k & o & F). pose proof F as [[H1 H1'] H2 [H3 H3'] H4 H5 H6 H7 H8 H9 H10].
  set (n := length got) in *.
  assert (QMsg m true 0 ∈ A ++ number o n (drop n subs)) as Hin by (rewrite <- H5, elem_of_app; by right).
  apply elem_of_app in Hin as [Hin|Hin]; [by apply (outs_old_elem _ _ _ _ _ _ _ _ _ F) in Hin as (? & _)|].
  apply fresh_split in Hin as (l1 & l2 & El & Ho).
  assert (subs = (take n subs ++ l1) ++ m :: l2) as E by (by rewrite <- app_assoc, <- El, take_drop).
  set (l := take n subs ++ l1) in *. assert (length l = n + length l1)%nat as Hl.
  { unfold l. rewrite length_app, length_take. lia. }
  rewrite E in H1. apply NoDup_app in H1 as (N1 & Nd & N2%NoDup_cons). destruct N2 as [Nm N2].
  assert (m ∉ l) as Nl by (intros Hml; apply (Nd m Hml); by left).
  assert (filter (.≠ m) subs = l ++ l2) as Ef.
  { rewrite E, filter_app, filter_cons_False by (intros ?; done). by rewrite !filter_notin. }
  assert (drop n (l ++ l2) = l1 ++ l2) as Ed.
  { unfold l. rewrite <- app_assoc, drop_app_ge, length_take by (rewrite length_take; lia).
    by replace (n - n `min` length subs)%nat with 0%nat by lia. }
  assert (take n (l ++ l2) = got) as Et.
  { rewrite H2. unfold l. rewrite <- app_assoc, take_app_le by (rewrite length_take; lia). by rewrite take_take, Nat.min_id. }
  assert (m ∉ got) as Ng by (rewrite H2; intros Hg; apply Nl; unfold l; apply elem_of_app; by left).
  assert (∀ x, x ∈ A → m ≠ q_msg x) as NA.
  { intros x Hx ->. by apply Ng, (outs_old_elem _ _ _ _ _ _ _ _ _ F). }
  assert (m ∉ map q_msg A) as NA'.
  { intros Hx. apply list_elem_of_fmap in Hx as (x & -> & Hx). by apply (NA x). }
  assert (Hsent : con_state c = CEPH_CON_S_OPEN → unlink_msg m (out_sent (con_q c)) = out_sent (con_q c)).
  { intros Hst. apply unlink_notin. intros Hx. apply list_elem_of_fmap in Hx as (x & -> & Hx).
    apply list_elem_of_lookup in Hx as [i Hi]. pose proof (lookup_lt_Some _ _ _ Hi) as Hlt.
    assert ((A ++ number o n (drop n subs)) !! i = Some x) as Hi' by (rewrite <- H5; by apply lookup_app_l_Some).
    apply lookup_app_Some in Hi' as [Hi'|[Hge Hi']]; [by apply (NA x); [eapply list_elem_of_lookup_2|]|].
    rewrite number_lookup, El in Hi'. apply fmap_Some in Hi' as (y & Hy & ->).
    assert (q_msg (entry o (n + (i - length A)) y) = y) as Ey by (unfold entry; by destruct (_ <? _)%nat). rewrite Ey in *.
    specialize (H9 Hst). apply Nl. unfold l. rewrite lookup_app_l in Hy by lia. apply elem_of_app. right.
    by eapply list_elem_of_lookup_2. }
  exists A, B, k, o. rewrite Ef. constructor; cbn [con_q out_sent out_queue out_seq con_state set_con_q set_out_queue set_out_sent]; fold n; try done.
  - split; [apply NoDup_app; split; [done|]; split; [|done]; intros y Hy Hy'; apply (Nd y Hy); by right|].
    rewrite E, length_app in H1'. rewrite length_app. cbn in H1'. lia.
  - rewrite E, length_app in H3'. rewrite length_app. cbn in H3'. lia.
  - transitivity (unlink_msg m (out_sent (con_q c) ++ out_queue (con_q c))); [unfold unlink_msg; by rewrite filter_app|].
    rewrite H5. unfold unlink_msg at 1. rewrite filter_app. fold (unlink_msg m A). rewrite unlink_notin by done. f_equal.
    rewrite Ed, El, !number_app, filter_app. f_equal; [|].
    + apply unlink_notin. rewrite number_msgs. intros Hx. apply Nl. unfold l. apply elem_of_app. by right.
    + cbn [number]. rewrite filter_cons_False by (unfold entry; rewrite (proj2 (Nat.ltb_ge _ _)) by lia; intros ?; done).
      etransitivity; [apply unlink_notin; by rewrite number_msgs|]. apply number_unnumbered; lia.
  - rewrite H7. do 2 f_equal. rewrite Ed, El, !take_app_le by lia. done.
  - intros Hst. rewrite Hsent by done. auto.
  - intros Hv. destruct (H10 Hv) as [? Hv']. split; [done|]. intros Hst. rewrite Hsent by done. auto.
Qed.

(** Acknowledged messages go. *)
Lemma outs_discard_sent subs c got w ack :
  ack <= Z.of_nat (length got) → con_state c = CEPH_CON_S_OPEN → outs subs c got w → outs subs (discarded ack c) got w.
Proof.
  intros Ha Hst (A & B & k & o & F). pose proof F as [H1 H2 [H3 H3'] H4 H5 H6 H7 H8 H9 H10]. set (n := length got) in *.
  specialize (H9 Hst). destruct (discard_acked_spec ack (out_sent (con_q c))) as (d & Hd & Ed & Hs).
  assert (d ≤ length A)%nat as HdA.
  { destruct (decide (d ≤ length A)%nat) as [|Hn]; [done|]. exfalso.
    destruct (lookup_lt_is_Some_2 (out_sent (con_q c)) (length A)) as [x Hx]; [lia|].
    pose proof (Hs (length A) x ltac:(lia) Hx) as Hle.
    assert ((A ++ number o n (drop n subs)) !! length A = Some x) as Hx' by (rewrite <- H5; by apply lookup_app_l_Some).
    rewrite lookup_app_r, Nat.sub_diag, number_lookup in Hx' by lia. apply fmap_Some in Hx' as (y & Hy & ->).
    unfold entry in Hle. rewrite (proj2 (Nat.ltb_lt _ _)) in Hle by lia. cbn in Hle. lia. }
  exists (drop d A), B, k, o. unfold discarded. constructor; cbn; rewrite ?Ed; try done.
  - rewrite <- drop_app_le, H5, drop_app_le by done. done.
  - etrans; [|exact H6]. apply sublist_drop.
  - intros _. rewrite !length_drop. lia.
  - intros Hv. destruct (H10 Hv) as [? Hv']. split; [done|]. rewrite !length_drop. specialize (Hv' Hst). lia.
Qed.

(** Of the messages that wait to be sent again, those the peer says it has received go; it may say so when
    others have been sent. *)
Lemma outs_discard_requeued subs c got w ack :
  ack <= Z.of_nat (length got) → con_state c = CEPH_CON_S_OPEN → outs subs c got w → outs subs (requeued ack c) got w.
Proof.
  intros Ha Hst (A & B & k & o & F). pose proof F as [H1 H2 [H3 H3'] H4 H5 H6 H7 H8 H9 H10]. set (n := length got) in *.
  specialize (H9 Hst). destruct (discard_requeued_spec ack (out_queue (con_q c))) as (d & Hd & Ed & Hs).
  set (a := length (out_sent (con_q c))) in *.
  assert (d = 0 ∨ a + d ≤ length A)%nat as [->|HdA].
  { destruct (decide (d = 0%nat)) as [|Hd0]; [by left|]. right. destruct (decide (a + d ≤ length A)%nat) as [|Hn]; [done|]. exfalso.
    destruct (lookup_lt_is_Some_2 (out_queue (con_q c)) (d - 1)) as [x Hx]; [lia|].
    pose proof (Hs (d - 1)%nat x ltac:(lia) Hx) as [Hf Hle].
    assert ((A ++ number o n (drop n subs)) !! (a + (d - 1))%nat = Some x) as Hx'.
    { rewrite <- H5, lookup_app_r by (unfold a; lia). unfold a. by replace (_ + (d - 1) - _)%nat with (d - 1)%nat by lia. }
    rewrite lookup_app_r, number_lookup in Hx' by lia. apply fmap_Some in Hx' as (y & Hy & ->).
    unfold entry in Hf, Hle. destruct (_ <? _)%nat; cbn in *; [lia|done]. }
  - eapply outs_same; [..|by exists A, B, k, o]; unfold requeued; cbn; [done|by rewrite Ed, drop_0|done|done].
  - exists (take a A ++ drop (a + d) A), B, k, o.
    assert (out_sent (con_q c) = take a A ∧ out_queue (con_q c) = drop a A ++ number o n (drop n subs)) as [Es Eq].
    { rewrite <- (take_drop a A), <- app_assoc in H5. apply app_inj_1 in H5; [done|]. rewrite length_take. fold a. lia. }
    unfold requeued. constructor; cbn; rewrite ?Ed; try done.
    + rewrite Eq, drop_app_le, drop_drop, Es, app_assoc by (rewrite length_drop; lia). done.
    + etrans; [|exact H6]. rewrite <- (take_drop a A) at 3. apply sublist_app; [done|].
      rewrite <- drop_drop. apply sublist_drop.
    + intros _. rewrite length_app, length_take, length_drop. fold a. lia.
    + intros Hv. destruct (H10 Hv) as [? Hv']. split; [done|]. specialize (Hv' Hst). fold a in Hv' |- *.
      intros _. rewrite length_app, length_take, length_drop. lia.
Qed.

(** A fault puts all of them back. *)
Definition faulted st c : ceph_connection :=
  set_con_sock false (set_con_state st (set_con_q (set_in_msg None (set_out_msg None
    (set_out_queue (out_sent (con_q c) ++ out_queue (con_q c)) (set_out_sent [] (con_q c))))) c)).

Lemma outs_faulted st subs c got w : st ≠ CEPH_CON_S_OPEN → outs subs c got w → outs subs (faulted st c) got w.
Proof.
  intros Hst (A & B & k & o & [H1 H2 H3 H4 H5 H6 H7 H8 H9 H10]). exists A, B, k, o. constructor; try done.
  intros Hm. by destruct (H10 Hm).
Qed.

(** What is on the wire is lost. *)
Lemma outs_lost subs c got w w' :
  con_state c ≠ CEPH_CON_S_OPEN → messages w' = [] → outs subs c got w → outs subs c got w'.
Proof.
  intros Hst Hw (A & B & k & o & [H1 H2 H3 H4 H5 H6 H7 H8 H9 H10]). exists A, [], 0%nat, o. constructor; try done. lia.
Qed.

Lemma outs_silent subs c got w A B k o :
  messages w = [] → out_flow subs c got w A B k o → B = [] ∧ k = 0%nat.
Proof.
  intros Hw [H1 H2 [H3 H3'] H4 H5 H6 H7 H8 H9 H10]. rewrite Hw in H7. symmetry in H7. apply app_eq_nil in H7 as [-> H7]. split; [done|].
  apply (f_equal length) in H7. rewrite length_seqs, length_take, length_drop in H7. cbn in H7. lia.
Qed.

(** A session is opened, with what there is on the queue, *)
Lemma outs_opened subs c c' got w :
  out_sent (con_q c) = [] → messages w = [] → (msgr2 = true → got = []) →
  out_sent (con_q c') = out_sent (con_q c) → out_queue (con_q c') = out_queue (con_q c) →
  out_seq (con_q c') = out_seq (con_q c) → outs subs c got w → outs subs c' got w.
Proof.
  intros Hs Hw Hg Es Eq Eo (A & B & k & o & F). pose proof (outs_silent _ _ _ _ _ _ _ _ Hw F) as [-> ->].
  destruct F as [H1 H2 H3 H4 H5 H6 H7 H8 H9 H10].
  exists A, [], 0%nat, o. constructor; rewrite ?Eq, ?Es, ?Eo; try done; [by rewrite Hs|]. intros Hm. split; [done|]. intros _.
  rewrite (Hg Hm) in H6. apply sublist_nil_r in H6 as ->. cbn. lia.
Qed.

(** or with what the peer has not received. *)
Lemma outs_reopened subs c c' got w :
  out_sent (con_q c) = [] → messages w = [] → out_sent (con_q c') = [] →
  out_queue (con_q c') = discard_requeued (Z.of_nat (length got)) (out_queue (con_q c)) →
  out_seq (con_q c') = out_seq (con_q c) → outs subs c got w → outs subs c' got w.
Proof.
  intros Hs Hw Es Eq Eo (A & B & k & o & F). pose proof (outs_silent _ _ _ _ _ _ _ _ Hw F) as [-> ->].
  pose proof (λ x, outs_old_elem _ _ _ _ _ _ _ _ x F) as Hold.
  destruct F as [H1 H2 H3 H4 H5 H6 H7 H8 H9 H10]. rewrite Hs in H5. cbn in H5.
  exists [], [], 0%nat, o. constructor; rewrite ?Eq, ?Es, ?Eo; try done.
  - rewrite H5. apply discard_requeued_old, Forall_forall. intros x Hx. destruct (Hold x Hx) as (? & ? & _). split; [done|lia].
  - apply sublist_nil_l.
Qed.

(** The front of the queue goes out. *)
Lemma outs_write subs c c' got w q' fs :
  core c' = core (set_con_frames (con_frames c ++ fs) (set_con_q q' c)) →
  taken (con_q c) q' (con_state c =? CEPH_CON_S_OPEN) (messages fs) →
  outs subs c got w → outs subs c' got (w ++ fs).
Proof.
  intros Ec (_ & _ & _ & Hq) HF. injection Ec as Ec Est _ _ _ _ _. cbn in Ec, Est.
  destruct Hq as [(Eq & Es & Eo & Ems)|(Ho & x & rest & Eq & Eq' & Es & Eo & Ems)].
  { assert (outs subs c' got w) as (A & B & k & o & [H1 H2 H3 H4 H5 H6 H7 H8 H9 H10]) by (apply (outs_same _ c); by rewrite ?Ec, ?Est).
    exists A, B, k, o. constructor; try done. by rewrite messages_app, Ems, app_nil_r. }
  bool_to_prop. destruct HF as (A & B & k & o & F). pose proof (λ y, outs_old_elem _ _ _ _ _ _ _ _ y F) as Hold.
  destruct F as [H1 H2 [H3 H3'] H4 H5 H6 H7 H8 H9 H10].
  specialize (H9 Ho). rewrite Eq in H5. set (a := length (out_sent (con_q c))) in *. set (n := length got) in *.
  assert ((A ++ number o n (drop n subs)) !! a = Some x) as Hx by (rewrite <- H5; unfold a; by rewrite lookup_app_r, Nat.sub_diag by done).
  assert (out_sent q' ++ out_queue q' = <[a := sent_msg (con_q c) x]> (A ++ number o n (drop n subs))) as Hins.
  { rewrite <- H5, Es, Eq', <- app_assoc. unfold a. rewrite <- (Nat.add_0_r (length _)), insert_app_r. done. }
  apply lookup_app_Some in Hx as [Hx|[Hge Hx]].
  - (* an old one *)
    pose proof (lookup_lt_Some _ _ _ Hx) as Hlt. destruct (Hold x (list_elem_of_lookup_2 _ _ _ Hx)) as (Hf & Hs & Hg & Hxe).
    assert (sent_msg (con_q c) x = x) as Esm by (unfold sent_msg; by rewrite Hf). rewrite Hf in Eo. rewrite Esm in *.
    rewrite list_insert_id in Hins by (by apply lookup_app_l_Some).
    assert (k = 0%nat) as -> by lia. exists A, (B ++ [(q_msg x, q_seq x)]), 0%nat, o. constructor; rewrite ?Ec, ?Eo; try done.
    + by rewrite messages_app, H7, Ems, app_nil_r, app_nil_r.
    + apply Forall_app. split; [done|]. constructor; [cbn; lia|done].
    + intros _. rewrite Es, length_app. cbn. fold a. lia.
    + intros Hv. destruct (H10 Hv) as [_ Hv']. specialize (Hv' Ho). lia.
  - (* the next one *)
    rewrite number_lookup in Hx. apply fmap_Some in Hx as (m & Hm & ->). rewrite <- H9 in *.
    assert (q_msg (entry o (n + k) m) = m) as Em by (unfold entry; by destruct (_ <? _)%nat).
    pose proof (lookup_lt_Some _ _ _ Hm) as Hlt. rewrite length_drop in Hlt.
    assert (sent_msg (con_q c) (entry o (n + k) m) = QMsg m false (Z.of_nat (n + k) + 1) ∧
            out_seq q' = Z.of_nat (Nat.max o (S (n + k)))) as [Esm Eos].
    { rewrite Eo. unfold sent_msg, entry. rewrite H4. destruct (Nat.ltb_spec (n + k) o); cbn; [split; [done|lia]|].
      replace o with (n + k)%nat by lia. rewrite u64_small by lia. split; [done|lia]. }
    rewrite Esm, Em in *. exists A, B, (S k), (Nat.max o (S (n + k))). constructor; rewrite ?Ec; fold n; try done.
    + lia.
    + rewrite Hins. replace a with (length A + k)%nat by lia. rewrite insert_app_r. f_equal. apply list_eq. intros i.
      destruct (decide (i = k)) as [->|Hne].
      * rewrite list_lookup_insert_eq by (rewrite length_number, length_drop; lia). rewrite number_lookup, Hm. cbn.
        unfold entry. by rewrite (proj2 (Nat.ltb_lt _ _)) by lia.
      * rewrite list_lookup_insert_ne by done. rewrite !number_lookup. destruct (drop n subs !! i); [|done]. cbn. f_equal. unfold entry.
        destruct (Nat.ltb_spec (n + i) o), (Nat.ltb_spec (n + i) (o `max` S (n + k))); [done|lia| |done]. lia.
    + by rewrite <- (number_more o) by lia.
    + rewrite messages_app, H7, Ems, <- app_assoc. f_equal. rewrite (take_S_r _ _ m) by done. rewrite seqs_app. cbn.
      rewrite length_take, length_drop. do 4 f_equal. lia.
    + intros _. rewrite Es, length_app. cbn. fold a. lia.
    + intros Hv. destruct (H10 Hv) as [? Hv']. split; [done|]. intros _. rewrite Es, length_app. cbn. fold a. specialize (Hv' Ho). lia.
Qed.

(** The peer reads a frame: an old message is dropped, the next one goes to its owner. *)
Lemma outs_peer_read subs c got f w :
  outs subs c got (f :: w) →
  outs subs c (match f with
               | F_MESSAGE m seq _ => if seq =? Z.of_nat (length got) + 1 then got ++ [m] else got
               | _ => got
               end) w ∧
  (∀ m seq ack, f = F_MESSAGE m seq ack → 0 <= seq <= Z.of_nat (length got) + 1).
Proof.
  intros (A & B & k & o & F).
  assert (messages [f] = [] → outs subs c got w) as Hother.
  { intros Hf. destruct F as [H1 H2 H3 H4 H5 H6 H7 H8 H9 H10]. exists A, B, k, o. constructor; try done.
    rewrite <- H7, <- (app_nil_l (messages w)), <- Hf, <- messages_app. done. }
  destruct f as [m seq ack|ack| | | | |]; try (by split; [apply Hother|]).
  destruct F as [H1 H2 [H3 H3'] H4 H5 H6 H7 H8 H9 H10]. change (messages (F_MESSAGE m seq ack :: w)) with ((m, seq) :: messages w) in H7.
  set (n := length got) in *. destruct B as [|b B].
  - assert (k ≠ 0)%nat as Hk by (intros ->; done). destruct (drop n subs) as [|m' rest] eqn:Ed; [by destruct k|].
    destruct k as [|k]; [done|]. cbn in H7. injection H7 as -> -> H7.
    assert (subs !! n = Some m' ∧ rest = drop (S n) subs) as [Hm Er].
    { split; [by rewrite <- (Nat.add_0_r n), <- lookup_drop, Ed|]. by rewrite <- Nat.add_1_r, <- drop_drop, Ed. }
    rewrite Z.eqb_refl. split; [|by intros ? ? ? [= <- <- <-]; lia].
    assert (length (got ++ [m']) = S n) as El by (rewrite length_app; cbn; lia).
    assert (entry o n m' = QMsg m' false (Z.of_nat n + 1)) as Ee by (unfold entry; by rewrite (proj2 (Nat.ltb_lt _ _)) by lia).
    exists (A ++ [entry o n m']), [], k, o. constructor; rewrite ?El; try done.
    + rewrite (take_S_r _ _ m') by done. by rewrite <- H2.
    + lia.
    + by rewrite H5, Er, <- app_assoc.
    + rewrite number_app. apply sublist_app; [done|]. fold n. done.
    + by rewrite H7, Er.
    + intros Hst. rewrite length_app. cbn. specialize (H9 Hst). lia.
    + intros Hv. split; [done|]. intros Hst. rewrite length_app. cbn. specialize (H9 Hst). lia.
  - cbn in H7. injection H7 as <- H7. apply Forall_cons_1 in H8 as [Hb H8]. cbn in Hb.
    rewrite (proj2 (Z.eqb_neq _ _)) by lia. split; [|by intros ? ? ? [= <- <- <-]; lia].
    exists A, B, k, o. constructor; try done. intros Hv. by destruct (H10 Hv).
Qed.

(** With nothing queued and nothing on the wire the peer's owner has got all. *)
Lemma outs_all subs c got w :
  con_state c = CEPH_CON_S_OPEN → out_queue (con_q c) = [] → messages w = [] → outs subs c got w → got = subs.
Proof.
  intros Hst Hq Hw (A & B & k & o & F). pose proof (outs_silent _ _ _ _ _ _ _ _ Hw F) as [-> ->].
  destruct F as [H1 H2 [H3 H3'] H4 H5 H6 H7 H8 H9 H10]. specialize (H9 Hst). rewrite Hq, app_nil_r in H5.
  apply (f_equal length) in H5. rewrite length_app, length_number, length_drop in H5. rewrite H2. apply take_ge. lia.
Qed.
End out.

(** * The messages from the peer *)
Section ins.
Context (msgr2 : bool) `{P : Peer, !PeerLaws}.
Implicit Types (c : ceph_connection) (p : peer) (i l : nat) (w : list frame) (wait : bool).

(** The owner has got the first ones. *)
Record took c (given : list Z) : Prop := {
  tk_given : Z.of_nat (length given) <= 2 ^ 62;
  tk_bounds : 0 <= in_seq (con_q c) <= Z.of_nat (length given);
  tk_dispatched : dispatched c = take (Z.to_nat (in_seq (con_q c))) given;
}.

(** In a session that is open for the peer or will be: [l] messages are on their way, from position [i] on. *)
Record in_flow c p wait w i l : Prop := {
  if_wire : messages w = seqs i (take l (drop i (peer_given p)));
  if_bounds : Z.of_nat i <= in_seq (con_q c) ∧ (i + l ≤ length (peer_given p))%nat;
  if_v2 : msgr2 = true → Z.of_nat i = in_seq (con_q c);
  if_next : if wait : bool then l = 0%nat else peer_next p = (i + l)%nat;
}.
Definition ins c p wait w : Prop := ∃ i l, in_flow c p wait w i l.

Lemma ins_same c c' p wait w : in_seq (con_q c') = in_seq (con_q c) → ins c p wait w → ins c' p wait w.
Proof. intros E (i & l & [H1 H2 H3 H4]). exists i, l. constructor; by rewrite ?E. Qed.
Lemma took_same c c' given :
  in_seq (con_q c') = in_seq (con_q c) → dispatched c' = dispatched c → took c given → took c' given.
Proof. intros E E' [H1 H2 H3]. constructor; by rewrite ?E, ?E'. Qed.

Lemma took_more c given m : took c given → Z.of_nat (length given) < 2 ^ 62 → took c (given ++ [m]).
Proof.
  intros [H1 H2 H3] Hlt. constructor; [rewrite length_app; cbn; lia..|]. by rewrite take_app_le by lia.
Qed.
Lemma ins_give c p p' m wait w :
  peer_given p' = peer_given p ++ [m] → peer_next p' = peer_next p → ins c p wait w → ins c p' wait w.
Proof.
  intros Eg En (i & l & [H1 H2 H3 H4]). exists i, l. constructor; rewrite ?Eg, ?En; [|rewrite length_app; lia|done..].
  rewrite drop_app_le, take_app_le by (rewrite ?length_drop; lia). done.
Qed.

(** The peer sends a frame. *)
Lemma ins_send c p p' f w :
  peer_step p (P_send f) p' → ins c p false w → ins c p' false (w ++ [f]).
Proof.
  intros Hs%peer_send_law (i & l & [H1 H2 H3 H4]). destruct Hs as (Eg & _ & _ & _ & Hf).
  destruct f as [m seq ack| | | | | |]; try done;
    try (exists i, l; constructor; rewrite ?Eg, ?Hf; try done; by rewrite messages_app, H1, app_nil_r).
  destruct Hf as (Hm & -> & En). rewrite H4 in *. pose proof (lookup_lt_Some _ _ _ Hm) as Hlt.
  exists i, (S l). constructor; rewrite ?Eg, ?En; [|lia|done|lia].
  rewrite messages_app, H1. cbn. rewrite (take_S_r _ _ m) by (by rewrite lookup_drop).
  rewrite seqs_app. cbn. do 4 f_equal. rewrite length_take, length_drop. lia.
Qed.

(** The front of the wire. *)
Lemma in_message c p wait m seq ack w i l :
  in_flow c p wait (F_MESSAGE m seq ack :: w) i l →
  (l ≠ 0)%nat ∧ peer_given p !! i = Some m ∧ seq = Z.of_nat i + 1 ∧ messages w = seqs (S i) (take (pred l) (drop (S i) (peer_given p))).
Proof.
  intros [H1 [H2 H2'] _ _]. change (messages (F_MESSAGE m seq ack :: w)) with ((m, seq) :: messages w) in H1.
  destruct l as [|l]; [done|]. destruct (lookup_lt_is_Some_2 (peer_given p) i) as [m' Hm]; [lia|].
  rewrite (drop_S (peer_given p) m' i) in H1 by done. cbn in H1. injection H1 as -> -> H1. done.
Qed.
Lemma ins_other c p wait f w : messages [f] = [] → ins c p wait (f :: w) → ins c p wait w.
Proof.
  intros Hf (i & l & [H1 H2 H3 H4]). exists i, l. constructor; try done.
  rewrite <- H1, <- (app_nil_l (messages w)), <- Hf, <- messages_app. done.
Qed.

(** An old message in version 1, and the next one. *)
Lemma ins_old c p wait m seq ack w :
  msgr2 = false → seq <= in_seq (con_q c) → ins c p wait (F_MESSAGE m seq ack :: w) → ins c p wait w.
Proof.
  intros Hm Hle (i & l & F). destruct (in_message _ _ _ _ _ _ _ _ _ F) as (Hl & Hg & -> & Hw).
  destruct F as [H1 [H2 H2'] H3 H4]. exists (S i), (pred l). constructor; [done|lia|by rewrite Hm|]. destruct wait; lia.
Qed.
Lemma ins_new c p wait m seq ack w :
  seq = in_seq (con_q c) + 1 → took c (peer_given p) → ins c p wait (F_MESSAGE m seq ack :: w) →
  ins (take_in m c) p wait w ∧ took (take_in m c) (peer_given p).
Proof.
  intros Heq [T1 T2 T3] (i & l & F). destruct (in_message _ _ _ _ _ _ _ _ _ F) as (Hl & Hg & -> & Hw).
  destruct F as [H1 [H2 H2'] H3 H4]. assert (in_seq (con_q c) = Z.of_nat i) as Ei by lia.
  pose proof (lookup_lt_Some _ _ _ Hg) as Hlt.
  assert (u64 (in_seq (con_q c) + 1) = Z.of_nat i + 1) as Eu by (rewrite Ei, u64_small by lia; done).
  split.
  - exists (S i), (pred l). constructor; cbn; rewrite ?Eu; [done|lia|lia|]. destruct wait; lia.
  - constructor; cbn; rewrite ?Eu; [done|lia|]. unfold dispatched in *. cbn. rewrite omap_app, T3, Ei. cbn.
    rewrite Z2Nat.inj_add, Nat2Z.id by lia. rewrite Nat.add_1_r. symmetry. by apply take_S_r.
Qed.
Lemma in_due c p wait m seq ack w :
  took c (peer_given p) → ins c p wait (F_MESSAGE m seq ack :: w) →
  1 <= seq <= in_seq (con_q c) + 1 ∧ (msgr2 = true → seq = in_seq (con_q c) + 1) ∧ in_seq (con_q c) < 2 ^ 63 - 1.
Proof.
  intros [T1 T2 T3] (i & l & F). destruct (in_message _ _ _ _ _ _ _ _ _ F) as (_ & _ & -> & _).
  destruct F as [_ [H2 H2'] H3 _]. split; [lia|]. split; [|lia]. intros Hm. specialize (H3 Hm). lia.
Qed.

(** Nothing on its way and nothing to send. *)
Lemma ins_all c p : ins c p false [] → peer_next p = length (peer_given p) → took c (peer_given p) → dispatched c = peer_given p.
Proof.
  intros (i & l & [H1 [H2 H2'] H3 H4]) En [T1 T2 T3]. rewrite T3. apply take_ge.
  apply (f_equal length) in H1. rewrite length_seqs, length_take, length_drop in H1. cbn in H1. lia.
Qed.
End ins.

(** * The invariant *)
Section invariant.
Context (HZ : Z) (round_jiffies_relative : Z → Z) (msgr2 : bool) `{P : Peer, !PeerLaws}.
Implicit Types (s : net) (c : ceph_connection) (w : list frame) (a : answer).
Local Abbreviation OPEN c := (con_state c = CEPH_CON_S_OPEN).
Local Abbreviation step := (step HZ round_jiffies_relative msgr2).
Local Abbreviation con_op := (con_op HZ round_jiffies_relative msgr2).

Record con_ok c : Prop := {
  co_lossless : f_lossytx (con_flags_ c) = false;
  co_in_msg : in_msg (con_q c) = None;
  co_closed : con_state c ≠ CEPH_CON_S_CLOSED;
  co_acked : 0 <= in_seq_acked (con_q c) <= in_seq (con_q c);
  co_idle : con_state c = CEPH_CON_S_PREOPEN ∨ con_state c = CEPH_CON_S_STANDBY → con_sock c = false;
  co_sent : ¬ OPEN c → out_sent (con_q c) = [];
}.

(** The session is open or about to be. *)
Definition live s : Prop := OPEN (n_con s) ∨ ∃ a, n_answer s = Some a ∧ refusal msgr2 a = false.

(** An answer is waited for; one that is not a refusal opens the session. *)
Definition grants s a : Prop :=
  match a with
  | A_IDENT _ cookie => msgr2 = true ∧ cookie ≠ 0
  | A_RECONNECT_OK seq => msgr2 = true ∧ seq = Z.of_nat (length (peer_got (n_peer s)))
  | A_V1 TAG_READY _ _ => msgr2 = false ∧ n_wait s = false
  | A_V1 TAG_SEQ _ _ => msgr2 = false ∧ n_wait s = true
  | _ => False
  end.
Definition in_handshake c : Prop :=
  if msgr2 then con_state c = CEPH_CON_S_V2_SESSION_CONNECT ∨ con_state c = CEPH_CON_S_V2_SESSION_RECONNECT
  else con_state c = CEPH_CON_S_V1_CONNECT_MSG.

Record Inv s : Prop := {
  inv_con : con_ok (n_con s);
  inv_out : outs msgr2 (n_subs s) (n_con s) (peer_got (n_peer s)) (n_out s);
  inv_took : took (n_con s) (peer_given (n_peer s));
  inv_in : live s → ins msgr2 (n_con s) (n_peer s) (n_wait s) (n_in s);
  inv_acks : Forall (λ f, 0 <= ack_of f <= in_seq (con_q (n_con s))) (n_out s);
  inv_acked : 0 <= peer_acked (n_peer s) <= in_seq (con_q (n_con s));
  inv_in_acks : Forall (λ f, 0 <= ack_of f <= Z.of_nat (length (peer_got (n_peer s)))) (n_in s);
  inv_ask ask : n_ask s = Some ask → asks msgr2 (n_con s) ask;
  inv_answer a : n_answer s = Some a →
    in_handshake (n_con s) ∧ (refusal msgr2 a = true ∨ refusal msgr2 a = false ∧ n_out s = [] ∧ grants s a);
  inv_fresh : msgr2 = true → v2_server_cookie (con_v2 (n_con s)) = 0 →
    ¬ OPEN (n_con s) ∧ peer_got (n_peer s) = [] ∧ in_seq (con_q (n_con s)) = 0 ∧ messages (n_out s) = [];
  inv_suits : suits (con_state (n_con s)) (n_con s);
  inv_wait : n_wait s = true → msgr2 = false;
}.

Lemma asks_handshake c ask : asks msgr2 c ask → in_handshake c.
Proof. unfold asks, in_handshake. destruct ask; try done; [by intros (-> & ?)|intros (-> & ?); by left|intros (-> & ? & _); by right]. Qed.
Lemma handshake_state c :
  in_handshake c → ¬ OPEN c ∧ con_state c ≠ CEPH_CON_S_PREOPEN ∧ con_state c ≠ CEPH_CON_S_STANDBY.
Proof. unfold in_handshake. destruct msgr2; [intros [-> | ->]|intros ->]; done. Qed.

(** Only [core] matters. *)
Lemma con_ok_core c c' : core c' = core c → con_ok c → con_ok c'.
Proof.
  intros E [H1 H2 H3 H4 H5 H6]. unfold core in E. injection E as Eq Es Ek El _ _ _.
  constructor; rewrite ?Eq, ?Es, ?Ek, ?El; done.
Qed.
Lemma Inv_core p o i ask ans wait subs c c' :
  core c' = core c → Inv (Net c p o i ask ans wait subs) → Inv (Net c' p o i ask ans wait subs).
Proof.
  intros E [H1 H2 H3 H4 H5 H6 H7 H8 H9 H10 H11 H12]. pose proof (con_ok_core _ _ E H1) as H1'.
  unfold core in E. injection E as Eq Es _ _ _ Ed Ek. cbn in *. constructor; cbn; rewrite ?Eq, ?Es, ?Ek; try done.
  - eapply outs_same; [..|exact H2]; by rewrite ?Eq, ?Es.
  - eapply took_same; [..|exact H3]; by rewrite ?Eq.
  - intros Hl. eapply ins_same; [|apply H4]; [by rewrite Eq|]. unfold live in *. cbn in *. by rewrite Es in Hl.
  - intros x Hx. specialize (H8 x Hx). unfold asks in *. by rewrite Es, Eq.
  - intros x Hx. specialize (H9 x Hx). unfold in_handshake in *. by rewrite Es.
  - unfold suits in *. by rewrite Ek.
Qed.

Lemma awake_open st : awake st = CEPH_CON_S_OPEN ↔ st = CEPH_CON_S_OPEN.
Proof. unfold awake. destruct (Z.eqb_spec st CEPH_CON_S_STANDBY); [subst; done|done]. Qed.
Lemma awake_other st : st ≠ CEPH_CON_S_STANDBY → awake st = st.
Proof. intros. unfold awake. by rewrite (proj2 (Z.eqb_neq _ _)). Qed.

(** What happens outside of the handshake. *)
Lemma Inv_quiet s c0 out' in' subs' :
  Inv s → con_ok c0 → (con_state c0 = con_state (n_con s) ∨ con_state c0 = awake (con_state (n_con s))) →
  v2_server_cookie (con_v2 c0) = v2_server_cookie (con_v2 (n_con s)) →
  (in_seq (con_q c0) = in_seq (con_q (n_con s)) ∨ OPEN (n_con s) ∧ in_seq (con_q (n_con s)) <= in_seq (con_q c0)) →
  took c0 (peer_given (n_peer s)) → outs msgr2 subs' c0 (peer_got (n_peer s)) out' →
  Forall (λ f, 0 <= ack_of f <= in_seq (con_q c0)) out' → (out' = n_out s ∨ OPEN (n_con s)) →
  Forall (λ f, 0 <= ack_of f <= Z.of_nat (length (peer_got (n_peer s)))) in' →
  (live s → ins msgr2 c0 (n_peer s) (n_wait s) in') →
  Inv (Net c0 (n_peer s) out' in' (n_ask s) (n_answer s) (n_wait s) subs').
Proof.
  intros [H1 H2 H3 H4 H5 H6 H7 H8 H9 H10 H11 H12] Hok Hst Hk Hi Ht Ho Hacks Hout Hin Hins.
  assert (Hopen : OPEN c0 ↔ OPEN (n_con s)) by (destruct Hst as [-> | ->]; [done|apply awake_open]).
  assert (Hhs : in_handshake (n_con s) → con_state c0 = con_state (n_con s) ∧ in_seq (con_q c0) = in_seq (con_q (n_con s)) ∧ out' = n_out s).
  { intros (Hn1 & Hn2 & Hn3)%handshake_state. split; [destruct Hst as [->|Hst]; [done|]; by rewrite Hst, awake_other|].
    destruct Hi as [Hi|[? _]]; [|done]. destruct Hout; done. }
  constructor; cbn; try done.
  - intros [Hl|Hl]; apply Hins; [left; by apply Hopen|by right].
  - lia.
  - intros ask Ha. specialize (H8 ask Ha). destruct (Hhs (asks_handshake _ _ H8)) as (Es & Ei & _). unfold asks in *. by rewrite Es, Ei.
  - intros a Ha. destruct (H9 a Ha) as [Hh Hc]. destruct (Hhs Hh) as (Es & _ & ->). split; [|done]. unfold in_handshake in *. by rewrite Es.
  - intros Hm Hz. rewrite Hk in Hz. destruct (H10 Hm Hz) as (Hn & Hg & Hz' & Hw). split; [by rewrite Hopen|]. split; [done|].
    destruct Hi as [-> |[? _]], Hout as [-> |?]; done.
  - destruct H11 as [S1 S2]. unfold suits. rewrite Hk. destruct Hst as [-> | ->]; [done|]. unfold awake. by destruct (_ =? _).
Qed.

(** A session has been opened. *)
Lemma Inv_opened s c' q' fs :
  Inv s → in_handshake (n_con s) → n_out s = [] → opened q' fs (n_con s) c' → in_msg q' = None → in_seq q' = in_seq (con_q (n_con s)) →
  0 <= in_seq_acked q' <= in_seq q' → live s →
  (msgr2 = true → v2_server_cookie (con_v2 c') ≠ 0) → messages fs = [] → Forall (λ f, 0 <= ack_of f <= in_seq q') fs →
  outs msgr2 (n_subs s) c' (peer_got (n_peer s)) fs →
  Inv (Net c' (n_peer s) fs (n_in s) None None (n_wait s) (n_subs s)).
Proof.
  intros [H1 H2 H3 H4 H5 H6 H7 H8 H9 H10 H11 H12] Hhs Hout (Ho & Hl & Hd & Hq & Hf) Him Hi Hia Hlive Hk Hm Hacks HO.
  destruct H1. constructor; cbn; try done; rewrite ?Hq, ?Hi; try done.
  - constructor; rewrite ?Hq, ?Hl, ?Ho; try done. by intros [?|?].
  - eapply took_same; [..|exact H3]; by rewrite ?Hq.
  - intros _. eapply ins_same; [|by apply H4]. by rewrite Hq.
  - by rewrite <- Hi.
  - intros Hv Hz. by destruct (Hk Hv).
  - unfold suits. by rewrite Ho.
Qed.

(** A session has been asked for, or a refusal read. *)
Lemma Inv_requested s c' st fs :
  Inv s → core c' = core (asked st fs (n_con s)) → ¬ OPEN (n_con s) →
  st ∉ [CEPH_CON_S_OPEN; CEPH_CON_S_PREOPEN; CEPH_CON_S_STANDBY; CEPH_CON_S_CLOSED] →
  (fs = [] ∨ ∃ ask, fs = [ask] ∧ asks msgr2 c' ask) →
  suits st (n_con s) →
  Inv (Net c' (n_peer s) (n_out s) (n_in s) (last fs) None (n_wait s) (n_subs s)).
Proof.
  intros [H1 H2 H3 H4 H5 H6 H7 H8 H9 H10 H11 H12] Ec Hst Hn Hask Hk.
  apply not_elem_of_cons in Hn as [Hn1 Hn]. apply not_elem_of_cons in Hn as [Hn2 Hn].
  apply not_elem_of_cons in Hn as [Hn3 Hn]. apply not_elem_of_cons in Hn as [Hn4 _].
  unfold core in Ec. cbn in Ec. injection Ec as Eq Es Ek El Ef Ed Eck. destruct H1.
  assert (¬ OPEN c') as Hc' by (by rewrite Es). constructor; cbn; rewrite ?Eq; try done.
  - constructor; rewrite ?Eq, ?El, ?Es, ?Ek; try done; [by intros [?|?]|auto].
  - eapply outs_same; [..|exact H2]; by rewrite ?Eq.
  - eapply took_same; [..|exact H3]; by rewrite ?Eq.
  - intros [?|(? & ? & _)]; done.
  - intros ask Ha. destruct Hask as [->|(x & -> & Hx)]; [done|]. by injection Ha as <-.
  - intros Hm Hz. rewrite Eck in Hz. by destruct (H10 Hm Hz) as (_ & ? & ? & ?).
  - unfold suits. by rewrite Es, Eck.
Qed.

Lemma new_frames_app c c' fs : con_frames c' = con_frames c ++ fs → new_frames c c' = fs.
Proof. intros E. unfold new_frames. rewrite E. apply drop_app_length. Qed.

(** ** The events of the connection *)
Definition handled s (e : con_event) : Prop :=
  wpst (con_op s e) (n_con s) (λ ret c', Inv (after s e c') ∧
    (e = E_READ → 0 <= ret ∧ OPEN c' ∧ (out_queue (con_q (n_con s)) = [] → out_queue (con_q c') = []))).

Lemma handled_unit s e (m : CON unit) (Q : ceph_connection → Prop) :
  con_op s e = (_ ← m; mret 0) → e ≠ E_READ → wpst m (n_con s) (λ _ c', Q c') →
  (∀ c', Q c' → Inv (after s e c')) → handled s e.
Proof.
  intros Eop He Hm HQ. unfold handled. rewrite Eop. apply wpst_bind. eapply wpst_mono; [exact Hm|].
  intros [] c' Hc. apply wpst_ret. split; [by apply HQ|done].
Qed.

Lemma con_ok_awake c : con_ok c → con_ok (set_con_state (awake (con_state c)) c).
Proof.
  intros [H1 H2 H3 H4 H5 H6]. constructor; cbn; try done; unfold awake; destruct (Z.eqb_spec (con_state c) CEPH_CON_S_STANDBY) as [E|E]; auto.
  - rewrite E in H6. intros _. by apply H6.
Qed.

Lemma handled_send s m : Inv s → ready msgr2 s (E_SEND m) → handled s (E_SEND m).
Proof.
  intros HI [Hm Hlen]. pose proof HI as [H1 H2 H3 H4 H5 H6 H7 H8 H9 H10 H11 H12].
  assert (linked m (con_q (n_con s)) = false) as Hl by (destruct (linked _ _) eqn:Hl; [by eapply outs_linked in Hl|done]).
  eapply handled_unit; [done|done|apply ceph_con_send_core; [apply H1|done]|]. cbn. intros c' Ec.
  eapply Inv_core; [exact Ec|]. apply (Inv_quiet s); cbn; try done; [|by right|by left|..].
  - pose proof (con_ok_awake _ H1) as [G1 G2 G3 G4 G5 G6]. by constructor.
  - by eapply took_same; [..|exact H3].
  - eapply outs_same; [..|by apply outs_send; [..|exact H2]]; try done. apply awake_open.
  - by left.
  - intros Hv. by eapply ins_same; [|by apply H4].
Qed.

Lemma handled_revoke s m : Inv s → ready msgr2 s (E_REVOKE m) → handled s (E_REVOKE m).
Proof.
  intros HI Hm. pose proof HI as [H1 H2 H3 H4 H5 H6 H7 H8 H9 H10 H11 H12]. cbn in Hm.
  assert (linked m (con_q (n_con s)) = true) as Hl.
  { apply existsb_exists. exists (QMsg m true 0). split; [apply in_app_iff; left; by apply list_elem_of_In|by apply Z.eqb_eq]. }
  eapply handled_unit; [done|done|by apply ceph_msg_revoke_core|]. cbn. intros c' [om Ec].
  eapply Inv_core; [exact Ec|]. apply (Inv_quiet s); cbn; try done; [|by left|by left|..].
  - destruct H1. constructor; cbn; try done. intros Ho. by rewrite co_sent0.
  - by eapply took_same; [..|exact H3].
  - by eapply outs_same; [..|apply outs_revoke; [exact Hm|exact H2]].
  - by left.
  - intros Hv. by eapply ins_same; [|by apply H4].
Qed.

Lemma handled_keepalive s : Inv s → handled s E_KEEPALIVE.
Proof.
  intros HI. pose proof HI as [H1 H2 H3 H4 H5 H6 H7 H8 H9 H10 H11 H12].
  eapply handled_unit; [done|done|apply ceph_con_keepalive_core|]. cbn. intros c' Ec.
  eapply Inv_core; [exact Ec|]. apply (Inv_quiet s); cbn; try done; [by apply con_ok_awake|by right|by left|..].
  - by eapply took_same; [..|exact H3].
  - eapply outs_same; [..|exact H2]; try done. apply awake_open.
  - by left.
  - intros Hv. by eapply ins_same; [|by apply H4].
Qed.

Lemma handled_write s : Inv s → handled s E_WRITE.
Proof.
  intros HI. pose proof HI as [H1 H2 H3 H4 H5 H6 H7 H8 H9 H10 H11 H12].
  pose proof (write_next_core msgr2 (n_con s) (co_acked _ H1)) as Hw. unfold handled. cbn [con_op]. apply wpst_bind.
  eapply wpst_mono; [exact Hw|]. intros b c' (q' & fs & Ec & Hfs & Hnil & Ht). apply wpst_ret. split; [|done]. cbn [after].
  pose proof Ht as (Hi & Hm & Ha & Hq). rewrite (new_frames_app _ _ fs) by (by injection Ec as _ _ _ _ -> _ _).
  eapply Inv_core; [exact Ec|]. set (c0 := set_con_frames _ _). assert (con_q c0 = q') as Eq by done.
  assert (in_seq (con_q c0) = in_seq (con_q (n_con s))) as Ei by (by rewrite Eq).
  apply (Inv_quiet s); try done.
  - destruct H1. constructor; rewrite ?Eq; try done; [by rewrite Hm|]. intros Ho. destruct Hq as [(_ & -> & _)|[Hopen _]]; [by apply co_sent0|].
    by bool_to_prop.
  - by left.
  - by left.
  - by eapply took_same; [..|exact H3].
  - by eapply outs_write.
  - rewrite Ei. by apply Forall_app.
  - destruct Hnil as [->|Hopen]; [left; by rewrite app_nil_r|right; by bool_to_prop].
  - intros Hv. by eapply ins_same; [|by apply H4].
Qed.

(** *** Reading *)

(** What reading a frame does: the message to the front of the wire may be taken in. *)
Lemma Inv_read s c0 fs :
  Inv s → OPEN (n_con s) → fs = tail (n_in s) → con_ok c0 → con_state c0 = con_state (n_con s) →
  v2_server_cookie (con_v2 c0) = v2_server_cookie (con_v2 (n_con s)) →
  in_seq (con_q (n_con s)) <= in_seq (con_q c0) → took c0 (peer_given (n_peer s)) →
  outs msgr2 (n_subs s) c0 (peer_got (n_peer s)) (n_out s) → ins msgr2 c0 (n_peer s) (n_wait s) fs →
  Inv (Net c0 (n_peer s) (n_out s) fs (n_ask s) (n_answer s) (n_wait s) (n_subs s)).
Proof.
  intros HI Ho -> Hok Hst Hk Hi Ht HO HN. pose proof HI as [H1 H2 H3 H4 H5 H6 H7 H8 H9 H10 H11 H12].
  apply (Inv_quiet s); try done; [by left|by right| |by left|].
  - eapply Forall_impl; [exact H5|]. cbn. lia.
  - destruct (n_in s) as [|f w]; [done|]. by apply Forall_cons_1 in H7 as [_ H7].
Qed.

Lemma con_ok_discarded ack c : con_ok c → OPEN c → con_ok (discarded ack c).
Proof. intros [G1 G2 G3 G4 G5 G6] Ho. by constructor. Qed.
Lemma con_ok_requeued ack c : con_ok c → con_ok (requeued ack c).
Proof. intros [G1 G2 G3 G4 G5 G6]. by constructor. Qed.
Lemma con_ok_take_in m c : con_ok c → OPEN c → in_seq (con_q c) < 2 ^ 63 → con_ok (take_in m c).
Proof. intros [G1 G2 G3 G4 G5 G6] Ho Hr. constructor; cbn; try done. rewrite u64_small by lia. lia. Qed.

Definition was_read s w (ret : Z) c' : Prop :=
  0 <= ret ∧ OPEN c' ∧ (out_queue (con_q (n_con s)) = [] → out_queue (con_q c') = []) ∧
  Inv (Net c' (n_peer s) (n_out s) w (n_ask s) (n_answer s) (n_wait s) (n_subs s)).

Lemma was_read_core s w ret c0 c' :
  core c' = core c0 → 0 <= ret → OPEN c0 → (out_queue (con_q (n_con s)) = [] → out_queue (con_q c0) = []) →
  Inv (Net c0 (n_peer s) (n_out s) w (n_ask s) (n_answer s) (n_wait s) (n_subs s)) → was_read s w ret c'.
Proof.
  intros Ec Hr Ho Hq HI. split; [done|]. split; [by injection Ec as _ -> _ _ _ _ _|]. split; [by injection Ec as -> _ _ _ _ _ _|].
  by eapply Inv_core.
Qed.

Lemma read_message s m seq ack w :
  Inv s → OPEN (n_con s) → n_in s = F_MESSAGE m seq ack :: w →
  wpst (read_frame msgr2 (F_MESSAGE m seq ack)) (n_con s) (λ ret c', was_read s w ret c').
Proof.
  intros HI Ho Hw. pose proof HI as [H1 H2 H3 H4 H5 H6 H7 H8 H9 H10 H11 H12].
  specialize (H4 ltac:(by left)). rewrite Hw in H4. destruct (in_due _ _ _ _ _ _ _ _ H3 H4) as (D1 & D2 & D3).
  rewrite Hw in H7. apply Forall_cons_1 in H7 as [Hack _]. cbn in Hack. cbn [read_frame].
  assert (Hd : outs msgr2 (n_subs s) (discarded ack (n_con s)) (peer_got (n_peer s)) (n_out s)) by (by apply outs_discard_sent; [lia|..]).
  pose proof (con_ok_discarded ack _ H1 Ho) as Hok.
  assert (msgr2 = true ∨ msgr2 = false) as [Em|Em] by (destruct msgr2; auto); rewrite Em.
  - eapply wpst_mono; [apply v2_read_message_core; try done; [apply H1|destruct H1; lia|by apply D2]|]. intros ret c' [-> Ec].
    eapply was_read_core; [exact Ec|done..|].
    apply (ins_same _ _ (discarded ack (n_con s))) in H4; [|done]. apply (took_same _ (discarded ack (n_con s))) in H3; [|done..].
    destruct (ins_new _ (discarded ack (n_con s)) _ _ _ _ _ _ (D2 Em) H3 H4) as [H4' H3'].
    apply Inv_read; try done; [by rewrite Hw|by apply con_ok_take_in; [..|cbn; lia]|cbn; rewrite u64_small by (destruct H1; lia); lia|].
    by eapply outs_same; [..|exact Hd].
  - eapply wpst_mono; [apply v1_read_message_core; try done; [apply H1|destruct H1; lia|lia]|]. intros ret c' [-> Ec].
    eapply was_read_core; [exact Ec|done|by destruct (_ <=? _)|by destruct (_ <=? _)|]. destruct (Z.leb_spec seq (in_seq (con_q (n_con s)))) as [Hle|Hgt].
    + apply Inv_read; try done; [by rewrite Hw|]. by eapply ins_old.
    + assert (seq = in_seq (con_q (n_con s)) + 1) as Heq by lia. destruct (ins_new _ _ _ _ _ _ _ _ Heq H3 H4) as [H4' H3'].
      apply Inv_read; try done; [by rewrite Hw|by apply con_ok_take_in; [..|lia]|cbn; rewrite u64_small by (destruct H1; lia); lia|].
      by eapply outs_same; [..|exact H2].
Qed.

Lemma handled_read s : Inv s → ready msgr2 s E_READ → handled s E_READ.
Proof.
  intros HI [Ho Hn]. pose proof HI as [H1 H2 H3 H4 H5 H6 H7 H8 H9 H10 H11 H12]. unfold handled. cbn [con_op after].
  destruct (n_in s) as [|f w] eqn:Hw; [done|]. cbn [tail]. clear Hn.
  apply (wpst_mono _ _ (λ ret c', was_read s w ret c')); [|by intros ret c' (? & ? & ? & ?)].
  assert (Hin : ins msgr2 (n_con s) (n_peer s) (n_wait s) (f :: w)) by (apply H4; by left).
  assert (Hother : ∀ c0, messages [f] = [] → con_ok c0 → core c0 = core (set_con_q (con_q c0) (n_con s)) →
    in_seq (con_q c0) = in_seq (con_q (n_con s)) → outs msgr2 (n_subs s) c0 (peer_got (n_peer s)) (n_out s) →
    Inv (Net c0 (n_peer s) (n_out s) w (n_ask s) (n_answer s) (n_wait s) (n_subs s))).
  { intros c0 Hf Hok Ec Ei HO. unfold core in Ec. cbn in Ec. injection Ec as Es _ _ _ Ed Ek.
    apply Inv_read; try done; [by rewrite Hw|lia|by eapply took_same; [..|exact H3]|].
    eapply ins_other; [exact Hf|]. by eapply ins_same. }
  apply Forall_cons_1 in H7 as [Hack _].
  assert (Hsame : messages [f] = [] → wpst (mret 0) (n_con s) (λ (ret : Z) c',
    was_read s w ret c')).
  { intros Hf. apply wpst_ret. split; [done|]. split; [done|]. split; [done|]. by apply Hother. }
  destruct f as [m seq ack|ack| | |seq| |]; try (by apply Hsame).
  - by apply read_message.
  - assert (∀ m : CON unit, m = ceph_con_discard_sent ack → wpst (_ ← m; mret 0) (n_con s) (λ (ret : Z) c',
      was_read s w ret c')) as Hd.
    { intros m ->. apply wpst_bind, wpst_modify, wpst_ret. split; [done|]. split; [done|]. split; [done|]. apply (Hother (discarded ack (n_con s))); [done|by apply con_ok_discarded|done..|].
      apply outs_discard_sent; [cbn in Hack; lia|done..]. }
    cbn [read_frame]. assert (msgr2 = true ∨ msgr2 = false) as [Em|Em] by (destruct msgr2; auto); rewrite Em; [|by apply Hd].
    unfold process_ack. apply wpst_bind, wpst_get. rewrite Ho. cbn [Z.eqb Pos.eqb negb CEPH_CON_S_OPEN]. by apply Hd.
  - cbn [read_frame]. assert (msgr2 = true ∨ msgr2 = false) as [Em|Em] by (destruct msgr2; auto); rewrite Em; [by apply Hsame|].
    apply wpst_bind, wpst_modify, wpst_ret. split; [done|]. split; [done|]. split; [by cbn; intros ->|]. apply (Hother (requeued seq (n_con s))); try done.
    + by apply con_ok_requeued.
    + apply outs_discard_requeued; [cbn in Hack; lia|done..].
Qed.

(** *** Faults and the handshake *)
Lemma handled_fault s : Inv s → handled s E_FAULT.
Proof.
  intros [H1 H2 H3 H4 H5 H6 H7 H8 H9 H10 H11 H12].
  eapply handled_unit; [done|done|apply con_fault_core, H1|]. cbn. intros c' (st & Hst & Ec). fold (faulted st (n_con s)) in Ec.
  eapply Inv_core; [exact Ec|]. assert (st ≠ CEPH_CON_S_OPEN) as Hne by (by destruct Hst as [-> | ->]).
  destruct H1. constructor; cbn; try done.
  - constructor; cbn; try done. by destruct Hst as [-> | ->].
  - by apply outs_faulted.
  - by eapply took_same; [..|exact H3].
  - by intros [?|(? & ? & _)].
  - intros Hm Hz. by destruct (H10 Hm Hz) as (_ & ? & ? & ?).
  - split; intros ->; by destruct Hst.
Qed.

Lemma handled_connect s made err : Inv s → ready msgr2 s (E_CONNECT made err) → handled s (E_CONNECT made err).
Proof.
  intros [H1 H2 H3 H4 H5 H6 H7 H8 H9 H10 H11 H12] Hst. cbn in Hst.
  assert (wpst (con_op s (E_CONNECT made err)) (n_con s) (λ _ c', ∃ sk st, core c' = core (set_con_sock sk (set_con_state st (n_con s))) ∧
    st = if msgr2 then CEPH_CON_S_V2_BANNER_PREFIX else CEPH_CON_S_V1_BANNER)) as Hw.
  { cbn [con_op]. destruct msgr2.
    - eapply wpst_mono; [apply v2_connect_core; [done|by apply H1; left]|]. intros ret c' Ec. by exists (made && negb (err <? 0)), CEPH_CON_S_V2_BANNER_PREFIX.
    - eapply wpst_mono; [apply v1_connect_core; [done|by apply H1; left|apply H1]|]. intros ret c' Ec. by exists (made && negb (err <? 0)), CEPH_CON_S_V1_BANNER. }
  eapply wpst_mono; [exact Hw|]. clear Hw. intros ret c' (sk & st & Ec & Est). split; [|done]. cbn [after]. eapply Inv_core; [exact Ec|].
  assert (Hh : ∀ P : Prop, in_handshake (n_con s) → P) by (intros Q (_ & ? & _)%handshake_state; done).
  assert (st ∉ [CEPH_CON_S_OPEN; CEPH_CON_S_PREOPEN; CEPH_CON_S_STANDBY; CEPH_CON_S_CLOSED;
      CEPH_CON_S_V2_SESSION_CONNECT; CEPH_CON_S_V2_SESSION_RECONNECT]) as Hn.
  { subst st. destruct msgr2; repeat (apply not_elem_of_cons; split; [done|]); apply not_elem_of_nil. }
  repeat (apply not_elem_of_cons in Hn as [? Hn]).
  constructor; cbn; try done.
  - destruct H1. constructor; cbn; try done; [by intros [?|?]|]. intros _. apply co_sent0. by rewrite Hst.
  - by eapply outs_same; [..|exact H2].
  - by eapply took_same; [..|exact H3].
  - intros [?|(a & Ha & _)]; [done|]. apply Hh, (H9 a Ha).
  - intros ask Ha. eapply Hh, asks_handshake, H8, Ha.
  - intros a Ha. apply Hh, (H9 a Ha).
  - intros Hm Hz. by destruct (H10 Hm Hz) as (_ & ? & ? & ?).
Qed.

Lemma handled_ask s cookie : Inv s → ready msgr2 s (E_ASK cookie) → handled s (E_ASK cookie).
Proof.
  intros HI (Hst & _ & _). unfold handled. cbn [con_op after].
  eapply wpst_mono; [apply ask_session_core|]. intros ret c' (st & ask & Ec & Ha & Hk). split; [|done].
  rewrite (new_frames_app _ _ [ask]) by (by injection Ec as _ _ _ _ -> _ _).
  eapply (Inv_requested s c' st [ask]); [done|exact Ec|rewrite Hst; by destruct msgr2| |right; by eexists|done].
  assert (con_state c' = st) as <- by (by injection Ec as _ -> _ _ _ _ _).
  pose proof (handshake_state _ (asks_handshake _ _ Ha)) as (N1 & N2 & N3).
  assert (con_state c' ≠ CEPH_CON_S_CLOSED) as N4.
  { intros E. apply asks_handshake in Ha. unfold in_handshake in Ha. rewrite E in Ha. destruct msgr2; [|done]. by destruct Ha. }
  repeat (apply not_elem_of_cons; split; [done|]). apply not_elem_of_nil.
Qed.

(** A refusal, or an answer to something else. *)
Lemma Inv_not_opened s a c' :
  Inv s → n_answer s = Some a → not_opened msgr2 (n_con s) c' → Inv (after s E_ANSWER c').
Proof.
  intros HI Ha (fs & Ec & Hask). pose proof (inv_answer _ HI a Ha) as [Hh _].
  destruct (handshake_state _ Hh) as (N1 & N2 & N3). assert (con_state c' = con_state (n_con s)) as Es by (by injection Ec as _ -> _ _ _ _ _).
  cbn [after]. rewrite Es, (proj2 (Z.eqb_neq _ _)) by done. rewrite (new_frames_app _ _ fs) by (by injection Ec as _ _ _ _ -> _ _).
  eapply Inv_requested; [done|exact Ec|done| |done|apply (inv_suits _ HI)].
  pose proof (co_closed _ (inv_con _ HI)). repeat (apply not_elem_of_cons; split; [done|]). apply not_elem_of_nil.
Qed.

Lemma Inv_granted s a c' q' fs :
  Inv s → n_answer s = Some a → refusal msgr2 a = false → opened q' fs (n_con s) c' →
  in_msg q' = None → in_seq q' = in_seq (con_q (n_con s)) → 0 <= in_seq_acked q' <= in_seq q' →
  (msgr2 = true → v2_server_cookie (con_v2 c') ≠ 0) → messages fs = [] → Forall (λ f, 0 <= ack_of f <= in_seq q') fs →
  outs msgr2 (n_subs s) c' (peer_got (n_peer s)) fs → Inv (after s E_ANSWER c').
Proof.
  intros HI Ha Hr Hop Him Hi Hia Hk Hm Hacks HO. destruct (inv_answer _ HI a Ha) as [Hh [Hr'|(_ & Hout & _)]]; [congruence|].
  cbn [after]. rewrite (proj1 Hop), Z.eqb_refl, Hout. rewrite (new_frames_app _ _ fs) by apply Hop.
  eapply (Inv_opened s c' q'); try done. right. by exists a.
Qed.

Lemma handled_answer s : Inv s → ready msgr2 s E_ANSWER → handled s E_ANSWER.
Proof.
  intros HI Hn. pose proof HI as [H1 H2 H3 H4 H5 H6 H7 H8 H9 H10 H11 H12]. unfold handled. cbn [con_op].
  destruct (n_answer s) as [a|] eqn:Ha; [|done]. clear Hn. destruct (H9 a eq_refl) as [Hh Hc].
  assert (Hno : ∀ c', not_opened msgr2 (n_con s) c' → Inv (after s E_ANSWER c') ∧ (E_ANSWER = E_READ → False)).
  { intros c' Hc'. split; [by eapply Inv_not_opened|done]. }
  destruct (handshake_state _ Hh) as (N1 & _). pose proof (co_sent _ H1 N1) as Hsent.
  assert (Hsame : ∀ c' fs q', refusal msgr2 a = false → n_out s = [] → opened q' fs (n_con s) c' → messages fs = [] →
    (msgr2 = true → peer_got (n_peer s) = []) → out_sent q' = out_sent (con_q (n_con s)) →
    out_queue q' = out_queue (con_q (n_con s)) → out_seq q' = out_seq (con_q (n_con s)) →
    outs msgr2 (n_subs s) c' (peer_got (n_peer s)) fs).
  { intros c' fs q' _ Hout (_ & _ & _ & Hq & _) Hm Hg E1 E2 E3. rewrite <- Hq in E1, E2, E3.
    eapply (outs_opened _ _ (n_con s)); [done|done|done|done..|]. by eapply outs_lost. }
  destruct a as [gs ck|seq|cs|gs|tag cs gs]; cbn [process_answer].
  - eapply wpst_mono; [apply (process_server_ident_core msgr2)|]. intros ret c' Hc'.
    destruct (Z.eqb_spec (con_state (n_con s)) CEPH_CON_S_V2_SESSION_CONNECT) as [Hst|Hst]; [|split; [by apply Hno|done]].
    split; [|done]. destruct Hc' as [Hop Hk], Hc as [Hr|(Hr & Hout & Hm & Hck)]; [done|].
    destruct (H10 Hm (proj1 H11 Hst)) as (_ & Hgot & _).
    eapply (Inv_granted s); [done|exact Ha|done|exact Hop|apply H1|done|apply H1|by rewrite Hk|done|done|].
    by eapply Hsame.
  - eapply wpst_mono; [apply (process_session_reconnect_ok_core msgr2)|]. intros ret c' Hc'.
    destruct (Z.eqb_spec (con_state (n_con s)) CEPH_CON_S_V2_SESSION_RECONNECT) as [Hst|Hst]; [|split; [by apply Hno|done]].
    split; [|done]. destruct Hc' as [Hop Hk], Hc as [Hr|(Hr & Hout & Hm & ->)]; [done|].
    eapply (Inv_granted s); [done|exact Ha|done|exact Hop|apply H1|done|apply H1| |done|done|].
    + rewrite Hk. intros _. by apply H11.
    + destruct Hop as (_ & _ & _ & Hq & _). eapply (outs_reopened _ _ (n_con s)); [done|done|by rewrite Hq|by rewrite Hq|by rewrite Hq|].
      by eapply outs_lost.
  - assert (msgr2 = true) as Hm by (destruct Hc as [Hr|(_ & _ & [])]; exact Hr).
    eapply wpst_mono; [exact (process_retry_core (A_RETRY cs) (n_con s) I)|]. intros ret c' Hno'. split; [|done]. apply Hno. by rewrite Hm.
  - assert (msgr2 = true) as Hm by (destruct Hc as [Hr|(_ & _ & [])]; exact Hr).
    eapply wpst_mono; [exact (process_retry_core (A_RETRY_GLOBAL gs) (n_con s) I)|]. intros ret c' Hno'. split; [|done]. apply Hno. by rewrite Hm.
  - destruct Hc as [Hr|(Hr & Hout & Hg)].
    + assert (msgr2 = false) as Hm by (apply negb_true_iff; by destruct tag). rewrite Hm in Hr. unfold in_handshake in Hh. rewrite Hm in Hh.
      eapply wpst_mono; [by apply process_connect_refused_core|]. intros ret c' Hno'. split; [|done]. apply Hno. by rewrite Hm.
    + cbn in Hg. destruct tag; try done; destruct Hg as [Hm Hwait].
      * eapply wpst_mono; [apply process_connect_seq_core|]. intros ret c' Hop. split; [|done]. pose proof (tk_bounds _ _ H3) as Hb.
        eapply (Inv_granted s); [done|exact Ha|done|exact Hop|apply H1|done|cbn; lia|by rewrite Hm|done|repeat constructor; cbn; lia|].
        eapply Hsame; [done|done|exact Hop|done|by rewrite Hm|done..].
      * eapply wpst_mono; [apply process_connect_ready_core|]. intros ret c' Hop. split; [|done].
        eapply (Inv_granted s); [done|exact Ha|done|exact Hop|apply H1|done|apply H1|by rewrite Hm|done|done|].
        eapply Hsame; [done|done|exact Hop|done|by rewrite Hm|done..].
Qed.

Lemma handled_all s e : Inv s → ready msgr2 s e → handled s e.
Proof.
  intros HI Hr. destruct e; [by apply handled_send|by apply handled_revoke|by apply handled_keepalive|by apply handled_write|
    by apply handled_read|by apply handled_fault|by apply handled_connect|by apply handled_ask|by apply handled_answer].
Qed.

(** ** What the peer does *)
Lemma Inv_give s m p' :
  Inv s → Z.of_nat (length (peer_given (n_peer s))) < 2 ^ 62 → peer_step (n_peer s) (P_give m) p' →
  Inv (Net (n_con s) p' (n_out s) (n_in s) (n_ask s) (n_answer s) (n_wait s) (n_subs s)).
Proof.
  intros [H1 H2 H3 H4 H5 H6 H7 H8 H9 H10 H11 H12] Hlt Hs%peer_give_law. destruct Hs as (Eg & Eo & En & Ea).
  constructor; cbn; rewrite ?Eo, ?Ea; try done.
  - rewrite Eg. by apply took_more.
  - intros Hl. by eapply ins_give; [..|apply H4].
  - intros a Ha. destruct (H9 a Ha) as [Hh Hc]. split; [done|]. destruct Hc as [?|(? & ? & Hg)]; [by left|right].
    split; [done|]. split; [done|]. unfold grants in *. cbn. by rewrite Eo.
Qed.

Lemma Inv_send s f p' :
  Inv s → n_wait s = false → peer_step (n_peer s) (P_send f) p' →
  Inv (Net (n_con s) p' (n_out s) (n_in s ++ [f]) (n_ask s) (n_answer s) false (n_subs s)).
Proof.
  intros [H1 H2 H3 H4 H5 H6 H7 H8 H9 H10 H11 H12] Hw Hs. pose proof (peer_send_law _ _ _ Hs) as (Eg & Eo & Ea & Hf & _).
  constructor; cbn; rewrite ?Eo, ?Ea, ?Eg; try done.
  - intros Hl. apply (ins_send msgr2 (n_con s) (n_peer s)); [done|]. rewrite <- Hw. by apply H4.
  - apply Forall_app. split; [done|]. by constructor.
  - intros a Ha. destruct (H9 a Ha) as [Hh Hc]. split; [done|]. destruct Hc as [?|(? & ? & Hg)]; [by left|right].
    split; [done|]. split; [done|]. unfold grants in *. rewrite Hw in Hg. cbn. by rewrite Eo.
Qed.

Lemma Inv_peer_read s f w p' :
  Inv s → n_wait s = false → n_out s = f :: w → peer_step (n_peer s) (P_read f) p' →
  Inv (Net (n_con s) p' w (n_in s) (n_ask s) (n_answer s) false (n_subs s)).
Proof.
  intros [H1 H2 H3 H4 H5 H6 H7 H8 H9 H10 H11 H12] Hw Hout Hs. pose proof (peer_read_law _ _ _ Hs) as (Eg & En & Ha & Eo).
  rewrite Hout in H2, H5, H10. destruct (outs_peer_read _ _ _ _ _ _ H2) as [H2' _]. rewrite <- Eo in H2'.
  apply Forall_cons_1 in H5 as [Hf H5].
  constructor; cbn; rewrite ?Eg; try done.
  - intros Hl. specialize (H4 Hl). rewrite Hw in H4. destruct H4 as (i & l & [I1 I2 I3 I4]). exists i, l. constructor; by rewrite ?Eg, ?En.
  - lia.
  - eapply Forall_impl; [exact H7|]. intros x. cbn. assert (length (peer_got (n_peer s)) ≤ length (peer_got p'))%nat; [|lia].
    rewrite Eo. destruct f; try done. destruct (_ =? _); [rewrite length_app; lia|done].
  - intros a Ha'. destruct (H9 a Ha') as [Hh [?|(_ & Hn & _)]]; [by split; [|left]|]. by rewrite Hout in Hn.
  - intros Hm Hz. destruct (H10 Hm Hz) as (Hn & Hg & Hz' & Hms). split; [done|]. rewrite Eo. split; [by destruct f|]. split; [done|]. by destruct f.
Qed.

Lemma Inv_told s n w p' :
  Inv s → n_wait s = true → n_out s = F_SEQ n :: w → peer_step (n_peer s) (P_open (Some n)) p' →
  Inv (Net (n_con s) p' w (n_in s) (n_ask s) (n_answer s) false (n_subs s)).
Proof.
  intros [H1 H2 H3 H4 H5 H6 H7 H8 H9 H10 H11 H12] Hw Hout Hs. pose proof (peer_open_law _ _ _ Hs) as (Eg & Eo & Ea & En).
  pose proof (H12 Hw) as Hm. rewrite Hout in H2, H5. destruct (outs_peer_read _ _ _ _ _ _ H2) as [H2' _].
  apply Forall_cons_1 in H5 as [Hf H5]. cbn in Hf. pose proof (tk_bounds _ _ H3) as Hb.
  constructor; cbn; rewrite ?Eo, ?Ea, ?Eg; try done.
  - intros Hl. specialize (H4 Hl). rewrite Hw in H4. destruct H4 as (i & l & [I1 I2 I3 ->]). exists (peer_next p'), 0%nat.
    constructor; rewrite ?Eg; [by rewrite I1|lia|by rewrite Hm|lia].
  - intros a Ha'. destruct (H9 a Ha') as [Hh [?|(_ & Hn & _)]]; [by split; [|left]|]. by rewrite Hout in Hn.
  - intros Hm'. congruence.
Qed.

Lemma Inv_accept s ask a told p' :
  Inv s → n_ask s = Some ask → accepts (length (peer_got (n_peer s))) ask a told → peer_step (n_peer s) (P_open told) p' →
  Inv (Net (n_con s) p' [] [] None (Some a) false (n_subs s)).
Proof.
  intros [H1 H2 H3 H4 H5 H6 H7 H8 H9 H10 H11 H12] Hask Hacc Hs. pose proof (peer_open_law _ _ _ Hs) as (Eg & Eo & Ea & En).
  pose proof (tk_bounds _ _ H3) as Hb. specialize (H8 ask Hask). pose proof (asks_handshake _ _ H8) as Hh.
  destruct (handshake_state _ Hh) as (N1 & _).
  assert (refusal msgr2 a = false ∧ (Z.of_nat (peer_next p') <= in_seq (con_q (n_con s))) ∧
    (msgr2 = true → Z.of_nat (peer_next p') = in_seq (con_q (n_con s))) ∧ ∀ o i as' an w subs, grants (Net (n_con s) p' o i as' an false subs) a)
    as (Hr & Hle & Heq & Hg).
  { destruct ask as [| | |cs gs| |gs ck|cc sc gs cs ms]; try done; cbn in Hacc, H8.
    - destruct a as [| | | |tag ? ?]; try done. destruct tag; try done. subst told. destruct H8 as [Hm _]. split; [done|]. split; [lia|].
      by rewrite Hm.
    - destruct a as [? ck'| | | |]; try done. destruct Hacc as [Hck ->], H8 as [Hm Hst]. destruct (H10 Hm (proj1 H11 Hst)) as (_ & _ & Hz & _).
      split; [done|]. split; [lia|]. split; [lia|done].
    - destruct a as [|seq| | |]; try done. destruct Hacc as [-> ->], H8 as (Hm & _ & ->). split; [done|]. split; [lia|]. split; [lia|].
      intros. cbn. by rewrite Eo. }
  constructor; cbn; rewrite ?Eo, ?Ea, ?Eg; try done.
  - by eapply outs_lost.
  - intros _. exists (peer_next p'), 0%nat. constructor; rewrite ?Eg; [done|lia|done|lia].
  - intros a' [= <-]. split; [done|]. right. split; [done|]. split; [done|]. apply (Hg [] [] None (Some a) [] (n_subs s)).
  - intros Hm Hz. by destruct (H10 Hm Hz) as (? & ? & ? & _).
Qed.

Lemma Inv_exchange s cs gs cs' gs' :
  Inv s → n_ask s = Some (F_CONNECT cs gs) →
  Inv (Net (n_con s) (n_peer s) [] [F_SEQ (Z.of_nat (length (peer_got (n_peer s))))] None (Some (A_V1 TAG_SEQ cs' gs')) true (n_subs s)).
Proof.
  intros [H1 H2 H3 H4 H5 H6 H7 H8 H9 H10 H11 H12] Hask. pose proof (tk_bounds _ _ H3) as Hb.
  specialize (H8 _ Hask). pose proof (asks_handshake _ _ H8) as Hh. destruct (handshake_state _ Hh) as (N1 & _). destruct H8 as [Hm _].
  constructor; cbn; try done.
  - by eapply outs_lost.
  - intros _. exists (Z.to_nat (in_seq (con_q (n_con s)))), 0%nat. constructor; [done|lia|lia|done].
  - constructor; [cbn; lia|done].
  - intros a [= <-]. split; [done|]. by right.
  - intros Hm' Hz. by destruct (H10 Hm' Hz) as (? & ? & ? & _).
Qed.

Lemma Inv_refuse s ask a :
  Inv s → n_ask s = Some ask → refusal msgr2 a = true →
  Inv (Net (n_con s) (n_peer s) (n_out s) (n_in s) None (Some a) (n_wait s) (n_subs s)).
Proof.
  intros [H1 H2 H3 H4 H5 H6 H7 H8 H9 H10 H11 H12] Hask Hr.
  pose proof (asks_handshake _ _ (H8 _ Hask)) as Hh. destruct (handshake_state _ Hh) as (N1 & _).
  constructor; cbn; try done.
  - intros [?|(a' & [= <-] & Hr')]; [done|congruence].
  - intros a' [= <-]. by split; [|left].
Qed.

Lemma Inv_step s s' : Inv s → step s s' → Inv s'.
Proof.
  intros HI Hs. destruct Hs as [s e ret c' Hr E|s m p' Hlt Hp|s f p' Hw Hp|s f w p' Hw Ho Hp|s n w p' Hw Ho Hp|s ask a told p' Ha Hc Hp|s cs gs cs' gs' Ha|s ask a Ha Hr].
  - pose proof (handled_all s e HI Hr) as Hh. unfold handled, wpst in Hh. rewrite E in Hh. apply Hh.
  - by eapply Inv_give.
  - by eapply Inv_send.
  - by eapply Inv_peer_read.
  - by eapply Inv_told.
  - by eapply Inv_accept.
  - by eapply Inv_exchange.
  - by eapply Inv_refuse.
Qed.

Lemma Inv_init : Inv (net_init msgr2).
Proof.
  destruct peer_start_law as (Eg & Eo & Ea). constructor; cbn; rewrite ?Eg, ?Eo, ?Ea; try done.
  - exists [], [], 0%nat, 0%nat. constructor; cbn; try done. split; [apply NoDup_nil_2|done].
  - by intros [?|(? & ? & _)].
Qed.

Lemma Inv_steps s s' : Inv s → rtc step s s' → Inv s'.
Proof. intros HI Hr. induction Hr as [|s s1 s2 Hs Hr IH]; [done|]. apply IH. by eapply Inv_step. Qed.
Lemma Inv_reachable s : reachable HZ round_jiffies_relative msgr2 s → Inv s.
Proof. apply Inv_steps, Inv_init. Qed.
End invariant.

(** Version 2 counts a message that it skips as old, so that the next new one is old as well. *)
Lemma v2_old_message_counted seq ack msg skip middle_ok unlocked unlocked' c :
  0 <= seq <= in_seq (con_q c) → in_seq (con_q c) < 2 ^ 63 - 1 →
  wpst (v2_read_message seq ack msg skip middle_ok unlocked unlocked') c (λ ret c',
    ret = 0 ∧ dispatched c' = dispatched c ∧ in_seq (con_q c') = in_seq (con_q c) + 1).
Proof.
  intros Hs Hr. unfold v2_read_message, process_message_header. do 2 apply wpst_bind. apply wpst_get.
  rewrite seq_ahead_small, (proj2 (Z.ltb_lt _ _)) by lia. apply wpst_ret. cbn [Z.ltb Z.eqb Z.compare].
  apply wpst_bind, wpst_bind, wpst_modify, wpst_modify, wpst_ret. cbn. by rewrite u64_small by lia.
Qed.

(** * Progress *)
Section progress.
Context (HZ : Z) (round_jiffies_relative : Z → Z) (msgr2 : bool) `{P : Peer, !PeerLaws}.
Implicit Types (s : net) (e : con_event) (c : ceph_connection).
Local Abbreviation OPEN c := (con_state c = CEPH_CON_S_OPEN).
Local Abbreviation step := (step HZ round_jiffies_relative msgr2).
Local Abbreviation Inv := (Inv msgr2).

(** What an end has been given stays. *)
Definition same_given s s' : Prop := n_subs s' = n_subs s ∧ peer_given (n_peer s') = peer_given (n_peer s).

(** Some state with [Q] can be reached, with the same messages. *)
Definition can s (Q : net → Prop) : Prop := ∃ s', rtc step s s' ∧ same_given s s' ∧ Inv s' ∧ Q s'.

Lemma can_now s (Q : net → Prop) : Inv s → Q s → can s Q.
Proof. intros HI HQ. by exists s. Qed.
Lemma can_then s (Q R : net → Prop) : can s Q → (∀ s', Inv s' → Q s' → can s' R) → can s R.
Proof.
  intros (s1 & R1 & [E1 F1] & I1 & H1) HR. destruct (HR s1 I1 H1) as (s2 & R2 & [E2 F2] & I2 & H2).
  exists s2. split; [by etrans|]. split; [split; congruence|done].
Qed.
Lemma can_step s s' (Q : net → Prop) : Inv s → step s s' → same_given s s' → (Inv s' → can s' Q) → can s Q.
Proof.
  intros HI Hs Hg HQ. apply (can_then s (λ s1, s1 = s')); [|by intros s1 I1 ->; apply HQ].
  exists s'. split; [by apply rtc_once|]. split; [done|]. split; [by eapply Inv_step|done].
Qed.
(** An event of the connection, with what its operation does. *)
Lemma can_event s e (R : ceph_connection → Prop) (Q : net → Prop) :
  Inv s → ready msgr2 s e → wpst (con_op HZ round_jiffies_relative msgr2 s e) (n_con s) (λ _ c', R c') →
  same_given s (after s e (n_con s)) → (∀ c', R c' → Inv (after s e c') → can (after s e c') Q) → can s Q.
Proof.
  intros HI Hr Hw Hg HQ. apply wp_exists in Hw as ([ret c'] & E & HR).
  eapply can_step; [done|by eapply step_con| |by apply HQ].
  destruct e; try exact Hg. unfold after. by destruct (_ =? _).
Qed.

Lemma can_preopen s : Inv s → can s (λ s', con_state (n_con s') = CEPH_CON_S_PREOPEN).
Proof.
  assert (∀ s, Inv s → con_state (n_con s) = CEPH_CON_S_PREOPEN ∨ con_state (n_con s) = CEPH_CON_S_STANDBY →
    can s (λ s', con_state (n_con s') = CEPH_CON_S_PREOPEN)) as Hidle.
  { intros s1 HI [Hst|Hst]; [by apply can_now|].
    eapply (can_event s1 E_KEEPALIVE (λ c', con_state c' = CEPH_CON_S_PREOPEN)); [done|done| |done|].
    - cbn [con_op]. apply wpst_bind. eapply wpst_mono; [apply ceph_con_keepalive_core|]. intros [] c' Ec. apply wpst_ret.
      injection Ec as _ -> _ _ _ _ _. cbn. by rewrite Hst.
    - intros c' Hc' HI'. by apply can_now. }
  intros HI. destruct (decide (con_state (n_con s) = CEPH_CON_S_PREOPEN)) as [|N1]; [apply Hidle; [done|by left]|].
  destruct (decide (con_state (n_con s) = CEPH_CON_S_STANDBY)) as [|N2]; [apply Hidle; [done|by right]|].
  eapply (can_event s E_FAULT (λ c', con_state c' = CEPH_CON_S_PREOPEN ∨ con_state c' = CEPH_CON_S_STANDBY)); [done|done| |done|].
  - cbn [con_op]. apply wpst_bind. eapply wpst_mono; [apply con_fault_core, HI|]. intros [] c' (st & Hst & Ec). apply wpst_ret.
    by injection Ec as _ -> _ _ _ _ _.
  - intros c' Hc' HI'. by apply Hidle.
Qed.

(** From there a session can be opened. *)
Definition up s : Prop := OPEN (n_con s) ∧ n_wait s = false.

Lemma can_ask s : Inv s → con_state (n_con s) = CEPH_CON_S_PREOPEN → can s (λ s', n_ask s' ≠ None).
Proof.
  intros HI Hst.
  eapply (can_event s (E_CONNECT true 0) (λ c', con_sock c' = true ∧
    con_state c' = if msgr2 then CEPH_CON_S_V2_BANNER_PREFIX else CEPH_CON_S_V1_BANNER)); [done|done| |done|].
  { pose proof (inv_con _ _ HI) as [G1 G2 _ _ G5 _]. cbn [con_op]. destruct msgr2;
      (eapply wpst_mono; [first [apply v2_connect_core|apply v1_connect_core]; auto|]); intros ret c' Ec;
      by injection Ec as _ -> -> _ _ _ _. }
  intros c1 [Hk Hst1] HI1. set (s1 := after s (E_CONNECT true 0) c1) in *.
  eapply (can_event s1 (E_ASK 1) (λ c', ∃ st ask, core c' = core (asked st [ask] c1))); [done|done| |done|].
  { cbn [con_op]. eapply wpst_mono; [apply ask_session_core|]. intros ret c' (st & ask & Ec & _). by exists st, ask. }
  intros c2 (st & ask & Ec) HI2. apply can_now; [done|]. cbn [after n_ask].
  rewrite (new_frames_app _ _ [ask]); [done|]. by injection Ec as _ _ _ _ -> _ _.
Qed.

Lemma can_be_granted s : Inv s → n_ask s ≠ None → can s (λ s', ∃ a, n_answer s' = Some a ∧ n_wait s' = false ∧
  match a with
  | A_IDENT _ _ => con_state (n_con s') = CEPH_CON_S_V2_SESSION_CONNECT
  | A_RECONNECT_OK _ => con_state (n_con s') = CEPH_CON_S_V2_SESSION_RECONNECT
  | A_V1 TAG_READY _ _ => True
  | _ => False
  end).
Proof.
  intros HI Hn. destruct (n_ask s) as [ask|] eqn:Ha; [|done]. pose proof (inv_ask _ _ HI ask Ha) as Has.
  pose proof (tk_bounds _ _ (inv_took _ _ HI)) as Hb.
  assert (∀ a told, accepts (length (peer_got (n_peer s))) ask a told → (∀ n, told = Some n → 0 <= n <= Z.of_nat (length (peer_given (n_peer s)))) →
    ∃ p', can s (λ s', s' = Net (n_con s) p' [] [] None (Some a) false (n_subs s))) as Hacc.
  { intros a told Hac Ht. destruct (peer_can_open told (n_peer s) Ht) as [p' Hp]. exists p'.
    eapply can_step; [done|by eapply step_accept|split; [done|by apply (peer_open_law _ _ _ Hp)]|]. intros HI'. by apply can_now. }
  destruct ask as [| | |cs gs| |gs ck|cc sc gs cs ms]; try done; cbn in Has.
  - destruct (Hacc (A_V1 TAG_READY 0 0) None eq_refl) as [p' Hp]; [done|]. eapply can_then; [exact Hp|].
    intros s' HI' ->. apply can_now; [done|]. by eexists.
  - destruct (Hacc (A_IDENT 1 1) (Some 0)) as [p' Hp]; [done|intros n [= <-]; lia|]. eapply can_then; [exact Hp|].
    intros s' HI' ->. apply can_now; [done|]. eexists. by repeat split; try apply Has.
  - destruct (Hacc (A_RECONNECT_OK (Z.of_nat (length (peer_got (n_peer s))))) (Some ms)) as [p' Hp]; [done|intros n [= <-]; destruct Has as (_ & _ & ->); lia|].
    eapply can_then; [exact Hp|]. intros s' HI' ->. apply can_now; [done|]. eexists. by repeat split; try apply Has.
Qed.

Lemma can_open s : Inv s → can s up.
Proof.
  intros HI. eapply can_then; [by apply can_preopen|]. intros s1 HI1 H1. eapply can_then; [by apply can_ask|].
  intros s2 HI2 H2. eapply can_then; [by apply can_be_granted|]. intros s3 HI3 (a & Ha & Hw & Hm).
  eapply (can_event s3 E_ANSWER (λ c', OPEN c')); [done|cbn; by rewrite Ha| |unfold after; by destruct (_ =? _)|].
  - cbn [con_op]. rewrite Ha. destruct a as [gs ck|seq| | |tag cs gs]; try done; cbn [process_answer].
    + eapply wpst_mono; [apply (process_server_ident_core msgr2)|]. intros ret c'. rewrite Hm, Z.eqb_refl. by intros [[Ho _] _].
    + eapply wpst_mono; [apply (process_session_reconnect_ok_core msgr2)|]. intros ret c'. rewrite Hm, Z.eqb_refl. by intros [[Ho _] _].
    + by destruct tag.
  - intros c' Ho HI'. apply can_now; [done|]. unfold up, after. rewrite Ho. by split.
Qed.

(** Everything can be sent and read. *)
Lemma can_flush k s :
  Inv s → up s → (length (out_queue (con_q (n_con s))) + (if f_keepalive_pending (con_flags_ (n_con s)) then 1 else 0) ≤ k)%nat →
  can s (λ s', up s' ∧ out_queue (con_q (n_con s')) = []).
Proof.
  revert s. induction k as [|k IH]; intros s HI Hu Hk.
  { apply can_now; [done|]. split; [done|]. apply nil_length_inv; lia. }
  destruct (out_queue (con_q (n_con s))) as [|x rest] eqn:Eq; [by apply can_now|].
  eapply (can_event s E_WRITE _); [done|done| |done|].
  { cbn [con_op]. apply wpst_bind. eapply wpst_mono; [apply (write_next_open msgr2), Hu|]. intros b c' Hc. apply wpst_ret. exact Hc. }
  cbn beta. intros c' (Ho & Hka & Hq) HI'. apply IH; [done|by split; [|apply Hu]|]. cbn. rewrite Hka, Hq, Eq.
  destruct (f_keepalive_pending _); simpl in *; lia.
Qed.

Lemma can_peer_send k s :
  Inv s → up s → out_queue (con_q (n_con s)) = [] → (length (peer_given (n_peer s)) - peer_next (n_peer s) ≤ k)%nat →
  can s (λ s', up s' ∧ out_queue (con_q (n_con s')) = [] ∧ peer_next (n_peer s') = length (peer_given (n_peer s'))).
Proof.
  revert s. induction k as [|k IH]; intros s HI [Ho Hw] Hq Hk.
  all: assert (peer_next (n_peer s) ≤ length (peer_given (n_peer s)))%nat as Hle.
  1, 3: destruct (inv_in _ _ HI (or_introl Ho)) as (i & l & [_ [_ B] _ N]); rewrite Hw in N; lia.
  - apply can_now; [done|]. split; [done|]. split; [done|lia].
  - destruct (decide (peer_next (n_peer s) = length (peer_given (n_peer s)))) as [|Hne]; [by apply can_now|].
    destruct (peer_can_send (n_peer s)) as (m & seq & ack & p' & Hp); [lia|].
    pose proof (peer_send_law _ _ _ Hp) as (Eg & _ & _ & _ & _ & _ & En).
    eapply can_step; [done|by eapply step_peer_send|by split|]. intros HI'. apply IH; [done|done|done|]. cbn. rewrite Eg, En. lia.
Qed.

Definition all_sent s : Prop :=
  up s ∧ out_queue (con_q (n_con s)) = [] ∧ peer_next (n_peer s) = length (peer_given (n_peer s)).

Lemma can_drain w s : n_in s = w → Inv s → all_sent s → can s (λ s', all_sent s' ∧ n_in s' = []).
Proof.
  revert s. induction w as [|f w IH]; intros s Hw HI Hs; [by apply can_now|]. pose proof Hs as ([Ho Hwait] & Hq & En).
  assert (ready msgr2 s E_READ) as Hr by (split; [done|by rewrite Hw]).
  pose proof (handled_all HZ round_jiffies_relative msgr2 s E_READ HI Hr) as Hh.
  eapply (can_event s E_READ (λ c', OPEN c' ∧ out_queue (con_q c') = [])); [done|done| |done|].
  { eapply wpst_mono; [exact Hh|]. intros ret c' [_ Hc]. destruct (Hc eq_refl) as (_ & ? & ?). auto. }
  intros c' [Ho' Hq'] HI'. apply IH; [cbn; by rewrite Hw|done|done].
Qed.

Lemma can_peer_drain w s :
  n_out s = w → Inv s → all_sent s → n_in s = [] → can s (λ s', all_sent s' ∧ n_in s' = [] ∧ n_out s' = []).
Proof.
  revert s. induction w as [|f w IH]; intros s Hw HI Hs Hn; [by apply can_now|]. pose proof Hs as ([Ho Hwait] & Hq & En).
  pose proof (inv_out _ _ HI) as HO. rewrite Hw in HO. destruct (outs_peer_read _ _ _ _ _ _ HO) as [_ Hseq].
  destruct (peer_can_read f (n_peer s) Hseq) as [p' Hp]. pose proof (peer_read_law _ _ _ Hp) as (Eg & En' & _ & _).
  eapply can_step; [done|by eapply step_peer_read|by split|]. intros HI'. apply IH; [done|done| |done].
  split; [done|]. split; [done|]. cbn. by rewrite En', Eg.
Qed.
End progress.

(** * The theorems *)

(** Each end's owner has got a front part of what the other was given, in order and each message once; and the
    connection still has all the others on its queues, in order, behind some that the peer has got. *)
Definition delivered `{P : Peer} (s : net) : Prop :=
  peer_got (n_peer s) `prefix_of` n_subs s ∧
  dispatched (n_con s) `prefix_of` peer_given (n_peer s) ∧
  ∃ old, old `sublist_of` peer_got (n_peer s) ∧
    map q_msg (out_sent (con_q (n_con s)) ++ out_queue (con_q (n_con s))) =
      old ++ drop (length (peer_got (n_peer s))) (n_subs s).
(** All has been delivered. *)
Definition all_delivered `{P : Peer} (s : net) : Prop :=
  peer_got (n_peer s) = n_subs s ∧ dispatched (n_con s) = peer_given (n_peer s).

Section delivery.
Context (HZ : Z) (round_jiffies_relative : Z → Z) (msgr2 : bool) `{P : Peer, !PeerLaws}.

(** C5: A connection that is not lossy, with any peer that keeps to [PeerLaws].  Whatever either end is
    given to send (messages may be revoked until they are sent), whatever faults come in between, in
    a session or at any point of a handshake, and however often it is opened again: the messages each
    way are delivered in order and each once; those the peer has not got are still on the queues; in version
    2 none that it has got is sent again; and whatever happens to the connection next, it
    handles without hitting an assertion, and no frame of a session is found wrong. *)
Theorem delivered_in_order (s : net) :
  reachable HZ round_jiffies_relative msgr2 s →
  delivered s ∧
  (msgr2 = true → ∀ m seq ack, F_MESSAGE m seq ack ∈ n_out s → Z.of_nat (length (peer_got (n_peer s))) < seq) ∧
  (∀ e, ready msgr2 s e → ∃ ret c', con_op HZ round_jiffies_relative msgr2 s e (n_con s) = Ret (ret, c') ∧ (e = E_READ → 0 <= ret)).
Proof.
  intros Hr. pose proof (Inv_reachable _ _ _ _ Hr) as HI. clear Hr. destruct (inv_out _ _ HI) as (A & B & k & o & F). split; [|split].
  - split; [|split].
    + rewrite (of_got _ _ _ _ _ _ _ _ _ F) at 1. apply prefix_take.
    + rewrite (tk_dispatched _ _ (inv_took _ _ HI)). apply prefix_take.
    + exists (map q_msg A). rewrite (of_queue _ _ _ _ _ _ _ _ _ F), map_app, number_msgs. split; [|done].
      rewrite <- (number_msgs o 0 (peer_got (n_peer s))). apply (fmap_sublist q_msg), (of_old _ _ _ _ _ _ _ _ _ F).
  - intros Hm m seq ack Hin. destruct (of_v2 _ _ _ _ _ _ _ _ _ F Hm) as [-> _]. pose proof (of_wire _ _ _ _ _ _ _ _ _ F) as Hw. cbn in Hw.
    assert ((m, seq) ∈ messages (n_out s)) as Hin' by (apply list_elem_of_omap; by exists (F_MESSAGE m seq ack)).
    rewrite Hw in Hin'. by apply seqs_above in Hin'.
  - intros e Hr. pose proof (handled_all HZ round_jiffies_relative msgr2 s e HI Hr) as Hh.
    apply wp_exists in Hh as ([ret c'] & E & _ & Hc). exists ret, c'. split; [done|]. intros He. by apply Hc.
Qed.

(** C7: From every state that such a connection can get to, everything that either end has been given
    can still be delivered to the other, if its peer can always go on as [PeerLaws] says: there is a
    run to a state with all delivered. *)
Theorem delivery_completes (s : net) :
  reachable HZ round_jiffies_relative msgr2 s →
  ∃ s', rtc (step HZ round_jiffies_relative msgr2) s s' ∧ same_given s s' ∧ all_delivered s'.
Proof.
  intros Hr. pose proof (Inv_reachable _ _ _ _ Hr) as HI. clear Hr.
  assert (can HZ round_jiffies_relative msgr2 s (λ s', all_sent s' ∧ n_in s' = [] ∧ n_out s' = [])) as (s' & Hr & Hg & HI' & ((Ho & Hw) & Hq & En) & Hin & Hout).
  { eapply can_then; [by apply can_open|]. intros s1 I1 U1. eapply can_then; [by eapply can_flush|].
    intros s2 I2 [U2 Q2]. eapply can_then; [by eapply can_peer_send|]. intros s3 I3 H3.
    eapply can_then; [by eapply can_drain|]. intros s4 I4 [H4 N4]. by eapply can_peer_drain. }
  exists s'. split; [done|]. split; [done|]. split.
  - eapply outs_all; [done|done| |apply (inv_out _ _ HI')]. by rewrite Hout.
  - eapply (ins_all msgr2); [|done|apply (inv_took _ _ HI')]. rewrite <- Hin, <- Hw. apply (inv_in _ _ HI'). by left.
Qed.
End delivery.

(** * A run

    Two messages to [queue_peer], the first lost by a fault, which comes a second time while the session is
    opened again; then both arrive, and one comes back. *)
#[local] Existing Instance queue_peer_end.
Ltac ran := vm_compute; reflexivity.
Ltac is_ready := cbn; repeat split; first [done|apply not_elem_of_nil|by intros ?%list_elem_of_singleton].
Ltac run_event e := eapply rtc_l; [eapply (step_con _ _ _ _ e); [is_ready|ran]|].
Ltac run_accept a told := eapply rtc_l; [eapply (step_accept _ _ _ _ _ a told); [ran|by repeat split|ran]|].

Definition ex_reached (s : net) : Prop :=
  reachable 100 (λ x, x) true s ∧ peer_got (n_peer s) = [7] ∧ n_subs s = [7; 8] ∧ peer_given (n_peer s) = [9].
Lemma ex_run : ∃ s, ex_reached s.
Proof.
  eexists. split.
  - unfold reachable.
    run_event (E_SEND 7). run_event (E_CONNECT true 0). run_event (E_ASK 5). run_accept (A_IDENT 1 6) (Some 0).
    run_event E_ANSWER. run_event E_WRITE. run_event E_FAULT. run_event (E_SEND 8).
    run_event (E_CONNECT true 0). run_event E_FAULT. run_event (E_CONNECT true 0). run_event (E_ASK 5).
    run_accept (A_RECONNECT_OK 0) (Some 0). run_event E_ANSWER. run_event E_WRITE. run_event E_WRITE.
    eapply rtc_l; [eapply step_peer_read; ran|]. eapply rtc_l; [eapply (step_give _ _ _ _ 9); ran|].
    apply rtc_refl.
  - repeat split; ran.
Qed.

Lemma delivered_in_order_witness : ∃ s, ex_reached s ∧ delivered s.
Proof.
  destruct ex_run as (s & Hs). exists s. split; [exact Hs|]. exact (proj1 (delivered_in_order 100 (λ x, x) true s (proj1 Hs))).
Defined.

Lemma delivery_completes_witness :
  ∃ s, ex_reached s ∧ ∃ s', rtc (step 100 (λ x, x) true) s s' ∧ same_given s s' ∧ all_delivered s'.
Proof.
  destruct ex_run as (s & Hs). exists s. split; [exact Hs|]. exact (delivery_completes 100 (λ x, x) true s (proj1 Hs)).
Defined.
